(* ===== verification/_CoqProject ===== *)
-Q . S2P
Prelude.v
Prog.v
Float64.v
BTree.v
Text.v
Json.v
RunTypes.v
Normalization.v
Aggregation.v
Scorecard.v
CircuitBreaker.v
StorageFormats.v
Codec.v
CodecText.v
Identity.v
CaseReader.v
EvaluatorRef.v
ProfileValidation.v
EvaluationPlan.v
ShardTables.v
ReceiptGates.v
LocalAdmission.v
ShardRows.v
Settlement.v
ChunkLease.v
AgentClient.v
ExecutionAttempts.v
ShardSummary.v
PageScheduler.v
ShardMachine.v
ShardRecount.v
ShardRefinement.v
ShardWorld.v
ControlTables.v
RunPlanning.v
RunReader.v
PlanLedger.v
PlanLifecycle.v
LocalSeed.v
RunAdmission.v
MoveTables.v
ShardMove.v
MoveInvariant.v
MovePages.v
MoveRely.v
MoveExact.v
MovePrepare.v
MoveCutover.v
MoveDelivery.v
MoveWorker.v
MoveRuns.v
MoveHandover.v
Rebalance.v
RebalanceApply.v
PlacementAdmin.v
SetPlacement.v
RunDispatch.v
RunFinalize.v
RunCancel.v
RunFinality.v
CancelFence.v
CancelStops.v
RunVerdict.v
