(* ===== verification/Prelude.v ===== *)
(** * Agent Vigilo: verification of the evaluation engine

    Agent Vigilo runs an AI agent over the cases of a dataset, scores its
    answers with WebAssembly evaluators and decides whether a run passes.  This
    library models the decision-making core of the program in
    [src/vigilo/src] as executable functions, translated function by function,
    and proves what makes it correct.

    ** The program and how it is modelled

    A run profile names an agent, groups of evaluator bindings and scorecard
    gates.  Before a run is created the profile is validated against the
    dataset and the evaluator registry.  The dataset is stored as immutable,
    content-addressed objects: batches of canonical JSON lines, index pages
    over case ordinals, manifests and per-shard plans.  A control database
    keeps runs, placements and dispatch cursors; execution databases keep the
    chunks, executions, attempts, results and summaries of the shards placed
    on them.  Workers claim chunks under a lease, read their cases through the
    index, plan the evaluators of each case, invoke the agent behind circuit
    breakers, normalize measurements to scores, aggregate one execution and
    store it; a terminal chunk is settled into a receipt, receipts are folded
    page by page into the sealed summary of a shard, and a coordinator merges
    the sealed summaries into the verdict of the run.  A run is created by a
    planner that streams the cases once into a published plan, and by an admission
    that seeds the execution databases from that plan before it activates the run.
    Operators move shards between databases while workers go on writing.  A
    coordinator dispatches the chunks of a run window by window, and an operator may
    cancel a run at any time, also while it is being created.

    Foundations:
    - [Prelude] (this file): results ([anyhow::Result]), checked machine
      integers, loops that can fail with their induction rules, list lemmas and
      the tactics [inv_ok] and [case_if].
    - [Prog]: programs over a world, as sequences of awaited operations that may
      fail before or after their effect.
    - [Float64]: [f64] as IEEE 754 binary64 on the Standard Library's
      [SpecFloat], with the order lemmas that comparisons need, NaN included.
    - [BTree]: [BTreeMap] and [BTreeSet] as strictly sorted association lists.
    - [Text]: strings as UTF-8 bytes, white space and identifier predicates.
    - [Json]: [serde_json::Value] and [canonical_json].

    Contracts and pure components:
    - [RunTypes]: the contract records of contracts/run.rs and the evaluator
      boundary of contracts/evaluator.rs.
    - [Normalization]: contracts/normalization.rs.
    - [Aggregation]: contracts/aggregation.rs.
    - [Scorecard]: contracts/scorecard.rs.
    - [CircuitBreaker]: circuit_breaker.rs, with a step relation over breakers
      and permits in flight.
    - [StorageFormats]: contracts/case_storage/limits.rs and formats.rs, with
      contracts/evaluator_abi.rs; the class [StorageDocument] is the source's
      trait.
    - [Codec]: contracts/case_storage/codec.rs, against the interfaces
      [Encoding] and [Serde] (JSON text and derived conversions) with their laws
      [PrintLaws] and [SerdeLaws]; [CodecText] instantiates them with a concrete
      text layer and discharges the laws for the witnesses.
    - [Identity]: contracts/case_storage/identity.rs, against [CompactLaws].
    - [CaseReader]: case_reader/cache.rs and the index cursor of case_reader.rs.
    - [RunPlanning]: run_planning/accumulator.rs and the fold of run_planning.rs
      over the case stream, with models/run_chunk.rs and case_projection.rs.
    - [RunReader]: [RunReader::open_inner], [prepare] and the delivery of cases in
      case_reader.rs.
    - [EvaluatorRef]: contracts/evaluator_ref.rs.
    - [ProfileValidation]: db/workflows/run_profile_validation.rs and what it
      calls of evaluator_abi.rs, db/tables/evaluators.rs and agent_client.rs.
    - [EvaluationPlan]: the worker's plan for a case in
      db/workflows/execution_processing.rs, and [worker_case] of case_reader.rs.
    - [AgentClient]: agent_client.rs with its limits.rs and failure.rs; the HTTP
      exchange is an argument.

    Execution databases:
    - [ShardTables]: the rows of migrations 0016 to 0028 and the statements'
      common forms (guarded updates, ordered pages, upserts).
    - [ReceiptGates]: the gate scorecard column of receipt.sql.
    - [LocalAdmission]: local_shard_admission.rs and its queries, and the
      admission guards of context/database.rs.
    - [ShardRows]: the shard-owned rows of an execution database by key, the view
      that shard moves have of the tables.
    - [Settlement]: run_shard_summary/settlement.rs, receipt.sql and the summary
      initialization of run_shard_summary/queries.rs.
    - [ChunkLease]: chunk_processing.rs, the execution side of run_dispatch.rs
      (dispatch windows, lease recovery) and of run_cancel.rs.
    - [ExecutionAttempts]: attempt allocation, result persistence, heartbeats
      and terminal transitions of execution_processing.rs and its queries.
    - [ShardSummary]: run_shard_summary/aggregation.rs and plan.rs, the page
      transaction that folds receipts and seals a summary.
    - [PageScheduler]: run_shard_summary/aggregation_scheduling.rs, as a step
      relation over page operations in flight.

    Machines and compositions:
    - [ShardMachine]: what one statement may do to the tables ([micro]), the
      invariant of the tables and what no statement takes back.
    - [ShardRecount]: receipts stay equal to a recount of their chunk.
    - [ShardRefinement]: every transaction is a sequence of micro-steps.
    - [ShardWorld]: the step relation of an execution database with its clock,
      issued lease tokens and the handles workers hold, and the theorems over
      all interleavings.
    - [ControlTables]: the rows of migrations 0010 to 0015 and 0027.
    - [PlanLedger]: run_plan.rs with its queries, batches and admission: leases,
      plan objects, publication, claims and activation; [PlanLifecycle] is the
      step relation of these transactions with its invariant.
    - [LocalSeed]: run_plan/admission/placement.rs, run_create.rs and the writes
      that seed an execution database.
    - [RunAdmission]: run_admission.rs and run_admission/lease.rs as a program over
      the control database and the execution databases.

    Shard moves (db/workflows/shard_admin.rs and its queries):
    - [MoveTables]: routes, move operations, page checkpoints, change capture and
      its trigger, the reads and writes of a copy.
    - [ShardMove]: [move_shard_placement] and [abort_shard_move] as programs: before
      every statement other processes act and every statement may fail.
    - [MoveInvariant]: what open moves satisfy between any two statements;
      [MovePages]: what pages and batches of changed keys hold.
    - [MoveRely]: the interference a move tolerates and triples of partial
      correctness under it; [MoveExact] (copy and replay), [MovePrepare] (up to
      draining) and [MoveCutover] (the source transaction and after) prove one
      triple per statement; [MoveWorker] shows that captured worker writes are
      such interference; [MoveHandover] composes them.
    - [MoveDelivery]: a move that succeeds has recorded its shard on the target.
    - [MoveRuns]: evaluated runs, among them three that lose rows or get stuck.

    Shard administration (db/workflows/shard_admin.rs, queries/rebalance.rs and
    queries/administration.rs):
    - [Rebalance]: which shards a plan moves, the ledger of operations and items,
      and the machine of its statements.
    - [RebalanceApply]: planning, applying, verifying and cancelling as programs
      over the ledger and the moves.
    - [PlacementAdmin]: registration, activation, drain and disable of database
      placements, and the machine of all transactions that route a shard.
    - [SetPlacement]: routing an empty shard by hand.

    Dispatch, completion and cancellation of runs:
    - [RunDispatch]: the control side of run_dispatch.rs (route selection, the start
      of a run, cursors) and the two transactions of a dispatch window.
    - [RunFinalize]: run_finalize.rs and its queries.
    - [RunCancel]: run_cancel.rs and its queries as a program over the control
      database and the execution databases, with faults and interleaved steps of
      other processes.
    - [RunFinality]: the machine of all modelled transactions that write the runs,
      plans, cursors and events of the control database.
    - [CancelFence]: cancellation of a run that is still being created, against
      creators that go on writing.
    - [CancelStops]: cancellation on an execution database, against its workers.
    - [RunVerdict]: finalization over execution databases in any reachable
      state.

    Functions that update an argument in place return the new value; early
    returns and [?] are the error case of [result]; a loop is a fold, with the
    body a definition of its own.  Integers are [Z] with the width written out
    where the source checks, wraps or saturates; panics are explicit outcomes
    where they can happen.  Log lines are left out.

    A table is a finite map from its primary key to the other columns; a
    statement is a function on tables with its [WHERE] clause as a boolean
    function, constraint violations are errors, and a transaction maps a
    database to a result, so that an error leaves the database as it was.
    Finalization of attempts, whose statement commits also when the batch is
    refused, returns a database in both cases.  Transactions interleave as
    wholes: the sources lock the rows they decide on.  The clock and fresh
    identifiers are arguments; [World] makes the clock monotone and tokens
    fresh.  Rows another transaction holds ([SKIP LOCKED]) are an argument too.

    ** What the theorems show

    - The run: the gate a coordinator writes passes exactly when the scorecard
      passes and in every shard every chunk completed, every case has an
      execution and every execution passed or was skipped, whatever
      interleaving produced the summaries.
    - Run creation: planning in one pass computes the reference plan and succeeds
      on every valid input; plan tables stay consistent under any interleaving of
      planners and admissions; superseded leases are refused; a published plan is
      final; activation happens only over databases that hold the published
      chunks, which are the chunks the planner cut; a worker gets exactly the
      planned cases of its chunk.
    - Shard moves: a move keeps the move invariant under any faults and any
      tolerated interference, and hands a shard over only with its source closed
      and the target equal row by row.  The interference excludes two things the
      program allows, and both are shown to lose rows: an abort that stops half way
      and a second mover on an expired claim.
    - Shard administration: a routed shard always leads to a placement that
      serves it; a rebalance plan is bounded, takes only routes that may be moved (active, on a
      serving shard database, of a run that is not being created), and a drain plan
      takes all of these; its ledger
      reports completion only when every item completed, and a worker that lost its
      claim settles nothing; an item is reported as completed only when its shard was
      seen on the target; only an empty shard is re-routed by hand.
    - Execution databases: tables stay consistent in every reachable state; a
      worker whose lease was lost can write nothing under its handle; attempts
      stay within their budget; finished chunks and executions stay finished;
      receipts account for every execution and settlement is idempotent; sealed
      summaries are exact; recovery frees expired leases; admission refuses
      stale epochs for ever; page scheduling is bounded and fair.
    - Agent client: which failures are retried and when, and body limits.
    - Aggregation: completeness means exactly that each required binding has
      one valid score; an execution passes exactly under its stated conditions;
      optional evaluators cannot influence it.
    - Scorecards: merging shards is independent of their order, conserves every
      counter, covers every gate, and the run passes exactly when each gate's
      merged statistics meet its thresholds.
    - Profiles and plans: the acceptance condition of validation, its agreement
      with the streamed check of run creation, and that the worker's plan merges
      exactly the groups validation matched, so that for validated profiles
      completeness depends on results alone.
    - Circuit breakers: over every interleaving, at most one live probe per key
      and only that probe closes a circuit; thresholds, and absence of panics
      under the default configuration.
    - Storage: round trips of documents and of batches whose numbers are integers,
      batch reading that ends and
      accepts only complete batches, incremental identities equal to those of
      the whole document, index traversal that covers its range and terminates
      on any store content, caches that stay within bounds and return verified
      bytes, page and chain validation that implies partition and totals.
    - Normalization: scores in the unit interval for any input, exactness at
      configured points and intervals, binary search equal to linear scan.
    - Dispatch and cancellation: a dispatch window marks exactly its chunks and
      drains a cursor only when no chunk waits, whatever faults hit its two
      transactions; a cancelled run is final in the control database, has no open
      work on its databases and gets none later, and a creator that was admitted
      before the cancellation is fenced out.
    - Behaviours that differ from what the program documents are proved at
      concrete inputs, as examples: float overflow of weights and of a linear domain's width,
      validated profiles whose groups conflict in the worker, a planned evaluator
      count that exceeds what the worker runs, the three runs of [MoveRuns], and a
      fill plan that takes more than the excess of one placement.

    ** Fuel and bounds

    Recursion is structural except in a few places.  Binary search gets one
    more than the length of the slice, more than its halving needs.  Draining a batch
    gets one turn per line and one more; every turn but the last consumes a
    line.  An index traversal takes its fuel as an argument, and
    [cursor_terminates] proves the bound [page_cost] of the page-entry and
    height limits sufficient for every store content.  Settling the terminal
    chunks of a shard loops over pages of unsettled chunks;
    [settle_terminal_chunks_terminates] proves one turn more than there are
    unsettled chunks sufficient for every database, and cancellation uses it.
    The page loops of reading, admission, backfill and replay end when another
    process stops adding work, so they take their fuel as an argument and [None] is
    a loop that ran out; their theorems speak of every run that ends, for every fuel, and the
    evaluated runs and witnesses show that 20 turns end on the sample data.  So
    [move_hands_over] and [rebalance_apply_sound] are statements of partial
    correctness.

    ** Scope of the machines

    - [ShardWorld.step] has the transactions of workers, coordinators, recovery,
      dispatch, aggregation, cancellation and local admission.  Seeding and the
      writes on the target of a shard move are modelled by [LocalSeed],
      [RunAdmission] and [ShardMove], and are not steps of it.
    - [RunAdmission.admit_run] models the faults of an admission, not other
      processes between its turns; what fences those is [PlanLifecycle] and, for
      cancellation, [CancelFence].
    - [RunReader.read_bytes] is a function of the reference: reading an object again
      gives the same answer.
    - [RunAdmission.expected_manifest] computes its products in [Z]; the policy
      totals checked when a plan is opened keep them within [i32].
    - [PlanLifecycle.other_step] leaves out [delete_run_by_id] of db/tables/runs.rs,
      which nothing calls.
    - The text laws of [Codec] exclude numbers that are read as floats, since
      serde_json is built without float_roundtrip.

    ** Parameters

    Code outside the repository is an argument of the definitions that use it:
    BLAKE3 and the standard hasher, JSON printing and parsing, the blob store
    and the encoding of a reference, URL, HTTP-method and UUID text, the HTTP
    exchange ([AgentFunctions]), float sums and text of PostgreSQL
    ([ReceiptFunctions]) and derived serializers ([SummaryFunctions]).  Laws
    about them are class fields or hypotheses, and each theorem that needs one
    has a witness with a concrete instance.  The evaluators table is its rows,
    with the uniqueness its migration declares.

    ** What is not modelled

    Process and command-line code, broker, object-store and WebAssembly I/O,
    read-only status queries and the performance harness: they hold no state of
    their own that a theorem could speak of, or are code outside the repository.
    Of the modelled parts these pieces are left out: the coordinator's loop around
    dispatch, the file writer of the planner and the batch loop that feeds
    it, the discovery loop of admission recovery, the worker's concurrent case
    loop, the router's caches, dataset ingestion and the outbox relay. *)

From Stdlib Require Import ZArith Lia ZifyBool.
From stdpp Require Import base strings pretty numbers list.

(** ** Results

    [anyhow::Result<T>] and [Result<T, String>] are both [result T]: the error
    is its message.  Messages that the source builds with [format!] keep their
    constant text and their plainly printed arguments. *)

Inductive result (A : Type) : Type :=
| Ok (a : A)
| Err (e : string).

Arguments Ok {A} a.
Arguments Err {A} e.

#[global] Instance result_ret : MRet result := fun A a => Ok a.

#[global] Instance result_bind : MBind result := fun A B f m =>
  match m with
  | Ok a => f a
  | Err e => Err e
  end.

#[global] Instance result_fmap : FMap result := fun A B f m =>
  match m with
  | Ok a => Ok (f a)
  | Err e => Err e
  end.

(** [anyhow::ensure!(b, msg)]. *)
Definition ensure (b : bool) (msg : string) : result unit :=
  if b then Ok tt else Err msg.

(** [option.ok_or_else(|| msg)]. *)
Definition ok_or {A} (o : option A) (msg : string) : result A :=
  match o with
  | Some a => Ok a
  | None => Err msg
  end.

Definition is_ok {A} (r : result A) : bool :=
  match r with Ok _ => true | Err _ => false end.

(** A [for] loop whose body may fail: the state is threaded left to right and
    the first error is returned. *)
Fixpoint foldM {A S} (f : S -> A -> result S) (s : S) (l : list A) : result S :=
  match l with
  | [] => Ok s
  | a :: l' => s' ← f s a; foldM f s' l'
  end.

(** The same loop with the element's position, as [iter().enumerate()]. *)
Fixpoint foldiM {A T} (f : nat -> T -> A -> result T) (i : nat) (s : T) (l : list A) : result T :=
  match l with
  | [] => Ok s
  | a :: l' => s' ← f i s a; foldiM f (S i) s' l'
  end.

(** ** Machine integers

    A fixed-width integer is a [Z]; the operations that can leave the width
    are written out with their Rust behaviour. *)

Definition i16_max : Z := 32767.
Definition i32_max : Z := 2147483647.
Definition i32_min : Z := -2147483648.
Definition i64_max : Z := 9223372036854775807.
Definition i64_min : Z := -9223372036854775808.
Definition u32_max : Z := 4294967295.
Definition u64_max : Z := 18446744073709551615.
(** [usize] on the 64-bit targets the program is built for. *)
Definition usize_max : Z := u64_max.

Definition checked (lo hi v : Z) : option Z :=
  if (lo <=? v)%Z && (v <=? hi)%Z then Some v else None.

Definition i32_checked_add (a b : Z) : option Z := checked i32_min i32_max (a + b)%Z.
Definition i32_checked_sub (a b : Z) : option Z := checked i32_min i32_max (a - b)%Z.
Definition i64_checked_add (a b : Z) : option Z := checked i64_min i64_max (a + b)%Z.
Definition u64_checked_add (a b : Z) : option Z := checked 0 u64_max (a + b)%Z.
Definition usize_checked_add (a b : Z) : option Z := checked 0 usize_max (a + b)%Z.
Definition usize_checked_mul (a b : Z) : option Z := checked 0 usize_max (a * b)%Z.
Definition u64_wrapping_add (a b : Z) : Z := ((a + b) mod (u64_max + 1))%Z.
Definition u32_saturating_add (a b : Z) : Z := Z.min u32_max (a + b)%Z.
Definition saturating_sub (a b : Z) : Z := Z.max 0 (a - b)%Z.

(** [i32::try_from(n)] of an unsigned length. *)
Definition i32_try_from (n : Z) : result Z :=
  ok_or (checked i32_min i32_max n) "out of range integral type conversion attempted".

Definition zlen {A} (l : list A) : Z := Z.of_nat (length l).

(** [(lo..=hi).contains(&v)]. *)
Definition in_range (lo hi v : Z) : bool := ((lo <=? v) && (v <=? hi))%Z.

(** [option.is_none_or(p)] and [option.is_some_and(p)]. *)
Definition is_none_or {A} (p : A -> bool) (o : option A) : bool :=
  match o with Some a => p a | None => true end.
Definition is_some_and {A} (p : A -> bool) (o : option A) : bool :=
  match o with Some a => p a | None => false end.
Definition opt_is_some {A} (o : option A) : bool :=
  match o with Some _ => true | None => false end.
Definition opt_is_none {A} (o : option A) : bool := negb (opt_is_some o).

(** [if b { messages.push(msg) }]. *)
Definition when (b : bool) (msg : string) : list string := if b then [msg] else [].

Lemma when_nil b msg : when b msg = [] <-> b = false.
Proof. destruct b; naive_solver. Qed.

(** ** Inversion of successful computations *)

Lemma bind_Ok {A B} (m : result A) (f : A -> result B) b :
  (m ≫= f) = Ok b <-> exists a, m = Ok a /\ f a = Ok b.
Proof. destruct m; simpl; naive_solver. Qed.

Lemma ensure_Ok b msg u : ensure b msg = Ok u <-> b = true.
Proof. destruct b, u; simpl; naive_solver. Qed.

Lemma ok_or_Ok {A} (o : option A) msg a : ok_or o msg = Ok a <-> o = Some a.
Proof. destruct o; simpl; naive_solver. Qed.

Lemma checked_Some lo hi v r :
  checked lo hi v = Some r <-> r = v /\ (lo <= v <= hi)%Z.
Proof.
  unfold checked.
  destruct (lo <=? v)%Z eqn:E1, (v <=? hi)%Z eqn:E2; simpl; split; intros H;
    simplify_eq; try lia; try (f_equal; lia).
Qed.

Lemma i32_try_from_Ok n r :
  i32_try_from n = Ok r <-> r = n /\ (i32_min <= n <= i32_max)%Z.
Proof. unfold i32_try_from. by rewrite ok_or_Ok, checked_Some. Qed.

Lemma in_range_true lo hi v : in_range lo hi v = true <-> (lo <= v <= hi)%Z.
Proof. unfold in_range. lia. Qed.

Lemma is_ok_true {A} (r : result A) : is_ok r = true <-> exists a, r = Ok a.
Proof. destruct r; simpl; naive_solver. Qed.

(** [inv_ok] unfolds a hypothesis that a monadic computation succeeded into
    the successes of its steps. *)
Ltac inv_ok_step :=
  match goal with
  | H : Ok _ = Ok _ |- _ => injection H as H; try subst
  | H : Err _ = Ok _ |- _ => discriminate H
  | H : Ok _ = Err _ |- _ => discriminate H
  | H : mret _ = Ok _ |- _ => injection H as H; try subst
  | H : (_ ≫= _) = Ok _ |- _ =>
      let a := fresh "a" in let H1 := fresh "H" in
      apply bind_Ok in H as (a & H1 & H)
  | H : ensure _ _ = Ok _ |- _ => apply ensure_Ok in H
  | H : ok_or _ _ = Ok _ |- _ => apply ok_or_Ok in H
  | H : checked _ _ _ = Some _ |- _ => apply checked_Some in H as [-> H]
  | H : i32_try_from _ = Ok _ |- _ => apply i32_try_from_Ok in H as [-> H]
  | H : in_range _ _ _ = true |- _ => apply in_range_true in H
  | H : andb _ _ = true |- _ => apply andb_true_iff in H as [? H]
  | H : orb _ _ = false |- _ => apply orb_false_iff in H as [? H]
  | H : negb _ = true |- _ => apply negb_true_iff in H
  | H : negb _ = false |- _ => apply negb_false_iff in H
  | H : unit |- _ => destruct H
  end.

Ltac inv_ok := repeat inv_ok_step.

(** [case_if] splits on the first boolean test of the goal or a hypothesis. *)
Ltac case_if :=
  match goal with
  | |- context [if ?b then _ else _] => destruct b eqn:?
  | H : context [if ?b then _ else _] |- _ => destruct b eqn:?
  end.

(** ** Loops *)

Lemma foldM_app {A S} (f : S -> A -> result S) s l1 l2 :
  foldM f s (l1 ++ l2) = (s' ← foldM f s l1; foldM f s' l2).
Proof.
  revert s; induction l1 as [|a l1 IH]; intros s; simpl; [done|].
  destruct (f s a); simpl; [apply IH|done].
Qed.

(** Rule of a [for] loop: an invariant kept by every successful body holds of
    the final state. *)
Lemma foldM_inv {A S} (P : S -> Prop) (f : S -> A -> result S) l s s' :
  (forall s a s1, a ∈ l -> P s -> f s a = Ok s1 -> P s1) ->
  P s -> foldM f s l = Ok s' -> P s'.
Proof.
  revert s; induction l as [|a l IH]; intros s Hf HP H; simpl in H.
  - by inv_ok.
  - inv_ok. eapply (IH a0); [| |done].
    + intros; eapply Hf; [|done..]. by right.
    + eapply Hf; [|done..]. by left.
Qed.

(** The same rule with the processed prefix in the invariant. *)
Lemma foldM_inv_prefix {A S} (P : list A -> S -> Prop) (f : S -> A -> result S) l s s' :
  P [] s ->
  (forall pre s a s1, P pre s -> f s a = Ok s1 -> P (pre ++ [a]) s1) ->
  foldM f s l = Ok s' -> P l s'.
Proof.
  intros H0 Hf.
  assert (G : forall pre s, P pre s -> foldM f s l = Ok s' -> P (pre ++ l) s').
  { induction l as [|a l IH]; intros pre t Ht H; simpl in H.
    - inv_ok. by rewrite app_nil_r.
    - inv_ok. rewrite cons_middle, app_assoc. eapply IH; [eauto|done]. }
  intros H. by apply (G [] s).
Qed.

(** The same rule, where the body is only run on elements of the list. *)
Lemma foldM_inv_elem {A S} (P : list A -> S -> Prop) (f : S -> A -> result S) l s s' :
  P [] s ->
  (forall pre s a s1, a ∈ l -> P pre s -> f s a = Ok s1 -> P (pre ++ [a]) s1) ->
  foldM f s l = Ok s' -> P l s'.
Proof.
  intros H0 Hf.
  assert (G : forall suf pre s, (forall a, a ∈ suf -> a ∈ l) -> P pre s ->
    foldM f s suf = Ok s' -> P (pre ++ suf) s').
  { induction suf as [|a suf IH]; intros pre t Hin Ht H; simpl in H.
    - inv_ok. by rewrite app_nil_r.
    - inv_ok. rewrite cons_middle, app_assoc. eapply IH; [|eapply Hf; [|exact Ht|eauto]|done].
      + intros b Hb. apply Hin. by right.
      + apply Hin. by left. }
  intros H. by apply (G l [] s).
Qed.

(** A loop of checks passes when every check passes. *)
Lemma foldM_checks {A} (f : A -> result unit) l :
  foldM (fun _ a => f a) tt l = Ok tt <-> Forall (fun a => f a = Ok tt) l.
Proof.
  induction l as [|a l IH]; simpl; [by rewrite Forall_nil|]. rewrite Forall_cons, <- IH.
  destruct (f a) as [[]|e]; simpl; [tauto|]. split; [done|]. by intros [].
Qed.

(** Rule of a loop that cannot fail, with the processed prefix. *)
Lemma fold_left_inv {A T} (P : list A -> T -> Prop) (f : T -> A -> T) l t :
  P [] t -> (forall pre t a, a ∈ l -> P pre t -> P (pre ++ [a]) (f t a)) -> P l (fold_left f l t).
Proof.
  intros H0 Hf.
  assert (G : forall suf pre t, (forall a, a ∈ suf -> a ∈ l) -> P pre t ->
    P (pre ++ suf) (fold_left f suf t)).
  { induction suf as [|a suf IH]; intros pre u Hin Hu; simpl; [by rewrite app_nil_r|].
    rewrite cons_middle, app_assoc. apply IH; [intros; apply Hin; by right|].
    apply Hf; [apply Hin; by left|done]. }
  by apply (G l [] t).
Qed.

(** Nested loops are one loop over the pairs. *)
Lemma fold_left_nested {A B T} (f : T -> A * B -> T) (g : A -> list B) l t :
  fold_left (fun t a => fold_left (fun t b => f t (a, b)) (g a) t) l t
  = fold_left f (flat_map (fun a => map (pair a) (g a)) l) t.
Proof.
  revert t; induction l as [|a l IH]; intros t; simpl; [done|]. rewrite fold_left_app, IH. f_equal.
  generalize t. induction (g a) as [|b bs IHb]; intros u; simpl; [done|]. apply IHb.
Qed.

(** Nested fallible loops are one loop over the flattened list. *)
Lemma foldM_nested {A B S} (f : S -> B -> result S) (g : A -> list B) l s :
  foldM (fun s a => foldM f s (g a)) s l = foldM f s (flat_map g l).
Proof.
  revert s; induction l as [|a l IH]; intros s; simpl; [done|]. rewrite foldM_app.
  destruct (foldM f s (g a)); simpl; [apply IH|done].
Qed.

Lemma foldM_ext {A S} (f g : S -> A -> result S) l s :
  (forall s a, f s a = g s a) -> foldM f s l = foldM g s l.
Proof.
  intros Hfg; revert s; induction l as [|a l IH]; intros s; simpl; [done|].
  rewrite Hfg. destruct (g s a); simpl; auto.
Qed.

(** ** Lists *)

Lemma forallb_Forall_iff {A} (p : A -> bool) l :
  forallb p l = true <-> Forall (fun a => p a = true) l.
Proof.
  induction l as [|a l IH]; simpl.
  - split; [constructor|done].
  - rewrite andb_true_iff, IH, Forall_cons. tauto.
Qed.

Lemma existsb_false_Forall {A} (p : A -> bool) l :
  existsb p l = false <-> Forall (fun a => p a = false) l.
Proof.
  induction l as [|a l IH]; simpl.
  - split; [constructor|done].
  - rewrite orb_false_iff, IH, Forall_cons. tauto.
Qed.

Lemma existsb_exists_elem {A} (p : A -> bool) l :
  existsb p l = true <-> exists a, a ∈ l /\ p a = true.
Proof.
  rewrite existsb_exists. split; intros (a & Ha & Hp); exists a;
    (split; [by apply list_elem_of_In|done]).
Qed.

Lemma existsb_filter_nonempty {A} (p : A -> bool) l :
  existsb p l = true <-> List.filter p l <> [].
Proof.
  induction l as [|a l IH]; simpl; [naive_solver|]. destruct (p a); simpl; [naive_solver|done].
Qed.

Lemma forall_elem_snoc {A} (P : A -> Prop) l a :
  (forall b, b ∈ l ++ [a] -> P b) <-> (forall b, b ∈ l -> P b) /\ P a.
Proof.
  setoid_rewrite elem_of_app. setoid_rewrite list_elem_of_singleton.
  split; [auto|]. intros [? ?] b [?| ->]; auto.
Qed.

Lemma zlen_nonneg {A} (l : list A) : (0 <= zlen l)%Z.
Proof. unfold zlen. lia. Qed.

Lemma zlen_cons {A} (a : A) l : zlen (a :: l) = (zlen l + 1)%Z.
Proof. unfold zlen. simpl. lia. Qed.

Lemma zlen_app {A} (l k : list A) : zlen (l ++ k) = (zlen l + zlen k)%Z.
Proof. unfold zlen. rewrite length_app. lia. Qed.

Lemma zlen_nil_iff {A} (l : list A) : zlen l = 0%Z <-> l = [].
Proof. unfold zlen. destruct l; simpl; split; intros; try done; lia. Qed.

Create HintDb vigilo.
#[export] Hint Resolve zlen_nonneg : vigilo.
#[export] Hint Rewrite @zlen_cons @zlen_app : vigilo.

(** Boolean filters. *)
Lemma elem_of_lfilter {A} (f : A -> bool) l x : x ∈ List.filter f l <-> x ∈ l /\ f x = true.
Proof. rewrite !list_elem_of_In. apply List.filter_In. Qed.

Lemma filter_snoc {A} (f : A -> bool) l x :
  List.filter f (l ++ [x]) = if f x then List.filter f l ++ [x] else List.filter f l.
Proof. rewrite List.filter_app. simpl. case_if; [done|by rewrite app_nil_r]. Qed.

Lemma filter_none {A} (f : A -> bool) l : (forall x, x ∈ l -> f x = false) -> List.filter f l = [].
Proof.
  induction l as [|x l IH]; intros Hf; [done|]. simpl. rewrite (Hf x) by (by left). apply IH.
  intros y Hy. apply Hf. by right.
Qed.
