(* ===== verification/Prog.v ===== *)
(** * Programs over a world

    The workflows that touch several databases are sequences of awaited
    operations.  A program maps a world to the world it leaves and its result;
    [None] is a loop that ran out of fuel.  An operation may fail before its
    effect (a refused connection, a deadline) or after it (a lost
    acknowledgement); [Fault] says which. *)

From Stdlib Require Import ZArith.
From stdpp Require Import base strings option list.
From S2P Require Import Prelude.

Inductive Fault :=
| NoFault
| FailsBefore (e : string)
| FailsAfter (e : string).

Section prog.
Context {W : Type}.

Definition prog (A : Type) : Type := W -> option (W * result A).

Definition pret {A} (a : A) : prog A := fun w => Some (w, Ok a).
Definition lift {A} (r : result A) : prog A := fun w => Some (w, r).
Definition pbind {A B} (m : prog A) (k : A -> prog B) : prog B := fun w =>
  match m w with
  | None => None
  | Some (w', Err e) => Some (w', Err e)
  | Some (w', Ok a) => k a w'
  end.

Fixpoint pfold {A S} (f : S -> A -> prog S) (s : S) (l : list A) : prog S :=
  match l with
  | [] => pret s
  | a :: l' => pbind (f s a) (fun s' => pfold f s' l')
  end.

(** One operation under a fault: a transaction commits as a whole, or its error
    leaves the world [w] as it was. *)
Definition attempt {A} (fault : Fault) (r : result (W * A)) (w : W) : option (W * result A) :=
  match fault with
  | FailsBefore e => Some (w, Err e)
  | FailsAfter e => match r with Ok (w', _) => Some (w', Err e) | Err e' => Some (w, Err e') end
  | NoFault => match r with Ok (w', a) => Some (w', Ok a) | Err e => Some (w, Err e) end
  end.

Lemma pbind_Ok {A B} (m : prog A) (k : A -> prog B) w w' b :
  pbind m k w = Some (w', Ok b) -> exists w1 a, m w = Some (w1, Ok a) /\ k a w1 = Some (w', Ok b).
Proof. unfold pbind. destruct (m w) as [[w1 [a|e]]|]; intros H; [eauto|discriminate H..]. Qed.

Lemma lift_Ok {A} (r : result A) w w' a : lift r w = Some (w', Ok a) -> w' = w /\ r = Ok a.
Proof. unfold lift. by intros [= -> ->]. Qed.

Lemma pret_Ok {A} (a b : A) w w' : pret a w = Some (w', Ok b) -> w' = w /\ b = a.
Proof. unfold pret. by intros [= -> ->]. Qed.

Lemma attempt_Ok {A} fault (r : result (W * A)) w w' a : attempt fault r w = Some (w', Ok a) -> r = Ok (w', a).
Proof. unfold attempt. destruct fault, r as [[]|]; intros H; by inversion H. Qed.

(** Whatever the outcome, the world is the old one or that of the transaction. *)
Lemma attempt_world {A} fault (r : result (W * A)) w w' a :
  attempt fault r w = Some (w', a) -> w' = w \/ exists b, r = Ok (w', b).
Proof. unfold attempt. destruct fault, r as [[]|]; intros H; inversion H; subst; eauto. Qed.
End prog.

Arguments prog : clear implicits.

Notation "x ⇐ m ; k" := (pbind m (fun x => k)) (at level 100, m at next level, right associativity).
Notation "'_' ⇐ m ; k" := (pbind m (fun _ => k)) (at level 100, m at next level, right associativity).
