(* ===== verification/Float64.v ===== *)
(** * IEEE 754 binary64

    Rust's [f64] as the Standard Library's [spec_float] at precision 53 and
    maximal exponent 1024: every operation the program uses is the correctly
    rounded one and evaluates.  The comparison operators are the IEEE ones, so
    a comparison with a NaN is [false] and the two zeros are equal.  The file
    also has the order lemmas the components share; they follow from
    [SFcompare_rank], which turns the comparison of two floats that are not
    NaN into a lexicographic comparison of integers. *)

From Stdlib Require Import ZArith Lia ZifyBool SpecFloat.
From stdpp Require Import base decidable tactics numbers.

Abbreviation f64 := spec_float.

#[global] Instance f64_eq_dec : EqDecision spec_float.
Proof. solve_decision. Defined.

Definition fadd : f64 -> f64 -> f64 := SFadd 53 1024.
Definition fsub : f64 -> f64 -> f64 := SFsub 53 1024.
Definition fmul : f64 -> f64 -> f64 := SFmul 53 1024.
Definition fdiv : f64 -> f64 -> f64 := SFdiv 53 1024.
Definition flt : f64 -> f64 -> bool := SFltb.
Definition fle : f64 -> f64 -> bool := SFleb.
Definition feq : f64 -> f64 -> bool := SFeqb.

(** [z as f64] for an integer [z], rounded to nearest even. *)
Definition f64_of_Z (z : Z) : f64 := binary_normalize 53 1024 z 0 false.

Definition f0 : f64 := S754_zero false.
Definition f1 : f64 := Eval vm_compute in f64_of_Z 1.
(** [f64::EPSILON], the gap 2^-52 above one. *)
Definition f64_epsilon : f64 := Eval vm_compute in fdiv f1 (f64_of_Z (2 ^ 52)).

Definition is_nan (x : f64) : bool :=
  match x with S754_nan => true | _ => false end.

(** [x.is_finite()]. *)
Definition is_finite (x : f64) : bool :=
  match x with S754_zero _ | S754_finite _ _ _ => true | _ => false end.

(** [x.min(y)] and [x.max(y)]: the other operand when one is NaN. *)
Definition fmin (x y : f64) : f64 :=
  if is_nan x then y else if is_nan y then x else if flt y x then y else x.
Definition fmax (x y : f64) : f64 :=
  if is_nan x then y else if is_nan y then x else if flt x y then y else x.

(** [x.is_finite() && (0.0..=1.0).contains(&x)]. *)
Definition in_unit (x : f64) : bool := is_finite x && (fle f0 x && fle x f1).

#[global] Arguments is_finite : simpl never.
#[global] Arguments in_unit : simpl never.
#[global] Arguments flt : simpl never.
#[global] Arguments fle : simpl never.
#[global] Arguments feq : simpl never.
#[global] Arguments fadd : simpl never.
#[global] Arguments fsub : simpl never.
#[global] Arguments fmul : simpl never.
#[global] Arguments fdiv : simpl never.
#[global] Arguments f64_of_Z : simpl never.

(** ** The order of floats *)

(** Position of a float in the numeric order, as a lexicographic triple. *)
Definition rank (x : f64) : Z * Z * Z :=
  match x with
  | S754_infinity true => (-2, 0, 0)%Z
  | S754_finite true m e => (-1, - e, Zneg m)%Z
  | S754_zero _ | S754_nan => (0, 0, 0)%Z
  | S754_finite false m e => (1, e, Zpos m)%Z
  | S754_infinity false => (2, 0, 0)%Z
  end.

Definition lex3 (a b : Z * Z * Z) : comparison :=
  let '(a1, a2, a3) := a in
  let '(b1, b2, b3) := b in
  match Z.compare a1 b1 with
  | Eq => match Z.compare a2 b2 with
          | Eq => Z.compare a3 b3
          | c => c
          end
  | c => c
  end.

Lemma SFcompare_rank x y :
  is_nan x = false -> is_nan y = false ->
  SFcompare x y = Some (lex3 (rank x) (rank y)).
Proof.
  intros Hx Hy.
  destruct x as [sx|sx| |sx mx ex], y as [sy|sy| |sy my ey]; try discriminate;
    try destruct sx; try destruct sy; try reflexivity;
    unfold SFcompare, rank, lex3; rewrite Z.compare_refl; f_equal.
  assert (E : Z.compare (- ex) (- ey) = CompOpp (Z.compare ex ey))
    by (rewrite <- Z.compare_antisym, (Z.compare_opp ex ey); done).
  rewrite E. destruct (Z.compare ex ey); reflexivity.
Qed.

Lemma SFcompare_nan x y :
  is_nan x = true \/ is_nan y = true -> SFcompare x y = None.
Proof. destruct x, y; simpl; naive_solver. Qed.

Lemma lex3_lt_iff a b :
  lex3 a b = Lt <->
  (a.1.1 < b.1.1 \/ (a.1.1 = b.1.1 /\ (a.1.2 < b.1.2 \/ (a.1.2 = b.1.2 /\ a.2 < b.2))))%Z.
Proof.
  destruct a as [[a1 a2] a3], b as [[b1 b2] b3]; simpl.
  destruct (Z.compare_spec a1 b1); [|split; intros; try lia; done..].
  destruct (Z.compare_spec a2 b2); [|split; intros; try lia; done..].
  rewrite Z.compare_lt_iff. lia.
Qed.

Lemma lex3_eq_iff a b : lex3 a b = Eq <-> a = b.
Proof.
  destruct a as [[a1 a2] a3], b as [[b1 b2] b3]; simpl.
  destruct (Z.compare_spec a1 b1); [|split; intros; simplify_eq; try lia; done..].
  destruct (Z.compare_spec a2 b2); [|split; intros; simplify_eq; try lia; done..].
  rewrite Z.compare_eq_iff. naive_solver.
Qed.

(** The three comparisons as statements on ranks. *)
Lemma flt_iff x y :
  flt x y = true <->
  is_nan x = false /\ is_nan y = false /\ lex3 (rank x) (rank y) = Lt.
Proof.
  unfold flt, SFltb.
  destruct (is_nan x) eqn:Hx; [rewrite SFcompare_nan by auto; naive_solver|].
  destruct (is_nan y) eqn:Hy; [rewrite SFcompare_nan by auto; naive_solver|].
  rewrite SFcompare_rank by done. destruct (lex3 _ _); naive_solver.
Qed.

Lemma fle_iff x y :
  fle x y = true <->
  is_nan x = false /\ is_nan y = false /\
  (lex3 (rank x) (rank y) = Lt \/ rank x = rank y).
Proof.
  unfold fle, SFleb.
  destruct (is_nan x) eqn:Hx; [rewrite SFcompare_nan by auto; naive_solver|].
  destruct (is_nan y) eqn:Hy; [rewrite SFcompare_nan by auto; naive_solver|].
  rewrite SFcompare_rank, <- lex3_eq_iff by done. destruct (lex3 _ _); naive_solver.
Qed.

Lemma feq_iff x y :
  feq x y = true <-> is_nan x = false /\ is_nan y = false /\ rank x = rank y.
Proof.
  unfold feq, SFeqb.
  destruct (is_nan x) eqn:Hx; [rewrite SFcompare_nan by auto; naive_solver|].
  destruct (is_nan y) eqn:Hy; [rewrite SFcompare_nan by auto; naive_solver|].
  rewrite SFcompare_rank, <- lex3_eq_iff by done. destruct (lex3 _ _); naive_solver.
Qed.

(** [solve_float_order] closes goals on comparisons of floats by lexicographic
    integer arithmetic. *)
Ltac rank_triples :=
  repeat match goal with
  | |- context [rank ?x] => let a := fresh in let b := fresh in let c := fresh in
      destruct (rank x) as [[a b] c]
  | _ : context [rank ?x] |- _ => let a := fresh in let b := fresh in let c := fresh in
      destruct (rank x) as [[a b] c]
  end.

Ltac solve_float_order :=
  intros;
  repeat match goal with
  | H : flt _ _ = true |- _ => apply flt_iff in H as (? & ? & H)
  | H : fle _ _ = true |- _ => apply fle_iff in H as (? & ? & H)
  | H : feq _ _ = true |- _ => apply feq_iff in H as (? & ? & H)
  end;
  try apply flt_iff; try apply fle_iff; try apply feq_iff;
  repeat split; try assumption;
  rewrite ?lex3_lt_iff in *;
  rank_triples; simpl in *;
  repeat match goal with
  | H : _ \/ _ |- _ => destruct H
  | H : _ /\ _ |- _ => destruct H
  | H : (_, _, _) = (_, _, _) |- _ => injection H as ? ? ?
  end; try lia; try (left; lia); try (right; f_equal; [f_equal|]; lia);
  try (f_equal; [f_equal|]; lia).

Lemma flt_trans x y z : flt x y = true -> flt y z = true -> flt x z = true.
Proof. solve_float_order. Qed.

Lemma flt_fle x y : flt x y = true -> fle x y = true.
Proof. solve_float_order. Qed.

Lemma flt_fle_trans x y z : flt x y = true -> fle y z = true -> flt x z = true.
Proof. solve_float_order. Qed.

Lemma fle_flt_trans x y z : fle x y = true -> flt y z = true -> flt x z = true.
Proof. solve_float_order. Qed.

Lemma flt_irrefl x : flt x x = false.
Proof.
  destruct (flt x x) eqn:E; [|done]. exfalso. revert E. solve_float_order.
Qed.

Lemma fle_trans x y z : fle x y = true -> fle y z = true -> fle x z = true.
Proof. solve_float_order. Qed.

Lemma fle_antisym x y : fle x y = true -> fle y x = true -> feq x y = true.
Proof. solve_float_order. Qed.

Lemma fle_refl x : is_nan x = false -> fle x x = true.
Proof. intros. apply fle_iff; auto. Qed.

Lemma finite_not_nan x : is_finite x = true -> is_nan x = false.
Proof. by destruct x. Qed.

Lemma lex3_antisym a b : lex3 b a = CompOpp (lex3 a b).
Proof.
  destruct a as [[a1 a2] a3], b as [[b1 b2] b3]; simpl.
  rewrite (Z.compare_antisym a1 b1), (Z.compare_antisym a2 b2), (Z.compare_antisym a3 b3).
  destruct (Z.compare a1 b1), (Z.compare a2 b2), (Z.compare a3 b3); done.
Qed.

(** Outside NaN the order is total, so [!(x <= y)] is [y < x]. *)
Lemma fle_false_flt x y :
  is_nan x = false -> is_nan y = false -> fle x y = negb (flt y x).
Proof.
  intros Hx Hy. unfold fle, flt, SFleb, SFltb.
  rewrite !SFcompare_rank by done. rewrite (lex3_antisym (rank x) (rank y)).
  destruct (lex3 (rank x) (rank y)); done.
Qed.

Lemma flt_nan_false x y : is_nan x = true \/ is_nan y = true -> flt x y = false.
Proof. intros. unfold flt, SFltb. by rewrite SFcompare_nan. Qed.

(** The unit interval is closed under minimum and maximum. *)
Lemma in_unit_not_nan x : in_unit x = true -> is_nan x = false.
Proof. unfold in_unit, is_finite. destruct x; simpl; congruence. Qed.

Lemma fmin_in_unit x y : in_unit x = true -> in_unit y = true -> in_unit (fmin x y) = true.
Proof.
  intros Hx Hy. unfold fmin.
  rewrite (in_unit_not_nan x), (in_unit_not_nan y) by done. by destruct (flt y x).
Qed.

Lemma fmax_in_unit x y : in_unit x = true -> in_unit y = true -> in_unit (fmax x y) = true.
Proof.
  intros Hx Hy. unfold fmax.
  rewrite (in_unit_not_nan x), (in_unit_not_nan y) by done. by destruct (flt x y).
Qed.

Lemma fmin_le_l x y : is_nan x = false -> is_nan y = false -> fle (fmin x y) x = true.
Proof.
  intros Hx Hy. unfold fmin. rewrite Hx, Hy.
  destruct (flt y x) eqn:E; [by apply flt_fle|by apply fle_refl].
Qed.

Lemma fmin_le_r x y : is_nan x = false -> is_nan y = false -> fle (fmin x y) y = true.
Proof.
  intros Hx Hy. unfold fmin. rewrite Hx, Hy.
  destruct (flt y x) eqn:E; [by apply fle_refl|].
  by rewrite fle_false_flt, E.
Qed.

Lemma fmax_ge_l x y : is_nan x = false -> is_nan y = false -> fle x (fmax x y) = true.
Proof.
  intros Hx Hy. unfold fmax. rewrite Hx, Hy.
  destruct (flt x y) eqn:E; [by apply flt_fle|by apply fle_refl].
Qed.

Lemma fmax_ge_r x y : is_nan x = false -> is_nan y = false -> fle y (fmax x y) = true.
Proof.
  intros Hx Hy. unfold fmax. rewrite Hx, Hy.
  destruct (flt x y) eqn:E; [by apply fle_refl|].
  by rewrite fle_false_flt, E.
Qed.

#[export] Hint Resolve finite_not_nan in_unit_not_nan flt_fle fmin_in_unit fmax_in_unit : core.
