(* ===== verification/BTree.v ===== *)
(** * Ordered maps and sets

    [std::collections::BTreeMap] as an association list kept in strictly
    increasing key order: lookup, insertion and in-order iteration are the
    operations the program uses, and iteration order is observable (the float
    sums of the aggregation follow it), so the model keeps it.  Keys are
    described by the class [OrdKey]; [String] keys compare by bytes, integer
    keys numerically.  [BTreeSet] is the map with unit values. *)

From Stdlib Require Import ZArith Lia ZifyBool Sorted.
From stdpp Require Import base strings numbers sets list.

(** What a key type promises: a comparison that decides a total order. *)
Class OrdKey (K : Type) := {
  kcmp : K -> K -> comparison;
  kcmp_eq : forall a b, kcmp a b = Eq <-> a = b;
  kcmp_antisym : forall a b, kcmp b a = CompOpp (kcmp a b);
  kcmp_trans : forall a b c, kcmp a b = Lt -> kcmp b c = Lt -> kcmp a c = Lt
}.

#[global] Arguments kcmp : simpl never.

#[global] Instance Z_OrdKey : OrdKey Z.
Proof.
  refine {| kcmp := Z.compare |}.
  - apply Z.compare_eq_iff.
  - intros; apply Z.compare_antisym.
  - intros a b c; rewrite !Z.compare_lt_iff; lia.
Defined.

Lemma Ascii_compare_lt a b :
  Ascii.compare a b = Lt <-> (Ascii.N_of_ascii a < Ascii.N_of_ascii b)%N.
Proof. unfold Ascii.compare. apply N.compare_lt_iff. Qed.

Lemma Ascii_compare_refl a : Ascii.compare a a = Eq.
Proof. unfold Ascii.compare. apply N.compare_refl. Qed.

Lemma String_compare_refl a : String.compare a a = Eq.
Proof. induction a as [|x a IH]; simpl; [done|]. by rewrite Ascii_compare_refl. Qed.

Lemma String_compare_trans a b c :
  String.compare a b = Lt -> String.compare b c = Lt -> String.compare a c = Lt.
Proof.
  revert b c; induction a as [|x a IH]; intros [|y b] [|z c]; simpl; try done.
  destruct (Ascii.compare x y) eqn:E1; try done;
  destruct (Ascii.compare y z) eqn:E2; try done; intros H1 H2.
  - apply Ascii.compare_eq_iff in E1, E2; subst.
    rewrite Ascii_compare_refl.
    by eapply IH.
  - apply Ascii.compare_eq_iff in E1; subst. by rewrite E2.
  - apply Ascii.compare_eq_iff in E2; subst. by rewrite E1.
  - apply Ascii_compare_lt in E1, E2.
    assert (Ascii.compare x z = Lt) as -> by (apply Ascii_compare_lt; by eapply N.lt_trans). done.
Qed.

#[global] Instance string_OrdKey : OrdKey string.
Proof.
  refine {| kcmp := String.compare |}.
  - intros a b. split; [apply String.compare_eq_iff|intros ->; apply String_compare_refl].
  - intros a b. apply String.compare_antisym.
  - apply String_compare_trans.
Defined.

Definition klt {K} `{OrdKey K} (a b : K) : Prop := kcmp a b = Lt.
Definition kltb {K} `{OrdKey K} (a b : K) : bool :=
  match kcmp a b with Lt => true | _ => false end.
Definition keqb {K} `{OrdKey K} (a b : K) : bool :=
  match kcmp a b with Eq => true | _ => false end.

Section keys.
Context {K : Type} `{OrdKey K}.

Lemma klt_irrefl (a : K) : ~ klt a a.
Proof. unfold klt. assert (kcmp a a = Eq) as -> by (by apply kcmp_eq). done. Qed.

Lemma klt_trans (a b c : K) : klt a b -> klt b c -> klt a c.
Proof. apply kcmp_trans. Qed.

Lemma klt_asym (a b : K) : klt a b -> ~ klt b a.
Proof. intros H1 H2. eapply klt_irrefl, klt_trans; eauto. Qed.

Lemma klt_total (a b : K) : klt a b \/ a = b \/ klt b a.
Proof.
  unfold klt. rewrite (kcmp_antisym a b).
  destruct (kcmp a b) eqn:E; simpl; auto. right; left. by apply kcmp_eq.
Qed.

Lemma kltb_true (a b : K) : kltb a b = true <-> klt a b.
Proof. unfold kltb, klt. destruct (kcmp a b); split; done. Qed.

Lemma keqb_true (a b : K) : keqb a b = true <-> a = b.
Proof. unfold keqb. rewrite <- kcmp_eq. destruct (kcmp a b); split; done. Qed.

Lemma keqb_refl (a : K) : keqb a a = true.
Proof. by apply keqb_true. Qed.

Lemma kcmp_refl (a : K) : kcmp a a = Eq.
Proof. by apply kcmp_eq. Qed.

Lemma kcmp_gt (a b : K) : kcmp a b = Gt <-> klt b a.
Proof. unfold klt. rewrite (kcmp_antisym a b). destruct (kcmp a b); split; done. Qed.
End keys.

(** [BTreeMap<K, V>]. *)
Abbreviation btree K V := (list (K * V)).

Section ops.
Context {K V : Type} `{OrdKey K}.

(** [map.get(k)]. *)
Fixpoint bt_get (k : K) (m : btree K V) : option V :=
  match m with
  | [] => None
  | (k', v) :: m' =>
      match kcmp k k' with
      | Eq => Some v
      | Lt => None
      | Gt => bt_get k m'
      end
  end.

(** [map.insert(k, v)]: the new map; the previous value is [bt_get k m]. *)
Fixpoint bt_insert (k : K) (v : V) (m : btree K V) : btree K V :=
  match m with
  | [] => [(k, v)]
  | (k', v') :: m' =>
      match kcmp k k' with
      | Eq => (k, v) :: m'
      | Lt => (k, v) :: (k', v') :: m'
      | Gt => (k', v') :: bt_insert k v m'
      end
  end.

(** [map.contains_key(k)]. *)
Definition bt_mem (k : K) (m : btree K V) : bool :=
  match bt_get k m with Some _ => true | None => false end.

Definition bt_keys (m : btree K V) : list K := map fst m.
Definition bt_values (m : btree K V) : list V := map snd m.

(** [iter.collect::<BTreeMap<_, _>>()]: later pairs replace earlier ones. *)
Definition bt_collect (l : list (K * V)) : btree K V :=
  fold_left (fun m kv => bt_insert kv.1 kv.2 m) l [].
End ops.

(** [BTreeSet<K>] collected from an iterator, and membership. *)
Definition bset {K} `{OrdKey K} (l : list K) : btree K unit :=
  bt_collect (map (fun k => (k, tt)) l).

(** The representation invariant: strictly increasing keys. *)
Definition bt_wf {K V} `{OrdKey K} (m : btree K V) : Prop :=
  StronglySorted klt (map fst m).

Section laws.
Context {K V : Type} `{OrdKey K}.
Implicit Types (m : btree K V) (k : K) (v : V).

Lemma bt_wf_nil : bt_wf (@nil (K * V)).
Proof. constructor. Qed.

Lemma bt_wf_cons k v m :
  bt_wf ((k, v) :: m) <-> bt_wf m /\ Forall (fun kv => klt k kv.1) m.
Proof.
  unfold bt_wf; simpl. split.
  - intros Hs; inversion Hs; subst. split; [done|]. by rewrite Forall_map in *.
  - intros [? ?]. constructor; [done|]. by rewrite Forall_map.
Qed.

Lemma bt_insert_keys k v m kv :
  kv ∈ bt_insert k v m -> kv = (k, v) \/ (kv ∈ m).
Proof.
  induction m as [|[k' v'] m IH]; simpl.
  - set_solver.
  - destruct (kcmp k k'); set_solver.
Qed.

Lemma bt_insert_wf k v m : bt_wf m -> bt_wf (bt_insert k v m).
Proof.
  induction m as [|[k' v'] m IH]; simpl; intros Hm.
  - apply bt_wf_cons. split; [apply bt_wf_nil|constructor].
  - pose proof Hm as Hm0. apply bt_wf_cons in Hm as [Hm Hall].
    destruct (kcmp k k') eqn:E.
    + apply kcmp_eq in E; subst. by apply bt_wf_cons.
    + apply bt_wf_cons. split; [done|]. constructor; [done|].
      eapply Forall_impl; [done|]. simpl. intros [??] ?. eapply klt_trans; [exact E|done].
    + apply kcmp_gt in E. apply bt_wf_cons. split; [by apply IH|].
      apply Forall_forall. intros kv [->|Hin]%bt_insert_keys; [done|].
      by eapply Forall_forall in Hall.
Qed.

Lemma bt_get_below k m : Forall (fun kv => klt k kv.1) m -> bt_get k m = None.
Proof. destruct m as [|[k' v'] m]; simpl; [done|]. inversion 1; subst. simpl in *. by rewrite H3. Qed.

Lemma bt_get_insert_eq k v m : bt_get k (bt_insert k v m) = Some v.
Proof.
  induction m as [|[k' v'] m IH]; simpl; [by rewrite kcmp_refl|].
  destruct (kcmp k k') eqn:E; simpl; rewrite ?kcmp_refl, ?E; done.
Qed.

Lemma bt_get_insert_ne k k' v m :
  bt_wf m -> k <> k' -> bt_get k' (bt_insert k v m) = bt_get k' m.
Proof.
  induction m as [|[k1 v1] m IH]; simpl; intros Hm Hne.
  - destruct (kcmp k' k) eqn:E; try done. apply kcmp_eq in E. congruence.
  - apply bt_wf_cons in Hm as [Hm Hall].
    destruct (kcmp k k1) eqn:E; simpl.
    + apply kcmp_eq in E; subst. destruct (kcmp k' k1) eqn:E'; try done.
      apply kcmp_eq in E'. congruence.
    + destruct (kcmp k' k) eqn:E'; try done.
      * apply kcmp_eq in E'. congruence.
      * assert (klt k' k1) as -> by exact (klt_trans _ _ _ E' E). done.
    + destruct (kcmp k' k1); auto.
Qed.

Lemma bt_get_elem k v m : bt_wf m -> bt_get k m = Some v <-> (k, v) ∈ m.
Proof.
  induction m as [|[k1 v1] m IH]; simpl; intros Hm; [set_solver|].
  apply bt_wf_cons in Hm as [Hm Hall]. rewrite elem_of_cons, <- (IH Hm).
  destruct (kcmp k k1) eqn:E.
  - apply kcmp_eq in E; subst. rewrite bt_get_below by done. naive_solver.
  - rewrite (bt_get_below k m).
    + assert (k <> k1) by (intros ->; by eapply klt_irrefl). naive_solver.
    + eapply Forall_impl; [done|]. simpl. intros [??] ?. by eapply klt_trans.
  - assert (k <> k1). { intros ->. apply kcmp_gt in E. by eapply klt_irrefl. }
    naive_solver.
Qed.

Lemma bt_mem_keys k m : bt_wf m -> bt_mem k m = true <-> k ∈ bt_keys m.
Proof.
  intros Hm. unfold bt_mem, bt_keys. rewrite list_elem_of_fmap. split.
  - destruct (bt_get k m) as [v|] eqn:E; [|done]. intros _.
    exists (k, v). split; [done|]. by apply bt_get_elem.
  - intros ([k' v] & -> & Hin). apply bt_get_elem in Hin; [|done]. simpl. by rewrite Hin.
Qed.

Lemma bt_wf_NoDup m : bt_wf m -> NoDup (bt_keys m).
Proof.
  unfold bt_keys. induction m as [|[k v] m IH]; simpl; intros Hm; [constructor|].
  apply bt_wf_cons in Hm as [Hm Hall]. constructor; [|auto].
  intros (kv & Hk & Hin)%list_elem_of_fmap.
  eapply Forall_forall in Hall; [|done]. rewrite <- Hk in Hall. by eapply klt_irrefl.
Qed.

Lemma bt_ext m1 m2 :
  bt_wf m1 -> bt_wf m2 -> (forall k, bt_get k m1 = bt_get k m2) -> m1 = m2.
Proof.
  revert m2; induction m1 as [|[k1 v1] m1 IH]; intros [|[k2 v2] m2] H1 H2 Hext.
  - done.
  - specialize (Hext k2). simpl in Hext. by rewrite kcmp_refl in Hext.
  - specialize (Hext k1). simpl in Hext. by rewrite kcmp_refl in Hext.
  - apply bt_wf_cons in H1 as [W1 A1], H2 as [W2 A2].
    assert (k1 = k2) as ->.
    { destruct (klt_total k1 k2) as [Hlt|[->|Hlt]]; [|done|].
      - specialize (Hext k1). simpl in Hext. by rewrite kcmp_refl, Hlt in Hext.
      - specialize (Hext k2). simpl in Hext. by rewrite kcmp_refl, Hlt in Hext. }
    assert (v1 = v2) as ->.
    { specialize (Hext k2). simpl in Hext. rewrite kcmp_refl in Hext. congruence. }
    f_equal. apply IH; [done..|]. intros k.
    specialize (Hext k). simpl in Hext. destruct (kcmp k k2) eqn:E; [| |done].
    + apply kcmp_eq in E; subst. by rewrite !bt_get_below.
    + rewrite !bt_get_below; [done| |];
        (eapply Forall_impl; [done|]; simpl; intros [??] ?; by eapply klt_trans).
Qed.
End laws.

#[export] Hint Resolve bt_wf_nil bt_insert_wf : core.

(** Lookups after [collect]. *)
Section collect.
Context {K V : Type} `{OrdKey K} `{!EqDecision K}.
Implicit Types (m : btree K V) (l : list (K * V)).

Lemma bt_get_insert k v m k' :
  bt_wf m -> bt_get k' (bt_insert k v m) = if decide (k = k') then Some v else bt_get k' m.
Proof. intros Hm. case_decide; subst; [apply bt_get_insert_eq|by apply bt_get_insert_ne]. Qed.

Lemma bt_collect_snoc l k v : bt_collect (l ++ [(k, v)]) = bt_insert k v (bt_collect l).
Proof. unfold bt_collect. by rewrite fold_left_app. Qed.

Lemma bt_collect_wf l : bt_wf (bt_collect l).
Proof. induction l as [|[k v] l IH] using rev_ind; [apply bt_wf_nil|rewrite bt_collect_snoc; auto]. Qed.

Lemma bt_get_collect l k v :
  NoDup (map fst l) -> bt_get k (bt_collect l) = Some v <-> (k, v) ∈ l.
Proof.
  induction l as [|[k' v'] l IH] using rev_ind; intros Hnd; [set_solver|].
  rewrite map_app in Hnd. apply NoDup_app in Hnd as (Hnd & Hdis & _).
  rewrite bt_collect_snoc, bt_get_insert, elem_of_app, list_elem_of_singleton by apply bt_collect_wf.
  case_decide as Hk; [subst k'|by rewrite IH; naive_solver].
  split; [intros [= ->]; by right|]. intros [Hin|[= ->]]; [|done]. exfalso.
  apply (Hdis k); [apply list_elem_of_fmap; by exists (k, v)|simpl; set_solver].
Qed.

Lemma bt_get_collect_None l k : bt_get k (bt_collect l) = None <-> k ∉ map fst l.
Proof.
  induction l as [|[k' v'] l IH] using rev_ind; [set_solver|].
  rewrite bt_collect_snoc, bt_get_insert, map_app, not_elem_of_app by apply bt_collect_wf.
  rewrite <- IH. simpl. case_decide; set_solver.
Qed.

Lemma bt_insert_length k v m :
  bt_wf m -> length (bt_insert k v m) = if bt_mem k m then length m else S (length m).
Proof.
  unfold bt_mem. induction m as [|[k' v'] m IH]; intros Hm; [done|].
  apply bt_wf_cons in Hm as [Hm _]. simpl. destruct (kcmp k k'); simpl; [done|done|].
  rewrite (IH Hm). by destruct (bt_get k m).
Qed.

(** Collecting loses no pair exactly when the keys are distinct. *)
Lemma bt_collect_length l :
  (length (bt_collect l) <= length l)%nat /\ (length (bt_collect l) = length l <-> NoDup (map fst l)).
Proof.
  induction l as [|[k v] l [IHle IH]] using rev_ind; [split; [done|split; [constructor|done]]|].
  rewrite bt_collect_snoc, bt_insert_length, map_app, length_app by apply bt_collect_wf. simpl.
  assert (Hmem : bt_mem k (bt_collect l) = true <-> k ∈ map fst l).
  { unfold bt_mem. destruct (bt_get k (bt_collect l)) eqn:E; split; try done.
    - intros _. apply dec_stable. intros Hn. apply bt_get_collect_None in Hn. congruence.
    - intros Hin. apply bt_get_collect_None in E. done. }
  rewrite (Permutation_app_comm (map fst l) [k]). simpl. rewrite NoDup_cons, <- IH, <- Hmem.
  destruct (bt_mem k (bt_collect l)); split; try lia; split; try done; intros Hx; try lia.
Qed.

Lemma bt_collect_keys l k : k ∈ bt_keys (bt_collect l) <-> k ∈ map fst l.
Proof.
  rewrite <- bt_mem_keys by apply bt_collect_wf. unfold bt_mem.
  destruct (bt_get k (bt_collect l)) eqn:E; split; try done.
  - intros _. apply dec_stable. intros Hn. apply bt_get_collect_None in Hn. congruence.
  - intros Hin. apply bt_get_collect_None in E. done.
Qed.
End collect.

Lemma bset_length {K} `{OrdKey K} `{!EqDecision K} (l : list K) :
  length (bset l) = length l <-> NoDup l.
Proof.
  unfold bset. pose proof (proj2 (bt_collect_length (map (fun k => (k, tt)) l))) as Hl.
  rewrite length_map, map_map in Hl. simpl in Hl. by rewrite map_id in Hl.
Qed.

(** Maps with the same keys list them in the same order. *)
Lemma bt_keys_eq {K V W} `{OrdKey K} `{!EqDecision K} (m1 : btree K V) (m2 : btree K W) :
  bt_wf m1 -> bt_wf m2 -> bt_keys m1 = bt_keys m2 <-> forall k, bt_mem k m1 = true <-> bt_mem k m2 = true.
Proof.
  intros H1 H2. split; [intros He k; by rewrite !bt_mem_keys, He|]. intros Hk.
  assert (Hsame : forall k, k ∈ bt_keys m1 <-> k ∈ bt_keys m2) by (intros k; rewrite <- !bt_mem_keys by done; apply Hk).
  unfold bt_wf, bt_keys in *. revert Hsame. generalize (map fst m1) (map fst m2) H1 H2. clear.
  induction l as [|x l IH]; intros [|y l'] H1 H2 Hsame; [done|set_solver|set_solver|].
  apply StronglySorted_inv in H1 as [H1 Hx]. apply StronglySorted_inv in H2 as [H2 Hy].
  rewrite Forall_forall in Hx, Hy.
  assert (x = y) as ->.
  { destruct (klt_total x y) as [Hlt|[->|Hlt]]; [|done|].
    - assert (Hin : x ∈ y :: l') by (apply Hsame; set_solver). apply elem_of_cons in Hin as [->|Hin]; [done|].
      destruct (klt_asym x y Hlt). by apply Hy.
    - assert (Hin : y ∈ x :: l) by (apply Hsame; set_solver). apply elem_of_cons in Hin as [->|Hin]; [done|].
      destruct (klt_asym y x Hlt). by apply Hx. }
  f_equal. apply IH; [done..|]. intros k. split; intros Hin.
  - assert (Hk : k ∈ y :: l') by (apply Hsame; set_solver). apply elem_of_cons in Hk as [->|?]; [|done].
    destruct (klt_irrefl y). by apply Hx.
  - assert (Hk : k ∈ y :: l) by (apply Hsame; set_solver). apply elem_of_cons in Hk as [->|?]; [|done].
    destruct (klt_irrefl y). by apply Hy.
Qed.
