(* ===== verification/Text.v ===== *)
(** * Strings

    A Rust [String] is its UTF-8 bytes.  The file has the predicates of the
    standard library that the validation code uses, at the byte level:
    [trim().is_empty()] and [char::is_control] decode the multi-byte sequences
    that matter to them, the ASCII tests need no decoding because no byte of a
    multi-byte character is ASCII. *)

From Stdlib Require Import ZArith Lia ZifyBool Ascii.
From stdpp Require Import base strings list.

Open Scope Z_scope.

Definition code (c : ascii) : Z := Z.of_N (N_of_ascii c).

(** [s.as_bytes()]. *)
Definition codes (s : string) : list Z := map code (String.list_ascii_of_string s).

(** [s.len()]. *)
Definition str_len (s : string) : Z := Z.of_nat (String.length s).

Definition str_is_empty (s : string) : bool :=
  match s with EmptyString => true | _ => false end.

Definition between (lo hi c : Z) : bool := (lo <=? c) && (c <=? hi).

Definition is_ascii_digit (c : Z) : bool := between 48 57 c.
Definition is_ascii_alphanumeric (c : Z) : bool :=
  is_ascii_digit c || between 65 90 c || between 97 122 c.

(** One-byte characters of the Unicode [White_Space] property. *)
Definition ws1 (a : Z) : bool := between 9 13 a || (a =? 32).

(** U+0085 and U+00A0. *)
Definition ws2 (a b : Z) : bool := (a =? 194) && ((b =? 133) || (b =? 160)).

(** U+1680, U+2000-200A, U+2028, U+2029, U+202F, U+205F and U+3000. *)
Definition ws3 (a b c : Z) : bool :=
  ((a =? 225) && (b =? 154) && (c =? 128))
  || ((a =? 226) && (b =? 128)
      && (between 128 138 c || (c =? 168) || (c =? 169) || (c =? 175)))
  || ((a =? 226) && (b =? 129) && (c =? 159))
  || ((a =? 227) && (b =? 128) && (c =? 128)).

Fixpoint all_whitespace (l : list Z) : bool :=
  match l with
  | [] => true
  | a :: l1 =>
      if ws1 a then all_whitespace l1
      else match l1 with
           | [] => false
           | b :: l2 =>
               if ws2 a b then all_whitespace l2
               else match l2 with
                    | [] => false
                    | c :: l3 => if ws3 a b c then all_whitespace l3 else false
                    end
           end
  end.

(** [s.trim().is_empty()]. *)
Definition trim_is_empty (s : string) : bool := all_whitespace (codes s).

(** [s.chars().any(char::is_control)]: U+0000-001F, U+007F, U+0080-009F. *)
Fixpoint any_control (l : list Z) : bool :=
  match l with
  | [] => false
  | a :: l1 =>
      between 0 31 a || (a =? 127)
      || match l1 with
         | b :: _ => (a =? 194) && between 128 159 b
         | [] => false
         end
      || any_control l1
  end.

(** [s.split(c)] on bytes: the pieces between occurrences of [sep]. *)
Fixpoint split_on (sep : Z) (cur : list Z) (l : list Z) : list (list Z) :=
  match l with
  | [] => [rev cur]
  | a :: l1 => if a =? sep then rev cur :: split_on sep [] l1 else split_on sep (a :: cur) l1
  end.

(** [l.join(sep)]. *)
Fixpoint join (sep : string) (l : list string) : string :=
  match l with
  | [] => ""
  | [x] => x
  | x :: l' => x +:+ sep +:+ join sep l'
  end.

Definition str_eqb (a b : string) : bool := bool_decide (a = b).

Lemma str_eqb_true a b : str_eqb a b = true <-> a = b.
Proof. unfold str_eqb. apply bool_decide_eq_true. Qed.

Lemma str_eqb_refl a : str_eqb a a = true.
Proof. by apply str_eqb_true. Qed.

Lemma sapp_nil b : "" +:+ b = b.
Proof. reflexivity. Qed.

Lemma sapp_cons c a b : String c a +:+ b = String c (a +:+ b).
Proof. reflexivity. Qed.

Lemma sapp_nil_r a : a +:+ "" = a.
Proof. induction a as [|c a IH]; [done|]. by rewrite sapp_cons, IH. Qed.

Lemma sapp_assoc a b c : a +:+ b +:+ c = (a +:+ b) +:+ c.
Proof. induction a as [|x a IH]; [done|]. by rewrite !sapp_cons, IH. Qed.

Lemma str_len_nonneg s : 0 <= str_len s.
Proof. unfold str_len. lia. Qed.

Lemma str_len_app a b : str_len (a +:+ b) = str_len a + str_len b.
Proof.
  unfold str_len. induction a as [|x a IH]; [done|].
  rewrite sapp_cons. cbn [String.length]. lia.
Qed.

(** Characters of gate and binding identifiers:
    [c.is_ascii_alphanumeric() || matches!(c, '_' | '-' | '.')]. *)
Definition is_identifier_char (c : Z) : bool :=
  is_ascii_alphanumeric c || (c =? 95) || (c =? 45) || (c =? 46).

Definition is_identifier (s : string) : bool := forallb is_identifier_char (codes s).

(** An identifier that is not empty is not blank either: identifier characters
    are never white space. *)
Lemma identifier_not_blank s :
  is_identifier s = true -> trim_is_empty s = str_is_empty s.
Proof.
  unfold is_identifier, trim_is_empty, codes.
  destruct s as [|c s]; [done|]. cbn [String.list_ascii_of_string map forallb].
  intros [Hc _]%andb_true_iff. cbn [all_whitespace str_is_empty].
  set (x := code c) in *. clearbody x.
  assert (ws1 x = false /\ x <> 194 /\ x <> 225 /\ x <> 226 /\ x <> 227) as (-> & Hne)
    by (unfold is_identifier_char, is_ascii_alphanumeric, is_ascii_digit, ws1, between in *; lia).
  destruct (map code (String.list_ascii_of_string s)) as [|b [|d l]]; [done|..];
    unfold ws2, ws3; repeat case_bool_decide; destruct (x =? 194) eqn:?, (x =? 225) eqn:?,
    (x =? 226) eqn:?, (x =? 227) eqn:?; try lia; done.
Qed.
