(* ===== verification/Json.v ===== *)
(** * JSON values

    [serde_json::Value], whose objects are ordered maps in this build (the
    [preserve_order] feature is off, so [Map] is a [BTreeMap]).  Holds the
    canonicalisation of src/vigilo/src/contracts/case_storage/identity.rs,
    which every identity hash goes through, and the proof that it leaves a
    value unchanged: the hash preimage of a value is its plain serialisation. *)

From Stdlib Require Import ZArith Lia Sorted.
From stdpp Require Import base strings numbers sets list.
From S2P Require Import Prelude Float64 BTree.

Inductive Number :=
| PosInt (n : Z)
| NegInt (n : Z)
| Float (x : f64).

Inductive Value :=
| Null
| Bool (b : bool)
| Num (n : Number)
| Str (s : string)
| Array (items : list Value)
| Object (fields : list (string * Value)).

(** Induction that reaches the members of arrays and objects. *)
Section value_ind.
Variable P : Value -> Prop.
Hypothesis HNull : P Null.
Hypothesis HBool : forall b, P (Bool b).
Hypothesis HNum : forall n, P (Num n).
Hypothesis HStr : forall s, P (Str s).
Hypothesis HArray : forall l, Forall P l -> P (Array l).
Hypothesis HObject : forall m, Forall (fun kv => P kv.2) m -> P (Object m).

Fixpoint Value_rect' (v : Value) : P v :=
  match v with
  | Null => HNull
  | Bool b => HBool b
  | Num n => HNum n
  | Str s => HStr s
  | Array l =>
      HArray l ((fix go (l : list Value) : Forall P l :=
        match l with
        | [] => List.Forall_nil _
        | x :: l' => List.Forall_cons _ _ _ (Value_rect' x) (go l')
        end) l)
  | Object m =>
      HObject m ((fix go (m : list (string * Value)) : Forall (fun kv => P kv.2) m :=
        match m with
        | [] => List.Forall_nil _
        | kv :: m' => List.Forall_cons _ _ _ (Value_rect' kv.2) (go m')
        end) m)
  end.
End value_ind.

(** [identity::canonical_json]: object members are canonicalised and collected
    into an ordered map, arrays keep their order. *)
Fixpoint canonical_json (value : Value) : Value :=
  match value with
  | Object m =>
      let sorted := bt_collect (map (fun kv => (kv.1, canonical_json kv.2)) m) in
      Object (bt_collect sorted)
  | Array items => Array (map canonical_json items)
  | _ => value
  end.

(** A value as [serde_json] can build it: every object is an ordered map. *)
Inductive value_wf : Value -> Prop :=
| wf_Null : value_wf Null
| wf_Bool b : value_wf (Bool b)
| wf_Num n : value_wf (Num n)
| wf_Str s : value_wf (Str s)
| wf_Array l : Forall value_wf l -> value_wf (Array l)
| wf_Object m : bt_wf m -> Forall (fun kv => value_wf kv.2) m -> value_wf (Object m).

(** Inserting above every key appends. *)
Lemma bt_insert_above {K V} `{OrdKey K} (k : K) (v : V) m :
  Forall (fun kv => klt kv.1 k) m -> bt_insert k v m = m ++ [(k, v)].
Proof.
  induction 1 as [|[k' v'] m Hk _ IH]; simpl in *; [done|].
  assert (kcmp k k' = Gt) as -> by (by apply kcmp_gt). by rewrite IH.
Qed.

(** Collecting an already ordered sequence rebuilds it. *)
Lemma bt_collect_sorted {K V} `{OrdKey K} (m : btree K V) :
  bt_wf m -> bt_collect m = m.
Proof.
  unfold bt_collect. intros Hm.
  assert (G : forall acc, bt_wf (acc ++ m) ->
    fold_left (fun m kv => bt_insert kv.1 kv.2 m) m acc = acc ++ m).
  { clear Hm. induction m as [|[k v] m IH]; intros acc Hacc; simpl.
    - by rewrite app_nil_r.
    - rewrite bt_insert_above, IH; rewrite <- ?app_assoc; [done|done|].
      unfold bt_wf in Hacc. rewrite map_app in Hacc. clear IH.
      induction acc as [|[k' v'] acc IH]; simpl in *; [constructor|].
      inversion Hacc as [|? ? Hs Hall]; subst. constructor; [|by apply IH].
      simpl. rewrite Forall_app in Hall. destruct Hall as [_ Hall].
      by inversion Hall. }
  by apply (G []).
Qed.

Lemma map_canonical_ext (m : list (string * Value)) :
  Forall (fun kv => canonical_json kv.2 = kv.2) m ->
  map (fun kv => (kv.1, canonical_json kv.2)) m = m.
Proof. induction 1 as [|[k v] m Hv _ IH]; simpl in *; [done|]. by rewrite Hv, IH. Qed.

Lemma canonical_json_wf_id v : value_wf v -> canonical_json v = v.
Proof.
  induction v using Value_rect'; inversion 1; subst; simpl; try done.
  - f_equal. match goal with H : Forall value_wf _ |- _ => rename H into Hwf end.
    clear -H Hwf. induction l as [|x l IHl]; simpl; [done|].
    inversion H; inversion Hwf; subst. f_equal; auto.
  - rewrite map_canonical_ext.
    + rewrite (bt_collect_sorted m) by done. by rewrite (bt_collect_sorted m).
    + match goal with H : Forall (fun kv => value_wf kv.2) _ |- _ => rename H into Hwf end.
      clear -H Hwf. induction m as [|x m IHm]; [constructor|].
      inversion H; inversion Hwf; subst. constructor; auto.
Qed.

(** Lookup of a member: [value.get(key)]. *)
Definition json_get (key : string) (v : Value) : option Value :=
  match v with Object m => bt_get key m | _ => None end.

Definition json_is_object (v : Value) : bool :=
  match v with Object _ => true | _ => false end.


(** [value.as_str()], [as_object], [as_array] and [as_i64]. *)
Definition as_str (v : Value) : option string :=
  match v with Str s => Some s | _ => None end.
Definition as_object (v : Value) : option (list (string * Value)) :=
  match v with Object m => Some m | _ => None end.
Definition as_array (v : Value) : option (list Value) :=
  match v with Array items => Some items | _ => None end.
Definition as_i64 (v : Value) : option Z :=
  match v with
  | Num (PosInt n) => if (n <=? i64_max)%Z then Some n else None
  | Num (NegInt n) => Some n
  | _ => None
  end.
