(* ===== verification/RunTypes.v ===== *)
(** * Contract data

    The records and enumerations of src/vigilo/src/contracts/run.rs and
    src/vigilo/src/contracts/evaluator.rs that the scoring, planning and
    validation code reads.  A field [f] of the source record is [prefix_f]
    here, the prefix naming the record; [BTreeMap] fields are ordered maps,
    [Uuid] is the 128-bit
    number of its sixteen bytes, most significant first. *)

From Stdlib Require Import ZArith.
From stdpp Require Import base strings numbers list.
From S2P Require Import Prelude Float64 BTree Json.

Notation Uuid := Z (only parsing).

(** ** Evaluator boundary (contracts/evaluator.rs) *)

Inductive EvaluationStatus := Passed | Failed | Error | Abstained.

#[global] Instance EvaluationStatus_eq_dec : EqDecision EvaluationStatus.
Proof. solve_decision. Defined.

Inductive Measurement :=
| MBinary (value : bool)
| MNumeric (value : f64) (unit : option string)
| MOrdinal (value : string).

(** [Measurement::kind]. *)
Definition measurement_kind (m : Measurement) : string :=
  match m with
  | MBinary _ => "binary"
  | MNumeric _ _ => "numeric"
  | MOrdinal _ => "ordinal"
  end.

(** ** Normalization policy (contracts/run.rs) *)

Inductive ScoreDirection := HigherIsBetter | LowerIsBetter.

Record UtilityPoint := mkUtilityPoint {
  up_value : f64;
  up_score : f64
}.

Inductive NumericMapping :=
| Linear (min max : f64) (direction : ScoreDirection)
| PiecewiseLinear (points : list UtilityPoint)
| Thresholds (min max : f64) (cutpoints scores : list f64).

Inductive NormalizationPolicy :=
| Binary (false_score true_score : f64)
| Numeric (unit : option string) (mapping : NumericMapping)
| Ordinal (values : btree string f64).

(** ** Aggregation policy *)

Inductive AggregationMethod := MinScore | WeightedMean.

#[global] Instance AggregationMethod_eq_dec : EqDecision AggregationMethod.
Proof. solve_decision. Defined.

Record DimensionAggregation := mkDimensionAggregation {
  da_method : AggregationMethod;
  da_blocking : bool;
  da_weight : f64
}.

Record AggregationSettings := mkAggregationSettings {
  ags_dimensions : btree string DimensionAggregation
}.

(** ** Run profile *)

Record RunDefaults := mkRunDefaults {
  rd_max_attempts : Z;
  rd_request_timeout_secs : Z;
  rd_fail_on_any_blocking_failure : bool;
  rd_min_execution_score : f64
}.

Inductive PersistenceMode := Full | Summary.
Inductive PersistRawOutputsMode := RawAll | RawFailuresOnly | RawNone.

Record PersistenceSettings := mkPersistenceSettings {
  ps_mode : PersistenceMode;
  ps_persist_raw_outputs : PersistRawOutputsMode;
  ps_persist_evaluator_evidence : bool
}.

Record EvaluatorBinding := mkEvaluatorBinding {
  eb_id : string;
  eb_evaluator_ref : string;
  eb_required : bool;
  eb_dimension : string;
  eb_blocking : bool;
  eb_weight : f64;
  eb_normalization : NormalizationPolicy;
  eb_pass_threshold : f64;
  eb_config : Value
}.

Record AppliesTo := mkAppliesTo {
  at_task_type : string;
  at_tags_any : list string;
  at_tags_all : list string
}.

Record CaseGroupProfile := mkCaseGroupProfile {
  cg_id : string;
  cg_description : string;
  cg_applies_to : AppliesTo;
  cg_evaluators : list EvaluatorBinding;
  cg_aggregation : AggregationSettings
}.

Record AgentHttpConfig := mkAgentHttpConfig {
  ah_url : string;
  ah_method : string;
  ah_headers : btree string string;
  ah_timeout_secs : option Z;
  ah_max_request_bytes : option Z;
  ah_max_response_bytes : option Z;
  ah_max_retry_after_secs : option Z
}.

Record AgentProfile := mkAgentProfile {
  ap_provider : string;
  ap_name : string;
  ap_version : option string;
  ap_model : option string;
  ap_prompt_config_id : option string;
  ap_prompt_config_version : option string;
  ap_http : AgentHttpConfig;
  ap_config : Value
}.

Record ScorecardGate := mkScorecardGate {
  sg_id : string;
  sg_dimension : string;
  sg_binding_id : option string;
  sg_case_group : option string;
  sg_tags_all : list string;
  sg_min_mean_score : option f64;
  sg_score_threshold : option f64;
  sg_min_pass_rate : option f64;
  sg_min_coverage : option f64;
  sg_max_error_rate : option f64;
  sg_max_abstention_rate : option f64
}.

Record ScorecardSettings := mkScorecardSettings {
  ss_gates : list ScorecardGate
}.

Record RunProfile := mkRunProfile {
  rp_profile_id : string;
  rp_profile_version : string;
  rp_description : string;
  rp_defaults : RunDefaults;
  rp_persistence : PersistenceSettings;
  rp_scorecard : ScorecardSettings;
  rp_agent : AgentProfile;
  rp_case_groups : list CaseGroupProfile
}.

(** ** Dataset *)

Record DatasetCase := mkDatasetCase {
  dc_id : Uuid;
  dc_task_type : string;
  dc_case_group : option string;
  dc_input : Value;
  dc_expected : option Value;
  dc_context : option Value;
  dc_tags : list string;
  dc_metadata : btree string Value
}.

Record RunDataset := mkRunDataset {
  rds_dataset_id : Uuid;
  rds_dataset_version : option string;
  rds_cases : list DatasetCase
}.
