(* ===== verification/Normalization.v ===== *)
(** * Measurement normalization

    Model of src/vigilo/src/contracts/normalization.rs: the host turns an
    evaluator's raw measurement into a score in the unit interval according to
    the profile's policy.  Slice search ([partition_point]) is modelled by the
    binary search it is documented to be and proved equal, on the slices that
    [validate_policy] admits, to the linear count of leading elements. *)

From Stdlib Require Import ZArith Lia ZifyBool Sorted SpecFloat.
From stdpp Require Import base strings numbers option list.
From S2P Require Import Prelude Float64 BTree Text Json RunTypes.

Definition MAX_MAPPING_ENTRIES : Z := 256.
Definition MAX_LABEL_BYTES : Z := 256.
Definition MAX_UNIT_BYTES : Z := 64.

Definition valid_score (score : f64) : bool := in_unit score.

Definition validate_domain (min max : f64) : result unit :=
  if negb (is_finite min) || negb (is_finite max) || fle max min
  then Err "numeric mapping domain must be finite with max greater than min"
  else Ok tt.

(** One iteration of the loop of [validate_points]; the state is the value of
    the previous point. *)
Definition validate_point (prev : option f64) (point : UtilityPoint) : result (option f64) :=
  if negb (is_finite (up_value point)) || negb (valid_score (up_score point))
  then Err "piecewise_linear point must have a finite value and score between 0.0 and 1.0"
  else if is_some_and (fun p => fle (up_value point) p) prev
  then Err "piecewise_linear point values must be strictly increasing"
  else Ok (Some (up_value point)).

Definition validate_points (points : list UtilityPoint) : result unit :=
  if negb (in_range 2 MAX_MAPPING_ENTRIES (zlen points))
  then Err "piecewise_linear mapping must contain between 2 and 256 points"
  else _ ← foldM validate_point None points; Ok tt.

Definition validate_cutpoint (min max : f64) (prev : option f64) (cutpoint : f64)
    : result (option f64) :=
  if negb (is_finite cutpoint) || fle cutpoint min || fle max cutpoint
  then Err "threshold cutpoints must be finite and strictly inside the mapping domain"
  else if is_some_and (fun p => fle cutpoint p) prev
  then Err "threshold cutpoints must be strictly increasing"
  else Ok (Some cutpoint).

Definition validate_mapping (mapping : NumericMapping) : result unit :=
  match mapping with
  | Linear min max _ => validate_domain min max
  | PiecewiseLinear points => validate_points points
  | Thresholds min max cutpoints scores =>
      _ ← validate_domain min max;
      if (MAX_MAPPING_ENTRIES <=? zlen cutpoints)%Z
      then Err "threshold mapping must contain fewer than 256 cutpoints"
      else if negb (zlen scores =? zlen cutpoints + 1)%Z
      then Err "threshold mapping must contain exactly one more score than cutpoints"
      else if existsb (fun score => negb (valid_score score)) scores
      then Err "threshold scores must be finite and between 0.0 and 1.0"
      else _ ← foldM (validate_cutpoint min max) None cutpoints; Ok tt
  end.

Definition validate_ordinal_entry (u : unit) (entry : string * f64) : result unit :=
  if trim_is_empty entry.1 || (MAX_LABEL_BYTES <? str_len entry.1)%Z
  then Err "ordinal labels must contain between 1 and 256 bytes"
  else if negb (valid_score entry.2)
  then Err "ordinal scores must be finite and between 0.0 and 1.0"
  else Ok tt.

Definition validate_policy (policy : NormalizationPolicy) : result unit :=
  match policy with
  | Binary false_score true_score =>
      if negb (valid_score false_score) || negb (valid_score true_score)
      then Err "binary scores must be finite and between 0.0 and 1.0"
      else Ok tt
  | Numeric unit mapping =>
      if is_some_and (fun u => trim_is_empty u || (MAX_UNIT_BYTES <? str_len u)%Z) unit
      then Err "numeric unit must contain between 1 and 64 bytes"
      else validate_mapping mapping
  | Ordinal values =>
      if (zlen values =? 0)%Z || (MAX_MAPPING_ENTRIES <? zlen values)%Z
      then Err "ordinal mapping must contain between 1 and 256 values"
      else foldM validate_ordinal_entry tt values
  end.

(** [slice.partition_point(pred)] by binary search over [lo, hi). *)
Fixpoint partition_search {A} (fuel : nat) (pred : A -> bool) (l : list A) (lo hi : nat) : nat :=
  match fuel with
  | O => lo
  | S fuel' =>
      if (hi <=? lo)%nat then lo
      else
        let mid := ((lo + hi) / 2)%nat in
        match l !! mid with
        | Some a => if pred a then partition_search fuel' pred l (S mid) hi
                    else partition_search fuel' pred l lo mid
        | None => lo
        end
  end.

(** The interval shrinks at every step, so its length is enough fuel. *)
Definition partition_point {A} (pred : A -> bool) (l : list A) : nat :=
  partition_search (S (length l)) pred l 0 (length l).

(** [slice[i]]: out of bounds panics, modelled as an error of its own. *)
Definition index {A} (l : list A) (i : nat) : result A :=
  ok_or (l !! i) "panic: index out of bounds".

(** The errors that stand for a panic of the source. *)
Definition is_panic (e : string) : bool := String.prefix "panic: " e.

Definition normalize_numeric (mapping : NumericMapping) (value : f64) : result f64 :=
  if negb (is_finite value) then Err "numeric measurement must be finite"
  else
    match mapping with
    | Linear min max direction =>
        if flt value min || flt max value
        then Err "numeric measurement is outside the configured domain"
        else
          let position := fdiv (fsub value min) (fsub max min) in
          Ok (match direction with
              | HigherIsBetter => position
              | LowerIsBetter => fsub f1 position
              end)
    | PiecewiseLinear points =>
        first ← index points 0;
        last ← index points (length points - 1);
        if flt value (up_value first) || flt (up_value last) value
        then Err "numeric measurement is outside the configured curve"
        else
          let upper := partition_point (fun point => flt (up_value point) value) points in
          match points !! upper with
          | Some p =>
              if feq (up_value p) value then Ok (up_score p)
              else
                lower ← (match upper with
                         | O => Err "panic: attempt to subtract with overflow"
                         | S lower => Ok lower
                         end);
                left ← index points lower;
                right ← index points upper;
                let position := fdiv (fsub value (up_value left))
                                     (fsub (up_value right) (up_value left)) in
                Ok (fadd (up_score left)
                         (fmul position (fsub (up_score right) (up_score left))))
          | None => Err "panic: index out of bounds"
          end
    | Thresholds min max cutpoints scores =>
        if flt value min || flt max value
        then Err "numeric measurement is outside the configured domain"
        else
          let interval := partition_point (fun cutpoint => fle cutpoint value) cutpoints in
          index scores interval
    end.

Definition normalize_measurement (policy : NormalizationPolicy) (measurement : Measurement)
    : result f64 :=
  _ ← validate_policy policy;
  score ← (match policy, measurement with
           | Binary false_score true_score, MBinary value =>
               Ok (if value then true_score else false_score)
           | Numeric expected_unit mapping, MNumeric value unit =>
               if negb (bool_decide (unit = expected_unit))
               then Err "numeric measurement unit does not match configured unit"
               else normalize_numeric mapping value
           | Ordinal values, MOrdinal value =>
               if trim_is_empty value || (MAX_LABEL_BYTES <? str_len value)%Z
               then Err "ordinal measurement label is empty or too long"
               else ok_or (bt_get value values) "ordinal measurement value is not mapped"
           | _, _ =>
               Err ("measurement kind '" +:+ measurement_kind measurement +:+
                    "' is incompatible with normalization policy")
           end);
  if negb (valid_score score) then Err "normalization produced an invalid score"
  else Ok score.

(** ** Slice search *)

(** Specification of [partition_point]: leading elements that satisfy [pred]. *)
Fixpoint leading {A} (pred : A -> bool) (l : list A) : nat :=
  match l with
  | [] => 0
  | a :: l' => if pred a then S (leading pred l') else 0
  end.

(** The documented precondition: no element satisfies [pred] after one that
    does not. *)
Definition partitioned {A} (pred : A -> bool) (l : list A) : Prop :=
  forall i j a b, (i < j)%nat -> l !! i = Some a -> l !! j = Some b ->
    pred b = true -> pred a = true.

Section search.
Context {A : Type} (pred : A -> bool).
Implicit Types l : list A.

Lemma leading_le l : (leading pred l <= length l)%nat.
Proof. induction l as [|a l IH]; simpl; [lia|]. destruct (pred a); lia. Qed.

Lemma leading_below l i a :
  (i < leading pred l)%nat -> l !! i = Some a -> pred a = true.
Proof.
  revert i; induction l as [|b l IH]; intros [|i]; simpl; try lia;
    destruct (pred b) eqn:E; try lia; intros Hi Ha; simplify_eq/=; [done|].
  apply (IH i); [lia|done].
Qed.

Lemma leading_at l a : l !! leading pred l = Some a -> pred a = false.
Proof.
  induction l as [|b l IH]; simpl; [done|].
  destruct (pred b) eqn:E; simpl; [apply IH|]. intros; by simplify_eq.
Qed.

(** On a partitioned slice the predicate decides the side of the boundary. *)
Lemma partitioned_side l i a :
  partitioned pred l -> l !! i = Some a ->
  pred a = bool_decide (i < leading pred l)%nat.
Proof.
  intros Hp Ha. destruct (decide (i < leading pred l)%nat) as [Hlt|Hge].
  - rewrite bool_decide_eq_true_2 by done. by eapply leading_below.
  - rewrite bool_decide_eq_false_2 by done.
    destruct (pred a) eqn:E; [|done]. exfalso.
    destruct (decide (i = leading pred l)) as [->|Hne].
    + apply leading_at in Ha. congruence.
    + assert (is_Some (l !! leading pred l)) as [b Hb].
      { apply lookup_lt_is_Some. apply lookup_lt_Some in Ha. lia. }
      pose proof (leading_at _ _ Hb) as Hf.
      rewrite (Hp (leading pred l) i b a) in Hf; [done|lia|done..].
Qed.

Lemma partition_search_leading l fuel lo hi :
  partitioned pred l -> (hi - lo < fuel)%nat ->
  (lo <= leading pred l <= hi)%nat -> (hi <= length l)%nat ->
  partition_search fuel pred l lo hi = leading pred l.
Proof.
  intros Hp. revert lo hi. induction fuel as [|fuel IH]; intros lo hi Hf Hb Hl; [lia|].
  cbn [partition_search]. destruct (hi <=? lo)%nat eqn:E; [lia|].
  set (mid := ((lo + hi) / 2)%nat).
  assert (lo <= mid < hi)%nat as Hm
    by (unfold mid; split; [apply Nat.div_le_lower_bound|apply Nat.div_lt_upper_bound]; lia).
  destruct (l !! mid) as [a|] eqn:Ha; [|apply lookup_ge_None in Ha; lia].
  rewrite (partitioned_side l mid a Hp Ha).
  case_bool_decide; apply IH; lia.
Qed.

Lemma partition_point_leading l :
  partitioned pred l -> partition_point pred l = leading pred l.
Proof.
  intros Hp. apply partition_search_leading; [done|lia| |lia].
  pose proof (leading_le l). lia.
Qed.
End search.

(** ** What validation establishes *)

(** Strictly increasing in the float order. *)
Definition increasing (l : list f64) : Prop :=
  forall i j a b, (i < j)%nat -> l !! i = Some a -> l !! j = Some b -> flt a b = true.

Lemma increasing_snoc l x :
  increasing l -> Forall (fun y => flt y x = true) l -> increasing (l ++ [x]).
Proof.
  intros Hl Hx i j a b Hij Ha Hb.
  pose proof (lookup_lt_Some _ _ _ Hb) as Hlen. rewrite length_app in Hlen; simpl in Hlen.
  rewrite lookup_app_l in Ha by lia.
  destruct (decide (j < length l)%nat).
  - rewrite lookup_app_l in Hb by done. exact (Hl i j a b Hij Ha Hb).
  - assert (j = length l) as -> by lia.
    rewrite list_lookup_middle in Hb by done. simplify_eq.
    eapply (Forall_lookup_1 _ _ _ _ Hx Ha).
Qed.

(** Loop invariant shared by the two ordering loops: what was accepted is
    finite and increasing, and the state is its last element. *)
Definition accepted (l : list f64) (prev : option f64) : Prop :=
  increasing l /\ Forall (fun x => is_finite x = true) l /\
  Forall (fun y => match prev with Some p => fle y p = true | None => False end) l.

Lemma accepted_snoc l prev x :
  accepted l prev -> is_finite x = true ->
  is_some_and (fun p => fle x p) prev = false -> 
  (l = [] \/ exists p, prev = Some p /\ is_finite p = true) ->
  accepted (l ++ [x]) (Some x).
Proof.
  intros (Hinc & Hfin & Hprev) Hx Hle Hp. repeat split.
  - apply increasing_snoc; [done|]. destruct Hp as [->|(p & -> & Hpf)]; [constructor|].
    simpl in Hle. rewrite fle_false_flt in Hle by auto. apply negb_false_iff in Hle.
    eapply Forall_impl; [exact Hprev|]. simpl. intros y Hy. exact (fle_flt_trans _ _ _ Hy Hle).
  - apply Forall_app; auto.
  - apply Forall_app; split; [|constructor; [by apply fle_refl; auto|constructor]].
    destruct Hp as [->|(p & -> & Hpf)]; [constructor|].
    simpl in Hle. rewrite fle_false_flt in Hle by auto. apply negb_false_iff in Hle.
    eapply Forall_impl; [exact Hprev|]. simpl. intros y Hy.
    apply flt_fle. exact (fle_flt_trans _ _ _ Hy Hle).
Qed.

Lemma validate_points_inv points :
  validate_points points = Ok tt ->
  (2 <= length points)%nat /\ increasing (map up_value points) /\
  Forall (fun p => is_finite (up_value p) = true /\ valid_score (up_score p) = true) points.
Proof.
  unfold validate_points. case_if; [done|]. intros H. inv_ok.
  assert (G : accepted (map up_value points) a /\
    Forall (fun p => is_finite (up_value p) = true /\ valid_score (up_score p) = true) points /\
    (points = [] \/ exists p, a = Some p /\ is_finite p = true)).
  { pattern points, a. eapply foldM_inv_prefix; [..|exact H0].
    - repeat split; try constructor; auto. intros i j ? ? ? Hi; done.
    - intros pre s p s1 (Hacc & Hall & Hp) Hv. unfold validate_point in Hv.
      case_if; [done|]. case_if; [done|]. inv_ok. split_and!.
      + rewrite map_app. apply (accepted_snoc _ s); auto.
        destruct Hp as [->|]; auto.
      + apply Forall_app; auto.
      + eauto. }
  destruct G as ((Hinc & _ & _) & Hall & _). split_and!; [|done..].
  unfold MAX_MAPPING_ENTRIES, zlen in *. lia.
Qed.

Lemma validate_cutpoints_inv min max cutpoints r :
  foldM (validate_cutpoint min max) None cutpoints = Ok r ->
  increasing cutpoints /\ Forall (fun x => is_finite x = true) cutpoints.
Proof.
  intros H.
  assert (G : accepted cutpoints r /\ (cutpoints = [] \/ exists p, r = Some p /\ is_finite p = true)).
  { pattern cutpoints, r. eapply foldM_inv_prefix; [..|exact H].
    - repeat split; try constructor; auto. intros i j ? ? ? Hi; done.
    - intros pre s p s1 (Hacc & Hp) Hv. unfold validate_cutpoint in Hv.
      case_if; [done|]. case_if; [done|]. inv_ok. split; [|eauto].
      by apply (accepted_snoc _ s). }
  by destruct G as ((? & ? & _) & _).
Qed.

(** Increasing knots partition both search predicates. *)
Lemma increasing_partitioned_lt points value :
  increasing (map up_value points) ->
  partitioned (fun p => flt (up_value p) value) points.
Proof.
  intros Hinc i j a b Hij Ha Hb Hlt. eapply flt_trans; [|exact Hlt].
  eapply (Hinc i j); [done|..]; by rewrite list_lookup_fmap, ?Ha, ?Hb.
Qed.

Lemma increasing_partitioned_le cutpoints value :
  increasing cutpoints -> partitioned (fun c => fle c value) cutpoints.
Proof.
  intros Hinc i j a b Hij Ha Hb Hle. apply flt_fle.
  eapply flt_fle_trans; [|exact Hle]. by eapply (Hinc i j).
Qed.

Lemma validate_thresholds_inv min max cutpoints scores :
  validate_mapping (Thresholds min max cutpoints scores) = Ok tt ->
  increasing cutpoints /\ length scores = S (length cutpoints) /\
  Forall (fun s => valid_score s = true) scores /\
  is_finite min = true /\ is_finite max = true.
Proof.
  simpl. intros H. inv_ok. repeat case_if; try done. inv_ok.
  match goal with H : foldM _ _ _ = Ok _ |- _ => apply validate_cutpoints_inv in H as [Hinc _] end.
  unfold validate_domain in H0. case_if; [done|]. inv_ok.
  split_and!; [done| | |done..].
  - unfold zlen in *. lia.
  - rewrite existsb_false_Forall in *. eapply Forall_impl; [done|].
    simpl. intros x Hx. by apply negb_false_iff.
Qed.

Lemma leading_is_Some {A} (pred : A -> bool) l i a :
  l !! i = Some a -> pred a = false -> is_Some (l !! leading pred l).
Proof.
  intros Ha Hp. apply lookup_lt_is_Some.
  destruct (decide (leading pred l <= i)%nat); [apply lookup_lt_Some in Ha; lia|].
  rewrite (leading_below pred l i a) in Hp; [done|lia|done].
Qed.

(** The selected knot: the first one that is not below the measurement. *)
Lemma piecewise_knot points value first last :
  validate_points points = Ok tt -> is_finite value = true ->
  points !! 0%nat = Some first -> points !! (length points - 1)%nat = Some last ->
  flt value (up_value first) = false -> flt (up_value last) value = false ->
  exists p, points !! partition_point (fun q => flt (up_value q) value) points = Some p /\
    flt (up_value p) value = false /\
    (partition_point (fun q => flt (up_value q) value) points = 0%nat ->
     feq (up_value p) value = true).
Proof.
  intros Hv Hfin Hfirst Hlast Hlo Hhi.
  apply validate_points_inv in Hv as (_ & Hinc & Hall).
  rewrite (partition_point_leading _ _ (increasing_partitioned_lt points value Hinc)).
  set (pred := fun q => flt (up_value q) value) in *.
  destruct (leading_is_Some pred points _ _ Hlast Hhi) as [p Hp].
  exists p. split_and!; [done|by apply (leading_at pred points)|].
  intros E. rewrite E in Hp. assert (p = first) as -> by congruence.
  pose proof (Forall_lookup_1 _ _ _ _ Hall Hfirst) as [Hf _].
  pose proof (leading_at pred points first) as Hat. rewrite E in Hat.
  specialize (Hat Hfirst). unfold pred in Hat.
  assert (fle (up_value first) value = true) as H1 by (rewrite fle_false_flt, Hlo by auto; done).
  assert (fle value (up_value first) = true) as H2 by (rewrite fle_false_flt, Hat by auto; done).
  by apply fle_antisym.
Qed.

(** A computation none of whose errors is a panic. *)
Definition no_panic {A} (r : result A) : Prop :=
  match r with Ok _ => True | Err e => is_panic e = false end.

Lemma no_panic_bind {A B} (m : result A) (f : A -> result B) :
  no_panic m -> (forall a, m = Ok a -> no_panic (f a)) -> no_panic (m ≫= f).
Proof. destruct m; simpl; auto. Qed.

Lemma no_panic_foldM {A S} (f : S -> A -> result S) l s :
  (forall s a, no_panic (f s a)) -> no_panic (foldM f s l).
Proof.
  intros Hf. revert s; induction l as [|a l IH]; intros s; simpl; [done|].
  apply no_panic_bind; auto.
Qed.

Lemma validate_policy_no_panic policy : no_panic (validate_policy policy).
Proof.
  assert (forall A (b : bool) e (r : result A),
    is_panic e = false -> no_panic r -> no_panic (if b then Err e else r)) as Hif
    by (by intros ? [] ).
  destruct policy as [fs ts|u [min max d|points|min max cuts scores]|values]; simpl;
    unfold validate_domain, validate_points; repeat (apply Hif; [done|]); try done.
  - apply no_panic_bind; [|done]. apply no_panic_foldM. intros s p.
    unfold validate_point. by repeat (apply Hif; [done|]).
  - apply no_panic_bind; [by apply Hif|]. intros _ _. repeat (apply Hif; [done|]).
    apply no_panic_bind; [|done]. apply no_panic_foldM. intros s p.
    unfold validate_cutpoint. by repeat (apply Hif; [done|]).
  - apply no_panic_foldM. intros s p.
    unfold validate_ordinal_entry. by repeat (apply Hif; [done|]).
Qed.

Lemma normalize_numeric_no_panic mapping value :
  validate_mapping mapping = Ok tt -> no_panic (normalize_numeric mapping value).
Proof.
  intros Hv. unfold normalize_numeric. case_if; [done|]. apply negb_false_iff in Heqb.
  destruct mapping as [min max dir|points|min max cutpoints scores].
  - by repeat case_if.
  - pose proof (validate_points_inv _ Hv) as (Hlen & _ & _).
    destruct (lookup_lt_is_Some_2 points 0) as [first Hfirst]; [lia|].
    destruct (lookup_lt_is_Some_2 points (length points - 1)) as [last Hlast]; [lia|].
    unfold index. rewrite Hfirst, Hlast. simpl. case_if; [done|].
    apply orb_false_iff in Heqb0 as [Hlo Hhi].
    destruct (piecewise_knot points value first last Hv Heqb Hfirst Hlast Hlo Hhi)
      as (p & Hp & _ & H0).
    rewrite Hp. case_if; [done|].
    destruct (partition_point _ points) as [|lower] eqn:E; [specialize (H0 eq_refl); congruence|].
    simpl. apply lookup_lt_Some in Hp.
    destruct (lookup_lt_is_Some_2 points lower) as [l Hl]; [lia|]. by rewrite Hl.
  - apply validate_thresholds_inv in Hv as (Hinc & Hlen & _ & _ & _).
    case_if; [done|]. rewrite partition_point_leading
      by (by apply increasing_partitioned_le).
    unfold index. pose proof (leading_le (fun c => fle c value) cutpoints).
    destruct (lookup_lt_is_Some_2 scores (leading (fun c => fle c value) cutpoints)) as [s Hs];
      [lia|]. by rewrite Hs.
Qed.

(** Normalization is safe on every policy and every measurement: what it
    returns is a score in the unit interval, and no error it returns is an
    out-of-bounds index or an arithmetic panic of the interpolation code. *)
Theorem normalize_measurement_safe policy measurement :
  match normalize_measurement policy measurement with
  | Ok score => valid_score score = true
  | Err e => is_panic e = false
  end.
Proof.
  unfold normalize_measurement.
  pose proof (validate_policy_no_panic policy) as Hpol.
  destruct (validate_policy policy) as [[]|e] eqn:Hv; simpl; [|done].
  assert (G : forall r, no_panic r ->
    match (score ← r; if negb (valid_score score)
                      then Err "normalization produced an invalid score" else Ok score) with
    | Ok score => valid_score score = true
    | Err e => is_panic e = false
    end).
  { intros [x|e]; simpl; [|done]. intros _. case_if; [done|]. by apply negb_false_iff. }
  apply G. destruct policy as [fs ts|u mapping|values], measurement as [b|v u'|l]; try done.
  - simpl in Hv. repeat case_if; try done. by apply normalize_numeric_no_panic.
  - case_if; [done|]. by destruct (bt_get l values).
Qed.

Lemma validate_policy_mapping u mapping :
  validate_policy (Numeric u mapping) = Ok tt -> validate_mapping mapping = Ok tt.
Proof. simpl. by case_if. Qed.

Lemma leading_count {A} (pred : A -> bool) (l : list A) :
  partitioned pred l -> leading pred l = length (List.filter pred l).
Proof.
  induction l as [|a l IH]; intros Hp; simpl; [done|].
  assert (Hp' : partitioned pred l)
    by (intros i j x y Hij Hx Hy; apply (Hp (S i) (S j) x y); [lia|done..]).
  destruct (pred a) eqn:E; simpl; [by rewrite IH|].
  rewrite <- IH by done. destruct l as [|b l]; simpl; [done|].
  destruct (pred b) eqn:Eb; [|done].
  rewrite (Hp 0%nat 1%nat a b) in E; [done|lia|done..].
Qed.

(** for an admitted threshold policy every finite measurement of the
    configured domain is normalized, to the score of the interval whose
    position is the number of cutpoints at or below the measurement. *)
Theorem thresholds_select_interval u min max cutpoints scores value :
  validate_policy (Numeric u (Thresholds min max cutpoints scores)) = Ok tt ->
  is_finite value = true -> fle min value = true -> fle value max = true ->
  exists score,
    normalize_measurement (Numeric u (Thresholds min max cutpoints scores)) (MNumeric value u)
      = Ok score /\
    scores !! length (List.filter (fun c => fle c value) cutpoints) = Some score.
Proof.
  intros Hv Hfin Hlo Hhi. unfold normalize_measurement. rewrite Hv. simpl.
  rewrite bool_decide_eq_true_2 by done. simpl. unfold normalize_numeric. rewrite Hfin. simpl.
  apply validate_policy_mapping, validate_thresholds_inv in Hv
    as (Hinc & Hlen & Hall & Hmin & Hmax).
  rewrite fle_false_flt in Hlo, Hhi by auto. apply negb_true_iff in Hlo, Hhi.
  rewrite Hlo, Hhi. simpl.
  pose proof (increasing_partitioned_le cutpoints value Hinc) as Hp.
  rewrite partition_point_leading, leading_count by done.
  pose proof (leading_le (fun c => fle c value) cutpoints) as Hle.
  rewrite leading_count in Hle by done. unfold index.
  destruct (lookup_lt_is_Some_2 scores (length (List.filter (fun c => fle c value) cutpoints)))
    as [s Hs]; [lia|].
  exists s. rewrite Hs. simpl. split; [|done].
  by rewrite (Forall_lookup_1 _ _ _ _ Hall Hs).
Qed.

(** Below the knot [i] lie exactly the first [i] knots. *)
Lemma leading_at_knot points i p :
  increasing (map up_value points) -> points !! i = Some p ->
  leading (fun q => flt (up_value q) (up_value p)) points = i.
Proof.
  intros Hinc Hp. set (pred := fun q => flt (up_value q) (up_value p)).
  assert (Hpart : partitioned pred points) by (by apply increasing_partitioned_lt).
  pose proof (partitioned_side pred points i p Hpart Hp) as Hside.
  unfold pred at 1 in Hside. rewrite flt_irrefl in Hside.
  symmetry in Hside. apply bool_decide_eq_false in Hside.
  destruct (decide (leading pred points = i)) as [|Hne]; [done|exfalso].
  destruct (lookup_lt_is_Some_2 points (leading pred points)) as [q Hq];
    [apply lookup_lt_Some in Hp; lia|].
  pose proof (leading_at pred points q Hq) as Hf. unfold pred in Hf.
  assert (flt (up_value q) (up_value p) = true); [|congruence].
  apply (Hinc (leading pred points) i); [lia|..]; by rewrite list_lookup_fmap, ?Hq, ?Hp.
Qed.

Lemma increasing_fle_at l i j a b :
  increasing l -> Forall (fun x => is_finite x = true) l ->
  (i <= j)%nat -> l !! i = Some a -> l !! j = Some b -> fle a b = true.
Proof.
  intros Hinc Hfin Hij Ha Hb. destruct (decide (i = j)) as [->|].
  - rewrite Ha in Hb. simplify_eq. apply fle_refl.
    pose proof (Forall_lookup_1 _ _ _ _ Hfin Ha). auto.
  - apply flt_fle. apply (Hinc i j); [lia|done..].
Qed.

Lemma fle_not_flt a b : fle a b = true -> flt b a = false.
Proof.
  intros H. destruct (flt b a) eqn:E; [|done]. exfalso.
  pose proof (flt_irrefl a) as Hi. by rewrite (fle_flt_trans a b a) in Hi.
Qed.

(** an admitted utility curve passes exactly through its points: measuring
    the value of a configured point yields its configured score, unrounded. *)
Theorem piecewise_exact_at_points u points i p :
  validate_policy (Numeric u (PiecewiseLinear points)) = Ok tt ->
  points !! i = Some p ->
  normalize_measurement (Numeric u (PiecewiseLinear points)) (MNumeric (up_value p) u)
    = Ok (up_score p).
Proof.
  intros Hv Hp. unfold normalize_measurement. rewrite Hv. simpl.
  rewrite bool_decide_eq_true_2 by done. simpl. unfold normalize_numeric.
  apply validate_policy_mapping, validate_points_inv in Hv as (Hlen & Hinc & Hall).
  pose proof (Forall_lookup_1 _ _ _ _ Hall Hp) as [Hfin Hscore]. rewrite Hfin. simpl.
  assert (Hfins : Forall (fun x => is_finite x = true) (map up_value points))
    by (apply Forall_map; eapply Forall_impl; [done|]; naive_solver).
  assert (Hval : map up_value points !! i = Some (up_value p)) by (by rewrite list_lookup_fmap, Hp).
  pose proof (lookup_lt_Some _ _ _ Hp) as Hi.
  destruct (lookup_lt_is_Some_2 points 0) as [first Hfirst]; [lia|].
  destruct (lookup_lt_is_Some_2 points (length points - 1)) as [last Hlast]; [lia|].
  unfold index. rewrite Hfirst, Hlast. simpl.
  rewrite (fle_not_flt (up_value first) (up_value p)), (fle_not_flt (up_value p) (up_value last)).
  - simpl. rewrite partition_point_leading by (by apply increasing_partitioned_lt).
    rewrite (leading_at_knot points i p Hinc Hp), Hp.
    assert (feq (up_value p) (up_value p) = true) as ->
      by (apply fle_antisym; apply fle_refl; auto).
    simpl. by rewrite Hscore.
  - apply (increasing_fle_at (map up_value points) i (length points - 1)); [done|done|lia|done|].
    by rewrite list_lookup_fmap, Hlast.
  - apply (increasing_fle_at (map up_value points) 0 i); [done|done|lia| |done].
    by rewrite list_lookup_fmap, Hfirst.
Qed.

(** the binary search the code relies on agrees with the linear count of
    elements below the measurement, for every policy that validation admits. *)
Theorem partition_point_refines_scan u min max cutpoints scores points value :
  validate_policy (Numeric u (Thresholds min max cutpoints scores)) = Ok tt ->
  validate_policy (Numeric u (PiecewiseLinear points)) = Ok tt ->
  partition_point (fun c => fle c value) cutpoints
    = length (List.filter (fun c => fle c value) cutpoints) /\
  partition_point (fun p => flt (up_value p) value) points
    = length (List.filter (fun p => flt (up_value p) value) points).
Proof.
  intros Ht Hp.
  apply validate_policy_mapping, validate_thresholds_inv in Ht as (Hinc & _).
  apply validate_policy_mapping, validate_points_inv in Hp as (_ & Hincp & _).
  pose proof (increasing_partitioned_le cutpoints value Hinc).
  pose proof (increasing_partitioned_lt points value Hincp).
  split; (rewrite partition_point_leading by done; by apply leading_count).
Qed.

(** ** Concrete policies *)

Definition half : f64 := Eval vm_compute in fdiv f1 (f64_of_Z 2).
Definition thresholds_policy : NormalizationPolicy :=
  Numeric None (Thresholds f0 (f64_of_Z 100) [f64_of_Z 10; f64_of_Z 50] [f0; half; f1]).
Definition curve : list UtilityPoint :=
  [mkUtilityPoint f0 f0; mkUtilityPoint (f64_of_Z 10) half; mkUtilityPoint (f64_of_Z 20) f1].

Lemma thresholds_select_interval_witness :
  exists score,
    normalize_measurement thresholds_policy (MNumeric (f64_of_Z 10) None) = Ok score /\
    [f0; half; f1] !! 1%nat = Some score.
Proof.
  apply (thresholds_select_interval None f0 (f64_of_Z 100) [f64_of_Z 10; f64_of_Z 50]
           [f0; half; f1] (f64_of_Z 10)); vm_compute; reflexivity.
Defined.

Lemma piecewise_exact_at_points_witness :
  normalize_measurement (Numeric None (PiecewiseLinear curve)) (MNumeric (f64_of_Z 10) None)
    = Ok half.
Proof.
  apply (piecewise_exact_at_points None curve 1%nat (mkUtilityPoint (f64_of_Z 10) half));
    vm_compute; reflexivity.
Defined.

Lemma partition_point_refines_scan_witness :
  partition_point (fun c => fle c (f64_of_Z 50)) [f64_of_Z 10; f64_of_Z 50] = 2%nat /\
  partition_point (fun p => flt (up_value p) (f64_of_Z 50)) curve = 3%nat.
Proof.
  apply (partition_point_refines_scan None f0 (f64_of_Z 100) [f64_of_Z 10; f64_of_Z 50]
           [f0; half; f1] curve (f64_of_Z 50)); vm_compute; reflexivity.
Defined.

(** A domain of finite bounds whose width overflows binary64. *)
Definition huge : f64 := Eval vm_compute in f64_of_Z (17 * 10 ^ 307).
Definition wide_policy : NormalizationPolicy :=
  Numeric None (Linear (SFopp huge) huge HigherIsBetter).

(** Validation admits a linear domain whose width is not representable;
    there the middle of the domain is scored zero and the upper bound is
    rejected, so a linear mapping is not linear on every admitted domain. *)
Theorem linear_domain_width_overflow :
  validate_policy wide_policy = Ok tt /\
  normalize_measurement wide_policy (MNumeric f0 None) = Ok f0 /\
  normalize_measurement wide_policy (MNumeric huge None)
    = Err "normalization produced an invalid score".
Proof. split_and!; vm_compute; reflexivity. Qed.
