(* ===== verification/Aggregation.v ===== *)
(** * Execution aggregation

    Model of src/vigilo/src/contracts/aggregation.rs: from the normalized
    results of one execution attempt to its completeness, dimension scores,
    aggregate score, blocking failures and overall status.  The JSON objects
    the source builds with [json!] are records with the same fields. *)

From Stdlib Require Import ZArith Lia ZifyBool Permutation.
From stdpp Require Import base strings numbers sets option list.
From S2P Require Import Prelude Float64 BTree Text Json RunTypes.

Open Scope Z_scope.

Record AggregationBinding := mkAggregationBinding {
  ab_binding_id : string;
  ab_required : bool
}.

Record AggregationResult := mkAggregationResult {
  ar_binding_id : string;
  ar_evaluator_id : Uuid;
  ar_binding_dimension : string;
  ar_status : EvaluationStatus;
  ar_normalized_score : option f64;
  ar_blocking : bool;
  ar_binding_weight : f64;
  ar_failure_category : option string;
  ar_reason : option string
}.

(** The "evaluator_completeness" object. *)
Record Completeness := mkCompleteness {
  cp_complete : bool;
  cp_expected_binding_count : Z;
  cp_required_binding_count : Z;
  cp_optional_binding_count : Z;
  cp_required_scored_count : Z;
  cp_required_error_count : Z;
  cp_required_abstained_count : Z;
  cp_required_missing_count : Z;
  cp_required_unscored_count : Z;
  cp_duplicate_binding_count : Z;
  cp_duplicate_result_count : Z;
  cp_unexpected_binding_count : Z;
  cp_incomplete_binding_ids : list string;
  cp_unexpected_binding_ids : list string
}.

Record BlockingFailure := mkBlockingFailure {
  bf_result_index : Z;
  bf_binding_id : string;
  bf_evaluator_id : Uuid;
  bf_dimension : string;
  bf_status : string;
  bf_failure_category : option string;
  bf_reason : option string
}.

#[global] Instance BlockingFailure_eq_dec : EqDecision BlockingFailure.
Proof. solve_decision. Defined.

Record AggregationSummary := mkAggregationSummary {
  as_attempt_id : Uuid;
  as_result_count : Z;
  as_overall_status : string;
  as_result_status_counts : btree string Z;
  as_evaluator_completeness : Completeness
}.

Record AggregationOutcome := mkAggregationOutcome {
  ao_overall_status : string;
  ao_aggregate_score : option f64;
  ao_dimension_scores : btree string f64;
  ao_blocking_failures : list BlockingFailure;
  ao_summary : AggregationSummary
}.

Record DimensionAccumulator := mkDimensionAccumulator {
  dacc_policy : DimensionAggregation;
  dacc_results : list (Z * AggregationResult)
}.

Definition default_dimension_policy : DimensionAggregation :=
  mkDimensionAggregation WeightedMean false f1.

Definition evaluation_status_key (status : EvaluationStatus) : string :=
  match status with
  | Passed => "passed"
  | Failed => "failed"
  | Error => "error"
  | Abstained => "abstained"
  end.

Definition scoreable_status (status : EvaluationStatus) : bool :=
  match status with Passed | Failed => true | _ => false end.

Definition valid_normalized_score (result : AggregationResult) : bool :=
  scoreable_status (ar_status result) && is_some_and in_unit (ar_normalized_score result).

(** ** Completeness *)

(** The first loop of [evaluator_completeness]: expected bindings and how many
    were declared again. *)
Definition add_expected (st : btree string bool * Z) (binding : AggregationBinding)
    : btree string bool * Z :=
  let '(expected, duplicates) := st in
  (bt_insert (ab_binding_id binding) (ab_required binding) expected,
   if bt_mem (ab_binding_id binding) expected then duplicates + 1 else duplicates).

Definition expected_bindings (bindings : list AggregationBinding) : btree string bool * Z :=
  fold_left add_expected bindings ([], 0).

(** [results_by_binding.entry(id).or_default().push(result)]. *)
Definition push_result (m : btree string (list AggregationResult)) (r : AggregationResult)
    : btree string (list AggregationResult) :=
  bt_insert (ar_binding_id r) (default [] (bt_get (ar_binding_id r) m) ++ [r]) m.

Definition results_by_binding (results : list AggregationResult)
    : btree string (list AggregationResult) :=
  fold_left push_result results [].

Definition duplicate_results (m : btree string (list AggregationResult)) : Z :=
  fold_right Z.add 0 (map (fun rs => saturating_sub (zlen rs) 1) (bt_values m)).

Definition required_binding_ids (expected : btree string bool) : list string :=
  map fst (List.filter (fun kv => kv.2) expected).

Definition unexpected_binding_ids (expected : btree string bool)
    (by_binding : btree string (list AggregationResult)) : list string :=
  List.filter (fun id => negb (bt_mem id expected)) (bt_keys by_binding).

(** The five counters and the identifier list of the per-binding loop. *)
Record Tally := mkTally {
  t_scored : Z;
  t_error : Z;
  t_abstained : Z;
  t_missing : Z;
  t_unscored : Z;
  t_incomplete : list string
}.

Inductive BindingVerdict := VScored | VError | VAbstained | VMissing | VUnscored.

(** The decision of the loop body for one required binding. *)
Definition binding_verdict (by_binding : btree string (list AggregationResult)) (id : string)
    : BindingVerdict :=
  match bt_get id by_binding with
  | None => VMissing
  | Some rs =>
      if negb (zlen rs =? 1) then VUnscored
      else if existsb (fun f => bool_decide (ar_status f = Error)) rs then VError
      else if existsb (fun f => bool_decide (ar_status f = Abstained)) rs then VAbstained
      else if existsb valid_normalized_score rs then VScored
      else VUnscored
  end.

Definition tally_binding (by_binding : btree string (list AggregationResult))
    (t : Tally) (id : string) : Tally :=
  let 'mkTally s e a m u inc := t in
  match binding_verdict by_binding id with
  | VScored => mkTally (s + 1) e a m u inc
  | VError => mkTally s (e + 1) a m u (inc ++ [id])
  | VAbstained => mkTally s e (a + 1) m u (inc ++ [id])
  | VMissing => mkTally s e a (m + 1) u (inc ++ [id])
  | VUnscored => mkTally s e a m (u + 1) (inc ++ [id])
  end.

Definition evaluator_completeness (bindings : list AggregationBinding)
    (results : list AggregationResult) : bool * Completeness * list string :=
  let '(expected, duplicate_binding_count) := expected_bindings bindings in
  let by_binding := results_by_binding results in
  let duplicate_result_count := duplicate_results by_binding in
  let required := required_binding_ids expected in
  let unexpected := unexpected_binding_ids expected by_binding in
  let t := fold_left (tally_binding by_binding) required (mkTally 0 0 0 0 0 []) in
  let complete :=
    negb (bool_decide (required = [])) && (duplicate_binding_count =? 0)
    && (duplicate_result_count =? 0) && bool_decide (unexpected = [])
    && (t_scored t =? zlen required) in
  (complete,
   mkCompleteness complete (zlen bindings) (zlen required) (zlen expected - zlen required)
     (t_scored t) (t_error t) (t_abstained t) (t_missing t) (t_unscored t)
     duplicate_binding_count duplicate_result_count (zlen unexpected)
     (t_incomplete t) unexpected,
   required).

(** ** Dimension scores *)

Definition scoreable_results (acc : DimensionAccumulator) : list (AggregationResult * f64) :=
  omap (fun ir : Z * AggregationResult =>
          if valid_normalized_score ir.2
          then (fun score => (ir.2, score)) <$> ar_normalized_score ir.2
          else None) (dacc_results acc).

(** One turn of the weighted-mean loop: (weighted_sum, weight_sum). *)
Definition add_weighted (st : f64 * f64) (fs : AggregationResult * f64) : f64 * f64 :=
  let w := ar_binding_weight fs.1 in
  if fle w f0 then st else (fadd st.1 (fmul fs.2 w), fadd st.2 w).

Definition dimension_score (acc : DimensionAccumulator) : option f64 :=
  let scoreable := scoreable_results acc in
  match scoreable with
  | [] => None
  | _ =>
      match da_method (dacc_policy acc) with
      | MinScore => Some (fold_left fmin (map snd scoreable) f1)
      | WeightedMean =>
          let '(weighted_sum, weight_sum) := fold_left add_weighted scoreable (f0, f0) in
          if flt f0 weight_sum then Some (fdiv weighted_sum weight_sum) else None
      end
  end.

(** ** The aggregate *)

Definition enumerate {A} (l : list A) : list (Z * A) :=
  imap (fun i a => (Z.of_nat i, a)) l.

(** [required_binding_ids.contains(&id)]. *)
Definition contains (ids : list string) (id : string) : bool :=
  existsb (str_eqb id) ids.

Definition add_to_dimension (settings : AggregationSettings) (required : list string)
    (dims : btree string DimensionAccumulator) (ir : Z * AggregationResult)
    : btree string DimensionAccumulator :=
  if negb (contains required (ar_binding_id ir.2)) then dims
  else
    let d := ar_binding_dimension ir.2 in
    let acc := match bt_get d dims with
               | Some acc => acc
               | None => mkDimensionAccumulator
                           (default default_dimension_policy (bt_get d (ags_dimensions settings))) []
               end in
    bt_insert d (mkDimensionAccumulator (dacc_policy acc) (dacc_results acc ++ [ir])) dims.

Definition group_dimensions (settings : AggregationSettings) (required : list string)
    (results : list AggregationResult) : btree string DimensionAccumulator :=
  fold_left (add_to_dimension settings required) (enumerate results) [].

(** State of the scoring loop: dimension scores, weighted sum, weight sum. *)
Definition score_dimension (st : btree string f64 * f64 * f64)
    (da : string * DimensionAccumulator) : btree string f64 * f64 * f64 :=
  let '(scores, weighted, weights) := st in
  match dimension_score da.2 with
  | None => st
  | Some score =>
      let scores' := bt_insert da.1 score scores in
      let w := da_weight (dacc_policy da.2) in
      if flt f0 w then (scores', fadd weighted (fmul score w), fadd weights w)
      else (scores', weighted, weights)
  end.

Definition is_blocking_failure (required : list string)
    (dims : btree string DimensionAccumulator) (finding : AggregationResult) : bool :=
  if negb (contains required (ar_binding_id finding)) then false
  else
    let dimension_blocking :=
      match bt_get (ar_binding_dimension finding) dims with
      | Some acc => da_blocking (dacc_policy acc)
      | None => false
      end in
    (ar_blocking finding || dimension_blocking)
    && match ar_status finding with Failed | Error => true | _ => false end.

Definition blocking_failure (ir : Z * AggregationResult) : BlockingFailure :=
  mkBlockingFailure ir.1 (ar_binding_id ir.2) (ar_evaluator_id ir.2)
    (ar_binding_dimension ir.2) (evaluation_status_key (ar_status ir.2))
    (ar_failure_category ir.2) (ar_reason ir.2).

Definition blocking_failures (required : list string)
    (dims : btree string DimensionAccumulator) (results : list AggregationResult)
    : list BlockingFailure :=
  map blocking_failure
    (List.filter (fun ir => is_blocking_failure required dims ir.2) (enumerate results)).

Definition count_status (counts : btree string Z) (finding : AggregationResult) : btree string Z :=
  let k := evaluation_status_key (ar_status finding) in
  bt_insert k (default 0 (bt_get k counts) + 1) counts.

Definition overall_status (defaults : RunDefaults) (completeness_is_valid has_blocking_failure
    has_scoreable_result : bool) (aggregate_score : option f64) : string :=
  if negb completeness_is_valid then "error"
  else if rd_fail_on_any_blocking_failure defaults && has_blocking_failure then "failed"
  else if negb has_scoreable_result || opt_is_none aggregate_score then "error"
  else if match aggregate_score with
          | Some score => flt score (rd_min_execution_score defaults)
          | None => true
          end then "failed"
  else "passed".

Definition aggregate_results (defaults : RunDefaults) (settings : AggregationSettings)
    (attempt_id : Uuid) (bindings : list AggregationBinding)
    (results : list AggregationResult) : AggregationOutcome :=
  let '(completeness_is_valid, completeness, required) :=
    evaluator_completeness bindings results in
  let dimensions := group_dimensions settings required results in
  let '(dimension_scores, weighted_dimension_sum, dimension_weight_sum) :=
    if completeness_is_valid then fold_left score_dimension dimensions ([], f0, f0)
    else ([], f0, f0) in
  let aggregate_score :=
    if flt f0 dimension_weight_sum
    then Some (fdiv weighted_dimension_sum dimension_weight_sum) else None in
  let failures := blocking_failures required dimensions results in
  let has_scoreable_result :=
    existsb (fun r => contains required (ar_binding_id r) && valid_normalized_score r) results in
  let status := overall_status defaults completeness_is_valid
                  (negb (bool_decide (failures = []))) has_scoreable_result aggregate_score in
  mkAggregationOutcome status aggregate_score dimension_scores failures
    (mkAggregationSummary attempt_id (zlen results) status
       (fold_left count_status results []) completeness).

(** ** Completeness: what the counters mean *)

Lemma contains_elem ids id : contains ids id = true <-> id ∈ ids.
Proof.
  unfold contains. rewrite existsb_exists_elem. split.
  - intros (x & Hx & ->%str_eqb_true). done.
  - intros H. exists id. split; [done|apply str_eqb_refl].
Qed.

(** Facts of the expected-binding map after a list of declarations. *)
Lemma expected_bindings_spec bindings :
  let '(expected, dups) := expected_bindings bindings in
  bt_wf expected /\
  (forall k, bt_mem k expected = true <-> k ∈ map ab_binding_id bindings) /\
  0 <= dups /\
  (dups = 0 <-> NoDup (map ab_binding_id bindings)) /\
  (NoDup (map ab_binding_id bindings) ->
   forall k r, bt_get k expected = Some r <-> mkAggregationBinding k r ∈ bindings).
Proof.
  unfold expected_bindings.
  induction bindings as [|b bs IH] using rev_ind; simpl.
  - split_and!; [apply bt_wf_nil|set_solver|lia|split; [intros; constructor|done]|set_solver].
  - rewrite fold_left_app. simpl. destruct (fold_left add_expected bs ([], 0)) as [ex d].
    destruct IH as (Hwf & Hmem & Hpos & Hd & Hget). simpl. rewrite map_app. simpl.
    set (id := ab_binding_id b) in *.
    assert (Hnd : NoDup (map ab_binding_id bs ++ [id]) <->
                  NoDup (map ab_binding_id bs) /\ bt_mem id ex = false).
    { rewrite NoDup_app, <- not_true_iff_false, Hmem. split.
      - intros (? & Hx & _). split; [done|]. intros Hin. by apply (Hx id Hin), list_elem_of_singleton.
      - intros [? Hx]. split_and!; [done| |apply NoDup_singleton].
        intros x Hin ->%list_elem_of_singleton. done. }
    split_and!.
    + by apply bt_insert_wf.
    + intros k. rewrite bt_mem_keys, <- (bt_mem_keys k), elem_of_app, <- Hmem by auto.
      unfold bt_mem. rewrite list_elem_of_singleton.
      destruct (decide (k = id)) as [->|Hne]; [rewrite bt_get_insert_eq; naive_solver|].
      rewrite bt_get_insert_ne by auto. naive_solver.
    + destruct (bt_mem id ex); lia.
    + rewrite Hnd, <- Hd. destruct (bt_mem id ex); [split; [lia|naive_solver]|naive_solver].
    + intros [Hnd' Hfresh]%Hnd k r. rewrite elem_of_app, list_elem_of_singleton.
      destruct (decide (k = id)) as [->|Hne].
      * rewrite bt_get_insert_eq. split; [intros [= <-]; right; by destruct b|].
        intros [Hin|Heq]; [|apply (f_equal ab_required) in Heq; simpl in Heq; congruence].
        exfalso. apply (Hget Hnd') in Hin. unfold bt_mem in Hfresh. by rewrite Hin in Hfresh.
      * rewrite bt_get_insert_ne, (Hget Hnd') by auto.
        split; [auto|]. intros [|Heq]; [done|]. exfalso. apply Hne.
        apply (f_equal ab_binding_id) in Heq. done.
Qed.

Definition with_id (id : string) (r : AggregationResult) : bool := str_eqb (ar_binding_id r) id.

(** Grouping collects, per binding, exactly its results in order. *)
Lemma results_by_binding_spec results :
  bt_wf (results_by_binding results) /\
  forall id, default [] (bt_get id (results_by_binding results)) = List.filter (with_id id) results
    /\ (bt_get id (results_by_binding results) = None <-> List.filter (with_id id) results = []).
Proof.
  unfold results_by_binding.
  induction results as [|r rs [Hwf IH]] using rev_ind; [split; [apply bt_wf_nil|done]|].
  rewrite fold_left_app. cbn [fold_left].
  set (m := fold_left push_result rs []) in *. clearbody m. split; [by apply bt_insert_wf|].
  intros id. rewrite List.filter_app. cbn [List.filter]. unfold with_id at 2 4. unfold push_result.
  destruct (decide (ar_binding_id r = id)) as [<-|Hne].
  - rewrite bt_get_insert_eq, str_eqb_refl. destruct (IH (ar_binding_id r)) as [-> _].
    split; [done|]. split; [done|]. intros H. by apply app_eq_nil in H as [_ ?].
  - rewrite bt_get_insert_ne by done.
    assert (str_eqb (ar_binding_id r) id = false) as ->
      by (apply not_true_iff_false; by rewrite str_eqb_true).
    rewrite app_nil_r. apply IH.
Qed.

Lemma filter_with_id_NoDup results :
  NoDup (map ar_binding_id results) <->
  forall id, (length (List.filter (with_id id) results) <= 1)%nat.
Proof.
  induction results as [|r rs IH]; simpl; [split; [intros; lia|intros; constructor]|].
  rewrite NoDup_cons, IH. split.
  - intros [Hnotin Hall] id. unfold with_id at 1. destruct (str_eqb _ id) eqn:E; [|apply Hall].
    apply str_eqb_true in E; subst. simpl.
    destruct (List.filter (with_id (ar_binding_id r)) rs) as [|r' l] eqn:F; simpl; [lia|].
    exfalso. assert (Hr' : In r' (List.filter (with_id (ar_binding_id r)) rs)) by (rewrite F; by left).
    apply filter_In in Hr' as [Hin Hid]. apply str_eqb_true in Hid.
    apply Hnotin, list_elem_of_fmap. exists r'. split; [done|]. by apply list_elem_of_In.
  - intros Hall. split.
    + intros (r' & Heq & Hin)%list_elem_of_fmap. specialize (Hall (ar_binding_id r)).
      unfold with_id at 1 in Hall. rewrite str_eqb_refl in Hall. simpl in Hall.
      assert (Hr' : In r' (List.filter (with_id (ar_binding_id r)) rs)).
      { apply filter_In. split; [by apply list_elem_of_In|]. by apply str_eqb_true. }
      destruct (List.filter _ rs); [done|simpl in Hall; lia].
    + intros id. specialize (Hall id). destruct (with_id id r); simpl in Hall; lia.
Qed.

Lemma fold_right_add_zero (l : list Z) :
  Forall (fun x => 0 <= x) l -> fold_right Z.add 0 l = 0 <-> Forall (fun x => x = 0) l.
Proof.
  induction 1 as [|x l Hx Hl IH]; simpl; [split; [constructor|done]|].
  rewrite Forall_cons, <- IH.
  assert (0 <= fold_right Z.add 0 l) by (clear -Hl; induction Hl; simpl; lia). lia.
Qed.

Lemma duplicate_results_zero results :
  duplicate_results (results_by_binding results) = 0 <-> NoDup (map ar_binding_id results).
Proof.
  destruct (results_by_binding_spec results) as [Hwf Hget].
  unfold duplicate_results, bt_values. rewrite fold_right_add_zero.
  2:{ rewrite !Forall_map. apply Forall_true. intros [k rs]. unfold saturating_sub. simpl. lia. }
  rewrite !Forall_map, filter_with_id_NoDup, Forall_forall. split.
  - intros H id. destruct (Hget id) as [Hd _]. rewrite <- Hd.
    destruct (bt_get id _) as [rs|] eqn:E; simpl; [|lia].
    apply bt_get_elem in E; [|done]. specialize (H _ E).
    unfold saturating_sub, zlen in H. simpl in H. lia.
  - intros H [id rs] Hin. apply bt_get_elem in Hin; [|done].
    destruct (Hget id) as [Hd _]. rewrite Hin in Hd. simpl in Hd.
    specialize (H id). rewrite <- Hd in H. unfold saturating_sub, zlen. simpl. lia.
Qed.

(** The scored counter and the number of bindings agree exactly when every
    required binding is scored. *)
Lemma tally_scored by_binding ids t :
  t_scored (fold_left (tally_binding by_binding) ids t)
    = t_scored t + zlen (List.filter (fun id =>
        match binding_verdict by_binding id with VScored => true | _ => false end) ids).
Proof.
  revert t; induction ids as [|id ids IH]; intros t; simpl; [unfold zlen; simpl; lia|].
  rewrite IH. destruct t. simpl.
  destruct (binding_verdict by_binding id); simpl; rewrite ?zlen_cons; lia.
Qed.

Lemma filter_length_all {A} (p : A -> bool) l :
  zlen (List.filter p l) = zlen l <-> forall x, x ∈ l -> p x = true.
Proof.
  unfold zlen. induction l as [|a l IH]; simpl; [split; [set_solver|done]|].
  pose proof (List.filter_length_le p l). destruct (p a) eqn:E; simpl.
  - split.
    + intros H0 x [->|Hx]%elem_of_cons; [done|]. apply IH; [lia|done].
    + intros H0. assert (Z.of_nat (length (List.filter p l)) = Z.of_nat (length l)); [|lia].
      apply IH. intros. apply H0. by right.
  - split; [lia|]. intros H0. rewrite H0 in E; [done|by left].
Qed.

Lemma binding_verdict_scored results id :
  binding_verdict (results_by_binding results) id = VScored <->
  exists r, List.filter (with_id id) results = [r] /\ valid_normalized_score r = true.
Proof.
  destruct (results_by_binding_spec results) as [_ Hget]. destruct (Hget id) as [Hd Hn].
  unfold binding_verdict.
  destruct (bt_get id (results_by_binding results)) as [rs|]; simpl in *.
  - rewrite <- Hd. destruct rs as [|r [|r2 rs]].
    + split; [done|naive_solver].
    + simpl. unfold valid_normalized_score. destruct (ar_status r) eqn:Es; simpl;
        rewrite ?orb_false_r; split; try done;
        try (intros (r0 & [= <-] & Hv); rewrite Es in Hv; done).
      all: destruct (is_some_and in_unit (ar_normalized_score r)) eqn:Ev; simpl; try done;
        try (intros _; exists r; rewrite Es, Ev; done);
        intros (r0 & [= <-] & Hv); rewrite Es, Ev in Hv; done.
    + replace (zlen (r :: r2 :: rs) =? 1) with false
        by (rewrite !zlen_cons; pose proof (zlen_nonneg rs); lia).
      cbn [negb]. split; [done|naive_solver].
  - split; [done|]. intros (r & Hr & _). destruct Hn as [Hn _]. by rewrite Hn in Hr.
Qed.

(** ** The contract of completeness *)

(** What "complete" promises: bindings are declared once, every result answers
    a declared binding, no binding is answered twice, something is required,
    and every required binding has its one result with a valid score. *)
Definition complete_spec (bindings : list AggregationBinding)
    (results : list AggregationResult) : Prop :=
  NoDup (map ab_binding_id bindings) /\
  NoDup (map ar_binding_id results) /\
  (forall r, r ∈ results -> ar_binding_id r ∈ map ab_binding_id bindings) /\
  (exists b, b ∈ bindings /\ ab_required b = true) /\
  (forall b, b ∈ bindings -> ab_required b = true ->
     exists r, r ∈ results /\ ar_binding_id r = ab_binding_id b /\ valid_normalized_score r = true).

Lemma unexpected_nil expected results :
  bt_wf expected ->
  unexpected_binding_ids expected (results_by_binding results) = [] <->
  forall r, r ∈ results -> bt_mem (ar_binding_id r) expected = true.
Proof.
  intros Hwf. destruct (results_by_binding_spec results) as [Hw Hget].
  unfold unexpected_binding_ids. split.
  - intros H r Hr. destruct (bt_mem (ar_binding_id r) expected) eqn:E; [done|exfalso].
    assert (In (ar_binding_id r) (List.filter (fun id => negb (bt_mem id expected))
              (bt_keys (results_by_binding results)))); [|by rewrite H in *].
    apply filter_In. rewrite E. split; [|done]. apply list_elem_of_In, bt_mem_keys; [done|].
    unfold bt_mem. destruct (bt_get _ _) eqn:G; [done|exfalso].
    apply Hget in G. assert (In r (List.filter (with_id (ar_binding_id r)) results)) as Hin.
    { apply filter_In. split; [by apply list_elem_of_In|apply str_eqb_refl]. }
    by rewrite G in Hin.
  - intros H. destruct (List.filter _ _) as [|id l] eqn:F; [done|exfalso].
    assert (Hin : In id (id :: l)) by (by left). rewrite <- F in Hin.
    apply filter_In in Hin as [Hk Hn]. apply list_elem_of_In, bt_mem_keys in Hk; [|done].
    unfold bt_mem in Hk. destruct (bt_get id (results_by_binding results)) as [rs|] eqn:G; [|done].
    destruct (List.filter (with_id id) results) as [|r l'] eqn:Fr.
    + apply Hget in Fr. congruence.
    + assert (Hr : In r (r :: l')) by (by left). rewrite <- Fr in Hr.
      apply filter_In in Hr as [Hr Hid]. apply str_eqb_true in Hid. subst.
      rewrite H in Hn; [done|by apply list_elem_of_In].
Qed.

Lemma required_ids_elem expected id :
  bt_wf expected -> id ∈ required_binding_ids expected <-> bt_get id expected = Some true.
Proof.
  intros Hwf. unfold required_binding_ids. rewrite bt_get_elem by done.
  rewrite list_elem_of_fmap. split.
  - intros ([k r] & -> & Hin). apply list_elem_of_In, filter_In in Hin as [Hin Hr].
    simpl in *. subst. by apply list_elem_of_In.
  - intros Hin. exists (id, true). split; [done|].
    apply list_elem_of_In, filter_In. split; [by apply list_elem_of_In|done].
Qed.

(** With unique results, the single result of a binding is any result of it. *)
Lemma unique_result results id :
  NoDup (map ar_binding_id results) ->
  (exists r, List.filter (with_id id) results = [r] /\ valid_normalized_score r = true) <->
  (exists r, r ∈ results /\ ar_binding_id r = id /\ valid_normalized_score r = true).
Proof.
  intros Hnd. split.
  - intros (r & Hf & Hv). exists r. split_and!; [..|done].
    + apply list_elem_of_In. apply (filter_In (with_id id)). rewrite Hf. by left.
    + apply str_eqb_true. apply (filter_In (with_id id) r results). rewrite Hf. by left.
  - intros (r & Hin & Hid & Hv). exists r. split; [|done].
    pose proof (proj1 (filter_with_id_NoDup results) Hnd id) as Hlen.
    assert (Hr : In r (List.filter (with_id id) results)).
    { apply filter_In. split; [by apply list_elem_of_In|by apply str_eqb_true]. }
    destruct (List.filter (with_id id) results) as [|r1 [|r2 l]]; simpl in *; [done| |lia].
    destruct Hr as [->|[]]. done.
Qed.

Lemma completeness_unfold bindings results :
  (evaluator_completeness bindings results).1.1 =
  negb (bool_decide (required_binding_ids (expected_bindings bindings).1 = []))
  && ((expected_bindings bindings).2 =? 0)
  && (duplicate_results (results_by_binding results) =? 0)
  && bool_decide (unexpected_binding_ids (expected_bindings bindings).1
                    (results_by_binding results) = [])
  && (zlen (List.filter (fun id =>
        match binding_verdict (results_by_binding results) id with VScored => true | _ => false end)
        (required_binding_ids (expected_bindings bindings).1))
      =? zlen (required_binding_ids (expected_bindings bindings).1)).
Proof.
  unfold evaluator_completeness. destruct (expected_bindings bindings) as [ex d]. simpl.
  by rewrite tally_scored.
Qed.

Lemma completeness_iff bindings results :
  (evaluator_completeness bindings results).1.1 = true <-> complete_spec bindings results.
Proof.
  rewrite completeness_unfold. pose proof (expected_bindings_spec bindings) as Hex.
  destruct (expected_bindings bindings) as [ex d]. simpl.
  destruct Hex as (Hwf & Hmem & _ & Hd & Hget).
  rewrite !andb_true_iff, negb_true_iff, bool_decide_eq_false, bool_decide_eq_true, !Z.eqb_eq,
    Hd, duplicate_results_zero, unexpected_nil, filter_length_all by done.
  setoid_rewrite Hmem. setoid_rewrite (required_ids_elem ex) ; [|done].
  assert (Hv : forall x, (match binding_verdict (results_by_binding results) x with
      VScored => true | _ => false end) = true <->
      binding_verdict (results_by_binding results) x = VScored).
  { intros x. destruct (binding_verdict _ x); naive_solver. }
  setoid_rewrite Hv. setoid_rewrite binding_verdict_scored.
  assert (Hne : NoDup (map ab_binding_id bindings) ->
    required_binding_ids ex <> [] <-> exists b, b ∈ bindings /\ ab_required b = true).
  { intros Hnd. split.
    - intros Hne. destruct (required_binding_ids ex) as [|id l] eqn:E; [done|].
      assert (Hin : id ∈ required_binding_ids ex) by (rewrite E; by left).
      apply required_ids_elem, (Hget Hnd) in Hin; [|done]. eauto.
    - intros ([id r] & Hin & Hr) E. simpl in Hr. subst.
      apply (Hget Hnd), required_ids_elem in Hin; [|done]. rewrite E in Hin. set_solver. }
  split.
  - intros ((((Hr & Hnb) & Hnr) & Hun) & Hsc). split_and!; [done|done|done|by apply Hne|].
    intros [id r] Hin Hreq. simpl in *. subst. apply (Hget Hnb) in Hin.
    by apply (unique_result results id Hnr), Hsc.
  - intros (Hnb & Hnr & Hun & Hr & Hsc). split_and!; [by apply Hne|done|done|done|].
    intros id Hid. apply (Hget Hnb) in Hid. apply (unique_result results id Hnr).
    by apply (Hsc _ Hid).
Qed.

(** C24: the completeness flag computed from counters and maps is exactly the
    declarative contract: unique declarations, unique and expected results, at
    least one required binding, each with one validly scored result. *)
Theorem completeness_correct bindings results :
  (evaluator_completeness bindings results).1.1 = true <-> complete_spec bindings results.
Proof. apply completeness_iff. Qed.

(** ** Status policy *)

(** The aggregation once completeness is known. *)
Lemma aggregate_results_fields defaults settings attempt bindings results :
  let o := aggregate_results defaults settings attempt bindings results in
  let '(complete, completeness, required) := evaluator_completeness bindings results in
  ao_overall_status o = overall_status defaults complete
    (negb (bool_decide (ao_blocking_failures o = [])))
    (existsb (fun r => contains required (ar_binding_id r) && valid_normalized_score r) results)
    (ao_aggregate_score o) /\
  ao_blocking_failures o
    = blocking_failures required (group_dimensions settings required results) results /\
  as_evaluator_completeness (ao_summary o) = completeness /\
  (complete = false -> ao_aggregate_score o = None /\ ao_dimension_scores o = []).
Proof.
  unfold aggregate_results.
  destruct (evaluator_completeness bindings results) as [[complete completeness] required].
  destruct complete.
  - destruct (fold_left score_dimension _ _) as [[ds ws] w]. simpl. split_and!; done.
  - simpl. split_and!; done.
Qed.

Lemma complete_has_scoreable bindings results :
  complete_spec bindings results ->
  existsb (fun r => contains (evaluator_completeness bindings results).2 (ar_binding_id r)
                    && valid_normalized_score r) results = true.
Proof.
  intros (Hnb & _ & _ & (b & Hb & Hreq) & Hsc).
  destruct (Hsc b Hb Hreq) as (r & Hr & Hid & Hv).
  apply existsb_exists_elem. exists r. split; [done|]. rewrite Hv, andb_true_r.
  apply contains_elem. unfold evaluator_completeness.
  pose proof (expected_bindings_spec bindings) as Hex.
  destruct (expected_bindings bindings) as [ex d]. simpl.
  destruct Hex as (Hwf & _ & _ & _ & Hget).
  apply required_ids_elem; [done|]. apply (Hget Hnb). rewrite Hid, <- Hreq. by destruct b.
Qed.

(** C25: an execution is judged passed exactly when its results are complete, no
    blocking failure counts, and it has an aggregate score that is not below
    the profile's minimum. *)
Theorem execution_passed_iff defaults settings attempt bindings results :
  let o := aggregate_results defaults settings attempt bindings results in
  ao_overall_status o = "passed" <->
  complete_spec bindings results /\
  (rd_fail_on_any_blocking_failure defaults = true -> ao_blocking_failures o = []) /\
  exists score, ao_aggregate_score o = Some score /\
    flt score (rd_min_execution_score defaults) = false.
Proof.
  pose proof (aggregate_results_fields defaults settings attempt bindings results) as H.
  set (o := aggregate_results _ _ _ _ _) in *. cbv zeta in *.
  rewrite <- completeness_iff.
  pose proof (completeness_iff bindings results) as Hc.
  pose proof (complete_has_scoreable bindings results) as Hs.
  destruct (evaluator_completeness bindings results) as [[complete cs] required].
  destruct H as (Hst & _ & _ & Hinc). simpl in *. rewrite Hst. clear Hst.
  unfold overall_status. destruct complete; simpl.
  - rewrite (Hs (proj1 Hc eq_refl)). simpl.
    destruct (rd_fail_on_any_blocking_failure defaults), (decide (ao_blocking_failures o = []))
      as [E|E]; rewrite ?(bool_decide_eq_true_2 _ E), ?(bool_decide_eq_false_2 _ E); simpl;
      try (split; [done|]; intros (_ & Hb & _); by specialize (Hb eq_refl));
      destruct (ao_aggregate_score o) as [sc|]; simpl; try (split; [done|naive_solver]);
      destruct (flt sc _) eqn:F; (split; [try done|naive_solver]); 
      (intros _; split_and!; [done|done|eauto]).
  - split; [done|]. intros ([=] & _).
Qed.

(** Results that are not complete never produce a score: the execution is
    an error, without aggregate and without dimension scores. *)
Theorem incomplete_execution_errors defaults settings attempt bindings results :
  let o := aggregate_results defaults settings attempt bindings results in
  ~ complete_spec bindings results ->
  ao_overall_status o = "error" /\ ao_aggregate_score o = None /\ ao_dimension_scores o = [].
Proof.
  pose proof (aggregate_results_fields defaults settings attempt bindings results) as H.
  set (o := aggregate_results _ _ _ _ _) in *. cbv zeta in *.
  rewrite <- completeness_iff. intros Hn.
  destruct (evaluator_completeness bindings results) as [[complete cs] required].
  destruct H as (Hst & _ & _ & Hinc). simpl in *.
  destruct complete; [done|]. rewrite Hst. destruct (Hinc eq_refl). done.
Qed.

(** ** Minimum-score dimensions *)

Lemma scoreable_results_elem acc r score :
  (r, score) ∈ scoreable_results acc ->
  in_unit score = true /\ exists i, (i, r) ∈ dacc_results acc /\ ar_normalized_score r = Some score.
Proof.
  unfold scoreable_results. rewrite list_elem_of_omap. intros ([i r'] & Hin & Hv). simpl in Hv.
  destruct (valid_normalized_score r') eqn:E; [|done].
  unfold valid_normalized_score in E. destruct (ar_normalized_score r') as [s|] eqn:Es; [|done].
  simpl in Hv. injection Hv as -> ->. simpl in E. apply andb_true_iff in E as [_ E]. eauto.
Qed.

Lemma fold_fmin_spec l a :
  in_unit a = true -> Forall (fun x => in_unit x = true) l ->
  in_unit (fold_left fmin l a) = true /\
  Forall (fun x => fle (fold_left fmin l a) x = true) (a :: l) /\
  fold_left fmin l a ∈ a :: l.
Proof.
  intros Ha Hl. revert a Ha. induction Hl as [|x l Hx Hl IH]; intros a Ha; simpl.
  - split_and!; [done| |by left]. constructor; [apply fle_refl; auto|constructor].
  - destruct (IH (fmin a x)) as (H1 & H2 & H3); [auto|].
    apply Forall_cons in H2 as [H2 H2']. split_and!; [done| |].
    + constructor; [|constructor; [|done]].
      * eapply fle_trans; [exact H2|]. apply fmin_le_l; auto.
      * eapply fle_trans; [exact H2|]. apply fmin_le_r; auto.
    + apply elem_of_cons in H3 as [->|H3]; [|by right; right].
      unfold fmin. repeat case_match; set_solver.
Qed.

(** a minimum-score dimension with a scored contribution has a score: it is
    one of the contributions (or the ceiling 1.0), it lies in the unit interval
    and no contribution is below it. *)
Theorem min_score_is_minimum acc :
  da_method (dacc_policy acc) = MinScore -> scoreable_results acc <> [] ->
  exists score, dimension_score acc = Some score /\ in_unit score = true /\
    (forall r s, (r, s) ∈ scoreable_results acc -> fle score s = true) /\
    score ∈ f1 :: map snd (scoreable_results acc).
Proof.
  intros Hm Hne. unfold dimension_score. rewrite Hm.
  destruct (scoreable_results acc) as [|p l] eqn:E; [done|]. rewrite <- E.
  assert (Hall : Forall (fun x => in_unit x = true) (map snd (scoreable_results acc))).
  { apply Forall_map, Forall_forall. intros [r s] Hin. by apply scoreable_results_elem in Hin as [? _]. }
  destruct (fold_fmin_spec _ f1 eq_refl Hall) as (H1 & H2 & H3).
  eexists. split_and!; [done|done| |done].
  intros r s Hin. apply Forall_cons in H2 as [_ H2]. rewrite Forall_map, Forall_forall in H2.
  exact (H2 (r, s) Hin).
Qed.

(** ** Optional bindings are diagnostic only *)

(** Two result lists that may differ in everything but the binding identifier
    on results of bindings outside [required]. *)
Definition same_decisive (required : list string) (r r' : AggregationResult) : Prop :=
  ar_binding_id r = ar_binding_id r' /\ (ar_binding_id r ∈ required -> r = r').

Section noninterference.
Context (required : list string) (results results' : list AggregationResult).
Hypothesis Hsame : Forall2 (same_decisive required) results results'.

Lemma same_ids : map ar_binding_id results = map ar_binding_id results'.
Proof. induction Hsame as [|? ? ? ? [? ?] ? IH]; simpl; [done|]. f_equal; auto. Qed.

Lemma same_filter id :
  id ∈ required -> List.filter (with_id id) results = List.filter (with_id id) results'.
Proof.
  intros Hid. induction Hsame as [|r r' rs rs' [H1 H2] Ht IH]; simpl; [done|].
  specialize (IH Ht).
  assert (with_id id r' = with_id id r) as -> by (unfold with_id; by rewrite H1).
  destruct (with_id id r) eqn:E; [|auto].
  apply str_eqb_true in E. subst. rewrite <- H2 by done. f_equal; auto.
Qed.

Lemma same_verdict id :
  id ∈ required ->
  binding_verdict (results_by_binding results) id = binding_verdict (results_by_binding results') id.
Proof.
  intros Hid. pose proof (same_filter id Hid) as Hf.
  destruct (results_by_binding_spec results) as [_ G1].
  destruct (results_by_binding_spec results') as [_ G2].
  specialize (G1 id) as [D1 N1]. specialize (G2 id) as [D2 N2]. unfold binding_verdict.
  destruct (bt_get id (results_by_binding results)) as [l1|],
    (bt_get id (results_by_binding results')) as [l2|]; simpl in *.
  - by rewrite D1, D2, Hf.
  - discriminate (proj2 N1 (eq_trans Hf (proj1 N2 eq_refl))).
  - discriminate (proj2 N2 (eq_trans (eq_sym Hf) (proj1 N1 eq_refl))).
  - done.
Qed.

(** Results outside [required] never reach a dimension. *)
Lemma same_group settings n dims :
  fold_left (add_to_dimension settings required) (imap (fun i a => (Z.of_nat (n + i), a)) results) dims
  = fold_left (add_to_dimension settings required) (imap (fun i a => (Z.of_nat (n + i), a)) results') dims.
Proof.
  revert n dims. induction Hsame as [|r r' rs rs' [H1 H2] Ht IH]; intros n dims; [done|].
  specialize (IH Ht).
  rewrite !imap_cons. cbn [fold_left].
  assert (E : forall i, add_to_dimension settings required dims (i, r)
              = add_to_dimension settings required dims (i, r')).
  { intros i. unfold add_to_dimension. simpl. rewrite <- H1.
    destruct (contains required (ar_binding_id r)) eqn:C; simpl; [|done].
    apply contains_elem in C. by rewrite <- H2. }
  rewrite E. specialize (IH (S n)).
  rewrite (imap_ext _ (fun i a => (Z.of_nat (S n + i), a)) rs) by (intros; simpl; do 2 f_equal; lia).
  rewrite (imap_ext _ (fun i a => (Z.of_nat (S n + i), a)) rs') by (intros; simpl; do 2 f_equal; lia).
  apply IH.
Qed.

Lemma same_blocking dims n :
  map blocking_failure (List.filter (fun ir => is_blocking_failure required dims ir.2)
    (imap (fun i a => (Z.of_nat (n + i), a)) results))
  = map blocking_failure (List.filter (fun ir => is_blocking_failure required dims ir.2)
    (imap (fun i a => (Z.of_nat (n + i), a)) results')).
Proof.
  revert n. induction Hsame as [|r r' rs rs' [H1 H2] Ht IH]; intros n; [done|].
  specialize (IH Ht).
  rewrite !imap_cons. cbn [List.filter].
  rewrite (imap_ext _ (fun i a => (Z.of_nat (S n + i), a)) rs) by (intros; simpl; do 2 f_equal; lia).
  rewrite (imap_ext _ (fun i a => (Z.of_nat (S n + i), a)) rs') by (intros; simpl; do 2 f_equal; lia).
  specialize (IH (S n)). simpl.
  destruct (contains required (ar_binding_id r)) eqn:C.
  - apply contains_elem in C. rewrite <- H2 by done.
    destruct (is_blocking_failure required dims r); simpl; [f_equal|]; apply IH.
  - assert (is_blocking_failure required dims r = false) as ->
      by (unfold is_blocking_failure; by rewrite C).
    assert (is_blocking_failure required dims r' = false) as ->
      by (unfold is_blocking_failure; by rewrite <- H1, C).
    apply IH.
Qed.

Lemma same_scoreable :
  existsb (fun r => contains required (ar_binding_id r) && valid_normalized_score r) results
  = existsb (fun r => contains required (ar_binding_id r) && valid_normalized_score r) results'.
Proof.
  induction Hsame as [|r r' rs rs' [H1 H2] Ht IH]; simpl; [done|].
  specialize (IH Ht). rewrite IH, <- H1.
  destruct (contains required (ar_binding_id r)) eqn:C; simpl; [|done].
  apply contains_elem in C. by rewrite <- H2.
Qed.
End noninterference.

(** The shape of the grouping map depends on the identifiers alone. *)
Definition shape (m : btree string (list AggregationResult)) : list (string * nat) :=
  map (fun kv => (kv.1, length kv.2)) m.

Lemma shape_push m m' r r' :
  shape m = shape m' -> ar_binding_id r = ar_binding_id r' ->
  shape (push_result m r) = shape (push_result m' r').
Proof.
  intros Hm Hid. unfold push_result. rewrite <- Hid. set (id := ar_binding_id r).
  assert (G : forall l l', length (default [] (bt_get id m) ++ l)
                = length (default [] (bt_get id m') ++ l') -> length l = length l' ->
    shape (bt_insert id (default [] (bt_get id m) ++ l) m)
    = shape (bt_insert id (default [] (bt_get id m') ++ l') m')).
  { clear -Hm. intros l l'. generalize (default [] (bt_get id m) ++ l) as v.
    generalize (default [] (bt_get id m') ++ l') as v'. intros v' v Hv _.
    revert m' Hm. induction m as [|[k x] m IH]; intros [|[k' x'] m'] Hm; try done; simpl.
    - by rewrite Hv.
    - injection Hm as <- Hx Hm. destruct (kcmp id k); simpl; rewrite ?Hv, ?Hx; f_equal; auto;
      try exact Hm; f_equal; exact Hm. }
  apply G; [|done]. rewrite !length_app. f_equal.
  clear -Hm. revert m' Hm. induction m as [|[k x] m IH]; intros [|[k' x'] m'] Hm; try done; simpl.
  injection Hm as <- Hx Hm. destruct (kcmp id k); simpl; auto.
Qed.

Lemma shape_results results results' :
  map ar_binding_id results = map ar_binding_id results' ->
  shape (results_by_binding results) = shape (results_by_binding results').
Proof.
  unfold results_by_binding.
  assert (G : forall m m', shape m = shape m' ->
    map ar_binding_id results = map ar_binding_id results' ->
    shape (fold_left push_result results m) = shape (fold_left push_result results' m')).
  { revert results'. induction results as [|r rs IH]; intros [|r' rs'] m m' Hm Hids; try done.
    injection Hids as Hid Hids. simpl. apply IH; [|done]. by apply shape_push. }
  by apply G.
Qed.

Lemma completeness_same bindings results results' :
  Forall2 (same_decisive (required_binding_ids (expected_bindings bindings).1)) results results' ->
  evaluator_completeness bindings results = evaluator_completeness bindings results'.
Proof.
  intros Hs. pose proof (shape_results _ _ (same_ids _ _ _ Hs)) as Hsh.
  unfold evaluator_completeness. destruct (expected_bindings bindings) as [ex d]. simpl in *.
  assert (Hdup : duplicate_results (results_by_binding results)
                 = duplicate_results (results_by_binding results')).
  { unfold duplicate_results, bt_values. f_equal.
    transitivity (map (fun kn => saturating_sub (Z.of_nat kn.2) 1) (shape (results_by_binding results)));
      [|rewrite Hsh]; unfold shape; by rewrite !map_map. }
  assert (Hun : unexpected_binding_ids ex (results_by_binding results)
                = unexpected_binding_ids ex (results_by_binding results')).
  { unfold unexpected_binding_ids, bt_keys. f_equal.
    transitivity (map fst (shape (results_by_binding results)));
      [|rewrite Hsh]; unfold shape; by rewrite !map_map. }
  assert (Ht : fold_left (tally_binding (results_by_binding results)) (required_binding_ids ex)
                 (mkTally 0 0 0 0 0 [])
               = fold_left (tally_binding (results_by_binding results')) (required_binding_ids ex)
                 (mkTally 0 0 0 0 0 [])).
  { generalize (mkTally 0 0 0 0 0 []).
    assert (Hall : Forall (fun id => binding_verdict (results_by_binding results) id
                    = binding_verdict (results_by_binding results') id) (required_binding_ids ex)).
    { apply Forall_forall. intros id Hid. by eapply same_verdict. }
    clear -Hall. induction Hall as [|id l Hid _ IH]; intros t; simpl; [done|].
    rewrite <- IH. f_equal. unfold tally_binding. by rewrite Hid. }
  by rewrite Hdup, Hun, Ht.
Qed.

Lemma enumerate_imap {A} (l : list A) : enumerate l = imap (fun i a => (Z.of_nat (0 + i), a)) l.
Proof. done. Qed.

(** C26: optional bindings are diagnostic only: changing anything but the
    binding identifier on results of bindings that are not required leaves the
    status, the scores and the blocking failures of the execution unchanged. *)
Theorem optional_results_do_not_affect_policy defaults settings attempt bindings results results' :
  Forall2 (same_decisive (required_binding_ids (expected_bindings bindings).1)) results results' ->
  let o := aggregate_results defaults settings attempt bindings results in
  let o' := aggregate_results defaults settings attempt bindings results' in
  ao_overall_status o = ao_overall_status o' /\
  ao_aggregate_score o = ao_aggregate_score o' /\
  ao_dimension_scores o = ao_dimension_scores o' /\
  ao_blocking_failures o = ao_blocking_failures o'.
Proof.
  intros Hs. cbv zeta. unfold aggregate_results.
  rewrite <- (completeness_same _ _ _ Hs).
  assert (Hreq : (evaluator_completeness bindings results).2
                 = required_binding_ids (expected_bindings bindings).1)
    by (unfold evaluator_completeness; by destruct (expected_bindings bindings)).
  destruct (evaluator_completeness bindings results) as [[complete cs] required].
  simpl in Hreq. subst required.
  unfold group_dimensions, blocking_failures. rewrite !enumerate_imap.
  rewrite <- (same_group _ _ _ Hs settings 0 []), <- (same_blocking _ _ _ Hs _ 0),
    <- (same_scoreable _ _ _ Hs).
  destruct (if complete then _ else _) as [[ds ws] w]. simpl. done.
Qed.

(** ** Concrete executions *)

Definition sample_defaults : RunDefaults := mkRunDefaults 3 30 true f1.
Definition no_settings : AggregationSettings := mkAggregationSettings [].
Definition sample_result (id : string) (score weight : f64) : AggregationResult :=
  mkAggregationResult id 0 "quality" Passed (Some score) false weight None None.
Definition sample_bindings : list AggregationBinding :=
  [mkAggregationBinding "a" true; mkAggregationBinding "b" true].

Definition min_accumulator : DimensionAccumulator :=
  mkDimensionAccumulator (mkDimensionAggregation MinScore false f1)
    [(0, sample_result "a" f1 f1); (1, sample_result "b" f0 f1)].

Lemma min_score_is_minimum_witness :
  exists score, dimension_score min_accumulator = Some score /\ in_unit score = true /\
    (forall r s, (r, s) ∈ scoreable_results min_accumulator -> fle score s = true) /\
    score ∈ f1 :: map snd (scoreable_results min_accumulator).
Proof.
  apply (min_score_is_minimum min_accumulator); [reflexivity|vm_compute; discriminate].
Defined.

Definition optional_bindings : list AggregationBinding :=
  [mkAggregationBinding "a" true; mkAggregationBinding "z" false].

Lemma optional_results_do_not_affect_policy_witness :
  ao_overall_status (aggregate_results sample_defaults no_settings 0 optional_bindings
    [sample_result "a" f1 f1; sample_result "z" f1 f1]) =
  ao_overall_status (aggregate_results sample_defaults no_settings 0 optional_bindings
    [sample_result "a" f1 f1; mkAggregationResult "z" 0 "safety" Error None true f1 None None]).
Proof.
  apply (optional_results_do_not_affect_policy sample_defaults no_settings 0 optional_bindings).
  assert (E : required_binding_ids (expected_bindings optional_bindings).1 = ["a"])
    by (vm_compute; reflexivity).
  rewrite E. repeat constructor. intros H. by apply list_elem_of_singleton in H.
Defined.

(** Two finite weights whose sum overflows binary64. *)
Definition big_weight : f64 := Eval vm_compute in f64_of_Z (10 ^ 308).
Definition nine_tenths : f64 := Eval vm_compute in fdiv (f64_of_Z 9) (f64_of_Z 10).

(** Finite non-negative weights may overflow the weighted mean: the score of
    an execution is then NaN, which is not below any minimum, so an execution
    whose every result scores 0.9 is judged passed under a minimum of 1.0. *)
Example weight_overflow_passes :
  let o := aggregate_results sample_defaults no_settings 0 sample_bindings
             [sample_result "a" nine_tenths big_weight; sample_result "b" nine_tenths big_weight] in
  is_finite big_weight = true /\ flt nine_tenths (rd_min_execution_score sample_defaults) = true /\
  option_map is_nan (ao_aggregate_score o) = Some true /\ ao_overall_status o = "passed".
Proof. split_and!; vm_compute; reflexivity. Qed.

Lemma incomplete_execution_errors_witness :
  ao_overall_status (aggregate_results sample_defaults no_settings 0 sample_bindings
    [sample_result "a" f1 f1]) = "error".
Proof.
  apply (incomplete_execution_errors sample_defaults no_settings 0 sample_bindings
           [sample_result "a" f1 f1]).
  intros H. apply completeness_iff in H. vm_compute in H. discriminate H.
Defined.
