(* ===== verification/Scorecard.v ===== *)
(** * Run scorecards

    Model of src/vigilo/src/contracts/scorecard.rs: shard rollups are validated
    and merged gate by gate, and the merged statistics decide the run's gates.
    Counters are [i64] with checked addition, sums and thresholds binary64.  A
    function that updates its argument in place returns the new value; when it
    fails the caller abandons the value, so the error carries none. *)

From Stdlib Require Import ZArith Lia ZifyBool Permutation Sorted.
From stdpp Require Import base strings pretty numbers sets option list.
From S2P Require Import Prelude Float64 BTree Text Json RunTypes.

Open Scope Z_scope.

Definition SCORECARD_VERSION : Z := 1.

Record ScorecardEntry := mkScorecardEntry {
  se_id : string;
  se_dimension : string;
  se_binding_id : option string;
  se_case_group : option string;
  se_tags_all : list string;
  se_min_mean_score : option f64;
  se_score_threshold : option f64;
  se_min_pass_rate : option f64;
  se_min_coverage : option f64;
  se_max_error_rate : option f64;
  se_max_abstention_rate : option f64;
  se_expected_count : Z;
  se_scored_count : Z;
  se_passed_count : Z;
  se_error_count : Z;
  se_abstained_count : Z;
  se_score_sum : f64;
  se_min_score : option f64;
  se_max_score : option f64
}.

Record ShardScorecard := mkShardScorecard {
  sh_version : Z;
  sh_run_shard : Z;
  sh_policy_hash : string;
  sh_entries : list ScorecardEntry
}.

Record ScorecardGateResult := mkScorecardGateResult {
  gr_id : string;
  gr_dimension : string;
  gr_binding_id : option string;
  gr_case_group : option string;
  gr_tags_all : list string;
  gr_passed : bool;
  gr_failures : list string;
  gr_expected_count : Z;
  gr_scored_count : Z;
  gr_passed_count : Z;
  gr_error_count : Z;
  gr_abstained_count : Z;
  gr_mean_score : option f64;
  gr_min_score : option f64;
  gr_max_score : option f64;
  gr_coverage : option f64;
  gr_pass_rate : option f64;
  gr_error_rate : option f64;
  gr_abstention_rate : option f64
}.

Record RunScorecard := mkRunScorecard {
  rs_version : Z;
  rs_policy_hash : string;
  rs_shard_count : Z;
  rs_passed : bool;
  rs_gates : list ScorecardGateResult
}.

Definition checked_rate (numerator denominator : Z) : option f64 :=
  if 0 <? denominator then Some (fdiv (f64_of_Z numerator) (f64_of_Z denominator)) else None.

Definition entry_thresholds (entry : ScorecardEntry) : list (option f64) :=
  [se_min_mean_score entry; se_score_threshold entry; se_min_pass_rate entry;
   se_min_coverage entry; se_max_error_rate entry; se_max_abstention_rate entry].

Definition opt_unit_violation (o : option f64) : bool :=
  is_some_and (fun v => negb (in_unit v)) o.

Definition gate_error (id msg : string) : string := "scorecard gate '" +:+ id +:+ "' " +:+ msg.

Definition validate_entry (entry : ScorecardEntry) : result unit :=
  if trim_is_empty (se_id entry) || trim_is_empty (se_dimension entry)
  then Err "scorecard gate id and dimension must not be empty"
  else if existsb opt_unit_violation (entry_thresholds entry)
    || negb (Bool.eqb (opt_is_some (se_score_threshold entry)) (opt_is_some (se_min_pass_rate entry)))
    || forallb opt_is_none (entry_thresholds entry)
  then Err (gate_error (se_id entry) "has invalid policy thresholds")
  else if existsb (fun count => count <? 0)
       [se_expected_count entry; se_scored_count entry; se_passed_count entry;
        se_error_count entry; se_abstained_count entry]
    || (se_expected_count entry <? se_scored_count entry)
    || (se_scored_count entry <? se_passed_count entry)
    || (se_expected_count entry <? se_error_count entry)
    || (se_expected_count entry <? se_abstained_count entry)
  then Err (gate_error (se_id entry) "has invalid counters")
  else if negb (is_finite (se_score_sum entry))
    || flt (se_score_sum entry) f0
    || flt (fadd (f64_of_Z (se_scored_count entry)) f64_epsilon) (se_score_sum entry)
    || opt_unit_violation (se_min_score entry) || opt_unit_violation (se_max_score entry)
  then Err (gate_error (se_id entry) "has invalid scores")
  else if negb (Bool.eqb (se_scored_count entry =? 0) (opt_is_none (se_min_score entry)))
    || negb (Bool.eqb (se_scored_count entry =? 0) (opt_is_none (se_max_score entry)))
  then Err (gate_error (se_id entry) "score extrema do not match scored_count")
  else if match se_min_score entry, se_max_score entry with
          | Some min, Some max => flt max min
          | _, _ => false
          end
  then Err (gate_error (se_id entry) "minimum score exceeds its maximum")
  else Ok tt.

(** [==] on [Option<f64>]. *)
Definition opt_feq (a b : option f64) : bool :=
  match a, b with
  | Some x, Some y => feq x y
  | None, None => true
  | _, _ => false
  end.

Definition same_policy (left right : ScorecardEntry) : bool :=
  str_eqb (se_id left) (se_id right)
  && str_eqb (se_dimension left) (se_dimension right)
  && bool_decide (se_binding_id left = se_binding_id right)
  && bool_decide (se_case_group left = se_case_group right)
  && bool_decide (se_tags_all left = se_tags_all right)
  && opt_feq (se_min_mean_score left) (se_min_mean_score right)
  && opt_feq (se_score_threshold left) (se_score_threshold right)
  && opt_feq (se_min_pass_rate left) (se_min_pass_rate right)
  && opt_feq (se_min_coverage left) (se_min_coverage right)
  && opt_feq (se_max_error_rate left) (se_max_error_rate right)
  && opt_feq (se_max_abstention_rate left) (se_max_abstention_rate right).

(** [(Some(l), Some(r)) => Some(f(l, r)), (l, r) => l.or(r)]. *)
Definition opt_combine (f : f64 -> f64 -> f64) (a b : option f64) : option f64 :=
  match a, b with
  | Some x, Some y => Some (f x y)
  | Some x, None => Some x
  | None, o => o
  end.

Definition merge_entry (target source : ScorecardEntry) : result ScorecardEntry :=
  _ ← ensure (same_policy target source)
        (gate_error (se_id source) "policy differs across shards");
  _ ← validate_entry source;
  expected ← ok_or (i64_checked_add (se_expected_count target) (se_expected_count source))
        (gate_error (se_id target) "expected_count overflowed");
  scored ← ok_or (i64_checked_add (se_scored_count target) (se_scored_count source))
        (gate_error (se_id target) "scored_count overflowed");
  passed ← ok_or (i64_checked_add (se_passed_count target) (se_passed_count source))
        (gate_error (se_id target) "passed_count overflowed");
  error ← ok_or (i64_checked_add (se_error_count target) (se_error_count source))
        (gate_error (se_id target) "error_count overflowed");
  abstained ← ok_or (i64_checked_add (se_abstained_count target) (se_abstained_count source))
        (gate_error (se_id target) "abstained_count overflowed");
  let score_sum := fadd (se_score_sum target) (se_score_sum source) in
  _ ← ensure (is_finite score_sum) (gate_error (se_id target) "score_sum overflowed");
  Ok (mkScorecardEntry (se_id target) (se_dimension target) (se_binding_id target)
        (se_case_group target) (se_tags_all target) (se_min_mean_score target)
        (se_score_threshold target) (se_min_pass_rate target) (se_min_coverage target)
        (se_max_error_rate target) (se_max_abstention_rate target)
        expected scored passed error abstained score_sum
        (opt_combine fmin (se_min_score target) (se_min_score source))
        (opt_combine fmax (se_max_score target) (se_max_score source))).

(** The zipped loop of [accumulate_chunk_scorecard]. *)
Fixpoint accumulate_entries (targets sources : list ScorecardEntry)
    : result (list ScorecardEntry) :=
  match targets, sources with
  | target :: targets', source :: sources' =>
      _ ← validate_entry source;
      _ ← ensure (str_eqb (se_id target) (se_id source)) "chunk scorecard gate order mismatch";
      merged ← merge_entry target source;
      rest ← accumulate_entries targets' sources';
      Ok (merged :: rest)
  | _, _ => Ok targets
  end.

Definition accumulate_chunk_scorecard (target chunk : ShardScorecard) : result ShardScorecard :=
  if negb (sh_version target =? sh_version chunk)
    || negb (sh_run_shard target =? sh_run_shard chunk)
    || negb (str_eqb (sh_policy_hash target) (sh_policy_hash chunk))
    || negb (zlen (sh_entries target) =? zlen (sh_entries chunk))
  then Err "chunk scorecard identity or gate set mismatch"
  else
    entries ← accumulate_entries (sh_entries target) (sh_entries chunk);
    Ok (mkShardScorecard (sh_version target) (sh_run_shard target) (sh_policy_hash target) entries).

Definition entry_mean (entry : ScorecardEntry) : option f64 :=
  if 0 <? se_scored_count entry
  then Some (fdiv (se_score_sum entry) (f64_of_Z (se_scored_count entry))) else None.

Definition entry_pass_rate (entry : ScorecardEntry) : option f64 :=
  match se_score_threshold entry with
  | Some _ => checked_rate (se_passed_count entry) (se_scored_count entry)
  | None => None
  end.

(** [minimum.is_some_and(|m| actual.is_none_or(|a| a < m))] and its mirror. *)
Definition below (minimum actual : option f64) : bool :=
  is_some_and (fun m => is_none_or (fun a => flt a m) actual) minimum.
Definition above (maximum actual : option f64) : bool :=
  is_some_and (fun m => is_none_or (fun a => flt m a) actual) maximum.

Definition evaluate_entry (entry : ScorecardEntry) : ScorecardGateResult :=
  let mean_score := entry_mean entry in
  let coverage := checked_rate (se_scored_count entry) (se_expected_count entry) in
  let pass_rate := entry_pass_rate entry in
  let error_rate := checked_rate (se_error_count entry) (se_expected_count entry) in
  let abstention_rate := checked_rate (se_abstained_count entry) (se_expected_count entry) in
  let failures :=
    when (se_expected_count entry =? 0) "no matching executions"
    ++ when (below (se_min_mean_score entry) mean_score) "mean score below minimum"
    ++ when (below (se_min_coverage entry) coverage) "coverage below minimum"
    ++ when (below (se_min_pass_rate entry) pass_rate) "pass rate below minimum"
    ++ when (above (se_max_error_rate entry) error_rate) "error rate above maximum"
    ++ when (above (se_max_abstention_rate entry) abstention_rate) "abstention rate above maximum" in
  mkScorecardGateResult (se_id entry) (se_dimension entry) (se_binding_id entry)
    (se_case_group entry) (se_tags_all entry) (bool_decide (failures = [])) failures
    (se_expected_count entry) (se_scored_count entry) (se_passed_count entry)
    (se_error_count entry) (se_abstained_count entry) mean_score
    (se_min_score entry) (se_max_score entry) coverage pass_rate error_rate abstention_rate.

(** [sort_by_key]: a stable sort. *)
Fixpoint insert_by_shard (s : ShardScorecard) (l : list ShardScorecard) : list ShardScorecard :=
  match l with
  | [] => [s]
  | t :: l' => if sh_run_shard s <=? sh_run_shard t then s :: l else t :: insert_by_shard s l'
  end.

Definition sort_by_shard (l : list ShardScorecard) : list ShardScorecard :=
  fold_right insert_by_shard [] l.

(** Merging one entry of a shard; the state is (gate ids of the shard, merged
    entries). *)
Definition merge_shard_entry (st : btree string unit * btree string ScorecardEntry)
    (entry : ScorecardEntry) : result (btree string unit * btree string ScorecardEntry) :=
  let '(shard_ids, entries) := st in
  if bt_mem (se_id entry) shard_ids
  then Err ("shard scorecard repeats gate '" +:+ se_id entry +:+ "'")
  else
    let shard_ids' := bt_insert (se_id entry) tt shard_ids in
    match bt_get (se_id entry) entries with
    | Some target =>
        merged ← merge_entry target entry;
        Ok (shard_ids', bt_insert (se_id entry) merged entries)
    | None =>
        _ ← validate_entry entry;
        Ok (shard_ids', bt_insert (se_id entry) entry entries)
    end.

Record MergeState := mkMergeState {
  ms_entries : btree string ScorecardEntry;
  ms_expected_gate_ids : option (list string);
  ms_previous : option Z
}.

Definition merge_shard (expected_policy_hash : string) (st : MergeState) (shard : ShardScorecard)
    : result MergeState :=
  _ ← ensure (negb (is_some_and (fun p => sh_run_shard shard =? p) (ms_previous st)))
        ("duplicate shard scorecard " +:+ pretty (sh_run_shard shard));
  _ ← ensure (sh_version shard =? SCORECARD_VERSION)
        ("unsupported shard scorecard version " +:+ pretty (sh_version shard));
  _ ← ensure (str_eqb (sh_policy_hash shard) expected_policy_hash)
        "shard scorecard policy hash does not match the run";
  ids_entries ← foldM merge_shard_entry ([], ms_entries st) (sh_entries shard);
  let shard_gate_ids := bt_keys ids_entries.1 in
  match ms_expected_gate_ids st with
  | Some expected =>
      _ ← ensure (bool_decide (expected = shard_gate_ids))
            "shard scorecards contain different gate sets";
      Ok (mkMergeState ids_entries.2 (Some expected) (Some (sh_run_shard shard)))
  | None =>
      Ok (mkMergeState ids_entries.2 (Some shard_gate_ids) (Some (sh_run_shard shard)))
  end.

Definition merge_shard_scorecards (expected_policy_hash : string) (shards : list ShardScorecard)
    : result RunScorecard :=
  st ← foldM (merge_shard expected_policy_hash) (mkMergeState [] None None) (sort_by_shard shards);
  let gates := map evaluate_entry (bt_values (ms_entries st)) in
  Ok (mkRunScorecard SCORECARD_VERSION expected_policy_hash (zlen shards)
        (forallb gr_passed gates) gates).

(** ** Sorting by shard *)

Definition shard_le (a b : ShardScorecard) : Prop := sh_run_shard a <= sh_run_shard b.

Lemma insert_by_shard_perm s l : insert_by_shard s l ≡ₚ s :: l.
Proof.
  induction l as [|t l IH]; simpl; [done|]. case_if; [done|].
  rewrite IH. apply Permutation_swap.
Qed.

Lemma sort_by_shard_perm l : sort_by_shard l ≡ₚ l.
Proof. induction l as [|s l IH]; simpl; [done|]. by rewrite insert_by_shard_perm, IH. Qed.

Lemma insert_by_shard_sorted s l :
  StronglySorted shard_le l -> StronglySorted shard_le (insert_by_shard s l).
Proof.
  induction 1 as [|t l Hl IH Ht]; simpl; [repeat constructor|]. case_if.
  - constructor; [by constructor|]. constructor; [unfold shard_le; lia|].
    eapply Forall_impl; [exact Ht|]. unfold shard_le. intros; lia.
  - constructor; [done|]. rewrite insert_by_shard_perm.
    constructor; [unfold shard_le; lia|done].
Qed.

Lemma sort_by_shard_sorted l : StronglySorted shard_le (sort_by_shard l).
Proof. induction l; simpl; [constructor|by apply insert_by_shard_sorted]. Qed.

(** Sorted lists with distinct keys are determined by their members. *)
Lemma sorted_unique l1 l2 :
  StronglySorted shard_le l1 -> StronglySorted shard_le l2 -> l1 ≡ₚ l2 ->
  NoDup (map sh_run_shard l1) -> l1 = l2.
Proof.
  revert l2; induction l1 as [|a l1 IH]; intros l2 H1 H2 Hp Hnd.
  - by apply Permutation_nil_l in Hp.
  - destruct l2 as [|b l2]; [by apply Permutation_nil_r in Hp|].
    inversion H1 as [|? ? Hs1 Ha]; inversion H2 as [|? ? Hs2 Hb]; subst.
    simpl in Hnd. apply NoDup_cons in Hnd as [Hni Hnd].
    assert (a = b) as ->.
    { assert (Hain : a ∈ b :: l2) by (rewrite <- Hp; by left).
      assert (Hbin : b ∈ a :: l1) by (rewrite Hp; by left).
      apply elem_of_cons in Hain as [->|Hain]; [done|].
      apply elem_of_cons in Hbin as [->|Hbin]; [done|]. exfalso.
      rewrite Forall_forall in Ha, Hb. specialize (Ha _ Hbin). specialize (Hb _ Hain).
      unfold shard_le in *. apply Hni. apply list_elem_of_fmap. exists b. split; [lia|done]. }
    f_equal. apply IH; [done..| |done]. by apply Permutation_cons_inv in Hp.
Qed.

Lemma merge_shard_previous h st s st' :
  merge_shard h st s = Ok st' ->
  ms_previous st' = Some (sh_run_shard s) /\ ms_previous st <> Some (sh_run_shard s).
Proof.
  unfold merge_shard. intros H. inv_ok.
  assert (ms_previous st' = Some (sh_run_shard s)) as ->
    by (destruct (ms_expected_gate_ids st); inv_ok; done).
  split; [done|]. intros E. rewrite E in *. simpl in *. lia.
Qed.

(** Successful merging of an ordered list excludes equal shard numbers. *)
Lemma merge_distinct h l st st' :
  StronglySorted shard_le l ->
  (forall p, ms_previous st = Some p -> Forall (fun s => p <= sh_run_shard s) l) ->
  foldM (merge_shard h) st l = Ok st' ->
  NoDup (map sh_run_shard l) /\
  (forall p, ms_previous st = Some p -> p ∉ map sh_run_shard l).
Proof.
  revert st. induction l as [|s l IH]; intros st Hs Hp H; simpl in *.
  - split; [constructor|set_solver].
  - inversion Hs as [|? ? Hs' Hall]; subst. inv_ok.
    match goal with E : merge_shard _ _ _ = Ok ?x |- _ =>
      rename E into Hm; destruct (merge_shard_previous _ _ _ _ Hm) as [Hprev Hne] end.
    destruct (IH a Hs') as [Hnd Hni]; [|done|].
    { intros p Hp'. rewrite Hprev in Hp'. injection Hp' as <-. exact Hall. }
    specialize (Hni _ Hprev). split; [by constructor|].
    intros p Ep. apply not_elem_of_cons. split; [congruence|].
    intros Hin. apply Hni. apply list_elem_of_fmap in Hin as (t & -> & Ht).
    specialize (Hp _ Ep). apply Forall_cons in Hp as [Hle _].
    rewrite Forall_forall in Hall. specialize (Hall _ Ht). unfold shard_le in Hall.
    replace (sh_run_shard s) with (sh_run_shard t) by lia.
    apply list_elem_of_fmap. eauto.
Qed.

Lemma merge_ok_NoDup h shards c :
  merge_shard_scorecards h shards = Ok c -> NoDup (map sh_run_shard shards).
Proof.
  unfold merge_shard_scorecards. intros H. inv_ok.
  rewrite <- (sort_by_shard_perm shards).
  eapply merge_distinct; [apply sort_by_shard_sorted| |done]. by simpl.
Qed.

(** C28: the merged scorecard does not depend on the order in which shard
    rollups arrive, floating-point sums included: every permutation of rollups
    that merge successfully merges to the same scorecard. *)
Theorem merge_order_independent h shards shards' c :
  shards ≡ₚ shards' ->
  merge_shard_scorecards h shards = Ok c -> merge_shard_scorecards h shards' = Ok c.
Proof.
  intros Hp Hok. pose proof (merge_ok_NoDup _ _ _ Hok) as Hnd.
  assert (E : sort_by_shard shards = sort_by_shard shards').
  { apply sorted_unique; [apply sort_by_shard_sorted..| |].
    - by rewrite !sort_by_shard_perm.
    - by rewrite sort_by_shard_perm. }
  unfold merge_shard_scorecards in *. rewrite <- E.
  unfold zlen in *. by rewrite <- (Permutation_length Hp).
Qed.

(** ** Conservation of counts *)

(** Sum of a counter over the entries of gate [id]. *)
Definition total (f : ScorecardEntry -> Z) (id : string) (l : list ScorecardEntry) : Z :=
  fold_right (fun e acc => if str_eqb (se_id e) id then f e + acc else acc) 0 l.

Lemma total_app f id l1 l2 : total f id (l1 ++ l2) = total f id l1 + total f id l2.
Proof. induction l1 as [|e l1 IH]; simpl; [done|]. case_if; lia. Qed.

Lemma total_perm f id l1 l2 : l1 ≡ₚ l2 -> total f id l1 = total f id l2.
Proof. induction 1; simpl; repeat case_if; lia. Qed.

Lemma total_absent f id l : (forall e, e ∈ l -> se_id e <> id) -> total f id l = 0.
Proof.
  induction l as [|e l IH]; simpl; intros H; [done|].
  destruct (str_eqb (se_id e) id) eqn:E.
  - apply str_eqb_true in E. exfalso. apply (H e); [by left|done].
  - apply IH. intros. apply H. by right.
Qed.

Definition counters : list (ScorecardEntry -> Z) :=
  [se_expected_count; se_scored_count; se_passed_count; se_error_count; se_abstained_count].

(** The merged map after the entries [all]: per gate, every counter is the sum
    over the entries of that gate. *)
Definition merged (entries : btree string ScorecardEntry) (all : list ScorecardEntry) : Prop :=
  bt_wf entries /\
  Forall (fun e => validate_entry e = Ok tt) all /\
  (forall id, bt_get id entries = None -> forall e, e ∈ all -> se_id e <> id) /\
  (forall id e, bt_get id entries = Some e ->
     se_id e = id /\ Forall (fun f => f e = total f id all) counters).

Lemma merge_entry_counters t s m :
  merge_entry t s = Ok m ->
  se_id m = se_id t /\ se_id t = se_id s /\ validate_entry s = Ok tt /\
  Forall (fun f => f m = f t + f s) counters.
Proof.
  unfold merge_entry, i64_checked_add. intros H. inv_ok. simpl.
  match goal with E : same_policy _ _ = true |- _ => unfold same_policy in E end. inv_ok.
  match goal with E : str_eqb (se_id t) _ = true |- _ => apply str_eqb_true in E end.
  split_and!; [done|done|done|]. repeat constructor.
Qed.

Lemma merged_step entries all st entry st' :
  merged entries all -> st.2 = entries -> merge_shard_entry st entry = Ok st' ->
  merged st'.2 (all ++ [entry]).
Proof.
  intros (Hwf & Hval & Hnone & Hsome) <- H. destruct st as [ids entries].
  unfold merge_shard_entry in H. case_if; [done|]. simpl in *.
  set (id := se_id entry) in *.
  assert (G : forall e, se_id e = id -> validate_entry entry = Ok tt ->
    Forall (fun f => f e = total f id all + f entry) counters ->
    merged (bt_insert id e entries) (all ++ [entry])).
  { intros e Hid Hv Hc. split_and!; [auto|apply Forall_app; auto|..].
    - intros k Hk x. destruct (decide (id = k)) as [<-|Hne];
        [by rewrite bt_get_insert_eq in Hk|].
      rewrite bt_get_insert_ne in Hk by done.
      intros [Hx| ->%list_elem_of_singleton]%elem_of_app; [by apply (Hnone k Hk)|done].
    - intros k x Hk. destruct (decide (id = k)) as [<-|Hne].
      + rewrite bt_get_insert_eq in Hk. injection Hk as <-. split; [done|].
        eapply Forall_impl; [exact Hc|]. simpl. intros f ->. rewrite total_app. simpl.
        fold id. rewrite str_eqb_refl. lia.
      + rewrite bt_get_insert_ne in Hk by done. destruct (Hsome k x Hk) as [? Hx].
        split; [done|]. eapply Forall_impl; [exact Hx|]. simpl. intros f ->.
        rewrite total_app. simpl. fold id. case_if; [|lia].
        match goal with E : str_eqb id k = true |- _ => by apply str_eqb_true in E end. }
  destruct (bt_get id entries) as [t|] eqn:Et; inv_ok; simpl.
  - destruct (Hsome id t Et) as [Hid Ht].
    match goal with E : merge_entry _ _ = Ok _ |- _ =>
      apply merge_entry_counters in E as (E1 & E2 & Hv & Hc) end.
    apply G; [congruence|done|]. unfold counters in *.
    repeat match goal with H : Forall _ (_ :: _) |- _ => apply Forall_cons in H as [? H] end.
    repeat constructor; lia.
  - apply G; [done|done|]. apply Forall_forall. intros f _.
    rewrite total_absent; [lia|]. by apply Hnone.
Qed.

Lemma merged_entries l entries all ids st' :
  merged entries all -> foldM merge_shard_entry (ids, entries) l = Ok st' ->
  merged st'.2 (all ++ l).
Proof.
  intros Hm H. revert H.
  refine (foldM_inv_prefix (fun pre st => merged st.2 (all ++ pre)) _ l (ids, entries) st' _ _).
  - by rewrite app_nil_r.
  - intros pre s a s1 Hs Ha. rewrite app_assoc. by eapply merged_step.
Qed.

Lemma merged_shards h l st st' all :
  merged (ms_entries st) all -> foldM (merge_shard h) st l = Ok st' ->
  merged (ms_entries st') (all ++ concat (map sh_entries l)).
Proof.
  intros Hm H. revert H.
  refine (foldM_inv_prefix
    (fun pre st => merged (ms_entries st) (all ++ concat (map sh_entries pre))) _ l st st' _ _).
  - simpl. by rewrite app_nil_r.
  - intros pre s a s1 Hs Ha. rewrite map_app, concat_app, app_assoc. simpl. rewrite app_nil_r.
    unfold merge_shard in Ha. inv_ok. simpl in *.
    match goal with E : foldM _ _ _ = Ok _ |- _ => eapply merged_entries in E; [|done] end.
    destruct (ms_expected_gate_ids s); inv_ok; done.
Qed.

Lemma validate_entry_counters e :
  validate_entry e = Ok tt ->
  0 <= se_passed_count e <= se_scored_count e /\ se_scored_count e <= se_expected_count e /\
  0 <= se_error_count e <= se_expected_count e /\ 0 <= se_abstained_count e <= se_expected_count e.
Proof.
  unfold validate_entry. intros H.
  do 3 (match type of H with (if ?b then _ else _) = _ => destruct b eqn:? end; [discriminate H|]).
  clear -Heqb1. cbn [existsb] in Heqb1. lia.
Qed.

Lemma total_le f g id l :
  Forall (fun e => f e <= g e) l -> total f id l <= total g id l.
Proof. induction 1; simpl; [lia|]. case_if; lia. Qed.

Lemma total_nonneg f id l : Forall (fun e => 0 <= f e) l -> 0 <= total f id l.
Proof. induction 1; simpl; [lia|]. case_if; lia. Qed.

Lemma merged_init : merged [] [].
Proof. split_and!; [apply bt_wf_nil|constructor|set_solver|done]. Qed.

Lemma merge_gates_spec h shards c g :
  merge_shard_scorecards h shards = Ok c -> g ∈ rs_gates c ->
  exists e, g = evaluate_entry e /\
    Forall (fun f => f e = total f (se_id e) (concat (map sh_entries shards))) counters /\
    Forall (fun x => validate_entry x = Ok tt) (concat (map sh_entries shards)).
Proof.
  unfold merge_shard_scorecards. intros H Hg. inv_ok. simpl in Hg.
  match goal with E : foldM _ _ _ = Ok _ |- _ =>
    apply (merged_shards _ _ (mkMergeState [] None None) _ [] merged_init) in E as (Hwf & Hval & _ & Hsome) end.
  apply list_elem_of_fmap in Hg as (e & -> & He). unfold bt_values in He.
  apply list_elem_of_fmap in He as ([k e'] & -> & He). simpl in *.
  apply bt_get_elem in He; [|done]. destruct (Hsome k e' He) as [Hid Ht].
  assert (Hperm : concat (map sh_entries (sort_by_shard shards)) ≡ₚ concat (map sh_entries shards))
    by (by rewrite sort_by_shard_perm).
  exists e'. split_and!; [done| |by rewrite <- Hperm].
  eapply Forall_impl; [exact Ht|]. simpl. intros f ->. rewrite Hid. by apply total_perm.
Qed.

(** Merging loses and invents nothing: each counter of a merged gate is the
    exact sum of that counter over the gate's entries in all shards, and the
    merged counters satisfy the same ordering that each shard entry satisfies. *)
Theorem merge_conserves_counts h shards c g :
  merge_shard_scorecards h shards = Ok c -> g ∈ rs_gates c ->
  let all := concat (map sh_entries shards) in
  gr_expected_count g = total se_expected_count (gr_id g) all /\
  gr_scored_count g = total se_scored_count (gr_id g) all /\
  gr_passed_count g = total se_passed_count (gr_id g) all /\
  gr_error_count g = total se_error_count (gr_id g) all /\
  gr_abstained_count g = total se_abstained_count (gr_id g) all /\
  0 <= gr_passed_count g <= gr_scored_count g /\ gr_scored_count g <= gr_expected_count g /\
  0 <= gr_error_count g <= gr_expected_count g /\
  0 <= gr_abstained_count g <= gr_expected_count g.
Proof.
  intros H Hg. destruct (merge_gates_spec _ _ _ _ H Hg) as (e & -> & Ht & Hval).
  unfold counters in Ht. cbn [evaluate_entry gr_id gr_expected_count gr_scored_count gr_passed_count
    gr_error_count gr_abstained_count].
  repeat match goal with H : Forall _ (_ :: _) |- _ => apply Forall_cons in H as [? H] end.
  assert (Hall : Forall (fun x => 0 <= se_passed_count x <= se_scored_count x /\
      se_scored_count x <= se_expected_count x /\
      0 <= se_error_count x <= se_expected_count x /\
      0 <= se_abstained_count x <= se_expected_count x) (concat (map sh_entries shards)))
    by (eapply Forall_impl; [exact Hval|]; apply validate_entry_counters).
  set (all := concat (map sh_entries shards)) in *. set (id := se_id e) in *.
  assert (total se_passed_count id all <= total se_scored_count id all)
    by (apply total_le; eapply Forall_impl; [exact Hall|]; simpl; lia).
  assert (total se_scored_count id all <= total se_expected_count id all)
    by (apply total_le; eapply Forall_impl; [exact Hall|]; simpl; lia).
  assert (total se_error_count id all <= total se_expected_count id all)
    by (apply total_le; eapply Forall_impl; [exact Hall|]; simpl; lia).
  assert (total se_abstained_count id all <= total se_expected_count id all)
    by (apply total_le; eapply Forall_impl; [exact Hall|]; simpl; lia).
  assert (0 <= total se_passed_count id all)
    by (apply total_nonneg; eapply Forall_impl; [exact Hall|]; simpl; lia).
  assert (0 <= total se_error_count id all)
    by (apply total_nonneg; eapply Forall_impl; [exact Hall|]; simpl; lia).
  assert (0 <= total se_abstained_count id all)
    by (apply total_nonneg; eapply Forall_impl; [exact Hall|]; simpl; lia).
  split_and!; lia.
Qed.

(** ** Gate sets *)

Lemma merge_shard_entry_keys ids entries entry ids' entries' :
  bt_wf ids -> bt_wf entries ->
  merge_shard_entry (ids, entries) entry = Ok (ids', entries') ->
  se_id entry ∉ bt_keys ids /\ bt_wf ids' /\ bt_wf entries' /\
  (forall k, k ∈ bt_keys ids' <-> k ∈ bt_keys ids \/ k = se_id entry) /\
  (forall k, k ∈ bt_keys entries' <-> k ∈ bt_keys entries \/ k = se_id entry).
Proof.
  intros Hi He. unfold merge_shard_entry. case_if; [discriminate|]. intros H.
  assert (Hfresh : se_id entry ∉ bt_keys ids).
  { intros Hin. apply bt_mem_keys in Hin; [congruence|done]. }
  assert (G : forall V (m : btree string V) v k, bt_wf m ->
    k ∈ bt_keys (bt_insert (se_id entry) v m) <-> k ∈ bt_keys m \/ k = se_id entry).
  { intros V m v k Hm. rewrite <- !bt_mem_keys by auto. unfold bt_mem.
    destruct (decide (se_id entry = k)) as [<-|Hne].
    - rewrite bt_get_insert_eq. naive_solver.
    - rewrite bt_get_insert_ne by done. naive_solver. }
  destruct (bt_get (se_id entry) entries); inv_ok;
    (split_and!; [done|auto|auto|intros; by apply G|intros; by apply G]).
Qed.

(** After a shard's entries: its ids are its entries' ids, without repetition,
    and the merged keys grew by exactly those. *)
Lemma merge_entries_keys l entries st' :
  bt_wf entries -> foldM merge_shard_entry ([], entries) l = Ok st' ->
  bt_wf st'.1 /\ bt_wf st'.2 /\ NoDup (map se_id l) /\
  (forall k, k ∈ bt_keys st'.1 <-> k ∈ map se_id l) /\
  (forall k, k ∈ bt_keys st'.2 <-> k ∈ bt_keys entries \/ k ∈ map se_id l).
Proof.
  intros Hwf.
  refine (foldM_inv_prefix (fun pre st => bt_wf st.1 /\ bt_wf st.2 /\ NoDup (map se_id pre) /\
    (forall k, k ∈ bt_keys st.1 <-> k ∈ map se_id pre) /\
    (forall k, k ∈ bt_keys st.2 <-> k ∈ bt_keys entries \/ k ∈ map se_id pre)) _ l _ st' _ _).
  - simpl. split_and!; [auto|done|constructor|set_solver|set_solver].
  - intros pre [ids es] a [ids' es'] (H1 & H2 & Hnd & K1 & K2) Ha. simpl in *.
    destruct (merge_shard_entry_keys _ _ _ _ _ H1 H2 Ha) as (Hf & W1 & W2 & A1 & A2).
    rewrite map_app. simpl. split_and!; [done|done| | |].
    + apply NoDup_app. split_and!; [done| |apply NoDup_singleton].
      intros x Hx ->%list_elem_of_singleton. apply Hf. by apply K1.
    + intros k. rewrite A1, K1, elem_of_app, list_elem_of_singleton. done.
    + intros k. rewrite A2, K2, elem_of_app, list_elem_of_singleton. tauto.
Qed.

Lemma sorted_keys_unique (l1 l2 : list string) :
  StronglySorted klt l1 -> StronglySorted klt l2 -> (forall k, k ∈ l1 <-> k ∈ l2) -> l1 = l2.
Proof.
  revert l2; induction l1 as [|a l1 IH]; intros [|b l2] H1 H2 Hk.
  - done.
  - exfalso. assert (b ∈ []) by (apply Hk; by left). set_solver.
  - exfalso. assert (a ∈ []) by (apply Hk; by left). set_solver.
  - inversion H1 as [|? ? Hs1 Ha]; inversion H2 as [|? ? Hs2 Hb]; subst.
    rewrite Forall_forall in Ha, Hb.
    assert (a = b) as ->.
    { assert (Hain : a ∈ b :: l2) by (apply Hk; by left).
      assert (Hbin : b ∈ a :: l1) by (apply Hk; by left).
      apply elem_of_cons in Hain as [->|Hain]; [done|].
      apply elem_of_cons in Hbin as [->|Hbin]; [done|].
      exfalso. by apply (klt_asym a b); auto. }
    f_equal. apply IH; [done..|]. intros k. split; intros Hin.
    + assert (Hx : k ∈ b :: l2) by (apply Hk; by right).
      apply elem_of_cons in Hx as [->|?]; [|done]. exfalso. by apply (klt_irrefl b); auto.
    + assert (Hx : k ∈ b :: l1) by (apply Hk; by right).
      apply elem_of_cons in Hx as [->|?]; [|done]. exfalso. by apply (klt_irrefl b); auto.
Qed.

(** Invariant of the shard loop: the merged keys are the gate set every merged
    shard carries. *)
Definition gate_sets (pre : list ShardScorecard) (st : MergeState) : Prop :=
  bt_wf (ms_entries st) /\
  match ms_expected_gate_ids st with
  | None => pre = [] /\ ms_entries st = []
  | Some ids => bt_keys (ms_entries st) = ids
  end /\
  Forall (fun s => map se_id (sh_entries s) ≡ₚ bt_keys (ms_entries st)) pre.

Lemma keys_perm (ids : list string) (m : btree string unit) :
  bt_wf m -> NoDup ids -> (forall k, k ∈ bt_keys m <-> k ∈ ids) -> ids ≡ₚ bt_keys m.
Proof.
  intros Hm Hnd Hk. apply NoDup_Permutation; [done|by apply bt_wf_NoDup|].
  intros k. by rewrite Hk.
Qed.

Lemma merge_shard_gate_sets h pre st s st' :
  gate_sets pre st -> merge_shard h st s = Ok st' -> gate_sets (pre ++ [s]) st'.
Proof.
  intros (Hwf & Hexp & Hall) H. unfold merge_shard in H. inv_ok.
  match goal with E : foldM _ _ _ = Ok ?x |- _ =>
    apply (merge_entries_keys _ _ _ Hwf) in E as (W1 & W2 & Hnd & K1 & K2); rename x into r end.
  destruct r as [ids es]. simpl in *.
  pose proof (keys_perm _ _ W1 Hnd K1) as Hp.
  destruct (ms_expected_gate_ids st) as [expected|]; inv_ok; simpl.
  - match goal with E : bool_decide _ = true |- _ => apply bool_decide_eq_true in E as Hexp end.
    assert (Hsame : bt_keys es = bt_keys (ms_entries st)).
    { apply sorted_keys_unique; [exact W2|exact Hwf|]. intros k. rewrite K2, Hexp.
      rewrite K1. tauto. }
    split_and!; [done|simpl; congruence|]. simpl. rewrite Hsame. apply Forall_app. split; [done|].
    constructor; [|constructor]. by rewrite Hexp.
  - destruct Hexp as [-> Hnil]. rewrite Hnil in K2. simpl in K2.
    assert (Hsame : bt_keys es = bt_keys ids).
    { apply sorted_keys_unique; [exact W2|exact W1|]. intros k. rewrite K2, K1. set_solver. }
    split_and!; [done|done|]. simpl. rewrite Hsame. by constructor.
Qed.

Lemma evaluate_entry_id e : gr_id (evaluate_entry e) = se_id e.
Proof. done. Qed.

(** every merged shard contributes exactly one entry to every gate of the
    run: the gates of the scorecard are the gates of each shard rollup, so no
    gate is decided on a subset of the shards. *)
Theorem merge_gate_coverage h shards c s :
  merge_shard_scorecards h shards = Ok c -> s ∈ shards ->
  map se_id (sh_entries s) ≡ₚ map gr_id (rs_gates c).
Proof.
  unfold merge_shard_scorecards. intros H Hs. inv_ok. simpl.
  match goal with E : foldM _ _ _ = Ok _ |- _ => rename E into Hf end.
  pose proof (merged_shards _ _ (mkMergeState [] None None) _ [] merged_init Hf)
    as (_ & _ & _ & Hsome).
  apply (foldM_inv_prefix gate_sets) in Hf.
  - destruct Hf as (Hwf & _ & Hall). rewrite Forall_forall in Hall.
    rewrite (Hall s) by (by rewrite sort_by_shard_perm).
    unfold bt_keys, bt_values. rewrite !map_map.
    apply Permutation_refl'. apply map_ext_in. intros [k e] Hin.
    apply list_elem_of_In, bt_get_elem in Hin; [|done]. simpl.
    destruct (Hsome k e Hin) as [-> _]. done.
  - split_and!; [apply bt_wf_nil|done|constructor].
  - intros. by eapply merge_shard_gate_sets.
Qed.

(** ** Gate decisions *)

(** A configured minimum (maximum) is met by an existing rate that is not below
    (above) it; an absent threshold asks nothing. *)
Definition meets_min (minimum actual : option f64) : Prop :=
  forall m, minimum = Some m -> exists a, actual = Some a /\ flt a m = false.
Definition meets_max (maximum actual : option f64) : Prop :=
  forall m, maximum = Some m -> exists a, actual = Some a /\ flt m a = false.

Lemma below_false minimum actual : below minimum actual = false <-> meets_min minimum actual.
Proof. unfold meets_min. destruct minimum, actual; simpl; naive_solver. Qed.

Lemma above_false maximum actual : above maximum actual = false <-> meets_max maximum actual.
Proof. unfold meets_max. destruct maximum, actual; simpl; naive_solver. Qed.

(** What the gate of [e] demands of its merged statistics. *)
Definition gate_satisfied (g : ScorecardGateResult) (e : ScorecardEntry) : Prop :=
  gr_expected_count g <> 0 /\
  meets_min (se_min_mean_score e) (gr_mean_score g) /\
  meets_min (se_min_coverage e) (gr_coverage g) /\
  meets_min (se_min_pass_rate e) (gr_pass_rate g) /\
  meets_max (se_max_error_rate e) (gr_error_rate g) /\
  meets_max (se_max_abstention_rate e) (gr_abstention_rate g).

Lemma gate_passed_spec e : gr_passed (evaluate_entry e) = true <-> gate_satisfied (evaluate_entry e) e.
Proof.
  unfold gate_satisfied. cbn [evaluate_entry gr_passed gr_expected_count gr_mean_score gr_coverage
    gr_pass_rate gr_error_rate gr_abstention_rate].
  rewrite bool_decide_eq_true, !app_nil, !when_nil, !below_false, !above_false.
  rewrite Z.eqb_neq. tauto.
Qed.

Lemma flt_feq_r a m m' : feq m m' = true -> flt a m = flt a m'.
Proof.
  intros (N & N' & R)%feq_iff. apply eq_true_iff_eq. rewrite !flt_iff, R. naive_solver.
Qed.

Lemma flt_feq_l a m m' : feq m m' = true -> flt m a = flt m' a.
Proof.
  intros (N & N' & R)%feq_iff. apply eq_true_iff_eq. rewrite !flt_iff, R. naive_solver.
Qed.

(** Equal thresholds in the sense of [==] ask the same. *)
Lemma meets_min_feq m m' a : opt_feq m m' = true -> meets_min m a <-> meets_min m' a.
Proof.
  unfold meets_min. destruct m as [m|], m' as [m'|]; simpl; try done. intros E.
  split; intros H x [= <-]; [destruct (H m eq_refl) as (b & -> & Hb)|
    destruct (H m' eq_refl) as (b & -> & Hb)]; exists b; (split; [done|]).
  - by rewrite <- (flt_feq_r b m m').
  - by rewrite (flt_feq_r b m m').
Qed.

Lemma meets_max_feq m m' a : opt_feq m m' = true -> meets_max m a <-> meets_max m' a.
Proof.
  unfold meets_max. destruct m as [m|], m' as [m'|]; simpl; try done. intros E.
  split; intros H x [= <-]; [destruct (H m eq_refl) as (b & -> & Hb)|
    destruct (H m' eq_refl) as (b & -> & Hb)]; exists b; (split; [done|]).
  - by rewrite <- (flt_feq_l b m m').
  - by rewrite (flt_feq_l b m m').
Qed.

Lemma gate_satisfied_policy g e x :
  same_policy e x = true -> gate_satisfied g e <-> gate_satisfied g x.
Proof.
  unfold same_policy, gate_satisfied. intros H. inv_ok.
  by rewrite (meets_min_feq (se_min_mean_score e) (se_min_mean_score x)),
    (meets_min_feq (se_min_coverage e) (se_min_coverage x)),
    (meets_min_feq (se_min_pass_rate e) (se_min_pass_rate x)),
    (meets_max_feq (se_max_error_rate e) (se_max_error_rate x)),
    (meets_max_feq (se_max_abstention_rate e) (se_max_abstention_rate x)).
Qed.

Lemma opt_feq_refl o : opt_unit_violation o = false -> opt_feq o o = true.
Proof.
  destruct o as [v|]; simpl; [|done]. intros H. apply negb_false_iff, in_unit_not_nan in H.
  by apply feq_iff.
Qed.

Lemma same_policy_refl e : validate_entry e = Ok tt -> same_policy e e = true.
Proof.
  unfold validate_entry. intros H.
  do 2 (match type of H with (if ?b then _ else _) = _ => destruct b eqn:? end; [discriminate H|]).
  apply orb_false_iff in Heqb0 as [Hb _]. apply orb_false_iff in Hb as [Hb _].
  apply existsb_false_Forall in Hb. unfold entry_thresholds in Hb.
  repeat (apply Forall_cons in Hb as [?%opt_feq_refl Hb]).
  unfold same_policy. rewrite !str_eqb_refl, !bool_decide_true by done.
  by repeat (apply andb_true_iff; split).
Qed.

(** Every merged entry carries the policy of all its contributions. *)
Definition policies (entries : btree string ScorecardEntry) (all : list ScorecardEntry) : Prop :=
  forall id e, bt_get id entries = Some e ->
    (exists x, x ∈ all /\ se_id x = id) /\
    (forall x, x ∈ all -> se_id x = id -> same_policy e x = true).

Lemma merge_entry_policy t s m :
  merge_entry t s = Ok m -> same_policy t s = true /\ forall x, same_policy m x = same_policy t x.
Proof. unfold merge_entry. intros H. inv_ok. split; done. Qed.

Lemma policies_step st all entry st' :
  merged st.2 all -> policies st.2 all -> merge_shard_entry st entry = Ok st' ->
  policies st'.2 (all ++ [entry]).
Proof.
  destruct st as [ids entries]. simpl. intros (Hwf & _ & Hnone & _) Hpol H.
  unfold merge_shard_entry in H. case_if; [discriminate H|]. set (id := se_id entry) in *.
  assert (G : forall m, (forall x, x ∈ all ++ [entry] -> se_id x = id -> same_policy m x = true) ->
    policies (bt_insert id m entries) (all ++ [entry])).
  { intros m Hm k e. destruct (decide (id = k)) as [<-|Hne].
    - rewrite bt_get_insert_eq. intros [= <-]. split; [|exact Hm].
      exists entry. split; [set_solver|done].
    - rewrite bt_get_insert_ne by done. intros Hk. destruct (Hpol k e Hk) as [(x & Hx & Hi) Hall].
      split; [exists x; set_solver|].
      intros y [Hy| ->%list_elem_of_singleton]%elem_of_app; [by apply Hall|done]. }
  destruct (bt_get id entries) as [t|] eqn:Et; inv_ok; simpl; apply G.
  - match goal with E : merge_entry _ _ = Ok _ |- _ => apply merge_entry_policy in E as [Hts Heq] end.
    intros x Hx Hi. rewrite Heq.
    apply elem_of_app in Hx as [Hx| ->%list_elem_of_singleton]; [|done].
    by apply (Hpol id t Et).
  - intros x [Hx| ->%list_elem_of_singleton]%elem_of_app Hi; [by destruct (Hnone id Et x)|].
    by apply same_policy_refl.
Qed.

Lemma policies_shards h l st' :
  foldM (merge_shard h) (mkMergeState [] None None) l = Ok st' ->
  merged (ms_entries st') (concat (map sh_entries l)) /\
  policies (ms_entries st') (concat (map sh_entries l)).
Proof.
  refine (foldM_inv_prefix (fun pre st => merged (ms_entries st) (concat (map sh_entries pre)) /\
    policies (ms_entries st) (concat (map sh_entries pre))) _ l _ st' _ _).
  - split; [apply merged_init|done].
  - intros pre s a s1 Hs Ha. rewrite map_app, concat_app. simpl. rewrite app_nil_r.
    unfold merge_shard in Ha. inv_ok.
    match goal with E : foldM _ _ _ = Ok ?x |- _ =>
      assert (G : merged x.2 (concat (map sh_entries pre) ++ sh_entries a) /\
                  policies x.2 (concat (map sh_entries pre) ++ sh_entries a)); [revert E|] end.
    { match goal with |- foldM _ ?z _ = Ok ?x -> _ =>
        refine (foldM_inv_prefix (fun q st => merged st.2 (concat (map sh_entries pre) ++ q) /\
          policies st.2 (concat (map sh_entries pre) ++ q)) _ _ z x _ _) end.
      - simpl. by rewrite app_nil_r.
      - intros q s2 b s3 [Hm Hp] Hb. rewrite app_assoc.
        split; [by eapply merged_step|by eapply policies_step]. }
    destruct (ms_expected_gate_ids s); inv_ok; exact G.
Qed.

(** C27: a merged run passes exactly when every gate had matching executions and
    its merged statistics meet every threshold that any shard's entry of that
    gate carries: no shard's policy is relaxed by merging. *)
Theorem run_passes_iff h shards c :
  merge_shard_scorecards h shards = Ok c ->
  rs_passed c = true <->
  (forall g x, g ∈ rs_gates c -> x ∈ concat (map sh_entries shards) -> se_id x = gr_id g ->
     gate_satisfied g x).
Proof.
  unfold merge_shard_scorecards. intros H. inv_ok.
  match goal with E : foldM _ _ _ = Ok _ |- _ => apply policies_shards in E as [Hm Hpol] end.
  assert (Hperm : concat (map sh_entries (sort_by_shard shards)) ≡ₚ concat (map sh_entries shards))
    by (by rewrite sort_by_shard_perm).
  destruct Hm as (Hwf & _ & _ & Hsome). cbn [rs_passed rs_gates].
  assert (Hg : forall e, e ∈ bt_values (ms_entries a) ->
    (exists x, x ∈ concat (map sh_entries shards) /\ se_id x = se_id e) /\
    (forall x, x ∈ concat (map sh_entries shards) -> se_id x = se_id e -> same_policy e x = true)).
  { intros e He. apply list_elem_of_fmap in He as ([k e'] & -> & He). simpl.
    apply bt_get_elem in He; [|done]. destruct (Hsome k e' He) as [-> _].
    setoid_rewrite <- Hperm. exact (Hpol k e' He). }
  rewrite forallb_Forall_iff, Forall_forall. split.
  - intros Hall g x Hin Hx Hid. apply list_elem_of_fmap in Hin as (e & -> & He).
    destruct (Hg e He) as [_ Hsame].
    rewrite <- (gate_satisfied_policy _ e x) by (by apply Hsame). apply gate_passed_spec.
    apply Hall. by apply list_elem_of_fmap_2.
  - intros Hall g Hin. pose proof Hin as Hin'. apply list_elem_of_fmap in Hin as (e & -> & He).
    destruct (Hg e He) as [(x & Hx & Hid) Hsame]. apply gate_passed_spec.
    rewrite (gate_satisfied_policy _ e x) by (by apply Hsame). by apply Hall.
Qed.

(** ** Chunk accumulation *)

(** folding a chunk's statistics into its shard keeps the shard's identity
    and gate order, is defined only for the same gates in the same order, and
    adds each counter of each gate exactly once. *)
Theorem accumulate_adds_counters target chunk r :
  accumulate_chunk_scorecard target chunk = Ok r ->
  sh_version r = sh_version chunk /\ sh_run_shard r = sh_run_shard chunk /\
  sh_policy_hash r = sh_policy_hash chunk /\
  map se_id (sh_entries r) = map se_id (sh_entries target) /\
  map se_id (sh_entries chunk) = map se_id (sh_entries target) /\
  Forall (fun f => map f (sh_entries r) =
    zip_with (fun t c => f t + f c) (sh_entries target) (sh_entries chunk)) counters.
Proof.
  unfold accumulate_chunk_scorecard. case_if; [discriminate|]. intros H. inv_ok. simpl.
  match goal with E : str_eqb _ _ = true |- _ => apply str_eqb_true in E end.
  assert (Hlen : length (sh_entries target) = length (sh_entries chunk)) by (unfold zlen in *; lia).
  split_and!; [lia|lia|done| | |];
  match goal with E : accumulate_entries _ _ = Ok ?x |- _ =>
    revert E Hlen; generalize (sh_entries target) (sh_entries chunk) x end; clear;
  (induction l as [|t l IH]; intros [|c l0] r; cbn [accumulate_entries]; intros H Hlen;
     try discriminate Hlen; inv_ok;
     [repeat constructor|]);
  (match goal with E : merge_entry _ _ = Ok _ |- _ =>
     apply merge_entry_counters in E as (Hm & Hts & _ & Hc) end);
  (match goal with E : accumulate_entries _ _ = Ok ?x |- _ =>
     specialize (IH l0 x E ltac:(simpl in Hlen; lia)) end); simpl.
  - congruence.
  - congruence.
  - unfold counters in *.
    repeat match goal with H : Forall _ (_ :: _) |- _ => apply Forall_cons in H as [? H] end.
    repeat constructor; simpl; f_equal; done.
Qed.

(** ** Concrete rollups *)

Definition sample_entry (passed error : Z) : ScorecardEntry :=
  mkScorecardEntry "g" "quality" None None [] (Some f0) None None None None None
    2 1 passed error 0 f1 (Some f1) (Some f1).
Definition sample_shard (n : Z) (passed error : Z) : ShardScorecard :=
  mkShardScorecard 1 n "h" [sample_entry passed error].
Definition sample_shards : list ShardScorecard := [sample_shard 1 1 0; sample_shard 0 0 1].

Definition ok_or_default {A} (d : A) (r : result A) : A :=
  match r with Ok a => a | Err _ => d end.
Definition sample_run : RunScorecard :=
  ok_or_default (mkRunScorecard 0 "" 0 false []) (merge_shard_scorecards "h" sample_shards).

Lemma sample_run_ok : merge_shard_scorecards "h" sample_shards = Ok sample_run.
Proof. vm_compute. reflexivity. Qed.

Definition sample_gate : ScorecardGateResult := Eval vm_compute in
  nth 0 (rs_gates sample_run) (evaluate_entry (sample_entry 0 0)).

Lemma sample_gate_in : sample_gate ∈ rs_gates sample_run.
Proof. apply list_elem_of_In. vm_compute. left. reflexivity. Qed.

Lemma merge_order_independent_witness :
  merge_shard_scorecards "h" [sample_shard 0 0 1; sample_shard 1 1 0] = Ok sample_run.
Proof.
  apply (merge_order_independent "h" sample_shards); [|exact sample_run_ok].
  apply Permutation_swap.
Defined.

Lemma merge_conserves_counts_witness :
  gr_expected_count sample_gate = 4 /\ gr_scored_count sample_gate = 2.
Proof.
  destruct (merge_conserves_counts "h" sample_shards sample_run sample_gate
    sample_run_ok sample_gate_in) as (H1 & H2 & _).
  split; [rewrite H1|rewrite H2]; vm_compute; reflexivity.
Defined.

Lemma merge_gate_coverage_witness :
  map se_id (sh_entries (sample_shard 0 0 1)) ≡ₚ map gr_id (rs_gates sample_run).
Proof.
  apply (merge_gate_coverage "h" sample_shards); [exact sample_run_ok|].
  right. left.
Defined.

Lemma run_passes_iff_witness :
  gate_satisfied sample_gate (sample_entry 1 0).
Proof.
  apply (run_passes_iff "h" sample_shards sample_run sample_run_ok).
  - vm_compute. reflexivity.
  - exact sample_gate_in.
  - left.
  - vm_compute. reflexivity.
Defined.

Lemma accumulate_adds_counters_witness :
  map se_error_count (sh_entries (ok_or_default (sample_shard 0 0 0)
    (accumulate_chunk_scorecard (sample_shard 0 0 1) (sample_shard 0 1 2)))) = [3].
Proof.
  destruct (accumulate_adds_counters (sample_shard 0 0 1) (sample_shard 0 1 2)
    (ok_or_default (sample_shard 0 0 0)
      (accumulate_chunk_scorecard (sample_shard 0 0 1) (sample_shard 0 1 2))))
    as (_ & _ & _ & _ & _ & H).
  - vm_compute. reflexivity.
  - unfold counters in H. do 3 (apply Forall_cons in H as [_ H]). apply Forall_cons in H as [H _].
    rewrite H. reflexivity.
Defined.
