(* ===== verification/CircuitBreaker.v ===== *)
(** * Circuit breakers

    Model of src/vigilo/src/circuit_breaker.rs.  A [Duration] is its number of
    nanoseconds, an [Instant] its nanoseconds on the monotonic clock; both panic
    on overflow where std does, and a panicking operation keeps the mutations
    made before the panic, because the callers recover the poisoned lock.  The
    std [DefaultHasher] promises no algorithm, so the hash of (seed, key,
    generation) is a parameter.  Permits are linear values: the step relation
    at the end tracks the ones in flight. *)

From Stdlib Require Import ZArith Lia ZifyBool SpecFloat.
From stdpp Require Import base strings gmap numbers option list.
From S2P Require Import Prelude Float64.

Open Scope Z_scope.

Definition NANOS_PER_SEC : Z := 1000000000.
Definition duration_max : Z := (u64_max + 1) * NANOS_PER_SEC - 1.
Definition instant_max : Z := (i64_max + 1) * NANOS_PER_SEC - 1.
Definition from_secs (s : Z) : Z := s * NANOS_PER_SEC.

(** [Duration::as_secs_f64]. *)
Definition as_secs_f64 (d : Z) : f64 :=
  fadd (f64_of_Z (d / NANOS_PER_SEC))
       (fdiv (f64_of_Z (d mod NANOS_PER_SEC)) (f64_of_Z NANOS_PER_SEC)).

(** Nearest integer to [n / 2 ^ k], ties to even. *)
Definition round_shift (n k : Z) : Z :=
  let q := n / 2 ^ k in
  let r := n mod 2 ^ k in
  let half := 2 ^ (k - 1) in
  if r <? half then q
  else if half <? r then q + 1
  else if Z.even q then q else q + 1.

(** [Duration::from_secs_f64]; [None] is its panic. *)
Definition from_secs_f64 (x : f64) : option Z :=
  match x with
  | S754_zero _ => Some 0
  | S754_finite false mant e =>
      if 0 <=? e then
        if Z.pos mant * 2 ^ e <? u64_max + 1
        then Some (Z.pos mant * 2 ^ e * NANOS_PER_SEC) else None
      else if Z.pos mant / 2 ^ (- e) <? u64_max + 1
        then Some (round_shift (Z.pos mant * NANOS_PER_SEC) (- e)) else None
  | _ => None
  end.

(** [Duration::mul_f64]. *)
Definition mul_f64 (d : Z) (rhs : f64) : option Z := from_secs_f64 (fmul rhs (as_secs_f64 d)).

(** [Duration::saturating_mul]. *)
Definition duration_saturating_mul (d k : Z) : Z := Z.min duration_max (d * k).

(** [Instant + Duration]; [None] is its panic. *)
Definition instant_add (now d : Z) : option Z := if now + d <=? instant_max then Some (now + d) else None.

Definition DEFAULT_JITTER_PERCENT : Z := 20.
Definition DEFAULT_FAILURE_THRESHOLD : Z := 3.
Definition DEFAULT_INITIAL_OPEN : Z := from_secs 10.
Definition DEFAULT_MAX_OPEN : Z := from_secs 120.

Record Config := mkConfig {
  cf_enabled : bool;
  cf_failure_threshold : Z;
  cf_initial_open : Z;
  cf_max_open : Z;
  cf_jitter_percent : Z
}.

Definition config_new (enabled : bool) (failure_threshold initial_open max_open : Z)
    : result Config :=
  _ ← ensure (negb (failure_threshold =? 0))
        "circuit breaker failure threshold must be greater than zero";
  _ ← ensure (negb (initial_open =? 0))
        "circuit breaker initial open duration must be greater than zero";
  _ ← ensure (negb (max_open <? initial_open))
        "circuit breaker maximum open duration must be at least the initial open duration";
  Ok (mkConfig enabled failure_threshold initial_open max_open DEFAULT_JITTER_PERCENT).

Definition without_jitter (c : Config) : Config :=
  mkConfig (cf_enabled c) (cf_failure_threshold c) (cf_initial_open c) (cf_max_open c) 0.

(** [Config::default], whose [expect] never fires. *)
Definition config_default : result Config :=
  config_new true DEFAULT_FAILURE_THRESHOLD DEFAULT_INITIAL_OPEN DEFAULT_MAX_OPEN.

Variant FailureImpact := Available | Unavailable.

Record CircuitOpen := mkCircuitOpen { retry_after : Z }.

Variant CircuitTransition :=
| Opened (retry_after : Z)
| TClosed.

Record CircuitPermit := mkCircuitPermit {
  cp_key : string;
  cp_generation : Z;
  cp_probe : bool
}.

#[global] Instance CircuitPermit_eq_dec : EqDecision CircuitPermit.
Proof. solve_decision. Defined.

Definition is_probe (p : CircuitPermit) : bool := cp_probe p.

Variant CircuitState :=
| Closed
| Open_ (retry_at : Z)
| HalfOpen (probe_until : Z).

Record CircuitEntry := mkCircuitEntry {
  ce_state : CircuitState;
  ce_generation : Z;
  ce_consecutive_failures : Z;
  ce_open_for : Z
}.

Definition entry_new (initial_open : Z) : CircuitEntry := mkCircuitEntry Closed 0 0 initial_open.

Record CircuitBreakers := mkCircuitBreakers {
  cb_config : Config;
  cb_jitter_seed : Z;
  cb_entries : gmap string CircuitEntry
}.

Definition breakers_new (config : Config) (seed : Z) : CircuitBreakers :=
  mkCircuitBreakers config seed ∅.

(** A call returns with the new state, or panics leaving the state mutated so
    far. *)
Inductive outcome (A : Type) : Type :=
| Return (b : CircuitBreakers) (a : A)
| Panic (b : CircuitBreakers).

Arguments Return {A} b a.
Arguments Panic {A} b.

Definition outcome_state {A} (o : outcome A) : CircuitBreakers :=
  match o with Return b _ => b | Panic b => b end.

Definition set_entry (b : CircuitBreakers) (key : string) (e : CircuitEntry) : CircuitBreakers :=
  mkCircuitBreakers (cb_config b) (cb_jitter_seed b) (<[key := e]> (cb_entries b)).

Definition next_generation (e : CircuitEntry) : CircuitEntry :=
  mkCircuitEntry (ce_state e) (u64_wrapping_add (ce_generation e) 1)
    (ce_consecutive_failures e) (ce_open_for e).

Definition set_state (e : CircuitEntry) (s : CircuitState) : CircuitEntry :=
  mkCircuitEntry s (ce_generation e) (ce_consecutive_failures e) (ce_open_for e).

Section breakers.
(** [DefaultHasher] fed the jitter seed, the key and the generation. *)
Variable hash_finish : Z -> string -> Z -> Z.

Definition jittered_open_for (b : CircuitBreakers) (key : string) (entry : CircuitEntry)
    : option Z :=
  if cf_jitter_percent (cb_config b) =? 0 then Some (ce_open_for entry)
  else
    let jitter_range := cf_jitter_percent (cb_config b) + 1 in
    let reduction_percent :=
      hash_finish (cb_jitter_seed b) key (ce_generation entry) mod jitter_range in
    mul_f64 (ce_open_for entry) (fdiv (f64_of_Z (100 - reduction_percent)) (f64_of_Z 100)).

(** The two arms of [acquire] that hand out a probe. *)
Definition admit_probe (b : CircuitBreakers) (key : string) (entry : CircuitEntry) (now : Z)
    : outcome (CircuitPermit + CircuitOpen) :=
  let entry := next_generation entry in
  let probe_until := probe_for ← jittered_open_for b key entry; instant_add now probe_for in
  match probe_until with
  | Some probe_until =>
      Return (set_entry b key (set_state entry (HalfOpen probe_until)))
        (inl (mkCircuitPermit key (ce_generation entry) true))
  | None => Panic (set_entry b key entry)
  end.

Definition acquire (b : CircuitBreakers) (key : string) (now : Z)
    : outcome (CircuitPermit + CircuitOpen) :=
  if negb (cf_enabled (cb_config b)) then Return b (inl (mkCircuitPermit key 0 false))
  else
    let entry := default (entry_new (cf_initial_open (cb_config b))) (cb_entries b !! key) in
    let b := set_entry b key entry in
    match ce_state entry with
    | Closed => Return b (inl (mkCircuitPermit key (ce_generation entry) false))
    | Open_ retry_at =>
        if now <? retry_at then Return b (inr (mkCircuitOpen (retry_at - now)))
        else admit_probe b key entry now
    | HalfOpen probe_until =>
        if probe_until <=? now then admit_probe b key entry now
        else Return b (inr (mkCircuitOpen (probe_until - now)))
    end.

Definition record_success (b : CircuitBreakers) (permit : CircuitPermit)
    : CircuitBreakers * option CircuitTransition :=
  if negb (cf_enabled (cb_config b)) then (b, None)
  else
    match cb_entries b !! cp_key permit with
    | None => (b, None)
    | Some entry =>
        if negb (ce_generation entry =? cp_generation permit) then (b, None)
        else
          let entry := mkCircuitEntry (ce_state entry) (ce_generation entry) 0
                         (cf_initial_open (cb_config b)) in
          if cp_probe permit
          then (set_entry b (cp_key permit) (set_state (next_generation entry) Closed),
                Some TClosed)
          else (set_entry b (cp_key permit) entry, None)
    end.

(** The shared tail of [record_failure]: a new generation opens the circuit. *)
Definition open_circuit (b : CircuitBreakers) (key : string) (entry : CircuitEntry) (now : Z)
    : outcome (option CircuitTransition) :=
  let entry := next_generation entry in
  match (open_for ← jittered_open_for b key entry;
         retry_at ← instant_add now open_for; Some (open_for, retry_at)) with
  | Some (open_for, retry_at) =>
      Return (set_entry b key (set_state entry (Open_ retry_at))) (Some (Opened open_for))
  | None => Panic (set_entry b key entry)
  end.

Definition record_failure (b : CircuitBreakers) (permit : CircuitPermit) (now : Z)
    (impact : FailureImpact) : outcome (option CircuitTransition) :=
  if negb (cf_enabled (cb_config b)) then Return b None
  else
    match impact with
    | Available => let '(b', t) := record_success b permit in Return b' t
    | Unavailable =>
        match cb_entries b !! cp_key permit with
        | None => Return b None
        | Some entry =>
            if negb (ce_generation entry =? cp_generation permit) then Return b None
            else
              match ce_state entry with
              | Closed =>
                  let entry := mkCircuitEntry (ce_state entry) (ce_generation entry)
                    (u32_saturating_add (ce_consecutive_failures entry) 1) (ce_open_for entry) in
                  if ce_consecutive_failures entry <? cf_failure_threshold (cb_config b)
                  then Return (set_entry b (cp_key permit) entry) None
                  else open_circuit b (cp_key permit) entry now
              | HalfOpen _ =>
                  let entry := mkCircuitEntry (ce_state entry) (ce_generation entry)
                    (ce_consecutive_failures entry)
                    (Z.min (duration_saturating_mul (ce_open_for entry) 2)
                       (cf_max_open (cb_config b))) in
                  open_circuit b (cp_key permit) entry now
              | Open_ _ => Return b None
              end
        end
    end.

(** ** Executions

    The breakers with the permits in flight.  A permit is returned once, or
    dropped; calls interleave in any order. *)
Record World := mkWorld { w_breakers : CircuitBreakers; w_permits : list CircuitPermit }.

Inductive step : World -> World -> Prop :=
| step_admitted b ps key now b' p :
    acquire b key now = Return b' (inl p) -> step (mkWorld b ps) (mkWorld b' (p :: ps))
| step_refused b ps key now b' e :
    acquire b key now = Return b' (inr e) -> step (mkWorld b ps) (mkWorld b' ps)
| step_acquire_panic b ps key now b' :
    acquire b key now = Panic b' -> step (mkWorld b ps) (mkWorld b' ps)
| step_success b ps1 p ps2 b' t :
    record_success b p = (b', t) -> step (mkWorld b (ps1 ++ p :: ps2)) (mkWorld b' (ps1 ++ ps2))
| step_failure b ps1 p ps2 now impact o :
    record_failure b p now impact = o ->
    step (mkWorld b (ps1 ++ p :: ps2)) (mkWorld (outcome_state o) (ps1 ++ ps2))
| step_dropped b ps1 p ps2 :
    step (mkWorld b (ps1 ++ p :: ps2)) (mkWorld b (ps1 ++ ps2)).

(** Worlds reached from fresh breakers in [n] steps. *)
Inductive reached (config : Config) (seed : Z) : Z -> World -> Prop :=
| reached_init : reached config seed 0 (mkWorld (breakers_new config seed) [])
| reached_step n w w' :
    reached config seed n w -> step w w' -> reached config seed (n + 1) w'.

(** A permit whose result the breaker would still accept. *)
Definition live (b : CircuitBreakers) (p : CircuitPermit) : bool :=
  is_some_and (fun e => ce_generation e =? cp_generation p) (cb_entries b !! cp_key p).

Definition live_for (k : string) (g : Z) (ps : list CircuitPermit) : list CircuitPermit :=
  base.filter (fun p => cp_key p = k /\ cp_generation p = g) ps.

(** The permits of the current generation that a state may have in flight. *)
Definition coherent (s : CircuitState) (lv : list CircuitPermit) : Prop :=
  match s with
  | Closed => Forall (fun p => cp_probe p = false) lv
  | Open_ _ => lv = []
  | HalfOpen _ => lv = [] \/ exists p, lv = [p] /\ cp_probe p = true
  end.

Definition entry_ok (c : Config) (n : Z) (e : CircuitEntry) : Prop :=
  0 <= ce_generation e <= n /\ cf_initial_open c <= ce_open_for e <= cf_max_open c.

Record inv (n : Z) (w : World) : Prop := mkInv {
  inv_entries : forall k e, cb_entries (w_breakers w) !! k = Some e ->
    entry_ok (cb_config (w_breakers w)) n e /\
    coherent (ce_state e) (live_for k (ce_generation e) (w_permits w));
  inv_permits : forall p, p ∈ w_permits w ->
    exists e, cb_entries (w_breakers w) !! cp_key p = Some e /\
      cp_generation p <= ce_generation e
}.

(** ** The invariant is kept *)

Lemma live_for_cons k g p ps :
  live_for k g (p :: ps) =
  if decide (cp_key p = k /\ cp_generation p = g) then p :: live_for k g ps else live_for k g ps.
Proof. unfold live_for. rewrite filter_cons. by case_decide. Qed.

Lemma live_for_removed k g ps1 p ps2 :
  sublist (live_for k g (ps1 ++ ps2)) (live_for k g (ps1 ++ p :: ps2)).
Proof.
  unfold live_for. rewrite !filter_app. apply sublist_app; [done|].
  rewrite filter_cons. case_decide; [by apply sublist_cons|done].
Qed.

Lemma live_for_nil k g ps :
  (forall p, p ∈ ps -> cp_key p = k -> cp_generation p < g) -> live_for k g ps = [].
Proof.
  intros H. induction ps as [|p ps IH]; [done|]. rewrite live_for_cons.
  rewrite decide_False; [apply IH; intros; apply H; [by right|done]|].
  intros [Hk Hg]. specialize (H p ltac:(by left) Hk). lia.
Qed.

Lemma coherent_sublist st l l' : sublist l' l -> coherent st l -> coherent st l'.
Proof.
  destruct st; simpl; intros Hs.
  - intros H. rewrite Forall_forall in H |- *. intros x Hx. apply H.
    by eapply elem_of_sublist.
  - intros ->. by apply sublist_nil_r in Hs.
  - intros [->|(p & -> & Hp)]; [left; by apply sublist_nil_r in Hs|].
    apply sublist_cons_r in Hs as [Hs|(l0 & -> & Hs)]; apply sublist_nil_r in Hs; subst; eauto.
Qed.

Lemma inv_set n b ps k e' ps' :
  inv n (mkWorld b ps) -> entry_ok (cb_config b) (n + 1) e' ->
  (forall p, p ∈ ps -> cp_key p = k -> cp_generation p <= ce_generation e') ->
  coherent (ce_state e') (live_for k (ce_generation e') ps') ->
  (forall p, p ∈ ps' -> p ∈ ps \/ cp_key p = k /\ cp_generation p = ce_generation e') ->
  (forall k' g, k' <> k -> sublist (live_for k' g ps') (live_for k' g ps)) ->
  inv (n + 1) (mkWorld (set_entry b k e') ps').
Proof.
  intros [Hent Hper] Hok Hle Hcoh Hfrom Hsub. simpl in *. split; simpl.
  - intros k0 e. destruct (decide (k = k0)) as [<-|Hne].
    + rewrite lookup_insert_eq. intros [= <-]. done.
    + rewrite lookup_insert_ne by done. intros He. destruct (Hent _ _ He) as [[??] ?]. split.
      * split; [lia|done].
      * eapply coherent_sublist; [by apply Hsub|done].
  - intros p Hp. destruct (decide (k = cp_key p)) as [->|Hne].
    + exists e'. rewrite lookup_insert_eq. split; [done|].
      destruct (Hfrom p Hp) as [?|[_ ->]]; [by apply Hle|lia].
    + rewrite lookup_insert_ne by done. destruct (Hfrom p Hp) as [?|[? _]]; [by apply Hper|done].
Qed.

Lemma inv_weaken n b ps1 p ps2 :
  inv n (mkWorld b (ps1 ++ p :: ps2)) -> inv (n + 1) (mkWorld b (ps1 ++ ps2)).
Proof.
  intros [Hent Hper]. simpl in *. split; simpl.
  - intros k e He. destruct (Hent _ _ He) as [[??] ?]. split; [split; [lia|done]|].
    eapply coherent_sublist; [apply live_for_removed|done].
  - intros q Hq. apply Hper. set_solver.
Qed.

Lemma wrapping_next g n : 0 <= g <= n -> n < u64_max -> u64_wrapping_add g 1 = g + 1.
Proof. intros. unfold u64_wrapping_add. rewrite Z.mod_small; lia. Qed.

(** The state change behind every call: an entry of the key that exists, or the
    fresh entry; the permits of the key are not newer. *)
Lemma inv_current n b ps k :
  0 <= n -> cf_initial_open (cb_config b) <= cf_max_open (cb_config b) ->
  inv n (mkWorld b ps) ->
  let e := default (entry_new (cf_initial_open (cb_config b))) (cb_entries b !! k) in
  entry_ok (cb_config b) n e /\ coherent (ce_state e) (live_for k (ce_generation e) ps) /\
  (forall p, p ∈ ps -> cp_key p = k -> cp_generation p <= ce_generation e).
Proof.
  intros Hn Hc [Hent Hper]. simpl in *.
  destruct (cb_entries b !! k) as [e|] eqn:E; simpl.
  - destruct (Hent _ _ E). split_and!; [done..|].
    intros p Hp <-. destruct (Hper p Hp) as (e' & He' & ?). congruence.
  - split_and!; [split; simpl; lia| |].
    + assert (live_for k 0 ps = []) as ->; [|constructor].
      apply live_for_nil. intros p Hp <-. destruct (Hper p Hp) as (e' & He' & ?). congruence.
    + intros p Hp <-. destruct (Hper p Hp) as (e' & He' & ?). congruence.
Qed.

Lemma set_entry_twice b k e e' : set_entry (set_entry b k e) k e' = set_entry b k e'.
Proof. unfold set_entry. simpl. by rewrite insert_insert_eq. Qed.

Lemma coherent_nil st : coherent st [].
Proof. destruct st; simpl; auto. Qed.

(** A new generation for the key: nothing in flight is current any more. *)
Lemma inv_next_generation n b ps k e e' ps' :
  0 <= n < u64_max -> inv n (mkWorld b ps) -> entry_ok (cb_config b) n e ->
  (forall p, p ∈ ps -> cp_key p = k -> cp_generation p <= ce_generation e) ->
  ce_generation e' = u64_wrapping_add (ce_generation e) 1 ->
  cf_initial_open (cb_config b) <= ce_open_for e' <= cf_max_open (cb_config b) ->
  sublist ps' ps -> (forall k' g, sublist (live_for k' g ps') (live_for k' g ps)) ->
  live_for k (ce_generation e') ps' = [] /\
  inv (n + 1) (mkWorld (set_entry b k e') ps').
Proof.
  intros Hn Hinv Hok Hle Hg Hopen Hps Hlive. destruct Hok as [Hgen _].
  rewrite (wrapping_next _ n) in Hg by lia.
  assert (Hnil : live_for k (ce_generation e') ps' = []).
  { apply live_for_nil. intros p Hp Hk. rewrite Hg.
    pose proof (elem_of_sublist _ _ _ Hp Hps). specialize (Hle p ltac:(done) Hk). lia. }
  split; [done|]. eapply inv_set; [exact Hinv| | | | |].
  - split; [lia|done].
  - intros p Hp Hk. specialize (Hle p Hp Hk). lia.
  - rewrite Hnil. apply coherent_nil.
  - intros p Hp. left. by eapply elem_of_sublist.
  - auto.
Qed.

Lemma inv_add_probe n b k e' ps :
  inv (n + 1) (mkWorld (set_entry b k e') ps) -> live_for k (ce_generation e') ps = [] ->
  forall t, ce_state e' = HalfOpen t ->
  inv (n + 1) (mkWorld (set_entry b k e') (mkCircuitPermit k (ce_generation e') true :: ps)).
Proof.
  intros [Hent Hper] Hnil t Hst. simpl in *. split; simpl.
  - intros k0 e He. destruct (Hent _ _ He) as [Hok Hcoh]. split; [done|].
    rewrite live_for_cons. simpl. case_decide as Hd; [|done]. destruct Hd as [<- Hg].
    rewrite lookup_insert_eq in He. injection He as <-. rewrite Hnil, Hst. simpl. eauto.
  - intros p [->|Hp]%elem_of_cons; [|by apply Hper].
    exists e'. simpl. rewrite lookup_insert_eq. split; [done|lia].
Qed.

Lemma acquire_inv n b ps key now :
  cf_initial_open (cb_config b) <= cf_max_open (cb_config b) -> cf_enabled (cb_config b) = true ->
  0 <= n < u64_max -> inv n (mkWorld b ps) ->
  match acquire b key now with
  | Return b' (inl p) => inv (n + 1) (mkWorld b' (p :: ps))
  | Return b' (inr _) => inv (n + 1) (mkWorld b' ps)
  | Panic b' => inv (n + 1) (mkWorld b' ps)
  end.
Proof.
  intros Hc Hen Hn Hinv. unfold acquire. rewrite Hen. simpl negb. cbn iota zeta.
  destruct (inv_current n b ps key ltac:(lia) Hc Hinv) as (Hok & Hcoh & Hle).
  set (e := default _ _) in *.
  assert (Hkeep : inv (n + 1) (mkWorld (set_entry b key e) ps)).
  { eapply inv_set; [done| |done|done|by left|done]. destruct Hok. split; [lia|done]. }
  assert (Hprobe : match admit_probe (set_entry b key e) key e now with
    | Return b' (inl p) => inv (n + 1) (mkWorld b' (p :: ps))
    | Return b' (inr _) => inv (n + 1) (mkWorld b' ps)
    | Panic b' => inv (n + 1) (mkWorld b' ps)
    end).
  { unfold admit_probe. destruct Hok as [Hg Ho].
    destruct (_ ≫= _) as [t|].
    - destruct (inv_next_generation n b ps key e
        (set_state (next_generation e) (HalfOpen t)) ps) as [Hnil Hi]; [done..|].
      rewrite set_entry_twice. by apply (inv_add_probe n b key _ ps Hi Hnil t).
    - rewrite set_entry_twice. by eapply (inv_next_generation n b ps key e). }
  destruct (ce_state e) eqn:Est.
  - destruct Hkeep as [Hent Hper]. split; simpl in *.
    + intros k0 e0 He0. destruct (Hent _ _ He0) as [? Hco]. split; [done|].
      rewrite live_for_cons. simpl. case_decide as Hd; [|done]. destruct Hd as [<- Hg].
      rewrite lookup_insert_eq in He0. injection He0 as <-. rewrite Est in Hco |- *.
      by constructor.
    + intros p [->|Hp]%elem_of_cons; [|by apply Hper]. exists e.
      simpl. rewrite lookup_insert_eq. split; [done|lia].
  - case_if; [exact Hkeep|exact Hprobe].
  - case_if; [exact Hprobe|exact Hkeep].
Qed.

(** What is left in flight when the permit [p] is handed back. *)
Lemma live_for_remaining k g ps1 p ps2 :
  cp_key p = k -> cp_generation p = g ->
  exists l1 l2, live_for k g (ps1 ++ p :: ps2) = l1 ++ p :: l2 /\
    live_for k g (ps1 ++ ps2) = l1 ++ l2.
Proof.
  intros Hk Hg. exists (live_for k g ps1), (live_for k g ps2). unfold live_for.
  rewrite !filter_app, filter_cons, decide_True by done. done.
Qed.

Lemma record_success_inv n b ps1 p ps2 :
  cf_initial_open (cb_config b) <= cf_max_open (cb_config b) ->
  0 <= n < u64_max -> inv n (mkWorld b (ps1 ++ p :: ps2)) ->
  inv (n + 1) (mkWorld (record_success b p).1 (ps1 ++ ps2)).
Proof.
  intros Hc Hn Hinv. unfold record_success.
  case_if; [by eapply inv_weaken|].
  destruct (cb_entries b !! cp_key p) as [e|] eqn:E; [|by eapply inv_weaken].
  case_if; [by eapply inv_weaken|]. inv_ok.
  destruct (inv_current n b _ (cp_key p) ltac:(lia) Hc Hinv) as (Hok & Hcoh & Hle).
  rewrite E in *. simpl in Hok, Hcoh, Hle.
  assert (Hsub : sublist (ps1 ++ ps2) (ps1 ++ p :: ps2)).
  { apply sublist_app; [done|]. by apply sublist_cons. }
  destruct (cp_probe p); simpl.
  - eapply (inv_next_generation n b _ (cp_key p) e); try done.
    intros. apply live_for_removed.
  - eapply inv_set; [exact Hinv| |exact Hle| | |].
    + destruct Hok. split; simpl; lia.
    + simpl. eapply coherent_sublist; [apply live_for_removed|exact Hcoh].
    + intros q Hq. left. by eapply elem_of_sublist.
    + intros. apply live_for_removed.
Qed.

Lemma open_circuit_inv n b ps key e e1 now ps' :
  0 <= n < u64_max -> inv n (mkWorld b ps) -> entry_ok (cb_config b) n e ->
  (forall p, p ∈ ps -> cp_key p = key -> cp_generation p <= ce_generation e) ->
  ce_generation e1 = ce_generation e ->
  cf_initial_open (cb_config b) <= ce_open_for e1 <= cf_max_open (cb_config b) ->
  sublist ps' ps -> (forall k' g, sublist (live_for k' g ps') (live_for k' g ps)) ->
  inv (n + 1) (mkWorld (outcome_state (open_circuit b key e1 now)) ps').
Proof.
  intros Hn Hinv Hok Hle Hg Ho Hs Hl. unfold open_circuit.
  assert (forall e', ce_generation e' = ce_generation (next_generation e1) ->
    ce_open_for e' = ce_open_for e1 -> inv (n + 1) (mkWorld (set_entry b key e') ps')).
  { intros e' He' Ho'. eapply (inv_next_generation n b ps key e); try done.
    - rewrite He'. simpl. by rewrite Hg.
    - by rewrite Ho'. }
  destruct (_ ≫= _) as [[t u]|]; simpl; auto.
Qed.

Lemma record_failure_inv n b ps1 p ps2 now impact :
  0 <= cf_initial_open (cb_config b) <= cf_max_open (cb_config b) ->
  cf_max_open (cb_config b) <= duration_max ->
  0 <= n < u64_max -> inv n (mkWorld b (ps1 ++ p :: ps2)) ->
  inv (n + 1) (mkWorld (outcome_state (record_failure b p now impact)) (ps1 ++ ps2)).
Proof.
  intros Hc Hmax Hn Hinv. unfold record_failure.
  case_if; [by eapply inv_weaken|]. destruct impact.
  { pose proof (record_success_inv n b ps1 p ps2 ltac:(lia) Hn Hinv) as H.
    by destruct (record_success b p). }
  destruct (cb_entries b !! cp_key p) as [e|] eqn:E; [|by eapply inv_weaken].
  case_if; [by eapply inv_weaken|]. inv_ok.
  destruct (inv_current n b _ (cp_key p) ltac:(lia) ltac:(lia) Hinv) as (Hok & Hcoh & Hle).
  rewrite E in *. simpl in Hok, Hcoh, Hle.
  assert (Hsub : sublist (ps1 ++ ps2) (ps1 ++ p :: ps2)).
  { apply sublist_app; [done|]. by apply sublist_cons. }
  pose proof (fun k g => live_for_removed k g ps1 p ps2) as Hlr.
  destruct Hok as [Hgen Ho].
  destruct (ce_state e) eqn:Est; simpl; [|by eapply inv_weaken|].
  - case_if; simpl.
    + eapply inv_set; [exact Hinv|split; simpl; lia|exact Hle| | |auto].
      * by apply (coherent_sublist Closed _ _ (Hlr _ _) Hcoh).
      * intros q Hq. left. by eapply elem_of_sublist.
    + eapply (open_circuit_inv n b _ (cp_key p) e); try done.
  - eapply (open_circuit_inv n b _ (cp_key p) e); try done. simpl.
    unfold duration_saturating_mul. lia.
Qed.

(** Every operation keeps the configuration. *)
Lemma acquire_config b key now : cb_config (outcome_state (acquire b key now)) = cb_config b.
Proof.
  unfold acquire, admit_probe. destruct (negb _); [done|].
  destruct (ce_state _); [done|..]; case_if; try done; by destruct (_ ≫= _).
Qed.

Lemma record_success_config b p : cb_config (record_success b p).1 = cb_config b.
Proof.
  unfold record_success. case_if; [done|]. destruct (_ !! _); [|done]. case_if; [done|].
  by destruct (cp_probe p).
Qed.

Lemma record_failure_config b p now impact :
  cb_config (outcome_state (record_failure b p now impact)) = cb_config b.
Proof.
  unfold record_failure, open_circuit. case_if; [done|]. destruct impact.
  { pose proof (record_success_config b p) as H. by destruct (record_success b p). }
  destruct (_ !! _); [|done]. case_if; [done|].
  destruct (ce_state c); [case_if; [done|]|done|]; by destruct (_ ≫= _) as [[??]|].
Qed.

(** An enabled configuration [Config::new] accepted, its durations in range. *)
Definition valid_config (c : Config) : Prop :=
  config_new true (cf_failure_threshold c) (cf_initial_open c) (cf_max_open c) = Ok c /\
  0 <= cf_initial_open c /\ cf_max_open c <= duration_max /\ 0 <= cf_failure_threshold c.

Lemma valid_config_facts c :
  valid_config c ->
  cf_enabled c = true /\ 0 < cf_initial_open c <= cf_max_open c /\
  cf_max_open c <= duration_max /\ 0 < cf_failure_threshold c.
Proof.
  intros (H & Ha & Hb & Hc). destruct c as [en th io mo j]. unfold config_new in H. simpl in *.
  apply bind_Ok in H as (? & H1%ensure_Ok & H). apply bind_Ok in H as (? & H2%ensure_Ok & H).
  apply bind_Ok in H as (? & H3%ensure_Ok & H). injection H as <- _. split; [done|lia].
Qed.

Lemma step_inv config n w w' :
  valid_config config ->
  0 <= n < u64_max -> cb_config (w_breakers w) = config -> inv n w -> step w w' ->
  inv (n + 1) w' /\ cb_config (w_breakers w') = config.
Proof.
  intros (Hen & Hle & Hmax & _)%valid_config_facts Hn Hcfg Hinv Hstep. subst config.
  inversion Hstep as [b ps k now b' p E|b ps k now b' e E|b ps k now b' E
    |b ps1 p ps2 b' t E|b ps1 p ps2 now imp o E|b ps1 p ps2]; subst w w'; simpl in *.
  1-3: pose proof (acquire_inv n b ps k now ltac:(lia) Hen Hn Hinv) as Hi;
    pose proof (acquire_config b k now) as Hcc; rewrite E in Hi, Hcc; done.
  - pose proof (record_success_inv n b ps1 p ps2 ltac:(lia) Hn Hinv) as Hi.
    pose proof (record_success_config b p) as Hcc. by rewrite E in Hi, Hcc.
  - rewrite <- E. split; [apply record_failure_inv; [lia|done..]|by rewrite record_failure_config].
  - split; [by eapply inv_weaken|done].
Qed.

Lemma reached_inv config seed n w :
  valid_config config -> reached config seed n w -> n <= u64_max ->
  0 <= n /\ inv n w /\ cb_config (w_breakers w) = config.
Proof.
  intros Hval Hr. induction Hr as [|n w w' Hr IH Hs]; intros Hn.
  - split_and!; [lia|split; set_solver|done].
  - destruct IH as (Hn' & Hi & Hcfg); [lia|].
    destruct (step_inv config n w w') as [? ?]; [done|lia|done|done|done|].
    split_and!; [lia|done|done].
Qed.

(** C35: a half-open circuit admits one probe.  In every world reached from
    fresh breakers in fewer than 2^64 steps, whatever calls interleave and
    whatever panics are recovered, a probe permit that the breaker still
    accepts is the only accepted permit of its key, and its circuit is
    half-open. *)
Theorem single_live_probe config seed n w :
  valid_config config -> reached config seed n w -> n <= u64_max ->
  forall p, p ∈ w_permits w -> live (w_breakers w) p = true -> is_probe p = true ->
  exists e t, cb_entries (w_breakers w) !! cp_key p = Some e /\ ce_state e = HalfOpen t /\
    live_for (cp_key p) (ce_generation e) (w_permits w) = [p].
Proof.
  intros Hval Hr Hn p Hp Hlive Hprobe.
  destruct (reached_inv config seed n w Hval Hr Hn) as (_ & [Hent _] & _).
  unfold live in Hlive. destruct (_ !! cp_key p) as [e|] eqn:E; [|done]. simpl in Hlive.
  destruct (Hent _ _ E) as [_ Hcoh].
  assert (Hin : p ∈ live_for (cp_key p) (ce_generation e) (w_permits w)).
  { unfold live_for. apply list_elem_of_filter. split; [split; [done|lia]|done]. }
  unfold is_probe in Hprobe. destruct (ce_state e) as [| |t] eqn:Est; simpl in Hcoh.
  - rewrite Forall_forall in Hcoh. specialize (Hcoh p Hin). congruence.
  - rewrite Hcoh in Hin. set_solver.
  - destruct Hcoh as [Hnil|(q & Hq & _)]; [rewrite Hnil in Hin; set_solver|].
    exists e, t. rewrite Hq in Hin |- *. apply list_elem_of_singleton in Hin as ->. done.
Qed.

Lemma acquire_never_closes b key now k e :
  cb_entries b !! k = Some e -> ce_state e <> Closed ->
  forall e', cb_entries (outcome_state (acquire b key now)) !! k = Some e' -> ce_state e' <> Closed.
Proof.
  intros He Hst e'. unfold acquire, admit_probe.
  destruct (negb _); [simpl; congruence|]. destruct (decide (key = k)) as [<-|Hne].
  - rewrite He. simpl. destruct (ce_state e) eqn:Est; [done|..]; case_if; simpl;
      try (destruct (_ ≫= _)); simpl; rewrite ?insert_insert_eq, lookup_insert_eq;
      intros [= <-]; simpl; congruence.
  - destruct (ce_state (default _ _)); [|case_if..]; simpl; try (destruct (_ ≫= _)); simpl;
      rewrite ?insert_insert_eq, lookup_insert_ne by done; congruence.
Qed.

Lemma record_success_closes b p k e e' :
  cb_entries b !! k = Some e -> ce_state e <> Closed ->
  cb_entries (record_success b p).1 !! k = Some e' -> ce_state e' = Closed ->
  cp_key p = k /\ cp_probe p = true /\ live b p = true.
Proof.
  intros He Hst. unfold record_success, live. case_if; [simpl; congruence|].
  destruct (decide (cp_key p = k)) as [<-|Hne].
  - rewrite He. simpl. case_if; [simpl; congruence|]. inv_ok.
    destruct (cp_probe p); [done|]. simpl. rewrite lookup_insert_eq. intros [= <-]. done.
  - destruct (_ !! cp_key p); [|simpl; congruence]. case_if; [simpl; congruence|].
    destruct (cp_probe p); simpl; rewrite lookup_insert_ne by done; congruence.
Qed.

Lemma record_failure_closes b p now impact k e e' :
  cb_entries b !! k = Some e -> ce_state e <> Closed ->
  cb_entries (outcome_state (record_failure b p now impact)) !! k = Some e' ->
  ce_state e' = Closed -> cp_key p = k /\ cp_probe p = true /\ live b p = true.
Proof.
  intros He Hst. unfold record_failure. case_if; [simpl; congruence|]. destruct impact.
  { pose proof (record_success_closes b p k e e' He Hst) as H. by destruct (record_success b p). }
  destruct (decide (cp_key p = k)) as [<-|Hne].
  - rewrite He. case_if; [simpl; congruence|].
    destruct (ce_state e) eqn:Est; [done|simpl; congruence|].
    unfold open_circuit. destruct (_ ≫= _) as [[??]|]; simpl; rewrite lookup_insert_eq;
      intros [= <-]; simpl; congruence.
  - destruct (_ !! cp_key p) as [e1|]; [|simpl; congruence]. case_if; [simpl; congruence|].
    unfold open_circuit.
    destruct (ce_state e1); [case_if|simpl; congruence|]; [| destruct (_ ≫= _) as [[??]|]..];
      simpl; rewrite lookup_insert_ne by done; congruence.
Qed.

(** A circuit that is not closed becomes closed only when the one accepted
    probe permit of its key is handed back: never from the open state, never by
    an ordinary or outdated permit, and never by an acquisition. *)
Theorem only_live_probe_closes config seed n w w' k e e' :
  valid_config config -> reached config seed n w -> n <= u64_max -> step w w' ->
  cb_entries (w_breakers w) !! k = Some e -> ce_state e <> Closed ->
  cb_entries (w_breakers w') !! k = Some e' -> ce_state e' = Closed ->
  exists p t, ce_state e = HalfOpen t /\ cp_key p = k /\ cp_probe p = true /\
    live_for k (ce_generation e) (w_permits w) = [p].
Proof.
  intros Hval Hr Hn Hstep He Hst He' Hcl.
  assert (Hp : exists p, p ∈ w_permits w /\ cp_key p = k /\ cp_probe p = true /\
                 live (w_breakers w) p = true).
  { inversion Hstep as [b ps key now b' p E|b ps key now b' e0 E|b ps key now b' E
      |b ps1 p ps2 b' t E|b ps1 p ps2 now imp o E|b ps1 p ps2]; subst w w'; simpl in *.
    1-3: exfalso; apply (acquire_never_closes b key now k e He Hst e'); [by rewrite E|done].
    - exists p. split; [set_solver|].
      apply (record_success_closes b p k e e'); [done|done|by rewrite E|done].
    - exists p. split; [set_solver|].
      apply (record_failure_closes b p now imp k e e'); [done|done|by rewrite E|done].
    - congruence. }
  destruct Hp as (p & Hin & <- & Hprobe & Hlive).
  destruct (reached_inv config seed n w Hval Hr Hn) as (_ & [Hent _] & _).
  destruct (Hent _ _ He) as [_ Hcoh]. unfold live in Hlive. rewrite He in Hlive. simpl in Hlive.
  assert (Hf : p ∈ live_for (cp_key p) (ce_generation e) (w_permits w)).
  { unfold live_for. apply list_elem_of_filter. split; [split; [done|lia]|done]. }
  destruct (ce_state e) as [| |t]; simpl in Hcoh; [done|rewrite Hcoh in Hf; set_solver|].
  destruct Hcoh as [Hnil|(q & Hq & _)]; [rewrite Hnil in Hf; set_solver|].
  exists p, t. rewrite Hq in Hf |- *. apply list_elem_of_singleton in Hf as ->. done.
Qed.

(** ** Consecutive failures *)

(** [m] calls in a row, each admitted and each failing for availability. *)
Fixpoint failing_calls (m : nat) (b : CircuitBreakers) (key : string) (now : Z)
    : outcome (list (option CircuitTransition)) :=
  match m with
  | O => Return b []
  | S m' =>
      match failing_calls m' b key now with
      | Panic b1 => Panic b1
      | Return b1 ts =>
          match acquire b1 key now with
          | Panic b2 => Panic b2
          | Return b2 (inr _) => Return b2 ts
          | Return b2 (inl p) =>
              match record_failure b2 p now Unavailable with
              | Panic b3 => Panic b3
              | Return b3 t => Return b3 (ts ++ [t])
              end
          end
      end
  end.

Definition current (b : CircuitBreakers) (key : string) : CircuitEntry :=
  default (entry_new (cf_initial_open (cb_config b))) (cb_entries b !! key).

Lemma acquire_closed b key now :
  cf_enabled (cb_config b) = true -> ce_state (current b key) = Closed ->
  acquire b key now = Return (set_entry b key (current b key))
    (inl (mkCircuitPermit key (ce_generation (current b key)) false)).
Proof. unfold acquire, current. intros -> ->. done. Qed.

Lemma failing_calls_closed m b key now g o :
  valid_config (cb_config b) -> cf_failure_threshold (cb_config b) <= u32_max ->
  current b key = mkCircuitEntry Closed g 0 o ->
  Z.of_nat m < cf_failure_threshold (cb_config b) ->
  exists b', failing_calls m b key now = Return b' (repeat None m) /\
    cb_config b' = cb_config b /\ cb_jitter_seed b' = cb_jitter_seed b /\
    current b' key = mkCircuitEntry Closed g (Z.of_nat m) o.
Proof.
  intros Hval Hu Hcur. destruct (valid_config_facts _ Hval) as (Hen & _).
  induction m as [|m IH]; intros Hm; [exists b; done|].
  destruct IH as (b1 & H1 & Hc & Hs & Hcur1); [lia|]. cbn [failing_calls].
  rewrite H1, acquire_closed by (rewrite ?Hc, ?Hcur1; done). rewrite Hcur1.
  unfold record_failure. cbn [set_entry cb_config cb_entries cp_key cp_generation ce_generation].
  rewrite Hc, Hen, lookup_insert_eq. cbn [negb ce_generation ce_state ce_consecutive_failures].
  rewrite Z.eqb_refl. cbn [negb]. unfold u32_saturating_add. rewrite Z.min_r by lia.
  rewrite (proj2 (Z.ltb_lt _ _)) by lia. eexists. split.
  { f_equal. by rewrite <- repeat_cons. }
  split_and!; [done|done|]. unfold current. simpl. rewrite lookup_insert_eq. simpl. f_equal. lia.
Qed.

(** a closed circuit without recorded failures stays closed through fewer
    than [failure_threshold] consecutive availability failures, and the
    threshold-th opens it; from then on every acquisition before the retry
    instant is refused with the exact remaining time. *)
Theorem threshold_opens m b key now g o d :
  valid_config (cb_config b) -> cf_failure_threshold (cb_config b) <= u32_max ->
  current b key = mkCircuitEntry Closed g 0 o ->
  Z.of_nat m < cf_failure_threshold (cb_config b) ->
  jittered_open_for b key (next_generation (mkCircuitEntry Closed g 0 o)) = Some d ->
  now + d <= instant_max ->
  (exists b', failing_calls m b key now = Return b' (repeat None m) /\
     ce_state (current b' key) = Closed) /\
  (Z.of_nat (S m) = cf_failure_threshold (cb_config b) ->
   exists b', failing_calls (S m) b key now = Return b' (repeat None m ++ [Some (Opened d)]) /\
     forall now', now' < now + d ->
       acquire b' key now' = Return b' (inr (mkCircuitOpen (now + d - now')))).
Proof.
  intros Hval Hu Hcur Hm Hj Hd.
  destruct (failing_calls_closed m b key now g o Hval Hu Hcur Hm) as (b1 & H1 & Hc & Hs & Hcur1).
  destruct (valid_config_facts _ Hval) as (Hen & _).
  split; [exists b1; by rewrite Hcur1|]. intros Heq. cbn [failing_calls].
  rewrite H1, acquire_closed by (rewrite ?Hc, ?Hcur1; done). rewrite Hcur1.
  unfold record_failure. cbn [set_entry cb_config cb_entries cp_key cp_generation ce_generation].
  rewrite Hc, Hen, lookup_insert_eq. cbn [negb ce_generation ce_state ce_consecutive_failures].
  rewrite Z.eqb_refl. cbn [negb]. unfold u32_saturating_add. rewrite Z.min_r by lia.
  rewrite (proj2 (Z.ltb_ge _ _)) by lia. unfold open_circuit.
  match goal with |- context [jittered_open_for ?x key ?y] =>
    assert (jittered_open_for x key y = Some d) as -> end.
  { rewrite <- Hj. unfold jittered_open_for. simpl. by rewrite Hc, Hs. }
  simpl. unfold instant_add. rewrite (proj2 (Z.leb_le _ _)) by lia.
  eexists. split; [done|]. intros now' Hnow. unfold acquire. cbn [set_entry cb_config cb_entries].
  rewrite Hc, Hen, lookup_insert_eq. simpl. rewrite (proj2 (Z.ltb_lt _ _)) by lia.
  f_equal. unfold set_entry. simpl. by rewrite !insert_insert_eq.
Qed.

(** ** The default configuration *)

Definition entries_open_for (P : Z -> Prop) (b : CircuitBreakers) : Prop :=
  map_Forall (fun _ e => P (ce_open_for e)) (cb_entries b).

Section open_for.
Variable P : Z -> Prop.
Variable c : Config.
Hypothesis P_initial : P (cf_initial_open c).
Hypothesis P_double : forall d, P d -> P (Z.min (duration_saturating_mul d 2) (cf_max_open c)).

Lemma entries_open_for_set b k e :
  entries_open_for P b -> P (ce_open_for e) -> entries_open_for P (set_entry b k e).
Proof. intros Hb He. by apply map_Forall_insert_2. Qed.

Lemma current_open_for b key :
  cb_config b = c -> entries_open_for P b -> P (ce_open_for (current b key)).
Proof.
  intros Hc Hb. unfold current. destruct (_ !! key) as [e|] eqn:E; simpl; [by eapply Hb|].
  by rewrite Hc.
Qed.

Lemma acquire_open_for b key now :
  cb_config b = c -> entries_open_for P b ->
  entries_open_for P (outcome_state (acquire b key now)).
Proof.
  intros Hc Hb. unfold acquire, admit_probe. fold (current b key).
  pose proof (current_open_for b key Hc Hb) as He. destruct (negb _); [done|].
  destruct (ce_state (current b key)); [|case_if..]; simpl; try destruct (_ ≫= _); simpl;
    repeat (apply entries_open_for_set; [|done]); done.
Qed.

Lemma record_success_open_for b p :
  cb_config b = c -> entries_open_for P b -> entries_open_for P (record_success b p).1.
Proof.
  intros Hc Hb. unfold record_success. case_if; [done|]. destruct (_ !! _) as [e|]; [|done].
  case_if; [done|]. destruct (cp_probe p); simpl; apply entries_open_for_set; simpl;
    rewrite ?Hc; done.
Qed.

Lemma record_failure_open_for b p now impact :
  cb_config b = c -> entries_open_for P b ->
  entries_open_for P (outcome_state (record_failure b p now impact)).
Proof.
  intros Hc Hb. unfold record_failure. case_if; [done|]. destruct impact.
  { pose proof (record_success_open_for b p Hc Hb) as H. by destruct (record_success b p). }
  destruct (_ !! _) as [e|] eqn:E; [|done]. assert (He : P (ce_open_for e)) by (by eapply Hb).
  case_if; [done|]. unfold open_circuit.
  destruct (ce_state e); [case_if|done|]; simpl; [by apply entries_open_for_set|..];
    destruct (_ ≫= _) as [[??]|]; simpl; apply entries_open_for_set; simpl; rewrite ?Hc; auto.
Qed.

Lemma reached_open_for seed n w :
  reached c seed n w -> cb_config (w_breakers w) = c /\ entries_open_for P (w_breakers w).
Proof.
  induction 1 as [|n w w' Hr [Hc Hb] Hstep]; [done|].
  inversion Hstep as [b ps k now b' p E|b ps k now b' e E|b ps k now b' E
    |b ps1 p ps2 b' t E|b ps1 p ps2 now imp o E|b ps1 p ps2]; subst w w'; simpl in *; [..|done].
  1-3: pose proof (acquire_open_for b k now Hc Hb); pose proof (acquire_config b k now);
    rewrite E in *; simpl in *; split; [congruence|done].
  - pose proof (record_success_open_for b p Hc Hb). pose proof (record_success_config b p).
    rewrite E in *. simpl in *. split; [congruence|done].
  - subst o. split; [rewrite record_failure_config; done|by apply record_failure_open_for].
Qed.
End open_for.
End breakers.

Definition default_config : Config :=
  mkConfig true DEFAULT_FAILURE_THRESHOLD DEFAULT_INITIAL_OPEN DEFAULT_MAX_OPEN
    DEFAULT_JITTER_PERCENT.

Lemma config_default_Ok : config_default = Ok default_config.
Proof. reflexivity. Qed.

Lemma default_valid : valid_config default_config.
Proof. split_and!; vm_compute; congruence. Qed.

(** The open periods the default configuration can reach. *)
Definition default_periods : list Z := map from_secs [10; 20; 40; 80; 120].

Definition jitter_ok (d r : Z) : bool :=
  is_some_and (fun x => (80 * d <=? 100 * x) && (x <=? d))
    (mul_f64 d (fdiv (f64_of_Z (100 - r)) (f64_of_Z 100))).

Lemma default_jitter_table :
  forallb (fun d => forallb (fun r => jitter_ok d (Z.of_nat r)) (seq 0 21)) default_periods = true.
Proof. vm_compute. reflexivity. Qed.

Lemma default_jitter d r :
  d ∈ default_periods -> 0 <= r < 21 ->
  exists x, mul_f64 d (fdiv (f64_of_Z (100 - r)) (f64_of_Z 100)) = Some x /\
    80 * d <= 100 * x /\ x <= d.
Proof.
  intros Hd Hr. pose proof default_jitter_table as T.
  rewrite forallb_Forall_iff, Forall_forall in T. specialize (T d Hd). cbv beta in T.
  rewrite forallb_Forall_iff, Forall_forall in T.
  specialize (T (Z.to_nat r)). rewrite Z2Nat.id in T by lia.
  assert (Hin : Z.to_nat r ∈ seq 0 21) by (apply elem_of_seq; lia). specialize (T Hin).
  unfold jitter_ok in T. destruct (mul_f64 _ _) as [x|]; [|discriminate T].
  cbn [is_some_and] in T. exists x. split; [reflexivity|lia].
Qed.

Lemma default_periods_double d :
  d ∈ default_periods ->
  Z.min (duration_saturating_mul d 2) (cf_max_open default_config) ∈ default_periods.
Proof.
  intros Hd. unfold default_periods in *. apply list_elem_of_In in Hd. apply list_elem_of_In.
  repeat destruct Hd as [<-|Hd]; [..|destruct Hd]; vm_compute; tauto.
Qed.

Lemma default_periods_bounds d : d ∈ default_periods -> from_secs 10 <= d <= from_secs 120.
Proof.
  intros Hd. apply list_elem_of_In in Hd.
  repeat destruct Hd as [<-|Hd]; [..|destruct Hd]; vm_compute; split; congruence.
Qed.

Lemma record_success_transition b p :
  (record_success b p).2 = None \/ (record_success b p).2 = Some TClosed.
Proof.
  unfold record_success. case_if; [auto|]. destruct (_ !! _); [|auto]. case_if; [auto|].
  destruct (cp_probe p); auto.
Qed.

Section default.
Variable hash_finish : Z -> string -> Z -> Z.

Lemma default_jittered b key e :
  cb_config b = default_config -> ce_open_for e ∈ default_periods ->
  exists x, jittered_open_for hash_finish b key e = Some x /\ from_secs 8 <= x <= from_secs 120.
Proof.
  intros Hc He. unfold jittered_open_for. rewrite Hc.
  set (r := hash_finish _ _ _).
  destruct (default_jitter _ (r mod 21) He) as (x & Hx & Hlo & Hhi);
    [apply Z.mod_pos_bound; lia|].
  exists x. split; [exact Hx|]. apply default_periods_bounds in He.
  unfold from_secs, NANOS_PER_SEC in *. lia.
Qed.

Lemma default_admit_probe b key e now :
  cb_config b = default_config -> ce_open_for e ∈ default_periods ->
  now + DEFAULT_MAX_OPEN <= instant_max ->
  exists b' r, admit_probe hash_finish b key e now = Return b' r.
Proof.
  intros Hc He Hnow. unfold admit_probe.
  destruct (default_jittered b key (next_generation e) Hc He) as (x & -> & Hx).
  cbn [mbind option_bind]. unfold instant_add. rewrite (proj2 (Z.leb_le _ _)); [eauto|].
  unfold DEFAULT_MAX_OPEN in *. lia.
Qed.

Lemma default_open_circuit b key e now :
  cb_config b = default_config -> ce_open_for e ∈ default_periods ->
  now + DEFAULT_MAX_OPEN <= instant_max ->
  exists b' d, open_circuit hash_finish b key e now = Return b' (Some (Opened d)) /\
    from_secs 8 <= d <= from_secs 120.
Proof.
  intros Hc He Hnow. unfold open_circuit.
  destruct (default_jittered b key (next_generation e) Hc He) as (x & -> & Hx).
  cbn [mbind option_bind]. unfold instant_add. rewrite (proj2 (Z.leb_le _ _)); [eauto|].
  unfold DEFAULT_MAX_OPEN in *. lia.
Qed.

(** with the default configuration no call ever panics on duration or clock
    arithmetic, until the clock is within two minutes of its limit, and a
    circuit opens for between 8 and 120 seconds whatever the hash and however
    often probes failed. *)
Theorem default_breaker_total seed n w now :
  reached hash_finish default_config seed n w -> now + DEFAULT_MAX_OPEN <= instant_max ->
  (forall key, exists b' r, acquire hash_finish (w_breakers w) key now = Return b' r) /\
  (forall p impact, exists b' t,
     record_failure hash_finish (w_breakers w) p now impact = Return b' t /\
     forall d, t = Some (Opened d) -> from_secs 8 <= d <= from_secs 120).
Proof.
  intros Hr Hnow.
  destruct (reached_open_for hash_finish (fun d => d ∈ default_periods) default_config)
    with seed n w as [Hc Hb]; [left|apply default_periods_double|exact Hr|].
  set (b := w_breakers w) in *. split.
  - intros key. unfold acquire. rewrite Hc. cbn [cf_enabled default_config negb].
    fold (current b key) in *. rewrite <- Hc. fold (current b key).
    assert (He : ce_open_for (current b key) ∈ default_periods).
    { apply (current_open_for (fun d => d ∈ default_periods) default_config); [left|done|done]. }
    destruct (ce_state (current b key)); [eauto|case_if; [eauto|]|case_if; [|eauto]];
      by apply default_admit_probe.
  - intros p impact. unfold record_failure. rewrite Hc. cbn [cf_enabled default_config negb].
    destruct impact.
    { destruct (record_success b p) as [b' t] eqn:E. exists b', t. split; [done|].
      intros d ->. pose proof (record_success_transition b p) as H. rewrite E in H.
      by destruct H. }
    destruct (_ !! _) as [e|] eqn:E; [|by eexists _, None].
    assert (He : ce_open_for e ∈ default_periods) by (by apply (Hb _ _ E)).
    case_if; [by eexists _, None|].
    destruct (ce_state e); [case_if; [by eexists _, None|]|by eexists _, None|];
    match goal with |- context [open_circuit hash_finish b ?k ?e' now] =>
      destruct (default_open_circuit b k e' now Hc) as (b' & d & -> & Hd);
        [|done|exists b', (Some (Opened d)); split; [done|by intros ? [= <-]]] end.
    + exact He.
    + by apply default_periods_double.
Qed.
End default.

(** ** A concrete execution: three failures, a probe, its success *)

Definition zero_hash : Z -> string -> Z -> Z := fun _ _ _ => 0.

Definition returned {A} (d : A) (o : outcome A) : CircuitBreakers * A :=
  match o with Return b a => (b, a) | Panic b => (b, d) end.

Definition fresh : CircuitBreakers := breakers_new default_config 7.
Definition no_permit : CircuitPermit := mkCircuitPermit "" 0 false.

(** Acquires for "r" at [now] and fails or succeeds with the permit. *)
Definition acquired (b : CircuitBreakers) (now : Z) : CircuitBreakers * CircuitPermit :=
  let '(b', r) := returned (inl no_permit) (acquire zero_hash b "r" now) in
  (b', match r with inl p => p | inr _ => no_permit end).

Definition failed_call (b : CircuitBreakers) (now : Z) : CircuitBreakers :=
  let '(b', p) := acquired b now in outcome_state (record_failure zero_hash b' p now Unavailable).

Definition b3 : CircuitBreakers := failed_call (failed_call (failed_call fresh 0) 0) 0.
Definition probing : CircuitBreakers * CircuitPermit := acquired b3 (from_secs 10).

Lemma failed_call_reached b n :
  reached zero_hash default_config 7 n (mkWorld b []) ->
  (exists p, acquire zero_hash b "r" 0 = Return (acquired b 0).1 (inl p) /\ (acquired b 0).2 = p) ->
  reached zero_hash default_config 7 (n + 1 + 1) (mkWorld (failed_call b 0) []).
Proof.
  intros Hr (p & Ha & Hp). eapply reached_step.
  - eapply reached_step; [exact Hr|]. eapply step_admitted. exact Ha.
  - unfold failed_call. rewrite (surjective_pairing (acquired b 0)), Hp.
    by apply (step_failure zero_hash _ [] p [] 0 Unavailable).
Qed.

Lemma probing_reached :
  reached zero_hash default_config 7 7 (mkWorld probing.1 [probing.2]).
Proof.
  apply (reached_step zero_hash default_config 7 6 (mkWorld b3 [])).
  - apply (failed_call_reached _ 4); [apply (failed_call_reached _ 2);
      [apply (failed_call_reached _ 0); [constructor|]|]|];
      (eexists; split; vm_compute; reflexivity).
  - eapply (step_admitted zero_hash _ _ "r" (from_secs 10)). vm_compute. reflexivity.
Qed.

Lemma single_live_probe_witness :
  exists e t, cb_entries probing.1 !! "r" = Some e /\ ce_state e = HalfOpen t /\
    live_for "r" (ce_generation e) [probing.2] = [probing.2].
Proof.
  apply (single_live_probe zero_hash default_config 7 7 (mkWorld probing.1 [probing.2])
    default_valid probing_reached) with (p := probing.2).
  - vm_compute. congruence.
  - left.
  - vm_compute. reflexivity.
  - vm_compute. reflexivity.
Defined.

Definition probing_entry : CircuitEntry := current probing.1 "r".
Definition recovered : CircuitBreakers := (record_success probing.1 probing.2).1.

Lemma only_live_probe_closes_witness :
  exists p t, ce_state probing_entry = HalfOpen t /\ cp_key p = "r" /\ cp_probe p = true /\
    live_for "r" (ce_generation probing_entry) [probing.2] = [p].
Proof.
  apply (only_live_probe_closes zero_hash default_config 7 7 (mkWorld probing.1 [probing.2])
    (mkWorld recovered []) "r" probing_entry (current recovered "r")).
  - apply default_valid.
  - apply probing_reached.
  - vm_compute. congruence.
  - apply (step_success zero_hash probing.1 [] probing.2 [] recovered
      (record_success probing.1 probing.2).2). apply surjective_pairing.
  - vm_compute. reflexivity.
  - vm_compute. discriminate.
  - vm_compute. reflexivity.
  - vm_compute. reflexivity.
Defined.

Lemma threshold_opens_witness :
  (exists b', failing_calls zero_hash 2 fresh "r" 0 = Return b' [None; None] /\
     ce_state (current b' "r") = Closed) /\
  (exists b', failing_calls zero_hash 3 fresh "r" 0 =
     Return b' [None; None; Some (Opened (from_secs 10))]).
Proof.
  destruct (threshold_opens zero_hash 2 fresh "r" 0 0 (from_secs 10) (from_secs 10)) as [H1 H2].
  - apply default_valid.
  - vm_compute. congruence.
  - vm_compute. reflexivity.
  - vm_compute. reflexivity.
  - vm_compute. reflexivity.
  - vm_compute. congruence.
  - split; [exact H1|]. destruct (H2 eq_refl) as (b' & Hb & _). exists b'. exact Hb.
Defined.

Lemma default_breaker_total_witness :
  exists b' r, acquire zero_hash probing.1 "r" (from_secs 20) = Return b' r.
Proof.
  apply (default_breaker_total zero_hash 7 7 (mkWorld probing.1 [probing.2]) (from_secs 20)).
  - exact probing_reached.
  - vm_compute. congruence.
Defined.
