(* ===== verification/StorageFormats.v ===== *)
(** * Stored-object formats

    Model of src/vigilo/src/contracts/case_storage/limits.rs and formats.rs: the
    admission limits, object references, and the metadata documents of datasets
    and run plans with their local validation.  Bytes are strings of octets and a
    UUID its 128-bit number.  BLAKE3 and the serde conversions of nested
    documents are parameters; [i32] arithmetic that the guards keep in range is
    plain [Z] arithmetic, and the theorems show the range. *)

From Stdlib Require Import ZArith Lia ZifyBool Sorted Permutation.
From stdpp Require Import base strings pretty numbers sets option list.
From S2P Require Import Prelude Float64 BTree Text Json RunTypes.

Open Scope Z_scope.

(** ** limits.rs *)

Definition MIB : Z := 1048576.

Record BatchLimits := mkBatchLimits { bl_max_cases : Z; bl_max_bytes : Z }.

Definition BatchLimits_default : BatchLimits := mkBatchLimits 100 (8 * MIB).

Definition BatchLimits_validate (l : BatchLimits) : result unit :=
  _ ← ensure (in_range 1 65536 (bl_max_cases l)) "batch max_cases must be in 1..=65536";
  ensure (in_range 256 (64 * MIB) (bl_max_bytes l)) "batch max_bytes must be in 256..=67108864".

Record FormatLimits := mkFormatLimits {
  fl_batch : BatchLimits;
  fl_page_bytes : Z;
  fl_page_entries : Z;
  fl_root_bytes : Z;
  fl_source_bytes : Z;
  fl_index_height : Z;
  fl_resident_batches : Z;
  fl_resident_batch_bytes : Z;
  fl_staging_spool_bytes : Z
}.

Definition FormatLimits_default : FormatLimits :=
  mkFormatLimits BatchLimits_default MIB 256 (MIB / 4) (8 * MIB) 8 4 (32 * MIB) (256 * MIB).

Definition FormatLimits_validate (l : FormatLimits) : result unit :=
  _ ← BatchLimits_validate (fl_batch l);
  _ ← ensure (in_range 256 (8 * MIB) (fl_page_bytes l)) "page_bytes must be in 256..=8388608";
  _ ← ensure (in_range 1 4096 (fl_page_entries l)) "page_entries must be in 1..=4096";
  _ ← ensure (in_range 256 MIB (fl_root_bytes l)) "root_bytes must be in 256..=1048576";
  _ ← ensure (in_range 256 (64 * MIB) (fl_source_bytes l)) "source_bytes must be in 256..=67108864";
  _ ← ensure (in_range 1 8 (fl_index_height l)) "index_height must be in 1..=8";
  _ ← ensure (in_range 1 16 (fl_resident_batches l)) "resident_batches must be in 1..=16";
  _ ← ensure (fl_resident_batch_bytes l <=? 1024 * MIB) "resident batch budget exceeds 1 GiB";
  _ ← ensure (fl_staging_spool_bytes l <=? Z.min usize_max (4096 * MIB)) "staging spool exceeds 4 GiB";
  resident ← ok_or (usize_checked_mul (bl_max_bytes (fl_batch l)) (fl_resident_batches l))
               "resident batch reservation overflow";
  _ ← ensure (resident <=? fl_resident_batch_bytes l) "resident batches exceed encoded memory budget";
  ensure (bl_max_bytes (fl_batch l) <=? fl_staging_spool_bytes l) "batch exceeds staging spool budget".

(** ** Object references *)

Variant StorageFormat :=
| FCaseBatch | FDatasetSourceFields | FDatasetManifest | FOrdinalIndex
| FRunChunks | FRunPlanManifest | FRunConfiguration | FGateCounts.

(** The serde names of the formats. *)
Definition format_name (f : StorageFormat) : string :=
  match f with
  | FCaseBatch => "vigilo/case-batch/v1"
  | FDatasetSourceFields => "vigilo/dataset-source-fields/v1"
  | FDatasetManifest => "vigilo/dataset-manifest/v1"
  | FOrdinalIndex => "vigilo/ordinal-index/v1"
  | FRunChunks => "vigilo/run-chunks/v1"
  | FRunPlanManifest => "vigilo/run-plan-manifest/v1"
  | FRunConfiguration => "vigilo/run-configuration/v1"
  | FGateCounts => "vigilo/gate-counts/v1"
  end.

#[global] Instance StorageFormat_eq_dec : EqDecision StorageFormat.
Proof. solve_decision. Defined.

Definition byte_limit (s : StorageFormat) (limits : FormatLimits) : Z :=
  match s with
  | FCaseBatch => bl_max_bytes (fl_batch limits)
  | FDatasetSourceFields | FRunConfiguration => fl_source_bytes limits
  | FDatasetManifest | FRunPlanManifest => fl_root_bytes limits
  | FOrdinalIndex | FRunChunks | FGateCounts => fl_page_bytes limits
  end.

Variant HashScheme := Blake3.
Variant IdentityScheme := DatasetJson.

#[global] Instance HashScheme_eq_dec : EqDecision HashScheme.
Proof. solve_decision. Defined.

Definition is_lower_hex (c : Z) : bool := is_ascii_digit c || between 97 102 c.

Definition validate_digest (digest : string) : result unit :=
  ensure ((str_len digest =? 64) && forallb is_lower_hex (codes digest))
    "digest must contain 64 lowercase hexadecimal characters".

Record ObjectRef := mkObjectRef {
  or_storage_alias : string;
  or_key : string;
  or_schema : StorageFormat;
  or_hash_scheme : HashScheme;
  or_digest : string;
  or_byte_count : Z;
  or_revision : option string
}.

#[global] Instance ObjectRef_eq_dec : EqDecision ObjectRef.
Proof. solve_decision. Defined.

Definition objref_eqb (a b : ObjectRef) : bool := bool_decide (a = b).

(** [-] and [_] next to the alphanumerics. *)
Definition is_alias_char (c : Z) : bool := is_ascii_alphanumeric c || (c =? 95) || (c =? 45).

(** [:], [?], [#] and the backslash. *)
Definition is_forbidden_key_char (c : Z) : bool := (c =? 58) || (c =? 63) || (c =? 35) || (c =? 92).

Definition is_dot_segment (p : list Z) : bool :=
  bool_decide (p = []) || bool_decide (p = [46]) || bool_decide (p = [46; 46]).

Definition starts_with_slash (l : list Z) : bool :=
  match l with c :: _ => c =? 47 | [] => false end.

Definition valid_storage_alias (s : string) : bool :=
  negb (str_is_empty s) && (str_len s <=? 128) && forallb is_alias_char (codes s).

Definition valid_object_key (s : string) : bool :=
  negb (str_is_empty s) && (str_len s <=? 1024) && negb (starts_with_slash (codes s))
  && negb (existsb is_forbidden_key_char (codes s)) && negb (any_control (codes s))
  && forallb (fun p => negb (is_dot_segment p)) (split_on 47 [] (codes s)).

Definition ObjectRef_validate (r : ObjectRef) (limits : FormatLimits) : result unit :=
  _ ← ensure (valid_storage_alias (or_storage_alias r)) "invalid storage alias";
  _ ← ensure (valid_object_key (or_key r)) "invalid logical object key";
  _ ← validate_digest (or_digest r);
  _ ← ensure ((0 <? or_byte_count r) && (or_byte_count r <=? byte_limit (or_schema r) limits))
        "object byte_count exceeds schema limit or is zero";
  match or_revision r with
  | Some revision =>
      ensure (negb (str_is_empty revision) && (str_len revision <=? 1024)
              && negb (any_control (codes revision))) "invalid object revision"
  | None => Ok tt
  end.

Definition ObjectRef_require (r : ObjectRef) (schema : StorageFormat) (limits : FormatLimits)
    : result unit :=
  _ ← ObjectRef_validate r limits;
  ensure (bool_decide (or_schema r = schema)) "reference schema mismatch".

(** A byte-integrity proof: only [ObjectRef_verify] builds it. *)
Record VerifiedObject := mkVerifiedObject { vo_reference : ObjectRef; vo_bytes : string }.

Section blake3.
(** [blake3::hash(bytes).to_hex()]. *)
Variable blake3_hex : string -> string.

Definition ObjectRef_verify (r : ObjectRef) (bytes : string) (limits : FormatLimits)
    : result VerifiedObject :=
  _ ← FormatLimits_validate limits;
  _ ← ObjectRef_validate r limits;
  _ ← ensure (str_len bytes =? or_byte_count r) "object byte_count mismatch";
  _ ← ensure (str_eqb (blake3_hex bytes) (or_digest r)) "object digest mismatch";
  Ok (mkVerifiedObject r bytes).

Definition ObjectRef_for_bytes (storage_alias key : string) (schema : StorageFormat)
    (bytes : string) (limits : FormatLimits) : result ObjectRef :=
  let reference := mkObjectRef storage_alias key schema Blake3 (blake3_hex bytes) (str_len bytes) None in
  _ ← FormatLimits_validate limits;
  _ ← ObjectRef_validate reference limits;
  Ok reference.
End blake3.

(** ** Documents

    The trait [StorageDocument] without its serde supertraits, which the codec
    adds. *)
Class StorageDocument (T : Type) := {
  SCHEMA : StorageFormat;
  doc_validate : T -> FormatLimits -> result unit
}.

Definition schema (actual expected : StorageFormat) : result unit :=
  ensure (bool_decide (actual = expected)) "schema mismatch".

Definition range (start end_ : Z) : result unit :=
  ensure ((0 <=? start) && (start <? end_)) "invalid nonempty half-open range".

Definition shard (value : Z) : result unit :=
  ensure ((0 <=? value) && (value <? 128)) "run_shard must be in 0..128".

Record DatasetSourceFields := mkDatasetSourceFields {
  ds_schema : StorageFormat;
  ds_cases_present : bool;
  ds_fields : Value
}.

(** [dataset_of_value] is [serde_json::from_value::<RunDataset>]. *)
Definition DatasetSourceFields_validate (dataset_of_value : Value -> result RunDataset)
    (d : DatasetSourceFields) (_ : FormatLimits) : result unit :=
  _ ← schema (ds_schema d) FDatasetSourceFields;
  _ ← ensure (json_is_object (ds_fields d) && opt_is_none (json_get "cases" (ds_fields d)))
        "source fields must be an object without cases";
  _ ← dataset_of_value (ds_fields d);
  Ok tt.

Variant IndexKind := DatasetBatches | RunChunksKind.

#[global] Instance IndexKind_eq_dec : EqDecision IndexKind.
Proof. solve_decision. Defined.

Definition leaf_schema (k : IndexKind) : StorageFormat :=
  match k with DatasetBatches => FCaseBatch | RunChunksKind => FRunChunks end.

Record IndexEntry := mkIndexEntry {
  ie_range_start : Z;
  ie_range_end : Z;
  ie_object : ObjectRef
}.

Record IndexDescriptor := mkIndexDescriptor {
  id_level : Z;
  id_range_start : Z;
  id_range_end : Z;
  id_object : ObjectRef
}.

Record IndexPage := mkIndexPage {
  ip_schema : StorageFormat;
  ip_kind : IndexKind;
  ip_level : Z;
  ip_range_start : Z;
  ip_range_end : Z;
  ip_entries : list IndexEntry
}.

(** The loop body of [IndexPage::validate]; the state is [next]. *)
Definition check_index_entry (child_schema : StorageFormat) (limits : FormatLimits)
    (next : Z) (entry : IndexEntry) : result Z :=
  _ ← range (ie_range_start entry) (ie_range_end entry);
  _ ← ensure (ie_range_start entry =? next) "index ranges have a gap or overlap";
  _ ← ObjectRef_require (ie_object entry) child_schema limits;
  Ok (ie_range_end entry).

Definition IndexPage_validate (p : IndexPage) (limits : FormatLimits) : result unit :=
  _ ← schema (ip_schema p) FOrdinalIndex;
  _ ← range (ip_range_start p) (ip_range_end p);
  _ ← ensure (ip_level p <? fl_index_height limits) "index depth exceeds limit";
  _ ← ensure (negb (bool_decide (ip_entries p = [])) && (zlen (ip_entries p) <=? fl_page_entries limits))
        "invalid index entry count";
  let child_schema := if ip_level p =? 0 then leaf_schema (ip_kind p) else FOrdinalIndex in
  next ← foldM (check_index_entry child_schema limits) (ip_range_start p) (ip_entries p);
  ensure (next =? ip_range_end p) "index entries do not cover parent range".

Definition IndexDescriptor_validate (d : IndexDescriptor) (limits : FormatLimits) : result unit :=
  _ ← range (id_range_start d) (id_range_end d);
  _ ← ensure (id_level d <? fl_index_height limits) "index depth exceeds limit";
  ObjectRef_require (id_object d) FOrdinalIndex limits.

Definition IndexDescriptor_validate_page (d : IndexDescriptor) (page : IndexPage)
    (kind : IndexKind) (limits : FormatLimits) : result unit :=
  _ ← IndexDescriptor_validate d limits;
  _ ← IndexPage_validate page limits;
  _ ← ensure ((ip_level page =? id_level d) && bool_decide (ip_kind page = kind)
              && (ip_range_start page =? id_range_start d)
              && (ip_range_end page =? id_range_end d)) "index descriptor/child mismatch";
  ensure (forallb (fun e => str_eqb (or_storage_alias (ie_object e)) (or_storage_alias (id_object d)))
            (ip_entries page)) "index child changes storage owner".

Record CaseBatchHeader := mkCaseBatchHeader {
  bh_schema : StorageFormat;
  bh_dataset_id : Z;
  bh_ordinal_start : Z;
  bh_ordinal_end : Z
}.

Record CaseRecord := mkCaseRecord {
  cr_case_ordinal : Z;
  cr_case_hash : string;
  cr_source : Value
}.

Record RunChunk := mkRunChunk {
  rc_chunk_index : Z;
  rc_chunk_id : Z;
  rc_run_shard : Z;
  rc_ordinal_start : Z;
  rc_ordinal_end : Z;
  rc_profile_group_id : string;
  rc_case_projection_hash : string
}.

Record RunChunkPage := mkRunChunkPage {
  cp_schema : StorageFormat;
  cp_run_id : Z;
  cp_chunk_index_start : Z;
  cp_chunk_index_end : Z;
  cp_chunks : list RunChunk
}.

(** The loop body of [RunChunkPage::validate]; the state is (ids, previous end). *)
Definition check_chunk (chunk_index_start : Z) (index : nat)
    (st : btree Z unit * option Z) (chunk : RunChunk) : result (btree Z unit * option Z) :=
  let '(ids, previous_end) := st in
  index ← i32_try_from (Z.of_nat index);
  _ ← ensure (rc_chunk_index chunk =? chunk_index_start + index) "nonconsecutive chunk indexes";
  _ ← range (rc_ordinal_start chunk) (rc_ordinal_end chunk);
  _ ← ensure (rc_ordinal_end chunk - rc_ordinal_start chunk <=? 100)
        "execution chunk exceeds 100 cases";
  _ ← ensure (is_none_or (fun e => e =? rc_ordinal_start chunk) previous_end)
        "chunk case ranges have a gap or overlap";
  _ ← shard (rc_run_shard chunk);
  _ ← ensure (negb (bt_mem (rc_chunk_id chunk) ids)) "duplicate chunk ID";
  _ ← ensure (negb (trim_is_empty (rc_profile_group_id chunk))
              && (str_len (rc_profile_group_id chunk) <=? 1024)) "invalid profile group ID";
  _ ← validate_digest (rc_case_projection_hash chunk);
  Ok (bt_insert (rc_chunk_id chunk) tt ids, Some (rc_ordinal_end chunk)).

Definition RunChunkPage_validate (p : RunChunkPage) (limits : FormatLimits) : result unit :=
  _ ← schema (cp_schema p) FRunChunks;
  _ ← range (cp_chunk_index_start p) (cp_chunk_index_end p);
  _ ← ensure (negb (bool_decide (cp_chunks p = [])) && (zlen (cp_chunks p) <=? fl_page_entries limits))
        "invalid chunk page count";
  len ← i32_try_from (zlen (cp_chunks p));
  _ ← ensure (cp_chunk_index_end p - cp_chunk_index_start p =? len) "invalid chunk page count";
  _ ← foldiM (check_chunk (cp_chunk_index_start p)) 0 ([], None) (cp_chunks p);
  Ok tt.

(** *** Edges of the index tree *)

Definition IndexPage_validate_batch (p : IndexPage) (entry_index : nat) (header : CaseBatchHeader)
    (dataset_id : Z) (limits : FormatLimits) : result unit :=
  _ ← IndexPage_validate p limits;
  _ ← ensure ((ip_level p =? 0) && bool_decide (ip_kind p = DatasetBatches))
        "expected dataset leaf index";
  entry ← ok_or (ip_entries p !! entry_index) "missing batch index entry";
  ensure (bool_decide (bh_schema header = FCaseBatch) && (bh_dataset_id header =? dataset_id)
          && (bh_ordinal_start header =? ie_range_start entry)
          && (bh_ordinal_end header =? ie_range_end entry)) "batch/index membership mismatch".

Definition IndexPage_validate_chunks (p : IndexPage) (entry_index : nat) (page : RunChunkPage)
    (run_id : Z) (limits : FormatLimits) : result unit :=
  _ ← IndexPage_validate p limits;
  _ ← RunChunkPage_validate page limits;
  _ ← ensure ((ip_level p =? 0) && bool_decide (ip_kind p = RunChunksKind))
        "expected run leaf index";
  entry ← ok_or (ip_entries p !! entry_index) "missing chunk index entry";
  ensure ((cp_run_id page =? run_id) && (cp_chunk_index_start page =? ie_range_start entry)
          && (cp_chunk_index_end page =? ie_range_end entry)) "chunk page/index membership mismatch".

Definition IndexPage_validate_child (p : IndexPage) (entry_index : nat) (child : IndexPage)
    (limits : FormatLimits) : result unit :=
  _ ← IndexPage_validate p limits;
  _ ← ensure (0 <? ip_level p) "leaf index cannot contain another index";
  entry ← ok_or (ip_entries p !! entry_index) "missing index entry";
  IndexDescriptor_validate_page
    (mkIndexDescriptor (ip_level p - 1) (ie_range_start entry) (ie_range_end entry) (ie_object entry))
    child (ip_kind p) limits.

(** *** Dataset manifests *)

Record DatasetManifest := mkDatasetManifest {
  dm_schema : StorageFormat;
  dm_dataset_id : Z;
  dm_dataset_version : option string;
  dm_dataset_version_id : Z;
  dm_dataset_hash : string;
  dm_identity_scheme : IdentityScheme;
  dm_case_count : Z;
  dm_batch_limits : BatchLimits;
  dm_source_fields : ObjectRef;
  dm_batches : IndexDescriptor
}.

Definition DatasetManifest_validate (m : DatasetManifest) (limits : FormatLimits) : result unit :=
  _ ← schema (dm_schema m) FDatasetManifest;
  _ ← BatchLimits_validate (dm_batch_limits m);
  _ ← ensure ((bl_max_bytes (dm_batch_limits m) <=? bl_max_bytes (fl_batch limits))
              && (bl_max_cases (dm_batch_limits m) <=? bl_max_cases (fl_batch limits)))
        "manifest batching policy exceeds reader limits";
  _ ← validate_digest (dm_dataset_hash m);
  _ ← ensure ((0 <? dm_case_count m) && (id_range_start (dm_batches m) =? 0)
              && (id_range_end (dm_batches m) =? dm_case_count m))
        "dataset index must cover every case";
  _ ← ObjectRef_require (dm_source_fields m) FDatasetSourceFields limits;
  _ ← IndexDescriptor_validate (dm_batches m) limits;
  ensure (str_eqb (or_storage_alias (dm_source_fields m)) (or_storage_alias (id_object (dm_batches m))))
    "dataset references disagree on storage owner".

(** *** Gate-count chains *)

Record GateCount := mkGateCount { gc_gate_id : string; gc_planned_count : Z }.

Record GateCountPage := mkGateCountPage {
  gp_schema : StorageFormat;
  gp_run_shard : Z;
  gp_entries : list GateCount;
  gp_next : option ObjectRef
}.

Definition check_gate_count (previous : option string) (entry : GateCount)
    : result (option string) :=
  _ ← ensure (negb (trim_is_empty (gc_gate_id entry)) && (str_len (gc_gate_id entry) <=? 1024)
              && (0 <=? gc_planned_count entry)) "invalid gate count";
  _ ← ensure (is_none_or (fun id => kltb id (gc_gate_id entry)) previous)
        "gate IDs are not strictly ordered";
  Ok (Some (gc_gate_id entry)).

Definition GateCountPage_validate (p : GateCountPage) (limits : FormatLimits) : result unit :=
  _ ← schema (gp_schema p) FGateCounts;
  _ ← shard (gp_run_shard p);
  _ ← ensure (negb (bool_decide (gp_entries p = [])) && (zlen (gp_entries p) <=? fl_page_entries limits))
        "invalid gate page entry count";
  _ ← foldM check_gate_count None (gp_entries p);
  match gp_next p with
  | Some next => ObjectRef_require next FGateCounts limits
  | None => Ok tt
  end.

Record GateCountDescriptor := mkGateCountDescriptor {
  gd_first : option ObjectRef;
  gd_page_count : Z;
  gd_entry_count : Z
}.

(** [i64::try_from(limits.page_entries)]. *)
Definition i64_try_from (n : Z) : result Z :=
  ok_or (checked i64_min i64_max n) "out of range integral type conversion attempted".

Definition GateCountDescriptor_validate (d : GateCountDescriptor) (limits : FormatLimits)
    : result unit :=
  _ ← ensure ((0 <=? gd_page_count d) && (0 <=? gd_entry_count d)) "negative gate descriptor count";
  _ ← ensure (Bool.eqb (gd_page_count d =? 0) (gd_entry_count d =? 0)
              && Bool.eqb (opt_is_none (gd_first d)) (gd_page_count d =? 0))
        "inconsistent empty gate descriptor";
  _ ← ensure (gd_page_count d <=? gd_entry_count d) "impossible gate page/entry counts";
  page_entries ← i64_try_from (fl_page_entries limits);
  _ ← ensure (gd_entry_count d <=? gd_page_count d * page_entries) "impossible gate page/entry counts";
  match gd_first d with
  | Some first => ObjectRef_require first FGateCounts limits
  | None => Ok tt
  end.

Record GateCountChainValidator := mkGateCountChainValidator {
  gv_next : option ObjectRef;
  gv_remaining_pages : Z;
  gv_remaining_entries : Z;
  gv_run_shard : Z;
  gv_case_count : Z;
  gv_last_gate : option string
}.

Definition chain_new (descriptor : GateCountDescriptor) (run_shard case_count : Z)
    (limits : FormatLimits) : result GateCountChainValidator :=
  _ ← FormatLimits_validate limits;
  _ ← GateCountDescriptor_validate descriptor limits;
  _ ← shard run_shard;
  _ ← ensure (0 <? case_count) "invalid shard case count";
  Ok (mkGateCountChainValidator (gd_first descriptor) (gd_page_count descriptor)
        (gd_entry_count descriptor) run_shard case_count None).

(** [page.entries[0].gate_id] and [page.entries.last()]: the page was validated,
    so it has entries. *)
Definition first_gate (p : GateCountPage) : string :=
  match gp_entries p with e :: _ => gc_gate_id e | [] => "" end.
Definition last_gate_of (p : GateCountPage) : option string := gc_gate_id <$> last (gp_entries p).

Definition chain_accept (v : GateCountChainValidator) (reference : ObjectRef) (page : GateCountPage)
    (limits : FormatLimits) : result GateCountChainValidator :=
  _ ← GateCountPage_validate page limits;
  _ ← ensure (bool_decide (gv_next v = Some reference) && (gp_run_shard page =? gv_run_shard v))
        "unexpected gate page or shard";
  _ ← ensure (is_none_or (fun l => kltb l (first_gate page)) (gv_last_gate v))
        "gate chain repeats or reorders IDs";
  _ ← ensure (forallb (fun e => gc_planned_count e <=? gv_case_count v) (gp_entries page))
        "gate denominator exceeds shard case count";
  pages ← ok_or (i32_checked_sub (gv_remaining_pages v) 1) "gate page count overflow";
  len ← i32_try_from (zlen (gp_entries page));
  entries ← ok_or (i32_checked_sub (gv_remaining_entries v) len) "gate entry count overflow";
  _ ← ensure ((0 <=? pages) && (0 <=? entries)
              && Bool.eqb (pages =? 0) (opt_is_none (gp_next page))
              && Bool.eqb (pages =? 0) (entries =? 0)) "gate chain count/termination mismatch";
  _ ← match gp_next page with
      | Some next =>
          ensure (str_eqb (or_storage_alias next) (or_storage_alias reference)
                  && negb (objref_eqb next reference)) "gate cycle or owner mismatch"
      | None => Ok tt
      end;
  Ok (mkGateCountChainValidator (gp_next page) pages entries (gv_run_shard v) (gv_case_count v)
        (last_gate_of page)).

Definition chain_finish (v : GateCountChainValidator) : result unit :=
  ensure (opt_is_none (gv_next v) && (gv_remaining_pages v =? 0) && (gv_remaining_entries v =? 0))
    "incomplete gate chain".

(** *** Run-plan manifests *)

Record RunPlanShard := mkRunPlanShard {
  sp_run_shard : Z;
  sp_case_count : Z;
  sp_chunk_count : Z;
  sp_planned_chunk_hash : string;
  sp_gate_counts : GateCountDescriptor
}.

Record RunPlanManifest := mkRunPlanManifest {
  pm_schema : StorageFormat;
  pm_run_id : Z;
  pm_dataset : ObjectRef;
  pm_profile_hash : string;
  pm_aggregation_policy_hash : string;
  pm_execution_plan_hash : string;
  pm_configuration : ObjectRef;
  pm_chunk_count : Z;
  pm_chunks : IndexDescriptor;
  pm_shards : list RunPlanShard
}.

(** The loop of [RunPlanManifest::validate]; the state is (previous shard, cases,
    chunks). *)
Definition check_plan_shard (configuration_alias : string) (limits : FormatLimits)
    (st : option Z * Z * Z) (item : RunPlanShard) : result (option Z * Z * Z) :=
  let '(previous, cases, chunks) := st in
  _ ← shard (sp_run_shard item);
  _ ← ensure (is_none_or (fun v => v <? sp_run_shard item) previous)
        "plan shards must be strictly ordered";
  _ ← ensure ((0 <? sp_case_count item) && (0 <? sp_chunk_count item)
              && (sp_chunk_count item <=? sp_case_count item)
              && (sp_case_count item <=? sp_chunk_count item * 100))
        "invalid shard case/chunk counts";
  _ ← validate_digest (sp_planned_chunk_hash item);
  _ ← GateCountDescriptor_validate (sp_gate_counts item) limits;
  cases ← ok_or (i32_checked_add cases (sp_case_count item)) "plan case count overflow";
  chunks ← ok_or (i32_checked_add chunks (sp_chunk_count item)) "plan chunk count overflow";
  _ ← match gd_first (sp_gate_counts item) with
      | Some first =>
          ensure (str_eqb (or_storage_alias first) configuration_alias) "gate storage owner mismatch"
      | None => Ok tt
      end;
  Ok (Some (sp_run_shard item), cases, chunks).

Definition RunPlanManifest_validate (m : RunPlanManifest) (limits : FormatLimits) : result unit :=
  _ ← schema (pm_schema m) FRunPlanManifest;
  _ ← ObjectRef_require (pm_dataset m) FDatasetManifest limits;
  _ ← ObjectRef_require (pm_configuration m) FRunConfiguration limits;
  _ ← IndexDescriptor_validate (pm_chunks m) limits;
  _ ← ensure ((0 <? pm_chunk_count m) && (id_range_start (pm_chunks m) =? 0)
              && (id_range_end (pm_chunks m) =? pm_chunk_count m))
        "run index must cover every chunk";
  _ ← foldM (fun _ digest => validate_digest digest) tt
        [pm_profile_hash m; pm_aggregation_policy_hash m; pm_execution_plan_hash m];
  _ ← ensure (negb (bool_decide (pm_shards m = [])) && (zlen (pm_shards m) <=? 128))
        "invalid plan shard count";
  totals ← foldM (check_plan_shard (or_storage_alias (pm_configuration m)) limits)
             (None, 0, 0) (pm_shards m);
  _ ← ensure (totals.2 =? pm_chunk_count m) "plan shard chunk totals disagree";
  ensure (str_eqb (or_storage_alias (pm_configuration m)) (or_storage_alias (id_object (pm_chunks m))))
    "plan storage owner mismatch".

(** *** Run configurations *)

Record RunConfiguration := mkRunConfiguration { rcf_schema : StorageFormat; rcf_snapshot : Value }.

Record LogicalDatasetRef := mkLogicalDatasetRef {
  ld_dataset_id : Z;
  ld_dataset_version : option string;
  ld_dataset_version_id : Z;
  ld_dataset_hash : string;
  ld_case_count : Z
}.

(** contracts/evaluator_abi.rs *)
Record EvaluatorAbiIdentity := mkEvaluatorAbiIdentity {
  abi_package : string;
  abi_world : string;
  abi_interface : string;
  abi_version : string;
  abi_contract_hash : string;
  abi_adapter : string
}.

Definition cache_key (i : EvaluatorAbiIdentity) (content_hash : string) : string :=
  content_hash +:+ ":" +:+ abi_contract_hash i +:+ ":" +:+ abi_adapter i.

Record ResolvedEvaluator := mkResolvedEvaluator {
  re_evaluator_ref : string;
  re_evaluator_id : Z;
  re_content_hash : string;
  re_abi : EvaluatorAbiIdentity;
  re_runtime : string;
  re_runtime_version : string;
  re_runtime_fingerprint : string
}.

Record EvaluatorExecutionPlan := mkEvaluatorExecutionPlan {
  ep_version : Z;
  ep_aggregation_policy_hash : string;
  ep_evaluators : list ResolvedEvaluator
}.

(** [sort_by] on the reference: a stable insertion sort. *)
Fixpoint insert_evaluator (e : ResolvedEvaluator) (l : list ResolvedEvaluator)
    : list ResolvedEvaluator :=
  match l with
  | [] => [e]
  | f :: l' =>
      if kltb (re_evaluator_ref f) (re_evaluator_ref e)
      then f :: insert_evaluator e l' else e :: l
  end.

Definition execution_plan_new (aggregation_policy_hash : string)
    (evaluators : list ResolvedEvaluator) : EvaluatorExecutionPlan :=
  mkEvaluatorExecutionPlan 1 aggregation_policy_hash (fold_right insert_evaluator [] evaluators).

(** [value["key"]] of serde_json: [Null] for an absent member. *)
Definition json_index (v : Value) (key : string) : Value := default Null (json_get key v).

(** [String == Value]. *)
Definition str_eq_value (s : string) (v : Value) : bool :=
  match v with Str t => str_eqb s t | _ => false end.

Definition as_u64 (v : Value) : option Z := match v with Num (PosInt n) => Some n | _ => None end.

(** [PartialEq] of serde_json's numbers and values. *)
Definition number_eqb (a b : Number) : bool :=
  match a, b with
  | PosInt x, PosInt y | NegInt x, NegInt y => x =? y
  | Float x, Float y => feq x y
  | _, _ => false
  end.

Fixpoint value_eqb (a b : Value) : bool :=
  match a, b with
  | Null, Null => true
  | Bool x, Bool y => Bool.eqb x y
  | Num x, Num y => number_eqb x y
  | Str x, Str y => str_eqb x y
  | Array xs, Array ys =>
      (fix go xs ys := match xs, ys with
        | [], [] => true
        | x :: xs', y :: ys' => value_eqb x y && go xs' ys'
        | _, _ => false
        end) xs ys
  | Object xs, Object ys =>
      (fix go xs ys := match xs, ys with
        | [], [] => true
        | (k, x) :: xs', (l, y) :: ys' => str_eqb k l && value_eqb x y && go xs' ys'
        | _, _ => false
        end) xs ys
  | _, _ => false
  end.

Definition CONFIGURATION_FIELDS : list string :=
  ["profile"; "agent"; "dataset_ref"; "dataset_version_id"; "profile_version_id"; "profile_hash";
   "dataset_hash"; "aggregation_policy_hash"; "execution_plan_hash"; "execution_plan";
   "chunk_size"; "executability"].

Definition EXECUTABILITY_COUNTS : list string :=
  ["expected_execution_count"; "expected_evaluator_execution_count";
   "unique_evaluator_ref_count"; "runnable_evaluator_ref_count"].

(** The conversions and encodings of serde_json and BLAKE3 that configuration
    validation calls. *)
Record ConfigurationCodec := mkConfigurationCodec {
  cc_dataset_ref : Value -> result LogicalDatasetRef;
  cc_uuid : Value -> result Z;
  cc_profile : Value -> result RunProfile;
  cc_agent : Value -> result AgentProfile;
  cc_agent_to_value : AgentProfile -> result Value;
  cc_plan : Value -> result EvaluatorExecutionPlan;
  cc_plan_to_vec : EvaluatorExecutionPlan -> result string;
  cc_to_vec : Value -> result string;
  cc_blake3_hex : string -> string
}.

Definition plan_hash (c : ConfigurationCodec) (plan : EvaluatorExecutionPlan) : result string :=
  bytes ← cc_plan_to_vec c plan; Ok (cc_blake3_hex c bytes).

(** identity.rs; [to_vec] and [blake3_hex] are [serde_json::to_vec] and BLAKE3. *)
Definition hash_serialized_json (to_vec : Value -> result string) (blake3_hex : string -> string)
    (value : Value) : result string :=
  bytes ← to_vec value; Ok (blake3_hex bytes).

Definition check_configuration_hash (snapshot : Value) (_ : unit) (field : string) : result unit :=
  hash ← ok_or (as_str (json_index snapshot field)) ("missing configuration hash " +:+ field);
  validate_digest hash.

Definition RunConfiguration_validate (c : ConfigurationCodec) (d : RunConfiguration)
    (_ : FormatLimits) : result unit :=
  let snapshot := rcf_snapshot d in
  _ ← schema (rcf_schema d) FRunConfiguration;
  fields ← ok_or (as_object snapshot) "configuration snapshot must be an object";
  _ ← ensure ((zlen fields =? zlen CONFIGURATION_FIELDS)
              && forallb (fun field => bt_mem field fields) CONFIGURATION_FIELDS)
        "unexpected or missing configuration snapshot fields";
  _ ← ensure (is_some_and (in_range 1 100) (as_u64 (json_index snapshot "chunk_size")))
        "invalid execution chunk size";
  _ ← ensure (forallb (fun field => json_is_object (json_index snapshot field))
                ["profile"; "agent"; "dataset_ref"; "execution_plan"; "executability"])
        "invalid configuration snapshot shape";
  _ ← foldM (check_configuration_hash snapshot) tt
        ["profile_hash"; "dataset_hash"; "aggregation_policy_hash"; "execution_plan_hash"];
  dataset ← cc_dataset_ref c (json_index snapshot "dataset_ref");
  _ ← ensure ((0 <? ld_case_count dataset)
              && str_eq_value (ld_dataset_hash dataset) (json_index snapshot "dataset_hash"))
        "configuration dataset identity mismatch";
  version ← cc_uuid c (json_index snapshot "dataset_version_id");
  _ ← ensure (version =? ld_dataset_version_id dataset) "configuration dataset version mismatch";
  _ ← ensure (is_some_and (fun id => negb (trim_is_empty id))
                (as_str (json_index snapshot "profile_version_id"))) "invalid profile version identity";
  profile ← cc_profile c (json_index snapshot "profile");
  agent ← cc_agent c (json_index snapshot "agent");
  profile_agent ← cc_agent_to_value c (rp_agent profile);
  agent_value ← cc_agent_to_value c agent;
  _ ← ensure (value_eqb profile_agent agent_value) "profile/agent configuration mismatch";
  plan ← cc_plan c (json_index snapshot "execution_plan");
  _ ← ensure ((ep_version plan =? 1)
              && str_eq_value (ep_aggregation_policy_hash plan)
                   (json_index snapshot "aggregation_policy_hash"))
        "configuration execution plan identity mismatch";
  hash ← plan_hash c plan;
  _ ← ensure (str_eq_value hash (json_index snapshot "execution_plan_hash"))
        "configuration execution plan identity mismatch";
  profile_hash ← hash_serialized_json (cc_to_vec c) (cc_blake3_hex c)
    (canonical_json (json_index snapshot "profile"));
  _ ← ensure (str_eq_value profile_hash (json_index snapshot "profile_hash"))
        "configuration profile hash mismatch";
  let summary := default [] (as_object (json_index snapshot "executability")) in
  _ ← ensure ((zlen summary =? zlen EXECUTABILITY_COUNTS)
              && forallb (fun field => is_some_and (fun count => opt_is_some (as_u64 count))
                            (bt_get field summary)) EXECUTABILITY_COUNTS)
        "invalid executability count fields";
  ensure (opt_is_none (json_get "cases" (json_index snapshot "profile"))
          && opt_is_none (json_get "cases" (json_index snapshot "dataset_ref")))
    "case payloads are forbidden in configuration".

(** The documents whose validation needs no foreign conversion. *)
#[global] Instance IndexPage_document : StorageDocument IndexPage :=
  {| SCHEMA := FOrdinalIndex; doc_validate := IndexPage_validate |}.
#[global] Instance DatasetManifest_document : StorageDocument DatasetManifest :=
  {| SCHEMA := FDatasetManifest; doc_validate := DatasetManifest_validate |}.
#[global] Instance RunChunkPage_document : StorageDocument RunChunkPage :=
  {| SCHEMA := FRunChunks; doc_validate := RunChunkPage_validate |}.
#[global] Instance GateCountPage_document : StorageDocument GateCountPage :=
  {| SCHEMA := FGateCounts; doc_validate := GateCountPage_validate |}.
#[global] Instance RunPlanManifest_document : StorageDocument RunPlanManifest :=
  {| SCHEMA := FRunPlanManifest; doc_validate := RunPlanManifest_validate |}.

(** ** Tilings: consecutive half-open intervals *)

Section tiling.
Context {A : Type} (lo hi : A -> Z).

Fixpoint tiles (s : Z) (l : list A) (e : Z) : Prop :=
  match l with
  | [] => s = e
  | x :: l' => lo x = s /\ s < hi x /\ tiles (hi x) l' e
  end.

Lemma tiles_le s l e : tiles s l e -> s <= e.
Proof. revert s; induction l as [|x l IH]; simpl; intros s; [lia|]. intros (? & ? & ?%IH). lia. Qed.

Lemma tiles_app s l1 l2 e :
  tiles s (l1 ++ l2) e <-> exists m, tiles s l1 m /\ tiles m l2 e.
Proof.
  revert s; induction l1 as [|x l1 IH]; simpl; intros s.
  - split; [eauto|]. by intros (m & -> & ?).
  - rewrite IH. naive_solver.
Qed.

Lemma tiles_within s l e x : tiles s l e -> x ∈ l -> s <= lo x /\ lo x < hi x /\ hi x <= e.
Proof.
  intros Ht (l1 & l2 & ->)%list_elem_of_split. apply tiles_app in Ht as (m & H1 & H2).
  simpl in H2. destruct H2 as (? & ? & H3). apply tiles_le in H1, H3. lia.
Qed.

(** Every point of a tiled interval lies in exactly one tile. *)
Lemma tiles_partition s l e v :
  tiles s l e -> s <= v < e ->
  exists i x, l !! i = Some x /\ lo x <= v < hi x /\
    forall j y, l !! j = Some y -> lo y <= v < hi y -> j = i.
Proof.
  revert s; induction l as [|x l IH]; simpl; intros s Ht Hv; [lia|].
  destruct Ht as (Hlo & Hhi & Ht). destruct (decide (v < hi x)) as [Hlt|Hge].
  - exists 0%nat, x. split_and!; [done|lia|lia|]. intros [|j] y Hy Hr; [done|]. simpl in Hy.
    apply list_elem_of_lookup_2 in Hy. pose proof (tiles_within _ _ _ _ Ht Hy). lia.
  - destruct (IH (hi x)) as (i & z & Hi & Hz & Huniq); [done|lia|].
    exists (S i), z. split_and!; [done|lia|lia|]. intros [|j] y Hy Hr; simpl in Hy.
    + injection Hy as <-. lia.
    + f_equal. by eapply Huniq.
Qed.
End tiling.

Lemma range_Ok s e u : range s e = Ok u -> 0 <= s < e.
Proof. unfold range. intros H. inv_ok. lia. Qed.

Lemma shard_Ok v u : shard v = Ok u -> 0 <= v < 128.
Proof. unfold shard. intros H. inv_ok. lia. Qed.

Lemma check_index_entries_tile cs limits s entries e :
  foldM (check_index_entry cs limits) s entries = Ok e ->
  tiles ie_range_start ie_range_end s entries e /\
  Forall (fun x => ObjectRef_require (ie_object x) cs limits = Ok tt) entries.
Proof.
  revert s; induction entries as [|x l IH]; simpl; intros s H; inv_ok; [done|].
  unfold check_index_entry in *. inv_ok.
  match goal with E : range _ _ = Ok _ |- _ => apply range_Ok in E end.
  match goal with E : foldM _ _ _ = Ok _ |- _ => apply IH in E as [? ?] end.
  split; [|by constructor]. split_and!; [lia|lia|done].
Qed.

Definition child_schema_of (p : IndexPage) : StorageFormat :=
  if ip_level p =? 0 then leaf_schema (ip_kind p) else FOrdinalIndex.

Lemma IndexPage_validate_Ok p limits :
  IndexPage_validate p limits = Ok tt ->
  0 <= ip_range_start p < ip_range_end p /\ ip_level p < fl_index_height limits /\
  ip_entries p <> [] /\ zlen (ip_entries p) <= fl_page_entries limits /\
  tiles ie_range_start ie_range_end (ip_range_start p) (ip_entries p) (ip_range_end p) /\
  Forall (fun x => ObjectRef_require (ie_object x) (child_schema_of p) limits = Ok tt)
    (ip_entries p).
Proof.
  unfold IndexPage_validate. intros H. inv_ok.
  match goal with E : range _ _ = Ok _ |- _ => apply range_Ok in E end.
  match goal with E : foldM _ _ _ = Ok _ |- _ => apply check_index_entries_tile in E as [Ht Hreq] end.
  match goal with E : bool_decide (ip_entries p = []) = false |- _ =>
    apply bool_decide_eq_false in E end.
  match goal with E : (_ =? ip_range_end p) = true |- _ => apply Z.eqb_eq in E; subst end.
  split_and!; try done; lia.
Qed.

(** a validated index page is a partition of its range: every ordinal of the
    range belongs to exactly one entry, and every entry lies inside the range and
    carries a reference of the schema its level demands. *)
Theorem index_page_partition p limits :
  IndexPage_validate p limits = Ok tt ->
  (forall v, ip_range_start p <= v < ip_range_end p ->
     exists i x, ip_entries p !! i = Some x /\ ie_range_start x <= v < ie_range_end x /\
       forall j y, ip_entries p !! j = Some y -> ie_range_start y <= v < ie_range_end y -> j = i) /\
  Forall (fun x => ip_range_start p <= ie_range_start x < ie_range_end x /\
            ie_range_end x <= ip_range_end p /\
            or_schema (ie_object x) = child_schema_of p) (ip_entries p).
Proof.
  intros (Hr & Hl & Hne & Hlen & Ht & Hreq)%IndexPage_validate_Ok. split.
  - intros v Hv. by eapply tiles_partition.
  - rewrite Forall_forall in Hreq |- *. intros x Hx.
    pose proof (tiles_within _ _ _ _ _ _ Ht Hx). split_and!; [lia..|].
    specialize (Hreq x Hx). unfold ObjectRef_require in Hreq. inv_ok.
    by apply bool_decide_eq_true in Hreq.
Qed.

(** ** Chunk pages *)

Lemma check_chunk_Ok s i ids prev c st :
  check_chunk s i (ids, prev) c = Ok st ->
  rc_chunk_index c = s + Z.of_nat i /\ 0 <= rc_ordinal_start c < rc_ordinal_end c /\
  rc_ordinal_end c - rc_ordinal_start c <= 100 /\
  (forall e, prev = Some e -> rc_ordinal_start c = e) /\
  0 <= rc_run_shard c < 128 /\ bt_mem (rc_chunk_id c) ids = false /\
  st = (bt_insert (rc_chunk_id c) tt ids, Some (rc_ordinal_end c)).
Proof.
  unfold check_chunk. intros H. inv_ok.
  match goal with E : range _ _ = Ok _ |- _ => apply range_Ok in E end.
  match goal with E : shard _ = Ok _ |- _ => apply shard_Ok in E end.
  split_and!; try done; try lia.
  intros e ->. simpl in *. lia.
Qed.

Lemma check_chunks_spec s i ids prev l st :
  bt_wf ids -> foldiM (check_chunk s) i (ids, prev) l = Ok st ->
  (forall j c, l !! j = Some c -> rc_chunk_index c = s + Z.of_nat i + Z.of_nat j /\
     1 <= rc_ordinal_end c - rc_ordinal_start c <= 100 /\ 0 <= rc_run_shard c < 128) /\
  NoDup (map rc_chunk_id l) /\ Forall (fun c => rc_chunk_id c ∉ bt_keys ids) l /\
  (forall e, prev = Some e -> exists e', tiles rc_ordinal_start rc_ordinal_end e l e') /\
  (forall c l', l = c :: l' -> 0 <= rc_ordinal_start c /\
     exists e', tiles rc_ordinal_start rc_ordinal_end (rc_ordinal_start c) l e').
Proof.
  revert i ids prev; induction l as [|c l IH]; cbn [foldiM]; intros i ids prev Hwf H.
  { split_and!; [done|constructor|constructor|by intros e _; exists e|done]. }
  inv_ok. match goal with E : check_chunk _ _ _ _ = Ok _ |- _ =>
    apply check_chunk_Ok in E as (Hi & Hr & Hs & Hp & Hsh & Hmem & ->) end.
  destruct (IH (S i) _ _ (bt_insert_wf _ _ _ Hwf) H) as (Hall & Hnd & Hnin & Htile & _).
  assert (Hnew : rc_chunk_id c ∉ bt_keys ids).
  { intros Hin. apply bt_mem_keys in Hin; [congruence|done]. }
  assert (Hkeys : forall k, k ∈ bt_keys (bt_insert (rc_chunk_id c) tt ids) <->
                            k ∈ bt_keys ids \/ k = rc_chunk_id c).
  { intros k. rewrite <- !bt_mem_keys by auto. unfold bt_mem.
    destruct (decide (rc_chunk_id c = k)) as [<-|Hne].
    - rewrite bt_get_insert_eq. naive_solver.
    - rewrite bt_get_insert_ne by done. naive_solver. }
  destruct (Htile _ eq_refl) as (e' & Ht). split_and!.
  - intros [|j] d Hd; simpl in Hd; [injection Hd as <-; lia|].
    destruct (Hall j d Hd). lia.
  - constructor; [|done]. intros (d & Hd & Hin)%list_elem_of_fmap.
    rewrite Forall_forall in Hnin. apply (Hnin d Hin). apply Hkeys. by right.
  - constructor; [done|]. eapply Forall_impl; [exact Hnin|]. simpl. intros d Hd Hin.
    apply Hd, Hkeys. by left.
  - intros e ->. specialize (Hp e eq_refl). exists e'. split_and!; [done|lia|done].
  - intros c' l' [= <- <-]. split; [lia|]. exists e'. split_and!; [done|lia|done].
Qed.

(** a validated chunk page is a contiguous piece of the run plan: chunk
    indexes count up by one from the page's start within [i32], chunk identities
    are distinct, and the chunks tile one case interval in pieces of 1 to 100
    cases. *)
Theorem chunk_page_tiles p limits :
  RunChunkPage_validate p limits = Ok tt -> cp_chunk_index_end p <= i32_max ->
  zlen (cp_chunks p) = cp_chunk_index_end p - cp_chunk_index_start p /\
  (forall j c, cp_chunks p !! j = Some c ->
     rc_chunk_index c = cp_chunk_index_start p + Z.of_nat j /\ 0 <= rc_chunk_index c < i32_max /\
     1 <= rc_ordinal_end c - rc_ordinal_start c <= 100 /\ 0 <= rc_run_shard c < 128) /\
  NoDup (map rc_chunk_id (cp_chunks p)) /\
  exists s e, 0 <= s /\ tiles rc_ordinal_start rc_ordinal_end s (cp_chunks p) e /\
    zlen (cp_chunks p) <= e - s <= 100 * zlen (cp_chunks p).
Proof.
  unfold RunChunkPage_validate. intros H Hend. inv_ok.
  match goal with E : range _ _ = Ok _ |- _ => apply range_Ok in E end.
  match goal with E : foldiM _ _ _ _ = Ok _ |- _ =>
    apply check_chunks_spec in E as (Hall & Hnd & _ & _ & Htile); [|apply bt_wf_nil] end.
  match goal with E : bool_decide (cp_chunks p = []) = false |- _ =>
    apply bool_decide_eq_false in E as Hne end.
  split_and!; [lia| |done|].
  - intros j c Hc. destruct (Hall j c Hc) as (Hi & Hs & Hsh).
    apply lookup_lt_Some in Hc. unfold zlen in *. split_and!; lia.
  - assert (Hsz : forall c, c ∈ cp_chunks p -> 1 <= rc_ordinal_end c - rc_ordinal_start c <= 100).
    { intros c (j & Hj)%list_elem_of_lookup_1. by destruct (Hall j c Hj) as (_ & ? & _). }
    destruct (cp_chunks p) as [|c l] eqn:El; [done|].
    destruct (Htile c l eq_refl) as (Hs0 & e & Ht). exists (rc_ordinal_start c), e.
    split_and!; [done|done|..]; clear -Hsz Ht; revert Ht Hsz;
      generalize (rc_ordinal_start c) as s; generalize (c :: l) as k;
      (induction k as [|x k IH]; intros s Ht Hsz; simpl in Ht;
        [unfold zlen; simpl; lia|]);
      destruct Ht as (Hlo & Hhi & Ht); rewrite zlen_cons;
      specialize (IH _ Ht ltac:(intros; apply Hsz; by right));
      specialize (Hsz x ltac:(by left)); lia.
Qed.

(** ** Gate-count chains *)

Lemma sorted_app {K} `{OrdKey K} (l1 l2 : list K) :
  StronglySorted klt l1 -> StronglySorted klt l2 ->
  (forall x y, last l1 = Some x -> head l2 = Some y -> klt x y) -> StronglySorted klt (l1 ++ l2).
Proof.
  intros H1 H2. induction H1 as [|a l1 Hs IH Ha]; intros Hj; simpl; [done|].
  destruct l1 as [|b l1].
  - simpl. constructor; [done|]. destruct l2 as [|y l2]; [constructor|].
    specialize (Hj a y eq_refl eq_refl). inversion H2 as [|? ? _ Hy]; subst.
    constructor; [done|]. eapply Forall_impl; [exact Hy|]. intros z Hz. by eapply klt_trans.
  - assert (G : StronglySorted klt ((b :: l1) ++ l2)) by (by apply IH).
    constructor; [done|]. inversion Ha as [|? ? Hab _]; subst. constructor; [done|].
    simpl in G. inversion G as [|? ? _ Hb]; subst.
    eapply Forall_impl; [exact Hb|]. intros z Hz. by eapply klt_trans.
Qed.

Definition gate_ids (l : list GateCount) : list string := map gc_gate_id l.

Lemma check_gate_counts_spec prev l r :
  foldM check_gate_count prev l = Ok r ->
  StronglySorted klt (gate_ids l) /\ Forall (fun e => 0 <= gc_planned_count e) l /\
  (forall p y, prev = Some p -> head (gate_ids l) = Some y -> klt p y).
Proof.
  revert prev; induction l as [|e l IH]; cbn [foldM]; intros prev H; inv_ok.
  { split_and!; [constructor|constructor|done]. }
  unfold check_gate_count in *. inv_ok. apply IH in H as (Hs & Hp & Hh).
  split_and!; [|constructor; [lia|done]|].
  - simpl. destruct l as [|e' l]; [repeat constructor|]. simpl in *.
    specialize (Hh _ _ eq_refl eq_refl). constructor; [done|]. constructor; [done|].
    inversion Hs as [|? ? _ Hy]; subst. eapply Forall_impl; [exact Hy|].
    intros z Hz. by eapply klt_trans.
  - intros p y -> [= <-]. simpl in *. by apply kltb_true.
Qed.

Definition chain_step (limits : FormatLimits) (v : GateCountChainValidator)
    (rp : ObjectRef * GateCountPage) : result GateCountChainValidator :=
  chain_accept v rp.1 rp.2 limits.

Definition chain_entries (pages : list (ObjectRef * GateCountPage)) : list GateCount :=
  concat (map (fun rp => gp_entries rp.2) pages).

(** The pages are linked: each is fetched through the reference before it. *)
Fixpoint linked (r : option ObjectRef) (pages : list (ObjectRef * GateCountPage))
    (fin : option ObjectRef) : Prop :=
  match pages with
  | [] => r = fin
  | (ref, page) :: pages' => r = Some ref /\ linked (gp_next page) pages' fin
  end.

Lemma linked_snoc r pages ref page :
  linked r pages (Some ref) -> linked r (pages ++ [(ref, page)]) (gp_next page).
Proof. revert r; induction pages as [|[ref' p'] l IH]; simpl; intros r; naive_solver. Qed.

Record chain_inv (d : GateCountDescriptor) (run_shard case_count : Z)
    (pages : list (ObjectRef * GateCountPage)) (v : GateCountChainValidator) : Prop := mkChainInv {
  ci_pages : gv_remaining_pages v = gd_page_count d - zlen pages;
  ci_entries : gv_remaining_entries v = gd_entry_count d - zlen (chain_entries pages);
  ci_nonneg : 0 <= gv_remaining_pages v /\ 0 <= gv_remaining_entries v;
  ci_end : (gv_remaining_pages v =? 0) = opt_is_none (gv_next v);
  ci_done : (gv_remaining_pages v =? 0) = (gv_remaining_entries v =? 0);
  ci_shard : gv_run_shard v = run_shard /\ gv_case_count v = case_count;
  ci_last : gv_last_gate v = last (gate_ids (chain_entries pages));
  ci_sorted : StronglySorted klt (gate_ids (chain_entries pages));
  ci_counts : Forall (fun e => 0 <= gc_planned_count e <= case_count) (chain_entries pages);
  ci_links : linked (gd_first d) pages (gv_next v)
}.

Lemma chain_new_inv d rs cc limits v :
  chain_new d rs cc limits = Ok v -> chain_inv d rs cc [] v.
Proof.
  unfold chain_new, GateCountDescriptor_validate. intros H. inv_ok.
  repeat match goal with E : Bool.eqb _ _ = true |- _ => apply Bool.eqb_prop in E end.
  split; simpl; try done; unfold zlen; simpl; try lia; try congruence; constructor.
Qed.

Lemma chain_accept_inv d rs cc limits pages v rp v' :
  chain_inv d rs cc pages v -> chain_step limits v rp = Ok v' ->
  chain_inv d rs cc (pages ++ [rp]) v'.
Proof.
  intros I H. destruct I as [Ip Ie In Iend Idone [Is Ic] Il Iso Ico Ili].
  unfold chain_step, chain_accept, GateCountPage_validate, i32_checked_sub in H.
  destruct rp as [ref page]. inv_ok.
  repeat match goal with E : Bool.eqb _ _ = true |- _ => apply Bool.eqb_prop in E end.
  match goal with E : bool_decide (gp_entries _ = []) = false |- _ =>
    apply bool_decide_eq_false in E as Hne end.
  match goal with E : bool_decide (gv_next v = Some _) = true |- _ =>
    apply bool_decide_eq_true in E as Hnext end.
  match goal with E : foldM check_gate_count _ _ = Ok _ |- _ =>
    apply check_gate_counts_spec in E as (Hso & Hge & _) end.
  match goal with E : forallb _ _ = true |- _ => apply forallb_Forall_iff in E as Hle end.
  match goal with E : is_none_or _ (gv_last_gate v) = true |- _ => rename E into Hlast end.
  simpl in Hne, Hnext, Hso, Hge, Hle, Hlast.
  assert (Hents : chain_entries (pages ++ [(ref, page)]) = chain_entries pages ++ gp_entries page).
  { unfold chain_entries. rewrite map_app, concat_app. simpl. by rewrite app_nil_r. }
  split; cbn [gv_remaining_pages gv_remaining_entries gv_next gv_run_shard gv_case_count gv_last_gate];
    rewrite ?Hents; unfold gate_ids; rewrite ?map_app, ?zlen_app.
  - rewrite zlen_cons. unfold zlen in *. simpl in *. lia.
  - simpl in *. lia.
  - simpl in *. lia.
  - simpl in *. congruence.
  - simpl in *. congruence.
  - done.
  - unfold last_gate_of. rewrite last_app. cbn [snd] in *. rewrite <- fmap_last.
    change (gc_gate_id <$> gp_entries page) with (map gc_gate_id (gp_entries page)).
    destruct (last (map gc_gate_id (gp_entries page))) eqn:El; [done|].
    apply last_None in El. by apply map_eq_nil in El.
  - apply sorted_app; [done|done|]. intros x y Hx Hy. fold (gate_ids (chain_entries pages)) in Hx.
    rewrite <- Il in Hx. rewrite Hx in Hlast. simpl in Hlast. apply kltb_true in Hlast.
    unfold first_gate in Hlast. destruct (gp_entries page); [done|]. simpl in Hy. by injection Hy as <-.
  - apply Forall_app. split; [done|]. rewrite Forall_forall in Hge, Hle |- *.
    intros e He. specialize (Hge e He). specialize (Hle e He). simpl in Hle. lia.
  - simpl. rewrite Hnext in Ili. by apply linked_snoc.
Qed.

(** Traversing a gate-count chain is bounded and complete.  Whatever pages
    are fetched, never more pages or entries are accepted than the descriptor
    announces; the accepted pages form one linked list whose gate identities are
    strictly increasing across pages and whose counts lie within the shard's case
    count; and the chain finishes exactly when all announced pages were read, at
    which point all announced entries were. *)
Theorem gate_chain_complete d rs cc limits v0 pages v :
  chain_new d rs cc limits = Ok v0 -> foldM (chain_step limits) v0 pages = Ok v ->
  zlen pages <= gd_page_count d /\ zlen (chain_entries pages) <= gd_entry_count d /\
  StronglySorted klt (gate_ids (chain_entries pages)) /\
  Forall (fun e => 0 <= gc_planned_count e <= cc) (chain_entries pages) /\
  linked (gd_first d) pages (gv_next v) /\
  (chain_finish v = Ok tt <-> zlen pages = gd_page_count d) /\
  (chain_finish v = Ok tt -> zlen (chain_entries pages) = gd_entry_count d /\ gv_next v = None).
Proof.
  intros Hnew%chain_new_inv Hrun.
  apply (foldM_inv_prefix (chain_inv d rs cc)) in Hrun;
    [|done|intros; by eapply chain_accept_inv].
  destruct Hrun as [Ip Ie In Iend Idone _ _ Iso Ico Ili]. unfold chain_finish.
  split_and!; [lia|lia|done|done|done|..].
  - rewrite ensure_Ok, <- Iend. split; intros E; [inv_ok; lia|].
    assert (gv_remaining_pages v = 0) by lia. rewrite <- Idone. lia.
  - intros E%ensure_Ok. inv_ok. split; [lia|].
    by destruct (gv_next v).
Qed.

(** ** Run plans *)

Definition total_cases (l : list RunPlanShard) : Z := foldr (fun s acc => sp_case_count s + acc) 0 l.
Definition total_chunks (l : list RunPlanShard) : Z := foldr (fun s acc => sp_chunk_count s + acc) 0 l.

Lemma check_plan_shards_spec alias limits prev cases chunks l st :
  foldM (check_plan_shard alias limits) (prev, cases, chunks) l = Ok st ->
  st.1.2 = cases + total_cases l /\ st.2 = chunks + total_chunks l /\
  StronglySorted Z.lt (map sp_run_shard l) /\
  (forall p, prev = Some p -> Forall (Z.lt p) (map sp_run_shard l)) /\
  Forall (fun s => 0 <= sp_run_shard s < 128 /\ 0 < sp_chunk_count s <= sp_case_count s /\
            sp_case_count s <= 100 * sp_chunk_count s) l /\
  (l <> [] -> st.1.2 <= i32_max).
Proof.
  revert prev cases chunks; induction l as [|s l IH]; cbn [foldM]; intros prev cases chunks H.
  { inv_ok. simpl. split_and!; try lia; try done; constructor. }
  inv_ok. match goal with E : check_plan_shard _ _ _ _ = Ok _ |- _ =>
    unfold check_plan_shard, i32_checked_add in E end. inv_ok.
  match goal with E : shard _ = Ok _ |- _ => apply shard_Ok in E end.
  apply IH in H as (Hc & Hk & Hs & Hp & Hall & Hmax). simpl.
  specialize (Hp _ eq_refl). split_and!.
  - rewrite Hc. simpl. lia.
  - rewrite Hk. simpl. lia.
  - by constructor.
  - intros p ->. simpl in *. constructor; [lia|]. eapply Forall_impl; [exact Hp|]. simpl. lia.
  - constructor; [lia|done].
  - intros _. destruct l; [rewrite Hc; simpl in *; lia|by apply Hmax].
Qed.

(** a validated run plan accounts for every chunk once: its shards are
    distinct numbers in increasing order below 128, their chunk counts add up to
    the plan's, and the total number of cases fits [i32] and lies between one and
    one hundred per chunk. *)
Theorem run_plan_totals m limits :
  RunPlanManifest_validate m limits = Ok tt ->
  total_chunks (pm_shards m) = pm_chunk_count m /\
  pm_chunk_count m <= total_cases (pm_shards m) <= 100 * pm_chunk_count m /\
  total_cases (pm_shards m) <= i32_max /\
  StronglySorted Z.lt (map sp_run_shard (pm_shards m)) /\
  Forall (fun s => 0 <= sp_run_shard s < 128) (pm_shards m) /\
  id_range_start (pm_chunks m) = 0 /\ id_range_end (pm_chunks m) = pm_chunk_count m.
Proof.
  unfold RunPlanManifest_validate. intros H. inv_ok.
  match goal with E : foldM (check_plan_shard _ _) _ _ = Ok _ |- _ =>
    apply check_plan_shards_spec in E as (Hc & Hk & Hs & _ & Hall & Hmax) end.
  match goal with E : bool_decide (pm_shards m = []) = false |- _ =>
    apply bool_decide_eq_false in E as Hne end.
  specialize (Hmax Hne). rewrite Hc in Hmax.
  assert (Hbetween : total_chunks (pm_shards m) <= total_cases (pm_shards m)
                     <= 100 * total_chunks (pm_shards m)).
  { clear -Hall. induction Hall as [|s l Hs _ IH]; simpl; lia. }
  split_and!; try lia; [done|]. eapply Forall_impl; [exact Hall|]. simpl. tauto.
Qed.

(** ** References *)

(** a reference constructed for some bytes verifies exactly those bytes in the
    same limits, and what verifies under it has its digest, its length, and fits
    the byte limit of its schema, below 64 MiB. *)
Theorem for_bytes_verifies blake3_hex alias key s bytes limits r :
  ObjectRef_for_bytes blake3_hex alias key s bytes limits = Ok r ->
  ObjectRef_verify blake3_hex r bytes limits = Ok (mkVerifiedObject r bytes) /\
  forall b v, ObjectRef_verify blake3_hex r b limits = Ok v ->
    vo_reference v = r /\ vo_bytes v = b /\ blake3_hex b = blake3_hex bytes /\
    str_len b = str_len bytes /\ 0 < str_len b <= byte_limit s limits /\ str_len b <= 64 * MIB.
Proof.
  unfold ObjectRef_for_bytes. intros H.
  apply bind_Ok in H as ([] & Hl & H). apply bind_Ok in H as ([] & Hr & H). injection H as <-.
  split.
  - unfold ObjectRef_verify. rewrite Hl, Hr. cbn [mbind result_bind or_byte_count or_digest].
    by rewrite Z.eqb_refl, str_eqb_refl.
  - intros b v Hv. unfold ObjectRef_verify in Hv. rewrite Hl, Hr in Hv.
    cbn [mbind result_bind or_byte_count or_digest] in Hv. inv_ok.
    match goal with E : str_eqb _ _ = true |- _ => apply str_eqb_true in E as Hd end.
    unfold ObjectRef_validate in Hr. cbn [or_byte_count or_schema] in Hr.
    apply bind_Ok in Hr as (? & _ & Hr). apply bind_Ok in Hr as (? & _ & Hr).
    apply bind_Ok in Hr as (? & _ & Hr). apply bind_Ok in Hr as (? & Hb & _).
    unfold FormatLimits_validate, BatchLimits_validate in Hl. inv_ok.
    cbn [vo_reference vo_bytes]. split_and!; try done; try lia.
    clear - Hb H H0 H1 H2 H3 H4 H5 H6 H7 H8 H9 H10. unfold MIB in *.
    destruct s; cbn [byte_limit] in Hb; lia.
Qed.

(** ** Concrete documents *)

Definition sample_digest : string :=
  "00112233445566778899aabbccddeeff00112233445566778899aabbccddeeff".
Definition sample_ref (s : StorageFormat) (key : string) : ObjectRef :=
  mkObjectRef "primary" key s Blake3 sample_digest 100 None.

Definition sample_page : IndexPage :=
  mkIndexPage FOrdinalIndex DatasetBatches 0 0 150
    [mkIndexEntry 0 100 (sample_ref FCaseBatch "datasets/a"); mkIndexEntry 100 150 (sample_ref FCaseBatch "datasets/b")].

Lemma index_page_partition_witness :
  exists i x, ip_entries sample_page !! i = Some x /\ ie_range_start x <= 120 < ie_range_end x /\
    forall j y, ip_entries sample_page !! j = Some y ->
      ie_range_start y <= 120 < ie_range_end y -> j = i.
Proof.
  apply (index_page_partition sample_page FormatLimits_default).
  - vm_compute. reflexivity.
  - vm_compute. split; congruence.
Defined.

Definition sample_chunk (index id start end_ : Z) : RunChunk :=
  mkRunChunk index id (index mod 128) start end_ "group" sample_digest.
Definition sample_chunk_page : RunChunkPage :=
  mkRunChunkPage FRunChunks 9 3 5 [sample_chunk 3 11 300 400; sample_chunk 4 12 400 420].

Lemma chunk_page_tiles_witness : NoDup (map rc_chunk_id (cp_chunks sample_chunk_page)).
Proof.
  apply (chunk_page_tiles sample_chunk_page FormatLimits_default).
  - vm_compute. reflexivity.
  - vm_compute. congruence.
Defined.

Definition gate_page_1 : GateCountPage :=
  mkGateCountPage FGateCounts 3 [mkGateCount "a" 4; mkGateCount "b" 0]
    (Some (sample_ref FGateCounts "plans/gates-2")).
Definition gate_page_2 : GateCountPage :=
  mkGateCountPage FGateCounts 3 [mkGateCount "c" 7] None.
Definition gate_pages : list (ObjectRef * GateCountPage) :=
  [(sample_ref FGateCounts "plans/gates-1", gate_page_1);
   (sample_ref FGateCounts "plans/gates-2", gate_page_2)].
Definition gate_descriptor : GateCountDescriptor :=
  mkGateCountDescriptor (Some (sample_ref FGateCounts "plans/gates-1")) 2 3.
Definition validator_start : GateCountChainValidator :=
  mkGateCountChainValidator (gd_first gate_descriptor) 2 3 3 10 None.
Definition validator_end : GateCountChainValidator :=
  mkGateCountChainValidator None 0 0 3 10 (Some "c").

Lemma gate_chain_complete_witness :
  zlen (chain_entries gate_pages) = 3 /\ gv_next validator_end = None.
Proof.
  apply (gate_chain_complete gate_descriptor 3 10 FormatLimits_default validator_start gate_pages);
    vm_compute; reflexivity.
Defined.

Definition sample_plan : RunPlanManifest :=
  mkRunPlanManifest FRunPlanManifest 9 (sample_ref FDatasetManifest "datasets/root")
    sample_digest sample_digest sample_digest (sample_ref FRunConfiguration "plans/configuration") 2
    (mkIndexDescriptor 0 0 2 (sample_ref FOrdinalIndex "plans/index"))
    [mkRunPlanShard 0 100 1 sample_digest (mkGateCountDescriptor None 0 0);
     mkRunPlanShard 1 50 1 sample_digest (mkGateCountDescriptor None 0 0)].

Lemma run_plan_totals_witness : total_chunks (pm_shards sample_plan) = pm_chunk_count sample_plan.
Proof.
  apply (run_plan_totals sample_plan FormatLimits_default). vm_compute. reflexivity.
Defined.

Definition constant_digest : string -> string := fun _ => sample_digest.

Lemma for_bytes_verifies_witness :
  ObjectRef_verify constant_digest (mkObjectRef "primary" "datasets/a" FCaseBatch Blake3 sample_digest 5 None)
    "bytes" FormatLimits_default
  = Ok (mkVerifiedObject (mkObjectRef "primary" "datasets/a" FCaseBatch Blake3 sample_digest 5 None) "bytes").
Proof.
  apply (for_bytes_verifies constant_digest "primary" "datasets/a" FCaseBatch "bytes" FormatLimits_default).
  vm_compute. reflexivity.
Defined.
