(* ===== verification/Codec.v ===== *)
(** * Canonical JSON codecs

    Model of src/vigilo/src/contracts/case_storage/codec.rs with the case
    identity of identity.rs that record validation calls.  The JSON text layer of
    serde_json (its parser, its compact printer, the derived conversions of the
    stored types) and BLAKE3 are the parameters of the section; what the round
    trips rely on of them is stated as named laws.  Everything the repository
    itself does on top is modelled: the duplicate-rejecting visitor, the capped
    writer, canonical comparison, batch framing, accounting and validation. *)

From Stdlib Require Import ZArith Lia ZifyBool Ascii Sorted Permutation.
From stdpp Require Import base strings pretty numbers sets option list.
From S2P Require Import Prelude Float64 BTree Text Json RunTypes StorageFormats.

Open Scope Z_scope.

(** ** Byte strings *)

Definition LF : ascii := Ascii.ascii_of_N 10.
Definition lf : string := String LF "".

Fixpoint concat_bytes (l : list string) : string :=
  match l with [] => "" | b :: l' => b +:+ concat_bytes l' end.

(** [bytes.last() == Some(&b)]. *)
Fixpoint ends_with_lf (s : string) : bool :=
  match s with
  | EmptyString => false
  | String c EmptyString => Ascii.eqb c LF
  | String _ s' => ends_with_lf s'
  end.

(** [&bytes[..bytes.len() - 1]] of a nonempty slice. *)
Fixpoint without_last (s : string) : string :=
  match s with
  | EmptyString => EmptyString
  | String _ EmptyString => EmptyString
  | String c s' => String c (without_last s')
  end.

(** [bytes.split(|b| *b == b'\n')]: the pieces between line feeds. *)
Fixpoint split_lf (s : string) : list string :=
  match s with
  | EmptyString => [EmptyString]
  | String c s' =>
      if Ascii.eqb c LF then EmptyString :: split_lf s'
      else match split_lf s' with
           | piece :: rest => String c piece :: rest
           | [] => [String c EmptyString]
           end
  end.

(** [&bytes[..position of the first line feed]]. *)
Fixpoint before_lf (s : string) : option string :=
  match s with
  | EmptyString => None
  | String c s' => if Ascii.eqb c LF then Some EmptyString
                   else String c <$> before_lf s'
  end.

(** ** The duplicate-rejecting visitor

    What serde_json's parser hands to a visitor: objects as the sequence of
    their members, duplicates included. *)
Inductive Raw :=
| RUnit
| RBool (b : bool)
| RI64 (n : Z)
| RU64 (n : Z)
| RF64 (x : f64)
| RStr (s : string)
| RSeq (l : list Raw)
| RMap (m : list (string * Raw)).

(** [i64 -> Value]. *)
Definition number_of_i64 (n : Z) : Number := if n <? 0 then NegInt n else PosInt n.

Fixpoint strict_value (r : Raw) : result Value :=
  match r with
  | RUnit => Ok Null
  | RBool b => Ok (Bool b)
  | RI64 n => Ok (Num (number_of_i64 n))
  | RU64 n => Ok (Num (PosInt n))
  | RF64 x => if is_finite x then Ok (Num (Float x)) else Err "nonfinite JSON number"
  | RStr s => Ok (Str s)
  | RSeq l =>
      values ← (fix visit_seq l := match l with
        | [] => Ok []
        | x :: l' => v ← strict_value x; vs ← visit_seq l'; Ok (v :: vs)
        end) l;
      Ok (Array values)
  | RMap m =>
      fields ← (fix visit_map values m := match m with
        | [] => Ok values
        | (key, x) :: m' =>
            if bt_mem key values then Err ("duplicate JSON key " +:+ key)
            else v ← strict_value x; visit_map (bt_insert key v values) m'
        end) [] m;
      Ok (Object fields)
  end.

(** ** Capped writer *)

Record CappedWriter := mkCappedWriter { cw_bytes : string; cw_limit : Z }.

Definition capped_write (w : CappedWriter) (bytes : string) : result CappedWriter :=
  if saturating_sub (cw_limit w) (str_len (cw_bytes w)) <? str_len bytes
  then Err "encoded object exceeds byte limit"
  else Ok (mkCappedWriter (cw_bytes w +:+ bytes) (cw_limit w)).

(** serde_json's printer and parser, and BLAKE3. *)
Class Encoding := {
  json_parse : string -> option Raw;
  to_vec : Value -> result string;
  blake3_hex : string -> string;
  blake3_bytes : string -> list Z
}.

(** The derived [Serialize] and [Deserialize] of a stored type: the writes
    [to_writer] issues, and [from_value]. *)
Class Serde (T : Type) := {
  ser_chunks : T -> result (list string);
  from_value : Value -> result T
}.

Definition with_context {A} (msg : string) (r : result A) : result A :=
  match r with Ok a => Ok a | Err _ => Err msg end.

Section codec.
Context `{E : Encoding}.

Definition strict_json (bytes : string) : result Value :=
  with_context "invalid object JSON"
    (raw ← ok_or (json_parse bytes) "syntax error"; strict_value raw).

Definition compact {T} `{Serde T} (value : T) (limit : Z) : result string :=
  writer ← with_context "encoded object exceeds byte limit or cannot be serialized"
    (chunks ← ser_chunks value; foldM capped_write (mkCappedWriter "" limit) chunks);
  parsed ← strict_json (cw_bytes writer);
  bytes ← to_vec (canonical_json parsed);
  _ ← ensure (str_len bytes <=? limit) "canonical object exceeds byte limit";
  Ok bytes.

Definition parse {T} `{Serde T} (bytes : string) : result T :=
  value ← strict_json bytes;
  printed ← to_vec (canonical_json value);
  _ ← ensure (str_eqb printed bytes) "object JSON is not compact canonical UTF-8";
  with_context "invalid stored fields" (from_value value).

Definition encode {T} `{Serde T} `{StorageDocument T} (document : T) (limits : FormatLimits)
    : result string :=
  _ ← FormatLimits_validate limits;
  bytes ← compact document (byte_limit SCHEMA limits);
  _ ← doc_validate document limits;
  Ok bytes.

Definition decode {T} `{Serde T} `{StorageDocument T} (object : VerifiedObject) : result T :=
  _ ← ensure (bool_decide (or_schema (vo_reference object) = SCHEMA))
        "reference schema does not match requested document";
  parse (vo_bytes object).

(** ** Case identity (identity.rs) *)

(** [tags.sort()]. *)
Fixpoint insert_tag (t : string) (l : list string) : list string :=
  match l with
  | [] => [t]
  | u :: l' => if kltb u t then u :: insert_tag t l' else t :: l
  end.

Definition sort_tags (l : list string) : list string := fold_right insert_tag [] l.

Definition opt_str (o : option string) : Value :=
  match o with Some s => Str s | None => Null end.

(** The [json!] object, whose map orders its members. *)
Definition normalized_case_payload (case : DatasetCase) : Value :=
  Object (bt_collect
    [("task_type", Str (dc_task_type case));
     ("case_group", opt_str (dc_case_group case));
     ("input", canonical_json (dc_input case));
     ("expected_output", canonical_json (default Null (dc_expected case)));
     ("context", canonical_json (default Null (dc_context case)));
     ("tags", Array (map Str (sort_tags (dc_tags case))));
     ("metadata", canonical_json (Object (dc_metadata case)))]).

Definition case_hash (case : DatasetCase) : result string :=
  hash_serialized_json to_vec blake3_hex (normalized_case_payload case).

(** ** Case batches *)

Context `{Serde CaseRecord} `{Serde CaseBatchHeader} `{Serde DatasetCase}.

Definition CaseRecord_validate (r : CaseRecord) : result DatasetCase :=
  _ ← ensure (0 <=? cr_case_ordinal r) "negative case ordinal";
  _ ← validate_digest (cr_case_hash r);
  case ← from_value (cr_source r);
  _ ← ensure (negb (trim_is_empty (dc_task_type case))) "case task_type is empty";
  hash ← case_hash case;
  _ ← ensure (str_eqb hash (cr_case_hash r)) "normalized case hash mismatch";
  Ok case.

Record CaseBatchBuilder := mkCaseBatchBuilder {
  cbb_dataset_id : Uuid;
  cbb_start : Z;
  cbb_end : Z;
  cbb_limits : FormatLimits;
  cbb_records : string;
  cbb_ids : btree Z unit
}.

Definition builder_new (dataset_id : Uuid) (ordinal_start : Z) (limits : FormatLimits)
    : result CaseBatchBuilder :=
  _ ← FormatLimits_validate limits;
  _ ← ensure ((0 <=? ordinal_start) && (ordinal_start <? i32_max)) "invalid batch start";
  Ok (mkCaseBatchBuilder dataset_id ordinal_start ordinal_start limits "" []).

Definition builder_header (b : CaseBatchBuilder) (end_ : Z) : CaseBatchHeader :=
  mkCaseBatchHeader FCaseBatch (cbb_dataset_id b) (cbb_start b) end_.

(** The checked byte count of the batch with the candidate appended. *)
Definition batch_bytes (header records encoded : string) : option Z :=
  n ← usize_checked_add (str_len header) 1;
  n ← usize_checked_add n (str_len records);
  n ← usize_checked_add n (str_len encoded);
  usize_checked_add n 1.

Definition try_push (b : CaseBatchBuilder) (record : CaseRecord) : result (CaseBatchBuilder * bool) :=
  _ ← ensure (cr_case_ordinal record =? cbb_end b) "batch ordinal gap or overlap";
  end_ ← ok_or (i32_checked_add (cbb_end b) 1) "batch end exceeds i32";
  encoded ← compact record (bl_max_bytes (fl_batch (cbb_limits b)));
  case ← CaseRecord_validate record;
  _ ← ensure (negb (bt_mem (dc_id case) (cbb_ids b))) "duplicate case ID in batch";
  header ← compact (builder_header b end_) (bl_max_bytes (fl_batch (cbb_limits b)));
  new_bytes ← ok_or (batch_bytes header (cbb_records b) encoded) "batch byte count overflow";
  if (zlen (cbb_ids b) =? bl_max_cases (fl_batch (cbb_limits b)))
     || (bl_max_bytes (fl_batch (cbb_limits b)) <? new_bytes)
  then
    _ ← ensure (negb (bool_decide (cbb_ids b = [])))
          "single case plus header exceeds batch byte limit";
    Ok (b, false)
  else
    Ok (mkCaseBatchBuilder (cbb_dataset_id b) (cbb_start b) end_ (cbb_limits b)
          (cbb_records b +:+ encoded +:+ lf) (bt_insert (dc_id case) tt (cbb_ids b)), true).

Definition builder_finish (b : CaseBatchBuilder) : result string :=
  _ ← ensure (negb (bool_decide (cbb_ids b = []))) "empty case batch";
  header ← compact (builder_header b (cbb_end b)) (bl_max_bytes (fl_batch (cbb_limits b)));
  let bytes := header +:+ lf +:+ cbb_records b in
  _ ← ensure (str_len bytes <=? bl_max_bytes (fl_batch (cbb_limits b))) "batch exceeds byte limit";
  Ok bytes.

(** The loop body of [encode_batch]. *)
Definition push_record (b : CaseBatchBuilder) (record : CaseRecord) : result CaseBatchBuilder :=
  pushed ← try_push b record;
  _ ← ensure pushed.2 "batch exceeds configured case or byte limit";
  Ok pushed.1.

Definition encode_batch (header : CaseBatchHeader) (records : list CaseRecord)
    (limits : FormatLimits) : result string :=
  builder ← builder_new (bh_dataset_id header) (bh_ordinal_start header) limits;
  _ ← ensure (bool_decide (bh_schema header = FCaseBatch)) "invalid batch schema";
  builder ← foldM push_record builder records;
  _ ← ensure (cbb_end builder =? bh_ordinal_end header) "batch header/count mismatch";
  builder_finish builder.

Record DecodedCaseBatch := mkDecodedCaseBatch { dcb_header : CaseBatchHeader; dcb_bytes : string }.

Definition decode_case_batch (object : VerifiedObject) : result DecodedCaseBatch :=
  _ ← ensure (bool_decide (or_schema (vo_reference object) = FCaseBatch)) "reference is not a case batch";
  let bytes := vo_bytes object in
  _ ← ensure (ends_with_lf bytes) "batch must end with LF";
  line ← ok_or (before_lf bytes) "missing batch header";
  header ← parse line;
  Ok (mkDecodedCaseBatch header bytes).

Record CaseBatchReader := mkCaseBatchReader {
  rd_header : CaseBatchHeader;
  rd_lines : list string;
  rd_ordinal : Z;
  rd_ids : btree Z unit;
  rd_terminal : bool;
  rd_failed : bool
}.

Definition batch_validate (d : DecodedCaseBatch) (limits : FormatLimits) : result CaseBatchReader :=
  _ ← FormatLimits_validate limits;
  _ ← ensure (str_len (dcb_bytes d) <=? bl_max_bytes (fl_batch limits)) "batch exceeds byte limit";
  _ ← ensure (bool_decide (bh_schema (dcb_header d) = FCaseBatch)) "invalid batch schema";
  _ ← range (bh_ordinal_start (dcb_header d)) (bh_ordinal_end (dcb_header d));
  _ ← ensure (bh_ordinal_end (dcb_header d) - bh_ordinal_start (dcb_header d)
              <=? bl_max_cases (fl_batch limits)) "batch case count exceeds limit";
  Ok (mkCaseBatchReader (dcb_header d) (tail (split_lf (without_last (dcb_bytes d))))
        (bh_ordinal_start (dcb_header d)) [] false false).

(** The closure of [CaseBatchReader::next] on a line. *)
Definition read_line (r : CaseBatchReader) (line : string) : result (CaseRecord * DatasetCase) :=
  _ ← ensure (rd_ordinal r <? bh_ordinal_end (rd_header r)) "too many batch records";
  record ← parse line;
  _ ← ensure (cr_case_ordinal record =? rd_ordinal r) "batch ordinal gap or overlap";
  case ← CaseRecord_validate record;
  _ ← ensure (negb (bt_mem (dc_id case) (rd_ids r))) "duplicate case ID in batch";
  Ok (record, case).

Definition reader_fail (r : CaseBatchReader) : CaseBatchReader :=
  mkCaseBatchReader (rd_header r) (tail (rd_lines r)) (rd_ordinal r) (rd_ids r) true true.

(** [Iterator::next]: the advanced reader and the item. *)
Definition reader_next (r : CaseBatchReader) : CaseBatchReader * option (result CaseRecord) :=
  if rd_terminal r then (r, None)
  else match rd_lines r with
  | [] =>
      if rd_ordinal r =? bh_ordinal_end (rd_header r)
      then (mkCaseBatchReader (rd_header r) [] (rd_ordinal r) (rd_ids r) true (rd_failed r), None)
      else (reader_fail r, Some (Err "truncated batch record count"))
  | line :: lines =>
      match read_line r line with
      | Ok (record, case) =>
          (mkCaseBatchReader (rd_header r) lines (rd_ordinal r + 1)
             (bt_insert (dc_id case) tt (rd_ids r)) false (rd_failed r), Some (Ok record))
      | Err e => (reader_fail r, Some (Err e))
      end
  end.

(** [for record in reader { record? }], collecting the records; [None] is an
    exhausted fuel. *)
Fixpoint drain (fuel : nat) (r : CaseBatchReader) : option (result (list CaseRecord)) :=
  match fuel with
  | O => None
  | S fuel' =>
      match reader_next r with
      | (_, None) => Some (Ok [])
      | (_, Some (Err e)) => Some (Err e)
      | (r', Some (Ok record)) =>
          match drain fuel' r' with
          | Some (Ok rest) => Some (Ok (record :: rest))
          | other => other
          end
      end
  end.

(** Every item consumes a line, and one more call ends the iteration. *)
Definition drain_all (r : CaseBatchReader) : option (result (list CaseRecord)) :=
  drain (S (length (rd_lines r))) r.

Definition validate_remaining (r : CaseBatchReader) : option (result unit) :=
  if rd_failed r then Some (Err "batch reader already failed")
  else match drain_all r with
       | Some (Ok _) => Some (Ok tt)
       | Some (Err e) => Some (Err e)
       | None => None
       end.
End codec.

(** ** Byte-string lemmas *)

Lemma concat_bytes_app l k : concat_bytes (l ++ k) = concat_bytes l +:+ concat_bytes k.
Proof. induction l as [|x l IH]; simpl; [done|]. by rewrite IH, sapp_assoc. Qed.

Fixpoint no_lf (s : string) : bool :=
  match s with EmptyString => true | String c s' => negb (Ascii.eqb c LF) && no_lf s' end.

(** The lines of a file, each terminated. *)
Definition unlines (l : list string) : string := concat_bytes (map (fun e => e +:+ lf) l).

Lemma unlines_cons x l : unlines (x :: l) = x +:+ String LF (unlines l).
Proof. unfold unlines. simpl. by rewrite <- sapp_assoc. Qed.

Lemma before_lf_line a b : no_lf a = true -> before_lf (a +:+ String LF b) = Some a.
Proof.
  induction a as [|c a IH]; [done|]. cbn [no_lf]. intros [Hc Ha]%andb_true_iff.
  rewrite sapp_cons. cbn [before_lf]. apply negb_true_iff in Hc. by rewrite Hc, IH.
Qed.

Lemma split_lf_line a b : no_lf a = true -> split_lf (a +:+ String LF b) = a :: split_lf b.
Proof.
  induction a as [|c a IH]; [done|]. cbn [no_lf]. intros [Hc Ha]%andb_true_iff.
  rewrite sapp_cons. cbn [split_lf]. apply negb_true_iff in Hc. by rewrite Hc, IH.
Qed.

Lemma split_lf_last a : no_lf a = true -> split_lf a = [a].
Proof.
  induction a as [|c a IH]; [done|]. cbn [no_lf]. intros [Hc Ha]%andb_true_iff.
  cbn [split_lf]. apply negb_true_iff in Hc. by rewrite Hc, IH.
Qed.

Lemma without_last_app a c b : without_last (a +:+ String c b) = a +:+ without_last (String c b).
Proof.
  induction a as [|x a IH]; [done|]. rewrite !sapp_cons, <- IH.
  destruct a; reflexivity.
Qed.

Lemma ends_with_lf_app a c b : ends_with_lf (a +:+ String c b) = ends_with_lf (String c b).
Proof.
  induction a as [|x a IH]; [done|]. rewrite sapp_cons, <- IH. destruct a; reflexivity.
Qed.

Lemma unlines_ends x l : ends_with_lf (unlines (x :: l)) = true.
Proof.
  revert x; induction l as [|y l IH]; intros x; rewrite unlines_cons, ends_with_lf_app; [done|].
  specialize (IH y). destruct (unlines (y :: l)) eqn:Eu; [discriminate IH|]. exact IH.
Qed.

Lemma split_unlines x l :
  no_lf x = true -> Forall (fun y => no_lf y = true) l ->
  split_lf (without_last (unlines (x :: l))) = x :: l.
Proof.
  revert x; induction l as [|y l IH]; intros x Hx Hl; rewrite unlines_cons, without_last_app.
  - cbn [unlines map concat_bytes without_last]. rewrite sapp_nil_r. by apply split_lf_last.
  - apply Forall_cons in Hl as [Hy Hl].
    destruct (unlines (y :: l)) as [|c s] eqn:Eu.
    { pose proof (unlines_ends y l) as He. rewrite Eu in He. discriminate He. }
    change (without_last (String LF (String c s))) with (String LF (without_last (String c s))).
    rewrite split_lf_line by done. by rewrite <- Eu, IH.
Qed.

(** ** The visitor builds well-formed values *)

Section raw_ind.
Variable P : Raw -> Prop.
Hypothesis HUnit : P RUnit.
Hypothesis HBool : forall b, P (RBool b).
Hypothesis HI64 : forall n, P (RI64 n).
Hypothesis HU64 : forall n, P (RU64 n).
Hypothesis HF64 : forall x, P (RF64 x).
Hypothesis HStr : forall s, P (RStr s).
Hypothesis HSeq : forall l, Forall P l -> P (RSeq l).
Hypothesis HMap : forall m, Forall (fun kv => P kv.2) m -> P (RMap m).

Fixpoint Raw_rect' (r : Raw) : P r :=
  match r with
  | RUnit => HUnit
  | RBool b => HBool b
  | RI64 n => HI64 n
  | RU64 n => HU64 n
  | RF64 x => HF64 x
  | RStr s => HStr s
  | RSeq l =>
      HSeq l ((fix go (l : list Raw) : Forall P l :=
        match l with
        | [] => List.Forall_nil _
        | x :: l' => List.Forall_cons _ _ _ (Raw_rect' x) (go l')
        end) l)
  | RMap m =>
      HMap m ((fix go (m : list (string * Raw)) : Forall (fun kv => P kv.2) m :=
        match m with
        | [] => List.Forall_nil _
        | kv :: m' => List.Forall_cons _ _ _ (Raw_rect' kv.2) (go m')
        end) m)
  end.
End raw_ind.

Lemma bt_insert_values {V} (P : V -> Prop) k v (m : btree string V) :
  P v -> Forall (fun kv => P kv.2) m -> Forall (fun kv => P kv.2) (bt_insert k v m).
Proof.
  intros Hv Hm. rewrite Forall_forall in Hm |- *.
  intros kv [->|Hin]%bt_insert_keys; [done|]. by apply Hm.
Qed.

Lemma strict_value_wf r v : strict_value r = Ok v -> value_wf v.
Proof.
  revert v; induction r using Raw_rect'; intros v Hv; cbn [strict_value] in Hv;
    try (injection Hv as <-; constructor).
  - destruct (is_finite x); [|discriminate Hv]. injection Hv as <-. constructor.
  - inv_ok. constructor.
    match goal with E : _ = Ok ?a |- Forall _ ?a => revert a E end.
    induction H as [|x l Hx _ IH]; intros a E; [inv_ok; constructor|].
    inv_ok. constructor; [by apply Hx|by apply IH].
  - inv_ok. match goal with E : _ = Ok ?a |- _ => rename a into fields; rename E into Ef end.
    assert (G : bt_wf fields /\ Forall (fun kv => value_wf kv.2) fields);
      [|destruct G; by constructor].
    assert (G0 : bt_wf (@nil (string * Value)) /\ Forall (fun kv => value_wf kv.2) (@nil (string * Value)))
      by (split; [apply bt_wf_nil|constructor]).
    revert Ef G0. generalize (@nil (string * Value)) as acc.
    induction H as [|[k x] m Hx _ IH]; intros acc Ef [Ha Hb]; [by inv_ok|].
    destruct (bt_mem k acc); [discriminate Ef|]. inv_ok.
    eapply IH; [exact Ef|]. split; [auto|]. apply bt_insert_values; [by apply Hx|done].
Qed.

(** The capped writer accepts exactly the texts within its limit. *)
Lemma capped_writes acc limit chunks :
  str_len acc <= limit ->
  foldM capped_write (mkCappedWriter acc limit) chunks =
  (if str_len (acc +:+ concat_bytes chunks) <=? limit
   then Ok (mkCappedWriter (acc +:+ concat_bytes chunks) limit)
   else Err "encoded object exceeds byte limit").
Proof.
  revert acc; induction chunks as [|b l IH]; intros acc Ha; cbn [foldM concat_bytes].
  - rewrite sapp_nil_r. by rewrite (proj2 (Z.leb_le _ _)).
  - assert (E : capped_write (mkCappedWriter acc limit) b =
      if Z.max 0 (limit - str_len acc) <? str_len b
      then Err "encoded object exceeds byte limit" else Ok (mkCappedWriter (acc +:+ b) limit))
      by reflexivity.
    rewrite E. clear E. pose proof (str_len_nonneg b). pose proof (str_len_nonneg (concat_bytes l)).
    match goal with |- context [?x <? ?y] => destruct (x <? y) eqn:Elt end; cbn [mbind result_bind].
    + rewrite (proj2 (Z.leb_gt _ _)); [done|]. rewrite !str_len_app. lia.
    + rewrite IH by (rewrite str_len_app; lia). by rewrite <- sapp_assoc.
Qed.

(** ** Laws of the JSON text layer

    serde_json reads numbers that are not integers only approximately (its
    [float_roundtrip] feature is off), so the text laws speak of values without
    them; a negative number is negative. *)
Fixpoint value_exact (v : Value) : bool :=
  match v with
  | Num (Float _) => false
  | Num (NegInt n) => n <? 0
  | Array l => forallb value_exact l
  | Object m => forallb (fun kv => value_exact kv.2) m
  | _ => true
  end.

(** Compact printing is parsed back, and holds no line feed: control characters
    are escaped in JSON strings and compact output has no white space. *)
Class PrintLaws `{Encoding} : Prop := {
  print_strict : forall v b, value_wf v -> value_exact v = true -> to_vec v = Ok b ->
    strict_json b = Ok v;
  print_no_lf : forall v b, to_vec v = Ok b -> no_lf b = true
}.

(** The derived conversions invert each other through the text of a document. *)
Class SerdeLaws `{Encoding} {T : Type} `{Serde T} (exact : T -> Prop) : Prop := {
  serde_text : forall d chunks v, exact d -> ser_chunks d = Ok chunks ->
    strict_json (concat_bytes chunks) = Ok v -> value_exact v = true /\ from_value v = Ok d
}.

Definition record_exact (r : CaseRecord) : Prop :=
  value_wf (cr_source r) /\ value_exact (cr_source r) = true.
Definition header_exact (_ : CaseBatchHeader) : Prop := True.

Section documents.
Context `{L : PrintLaws} {T : Type} `{ST : Serde T} (exact : T -> Prop) `{!SerdeLaws exact}.

Lemma strict_json_wf b v : strict_json b = Ok v -> value_wf v.
Proof.
  unfold strict_json, with_context. destruct (_ ≫= _) as [u|e] eqn:Eb; [|done].
  intros [= <-]. inv_ok. by eapply strict_value_wf.
Qed.

Lemma parse_compact d limit b :
  0 <= limit -> exact d -> compact d limit = Ok b ->
  parse b = Ok d /\ no_lf b = true /\ str_len b <= limit.
Proof.
  intros Hlim Hd Hc. unfold compact in Hc.
  apply bind_Ok in Hc as (w & Hw & Hc). apply bind_Ok in Hc as (v & Hv & Hc).
  apply bind_Ok in Hc as (bytes & Hb & Hc). apply bind_Ok in Hc as (? & Hlen%ensure_Ok & Hc).
  injection Hc as ->. unfold with_context in Hw.
  destruct (_ ≫= _) as [w'|e] eqn:Ew in Hw; [injection Hw as ->|discriminate Hw].
  apply bind_Ok in Ew as (chunks & Hch & Hfold).
  rewrite capped_writes in Hfold by done. destruct (_ <=? limit) in Hfold; [|discriminate Hfold].
  injection Hfold as <-. cbn [cw_bytes] in Hv. rewrite sapp_nil in Hv.
  destruct (serde_text d chunks v Hd Hch Hv) as [Hex Hfrom].
  pose proof (strict_json_wf _ _ Hv) as Hwf. rewrite canonical_json_wf_id in Hb by done.
  split_and!; [|by eapply print_no_lf|lia].
  unfold parse. rewrite (print_strict v b Hwf Hex Hb). cbn [mbind result_bind].
  rewrite canonical_json_wf_id, Hb by done. cbn [mbind result_bind].
  rewrite str_eqb_refl. cbn [ensure mbind result_bind]. by rewrite Hfrom.
Qed.

Context `{D : StorageDocument T}.

Lemma byte_limit_nonneg s limits : FormatLimits_validate limits = Ok tt -> 0 <= byte_limit s limits.
Proof.
  unfold FormatLimits_validate, BatchLimits_validate. intros Hl. inv_ok. destruct s; simpl; lia.
Qed.

(** Metadata documents survive storage: bytes that [encode] produced, put
    under the reference built for them, verify and decode to the same document,
    for every document type whose derived conversions round-trip. *)
Theorem document_roundtrip d limits bytes alias key r :
  exact d -> encode d limits = Ok bytes ->
  ObjectRef_for_bytes blake3_hex alias key SCHEMA bytes limits = Ok r ->
  exists v, ObjectRef_verify blake3_hex r bytes limits = Ok v /\ decode v = Ok d /\
    doc_validate d limits = Ok tt /\ str_len bytes <= byte_limit SCHEMA limits.
Proof.
  intros Hd He Hr. unfold encode in He.
  apply bind_Ok in He as ([] & Hl & He). apply bind_Ok in He as (b & Hc & He).
  apply bind_Ok in He as ([] & Hv & He). injection He as ->.
  destruct (parse_compact d _ bytes (byte_limit_nonneg _ _ Hl) Hd Hc) as (Hp & _ & Hlen).
  unfold ObjectRef_for_bytes in Hr.
  apply bind_Ok in Hr as ([] & _ & Hr). apply bind_Ok in Hr as ([] & Hval & Hr).
  injection Hr as <-. eexists. split_and!; [|..|done|done].
  - unfold ObjectRef_verify. rewrite Hl, Hval. cbn [mbind result_bind or_byte_count or_digest].
    rewrite Z.eqb_refl, str_eqb_refl. reflexivity.
  - unfold decode. cbn [vo_reference vo_bytes or_schema]. rewrite bool_decide_true by done.
    exact Hp.
Qed.
End documents.

(** ** Building batches *)

Lemma bt_insert_fresh_length {K V} `{OrdKey K} (k : K) (v : V) m :
  bt_mem k m = false -> zlen (bt_insert k v m) = zlen m + 1.
Proof.
  unfold bt_mem. induction m as [|[k' v'] m IH]; simpl; [done|].
  destruct (kcmp k k'); [done| |]; intros Hm; rewrite !zlen_cons.
  - lia.
  - rewrite IH by done. lia.
Qed.

Lemma unlines_snoc l x : unlines (l ++ [x]) = unlines l +:+ x +:+ lf.
Proof. unfold unlines. rewrite map_app, concat_bytes_app. simpl. by rewrite sapp_nil_r. Qed.

Lemma bt_insert_mem {V} k k' (v : V) (m : btree Z V) :
  bt_wf m -> bt_mem k' (bt_insert k v m) = bool_decide (k = k') || bt_mem k' m.
Proof.
  intros Hm. unfold bt_mem. destruct (decide (k = k')) as [<-|Hne].
  - rewrite bt_get_insert_eq, bool_decide_true by done. done.
  - rewrite bt_get_insert_ne, bool_decide_false by done. done.
Qed.

Section batches.
Context `{E : Encoding} `{SR : Serde CaseRecord} `{SH : Serde CaseBatchHeader} `{SC : Serde DatasetCase}.

(** What the builder holds after pushing [pushed]: the encoded records with
    their cases, and a byte account that covers the header. *)
Record builder_inv (limits : FormatLimits) (dataset_id start : Z)
    (pushed : list CaseRecord) (b : CaseBatchBuilder) : Prop := mkBuilderInv {
  bi_limits : cbb_limits b = limits;
  bi_id : cbb_dataset_id b = dataset_id /\ cbb_start b = start;
  bi_end : cbb_end b = start + zlen pushed;
  bi_records : exists encs,
    Forall2 (fun r e => compact r (bl_max_bytes (fl_batch limits)) = Ok e) pushed encs /\
    cbb_records b = unlines encs;
  bi_cases : exists cases,
    Forall2 (fun r c => CaseRecord_validate r = Ok c) pushed cases /\
    NoDup (map dc_id cases) /\
    forall k, bt_mem k (cbb_ids b) = true <-> k ∈ map dc_id cases;
  bi_ids : bt_wf (cbb_ids b) /\ zlen (cbb_ids b) = zlen pushed;
  bi_ordinals : forall j r, pushed !! j = Some r -> cr_case_ordinal r = start + Z.of_nat j;
  bi_count : zlen pushed <= bl_max_cases (fl_batch limits);
  bi_bytes : pushed <> [] -> exists h,
    compact (builder_header b (cbb_end b)) (bl_max_bytes (fl_batch limits)) = Ok h /\
    str_len h + 1 + str_len (cbb_records b) <= bl_max_bytes (fl_batch limits)
}.

Lemma builder_new_inv dataset_id start limits b :
  builder_new dataset_id start limits = Ok b -> builder_inv limits dataset_id start [] b.
Proof.
  unfold builder_new. intros H. apply bind_Ok in H as ([] & Hl & H). inv_ok.
  unfold FormatLimits_validate, BatchLimits_validate in Hl. inv_ok.
  split; simpl; try done; unfold zlen; simpl; try lia.
  - exists []. split; [constructor|done].
  - exists []. split_and!; [constructor|constructor|]. intros k. split; [done|set_solver].
Qed.

Lemma push_record_inv limits id start pushed b r b' :
  builder_inv limits id start pushed b -> push_record b r = Ok b' ->
  builder_inv limits id start (pushed ++ [r]) b'.
Proof.
  intros [Hl [Hi Hs] Hend (encs & Henc & Hrec) (cases & Hcas & Hnd & Hmem) [Hwf Hlen] Hord Hcnt _] H.
  subst limits id start. unfold push_record, try_push, i32_checked_add in H.
  apply bind_Ok in H as ([b1 ok] & H & H'). cbn [fst snd] in H'. inv_ok.
  destruct (_ || _) eqn:Efull; inv_ok; [discriminate|].
  match goal with X : compact r _ = Ok ?e |- _ => rename X into Hcr; set (enc := e) in * end.
  match goal with X : CaseRecord_validate r = Ok ?c |- _ => rename X into Hval; set (case := c) in * end.
  match goal with X : bt_mem _ _ = false |- _ => rename X into Hfresh end.
  match goal with X : compact (builder_header _ _) _ = Ok ?h |- _ => rename X into Hh end.
  match goal with X : batch_bytes _ _ _ = Some _ |- _ => rename X into Hbb end.
  assert (Hcid : dc_id case ∉ map dc_id cases) by (rewrite <- Hmem; congruence).
  split; cbn [cbb_limits cbb_dataset_id cbb_start cbb_end cbb_records cbb_ids].
  - done.
  - done.
  - rewrite zlen_app. unfold zlen at 2. simpl. lia.
  - exists (encs ++ [enc]). split; [apply Forall2_app; [done|by repeat constructor]|].
    by rewrite Hrec, unlines_snoc.
  - exists (cases ++ [case]). split_and!.
    + apply Forall2_app; [done|by repeat constructor].
    + rewrite map_app. apply NoDup_app. split_and!; [done| |apply NoDup_singleton].
      intros x Hx ->%list_elem_of_singleton. done.
    + intros k. rewrite bt_insert_mem, map_app, elem_of_app, <- Hmem by done. simpl.
      rewrite list_elem_of_singleton, orb_true_iff, bool_decide_eq_true. naive_solver.
  - split; [auto|]. rewrite bt_insert_fresh_length, zlen_app by done. unfold zlen at 3. simpl. lia.
  - intros j x Hx. apply lookup_snoc_Some in Hx as [[_ Hx]|[-> <-]]; [by apply Hord|].
    unfold zlen in Hend. lia.
  - rewrite zlen_app. unfold zlen at 2. simpl. lia.
  - intros _. eexists. split; [exact Hh|].
    unfold batch_bytes, usize_checked_add in Hbb. unfold checked in Hbb.
    repeat (case_if; [|discriminate Hbb]; simpl in Hbb). injection Hbb as <-.
    rewrite !str_len_app. change (str_len lf) with 1. lia.
Qed.

Lemma push_records_inv limits id start records b0 b :
  builder_new id start limits = Ok b0 -> foldM push_record b0 records = Ok b ->
  builder_inv limits id start records b.
Proof.
  intros H0%builder_new_inv H. revert H.
  apply (foldM_inv_prefix (builder_inv limits id start)); [done|].
  intros. by eapply push_record_inv.
Qed.

Lemma builder_finish_Ok limits id start records b :
  builder_inv limits id start records b -> records <> [] ->
  exists h, compact (builder_header b (cbb_end b)) (bl_max_bytes (fl_batch limits)) = Ok h /\
    builder_finish b = Ok (h +:+ lf +:+ cbb_records b) /\
    str_len (h +:+ lf +:+ cbb_records b) <= bl_max_bytes (fl_batch limits).
Proof.
  intros [Hl _ _ _ _ [_ Hlen] _ _ Hb] Hne. destruct (Hb Hne) as (h & Hh & Hle). exists h.
  assert (Hsum : str_len (h +:+ lf +:+ cbb_records b) = str_len h + 1 + str_len (cbb_records b)).
  { rewrite !str_len_app. change (str_len lf) with 1. lia. }
  split_and!; [done| |lia]. unfold builder_finish.
  rewrite bool_decide_false.
  2: { intros E0. rewrite E0 in Hlen. unfold zlen in Hlen. simpl in Hlen. destruct records; [done|].
       simpl in Hlen. lia. }
  rewrite Hl. cbn [negb ensure mbind result_bind]. rewrite Hh. cbn [mbind result_bind].
  rewrite (proj2 (Z.leb_le _ _)) by lia. reflexivity.
Qed.

(** the byte account of a batch is exact: after any nonempty sequence of
    accepted pushes the batch can be finished, within the configured byte and
    case limits, so a record is never accepted into a batch that cannot be
    published. *)
Theorem accepted_batch_finishes limits id start records b0 b :
  builder_new id start limits = Ok b0 -> foldM push_record b0 records = Ok b -> records <> [] ->
  exists bytes, builder_finish b = Ok bytes /\
    str_len bytes <= bl_max_bytes (fl_batch limits) /\
    zlen records <= bl_max_cases (fl_batch limits) /\ cbb_end b = start + zlen records.
Proof.
  intros H0 H Hne. pose proof (push_records_inv _ _ _ _ _ _ H0 H) as I.
  destruct (builder_finish_Ok _ _ _ _ _ I Hne) as (h & _ & Hf & Hle).
  eexists. split; [exact Hf|]. destruct I. done.
Qed.

(** ** Reading batches *)

Lemma drain_records header lines records cases ordinal ids failed fuel :
  Forall2 (fun l r => parse l = Ok r) lines records ->
  Forall2 (fun r c => CaseRecord_validate r = Ok c) records cases ->
  (forall j r, records !! j = Some r -> cr_case_ordinal r = ordinal + Z.of_nat j) ->
  bh_ordinal_end header = ordinal + zlen records ->
  NoDup (map dc_id cases) -> (forall c, c ∈ cases -> bt_mem (dc_id c) ids = false) -> bt_wf ids ->
  (length lines < fuel)%nat ->
  drain fuel (mkCaseBatchReader header lines ordinal ids false failed) = Some (Ok records).
Proof.
  intros Hp. revert cases ordinal ids fuel.
  induction Hp as [|l r lines records Hl Hp IH]; intros cases ordinal ids fuel Hv Ho He Hnd Hids Hwf Hf;
    (destruct fuel as [|fuel]; [lia|]); cbn [drain].
  - unfold reader_next. cbn [rd_terminal rd_lines rd_ordinal rd_header].
    change (zlen []) with 0 in He. by rewrite (proj2 (Z.eqb_eq _ _)) by lia.
  - inversion Hv as [|? c ? cases' Hc Hv']; subst.
    rewrite zlen_cons in He. pose proof (zlen_nonneg records).
    unfold reader_next, read_line. cbn [rd_terminal rd_lines rd_ordinal rd_header rd_ids rd_failed].
    rewrite (proj2 (Z.ltb_lt _ _)) by lia. cbn [ensure mbind result_bind]. rewrite Hl.
    cbn [mbind result_bind]. specialize (Ho 0%nat r eq_refl) as Ho0.
    rewrite (proj2 (Z.eqb_eq _ _)) by lia. cbn [ensure mbind result_bind]. rewrite Hc.
    cbn [mbind result_bind]. rewrite (Hids c) by (by left). cbn [negb ensure mbind result_bind].
    simpl in Hnd. apply NoDup_cons in Hnd as [Hni Hnd].
    rewrite (IH cases'); [done|done| |lia|done| |auto|simpl in Hf; lia].
    + intros j x Hx. specialize (Ho (S j) x Hx). lia.
    + intros x Hx. rewrite bt_insert_mem, (Hids x) by (try done; by right).
      rewrite bool_decide_false; [done|]. intros Heq. apply Hni. rewrite Heq.
      by apply list_elem_of_fmap_2.
Qed.

(** Fuel of one more than the remaining lines is always enough. *)
Lemma drain_total fuel r : (length (rd_lines r) < fuel)%nat -> drain fuel r <> None.
Proof.
  revert r; induction fuel as [|fuel IH]; intros r Hf; [lia|]. cbn [drain]. unfold reader_next.
  destruct (rd_terminal r); [done|]. destruct (rd_lines r) as [|l lines] eqn:El.
  - by destruct (_ =? _).
  - destruct (read_line r l) as [[record case]|e]; [|done].
    match goal with |- context [drain fuel ?x] => pose proof (IH x) as IHx; destruct (drain fuel x) as [[|]|] end;
      try done. simpl in IHx. apply IHx. simpl in Hf. lia.
Qed.

Lemma drain_complete fuel r records :
  rd_terminal r = false -> bt_wf (rd_ids r) -> drain fuel r = Some (Ok records) ->
  exists cases, Forall2 (fun x c => CaseRecord_validate x = Ok c) records cases /\
    NoDup (map dc_id cases) /\ Forall (fun c => bt_mem (dc_id c) (rd_ids r) = false) cases /\
    rd_ordinal r + zlen records = bh_ordinal_end (rd_header r) /\
    (forall j x, records !! j = Some x -> cr_case_ordinal x = rd_ordinal r + Z.of_nat j).
Proof.
  revert r records; induction fuel as [|fuel IH]; intros r records Ht Hwf H; [done|].
  cbn [drain] in H. unfold reader_next in H. rewrite Ht in H.
  destruct (rd_lines r) as [|l lines].
  - destruct (_ =? _) eqn:Eo in H; [|discriminate H]. injection H as <-.
    exists []. split_and!; [constructor|constructor|constructor| |done].
    unfold zlen. simpl. lia.
  - destruct (read_line r l) as [[record case]|e] eqn:Er; [|discriminate H].
    match type of H with context [drain fuel ?x] => destruct (drain fuel x) as [[rest|]|] eqn:Ed end;
      [|discriminate H|discriminate H]. injection H as <-.
    unfold read_line in Er. inv_ok.
    match goal with X : CaseRecord_validate _ = Ok _ |- _ => rename X into Hv end.
    match goal with X : bt_mem _ _ = false |- _ => rename X into Hfresh end.
    apply IH in Ed as (cases & Hc & Hnd & Hids & Hend & Hord); [|done|cbn [rd_ids]; auto].
    cbn [rd_ids rd_ordinal rd_header] in *. exists (case :: cases).
    assert (Hids' : Forall (fun c => bool_decide (dc_id case = dc_id c) = false /\
                            bt_mem (dc_id c) (rd_ids r) = false) cases).
    { eapply Forall_impl; [exact Hids|]. simpl. intros c. rewrite bt_insert_mem by done.
      by intros ?%orb_false_iff. }
    split_and!.
    + by constructor.
    + simpl. constructor; [|done]. intros (c & Hc1 & Hc2)%list_elem_of_fmap.
      rewrite Forall_forall in Hids'. destruct (Hids' c Hc2) as [Hb _].
      by apply bool_decide_eq_false in Hb.
    + constructor; [done|]. eapply Forall_impl; [exact Hids'|]. simpl. tauto.
    + rewrite zlen_cons. lia.
    + intros [|j] x Hx; simpl in Hx; [injection Hx as <-; lia|]. specialize (Hord j x Hx). lia.
Qed.

(** Reading to the end authorises only complete batches: whenever the
    records of a decoded batch are read without an error, they are exactly the
    ordinals its header announces, in order and without gap, every record passes
    validation and no case identity occurs twice; and reading always ends. *)
Theorem batch_reader_complete d limits r :
  batch_validate d limits = Ok r ->
  exists o, drain_all r = Some o /\
  forall records, o = Ok records ->
    zlen records = bh_ordinal_end (dcb_header d) - bh_ordinal_start (dcb_header d) /\
    1 <= zlen records <= bl_max_cases (fl_batch limits) /\
    (forall j x, records !! j = Some x ->
       cr_case_ordinal x = bh_ordinal_start (dcb_header d) + Z.of_nat j) /\
    exists cases, Forall2 (fun x c => CaseRecord_validate x = Ok c) records cases /\
      NoDup (map dc_id cases).
Proof.
  intros H. unfold batch_validate in H. inv_ok.
  match goal with X : range _ _ = Ok _ |- _ => apply range_Ok in X as Hr end.
  destruct (drain_all _) as [o|] eqn:Ed; [|by apply drain_total in Ed; [|lia]].
  exists o. split; [done|]. intros records ->.
  apply drain_complete in Ed as (cases & Hc & Hnd & _ & Hend & Hord); [|done|apply bt_wf_nil].
  cbn [rd_ordinal rd_header] in *. split_and!; [lia|lia|lia|done|]. by exists cases.
Qed.
End batches.

(** ** Round trip of case batches *)

Section storage_of_batches.
Context `{L : PrintLaws} `{SR : Serde CaseRecord} `{SH : Serde CaseBatchHeader}
  `{SC : Serde DatasetCase} `{!SerdeLaws record_exact} `{!SerdeLaws header_exact}.

Lemma parse_encoded max records encs :
  0 <= max -> Forall record_exact records ->
  Forall2 (fun r e => compact r max = Ok e) records encs ->
  Forall2 (fun l r => parse l = Ok r) encs records /\ Forall (fun l => no_lf l = true) encs.
Proof.
  intros Hmax Hex H2. induction H2 as [|r e records encs Hr _ IH]; [split; constructor|].
  apply Forall_cons in Hex as [Hx Hex]. destruct (IH Hex) as [IH1 IH2].
  destruct (parse_compact record_exact r max e Hmax Hx Hr) as (Hp & Hn & _).
  split; by constructor.
Qed.

Lemma decode_lines ref header h encs :
  or_schema ref = FCaseBatch -> parse h = Ok header -> no_lf h = true ->
  decode_case_batch (mkVerifiedObject ref (unlines (h :: encs)))
  = Ok (mkDecodedCaseBatch header (unlines (h :: encs))).
Proof.
  intros Href Hph Hnh. unfold decode_case_batch. cbn [vo_reference vo_bytes].
  rewrite bool_decide_true by done. cbn [ensure mbind result_bind].
  rewrite unlines_ends. cbn [ensure mbind result_bind].
  rewrite unlines_cons at 1. rewrite before_lf_line by done. cbn [ok_or mbind result_bind].
  rewrite Hph. reflexivity.
Qed.

Lemma validate_lines limits header h encs :
  FormatLimits_validate limits = Ok tt -> bh_schema header = FCaseBatch ->
  str_len (unlines (h :: encs)) <= bl_max_bytes (fl_batch limits) ->
  0 <= bh_ordinal_start header -> bh_ordinal_start header < bh_ordinal_end header ->
  bh_ordinal_end header - bh_ordinal_start header <= bl_max_cases (fl_batch limits) ->
  no_lf h = true -> Forall (fun l => no_lf l = true) encs ->
  batch_validate (mkDecodedCaseBatch header (unlines (h :: encs))) limits
  = Ok (mkCaseBatchReader header encs (bh_ordinal_start header) [] false false).
Proof.
  intros Hlim Hsch Hlen Hs Hlt Hc Hnh Hne. unfold batch_validate. cbn [dcb_header dcb_bytes].
  rewrite Hlim. cbn [mbind result_bind].
  rewrite (proj2 (Z.leb_le (str_len _) _)) by lia. cbn [ensure mbind result_bind].
  rewrite bool_decide_true by done. cbn [ensure mbind result_bind]. unfold range.
  rewrite (proj2 (Z.leb_le 0 _)), (proj2 (Z.ltb_lt _ _)) by lia. cbn [andb ensure mbind result_bind].
  rewrite (proj2 (Z.leb_le _ (bl_max_cases _))) by lia. cbn [ensure mbind result_bind].
  by rewrite split_unlines.
Qed.

(** C36: a case batch without fractional numbers survives storage.  Let every
    record's source be a well-formed value in which each number is an integer
    ([record_exact]); numbers that are read as floats are excluded, since
    serde_json without its float_roundtrip feature need not read back the value it
    printed.  Then reading the bytes [encode_batch] produced, under the same
    limits, yields the same header and exactly the encoded records in order. *)
Theorem batch_roundtrip header records limits bytes ref :
  Forall record_exact records -> encode_batch header records limits = Ok bytes ->
  or_schema ref = FCaseBatch ->
  exists d r, decode_case_batch (mkVerifiedObject ref bytes) = Ok d /\ dcb_header d = header /\
    batch_validate d limits = Ok r /\ drain_all r = Some (Ok records).
Proof.
  intros Hex He Href. unfold encode_batch in He.
  apply bind_Ok in He as (b0 & H0 & He). apply bind_Ok in He as (? & Hsch%ensure_Ok & He).
  apply bind_Ok in He as (b & Hb & He). apply bind_Ok in He as (? & Hend%ensure_Ok & He).
  pose proof (push_records_inv _ _ _ _ _ _ H0 Hb) as I.
  apply bool_decide_eq_true in Hsch. apply Z.eqb_eq in Hend.
  assert (Hne : records <> []).
  { intros ->. simpl in Hb. injection Hb as <-. unfold builder_new in H0.
    apply bind_Ok in H0 as (? & _ & H0). apply bind_Ok in H0 as (? & _ & H0).
    injection H0 as <-. discriminate He. }
  destruct (builder_finish_Ok _ _ _ _ _ I Hne) as (h & Hh & Hf & Hlen).
  rewrite Hf in He. injection He as <-.
  destruct I as [Hl [Hid Hst] Hbe (encs & Henc & Hrec) (cases & Hcas & Hnd & _) _ Hord Hcnt _].
  assert (Hhdr : builder_header b (cbb_end b) = header).
  { unfold builder_header. rewrite Hend, Hid, Hst, <- Hsch. by destruct header. }
  rewrite Hhdr in Hh.
  assert (Hlim : FormatLimits_validate limits = Ok tt /\ 0 <= bh_ordinal_start header).
  { unfold builder_new in H0. apply bind_Ok in H0 as ([] & Hv & H0).
    apply bind_Ok in H0 as (? & Hs%ensure_Ok & _). split; [done|lia]. }
  destruct Hlim as [Hlim Hstart]. pose proof (byte_limit_nonneg FCaseBatch _ Hlim) as Hmax.
  cbn [byte_limit] in Hmax.
  destruct (parse_compact header_exact header _ h Hmax I Hh) as (Hph & Hnh & _).
  destruct (parse_encoded _ _ _ Hmax Hex Henc) as [Hpe Hne'].
  assert (Hbytes : h +:+ lf +:+ cbb_records b = unlines (h :: encs))
    by (rewrite unlines_cons, Hrec; reflexivity).
  rewrite Hbytes in *.
  exists (mkDecodedCaseBatch header (unlines (h :: encs))),
    (mkCaseBatchReader header encs (bh_ordinal_start header) [] false false).
  assert (Hpos : 0 < zlen records).
  { destruct records; [done|]. rewrite zlen_cons. pose proof (zlen_nonneg records). lia. }
  split_and!.
  - by apply decode_lines.
  - done.
  - apply validate_lines; [done|done|done|lia|lia|lia|done|done].
  - unfold drain_all. eapply drain_records; [exact Hpe|exact Hcas| | |done| |apply bt_wf_nil|simpl; lia].
    + exact Hord.
    + lia.
    + done.
Qed.
End storage_of_batches.
