(* ===== verification/CodecText.v ===== *)
(** * A concrete text layer for the codecs

    Shows that the laws the codec theorems assume of the JSON text layer can hold:
    values are printed as the binary digits of a code of their syntax tree and
    parsed back from it, with matching conversions for batch records, batch
    headers and dataset source fields.  The theorems of the codec are applied
    there to concrete documents and batches. *)

From Stdlib Require Import ZArith Lia ZifyBool Ascii.
From stdpp Require Import base strings numbers sets countable option list.
From S2P Require Import Prelude Float64 BTree Text Json RunTypes StorageFormats Codec.

Open Scope Z_scope.

(** ** Printing and parsing *)

Fixpoint bits (p : positive) : string :=
  match p with
  | xH => ""
  | xO p' => String "0" (bits p')
  | xI p' => String "1" (bits p')
  end.

Fixpoint unbits (s : string) : option positive :=
  match s with
  | EmptyString => Some xH
  | String c s' =>
      p ← unbits s';
      if Ascii.eqb c "0" then Some (xO p) else if Ascii.eqb c "1" then Some (xI p) else None
  end.

Lemma unbits_bits p : unbits (bits p) = Some p.
Proof. induction p as [p IH|p IH|]; cbn [bits unbits]; rewrite ?IH; reflexivity. Qed.

Lemma bits_no_lf p : no_lf (bits p) = true.
Proof. induction p; cbn [bits no_lf]; auto. Qed.

Definition tree : Type := gen_tree (bool + Z + string).

Fixpoint tree_of (v : Value) : tree :=
  match v with
  | Null => GenNode 0 []
  | Bool b => GenLeaf (inl (inl b))
  | Num (PosInt n) => GenLeaf (inl (inr n))
  | Num (NegInt n) => GenNode 1 [GenLeaf (inl (inr n))]
  | Num (Float _) => GenNode 2 []
  | Str s => GenLeaf (inr s)
  | Array l => GenNode 3 (map tree_of l)
  | Object m => GenNode 4 (map (fun kv => GenNode 5 [GenLeaf (inr kv.1); tree_of kv.2]) m)
  end.

Fixpoint raw_of (t : tree) : Raw :=
  match t with
  | GenLeaf (inl (inl b)) => RBool b
  | GenLeaf (inl (inr n)) => RU64 n
  | GenLeaf (inr s) => RStr s
  | GenNode 1 [GenLeaf (inl (inr n))] => RI64 n
  | GenNode 3 l => RSeq (map raw_of l)
  | GenNode 4 m =>
      RMap (map (fun t => match t with
                          | GenNode 5 [GenLeaf (inr k); u] => (k, raw_of u)
                          | _ => ("", RUnit)
                          end) m)
  | _ => RUnit
  end.

Definition text_print (v : Value) : result string := Ok (bits (countable.encode (tree_of v))).
Definition text_parse (s : string) : option Raw :=
  p ← unbits s; t ← countable.decode (A := tree) p; Some (raw_of t).

#[local] Instance text_encoding : Encoding :=
  {| json_parse := text_parse; to_vec := text_print;
     blake3_hex := constant_digest; blake3_bytes := fun _ => repeat 0 32 |}.

Lemma bt_wf_prefix_above {V} pre k (v : V) (m : btree string V) :
  bt_wf (pre ++ (k, v) :: m) -> Forall (fun kv => klt kv.1 k) pre.
Proof.
  unfold bt_wf. rewrite map_app. induction pre as [|[k' v'] pre IH]; simpl; intros Hs; [constructor|].
  inversion Hs as [|? ? Hs' Hall]; subst. constructor; [|by apply IH].
  rewrite Forall_app in Hall. destruct Hall as [_ Hall]. by inversion Hall.
Qed.

Lemma bt_mem_above {V} k (m : btree string V) :
  Forall (fun kv => klt kv.1 k) m -> bt_mem k m = false.
Proof.
  unfold bt_mem. induction 1 as [|[k' v'] m Hk _ IH]; simpl in *; [done|].
  assert (kcmp k k' = Gt) as -> by (by apply kcmp_gt). done.
Qed.

Lemma raw_strict v :
  value_wf v -> value_exact v = true -> strict_value (raw_of (tree_of v)) = Ok v.
Proof.
  induction v using Value_rect'; intros Hwf Hex; inversion Hwf; subst; try done.
  - destruct n as [n|n|x]; simpl in Hex; [done| |done].
    cbn [tree_of raw_of strict_value]. unfold number_of_i64. by rewrite Hex.
  - cbn [tree_of raw_of strict_value value_exact] in *.
    match goal with X : Forall value_wf l |- _ => rename X into Hl end. clear Hwf.
    match goal with |- (?m ≫= _) = _ => assert (E : m = Ok l) end; [|by rewrite E].
    induction H as [|x l Hx _ IH]; [done|]. apply Forall_cons in Hl as [Hw Hl].
    cbn [forallb] in Hex. apply andb_true_iff in Hex as [He Hex].
    cbn [map]. rewrite (Hx Hw He). cbn [mbind result_bind]. by rewrite (IH Hex Hl).
  - cbn [tree_of raw_of strict_value value_exact] in *.
    match goal with X : Forall (fun kv => value_wf kv.2) m |- _ => rename X into Hl end.
    match goal with X : bt_wf m |- _ => rename X into Hm end. clear Hwf.
    match goal with |- (?g [] ?x ≫= _) = _ => set (go := g); assert (E : go [] x = Ok m) end;
      [|by rewrite E].
    assert (G : forall pre, bt_wf (pre ++ m) ->
      go pre (map (fun t => match t with
                          | GenNode 5 [GenLeaf (inr k); u] => (k, raw_of u)
                          | _ => ("", RUnit)
                          end)
        (map (fun kv => GenNode 5 [GenLeaf (inr kv.1); tree_of kv.2]) m)) = Ok (pre ++ m));
      [|by apply (G [])].
    clear Hm. induction H as [|[k x] m Hx _ IH]; intros pre Hpre.
    { by rewrite app_nil_r. }
    apply Forall_cons in Hl as [Hw Hl]. cbn [forallb] in Hex. apply andb_true_iff in Hex as [He Hex].
    cbn [map fst snd] in *. cbn [go]. fold go.
    pose proof (bt_wf_prefix_above pre k x m Hpre) as Hab.
    rewrite (bt_mem_above k pre Hab), (Hx Hw He). cbn [mbind result_bind].
    rewrite bt_insert_above by done. rewrite (IH Hex Hl); rewrite <- app_assoc; done.
Qed.

#[local] Instance text_laws : PrintLaws.
Proof.
  split.
  - intros v b Hwf Hex [= <-]. unfold strict_json. cbn [json_parse text_encoding]. unfold text_parse.
    rewrite unbits_bits. cbn [mbind option_bind]. rewrite decode_encode. cbn [ok_or mbind result_bind option_bind].
    rewrite raw_strict by done. reflexivity.
  - intros v b [= <-]. apply bits_no_lf.
Qed.

(** Integers, and the conversions of the stored types of a batch. *)
Definition num (n : Z) : Value := Num (if n <? 0 then NegInt n else PosInt n).
#[local] Arguments num : simpl never.
Definition of_num (v : Value) : result Z :=
  match v with Num (PosInt n) | Num (NegInt n) => Ok n | _ => Err "expected integer" end.
Definition of_str (v : Value) : result string :=
  match v with Str s => Ok s | _ => Err "expected string" end.
Definition of_format (v : Value) : result StorageFormat :=
  s ← of_str v;
  ok_or (head (base.filter (fun f => format_name f = s)
    [FCaseBatch; FDatasetSourceFields; FDatasetManifest; FOrdinalIndex; FRunChunks;
     FRunPlanManifest; FRunConfiguration; FGateCounts])) "unknown variant".

Lemma num_exact n : value_exact (num n) = true.
Proof. unfold num. destruct (n <? 0) eqn:En; simpl; [done|done]. Qed.

Definition record_value (r : CaseRecord) : Value :=
  Object [("case_hash", Str (cr_case_hash r)); ("case_ordinal", num (cr_case_ordinal r));
          ("source", cr_source r)].
Definition header_value (h : CaseBatchHeader) : Value :=
  Object [("dataset_id", num (bh_dataset_id h)); ("ordinal_end", num (bh_ordinal_end h));
          ("ordinal_start", num (bh_ordinal_start h)); ("schema", Str (format_name (bh_schema h)))].
Definition fields_value (d : DatasetSourceFields) : Value :=
  Object [("cases_present", Bool (ds_cases_present d)); ("fields", ds_fields d);
          ("schema", Str (format_name (ds_schema d)))].

Definition print_chunks (v : Value) : result (list string) := text ← text_print v; Ok [text].

#[local] Instance record_serde : Serde CaseRecord := {|
  ser_chunks := fun r => print_chunks (record_value r);
  from_value := fun v =>
    hash ← of_str (json_index v "case_hash"); ordinal ← of_num (json_index v "case_ordinal");
    Ok (mkCaseRecord ordinal hash (json_index v "source")) |}.
#[local] Instance header_serde : Serde CaseBatchHeader := {|
  ser_chunks := fun h => print_chunks (header_value h);
  from_value := fun v =>
    schema ← of_format (json_index v "schema"); id ← of_num (json_index v "dataset_id");
    start ← of_num (json_index v "ordinal_start"); end_ ← of_num (json_index v "ordinal_end");
    Ok (mkCaseBatchHeader schema id start end_) |}.
#[local] Instance fields_serde : Serde DatasetSourceFields := {|
  ser_chunks := fun d => print_chunks (fields_value d);
  from_value := fun v =>
    schema ← of_format (json_index v "schema");
    Ok (mkDatasetSourceFields schema (value_eqb (json_index v "cases_present") (Bool true))
          (json_index v "fields")) |}.

(** A case is read off its identifier alone. *)
#[local] Instance case_serde : Serde DatasetCase := {|
  ser_chunks := fun c => print_chunks (num (dc_id c));
  from_value := fun v => id ← of_num v; Ok (mkDatasetCase id "chat" None v None None [] []) |}.

Lemma text_roundtrip v w chunks :
  value_wf v -> value_exact v = true -> print_chunks v = Ok chunks ->
  strict_json (concat_bytes chunks) = Ok w -> w = v.
Proof.
  intros Hwf Hex [= <-]. cbn [concat_bytes]. rewrite sapp_nil_r.
  rewrite (@print_strict text_encoding text_laws v _ Hwf Hex eq_refl). by intros [= <-].
Qed.

Lemma num_wf n : value_wf (num n).
Proof. constructor. Qed.

#[local] Hint Constructors value_wf : core.
#[local] Hint Resolve num_wf : core.

(** An object with ordered keys and well-formed members. *)
Ltac solve_object_wf :=
  constructor; [repeat constructor|]; repeat (apply List.Forall_cons || apply List.Forall_nil);
  cbn [snd]; auto.

Lemma record_value_wf r : value_wf (cr_source r) -> value_wf (record_value r).
Proof. intros. unfold record_value. solve_object_wf. Qed.
Lemma header_value_wf h : value_wf (header_value h).
Proof. unfold header_value. solve_object_wf. Qed.
Lemma fields_value_wf d : value_wf (ds_fields d) -> value_wf (fields_value d).
Proof. intros. unfold fields_value. solve_object_wf. Qed.

Lemma from_record_value r : from_value (record_value r) = Ok r.
Proof.
  destruct r as [n h s]. unfold record_value, num. cbn [cr_case_ordinal cr_case_hash cr_source].
  destruct (n <? 0); vm_compute; reflexivity.
Qed.
Lemma from_header_value h : from_value (header_value h) = Ok h.
Proof.
  destruct h as [s i a b]. unfold header_value, num.
  cbn [bh_schema bh_dataset_id bh_ordinal_start bh_ordinal_end].
  destruct (i <? 0), (a <? 0), (b <? 0), s; vm_compute; reflexivity.
Qed.
Lemma from_fields_value d : from_value (fields_value d) = Ok d.
Proof. destruct d as [[] [] f]; vm_compute; reflexivity. Qed.

#[local] Instance record_laws : SerdeLaws record_exact.
Proof.
  split. intros r chunks v [Hwf Hex] Hc Hv.
  assert (Hrex : value_exact (record_value r) = true)
    by (unfold record_value; cbn [value_exact forallb snd]; by rewrite num_exact, Hex).
  rewrite (text_roundtrip _ _ _ (record_value_wf r Hwf) Hrex Hc Hv).
  split; [done|apply from_record_value].
Qed.

#[local] Instance header_laws : SerdeLaws header_exact.
Proof.
  split. intros h chunks v _ Hc Hv.
  assert (Hrex : value_exact (header_value h) = true)
    by (unfold header_value; cbn [value_exact forallb snd]; by rewrite !num_exact).
  rewrite (text_roundtrip _ _ _ (header_value_wf h) Hrex Hc Hv).
  split; [done|apply from_header_value].
Qed.

Definition fields_exact (d : DatasetSourceFields) : Prop :=
  value_wf (ds_fields d) /\ value_exact (ds_fields d) = true.

#[local] Instance fields_laws : SerdeLaws fields_exact.
Proof.
  split. intros d chunks v [Hwf Hex] Hc Hv.
  assert (Hrex : value_exact (fields_value d) = true)
    by (unfold fields_value; cbn [value_exact forallb snd]; by rewrite Hex).
  rewrite (text_roundtrip _ _ _ (fields_value_wf d Hwf) Hrex Hc Hv).
  split; [done|apply from_fields_value].
Qed.

(** ** Concrete batches *)

Definition sample_record (ordinal id : Z) : CaseRecord :=
  mkCaseRecord ordinal sample_digest (Num (PosInt id)).
Definition sample_records : list CaseRecord := [sample_record 5 70; sample_record 6 71].
Definition sample_header : CaseBatchHeader := mkCaseBatchHeader FCaseBatch 9 5 7.

Definition sample_bytes : string := Eval vm_compute in
  match encode_batch sample_header sample_records FormatLimits_default with Ok b => b | Err e => e end.

#[local] Instance fields_document : StorageDocument DatasetSourceFields :=
  {| SCHEMA := FDatasetSourceFields;
     doc_validate := DatasetSourceFields_validate (fun _ => Ok (mkRunDataset 9 None [])) |}.

Definition sample_fields : DatasetSourceFields :=
  mkDatasetSourceFields FDatasetSourceFields true (Object [("dataset_id", Str "9")]).
Definition sample_fields_bytes : string := Eval vm_compute in
  match Codec.encode sample_fields FormatLimits_default with Ok b => b | Err e => e end.
Definition sample_fields_ref : ObjectRef :=
  mkObjectRef "primary" "datasets/fields" FDatasetSourceFields Blake3 sample_digest
    (str_len sample_fields_bytes) None.

Lemma document_roundtrip_witness :
  exists v, ObjectRef_verify blake3_hex sample_fields_ref sample_fields_bytes FormatLimits_default = Ok v /\
    Codec.decode v = Ok sample_fields.
Proof.
  destruct (document_roundtrip fields_exact sample_fields FormatLimits_default sample_fields_bytes
    "primary" "datasets/fields" sample_fields_ref) as (v & Hv & Hd & _).
  - split; [|vm_compute; reflexivity]. solve_object_wf.
  - vm_compute. reflexivity.
  - vm_compute. reflexivity.
  - exists v. split; [exact Hv|exact Hd].
Defined.

Definition sample_builder : CaseBatchBuilder := mkCaseBatchBuilder 9 5 5 FormatLimits_default "" [].
Definition sample_pushed : CaseBatchBuilder :=
  match foldM push_record sample_builder sample_records with Ok b => b | Err _ => sample_builder end.

Lemma accepted_batch_finishes_witness :
  exists bytes, builder_finish sample_pushed = Ok bytes /\ str_len bytes <= 8 * MIB.
Proof.
  destruct (accepted_batch_finishes FormatLimits_default 9 5 sample_records sample_builder sample_pushed)
    as (bytes & Hf & Hle & _).
  - vm_compute. reflexivity.
  - vm_compute. reflexivity.
  - discriminate.
  - exists bytes. split; [exact Hf|exact Hle].
Defined.

Definition sample_decoded : DecodedCaseBatch := mkDecodedCaseBatch sample_header sample_bytes.
Definition sample_reader : CaseBatchReader :=
  mkCaseBatchReader sample_header (tail (split_lf (without_last sample_bytes))) 5 [] false false.

Lemma batch_reader_complete_witness :
  exists o, drain_all sample_reader = Some o.
Proof.
  destruct (batch_reader_complete sample_decoded FormatLimits_default sample_reader) as (o & Ho & _).
  - vm_compute. reflexivity.
  - exists o. exact Ho.
Defined.

Lemma batch_roundtrip_witness :
  exists d r, decode_case_batch (mkVerifiedObject (sample_ref FCaseBatch "datasets/a") sample_bytes) = Ok d /\
    dcb_header d = sample_header /\ batch_validate d FormatLimits_default = Ok r /\
    drain_all r = Some (Ok sample_records).
Proof.
  apply (batch_roundtrip sample_header sample_records FormatLimits_default sample_bytes).
  - repeat (apply List.Forall_cons || apply List.Forall_nil); (split; [constructor|reflexivity]).
  - vm_compute. reflexivity.
  - reflexivity.
Defined.
