(* ===== verification/Identity.v ===== *)
(** * Dataset identities

    Model of the incremental dataset identity of
    src/vigilo/src/contracts/case_storage/identity.rs: the source hash, the
    dataset-version UUID and the case count are computed while cases stream by.
    A BLAKE3 hasher is the bytes fed to it so far, hashed at the end.  The main
    theorem equates the streamed identity with hashing the whole dataset
    document at once. *)

From Stdlib Require Import ZArith Lia ZifyBool Ascii Sorted.
From stdpp Require Import base strings pretty numbers sets sorting option list.
From S2P Require Import Prelude Float64 BTree Text Json RunTypes StorageFormats Codec.

Open Scope Z_scope.

Definition dq : string := String (Ascii.ascii_of_N 34) "".

(** [uuid_from_digest]: the first sixteen bytes with version 8 and the RFC 4122
    variant, as one big-endian number. *)
Definition uuid_bytes (digest : list Z) : list Z :=
  let bytes := take 16 digest in
  let bytes := alter (fun b => Z.lor (Z.land b 15) 128) 6%nat bytes in
  alter (fun b => Z.lor (Z.land b 63) 128) 8%nat bytes.

Definition uuid_from_digest (digest : list Z) : Uuid :=
  fold_left (fun acc b => acc * 256 + b) (uuid_bytes digest) 0.

Record DatasetIdentityBuilder := mkDatasetIdentityBuilder {
  dib_record_bytes : Z;
  dib_dataset_id : Uuid;
  dib_dataset_version : option string;
  dib_source : string;
  dib_membership : string;
  dib_suffix : string;
  dib_ordinal : Z
}.

Record FieldState := mkFieldState {
  fs_before : bool;
  fs_separator : bool;
  fs_source : string;
  fs_suffix : string
}.

Section identity.
Context `{E : Encoding} `{SD : Serde DatasetSourceFields} `{SR : Serde CaseRecord}
  `{SC : Serde DatasetCase} `{D : StorageDocument DatasetSourceFields}.
(** [serde_json::from_value::<RunDataset>] and the uuid crate's text form. *)
Variable dataset_of_value : Value -> result RunDataset.
Variable uuid_value : Uuid -> Value.

Definition uuid_from_json (value : Value) : result Uuid :=
  bytes ← to_vec value; Ok (uuid_from_digest (blake3_bytes bytes)).

(** The member of [cases] opens where its key belongs in the order. *)
Definition open_cases (st : FieldState) : FieldState :=
  mkFieldState false (fs_separator st)
    (fs_source st +:+ (if fs_separator st then "," else "") +:+ dq +:+ "cases" +:+ dq +:+ ":[")
    (fs_suffix st).

Definition add_field (st : FieldState) (kv : string * Value) : result FieldState :=
  let '(key, value) := kv in
  let st := if fs_before st && kltb "cases" key then open_cases st else st in
  encoded ← to_vec (canonical_json value);
  key ← to_vec (Str key);
  Ok (if fs_before st
      then mkFieldState true true
             (fs_source st +:+ (if fs_separator st then "," else "") +:+ key +:+ ":" +:+ encoded)
             (fs_suffix st)
      else mkFieldState false (fs_separator st) (fs_source st)
             (fs_suffix st +:+ "," +:+ key +:+ ":" +:+ encoded)).

Definition identity_prefix (dataset : RunDataset) : Value :=
  Object (bt_collect [("dataset_id", uuid_value (rds_dataset_id dataset));
                      ("dataset_version", opt_str (rds_dataset_version dataset))]).

Definition identity_new (fields : DatasetSourceFields) (limits : FormatLimits)
    : result DatasetIdentityBuilder :=
  _ ← encode fields limits;
  _ ← DatasetSourceFields_validate dataset_of_value fields limits;
  _ ← ensure (ds_cases_present fields) "nonempty datasets require cases_present";
  dataset ← dataset_of_value (ds_fields fields);
  prefix ← to_vec (identity_prefix dataset);
  let membership := without_last prefix +:+ "," +:+ dq +:+ "membership" +:+ dq +:+ ":[" in
  st ← foldM add_field (mkFieldState true false "{" "")
         (default [] (as_object (canonical_json (ds_fields fields))));
  let st := if fs_before st then open_cases st else st in
  Ok (mkDatasetIdentityBuilder (bl_max_bytes (fl_batch limits)) (rds_dataset_id dataset)
        (rds_dataset_version dataset) (fs_source st) membership (fs_suffix st +:+ "}") 0).

Definition membership_value (case_id : Uuid) (record : CaseRecord) : Value :=
  Object (bt_collect [("case_id", uuid_value case_id); ("case_ordinal", Num (number_of_i64 (cr_case_ordinal record)));
                      ("case_hash", Str (cr_case_hash record))]).

Definition identity_push (b : DatasetIdentityBuilder) (record : CaseRecord)
    : result DatasetIdentityBuilder :=
  _ ← ensure (cr_case_ordinal record =? dib_ordinal b) "dataset identity ordinal gap or overlap";
  next ← ok_or (i32_checked_add (dib_ordinal b) 1) "dataset case count exceeds i32";
  _ ← compact record (dib_record_bytes b);
  case ← CaseRecord_validate record;
  source ← to_vec (canonical_json (cr_source record));
  membership ← to_vec (membership_value (dc_id case) record);
  let comma := if 0 <? dib_ordinal b then "," else "" in
  Ok (mkDatasetIdentityBuilder (dib_record_bytes b) (dib_dataset_id b) (dib_dataset_version b)
        (dib_source b +:+ comma +:+ source) (dib_membership b +:+ comma +:+ membership)
        (dib_suffix b) next).

Definition identity_finish (b : DatasetIdentityBuilder) : result (string * Uuid * Z) :=
  _ ← ensure (0 <? dib_ordinal b) "dataset must contain at least one case";
  Ok (blake3_hex (dib_source b +:+ "]" +:+ dib_suffix b),
      uuid_from_digest (blake3_bytes (dib_membership b +:+ "]}")),
      dib_ordinal b).

Definition identity_verify (b : DatasetIdentityBuilder) (manifest : DatasetManifest)
    (limits : FormatLimits) : result unit :=
  _ ← DatasetManifest_validate manifest limits;
  _ ← ensure ((dib_dataset_id b =? dm_dataset_id manifest)
              && bool_decide (dib_dataset_version b = dm_dataset_version manifest))
        "manifest/source dataset identity mismatch";
  identity ← identity_finish b;
  let '(hash, version, count) := identity in
  ensure (str_eqb hash (dm_dataset_hash manifest) && (version =? dm_dataset_version_id manifest)
          && (count =? dm_case_count manifest))
    "manifest/source hash, version, or case count mismatch".
End identity.

(** ** Compact JSON

    What compact printing looks like: members and items separated by commas, no
    white space, plain ASCII keys quoted verbatim. *)

Definition is_plain (c : Z) : bool := is_ascii_alphanumeric c || (c =? 95).

Class CompactLaws `{Encoding} := {
  print : Value -> string;
  print_ok : forall v, to_vec v = Ok (print v);
  print_object : forall m, print (Object m) =
    "{" +:+ join "," (map (fun kv => print (Str kv.1) +:+ ":" +:+ print kv.2) m) +:+ "}";
  print_array : forall l, print (Array l) = "[" +:+ join "," (map print l) +:+ "]";
  print_plain : forall s, forallb is_plain (codes s) = true -> print (Str s) = dq +:+ s +:+ dq
}.

Lemma join_snoc l x :
  join "," (l ++ [x]) = join "," l +:+ (if bool_decide (l = []) then "" else ",") +:+ x.
Proof.
  induction l as [|y l IH]; [done|]. destruct l as [|z l].
  - done.
  - change ((y :: z :: l) ++ [x]) with (y :: (z :: l) ++ [x]).
    assert (Ej : join "," (y :: (z :: l) ++ [x]) = y +:+ "," +:+ join "," ((z :: l) ++ [x])) by done.
    rewrite Ej, IH. rewrite !bool_decide_false by done.
    assert (Ek : join "," (y :: z :: l) = y +:+ "," +:+ join "," (z :: l)) by done.
    rewrite Ek. by rewrite <- !sapp_assoc.
Qed.

(** A separated list splits at any point into its front and comma-led rest. *)
Definition comma_led (l : list string) : string := concat_bytes (map (fun x => "," +:+ x) l).

Lemma join_app_cons l x k : join "," (l ++ x :: k) = join "," (l ++ [x]) +:+ comma_led k.
Proof.
  revert x l; induction k as [|y k IH]; intros x l.
  - unfold comma_led. simpl. by rewrite sapp_nil_r.
  - rewrite cons_middle, app_assoc, IH, join_snoc. rewrite bool_decide_false by (by destruct l).
    unfold comma_led. cbn [map concat_bytes]. by rewrite <- !sapp_assoc.
Qed.

Lemma comma_led_snoc l x : comma_led (l ++ [x]) = comma_led l +:+ "," +:+ x.
Proof. unfold comma_led. rewrite map_app, concat_bytes_app. simpl. by rewrite sapp_nil_r. Qed.

Lemma bt_insert_between {V} k (v : V) (m1 m2 : btree string V) :
  Forall (fun kv => klt kv.1 k) m1 -> Forall (fun kv => klt k kv.1) m2 ->
  bt_insert k v (m1 ++ m2) = m1 ++ (k, v) :: m2.
Proof.
  intros H1 H2. induction H1 as [|[k' v'] m1 Hk _ IH]; simpl in *.
  - destruct H2 as [|[k' v'] m2 Hk _]; [done|]. simpl in *. by rewrite Hk.
  - assert (kcmp k k' = Gt) as -> by (by apply kcmp_gt). by rewrite IH.
Qed.

Section streaming.
Context `{E : Encoding} `{L : !CompactLaws} `{SD : Serde DatasetSourceFields} `{SR : Serde CaseRecord}
  `{SC : Serde DatasetCase} `{D : StorageDocument DatasetSourceFields}.
Variable dataset_of_value : Value -> result RunDataset.
Variable uuid_value : Uuid -> Value.

Definition member (kv : string * Value) : string := print (Str kv.1) +:+ ":" +:+ print kv.2.

Lemma member_eq k v : member (k, v) = print (Str k) +:+ ":" +:+ print v.
Proof. reflexivity. Qed.

Definition opened (m1 : list (string * Value)) : string :=
  "{" +:+ join "," (map member m1) +:+ (if bool_decide (m1 = []) then "" else ",")
  +:+ dq +:+ "cases" +:+ dq +:+ ":[".

(** The field loop after the members [pre]. *)
Definition fields_inv (pre : list (string * Value)) (st : FieldState) : Prop :=
  if fs_before st
  then Forall (fun kv => klt kv.1 "cases") pre /\
       fs_source st = "{" +:+ join "," (map member pre) /\
       fs_separator st = negb (bool_decide (pre = [])) /\ fs_suffix st = ""
  else exists m1 kv m2, pre = m1 ++ kv :: m2 /\ Forall (fun kv => klt kv.1 "cases") m1 /\
       klt "cases" kv.1 /\ fs_source st = opened m1 /\
       fs_suffix st = comma_led (map member (kv :: m2)).

Lemma open_cases_source pre st :
  fs_before st = true -> fields_inv pre st -> fs_source (open_cases st) = opened pre.
Proof.
  unfold fields_inv. intros ->. intros (_ & Hs & Hsep & _). unfold open_cases, opened.
  cbn [fs_source]. rewrite Hs, Hsep. rewrite <- sapp_assoc. by destruct (bool_decide (pre = [])).
Qed.

Lemma add_field_inv pre st kv st' :
  kv.1 <> "cases" -> value_wf kv.2 -> fields_inv pre st -> add_field st kv = Ok st' ->
  fields_inv (pre ++ [kv]) st'.
Proof.
  destruct kv as [key value]. cbn [fst snd]. intros Hne Hwf Hinv. unfold add_field.
  rewrite canonical_json_wf_id by done. rewrite !print_ok. cbn [mbind result_bind].
  intros [= <-]. destruct (fs_before st) eqn:Eb.
  - cbn [andb]. destruct (kltb "cases" key) eqn:Ek.
    + apply kltb_true in Ek. pose proof (open_cases_source pre st Eb Hinv) as Hop.
      unfold fields_inv in Hinv. rewrite Eb in Hinv. destruct Hinv as (H1 & _ & _ & Hsuf).
      cbn [open_cases fs_before fields_inv] in *. unfold fields_inv. cbn [fs_before fs_source fs_suffix].
      exists pre, (key, value), []. split_and!; [done|done|done|exact Hop|].
      cbn [open_cases fs_suffix]. rewrite Hsuf. unfold comma_led. cbn [map concat_bytes member fst snd]. by rewrite sapp_nil_r.
    + rewrite Eb. unfold fields_inv in *. rewrite Eb in Hinv. destruct Hinv as (H1 & Hs & Hsep & Hsuf).
      cbn [fs_before fs_source fs_suffix fs_separator]. split_and!.
      * apply Forall_app. split; [done|]. constructor; [|constructor].
        cbn [fst]. destruct (klt_total key "cases") as [Hlt|[Heq|Hgt]]; [done|done|].
        apply kltb_true in Hgt. congruence.
      * rewrite Hs, Hsep, map_app. cbn [map]. rewrite join_snoc. unfold member at 3. cbn [fst snd].
        rewrite <- !sapp_assoc. do 2 f_equal.
        destruct pre; [done|]. by rewrite !bool_decide_false.
      * by rewrite bool_decide_false by (by destruct pre).
      * done.
  - cbn [andb]. rewrite Eb. unfold fields_inv in *. rewrite Eb in Hinv.
    destruct Hinv as (m1 & kv & m2 & -> & H1 & Hk & Hs & Hsuf).
    cbn [fs_before fs_source fs_suffix]. exists m1, kv, (m2 ++ [(key, value)]).
    split_and!; [by rewrite <- app_assoc|done|done|done|].
    assert (map member (kv :: m2 ++ [(key, value)]) = map member (kv :: m2) ++ [member (key, value)])
      as -> by (by rewrite app_comm_cons, map_app).
    by rewrite Hsuf, comma_led_snoc.
Qed.

Lemma add_fields_spec m st :
  bt_wf m -> Forall (fun kv => value_wf kv.2) m -> bt_get "cases" m = None ->
  foldM add_field (mkFieldState true false "{" "") m = Ok st ->
  let st' := if fs_before st then open_cases st else st in
  exists m1 m2, m = m1 ++ m2 /\ Forall (fun kv => klt kv.1 "cases") m1 /\
    Forall (fun kv => klt "cases" kv.1) m2 /\
    fs_source st' = opened m1 /\ fs_suffix st' = comma_led (map member m2).
Proof.
  intros Hwf Hval Hnone Hf.
  apply (foldM_inv_elem fields_inv) in Hf.
  - destruct (fs_before st) eqn:Eb.
    + pose proof (open_cases_source m st Eb Hf) as Hop. unfold fields_inv in Hf. rewrite Eb in Hf.
      destruct Hf as (H1 & _ & _ & Hsuf). exists m, []. rewrite app_nil_r.
      split_and!; [done|done|constructor|done|]. cbn [open_cases fs_suffix]. by rewrite Hsuf.
    + unfold fields_inv in Hf. rewrite Eb in Hf.
      destruct Hf as (m1 & kv & m2 & -> & H1 & Hk & Hs & Hsuf).
      exists m1, (kv :: m2). split_and!; [done|done| |done|done].
      unfold bt_wf in Hwf. rewrite map_app in Hwf.
      assert (Hw2 : StronglySorted klt (map fst (kv :: m2))).
      { clear -Hwf. induction (map fst m1) as [|k ks IH]; [done|]. inversion Hwf; auto. }
      simpl in Hw2. inversion Hw2 as [|? ? _ Hall]; subst. constructor; [done|].
      rewrite Forall_map in Hall. eapply Forall_impl; [exact Hall|]. simpl.
      intros x Hx. by eapply klt_trans.
  - unfold fields_inv. simpl. split_and!; [constructor|done|done|done].
  - intros pre s kv s1 Hin Hinv Ha. eapply add_field_inv; [| |exact Hinv|exact Ha].
    + intros Hc. destruct kv as [k v]. simpl in Hc. subst k.
      apply bt_get_elem in Hin; [congruence|done].
    + rewrite Forall_forall in Hval. by apply Hval.
Qed.

(** The records pushed so far, as they enter the two hashers. *)
Definition push_inv (b0 : DatasetIdentityBuilder) (records : list CaseRecord)
    (b : DatasetIdentityBuilder) : Prop :=
  exists ids, Forall2 (fun r i => exists c, CaseRecord_validate r = Ok c /\ dc_id c = i) records ids /\
    dib_ordinal b = zlen records /\
    dib_source b = dib_source b0 +:+ join "," (map (fun r => print (canonical_json (cr_source r))) records) /\
    dib_membership b = dib_membership b0 +:+
      join "," (zip_with (fun r i => print (membership_value uuid_value i r)) records ids) /\
    dib_suffix b = dib_suffix b0 /\ dib_dataset_id b = dib_dataset_id b0 /\
    dib_dataset_version b = dib_dataset_version b0.

Lemma identity_push_inv b0 records b r b' :
  push_inv b0 records b -> identity_push uuid_value b r = Ok b' -> push_inv b0 (records ++ [r]) b'.
Proof.
  intros (ids & Hids & Hord & Hs & Hm & Hsuf & Hid & Hver) H.
  unfold identity_push, i32_checked_add in H. inv_ok.
  match goal with X : CaseRecord_validate r = Ok ?c |- _ => rename c into case; rename X into Hv end.
  repeat match goal with X : to_vec _ = Ok _ |- _ => rewrite print_ok in X; injection X as <- end.
  exists (ids ++ [dc_id case]).
  assert (Hlen : length records = length ids) by (by eapply Forall2_length).
  assert (Hcomma : (if 0 <? dib_ordinal b then "," else "") =
                   if bool_decide (records = []) then "" else ",").
  { rewrite Hord. destruct records as [|x records]; [done|]. rewrite bool_decide_false by done.
    rewrite (proj2 (Z.ltb_lt _ _)); [done|]. rewrite zlen_cons. pose proof (zlen_nonneg records). lia. }
  cbn [dib_ordinal dib_source dib_membership dib_suffix dib_dataset_id dib_dataset_version].
  split_and!; try done.
  - apply Forall2_app; [done|]. repeat constructor. by exists case.
  - rewrite zlen_app, Hord. done.
  - rewrite Hs, map_app, <- sapp_assoc. cbn [map]. rewrite join_snoc, Hcomma.
    destruct records; [done|]. by rewrite !bool_decide_false.
  - rewrite Hm, <- sapp_assoc. rewrite zip_with_app by done. cbn [zip_with].
    rewrite join_snoc, Hcomma. destruct records, ids; try done; try discriminate Hlen.
Qed.

(** The whole dataset document: the source fields with their cases in place. *)
Definition dataset_document (m : list (string * Value)) (records : list CaseRecord) : Value :=
  Object (bt_insert "cases" (Array (map (fun r => canonical_json (cr_source r)) records)) m).

(** The membership document behind the dataset-version identity. *)
Definition membership_document (dataset : RunDataset) (records : list CaseRecord) (ids : list Uuid)
    : Value :=
  Object [("dataset_id", uuid_value (rds_dataset_id dataset));
          ("dataset_version", opt_str (rds_dataset_version dataset));
          ("membership", Array (zip_with (fun r i => membership_value uuid_value i r) records ids))].

Lemma print_dataset_document m1 m2 records :
  Forall (fun kv => klt kv.1 "cases") m1 -> Forall (fun kv => klt "cases" kv.1) m2 ->
  print (dataset_document (m1 ++ m2) records) =
  opened m1 +:+ join "," (map (fun r => print (canonical_json (cr_source r))) records)
  +:+ "]" +:+ comma_led (map member m2) +:+ "}".
Proof.
  intros H1 H2. unfold dataset_document. rewrite bt_insert_between by done.
  rewrite print_object. change (fun kv => print (Str kv.1) +:+ ":" +:+ print kv.2) with member.
  rewrite map_app. cbn [map]. rewrite join_app_cons, join_snoc. unfold opened.
  rewrite (member_eq "cases"), (print_plain "cases") by reflexivity.
  rewrite print_array, map_map. rewrite <- !sapp_assoc.
  destruct m1; [reflexivity|]. rewrite !bool_decide_false by done. reflexivity.
Qed.

Lemma map_of_zip_with {A B C F} (g : C -> F) (f : A -> B -> C) l k :
  map g (zip_with f l k) = zip_with (fun a b => g (f a b)) l k.
Proof. revert k; induction l as [|a l IH]; intros [|b k]; simpl; [done..|]. by rewrite IH. Qed.

Lemma without_last_brace a : without_last (a +:+ "}") = a.
Proof. rewrite without_last_app. apply sapp_nil_r. Qed.

Lemma print_membership_document dataset records ids :
  print (membership_document dataset records ids) =
  without_last (print (identity_prefix uuid_value dataset)) +:+ "," +:+ dq +:+ "membership" +:+ dq
  +:+ ":[" +:+ join "," (zip_with (fun r i => print (membership_value uuid_value i r)) records ids)
  +:+ "]}".
Proof.
  unfold membership_document, identity_prefix.
  change (bt_collect [("dataset_id", uuid_value (rds_dataset_id dataset));
    ("dataset_version", opt_str (rds_dataset_version dataset))])
    with [("dataset_id", uuid_value (rds_dataset_id dataset));
          ("dataset_version", opt_str (rds_dataset_version dataset))].
  assert (Hp : forall m, without_last (print (Object m)) =
    "{" +:+ join "," (map (fun kv => print (Str kv.1) +:+ ":" +:+ print kv.2) m)).
  { intros m. by rewrite print_object, sapp_assoc, without_last_brace. }
  rewrite Hp, print_object. cbn [map join fst snd].
  rewrite (print_plain "membership") by reflexivity. rewrite print_array.
  rewrite map_of_zip_with, <- !sapp_assoc. reflexivity.
Qed.

(** C37: streaming identity equals whole-document identity.  For every dataset
    whose cases are pushed in order, the incrementally computed source hash is
    the BLAKE3 digest of the compact canonical JSON of the complete dataset
    document, with the cases at their place among the other fields; the
    dataset-version identity is derived from the digest of the complete
    membership document; and the count is the number of cases. *)
Theorem streaming_identity fields limits b0 records b hash version count m dataset :
  ds_fields fields = Object m -> value_wf (Object m) -> dataset_of_value (Object m) = Ok dataset ->
  identity_new dataset_of_value uuid_value fields limits = Ok b0 ->
  foldM (identity_push uuid_value) b0 records = Ok b ->
  identity_finish b = Ok (hash, version, count) ->
  exists ids,
    Forall2 (fun r i => exists c, CaseRecord_validate r = Ok c /\ dc_id c = i) records ids /\
    hash = blake3_hex (print (dataset_document m records)) /\
    version = uuid_from_digest (blake3_bytes (print (membership_document dataset records ids))) /\
    count = zlen records /\ 0 < count.
Proof.
  intros Hm Hwf Hds Hnew Hpush Hfin. unfold identity_new in Hnew.
  apply bind_Ok in Hnew as (? & _ & Hnew). apply bind_Ok in Hnew as ([] & Hval & Hnew).
  apply bind_Ok in Hnew as (? & _ & Hnew). rewrite Hm, Hds in Hnew.
  cbn [mbind result_bind] in Hnew. rewrite print_ok in Hnew. cbn [mbind result_bind] in Hnew.
  rewrite canonical_json_wf_id in Hnew by done. cbn [as_object default] in Hnew.
  apply bind_Ok in Hnew as (st & Hst & Hnew). injection Hnew as Hb0.
  unfold DatasetSourceFields_validate in Hval. rewrite Hm in Hval. inv_ok.
  inversion Hwf as [| | | | |m' Hbt Hvals]; subst m'.
  match goal with X : opt_is_none _ = true |- _ => rename X into Hno end.
  assert (Hnone : bt_get "cases" m = None)
    by (cbn [json_get] in Hno; by destruct (bt_get "cases" m)).
  destruct (add_fields_spec m st Hbt Hvals Hnone Hst) as (m1 & m2 & -> & Hlo & Hhi & Hsrc & Hsuf).
  assert (Hinv : push_inv b0 records b).
  { revert Hpush. apply (foldM_inv_prefix (push_inv b0)).
    - exists []. rewrite <- Hb0. cbn. rewrite !sapp_nil_r. split_and!; done.
    - intros. by eapply identity_push_inv. }
  destruct Hinv as (ids & Hids & Hord & Hs & Hmem & Hsu & _).
  unfold identity_finish in Hfin. apply bind_Ok in Hfin as (? & Hpos%ensure_Ok & Hfin).
  injection Hfin as <- <- <-. exists ids. rewrite <- Hb0 in Hs, Hmem, Hsu.
  cbn [dib_source dib_membership dib_suffix] in Hs, Hmem, Hsu. split_and!; [done|..|done|lia].
  - f_equal. rewrite print_dataset_document by done. by rewrite Hs, Hsu, Hsrc, Hsuf, <- !sapp_assoc.
  - do 2 f_equal. rewrite print_membership_document. by rewrite Hmem, <- !sapp_assoc.
Qed.
End streaming.

(** ** Case hashes ignore the order of tags *)

Definition kle (a b : string) : Prop := ~ klt b a.

#[local] Instance kle_antisym : AntiSymm (=) kle.
Proof. intros a b Hab Hba. destruct (klt_total a b) as [?|[?|?]]; done. Qed.

Lemma insert_tag_perm t l : insert_tag t l ≡ₚ t :: l.
Proof.
  induction l as [|u l IH]; simpl; [done|]. destruct (kltb u t); [|done].
  rewrite IH. apply Permutation_swap.
Qed.

Lemma sort_tags_perm l : sort_tags l ≡ₚ l.
Proof. induction l as [|t l IH]; simpl; [done|]. by rewrite insert_tag_perm, IH. Qed.

Lemma insert_tag_sorted t l : StronglySorted kle l -> StronglySorted kle (insert_tag t l).
Proof.
  induction 1 as [|u l Hs IH Hu]; simpl; [repeat constructor|].
  destruct (kltb u t) eqn:Ek.
  - apply kltb_true in Ek. constructor; [done|]. rewrite insert_tag_perm.
    constructor; [by apply klt_asym|done].
  - assert (Htu : kle t u) by (unfold kle; rewrite <- kltb_true; congruence).
    constructor; [by constructor|]. constructor; [done|].
    eapply Forall_impl; [exact Hu|]. simpl. intros x Hux Hxt.
    destruct (klt_total t u) as [Hlt|[->|Hgt]]; [|done|done].
    apply Hux. by eapply klt_trans.
Qed.

Lemma sort_tags_sorted l : StronglySorted kle (sort_tags l).
Proof. induction l; simpl; [constructor|by apply insert_tag_sorted]. Qed.

(** the hash of a case does not depend on the order of its tags. *)
Theorem case_hash_tag_order `{Encoding} case tags :
  dc_tags case ≡ₚ tags ->
  case_hash case =
  case_hash (mkDatasetCase (dc_id case) (dc_task_type case) (dc_case_group case) (dc_input case)
               (dc_expected case) (dc_context case) tags (dc_metadata case)).
Proof.
  intros Hp. unfold case_hash, normalized_case_payload.
  cbn [dc_task_type dc_case_group dc_input dc_expected dc_context dc_tags dc_metadata].
  assert (sort_tags (dc_tags case) = sort_tags tags) as ->; [|done].
  apply (StronglySorted_unique kle); [apply sort_tags_sorted..|].
  by rewrite !sort_tags_perm.
Qed.

(** ** Digest identities *)

Definition is_byte (b : Z) : Prop := 0 <= b < 256.

Lemma lor_mask_range b k :
  is_byte b -> k = 15 \/ k = 63 -> 128 <= Z.lor (Z.land b k) 128 <= 128 + k.
Proof.
  intros Hb Hk.
  assert (G : forallb (fun n => let v := Z.lor (Z.land (Z.of_nat n) k) 128 in
                 (128 <=? v) && (v <=? 128 + k)) (seq 0 256) = true)
    by (destruct Hk as [-> | ->]; vm_compute; reflexivity).
  rewrite forallb_Forall_iff, Forall_forall in G. specialize (G (Z.to_nat b)).
  rewrite Z2Nat.id in G by (unfold is_byte in Hb; lia).
  assert (Hin : Z.to_nat b ∈ seq 0 256) by (apply elem_of_seq; unfold is_byte in Hb; lia).
  specialize (G Hin). cbv zeta in G. lia.
Qed.

Lemma big_endian_bound l acc :
  Forall is_byte l -> 0 <= acc ->
  0 <= fold_left (fun acc b => acc * 256 + b) l acc < (acc + 1) * 256 ^ zlen l.
Proof.
  intros Hl. revert acc. induction Hl as [|b l Hb _ IH]; intros acc Ha; simpl fold_left.
  - change (zlen []) with 0. lia.
  - unfold is_byte in Hb. destruct (IH (acc * 256 + b)) as [H1 H2]; [lia|]. split; [done|].
    rewrite zlen_cons, Z.pow_add_r by (pose proof (zlen_nonneg l); lia).
    eapply Z.lt_le_trans; [exact H2|].
    assert (0 <= 256 ^ zlen l) by (apply Z.pow_nonneg; lia). nia.
Qed.

(** identities derived from a digest are well-formed version-8 UUIDs: of a
    digest of at least sixteen bytes they keep sixteen, below 2^128 as a number,
    with version nibble 8 and the RFC variant bits, and every other byte as the
    digest has it. *)
Theorem digest_uuid_wf digest :
  Forall is_byte digest -> (16 <= length digest)%nat ->
  length (uuid_bytes digest) = 16%nat /\ 0 <= uuid_from_digest digest < 2 ^ 128 /\
  (exists v, uuid_bytes digest !! 6%nat = Some v /\ Z.shiftr v 4 = 8) /\
  (exists v, uuid_bytes digest !! 8%nat = Some v /\ Z.shiftr v 6 = 2) /\
  (forall i, i <> 6%nat -> i <> 8%nat -> (i < 16)%nat -> uuid_bytes digest !! i = digest !! i).
Proof.
  intros Hb Hlen.
  assert (Hget : forall i, (i < 16)%nat -> take 16 digest !! i = digest !! i)
    by (intros i Hi; by apply lookup_take_lt).
  assert (H6 : exists a, digest !! 6%nat = Some a /\ is_byte a).
  { destruct (lookup_lt_is_Some_2 digest 6) as [a Ha]; [lia|]. exists a. split; [done|].
    by eapply Forall_lookup_1. }
  assert (H8 : exists a, digest !! 8%nat = Some a /\ is_byte a).
  { destruct (lookup_lt_is_Some_2 digest 8) as [a Ha]; [lia|]. exists a. split; [done|].
    by eapply Forall_lookup_1. }
  destruct H6 as (a6 & E6 & B6), H8 as (a8 & E8 & B8).
  pose proof (lor_mask_range a6 15 B6 ltac:(by left)) as R6.
  pose proof (lor_mask_range a8 63 B8 ltac:(by right)) as R8.
  assert (Hu6 : uuid_bytes digest !! 6%nat = Some (Z.lor (Z.land a6 15) 128)).
  { unfold uuid_bytes. rewrite list_lookup_alter_ne, list_lookup_alter_eq, Hget, E6 by lia. done. }
  assert (Hu8 : uuid_bytes digest !! 8%nat = Some (Z.lor (Z.land a8 63) 128)).
  { unfold uuid_bytes. rewrite list_lookup_alter_eq, list_lookup_alter_ne, Hget, E8 by lia. done. }
  assert (Hrest : forall i, i <> 6%nat -> i <> 8%nat -> (i < 16)%nat ->
    uuid_bytes digest !! i = digest !! i).
  { intros i H6 H8 Hi. unfold uuid_bytes. rewrite !list_lookup_alter_ne by done. by apply Hget. }
  assert (Hlen16 : length (uuid_bytes digest) = 16%nat).
  { unfold uuid_bytes. rewrite !length_alter, length_take. lia. }
  assert (Hbytes : Forall is_byte (uuid_bytes digest)).
  { apply Forall_lookup. intros i x Hx. destruct (decide (i = 6%nat)) as [->|N6].
    - rewrite Hu6 in Hx. injection Hx as <-. unfold is_byte. lia.
    - destruct (decide (i = 8%nat)) as [->|N8].
      + rewrite Hu8 in Hx. injection Hx as <-. unfold is_byte. lia.
      + rewrite Hrest in Hx; [by eapply Forall_lookup_1| | |]; [done..|].
        apply lookup_lt_Some in Hx. lia. }
  split_and!; [done|..|done].
  - apply (big_endian_bound _ 0); [done|lia].
  - pose proof (big_endian_bound (uuid_bytes digest) 0 Hbytes ltac:(lia)) as [_ Hlt].
    unfold zlen in Hlt. rewrite Hlen16 in Hlt. exact Hlt.
  - eexists. split; [exact Hu6|]. rewrite Z.shiftr_div_pow2 by lia.
    change (2 ^ 4) with 16. symmetry. apply Z.div_unique with (r := Z.lor (Z.land a6 15) 128 - 128); lia.
  - eexists. split; [exact Hu8|]. rewrite Z.shiftr_div_pow2 by lia.
    change (2 ^ 6) with 64. symmetry. apply Z.div_unique with (r := Z.lor (Z.land a8 63) 128 - 128); lia.
Qed.

(** ** A concrete dataset *)

Fixpoint plain_print (v : Value) : string :=
  match v with
  | Null => "null"
  | Bool b => if b then "true" else "false"
  | Num (PosInt n) | Num (NegInt n) => pretty n
  | Num (Float _) => "0.5"
  | Str s => dq +:+ s +:+ dq
  | Array l => "[" +:+ join "," (map plain_print l) +:+ "]"
  | Object m => "{" +:+ join "," (map (fun kv => (dq +:+ kv.1 +:+ dq) +:+ ":" +:+ plain_print kv.2) m) +:+ "}"
  end.

#[local] Instance plain_encoding : Encoding := {|
  json_parse := fun _ => Some RUnit;
  to_vec := fun v => Ok (plain_print v);
  blake3_hex := constant_digest;
  blake3_bytes := fun _ => repeat 255 32
|}.

#[local] Instance plain_laws : CompactLaws.
Proof.
  refine {| print := plain_print |}.
  - reflexivity.
  - intros m. reflexivity.
  - reflexivity.
  - reflexivity.
Defined.

#[local] Instance fields_text : Serde DatasetSourceFields :=
  {| ser_chunks := fun d => Ok [plain_print (ds_fields d)];
     from_value := fun v => Ok (mkDatasetSourceFields FDatasetSourceFields true v) |}.
#[local] Instance record_text : Serde CaseRecord :=
  {| ser_chunks := fun r => Ok [plain_print (cr_source r)];
     from_value := fun v => Ok (mkCaseRecord 0 sample_digest v) |}.
#[local] Instance case_text : Serde DatasetCase :=
  {| ser_chunks := fun c => Ok [plain_print (dc_input c)];
     from_value := fun v =>
       match v with
       | Num (PosInt n) => Ok (mkDatasetCase n "chat" None v None None [] [])
       | _ => Err "expected a case"
       end |}.

Definition identity_dataset : RunDataset := mkRunDataset 9 (Some "v1") [].
Definition identity_dataset_of (_ : Value) : result RunDataset := Ok identity_dataset.
Definition identity_uuid (u : Uuid) : Value := Str (pretty u).

#[local] Instance identity_document : StorageDocument DatasetSourceFields :=
  {| SCHEMA := FDatasetSourceFields;
     doc_validate := DatasetSourceFields_validate identity_dataset_of |}.

(** Fields on both sides of the key "cases". *)
Definition identity_members : list (string * Value) := [("author", Str "x"); ("dataset_id", Str "9")].
Definition identity_fields : DatasetSourceFields :=
  mkDatasetSourceFields FDatasetSourceFields true (Object identity_members).
Definition identity_records : list CaseRecord :=
  [mkCaseRecord 0 sample_digest (Num (PosInt 7)); mkCaseRecord 1 sample_digest (Num (PosInt 8))].

Definition identity_result {A} (d : A) (r : result A) : A := match r with Ok a => a | Err _ => d end.
Definition no_builder : DatasetIdentityBuilder := mkDatasetIdentityBuilder 0 0 None "" "" "" 0.
Definition identity_b0 : DatasetIdentityBuilder := Eval vm_compute in
  identity_result no_builder (identity_new identity_dataset_of identity_uuid identity_fields FormatLimits_default).
Definition identity_b : DatasetIdentityBuilder := Eval vm_compute in
  identity_result no_builder (foldM (identity_push identity_uuid) identity_b0 identity_records).
Definition identity_triple : string * Uuid * Z := Eval vm_compute in
  identity_result ("", 0, 0) (identity_finish identity_b).

Lemma streaming_identity_witness :
  exists ids,
    Forall2 (fun r i => exists c, CaseRecord_validate r = Ok c /\ dc_id c = i) identity_records ids /\
    identity_triple.1.1 = blake3_hex (print (dataset_document identity_members identity_records)) /\
    identity_triple.1.2 = uuid_from_digest (blake3_bytes
      (print (membership_document identity_uuid identity_dataset identity_records ids))) /\
    identity_triple.2 = zlen identity_records /\ 0 < identity_triple.2.
Proof.
  apply (streaming_identity identity_dataset_of identity_uuid identity_fields FormatLimits_default
           identity_b0 identity_records identity_b).
  - reflexivity.
  - constructor; [repeat constructor|].
    repeat (apply List.Forall_cons || apply List.Forall_nil); constructor.
  - reflexivity.
  - vm_compute. reflexivity.
  - vm_compute. reflexivity.
  - vm_compute. reflexivity.
Defined.

Definition tagged_case (tags : list string) : DatasetCase :=
  mkDatasetCase 7 "chat" None Null None None tags [].

Lemma case_hash_tag_order_witness :
  case_hash (tagged_case ["b"; "a"]) = case_hash (tagged_case ["a"; "b"]).
Proof.
  apply (case_hash_tag_order (tagged_case ["b"; "a"]) ["a"; "b"]). apply Permutation_swap.
Defined.

Lemma digest_uuid_wf_witness : 0 <= uuid_from_digest (repeat 255 32) < 2 ^ 128.
Proof.
  apply (digest_uuid_wf (repeat 255 32)).
  - apply Forall_forall. intros b Hb. apply list_elem_of_In, repeat_spec in Hb. subst. unfold is_byte. lia.
  - simpl. lia.
Defined.
