(* ===== verification/CaseReader.v ===== *)
(** * Reading immutable inputs

    Model of src/vigilo/src/case_reader.rs (document reads and the index cursor)
    and src/vigilo/src/case_reader/cache.rs (the worker's read cache).  The blob
    store is a parameter: reading a reference yields bytes or an error, the same
    bytes each time, since stored objects are immutable.  What a call observes of
    time and cancellation is part of its arguments.  The cursor's [while] loop
    runs on fuel; the termination theorem gives a bound that suffices for every
    store content. *)

From Stdlib Require Import ZArith Lia ZifyBool.
From stdpp Require Import base strings numbers sets option list.
From S2P Require Import Prelude Float64 BTree Text Json RunTypes StorageFormats Codec.

Open Scope Z_scope.

(** ** The read cache *)

Definition CAPACITY : Z := 8 * 1024 * 1024.
Definition MAX_FILE : Z := 1024 * 1024.
Definition MAX_ENTRIES : Z := 256.

Record CacheEntry := mkCacheEntry {
  en_binding : string;
  en_reference : ObjectRef;
  en_bytes : string;
  en_charge : Z
}.

(** [entries] front to back: the front is evicted first. *)
Record CacheState := mkCacheState { st_entries : list CacheEntry; st_charged : Z }.

Definition cache_default : CacheState := mkCacheState [] 0.

(** What a read sees of its surroundings: the budget check, cancellation before
    and after the read, and whether the deadline passed meanwhile. *)
Record ReadEnv := mkReadEnv {
  env_budget : result unit;
  env_cancelled_before : bool;
  env_cancelled_after : bool;
  env_expired : bool
}.

Definition same_file (binding : string) (reference : ObjectRef) (e : CacheEntry) : bool :=
  str_eqb (en_binding e) binding && objref_eqb (en_reference e) reference.

(** [position(..).map(|index| remove; push_back)]: the hit entry and the
    reordered queue. *)
Fixpoint take_hit (binding : string) (reference : ObjectRef) (l : list CacheEntry)
    : option (CacheEntry * list CacheEntry) :=
  match l with
  | [] => None
  | e :: l' =>
      if same_file binding reference e then Some (e, l')
      else match take_hit binding reference l' with
           | Some (x, rest) => Some (x, e :: rest)
           | None => None
           end
  end.

(** The eviction loop; [None] is the panic of [expect]. *)
Fixpoint evict (charge charged : Z) (l : list CacheEntry) : option (list CacheEntry * Z) :=
  if (CAPACITY <? charged + charge) || (MAX_ENTRIES <=? zlen l)
  then match l with
       | [] => None
       | old :: l' => evict charge (charged - en_charge old) l'
       end
  else Some (l, charged).

Section cache.
Variable blake3_hex : string -> string.
(** [serde_json::to_vec] of a reference, [size_of::<Entry>()] and the reads of
    dataset_ingestion.rs. *)
Variable ref_to_vec : ObjectRef -> result string.
Variable entry_size : Z.
Variable read_bytes : ObjectRef -> result string.

Definition cache_insert (st : CacheState) (binding : string) (reference : ObjectRef)
    (bytes : string) (charge : Z) : option CacheState :=
  if (charge <=? CAPACITY) && negb (existsb (same_file binding reference) (st_entries st))
  then
    evicted ← evict charge (st_charged st) (st_entries st);
    Some (mkCacheState (evicted.1 ++ [mkCacheEntry binding reference bytes charge])
            (evicted.2 + charge))
  else Some st.

(** [Scope::read]: the result with the cache it leaves behind; [None] is a
    panic. *)
Definition cache_read (st : CacheState) (binding : string) (reference : ObjectRef)
    (limits : FormatLimits) (env : ReadEnv) : option (CacheState * result string) :=
  match (_ ← env_budget env; _ ← ObjectRef_validate reference limits;
         ensure (negb (env_cancelled_before env)) "case read cancelled") with
  | Err e => Some (st, Err e)
  | Ok _ =>
      let '(st, hit) :=
        match take_hit binding reference (st_entries st) with
        | Some (entry, rest) =>
            (mkCacheState (rest ++ [entry]) (st_charged st), Some (en_bytes entry))
        | None => (st, None)
        end in
      let checked :=
        bytes ← match hit with Some bytes => Ok bytes | None => read_bytes reference end;
        _ ← ObjectRef_verify blake3_hex reference bytes limits;
        _ ← ensure (negb (env_cancelled_after env)) "case read cancelled";
        _ ← ensure (negb (env_expired env)) "case read deadline exceeded";
        Ok bytes in
      match checked with
      | Err e => Some (st, Err e)
      | Ok bytes =>
          if str_len bytes <=? MAX_FILE
          then
            match ref_to_vec reference with
            | Err e => Some (st, Err e)
            | Ok encoded =>
                st' ← cache_insert st binding reference bytes
                        (str_len bytes + str_len encoded + str_len binding + entry_size);
                Some (st', Ok bytes)
            end
          else Some (st, Ok bytes)
      end
  end.

(** *** The cache invariant *)

Fixpoint total_charge (l : list CacheEntry) : Z :=
  match l with [] => 0 | e :: l' => en_charge e + total_charge l' end.

Definition file_of (e : CacheEntry) : string * ObjectRef := (en_binding e, en_reference e).

(** An entry is charged at least one byte and holds the bytes of its digest. *)
Definition cache_entry_ok (e : CacheEntry) : Prop :=
  0 <= en_charge e /\ blake3_hex (en_bytes e) = or_digest (en_reference e) /\
  str_len (en_bytes e) = or_byte_count (en_reference e).

Record cache_inv (st : CacheState) : Prop := mkCacheInv {
  cv_charged : st_charged st = total_charge (st_entries st);
  cv_capacity : st_charged st <= CAPACITY;
  cv_entries : zlen (st_entries st) <= MAX_ENTRIES;
  cv_distinct : NoDup (map file_of (st_entries st));
  cv_ok : Forall cache_entry_ok (st_entries st)
}.

Lemma total_charge_app l k : total_charge (l ++ k) = total_charge l + total_charge k.
Proof. induction l as [|e l IH]; simpl; lia. Qed.

Lemma total_charge_perm l k : l ≡ₚ k -> total_charge l = total_charge k.
Proof. induction 1; simpl; lia. Qed.

Lemma take_hit_perm b r l e rest :
  take_hit b r l = Some (e, rest) -> l ≡ₚ e :: rest /\ file_of e = (b, r).
Proof.
  revert e rest; induction l as [|x l IH]; simpl; intros e rest H; [done|].
  destruct (same_file b r x) eqn:Es.
  - injection H as <- <-. split; [done|]. unfold same_file, objref_eqb in Es.
    apply andb_true_iff in Es as [?%str_eqb_true ?%bool_decide_eq_true].
    unfold file_of. congruence.
  - destruct (take_hit b r l) as [[y rest']|]; [|done]. injection H as <- <-.
    destruct (IH y rest' eq_refl) as [Hp Hf]. split; [|done].
    rewrite Hp. apply Permutation_swap.
Qed.

Lemma cache_inv_perm st l :
  cache_inv st -> l ≡ₚ st_entries st -> cache_inv (mkCacheState l (st_charged st)).
Proof.
  intros [H1 H2 H3 H4 H5] Hp. split; simpl; [|done|..].
  - rewrite H1. by apply total_charge_perm.
  - unfold zlen in *. by rewrite Hp.
  - by rewrite Hp.
  - by rewrite Hp.
Qed.

(** Eviction ends before the queue is empty, makes room, and keeps a suffix. *)
Lemma evict_ok charge charged l :
  0 <= charge <= CAPACITY -> charged = total_charge l -> Forall cache_entry_ok l ->
  exists k l' c, evict charge charged l = Some (l', c) /\ l = k ++ l' /\ c = total_charge l' /\
    c + charge <= CAPACITY /\ zlen l' < MAX_ENTRIES.
Proof.
  intros Hc. revert charged; induction l as [|e l IH]; intros charged Hch Hok; simpl.
  - change (zlen (@nil CacheEntry)) with 0. simpl in Hch.
    destruct (_ || _) eqn:Eb; [unfold MAX_ENTRIES in *; lia|].
    exists [], [], charged. split_and!; try done; unfold MAX_ENTRIES, zlen in *; simpl; lia.
  - apply Forall_cons in Hok as [(He & _) Hok]. simpl in Hch.
    destruct (_ || _) eqn:Eb.
    + destruct (IH (charged - en_charge e)) as (k & l' & c & -> & -> & ? & ? & ?); [lia|done|].
      exists (e :: k), l', c. done.
    + exists [], (e :: l), charged. split_and!; [done|done|done|lia|lia].
Qed.

Lemma existsb_same_file b r l :
  existsb (same_file b r) l = false -> (b, r) ∉ map file_of l.
Proof.
  intros H (e & He & Hin)%list_elem_of_fmap. rewrite existsb_false_Forall, Forall_forall in H.
  specialize (H e Hin). unfold same_file, objref_eqb in H. unfold file_of in He.
  injection He as -> ->. by rewrite str_eqb_refl, bool_decide_true in H.
Qed.

Lemma cache_insert_inv st b r bytes charge :
  cache_inv st -> 0 <= charge -> blake3_hex bytes = or_digest r -> str_len bytes = or_byte_count r ->
  exists st', cache_insert st b r bytes charge = Some st' /\ cache_inv st'.
Proof.
  intros Hinv H0 Hd Hl. unfold cache_insert.
  destruct (_ && _) eqn:Eb; [|by exists st].
  apply andb_true_iff in Eb as [Hcap Hnew]. apply negb_true_iff in Hnew.
  destruct Hinv as [H1 H2 H3 H4 H5].
  destruct (evict_ok charge (st_charged st) (st_entries st)) as (k & l' & c & Ev & Hk & Hc & Hle & Hz);
    [lia|done|done|].
  rewrite Ev. cbn [mbind option_bind fst snd]. eexists. split; [done|].
  apply existsb_same_file in Hnew. rewrite Hk in H4, H5, Hnew. rewrite map_app in H4, Hnew.
  apply NoDup_app in H4 as (_ & _ & H4). apply Forall_app in H5 as [_ H5].
  split; cbn [st_entries st_charged].
  - rewrite total_charge_app. simpl. lia.
  - done.
  - rewrite zlen_app. change (zlen [_]) with 1. lia.
  - rewrite map_app. apply NoDup_app. split_and!; [done| |apply NoDup_singleton].
    intros x Hx Hf. simpl in Hf. apply list_elem_of_singleton in Hf as ->.
    apply Hnew. apply elem_of_app. by right.
  - apply Forall_app. split; [done|]. by repeat constructor.
Qed.

Lemma verify_facts r bytes limits v :
  ObjectRef_verify blake3_hex r bytes limits = Ok v ->
  blake3_hex bytes = or_digest r /\ str_len bytes = or_byte_count r.
Proof.
  unfold ObjectRef_verify. intros H. inv_ok.
  match goal with X : str_eqb _ _ = true |- _ => apply str_eqb_true in X end. split; [done|lia].
Qed.

(** The cache is bounded and only ever returns verified bytes.  Whatever the
    store delivers and whenever calls are cancelled or expire, a read never
    panics in the eviction loop, keeps the cache within 8 MiB of charged bytes
    and 256 distinct files whose bytes carry their reference's digest, and a
    successful read returns bytes that verify under the caller's own limits. *)
Theorem cache_read_safe st b r limits env :
  0 <= entry_size -> cache_inv st ->
  exists st' res, cache_read st b r limits env = Some (st', res) /\ cache_inv st' /\
    forall bytes, res = Ok bytes ->
      ObjectRef_verify blake3_hex r bytes limits = Ok (mkVerifiedObject r bytes).
Proof.
  intros Hsz Hinv. unfold cache_read.
  destruct (_ ≫= _) as [u|e]; [|by exists st, (Err e)].
  assert (Hst : exists st1 hit,
    match take_hit b r (st_entries st) with
    | Some (entry, rest) => (mkCacheState (rest ++ [entry]) (st_charged st), Some (en_bytes entry))
    | None => (st, None)
    end = (st1, hit) /\ cache_inv st1).
  { destruct (take_hit b r (st_entries st)) as [[x rest]|] eqn:Eh; [|by exists st, None].
    eexists _, _. split; [done|]. apply cache_inv_perm; [done|].
    apply take_hit_perm in Eh as [Hp _]. rewrite Hp. by rewrite Permutation_app_comm. }
  destruct Hst as (st1 & hit & -> & Hinv1). cbv zeta.
  destruct (_ ≫= _) as [bytes|e] eqn:Ec; [|by exists st1, (Err e)].
  apply bind_Ok in Ec as (bytes' & _ & Ec). apply bind_Ok in Ec as (v & Hv & Ec).
  apply bind_Ok in Ec as (? & _ & Ec). apply bind_Ok in Ec as (? & _ & Ec). injection Ec as ->.
  pose proof (verify_facts _ _ _ _ Hv) as [Hd Hl].
  assert (Hver : ObjectRef_verify blake3_hex r bytes limits = Ok (mkVerifiedObject r bytes)).
  { rewrite Hv. f_equal. unfold ObjectRef_verify in Hv. inv_ok. done. }
  destruct (_ <=? MAX_FILE); [|exists st1, (Ok bytes); split_and!; [done|done|by intros ? [= <-]]].
  destruct (ref_to_vec r) as [encoded|e]; [|by exists st1, (Err e)].
  destruct (cache_insert_inv st1 b r bytes
    (str_len bytes + str_len encoded + str_len b + entry_size)) as (st' & -> & Hinv'); [done| |done|done|].
  { pose proof (str_len_nonneg bytes). pose proof (str_len_nonneg encoded).
    pose proof (str_len_nonneg b). lia. }
  exists st', (Ok bytes). split_and!; [done|done|by intros ? [= <-]].
Qed.
End cache.

(** ** Documents and the index cursor *)

Definition WORKING_SET : Z := 4 * 1024 * 1024.

(** A frame of the traversal stack: a page, the next entry, the page's bytes. *)
Record Frame := mkFrame { fr_page : IndexPage; fr_index : nat; fr_size : Z }.

(** [stack] holds the innermost frame first. *)
Record IndexCursor := mkIndexCursor {
  ic_root : option IndexDescriptor;
  ic_kind : IndexKind;
  ic_stack : list Frame;
  ic_resident : Z;
  ic_start : Z;
  ic_end : Z
}.

Definition cursor_new (root : IndexDescriptor) (kind : IndexKind) (start end_ : Z)
    : result IndexCursor :=
  _ ← ensure ((id_range_start root <=? start) && (end_ <=? id_range_end root) && (start <? end_))
        "index request outside root range";
  Ok (mkIndexCursor (Some root) kind [] 0 start end_).

Definition set_stack (c : IndexCursor) (stack : list Frame) (resident : Z) : IndexCursor :=
  mkIndexCursor (ic_root c) (ic_kind c) stack resident (ic_start c) (ic_end c).

(** One turn of the [while] loop. *)
Inductive turn :=
| Continue (c : IndexCursor)
| Yield (c : IndexCursor) (entry : IndexEntry) (bytes : string)
| Finished (c : IndexCursor).

Section cursor.
Context `{E : Encoding} `{SP : Serde IndexPage}.
(** The bytes behind a reference, with or without the cache. *)
Variable read_bytes : ObjectRef -> result string.

Definition document {T} `{Serde T} `{StorageDocument T} (reference : ObjectRef)
    (limits : FormatLimits) : result T :=
  bytes ← read_bytes reference;
  verified ← ObjectRef_verify blake3_hex reference bytes limits;
  doc ← decode verified;
  _ ← doc_validate doc limits;
  Ok doc.

Definition cursor_turn (limits : FormatLimits) (c : IndexCursor) : result turn :=
  match ic_stack c with
  | [] => Ok (Finished c)
  | mkFrame page index size :: stack =>
      match ip_entries page !! index with
      | None => Ok (Continue (set_stack c stack (ic_resident c - size)))
      | Some entry =>
          let c := set_stack c (mkFrame page (S index) size :: stack) (ic_resident c) in
          if (ie_range_end entry <=? ic_start c) || (ic_end c <=? ie_range_start entry)
          then Ok (Continue c)
          else if ip_level page =? 0 then
            bytes ← read_bytes (ie_object entry);
            Ok (Yield c entry bytes)
          else
            _ ← ensure (ic_resident c + or_byte_count (ie_object entry) <=? WORKING_SET)
                  "index working set exceeds 4 MiB";
            child ← document (ie_object entry) limits;
            _ ← IndexPage_validate_child page index child limits;
            Ok (Continue (set_stack c
                  (mkFrame child 0 (or_byte_count (ie_object entry)) :: ic_stack c)
                  (ic_resident c + or_byte_count (ie_object entry))))
      end
  end.

(** The root page is loaded by the first call. *)
Definition cursor_load (limits : FormatLimits) (c : IndexCursor) : result IndexCursor :=
  match ic_root c with
  | None => Ok c
  | Some root =>
      _ ← ensure (or_byte_count (id_object root) <=? WORKING_SET) "index working set exceeds 4 MiB";
      page ← document (id_object root) limits;
      _ ← IndexDescriptor_validate_page root page (ic_kind c) limits;
      Ok (mkIndexCursor None (ic_kind c)
            (mkFrame page 0 (or_byte_count (id_object root)) :: ic_stack c)
            (or_byte_count (id_object root)) (ic_start c) (ic_end c))
  end.

Fixpoint cursor_loop (fuel : nat) (limits : FormatLimits) (c : IndexCursor)
    : option (result (IndexCursor * option (IndexEntry * string))) :=
  match fuel with
  | O => None
  | S fuel' =>
      match cursor_turn limits c with
      | Err e => Some (Err e)
      | Ok (Continue c') => cursor_loop fuel' limits c'
      | Ok (Yield c' entry bytes) => Some (Ok (c', Some (entry, bytes)))
      | Ok (Finished c') => Some (Ok (c', None))
      end
  end.

Definition cursor_next (fuel : nat) (limits : FormatLimits) (c : IndexCursor)
    : option (result (IndexCursor * option (IndexEntry * string))) :=
  match cursor_load limits c with
  | Err e => Some (Err e)
  | Ok c' => cursor_loop fuel limits c'
  end.

(** Calling [next] until it answers [None], as the range readers do. *)
Fixpoint cursor_drain (fuel : nat) (limits : FormatLimits) (c : IndexCursor)
    : option (result (list IndexEntry)) :=
  match fuel with
  | O => None
  | S fuel' =>
      match cursor_next fuel limits c with
      | None => None
      | Some (Err e) => Some (Err e)
      | Some (Ok (_, None)) => Some (Ok [])
      | Some (Ok (c', Some (entry, _))) =>
          match cursor_drain fuel' limits c' with
          | Some (Ok rest) => Some (Ok (entry :: rest))
          | other => other
          end
      end
  end.

(** *** Positions *)

(** Where a frame stands: the start of its next entry, or the end of its page. *)
Definition frame_pos (f : Frame) : Z :=
  match ip_entries (fr_page f) !! fr_index f with
  | Some entry => ie_range_start entry
  | None => ip_range_end (fr_page f)
  end.

Definition frame_ok (limits : FormatLimits) (f : Frame) : Prop :=
  IndexPage_validate (fr_page f) limits = Ok tt /\ (fr_index f <= length (ip_entries (fr_page f)))%nat /\
  0 <= ip_level (fr_page f) /\ 0 <= fr_size f.

(** The traversal stands at [pos]: each page ends where its parent continues,
    and levels grow outwards. *)
Inductive at_pos (limits : FormatLimits) (root_end : Z) : list Frame -> Z -> Prop :=
| at_nil : at_pos limits root_end [] root_end
| at_cons f stack :
    frame_ok limits f -> at_pos limits root_end stack (ip_range_end (fr_page f)) ->
    at_pos limits root_end (f :: stack) (frame_pos f).

Lemma tiles_lookup s l e i x :
  tiles ie_range_start ie_range_end s l e -> l !! i = Some x ->
  ie_range_start x < ie_range_end x /\
  match l !! S i with Some y => ie_range_start y = ie_range_end x | None => ie_range_end x = e end.
Proof.
  revert s i; induction l as [|y l IH]; intros s [|i] Ht Hx; simpl in *; try done.
  - injection Hx as ->. destruct Ht as (H1 & H2 & Ht). split; [lia|].
    destruct l as [|z l]; simpl in *; [done|tauto].
  - destruct Ht as (_ & _ & Ht). by eapply IH.
Qed.

Lemma frame_step limits f entry :
  frame_ok limits f -> ip_entries (fr_page f) !! fr_index f = Some entry ->
  let f' := mkFrame (fr_page f) (S (fr_index f)) (fr_size f) in
  frame_ok limits f' /\ frame_pos f = ie_range_start entry /\ frame_pos f' = ie_range_end entry /\
  ie_range_start entry < ie_range_end entry.
Proof.
  intros (Hv & Hi & Hl & Hs) He. cbn zeta.
  destruct (IndexPage_validate_Ok _ _ Hv) as (_ & _ & _ & _ & Ht & _).
  pose proof (lookup_lt_Some _ _ _ He) as Hlt.
  destruct (tiles_lookup _ _ _ _ _ Ht He) as [Hlo Hnext].
  split_and!; [|unfold frame_pos; by rewrite He| |done].
  - split_and!; cbn [fr_page fr_index fr_size]; [done|lia|done|done].
  - unfold frame_pos. cbn [fr_page fr_index]. by destruct (_ !! S _).
Qed.

Lemma at_pos_le limits root_end stack pos : at_pos limits root_end stack pos -> pos <= root_end.
Proof.
  induction 1 as [|f stack Hf Hs IH]; [lia|]. destruct Hf as (Hv & Hi & _).
  destruct (IndexPage_validate_Ok _ _ Hv) as (_ & _ & _ & _ & Ht & _).
  unfold frame_pos. destruct (_ !! fr_index f) as [entry|] eqn:He; [|lia].
  apply list_elem_of_lookup_2 in He. pose proof (tiles_within _ _ _ _ _ _ Ht He). lia.
Qed.

(** *** Coverage *)

Definition overlaps (start end_ : Z) (entry : IndexEntry) : Prop :=
  start < ie_range_end entry /\ ie_range_start entry < end_.

(** The entries yielded when the traversal stands at [pos]. *)
Definition covered (start end_ : Z) (ys : list IndexEntry) (pos : Z) : Prop :=
  (pos <= start /\ ys = []) \/
  (start < pos /\ ys <> [] /\ Forall (overlaps start end_) ys /\
   exists s e, tiles ie_range_start ie_range_end s ys e /\ s <= start /\ e <= pos /\
     (e = pos \/ end_ <= e)).

Lemma covered_skip start end_ ys a b :
  start < end_ -> a < b -> (b <= start \/ end_ <= a) ->
  covered start end_ ys a -> covered start end_ ys b.
Proof.
  intros Hse Hab Hskip [[Ha ->]|(Ha & Hne & Hov & s & e & Ht & Hs & He & Hend)].
  - left. split; [lia|done].
  - right. split_and!; [lia|done|done|]. exists s, e. split_and!; [done|done|lia|]. right. lia.
Qed.

Lemma covered_yield start end_ ys entry :
  start < ie_range_end entry -> ie_range_start entry < end_ ->
  ie_range_start entry < ie_range_end entry ->
  covered start end_ ys (ie_range_start entry) ->
  covered start end_ (ys ++ [entry]) (ie_range_end entry).
Proof.
  intros H1 H2 H3 Hc. right. split_and!; [done|by destruct ys| |].
  - apply Forall_app. split; [|by repeat constructor].
    destruct Hc as [[_ ->]|(_ & _ & Hov & _)]; [constructor|done].
  - destruct Hc as [[Ha ->]|(Ha & Hne & Hov & s & e & Ht & Hs & He & Hend)].
    + exists (ie_range_start entry), (ie_range_end entry). split_and!; [|lia|lia|by left].
      by split_and!.
    + exists s, (ie_range_end entry). split_and!; [|done|lia|by left].
      apply tiles_app. exists e. split; [done|]. simpl. split_and!; [lia|lia|done].
Qed.

Lemma validate_child_Ok p i child limits :
  IndexPage_validate_child p i child limits = Ok tt ->
  exists entry, ip_entries p !! i = Some entry /\ 0 < ip_level p /\
    IndexPage_validate child limits = Ok tt /\ ip_level child = ip_level p - 1 /\
    ip_range_start child = ie_range_start entry /\ ip_range_end child = ie_range_end entry.
Proof.
  unfold IndexPage_validate_child, IndexDescriptor_validate_page. intros H. inv_ok.
  cbn [id_level id_range_start id_range_end] in *. eexists. split_and!; try done; lia.
Qed.

Lemma page_start page limits size :
  IndexPage_validate page limits = Ok tt -> 0 <= ip_level page -> 0 <= size ->
  frame_ok limits (mkFrame page 0 size) /\ frame_pos (mkFrame page 0 size) = ip_range_start page.
Proof.
  intros Hv Hl Hs. destruct (IndexPage_validate_Ok _ _ Hv) as (_ & _ & Hne & _ & Ht & _).
  split; [split_and!; simpl; [done|lia|done|done]|].
  unfold frame_pos. cbn [fr_page fr_index]. destruct (ip_entries page) as [|x l]; [done|].
  simpl in Ht. simpl. lia.
Qed.

Lemma entry_byte_count page limits i entry :
  IndexPage_validate page limits = Ok tt -> ip_entries page !! i = Some entry ->
  0 <= or_byte_count (ie_object entry).
Proof.
  intros Hv He. destruct (IndexPage_validate_Ok _ _ Hv) as (_ & _ & _ & _ & _ & Hreq).
  eapply Forall_lookup_1 in Hreq; [|exact He]. unfold ObjectRef_require, ObjectRef_validate in Hreq.
  apply bind_Ok in Hreq as (? & Hreq & _). inv_ok. lia.
Qed.

(** One turn keeps the position and the coverage. *)
Lemma turn_inv limits root_end c ys pos t :
  ic_start c < ic_end c -> at_pos limits root_end (ic_stack c) pos ->
  covered (ic_start c) (ic_end c) ys pos -> cursor_turn limits c = Ok t ->
  match t with
  | Continue c' =>
      ic_start c' = ic_start c /\ ic_end c' = ic_end c /\ ic_root c' = ic_root c /\
      exists pos', at_pos limits root_end (ic_stack c') pos' /\
        covered (ic_start c) (ic_end c) ys pos'
  | Yield c' entry _ =>
      ic_start c' = ic_start c /\ ic_end c' = ic_end c /\ ic_root c' = ic_root c /\
      exists pos', at_pos limits root_end (ic_stack c') pos' /\
        covered (ic_start c) (ic_end c) (ys ++ [entry]) pos'
  | Finished _ => pos = root_end
  end.
Proof.
  intros Hse Hat Hcov Ht. unfold cursor_turn in Ht.
  inversion Hat as [Hnil Hend|f stack Hf Hs Hcons Hpos]; rewrite <- ?Hnil, <- ?Hcons in Ht.
  { injection Ht as <-. done. }
  destruct f as [page index size].
  destruct (ip_entries page !! index) as [entry|] eqn:Ee.
  - destruct (frame_step limits _ entry Hf Ee) as (Hf' & Hp & Hp' & Hlt).
    cbn [fr_page fr_index fr_size] in *. rewrite <- Hpos, Hp in Hcov. cbv zeta in Ht.
    assert (Hat' : at_pos limits root_end (mkFrame page (S index) size :: stack) (ie_range_end entry)).
    { rewrite <- Hp'. by constructor. }
    destruct (_ || _) eqn:Eskip.
    + injection Ht as <-. cbn [set_stack ic_start ic_end ic_root ic_stack] in *. split_and!; [done..|].
      exists (ie_range_end entry). split; [done|].
      apply (covered_skip _ _ _ (ie_range_start entry)); [done|done|lia|done].
    + cbn [set_stack ic_start ic_end ic_root ic_stack ic_resident] in *.
      destruct (ip_level page =? 0).
      * inv_ok. cbn [ic_start ic_end ic_root ic_stack]. split_and!; [done..|].
        exists (ie_range_end entry). split; [done|]. apply covered_yield; [lia|lia|done|done].
      * inv_ok. cbn [set_stack ic_start ic_end ic_root ic_stack]. split_and!; [done..|].
        match goal with X : IndexPage_validate_child _ _ _ _ = Ok _ |- _ =>
          destruct (validate_child_Ok _ _ _ _ X) as (entry' & He' & Hlev & Hv & Hl & Hrs & Hre) end.
        rewrite Ee in He'. injection He' as <-. destruct Hf as (Hfv & _).
        destruct (page_start _ limits (or_byte_count (ie_object entry)) Hv) as [Hok Hst];
          [lia|exact (entry_byte_count page limits index entry Hfv Ee)|].
        exists (ie_range_start entry). split; [|done]. rewrite <- Hrs, <- Hst.
        constructor; [done|]. cbn [fr_page]. by rewrite Hre.
  - injection Ht as <-. cbn [set_stack ic_start ic_end ic_root ic_stack]. split_and!; [done..|].
    exists (ip_range_end page). split; [done|].
    assert (frame_pos (mkFrame page index size) = ip_range_end page) as Hp
      by (unfold frame_pos; cbn [fr_page fr_index]; by rewrite Ee).
    by rewrite <- Hp, Hpos.
Qed.

Lemma loop_inv fuel limits root_end c ys pos c' o :
  ic_start c < ic_end c -> at_pos limits root_end (ic_stack c) pos ->
  covered (ic_start c) (ic_end c) ys pos -> cursor_loop fuel limits c = Some (Ok (c', o)) ->
  match o with
  | Some (entry, _) =>
      ic_start c' = ic_start c /\ ic_end c' = ic_end c /\ ic_root c' = ic_root c /\
      exists pos', at_pos limits root_end (ic_stack c') pos' /\
        covered (ic_start c) (ic_end c) (ys ++ [entry]) pos'
  | None => covered (ic_start c) (ic_end c) ys root_end
  end.
Proof.
  revert c pos; induction fuel as [|fuel IH]; intros c pos Hse Hat Hcov H; [done|].
  cbn [cursor_loop] in H. destruct (cursor_turn limits c) as [[c1|c1 entry bytes|c1]|e] eqn:Et;
    [| | |discriminate H]; pose proof (turn_inv _ _ _ _ _ _ Hse Hat Hcov Et) as Hi; cbn beta iota in Hi.
  - destruct Hi as (Es & Ee & Er & pos' & Hat' & Hcov').
    rewrite <- Es, <- Ee in Hcov', Hse |- *. specialize (IH c1 pos' Hse Hat' Hcov' H).
    destruct o as [[??]|]; [|done]. by rewrite <- Er.
  - injection H as <- <-. done.
  - injection H as <- <-. by rewrite <- Hi.
Qed.

Lemma drain_loaded fuel limits root_end c ys pos entries :
  ic_start c < ic_end c -> ic_root c = None -> at_pos limits root_end (ic_stack c) pos ->
  covered (ic_start c) (ic_end c) ys pos -> cursor_drain fuel limits c = Some (Ok entries) ->
  covered (ic_start c) (ic_end c) (ys ++ entries) root_end.
Proof.
  revert c ys pos entries; induction fuel as [|fuel IH]; intros c ys pos entries Hse Hr Hat Hcov H;
    [done|]. cbn [cursor_drain] in H. unfold cursor_next, cursor_load in H. rewrite Hr in H.
  destruct (cursor_loop (S fuel) limits c) as [[[c' o]|e]|] eqn:El; [|discriminate H|discriminate H].
  pose proof (loop_inv _ _ _ _ _ _ _ _ Hse Hat Hcov El) as Hi.
  destruct o as [[entry bytes]|].
  - destruct Hi as (Es & Ee & Er & pos' & Hat' & Hcov').
    destruct (cursor_drain fuel limits c') as [[rest|e]|] eqn:Ed; [|discriminate H|discriminate H].
    injection H as <-. rewrite <- Es, <- Ee in Hcov', Hse |- *.
    specialize (IH c' (ys ++ [entry]) pos' rest Hse ltac:(congruence) Hat' Hcov' Ed).
    by rewrite <- app_assoc in IH.
  - injection H as <-. by rewrite app_nil_r.
Qed.

Lemma load_facts limits root kind start end_ c :
  0 <= id_level root -> cursor_load limits (mkIndexCursor (Some root) kind [] 0 start end_) = Ok c ->
  ic_root c = None /\ ic_start c = start /\ ic_end c = end_ /\
  exists f, ic_stack c = [f] /\ frame_ok limits f /\ frame_pos f = id_range_start root /\
    ip_range_end (fr_page f) = id_range_end root /\ fr_index f = 0%nat /\
    ip_level (fr_page f) = id_level root.
Proof.
  intros Hlev H. unfold cursor_load in H. cbn [ic_root ic_kind ic_stack ic_start ic_end] in H.
  apply bind_Ok in H as (? & _ & H). apply bind_Ok in H as (page & _ & H).
  apply bind_Ok in H as ([] & Hv & H). injection H as <-.
  cbn [ic_root ic_start ic_end ic_stack]. split_and!; [done..|].
  unfold IndexDescriptor_validate_page, IndexDescriptor_validate, ObjectRef_require, ObjectRef_validate in Hv.
  inv_ok. destruct (page_start page limits (or_byte_count (id_object root))) as [Hok Hst];
    [done|lia|lia|]. eexists. split; [done|]. cbn [fr_page fr_index]. split_and!; [done|lia|lia|done|lia].
Qed.

(** The cursor returns exactly the stored files of the requested range.
    Whatever the store holds, if the traversal of [start, end) ends without an
    error, the leaf entries it returned are consecutive intervals, in order and
    without gap or overlap, each meeting the range, and together they cover it. *)
Theorem cursor_covers_range fuel limits root kind start end_ c entries :
  0 <= id_level root -> cursor_new root kind start end_ = Ok c ->
  cursor_drain fuel limits c = Some (Ok entries) ->
  entries <> [] /\ Forall (overlaps start end_) entries /\
  exists s e, tiles ie_range_start ie_range_end s entries e /\ s <= start /\ end_ <= e.
Proof.
  intros Hlev Hnew Hd. unfold cursor_new in Hnew. inv_ok.
  destruct fuel as [|fuel]; [done|]. cbn [cursor_drain] in Hd. unfold cursor_next in Hd.
  destruct (cursor_load limits _) as [c1|e] eqn:El; [|discriminate Hd].
  destruct (load_facts _ _ _ _ _ _ Hlev El) as (Hr & Hs & He & f & Hst & Hf & Hpos & Hend & _).
  assert (Hd' : cursor_drain (S fuel) limits c1 = Some (Ok entries)).
  { cbn [cursor_drain]. unfold cursor_next, cursor_load. by rewrite Hr. }
  assert (Hcov : covered start end_ entries (id_range_end root)).
  { rewrite <- Hs, <- He. apply (drain_loaded (S fuel) limits (id_range_end root) c1 [] (id_range_start root));
      [lia|done| |left; split; [lia|done]|done].
    rewrite Hst, <- Hpos. constructor; [done|]. rewrite Hend. constructor. }
  destruct Hcov as [[Hle _]|(_ & Hne & Hov & s & e & Ht & Hs1 & He1 & Hend1)]; [lia|].
  split_and!; [done|done|]. exists s, e. split_and!; [done|done|lia].
Qed.

(** *** Termination *)

(** Turns needed for an entry and for a page of [n] entries at a level. *)
Fixpoint page_cost (n level : nat) : nat :=
  match level with O => (n + 1)%nat | S l => (n * (1 + page_cost n l) + 1)%nat end.

Definition entry_cost (n level : nat) : nat :=
  match level with O => 1%nat | S l => (1 + page_cost n l)%nat end.

Definition frame_cost (n : nat) (f : Frame) : nat :=
  ((length (ip_entries (fr_page f)) - fr_index f) * entry_cost n (Z.to_nat (ip_level (fr_page f))) + 1)%nat.

Definition stack_cost (n : nat) (stack : list Frame) : nat :=
  foldr (fun f acc => (frame_cost n f + acc)%nat) 0%nat stack.

Definition page_limit (limits : FormatLimits) : nat := Z.to_nat (fl_page_entries limits).

Lemma page_cost_entry n l : page_cost n l = (n * entry_cost n l + 1)%nat.
Proof. destruct l; simpl; lia. Qed.

Lemma page_cost_mono n l l' : (l <= l')%nat -> (page_cost n l <= page_cost n l')%nat.
Proof.
  induction 1 as [|l' Hle IH]; [lia|]. etransitivity; [exact IH|].
  clear. destruct n as [|n]; [destruct l'; simpl; lia|]. cbn [page_cost].
  generalize (page_cost (S n) l') as x. intros x. nia.
Qed.

Lemma page_frame_cost limits page size :
  IndexPage_validate page limits = Ok tt ->
  (frame_cost (page_limit limits) (mkFrame page 0 size)
   <= page_cost (page_limit limits) (Z.to_nat (ip_level page)))%nat.
Proof.
  intros Hv. destruct (IndexPage_validate_Ok _ _ Hv) as (_ & _ & _ & Hlen & _).
  unfold frame_cost. cbn [fr_page fr_index]. rewrite page_cost_entry, Nat.sub_0_r.
  assert (length (ip_entries page) <= page_limit limits)%nat by (unfold page_limit, zlen in *; lia).
  nia.
Qed.

(** Every turn that does not finish uses up cost. *)
Lemma turn_cost limits c t :
  Forall (frame_ok limits) (ic_stack c) -> cursor_turn limits c = Ok t ->
  match t with
  | Continue c' | Yield c' _ _ =>
      ic_root c' = ic_root c /\ Forall (frame_ok limits) (ic_stack c') /\
      (stack_cost (page_limit limits) (ic_stack c') < stack_cost (page_limit limits) (ic_stack c))%nat
  | Finished _ => True
  end.
Proof.
  intros Hok Ht. unfold cursor_turn in Ht.
  destruct (ic_stack c) as [|[page index size] stack]; [injection Ht as <-; done|].
  apply Forall_cons in Hok as [Hf Hok].
  destruct (ip_entries page !! index) as [entry|] eqn:Ee.
  - destruct (frame_step limits _ entry Hf Ee) as (Hf' & _). cbn [fr_page fr_index fr_size] in *.
    pose proof (lookup_lt_Some _ _ _ Ee) as Hlt. cbv zeta in Ht.
    assert (Hdec : (frame_cost (page_limit limits) (mkFrame page (S index) size)
        + entry_cost (page_limit limits) (Z.to_nat (ip_level page))
        = frame_cost (page_limit limits) (mkFrame page index size))%nat).
    { unfold frame_cost. cbn [fr_page fr_index]. nia. }
    assert (H1 : (1 <= entry_cost (page_limit limits) (Z.to_nat (ip_level page)))%nat)
      by (destruct (Z.to_nat (ip_level page)); simpl; lia).
    destruct (_ || _).
    + injection Ht as <-. cbn [set_stack ic_root ic_stack]. split_and!; [done|by constructor|].
      simpl. lia.
    + destruct (ip_level page =? 0) eqn:El.
      * inv_ok. cbn [set_stack ic_root ic_stack]. split_and!; [done|by constructor|]. simpl. lia.
      * inv_ok. cbn [set_stack ic_root ic_stack].
        match goal with X : IndexPage_validate_child _ _ _ _ = Ok _ |- _ =>
          destruct (validate_child_Ok _ _ _ _ X) as (entry' & He' & Hlev & Hv & Hl & _) end.
        destruct Hf as (Hfv & _).
        destruct (page_start _ limits (or_byte_count (ie_object entry)) Hv) as [Hcok _];
          [lia|exact (entry_byte_count page limits index entry Hfv Ee)|].
        split_and!; [done|constructor; [done|by constructor]|].
        pose proof (page_frame_cost limits _ (or_byte_count (ie_object entry)) Hv) as Hc.
        assert (Hlv : Z.to_nat (ip_level page) = S (Z.to_nat (ip_level a0))) by lia.
        rewrite Hlv in Hdec. cbn [entry_cost] in Hdec. cbn [stack_cost foldr]. lia.
  - injection Ht as <-. cbn [set_stack ic_root ic_stack]. split_and!; [done|done|].
    assert (1 <= frame_cost (page_limit limits) (mkFrame page index size))%nat
      by (unfold frame_cost; apply Nat.le_add_l).
    change (stack_cost (page_limit limits) (mkFrame page index size :: stack))
      with (frame_cost (page_limit limits) (mkFrame page index size)
            + stack_cost (page_limit limits) stack)%nat. lia.
Qed.

Lemma loop_total fuel limits c :
  Forall (frame_ok limits) (ic_stack c) -> (stack_cost (page_limit limits) (ic_stack c) < fuel)%nat ->
  exists o, cursor_loop fuel limits c = Some o /\
    forall c' x, o = Ok (c', Some x) ->
      ic_root c' = ic_root c /\ Forall (frame_ok limits) (ic_stack c') /\
      (stack_cost (page_limit limits) (ic_stack c') < stack_cost (page_limit limits) (ic_stack c))%nat.
Proof.
  revert c; induction fuel as [|fuel IH]; intros c Hok Hf; [lia|]. cbn [cursor_loop].
  destruct (cursor_turn limits c) as [[c1|c1 entry bytes|c1]|e] eqn:Et.
  - destruct (turn_cost _ _ _ Hok Et) as (Hr & Hok1 & Hlt).
    destruct (IH c1 Hok1 ltac:(lia)) as (o & Ho & Hspec). exists o. split; [done|].
    intros c' x Hx. destruct (Hspec c' x Hx) as (Hr' & ? & ?). split_and!; [congruence|done|lia].
  - destruct (turn_cost _ _ _ Hok Et) as (Hr & Hok1 & Hlt).
    eexists. split; [done|]. by intros c' x [= <- <-].
  - eexists. split; [done|]. by intros c' x [= ].
  - eexists. split; [done|]. by intros c' x [= ].
Qed.

Lemma drain_total_loaded fuel limits c :
  ic_root c = None -> Forall (frame_ok limits) (ic_stack c) ->
  (stack_cost (page_limit limits) (ic_stack c) < fuel)%nat -> cursor_drain fuel limits c <> None.
Proof.
  revert c; induction fuel as [|fuel IH]; intros c Hr Hok Hf; [lia|]. cbn [cursor_drain].
  unfold cursor_next, cursor_load. rewrite Hr.
  destruct (loop_total (S fuel) limits c Hok Hf) as (o & -> & Hspec).
  destruct o as [[c' [[entry bytes]|]]|e]; [|done|done].
  destruct (Hspec c' (entry, bytes) eq_refl) as (Hr' & Hok' & Hlt).
  assert (Hd : cursor_drain fuel limits c' <> None) by (apply IH; [congruence|done|lia]).
  by destruct (cursor_drain fuel limits c') as [[|]|].
Qed.

(** C38: index traversal terminates on every store, corrupt or malicious ones
    included, from any root descriptor whose level is in range, at least zero and
    below the height limit, as the validation of descriptors requires: the levels of validated edges decrease and pages are bounded, so a
    number of turns fixed by the page and height limits always suffices to reach
    the end or an error; no cycle of references can keep the cursor running. *)
Theorem cursor_terminates limits root kind start end_ c fuel :
  0 <= id_level root < fl_index_height limits -> cursor_new root kind start end_ = Ok c ->
  (page_cost (page_limit limits) (Z.to_nat (fl_index_height limits)) < fuel)%nat ->
  exists o, cursor_drain fuel limits c = Some o.
Proof.
  intros Hlev Hnew Hfuel. unfold cursor_new in Hnew. inv_ok.
  destruct fuel as [|fuel]; [lia|].
  assert (Hd : cursor_drain (S fuel) limits (mkIndexCursor (Some root) kind [] 0 start end_) <> None).
  { cbn [cursor_drain]. unfold cursor_next.
    destruct (cursor_load limits _) as [c1|e] eqn:El; [|done].
    destruct (load_facts _ _ _ _ _ _ (proj1 Hlev) El) as (Hr & _ & _ & f & Hst & Hf & _ & _ & Hi & Hl).
    assert (Hd : cursor_drain (S fuel) limits c1 <> None).
    { apply drain_total_loaded; [done|rewrite Hst; by constructor|].
      rewrite Hst. cbn [stack_cost foldr]. destruct f as [page index size]. simpl in Hi, Hl. subst index.
      destruct Hf as (Hv & _). pose proof (page_frame_cost limits page size Hv) as Hc.
      rewrite Hl in Hc.
      pose proof (page_cost_mono (page_limit limits) (Z.to_nat (id_level root))
        (Z.to_nat (fl_index_height limits)) ltac:(lia)). lia. }
    cbn [cursor_drain] in Hd. unfold cursor_next, cursor_load in Hd. by rewrite Hr in Hd. }
  destruct (cursor_drain (S fuel) limits _) as [o|]; [by exists o|done].
Qed.
End cursor.

(** ** A concrete index of two levels *)

Definition small_limits : FormatLimits :=
  mkFormatLimits BatchLimits_default MIB 2 (MIB / 4) (8 * MIB) 2 4 (32 * MIB) (256 * MIB).

Definition stored (s : StorageFormat) (key : string) : ObjectRef :=
  mkObjectRef "primary" key s Blake3 sample_digest (str_len key) None.

Definition page_a : IndexPage :=
  mkIndexPage FOrdinalIndex DatasetBatches 0 0 100 [mkIndexEntry 0 100 (stored FCaseBatch "batch-1")].
Definition page_b : IndexPage :=
  mkIndexPage FOrdinalIndex DatasetBatches 0 100 150
    [mkIndexEntry 100 130 (stored FCaseBatch "batch-2"); mkIndexEntry 130 150 (stored FCaseBatch "batch-3")].
Definition root_page : IndexPage :=
  mkIndexPage FOrdinalIndex DatasetBatches 1 0 150
    [mkIndexEntry 0 100 (stored FOrdinalIndex "page-a"); mkIndexEntry 100 150 (stored FOrdinalIndex "page-b")].

(** Each object's text is its key; documents are looked up by it. *)
#[local] Instance key_encoding : Encoding := {|
  json_parse := fun s => Some (RStr s);
  to_vec := fun v => match v with Str s => Ok s | _ => Err "not a key" end;
  blake3_hex := constant_digest;
  blake3_bytes := fun _ => []
|}.

#[local] Instance key_pages : Serde IndexPage := {|
  ser_chunks := fun _ => Err "read only";
  from_value := fun v =>
    if value_eqb v (Str "root") then Ok root_page
    else if value_eqb v (Str "page-a") then Ok page_a
    else if value_eqb v (Str "page-b") then Ok page_b
    else Err "no such page"
|}.

Definition key_store (r : ObjectRef) : result string := Ok (or_key r).
Definition root_descriptor : IndexDescriptor := mkIndexDescriptor 1 0 150 (stored FOrdinalIndex "root").
Definition sample_cursor : IndexCursor :=
  mkIndexCursor (Some root_descriptor) DatasetBatches [] 0 50 120.
Definition sample_leaves : list IndexEntry :=
  [mkIndexEntry 0 100 (stored FCaseBatch "batch-1"); mkIndexEntry 100 130 (stored FCaseBatch "batch-2")].

Lemma cursor_covers_range_witness :
  exists s e, tiles ie_range_start ie_range_end s sample_leaves e /\ s <= 50 /\ 120 <= e.
Proof.
  apply (cursor_covers_range key_store 20 small_limits root_descriptor DatasetBatches 50 120
           sample_cursor sample_leaves).
  - vm_compute. congruence.
  - vm_compute. reflexivity.
  - vm_compute. reflexivity.
Defined.

Lemma cursor_terminates_witness :
  exists o, cursor_drain key_store 22 small_limits sample_cursor = Some o.
Proof.
  apply (cursor_terminates key_store small_limits root_descriptor DatasetBatches 50 120).
  - vm_compute. split; congruence.
  - vm_compute. reflexivity.
  - vm_compute. lia.
Defined.

Definition quiet : ReadEnv := mkReadEnv (Ok tt) false false false.
Definition ref_text (r : ObjectRef) : result string := Ok (or_key r).

Lemma cache_read_safe_witness :
  exists st' res, cache_read constant_digest ref_text 200 key_store cache_default "binding"
      (stored FCaseBatch "batch-1") small_limits quiet = Some (st', res) /\
    cache_inv constant_digest st' /\
    forall bytes, res = Ok bytes ->
      ObjectRef_verify constant_digest (stored FCaseBatch "batch-1") bytes small_limits
      = Ok (mkVerifiedObject (stored FCaseBatch "batch-1") bytes).
Proof.
  apply (cache_read_safe constant_digest ref_text 200 key_store).
  - lia.
  - split; simpl; [reflexivity|vm_compute; congruence|vm_compute; congruence|constructor|constructor].
Defined.
