(* ===== verification/EvaluatorRef.v ===== *)
(** * Evaluator references

    Model of src/vigilo/src/contracts/evaluator_ref.rs: the parser of
    [<namespace>/<name>:<version>] references, over the [str::trim] and
    [str::rsplit_once] of the standard library, and its round trip with the
    canonical spelling of an identity. *)

From Stdlib Require Import ZArith Lia ZifyBool Ascii.
From stdpp Require Import base strings numbers sets list.
From S2P Require Import Prelude Text BTree.

Open Scope Z_scope.

Record EvaluatorIdentity := mkEvaluatorIdentity {
  ei_namespace : string;
  ei_name : string;
  ei_version : string
}.

#[global] Instance EvaluatorIdentity_eq_dec : EqDecision EvaluatorIdentity.
Proof. solve_decision. Defined.

(** ** Trimming

    White space is stripped a character at a time from the front, and from the
    back on the reversed bytes, where the last byte of a character comes
    first. *)
Section strip.
Variables (p1 : Z -> bool) (p2 : Z -> Z -> bool) (p3 : Z -> Z -> Z -> bool).

Fixpoint strip (l : list ascii) : list ascii :=
  match l with
  | [] => []
  | a :: l1 =>
      if p1 (code a) then strip l1
      else match l1 with
           | [] => l
           | b :: l2 =>
               if p2 (code a) (code b) then strip l2
               else match l2 with
                    | [] => l
                    | c :: l3 => if p3 (code a) (code b) (code c) then strip l3 else l
                    end
           end
  end.
End strip.

Definition trim_start (l : list ascii) : list ascii := strip ws1 ws2 ws3 l.

Definition trim_end (l : list ascii) : list ascii :=
  rev (strip ws1 (fun b a => ws2 a b) (fun c b a => ws3 a b c) (rev l)).

(** [s.trim()]. *)
Definition trim (s : string) : string :=
  String.string_of_list_ascii (trim_end (trim_start (String.list_ascii_of_string s))).

(** [s.rsplit_once(sep)] for an ASCII separator. *)
Fixpoint rsplit_once (sep : ascii) (s : string) : option (string * string) :=
  match s with
  | EmptyString => None
  | String a s' =>
      match rsplit_once sep s' with
      | Some (l, r) => Some (String a l, r)
      | None => if Ascii.eqb a sep then Some (EmptyString, s') else None
      end
  end.

Definition ambiguous_ref (input : string) : string :=
  "ambiguous evaluator identifier '" +:+ input
  +:+ "'; use fully qualified '<namespace>/<name>:<version>'".

Definition parse_fully_qualified_evaluator (input : string) : result EvaluatorIdentity :=
  '(identity, version) ← ok_or (rsplit_once ":" input) (ambiguous_ref input);
  let '(identity, version) := (trim identity, trim version) in
  '(namespace, name) ← ok_or (rsplit_once "/" identity) (ambiguous_ref input);
  let '(namespace, name) := (trim namespace, trim name) in
  if str_is_empty namespace || str_is_empty name || str_is_empty version
  then Err (ambiguous_ref input)
  else Ok (mkEvaluatorIdentity namespace name version).

(** The canonical spelling, [format!("{}/{}:{}", namespace, name, version)]. *)
Definition canonical_ref (i : EvaluatorIdentity) : string :=
  ei_namespace i +:+ "/" +:+ ei_name i +:+ ":" +:+ ei_version i.

(** ** Stripping *)
Section strip_lemmas.
Context (p1 : Z -> bool) (p2 : Z -> Z -> bool) (p3 : Z -> Z -> Z -> bool).
Local Notation strip := (strip p1 p2 p3).

(** The first character of a list is white space. *)
Definition starts_blank (l : list ascii) : bool :=
  match l with
  | [] => false
  | a :: l1 =>
      p1 (code a) || match l1 with
      | [] => false
      | b :: l2 => p2 (code a) (code b) || match l2 with
          | [] => false
          | c :: _ => p3 (code a) (code b) (code c)
          end
      end
  end.

Lemma strip_not_blank l : starts_blank l = false -> strip l = l.
Proof.
  destruct l as [|a [|b [|c l]]]; simpl; repeat case_if; simpl; try done.
Qed.

Lemma starts_blank_prefix l k : starts_blank (l ++ k) = false -> starts_blank l = false.
Proof.
  destruct l as [|a [|b [|c l]]]; simpl; [done|..]; rewrite ?orb_false_iff; tauto.
Qed.

(** Induction that follows the recursion of [strip]. *)
Lemma strip_spec l : exists pre, l = pre ++ strip l /\ starts_blank (strip l) = false.
Proof.
  induction l as [l IH] using (induction_ltof1 _ (@length ascii)). unfold ltof in IH.
  destruct l as [|a l1]; [by exists []|]. cbn [EvaluatorRef.strip].
  destruct (p1 (code a)) eqn:E1.
  { destruct (IH l1) as (pre & Hp & Hb); [simpl; lia|]. exists (a :: pre). by rewrite Hp at 1. }
  destruct l1 as [|b l2]; [exists []; simpl; by rewrite E1|].
  destruct (p2 (code a) (code b)) eqn:E2.
  { destruct (IH l2) as (pre & Hp & Hb); [simpl; lia|]. exists (a :: b :: pre). by rewrite Hp at 1. }
  destruct l2 as [|c l3]; [exists []; simpl; by rewrite E1, E2|].
  destruct (p3 (code a) (code b) (code c)) eqn:E3.
  { destruct (IH l3) as (pre & Hp & Hb); [simpl; lia|].
    exists (a :: b :: c :: pre). by rewrite Hp at 1. }
  exists []. simpl. by rewrite E1, E2, E3.
Qed.
End strip_lemmas.

(** ** Strings as byte lists *)

Local Notation bytes := String.list_ascii_of_string.
Local Notation of_bytes := String.string_of_list_ascii.

Lemma bytes_app a b : bytes (a +:+ b) = bytes a ++ bytes b.
Proof. induction a as [|c a IH]; [done|]. rewrite sapp_cons. cbn. by rewrite IH. Qed.

Definition trim_bytes (l : list ascii) : list ascii := trim_end (trim_start l).

Definition trimmed (l : list ascii) : Prop :=
  starts_blank ws1 ws2 ws3 l = false /\
  starts_blank ws1 (fun b a => ws2 a b) (fun c b a => ws3 a b c) (rev l) = false.

Lemma trim_end_prefix l :
  exists suf, l = trim_end l ++ suf /\
  starts_blank ws1 (fun b a => ws2 a b) (fun c b a => ws3 a b c) (rev (trim_end l)) = false.
Proof.
  unfold trim_end.
  destruct (strip_spec ws1 (fun b a => ws2 a b) (fun c b a => ws3 a b c) (rev l)) as (pre & Hp & Hb).
  exists (rev pre). rewrite rev_involutive. split; [|done].
  rewrite <- (rev_involutive l) at 1. rewrite Hp at 1. apply rev_app_distr.
Qed.

Lemma trim_bytes_spec l :
  trimmed (trim_bytes l) /\ exists pre suf, l = pre ++ trim_bytes l ++ suf.
Proof.
  unfold trim_bytes, trim_start.
  destruct (strip_spec ws1 ws2 ws3 l) as (pre & Hp & Hb).
  destruct (trim_end_prefix (strip ws1 ws2 ws3 l)) as (suf & Hs & He). split.
  - split; [|done]. apply starts_blank_prefix with suf. by rewrite <- Hs.
  - exists pre, suf. by rewrite <- Hs.
Qed.

Lemma trim_bytes_id l : trimmed l -> trim_bytes l = l.
Proof.
  intros [Hs He]. unfold trim_bytes, trim_start, trim_end.
  rewrite (strip_not_blank _ _ _ l) by done.
  rewrite strip_not_blank by done. apply rev_involutive.
Qed.

Lemma trim_fixed s : trim s = s <-> trimmed (bytes s).
Proof.
  unfold trim. fold (trim_bytes (bytes s)). split.
  - intros H. rewrite <- H, String.list_ascii_of_string_of_list_ascii. apply trim_bytes_spec.
  - intros H. rewrite trim_bytes_id by done. apply String.string_of_list_ascii_of_string.
Qed.

Lemma trim_idem s : trim (trim s) = trim s.
Proof.
  apply trim_fixed. unfold trim. rewrite String.list_ascii_of_string_of_list_ascii.
  apply trim_bytes_spec.
Qed.

Lemma trim_elem c s : c ∈ bytes (trim s) -> c ∈ bytes s.
Proof.
  unfold trim. rewrite String.list_ascii_of_string_of_list_ascii. intros H.
  destruct (trim_bytes_spec (bytes s)) as [_ (pre & suf & ->)]. fold (trim_bytes (bytes s)) in H.
  set_solver.
Qed.

(** A separator that no white-space character contains keeps its neighbours
    trimmed. *)
Lemma starts_blank_sep p1 p2 p3 (sep : ascii) x y :
  (forall a, p2 a (code sep) = false) -> (forall a b, p3 a (code sep) b = false) ->
  (forall a b, p3 a b (code sep) = false) ->
  x <> [] -> starts_blank p1 p2 p3 x = false -> starts_blank p1 p2 p3 (x ++ sep :: y) = false.
Proof.
  intros H2 H3 H3'. destruct x as [|a [|b [|c x]]]; simpl; intros; [done|..];
    rewrite ?orb_false_iff in *; rewrite ?H2, ?H3, ?H3'; try tauto.
  split; [tauto|]. split; [done|]. by destruct y.
Qed.

Lemma trimmed_sep (sep : ascii) x y :
  code sep < 128 -> x <> [] -> y <> [] -> trimmed x -> trimmed y -> trimmed (x ++ sep :: y).
Proof.
  intros Hs Hx Hy [Hxs _] [_ Hye]. split.
  - apply starts_blank_sep; try done; intros; unfold ws2, ws3, between; lia.
  - rewrite rev_app_distr. cbn [rev]. rewrite <- app_assoc. cbn [app].
    apply starts_blank_sep; try done; try (intros; unfold ws2, ws3, between; lia).
    intros H. apply Hy. rewrite <- (rev_involutive y), H. done.
Qed.

(** ** Splitting at the last separator *)

Lemma rsplit_once_None sep s : rsplit_once sep s = None <-> sep ∉ bytes s.
Proof.
  induction s as [|a s IH]; cbn [rsplit_once bytes]; [set_solver|].
  rewrite not_elem_of_cons, <- IH. destruct (rsplit_once sep s) as [[l r]|]; [naive_solver|].
  destruct (Ascii.eqb_spec a sep); naive_solver.
Qed.

Lemma rsplit_once_Some sep s l r :
  rsplit_once sep s = Some (l, r) <-> s = l +:+ String sep r /\ sep ∉ bytes r.
Proof.
  revert l. induction s as [|a s IH]; intros l; cbn [rsplit_once].
  - split; [done|]. intros [H _]. by destruct l.
  - destruct (rsplit_once sep s) as [[l' r']|] eqn:E.
    + split.
      * intros [= <- <-]. destruct (IH l') as [[-> ?] _]; [done|]. done.
      * intros [H Hr]. destruct l as [|b l].
        -- rewrite sapp_nil in H. injection H as -> ->.
           apply rsplit_once_None in Hr. by rewrite Hr in E.
        -- rewrite sapp_cons in H. injection H as -> ->.
           destruct (IH l) as [_ H]. specialize (H (conj eq_refl Hr)). by simplify_eq.
    + apply rsplit_once_None in E. destruct (Ascii.eqb_spec a sep) as [->|Hne]; split.
      * intros [= <- <-]. done.
      * intros [H Hr]. destruct l as [|b l]; [rewrite sapp_nil in H; by simplify_eq|].
        rewrite sapp_cons in H. injection H as -> ->. rewrite bytes_app in E. set_solver.
      * done.
      * intros [H Hr]. destruct l as [|b l]; [rewrite sapp_nil in H; by simplify_eq|].
        rewrite sapp_cons in H. injection H as -> ->. rewrite bytes_app in E. set_solver.
Qed.

(** ** References and identities *)

(** What a parsed identity looks like: trimmed, non-empty parts, no slash in
    the name and no colon in the version. *)
Definition identity_wf (i : EvaluatorIdentity) : Prop :=
  Forall (fun s => trim s = s /\ s <> "") [ei_namespace i; ei_name i; ei_version i] /\
  "/"%char ∉ bytes (ei_name i) /\ ":"%char ∉ bytes (ei_version i).

Lemma str_is_empty_false s : str_is_empty s = false <-> s <> "".
Proof. destruct s; simpl; naive_solver. Qed.

Lemma parse_ref_wf s i : parse_fully_qualified_evaluator s = Ok i -> identity_wf i.
Proof.
  unfold parse_fully_qualified_evaluator. intros H.
  apply bind_Ok in H as ([identity version] & Hv%ok_or_Ok%rsplit_once_Some & H).
  apply bind_Ok in H as ([namespace name] & Hn%ok_or_Ok%rsplit_once_Some & H).
  destruct (str_is_empty (trim namespace)) eqn:E1, (str_is_empty (trim name)) eqn:E2,
    (str_is_empty (trim version)) eqn:E3; try done. injection H as <-.
  apply str_is_empty_false in E1, E2, E3. split; [|split]; cbn [ei_namespace ei_name ei_version].
  - repeat constructor; try apply trim_idem; done.
  - intros Hin%trim_elem. by apply Hn.
  - intros Hin%trim_elem. by apply Hv.
Qed.

Lemma bytes_nonempty s : s <> "" -> bytes s <> [].
Proof. by destruct s. Qed.

Lemma parse_canonical_ref i :
  identity_wf i -> parse_fully_qualified_evaluator (canonical_ref i) = Ok i.
Proof.
  destruct i as [ns name version]. intros (Hparts & Hname & Hversion).
  cbn [ei_namespace ei_name ei_version] in *.
  apply Forall_cons in Hparts as [[Tns Ens] Hparts]. apply Forall_cons in Hparts as [[Tn En] Hparts].
  apply Forall_cons in Hparts as [[Tv Ev] _].
  unfold parse_fully_qualified_evaluator, canonical_ref. cbn [ei_namespace ei_name ei_version].
  assert (rsplit_once ":" (ns +:+ "/" +:+ name +:+ ":" +:+ version)
          = Some (ns +:+ "/" +:+ name, version)) as ->.
  { apply rsplit_once_Some. split; [|done]. by rewrite <- !sapp_assoc. }
  cbn [ok_or mbind result_bind]. rewrite Tv.
  assert (trim (ns +:+ "/" +:+ name) = ns +:+ "/" +:+ name) as ->.
  { apply trim_fixed. rewrite !bytes_app.
    apply trimmed_sep; [done|by apply bytes_nonempty..|by apply trim_fixed|by apply trim_fixed]. }
  assert (rsplit_once "/" (ns +:+ "/" +:+ name) = Some (ns, name)) as ->.
  { by apply rsplit_once_Some. }
  cbn [ok_or mbind result_bind]. rewrite Tns, Tn.
  apply str_is_empty_false in Ens, En, Ev. by rewrite Ens, En, Ev.
Qed.

(** Parsing and printing evaluator references are inverse: the identities
    the parser can return are exactly those whose canonical
    [<namespace>/<name>:<version>] spelling parses back to them, and whatever
    spelling was parsed (with blanks around its parts, or slashes in the
    namespace), its canonical spelling denotes the same identity. *)
Theorem evaluator_ref_roundtrip i :
  (identity_wf i <-> parse_fully_qualified_evaluator (canonical_ref i) = Ok i) /\
  (forall s, parse_fully_qualified_evaluator s = Ok i ->
     parse_fully_qualified_evaluator (canonical_ref i) = Ok i).
Proof.
  split; [split; [apply parse_canonical_ref|apply parse_ref_wf]|].
  intros s H. apply parse_canonical_ref. by apply parse_ref_wf in H.
Qed.

(** A spelling with blanks, a slash in the namespace and a colon in the name. *)
Lemma evaluator_ref_roundtrip_witness :
  parse_fully_qualified_evaluator
    (canonical_ref (mkEvaluatorIdentity "acme/text" "tone:basic" "0.1.0"))
  = Ok (mkEvaluatorIdentity "acme/text" "tone:basic" "0.1.0").
Proof.
  apply (proj2 (evaluator_ref_roundtrip (mkEvaluatorIdentity "acme/text" "tone:basic" "0.1.0"))
           " acme/text / tone:basic : 0.1.0 ").
  vm_compute. reflexivity.
Defined.
