(* ===== verification/ProfileValidation.v ===== *)
(** * Profile validation

    Model of src/vigilo/src/db/workflows/run_profile_validation.rs: the check
    that a run profile can execute a dataset, made before a run is created.
    With it the parts of other files the check calls: the adapter registry of
    evaluator_abi.rs, the metadata query of db/tables/evaluators.rs, the
    evaluator states of models/evaluator.rs and the request formats of
    agent_client.rs.

    The evaluators table is the list of its rows, or the error of the query.
    URL and HTTP-method parsing belong to [reqwest] and are parameters, as is
    the printing of UUIDs in messages. *)

From Stdlib Require Import ZArith Lia ZifyBool Permutation Ascii.
From stdpp Require Import base strings pretty numbers option gmap sets list.
From S2P Require Import Prelude Float64 BTree Text Json RunTypes Normalization StorageFormats.
From S2P Require Import EvaluatorRef.

Open Scope Z_scope.

(** ** Evaluator states and rows *)

Inductive EvaluatorState := Active | Yanked | Deprecated | Disabled | Removed.

Record EvaluatorRuntimeMetadata := mkEvaluatorRuntimeMetadata {
  em_namespace : string;
  em_name : string;
  em_version : string;
  em_id : Uuid;
  em_state : EvaluatorState;
  em_interface_version : string;
  em_interface_name : string;
  em_wit_world : string;
  em_content_hash : string;
  em_abi_contract_hash : string;
  em_abi_adapter : string;
  em_runtime : string;
  em_runtime_version : string;
  em_runtime_fingerprint : string
}.

(** [{:?}] of a state. *)
Definition state_debug (s : EvaluatorState) : string :=
  match s with
  | Active => "Active"
  | Yanked => "Yanked"
  | Deprecated => "Deprecated"
  | Disabled => "Disabled"
  | Removed => "Removed"
  end.

Definition is_runnable_state (s : EvaluatorState) : bool :=
  match s with Active | Deprecated | Yanked => true | _ => false end.

Definition row_key (row : EvaluatorRuntimeMetadata) : string * string * string :=
  (em_namespace row, em_name row, em_version row).

Definition identity_key (i : EvaluatorIdentity) : string * string * string :=
  (ei_namespace i, ei_name i, ei_version i).

(** The join of the requested identities with the table. *)
Definition select_evaluator_runtime_metadata_by_identities
    (db : result (list EvaluatorRuntimeMetadata)) (identities : list (string * string * string))
    : result (list EvaluatorRuntimeMetadata) :=
  match identities with
  | [] => Ok []
  | _ =>
      table ← db;
      Ok (flat_map (fun r => List.filter (fun row => bool_decide (row_key row = r)) table) identities)
  end.

(** ** ABI adapters *)

(** The identity of the one adapter; its contract hash is that of the WIT file
    compiled into the binary. *)
Definition v1_identity (wit_hash : string) : EvaluatorAbiIdentity :=
  mkEvaluatorAbiIdentity "vigilo:evaluator" "evaluator-world" "evaluator" "1.0.0" wit_hash
    "vigilo-evaluator-v1@1".

Definition ADAPTERS (wit_hash : string) : list EvaluatorAbiIdentity := [v1_identity wit_hash].

Definition declares (package world interface version : string) (i : EvaluatorAbiIdentity) : bool :=
  str_eqb (abi_package i) package && str_eqb (abi_world i) world
  && str_eqb (abi_interface i) interface && str_eqb (abi_version i) version.

Definition resolve_declaration (wit_hash package world interface version : string)
    : result EvaluatorAbiIdentity :=
  ok_or (List.find (declares package world interface version) (ADAPTERS wit_hash))
    ("unsupported evaluator ABI " +:+ package +:+ "/" +:+ interface +:+ "@" +:+ version
     +:+ " (world '" +:+ world +:+ "'); supported versions: "
     +:+ join ", " (map abi_version (ADAPTERS wit_hash))).

(** ** Agent request formats *)

Inductive AgentRequestFormat := VigiloCase | OpenAiCompatibleChatCompletions.

Definition REQUEST_FORMAT_VIGILO_CASE : string := "vigilo_case".
Definition REQUEST_FORMAT_OPENAI : string := "openai_compatible_chat_completions".

Definition format_from_profile (profile : RunProfile) : result AgentRequestFormat :=
  match json_get "request_format" (ap_config (rp_agent profile)) with
  | None => Ok VigiloCase
  | Some format_value =>
      match as_str format_value with
      | None => Err "agent.config.request_format must be a string"
      | Some format =>
          if str_eqb format REQUEST_FORMAT_VIGILO_CASE then Ok VigiloCase
          else if str_eqb format REQUEST_FORMAT_OPENAI then Ok OpenAiCompatibleChatCompletions
          else Err ("unsupported agent.config.request_format '" +:+ format +:+ "'; expected '"
                    +:+ REQUEST_FORMAT_VIGILO_CASE +:+ "' or '" +:+ REQUEST_FORMAT_OPENAI +:+ "'")
      end
  end.

Definition validate_request_format (profile : RunProfile) : result unit :=
  _ ← format_from_profile profile; Ok tt.

Definition MAX_RETRY_AFTER_SECS : Z := 86400.

(** ** Case routing *)

Definition group_applies (group : CaseGroupProfile) (case : DatasetCase) : bool :=
  let applies := cg_applies_to group in
  if negb (str_eqb (at_task_type applies) (dc_task_type case)) then false
  else if negb (bool_decide (at_tags_any applies = []))
          && negb (existsb (fun tag => existsb (fun case_tag => str_eqb case_tag tag) (dc_tags case))
                     (at_tags_any applies)) then false
  else if negb (forallb (fun tag => existsb (fun case_tag => str_eqb case_tag tag) (dc_tags case))
                  (at_tags_all applies)) then false
  else true.

Definition matching_groups_for_case (profile : RunProfile) (case : DatasetCase)
    : list CaseGroupProfile :=
  match dc_case_group case with
  | Some group_id => List.filter (fun group => str_eqb (cg_id group) group_id) (rp_case_groups profile)
  | None => List.filter (fun group => group_applies group case) (rp_case_groups profile)
  end.

(** A required binding that feeds a gate. *)
Definition gate_targets (gate : ScorecardGate) (binding : EvaluatorBinding) : bool :=
  eb_required binding && str_eqb (eb_dimension binding) (sg_dimension gate)
  && is_none_or (fun id => str_eqb (eb_id binding) id) (sg_binding_id gate).

Definition case_matches_gate (profile : RunProfile) (case : DatasetCase) (gate : ScorecardGate)
    : bool :=
  let groups := matching_groups_for_case profile case in
  is_none_or (fun id => existsb (fun group => str_eqb (cg_id group) id) groups) (sg_case_group gate)
  && forallb (fun tag => existsb (str_eqb tag) (dc_tags case)) (sg_tags_all gate)
  && existsb (fun group => existsb (gate_targets gate) (cg_evaluators group)) groups.

(** ** Static checks *)

Definition valid_identifier (id : string) : bool := negb (trim_is_empty id) && is_identifier id.

Definition gate_rates (gate : ScorecardGate) : list (option f64) :=
  [sg_min_mean_score gate; sg_score_threshold gate; sg_min_pass_rate gate; sg_min_coverage gate;
   sg_max_error_rate gate; sg_max_abstention_rate gate].

(** The groups a gate may draw from. *)
Definition candidate_groups (profile : RunProfile) (gate : ScorecardGate) : list CaseGroupProfile :=
  List.filter (fun group => is_none_or (fun id => str_eqb (cg_id group) id) (sg_case_group gate))
    (rp_case_groups profile).

Definition gate_methods (profile : RunProfile) (gate : ScorecardGate) : list AggregationMethod :=
  omap (fun group => da_method <$> bt_get (sg_dimension gate) (ags_dimensions (cg_aggregation group)))
    (candidate_groups profile gate).

Definition gate_msg (gate : ScorecardGate) (msg : string) : string :=
  "scorecard gate '" +:+ sg_id gate +:+ "' " +:+ msg.

(** One turn of the loop over the gates; [seen] is the set of earlier ids. *)
Definition gate_issues (profile : RunProfile) (seen : gset string) (gate : ScorecardGate)
    : list string :=
  when (negb (valid_identifier (sg_id gate)))
    ("scorecard gate id '" +:+ sg_id gate
     +:+ "' must contain only ASCII letters, numbers, '.', '_' or '-'")
  ++ when (bool_decide (sg_id gate ∈ seen))
    ("scorecard contains duplicate gate id '" +:+ sg_id gate +:+ "'")
  ++ when (trim_is_empty (sg_dimension gate)) (gate_msg gate "dimension must not be empty")
  ++ when ((16 <? zlen (sg_tags_all gate))
           || existsb (fun tag => trim_is_empty tag || (128 <? str_len tag)) (sg_tags_all gate))
    (gate_msg gate "tags_all must contain at most 16 non-empty tags of at most 128 bytes")
  ++ when (existsb (is_some_and (fun value => negb (in_unit value))) (gate_rates gate))
    (gate_msg gate "thresholds must be finite and between 0.0 and 1.0")
  ++ when (negb (Bool.eqb (opt_is_some (sg_min_pass_rate gate)) (opt_is_some (sg_score_threshold gate))))
    (gate_msg gate "score_threshold and min_pass_rate must be configured together")
  ++ when (forallb opt_is_none (gate_rates gate))
    (gate_msg gate "must configure at least one threshold")
  ++ match sg_case_group gate with
     | Some case_group =>
         when (negb (existsb (fun group => str_eqb (cg_id group) case_group) (rp_case_groups profile)))
           (gate_msg gate ("references unknown case_group '" +:+ case_group +:+ "'"))
     | None => []
     end
  ++ when (negb (existsb (fun group => existsb (gate_targets gate) (cg_evaluators group))
                   (candidate_groups profile gate)))
    (gate_msg gate "does not target a required evaluator binding")
  ++ when (opt_is_none (sg_binding_id gate)
           && (1 <? zlen (remove_dups (gate_methods profile gate))))
    (gate_msg gate "spans conflicting aggregation methods; set case_group or binding_id").

Definition check_gate (profile : RunProfile) (st : gset string * list string) (gate : ScorecardGate)
    : gset string * list string :=
  (st.1 ∪ {[sg_id gate]}, st.2 ++ gate_issues profile st.1 gate).

Definition group_msg (group : CaseGroupProfile) (msg : string) : string :=
  "case_group '" +:+ cg_id group +:+ "' " +:+ msg.

(** One turn of the loop over the bindings of a group. *)
Definition binding_issues (group : CaseGroupProfile) (seen : gset string) (binding : EvaluatorBinding)
    : list string :=
  when (negb (valid_identifier (eb_id binding)))
    (group_msg group ("evaluator binding id '" +:+ eb_id binding
     +:+ "' must contain only ASCII letters, numbers, '.', '_' or '-'"))
  ++ when (bool_decide (eb_id binding ∈ seen))
    (group_msg group ("contains duplicate evaluator binding id '" +:+ eb_id binding +:+ "'"))
  ++ when (negb (is_finite (eb_weight binding)) || flt (eb_weight binding) f0)
    (group_msg group ("evaluator '" +:+ eb_evaluator_ref binding
     +:+ "' weight must be finite and greater than or equal to 0.0"))
  ++ when (trim_is_empty (eb_dimension binding))
    (group_msg group ("evaluator binding '" +:+ eb_id binding +:+ "' dimension must not be empty"))
  ++ when (negb (in_unit (eb_pass_threshold binding)))
    (group_msg group ("evaluator binding '" +:+ eb_id binding
     +:+ "' pass_threshold must be finite and between 0.0 and 1.0"))
  ++ match validate_policy (eb_normalization binding) with
     | Err err => [group_msg group ("evaluator binding '" +:+ eb_id binding
                   +:+ "' has invalid normalization policy: " +:+ err)]
     | Ok _ => []
     end
  ++ when (negb (eb_required binding) && (eb_blocking binding || negb (feq (eb_weight binding) f0)))
    (group_msg group ("optional evaluator '" +:+ eb_evaluator_ref binding
     +:+ "' must be non-blocking with weight 0.0")).

Definition check_binding (group : CaseGroupProfile) (st : gset string * list string)
    (binding : EvaluatorBinding) : gset string * list string :=
  (st.1 ∪ {[eb_id binding]}, st.2 ++ binding_issues group st.1 binding).

Definition group_issues (group : CaseGroupProfile) : list string :=
  (fold_left (check_binding group) (cg_evaluators group) (∅, [])).2
  ++ when (negb (bool_decide (cg_evaluators group = []))
           && negb (existsb eb_required (cg_evaluators group)))
       (group_msg group "must contain at least one required evaluator")
  ++ flat_map (fun dp : string * DimensionAggregation =>
       when (negb (is_finite (da_weight dp.2)) || flt (da_weight dp.2) f0)
         (group_msg group ("aggregation dimension '" +:+ dp.1
          +:+ "' weight must be finite and greater than or equal to 0.0")))
     (ags_dimensions (cg_aggregation group)).

(** ** Evaluator references of a profile *)

(** State of the first loop: runnable_by_ref, parsed_refs, issues. *)
Definition ParseState : Type :=
  gmap string bool * list (string * string * EvaluatorIdentity) * list string.

Definition parse_binding (group : CaseGroupProfile) (st : ParseState) (binding : EvaluatorBinding)
    : ParseState :=
  let '(runnable, parsed, issues) := st in
  let ref := eb_evaluator_ref binding in
  if bool_decide (is_Some (runnable !! ref)) then st
  else
    match parse_fully_qualified_evaluator ref with
    | Err err =>
        (<[ref := false]> runnable, parsed,
         issues ++ [group_msg group ("uses invalid evaluator ref '" +:+ ref +:+ "': " +:+ err)])
    | Ok identity => (<[ref := false]> runnable, parsed ++ [(cg_id group, ref, identity)], issues)
    end.

Definition parse_group (st : ParseState) (group : CaseGroupProfile) : ParseState :=
  fold_left (parse_binding group) (cg_evaluators group) st.

(** Collecting rows into a hash map: a later row replaces an earlier one. *)
Definition by_identity (rows : list EvaluatorRuntimeMetadata)
    : gmap (string * string * string) EvaluatorRuntimeMetadata :=
  fold_left (fun m row => <[row_key row := row]> m) rows ∅.

Definition bindings_of (profile : RunProfile) : list (CaseGroupProfile * EvaluatorBinding) :=
  flat_map (fun group => map (pair group) (cg_evaluators group)) (rp_case_groups profile).

Definition refs_in (pairs : list (CaseGroupProfile * EvaluatorBinding)) : list string :=
  map (fun gb => eb_evaluator_ref gb.2) pairs.

(** The evaluator references of a profile, in binding order. *)
Definition evaluator_refs (profile : RunProfile) : list string := refs_in (bindings_of profile).

Record parse_inv (issues0 : list string) (pre : list (CaseGroupProfile * EvaluatorBinding))
    (st : ParseState) : Prop := {
  pi_dom : forall ref, is_Some (st.1.1 !! ref) <-> ref ∈ refs_in pre;
  pi_parsed : forall e, e ∈ st.1.2 ->
    parse_fully_qualified_evaluator e.1.2 = Ok e.2 /\ e.1.2 ∈ refs_in pre;
  pi_complete : forall ref identity, ref ∈ refs_in pre ->
    parse_fully_qualified_evaluator ref = Ok identity ->
    exists group_id, (group_id, ref, identity) ∈ st.1.2;
  pi_issues : st.2 = [] <->
    issues0 = [] /\ (forall ref, ref ∈ refs_in pre -> is_ok (parse_fully_qualified_evaluator ref) = true)
}.

Lemma refs_in_snoc pre gb ref :
  ref ∈ refs_in (pre ++ [gb]) <-> ref ∈ refs_in pre \/ ref = eb_evaluator_ref gb.2.
Proof. unfold refs_in. rewrite map_app, elem_of_app. simpl. by rewrite list_elem_of_singleton. Qed.

Lemma snoc_not_nil {A} (l : list A) a : l ++ [a] = [] <-> False.
Proof. split; [|done]. by destruct l. Qed.

Lemma insert_is_Some {V} (m : gmap string V) k v j :
  is_Some (<[k := v]> m !! j) <-> is_Some (m !! j) \/ j = k.
Proof.
  destruct (decide (j = k)) as [->|Hne].
  - rewrite lookup_insert_eq. naive_solver.
  - rewrite lookup_insert_ne by done. naive_solver.
Qed.

Lemma parse_binding_inv issues0 pre st gb :
  parse_inv issues0 pre st -> parse_inv issues0 (pre ++ [gb]) (parse_binding gb.1 st gb.2).
Proof.
  destruct st as [[m parsed] issues], gb as [group binding]. intros [Hdom Hp Hc Hi]. simpl in *.
  unfold parse_binding. case_bool_decide as Hin.
  { apply Hdom in Hin.
    assert (Heq : forall ref, ref ∈ refs_in (pre ++ [(group, binding)]) <-> ref ∈ refs_in pre).
    { intros ref. rewrite refs_in_snoc. simpl. split; [intros [?| ->]; done|auto]. }
    split; simpl; setoid_rewrite Heq; done. }
  destruct (parse_fully_qualified_evaluator (eb_evaluator_ref binding)) as [identity|err] eqn:E.
  - split; simpl.
    + intros ref. rewrite insert_is_Some, refs_in_snoc, Hdom. done.
    + intros e. rewrite elem_of_app, list_elem_of_singleton, refs_in_snoc.
      intros [He| ->]; [destruct (Hp e He); auto|]. simpl. auto.
    + intros ref id. rewrite refs_in_snoc. setoid_rewrite elem_of_app.
      setoid_rewrite list_elem_of_singleton. simpl. intros [Hr| ->] Hid; [destruct (Hc ref id Hr Hid); eauto|].
      rewrite Hid in E. injection E as <-. eauto.
    + rewrite Hi. setoid_rewrite refs_in_snoc. simpl. apply and_iff_compat_l. split; [|auto].
      intros H ref [Hr| ->]; [auto|]. by rewrite E.
  - split; simpl.
    + intros ref. rewrite insert_is_Some, refs_in_snoc, Hdom. done.
    + intros e He. rewrite refs_in_snoc. destruct (Hp e He); auto.
    + intros ref id. rewrite refs_in_snoc. simpl. intros [Hr| ->] Hid; [eauto|by rewrite Hid in E].
    + rewrite snoc_not_nil. setoid_rewrite refs_in_snoc. simpl. split; [done|].
      intros [_ H]. specialize (H _ (or_intror eq_refl)). by rewrite E in H.
Qed.

Lemma parse_groups_inv profile issues0 :
  parse_inv issues0 (bindings_of profile)
    (fold_left parse_group (rp_case_groups profile) (∅, [], issues0)).
Proof.
  unfold parse_group, bindings_of.
  rewrite (fold_left_nested (fun st gb => parse_binding gb.1 st gb.2) cg_evaluators).
  apply fold_left_inv with (P := parse_inv issues0).
  - split; simpl; try set_solver. intros ref. rewrite lookup_empty, is_Some_alt. set_solver.
  - intros pre st gb _. apply parse_binding_inv.
Qed.

(** ** The evaluators table *)

Lemma by_identity_inv rows :
  (forall k row, by_identity rows !! k = Some row -> row ∈ rows /\ row_key row = k) /\
  (forall row, row ∈ rows -> is_Some (by_identity rows !! row_key row)).
Proof.
  unfold by_identity.
  apply (fold_left_inv (fun pre (m : gmap _ _) =>
    (forall k row, m !! k = Some row -> row ∈ pre /\ row_key row = k) /\
    (forall row, row ∈ pre -> is_Some (m !! row_key row)))).
  - split; [intros k row; by rewrite lookup_empty|set_solver].
  - intros pre m a _ [H1 H2]. split.
    + intros k row. destruct (decide (k = row_key a)) as [->|Hne].
      * rewrite lookup_insert_eq. intros [= <-]. set_solver.
      * rewrite lookup_insert_ne by done. intros [? ?]%H1. set_solver.
    + intros row. rewrite elem_of_app, list_elem_of_singleton.
      destruct (decide (row_key row = row_key a)) as [->|Hne].
      * rewrite lookup_insert_eq. eauto.
      * rewrite lookup_insert_ne by done. intros [?| ->]; [auto|done].
Qed.

Lemma NoDup_map_inj {A B} (f : A -> B) l a b :
  NoDup (map f l) -> a ∈ l -> b ∈ l -> f a = f b -> a = b.
Proof.
  induction l as [|x l IH]; simpl; [set_solver|]. intros [Hx Hl]%NoDup_cons.
  intros [->|Ha]%elem_of_cons [->|Hb]%elem_of_cons Hf; [done|..|by apply IH];
    destruct Hx; [rewrite Hf|rewrite <- Hf]; by apply list_elem_of_fmap_2.
Qed.

(** With one row per identity, the collected rows are those of the table. *)
Lemma table_lookup table ids fetched k row :
  NoDup (map row_key table) ->
  select_evaluator_runtime_metadata_by_identities (Ok table) ids = Ok fetched ->
  k ∈ ids ->
  by_identity fetched !! k = Some row <-> row ∈ table /\ row_key row = k.
Proof.
  intros Hnd Hsel Hk.
  assert (Hin : forall r, r ∈ fetched <-> r ∈ table /\ row_key r ∈ ids).
  { intros r.
    assert (fetched = flat_map (fun i => List.filter (fun row => bool_decide (row_key row = i)) table) ids)
      as -> by (destruct ids; simpl in Hsel; by inv_ok).
    rewrite list_elem_of_In, in_flat_map. setoid_rewrite filter_In.
    setoid_rewrite bool_decide_eq_true. setoid_rewrite <- list_elem_of_In. naive_solver. }
  destruct (by_identity_inv fetched) as [H1 H2]. split.
  - intros [Hr <-]%H1. apply Hin in Hr. naive_solver.
  - intros [Hr <-]. destruct (H2 row) as [row' Hrow']; [by apply Hin|].
    rewrite Hrow'. f_equal. destruct (H1 _ _ Hrow') as [Hr' Hkey]. apply Hin in Hr' as [Hr' _].
    by apply (NoDup_map_inj row_key table).
Qed.

(** ** Planned evaluator executions *)

Definition zsum (l : list Z) : Z := fold_right Z.add 0 l.

Lemma zsum_cons x l : zsum (x :: l) = x + zsum l.
Proof. done. Qed.

Lemma zsum_app l k : zsum (l ++ k) = zsum l + zsum k.
Proof. induction l as [|x l IH]; simpl; [done|]. rewrite IH. lia. Qed.

(** The evaluator executions a case plans. *)
Definition planned (profile : RunProfile) (case : DatasetCase) : Z :=
  zlen (flat_map cg_evaluators (matching_groups_for_case profile case)).

Definition runnable_for (m : gmap string bool) (profile : RunProfile) (case : DatasetCase) : Z :=
  zlen (List.filter (fun binding => default false (m !! eb_evaluator_ref binding))
          (flat_map cg_evaluators (matching_groups_for_case profile case))).

Lemma matching_groups_elem profile case group :
  group ∈ matching_groups_for_case profile case -> group ∈ rp_case_groups profile.
Proof.
  unfold matching_groups_for_case. destruct (dc_case_group case);
    rewrite !list_elem_of_In, filter_In; tauto.
Qed.

Lemma group_binding_ref profile group binding :
  group ∈ rp_case_groups profile -> binding ∈ cg_evaluators group ->
  eb_evaluator_ref binding ∈ evaluator_refs profile.
Proof.
  intros Hg Hb. unfold evaluator_refs, refs_in, bindings_of. apply list_elem_of_fmap.
  exists (group, binding). split; [done|]. rewrite list_elem_of_In, in_flat_map. exists group.
  split; [by apply list_elem_of_In|]. apply in_map. by apply list_elem_of_In.
Qed.

Lemma filter_all {A} (p : A -> bool) l : (forall a, a ∈ l -> p a = true) -> List.filter p l = l.
Proof.
  induction l as [|a l IH]; simpl; [done|]. intros H. rewrite (H a) by (by left).
  f_equal. apply IH. intros. apply H. by right.
Qed.

(** Once every reference is runnable, every planned evaluator is counted. *)
Lemma runnable_for_planned m profile case :
  (forall ref, ref ∈ evaluator_refs profile -> m !! ref = Some true) ->
  runnable_for m profile case = planned profile case.
Proof.
  intros H. unfold runnable_for, planned. rewrite filter_all; [done|].
  intros b [g [Hg Hb]]%list_elem_of_In%in_flat_map. rewrite <- !list_elem_of_In in *.
  erewrite H; [done|]. eapply group_binding_ref; [|done]. by eapply matching_groups_elem.
Qed.

Lemma resolved_sizes profile (m : gmap string bool) :
  (forall ref, is_Some (m !! ref) <-> ref ∈ evaluator_refs profile) ->
  (forall ref, ref ∈ evaluator_refs profile -> m !! ref = Some true) ->
  Z.of_nat (size m) = zlen (remove_dups (evaluator_refs profile)) /\
  filter (fun kv : string * bool => kv.2 = true) m = m.
Proof.
  intros Hdom Ht. split.
  - unfold zlen. f_equal. rewrite <- (size_dom (D := gset string)).
    rewrite <- (size_list_to_set (C := gset string)) by apply NoDup_remove_dups. f_equal.
    apply set_eq. intros ref. rewrite elem_of_dom, elem_of_list_to_set, elem_of_remove_dups. apply Hdom.
  - apply map_filter_id. intros ref b Hb. simpl.
    assert (ref ∈ evaluator_refs profile) as Href by (apply Hdom; eauto).
    rewrite (Ht ref Href) in Hb. by injection Hb.
Qed.

Lemma sum_group_lengths (groups : list CaseGroupProfile) :
  zsum (map (fun group => zlen (cg_evaluators group)) groups) = zlen (flat_map cg_evaluators groups).
Proof. induction groups as [|g gs IH]; simpl; [done|]. rewrite zlen_app, IH. done. Qed.

(** ** The checks that call other components *)

Section validation.
Context (uuid_display : Uuid -> string).
Context (parse_url parse_method : string -> result unit).
Context (wit_hash : string).

Definition agent_issues (profile : RunProfile) : list string :=
  let agent := rp_agent profile in
  let http := ap_http agent in
  when (trim_is_empty (ap_provider agent)) "agent.provider must not be empty"
  ++ when (trim_is_empty (ap_name agent)) "agent.name must not be empty"
  ++ match parse_url (ah_url http) with
     | Err err => ["agent.http.url is invalid: " +:+ err]
     | Ok _ => []
     end
  ++ match parse_method (ah_method http) with
     | Err err => ["agent.http.method '" +:+ ah_method http +:+ "' is invalid: " +:+ err]
     | Ok _ => []
     end
  ++ flat_map (fun nv : string * option Z =>
       when (bool_decide (nv.2 = Some 0)) ("agent.http." +:+ nv.1 +:+ " must be greater than zero"))
     [("max_request_bytes", ah_max_request_bytes http); ("max_response_bytes", ah_max_response_bytes http)]
  ++ when (is_some_and (fun value => (value =? 0) || (MAX_RETRY_AFTER_SECS <? value))
             (ah_max_retry_after_secs http))
       "agent.http.max_retry_after_secs must be between 1 and 86400"
  ++ when (bool_decide (ah_timeout_secs http = Some 0)) "agent.http.timeout_secs must be greater than zero"
  ++ when (rd_max_attempts (rp_defaults profile) =? 0) "defaults.max_attempts must be greater than zero"
  ++ when (negb (in_unit (rd_min_execution_score (rp_defaults profile))))
       "defaults.min_execution_score must be finite and between 0.0 and 1.0"
  ++ match validate_request_format profile with
     | Err err => [err]
     | Ok _ => []
     end.

Definition collect_static_profile_config_issues (profile : RunProfile) : list string :=
  when (64 <? zlen (ss_gates (rp_scorecard profile))) "scorecard.gates must contain at most 64 entries"
  ++ (fold_left (check_gate profile) (ss_gates (rp_scorecard profile)) (∅, [])).2
  ++ agent_issues profile
  ++ flat_map group_issues (rp_case_groups profile).

(** ** Resolving evaluators *)

(** The checks of the second loop for one parsed reference. *)
Definition resolve_record (fetched : gmap (string * string * string) EvaluatorRuntimeMetadata)
    (group_id ref : string) (identity : EvaluatorIdentity) : result ResolvedEvaluator :=
  let msg text := "case_group '" +:+ group_id +:+ "' references " +:+ text in
  record ← ok_or (fetched !! identity_key identity)
    (msg ("unpublished evaluator '" +:+ ref +:+ "'; publish it before run create/test"));
  _ ← ensure (is_runnable_state (em_state record))
    (msg ("evaluator '" +:+ ref +:+ "' in non-runnable state '" +:+ state_debug (em_state record) +:+ "'"));
  '(package, interface) ← ok_or (rsplit_once "/"%char (em_interface_name record))
    (msg ("evaluator '" +:+ ref +:+ "' without a valid interface name"));
  abi ← match resolve_declaration wit_hash package (em_wit_world record) interface
                (em_interface_version record) with
        | Ok abi => Ok abi
        | Err err => Err (msg ("evaluator '" +:+ ref +:+ "' with unsupported ABI: " +:+ err))
        end;
  _ ← ensure (negb (negb (str_eqb (abi_contract_hash abi) (em_abi_contract_hash record))
                    || negb (str_eqb (abi_adapter abi) (em_abi_adapter record))))
    (msg ("evaluator '" +:+ ref +:+ "' with an unverified ABI identity"));
  Ok (mkResolvedEvaluator ref (em_id record) (em_content_hash record) abi (em_runtime record)
        (em_runtime_version record) (em_runtime_fingerprint record)).

Definition ResolveState : Type := gmap string bool * list ResolvedEvaluator * list string.

Definition resolve_parsed (fetched : gmap (string * string * string) EvaluatorRuntimeMetadata)
    (st : ResolveState) (entry : string * string * EvaluatorIdentity) : ResolveState :=
  let '(runnable, resolved, issues) := st in
  let '(group_id, ref, identity) := entry in
  match resolve_record fetched group_id ref identity with
  | Err issue => (runnable, resolved, issues ++ [issue])
  | Ok evaluator => (<[ref := true]> runnable, resolved ++ [evaluator], issues)
  end.

Definition resolve_profile (db : result (list EvaluatorRuntimeMetadata)) (profile : RunProfile)
    : result ResolveState :=
  let '(runnable, parsed, issues) :=
    fold_left parse_group (rp_case_groups profile)
      (∅, [], collect_static_profile_config_issues profile) in
  fetched ← select_evaluator_runtime_metadata_by_identities db
    (map (fun entry => identity_key entry.2) parsed);
  Ok (fold_left (resolve_parsed (by_identity fetched)) parsed (runnable, [], issues)).

Definition LF_DASH : string := String (Ascii.ascii_of_N 10) "- ".

Definition executability_error (issues : list string) : string :=
  "profile executability validation failed:" +:+ LF_DASH +:+ join LF_DASH issues.

Definition resolve_evaluators (db : result (list EvaluatorRuntimeMetadata)) (profile : RunProfile)
    : result (list ResolvedEvaluator) :=
  '(_, resolved, issues) ← resolve_profile db profile;
  _ ← ensure (bool_decide (issues = [])) (executability_error issues);
  Ok resolved.

(** ** The whole check *)

Record ProfileExecutabilitySummary := mkProfileExecutabilitySummary {
  pe_expected_execution_count : Z;
  pe_expected_evaluator_execution_count : Z;
  pe_unique_evaluator_ref_count : Z;
  pe_runnable_evaluator_ref_count : Z
}.

Definition unmatched_case (case : DatasetCase) : string :=
  "case '" +:+ uuid_display (dc_id case) +:+ "' did not match any case_group (task_type='"
  +:+ dc_task_type case +:+ "')".

(** One turn of the loop over the cases: (evaluator executions, issues). *)
Definition check_case (profile : RunProfile) (runnable : gmap string bool) (st : Z * list string)
    (case : DatasetCase) : Z * list string :=
  let '(count, issues) := st in
  let groups := matching_groups_for_case profile case in
  if bool_decide (groups = []) then (count, issues ++ [unmatched_case case])
  else
    let runnable_for_case :=
      zlen (List.filter (fun binding => default false (runnable !! eb_evaluator_ref binding))
              (flat_map cg_evaluators groups)) in
    if runnable_for_case =? 0
    then (count, issues ++ ["case '" +:+ uuid_display (dc_id case) +:+ "' matched case_groups ["
            +:+ join "," (map cg_id groups) +:+ "] but none had runnable published evaluators"])
    else (count + runnable_for_case, issues).

Definition check_gate_coverage (profile : RunProfile) (dataset : RunDataset) (issues : list string)
    (gate : ScorecardGate) : list string :=
  let matching := zlen (List.filter (fun case => case_matches_gate profile case gate) (rds_cases dataset)) in
  issues ++ when (matching =? 0) (gate_msg gate "does not match any dataset cases").

Definition validate_profile_executability (db : result (list EvaluatorRuntimeMetadata))
    (profile : RunProfile) (dataset : RunDataset) : result ProfileExecutabilitySummary :=
  '(runnable, _, issues) ← resolve_profile db profile;
  let '(count, issues) := fold_left (check_case profile runnable) (rds_cases dataset) (0, issues) in
  let issues := fold_left (check_gate_coverage profile dataset) (ss_gates (rp_scorecard profile)) issues in
  _ ← ensure (bool_decide (issues = [])) (executability_error issues);
  Ok (mkProfileExecutabilitySummary (zlen (rds_cases dataset)) count
        (Z.of_nat (size runnable))
        (Z.of_nat (size (filter (fun kv : string * bool => kv.2 = true) runnable)))).

(** The check of one streamed case against a resolved profile. *)
Definition validate_resolved_case (profile : RunProfile) (case : DatasetCase) : result Z :=
  let groups := matching_groups_for_case profile case in
  _ ← ensure (negb (bool_decide (groups = []))) (unmatched_case case);
  let count := fold_right Z.add 0 (map (fun group => zlen (cg_evaluators group)) groups) in
  _ ← ensure (0 <? count)
    ("case '" +:+ uuid_display (dc_id case)
     +:+ "' matched case_groups but none had runnable published evaluators");
  Ok count.

(** ** Resolution: what the loops establish *)

(** A row the worker can run: a runnable state and exactly the identity of the
    compiled-in adapter. *)
Definition row_ok (row : EvaluatorRuntimeMetadata) : Prop :=
  is_runnable_state (em_state row) = true /\
  em_interface_name row = "vigilo:evaluator/evaluator" /\
  em_wit_world row = "evaluator-world" /\ em_interface_version row = "1.0.0" /\
  em_abi_contract_hash row = wit_hash /\ em_abi_adapter row = "vigilo-evaluator-v1@1".

Lemma resolve_declaration_Ok package world interface version abi :
  resolve_declaration wit_hash package world interface version = Ok abi <->
  abi = v1_identity wit_hash /\ package = "vigilo:evaluator" /\ world = "evaluator-world" /\
  interface = "evaluator" /\ version = "1.0.0".
Proof.
  unfold resolve_declaration. rewrite ok_or_Ok. cbn [ADAPTERS List.find].
  destruct (declares package world interface version (v1_identity wit_hash)) eqn:E;
    unfold declares in E; rewrite <- ?not_true_iff_false, ?andb_true_iff, ?str_eqb_true in E;
    cbn [v1_identity abi_package abi_world abi_interface abi_version] in E.
  - destruct E as [[[-> ->] ->] ->]. naive_solver.
  - split; [done|]. intros (_ & -> & -> & -> & ->). tauto.
Qed.

Lemma resolve_record_ok fetched group_id ref identity :
  is_ok (resolve_record fetched group_id ref identity) = true <->
  exists row, fetched !! identity_key identity = Some row /\ row_ok row.
Proof.
  rewrite is_ok_true. unfold resolve_record. setoid_rewrite bind_Ok. setoid_rewrite ok_or_Ok. split.
  - intros (ev & row & Hrow & H). exists row. split; [done|].
    apply bind_Ok in H as (? & Hs%ensure_Ok & H).
    apply bind_Ok in H as ([package interface] & [Hi Hno]%ok_or_Ok%rsplit_once_Some & H).
    apply bind_Ok in H as (abi & Habi & H). apply bind_Ok in H as (? & Hids%ensure_Ok & _).
    destruct (resolve_declaration _ _ _ _ _) as [abi'|] eqn:Er; [|done]. injection Habi as ->.
    apply resolve_declaration_Ok in Er as (-> & -> & Hw & -> & Hv).
    apply negb_true_iff, orb_false_iff in Hids as [Hh%negb_false_iff%str_eqb_true
      Ha%negb_false_iff%str_eqb_true].
    split_and!; [done|by rewrite Hi|done..].
  - intros (row & Hrow & Hs & Hn & Hw & Hv & Hh & Ha). eexists _, row. split; [exact Hrow|].
    rewrite Hs, Hn. cbn [ensure mbind result_bind].
    replace (rsplit_once _ _) with (Some ("vigilo:evaluator", "evaluator")) by reflexivity.
    cbn [ok_or mbind result_bind].
    rewrite (proj2 (resolve_declaration_Ok _ _ _ _ (v1_identity wit_hash))) by done.
    cbn [mbind result_bind abi_contract_hash abi_adapter v1_identity].
    rewrite Hh, Ha, !str_eqb_refl. cbn. reflexivity.
Qed.

Record resolve_inv (fetched : gmap (string * string * string) EvaluatorRuntimeMetadata)
    (m0 : gmap string bool) (issues0 : list string)
    (pre : list (string * string * EvaluatorIdentity)) (st : ResolveState) : Prop := {
  ri_dom : forall ref, is_Some (m0 !! ref) -> is_Some (st.1.1 !! ref);
  ri_new : forall ref, is_Some (st.1.1 !! ref) ->
    is_Some (m0 !! ref) \/ exists e, e ∈ pre /\ e.1.2 = ref;
  ri_true : forall e, e ∈ pre ->
    (exists row, fetched !! identity_key e.2 = Some row /\ row_ok row) -> st.1.1 !! e.1.2 = Some true;
  ri_issues : st.2 = [] <-> issues0 = [] /\
    (forall e, e ∈ pre -> exists row, fetched !! identity_key e.2 = Some row /\ row_ok row)
}.

Lemma resolve_parsed_inv fetched m0 issues0 pre st e :
  resolve_inv fetched m0 issues0 pre st ->
  resolve_inv fetched m0 issues0 (pre ++ [e]) (resolve_parsed fetched st e).
Proof.
  destruct st as [[m resolved] issues], e as [[group_id ref] identity]. intros [Hd Hn Ht Hi].
  unfold resolve_parsed. simpl in *.
  pose proof (resolve_record_ok fetched group_id ref identity) as Hok.
  destruct (resolve_record fetched group_id ref identity) as [ev|err]; cbn [is_ok] in Hok.
  - destruct Hok as [Hok _]. specialize (Hok eq_refl). split; simpl.
    + intros r Hr. apply insert_is_Some. auto.
    + intros r [Hr| ->]%insert_is_Some.
      * destruct (Hn r Hr) as [?|(e & ? & ?)]; [auto|]. right. exists e. rewrite elem_of_app. auto.
      * right. eexists (_, _, _). rewrite elem_of_app, list_elem_of_singleton. auto.
    + intros e. rewrite elem_of_app, list_elem_of_singleton. intros [He| ->] Hrow.
      * destruct (decide (e.1.2 = ref)) as [<-|]; [by rewrite lookup_insert_eq|].
        rewrite lookup_insert_ne by done. auto.
      * simpl. by rewrite lookup_insert_eq.
    + rewrite Hi. apply and_iff_compat_l. split; intros H e.
      * rewrite elem_of_app, list_elem_of_singleton. intros [He| ->]; auto.
      * intros He. apply H. rewrite elem_of_app. auto.
  - destruct Hok as [_ Hok]. split; simpl.
    + done.
    + intros r Hr. destruct (Hn r Hr) as [?|(e & ? & ?)]; [auto|]. right. exists e.
      rewrite elem_of_app. auto.
    + intros e. rewrite elem_of_app, list_elem_of_singleton. intros [He| ->] Hrow; [auto|].
      by apply Hok in Hrow.
    + rewrite snoc_not_nil. split; [done|]. intros [_ H].
      discriminate Hok. apply (H (group_id, ref, identity)). rewrite elem_of_app, list_elem_of_singleton. auto.
Qed.

(** What [resolve_profile] answers, for any state of the database. *)
Lemma resolve_profile_spec db profile m resolved issues :
  resolve_profile db profile = Ok (m, resolved, issues) ->
  exists fetched parsed,
    select_evaluator_runtime_metadata_by_identities db
      (map (fun e : string * string * EvaluatorIdentity => identity_key e.2) parsed) = Ok fetched /\
    (forall ref identity, ref ∈ evaluator_refs profile ->
       parse_fully_qualified_evaluator ref = Ok identity ->
       exists group_id, (group_id, ref, identity) ∈ parsed) /\
    (issues = [] <-> collect_static_profile_config_issues profile = [] /\
       forall ref, ref ∈ evaluator_refs profile -> exists identity row,
         parse_fully_qualified_evaluator ref = Ok identity /\
         by_identity fetched !! identity_key identity = Some row /\ row_ok row) /\
    (forall ref, is_Some (m !! ref) <-> ref ∈ evaluator_refs profile) /\
    (issues = [] -> forall ref, ref ∈ evaluator_refs profile -> m !! ref = Some true).
Proof.
  unfold resolve_profile.
  pose proof (parse_groups_inv profile (collect_static_profile_config_issues profile)) as Hp.
  destruct (fold_left parse_group _ _) as [[m0 parsed] issues0].
  destruct Hp as [Hdom Hpar Hc Hi]. simpl in *. fold (evaluator_refs profile) in *.
  intros H. apply bind_Ok in H as (fetched & Hf & H). injection H as H.
  pose proof (fold_left_inv (resolve_inv (by_identity fetched) m0 issues0)
    (resolve_parsed (by_identity fetched)) parsed (m0, [], issues0)) as HR.
  destruct HR as [Rd Rn Rt Ri].
  { split; simpl; try done; [auto|set_solver|]. split; [intros ->; split; set_solver|naive_solver]. }
  { intros pre st e _. apply resolve_parsed_inv. }
  rewrite H in *. simpl in *. exists fetched, parsed.
  assert (Hiss : issues = [] <-> collect_static_profile_config_issues profile = [] /\
       forall ref, ref ∈ evaluator_refs profile -> exists identity row,
         parse_fully_qualified_evaluator ref = Ok identity /\
         by_identity fetched !! identity_key identity = Some row /\ row_ok row).
  { rewrite Ri, Hi. split.
    - intros [[Hs Hps] Hall]. split; [done|]. intros ref Href.
      pose proof (Hps ref Href) as [identity Hid]%is_ok_true.
      destruct (Hc ref identity Href Hid) as [gid Hin].
      destruct (Hall _ Hin) as (row & ? & ?). eauto.
    - intros [Hs Hall]. split; [split; [done|]|].
      + intros ref Href. destruct (Hall ref Href) as (? & ? & -> & _). done.
      + intros e He. destruct (Hpar e He) as [Hid Href].
        destruct (Hall _ Href) as (identity & row & Hid' & ?). rewrite Hid in Hid'.
        injection Hid' as ->. eauto. }
  split_and!; [done|exact Hc|exact Hiss| |].
  - intros ref. rewrite <- Hdom. split; [|apply Rd].
    intros [?|(e & He & <-)]%Rn; [done|]. apply Hdom. by apply Hpar.
  - intros Hnil ref Href. apply Hiss in Hnil as [_ Hall].
    destruct (Hall ref Href) as (identity & row & Hid & ? & ?).
    destruct (Hc ref identity Href Hid) as [gid Hin]. apply (Rt _ Hin). simpl. eauto.
Qed.

(** The reference names a row of the table that workers can run. *)
Definition evaluator_runnable (table : list EvaluatorRuntimeMetadata) (ref : string) : Prop :=
  exists identity row, parse_fully_qualified_evaluator ref = Ok identity /\
    row ∈ table /\ row_key row = identity_key identity /\ row_ok row.

Lemma resolve_profile_table table profile :
  NoDup (map row_key table) ->
  exists m resolved issues,
    resolve_profile (Ok table) profile = Ok (m, resolved, issues) /\
    (issues = [] <-> collect_static_profile_config_issues profile = [] /\
       forall ref, ref ∈ evaluator_refs profile -> evaluator_runnable table ref) /\
    (forall ref, is_Some (m !! ref) <-> ref ∈ evaluator_refs profile) /\
    (issues = [] -> forall ref, ref ∈ evaluator_refs profile -> m !! ref = Some true).
Proof.
  intros Hnd.
  assert (exists st, resolve_profile (Ok table) profile = Ok st) as [[[m resolved] issues] H].
  { unfold resolve_profile. destruct (fold_left _ _ _) as [[m0 [|e parsed]] issues]; cbn; eauto. }
  exists m, resolved, issues. split; [done|].
  apply resolve_profile_spec in H as (fetched & parsed & Hsel & Hc & Hiss & Hdom & Ht).
  split_and!; [|done..]. rewrite Hiss. apply and_iff_compat_l. unfold evaluator_runnable.
  assert (Hkey : forall ref identity, ref ∈ evaluator_refs profile ->
    parse_fully_qualified_evaluator ref = Ok identity ->
    identity_key identity ∈ map (fun e : string * string * EvaluatorIdentity => identity_key e.2) parsed).
  { intros ref identity Href Hid. destruct (Hc ref identity Href Hid) as [gid Hin].
    apply list_elem_of_fmap. by exists (gid, ref, identity). }
  split; intros H ref Href; destruct (H ref Href) as (identity & row & Hid & Hrow); exists identity, row.
  - destruct Hrow as [Hrow Hrok]. apply (table_lookup table _ _ _ row Hnd Hsel) in Hrow; [|eauto].
    naive_solver.
  - destruct Hrow as (Hrow & Hk & Hrok). split_and!; [done| |done].
    apply (table_lookup table _ _ _ row Hnd Hsel); eauto.
Qed.

(** ** The loops over cases and gates *)

Lemma check_cases_spec profile m cases issues0 :
  let '(count, issues) := fold_left (check_case profile m) cases (0, issues0) in
  count = zsum (map (runnable_for m profile) cases) /\
  (issues = [] <-> issues0 = [] /\ forall case, case ∈ cases -> 0 < runnable_for m profile case).
Proof.
  apply (fold_left_inv (fun pre (st : Z * list string) => let '(count, issues) := st in
    count = zsum (map (runnable_for m profile) pre) /\
    (issues = [] <-> issues0 = [] /\ forall case, case ∈ pre -> 0 < runnable_for m profile case))).
  - split; [done|]. split; [intros ->; split; set_solver|by intros [? _]].
  - intros pre [count issues] case _ [-> Hi]. unfold check_case.
    rewrite map_app, zsum_app. cbn [map zsum fold_right].
    fold (runnable_for m profile case).
    pose proof (zlen_nonneg (List.filter (fun binding => default false (m !! eb_evaluator_ref binding))
      (flat_map cg_evaluators (matching_groups_for_case profile case)))) as Hpos.
    fold (runnable_for m profile case) in Hpos.
    case_bool_decide as Hg; [|destruct (Z.eqb_spec (runnable_for m profile case) 0) as [Hz|Hz]].
    + assert (Hz : runnable_for m profile case = 0) by (unfold runnable_for; by rewrite Hg).
      rewrite Hz, snoc_not_nil, forall_elem_snoc, Hz. split; [lia|]. split; [done|]. lia.
    + rewrite Hz, snoc_not_nil, forall_elem_snoc, Hz. split; [lia|]. split; [done|]. lia.
    + rewrite forall_elem_snoc, Hi. split; [lia|]. split; [intros [? ?]|intros (? & ? & _)]; split_and!; auto; lia.
Qed.

Lemma check_gates_spec profile dataset gates issues0 :
  fold_left (check_gate_coverage profile dataset) gates issues0 = [] <->
  issues0 = [] /\ forall gate, gate ∈ gates ->
    exists case, case ∈ rds_cases dataset /\ case_matches_gate profile case gate = true.
Proof.
  apply (fold_left_inv (fun pre issues => issues = [] <-> issues0 = [] /\ forall gate, gate ∈ pre ->
    exists case, case ∈ rds_cases dataset /\ case_matches_gate profile case gate = true)).
  - split; [intros ->; split; set_solver|by intros [? _]].
  - intros pre issues gate _ Hi. unfold check_gate_coverage.
    rewrite app_nil, when_nil, Hi, forall_elem_snoc.
    assert (Hg : (zlen (List.filter (fun case => case_matches_gate profile case gate) (rds_cases dataset))
                  =? 0) = false <->
      exists case, case ∈ rds_cases dataset /\ case_matches_gate profile case gate = true).
    { rewrite Z.eqb_neq, zlen_nil_iff, <- existsb_exists_elem, existsb_filter_nonempty. done. }
    rewrite Hg. tauto.
Qed.

(** The summary of an executable profile. *)
Definition executability_summary (profile : RunProfile) (dataset : RunDataset)
    : ProfileExecutabilitySummary :=
  let refs := zlen (remove_dups (evaluator_refs profile)) in
  mkProfileExecutabilitySummary (zlen (rds_cases dataset))
    (zsum (map (planned profile) (rds_cases dataset))) refs refs.

(** The check in terms of the resolution, for any database. *)
Lemma validate_executability_Ok db profile dataset s :
  validate_profile_executability db profile dataset = Ok s <->
  (exists m resolved, resolve_profile db profile = Ok (m, resolved, [])) /\
  (forall case, case ∈ rds_cases dataset -> 0 < planned profile case) /\
  (forall gate, gate ∈ ss_gates (rp_scorecard profile) ->
     exists case, case ∈ rds_cases dataset /\ case_matches_gate profile case gate = true) /\
  s = executability_summary profile dataset.
Proof.
  unfold validate_profile_executability.
  destruct (resolve_profile db profile) as [[[m resolved] issues]|e] eqn:R;
    [|split; [done|intros [(? & ? & ?) _]; done]].
  cbn [mbind result_bind].
  apply resolve_profile_spec in R as (fetched & parsed & _ & _ & _ & Hdom & Ht).
  pose proof (check_cases_spec profile m (rds_cases dataset) issues) as Hcases.
  destruct (fold_left (check_case profile m) _ _) as [count issues1].
  pose proof (check_gates_spec profile dataset (ss_gates (rp_scorecard profile)) issues1) as Hgates.
  destruct Hcases as [-> Hcases]. rewrite Hcases in Hgates.
  assert (Hsum : issues = [] -> mkProfileExecutabilitySummary (zlen (rds_cases dataset))
     (zsum (map (runnable_for m profile) (rds_cases dataset))) (Z.of_nat (size m))
     (Z.of_nat (size (filter (fun kv : string * bool => kv.2 = true) m)))
     = executability_summary profile dataset).
  { intros Hi. destruct (resolved_sizes profile m Hdom (Ht Hi)) as [Hs ->].
    unfold executability_summary. rewrite Hs. f_equal. f_equal. apply map_ext.
    intros case. apply runnable_for_planned. auto. }
  split.
  - intros H. apply bind_Ok in H as (? & Hn%ensure_Ok%bool_decide_eq_true & H).
    apply Hgates in Hn as [[-> Hc] Hg]. injection H as <-.
    split_and!; [eauto| |done|by rewrite Hsum].
    intros case Hin. rewrite <- (runnable_for_planned m) by auto. auto.
  - intros ((m' & resolved' & Heq) & Hc & Hg & ->). injection Heq as <- <- ->.
    rewrite bool_decide_true; [cbn; by rewrite Hsum|]. apply Hgates. split_and!; [done| |done].
    intros case Hin. rewrite runnable_for_planned by auto. auto.
Qed.

(** C33: A profile is accepted for a dataset exactly when its static
    configuration has no issue, every evaluator reference of its groups names a
    published row in a runnable state whose ABI identity is the one of the
    compiled-in adapter, every case of the dataset is routed to at least one
    evaluator, and every scorecard gate matches at least one case; and the
    summary then counts all cases, all planned evaluator executions and the
    distinct evaluator references.  The table has one row per evaluator
    identity, as its unique constraint enforces. *)
Theorem profile_executable_iff table profile dataset s :
  NoDup (map row_key table) ->
  validate_profile_executability (Ok table) profile dataset = Ok s <->
  collect_static_profile_config_issues profile = [] /\
  (forall ref, ref ∈ evaluator_refs profile -> evaluator_runnable table ref) /\
  (forall case, case ∈ rds_cases dataset -> 0 < planned profile case) /\
  (forall gate, gate ∈ ss_gates (rp_scorecard profile) ->
     exists case, case ∈ rds_cases dataset /\ case_matches_gate profile case gate = true) /\
  s = executability_summary profile dataset.
Proof.
  intros Hnd. rewrite validate_executability_Ok.
  destruct (resolve_profile_table table profile Hnd) as (m & resolved & issues & -> & Hi & _ & _).
  rewrite (and_assoc (collect_static_profile_config_issues profile = [])), <- Hi.
  apply and_iff_compat_r. split.
  - intros (? & ? & [= _ _ ->]). done.
  - intros ->. eauto.
Qed.

Lemma validate_resolved_case_Ok profile case n :
  validate_resolved_case profile case = Ok n <-> n = planned profile case /\ 0 < n.
Proof.
  unfold validate_resolved_case, planned. rewrite <- sum_group_lengths. fold (zsum (map
    (fun group => zlen (cg_evaluators group)) (matching_groups_for_case profile case))).
  split.
  - intros H. inv_ok. lia.
  - intros [-> Hn]. rewrite bool_decide_false by (intros E; by rewrite E in Hn). cbn.
    by rewrite (proj2 (Z.ltb_lt _ _) Hn).
Qed.

(** The streamed pass over a dataset: cases are checked one at a time and their
    evaluator executions added up. *)
Definition stream_cases (profile : RunProfile) (cases : list DatasetCase) : result Z :=
  foldM (fun n case => count ← validate_resolved_case profile case; Ok (n + count)) 0 cases.

Lemma stream_cases_Ok profile cases n0 n :
  foldM (fun n case => count ← validate_resolved_case profile case; Ok (n + count)) n0 cases = Ok n <->
  (forall case, case ∈ cases -> 0 < planned profile case) /\
  n = n0 + zsum (map (planned profile) cases).
Proof.
  revert n0; induction cases as [|c cases IH]; intros n0; cbn [foldM map]; rewrite ?zsum_cons.
  - change (zsum []) with 0. split; [intros [= <-]; split; [set_solver|lia]|intros [_ ->]; f_equal; lia].
  - rewrite bind_Ok. setoid_rewrite bind_Ok. setoid_rewrite validate_resolved_case_Ok. split.
    + intros (n1 & (k & [-> Hk] & [= <-]) & [Hc ->]%IH). split; [|lia].
      intros case [->|?]%elem_of_cons; auto.
    + intros [Hc ->]. exists (n0 + planned profile c). split.
      * exists (planned profile c). split; [split; [done|]|done]. apply Hc. by left.
      * apply IH. split; [intros; apply Hc; by right|lia].
Qed.

(** The two ways a dataset is checked agree.  Run creation resolves the
    profile once and then streams the cases through [validate_resolved_case];
    [run validate] checks the whole dataset at once, filtering on runnable
    references.  For every database state, profile and dataset the batch check
    succeeds with [n] evaluator executions exactly when resolution succeeds,
    the streamed pass adds up to [n], and every gate matches a case. *)
Theorem streamed_validation_agrees db profile dataset n :
  (exists s, validate_profile_executability db profile dataset = Ok s /\
     pe_expected_evaluator_execution_count s = n) <->
  is_ok (resolve_evaluators db profile) = true /\
  stream_cases profile (rds_cases dataset) = Ok n /\
  (forall gate, gate ∈ ss_gates (rp_scorecard profile) ->
     exists case, case ∈ rds_cases dataset /\ case_matches_gate profile case gate = true).
Proof.
  assert (Hres : is_ok (resolve_evaluators db profile) = true <->
    exists m resolved, resolve_profile db profile = Ok (m, resolved, [])).
  { unfold resolve_evaluators. destruct (resolve_profile db profile) as [[[m r] issues]|e]; cbn.
    - case_bool_decide as E; cbn; [subst; split; eauto|split; [done|]].
      intros (? & ? & [= _ _ ->]). done.
    - split; [done|]. by intros (? & ? & ?). }
  unfold stream_cases. rewrite Hres, stream_cases_Ok. setoid_rewrite validate_executability_Ok. split.
  - intros (s & (Hr & Hc & Hg & ->) & <-). split_and!; auto.
  - intros (Hr & [Hc ->] & Hg). eexists. split; [split_and!; eauto|]. cbn. lia.
Qed.
End validation.

(** ** A concrete profile *)

Definition half : f64 := Eval vm_compute in fdiv f1 (f64_of_Z 2).

Definition sample_row (name : string) : EvaluatorRuntimeMetadata :=
  mkEvaluatorRuntimeMetadata "acme" name "1.0.0" 7 Active "1.0.0" "vigilo:evaluator/evaluator"
    "evaluator-world" "content" "wit" "vigilo-evaluator-v1@1" "wasmtime" "1" "fp".
Definition sample_table : list EvaluatorRuntimeMetadata := [sample_row "tone"; sample_row "facts"].

Definition sample_binding (id ref : string) (weight : f64) : EvaluatorBinding :=
  mkEvaluatorBinding id ref true "quality" false weight (Binary f0 f1) half (Object []).
Definition sample_group (id tag : string) (bindings : list EvaluatorBinding) : CaseGroupProfile :=
  mkCaseGroupProfile id "" (mkAppliesTo "chat" [tag] []) bindings (mkAggregationSettings []).

Definition sample_gate_policy : ScorecardGate :=
  mkScorecardGate "quality" "quality" None None [] (Some half) None None None None None.

Definition sample_profile (groups : list CaseGroupProfile) : RunProfile :=
  mkRunProfile "p" "1" "" (mkRunDefaults 3 30 true half) (mkPersistenceSettings Full RawAll true)
    (mkScorecardSettings [sample_gate_policy])
    (mkAgentProfile "acme" "bot" None None None None
       (mkAgentHttpConfig "http://localhost" "POST" [] (Some 30) None None None) (Object []))
    groups.

Definition sample_dataset (tags : list string) : RunDataset :=
  mkRunDataset 1 None [mkDatasetCase 11 "chat" None Null None None tags []].

Definition two_groups : list CaseGroupProfile :=
  [sample_group "smoke" "smoke" [sample_binding "tone" "acme/tone:1.0.0" f1];
   sample_group "deep" "deep" [sample_binding "facts" "acme/facts:1.0.0" f1]].

Definition accept_all (_ : string) : result unit := Ok tt.

Lemma profile_executable_iff_witness : evaluator_runnable "wit" sample_table "acme/facts:1.0.0".
Proof.
  refine (proj1 (proj2 (proj1 (profile_executable_iff pretty accept_all accept_all "wit" sample_table
    (sample_profile two_groups) (sample_dataset ["deep"; "smoke"])
    (mkProfileExecutabilitySummary 1 2 2 2) _) _)) _ _).
  - apply (bool_decide_unpack _). vm_compute. exact I.
  - vm_compute. reflexivity.
  - apply (bool_decide_unpack _). vm_compute. exact I.
Defined.

Lemma streamed_validation_agrees_witness :
  stream_cases pretty (sample_profile two_groups) (rds_cases (sample_dataset ["deep"; "smoke"])) = Ok 2.
Proof.
  refine (proj1 (proj2 (proj1 (streamed_validation_agrees pretty accept_all accept_all "wit"
    (Ok sample_table) (sample_profile two_groups) (sample_dataset ["deep"; "smoke"]) 2) _))).
  exists (mkProfileExecutabilitySummary 1 2 2 2). split; [vm_compute; reflexivity|reflexivity].
Defined.
