(* ===== verification/EvaluationPlan.v ===== *)
(** * Worker evaluation plans

    What a worker runs for a case: the case row of
    src/vigilo/src/case_reader.rs ([worker_case]) and the plan of
    src/vigilo/src/db/workflows/execution_processing.rs, which selects the
    matching groups again, merges their aggregation policies and their
    evaluator bindings, and feeds the bindings to the aggregation.  The
    theorems relate it to profile validation, made before the run exists. *)

From Stdlib Require Import ZArith Lia ZifyBool Permutation Sorted.
From stdpp Require Import base strings pretty numbers option sets list.
From S2P Require Import Prelude Float64 BTree Text Json RunTypes Normalization Aggregation.
From S2P Require Import StorageFormats Codec Identity EvaluatorRef ProfileValidation.

Open Scope Z_scope.

Record WorkerCaseBatchItem := mkWorkerCaseBatchItem {
  wc_case_id : Uuid;
  wc_case_hash : string;
  wc_case_ordinal : Z;
  wc_task_type : string;
  wc_case_group : option string;
  wc_input_payload : Value;
  wc_expected_output : Value;
  wc_context_payload : Value;
  wc_tags : Value;
  wc_metadata : Value
}.

(** [worker_case]: serialising strings and JSON maps to a value cannot fail. *)
Definition worker_case (record : CaseRecord) (case : DatasetCase) : result WorkerCaseBatchItem :=
  Ok (mkWorkerCaseBatchItem (dc_id case) (cr_case_hash record) (cr_case_ordinal record)
        (dc_task_type case) (dc_case_group case) (dc_input case) (default Null (dc_expected case))
        (default Null (dc_context case)) (Array (map Str (sort_tags (dc_tags case))))
        (Object (dc_metadata case))).

Definition tags_from_case_row (tags : Value) : list string :=
  match tags with
  | Array items => omap as_str items
  | _ => []
  end.

Definition metadata_from_case_row (metadata : Value) : result (btree string Value) :=
  match metadata with
  | Object m => Ok (bt_collect m)
  | _ => Err "case metadata must be a JSON object"
  end.

(** contracts/evaluator.rs [TestCase]. *)
Record TestCase := mkTestCase {
  tc_id : string;
  tc_task_type : string;
  tc_case_group : option string;
  tc_input : Value;
  tc_expected : option Value;
  tc_context : option Value;
  tc_tags : list string;
  tc_metadata : btree string Value
}.

Definition row_group_applies (group : CaseGroupProfile) (task_type : string) (case_tags : list string)
    : bool :=
  let applies := cg_applies_to group in
  if negb (str_eqb (at_task_type applies) task_type) then false
  else if negb (bool_decide (at_tags_any applies = []))
          && negb (existsb (fun tag => existsb (fun case_tag => str_eqb case_tag tag) case_tags)
                     (at_tags_any applies)) then false
  else if negb (forallb (fun tag => existsb (fun case_tag => str_eqb case_tag tag) case_tags)
                  (at_tags_all applies)) then false
  else true.

(** [matching_groups_for_case] of execution_processing.rs. *)
Definition matching_groups_for_row (profile : RunProfile) (case : WorkerCaseBatchItem)
    : list CaseGroupProfile :=
  match wc_case_group case with
  | Some group_id => List.filter (fun group => str_eqb (cg_id group) group_id) (rp_case_groups profile)
  | None =>
      let case_tags := tags_from_case_row (wc_tags case) in
      List.filter (fun group => row_group_applies group (wc_task_type case) case_tags)
        (rp_case_groups profile)
  end.

(** ** Derived equality of policies *)

(** [==] on [Option<String>] and on lists. *)
Fixpoint list_eqb {A} (eqb : A -> A -> bool) (l k : list A) : bool :=
  match l, k with
  | [], [] => true
  | a :: l', b :: k' => eqb a b && list_eqb eqb l' k'
  | _, _ => false
  end.

Definition direction_eqb (a b : ScoreDirection) : bool :=
  match a, b with
  | HigherIsBetter, HigherIsBetter | LowerIsBetter, LowerIsBetter => true
  | _, _ => false
  end.

Definition point_eqb (a b : UtilityPoint) : bool :=
  feq (up_value a) (up_value b) && feq (up_score a) (up_score b).

Definition mapping_eqb (a b : NumericMapping) : bool :=
  match a, b with
  | Linear min max dir, Linear min' max' dir' =>
      feq min min' && feq max max' && direction_eqb dir dir'
  | PiecewiseLinear points, PiecewiseLinear points' => list_eqb point_eqb points points'
  | Thresholds min max cuts scores, Thresholds min' max' cuts' scores' =>
      feq min min' && feq max max' && list_eqb feq cuts cuts' && list_eqb feq scores scores'
  | _, _ => false
  end.

Definition normalization_eqb (a b : NormalizationPolicy) : bool :=
  match a, b with
  | Binary f t, Binary f' t' => feq f f' && feq t t'
  | Numeric unit mapping, Numeric unit' mapping' =>
      bool_decide (unit = unit') && mapping_eqb mapping mapping'
  | Ordinal values, Ordinal values' =>
      list_eqb (fun x y : string * f64 => str_eqb x.1 y.1 && feq x.2 y.2) values values'
  | _, _ => false
  end.

Definition dimension_eqb (a b : DimensionAggregation) : bool :=
  bool_decide (da_method a = da_method b) && Bool.eqb (da_blocking a) (da_blocking b)
  && feq (da_weight a) (da_weight b).

Definition equivalent_evaluator_binding (left right : EvaluatorBinding) : bool :=
  str_eqb (eb_evaluator_ref left) (eb_evaluator_ref right)
  && Bool.eqb (eb_required left) (eb_required right)
  && str_eqb (eb_dimension left) (eb_dimension right)
  && Bool.eqb (eb_blocking left) (eb_blocking right)
  && feq (eb_weight left) (eb_weight right)
  && normalization_eqb (eb_normalization left) (eb_normalization right)
  && feq (eb_pass_threshold left) (eb_pass_threshold right)
  && value_eqb (eb_config left) (eb_config right).

(** ** The plan *)

Record CaseEvaluationPlan := mkCaseEvaluationPlan {
  cep_profile_group_id : string;
  cep_evaluator_bindings : list EvaluatorBinding;
  cep_aggregation : AggregationSettings
}.

Section plan.
Context (uuid_display : Uuid -> string).

Definition case_error (case_id : Uuid) (msg : string) : string :=
  "case '" +:+ uuid_display case_id +:+ "' " +:+ msg.

Definition merge_dimension (case_id : Uuid) (merged : btree string DimensionAggregation)
    (dp : string * DimensionAggregation) : result (btree string DimensionAggregation) :=
  match bt_get dp.1 merged with
  | Some existing =>
      if negb (dimension_eqb existing dp.2)
      then Err (case_error case_id ("matched conflicting aggregation policy for dimension '" +:+ dp.1
                +:+ "' across case_groups"))
      else Ok merged
  | None => Ok (bt_insert dp.1 dp.2 merged)
  end.

Definition merge_aggregation_settings (case_id : Uuid) (groups : list CaseGroupProfile)
    : result AggregationSettings :=
  merged ← foldM (fun merged group =>
             foldM (merge_dimension case_id) merged (ags_dimensions (cg_aggregation group))) [] groups;
  Ok (mkAggregationSettings merged).

Definition add_unique_binding (case_id : Uuid) (unique : btree string EvaluatorBinding)
    (binding : EvaluatorBinding) : result (btree string EvaluatorBinding) :=
  match bt_get (eb_id binding) unique with
  | Some existing =>
      if negb (equivalent_evaluator_binding existing binding)
      then Err (case_error case_id ("matched conflicting evaluator binding id '" +:+ eb_id binding
                +:+ "' across case_groups"))
      else Ok unique
  | None => Ok (bt_insert (eb_id binding) binding unique)
  end.

Definition evaluation_plan_for_case (profile : RunProfile) (case : WorkerCaseBatchItem)
    : result CaseEvaluationPlan :=
  let groups := matching_groups_for_row profile case in
  _ ← ensure (negb (bool_decide (groups = [])))
    (case_error (wc_case_id case) "did not match any evaluator bindings in run profile");
  let profile_group_id := join "," (map cg_id groups) in
  aggregation ← merge_aggregation_settings (wc_case_id case) groups;
  unique ← foldM (fun unique group =>
             foldM (add_unique_binding (wc_case_id case)) unique (cg_evaluators group)) [] groups;
  let evaluator_bindings := bt_values unique in
  _ ← ensure (negb (bool_decide (evaluator_bindings = [])))
    (case_error (wc_case_id case) "matched run profile groups with no evaluator bindings");
  Ok (mkCaseEvaluationPlan profile_group_id evaluator_bindings aggregation).

Definition make_test_case (case : WorkerCaseBatchItem) : result TestCase :=
  metadata ← metadata_from_case_row (wc_metadata case);
  Ok (mkTestCase (uuid_display (wc_case_id case)) (wc_task_type case) (wc_case_group case)
        (wc_input_payload case) (Some (wc_expected_output case)) (Some (wc_context_payload case))
        (tags_from_case_row (wc_tags case)) metadata).

(** The bindings of a plan as the aggregation reads them; [catalog] says which
    references the run's evaluator catalog has. *)
Definition aggregation_bindings (catalog : string -> bool) (bindings : list EvaluatorBinding)
    : result (list AggregationBinding) :=
  foldM (fun acc binding =>
    _ ← ensure (catalog (eb_evaluator_ref binding))
      ("evaluator '" +:+ eb_evaluator_ref binding +:+ "' is missing from run evaluator catalog");
    Ok (acc ++ [mkAggregationBinding (eb_id binding) (eb_required binding)])) [] bindings.

(** ** Routing is the same at validation and in the worker *)

Lemma tags_of_row (tags : list string) : tags_from_case_row (Array (map Str tags)) = tags.
Proof. induction tags as [|t tags IH]; [done|]. simpl in *. f_equal. exact IH. Qed.

Lemma existsb_perm {A} (p : A -> bool) l k : l ≡ₚ k -> existsb p l = existsb p k.
Proof.
  intros Hp. apply eq_true_iff_eq. rewrite !existsb_exists_elem. by setoid_rewrite Hp.
Qed.

Lemma existsb_ext {A} (p q : A -> bool) l : (forall a, p a = q a) -> existsb p l = existsb q l.
Proof. intros H. induction l as [|a l IH]; simpl; [done|]. by rewrite H, IH. Qed.

Lemma forallb_pointwise {A} (p q : A -> bool) l : (forall a, p a = q a) -> forallb p l = forallb q l.
Proof. intros H. induction l as [|a l IH]; simpl; [done|]. by rewrite H, IH. Qed.

Lemma row_group_applies_perm group case tags :
  tags ≡ₚ dc_tags case -> row_group_applies group (dc_task_type case) tags = group_applies group case.
Proof.
  intros Hp. unfold row_group_applies, group_applies.
  rewrite (existsb_ext _ (fun tag => existsb (fun case_tag => str_eqb case_tag tag) (dc_tags case)))
    by (intros; by apply existsb_perm).
  rewrite (forallb_pointwise _ (fun tag => existsb (fun case_tag => str_eqb case_tag tag) (dc_tags case)))
    by (intros; by apply existsb_perm).
  done.
Qed.

Lemma worker_matching_groups profile record case item :
  worker_case record case = Ok item ->
  matching_groups_for_row profile item = matching_groups_for_case profile case.
Proof.
  intros [= <-]. unfold matching_groups_for_row, matching_groups_for_case.
  cbn [wc_case_group wc_tags wc_task_type]. destruct (dc_case_group case); [done|].
  rewrite tags_of_row. apply filter_ext. intros group. apply row_group_applies_perm, sort_tags_perm.
Qed.

(** ** Merged bindings *)

(** What merging a list of bindings leaves: one binding per identifier, taken
    from the list, and every binding of the list is one of them or equivalent
    to the one of its identifier. *)
Record merged_bindings (all : list EvaluatorBinding) (unique : btree string EvaluatorBinding) : Prop := {
  mb_wf : bt_wf unique;
  mb_from : forall id b, bt_get id unique = Some b -> b ∈ all /\ eb_id b = id;
  mb_all : forall b, b ∈ all -> exists b', bt_get (eb_id b) unique = Some b' /\
    (b' = b \/ equivalent_evaluator_binding b' b = true)
}.

Lemma add_unique_binding_inv case_id all unique b unique' :
  merged_bindings all unique -> add_unique_binding case_id unique b = Ok unique' ->
  merged_bindings (all ++ [b]) unique'.
Proof.
  intros [Hwf Hfrom Hall]. unfold add_unique_binding.
  destruct (bt_get (eb_id b) unique) as [existing|] eqn:E.
  - destruct (equivalent_evaluator_binding existing b) eqn:Eq; [|done]. intros [= <-]. split; [done|..].
    + intros id c Hc. destruct (Hfrom _ _ Hc). rewrite elem_of_app. auto.
    + apply forall_elem_snoc. split; [done|]. eauto.
  - intros [= <-]. split; [by apply bt_insert_wf|..].
    + intros id c. rewrite elem_of_app, list_elem_of_singleton.
      destruct (decide (id = eb_id b)) as [->|Hne].
      * rewrite bt_get_insert_eq. intros [= <-]. auto.
      * rewrite bt_get_insert_ne by auto. intros [? ?]%Hfrom. auto.
    + apply forall_elem_snoc. split; [|exists b; rewrite bt_get_insert_eq; auto].
      intros c Hc. destruct (Hall c Hc) as (c' & Hc' & ?). exists c'. split; [|done].
      rewrite bt_get_insert_ne; [done|done|]. intros Heq. rewrite <- Heq, E in Hc'. done.
Qed.

Lemma merged_values all unique :
  merged_bindings all unique ->
  map eb_id (bt_values unique) = bt_keys unique /\
  forall b, b ∈ bt_values unique <-> bt_get (eb_id b) unique = Some b.
Proof.
  intros [Hwf Hfrom _].
  assert (Hid : forall id b, (id, b) ∈ unique -> eb_id b = id).
  { intros id b Hin. apply bt_get_elem in Hin; [|done]. by apply Hfrom in Hin as [_ ?]. }
  split.
  - unfold bt_values, bt_keys. rewrite map_map. apply map_ext_in. intros [id b] Hin%list_elem_of_In. eauto.
  - intros b. rewrite bt_get_elem by done. unfold bt_values. rewrite list_elem_of_fmap. split.
    + intros ([id c] & -> & Hin). simpl. by rewrite (Hid id c Hin).
    + intros Hin. by exists (eb_id b, b).
Qed.

(** The parts of a successful plan. *)
Lemma plan_parts profile case plan :
  evaluation_plan_for_case profile case = Ok plan ->
  exists unique merged,
    merged_bindings (flat_map cg_evaluators (matching_groups_for_row profile case)) unique /\
    cep_evaluator_bindings plan = bt_values unique /\ bt_values unique <> [] /\
    foldM (merge_dimension (wc_case_id case)) []
      (flat_map (fun g => ags_dimensions (cg_aggregation g)) (matching_groups_for_row profile case))
    = Ok merged /\ cep_aggregation plan = mkAggregationSettings merged.
Proof.
  unfold evaluation_plan_for_case, merge_aggregation_settings. intros H.
  apply bind_Ok in H as (_ & _ & H). apply bind_Ok in H as (agg & Hagg & H).
  apply bind_Ok in H as (unique & Hu & H). apply bind_Ok in H as (? & Hne%ensure_Ok & H).
  apply bind_Ok in Hagg as (merged & Hm & [= <-]). injection H as <-.
  rewrite (foldM_nested (merge_dimension (wc_case_id case))
    (fun g => ags_dimensions (cg_aggregation g))) in Hm.
  rewrite (foldM_nested (add_unique_binding (wc_case_id case)) cg_evaluators) in Hu.
  apply negb_true_iff, bool_decide_eq_false in Hne.
  exists unique, merged. split_and!; try done.
  apply (foldM_inv_prefix merged_bindings _ _ _ _) in Hu; [done| |].
  - split; [apply bt_wf_nil|done|set_solver].
  - intros pre s b s1. apply add_unique_binding_inv.
Qed.

(** ** Merged aggregation policies *)

(** Every policy of a matched group is kept, up to [==]. *)
Record merged_dimensions (all : list (string * DimensionAggregation))
    (merged : btree string DimensionAggregation) : Prop := {
  md_wf : bt_wf merged;
  md_from : forall d p, bt_get d merged = Some p -> (d, p) ∈ all;
  md_all : forall dp, dp ∈ all -> exists p', bt_get dp.1 merged = Some p' /\
    (p' = dp.2 \/ dimension_eqb p' dp.2 = true)
}.

Lemma merge_dimension_inv case_id all merged dp merged' :
  merged_dimensions all merged -> merge_dimension case_id merged dp = Ok merged' ->
  merged_dimensions (all ++ [dp]) merged'.
Proof.
  destruct dp as [d p]. intros [Hwf Hfrom Hall]. unfold merge_dimension. cbn [fst snd].
  destruct (bt_get d merged) as [existing|] eqn:E.
  - destruct (dimension_eqb existing p) eqn:Eq; [|done]. intros [= <-]. split; [done|..].
    + intros d' p' H%Hfrom. rewrite elem_of_app. auto.
    + apply forall_elem_snoc. split; [done|]. simpl. eauto.
  - intros [= <-]. split; [by apply bt_insert_wf|..].
    + intros d' p'. rewrite elem_of_app, list_elem_of_singleton.
      destruct (decide (d' = d)) as [->|Hne].
      * rewrite bt_get_insert_eq. intros [= <-]. auto.
      * rewrite bt_get_insert_ne by auto. intros ?%Hfrom. auto.
    + apply forall_elem_snoc. split; [|exists p; simpl; rewrite bt_get_insert_eq; auto].
      intros [d' p'] Hin. destruct (Hall _ Hin) as (p1 & Hp1 & ?). exists p1. split; [|done].
      simpl in *. rewrite bt_get_insert_ne; [done|done|]. intros <-. by rewrite E in Hp1.
Qed.

Lemma merged_dimensions_fold case_id all merged :
  foldM (merge_dimension case_id) [] all = Ok merged -> merged_dimensions all merged.
Proof.
  intros H. apply (foldM_inv_prefix merged_dimensions _ _ _ _) in H; [done| |].
  - split; [apply bt_wf_nil|done|set_solver].
  - intros pre s dp s1. apply merge_dimension_inv.
Qed.

(** A worker's plan for a case merges the matched groups without losing or
    inventing anything: its bindings have distinct identifiers and come from
    the groups that profile validation matched for the case, every binding of
    those groups is in the plan or was merged into an equivalent one with its
    identifier, and the same holds of the aggregation policies per dimension. *)
Theorem evaluation_plan_merges profile record case item plan :
  worker_case record case = Ok item ->
  evaluation_plan_for_case profile item = Ok plan ->
  let groups := matching_groups_for_case profile case in
  NoDup (map eb_id (cep_evaluator_bindings plan)) /\
  (forall b, b ∈ cep_evaluator_bindings plan ->
     exists g, g ∈ groups /\ b ∈ cg_evaluators g) /\
  (forall g b, g ∈ groups -> b ∈ cg_evaluators g ->
     exists b', b' ∈ cep_evaluator_bindings plan /\ eb_id b' = eb_id b /\
       (b' = b \/ equivalent_evaluator_binding b' b = true)) /\
  (forall d p, bt_get d (ags_dimensions (cep_aggregation plan)) = Some p ->
     exists g, g ∈ groups /\ (d, p) ∈ ags_dimensions (cg_aggregation g)) /\
  (forall g d p, g ∈ groups -> (d, p) ∈ ags_dimensions (cg_aggregation g) ->
     exists p', bt_get d (ags_dimensions (cep_aggregation plan)) = Some p' /\
       (p' = p \/ dimension_eqb p' p = true)).
Proof.
  intros Hw Hplan. cbv zeta.
  destruct (plan_parts _ _ _ Hplan) as (unique & merged & Hmb & Hb & _ & Hm & Ha).
  rewrite (worker_matching_groups _ _ _ _ Hw) in *. rewrite Hb, Ha. cbn [ags_dimensions].
  apply merged_dimensions_fold in Hm as [_ Dfrom Dall].
  destruct (merged_values _ _ Hmb) as [Hkeys Hval]. destruct Hmb as [Hwf Hfrom Hall].
  assert (Hflat : forall {B} (f : CaseGroupProfile -> list B) b groups,
    b ∈ flat_map f groups <-> exists g, g ∈ groups /\ b ∈ f g).
  { intros B h b groups. rewrite list_elem_of_In, in_flat_map. by setoid_rewrite list_elem_of_In. }
  split_and!.
  - rewrite Hkeys. by apply bt_wf_NoDup.
  - intros b [Hin _]%Hval%Hfrom. by apply Hflat in Hin.
  - intros g b Hg Hin. destruct (Hall b) as (b' & Hb' & Heq); [apply Hflat; eauto|].
    exists b'. destruct (Hfrom _ _ Hb') as [_ Hid]. split_and!; [|done|done].
    apply Hval. by rewrite Hid.
  - intros d p Hd%Dfrom. by apply Hflat in Hd.
  - intros g d p Hg Hin. apply (Dall (d, p)). apply Hflat. eauto.
Qed.

(** ** Validated profiles and completeness *)

Context (parse_url parse_method : string -> result unit).

Lemma static_group_required profile group :
  collect_static_profile_config_issues parse_url parse_method profile = [] ->
  group ∈ rp_case_groups profile -> cg_evaluators group <> [] ->
  exists b, b ∈ cg_evaluators group /\ eb_required b = true.
Proof.
  unfold collect_static_profile_config_issues. rewrite !app_nil. intros (_ & _ & _ & H) Hg Hne.
  assert (Hgi : group_issues group = []).
  { apply list_elem_of_In in Hg. apply in_split in Hg as (l1 & l2 & E). rewrite E in H.
    rewrite flat_map_app in H. apply app_nil in H as [_ H]. simpl in H. by apply app_nil in H as [? _]. }
  unfold group_issues in Hgi. apply app_nil in Hgi as [_ Hgi]. apply app_nil in Hgi as [Hgi _].
  apply when_nil in Hgi. rewrite bool_decide_false in Hgi by done.
  apply negb_false_iff, existsb_exists_elem in Hgi. done.
Qed.

Lemma aggregation_bindings_Ok catalog bindings abs :
  aggregation_bindings catalog bindings = Ok abs ->
  abs = map (fun b => mkAggregationBinding (eb_id b) (eb_required b)) bindings.
Proof.
  unfold aggregation_bindings. intros H.
  apply (foldM_inv_prefix (fun pre acc =>
    acc = map (fun b => mkAggregationBinding (eb_id b) (eb_required b)) pre)) in H; [done|done|].
  intros pre acc b acc' -> Hb. apply bind_Ok in Hb as (_ & _ & [= <-]). by rewrite map_app.
Qed.

(** Equivalent bindings agree on being required. *)
Lemma equivalent_required a b :
  a = b \/ equivalent_evaluator_binding a b = true -> eb_required a = eb_required b.
Proof.
  intros [->|H]; [done|]. unfold equivalent_evaluator_binding in H.
  rewrite !andb_true_iff in H. destruct_and? H. by apply eqb_prop.
Qed.

Lemma plan_length profile record case item plan :
  worker_case record case = Ok item -> evaluation_plan_for_case profile item = Ok plan ->
  zlen (cep_evaluator_bindings plan) <= planned profile case.
Proof.
  intros Hw Hplan. destruct (plan_parts _ _ _ Hplan) as (unique & merged & Hmb & Hb & _).
  rewrite (worker_matching_groups _ _ _ _ Hw) in Hmb. rewrite Hb.
  destruct (merged_values _ _ Hmb) as [Hkeys Hval]. destruct Hmb as [Hwf Hfrom _].
  unfold planned, zlen. apply inj_le.
  rewrite <- (length_map eb_id (bt_values unique)),
    <- (length_map eb_id (flat_map cg_evaluators (matching_groups_for_case profile case))).
  apply NoDup_incl_length; [rewrite Hkeys; by apply NoDup_ListNoDup, bt_wf_NoDup|].
  intros id (b & <- & Hin%list_elem_of_In)%in_map_iff.
  apply Hval, Hfrom in Hin as [Hin _]. apply in_map. by apply list_elem_of_In.
Qed.

(** C34: For a profile that passed validation, whether an execution is complete
    depends on its results alone: the worker's plan has distinct binding
    identifiers and a required binding, so the completeness check succeeds
    exactly when every result answers a planned binding, none is answered
    twice, and every required binding has a validly scored result.  The plan
    never runs more evaluators than validation counted for the case. *)
Theorem validated_case_completes profile record case item plan catalog bindings results :
  collect_static_profile_config_issues parse_url parse_method profile = [] ->
  worker_case record case = Ok item ->
  evaluation_plan_for_case profile item = Ok plan ->
  aggregation_bindings catalog (cep_evaluator_bindings plan) = Ok bindings ->
  zlen (cep_evaluator_bindings plan) <= planned profile case /\
  ((evaluator_completeness bindings results).1.1 = true <->
   NoDup (map ar_binding_id results) /\
   (forall r, r ∈ results -> exists b, b ∈ cep_evaluator_bindings plan /\ eb_id b = ar_binding_id r) /\
   (forall b, b ∈ cep_evaluator_bindings plan -> eb_required b = true ->
      exists r, r ∈ results /\ ar_binding_id r = eb_id b /\ valid_normalized_score r = true)).
Proof.
  intros Hstatic Hw Hplan Hagg. split; [by apply (plan_length profile record case item)|].
  apply aggregation_bindings_Ok in Hagg as ->. rewrite completeness_iff. unfold complete_spec.
  rewrite map_map. change (fun b => ab_binding_id (mkAggregationBinding (eb_id b) (eb_required b)))
    with eb_id.
  destruct (plan_parts _ _ _ Hplan) as (unique & merged & Hmb & Hb & Hne & _).
  rewrite (worker_matching_groups _ _ _ _ Hw) in Hmb.
  destruct (merged_values _ _ Hmb) as [Hkeys Hval]. destruct Hmb as [Hwf Hfrom Hall].
  assert (Hnd : NoDup (map eb_id (cep_evaluator_bindings plan)))
    by (rewrite Hb, Hkeys; by apply bt_wf_NoDup).
  assert (Hreq : exists b, b ∈ cep_evaluator_bindings plan /\ eb_required b = true).
  { rewrite Hb. destruct (bt_values unique) as [|b0 bs] eqn:Ebs; [done|].
    destruct (Hval b0) as [Hv _]. destruct (Hfrom _ _ (Hv (list_elem_of_here _ _))) as [Hin _].
    apply list_elem_of_In, in_flat_map in Hin as (g & Hg & Hin).
    destruct (static_group_required profile g Hstatic) as (b1 & Hb1 & Hr).
    - apply (matching_groups_elem profile case). by apply list_elem_of_In.
    - intros E. by rewrite E in Hin.
    - destruct (Hall b1) as (b2 & Hb2 & Heq).
      { apply list_elem_of_In, in_flat_map. exists g. split; [done|by apply list_elem_of_In]. }
      exists b2. rewrite (equivalent_required _ _ Heq). split; [|done].
      apply Hval. by destruct (Hfrom _ _ Hb2) as [_ ->]. }
  assert (Hex : forall (P : AggregationBinding -> Prop),
    (forall b, b ∈ map (fun b => mkAggregationBinding (eb_id b) (eb_required b))
       (cep_evaluator_bindings plan) -> P b) <->
    forall b, b ∈ cep_evaluator_bindings plan -> P (mkAggregationBinding (eb_id b) (eb_required b))).
  { intros P. setoid_rewrite list_elem_of_fmap. naive_solver. }
  rewrite Hex. cbn [ab_required ab_binding_id]. setoid_rewrite list_elem_of_fmap.
  split.
  - intros (_ & Hr & Hin & _ & Hs). split_and!; [done| |done].
    intros r (b & ? & ?)%Hin. eauto.
  - intros (Hr & Hin & Hs). split_and!; [done|done| | |done].
    + intros r (b & ? & ?)%Hin. eauto.
    + destruct Hreq as (b & Hb1 & Hb2). eexists. split; [exists b; split; [reflexivity|done]|done].
Qed.
End plan.

(** ** Concrete plans *)

Definition sample_case : DatasetCase :=
  mkDatasetCase 11 "chat" None Null None None ["smoke"; "deep"] [].
Definition sample_cases : RunDataset := mkRunDataset 1 None [sample_case].
Definition sample_record : CaseRecord := mkCaseRecord 0 "hash" Null.
Definition sample_item : WorkerCaseBatchItem := Eval vm_compute in
  match worker_case sample_record sample_case with Ok i => i | Err _ => mkWorkerCaseBatchItem 0 "" 0 "" None
    Null Null Null Null Null end.

Definition no_plan : CaseEvaluationPlan := mkCaseEvaluationPlan "" [] (mkAggregationSettings []).
Definition planned_or_none (profile : RunProfile) : CaseEvaluationPlan :=
  match evaluation_plan_for_case pretty profile sample_item with Ok p => p | Err _ => no_plan end.

(** Two groups that share a binding, and two that configure it differently. *)
Definition shared_groups : list CaseGroupProfile :=
  [sample_group "smoke" "smoke" [sample_binding "tone" "acme/tone:1.0.0" f1];
   sample_group "deep" "deep" [sample_binding "tone" "acme/tone:1.0.0" f1]].
Definition conflicting_groups : list CaseGroupProfile :=
  [sample_group "smoke" "smoke" [sample_binding "tone" "acme/tone:1.0.0" f1];
   sample_group "deep" "deep" [sample_binding "tone" "acme/tone:1.0.0" half]].

Definition shared_plan : CaseEvaluationPlan := Eval vm_compute in
  planned_or_none (sample_profile shared_groups).
Definition two_plan : CaseEvaluationPlan := Eval vm_compute in
  planned_or_none (sample_profile two_groups).

Lemma evaluation_plan_merges_witness : NoDup (map eb_id (cep_evaluator_bindings shared_plan)).
Proof.
  refine (proj1 (evaluation_plan_merges pretty (sample_profile shared_groups) sample_record sample_case
    sample_item shared_plan _ _)); vm_compute; reflexivity.
Defined.

Definition tone_result (id : string) : AggregationResult :=
  mkAggregationResult id 7 "quality" Passed (Some f1) false f1 None None.
Definition two_bindings : list AggregationBinding :=
  [mkAggregationBinding "facts" true; mkAggregationBinding "tone" true].

Lemma validated_case_completes_witness :
  (evaluator_completeness two_bindings [tone_result "tone"; tone_result "facts"]).1.1 = true.
Proof.
  refine (proj2 (proj2 (validated_case_completes pretty accept_all accept_all (sample_profile two_groups)
    sample_record sample_case sample_item two_plan (fun _ => true) two_bindings
    [tone_result "tone"; tone_result "facts"] _ _ _ _)) _);
    [vm_compute; reflexivity|vm_compute; reflexivity|vm_compute; reflexivity|vm_compute; reflexivity|].
  split_and!.
  - apply (bool_decide_unpack _). vm_compute. exact I.
  - intros r [->|[->|[]%not_elem_of_nil]%elem_of_cons]%elem_of_cons.
    + exists (sample_binding "tone" "acme/tone:1.0.0" f1). split; [|reflexivity].
      apply list_elem_of_In. right. left. reflexivity.
    + exists (sample_binding "facts" "acme/facts:1.0.0" f1). split; [|reflexivity].
      apply list_elem_of_In. left. reflexivity.
  - intros b [->|[->|[]%not_elem_of_nil]%elem_of_cons]%elem_of_cons _.
    + exists (tone_result "facts"). split; [right; left|split; vm_compute; reflexivity].
    + exists (tone_result "tone"). split; [left|split; vm_compute; reflexivity].
Defined.

(** Profile validation does not look at overlaps between groups.  When a
    case matches two groups that share a binding, validation counts the binding
    twice while the worker runs it once.  When the two groups configure that
    binding differently, validation accepts the profile for the dataset, yet
    the worker refuses to plan the very same case. *)
Theorem validation_ignores_overlap :
  worker_case sample_record sample_case = Ok sample_item /\
  validate_resolved_case pretty (sample_profile shared_groups) sample_case = Ok 2 /\
  evaluation_plan_for_case pretty (sample_profile shared_groups) sample_item = Ok shared_plan /\
  zlen (cep_evaluator_bindings shared_plan) = 1 /\
  validate_profile_executability pretty accept_all accept_all "wit" (Ok sample_table)
    (sample_profile conflicting_groups) sample_cases
  = Ok (mkProfileExecutabilitySummary 1 2 1 1) /\
  evaluation_plan_for_case pretty (sample_profile conflicting_groups) sample_item
  = Err "case '11' matched conflicting evaluator binding id 'tone' across case_groups".
Proof. split_and!; vm_compute; reflexivity. Qed.
