(* ===== verification/ShardTables.v ===== *)
(** * Execution database

    The tables one execution database keeps for run shards, as the migrations
    under src/vigilo/migrations declare them (0016 to 0026): finite maps from
    primary key to the remaining columns.  The maps give primary-key uniqueness;
    the [CHECK] constraints and the further uniqueness constraints are the
    predicates of [schema] below, which the operations are proved to preserve.

    A statement of the sources is a function on a table.  [update_where] is
    [UPDATE ... SET f WHERE p], [rows_where] is the set a statement selects and
    [count_where] its [rows_affected] or [COUNT( * )].  Each transaction of the
    sources locks the chunk row it works on before it reads or writes the rows
    below it, so a transaction is one function from database to database.
    Timestamps are microseconds; [now()] and the identifiers of
    [gen_random_uuid()] are arguments. *)

From Stdlib Require Import ZArith Lia.
From stdpp Require Import base strings numbers gmap sets option list.
From S2P Require Import Prelude Float64 Json RunTypes.

Open Scope Z_scope.

(** ** Columns *)

(** [run_id], [run_shard], [id]: the primary key of the partitioned tables. *)
Notation row_key := (Uuid * Z * Uuid)%type (only parsing).
Notation shard_key := (Uuid * Z)%type (only parsing).

(** [interval '1 second'] and [interval '1 millisecond']. *)
Definition second : Z := 1000000.
Definition millisecond : Z := 1000.

Inductive ChunkStatus := ChPending | ChLeased | ChCompleted | ChFailed | ChCancelled.
Inductive ExecutionStatus :=
| ExPending | ExRunning | ExAwaitingEvaluators | ExRetryScheduled
| ExCompleted | ExFailed | ExTimedOut | ExCancelled.
Inductive AttemptStatus :=
| AtPending | AtRunning | AtCompleted | AtFailedAgentCall | AtFailedEvaluation
| AtTimedOut | AtCancelled | AtStale.
(** The enum [evaluation_status] of the database. *)
Inductive OverallStatus := OvPassed | OvFailed | OvError | OvSkipped.

#[global] Instance ChunkStatus_eq_dec : EqDecision ChunkStatus.
Proof. solve_decision. Defined.
#[global] Instance ExecutionStatus_eq_dec : EqDecision ExecutionStatus.
Proof. solve_decision. Defined.
#[global] Instance AttemptStatus_eq_dec : EqDecision AttemptStatus.
Proof. solve_decision. Defined.
#[global] Instance OverallStatus_eq_dec : EqDecision OverallStatus.
Proof. solve_decision. Defined.

(** [status IN ('completed', 'failed', 'cancelled')] of a chunk. *)
Definition chunk_terminal (s : ChunkStatus) : bool :=
  match s with ChCompleted | ChFailed | ChCancelled => true | ChPending | ChLeased => false end.

(** [status IN ('pending', 'running', 'awaiting_evaluators', 'retry_scheduled')]
    of an execution; the other four statuses are terminal. *)
Definition execution_open (s : ExecutionStatus) : bool :=
  match s with
  | ExPending | ExRunning | ExAwaitingEvaluators | ExRetryScheduled => true
  | ExCompleted | ExFailed | ExTimedOut | ExCancelled => false
  end.

(** [status IN ('pending', 'running')] of an attempt. *)
Definition attempt_open (s : AttemptStatus) : bool :=
  match s with AtPending | AtRunning => true | _ => false end.

(** Attempt statuses whose aggregate counts in a receipt. *)
Definition attempt_settled (s : AttemptStatus) : bool :=
  match s with
  | AtCompleted | AtFailedAgentCall | AtFailedEvaluation | AtTimedOut => true
  | _ => false
  end.

(** ** Rows *)

Record ChunkRow := mkChunkRow {
  ch_dataset_version_id : Uuid;
  ch_profile_group_id : string;
  ch_ordinal_start : Z;
  ch_ordinal_end : Z;
  ch_status : ChunkStatus;
  ch_dispatched_at : option Z;
  ch_lease_token : option Uuid;
  ch_leased_until : option Z;
  ch_recovery_count : Z;
  ch_last_recovered_at : option Z;
  ch_created_at : Z;
  ch_updated_at : Z
}.

(** The frozen case columns of an execution, which one statement writes. *)
Record ExecutionCase := mkExecutionCase {
  ec_case_hash : string;
  ec_profile_group_id : string;
  ec_task_type : string;
  ec_tags : Value;
  ec_input_payload : Value;
  ec_expected_output : Value;
  ec_case_metadata : Value;
  ec_evaluation_profile_id : string;
  ec_evaluation_profile_version : string;
  ec_evaluator_manifest : Value;
  ec_expected_evaluator_count : Z
}.

Record ExecutionRow := mkExecutionRow {
  ex_chunk_id : Uuid;
  ex_case_id : Uuid;
  ex_case : ExecutionCase;
  ex_status : ExecutionStatus;
  ex_current_attempt_no : Z;
  ex_current_attempt_id : option Uuid;
  ex_last_error_message : option string;
  ex_retry_after : option Z;
  ex_retry_count : Z;
  ex_last_attempt_completed_at : option Z;
  ex_started_at : option Z;
  ex_completed_at : option Z;
  ex_created_at : Z;
  ex_updated_at : Z
}.

Record AttemptRow := mkAttemptRow {
  at_execution_id : Uuid;
  at_attempt_no : Z;
  at_status : AttemptStatus;
  at_worker_id : option Uuid;
  at_worker_host : option string;
  at_queue_message_id : option Uuid;
  at_broker_message_id : option string;
  at_leased_until : option Z;
  at_heartbeat_at : option Z;
  at_agent_failure : option Value;
  at_error_message : option string;
  at_started_at : option Z;
  at_completed_at : option Z;
  at_created_at : Z;
  at_updated_at : Z
}.

(** Keyed by [run_id], [run_shard], [execution_id]. *)
Record AggregateRow := mkAggregateRow {
  ag_attempt_id : Uuid;
  ag_overall_status : OverallStatus;
  ag_aggregate_score : option f64;
  ag_evaluator_result_count : Z;
  ag_dimension_scores : Value;
  ag_blocking_failures : Value;
  ag_summary : Value;
  ag_updated_at : Z
}.

Inductive LocalShardAdmissionState := Open | Draining | Prepared | Closed.

#[global] Instance LocalShardAdmissionState_eq_dec : EqDecision LocalShardAdmissionState.
Proof. solve_decision. Defined.

Record LocalShardMoveFence := mkLocalShardMoveFence {
  mf_move_id : Uuid;
  mf_claim_generation : Z;
  mf_claim_token : Uuid
}.

#[global] Instance LocalShardMoveFence_eq_dec : EqDecision LocalShardMoveFence.
Proof. solve_decision. Defined.

(** The three nullable fence columns are null together (the table's
    [ck_local_shard_admissions_move_fence]), so they are one option. *)
Record AdmissionRow := mkAdmissionRow {
  ad_database_alias : string;
  ad_write_epoch : Z;
  ad_state : LocalShardAdmissionState;
  ad_redirect_database_alias : option string;
  ad_move_fence : option LocalShardMoveFence;
  ad_updated_at : Z
}.

(** The columns [run_snapshots] copies from [runs]. *)
Record RunContext := mkRunContext {
  rc_run_key : string;
  rc_dataset_id : Uuid;
  rc_dataset_version_id : Uuid;
  rc_dataset_version : string;
  rc_evaluation_profile_id : string;
  rc_evaluation_profile_version : string;
  rc_profile_version_id : string;
  rc_profile_hash : string;
  rc_aggregation_policy_id : string;
  rc_aggregation_policy_version : string;
  rc_aggregation_policy_hash : string;
  rc_agent_provider : string;
  rc_agent_name : string;
  rc_agent_version : option string;
  rc_prompt_config_id : string;
  rc_prompt_config_version : string;
  rc_config_snapshot : Value
}.

Record SnapshotRow := mkSnapshotRow {
  sn_context : RunContext;
  sn_expected_execution_count : Z
}.

(** [RunShardSummary] of run_shard_summary.rs: both the receipt of one chunk
    and the running summary of a shard.  [rs_run_id] and [rs_run_shard] are
    fields because receipts are stored as JSON documents. *)
Record RunShardSummary := mkRunShardSummary {
  rs_run_id : Uuid;
  rs_run_shard : Z;
  rs_expected_execution_count : Z;
  rs_execution_count : Z;
  rs_terminal_execution_count : Z;
  rs_aggregate_count : Z;
  rs_passed_execution_count : Z;
  rs_failed_execution_count : Z;
  rs_errored_execution_count : Z;
  rs_skipped_execution_count : Z;
  rs_missing_aggregate_count : Z;
  rs_evaluator_result_count : Z;
  rs_blocking_failure_count : Z;
  rs_score_count : Z;
  rs_score_sum : f64;
  rs_min_score : option f64;
  rs_max_score : option f64;
  rs_scorecard : Value;
  rs_failed_chunk_count : Z;
  rs_cancelled_chunk_count : Z;
  rs_status : string;
  rs_sealed : bool;
  rs_planned_chunk_hash : string;
  rs_planned_chunk_count : Z;
  rs_settled_chunk_count : Z;
  rs_missing_execution_count : Z;
  rs_unresolved_execution_count : Z
}.

Record SettlementRow := mkSettlementRow {
  st_ordinal_start : Z;
  st_ordinal_end : Z;
  st_aggregation_policy_hash : string;
  st_disposition : ChunkStatus;
  st_summary : RunShardSummary;
  st_created_at : Z
}.

Record ConsumptionRow := mkConsumptionRow {
  cs_ordinal_start : Z;
  cs_consumed : bool
}.

(** Planned chunk membership (run_shard_summary/plan.rs). *)
Record ChunkIdentity := mkChunkIdentity {
  ci_chunk_id : Uuid;
  ci_run_shard : Z;
  ci_ordinal_start : Z;
  ci_ordinal_end : Z
}.

Record Manifest := mkManifest {
  mn_chunk_count : Z;
  mn_case_count : Z;
  mn_hash : string;
  mn_last : option ChunkIdentity
}.

#[global] Instance ChunkIdentity_eq_dec : EqDecision ChunkIdentity.
Proof. solve_decision. Defined.
#[global] Instance Manifest_eq_dec : EqDecision Manifest.
Proof. solve_decision. Defined.

(** [State] of run_shard_summary/aggregation.rs: the resumable checkpoint kept
    in [aggregation_state]. *)
Record AggregationState := mkAggregationState {
  as_version : Z;
  as_policy_hash : string;
  as_plan : Manifest;
  as_folded : Manifest;
  as_final_summary : option RunShardSummary
}.

Record SummaryRow := mkSummaryRow {
  su_summary : RunShardSummary;
  su_aggregation_state : option AggregationState;
  su_updated_at : Z
}.

(** Evaluator evidence (db/tables/evaluator_results.rs).  A result row is unique
    per attempt and binding, a diagnostic per result and index; the generated
    identifier of a result row stands for that pair. *)
Record EvaluatorDiagnosticInsertRow := mkEvaluatorDiagnosticInsertRow {
  ed_diagnostic_index : Z;
  ed_severity : string;
  ed_category : string;
  ed_reason : option string;
  ed_evidence : Value;
  ed_tags : list string
}.

Record EvaluatorResultInsertRow := mkEvaluatorResultInsertRow {
  er_run_id : Uuid;
  er_run_shard : Z;
  er_execution_id : Uuid;
  er_attempt_id : Uuid;
  er_binding_id : string;
  er_evaluator_id : Uuid;
  er_evaluator_version : string;
  er_evaluator_profile_id : string;
  er_evaluator_profile_version : string;
  er_evaluator_interface_version : option string;
  er_evaluator_runtime_version : option string;
  er_dimension : string;
  er_outcome : string;
  er_judgment : option string;
  er_blocking : bool;
  er_measurement_kind : option string;
  er_raw_boolean : option bool;
  er_raw_numeric : option f64;
  er_raw_ordinal : option string;
  er_raw_unit : option string;
  er_normalized_score : option f64;
  er_normalization_policy_hash : string;
  er_pass_threshold : f64;
  er_weight : f64;
  er_error_code : option string;
  er_error_message : option string;
  er_abstention_category : option string;
  er_abstention_reason : option string;
  er_raw_evaluator_output : Value;
  er_diagnostics : list EvaluatorDiagnosticInsertRow
}.

Notation result_key := (Uuid * Z * Uuid * string)%type (only parsing).

Record Evidence := mkEvidence {
  ev_results : gmap result_key EvaluatorResultInsertRow;
  ev_diagnostics : gmap (Uuid * Z * Uuid * string * Z) EvaluatorDiagnosticInsertRow
}.

(** A [run.chunk.ready] record of the outbox.  Its [dedupe_key] is the text
    [run:R:chunk:C:ready] or [run:R:chunk:C:ready:recovery:N]; the outbox is
    keyed by what that text prints. *)
Notation ready_key := (Uuid * Uuid * option Z)%type (only parsing).

Record ReadyEvent := mkReadyEvent {
  re_run_id : Uuid;
  re_run_shard : Z;
  re_chunk_id : Uuid;
  re_database_alias : string;
  re_write_epoch : Z;
  re_recovery_count : option Z
}.

Record Database := mkDatabase {
  db_runs : gmap Uuid RunContext;
  db_chunks : gmap row_key ChunkRow;
  db_executions : gmap row_key ExecutionRow;
  db_attempts : gmap row_key AttemptRow;
  db_aggregates : gmap row_key AggregateRow;
  db_evidence : Evidence;
  db_admissions : gmap shard_key AdmissionRow;
  db_snapshots : gmap shard_key SnapshotRow;
  db_settlements : gmap row_key SettlementRow;
  db_consumptions : gmap row_key ConsumptionRow;
  db_summaries : gmap shard_key SummaryRow;
  db_outbox : gmap ready_key ReadyEvent
}.

Definition with_chunks (db : Database) (chunks : gmap row_key ChunkRow) : Database :=
  mkDatabase (db_runs db) chunks (db_executions db) (db_attempts db) (db_aggregates db)
    (db_evidence db) (db_admissions db) (db_snapshots db) (db_settlements db) (db_consumptions db) (db_summaries db) (db_outbox db).
Definition with_executions (db : Database) (executions : gmap row_key ExecutionRow) : Database :=
  mkDatabase (db_runs db) (db_chunks db) executions (db_attempts db) (db_aggregates db)
    (db_evidence db) (db_admissions db) (db_snapshots db) (db_settlements db) (db_consumptions db) (db_summaries db) (db_outbox db).
Definition with_attempts (db : Database) (attempts : gmap row_key AttemptRow) : Database :=
  mkDatabase (db_runs db) (db_chunks db) (db_executions db) attempts (db_aggregates db)
    (db_evidence db) (db_admissions db) (db_snapshots db) (db_settlements db) (db_consumptions db) (db_summaries db) (db_outbox db).
Definition with_aggregates (db : Database) (aggregates : gmap row_key AggregateRow) : Database :=
  mkDatabase (db_runs db) (db_chunks db) (db_executions db) (db_attempts db) aggregates
    (db_evidence db) (db_admissions db) (db_snapshots db) (db_settlements db) (db_consumptions db) (db_summaries db) (db_outbox db).
Definition with_evidence (db : Database) (evidence : Evidence) : Database :=
  mkDatabase (db_runs db) (db_chunks db) (db_executions db) (db_attempts db) (db_aggregates db)
    evidence (db_admissions db) (db_snapshots db) (db_settlements db) (db_consumptions db) (db_summaries db) (db_outbox db).
Definition with_admissions (db : Database) (admissions : gmap shard_key AdmissionRow) : Database :=
  mkDatabase (db_runs db) (db_chunks db) (db_executions db) (db_attempts db) (db_aggregates db)
    (db_evidence db) admissions (db_snapshots db) (db_settlements db) (db_consumptions db) (db_summaries db) (db_outbox db).
Definition with_snapshots (db : Database) (snapshots : gmap shard_key SnapshotRow) : Database :=
  mkDatabase (db_runs db) (db_chunks db) (db_executions db) (db_attempts db) (db_aggregates db)
    (db_evidence db) (db_admissions db) snapshots (db_settlements db) (db_consumptions db) (db_summaries db) (db_outbox db).
Definition with_settlement (db : Database) (settlements : gmap row_key SettlementRow)
    (consumptions : gmap row_key ConsumptionRow) : Database :=
  mkDatabase (db_runs db) (db_chunks db) (db_executions db) (db_attempts db) (db_aggregates db)
    (db_evidence db) (db_admissions db) (db_snapshots db) settlements consumptions (db_summaries db)
    (db_outbox db).
Definition with_summaries (db : Database) (summaries : gmap shard_key SummaryRow) : Database :=
  mkDatabase (db_runs db) (db_chunks db) (db_executions db) (db_attempts db) (db_aggregates db)
    (db_evidence db) (db_admissions db) (db_snapshots db) (db_settlements db) (db_consumptions db) summaries (db_outbox db).
Definition with_outbox (db : Database) (outbox : gmap ready_key ReadyEvent) : Database :=
  mkDatabase (db_runs db) (db_chunks db) (db_executions db) (db_attempts db) (db_aggregates db)
    (db_evidence db) (db_admissions db) (db_snapshots db) (db_settlements db) (db_consumptions db) (db_summaries db) outbox.

(** ** Statements *)

Section statements.
Context {K : Type} `{Countable K} {R : Type}.

(** [UPDATE t SET f WHERE p]. *)
Definition update_where (p : K -> R -> bool) (f : K -> R -> R) (t : gmap K R) : gmap K R :=
  map_imap (fun k r => Some (if p k r then f k r else r)) t.

(** The rows a statement selects, and their number. *)
Definition rows_where (p : K -> R -> bool) (t : gmap K R) : gmap K R :=
  filter (fun kr => p kr.1 kr.2 = true) t.
Definition count_where (p : K -> R -> bool) (t : gmap K R) : Z := Z.of_nat (size (rows_where p t)).

(** [EXISTS (SELECT 1 FROM t WHERE p)]. *)
Definition exists_where (p : K -> R -> bool) (t : gmap K R) : bool :=
  existsb (fun kr => p kr.1 kr.2) (map_to_list t).

(** [INSERT ... ON CONFLICT DO NOTHING]. *)
Definition insert_new (k : K) (r : R) (t : gmap K R) : gmap K R :=
  match t !! k with Some _ => t | None => <[k := r]> t end.

Implicit Types (t : gmap K R) (p : K -> R -> bool) (f : K -> R -> R).

Lemma lookup_update_where p f t k :
  update_where p f t !! k = (fun r => if p k r then f k r else r) <$> t !! k.
Proof. unfold update_where. rewrite map_lookup_imap. by destruct (t !! k). Qed.

(** A row after an update comes from the row with its key before it. *)
Lemma update_where_Some p f t k r :
  update_where p f t !! k = Some r <->
  exists r0, t !! k = Some r0 /\ r = (if p k r0 then f k r0 else r0).
Proof.
  rewrite lookup_update_where. destruct (t !! k) as [r0|]; simpl; naive_solver.
Qed.

Lemma update_where_id p f t :
  (forall k r, t !! k = Some r -> p k r = false) -> update_where p f t = t.
Proof.
  intros Hp. apply map_eq. intros k. rewrite lookup_update_where.
  destruct (t !! k) as [r|] eqn:E; simpl; [by rewrite (Hp k r E)|done].
Qed.

Lemma lookup_rows_where p t k r :
  rows_where p t !! k = Some r <-> t !! k = Some r /\ p k r = true.
Proof. unfold rows_where. by rewrite map_lookup_filter_Some. Qed.

Lemma count_where_nonneg p t : 0 <= count_where p t.
Proof. unfold count_where. lia. Qed.

Lemma count_where_empty p t :
  (forall k r, t !! k = Some r -> p k r = false) -> count_where p t = 0.
Proof.
  intros Hp. unfold count_where. rewrite (proj2 (map_size_empty_iff _)); [done|].
  apply map_eq. intros k. rewrite lookup_empty. apply eq_None_not_Some. intros [r Hr].
  apply lookup_rows_where in Hr as [Hr Hp']. by rewrite (Hp k r Hr) in Hp'.
Qed.

Lemma exists_where_spec p t :
  exists_where p t = true <-> exists k r, t !! k = Some r /\ p k r = true.
Proof.
  unfold exists_where. rewrite existsb_exists_elem. split.
  - intros ([k r] & Hin & Hp). apply elem_of_map_to_list in Hin. eauto.
  - intros (k & r & Hk & Hp). exists (k, r). by rewrite elem_of_map_to_list.
Qed.

Lemma insert_new_Some k r t k' r' :
  insert_new k r t !! k' = Some r' ->
  t !! k' = Some r' \/ (t !! k' = None /\ k' = k /\ r' = r).
Proof.
  unfold insert_new. destruct (t !! k) eqn:E; [by left|].
  intros Hl. apply lookup_insert_Some in Hl as [[<- <-]|[_ Hl]]; auto.
Qed.

Lemma insert_new_mono k r t k' r' : t !! k' = Some r' -> insert_new k r t !! k' = Some r'.
Proof.
  unfold insert_new. intros Hl. destruct (t !! k) eqn:E; [done|].
  by rewrite lookup_insert_ne by congruence.
Qed.

Lemma insert_new_has k r t : exists r', insert_new k r t !! k = Some r'.
Proof.
  unfold insert_new. destruct (t !! k) eqn:E; [eauto|]. rewrite lookup_insert_eq. eauto.
Qed.

(** Row-wise related tables have the same keys and related rows. *)
Lemma related_fwd (Q : K -> R -> R -> Prop) t t' k r :
  map_Forall2 Q t t' -> t !! k = Some r -> exists r', t' !! k = Some r' /\ Q k r r'.
Proof.
  intros HQ Hk. specialize (HQ k). rewrite Hk in HQ.
  destruct (t' !! k) as [r'|]; inversion HQ; eauto.
Qed.

Lemma related_bwd (Q : K -> R -> R -> Prop) t t' k r' :
  map_Forall2 Q t t' -> t' !! k = Some r' -> exists r, t !! k = Some r /\ Q k r r'.
Proof.
  intros HQ Hk. specialize (HQ k). rewrite Hk in HQ.
  destruct (t !! k) as [r|]; inversion HQ; eauto.
Qed.

Lemma related_update_where (Q : K -> R -> R -> Prop) p f t :
  (forall k r, t !! k = Some r -> Q k r (if p k r then f k r else r)) ->
  map_Forall2 Q t (update_where p f t).
Proof.
  intros HQ k. rewrite lookup_update_where. destruct (t !! k) as [r|] eqn:E; simpl; constructor; auto.
Qed.

Lemma related_insert (Q : K -> R -> R -> Prop) t k r r' :
  (forall k r, Q k r r) -> t !! k = Some r -> Q k r r' -> map_Forall2 Q t (<[k := r']> t).
Proof.
  intros Hrefl Hk HQ i. destruct (decide (i = k)) as [->|Hne].
  - rewrite lookup_insert_eq, Hk. by constructor.
  - rewrite lookup_insert_ne by done. destruct (t !! i); constructor; auto.
Qed.

End statements.

(** Rewriting with the lookup equations of statements. *)
Create HintDb tables.
#[export] Hint Rewrite @lookup_update_where : tables.

(** ** Declared constraints *)

(** [chk_run_chunks_lease_state] and the column checks of [run_chunks]. *)
Definition chunk_ok (c : ChunkRow) : bool :=
  match ch_status c, ch_lease_token c, ch_leased_until c with
  | ChLeased, Some _, Some _ => true
  | ChLeased, _, _ => false
  | _, None, None => true
  | _, _, _ => false
  end
  && (0 <=? ch_ordinal_start c) && (ch_ordinal_start c <? ch_ordinal_end c)
  && (0 <=? ch_recovery_count c).

(** The column checks of [executions], [execution_attempts] and
    [run_chunk_settlements]. *)
Definition execution_ok (e : ExecutionRow) : bool :=
  (0 <=? ex_current_attempt_no e) && (0 <=? ex_retry_count e)
  && (0 <=? ec_expected_evaluator_count (ex_case e)).
Definition attempt_ok (a : AttemptRow) : bool := 0 <? at_attempt_no a.
Definition settlement_ok (s : SettlementRow) : bool :=
  (0 <=? st_ordinal_start s) && (st_ordinal_start s <? st_ordinal_end s)
  && chunk_terminal (st_disposition s).

(** [ck_local_shard_admissions_move_fence], the redirect check, the epoch and
    the claim generation. *)
Definition admission_ok (a : AdmissionRow) : bool :=
  (0 <? ad_write_epoch a)
  && is_none_or (fun alias => negb (String.eqb alias (ad_database_alias a))) (ad_redirect_database_alias a)
  && match ad_state a, ad_move_fence a with
     | Prepared, Some fence => 0 <? mf_claim_generation fence
     | Prepared, None => false
     | _, None => true
     | _, Some _ => false
     end.
