(* ===== verification/ReceiptGates.v ===== *)
(** * Receipt rows and gate statistics

    What a chunk receipt reads: the executions of the chunk, the aggregate each
    of them settled with, and the statistics of the scorecard gates over the
    planned cases, as
    src/vigilo/src/db/workflows/run_shard_summary/receipt.sql computes them.
    The theorem at the end shows that the counters of every gate entry are
    ordered the way [validate_entry] demands of a stored scorecard. *)

From Stdlib Require Import ZArith Lia Ascii.
From stdpp Require Import base strings numbers gmap sorting option list.
From S2P Require Import Prelude Float64 BTree Text Json RunTypes Scorecard ShardTables.

Open Scope Z_scope.

(** ** Lookups in JSON documents *)

(** [value.pointer("/a/b/c")] for object keys. *)
Fixpoint json_pointer (path : list string) (v : Value) : option Value :=
  match path with
  | [] => Some v
  | key :: rest => next ← json_get key v; json_pointer rest next
  end.

(** The gates of [/profile/scorecard/gates]. *)
Definition snapshot_gates (snapshot : Value) : option (list Value) :=
  json_pointer ["profile"; "scorecard"; "gates"] snapshot ≫= as_array.

Definition has_gates (snapshot : Value) : bool :=
  is_some_and (fun gates => negb (bool_decide (gates = []))) (snapshot_gates snapshot).

(** ** Executions and aggregates of a chunk *)

Definition countb {A} (p : A -> bool) (l : list A) : Z := zlen (filter (fun a => p a = true) l).

Definition of_chunk (run_id run_shard chunk_id : Z) (k : row_key) (e : ExecutionRow) : bool :=
  (k.1.1 =? run_id) && (k.1.2 =? run_shard) && (ex_chunk_id e =? chunk_id).

(** The executions of a chunk with their keys. *)
Definition chunk_executions (db : Database) (run_id run_shard chunk_id : Z) : list (row_key * ExecutionRow) :=
  map_to_list (rows_where (of_chunk run_id run_shard chunk_id) (db_executions db)).

(** The aggregate [LEFT JOIN]ed to a terminal execution: the one of its current
    attempt, when that attempt settled. *)
Definition receipt_aggregate (db : Database) (k : row_key) (e : ExecutionRow) : option AggregateRow :=
  if execution_open (ex_status e) then None else
  ag ← db_aggregates db !! k;
  attempt_id ← ex_current_attempt_id e;
  a ← db_attempts db !! (k.1.1, k.1.2, attempt_id);
  if (ag_attempt_id ag =? attempt_id) && (at_execution_id a =? k.2) && attempt_settled (at_status a)
  then Some ag else None.

(** ** PostgreSQL *)

(** What the statements use of PostgreSQL and of serde_json: the exact
    [SUM(score::numeric)] as a double with [MIN] and [MAX]; the length of a
    receipt as JSON text; the text of a JSON value ([#>>] and [->>], none for
    [null]); the casts to [int], [double precision] and [boolean]; a double as
    JSON; the collation of the database; [run_shard::text]. *)
Class ReceiptFunctions := {
  score_stats : list f64 -> f64 * option f64 * option f64;
  receipt_bytes : RunShardSummary -> Z;
  jsonb_text : Value -> option string;
  int_of_text : string -> result Z;
  double_of_text : string -> result f64;
  boolean_of_text : string -> result bool;
  double_value : f64 -> Value;
  text_le : string -> string -> bool;
  shard_text : Z -> string
}.

(** Comparison of doubles: [NaN] equals itself and exceeds every number. *)
Definition pg_fle (a b : f64) : bool := is_nan b || (negb (is_nan a) && fle a b).

(** [string_to_array(text, ',')]. *)
Fixpoint split_comma (s : string) : list string :=
  match s with
  | EmptyString => [""]
  | String c rest =>
      if Ascii.eqb c ","%char then "" :: split_comma rest
      else match split_comma rest with
           | part :: parts => String c part :: parts
           | [] => [String c ""]
           end
  end.
Definition string_to_array (s : string) : list string := if str_is_empty s then [] else split_comma s.

(** [jsonb_array_elements]. *)
Definition jsonb_array_elements (v : Value) : result (list Value) :=
  match v with
  | Array items => Ok items
  | Object _ => Err "cannot extract elements from an object"
  | _ => Err "cannot extract elements from a scalar"
  end.

(** [tags ? tag]: a key of an object, an element of an array or the string. *)
Definition jsonb_exists (v : Value) (tag : string) : bool :=
  match v with
  | Object members => bt_mem tag members
  | Array items => existsb (fun item => bool_decide (as_str item = Some tag)) items
  | Str s => str_eqb s tag
  | _ => false
  end.

(** ** Gates *)

Record GateRow := mkGateRow {
  ga_id : option string;
  ga_dimension : option string;
  ga_binding_id : option string;
  ga_case_group : option string;
  ga_tags_all : Value;
  ga_min_mean_score : option f64;
  ga_score_threshold : option f64;
  ga_min_pass_rate : option f64;
  ga_min_coverage : option f64;
  ga_max_error_rate : option f64;
  ga_max_abstention_rate : option f64
}.

Record GateTarget := mkGateTarget {
  ta_score : option f64;
  ta_errored : bool;
  ta_abstained : bool
}.

(** A row of [scorecard_entries]: the gate and its statistics. *)
Record GateEntry := mkGateEntry {
  gn_gate : GateRow;
  gn_expected_count : Z;
  gn_scored_count : Z;
  gn_passed_count : Z;
  gn_error_count : Z;
  gn_abstained_count : Z;
  gn_score_sum : f64;
  gn_min_score : option f64;
  gn_max_score : option f64
}.

Section gates.
Context {RF : ReceiptFunctions}.

(** [value->>key]. *)
Definition member_text (key : string) (v : Value) : option string := json_get key v ≫= jsonb_text.

Definition member_double (key : string) (v : Value) : result (option f64) :=
  match member_text key v with
  | Some text => x ← double_of_text text; Ok (Some x)
  | None => Ok None
  end.

Definition gate_row (gate : Value) : result GateRow :=
  min_mean_score ← member_double "min_mean_score" gate;
  score_threshold ← member_double "score_threshold" gate;
  min_pass_rate ← member_double "min_pass_rate" gate;
  min_coverage ← member_double "min_coverage" gate;
  max_error_rate ← member_double "max_error_rate" gate;
  max_abstention_rate ← member_double "max_abstention_rate" gate;
  Ok (mkGateRow (member_text "id" gate) (member_text "dimension" gate) (member_text "binding_id" gate)
        (member_text "case_group" gate) (default (Array []) (json_get "tags_all" gate))
        min_mean_score score_threshold min_pass_rate min_coverage max_error_rate max_abstention_rate).

(** [scorecard_gates]: none while the chunk is open. *)
Definition scorecard_gates (config_snapshot : Value) (open_chunk : bool) : result (list GateRow) :=
  if open_chunk then Ok [] else
  gates ← jsonb_array_elements (default (Array []) (json_pointer ["profile"; "scorecard"; "gates"] config_snapshot));
  mapM gate_row gates.

(** The join condition between a gate and a planned case. *)
Definition gate_selects (gate : GateRow) (e : ExecutionRow) : result bool :=
  tags ← jsonb_array_elements (ga_tags_all gate);
  Ok (is_none_or (fun group => bool_decide (group ∈ string_to_array (ec_profile_group_id (ex_case e))))
        (ga_case_group gate)
      && forallb (fun tag => is_none_or (jsonb_exists (ec_tags (ex_case e))) (jsonb_text tag)) tags).

(** The required bindings of the gate's dimension in the manifest of a case. *)
Definition manifest_binding (gate : GateRow) (manifest : Value) : result (option (option string)) :=
  required ← match member_text "required" manifest with
             | Some text => boolean_of_text text
             | None => Ok true
             end;
  Ok (if required && opt_is_some (ga_dimension gate)
         && bool_decide (member_text "dimension" manifest = ga_dimension gate)
         && is_none_or (fun id => bool_decide (member_text "id" manifest = Some id)) (ga_binding_id gate)
      then Some (member_text "id" manifest) else None).

Definition gate_bindings (gate : GateRow) (e : ExecutionRow) : result (list (option string)) :=
  manifests ← jsonb_array_elements (ec_evaluator_manifest (ex_case e));
  bindings ← mapM (manifest_binding gate) manifests;
  Ok (omap id bindings).

(** The evaluator results of the current attempt for those bindings. *)
Definition target_results (db : Database) (k : row_key) (e : ExecutionRow) (bindings : list (option string))
    : list EvaluatorResultInsertRow :=
  if opt_is_none (receipt_aggregate db k e) then [] else
  map snd (map_to_list (rows_where (fun _ r => (er_run_id r =? k.1.1) && (er_run_shard r =? k.1.2)
      && (er_execution_id r =? k.2) && bool_decide (ex_current_attempt_id e = Some (er_attempt_id r))
      && bool_decide (Some (er_binding_id r) ∈ bindings)) (ev_results (db_evidence db)))).

(** [MAX(er.normalized_score) FILTER (WHERE er.binding_id = gate.binding_id)]. *)
Definition binding_score (binding : string) (results : list EvaluatorResultInsertRow) : option f64 :=
  (score_stats (omap er_normalized_score (filter (fun r => er_binding_id r = binding) results))).2.

(** One planned case under one gate: no row when the gate does not select the
    case or no required binding measures its dimension. *)
Definition gate_target (db : Database) (gate : GateRow) (ke : row_key * ExecutionRow) : result (option GateTarget) :=
  let '(k, e) := ke in
  selected ← gate_selects gate e;
  if negb selected then Ok None else
  bindings ← gate_bindings gate e;
  if bool_decide (bindings = []) then Ok None else
  let results := target_results db k e bindings in
  score ← match ga_binding_id gate with
          | None =>
              match receipt_aggregate db k e, ga_dimension gate with
              | Some ag, Some dimension => member_double dimension (ag_dimension_scores ag)
              | _, _ => Ok None
              end
          | Some binding => Ok (binding_score binding results)
          end;
  Ok (Some (mkGateTarget score
              (existsb (fun r => str_eqb (er_outcome r) "error") results)
              (existsb (fun r => str_eqb (er_outcome r) "abstained") results))).

Definition gate_entry (db : Database) (planned : list (row_key * ExecutionRow)) (gate : GateRow) : result GateEntry :=
  targets ← mapM (gate_target db gate) planned;
  let targets := omap id targets in
  let scores := omap ta_score targets in
  let '(score_sum, min_score, max_score) := score_stats scores in
  Ok (mkGateEntry gate (zlen targets) (zlen scores)
        (countb (fun t => is_some_and (fun score =>
                   is_some_and (fun threshold => pg_fle threshold score) (ga_score_threshold gate)) (ta_score t)) targets)
        (countb ta_errored targets) (countb ta_abstained targets) score_sum min_score max_score).

(** [to_jsonb(entry)]. *)
Definition opt_text (o : option string) : Value := match o with Some s => Str s | None => Null end.
Definition opt_double (o : option f64) : Value := match o with Some x => double_value x | None => Null end.
Definition entry_value (n : GateEntry) : Value :=
  let g := gn_gate n in
  Object (bt_collect
    [("id", opt_text (ga_id g)); ("dimension", opt_text (ga_dimension g)); ("binding_id", opt_text (ga_binding_id g));
     ("case_group", opt_text (ga_case_group g)); ("tags_all", ga_tags_all g);
     ("min_mean_score", opt_double (ga_min_mean_score g)); ("score_threshold", opt_double (ga_score_threshold g));
     ("min_pass_rate", opt_double (ga_min_pass_rate g)); ("min_coverage", opt_double (ga_min_coverage g));
     ("max_error_rate", opt_double (ga_max_error_rate g));
     ("max_abstention_rate", opt_double (ga_max_abstention_rate g));
     ("expected_count", Num (PosInt (gn_expected_count n))); ("scored_count", Num (PosInt (gn_scored_count n)));
     ("passed_count", Num (PosInt (gn_passed_count n))); ("error_count", Num (PosInt (gn_error_count n)));
     ("abstained_count", Num (PosInt (gn_abstained_count n))); ("score_sum", double_value (gn_score_sum n));
     ("min_score", opt_double (gn_min_score n)); ("max_score", opt_double (gn_max_score n))]).

(** [ORDER BY entry.id]. *)
Definition entry_le (a b : GateEntry) : Prop :=
  match ga_id (gn_gate a), ga_id (gn_gate b) with
  | Some x, Some y => text_le x y = true
  | _, None => True
  | None, Some _ => False
  end.
#[global] Instance entry_le_dec : RelDecision entry_le.
Proof. intros a b. unfold entry_le. destruct (ga_id (gn_gate a)), (ga_id (gn_gate b)); apply _. Defined.

(** [scorecard].  A validated profile has distinct gate identifiers, so that
    grouping by the columns of a gate is grouping by the gate; an execution is
    the only one of its case, so that the planned case joins its own row. *)
Definition gate_scorecard (db : Database) (run_id run_shard chunk_id : Z) (snapshot : SnapshotRow) (open_chunk : bool)
    : result Value :=
  let config := rc_config_snapshot (sn_context snapshot) in
  let planned := if has_gates config then chunk_executions db run_id run_shard chunk_id else [] in
  gates ← scorecard_gates config open_chunk;
  entries ← mapM (gate_entry db planned) gates;
  Ok (Object (bt_collect
        [("version", Num (PosInt 1)); ("run_shard", Num (PosInt run_shard));
         ("policy_hash", Str (rc_aggregation_policy_hash (sn_context snapshot)));
         ("entries", Array (map entry_value (merge_sort entry_le entries)))])).

(** ** What an entry counts *)

Lemma countb_le {A} (p q : A -> bool) l : (forall a, a ∈ l -> p a = true -> q a = true) -> countb p l <= countb q l.
Proof.
  intros H. unfold countb, zlen. induction l as [|a l IH]; [done|]. rewrite !filter_cons.
  assert (IH' := IH (fun b Hb => H b (list_elem_of_further _ _ _ Hb))).
  specialize (H a (list_elem_of_here _ _)). repeat case_decide; simpl; try lia.
Qed.

Lemma countb_length {A} (p : A -> bool) l : 0 <= countb p l <= zlen l.
Proof. unfold countb, zlen. pose proof (length_filter (fun a => p a = true) l). lia. Qed.

Lemma zlen_omap_count {A B} (f : A -> option B) l : zlen (omap f l) = countb (fun a => opt_is_some (f a)) l.
Proof.
  unfold countb, zlen. induction l as [|a l IH]; [done|]. rewrite filter_cons. simpl.
  destruct (f a); simpl; [|exact IH]. rewrite !Nat2Z.inj_succ. by f_equal.
Qed.

(** The execution of a planned case has an accepted aggregate. *)
Definition resolved (db : Database) (ke : row_key * ExecutionRow) : bool := opt_is_some (receipt_aggregate db ke.1 ke.2).

(** A target of an unresolved execution has no score, error or abstention. *)
Lemma unresolved_target db gate ke t :
  (score_stats []).2 = None -> gate_target db gate ke = Ok (Some t) -> resolved db ke = false ->
  ta_score t = None /\ ta_errored t = false /\ ta_abstained t = false.
Proof.
  intros Hnil H Hr. destruct ke as [k e]. unfold gate_target in H. inv_ok.
  destruct (negb _); [done|]. inv_ok. case_bool_decide; [done|]. inv_ok.
  unfold target_results in *. unfold resolved in Hr. simpl in *.
  destruct (receipt_aggregate db k e); [done|]. simpl in *. split_and!; [|done..].
  destruct (ga_binding_id gate); inv_ok; [|done]. unfold binding_score. done.
Qed.

(** Targets come from planned cases. *)
Lemma targets_count db gate (p : GateTarget -> bool) (q : row_key * ExecutionRow -> bool) : forall planned ts,
  mapM (gate_target db gate) planned = Ok ts ->
  (forall ke t, ke ∈ planned -> gate_target db gate ke = Ok (Some t) -> p t = true -> q ke = true) ->
  countb p (omap id ts) <= countb q planned.
Proof.
  unfold countb, zlen. induction planned as [|ke planned IH]; intros ts H Hpq; simpl in H; inv_ok; [done|].
  assert (IH' := IH _ H1 (fun x t Hx => Hpq x t (list_elem_of_further _ _ _ Hx))).
  rewrite (filter_cons _ ke). destruct a as [t|].
  - change (omap id (Some t :: a0)) with (t :: omap id a0). rewrite filter_cons.
    specialize (Hpq ke t (list_elem_of_here _ _) H0). repeat case_decide; cbn [length]; tauto || lia.
  - change (omap id (None :: a0)) with (omap id a0). case_decide; cbn [length]; lia.
Qed.

Lemma gate_entry_counts db planned gate n :
  (score_stats []).2 = None -> gate_entry db planned gate = Ok n ->
  0 <= gn_passed_count n <= gn_scored_count n /\ gn_scored_count n <= countb (resolved db) planned /\
  gn_scored_count n <= gn_expected_count n <= zlen planned /\
  0 <= gn_error_count n <= gn_expected_count n /\ gn_error_count n <= countb (resolved db) planned /\
  0 <= gn_abstained_count n <= gn_expected_count n /\ gn_abstained_count n <= countb (resolved db) planned.
Proof.
  intros Hnil H. unfold gate_entry in H. apply bind_Ok in H as (ts & Hts & H).
  destruct (score_stats (omap ta_score _)) as [[sum mn] mx]. injection H as <-. simpl.
  assert (Hres : forall p : GateTarget -> bool,
    (forall t, ta_score t = None -> ta_errored t = false -> ta_abstained t = false -> p t = false) ->
    countb p (omap id ts) <= countb (resolved db) planned).
  { intros p Hp. eapply targets_count; [exact Hts|]. intros ke t _ Ht Hpt.
    destruct (resolved db ke) eqn:Hr; [done|]. destruct (unresolved_target _ _ _ _ Hnil Ht Hr) as (H1 & H2 & H3).
    by rewrite Hp in Hpt. }
  rewrite zlen_omap_count. pose proof (countb_length ta_errored (omap id ts)).
  pose proof (countb_length ta_abstained (omap id ts)).
  pose proof (countb_length (fun t => opt_is_some (ta_score t)) (omap id ts)).
  assert (Hall : zlen (omap id ts) <= zlen planned).
  { pose proof (targets_count db gate (fun _ => true) (fun _ => true) planned ts Hts (fun _ _ _ _ _ => eq_refl)) as Hc.
    pose proof (countb_length (fun _ : row_key * ExecutionRow => true) planned).
    enough (zlen (omap id ts) = countb (fun _ => true) (omap id ts)) by lia.
    clear. unfold countb, zlen. induction (omap id ts); [done|]. rewrite filter_cons. simpl. lia. }
  split_and!; try lia.
  - apply countb_length.
  - apply countb_le. intros t _. by destruct (ta_score t).
  - apply Hres. intros t H3 _ _. simpl. by rewrite H3.
  - by apply Hres.
  - by apply Hres.
Qed.

End gates.
