(* ===== verification/LocalAdmission.v ===== *)
(** * Execution-local shard write admission

    Models src/vigilo/src/db/workflows/local_shard_admission.rs with its
    queries, models/shard_placement.rs, and the admission transactions of
    [DatabaseRouter] in context/database.rs.  An execution database keeps one
    admission row per run shard: who may write, under which epoch, in which
    lifecycle state.  The theorems show when a write is admitted, that authority
    only moves forward, and that a stale epoch stays refused. *)

From Stdlib Require Import ZArith Lia.
From stdpp Require Import base strings numbers gmap sorting option list.
From S2P Require Import Prelude Json RunTypes ShardTables.

Open Scope Z_scope.

(** ** States *)

Definition admission_as_str (s : LocalShardAdmissionState) : string :=
  match s with
  | Open => "open" | Draining => "draining" | Prepared => "prepared" | Closed => "closed"
  end.

Definition admission_try_from (value : string) : result LocalShardAdmissionState :=
  if String.eqb value "open" then Ok Open
  else if String.eqb value "draining" then Ok Draining
  else if String.eqb value "prepared" then Ok Prepared
  else if String.eqb value "closed" then Ok Closed
  else Err ("unsupported local shard admission state " +:+ value).

Definition allows_new_work (s : LocalShardAdmissionState) : bool := bool_decide (s = Open).
Definition allows_settlement (s : LocalShardAdmissionState) : bool :=
  match s with Open | Draining => true | Prepared | Closed => false end.

Record LocalShardAdmissionDraft := mkLocalShardAdmissionDraft {
  dr_run_id : Uuid;
  dr_run_shard : Z;
  dr_database_alias : string;
  dr_write_epoch : Z;
  dr_state : LocalShardAdmissionState;
  dr_redirect_database_alias : option string;
  dr_move_fence : option LocalShardMoveFence
}.

Record LocalShardRouteHint := mkLocalShardRouteHint {
  hi_run_id : Uuid;
  hi_run_shard : Z;
  hi_database_alias : string;
  hi_write_epoch : Z
}.

Inductive LocalShardWriteKind := NewWork | Settlement.

#[global] Instance LocalShardWriteKind_eq_dec : EqDecision LocalShardWriteKind.
Proof. solve_decision. Defined.

(** Typed admission errors; [Other] is any other failure of the call. *)
Inductive LocalShardAdmissionError :=
| Missing (run_id : Uuid) (run_shard : Z) (database_alias : string)
| StaleWriteEpoch (run_id : Uuid) (run_shard : Z) (database_alias : string)
    (expected_write_epoch actual_write_epoch : Z) (actual_state : string)
    (redirect_database_alias : option string)
| RejectedState (run_id : Uuid) (run_shard : Z) (database_alias : string)
    (actual_state write_kind : string) (redirect_database_alias : option string)
| StaleMoveClaim (run_id : Uuid) (run_shard : Z) (database_alias : string)
    (expected_fence : LocalShardMoveFence) (actual_authority : option LocalShardMoveFence)
| Other (message : string).

Definition select_local_shard_admission (db : Database) (run_id run_shard : Z) : option AdmissionRow :=
  db_admissions db !! (run_id, run_shard).

Definition validate_loaded_local_shard_admission (admission : AdmissionRow)
    (hint : LocalShardRouteHint) (write_kind : LocalShardWriteKind)
    : LocalShardAdmissionError + AdmissionRow :=
  let state := ad_state admission in
  if negb (String.eqb (ad_database_alias admission) (hi_database_alias hint))
     || negb (ad_write_epoch admission =? hi_write_epoch hint)
  then inl (StaleWriteEpoch (hi_run_id hint) (hi_run_shard hint) (ad_database_alias admission)
              (hi_write_epoch hint) (ad_write_epoch admission) (admission_as_str state)
              (ad_redirect_database_alias admission))
  else
    let allowed := match write_kind with
                   | NewWork => allows_new_work state
                   | Settlement => allows_settlement state
                   end in
    if negb allowed
    then inl (RejectedState (hi_run_id hint) (hi_run_shard hint) (ad_database_alias admission)
                (admission_as_str state)
                (match write_kind with NewWork => "new work" | Settlement => "settlement" end)
                (ad_redirect_database_alias admission))
    else inr admission.

Definition validate_local_shard_admission (db : Database) (hint : LocalShardRouteHint)
    (write_kind : LocalShardWriteKind) : LocalShardAdmissionError + AdmissionRow :=
  match select_local_shard_admission db (hi_run_id hint) (hi_run_shard hint) with
  | None => inl (Missing (hi_run_id hint) (hi_run_shard hint) (hi_database_alias hint))
  | Some admission => validate_loaded_local_shard_admission admission hint write_kind
  end.

Definition validate_local_shard_move_fence (db : Database) (run_id run_shard : Z)
    (database_alias : string) (write_epoch : Z) (expected : LocalShardMoveFence)
    : LocalShardAdmissionError + AdmissionRow :=
  match select_local_shard_admission db run_id run_shard with
  | None => inl (Missing run_id run_shard database_alias)
  | Some admission =>
      let actual := ad_move_fence admission in
      if negb (String.eqb (ad_database_alias admission) database_alias)
         || negb (ad_write_epoch admission =? write_epoch)
         || negb (bool_decide (ad_state admission = Prepared))
         || negb (bool_decide (actual = Some expected))
      then inl (StaleMoveClaim run_id run_shard database_alias expected actual)
      else inr admission
  end.

(** ** Writes *)

Definition draft_row (draft : LocalShardAdmissionDraft) (now : Z) : AdmissionRow :=
  mkAdmissionRow (dr_database_alias draft) (dr_write_epoch draft) (dr_state draft)
    (dr_redirect_database_alias draft) (dr_move_fence draft) now.

(** [INSERT ... ON CONFLICT (run_id, run_shard) DO UPDATE SET ... WHERE guard
    RETURNING]: the proposed row is checked against the table's constraints,
    then inserted, or replaces the existing row when the guard holds of it;
    [None] is no returned row. *)
Definition admission_upsert (db : Database) (key : shard_key) (row : AdmissionRow)
    (guard : AdmissionRow -> bool) : result (option Database) :=
  _ ← ensure (admission_ok row) "new row for relation local_shard_admissions violates check constraint";
  match db_admissions db !! key with
  | Some existing =>
      Ok (if guard existing then Some (with_admissions db (<[key := row]> (db_admissions db))) else None)
  | None => Ok (Some (with_admissions db (<[key := row]> (db_admissions db))))
  end.

Definition upsert_guard (row existing : AdmissionRow) : bool :=
  (ad_write_epoch existing <? ad_write_epoch row)
  || ((ad_write_epoch existing =? ad_write_epoch row)
      && String.eqb (ad_database_alias existing) (ad_database_alias row)
      && bool_decide (ad_state existing = ad_state row)).

Definition not_prepared (draft : LocalShardAdmissionDraft) : result unit :=
  ensure (negb (bool_decide (dr_state draft = Prepared) || opt_is_some (dr_move_fence draft)))
    "prepared shard admission must use the target move fence installer".

Definition upsert_local_shard_admission (db : Database) (now : Z)
    (draft : LocalShardAdmissionDraft) : result (Database * AdmissionRow) :=
  _ ← not_prepared draft;
  let row := draft_row draft now in
  written ← admission_upsert db (dr_run_id draft, dr_run_shard draft) row (upsert_guard row);
  match written with
  | Some db' => Ok (db', row)
  | None => Err "no rows returned by a query that expected to return at least one row"
  end.

Definition transition_guard (row : AdmissionRow) (allowed : list LocalShardAdmissionState)
    (existing : AdmissionRow) : bool :=
  (ad_write_epoch existing <? ad_write_epoch row)
  || ((ad_write_epoch existing =? ad_write_epoch row)
      && bool_decide (ad_state existing ∈ allowed)).

Definition transition_local_shard_admission (db : Database) (now : Z)
    (draft : LocalShardAdmissionDraft) (allowed_same_epoch_states : list LocalShardAdmissionState)
    : result (Database * AdmissionRow) :=
  _ ← not_prepared draft;
  let row := draft_row draft now in
  written ← admission_upsert db (dr_run_id draft, dr_run_shard draft) row
              (transition_guard row allowed_same_epoch_states);
  match written with
  | Some db' => Ok (db', row)
  | None => Err "local shard admission rejected transition"
  end.

Definition install_guard (row : AdmissionRow) (fence : LocalShardMoveFence)
    (existing : AdmissionRow) : bool :=
  (ad_write_epoch existing <? ad_write_epoch row)
  || ((ad_write_epoch existing =? ad_write_epoch row)
      && bool_decide (ad_state existing = Prepared)
      && match ad_move_fence existing with
         | Some held =>
             (mf_move_id held =? mf_move_id fence)
             && ((mf_claim_generation held <? mf_claim_generation fence)
                 || ((mf_claim_generation held =? mf_claim_generation fence)
                     && (mf_claim_token held =? mf_claim_token fence)))
         | None => false
         end).

Definition install_local_shard_move_fence (db : Database) (now : Z)
    (draft : LocalShardAdmissionDraft) : result (Database * AdmissionRow) :=
  fence ← ok_or (dr_move_fence draft) "prepared shard move admission requires a move fence";
  _ ← ensure (bool_decide (dr_state draft = Prepared))
        "target move fence can only install prepared admission";
  _ ← ensure (0 <? mf_claim_generation fence) "target move fence generation must be positive";
  let row := draft_row draft now in
  written ← admission_upsert db (dr_run_id draft, dr_run_shard draft) row (install_guard row fence);
  match written with
  | Some db' => Ok (db', row)
  | None => Err "local shard admission rejected stale move"
  end.

(** The tombstone of [cancel_unadmitted_plan]: a closed row of epoch one.  The
    update leaves the fence columns as they are, so a prepared row of epoch one
    would break the table's fence constraint. *)
Definition tombstone_admission (db : Database) (now : Z) (run_id run_shard : Z)
    (database_alias : string) : result Database :=
  let key := (run_id, run_shard) in
  match db_admissions db !! key with
  | None => Ok (with_admissions db (<[key := mkAdmissionRow database_alias 1 Closed None None now]> (db_admissions db)))
  | Some existing =>
      if ad_write_epoch existing =? 1
      then
        let row := mkAdmissionRow (ad_database_alias existing) 1 Closed
                     (ad_redirect_database_alias existing) (ad_move_fence existing) now in
        _ ← ensure (admission_ok row) "new row for relation local_shard_admissions violates check constraint";
        Ok (with_admissions db (<[key := row]> (db_admissions db)))
      else Ok db
  end.

(** ** Admission transactions of the router *)

Record ShardPlacement := mkShardPlacement {
  sp_run_id : Uuid;
  sp_run_shard : Z;
  sp_database_alias : string;
  sp_status : string;
  sp_move_target_database_alias : option string;
  sp_route_version : Z;
  sp_write_epoch : Z
}.

Definition is_dispatchable (p : ShardPlacement) : bool :=
  String.eqb (sp_status p) "active" || String.eqb (sp_status p) "copying".

Definition same_route_fence (p current : ShardPlacement) : bool :=
  String.eqb (sp_database_alias p) (sp_database_alias current)
  && String.eqb (sp_status p) (sp_status current)
  && (sp_route_version p =? sp_route_version current).

Definition placement_hint (p : ShardPlacement) : LocalShardRouteHint :=
  mkLocalShardRouteHint (sp_run_id p) (sp_run_shard p) (sp_database_alias p) (sp_write_epoch p).

(** The repair of a missing row, with the error kept when it is not allowed. *)
Definition repair_admission (db : Database) (now : Z) (p : ShardPlacement)
    (state : LocalShardAdmissionState) (redirect : option string)
    : LocalShardAdmissionError + Database :=
  match upsert_local_shard_admission db now
          (mkLocalShardAdmissionDraft (sp_run_id p) (sp_run_shard p) (sp_database_alias p)
             (sp_write_epoch p) state redirect None) with
  | Ok (db', _) => inr db'
  | Err e => inl (Other e)
  end.

(** [begin_execution_admission]: [current] is the placement the control
    database holds when a missing local row is repaired. *)
Definition begin_execution_admission (db : Database) (now : Z) (placement : ShardPlacement)
    (current : LocalShardAdmissionError + ShardPlacement) : LocalShardAdmissionError + Database :=
  match validate_local_shard_admission db (placement_hint placement) NewWork with
  | inr _ => inr db
  | inl (Missing _ _ _ as error) =>
      match current with
      | inl e => inl e
      | inr cur =>
          if negb (same_route_fence placement cur) || negb (is_dispatchable cur) then inl error
          else repair_admission db now placement Open None
      end
  | inl error => inl error
  end.

Definition begin_execution_write_admission (db : Database) (hint : LocalShardRouteHint)
    : LocalShardAdmissionError + Database :=
  match validate_local_shard_admission db hint NewWork with
  | inr _ => inr db
  | inl error => inl error
  end.

(** One turn of the loop of [begin_execution_cleanup_admission]. *)
Definition cleanup_route (now : Z) (db : Database) (p : ShardPlacement)
    : LocalShardAdmissionError + Database :=
  if String.eqb (sp_status p) "moving" then inl (Other "shard placement is not dispatchable")
  else
    match validate_local_shard_admission db (placement_hint p) Settlement with
    | inr _ => inr db
    | inl (Missing _ _ _) =>
        repair_admission db now p
          (if String.eqb (sp_status p) "draining" then Draining else Open)
          (sp_move_target_database_alias p)
    | inl error => inl error
    end.

Fixpoint cleanup_routes (now : Z) (db : Database) (routes : list ShardPlacement)
    : LocalShardAdmissionError + Database :=
  match routes with
  | [] => inr db
  | p :: rest =>
      match cleanup_route now db p with
      | inr db' => cleanup_routes now db' rest
      | inl error => inl error
      end
  end.

Definition by_run_shard (a b : ShardPlacement) : Prop := sp_run_shard a <= sp_run_shard b.
#[global] Instance by_run_shard_dec : RelDecision by_run_shard.
Proof. intros a b. unfold by_run_shard. apply _. Defined.

Definition begin_execution_cleanup_admission (db : Database) (now : Z) (routes : list ShardPlacement)
    : LocalShardAdmissionError + Database :=
  match routes with
  | [] => inl (Other "execution cleanup admission requires at least one route")
  | first :: _ =>
      if existsb (fun p => negb (sp_run_id p =? sp_run_id first)
                           || negb (String.eqb (sp_database_alias p) (sp_database_alias first))) routes
      then inl (Other "execution cleanup admission routes must share one run and placement")
      else cleanup_routes now db (merge_sort by_run_shard routes)
  end.

(** ** Every write of the table *)

Inductive AdmissionWrite :=
| WUpsert (draft : LocalShardAdmissionDraft)
| WTransition (draft : LocalShardAdmissionDraft) (allowed : list LocalShardAdmissionState)
| WInstall (draft : LocalShardAdmissionDraft)
| WTombstone (run_id run_shard : Z) (database_alias : string).

Definition apply_write (db : Database) (tw : Z * AdmissionWrite) : result Database :=
  let '(now, w) := tw in
  match w with
  | WUpsert draft => fst <$> upsert_local_shard_admission db now draft
  | WTransition draft allowed => fst <$> transition_local_shard_admission db now draft allowed
  | WInstall draft => fst <$> install_local_shard_move_fence db now draft
  | WTombstone run_id run_shard alias => tombstone_admission db now run_id run_shard alias
  end.

(** [admission_step db db']: at most one admission row was replaced, by a row
    that satisfies the constraints and whose epoch is no smaller. *)
Definition admission_step (db db' : Database) : Prop :=
  db' = db \/
  exists key row, db' = with_admissions db (<[key := row]> (db_admissions db)) /\
    admission_ok row = true /\
    forall old, db_admissions db !! key = Some old -> ad_write_epoch old <= ad_write_epoch row.

(** Authority of [m'] is at least that of [m]: no row disappears and no epoch
    decreases. *)
Definition authority_le (m m' : gmap shard_key AdmissionRow) : Prop :=
  forall key a, m !! key = Some a -> exists a', m' !! key = Some a' /\ ad_write_epoch a <= ad_write_epoch a'.

#[global] Instance authority_le_preorder : PreOrder authority_le.
Proof.
  split.
  - intros m key a Ha. eauto with lia.
  - intros m1 m2 m3 H12 H23 key a Ha. destruct (H12 key a Ha) as (b & Hb & Hab).
    destruct (H23 key b Hb) as (c & Hc & Hbc). exists c. split; [done|lia].
Qed.

Lemma admission_step_authority db db' :
  admission_step db db' -> authority_le (db_admissions db) (db_admissions db').
Proof.
  intros [->|(key & row & -> & _ & Hle)]; [reflexivity|].
  intros k a Ha. simpl. destruct (decide (k = key)) as [->|Hne].
  - rewrite lookup_insert_eq. eauto.
  - rewrite lookup_insert_ne by done. eauto with lia.
Qed.

Lemma admission_step_ok db db' :
  admission_step db db' ->
  map_Forall (fun _ a => admission_ok a = true) (db_admissions db) ->
  map_Forall (fun _ a => admission_ok a = true) (db_admissions db').
Proof.
  intros [->|(key & row & -> & Hok & _)] Hall; [done|].
  simpl. by apply map_Forall_insert_2.
Qed.

(** The upsert writes one row, under its guard. *)
Lemma admission_upsert_step db key row guard db' :
  (forall old, db_admissions db !! key = Some old -> guard old = true ->
     ad_write_epoch old <= ad_write_epoch row) ->
  admission_upsert db key row guard = Ok (Some db') -> admission_step db db'.
Proof.
  intros Hguard H. unfold admission_upsert in H. apply bind_Ok in H as ([] & Hok & H).
  apply ensure_Ok in Hok. right. exists key, row.
  destruct (db_admissions db !! key) as [old|] eqn:E.
  - destruct (guard old) eqn:Hg; inv_ok; [|simplify_eq].
    simplify_eq. split_and!; try done. intros ? [= <-]. by apply Hguard.
  - inv_ok. simplify_eq. split_and!; try done.
Qed.

Lemma upsert_step db now draft db' row :
  upsert_local_shard_admission db now draft = Ok (db', row) -> admission_step db db'.
Proof.
  unfold upsert_local_shard_admission. intros H.
  apply bind_Ok in H as (? & _ & H). apply bind_Ok in H as (w & Hw & H).
  destruct w as [w|]; inv_ok. simplify_eq. eapply admission_upsert_step, Hw.
  intros old _. unfold upsert_guard. lia.
Qed.

Lemma transition_step db now draft allowed db' row :
  transition_local_shard_admission db now draft allowed = Ok (db', row) -> admission_step db db'.
Proof.
  unfold transition_local_shard_admission. intros H.
  apply bind_Ok in H as (? & _ & H). apply bind_Ok in H as (w & Hw & H).
  destruct w as [w|]; inv_ok. simplify_eq. eapply admission_upsert_step, Hw.
  intros old _. unfold transition_guard. lia.
Qed.

Lemma install_step db now draft db' row :
  install_local_shard_move_fence db now draft = Ok (db', row) -> admission_step db db'.
Proof.
  unfold install_local_shard_move_fence. intros H.
  apply bind_Ok in H as (fence & _ & H). apply bind_Ok in H as (? & _ & H).
  apply bind_Ok in H as (? & _ & H). apply bind_Ok in H as (w & Hw & H).
  destruct w as [w|]; inv_ok. simplify_eq. eapply admission_upsert_step, Hw.
  intros old _. unfold install_guard. lia.
Qed.

Lemma tombstone_step db now run_id run_shard alias db' :
  tombstone_admission db now run_id run_shard alias = Ok db' -> admission_step db db'.
Proof.
  unfold tombstone_admission. destruct (db_admissions db !! (run_id, run_shard)) as [old|] eqn:E.
  - destruct (ad_write_epoch old =? 1) eqn:E1; intros H; [|inv_ok; by left].
    apply bind_Ok in H as ([] & Hok & H). apply ensure_Ok in Hok. injection H as <-.
    right. eexists _, _. split_and!; [done|done|]. intros ? [= <-]%(eq_trans (eq_sym E)). simpl. lia.
  - intros [= <-]. right. eexists _, _. split_and!; [done|done|].
    intros ? H. by rewrite E in H.
Qed.

Lemma apply_write_step db tw db' : apply_write db tw = Ok db' -> admission_step db db'.
Proof.
  destruct tw as [now w]. unfold apply_write.
  destruct w as [draft|draft allowed|draft|run_id run_shard alias]; intros H.
  - destruct (upsert_local_shard_admission db now draft) as [[d r]|] eqn:E; [|done].
    injection H as <-. by eapply upsert_step.
  - destruct (transition_local_shard_admission db now draft allowed) as [[d r]|] eqn:E; [|done].
    injection H as <-. by eapply transition_step.
  - destruct (install_local_shard_move_fence db now draft) as [[d r]|] eqn:E; [|done].
    injection H as <-. by eapply install_step.
  - by eapply tombstone_step.
Qed.

Lemma repair_step db now p state redirect db' :
  repair_admission db now p state redirect = inr db' -> admission_step db db'.
Proof.
  unfold repair_admission.
  destruct (upsert_local_shard_admission _ _ _) as [[d r]|e] eqn:E; [|done].
  intros [= <-]. by eapply upsert_step.
Qed.

Lemma begin_admission_step db now placement current db' :
  begin_execution_admission db now placement current = inr db' -> admission_step db db'.
Proof.
  unfold begin_execution_admission.
  destruct (validate_local_shard_admission _ _ _) as [[]|]; try done; [|intros [= <-]; by left].
  destruct current as [|cur]; [done|].
  destruct (negb _ || negb _); [done|]. apply repair_step.
Qed.

Lemma begin_write_admission_step db hint db' :
  begin_execution_write_admission db hint = inr db' -> db' = db.
Proof.
  unfold begin_execution_write_admission. destruct (validate_local_shard_admission _ _ _); [done|].
  by intros [= <-].
Qed.

(** ** Theorems *)

Lemma admission_state_roundtrip s : admission_try_from (admission_as_str s) = Ok s.
Proof. by destruct s. Qed.

(** The row behind an admitted write. *)
Lemma validate_admission_Ok db hint kind a :
  validate_local_shard_admission db hint kind = inr a ->
  db_admissions db !! (hi_run_id hint, hi_run_shard hint) = Some a /\
  ad_write_epoch a = hi_write_epoch hint /\
  (if bool_decide (kind = NewWork) then allows_new_work (ad_state a) else allows_settlement (ad_state a)) = true.
Proof.
  unfold validate_local_shard_admission, select_local_shard_admission, validate_loaded_local_shard_admission.
  destruct (db_admissions db !! _) as [r|]; [|done].
  destruct (negb _ || negb (ad_write_epoch r =? _)) eqn:E; [done|]. apply orb_false_iff in E as [_ E].
  destruct kind; simpl; destruct (ad_state r) eqn:Es; simpl; try done;
    intros [= <-]; rewrite ?Es; split_and!; try done; lia.
Qed.

(** Admission of a write is decided exactly by the local row: it is admitted
    when the row exists, names the hinted database under the hinted epoch and
    its state allows the kind of write (open for new work, open or draining for
    settlement); a missing row, a stale alias or epoch and a refusing state are
    reported as three different errors, in that order of precedence. *)
Theorem admission_decided (db : Database) (hint : LocalShardRouteHint) (kind : LocalShardWriteKind) :
  match db_admissions db !! (hi_run_id hint, hi_run_shard hint) with
  | None => validate_local_shard_admission db hint kind
            = inl (Missing (hi_run_id hint) (hi_run_shard hint) (hi_database_alias hint))
  | Some a =>
      if bool_decide (ad_database_alias a = hi_database_alias hint /\ ad_write_epoch a = hi_write_epoch hint)
      then if bool_decide (ad_state a = Open \/ (kind = Settlement /\ ad_state a = Draining))
           then validate_local_shard_admission db hint kind = inr a
           else exists state k redirect, validate_local_shard_admission db hint kind
                = inl (RejectedState (hi_run_id hint) (hi_run_shard hint) (ad_database_alias a) state k redirect)
                /\ state = admission_as_str (ad_state a)
      else exists state redirect, validate_local_shard_admission db hint kind
           = inl (StaleWriteEpoch (hi_run_id hint) (hi_run_shard hint) (ad_database_alias a)
                    (hi_write_epoch hint) (ad_write_epoch a) state redirect)
  end.
Proof.
  unfold validate_local_shard_admission, select_local_shard_admission.
  destruct (db_admissions db !! _) as [a|]; [|done].
  unfold validate_loaded_local_shard_admission.
  case_bool_decide as Hroute.
  - destruct Hroute as [-> ->]. rewrite String.eqb_refl, Z.eqb_refl. simpl.
    case_bool_decide as Hst; destruct (ad_state a), kind; simpl; naive_solver.
  - destruct (String.eqb_spec (ad_database_alias a) (hi_database_alias hint));
      destruct (Z.eqb_spec (ad_write_epoch a) (hi_write_epoch hint)); simpl; naive_solver.
Qed.

(** Write authority only moves forward: over any sequence of admission
    writes (upserts, lifecycle transitions, fence installations, cancellation
    tombstones) no admission row disappears and no epoch decreases, so a route
    hint whose epoch lies below the current one is refused as stale by every
    later validation, for new work and for settlement, and the table's
    constraints keep holding. *)
Theorem stale_epoch_stays_refused (db db' : Database) (writes : list (Z * AdmissionWrite))
    (hint : LocalShardRouteHint) (kind : LocalShardWriteKind) (a : AdmissionRow) :
  map_Forall (fun _ a => admission_ok a = true) (db_admissions db) ->
  db_admissions db !! (hi_run_id hint, hi_run_shard hint) = Some a ->
  hi_write_epoch hint < ad_write_epoch a ->
  foldM apply_write db writes = Ok db' ->
  authority_le (db_admissions db) (db_admissions db') /\
  map_Forall (fun _ a => admission_ok a = true) (db_admissions db') /\
  exists alias epoch state redirect,
    validate_local_shard_admission db' hint kind
    = inl (StaleWriteEpoch (hi_run_id hint) (hi_run_shard hint) alias (hi_write_epoch hint) epoch state redirect).
Proof.
  intros Hok Ha Hlt H.
  assert (HI : authority_le (db_admissions db) (db_admissions db') /\
    map_Forall (fun _ a => admission_ok a = true) (db_admissions db')).
  { apply (foldM_inv (fun d => authority_le (db_admissions db) (db_admissions d) /\
      map_Forall (fun _ a => admission_ok a = true) (db_admissions d)) apply_write writes db db'); [|by split|done].
    intros d tw d1 _ [Hle Hd] Hw. apply apply_write_step in Hw. split.
    - etransitivity; [exact Hle|]. by apply admission_step_authority.
    - by apply (admission_step_ok d). }
  destruct HI as [Hle Hok']. split_and!; [done|done|].
  destruct (Hle _ _ Ha) as (a' & Ha' & Hle').
  unfold validate_local_shard_admission, select_local_shard_admission. rewrite Ha'.
  unfold validate_loaded_local_shard_admission.
  rewrite (proj2 (Z.eqb_neq (ad_write_epoch a') (hi_write_epoch hint))) by lia.
  rewrite orb_true_r. eauto.
Qed.

(** A shard drained and moved away: the worker of epoch one stays refused after
    the source was closed and reopened under a later epoch. *)
Definition moved_away : Database :=
  mkDatabase ∅ ∅ ∅ ∅ ∅ (mkEvidence ∅ ∅) {[ (7, 3) := mkAdmissionRow "a" 2 Draining (Some "b") None 0 ]} ∅ ∅ ∅ ∅ ∅.
Definition move_writes : list (Z * AdmissionWrite) :=
  [(10, WTransition (mkLocalShardAdmissionDraft 7 3 "a" 2 Closed (Some "b") None) [Draining]);
   (20, WUpsert (mkLocalShardAdmissionDraft 7 3 "a" 3 Open None None))].

Lemma stale_epoch_stays_refused_witness :
  exists db' alias epoch state redirect,
    foldM apply_write moved_away move_writes = Ok db' /\
    validate_local_shard_admission db' (mkLocalShardRouteHint 7 3 "a" 1) Settlement
    = inl (StaleWriteEpoch 7 3 alias 1 epoch state redirect).
Proof.
  destruct (foldM apply_write moved_away move_writes) as [db'|e] eqn:E; [|by vm_compute in E].
  destruct (stale_epoch_stays_refused moved_away db' move_writes (mkLocalShardRouteHint 7 3 "a" 1)
    Settlement (mkAdmissionRow "a" 2 Draining (Some "b") None 0)) as (_ & _ & alias & epoch & state & redirect & H).
  - intros k a Hl. unfold moved_away in Hl. simpl in Hl.
    apply lookup_singleton_Some in Hl as [_ <-]. reflexivity.
  - reflexivity.
  - reflexivity.
  - exact E.
  - by exists db', alias, epoch, state, redirect.
Defined.
