(* ===== verification/ShardRows.v ===== *)
(** * The rows a shard owns

    The shard move workflow (src/vigilo/src/db/workflows/shard_admin.rs) treats
    the ten shard-owned tables alike: it names a table and selects, upserts and
    deletes rows by primary key.  [RowKey] is the primary key of a row within its
    shard together with its table, [row_type] the columns of that row,
    [row_at] and [put_row] the row of a key in a database. *)

From Stdlib Require Import ZArith Lia.
From stdpp Require Import base strings numbers countable gmap sets option list.
From S2P Require Import Prelude RunTypes ShardTables.

Open Scope Z_scope.

(** Keys without [run_id] and [run_shard].  The generated identifier of an
    evaluator result stands for its attempt and binding, as in [Evidence]. *)
Inductive RowKey :=
| KChunk (id : Uuid)
| KSnapshot
| KExecution (id : Uuid)
| KAttempt (id : Uuid)
| KAggregate (execution_id : Uuid)
| KResult (attempt_id : Uuid) (binding_id : string)
| KDiagnostic (attempt_id : Uuid) (binding_id : string) (index : Z)
| KSettlement (chunk_id : Uuid)
| KConsumption (chunk_id : Uuid)
| KSummary.

#[global] Instance RowKey_eq_dec : EqDecision RowKey.
Proof. solve_decision. Defined.

Definition key_code (k : RowKey) : nat * Z * string * Z :=
  match k with
  | KChunk id => (0%nat, id, "", 0)
  | KSnapshot => (1%nat, 0, "", 0)
  | KExecution id => (2%nat, id, "", 0)
  | KAttempt id => (3%nat, id, "", 0)
  | KAggregate id => (4%nat, id, "", 0)
  | KResult id b => (5%nat, id, b, 0)
  | KDiagnostic id b i => (6%nat, id, b, i)
  | KSettlement id => (7%nat, id, "", 0)
  | KConsumption id => (8%nat, id, "", 0)
  | KSummary => (9%nat, 0, "", 0)
  end.

Definition key_decode (c : nat * Z * string * Z) : RowKey :=
  let '(t, id, b, i) := c in
  match t with
  | 0 => KChunk id | 1 => KSnapshot | 2 => KExecution id | 3 => KAttempt id | 4 => KAggregate id
  | 5 => KResult id b | 6 => KDiagnostic id b i | 7 => KSettlement id | 8 => KConsumption id | _ => KSummary
  end%nat.

#[global] Instance RowKey_countable : Countable RowKey.
Proof. apply (inj_countable' key_code key_decode). by intros []. Defined.

(** [SHARD_TABLES]: parents before children. *)
Definition SHARD_TABLES : list string :=
  ["run_chunks"; "run_snapshots"; "executions"; "execution_attempts"; "execution_aggregates"; "evaluator_results";
   "evaluator_diagnostics"; "run_chunk_settlements"; "run_chunk_settlement_consumptions"; "run_shard_summaries"].

Definition table_of (k : RowKey) : string :=
  match k with
  | KChunk _ => "run_chunks"
  | KSnapshot => "run_snapshots"
  | KExecution _ => "executions"
  | KAttempt _ => "execution_attempts"
  | KAggregate _ => "execution_aggregates"
  | KResult _ _ => "evaluator_results"
  | KDiagnostic _ _ _ => "evaluator_diagnostics"
  | KSettlement _ => "run_chunk_settlements"
  | KConsumption _ => "run_chunk_settlement_consumptions"
  | KSummary => "run_shard_summaries"
  end.

Definition row_type (k : RowKey) : Type :=
  match k with
  | KChunk _ => ChunkRow
  | KSnapshot => SnapshotRow
  | KExecution _ => ExecutionRow
  | KAttempt _ => AttemptRow
  | KAggregate _ => AggregateRow
  | KResult _ _ => EvaluatorResultInsertRow
  | KDiagnostic _ _ _ => EvaluatorDiagnosticInsertRow
  | KSettlement _ => SettlementRow
  | KConsumption _ => ConsumptionRow
  | KSummary => SummaryRow
  end.

Definition row_at (db : Database) (s : shard_key) (k : RowKey) : option (row_type k) :=
  match k return option (row_type k) with
  | KChunk id => db_chunks db !! (s, id)
  | KSnapshot => db_snapshots db !! s
  | KExecution id => db_executions db !! (s, id)
  | KAttempt id => db_attempts db !! (s, id)
  | KAggregate id => db_aggregates db !! (s, id)
  | KResult a b => ev_results (db_evidence db) !! (s, a, b)
  | KDiagnostic a b i => ev_diagnostics (db_evidence db) !! (s, a, b, i)
  | KSettlement id => db_settlements db !! (s, id)
  | KConsumption id => db_consumptions db !! (s, id)
  | KSummary => db_summaries db !! s
  end.

(** [t !! k := r], with [None] for a deleted row. *)
Definition set_at {K} `{Countable K} {R} (k : K) (r : option R) (t : gmap K R) : gmap K R :=
  partial_alter (fun _ => r) k t.

Definition put_row (db : Database) (s : shard_key) (k : RowKey) : option (row_type k) -> Database :=
  match k return option (row_type k) -> Database with
  | KChunk id => fun r => with_chunks db (set_at (s, id) r (db_chunks db))
  | KSnapshot => fun r => with_snapshots db (set_at s r (db_snapshots db))
  | KExecution id => fun r => with_executions db (set_at (s, id) r (db_executions db))
  | KAttempt id => fun r => with_attempts db (set_at (s, id) r (db_attempts db))
  | KAggregate id => fun r => with_aggregates db (set_at (s, id) r (db_aggregates db))
  | KResult a b => fun r => with_evidence db
      (mkEvidence (set_at (s, a, b) r (ev_results (db_evidence db))) (ev_diagnostics (db_evidence db)))
  | KDiagnostic a b i => fun r => with_evidence db
      (mkEvidence (ev_results (db_evidence db)) (set_at (s, a, b, i) r (ev_diagnostics (db_evidence db))))
  | KSettlement id => fun r => with_settlement db (set_at (s, id) r (db_settlements db)) (db_consumptions db)
  | KConsumption id => fun r => with_settlement db (db_settlements db) (set_at (s, id) r (db_consumptions db))
  | KSummary => fun r => with_summaries db (set_at s r (db_summaries db))
  end.

(** The keys of a table that belong to a shard. *)
Definition keys_in {K} `{Countable K} {R} (f : K -> option RowKey) (t : gmap K R) : list RowKey :=
  omap f (map fst (map_to_list t)).

Definition when_shard (s s' : shard_key) (k : RowKey) : option RowKey := if decide (s' = s) then Some k else None.

(** The keys of every row of a shard. *)
Definition shard_rows (db : Database) (s : shard_key) : list RowKey :=
  keys_in (fun k => when_shard s k.1 (KChunk k.2)) (db_chunks db)
  ++ keys_in (fun k => when_shard s k KSnapshot) (db_snapshots db)
  ++ keys_in (fun k => when_shard s k.1 (KExecution k.2)) (db_executions db)
  ++ keys_in (fun k => when_shard s k.1 (KAttempt k.2)) (db_attempts db)
  ++ keys_in (fun k => when_shard s k.1 (KAggregate k.2)) (db_aggregates db)
  ++ keys_in (fun k => when_shard s k.1.1 (KResult k.1.2 k.2)) (ev_results (db_evidence db))
  ++ keys_in (fun k => when_shard s k.1.1.1 (KDiagnostic k.1.1.2 k.1.2 k.2)) (ev_diagnostics (db_evidence db))
  ++ keys_in (fun k => when_shard s k.1 (KSettlement k.2)) (db_settlements db)
  ++ keys_in (fun k => when_shard s k.1 (KConsumption k.2)) (db_consumptions db)
  ++ keys_in (fun k => when_shard s k KSummary) (db_summaries db).

Definition table_rows (db : Database) (s : shard_key) (table : string) : list RowKey :=
  List.filter (fun k => String.eqb (table_of k) table) (shard_rows db s).

(** ** Laws *)

Lemma table_of_known k : table_of k ∈ SHARD_TABLES.
Proof. destruct k; cbn [table_of]; unfold SHARD_TABLES; set_solver. Qed.

Lemma lookup_set_at {K} `{Countable K} {R} (k k' : K) (r : option R) (t : gmap K R) :
  set_at k r t !! k' = if decide (k = k') then r else t !! k'.
Proof. unfold set_at. case_decide; subst; [apply lookup_partial_alter_eq|by apply lookup_partial_alter_ne]. Qed.

Lemma row_at_put_same db s k r : row_at (put_row db s k r) s k = r.
Proof. destruct k; cbn in *; rewrite lookup_set_at; by destruct (decide _). Qed.

Lemma row_at_put_other db s k r s' k' : (s, k) <> (s', k') -> row_at (put_row db s k r) s' k' = row_at db s' k'.
Proof.
  intros Hne. destruct k, k'; cbn in *; try done; rewrite lookup_set_at; destruct (decide _) as [He|]; try done;
    exfalso; apply Hne; congruence.
Qed.

Lemma put_row_admissions db s k r : db_admissions (put_row db s k r) = db_admissions db.
Proof. by destruct k. Qed.

Lemma keys_in_elem {K} `{Countable K} {R} (f : K -> option RowKey) (t : gmap K R) k :
  k ∈ keys_in f t <-> exists x, is_Some (t !! x) /\ f x = Some k.
Proof.
  unfold keys_in. rewrite list_elem_of_omap. split.
  - intros (x & Hx & Hf). apply list_elem_of_fmap in Hx as ([x' r] & -> & Hx). apply elem_of_map_to_list in Hx. eauto.
  - intros (x & [r Hr] & Hf). exists x. split; [|done]. apply list_elem_of_fmap. exists (x, r).
    by rewrite elem_of_map_to_list.
Qed.

Lemma when_shard_Some s s' k k' : when_shard s s' k = Some k' <-> s' = s /\ k' = k.
Proof. unfold when_shard. case_decide; naive_solver. Qed.

(** [shard_rows] lists the rows that are there. *)
Lemma shard_rows_elem db s k : k ∈ shard_rows db s <-> is_Some (row_at db s k).
Proof.
  unfold shard_rows. rewrite !elem_of_app, !keys_in_elem. setoid_rewrite when_shard_Some. split.
  - intros Hk. repeat destruct Hk as [Hk|Hk]; destruct Hk as (x & Hx & Hs & ->); repeat destruct x as [x ?];
      cbn in *; by subst.
  - intros Hk. destruct k; cbn in Hk; repeat (first [left; eexists; split; [exact Hk|done]|right]);
      eexists; split; [exact Hk|done].
Qed.
