(* ===== verification/Settlement.v ===== *)
(** * Chunk settlement

    Models src/vigilo/src/db/workflows/run_shard_summary/settlement.rs, the
    counters of run_shard_summary/receipt.sql and the snapshot initialisation of
    run_shard_summary/queries.rs.  A terminal chunk gets one immutable receipt,
    written in the transaction that made it terminal, after the attempts and
    executions left open are retired.  The theorems show that a receipt counts
    every execution of its chunk exactly once, that replaying a settlement
    changes nothing and that settling all terminal chunks of a shard ends with
    all of them settled. *)

From Stdlib Require Import ZArith Lia Ascii.
From stdpp Require Import base strings numbers gmap sorting option list.
From S2P Require Import Prelude Float64 BTree Text Json RunTypes Scorecard ShardTables ReceiptGates.

Open Scope Z_scope.

(** The check of [gate_planned_counts] before a receipt is computed. *)
Definition check_gate_counts (snapshot : Value) : result unit :=
  if has_gates snapshot then
    counts ← ok_or (json_get "gate_planned_counts" snapshot ≫= as_object) "missing planned gate counts";
    let gates := default [] (snapshot_gates snapshot) in
    ensure ((zlen counts =? zlen gates)
            && forallb (fun g => is_some_and (fun id => is_some_and (fun c => 0 <=? c)
                                   (bt_get id counts ≫= as_i64))
                                 (json_get "id" g ≫= as_str)) gates)
      "incomplete planned gate counts"
  else Ok tt.

(** ** Receipt counters (receipt.sql) *)

Definition has_overall (db : Database) (s : OverallStatus) (ke : row_key * ExecutionRow) : bool :=
  negb (execution_open (ex_status ke.2))
  && is_some_and (fun ag => bool_decide (ag_overall_status ag = s)) (receipt_aggregate db ke.1 ke.2).

Definition jsonb_array_length (v : Value) : result Z :=
  match v with Array items => Ok (zlen items) | _ => Err "cannot get array length of a non-array" end.

(** [status] of the computed row, from the chunk counts and the counters. *)
Definition receipt_status (failed_chunks cancelled_chunks open_chunks failed errored missing : Z) : string :=
  if (0 <? failed_chunks) || (0 <? cancelled_chunks) || (0 <? failed) || (0 <? errored) || (0 <? missing)
  then "failed"
  else if open_chunks =? 0 then "completed" else "running".

Definition b2z (b : bool) : Z := if b then 1 else 0.

(** The error of [fetch_one] on an empty result. *)
Definition no_rows : string :=
  "no rows returned by a query that expected to return at least one row".

Section receipt.
Context {RF : ReceiptFunctions}.

Definition chunk_receipt (db : Database) (run_id run_shard chunk_id : Z) (c : ChunkRow)
    (snapshot : SnapshotRow) : result RunShardSummary :=
  let rows := chunk_executions db run_id run_shard chunk_id in
  let aggregates := omap (fun ke => receipt_aggregate db ke.1 ke.2) rows in
  blocking ← foldM (fun acc ag => n ← jsonb_array_length (ag_blocking_failures ag); Ok (acc + n)) 0 aggregates;
  let scores := omap ag_aggregate_score aggregates in
  let '(score_sum, min_score, max_score) := score_stats scores in
  let terminal := countb (fun ke => negb (execution_open (ex_status ke.2))) rows in
  let failed := countb (has_overall db OvFailed) rows in
  let errored := countb (has_overall db OvError) rows in
  let missing := countb (fun ke => negb (execution_open (ex_status ke.2))
                                   && opt_is_none (receipt_aggregate db ke.1 ke.2)) rows in
  let failed_chunks := b2z (bool_decide (ch_status c = ChFailed)) in
  let cancelled_chunks := b2z (bool_decide (ch_status c = ChCancelled)) in
  let open_chunks := b2z (negb (chunk_terminal (ch_status c))) in
  let expected := ch_ordinal_end c - ch_ordinal_start c in
  scorecard ← gate_scorecard db run_id run_shard chunk_id snapshot (negb (chunk_terminal (ch_status c)));
  Ok (mkRunShardSummary run_id run_shard expected (zlen rows) terminal (zlen aggregates)
        (countb (has_overall db OvPassed) rows) failed errored (countb (has_overall db OvSkipped) rows) missing
        (fold_left (fun acc ag => acc + ag_evaluator_result_count ag) aggregates 0)
        blocking (zlen scores) score_sum min_score max_score
        scorecard failed_chunks cancelled_chunks
        (receipt_status failed_chunks cancelled_chunks open_chunks failed errored missing)
        false "" 0 0 (expected - zlen rows) (zlen rows - zlen aggregates)).

(** ** Settlement *)

(** The two updates that retire abandoned authority of a chunk. *)
Definition retire_attempt (now : Z) (a : AttemptRow) : AttemptRow :=
  mkAttemptRow (at_execution_id a) (at_attempt_no a) AtStale (at_worker_id a) (at_worker_host a)
    (at_queue_message_id a) (at_broker_message_id a) None (at_heartbeat_at a) (at_agent_failure a)
    (Some (default "chunk settled before attempt completion" (at_error_message a)))
    (at_started_at a) (Some (default now (at_completed_at a))) (at_created_at a) now.

Definition retire_execution (now : Z) (disposition : ChunkStatus) (e : ExecutionRow) : ExecutionRow :=
  mkExecutionRow (ex_chunk_id e) (ex_case_id e) (ex_case e)
    (if bool_decide (disposition = ChCancelled) then ExCancelled else ExFailed)
    (ex_current_attempt_no e) (ex_current_attempt_id e)
    (Some (default "chunk settled with unresolved work" (ex_last_error_message e)))
    None (ex_retry_count e) (ex_last_attempt_completed_at e) (ex_started_at e)
    (Some (default now (ex_completed_at e))) (ex_created_at e) now.

(** [a.execution_id = e.id AND e.chunk_id = $3]. *)
Definition attempt_of_chunk (db : Database) (run_id run_shard chunk_id : Z) (k : row_key) (a : AttemptRow) : bool :=
  (k.1.1 =? run_id) && (k.1.2 =? run_shard)
  && is_some_and (fun e => ex_chunk_id e =? chunk_id)
       (db_executions db !! (run_id, run_shard, at_execution_id a)).

Definition retire_writers (db : Database) (now run_id run_shard chunk_id : Z)
    (disposition : ChunkStatus) : Database :=
  let attempts := update_where
    (fun k a => attempt_of_chunk db run_id run_shard chunk_id k a && attempt_open (at_status a))
    (fun _ => retire_attempt now) (db_attempts db) in
  let executions := update_where
    (fun k e => of_chunk run_id run_shard chunk_id k e && execution_open (ex_status e))
    (fun _ => retire_execution now disposition) (db_executions db) in
  with_executions (with_attempts db attempts) executions.

(** [btrim(policy) <> '']. *)
Definition btrim_blank (s : string) : bool :=
  forallb (fun c => Ascii.eqb c " "%char) (String.list_ascii_of_string s).

Definition settle_locked_chunk_with (db : Database) (now run_id run_shard chunk_id : Z)
    (identity : Z * Z * ChunkStatus) : result Database :=
  let '(start, stop, disposition) := identity in
  _ ← ensure (chunk_terminal disposition) "cannot settle open chunk";
  let key := (run_id, run_shard, chunk_id) in
  snapshot ← ok_or (db_snapshots db !! (run_id, run_shard)) no_rows;
  let policy := rc_aggregation_policy_hash (sn_context snapshot) in
  match db_settlements db !! key with
  | Some receipt =>
      _ ← ensure ((st_ordinal_start receipt =? start) && (st_ordinal_end receipt =? stop)
                  && bool_decide (st_disposition receipt = disposition)
                  && String.eqb (st_aggregation_policy_hash receipt) policy)
            "conflicting chunk settlement";
      Ok db
  | None =>
      let db1 := retire_writers db now run_id run_shard chunk_id disposition in
      _ ← check_gate_counts (rc_config_snapshot (sn_context snapshot));
      c ← ok_or (db_chunks db1 !! key) no_rows;
      receipt ← chunk_receipt db1 run_id run_shard chunk_id c snapshot;
      _ ← ensure ((0 <=? rs_missing_execution_count receipt) && (0 <=? rs_unresolved_execution_count receipt))
            "chunk contains more executions or aggregates than planned";
      _ ← ensure (receipt_bytes receipt <=? 1024 * 1024) "chunk settlement exceeds the receipt byte limit";
      let row := mkSettlementRow start stop policy disposition receipt now in
      _ ← ensure (settlement_ok row && negb (btrim_blank policy))
            "new row for relation run_chunk_settlements violates check constraint";
      _ ← ensure (opt_is_none (db_consumptions db1 !! key))
            "duplicate key value violates unique constraint";
      Ok (with_settlement db1 (<[key := row]> (db_settlements db1))
            (<[key := mkConsumptionRow start false]> (db_consumptions db1)))
  end.

(** [SUM(c.ordinal_end - c.ordinal_start)] over the chunks of a shard. *)
Definition shard_case_count (db : Database) (run_id run_shard : Z) : Z :=
  fold_left (fun acc kc => acc + (ch_ordinal_end kc.2 - ch_ordinal_start kc.2))
    (map_to_list (rows_where (fun k _ => (k.1.1 =? run_id) && (k.1.2 =? run_shard)) (db_chunks db))) 0.

(** [ensure_snapshot_with]. *)
Definition ensure_snapshot_with (db : Database) (run_id run_shard : Z) : Database :=
  match db_runs db !! run_id with
  | Some context =>
      with_snapshots db (insert_new (run_id, run_shard)
        (mkSnapshotRow context (shard_case_count db run_id run_shard)) (db_snapshots db))
  | None => db
  end.

Definition settle_chunk_with (db : Database) (now run_id run_shard chunk_id : Z) : result Database :=
  c ← ok_or (db_chunks db !! (run_id, run_shard, chunk_id))
        no_rows;
  _ ← ensure (chunk_terminal (ch_status c)) "cannot settle open chunk";
  settle_locked_chunk_with (ensure_snapshot_with db run_id run_shard) now run_id run_shard chunk_id
    (ch_ordinal_start c, ch_ordinal_end c, ch_status c).

(** The page of terminal chunks without a receipt. *)
Definition unsettled (db : Database) (run_id run_shard : Z) (k : row_key) (c : ChunkRow) : bool :=
  (k.1.1 =? run_id) && (k.1.2 =? run_shard) && chunk_terminal (ch_status c)
  && opt_is_none (db_settlements db !! k).

Definition by_ordinal (x y : row_key * ChunkRow) : Prop :=
  ch_ordinal_start x.2 < ch_ordinal_start y.2
  \/ (ch_ordinal_start x.2 = ch_ordinal_start y.2 /\ x.1.2 <= y.1.2).
#[global] Instance by_ordinal_dec : RelDecision by_ordinal.
Proof. intros x y. unfold by_ordinal. apply _. Defined.

Definition unsettled_page (db : Database) (run_id run_shard : Z) : list Uuid :=
  map (fun kc => kc.1.2)
    (take 64 (merge_sort by_ordinal (map_to_list (rows_where (unsettled db run_id run_shard) (db_chunks db))))).

(** The loop, with the number of pages it may read as fuel. *)
Fixpoint settle_terminal_chunks_with (fuel : nat) (db : Database) (now run_id run_shard : Z)
    : option (result Database) :=
  match fuel with
  | O => None
  | S fuel' =>
      match unsettled_page db run_id run_shard with
      | [] => Some (Ok db)
      | ids =>
          match foldM (fun db id => settle_chunk_with db now run_id run_shard id) db ids with
          | Ok db' => settle_terminal_chunks_with fuel' db' now run_id run_shard
          | Err e => Some (Err e)
          end
      end
  end.

End receipt.

(** ** Summary rows (run_shard_summary/queries.rs) *)

Section summary_rows.

Context {RF : ReceiptFunctions}.

Definition settlement_plan_text (context : RunContext) (run_shard : Z) (column : string) : option string :=
  json_pointer ["settlement_plan"; "shards"; shard_text run_shard; column] (rc_config_snapshot context)
    ≫= jsonb_text.

(** The columns a summary row has before any receipt is folded. *)
Definition empty_summary (run_id run_shard expected : Z) (policy : string) : RunShardSummary :=
  mkRunShardSummary run_id run_shard expected 0 0 0 0 0 0 0 0 0 0 0 (SpecFloat.S754_zero false) None None
    (Object (bt_collect [("version", Num (PosInt 1)); ("run_shard", Num (PosInt run_shard));
                         ("policy_hash", Str policy); ("entries", Array [])]))
    0 0 "running" false "" 0 0 0 0.

Definition set_plan (s : RunShardSummary) (planned_chunk_count : Z) (planned_chunk_hash : string) : RunShardSummary :=
  mkRunShardSummary (rs_run_id s) (rs_run_shard s) (rs_expected_execution_count s) (rs_execution_count s)
    (rs_terminal_execution_count s) (rs_aggregate_count s) (rs_passed_execution_count s)
    (rs_failed_execution_count s) (rs_errored_execution_count s) (rs_skipped_execution_count s)
    (rs_missing_aggregate_count s) (rs_evaluator_result_count s) (rs_blocking_failure_count s)
    (rs_score_count s) (rs_score_sum s) (rs_min_score s) (rs_max_score s) (rs_scorecard s)
    (rs_failed_chunk_count s) (rs_cancelled_chunk_count s) (rs_status s) (rs_sealed s)
    planned_chunk_hash planned_chunk_count (rs_settled_chunk_count s) (rs_missing_execution_count s)
    (rs_unresolved_execution_count s).

Definition insert_run_shard_summary_with (db : Database) (now run_id run_shard : Z) : result Database :=
  match db_snapshots db !! (run_id, run_shard) with
  | None => Ok db
  | Some snapshot =>
      let context := sn_context snapshot in
      count ← match settlement_plan_text context run_shard "chunk_count" with
              | Some text => int_of_text text
              | None => Ok 0
              end;
      let hash := default "" (settlement_plan_text context run_shard "hash") in
      let row := set_plan (empty_summary run_id run_shard (sn_expected_execution_count snapshot)
                             (rc_aggregation_policy_hash context)) count hash in
      _ ← ensure ((0 <=? sn_expected_execution_count snapshot) && (0 <=? count))
            "new row for relation run_shard_summaries violates check constraint";
      Ok (with_summaries db (insert_new (run_id, run_shard) (mkSummaryRow row None now) (db_summaries db)))
  end.

(** [initialize_run_shard_summary_with]: the summary it reads back is the row
    of the resulting database. *)
Definition initialize_run_shard_summary_with (db : Database) (now run_id run_shard : Z) : result Database :=
  insert_run_shard_summary_with (ensure_snapshot_with db run_id run_shard) now run_id run_shard.

End summary_rows.

(** ** Counting *)

Lemma countb_nil {A} (p : A -> bool) : countb p [] = 0.
Proof. done. Qed.

Lemma countb_cons {A} (p : A -> bool) a l : countb p (a :: l) = b2z (p a) + countb p l.
Proof.
  unfold countb, zlen, b2z. rewrite filter_cons. case_decide; destruct (p a); simpl in *; try congruence; lia.
Qed.

Lemma countb_ext {A} (p q : A -> bool) l :
  (forall a, a ∈ l -> p a = q a) -> countb p l = countb q l.
Proof.
  induction l as [|a l IH]; intros Hpq; [done|].
  rewrite !countb_cons, (Hpq a) by (by left). rewrite IH; [done|]. intros b Hb. apply Hpq. by right.
Qed.

Lemma countb_true {A} (p : A -> bool) l : (forall a, a ∈ l -> p a = true) -> countb p l = zlen l.
Proof.
  intros Hp. rewrite (countb_ext p (fun _ => true)) by done. clear.
  induction l as [|a l IH]; [done|]. rewrite countb_cons, IH. unfold zlen. simpl. lia.
Qed.

Lemma countb_nonneg {A} (p : A -> bool) l : 0 <= countb p l.
Proof. unfold countb, zlen. lia. Qed.

Lemma zlen_omap_countb {A B} (f : A -> option B) l : zlen (omap f l) = countb (fun a => opt_is_some (f a)) l.
Proof.
  induction l as [|a l IH]; [done|]. rewrite countb_cons, <- IH. cbn.
  destruct (f a); [rewrite zlen_cons|]; cbn; change (list_omap A B f l) with (omap f l); lia.
Qed.

(** A receipt status and a missing aggregate partition the closed executions. *)
Lemma overall_partition db (l : list (row_key * ExecutionRow)) :
  (forall ke, ke ∈ l -> execution_open (ex_status ke.2) = false) ->
  countb (has_overall db OvPassed) l + countb (has_overall db OvFailed) l
    + countb (has_overall db OvError) l + countb (has_overall db OvSkipped) l
  = countb (fun ke => opt_is_some (receipt_aggregate db ke.1 ke.2)) l /\
  countb (fun ke => opt_is_some (receipt_aggregate db ke.1 ke.2)) l
    + countb (fun ke => negb (execution_open (ex_status ke.2)) && opt_is_none (receipt_aggregate db ke.1 ke.2)) l
  = zlen l.
Proof.
  induction l as [|ke l IH]; intros Hall; [done|].
  destruct IH as [IH1 IH2]; [intros; apply Hall; by right|].
  rewrite !countb_cons. unfold has_overall at 1 3 5 7. rewrite (Hall ke) by (by left). simpl.
  unfold opt_is_none, zlen in *. simpl.
  destruct (receipt_aggregate db ke.1 ke.2) as [ag|]; simpl; [destruct (ag_overall_status ag)|];
    simpl; unfold b2z; split; try lia.
Qed.

(** ** Retirement *)

Lemma elem_of_chunk_executions db run_id run_shard chunk_id k e :
  (k, e) ∈ chunk_executions db run_id run_shard chunk_id <->
  db_executions db !! k = Some e /\ of_chunk run_id run_shard chunk_id k e = true.
Proof. unfold chunk_executions. by rewrite elem_of_map_to_list, lookup_rows_where. Qed.

Lemma retire_closes_executions db now run_id run_shard chunk_id disposition k e :
  (k, e) ∈ chunk_executions (retire_writers db now run_id run_shard chunk_id disposition) run_id run_shard chunk_id ->
  execution_open (ex_status e) = false.
Proof.
  intros Hin. apply elem_of_chunk_executions in Hin as [Hk Hof].
  unfold retire_writers in Hk. cbn [db_executions with_executions] in Hk.
  apply update_where_Some in Hk as (e0 & He0 & ->).
  destruct (of_chunk run_id run_shard chunk_id k e0 && execution_open (ex_status e0)) eqn:E.
  - simpl. by case_bool_decide.
  - rewrite Hof in E. simpl in E. done.
Qed.

Section settled.
Context {RF : ReceiptFunctions}.

(** The database after the receipt of a chunk is written. *)
Definition settled_db (db : Database) (now run_id run_shard chunk_id : Z) (row : SettlementRow) : Database :=
  let db1 := retire_writers db now run_id run_shard chunk_id (st_disposition row) in
  with_settlement db1 (<[(run_id, run_shard, chunk_id) := row]> (db_settlements db))
    (<[(run_id, run_shard, chunk_id) := mkConsumptionRow (st_ordinal_start row) false]> (db_consumptions db)).

(** A successful settlement either found its own receipt and changed nothing, or
    retired the open writers of the chunk and wrote the receipt computed then. *)
Lemma settle_locked_Ok db now run_id run_shard chunk_id start stop disposition db' :
  settle_locked_chunk_with db now run_id run_shard chunk_id (start, stop, disposition) = Ok db' ->
  chunk_terminal disposition = true /\
  exists snapshot row,
    db_snapshots db !! (run_id, run_shard) = Some snapshot /\
    st_ordinal_start row = start /\ st_ordinal_end row = stop /\ st_disposition row = disposition /\
    st_aggregation_policy_hash row = rc_aggregation_policy_hash (sn_context snapshot) /\
    ((db_settlements db !! (run_id, run_shard, chunk_id) = Some row /\ db' = db) \/
     (db_settlements db !! (run_id, run_shard, chunk_id) = None /\
      db_consumptions db !! (run_id, run_shard, chunk_id) = None /\
      settlement_ok row = true /\ 0 <= rs_missing_execution_count (st_summary row) /\
      (exists c, db_chunks db !! (run_id, run_shard, chunk_id) = Some c /\
        chunk_receipt (retire_writers db now run_id run_shard chunk_id disposition)
          run_id run_shard chunk_id c snapshot = Ok (st_summary row)) /\
      db' = settled_db db now run_id run_shard chunk_id row)).
Proof.
  unfold settle_locked_chunk_with. intros H.
  apply bind_Ok in H as ([] & Hterm & H). apply ensure_Ok in Hterm. split; [done|].
  apply bind_Ok in H as (snapshot & Hsn & H). apply ok_or_Ok in Hsn.
  destruct (db_settlements db !! _) as [row|] eqn:Hrow.
  - apply bind_Ok in H as ([] & Hm & H). apply ensure_Ok in Hm. injection H as <-.
    rewrite !andb_true_iff, !Z.eqb_eq, bool_decide_eq_true, String.eqb_eq in Hm.
    destruct Hm as [[[? ?] ?] ?]. exists snapshot, row. split_and!; auto.
  - apply bind_Ok in H as ([] & _ & H). apply bind_Ok in H as (c & Hc & H). apply ok_or_Ok in Hc.
    apply bind_Ok in H as (receipt & Hr & H). apply bind_Ok in H as ([] & Hn & H).
    apply ensure_Ok in Hn. apply andb_true_iff in Hn as [Hn _]. apply Z.leb_le in Hn.
    apply bind_Ok in H as ([] & _ & H).
    apply bind_Ok in H as ([] & Hck & H). apply ensure_Ok in Hck. apply andb_true_iff in Hck as [Hck _].
    apply bind_Ok in H as ([] & Hcs & H). apply ensure_Ok in Hcs. injection H as <-.
    eexists snapshot, (mkSettlementRow start stop _ disposition receipt now).
    split_and!; try done. right. split_and!; try done.
    + cbn [db_consumptions retire_writers with_executions with_attempts] in Hcs.
      by destruct (db_consumptions db !! _).
    + by exists c.
Qed.

(** The frame of a settlement. *)
Record settle_frame (db db' : Database) : Prop := mkSettleFrame {
  sf_chunks : db_chunks db' = db_chunks db;
  sf_runs : db_runs db' = db_runs db;
  sf_aggregates : db_aggregates db' = db_aggregates db;
  sf_admissions : db_admissions db' = db_admissions db;
  sf_summaries : db_summaries db' = db_summaries db;
  sf_outbox : db_outbox db' = db_outbox db;
  sf_snapshots : db_snapshots db ⊆ db_snapshots db';
  sf_settlements : db_settlements db ⊆ db_settlements db';
  sf_consumptions : db_consumptions db ⊆ db_consumptions db'
}.

#[global] Instance settle_frame_preorder : PreOrder settle_frame.
Proof.
  split.
  - intros db. by constructor.
  - intros d1 d2 d3 [] []. constructor; try congruence; by etransitivity.
Qed.

Lemma settle_locked_frame db now run_id run_shard chunk_id identity db' :
  settle_locked_chunk_with db now run_id run_shard chunk_id identity = Ok db' ->
  settle_frame db db' /\ is_Some (db_settlements db' !! (run_id, run_shard, chunk_id)).
Proof.
  destruct identity as [[start stop] disposition].
  intros (_ & snapshot & row & _ & _ & _ & _ & _ & [[Hrow ->]|(Hno & Hcs & _ & _ & _ & ->)])%settle_locked_Ok.
  - split; [reflexivity|eauto].
  - split; [|simpl; rewrite lookup_insert_eq; eauto].
    constructor; try done; simpl; by apply insert_subseteq.
Qed.

Lemma ensure_snapshot_frame db run_id run_shard : settle_frame db (ensure_snapshot_with db run_id run_shard).
Proof.
  unfold ensure_snapshot_with. destruct (db_runs db !! run_id); [|reflexivity].
  constructor; try done. simpl. unfold insert_new.
  destruct (db_snapshots db !! _) eqn:E; [done|]. by apply insert_subseteq.
Qed.

Lemma settle_chunk_frame db now run_id run_shard chunk_id db' :
  settle_chunk_with db now run_id run_shard chunk_id = Ok db' ->
  settle_frame db db' /\ is_Some (db_settlements db' !! (run_id, run_shard, chunk_id)).
Proof.
  unfold settle_chunk_with. intros H. apply bind_Ok in H as (c & _ & H).
  apply bind_Ok in H as ([] & _ & H). apply settle_locked_frame in H as [H Hs].
  split; [|done]. etransitivity; [apply ensure_snapshot_frame|done].
Qed.

Lemma settle_chunks_frame db now run_id run_shard ids db' :
  foldM (fun db id => settle_chunk_with db now run_id run_shard id) db ids = Ok db' ->
  settle_frame db db' /\ forall id, id ∈ ids -> is_Some (db_settlements db' !! (run_id, run_shard, id)).
Proof.
  intros H. eapply (foldM_inv_prefix (fun pre d => settle_frame db d /\
    forall id, id ∈ pre -> is_Some (db_settlements d !! (run_id, run_shard, id))));
    [split; [reflexivity|]| |exact H].
  - intros id Hid. by apply not_elem_of_nil in Hid.
  - intros pre d id d1 [Hf Hpre] Hs. apply settle_chunk_frame in Hs as [Hf1 Hs1].
    split; [by etransitivity|]. intros i Hi. apply elem_of_app in Hi as [Hi|Hi].
    + destruct (Hpre i Hi) as [row Hrow]. exists row. by eapply lookup_weaken; [|apply Hf1].
    + apply list_elem_of_singleton in Hi as ->. done.
Qed.

(** The rows a page reads are unsettled terminal chunks of the shard. *)
Lemma elem_of_unsettled_page db run_id run_shard id :
  id ∈ unsettled_page db run_id run_shard ->
  exists c, db_chunks db !! (run_id, run_shard, id) = Some c /\
    unsettled db run_id run_shard (run_id, run_shard, id) c = true.
Proof.
  unfold unsettled_page. intros Hin. apply list_elem_of_fmap in Hin as ([k c] & -> & Hin).
  apply elem_of_take in Hin as (i & Hi & _). apply list_elem_of_lookup_2 in Hi.
  rewrite merge_sort_Permutation, elem_of_map_to_list, lookup_rows_where in Hi.
  destruct Hi as [Hk Hu]. destruct k as [[r s] i']. simpl in *.
  assert (r = run_id /\ s = run_shard) as [-> ->].
  { unfold unsettled in Hu. rewrite !andb_true_iff, !Z.eqb_eq in Hu. simpl in Hu. tauto. }
  eauto.
Qed.

Lemma unsettled_page_nil db run_id run_shard :
  unsettled_page db run_id run_shard = [] ->
  forall k c, db_chunks db !! k = Some c -> unsettled db run_id run_shard k c = false.
Proof.
  unfold unsettled_page. intros Hnil k c Hk. apply map_eq_nil in Hnil.
  destruct (unsettled db run_id run_shard k c) eqn:E; [exfalso|done].
  assert (Hin : (k, c) ∈ merge_sort by_ordinal
    (map_to_list (rows_where (unsettled db run_id run_shard) (db_chunks db)))).
  { rewrite merge_sort_Permutation, elem_of_map_to_list, lookup_rows_where. done. }
  destruct (merge_sort _ _) as [|x l]; [by apply not_elem_of_nil in Hin|done].
Qed.

Definition unsettled_rows (db : Database) (run_id run_shard : Z) : gmap row_key ChunkRow :=
  rows_where (unsettled db run_id run_shard) (db_chunks db).

(** Settling a page leaves strictly fewer unsettled chunks. *)
Lemma settle_page_decreases db now run_id run_shard db' :
  unsettled_page db run_id run_shard <> [] ->
  foldM (fun db id => settle_chunk_with db now run_id run_shard id) db (unsettled_page db run_id run_shard) = Ok db' ->
  (size (unsettled_rows db' run_id run_shard) < size (unsettled_rows db run_id run_shard))%nat.
Proof.
  intros Hne H. apply settle_chunks_frame in H as [Hf Hs].
  destruct (unsettled_page db run_id run_shard) as [|id ids] eqn:Hp; [done|].
  destruct (elem_of_unsettled_page db run_id run_shard id) as (c & Hc & Hu); [rewrite Hp; by left|].
  destruct (Hs id) as [row Hrow]; [by left|].
  assert (Hsub : unsettled_rows db' run_id run_shard ⊆
                 delete (run_id, run_shard, id) (unsettled_rows db run_id run_shard)).
  { apply map_subseteq_spec. intros k c' Hk. apply lookup_rows_where in Hk as [Hk Hk'].
    rewrite (sf_chunks _ _ Hf) in Hk. unfold unsettled in Hk'. rewrite !andb_true_iff in Hk'.
    destruct Hk' as [[[Hr Hsh] Hst] Hno].
    destruct (decide (k = (run_id, run_shard, id))) as [->|Hne'].
    - by rewrite Hrow in Hno.
    - rewrite lookup_delete_ne by done. apply lookup_rows_where. split; [done|].
      unfold unsettled. rewrite Hr, Hsh, Hst. simpl.
      destruct (db_settlements db !! k) as [r0|] eqn:E; [|done].
      by rewrite (lookup_weaken _ _ _ _ E (sf_settlements _ _ Hf)) in Hno. }
  apply map_subseteq_size in Hsub. rewrite map_size_delete_Some in Hsub
    by (exists c; by apply lookup_rows_where).
  assert (Hnz : unsettled_rows db run_id run_shard <> ∅).
  { intros He. apply (f_equal (fun m => m !! (run_id, run_shard, id))) in He.
    rewrite lookup_empty in He. assert (Hl : unsettled_rows db run_id run_shard !! (run_id, run_shard, id) = Some c)
      by (by apply lookup_rows_where). by rewrite Hl in He. }
  apply map_size_non_empty_iff in Hnz. lia.
Qed.

(** The loop ends within one page more than there are unsettled chunks, and
    leaves none. *)
Lemma settle_all_spec fuel db now run_id run_shard :
  (size (unsettled_rows db run_id run_shard) < fuel)%nat ->
  match settle_terminal_chunks_with fuel db now run_id run_shard with
  | None => False
  | Some (Err _) => True
  | Some (Ok db') => settle_frame db db' /\ unsettled_page db' run_id run_shard = []
  end.
Proof.
  revert db; induction fuel as [|fuel IH]; intros db Hfuel; [lia|].
  simpl. destruct (unsettled_page db run_id run_shard) as [|id ids] eqn:Hp; [done|].
  cbn -[settle_chunk_with]. destruct (foldM (fun d i => settle_chunk_with d now run_id run_shard i) db (id :: ids))
    as [db'|e] eqn:H; cbn -[settle_chunk_with] in H; rewrite H; [|done].
  pose proof (settle_page_decreases db now run_id run_shard db') as Hdec. rewrite Hp in Hdec.
  specialize (Hdec ltac:(done) H). apply (settle_chunks_frame _ _ _ _ (id :: ids)) in H as [Hf _].
  specialize (IH db' ltac:(lia)).
  destruct (settle_terminal_chunks_with fuel db' now run_id run_shard) as [[db2|e]|]; [|done|done].
  destruct IH as [Hf2 Hn]. split; [by etransitivity|done].
Qed.

(** ** Outcomes *)

(** The outcome a settled execution has: that of its receipt aggregate. *)
Definition verdict (db : Database) (k : row_key) (e : ExecutionRow) : option OverallStatus :=
  ag_overall_status <$> receipt_aggregate db k e.

(** The executions of a chunk with their outcomes. *)
Definition outcomes (db : Database) (key : row_key) : gmap row_key (option OverallStatus) :=
  map_imap (fun k e => Some (verdict db k e)) (rows_where (of_chunk key.1.1 key.1.2 key.2) (db_executions db)).

Definition count_outcome (o : option OverallStatus) (m : gmap row_key (option OverallStatus)) : Z :=
  count_where (fun _ x => bool_decide (x = o)) m.

(** A receipt counts these outcomes. *)
Record receipt_counts (m : gmap row_key (option OverallStatus)) (r : RunShardSummary) : Prop := mkReceiptCounts {
  rk_executions : rs_execution_count r = Z.of_nat (size m);
  rk_passed : rs_passed_execution_count r = count_outcome (Some OvPassed) m;
  rk_failed : rs_failed_execution_count r = count_outcome (Some OvFailed) m;
  rk_errored : rs_errored_execution_count r = count_outcome (Some OvError) m;
  rk_skipped : rs_skipped_execution_count r = count_outcome (Some OvSkipped) m;
  rk_missing : rs_missing_aggregate_count r = count_outcome None m
}.

Lemma lookup_outcomes db key k :
  outcomes db key !! k
  = (e ← db_executions db !! k; if of_chunk key.1.1 key.1.2 key.2 k e then Some (verdict db k e) else None).
Proof.
  unfold outcomes. rewrite map_lookup_imap.
  destruct (rows_where _ _ !! k) as [e|] eqn:E.
  - apply lookup_rows_where in E as [-> Hp]. simpl. by rewrite Hp.
  - simpl. destruct (db_executions db !! k) as [e|] eqn:Ee; simpl; [|done].
    destruct (of_chunk _ _ _ k e) eqn:Hp; [|done].
    assert (H : rows_where (of_chunk key.1.1 key.1.2 key.2) (db_executions db) !! k = Some e)
      by (by apply lookup_rows_where). congruence.
Qed.

Lemma count_where_insert {K} `{Countable K} {R} (p : K -> R -> bool) (t : gmap K R) k r :
  t !! k = None -> count_where p (<[k := r]> t) = count_where p t + b2z (p k r).
Proof.
  intros Hk. unfold count_where, rows_where. destruct (p k r) eqn:Hp; simpl.
  - rewrite map_filter_insert_True by done. rewrite map_size_insert_None; [lia|].
    apply map_lookup_filter_None_2. by left.
  - rewrite map_filter_insert_not' by (simpl; intros; congruence). lia.
Qed.

Lemma countb_map_to_list {K} `{Countable K} {R} (p : K -> R -> bool) (t : gmap K R) :
  countb (fun kr => p kr.1 kr.2) (map_to_list t) = count_where p t.
Proof.
  induction t as [|k r t Hk IH] using map_ind; [by rewrite map_to_list_empty|].
  rewrite count_where_insert, <- IH by done. unfold countb, zlen.
  rewrite map_to_list_insert by done. simpl. rewrite filter_cons. simpl.
  case_decide as Hp; [rewrite Hp|destruct (p k r); [done|]]; simpl; lia.
Qed.

Lemma count_where_imap {K} `{Countable K} {R S} (q : K -> S -> bool) (f : K -> R -> S) (t : gmap K R) :
  count_where q (map_imap (fun k r => Some (f k r)) t) = count_where (fun k r => q k (f k r)) t.
Proof.
  induction t as [|k r t Hk IH] using map_ind; [by rewrite map_imap_empty|].
  rewrite (map_imap_insert_Some _ _ _ _ (f k r)) by done.
  rewrite !count_where_insert, IH; [done|done|]. by rewrite map_lookup_imap, Hk.
Qed.

Lemma size_imap_Some {K} `{Countable K} {R S} (f : K -> R -> S) (t : gmap K R) :
  size (map_imap (fun k r => Some (f k r)) t) = size t.
Proof.
  induction t as [|k r t Hk IH] using map_ind; [by rewrite map_imap_empty|].
  rewrite (map_imap_insert_Some _ _ _ _ (f k r)) by done.
  rewrite !map_size_insert_None, IH; [done|done|]. by rewrite map_lookup_imap, Hk.
Qed.

(** What a receipt counts: every execution of the chunk once, by outcome, and
    every planned case as an execution or a missing one. *)
Record receipt_balanced (run_id run_shard size : Z) (disposition : ChunkStatus) (r : RunShardSummary) : Prop :=
  mkReceiptBalanced {
  rb_run : rs_run_id r = run_id;
  rb_shard : rs_run_shard r = run_shard;
  rb_expected : rs_expected_execution_count r = size;
  rb_terminal : rs_terminal_execution_count r = rs_execution_count r;
  rb_outcomes : rs_execution_count r = rs_passed_execution_count r + rs_failed_execution_count r
    + rs_errored_execution_count r + rs_skipped_execution_count r + rs_missing_aggregate_count r;
  rb_aggregates : rs_aggregate_count r + rs_unresolved_execution_count r = rs_execution_count r;
  rb_unresolved : rs_unresolved_execution_count r = rs_missing_aggregate_count r;
  rb_planned : rs_expected_execution_count r = rs_execution_count r + rs_missing_execution_count r;
  rb_failed_chunks : rs_failed_chunk_count r = b2z (bool_decide (disposition = ChFailed));
  rb_cancelled_chunks : rs_cancelled_chunk_count r = b2z (bool_decide (disposition = ChCancelled))
}.

Lemma has_overall_verdict db s ke : has_overall db s ke = bool_decide (verdict db ke.1 ke.2 = Some s).
Proof.
  unfold has_overall, verdict, receipt_aggregate. destruct (execution_open (ex_status ke.2)); simpl; [done|].
  match goal with |- is_some_and _ ?o = _ => destruct o end; simpl; [|done].
  apply bool_decide_ext. naive_solver.
Qed.

Lemma chunk_receipt_counts db run_id run_shard chunk_id c snapshot r :
  (forall ke, ke ∈ chunk_executions db run_id run_shard chunk_id -> execution_open (ex_status ke.2) = false) ->
  chunk_receipt db run_id run_shard chunk_id c snapshot = Ok r ->
  receipt_counts (outcomes db (run_id, run_shard, chunk_id)) r.
Proof.
  intros Hclosed H. unfold chunk_receipt in H. apply bind_Ok in H as (blocking & _ & H).
  destruct (score_stats _) as [[sum mn] mx]. apply bind_Ok in H as (card & _ & H). injection H as <-.
  assert (Hs : forall o, countb (fun ke => bool_decide (verdict db ke.1 ke.2 = o))
      (chunk_executions db run_id run_shard chunk_id) = count_outcome o (outcomes db (run_id, run_shard, chunk_id))).
  { intros o. unfold count_outcome, outcomes, chunk_executions. simpl. rewrite count_where_imap.
    exact (countb_map_to_list (fun k e => bool_decide (verdict db k e = o)) _). }
  assert (Ho : forall s, countb (has_overall db s) (chunk_executions db run_id run_shard chunk_id)
    = count_outcome (Some s) (outcomes db (run_id, run_shard, chunk_id))).
  { intros s. rewrite <- Hs. apply countb_ext. intros ke _. apply has_overall_verdict. }
  constructor; simpl; rewrite ?Ho; try done.
  - unfold outcomes, chunk_executions, zlen. simpl. f_equal.
    rewrite length_map_to_list. symmetry. apply size_imap_Some.
  - rewrite <- Hs. apply countb_ext. intros ke Hke. rewrite (Hclosed ke Hke). simpl. unfold verdict.
    destruct (receipt_aggregate db ke.1 ke.2); simpl; done.
Qed.

Lemma new_receipt_balanced db now run_id run_shard chunk_id disposition c snapshot r :
  let db1 := retire_writers db now run_id run_shard chunk_id disposition in
  chunk_receipt db1 run_id run_shard chunk_id c snapshot = Ok r ->
  receipt_balanced run_id run_shard (ch_ordinal_end c - ch_ordinal_start c) (ch_status c) r /\
  receipt_counts (outcomes db1 (run_id, run_shard, chunk_id)) r /\
  rs_execution_count r = zlen (chunk_executions db1 run_id run_shard chunk_id) /\
  Forall (fun n => 0 <= n) [rs_passed_execution_count r; rs_failed_execution_count r;
    rs_errored_execution_count r; rs_skipped_execution_count r; rs_missing_aggregate_count r].
Proof.
  intros db1 Hr. set (rows := chunk_executions db1 run_id run_shard chunk_id) in *.
  assert (Hclosed : forall ke, ke ∈ rows -> execution_open (ex_status ke.2) = false).
  { intros [k e] Hin. by eapply retire_closes_executions. }
  pose proof (chunk_receipt_counts _ _ _ _ _ _ _ Hclosed Hr) as Hcounts.
  refine ((fun H => conj (proj1 H) (conj Hcounts (proj2 H))) _). clear Hcounts.
  unfold chunk_receipt in Hr. apply bind_Ok in Hr as (blocking & _ & Hr).
  destruct (score_stats _) as [[sum mn] mx]. apply bind_Ok in Hr as (card & _ & Hr). injection Hr as Hr. rewrite <- Hr in *. cbn -[chunk_executions outcomes] in *.
  fold rows. rewrite zlen_omap_countb.
  destruct (overall_partition db1 rows Hclosed) as [Hpart Hsum].
  rewrite (countb_true (fun ke => negb (execution_open (ex_status ke.2))) rows)
    by (intros ke Hke; by rewrite Hclosed).
  split_and!; [constructor; cbn -[chunk_executions]; done || lia|done|].
  repeat constructor; try apply countb_nonneg; try done.
Qed.

(** C30: A settlement receipt accounts for its chunk: after a chunk is settled for
    the first time none of its executions is open, and the receipt counts every
    execution exactly once as passed, failed, errored, skipped or without an
    aggregate, with the planned cases split into executions and missing
    executions; no counter is negative. *)
Theorem receipt_conserves (db db' : Database) (now run_id run_shard chunk_id start stop : Z)
    (disposition : ChunkStatus) :
  db_settlements db !! (run_id, run_shard, chunk_id) = None ->
  settle_locked_chunk_with db now run_id run_shard chunk_id (start, stop, disposition) = Ok db' ->
  exists row c, db_settlements db' !! (run_id, run_shard, chunk_id) = Some row /\
    db_chunks db' !! (run_id, run_shard, chunk_id) = Some c /\
    let r := st_summary row in
    (forall k e, (k, e) ∈ chunk_executions db' run_id run_shard chunk_id -> execution_open (ex_status e) = false) /\
    rs_execution_count r = zlen (chunk_executions db' run_id run_shard chunk_id) /\
    rs_terminal_execution_count r = rs_execution_count r /\
    rs_execution_count r = rs_passed_execution_count r + rs_failed_execution_count r
      + rs_errored_execution_count r + rs_skipped_execution_count r + rs_missing_aggregate_count r /\
    rs_aggregate_count r + rs_unresolved_execution_count r = rs_execution_count r /\
    rs_unresolved_execution_count r = rs_missing_aggregate_count r /\
    rs_expected_execution_count r = ch_ordinal_end c - ch_ordinal_start c /\
    rs_expected_execution_count r = rs_execution_count r + rs_missing_execution_count r /\
    Forall (fun n => 0 <= n) [rs_passed_execution_count r; rs_failed_execution_count r;
      rs_errored_execution_count r; rs_skipped_execution_count r; rs_missing_aggregate_count r;
      rs_missing_execution_count r].
Proof.
  intros Hnone H.
  apply settle_locked_Ok in H as (_ & snapshot & row & _ & _ & _ & Hd & _ & [[Hrow _]|Hnew]).
  { by rewrite Hnone in Hrow. }
  destruct Hnew as (_ & _ & _ & Hmiss & (c & Hc & Hr) & ->). exists row, c.
  split; [simpl; by rewrite lookup_insert_eq|]. split; [done|]. rewrite <- Hd in Hr.
  change (chunk_executions (settled_db db now run_id run_shard chunk_id row) run_id run_shard chunk_id)
    with (chunk_executions (retire_writers db now run_id run_shard chunk_id (st_disposition row))
            run_id run_shard chunk_id).
  apply new_receipt_balanced in Hr as ([] & _ & Hcount & Hnn). split_and!; try done.
  - intros k e Hin. by eapply (retire_closes_executions _ _ _ _ _ _ k e).
  - refine (Forall_app_2 _ _ [_] Hnn _). by repeat constructor.
Qed.

(** Settlement happens once: when a chunk was settled, settling it again with
    the same identity at any later time succeeds and changes nothing, and
    settling it with another range or disposition fails. *)
Theorem settlement_idempotent (db db' : Database) (now now' run_id run_shard chunk_id : Z)
    (identity : Z * Z * ChunkStatus) :
  settle_locked_chunk_with db now run_id run_shard chunk_id identity = Ok db' ->
  settle_locked_chunk_with db' now' run_id run_shard chunk_id identity = Ok db' /\
  forall other, other <> identity -> exists e, settle_locked_chunk_with db' now' run_id run_shard chunk_id other = Err e.
Proof.
  destruct identity as [[start stop] disposition]. intros H.
  apply settle_locked_Ok in H as (Ht & snapshot & row & Hsn & Hst & Hen & Hd & Hp & Hcase).
  assert (Hrow : db_settlements db' !! (run_id, run_shard, chunk_id) = Some row /\
                 db_snapshots db' !! (run_id, run_shard) = Some snapshot).
  { destruct Hcase as [[? ->]|(_ & _ & _ & _ & _ & ->)]; simpl; [done|]. by rewrite lookup_insert_eq. }
  destruct Hrow as [Hrow Hsn']. split.
  - unfold settle_locked_chunk_with. rewrite Ht. simpl. rewrite Hsn'. simpl. rewrite Hrow, Hst, Hen, Hd, Hp.
    by rewrite !Z.eqb_refl, bool_decide_true, String.eqb_refl by done.
  - intros other Hne. destruct (settle_locked_chunk_with db' now' run_id run_shard chunk_id other) as [d|e] eqn:E; [|eauto].
    exfalso. apply Hne. destruct other as [[start' stop'] disposition'].
    apply settle_locked_Ok in E as (_ & sn & row' & _ & Hst' & Hen' & Hd' & _ & [[Hr _]|[Hr _]]);
      rewrite Hrow in Hr; simplify_eq; congruence.
Qed.

(** Settling all terminal chunks of a shard terminates: one page more than
    there are unsettled chunks is enough for every database, and when no
    settlement fails every terminal chunk of the shard has a receipt, no chunk
    row changed and every earlier receipt is kept. *)
Theorem settle_terminal_chunks_terminates (db : Database) (now run_id run_shard : Z) :
  match settle_terminal_chunks_with (S (size (unsettled_rows db run_id run_shard))) db now run_id run_shard with
  | None => False
  | Some (Err _) => True
  | Some (Ok db') =>
      db_chunks db' = db_chunks db /\ db_settlements db ⊆ db_settlements db' /\
      forall chunk_id c, db_chunks db' !! (run_id, run_shard, chunk_id) = Some c ->
        chunk_terminal (ch_status c) = true -> is_Some (db_settlements db' !! (run_id, run_shard, chunk_id))
  end.
Proof.
  pose proof (settle_all_spec (S (size (unsettled_rows db run_id run_shard))) db now run_id run_shard
    (Nat.lt_succ_diag_r _)) as H.
  destruct (settle_terminal_chunks_with _ db now run_id run_shard) as [[db'|e]|]; [|done|done].
  destruct H as [Hf Hnil]. split_and!; [apply Hf|apply Hf|]. intros chunk_id c Hc Ht.
  pose proof (unsettled_page_nil _ _ _ Hnil _ _ Hc) as Hu. unfold unsettled in Hu.
  rewrite !Z.eqb_refl, Ht in Hu. simpl in Hu.
  destruct (db_settlements db' !! _); [eauto|done].
Qed.

End settled.

(** ** Witnesses *)

Module Sample.

(** Numbers of one digit as text. *)
Definition digit (n : Z) : string := String.String (Ascii.ascii_of_N (48 + Z.to_N n)) "".
Definition value_of_digit (t : string) : result Z :=
  match t with
  | String.String c "" => Ok (Z.of_N (Ascii.N_of_ascii c) - 48)
  | _ => Err "invalid input syntax for type integer"
  end.

#[global] Instance functions : ReceiptFunctions := {|
  score_stats := fun _ => (SpecFloat.S754_zero false, None, None);
  receipt_bytes := fun _ => 400;
  jsonb_text := fun v => match v with Num (PosInt n) => Some (digit n) | _ => as_str v end;
  int_of_text := value_of_digit;
  double_of_text := fun _ => Ok f1;
  boolean_of_text := fun t => Ok (str_eqb t "true");
  double_value := fun _ => Num (PosInt 1);
  text_le := fun a b => negb (kltb b a);
  shard_text := digit
|}.

Definition context : RunContext :=
  mkRunContext "run" 1 2 "v1" "p" "1" "pv" "ph" "a" "1" "policy" "http" "agent" None "pc" "1" (Object []).

Definition case_columns : ExecutionCase :=
  mkExecutionCase "h" "g" "task" (Array []) Null Null Null "p" "1" (Array []) 1.

Definition chunk (status : ChunkStatus) (token until : option Z) : ChunkRow :=
  mkChunkRow 2 "g" 0 3 status (Some 5) token until 0 None 0 0.

Definition execution (status : ExecutionStatus) (case_id : Z) (no : Z) (attempt : option Z) : ExecutionRow :=
  mkExecutionRow 40 case_id case_columns status no attempt None None 0 None (Some 10) None 10 10.

Definition attempt (execution_id no : Z) (status : AttemptStatus) : AttemptRow :=
  mkAttemptRow execution_id no status (Some 90) None (Some 91) None (Some 1000) (Some 10) None None (Some 10) None 10 10.

Definition aggregate (attempt_id : Z) : AggregateRow :=
  mkAggregateRow attempt_id OvPassed (Some (SpecFloat.S754_zero false)) 1 (Object []) (Array []) Null 20.

(** A chunk of three cases: one passed, one still running, one never started. *)
Definition db (status : ChunkStatus) (token until : option Z) : Database :=
  mkDatabase {[ 7 := context ]}
    {[ (7, 3, 40) := chunk status token until ]}
    {[ (7, 3, 50) := execution ExCompleted 60 1 (Some 70);
       (7, 3, 51) := execution ExRunning 61 2 (Some 72) ]}
    {[ (7, 3, 70) := attempt 50 1 AtCompleted; (7, 3, 71) := attempt 51 1 AtFailedEvaluation;
       (7, 3, 72) := attempt 51 2 AtRunning ]}
    {[ (7, 3, 50) := aggregate 70 ]} (mkEvidence ∅ ∅)
    {[ (7, 3) := mkAdmissionRow "a" 4 Open None None 0 ]}
    {[ (7, 3) := mkSnapshotRow context 3 ]} ∅ ∅ ∅ ∅.

Definition settled : Database :=
  match settle_locked_chunk_with (db ChFailed None None) 100 7 3 40 (0, 3, ChFailed) with
  | Ok d => d
  | Err _ => db ChFailed None None
  end.

End Sample.

Lemma receipt_conserves_witness :
  exists row c, db_settlements Sample.settled !! (7, 3, 40) = Some row /\
    db_chunks Sample.settled !! (7, 3, 40) = Some c /\
    rs_expected_execution_count (st_summary row) = 3.
Proof.
  destruct (receipt_conserves (Sample.db ChFailed None None)
    Sample.settled 100 7 3 40 0 3 ChFailed) as (row & c & Hrow & Hc & _ & _ & _ & _ & _ & _ & He & _).
  - by vm_compute.
  - by vm_compute.
  - exists row, c. split_and!; [done|done|]. rewrite He.
    assert (Hc' : db_chunks Sample.settled !! (7, 3, 40) = Some (Sample.chunk ChFailed None None)) by by vm_compute.
    rewrite Hc in Hc'. by injection Hc' as ->.
Defined.

Lemma settlement_idempotent_witness :
  settle_locked_chunk_with Sample.settled 200 7 3 40 (0, 3, ChFailed)
  = Ok Sample.settled.
Proof.
  apply (settlement_idempotent (Sample.db ChFailed None None)
    Sample.settled 100 200 7 3 40 (0, 3, ChFailed)). by vm_compute.
Defined.
