(* ===== verification/ChunkLease.v ===== *)
(** * Chunk leases

    Models src/vigilo/src/db/workflows/chunk_processing.rs with its queries,
    [recover_expired_chunk_leases] and [dispatch_run_window] of run_dispatch.rs
    and the execution-side cancellation of run_cancel.rs: every statement that
    writes [run_chunks].  A worker holds a chunk through an opaque token and a
    deadline; [DbRunChunk] is its in-memory copy of the row.  The step relation
    over these operations is in [ShardMachine]. *)

From Stdlib Require Import ZArith Lia.
From stdpp Require Import base strings numbers gmap sorting option list.
From S2P Require Import Prelude Json RunTypes ShardTables LocalAdmission ReceiptGates Settlement.

Open Scope Z_scope.

(** [RunChunk] of models/run_chunk.rs: a row with the epoch it was admitted
    under. *)
Record DbRunChunk := mkDbRunChunk {
  wc_write_epoch : Z;
  wc_id : Uuid;
  wc_run_id : Uuid;
  wc_run_shard : Z;
  wc_dataset_version_id : Uuid;
  wc_profile_group_id : string;
  wc_ordinal_start : Z;
  wc_ordinal_end : Z;
  wc_status : ChunkStatus;
  wc_lease_token : option Uuid;
  wc_leased_until : option Z;
  wc_created_at : Z;
  wc_updated_at : Z
}.

Definition wc_key (h : DbRunChunk) : row_key := (wc_run_id h, wc_run_shard h, wc_id h).

(** The columns of [RETURNING] as a [DbRunChunk] of the given epoch. *)
Definition returning_chunk (epoch : Z) (k : row_key) (c : ChunkRow) : DbRunChunk :=
  mkDbRunChunk epoch k.2 k.1.1 k.1.2 (ch_dataset_version_id c) (ch_profile_group_id c)
    (ch_ordinal_start c) (ch_ordinal_end c) (ch_status c) (ch_lease_token c) (ch_leased_until c)
    (ch_created_at c) (ch_updated_at c).

(** [SET status = .., lease_token = .., leased_until = .., updated_at = now()]. *)
Definition set_lease (status : ChunkStatus) (token until : option Z) (now : Z) (c : ChunkRow) : ChunkRow :=
  mkChunkRow (ch_dataset_version_id c) (ch_profile_group_id c) (ch_ordinal_start c) (ch_ordinal_end c)
    status (ch_dispatched_at c) token until (ch_recovery_count c) (ch_last_recovered_at c)
    (ch_created_at c) now.

(** [UPDATE run_chunks SET f WHERE primary key AND guard RETURNING *]. *)
Definition update_chunk (db : Database) (key : row_key) (guard : ChunkRow -> bool)
    (f : ChunkRow -> ChunkRow) : Database * option ChunkRow :=
  match db_chunks db !! key with
  | Some c =>
      if guard c then (with_chunks db (<[key := f c]> (db_chunks db)), Some (f c)) else (db, None)
  | None => (db, None)
  end.

(** ** Claims *)

Definition claim_guard (db : Database) (now : Z) (key : row_key) (c : ChunkRow) : bool :=
  (bool_decide (ch_status c = ChPending)
   || (bool_decide (ch_status c = ChLeased) && is_some_and (fun t => t <? now) (ch_leased_until c)))
  && opt_is_some (db_snapshots db !! key.1).

Definition claim_chunk_for_processing_in_transaction (db : Database) (now token run_id run_shard chunk_id lease_seconds : Z)
    : Database * option DbRunChunk :=
  let key := (run_id, run_shard, chunk_id) in
  let '(db', row) := update_chunk db key (claim_guard db now key)
    (set_lease ChLeased (Some token) (Some (now + lease_seconds * second)) now) in
  (db', returning_chunk 0 key <$> row).

Definition set_epoch (epoch : Z) (h : DbRunChunk) : DbRunChunk :=
  mkDbRunChunk epoch (wc_id h) (wc_run_id h) (wc_run_shard h) (wc_dataset_version_id h)
    (wc_profile_group_id h) (wc_ordinal_start h) (wc_ordinal_end h) (wc_status h) (wc_lease_token h)
    (wc_leased_until h) (wc_created_at h) (wc_updated_at h).

Definition claim_routed_chunk_for_processing (db : Database) (now token : Z) (placement : ShardPlacement)
    (current : LocalShardAdmissionError + ShardPlacement) (run_id run_shard chunk_id lease_seconds : Z)
    : LocalShardAdmissionError + (Database * option DbRunChunk) :=
  match begin_execution_admission db now placement current with
  | inl error => inl error
  | inr db1 =>
      let '(db2, chunk) := claim_chunk_for_processing_in_transaction db1 now token run_id run_shard chunk_id lease_seconds in
      inr (db2, set_epoch (sp_write_epoch placement) <$> chunk)
  end.

Definition claim_hinted_chunk_for_processing (db : Database) (now token : Z) (hint : LocalShardRouteHint)
    (chunk_id lease_seconds : Z) : LocalShardAdmissionError + (Database * option DbRunChunk) :=
  match begin_execution_write_admission db hint with
  | inl error => inl error
  | inr db1 =>
      let '(db2, chunk) := claim_chunk_for_processing_in_transaction db1 now token
        (hi_run_id hint) (hi_run_shard hint) chunk_id lease_seconds in
      inr (db2, set_epoch (hi_write_epoch hint) <$> chunk)
  end.

(** ** Operations of a lease holder *)

Definition require_chunk_lease_token (h : DbRunChunk) : result Uuid :=
  ok_or (wc_lease_token h) "leased chunk has no lease token".

(** An admission row of the given epoch whose state is open or draining. *)
Definition settles_under (db : Database) (key : shard_key) (epoch : Z) : bool :=
  is_some_and (fun a => (ad_write_epoch a =? epoch) && allows_settlement (ad_state a))
    (db_admissions db !! key).

(** The condition every statement of a lease holder shares: the row is leased
    under the holder's token, the deadline has not passed and the local
    admission settles under the holder's epoch. *)
Definition lease_guard (db : Database) (now token epoch : Z) (key : row_key) (c : ChunkRow) : bool :=
  bool_decide (ch_status c = ChLeased) && bool_decide (ch_lease_token c = Some token)
  && is_some_and (fun t => now <=? t) (ch_leased_until c)
  && settles_under db key.1 epoch.

Definition mark_chunk (status : ChunkStatus) (db : Database) (now : Z) (h : DbRunChunk) (token : Z)
    : Database * option (Z * Z * ChunkStatus) :=
  let '(db', row) := update_chunk db (wc_key h) (lease_guard db now token (wc_write_epoch h) (wc_key h))
    (set_lease status None None now) in
  (db', (fun c => (ch_ordinal_start c, ch_ordinal_end c, ch_status c)) <$> row).

Definition mark_chunk_completed := mark_chunk ChCompleted.
Definition mark_chunk_failed := mark_chunk ChFailed.

Definition extend_chunk_lease (db : Database) (now : Z) (h : DbRunChunk) (lease_seconds : Z)
    : result (Database * option DbRunChunk) :=
  token ← require_chunk_lease_token h;
  let key := wc_key h in
  let '(db', row) := update_chunk db key
    (fun c => lease_guard db now token (wc_write_epoch h) key c && opt_is_some (db_snapshots db !! key.1))
    (fun c => set_lease (ch_status c) (ch_lease_token c) (Some (now + lease_seconds * second)) now c) in
  Ok (db', returning_chunk (wc_write_epoch h) key <$> row).

Definition release_chunk_as_pending (db : Database) (now : Z) (h : DbRunChunk) : result (Database * Z) :=
  token ← require_chunk_lease_token h;
  let '(db', row) := update_chunk db (wc_key h) (lease_guard db now token (wc_write_epoch h) (wc_key h))
    (set_lease ChPending None None now) in
  Ok (db', b2z (opt_is_some row)).

Section with_receipts.
Context {RF : ReceiptFunctions}.

Definition mark_and_settle (mark : Database -> Z -> DbRunChunk -> Z -> Database * option (Z * Z * ChunkStatus))
    (db : Database) (now : Z) (h : DbRunChunk) : result (Database * Z) :=
  token ← require_chunk_lease_token h;
  let '(db1, terminal_identity) := mark db now h token in
  match terminal_identity with
  | Some identity =>
      db2 ← settle_locked_chunk_with db1 now (wc_run_id h) (wc_run_shard h) (wc_id h) identity;
      Ok (db2, 1)
  | None => Ok (db1, 0)
  end.

Definition mark_chunk_completed_and_settle := mark_and_settle mark_chunk_completed.
Definition mark_chunk_failed_and_settle := mark_and_settle mark_chunk_failed.

(** ** Recovery of expired leases *)

Definition lease_expired (now : Z) (c : ChunkRow) : bool :=
  bool_decide (ch_status c = ChLeased) && is_some_and (fun t => t <? now) (ch_leased_until c).

(** [ORDER BY leased_until, run_id, id]. *)
Definition by_deadline (x y : row_key * ChunkRow) : Prop :=
  let t := default 0 (ch_leased_until x.2) in
  let u := default 0 (ch_leased_until y.2) in
  t < u \/ (t = u /\ (x.1.1.1 < y.1.1.1 \/ (x.1.1.1 = y.1.1.1 /\ x.1.2 <= y.1.2))).
#[global] Instance by_deadline_dec : RelDecision by_deadline.
Proof. intros x y. unfold by_deadline. apply _. Defined.

(** [SELECT ... WHERE p ORDER BY leased_until, run_id, id LIMIT n]. *)
Definition expired_page (p : row_key -> ChunkRow -> bool) (n : Z) (db : Database) : list (row_key * ChunkRow) :=
  take (Z.to_nat n) (merge_sort by_deadline (map_to_list (rows_where p (db_chunks db)))).

(** The shards of the two candidate pages whose advisory lock was free. *)
Definition recovery_candidates (db : Database) (now max_recoveries batch_size : Z) : list shard_key :=
  remove_dups (map (fun kc => kc.1.1)
    (expired_page (fun _ c => lease_expired now c && (ch_recovery_count c <? max_recoveries)) batch_size db
     ++ expired_page (fun _ c => lease_expired now c && (max_recoveries <=? ch_recovery_count c)) batch_size db)).

Definition admission_in (db : Database) (key : shard_key) (p : LocalShardAdmissionState -> bool) : bool :=
  is_some_and (fun a => p (ad_state a)) (db_admissions db !! key).

(** [locked] are the rows other transactions hold, which [SKIP LOCKED] skips. *)
Definition recoverable (db : Database) (now max_recoveries : Z) (admitted : list shard_key)
    (locked : row_key -> bool) (k : row_key) (c : ChunkRow) : bool :=
  opt_is_some (db_snapshots db !! k.1) && admission_in db k.1 allows_new_work
  && bool_decide (k.1 ∈ admitted) && lease_expired now c && (ch_recovery_count c <? max_recoveries)
  && negb (locked k).

Definition exhausted (db : Database) (now max_recoveries : Z) (admitted : list shard_key)
    (locked : row_key -> bool) (k : row_key) (c : ChunkRow) : bool :=
  opt_is_some (db_snapshots db !! k.1) && bool_decide (k.1 ∈ admitted) && lease_expired now c
  && (max_recoveries <=? ch_recovery_count c) && admission_in db k.1 allows_settlement
  && negb (locked k).

Definition recover_chunk (now : Z) (c : ChunkRow) : ChunkRow :=
  mkChunkRow (ch_dataset_version_id c) (ch_profile_group_id c) (ch_ordinal_start c) (ch_ordinal_end c)
    ChPending (ch_dispatched_at c) None None (ch_recovery_count c + 1) (Some now) (ch_created_at c) now.

(** The current running attempts of the given chunks become stale. *)
Definition stale_attempt (now : Z) (message : string) (a : AttemptRow) : AttemptRow :=
  mkAttemptRow (at_execution_id a) (at_attempt_no a) AtStale (at_worker_id a) (at_worker_host a)
    (at_queue_message_id a) (at_broker_message_id a) None (at_heartbeat_at a) (at_agent_failure a)
    (Some (default message (at_error_message a))) (at_started_at a)
    (Some (default now (at_completed_at a))) (at_created_at a) now.

Definition current_running_of (db : Database) (keys : list row_key) (k : row_key) (a : AttemptRow) : bool :=
  is_some_and (fun e => bool_decide ((k.1, ex_chunk_id e) ∈ keys)
                        && bool_decide (ex_current_attempt_id e = Some k.2))
    (db_executions db !! (k.1, at_execution_id a))
  && bool_decide (at_status a = AtRunning).

Definition stale_current_attempts (db : Database) (now : Z) (keys : list row_key) (message : string) : Database :=
  with_attempts db (update_where (current_running_of db keys) (fun _ => stale_attempt now message) (db_attempts db)).

Definition recovery_event (db : Database) (kc : row_key * ChunkRow) (outbox : gmap ready_key ReadyEvent)
    : gmap ready_key ReadyEvent :=
  let '(k, c) := kc in
  match db_admissions db !! k.1 with
  | Some a =>
      if allows_new_work (ad_state a)
      then insert_new (k.1.1, k.2, Some (ch_recovery_count c + 1))
             (mkReadyEvent k.1.1 k.1.2 k.2 (ad_database_alias a) (ad_write_epoch a) (Some (ch_recovery_count c + 1))) outbox
      else outbox
  | None => outbox
  end.

(** [recover_expired_chunks]: the keys of the failed chunks are the second
    statement's result. *)
Definition recover_expired_chunks (db : Database) (now max_recoveries batch_size : Z)
    (admitted : list shard_key) (locked : row_key -> bool) : Database * Z * list row_key :=
  let expired := expired_page (recoverable db now max_recoveries admitted locked) batch_size db in
  let recovered := map fst expired in
  let db1 := stale_current_attempts
    (with_outbox
       (with_chunks db (update_where (fun k _ => bool_decide (k ∈ recovered)) (fun _ => recover_chunk now) (db_chunks db)))
       (fold_left (fun o kc => recovery_event db kc o) expired (db_outbox db)))
    now recovered "attempt lease expired with recovered chunk" in
  let failed := map fst (expired_page (exhausted db1 now max_recoveries admitted locked) batch_size db1) in
  let db2 := stale_current_attempts
    (with_chunks db1 (update_where (fun k _ => bool_decide (k ∈ failed)) (fun _ => set_lease ChFailed None None now) (db_chunks db1)))
    now failed "attempt lease expired with failed chunk" in
  (db2, zlen recovered, failed).

Definition recover_expired_chunk_leases (db : Database) (now max_recoveries batch_size : Z)
    (try_lock : shard_key -> bool) (locked : row_key -> bool) : result (Database * Z * Z) :=
  let admitted := filter (fun k => try_lock k = true) (recovery_candidates db now max_recoveries batch_size) in
  let '(db1, recovered, failed) := recover_expired_chunks db now max_recoveries batch_size admitted locked in
  db2 ← foldM (fun db k => settle_chunk_with db now k.1.1 k.1.2 k.2) db1 failed;
  Ok (db2, recovered, zlen failed).

(** ** Cancellation *)

Definition CANCEL_REASON : string := "run cancelled by user".

Definition cancel_open_chunks (db : Database) (now run_id : Z) : Database * Z :=
  let p := fun (k : row_key) c => (k.1.1 =? run_id) && negb (chunk_terminal (ch_status c)) in
  (with_chunks db (update_where p (fun _ => set_lease ChCancelled None None now) (db_chunks db)),
   count_where p (db_chunks db)).

Definition cancel_attempt (now : Z) (a : AttemptRow) : AttemptRow :=
  mkAttemptRow (at_execution_id a) (at_attempt_no a) AtCancelled (at_worker_id a) (at_worker_host a)
    (at_queue_message_id a) (at_broker_message_id a) None (at_heartbeat_at a) (at_agent_failure a)
    (Some (default CANCEL_REASON (at_error_message a))) (at_started_at a)
    (Some (default now (at_completed_at a))) (at_created_at a) now.

Definition cancel_open_attempts (db : Database) (now run_id : Z) : Database * Z :=
  let p := fun (k : row_key) a => (k.1.1 =? run_id) && attempt_open (at_status a) in
  (with_attempts db (update_where p (fun _ => cancel_attempt now) (db_attempts db)), count_where p (db_attempts db)).

Definition cancel_execution (now : Z) (e : ExecutionRow) : ExecutionRow :=
  mkExecutionRow (ex_chunk_id e) (ex_case_id e) (ex_case e) ExCancelled
    (ex_current_attempt_no e) (ex_current_attempt_id e)
    (Some (default CANCEL_REASON (ex_last_error_message e))) (ex_retry_after e) (ex_retry_count e)
    (ex_last_attempt_completed_at e) (ex_started_at e) (Some (default now (ex_completed_at e)))
    (ex_created_at e) now.

Definition cancel_open_executions (db : Database) (now run_id : Z) : Database * Z :=
  let p := fun (k : row_key) e => (k.1.1 =? run_id) && execution_open (ex_status e) in
  (with_executions db (update_where p (fun _ => cancel_execution now) (db_executions db)), count_where p (db_executions db)).

Record CancellationCounts := mkCancellationCounts {
  cc_chunks_cancelled : Z;
  cc_executions_cancelled : Z;
  cc_attempts_cancelled : Z
}.

(** [cancel_execution_target_with_transaction]: the settlement of each shard is
    the loop of [Settlement] with fuel for all chunks of the database. *)
Definition cancel_shard (now run_id : Z) (db : Database) (run_shard : Z) : result Database :=
  db1 ← default (Err "unreachable: settlement loop out of fuel")
          (settle_terminal_chunks_with (S (size (db_chunks db))) db now run_id run_shard);
  initialize_run_shard_summary_with db1 now run_id run_shard.

Definition cancel_execution_target_with_transaction (db : Database) (now run_id : Z) (run_shards : list Z)
    : result (Database * CancellationCounts) :=
  let '(db1, chunks_cancelled) := cancel_open_chunks db now run_id in
  let '(db2, attempts_cancelled) := cancel_open_attempts db1 now run_id in
  let '(db3, executions_cancelled) := cancel_open_executions db2 now run_id in
  db4 ← foldM (cancel_shard now run_id) db3 run_shards;
  Ok (db4, mkCancellationCounts chunks_cancelled executions_cancelled attempts_cancelled).

(** ** Dispatch *)

(** [snapshot_upsert] of [dispatch_run_window]: a snapshot of an admitted run
    plan keeps its configuration. *)
Definition upsert_snapshot (db : Database) (run_id run_shard : Z) (context : RunContext) : Database :=
  let expected := shard_case_count db run_id run_shard in
  let row := match db_snapshots db !! (run_id, run_shard) with
    | Some old =>
        let config := rc_config_snapshot (sn_context old) in
        mkSnapshotRow
          (mkRunContext (rc_run_key context) (rc_dataset_id context) (rc_dataset_version_id context)
             (rc_dataset_version context) (rc_evaluation_profile_id context)
             (rc_evaluation_profile_version context) (rc_profile_version_id context) (rc_profile_hash context)
             (rc_aggregation_policy_id context) (rc_aggregation_policy_version context)
             (rc_aggregation_policy_hash context) (rc_agent_provider context) (rc_agent_name context)
             (rc_agent_version context) (rc_prompt_config_id context) (rc_prompt_config_version context)
             (if opt_is_some (json_get "run_plan" config) then config else rc_config_snapshot context))
          expected
    | None => mkSnapshotRow context expected
    end in
  with_snapshots db (<[(run_id, run_shard) := row]> (db_snapshots db)).

Definition undispatched (run_id run_shard : Z) (k : row_key) (c : ChunkRow) : bool :=
  (k.1.1 =? run_id) && (k.1.2 =? run_shard)
  && bool_decide (ch_status c = ChPending) && opt_is_none (ch_dispatched_at c).

Definition mark_dispatched (now : Z) (c : ChunkRow) : ChunkRow :=
  mkChunkRow (ch_dataset_version_id c) (ch_profile_group_id c) (ch_ordinal_start c) (ch_ordinal_end c)
    (ch_status c) (Some (default now (ch_dispatched_at c))) (ch_lease_token c) (ch_leased_until c)
    (ch_recovery_count c) (ch_last_recovered_at c) (ch_created_at c) now.

Definition ready_event (run_id run_shard : Z) (database_alias : string) (write_epoch : Z)
    (outbox : gmap ready_key ReadyEvent) (k : row_key) : gmap ready_key ReadyEvent :=
  insert_new (k.1.1, k.2, None) (mkReadyEvent k.1.1 k.1.2 k.2 database_alias write_epoch None) outbox.

Record DispatchedRunWindow := mkDispatchedRunWindow {
  dw_chunk_ready_event_records_inserted : Z;
  dw_chunks_marked_dispatched : Z;
  dw_has_remaining_chunks : bool
}.

Definition dispatch_run_window (db : Database) (now chunk_window_size run_id run_shard : Z)
    (database_alias : string) (write_epoch : Z) (context : RunContext) : Database * DispatchedRunWindow :=
  let pending := merge_sort by_ordinal (map_to_list (rows_where (undispatched run_id run_shard) (db_chunks db))) in
  let selected := map fst (take (Z.to_nat chunk_window_size) pending) in
  let outbox := fold_left (ready_event run_id run_shard database_alias write_epoch) selected (db_outbox db) in
  let chunks := update_where (fun k _ => bool_decide (k ∈ selected)) (fun _ => mark_dispatched now) (db_chunks db) in
  (with_outbox (with_chunks (upsert_snapshot db run_id run_shard context) chunks) outbox,
   mkDispatchedRunWindow (Z.of_nat (size outbox) - Z.of_nat (size (db_outbox db))) (zlen selected)
     (exists_where (fun k c => undispatched run_id run_shard k c && negb (bool_decide (k ∈ selected))) (db_chunks db))).

(** [dispatch_cursor_status]: the control cursor stays open while chunks remain. *)
Definition dispatch_cursor_status (has_remaining_chunks : bool) : string :=
  if has_remaining_chunks then "open" else "drained".

(** The execution-side writes of [dispatch_routed_run_window_with_transactions],
    with the status the control cursor gets. *)
Definition dispatch_routed_run_window (db : Database) (now chunk_window_size run_id run_shard : Z)
    (database_alias : string) (write_epoch snapshot_run_id snapshot_run_shard : Z) (context : RunContext)
    : result (Database * DispatchedRunWindow * string) :=
  _ ← ensure ((run_id =? snapshot_run_id) && (run_shard =? snapshot_run_shard))
        "dispatch snapshot route mismatch";
  let '(db1, window) := dispatch_run_window db now chunk_window_size run_id run_shard database_alias write_epoch context in
  db2 ← insert_run_shard_summary_with db1 now run_id run_shard;
  Ok (db2, window, dispatch_cursor_status (dw_has_remaining_chunks window)).

End with_receipts.
