(* ===== verification/AgentClient.v ===== *)
(** * Agent client

    Models src/vigilo/src/agent_client.rs with agent_client/limits.rs and
    agent_client/failure.rs: byte budgets of HTTP bodies, the request bodies of
    both formats, the interpretation of responses and the classification of
    failures with bounded server retry advice.  [invoke] takes the outcome of
    the HTTP exchange as an argument; its error is the typed [Failure] the
    durable scheduler reads.  Timestamps are microseconds. *)

From Stdlib Require Import ZArith Lia Ascii.
From stdpp Require Import base strings numbers list.
From S2P Require Import Prelude Float64 BTree Text Json RunTypes ProfileValidation EvaluationPlan.

Open Scope Z_scope.

(** ** Strings *)

(** [s.trim()] on UTF-8 bytes. *)
Fixpoint trim_start_fuel (n : nat) (l : list Z) : list Z :=
  match n with
  | O => l
  | S n' =>
      match l with
      | a :: b :: c :: l3 =>
          if ws1 a then trim_start_fuel n' (b :: c :: l3)
          else if ws2 a b then trim_start_fuel n' (c :: l3)
          else if ws3 a b c then trim_start_fuel n' l3 else l
      | [a; b] => if ws1 a then trim_start_fuel n' [b] else if ws2 a b then [] else l
      | [a] => if ws1 a then [] else l
      | [] => []
      end
  end.

Fixpoint trim_end_fuel (n : nat) (l : list Z) : list Z :=
  match n with
  | O => l
  | S n' =>
      match l with
      | a :: b :: c :: l3 =>
          if ws1 a then trim_end_fuel n' (b :: c :: l3)
          else if ws2 b a then trim_end_fuel n' (c :: l3)
          else if ws3 c b a then trim_end_fuel n' l3 else l
      | [a; b] => if ws1 a then trim_end_fuel n' [b] else if ws2 b a then [] else l
      | [a] => if ws1 a then [] else l
      | [] => []
      end
  end.

Definition trim (l : list Z) : list Z :=
  let l1 := trim_start_fuel (length l) l in
  reverse (trim_end_fuel (length l1) (reverse l1)).

Definition of_codes (l : list Z) : string :=
  String.string_of_list_ascii (map (fun c => ascii_of_N (Z.to_N c)) l).

Definition trim_str (s : string) : string := of_codes (trim (codes s)).

(** [body.chars().take(n)]: a byte outside 0x80-0xBF starts a character. *)
Fixpoint take_chars (n : nat) (l : list Z) : list Z :=
  match l with
  | [] => []
  | a :: l' =>
      if between 128 191 a then a :: take_chars n l'
      else match n with O => [] | S n' => a :: take_chars n' l' end
  end.

(** [digits.parse::<u64>()] and [parse::<u32>()]. *)
Definition digits_value (l : list Z) : Z := fold_left (fun acc d => acc * 10 + (d - 48)) l 0.
Definition all_digits (l : list Z) : bool := negb (bool_decide (l = [])) && forallb is_ascii_digit l.
Definition strip_plus (l : list Z) : list Z :=
  match l with a :: rest => if a =? 43 then rest else l | [] => [] end.
Definition parse_unsigned (max : Z) (l : list Z) : option Z :=
  let digits := strip_plus l in
  if all_digits digits then checked 0 max (digits_value digits) else None.
Definition parse_u64 : list Z -> option Z := parse_unsigned u64_max.
Definition parse_u32 : list Z -> option Z := parse_unsigned u32_max.

Lemma parse_unsigned_Some max l n :
  parse_unsigned max l = Some n -> n = digits_value (strip_plus l) /\ 0 <= n <= max.
Proof.
  unfold parse_unsigned. destruct (all_digits _); [|done]. intros H. apply checked_Some in H. naive_solver.
Qed.

(** ** Byte budgets (agent_client/limits.rs) *)

Definition DEFAULT_BODY_BYTES : Z := 4 * 1024 * 1024.

Record Limits := mkLimits { li_max_request_bytes : Z; li_max_response_bytes : Z }.

Definition default_limits : Limits := mkLimits DEFAULT_BODY_BYTES DEFAULT_BODY_BYTES.

Definition resolve_limit (name : string) (requested : option Z) (ceiling : Z) : result Z :=
  let value := default ceiling requested in
  _ ← ensure ((0 <? value) && (value <=? ceiling))
        ("agent.http." +:+ name +:+ " must be between 1 and worker ceiling");
  Ok value.

Definition resolve_limits (ceilings : Limits) (profile : AgentHttpConfig) : result Limits :=
  request ← resolve_limit "max_request_bytes" (ah_max_request_bytes profile) (li_max_request_bytes ceilings);
  response ← resolve_limit "max_response_bytes" (ah_max_response_bytes profile) (li_max_response_bytes ceilings);
  Ok (mkLimits request response).

Record Body := mkBody { bo_bytes : string; bo_limit : Z }.

Definition body_new (limit : Z) : Body := mkBody "" limit.

Definition body_append (body : Body) (bytes : string) : result Body :=
  if saturating_sub (bo_limit body) (str_len (bo_bytes body)) <? str_len bytes
  then Err "agent HTTP body exceeds byte limit"
  else Ok (mkBody (bo_bytes body +:+ bytes) (bo_limit body)).

(** ** Failures (agent_client/failure.rs) *)

Definition DEFAULT_MAX_RETRY_AFTER_SECS : Z := 600.

Inductive Kind :=
| Configuration | Authentication | RateLimited | HttpStatus | Timeout | Transport
| BodyLimit | InvalidResponse | RetryDelayExceeded.

#[global] Instance Kind_eq_dec : EqDecision Kind.
Proof. solve_decision. Defined.

Record Failure := mkFailure {
  fa_kind : Kind;
  fa_http_status : option Z;
  fa_retryable : bool;
  fa_retry_not_before : option Z;
  fa_retry_delay_secs : option Z;
  fa_message : string
}.

Definition failure_terminal (kind : Kind) (message : string) : Failure :=
  mkFailure kind None false None None message.

(** What [Failure::transport] reads of a [reqwest::Error]. *)
Record TransportError := mkTransportError {
  te_is_timeout : bool;
  te_is_builder : bool;
  te_is_redirect : bool;
  te_text : string
}.

Definition failure_transport (error : TransportError) (phase : string) (status : option Z) : Failure :=
  let kind := if te_is_timeout error then Timeout
              else if te_is_builder error || te_is_redirect error then Configuration else Transport in
  mkFailure kind status (bool_decide (kind = Timeout) || bool_decide (kind = Transport)) None None
    (phase +:+ ": " +:+ te_text error).

Definition retryable_status (status : Z) : bool :=
  bool_decide (status ∈ [408; 425; 429; 500; 502; 503; 504]).

Definition set_retry (f : Failure) (not_before delay : option Z) : Failure :=
  mkFailure (fa_kind f) (fa_http_status f) (fa_retryable f) not_before delay (fa_message f).

Definition with_excerpt (f : Failure) (excerpt : string) : Failure :=
  if str_is_empty excerpt then f
  else mkFailure (fa_kind f) (fa_http_status f) (fa_retryable f) (fa_retry_not_before f)
         (fa_retry_delay_secs f) (fa_message f +:+ ": " +:+ excerpt).

Definition with_status (f : Failure) (status : Z) : Failure :=
  mkFailure (fa_kind f) (Some status) (fa_retryable f) (fa_retry_not_before f)
    (fa_retry_delay_secs f) (fa_message f).

Definition one_second : Z := 1000000.

Section failures.

(** [httpdate::parse_http_date], as microseconds. *)
Variable parse_http_date : list Z -> option Z.
(** [u16] and [u32] printed by [format!]. *)
Variable show : Z -> string.

(** [not_before]: [None] is the source's [Err(())]. *)
Definition not_before (value : list Z) (now max_delay : Z) : option (option Z) :=
  let value := trim value in
  if all_digits value then
    seconds ← parse_u64 value;
    if max_delay <? seconds then None else Some (Some (now + seconds * one_second))
  else if 128 <? zlen value then Some None
  else
    match parse_http_date value with
    | None => Some None
    | Some date =>
        let date := Z.max date now in
        if now + max_delay * one_second <? date then None else Some (Some date)
    end.

Definition failure_http (status : Z) (retry_after : option (list Z)) (now max_delay : Z) : Failure :=
  let kind := if (status =? 401) || (status =? 403) then Authentication
              else if status =? 429 then RateLimited else HttpStatus in
  let f := mkFailure kind (Some status) (retryable_status status) None None
             ("agent HTTP request failed with status " +:+ show status) in
  if negb (fa_retryable f) then f
  else
    match retry_after with
    | None => f
    | Some value =>
        match not_before value now max_delay with
        | Some time => set_retry f time (if opt_is_some time then parse_u32 (trim value) else None)
        | None => mkFailure RetryDelayExceeded (Some status) false None None
                    ("agent HTTP status " +:+ show status +:+ ": Retry-After exceeds configured "
                     +:+ show max_delay +:+ " second limit")
        end
    end.

(** ** Lemmas on advice *)

Lemma not_before_bounds value now max_delay time :
  not_before value now max_delay = Some (Some time) ->
  now <= time <= now + max_delay * one_second.
Proof.
  unfold not_before, one_second. destruct (all_digits (trim value)) eqn:Hdig.
  - destruct (parse_u64 (trim value)) as [n|] eqn:Hp; [|done]. cbn.
    apply parse_unsigned_Some in Hp as [_ Hn]. destruct (max_delay <? n) eqn:E; [done|].
    intros [= <-]. lia.
  - destruct (128 <? zlen (trim value)); [done|].
    destruct (parse_http_date (trim value)) as [date|]; [|done].
    destruct (now + max_delay * 1000000 <? Z.max date now) eqn:E; [done|].
    intros [= <-]. lia.
Qed.

(** Delta-seconds advice is within the configured horizon. *)
Lemma delay_bounds value now max_delay time secs :
  not_before value now max_delay = Some (Some time) -> parse_u32 (trim value) = Some secs ->
  0 <= secs /\ (all_digits (trim value) = true -> secs <= max_delay).
Proof.
  unfold not_before. intros Hn Hp. apply parse_unsigned_Some in Hp as [Hp Hb]. split; [lia|].
  intros Hd. rewrite Hd in Hn. destruct (parse_u64 (trim value)) as [n|] eqn:H64; [|done]. cbn in Hn.
  apply parse_unsigned_Some in H64 as [H64 _]. destruct (max_delay <? n) eqn:E; [done|]. lia.
Qed.

(** The policy of an HTTP status. *)
Definition status_policy (max_delay received_at : Z) (f : Failure) : Prop :=
  (fa_retryable f = true -> exists status, fa_http_status f = Some status /\
     retryable_status status = true /\ (fa_kind f = RateLimited \/ fa_kind f = HttpStatus)) /\
  (forall t, fa_retry_not_before f = Some t ->
     fa_retryable f = true /\ received_at <= t <= received_at + max_delay * one_second).

Lemma failure_http_policy status retry_after now max_delay :
  status_policy max_delay now (failure_http status retry_after now max_delay).
Proof.
  unfold failure_http. cbn [fa_retryable]. destruct (retryable_status status) eqn:Hr; simpl.
  - assert (Hk : (if (status =? 401) || (status =? 403) then Authentication
                  else if status =? 429 then RateLimited else HttpStatus) = RateLimited \/
                 (if (status =? 401) || (status =? 403) then Authentication
                  else if status =? 429 then RateLimited else HttpStatus) = HttpStatus).
    { unfold retryable_status in Hr. apply bool_decide_eq_true in Hr.
      repeat (apply elem_of_cons in Hr as [->|Hr]; [by auto|]). by apply not_elem_of_nil in Hr. }
    destruct retry_after as [value|]; [|split; [by eauto|done]].
    destruct (not_before value now max_delay) as [time|] eqn:Hn; [|by split].
    split; [by eauto|]. simpl. intros t ->. split; [done|]. by eapply not_before_bounds.
  - by split.
Qed.

Lemma with_excerpt_policy max_delay received_at f excerpt :
  status_policy max_delay received_at f -> status_policy max_delay received_at (with_excerpt f excerpt).
Proof. unfold with_excerpt. by destruct (str_is_empty excerpt). Qed.

End failures.

(** ** Data of the evaluator boundary *)

Record ToolCall := mkToolCall { tl_name : string; tl_arguments : Value; tl_result : option Value }.

Record AgentOutput := mkAgentOutput {
  ao_text : option string;
  ao_structured : option Value;
  ao_tool_calls : list ToolCall;
  ao_trace : list Value;
  ao_raw : Value;
  ao_metadata : Value
}.

(** The outcome of one HTTP exchange: the request could not be sent, or a
    response arrived whose body chunks may end in a read error. *)
Inductive Exchange :=
| SendFailed (error : TransportError)
| Responded (status : Z) (retry_after : option (list Z)) (chunks : list (TransportError + string)) (received_at : Z).

(** Functions of serde_json, uuid, reqwest, httpdate and the standard library. *)
Class AgentFunctions := {
  json_pieces : Value -> list string;
  json_from_str : string -> option Value;
  agent_output_from_value : Value -> result AgentOutput;
  uuid_json : Uuid -> Value;
  method_parses : string -> bool;
  parse_http_date : list Z -> option Z;
  show_number : Z -> string;
  from_utf8_lossy : list Z -> string
}.

Section client.
Context {AF : AgentFunctions}.

(** [serde_json::to_string]: what the serializer writes, piece by piece. *)
Definition json_to_string (v : Value) : string := fold_left String.append (json_pieces v) "".

(** [limits::serialize]. *)
Definition serialize (v : Value) (limit : Z) : result string :=
  match foldM body_append (body_new limit) (json_pieces v) with
  | Ok body => Ok (bo_bytes body)
  | Err e => Err ("agent HTTP request serialization failed: " +:+ e)
  end.

(** ** Request bodies *)

Definition opt_str (o : option string) : Value := match o with Some s => Str s | None => Null end.
Definition opt_json (o : option Value) : Value := default Null o.
Definition object (fields : list (string * Value)) : Value := Object (bt_collect fields).

Definition agent_value (profile : RunProfile) : Value :=
  let agent := rp_agent profile in
  object [("provider", Str (ap_provider agent)); ("name", Str (ap_name agent));
          ("version", opt_str (ap_version agent)); ("model", opt_str (ap_model agent));
          ("config", ap_config agent)].

Definition build_vigilo_case_request_body (run_id execution_id attempt_id : Uuid)
    (profile : RunProfile) (case : TestCase) : Value :=
  object [("run_id", uuid_json run_id); ("execution_id", uuid_json execution_id);
          ("attempt_id", uuid_json attempt_id); ("agent", agent_value profile);
          ("input", tc_input case);
          ("case", object [("id", Str (tc_id case)); ("task_type", Str (tc_task_type case));
                           ("case_group", opt_str (tc_case_group case)); ("input", tc_input case);
                           ("context", opt_json (tc_context case)); ("tags", Array (map Str (tc_tags case)));
                           ("metadata", Object (tc_metadata case))])].

Definition str_member (key : string) (v : Value) : option string := json_get key v ≫= as_str.

Definition input_text_for_chat (case : TestCase) : string :=
  match str_member "user_message" (tc_input case) with
  | Some message => message
  | None =>
      match str_member "prompt" (tc_input case) with
      | Some prompt => prompt
      | None => json_to_string (tc_input case)
      end
  end.

Definition chat_message (role content : string) : Value :=
  object [("role", Str role); ("content", Str content)].

Definition push_input_message (messages : list Value) (message : Value) : result (list Value) :=
  let role := default "user" (str_member "role" message) in
  content ← ok_or (str_member "content" message) "input.messages entries must include string content";
  Ok (messages ++ [chat_message role content]).

Definition build_openai_compatible_chat_messages (profile : RunProfile) (case : TestCase) : result Value :=
  let system := match str_member "system_prompt" (ap_config (rp_agent profile)) with
    | Some prompt => if trim_is_empty prompt then [] else [chat_message "system" prompt]
    | None => []
    end in
  messages ← match json_get "messages" (tc_input case) ≫= as_array with
             | Some input_messages => foldM push_input_message system input_messages
             | None => Ok (system ++ [chat_message "user" (input_text_for_chat case)])
             end;
  Ok (Array messages).

Definition copy_chat_completion_option (config : Value) (body : btree string Value) (key : string)
    : btree string Value :=
  match json_get key config with
  | Some value => bt_insert key value body
  | None => body
  end.

Definition chat_completion_options : list string :=
  ["temperature"; "top_p"; "min_p"; "max_tokens"; "stop"; "seed"; "response_format";
   "presence_penalty"; "frequency_penalty"; "repeat_penalty"].

Definition is_number (v : Value) : bool := match v with Num _ => true | _ => false end.

Definition build_openai_compatible_chat_completions_request_body (profile : RunProfile) (case : TestCase)
    : result Value :=
  let agent := rp_agent profile in
  let model := default (ap_name agent) (ap_model agent) in
  messages ← build_openai_compatible_chat_messages profile case;
  let body := bt_collect [("model", Str model); ("messages", messages); ("stream", Bool false)] in
  let body := fold_left (copy_chat_completion_option (ap_config agent)) chat_completion_options body in
  match bt_get "temperature" body with
  | None => Ok (Object (bt_insert "temperature" (Num (Float (SpecFloat.S754_zero false))) body))
  | Some value =>
      _ ← ensure (is_number value) "agent.config.temperature must be numeric when provided";
      Ok (Object body)
  end.

Definition build_request_body (run_id execution_id attempt_id : Uuid) (profile : RunProfile)
    (case : TestCase) : result Value :=
  format ← format_from_profile profile;
  match format with
  | VigiloCase => Ok (build_vigilo_case_request_body run_id execution_id attempt_id profile case)
  | OpenAiCompatibleChatCompletions => build_openai_compatible_chat_completions_request_body profile case
  end.

(** ** Responses *)

Definition response_body_excerpt (body : string) : string := of_codes (take_chars 512 (codes body)).

Definition starts_json (s : string) : bool :=
  match codes s with a :: _ => (a =? 123) || (a =? 91) | [] => false end.

Definition parse_response_body (body : string) : result Value :=
  let trimmed := trim_str body in
  if str_is_empty trimmed then Ok (Object [])
  else
    match json_from_str trimmed with
    | Some value => Ok value
    | None => if starts_json trimmed then Err "agent response body was not valid JSON"
              else Ok (object [("text", Str body)])
    end.

(** One token of a JSON pointer; ["0"] is the only token used on an array. *)
Definition pointer_step (key : string) (v : Value) : option Value :=
  match v with
  | Object m => bt_get key m
  | Array items => if str_eqb key "0" then head items else None
  | _ => None
  end.

Definition string_at (v : Value) (path : list string) : option string :=
  fold_left (fun acc key => acc ≫= pointer_step key) path (Some v) ≫= as_str.

Definition extract_agent_response_text (response output_value : Value) : option string :=
  List.find (fun text => negb (trim_is_empty text))
    (omap id
      [string_at output_value ["text"]; string_at output_value ["output_text"];
       string_at output_value ["message"; "content"]; string_at response ["text"];
       string_at response ["output_text"]; string_at response ["message"; "content"];
       string_at response ["choices"; "0"; "message"; "content"]]).

Definition or_else {A} (a b : option A) : option A := match a with Some _ => a | None => b end.

Definition extract_agent_response_structured (output_value : Value) : option Value :=
  or_else (json_get "structured_output" output_value) (json_get "json" output_value).

Definition parse_structured_text (text : string) : option Value :=
  let trimmed := trim_str text in
  if starts_json trimmed then json_from_str trimmed else None.

Definition is_empty_object (v : Value) : bool := match v with Object [] => true | _ => false end.

Definition output_from_response_json (response : Value) : result AgentOutput :=
  let output_value := default response (or_else (json_get "actual" response) (json_get "output" response)) in
  match output_value with
  | Str text => Ok (mkAgentOutput (Some text) None [] [] response (Object []))
  | _ =>
      output ← agent_output_from_value output_value;
      let text := or_else (ao_text output) (extract_agent_response_text response output_value) in
      let structured := or_else (ao_structured output)
        (or_else (extract_agent_response_structured output_value) (text ≫= parse_structured_text)) in
      let raw := if is_empty_object (ao_raw output) then response else ao_raw output in
      Ok (mkAgentOutput text structured (ao_tool_calls output) (ao_trace output) raw (ao_metadata output))
  end.

Definition opt_number (o : option Z) : Value := match o with Some n => Num (PosInt n) | None => Null end.

Definition invocation_metadata (profile : RunProfile) (http_status : option Z) (latency_ms : Z) : Value :=
  object [("source", Str "http_agent_client"); ("http_status", opt_number http_status);
          ("latency_ms", Num (PosInt latency_ms)); ("agent", agent_value profile)].

Definition attach_invocation_metadata (output : AgentOutput) (profile : RunProfile)
    (http_status : option Z) (latency_ms : Z) : AgentOutput :=
  let invocation := invocation_metadata profile http_status latency_ms in
  let metadata := match ao_metadata output with
    | Object m => Object (bt_insert "vigilo_invocation" invocation m)
    | other => object [("value", other); ("vigilo_invocation", invocation)]
    end in
  mkAgentOutput (ao_text output) (ao_structured output) (ao_tool_calls output) (ao_trace output)
    (ao_raw output) metadata.

(** ** Invocation *)

Definition failing {A} (kind : Kind) (r : result A) : Failure + A :=
  match r with Ok a => inr a | Err e => inl (failure_terminal kind e) end.

Definition and_then {A B} (m : Failure + A) (f : A -> Failure + B) : Failure + B :=
  match m with inl e => inl e | inr a => f a end.

(** What [invoke] settles before the request is sent. *)
Record Prepared := mkPrepared { pr_request : string; pr_limits : Limits; pr_max_retry_after : Z }.

Definition prepare_invocation (ceilings : Limits) (run_id execution_id attempt_id : Uuid)
    (profile : RunProfile) (case : TestCase) : Failure + Prepared :=
  let http := ap_http (rp_agent profile) in
  and_then (failing Configuration (resolve_limits ceilings http)) (fun limits =>
  let max_retry_after := default DEFAULT_MAX_RETRY_AFTER_SECS (ah_max_retry_after_secs http) in
  if (max_retry_after =? 0) || (MAX_RETRY_AFTER_SECS <? max_retry_after)
  then inl (failure_terminal Configuration "agent.http.max_retry_after_secs must be between 1 and 86400")
  else
  let timeout_secs := default (rd_request_timeout_secs (rp_defaults profile)) (ah_timeout_secs http) in
  if timeout_secs =? 0
  then inl (failure_terminal Configuration "agent HTTP timeout_secs must be greater than zero")
  else if negb (method_parses (ah_method http))
  then inl (failure_terminal Configuration "invalid agent HTTP method")
  else
  and_then (failing Configuration (build_request_body run_id execution_id attempt_id profile case)) (fun body =>
  and_then (failing BodyLimit (serialize body (li_max_request_bytes limits))) (fun request =>
  inr (mkPrepared request limits max_retry_after)))).

(** The loop over the chunks of the response body. *)
Fixpoint read_chunks (http_failure : option Failure) (status : Z) (body : Body)
    (chunks : list (TransportError + string)) : Failure + Body :=
  match chunks with
  | [] => inr body
  | inl error :: _ =>
      inl (default (failure_transport error "failed to read agent HTTP response body" (Some status)) http_failure)
  | inr chunk :: rest =>
      match body_append body chunk with
      | Ok body' => read_chunks http_failure status body' rest
      | Err e => inl (with_status (failure_terminal BodyLimit ("agent HTTP response limit exceeded: " +:+ e)) status)
      end
  end.

Definition strip_bom (l : list Z) : list Z :=
  match l with
  | a :: b :: c :: rest => if (a =? 239) && (b =? 187) && (c =? 191) then rest else l
  | _ => l
  end.

Definition is_success (status : Z) : bool := (200 <=? status) && (status <? 300).

Definition interpret_response (p : Prepared) (profile : RunProfile) (latency_ms status : Z)
    (retry_after : option (list Z)) (chunks : list (TransportError + string)) (received_at : Z)
    : Failure + AgentOutput :=
  let http_failure :=
    if is_success status then None
    else Some (failure_http parse_http_date show_number status retry_after received_at (pr_max_retry_after p)) in
  and_then (read_chunks http_failure status (body_new (li_max_response_bytes (pr_limits p))) chunks) (fun body =>
  let text := from_utf8_lossy (strip_bom (codes (bo_bytes body))) in
  match http_failure with
  | Some failure => inl (with_excerpt failure (response_body_excerpt text))
  | None =>
      match (response ← parse_response_body text; output_from_response_json response) with
      | Ok output => inr (attach_invocation_metadata output profile (Some status) latency_ms)
      | Err e => inl (with_status (failure_terminal InvalidResponse e) status)
      end
  end).

(** [invoke]: [exchange] is what the transport makes of a request body. *)
Definition invoke (ceilings : Limits) (run_id execution_id attempt_id : Uuid) (profile : RunProfile)
    (case : TestCase) (exchange : string -> Exchange) (latency_ms : Z) : Failure + AgentOutput :=
  and_then (prepare_invocation ceilings run_id execution_id attempt_id profile case) (fun p =>
  match exchange (pr_request p) with
  | SendFailed error => inl (failure_transport error "agent HTTP request failed" None)
  | Responded status retry_after chunks received_at =>
      interpret_response p profile latency_ms status retry_after chunks received_at
  end).

(** ** Bodies stay within their budget *)

Lemma body_append_Ok body bytes body' :
  body_append body bytes = Ok body' ->
  bo_bytes body' = bo_bytes body +:+ bytes /\ bo_limit body' = bo_limit body /\
  (str_len (bo_bytes body) <= bo_limit body -> str_len (bo_bytes body') <= bo_limit body).
Proof.
  unfold body_append. destruct (_ <? _) eqn:E; [done|]. intros [= <-]. simpl. split_and!; try done.
  intros Hpos. unfold saturating_sub in E. rewrite str_len_app. lia.
Qed.

Lemma serialize_Ok v limit s :
  0 <= limit -> serialize v limit = Ok s -> s = json_to_string v /\ str_len s <= limit.
Proof.
  intros Hpos. unfold serialize. destruct (foldM body_append (body_new limit) (json_pieces v)) as [body|] eqn:H; [|done].
  intros [= <-].
  eapply (foldM_inv_prefix (fun pre b => bo_bytes b = fold_left String.append pre "" /\
    bo_limit b = limit /\ str_len (bo_bytes b) <= limit)) in H; [|by split_and!|].
  - tauto.
  - intros pre b piece b1 (H1 & H2 & H3) Ha. apply body_append_Ok in Ha as (Ha1 & Ha2 & Ha3).
    rewrite fold_left_app. simpl. rewrite Ha1, H1. split_and!; [done|congruence|]. rewrite <- H1, <- Ha1. lia.
Qed.

(** A body that would exceed its budget is refused. *)
Lemma serialize_Err v limit e :
  0 <= limit -> serialize v limit = Err e -> limit < str_len (json_to_string v).
Proof.
  intros Hpos. unfold serialize, json_to_string.
  assert (G : forall pieces b, bo_limit b = limit -> str_len (bo_bytes b) <= limit ->
    match foldM body_append b pieces with
    | Ok _ => True
    | Err _ => limit < str_len (fold_left String.append pieces (bo_bytes b))
    end).
  { induction pieces as [|piece pieces IH]; intros b Hl Hb; [done|]. simpl.
    destruct (body_append b piece) as [b'|] eqn:E; simpl.
    - pose proof (body_append_Ok _ _ _ E) as (Hb1 & Hb2 & Hb3). rewrite <- Hb1. apply IH; lia.
    - unfold body_append in E. destruct (_ <? _) eqn:E1; [|done].
      assert (Hgrow : forall l s, str_len s <= str_len (fold_left String.append l s)).
      { induction l as [|x l IHl]; intros s; simpl; [lia|]. etransitivity; [|apply IHl].
        rewrite str_len_app. pose proof (str_len_nonneg x). lia. }
      eapply Z.lt_le_trans; [|apply Hgrow]. unfold saturating_sub in E1.
      rewrite str_len_app. lia. }
  specialize (G (json_pieces v) (body_new limit) eq_refl ltac:(done)).
  destruct (foldM body_append (body_new limit) (json_pieces v)); [done|]. intros _. exact G.
Qed.

Lemma read_chunks_bounded http_failure status body chunks body' :
  str_len (bo_bytes body) <= bo_limit body ->
  read_chunks http_failure status body chunks = inr body' ->
  str_len (bo_bytes body') <= bo_limit body.
Proof.
  revert body; induction chunks as [|[error|chunk] rest IH]; intros body Hb H; simpl in H.
  - by injection H as <-.
  - done.
  - destruct (body_append body chunk) as [b|] eqn:E; [|done].
    apply body_append_Ok in E as (_ & Hl & Hbound). rewrite <- Hl. apply IH; [lia|done].
Qed.

Lemma resolve_limits_Ok ceilings http limits :
  resolve_limits ceilings http = Ok limits ->
  0 < li_max_request_bytes limits <= li_max_request_bytes ceilings /\
  0 < li_max_response_bytes limits <= li_max_response_bytes ceilings.
Proof.
  unfold resolve_limits, resolve_limit. intros H.
  apply bind_Ok in H as (rq & Hq & H). apply bind_Ok in Hq as ([] & Hq & Hq').
  apply bind_Ok in H as (rs & Hs & H). apply bind_Ok in Hs as ([] & Hs & Hs').
  apply ensure_Ok in Hq. apply ensure_Ok in Hs. injection Hq' as <-. injection Hs' as <-.
  injection H as <-. simpl. lia.
Qed.

Lemma failing_inr {A} kind (r : result A) a : failing kind r = inr a -> r = Ok a.
Proof. destruct r; simpl; congruence. Qed.

Lemma failing_inl {A} kind (r : result A) f : failing kind r = inl f -> exists e, f = failure_terminal kind e.
Proof. destruct r; simpl; [done|]. intros [= <-]. eauto. Qed.

Lemma and_then_inr {A B} (m : Failure + A) (f : A -> Failure + B) b :
  and_then m f = inr b <-> exists a, m = inr a /\ f a = inr b.
Proof. destruct m; simpl; naive_solver. Qed.

Lemma and_then_inl {A B} (m : Failure + A) (f : A -> Failure + B) e :
  and_then m f = inl e <-> m = inl e \/ exists a, m = inr a /\ f a = inl e.
Proof. destruct m; simpl; naive_solver. Qed.

Lemma prepare_Ok ceilings run_id execution_id attempt_id profile case p :
  prepare_invocation ceilings run_id execution_id attempt_id profile case = inr p ->
  str_len (pr_request p) <= li_max_request_bytes ceilings /\
  0 < li_max_response_bytes (pr_limits p) <= li_max_response_bytes ceilings /\
  pr_max_retry_after p <= MAX_RETRY_AFTER_SECS /\
  exists body, build_request_body run_id execution_id attempt_id profile case = Ok body /\
    pr_request p = json_to_string body.
Proof.
  unfold prepare_invocation. intros H.
  apply and_then_inr in H as (limits & Hl & H). apply failing_inr, resolve_limits_Ok in Hl.
  do 3 (case_if; [done|]).
  apply and_then_inr in H as (body & Hb & H). apply failing_inr in Hb.
  apply and_then_inr in H as (request & Hr & H). apply failing_inr in Hr.
  apply serialize_Ok in Hr as [-> Hlen]; [|lia]. injection H as <-. simpl.
  split_and!; try lia. eauto.
Qed.

(** An error before the request is sent is terminal. *)
Lemma prepare_Err ceilings run_id execution_id attempt_id profile case f :
  prepare_invocation ceilings run_id execution_id attempt_id profile case = inl f ->
  exists kind e, f = failure_terminal kind e /\ (kind = Configuration \/ kind = BodyLimit).
Proof.
  unfold prepare_invocation. intros H.
  apply and_then_inl in H as [H|(limits & _ & H)]; [apply failing_inl in H as [e ->]; by eexists _, _; auto|].
  do 3 (case_if; [injection H as <-; by eexists _, _; auto|]).
  apply and_then_inl in H as [H|(body & _ & H)]; [apply failing_inl in H as [e ->]; by eexists _, _; auto|].
  apply and_then_inl in H as [H|(request & _ & H)]; [apply failing_inl in H as [e ->]; by eexists _, _; auto|done].
Qed.

Lemma read_chunks_Err http_failure status body chunks f :
  read_chunks http_failure status body chunks = inl f ->
  http_failure = Some f \/ (exists e, f = with_status (failure_terminal BodyLimit e) status) \/
  (exists error phase, f = failure_transport error phase (Some status)).
Proof.
  revert body; induction chunks as [|[error|chunk] rest IH]; intros body H; simpl in H; [done|..].
  - injection H as <-. destruct http_failure; simpl; eauto.
  - destruct (body_append body chunk); [by eapply IH|]. injection H as <-. eauto.
Qed.

Lemma transport_policy error phase status :
  let f := failure_transport error phase status in
  (fa_retryable f = true -> fa_kind f = Timeout \/ fa_kind f = Transport) /\ fa_retry_not_before f = None.
Proof.
  unfold failure_transport. destruct (te_is_timeout error); [by auto|].
  by destruct (te_is_builder error || te_is_redirect error); auto.
Qed.

(** C39: The failure policy of an invocation, for every profile, request and
    outcome of the HTTP exchange: a failure is retryable only for a timeout, a
    transport error or a response whose status is one of 408, 425, 429, 500,
    502, 503 and 504; every other failure (configuration, request too large,
    response too large, malformed response, authentication, other statuses,
    advice beyond the horizon) is terminal.  Server advice is kept only on
    retryable failures and always lies between the receipt of the response and
    the maximum horizon after it. *)
Theorem invoke_failure_policy (ceilings : Limits) (run_id execution_id attempt_id : Uuid)
    (profile : RunProfile) (case : TestCase) (exchange : string -> Exchange) (latency_ms : Z) (f : Failure) :
  invoke ceilings run_id execution_id attempt_id profile case exchange latency_ms = inl f ->
  (fa_retryable f = true -> fa_kind f = Timeout \/ fa_kind f = Transport \/
     exists status, fa_http_status f = Some status /\ retryable_status status = true /\
       (fa_kind f = RateLimited \/ fa_kind f = HttpStatus)) /\
  (forall t, fa_retry_not_before f = Some t -> fa_retryable f = true /\
     exists request status retry_after chunks received_at,
       exchange request = Responded status retry_after chunks received_at /\
       received_at <= t <= received_at + MAX_RETRY_AFTER_SECS * one_second).
Proof.
  unfold invoke. intros H. apply and_then_inl in H as [H|(p & Hp & H)].
  { apply prepare_Err in H as (kind & e & -> & _). by split. }
  apply prepare_Ok in Hp as (_ & _ & Hmax & _).
  destruct (exchange (pr_request p)) as [error|status retry_after chunks received_at] eqn:Hex.
  { injection H as <-. destruct (transport_policy error "agent HTTP request failed" None) as [Hr Hn].
    split; [naive_solver|]. intros t Ht. by rewrite Hn in Ht. }
  assert (G : status_policy (pr_max_retry_after p) received_at f \/
              ((fa_retryable f = true -> fa_kind f = Timeout \/ fa_kind f = Transport) /\
               fa_retry_not_before f = None)).
  { unfold interpret_response in H. apply and_then_inl in H as [H|(body & _ & H)].
    - apply read_chunks_Err in H as [H|[(e & ->)|(error & phase & ->)]].
      + left. destruct (is_success status); [done|]. injection H as <-. apply failure_http_policy.
      + right. by split.
      + right. apply transport_policy.
    - destruct (is_success status); cbv zeta in H.
      + destruct (response ← _; output_from_response_json response); [done|].
        injection H as <-. right. by split.
      + injection H as <-. left. apply with_excerpt_policy, failure_http_policy. }
  destruct G as [[Hr Hn]|[Hr Hn]].
  - split; [naive_solver|]. intros t Ht. destruct (Hn t Ht) as [Hrt Hb]. split; [done|].
    exists (pr_request p), status, retry_after, chunks, received_at. split; [done|].
    unfold one_second in *. lia.
  - split; [naive_solver|]. intros t Ht. by rewrite Hn in Ht.
Qed.

(** The expected output of a case never reaches the agent: two cases that differ
    only in [expected] give the same invocation, whatever the transport does
    with the request. *)
Lemma expected_never_sent (ceilings : Limits) (run_id execution_id attempt_id : Uuid)
    (profile : RunProfile) (case : TestCase) (expected : option Value) (exchange : string -> Exchange)
    (latency_ms : Z) :
  invoke ceilings run_id execution_id attempt_id profile
    (mkTestCase (tc_id case) (tc_task_type case) (tc_case_group case) (tc_input case) expected
       (tc_context case) (tc_tags case) (tc_metadata case)) exchange latency_ms
  = invoke ceilings run_id execution_id attempt_id profile case exchange latency_ms.
Proof. reflexivity. Qed.

(** Agent bodies stay within their budgets: whatever the profile asks for,
    the request that is sent is the JSON text of the request body and no longer
    than the worker's request ceiling (a longer one is refused), and a response
    body is read to its end only if it fits the worker's response ceiling. *)
Theorem agent_bodies_bounded (ceilings : Limits) (run_id execution_id attempt_id : Uuid)
    (profile : RunProfile) (case : TestCase) (p : Prepared) :
  prepare_invocation ceilings run_id execution_id attempt_id profile case = inr p ->
  (exists body, build_request_body run_id execution_id attempt_id profile case = Ok body /\
     pr_request p = json_to_string body) /\
  str_len (pr_request p) <= li_max_request_bytes ceilings /\
  (forall v limit e, 0 <= limit -> serialize v limit = Err e -> limit < str_len (json_to_string v)) /\
  (forall http_failure status chunks body,
     read_chunks http_failure status (body_new (li_max_response_bytes (pr_limits p))) chunks = inr body ->
     str_len (bo_bytes body) <= li_max_response_bytes ceilings).
Proof.
  intros H. apply prepare_Ok in H as (Hreq & Hresp & _ & Hbody). split_and!; try done.
  - intros v limit e Hl. by apply serialize_Err.
  - intros hf status chunks body Hr. apply read_chunks_bounded in Hr; simpl in *; [lia|].
    change (str_len "") with 0. lia.
Qed.

End client.

(** ** Witnesses *)

Module Sample.

#[global] Instance functions : AgentFunctions := {|
  json_pieces := fun _ => ["{"; "}"];
  json_from_str := fun _ => None;
  agent_output_from_value := fun _ => Err "no output";
  uuid_json := fun n => Num (PosInt n);
  method_parses := fun _ => true;
  parse_http_date := fun _ => None;
  show_number := fun _ => "n";
  from_utf8_lossy := of_codes
|}.

Definition profile : RunProfile := sample_profile [].

Definition case : TestCase := mkTestCase "c" "qa" None (Str "hello") (Some (Str "secret")) None [] [].

(** A rate-limited response that asks for a pause of thirty seconds. *)
Definition limited (request : string) : Exchange := Responded 429 (Some (codes " 30")) [] 5000000.

Definition failure : Failure :=
  mkFailure RateLimited (Some 429) true (Some 35000000) (Some 30)
    "agent HTTP request failed with status n".

End Sample.

Lemma invoke_failure_policy_witness :
  exists request status retry_after chunks received_at,
    Sample.limited request = Responded status retry_after chunks received_at /\
    received_at <= 35000000 <= received_at + MAX_RETRY_AFTER_SECS * one_second.
Proof.
  apply (invoke_failure_policy default_limits 1 2 3 Sample.profile Sample.case Sample.limited 12 Sample.failure);
    reflexivity.
Defined.

Lemma agent_bodies_bounded_witness : str_len "{}" <= DEFAULT_BODY_BYTES.
Proof.
  apply (agent_bodies_bounded default_limits 1 2 3 Sample.profile Sample.case
    (mkPrepared "{}" default_limits 600)). reflexivity.
Defined.
