(* ===== verification/ExecutionAttempts.v ===== *)
(** * Execution attempts

    Models the durable side of case execution in
    src/vigilo/src/db/workflows/execution_processing.rs and its queries:
    redaction of stored payloads, allocation of attempts for a chunk's cases,
    persistence of evidence and aggregates, the batch of terminal transitions
    with its retry schedule, attempt heartbeats and the chunk's open-execution
    summary.  An attempt id and number are the authority of a worker over an
    execution; the invariants over all operations are in [ShardMachine]. *)

From Stdlib Require Import ZArith Lia.
From stdpp Require Import base strings numbers gmap option list.
From S2P Require Import Prelude Float64 BTree Text Json RunTypes ProfileValidation EvaluationPlan AgentClient.
From S2P Require Import ShardTables LocalAdmission ReceiptGates Settlement ChunkLease.

Open Scope Z_scope.

(** ** Stored payloads *)

Definition redacted_payload (reason : string) : Value :=
  Object (bt_collect [("redacted", Bool true); ("reason", Str reason)]).

Definition should_persist_raw_evaluator_output (p : PersistenceSettings) (status : EvaluationStatus) : bool :=
  match ps_persist_raw_outputs p with
  | RawAll => true
  | RawFailuresOnly => bool_decide (status = Failed) || bool_decide (status = Error)
  | RawNone => false
  end.

Definition persisted_evaluator_evidence (p : PersistenceSettings) (evidence : Value) : Value :=
  if ps_persist_evaluator_evidence p then evidence
  else redacted_payload "persistence.persist_evaluator_evidence=false".

Definition persisted_raw_evaluator_output (p : PersistenceSettings) (status : EvaluationStatus) (raw : Value) : Value :=
  if negb (ps_persist_evaluator_evidence p)
  then redacted_payload "persistence.persist_evaluator_evidence=false"
  else if should_persist_raw_evaluator_output p status then raw
  else redacted_payload (match ps_persist_raw_outputs p with
    | RawAll => "persistence.persist_raw_outputs=all"
    | RawFailuresOnly => "persistence.persist_raw_outputs=failures_only"
    | RawNone => "persistence.persist_raw_outputs=none"
    end).

(** The redacted column of summary mode. *)
Definition summary_payload (case_hash field : string) : Value :=
  Object (bt_collect [("redacted", Bool true); ("reason", Str "persistence.mode=summary");
                      ("case_hash", Str case_hash); ("field", Str field)]).

Definition persisted_case_input_payload (profile : RunProfile) (case : WorkerCaseBatchItem) : Value :=
  match ps_mode (rp_persistence profile) with
  | Full => wc_input_payload case
  | Summary => summary_payload (wc_case_hash case) "input_payload"
  end.

Definition persisted_case_expected_output (profile : RunProfile) (case : WorkerCaseBatchItem) : Value :=
  match ps_mode (rp_persistence profile) with
  | Full => wc_expected_output case
  | Summary => summary_payload (wc_case_hash case) "expected_output"
  end.

Definition persisted_case_metadata (profile : RunProfile) (case : WorkerCaseBatchItem) : Value :=
  match ps_mode (rp_persistence profile) with
  | Full => wc_metadata case
  | Summary => summary_payload (wc_case_hash case) "case_metadata"
  end.

Definition required_tags (profile : RunProfile) : list string :=
  flat_map sg_tags_all (ss_gates (rp_scorecard profile)).

Definition persisted_case_tags (profile : RunProfile) (tags : Value) : Value :=
  match ps_mode (rp_persistence profile) with
  | Full => tags
  | Summary =>
      Array (filter (fun tag => is_some_and (fun t => bool_decide (t ∈ required_tags profile)) (as_str tag) = true)
               (default [] (as_array tags)))
  end.

Section stored.

(** [serde_json::to_value] of bindings and of a normalization policy. *)
Variable bindings_value : list EvaluatorBinding -> Value.
Variable normalization_value : NormalizationPolicy -> Value.

Definition persisted_evaluator_manifest (profile : RunProfile) (bindings : list EvaluatorBinding) : Value :=
  match ps_mode (rp_persistence profile) with
  | Full => bindings_value bindings
  | Summary =>
      Array (map (fun b => Object (bt_collect
        [("id", Str (eb_id b)); ("ref", Str (eb_evaluator_ref b)); ("required", Bool (eb_required b));
         ("dimension", Str (eb_dimension b)); ("blocking", Bool (eb_blocking b));
         ("weight", Num (Float (eb_weight b))); ("normalization", normalization_value (eb_normalization b));
         ("pass_threshold", Num (Float (eb_pass_threshold b)));
         ("config", redacted_payload "persistence.mode=summary")])) bindings)
  end.

(** The columns of an execution for a case and its plan. *)
Definition allocation_columns (profile : RunProfile) (case : WorkerCaseBatchItem) (plan : CaseEvaluationPlan)
    : result ExecutionCase :=
  expected ← i32_try_from (zlen (cep_evaluator_bindings plan));
  Ok (mkExecutionCase (wc_case_hash case) (cep_profile_group_id plan) (wc_task_type case)
        (persisted_case_tags profile (wc_tags case)) (persisted_case_input_payload profile case)
        (persisted_case_expected_output profile case) (persisted_case_metadata profile case)
        (rp_profile_id profile) (rp_profile_version profile)
        (persisted_evaluator_manifest profile (cep_evaluator_bindings plan)) expected).

End stored.

(** ** Transitions and leases *)

Definition EXECUTION_RETRY_BASE_SECONDS : Z := 5.
Definition EXECUTION_RETRY_MAX_SECONDS : Z := 600.

Record ExecutionTerminalTransition := mkExecutionTerminalTransition {
  tt_execution_id : Uuid;
  tt_attempt_id : Uuid;
  tt_attempt_no : Z;
  tt_completed : bool;
  tt_error_message : option string;
  tt_requires_worker_lease : bool;
  tt_agent_failure : option Failure
}.

Record AttemptLeaseContext := mkAttemptLeaseContext {
  al_worker_id : Uuid;
  al_worker_host : option string;
  al_queue_message_id : Uuid;
  al_broker_message_id : option string;
  al_lease_seconds : Z
}.

Definition validate_attempt_lease_seconds (lease_seconds : Z) : result unit :=
  ensure (0 <? lease_seconds) "attempt lease_seconds must be greater than zero".

Definition validate_attempt_allocation_batch (case_count plan_count max_attempts lease_seconds : Z)
    : result (option Z) :=
  if case_count =? 0 then Ok None
  else
    _ ← ensure (negb (max_attempts =? 0)) "run profile defaults.max_attempts must be greater than zero";
    _ ← validate_attempt_lease_seconds lease_seconds;
    _ ← ensure (case_count =? plan_count) "case batch cases and evaluation plans differ";
    Some <$> i32_try_from max_attempts.

(** [lock_live_chunk_lease]: the holder's claim on its chunk is alive. *)
Definition lock_live_chunk_lease (db : Database) (now : Z) (h : DbRunChunk) : result unit :=
  token ← ok_or (wc_lease_token h) "chunk has no lease token";
  ensure (is_some_and (lease_guard db now token (wc_write_epoch h) (wc_key h)) (db_chunks db !! wc_key h))
    "chunk no longer owns a live lease".

Record AttemptAllocation := mkAttemptAllocation {
  aa_case_id : Uuid;
  aa_execution_id : Uuid;
  aa_attempt_id : option Uuid;
  aa_attempt_no : Z;
  aa_should_process : bool;
  aa_already_terminal : bool;
  aa_retry_not_due : bool;
  aa_max_attempts_exhausted : bool
}.

(** The execution of a case, by the unique key [(run_id, run_shard, case_id)]. *)
Definition find_execution (db : Database) (run_id run_shard case_id : Z) : option (row_key * ExecutionRow) :=
  head (map_to_list (rows_where (fun k e => (k.1.1 =? run_id) && (k.1.2 =? run_shard) && (ex_case_id e =? case_id))
                       (db_executions db))).

(** One input row of the execution upsert; [fresh] is the generated id of a new
    execution. *)
Definition upsert_execution (now run_id run_shard chunk_id : Z) (fresh : Uuid -> Uuid)
    (db : Database) (input : Uuid * ExecutionCase) : result Database :=
  let '(case_id, columns) := input in
  match find_execution db run_id run_shard case_id with
  | Some (k, e) =>
      Ok (with_executions db (<[k :=
        mkExecutionRow (ex_chunk_id e) (ex_case_id e) columns (ex_status e) (ex_current_attempt_no e)
          (ex_current_attempt_id e) (ex_last_error_message e) (ex_retry_after e) (ex_retry_count e)
          (ex_last_attempt_completed_at e) (ex_started_at e) (ex_completed_at e) (ex_created_at e) now]>
        (db_executions db)))
  | None =>
      let key := (run_id, run_shard, fresh case_id) in
      _ ← ensure (opt_is_none (db_executions db !! key)) "duplicate key value violates unique constraint";
      Ok (with_executions db (<[key :=
        mkExecutionRow chunk_id case_id columns ExPending 0 None None None 0 None None None now now]>
        (db_executions db)))
  end.

(** ** Allocation buckets *)

Inductive Bucket := TerminalOrClosed | RetryWaiting | ExhaustedOpen | RetryEligible.

Definition bucket_of (now max_attempts : Z) (e : ExecutionRow) : option Bucket :=
  if negb (execution_open (ex_status e)) then Some TerminalOrClosed
  else if ex_current_attempt_no e <? max_attempts then
    if bool_decide (ex_status e = ExRetryScheduled) && is_some_and (fun t => now <? t) (ex_retry_after e)
    then Some RetryWaiting else Some RetryEligible
  else if opt_is_some (ex_current_attempt_id e) then Some ExhaustedOpen
  else None.

Definition supersede_attempt (now : Z) (a : AttemptRow) : AttemptRow :=
  mkAttemptRow (at_execution_id a) (at_attempt_no a) AtStale (at_worker_id a) (at_worker_host a)
    (at_queue_message_id a) (at_broker_message_id a) (at_leased_until a) (at_heartbeat_at a) (at_agent_failure a)
    (Some (default "attempt superseded by a newer worker attempt" (at_error_message a)))
    (at_started_at a) (Some (default now (at_completed_at a))) (at_created_at a) now.

Definition new_attempt (now execution_id attempt_no : Z) (lease : AttemptLeaseContext) : AttemptRow :=
  mkAttemptRow execution_id attempt_no AtRunning (Some (al_worker_id lease)) (al_worker_host lease)
    (Some (al_queue_message_id lease)) (al_broker_message_id lease)
    (Some (now + al_lease_seconds lease * second)) (Some now) None None (Some now) None now now.

Definition bump_execution (now attempt_id : Z) (e : ExecutionRow) : ExecutionRow :=
  mkExecutionRow (ex_chunk_id e) (ex_case_id e) (ex_case e) ExRunning (ex_current_attempt_no e + 1)
    (Some attempt_id) None None (ex_retry_count e) (ex_last_attempt_completed_at e)
    (Some (default now (ex_started_at e))) None (ex_created_at e) now.

(** Attempts of one execution. *)
Definition attempt_of (k : row_key) (ka : row_key) (a : AttemptRow) : bool :=
  bool_decide (ka.1 = k.1) && (at_execution_id a =? k.2).

(** A retry-eligible execution gets its next running attempt: running ones are
    superseded, the number is bumped, the row inserted and made current. *)
Definition start_attempt (db : Database) (now : Z) (lease : AttemptLeaseContext) (attempt_id : Uuid)
    (k : row_key) (e : ExecutionRow) : result Database :=
  let no := ex_current_attempt_no e + 1 in
  let key := (k.1, attempt_id) in
  _ ← ensure (opt_is_none (db_attempts db !! key)
              && negb (exists_where (fun ka a => attempt_of k ka a && (at_attempt_no a =? no)) (db_attempts db)))
        "duplicate key value violates unique constraint";
  let superseded := update_where (fun ka a => attempt_of k ka a && bool_decide (at_status a = AtRunning))
    (fun _ => supersede_attempt now) (db_attempts db) in
  Ok (with_executions (with_attempts db (<[key := new_attempt now k.2 no lease]> superseded))
        (<[k := bump_execution now attempt_id e]> (db_executions db))).

(** One case of the allocation statement and of the authority update. *)
Definition allocate_case (now run_id run_shard max_attempts : Z) (lease : AttemptLeaseContext)
    (fresh : Uuid -> Uuid) (acc : Database * list AttemptAllocation) (case_id : Uuid)
    : result (Database * list AttemptAllocation) :=
  let '(db, allocations) := acc in
  ke ← ok_or (find_execution db run_id run_shard case_id) "allocated fewer execution attempts than cases";
  let '(k, e) := ke in
  bucket ← ok_or (bucket_of now max_attempts e) "allocated fewer execution attempts than cases";
  let flags should terminal waiting exhausted attempt no :=
    mkAttemptAllocation case_id k.2 attempt no should terminal waiting exhausted in
  match bucket with
  | TerminalOrClosed => Ok (db, allocations ++
      [flags false true false false (ex_current_attempt_id e) (ex_current_attempt_no e)])
  | RetryWaiting => Ok (db, allocations ++
      [flags false false true false (ex_current_attempt_id e) (ex_current_attempt_no e)])
  | ExhaustedOpen => Ok (db, allocations ++
      [flags false false false true (ex_current_attempt_id e) (ex_current_attempt_no e)])
  | RetryEligible =>
      let attempt_id := fresh k.2 in
      db' ← start_attempt db now lease attempt_id k e;
      Ok (db', allocations ++ [flags true false false false (Some attempt_id) (ex_current_attempt_no e + 1)])
  end.

Section allocation.
Variable bindings_value : list EvaluatorBinding -> Value.
Variable normalization_value : NormalizationPolicy -> Value.

Fixpoint allocation_inputs (profile : RunProfile) (cases : list WorkerCaseBatchItem)
    (plans : list CaseEvaluationPlan) : result (list (Uuid * ExecutionCase)) :=
  match cases, plans with
  | case :: cases', plan :: plans' =>
      columns ← allocation_columns bindings_value normalization_value profile case plan;
      rest ← allocation_inputs profile cases' plans';
      Ok ((wc_case_id case, columns) :: rest)
  | _, _ => Ok []
  end.

(** [allocate_execution_attempts_for_cases].  [ON CONFLICT DO UPDATE] refuses a
    case that occurs twice in one statement. *)
Definition allocate_execution_attempts_for_cases (db : Database) (now : Z) (h : DbRunChunk)
    (lease : AttemptLeaseContext) (profile : RunProfile) (cases : list WorkerCaseBatchItem)
    (plans : list CaseEvaluationPlan) (fresh_execution fresh_attempt : Uuid -> Uuid)
    : result (Database * list AttemptAllocation) :=
  batch ← validate_attempt_allocation_batch (zlen cases) (zlen plans)
            (rd_max_attempts (rp_defaults profile)) (al_lease_seconds lease);
  match batch with
  | None => Ok (db, [])
  | Some max_attempts =>
      let run_id := wc_run_id h in
      let run_shard := wc_run_shard h in
      inputs ← allocation_inputs profile cases plans;
      _ ← lock_live_chunk_lease db now h;
      _ ← ensure (opt_is_some (db_snapshots db !! (run_id, run_shard))) "upserted 0 executions";
      _ ← ensure (bool_decide (NoDup (map fst inputs)))
            "ON CONFLICT DO UPDATE command cannot affect row a second time";
      db1 ← foldM (upsert_execution now run_id run_shard (wc_id h) fresh_execution) db inputs;
      foldM (allocate_case now run_id run_shard max_attempts lease fresh_attempt) (db1, []) (map fst inputs)
  end.
End allocation.

(** ** Persistence of results *)

Record CompletedExecutionPersistence := mkCompletedExecutionPersistence {
  cp_execution_id : Uuid;
  cp_attempt_id : Uuid;
  cp_attempt_no : Z;
  cp_result_rows : list EvaluatorResultInsertRow;
  cp_overall_status : string;
  cp_aggregate_score : option f64;
  cp_evaluator_result_count : Z;
  cp_dimension_scores : Value;
  cp_blocking_failures : Value;
  cp_summary : Value
}.

Record BatchPersistenceStats := mkBatchPersistenceStats {
  bs_evaluator_results_attempted : Z;
  bs_evaluator_results_inserted : Z;
  bs_evaluator_result_conflicts : Z
}.

(** [overall_status::evaluation_status]. *)
Definition parse_overall (s : string) : result OverallStatus :=
  if str_eqb s "passed" then Ok OvPassed
  else if str_eqb s "failed" then Ok OvFailed
  else if str_eqb s "error" then Ok OvError
  else if str_eqb s "skipped" then Ok OvSkipped
  else Err "invalid input value for enum evaluation_status".

(** The enum casts and [CHECK] constraints of the evidence tables.  A check
    whose value is unknown does not reject the row, so a comparison with a
    missing column holds here. *)
Definition diagnostic_ok (d : EvaluatorDiagnosticInsertRow) : bool :=
  bool_decide (ed_severity d ∈ ["none"; "low"; "medium"; "high"; "critical"])
  && (0 <=? ed_diagnostic_index d) && negb (btrim_blank (ed_category d)).

Definition measurement_shape_ok (row : EvaluatorResultInsertRow) : bool :=
  let kind_is s := is_none_or (fun k => str_eqb k s) (er_measurement_kind row) in
  (opt_is_none (er_measurement_kind row) && opt_is_none (er_raw_boolean row) && opt_is_none (er_raw_numeric row)
   && opt_is_none (er_raw_ordinal row) && opt_is_none (er_raw_unit row))
  || (kind_is "binary" && opt_is_some (er_raw_boolean row) && opt_is_none (er_raw_numeric row)
      && opt_is_none (er_raw_ordinal row) && opt_is_none (er_raw_unit row))
  || (kind_is "numeric" && opt_is_none (er_raw_boolean row) && opt_is_some (er_raw_numeric row)
      && opt_is_none (er_raw_ordinal row))
  || (kind_is "ordinal" && opt_is_none (er_raw_boolean row) && opt_is_none (er_raw_numeric row)
      && is_some_and (fun s => negb (btrim_blank s)) (er_raw_ordinal row) && opt_is_none (er_raw_unit row)).

Definition outcome_shape_ok (row : EvaluatorResultInsertRow) : bool :=
  (str_eqb (er_outcome row) "completed" && is_none_or (fun j => bool_decide (j ∈ ["passed"; "failed"])) (er_judgment row)
   && opt_is_some (er_measurement_kind row) && opt_is_some (er_normalized_score row)
   && opt_is_none (er_error_code row) && opt_is_none (er_error_message row)
   && opt_is_none (er_abstention_category row) && opt_is_none (er_abstention_reason row))
  || (str_eqb (er_outcome row) "error" && opt_is_none (er_judgment row) && opt_is_none (er_normalized_score row)
      && opt_is_some (er_error_code row) && opt_is_some (er_error_message row)
      && opt_is_none (er_abstention_category row) && opt_is_none (er_abstention_reason row))
  || (str_eqb (er_outcome row) "abstained" && opt_is_none (er_judgment row) && opt_is_none (er_measurement_kind row)
      && opt_is_none (er_normalized_score row) && opt_is_none (er_error_code row)
      && opt_is_none (er_error_message row) && opt_is_some (er_abstention_category row)).

Definition evidence_ok (row : EvaluatorResultInsertRow) : bool :=
  bool_decide (er_outcome row ∈ ["completed"; "error"; "abstained"])
  && is_none_or (fun j => bool_decide (j ∈ ["passed"; "failed"; "error"; "skipped"])) (er_judgment row)
  && in_range 0 127 (er_run_shard row)
  && negb (btrim_blank (er_binding_id row)) && negb (btrim_blank (er_dimension row))
  && negb (btrim_blank (er_normalization_policy_hash row))
  && pg_fle f0 (er_pass_threshold row) && pg_fle (er_pass_threshold row) f1 && pg_fle f0 (er_weight row)
  && is_none_or (fun s => pg_fle f0 s && pg_fle s f1) (er_normalized_score row)
  && is_none_or is_finite (er_raw_numeric row)
  && measurement_shape_ok row && outcome_shape_ok row && forallb diagnostic_ok (er_diagnostics row).

(** The foreign keys of a new result row. *)
Definition evidence_references (db : Database) (row : EvaluatorResultInsertRow) : bool :=
  opt_is_some (db_executions db !! (er_run_id row, er_run_shard row, er_execution_id row))
  && opt_is_some (db_attempts db !! (er_run_id row, er_run_shard row, er_attempt_id row)).

Definition insert_diagnostic (k : result_key) (t : gmap (Uuid * Z * Uuid * string * Z) EvaluatorDiagnosticInsertRow)
    (d : EvaluatorDiagnosticInsertRow) : gmap (Uuid * Z * Uuid * string * Z) EvaluatorDiagnosticInsertRow :=
  insert_new (k, ed_diagnostic_index d) d t.

Definition evidence_key (row : EvaluatorResultInsertRow) : result_key :=
  (er_run_id row, er_run_shard row, er_attempt_id row, er_binding_id row).

(** [insert_evaluator_results_batch]: results first, then the diagnostics of
    every row; duplicates of stored rows are skipped.  Returns the inserted
    number of results. *)
Definition insert_evaluator_results_batch (db : Database) (rows : list EvaluatorResultInsertRow)
    : result (Database * Z) :=
  _ ← ensure (forallb evidence_ok rows) "new row for relation evaluator_results violates check constraint";
  let results := fold_left (fun t row => insert_new (evidence_key row) row t) rows (ev_results (db_evidence db)) in
  _ ← ensure (forallb (fun kr => opt_is_some (ev_results (db_evidence db) !! kr.1) || evidence_references db kr.2)
                (map_to_list results))
        "insert on table evaluator_results violates foreign key constraint";
  let diagnostics := fold_left (fun t row => fold_left (insert_diagnostic (evidence_key row)) (er_diagnostics row) t)
    rows (ev_diagnostics (db_evidence db)) in
  Ok (with_evidence db (mkEvidence results diagnostics),
      Z.of_nat (size results) - Z.of_nat (size (ev_results (db_evidence db)))).

(** A completed record still owns a live worker attempt. *)
Definition owns_attempt (db : Database) (now run_id run_shard worker_id : Z) (c : CompletedExecutionPersistence) : bool :=
  opt_is_some (db_snapshots db !! (run_id, run_shard))
  && is_some_and (fun e => bool_decide (ex_current_attempt_id e = Some (cp_attempt_id c))
                           && (ex_current_attempt_no e =? cp_attempt_no c))
       (db_executions db !! (run_id, run_shard, cp_execution_id c))
  && is_some_and (fun a => (at_execution_id a =? cp_execution_id c) && (at_attempt_no a =? cp_attempt_no c)
                           && bool_decide (at_status a = AtRunning)
                           && bool_decide (at_worker_id a = Some worker_id)
                           && is_some_and (fun t => now <=? t) (at_leased_until a))
       (db_attempts db !! (run_id, run_shard, cp_attempt_id c)).

Definition upsert_aggregate (now run_id run_shard : Z) (db : Database) (c : CompletedExecutionPersistence)
    : result Database :=
  status ← parse_overall (cp_overall_status c);
  _ ← ensure (is_none_or in_unit (cp_aggregate_score c) && (0 <=? cp_evaluator_result_count c))
        "new row for relation execution_aggregates violates check constraint";
  Ok (with_aggregates db (<[(run_id, run_shard, cp_execution_id c) :=
        mkAggregateRow (cp_attempt_id c) status (cp_aggregate_score c) (cp_evaluator_result_count c)
          (cp_dimension_scores c) (cp_blocking_failures c) (cp_summary c) now]> (db_aggregates db))).

Definition persist_completed_execution_results_batch (db : Database) (now : Z) (h : DbRunChunk) (worker_id : Z)
    (completed : list CompletedExecutionPersistence) : result (Database * BatchPersistenceStats) :=
  match completed with
  | [] => Ok (db, mkBatchPersistenceStats 0 0 0)
  | _ =>
      _ ← lock_live_chunk_lease db now h;
      let run_id := wc_run_id h in
      let run_shard := wc_run_shard h in
      _ ← ensure (forallb (owns_attempt db now run_id run_shard worker_id) completed)
            "aggregate persistence batch: at least one attempt lost authority";
      let rows := flat_map cp_result_rows completed in
      inserted ← insert_evaluator_results_batch db rows;
      _ ← ensure (bool_decide (NoDup (map cp_execution_id completed)))
            "ON CONFLICT DO UPDATE command cannot affect row a second time";
      db2 ← foldM (upsert_aggregate now run_id run_shard) inserted.1 completed;
      Ok (db2, mkBatchPersistenceStats (zlen rows) inserted.2 (saturating_sub (zlen rows) inserted.2))
  end.


(** ** Heartbeats *)

(** The live authority of a worker over the current attempts of a chunk. *)
Definition heartbeat_target (db : Database) (run_id run_shard chunk_id worker_id : Z) (k : row_key) (a : AttemptRow) : bool :=
  (k.1.1 =? run_id) && (k.1.2 =? run_shard) && bool_decide (at_worker_id a = Some worker_id)
  && bool_decide (at_status a = AtRunning)
  && is_some_and (fun e => (ex_chunk_id e =? chunk_id) && bool_decide (ex_current_attempt_id e = Some k.2))
       (db_executions db !! (k.1, at_execution_id a)).

Definition heartbeat_attempt (now lease_seconds : Z) (a : AttemptRow) : AttemptRow :=
  mkAttemptRow (at_execution_id a) (at_attempt_no a) (at_status a) (at_worker_id a) (at_worker_host a)
    (at_queue_message_id a) (at_broker_message_id a) (Some (now + lease_seconds * second)) (Some now)
    (at_agent_failure a) (at_error_message a) (at_started_at a) (at_completed_at a) (at_created_at a) now.

Definition heartbeat_running_attempts_for_chunk (db : Database) (now run_id run_shard chunk_id worker_id lease_seconds : Z)
    : result (Database * Z) :=
  _ ← validate_attempt_lease_seconds lease_seconds;
  let p := heartbeat_target db run_id run_shard chunk_id worker_id in
  Ok (with_attempts db (update_where p (fun _ => heartbeat_attempt now lease_seconds) (db_attempts db)),
      count_where p (db_attempts db)).

(** ** Terminal transitions *)

(** Stable jitter of an attempt: the last two bytes of its id modulo 1001. *)
Definition jitter_ms (t : ExecutionTerminalTransition) : Z :=
  if opt_is_some (tt_agent_failure t) then (tt_attempt_id t mod 65536) mod 1001 else 0.

Definition transition_retryable (t : ExecutionTerminalTransition) : bool :=
  is_none_or fa_retryable (tt_agent_failure t).

Definition local_backoff_ms (attempt_no jitter : Z) : Z :=
  Z.min (EXECUTION_RETRY_MAX_SECONDS * 1000)
    (Z.min (EXECUTION_RETRY_BASE_SECONDS * 3 ^ Z.min (Z.max (attempt_no - 1) 0) 5) EXECUTION_RETRY_MAX_SECONDS * 1000
     + jitter).

(** [GREATEST] ignores nulls. *)
Definition greatest (a : Z) (b : option Z) : Z := match b with Some x => Z.max a x | None => a end.

Definition retry_after_of (now : Z) (t : ExecutionTerminalTransition) : Z :=
  greatest
    (greatest (now + local_backoff_ms (tt_attempt_no t) (jitter_ms t) * millisecond)
       (tt_agent_failure t ≫= fa_retry_not_before))
    ((fun secs => now + secs * second) <$> (tt_agent_failure t ≫= fa_retry_delay_secs)).

(** The chunks of the named executions are all leased and unexpired. *)
Definition touches_chunk (db : Database) (run_id run_shard : Z) (ids : list Uuid) (k : row_key) (_ : ChunkRow) : bool :=
  (k.1.1 =? run_id) && (k.1.2 =? run_shard)
  && existsb (fun id => is_some_and (fun e => ex_chunk_id e =? k.2) (db_executions db !! (run_id, run_shard, id))) ids.

Definition chunk_live (now : Z) (c : ChunkRow) : bool :=
  bool_decide (ch_status c = ChLeased) && is_some_and (fun t => now <=? t) (ch_leased_until c).

Definition authoritative (db : Database) (now run_id run_shard worker_id : Z) (t : ExecutionTerminalTransition) : bool :=
  is_some_and (fun e => bool_decide (ex_current_attempt_id e = Some (tt_attempt_id t))
                        && (ex_current_attempt_no e =? tt_attempt_no t))
    (db_executions db !! (run_id, run_shard, tt_execution_id t))
  && is_some_and (fun a =>
       (at_execution_id a =? tt_execution_id t)
       && (if tt_requires_worker_lease t
           then bool_decide (at_status a = AtRunning) && bool_decide (at_worker_id a = Some worker_id)
                && is_some_and (fun u => now <=? u) (at_leased_until a)
           else bool_decide (at_status a = AtRunning) || bool_decide (at_status a = AtStale)))
       (db_attempts db !! (run_id, run_shard, tt_attempt_id t))
  && opt_is_some (db_snapshots db !! (run_id, run_shard)).

(** [terminal_input]: a completed transition has the aggregate of its attempt. *)
Definition terminal_ready (db : Database) (run_id run_shard : Z) (t : ExecutionTerminalTransition) : bool :=
  negb (tt_completed t)
  || is_some_and (fun ag => ag_attempt_id ag =? tt_attempt_id t) (db_aggregates db !! (run_id, run_shard, tt_execution_id t)).

(** [stale_attempt_update] for one transition, on the rows as they were when
    the statement began. *)
Definition lost_authority (db : Database) (now run_id run_shard worker_id : Z) (t : ExecutionTerminalTransition)
    (k : row_key) (a : AttemptRow) : bool :=
  bool_decide (k = (run_id, run_shard, tt_attempt_id t)) && (at_execution_id a =? tt_execution_id t)
  && bool_decide (at_status a = AtRunning) && tt_requires_worker_lease t
  && is_some_and (fun e =>
       negb (bool_decide (ex_current_attempt_id e = Some (tt_attempt_id t)))
       || negb (ex_current_attempt_no e =? tt_attempt_no t)
       || negb (bool_decide (at_worker_id a = Some worker_id))
       || is_none_or (fun u => u <? now) (at_leased_until a))
     (db_executions db !! (run_id, run_shard, tt_execution_id t)).

Definition lose_attempt (now : Z) (t : ExecutionTerminalTransition) (a : AttemptRow) : AttemptRow :=
  mkAttemptRow (at_execution_id a) (at_attempt_no a) AtStale (at_worker_id a) (at_worker_host a)
    (at_queue_message_id a) (at_broker_message_id a) None (at_heartbeat_at a) (at_agent_failure a)
    (Some (default "attempt lost authority before terminal transition" (tt_error_message t)))
    (at_started_at a) (Some now) (at_created_at a) now.

Definition retire_lost (now run_id run_shard worker_id : Z) (db0 db : Database) (t : ExecutionTerminalTransition) : Database :=
  with_attempts db (update_where
    (fun k a => is_some_and (lost_authority db0 now run_id run_shard worker_id t k) (db_attempts db0 !! k))
    (fun _ => lose_attempt now t) (db_attempts db)).

Definition retry_scheduled (max_attempts : Z) (t : ExecutionTerminalTransition) : bool :=
  negb (tt_completed t) && transition_retryable t && (tt_attempt_no t <? max_attempts).

Section transitions.

(** [serde_json::to_value] of a failure, and the text of a [uuid]. *)
Variable failure_value : Failure -> Value.
Variable uuid_text : Uuid -> string.

Definition finish_attempt (now : Z) (t : ExecutionTerminalTransition) (a : AttemptRow) : AttemptRow :=
  mkAttemptRow (at_execution_id a) (at_attempt_no a)
    (if tt_completed t then AtCompleted
     else if opt_is_some (tt_agent_failure t) then AtFailedAgentCall else AtFailedEvaluation)
    (at_worker_id a) (at_worker_host a) (at_queue_message_id a) (at_broker_message_id a)
    (at_leased_until a) (at_heartbeat_at a)
    (match tt_agent_failure t with Some f => Some (failure_value f) | None => at_agent_failure a end)
    (if tt_completed t then None else tt_error_message t)
    (at_started_at a) (Some now) (at_created_at a) now.

Definition finish_execution (now max_attempts : Z) (t : ExecutionTerminalTransition) (e : ExecutionRow) : ExecutionRow :=
  let retry := retry_scheduled max_attempts t in
  mkExecutionRow (ex_chunk_id e) (ex_case_id e) (ex_case e)
    (if tt_completed t then ExCompleted else if retry then ExRetryScheduled else ExFailed)
    (tt_attempt_no t) (Some (tt_attempt_id t))
    (if tt_completed t then None else tt_error_message t)
    (if retry then Some (retry_after_of now t) else None)
    (if retry then ex_retry_count e + 1 else ex_retry_count e)
    (Some now) (ex_started_at e) (if retry then None else Some now) (ex_created_at e) now.

(** The aggregate of a failure that is not retried. *)
Definition failed_aggregate (now : Z) (t : ExecutionTerminalTransition) : AggregateRow :=
  let message := match tt_error_message t with Some m => Str m | None => Null end in
  mkAggregateRow (tt_attempt_id t) OvError None 0 (Object [])
    (Array [Object (bt_collect [("status", Str "error"); ("reason", message)])])
    (Object (bt_collect [("attempt_id", Str (uuid_text (tt_attempt_id t))); ("result_count", Num (PosInt 0));
                         ("overall_status", Str "error"); ("error_message", message)])) now.

Definition apply_transition (now run_id run_shard max_attempts : Z) (db : Database)
    (t : ExecutionTerminalTransition) : Database :=
  let akey := (run_id, run_shard, tt_attempt_id t) in
  let ekey := (run_id, run_shard, tt_execution_id t) in
  let db1 := with_attempts db (alter (finish_attempt now t) akey (db_attempts db)) in
  let db2 := if negb (tt_completed t) && negb (retry_scheduled max_attempts t)
             then with_aggregates db1 (<[ekey := failed_aggregate now t]> (db_aggregates db1)) else db1 in
  with_executions db2 (alter (finish_execution now max_attempts t) ekey (db_executions db2)).

(** One transition per execution: an update joined with several input rows for
    one target row applies one of them, here the first. *)
Fixpoint distinct_transitions (seen : list Uuid) (ts : list ExecutionTerminalTransition)
    : list ExecutionTerminalTransition :=
  match ts with
  | [] => []
  | t :: ts' =>
      if bool_decide (tt_execution_id t ∈ seen) then distinct_transitions seen ts'
      else t :: distinct_transitions (tt_execution_id t :: seen) ts'
  end.

(** [finalize_execution_terminal_transitions].  The statement commits the
    retirement of lost attempts also when the batch is refused, so the result
    is a database and an outcome; the outcome compares the number of updated
    executions with the length of the batch, after the commit. *)
Definition finalize_execution_terminal_transitions (db : Database) (now run_id run_shard worker_id max_attempts : Z)
    (transitions : list ExecutionTerminalTransition) : Database * result unit :=
  match transitions with
  | [] => (db, Ok tt)
  | _ =>
      let ids := map tt_execution_id transitions in
      let chunks := rows_where (touches_chunk db run_id run_shard ids) (db_chunks db) in
      if bool_decide (chunks = ∅) || exists_where (fun _ c => negb (chunk_live now c)) chunks
      then (db, Err "terminal transitions lost chunk settlement authority")
      else
        let db1 := fold_left (retire_lost now run_id run_shard worker_id db) transitions db in
        let applied :=
          if forallb (authoritative db now run_id run_shard worker_id) transitions
             && forallb (terminal_ready db run_id run_shard) transitions
          then distinct_transitions [] transitions else [] in
        (fold_left (apply_transition now run_id run_shard max_attempts) applied db1,
         ensure (zlen applied =? zlen transitions)
           "terminal transition batch: at least one attempt lost authority or completed without an aggregate")
  end.
End transitions.

(** ** Summary of a chunk's executions *)

Record ChunkExecutionState := mkChunkExecutionState {
  ce_open_execution_count : Z;
  ce_retry_scheduled_count : Z;
  ce_next_retry_after : option Z
}.

Definition min_opt (a b : option Z) : option Z :=
  match a, b with Some x, Some y => Some (Z.min x y) | Some x, None => Some x | None, y => y end.

Definition summarize_chunk_execution_state (db : Database) (run_id run_shard : Z) (case_ids : list Uuid)
    : ChunkExecutionState :=
  match case_ids with
  | [] => mkChunkExecutionState 0 0 None
  | _ =>
      let rows := map snd (map_to_list (rows_where (fun k e => (k.1.1 =? run_id) && (k.1.2 =? run_shard)
                    && bool_decide (ex_case_id e ∈ case_ids)) (db_executions db))) in
      let waiting := filter (fun e => ex_status e = ExRetryScheduled) rows in
      mkChunkExecutionState (countb (fun e => execution_open (ex_status e)) rows) (zlen waiting)
        (fold_left (fun acc e => min_opt acc (ex_retry_after e)) waiting None)
  end.

(** ** Theorems *)

(** The time of a retry respects every bound: it lies at least five seconds
    after the failure and not before the server's not-before time and delay
    advice; without advice it lies at most ten minutes ahead, and with advice at
    most at the later of that and the advice. *)
Theorem retry_delay_bounds (now : Z) (t : ExecutionTerminalTransition) :
  let advice := tt_agent_failure t ≫= fa_retry_not_before in
  let delay := (fun secs => now + secs * second) <$> (tt_agent_failure t ≫= fa_retry_delay_secs) in
  let latest := now + EXECUTION_RETRY_MAX_SECONDS * second in
  now + EXECUTION_RETRY_BASE_SECONDS * second <= retry_after_of now t /\
  greatest (greatest (retry_after_of now t) advice) delay = retry_after_of now t /\
  retry_after_of now t <= greatest (greatest latest advice) delay.
Proof.
  intros advice delay latest. unfold retry_after_of. fold advice delay.
  assert (Hb : EXECUTION_RETRY_BASE_SECONDS * 1000 <= local_backoff_ms (tt_attempt_no t) (jitter_ms t)
               <= EXECUTION_RETRY_MAX_SECONDS * 1000).
  { unfold local_backoff_ms, EXECUTION_RETRY_BASE_SECONDS, EXECUTION_RETRY_MAX_SECONDS.
    assert (Hj : 0 <= jitter_ms t) by (unfold jitter_ms; destruct (opt_is_some _); [apply Z.mod_pos_bound|]; lia).
    assert (Hp : 1 <= 3 ^ Z.min (Z.max (tt_attempt_no t - 1) 0) 5); [|lia].
    apply Z.le_trans with (3 ^ 0); [lia|]. apply Z.pow_le_mono_r; lia. }
  unfold latest, second, millisecond, EXECUTION_RETRY_BASE_SECONDS, EXECUTION_RETRY_MAX_SECONDS in *.
  destruct advice, delay; simpl; lia.
Qed.

(** A batch without repeated executions is applied as it is. *)
Lemma distinct_nodup ts : NoDup (map tt_execution_id ts) -> distinct_transitions [] ts = ts.
Proof.
  assert (H : forall seen, NoDup (map tt_execution_id ts) -> (forall t, t ∈ ts -> tt_execution_id t ∉ seen) ->
    distinct_transitions seen ts = ts); [|intros Hnd; apply H; [done|set_solver]].
  induction ts as [|t ts IH]; intros seen Hnd Hs; simpl; [done|]. inversion Hnd as [|?? Hn Hnd']; subst.
  rewrite bool_decide_false by (apply Hs; set_solver). f_equal. apply IH; [done|].
  intros u Hu [Heq|Hin]%elem_of_cons; [|by apply (Hs u); [set_solver|]].
  apply Hn, list_elem_of_fmap. eauto.
Qed.

Section finalization.
Variable failure_value : Failure -> Value.
Variable uuid_text : Uuid -> string.
Variables (now run_id run_shard max_attempts : Z).

Notation apply := (apply_transition failure_value uuid_text now run_id run_shard max_attempts).
Notation ekey t := (run_id, run_shard, tt_execution_id t).

Lemma apply_lookup db t k :
  db_executions (apply db t) !! k
  = if bool_decide (k = ekey t) then finish_execution now max_attempts t <$> db_executions db !! k
    else db_executions db !! k.
Proof.
  unfold apply_transition. case_bool_decide as Hk; destruct (_ && _); simpl.
  1,2: subst k; by rewrite lookup_alter_eq.
  all: by rewrite lookup_alter_ne by congruence.
Qed.

Lemma fold_apply_other ts : forall db k,
  (forall t, t ∈ ts -> k <> ekey t) -> db_executions (fold_left apply ts db) !! k = db_executions db !! k.
Proof.
  induction ts as [|t ts IH]; intros db k Hk; simpl; [done|].
  rewrite IH by set_solver. rewrite apply_lookup, bool_decide_false; [done|]. apply Hk. set_solver.
Qed.

Lemma fold_apply_target ts : forall db t,
  NoDup (map tt_execution_id ts) -> t ∈ ts ->
  db_executions (fold_left apply ts db) !! ekey t = finish_execution now max_attempts t <$> db_executions db !! ekey t.
Proof.
  induction ts as [|u ts IH]; intros db t Hnd Hin; simpl; [by apply not_elem_of_nil in Hin|].
  inversion Hnd as [|?? Hn Hnd']; subst. apply elem_of_cons in Hin as [->|Hin].
  - rewrite fold_apply_other; [by rewrite apply_lookup, bool_decide_true|].
    intros t Ht Heq. apply Hn, list_elem_of_fmap. exists t. split; [congruence|done].
  - rewrite IH by done. rewrite apply_lookup, bool_decide_false; [done|].
    intros Heq. apply Hn, list_elem_of_fmap. exists t. split; [congruence|done].
Qed.

Lemma retire_lost_frame worker db0 ts : forall db,
  let db' := fold_left (retire_lost now run_id run_shard worker db0) ts db in
  db_executions db' = db_executions db /\ db_aggregates db' = db_aggregates db /\ db_chunks db' = db_chunks db /\
  db_evidence db' = db_evidence db /\ db_settlements db' = db_settlements db /\
  (forall k a', db_attempts db' !! k = Some a' -> exists a, db_attempts db !! k = Some a /\
     (a' = a \/ (at_status a' = AtStale /\ exists a0 t, db_attempts db0 !! k = Some a0 /\ t ∈ ts /\
        lost_authority db0 now run_id run_shard worker t k a0 = true))).
Proof.
  induction ts as [|t ts IH]; intros db; simpl; [split_and!; eauto|].
  destruct (IH (retire_lost now run_id run_shard worker db0 db t)) as (-> & -> & -> & -> & -> & Ha).
  split_and!; try done. intros k a' Hk. destruct (Ha k a' Hk) as (a & Hk1 & Hcase).
  simpl in Hk1. apply update_where_Some in Hk1 as (a1 & Hk1 & ->). exists a1. split; [done|].
  destruct Hcase as [->|(Hs & a0 & u & Hu & Hin & Hl)]; [|right; split; [done|exists a0, u; set_solver]].
  destruct (db_attempts db0 !! k) as [a0|] eqn:E0; simpl; [|by left].
  destruct (lost_authority db0 now run_id run_shard worker t k a0) eqn:El; [|by left].
  right. split; [done|]. exists a0, t. set_solver.
Qed.

(** A batch of terminal transitions is applied to executions as a whole or
    not at all.  When it succeeds, each named execution was current at the
    transition's attempt and ends completed, scheduled for a retry, or failed
    as the transition, its failure and the attempt budget say, and no other
    execution changes.  When it is refused, no execution, aggregate, chunk or
    receipt changes, and the only attempts that change are running ones the
    worker no longer owns, which become stale. *)
Theorem finalize_all_or_nothing (db db' : Database) (worker : Z) (ts : list ExecutionTerminalTransition)
    (outcome : result unit) :
  finalize_execution_terminal_transitions failure_value uuid_text db now run_id run_shard worker max_attempts ts
  = (db', outcome) ->
  NoDup (map tt_execution_id ts) ->
  match outcome with
  | Ok _ =>
      (forall t, t ∈ ts -> exists e, db_executions db !! ekey t = Some e /\
         ex_current_attempt_id e = Some (tt_attempt_id t) /\ ex_current_attempt_no e = tt_attempt_no t /\
         db_executions db' !! ekey t = Some (finish_execution now max_attempts t e)) /\
      (forall k, (forall t, t ∈ ts -> k <> ekey t) -> db_executions db' !! k = db_executions db !! k)
  | Err _ =>
      db_executions db' = db_executions db /\ db_aggregates db' = db_aggregates db /\
      db_chunks db' = db_chunks db /\ db_settlements db' = db_settlements db /\
      (forall k a', db_attempts db' !! k = Some a' -> exists a, db_attempts db !! k = Some a /\
         (a' = a \/ (at_status a' = AtStale /\ exists t, t ∈ ts /\
            lost_authority db now run_id run_shard worker t k a = true)))
  end.
Proof.
  intros H Hnd. unfold finalize_execution_terminal_transitions in H.
  destruct ts as [|t0 ts0]; [injection H as <- <-; split; [intros t Ht; by apply not_elem_of_nil in Ht|done]|].
  revert H. set (ts := t0 :: ts0) in *.
  destruct (bool_decide _ || _); [intros [= <- <-]; split_and!; eauto|].
  destruct (retire_lost_frame worker db ts db) as (H1 & H2 & H3 & _ & H4 & H5).
  destruct (forallb (authoritative _ _ _ _ _) ts && _) eqn:Hall; intros [<- <-]%pair_equal_spec.
  - assert (Hdist : distinct_transitions [] ts = ts) by (by apply distinct_nodup).
    rewrite Hdist, Z.eqb_refl. simpl ensure. cbv iota. apply andb_true_iff in Hall as [Hall _]. split.
    + intros t Hin. rewrite forallb_forall in Hall. specialize (Hall t (proj1 (list_elem_of_In _ _) Hin)).
      unfold authoritative in Hall. rewrite !andb_true_iff in Hall. destruct Hall as [[He _] _].
      destruct (db_executions db !! ekey t) as [e|] eqn:Ee; [|done]. exists e. simpl in He.
      rewrite andb_true_iff, bool_decide_eq_true, Z.eqb_eq in He. destruct He. split_and!; try done.
      rewrite fold_apply_target by done. by rewrite H1, Ee.
    + intros k Hk. rewrite fold_apply_other by done. by rewrite H1.
  - assert (Hz : (zlen ([] : list ExecutionTerminalTransition) =? zlen ts) = false) by (unfold zlen; simpl; lia).
    rewrite Hz. simpl ensure. cbv iota. simpl fold_left in *. split_and!; try done.
    intros k a' Hk. destruct (H5 k a' Hk) as (a & Hka & [->|(Hs & a0 & t & Ha0 & Hin & Hl)]); [eauto|].
    exists a. split; [done|]. right. split; [done|]. exists t. assert (a0 = a) as -> by congruence. done.
Qed.

End finalization.

Definition sample_transition : ExecutionTerminalTransition :=
  mkExecutionTerminalTransition 51 72 2 false (Some "timed out") true
    (Some (mkFailure RateLimited (Some 429) true None (Some 30) "limited")).
Definition sample_leased : Database := Settlement.Sample.db ChLeased (Some 500) (Some 1000).
Definition sample_finalization : Database * result unit :=
  finalize_execution_terminal_transitions (fun _ => Null) (fun _ => "id") sample_leased 100 7 3 90 3 [sample_transition].

Lemma finalize_all_or_nothing_witness :
  exists e, db_executions sample_finalization.1 !! (7, 3, 51) = Some (finish_execution 100 3 sample_transition e).
Proof.
  destruct (finalize_all_or_nothing (fun _ => Null) (fun _ => "id") 100 7 3 3 sample_leased sample_finalization.1 90
    [sample_transition] (Ok tt)) as [H _].
  - reflexivity.
  - repeat constructor. apply not_elem_of_nil.
  - destruct (H sample_transition) as (e & _ & _ & _ & He); [set_solver|]. by exists e.
Defined.
