(* ===== verification/ShardSummary.v ===== *)
(** * Aggregation of receipts into shard summaries

    The coordinator folds the immutable receipts of a shard's chunks into its
    summary, one bounded page per transaction, first in arrival order for
    progress and then in planned order against the frozen chunk manifest before
    it seals the summary.  Models
    src/vigilo/src/db/workflows/run_shard_summary/aggregation.rs, plan.rs and
    aggregation_scheduling.rs, and [store_with] of queries.rs. *)

From Stdlib Require Import ZArith Lia Sorted.
From stdpp Require Import base strings numbers gmap sorting relations option list.
From S2P Require Import Prelude Float64 BTree Text Json RunTypes Scorecard.
From S2P Require Import ShardTables LocalAdmission ReceiptGates Settlement ChunkLease.

Open Scope Z_scope.

(** ** Manifests (plan.rs) *)

(** The serializers the workflow calls: [serde_json] of scorecards, manifests,
    planned gate counts and the triple that a manifest hashes, [blake3] in
    hexadecimal, and the text length of a stored receipt. *)
Class SummaryFunctions := {
  scorecard_from_value : Value -> result ShardScorecard;
  scorecard_to_value : ShardScorecard -> Value;
  manifest_from_value : Value -> result Manifest;
  gate_counts_from_value : Value -> result (btree string Z);
  plan_to_vec : string * string * ChunkIdentity -> result string;
  plan_blake3_hex : string -> string;
  receipt_octets : RunShardSummary -> Z
}.

Definition default_manifest : Manifest := mkManifest 0 0 "" None.

Section summary.
Context {RF : ReceiptFunctions} {SF : SummaryFunctions}.

(** [Manifest::push]. *)
Definition manifest_push (m : Manifest) (chunk : ChunkIdentity) : result Manifest :=
  _ ← ensure ((0 <=? ci_ordinal_start chunk) && (ci_ordinal_start chunk <? ci_ordinal_end chunk))
        "invalid planned chunk range";
  _ ← match mn_last m with
      | Some last => ensure ((ci_run_shard last =? ci_run_shard chunk) && (ci_ordinal_end last <=? ci_ordinal_start chunk))
                       "overlapping or unordered planned chunks"
      | None => Ok tt
      end;
  chunk_count ← ok_or (i32_checked_add (mn_chunk_count m) 1) "planned chunk count overflow";
  case_count ← ok_or (i32_checked_add (mn_case_count m) (ci_ordinal_end chunk - ci_ordinal_start chunk))
                 "planned case count overflow";
  bytes ← plan_to_vec ("vigilo/chunk-plan:1", mn_hash m, chunk);
  Ok (mkManifest chunk_count case_count (plan_blake3_hex bytes) (Some chunk)).

(** [value["key"]]: [Null] when the member is absent. *)
Definition json_index (key : string) (v : Value) : Value := default Null (json_get key v).

Definition snapshot_manifest (snapshot : Value) (shard : Z) : result Manifest :=
  plan ← ok_or (json_get "settlement_plan" snapshot) "missing settlement plan";
  _ ← ensure (match json_index "version" plan with Num (PosInt n) => n =? 1 | _ => false end)
        "unsupported chunk plan version";
  value ← ok_or (json_get (shard_text shard) (json_index "shards" plan)) "chunk plan omits shard";
  manifest_from_value value.

(** ** Summaries *)

Definition is_terminal_summary_status (status : string) : bool :=
  str_eqb status "completed" || str_eqb status "failed".

Definition is_terminal (s : RunShardSummary) : bool :=
  rs_sealed s && (0 <? rs_planned_chunk_count s) && (rs_settled_chunk_count s =? rs_planned_chunk_count s)
  && is_terminal_summary_status (rs_status s).

Definition COMPACT_PAGE_ROWS : Z := 256.
Definition GATED_PAGE_ROWS : Z := 64.
Definition PAGE_BYTES : Z := 4 * 1024 * 1024.
Definition MAX_RECEIPT_BYTES : Z := 1024 * 1024.

(** [AggregationConfig], the time budget in microseconds. *)
Record AggregationConfig := mkAggregationConfig {
  ac_max_pages : Z;
  ac_time_budget : Z;
  ac_parallelism : Z
}.

Definition candidate_limit (c : AggregationConfig) : result Z :=
  _ ← ensure (0 <? ac_max_pages c) "aggregation page budget must be positive";
  _ ← ensure (0 <? ac_parallelism c) "aggregation parallelism must be positive";
  _ ← ensure (negb (ac_time_budget c =? 0)) "aggregation time budget must be positive";
  ok_or (checked i64_min i64_max (ac_max_pages c)) "aggregation page budget exceeds database limit".

(** The [add!] macro of [fold]. *)
Definition add_counter (add : Z -> Z -> option Z) (target receipt : Z) : result Z :=
  _ ← ensure (0 <=? receipt) "negative receipt counter";
  ok_or (add target receipt) "receipt counter overflow".

Definition fold_scorecard (target receipt : RunShardSummary) (policy : string) : result Value :=
  source ← scorecard_from_value (rs_scorecard receipt);
  _ ← merge_shard_scorecards policy [source];
  _ ← ensure (sh_run_shard source =? rs_run_shard target) "chunk scorecard shard mismatch";
  if rs_settled_chunk_count target =? 0 then Ok (rs_scorecard receipt)
  else
    card ← scorecard_from_value (rs_scorecard target);
    card' ← accumulate_chunk_scorecard card source;
    Ok (scorecard_to_value card').

Definition fold (policy : string) (target receipt : RunShardSummary) : result RunShardSummary :=
  scorecard ← fold_scorecard target receipt policy;
  execution ← add_counter i32_checked_add (rs_execution_count target) (rs_execution_count receipt);
  terminal ← add_counter i32_checked_add (rs_terminal_execution_count target) (rs_terminal_execution_count receipt);
  aggregate ← add_counter i32_checked_add (rs_aggregate_count target) (rs_aggregate_count receipt);
  passed ← add_counter i32_checked_add (rs_passed_execution_count target) (rs_passed_execution_count receipt);
  failed ← add_counter i32_checked_add (rs_failed_execution_count target) (rs_failed_execution_count receipt);
  errored ← add_counter i32_checked_add (rs_errored_execution_count target) (rs_errored_execution_count receipt);
  skipped ← add_counter i32_checked_add (rs_skipped_execution_count target) (rs_skipped_execution_count receipt);
  missing_aggregate ← add_counter i32_checked_add (rs_missing_aggregate_count target) (rs_missing_aggregate_count receipt);
  evaluator_result ← add_counter i64_checked_add (rs_evaluator_result_count target) (rs_evaluator_result_count receipt);
  blocking ← add_counter i64_checked_add (rs_blocking_failure_count target) (rs_blocking_failure_count receipt);
  score ← add_counter i64_checked_add (rs_score_count target) (rs_score_count receipt);
  failed_chunk ← add_counter i32_checked_add (rs_failed_chunk_count target) (rs_failed_chunk_count receipt);
  cancelled_chunk ← add_counter i32_checked_add (rs_cancelled_chunk_count target) (rs_cancelled_chunk_count receipt);
  missing ← add_counter i32_checked_add (rs_missing_execution_count target) (rs_missing_execution_count receipt);
  unresolved ← add_counter i32_checked_add (rs_unresolved_execution_count target) (rs_unresolved_execution_count receipt);
  let score_sum := fadd (rs_score_sum target) (rs_score_sum receipt) in
  _ ← ensure (is_finite score_sum) "receipt score sum overflow";
  let extremum f old new := match new with
    | Some value => Some (match old with Some v => f v value | None => value end)
    | None => old
    end in
  settled ← ok_or (i32_checked_add (rs_settled_chunk_count target) 1) "settled chunk count overflow";
  Ok (mkRunShardSummary (rs_run_id target) (rs_run_shard target) (rs_expected_execution_count target)
        execution terminal aggregate passed failed errored skipped missing_aggregate evaluator_result blocking score
        score_sum (extremum fmin (rs_min_score target) (rs_min_score receipt))
        (extremum fmax (rs_max_score target) (rs_max_score receipt)) scorecard failed_chunk cancelled_chunk
        (rs_status target) (rs_sealed target) (rs_planned_chunk_hash target) (rs_planned_chunk_count target)
        settled missing unresolved).

Definition set_scorecard (s : RunShardSummary) (scorecard : Value) : RunShardSummary :=
  mkRunShardSummary (rs_run_id s) (rs_run_shard s) (rs_expected_execution_count s) (rs_execution_count s)
    (rs_terminal_execution_count s) (rs_aggregate_count s) (rs_passed_execution_count s)
    (rs_failed_execution_count s) (rs_errored_execution_count s) (rs_skipped_execution_count s)
    (rs_missing_aggregate_count s) (rs_evaluator_result_count s) (rs_blocking_failure_count s)
    (rs_score_count s) (rs_score_sum s) (rs_min_score s) (rs_max_score s) scorecard
    (rs_failed_chunk_count s) (rs_cancelled_chunk_count s) (rs_status s) (rs_sealed s)
    (rs_planned_chunk_hash s) (rs_planned_chunk_count s) (rs_settled_chunk_count s)
    (rs_missing_execution_count s) (rs_unresolved_execution_count s).

(** The planned denominators replace the expected counts of the entries. *)
Definition set_expected (counts : btree string Z) (e : ScorecardEntry) : result ScorecardEntry :=
  expected ← ok_or (bt_get (se_id e) counts) "missing planned count for gate";
  Ok (mkScorecardEntry (se_id e) (se_dimension e) (se_binding_id e) (se_case_group e) (se_tags_all e)
        (se_min_mean_score e) (se_score_threshold e) (se_min_pass_rate e) (se_min_coverage e)
        (se_max_error_rate e) (se_max_abstention_rate e) expected (se_scored_count e) (se_passed_count e)
        (se_error_count e) (se_abstained_count e) (se_score_sum e) (se_min_score e) (se_max_score e)).

Fixpoint set_expected_counts (counts : btree string Z) (entries : list ScorecardEntry)
    : result (list ScorecardEntry) :=
  match entries with
  | [] => Ok []
  | e :: entries' =>
      e' ← set_expected counts e;
      rest ← set_expected_counts counts entries';
      Ok (e' :: rest)
  end.

Definition apply_gate_counts (summary : RunShardSummary) (snapshot : Value) : result RunShardSummary :=
  match json_get "gate_planned_counts" snapshot with
  | None => Ok summary
  | Some value =>
      counts ← gate_counts_from_value value;
      if rs_settled_chunk_count summary =? 0 then Ok summary
      else
        card ← scorecard_from_value (rs_scorecard summary);
        _ ← ensure (zlen (sh_entries card) =? zlen counts) "settled gates differ from planned gate counts";
        entries ← set_expected_counts counts (sh_entries card);
        let card' := mkShardScorecard (sh_version card) (sh_run_shard card) (sh_policy_hash card) entries in
        _ ← merge_shard_scorecards (sh_policy_hash card') [card'];
        Ok (set_scorecard summary (scorecard_to_value card'))
  end.

(** ** Pages *)

(** The chunks of a shard in planned order: [ORDER BY ordinal_start, id]. *)
Definition identity_of (kc : row_key * ChunkRow) : ChunkIdentity :=
  mkChunkIdentity kc.1.2 kc.1.1.2 (ch_ordinal_start kc.2) (ch_ordinal_end kc.2).

Definition of_shard {R} (run_id run_shard : Z) (k : row_key) (_ : R) : bool :=
  (k.1.1 =? run_id) && (k.1.2 =? run_shard).

Definition shard_chunks (db : Database) (run_id run_shard : Z) : list ChunkIdentity :=
  map identity_of (merge_sort by_ordinal (map_to_list (rows_where (of_shard run_id run_shard) (db_chunks db)))).

(** [(ordinal_start, id) > ($3, $4)]. *)
Definition after_cursor (cursor : Manifest) (c : ChunkIdentity) : bool :=
  let '(start, id) := match mn_last cursor with
    | Some last => (ci_ordinal_start last, ci_chunk_id last)
    | None => (-1, 0)
    end in
  (start <? ci_ordinal_start c) || ((start =? ci_ordinal_start c) && (id <? ci_chunk_id c)).

Definition chunk_page (db : Database) (run_id run_shard : Z) (cursor : Manifest) (page_rows : Z) : list ChunkIdentity :=
  take (Z.to_nat page_rows) (base.filter (fun c => after_cursor cursor c = true) (shard_chunks db run_id run_shard)).

(** Unconsumed receipts in arrival order: [ORDER BY ordinal_start, chunk_id]. *)
Definition by_consumption (x y : row_key * ConsumptionRow) : Prop :=
  cs_ordinal_start x.2 < cs_ordinal_start y.2
  \/ (cs_ordinal_start x.2 = cs_ordinal_start y.2 /\ x.1.2 <= y.1.2).
#[global] Instance by_consumption_dec : RelDecision by_consumption.
Proof. intros x y. unfold by_consumption. apply _. Defined.

Definition unconsumed (run_id run_shard : Z) (k : row_key) (r : ConsumptionRow) : bool :=
  of_shard run_id run_shard k r && negb (cs_consumed r).

Definition pending_consumptions (db : Database) (run_id run_shard page_rows : Z) : list row_key :=
  map fst (take (Z.to_nat (page_rows + 1))
    (merge_sort by_consumption (map_to_list (rows_where (unconsumed run_id run_shard) (db_consumptions db))))).

(** [WHERE bytes <= PAGE_BYTES] over the running sum of receipt lengths. *)
Fixpoint bounded (total : Z) (receipts : list (Uuid * RunShardSummary)) : list (Uuid * RunShardSummary) :=
  match receipts with
  | [] => []
  | (id, r) :: rest =>
      let total' := total + receipt_octets r in
      if total' <=? PAGE_BYTES then (id, r) :: bounded total' rest else bounded total' rest
  end.

Definition receipt_of (db : Database) (k : row_key) : option (Uuid * RunShardSummary) :=
  (fun row => (k.2, st_summary row)) <$> db_settlements db !! k.

(** The receipts of a progress page and the number of pending identities. *)
Definition progress_page (db : Database) (run_id run_shard page_rows : Z) : list (Uuid * RunShardSummary) * Z :=
  let pending := pending_consumptions db run_id run_shard page_rows in
  (bounded 0 (omap (receipt_of db) (take (Z.to_nat page_rows) pending)), zlen pending).

(** The receipts of a verification page, by chunk. *)
Definition by_settlement (x y : row_key * SettlementRow) : Prop :=
  st_ordinal_start x.2 < st_ordinal_start y.2
  \/ (st_ordinal_start x.2 = st_ordinal_start y.2 /\ x.1.2 <= y.1.2).
#[global] Instance by_settlement_dec : RelDecision by_settlement.
Proof. intros x y. unfold by_settlement. apply _. Defined.

Definition verification_page (db : Database) (run_id run_shard : Z) (chunks : list ChunkIdentity)
    : list (Uuid * RunShardSummary) :=
  bounded 0 (map (fun kr => (kr.1.2, st_summary kr.2))
    (merge_sort by_settlement (map_to_list (rows_where (fun k (r : SettlementRow) => of_shard run_id run_shard k r
       && bool_decide (k.2 ∈ map ci_chunk_id chunks)) (db_settlements db))))).

Definition find_receipt (id : Uuid) (receipts : list (Uuid * RunShardSummary)) : option RunShardSummary :=
  snd <$> find (fun ir => ir.1 =? id) receipts.

(** The loop over a verification page; stops at the first receipt that is not
    on the page or would exceed its bytes. *)
Fixpoint fold_page (run_id run_shard : Z) (policy : string) (receipts : list (Uuid * RunShardSummary))
    (chunks : list ChunkIdentity) (page_bytes : Z) (acc : RunShardSummary * Manifest * bool)
    : result (RunShardSummary * Manifest * bool) :=
  match chunks with
  | [] => Ok acc
  | chunk :: rest =>
      match find_receipt (ci_chunk_id chunk) receipts with
      | None => Ok acc
      | Some receipt =>
          let bytes := receipt_bytes receipt in
          _ ← ensure (bytes <=? MAX_RECEIPT_BYTES) "chunk receipt exceeds supported byte bound";
          if PAGE_BYTES <? page_bytes + bytes then Ok acc
          else
            let '(final, folded, _) := acc in
            _ ← ensure ((rs_run_id receipt =? run_id) && (rs_run_shard receipt =? run_shard)
                        && (rs_expected_execution_count receipt =? ci_ordinal_end chunk - ci_ordinal_start chunk))
                  "chunk receipt identity mismatch";
            final' ← fold policy final receipt;
            folded' ← manifest_push folded chunk;
            fold_page run_id run_shard policy receipts rest (page_bytes + bytes) (final', folded', true)
      end
  end.

(** The loop over a progress page. *)
Definition fold_progress (run_id run_shard : Z) (policy : string)
    (acc : RunShardSummary * list Uuid) (ir : Uuid * RunShardSummary) : result (RunShardSummary * list Uuid) :=
  let '(summary, consumed) := acc in
  let '(id, receipt) := ir in
  _ ← ensure ((rs_run_id receipt =? run_id) && (rs_run_shard receipt =? run_shard))
        "receipt run or shard identity mismatch";
  summary' ← fold policy summary receipt;
  Ok (summary', consumed ++ [id]).

(** ** One page transaction *)

Inductive PageOutcome := Advanced | Sealed | CaughtUp | Deferred.

(** [load_context]: the snapshot, the policy hash, the expected count and the
    summary with its checkpoint. *)
Definition load_context (db : Database) (run_id run_shard write_epoch : Z)
    : result (option SnapshotRow * option SummaryRow) :=
  _ ← ensure (settles_under db (run_id, run_shard) write_epoch) "aggregation lost local write admission";
  Ok (db_snapshots db !! (run_id, run_shard), db_summaries db !! (run_id, run_shard)).

(** [RunShardSummary { run_id, run_shard, expected_execution_count, status: "running", ..Default::default() }]. *)
Definition final_base (run_id run_shard expected : Z) : RunShardSummary :=
  mkRunShardSummary run_id run_shard expected 0 0 0 0 0 0 0 0 0 0 0 (SpecFloat.S754_zero false) None None Null
    0 0 "running" false "" 0 0 0 0.

Definition seal (s : RunShardSummary) : RunShardSummary :=
  mkRunShardSummary (rs_run_id s) (rs_run_shard s) (rs_expected_execution_count s) (rs_execution_count s)
    (rs_terminal_execution_count s) (rs_aggregate_count s) (rs_passed_execution_count s)
    (rs_failed_execution_count s) (rs_errored_execution_count s) (rs_skipped_execution_count s)
    (rs_missing_aggregate_count s) (rs_evaluator_result_count s) (rs_blocking_failure_count s)
    (rs_score_count s) (rs_score_sum s) (rs_min_score s) (rs_max_score s) (rs_scorecard s)
    (rs_failed_chunk_count s) (rs_cancelled_chunk_count s)
    (if (0 <? rs_failed_chunk_count s) || (0 <? rs_cancelled_chunk_count s) || (0 <? rs_failed_execution_count s)
        || (0 <? rs_errored_execution_count s) || (0 <? rs_missing_execution_count s)
        || (0 <? rs_unresolved_execution_count s)
     then "failed" else "completed")
    true (rs_planned_chunk_hash s) (rs_planned_chunk_count s) (rs_settled_chunk_count s)
    (rs_missing_execution_count s) (rs_unresolved_execution_count s).

(** The constraints of [run_shard_summaries]. *)
Definition summary_ok (s : RunShardSummary) : bool :=
  forallb (fun n => 0 <=? n)
    [rs_expected_execution_count s; rs_execution_count s; rs_terminal_execution_count s; rs_aggregate_count s;
     rs_passed_execution_count s; rs_failed_execution_count s; rs_errored_execution_count s;
     rs_skipped_execution_count s; rs_missing_aggregate_count s; rs_evaluator_result_count s;
     rs_blocking_failure_count s; rs_score_count s; rs_failed_chunk_count s; rs_cancelled_chunk_count s;
     rs_planned_chunk_count s; rs_settled_chunk_count s; rs_missing_execution_count s; rs_unresolved_execution_count s]
  && (str_eqb (rs_status s) "running" || is_terminal_summary_status (rs_status s))
  && (negb (rs_sealed s)
      || (is_terminal_summary_status (rs_status s) && (0 <? rs_planned_chunk_count s)
          && (rs_settled_chunk_count s =? rs_planned_chunk_count s))).

(** [store_with]: the counters, the checkpoint and the consumption marks. *)
Definition store_with (db : Database) (now : Z) (summary : RunShardSummary) (state : AggregationState)
    (consumed : list Uuid) : result Database :=
  let key := (rs_run_id summary, rs_run_shard summary) in
  let consumptions := update_where
    (fun k r => of_shard (rs_run_id summary) (rs_run_shard summary) k r
                && bool_decide (k.2 ∈ consumed) && negb (cs_consumed r))
    (fun _ r => mkConsumptionRow (cs_ordinal_start r) true) (db_consumptions db) in
  row ← ok_or (db_summaries db !! key) "shard summary checkpoint lost its unsealed row";
  _ ← ensure (negb (rs_sealed (su_summary row))) "shard summary checkpoint lost its unsealed row";
  _ ← ensure (summary_ok summary) "new row for relation run_shard_summaries violates check constraint";
  Ok (with_summaries (with_settlement db (db_settlements db) consumptions)
        (<[key := mkSummaryRow summary (Some state) now]> (db_summaries db))).

(** What one branch of the page leaves: the summary, the checkpoint, the
    consumed identities, whether it progressed and whether to revisit. *)
Record PageWork := mkPageWork {
  pw_summary : RunShardSummary;
  pw_state : AggregationState;
  pw_consumed : list Uuid;
  pw_progressed : bool;
  pw_ready_again : bool
}.

Definition progress_branch (db : Database) (run_id run_shard page_rows : Z) (policy : string)
    (summary : RunShardSummary) (state : AggregationState) (progressed : bool) : result PageWork :=
  let '(receipts, pending_rows) := progress_page db run_id run_shard page_rows in
  let pending_count := if bool_decide (receipts = []) then 0 else pending_rows in
  folded ← foldM (fold_progress run_id run_shard policy) (summary, []) receipts;
  let '(summary', consumed) := folded in
  _ ← ensure (rs_settled_chunk_count summary' <=? mn_chunk_count (as_plan state)) "more chunk receipts than planned";
  Ok (mkPageWork summary' state consumed (progressed || negb (bool_decide (consumed = [])))
        ((rs_settled_chunk_count summary' =? mn_chunk_count (as_plan state)) || (zlen consumed <? pending_count))).

Definition verify_branch (db : Database) (run_id run_shard page_rows : Z) (policy : string) (expected : Z)
    (summary : RunShardSummary) (state : AggregationState) (progressed : bool) : result PageWork :=
  let plan := as_plan state in
  let final0 := default (final_base run_id run_shard expected) (as_final_summary state) in
  let chunks := chunk_page db run_id run_shard (as_folded state) page_rows in
  _ ← ensure (negb (bool_decide (chunks = [])) || (mn_chunk_count (as_folded state) =? mn_chunk_count plan))
        "lost planned chunks before sealing";
  let receipts := verification_page db run_id run_shard chunks in
  _ ← ensure (is_none_or (fun c => opt_is_some (find_receipt (ci_chunk_id c) receipts)) (head chunks))
        "lost an accounted settlement receipt";
  work ← fold_page run_id run_shard policy receipts chunks 0 (final0, as_folded state, progressed);
  let '(final, folded, progressed') := work in
  let state' := mkAggregationState (as_version state) (as_policy_hash state) plan folded (Some final) in
  _ ← ensure ((mn_chunk_count folded <=? mn_chunk_count plan) && (mn_case_count folded <=? expected))
        "unplanned chunk receipts";
  if mn_chunk_count folded =? mn_chunk_count plan then
    _ ← ensure (bool_decide (folded = plan) && bool_decide (chunk_page db run_id run_shard folded page_rows = []))
          "settled membership does not match its immutable plan";
    Ok (mkPageWork (seal final) state' [] true true)
  else Ok (mkPageWork summary state' [] progressed' true).

(** The part of the page after the context is loaded. *)
Definition advance_loaded (db : Database) (now run_id run_shard : Z) (snapshot : SnapshotRow)
    (row : option SummaryRow) : result (Database * PageOutcome) :=
  let config := rc_config_snapshot (sn_context snapshot) in
  let policy := rc_aggregation_policy_hash (sn_context snapshot) in
  let expected := sn_expected_execution_count snapshot in
  planned ← snapshot_manifest config run_shard;
  let page_rows := if has_gates config then GATED_PAGE_ROWS else COMPACT_PAGE_ROWS in
  db1 ← match row with
        | Some _ => Ok db
        | None => initialize_run_shard_summary_with db now run_id run_shard
        end;
  current ← ok_or (db_summaries db1 !! (run_id, run_shard)) "aggregation lost its snapshot";
  let stored := row ≫= su_aggregation_state in
  let summary := if opt_is_some stored then su_summary current
                 else empty_summary run_id run_shard expected policy in
  let state := default (mkAggregationState 1 policy planned default_manifest None) stored in
  _ ← ensure ((as_version state =? 1) && str_eqb (as_policy_hash state) policy
              && (rs_expected_execution_count summary =? expected)) "aggregation identity changed";
  _ ← ensure (bool_decide (as_plan state = planned)) "planned membership changed";
  _ ← ensure ((mn_case_count planned =? expected) && (0 <? mn_chunk_count planned)
              && negb (str_eqb (mn_hash planned) "")) "invalid planned coverage";
  work ← (if rs_settled_chunk_count summary <? mn_chunk_count planned
          then progress_branch db1 run_id run_shard page_rows policy summary state (opt_is_none stored)
          else verify_branch db1 run_id run_shard page_rows policy expected summary state (opt_is_none stored));
  counted ← apply_gate_counts (pw_summary work) config;
  let published := set_plan counted (mn_chunk_count planned) (mn_hash planned) in
  db2 ← (if pw_progressed work then store_with db1 now published (pw_state work) (pw_consumed work) else Ok db1);
  Ok (db2, if negb (pw_progressed work) then Deferred
           else if rs_sealed published then Sealed
           else if pw_ready_again work then Advanced else CaughtUp).

(** [advance_shard_summary_page]; [claimed] is the result of the nonblocking
    advisory lock. *)
Definition advance_shard_summary_page (db : Database) (now run_id run_shard write_epoch : Z) (claimed : bool)
    : result (Database * PageOutcome) :=
  if negb claimed then Ok (db, Deferred)
  else
    context ← load_context db run_id run_shard write_epoch;
    let '(snapshot, row) := context in
    if is_some_and (fun r => rs_sealed (su_summary r)) row then Ok (db, Deferred)
    else
      let db1 := match snapshot with Some _ => db | None => ensure_snapshot_with db run_id run_shard end in
      match db_snapshots db1 !! (run_id, run_shard) with
      | None => Ok (db, Deferred)
      | Some snapshot => advance_loaded db1 now run_id run_shard snapshot row
      end.

(** The rotation of an unproductive candidate. *)
Definition rotate_candidate (db : Database) (now run_id run_shard : Z) : Database :=
  with_summaries db (update_where (fun k row => bool_decide (k = (run_id, run_shard)) && negb (rs_sealed (su_summary row)))
    (fun _ row => mkSummaryRow (su_summary row) (su_aggregation_state row) now) (db_summaries db)).

(** Discovery of [advance_pending_summaries]: unsealed summaries with work, the
    longest unvisited first. *)
Definition by_visit (x y : shard_key * SummaryRow) : Prop :=
  su_updated_at x.2 < su_updated_at y.2 \/
  (su_updated_at x.2 = su_updated_at y.2 /\ (x.1.1 < y.1.1 \/ (x.1.1 = y.1.1 /\ x.1.2 <= y.1.2))).
#[global] Instance by_visit_dec : RelDecision by_visit.
Proof. intros x y. unfold by_visit. apply _. Defined.

Definition has_work (db : Database) (k : shard_key) (row : SummaryRow) : bool :=
  let s := su_summary row in
  negb (rs_sealed s)
  && is_some_and (fun a => allows_settlement (ad_state a)) (db_admissions db !! k)
  && (((0 <? rs_planned_chunk_count s) && (rs_planned_chunk_count s <=? rs_settled_chunk_count s))
      || exists_where (unconsumed k.1 k.2) (db_consumptions db)).

Definition summary_candidates (db : Database) (limit : Z) : list (shard_key * Z) :=
  omap (fun kr => (fun a => (kr.1, ad_write_epoch a)) <$> db_admissions db !! kr.1)
    (take (Z.to_nat limit) (merge_sort by_visit (map_to_list (rows_where (has_work db) (db_summaries db))))).

End summary.

(** ** Planned order *)

(** Strict order of chunk identities. *)
Definition ident_lt (x y : ChunkIdentity) : Prop :=
  ci_ordinal_start x < ci_ordinal_start y \/
  (ci_ordinal_start x = ci_ordinal_start y /\ ci_chunk_id x < ci_chunk_id y).

#[global] Instance by_ordinal_trans : Transitive by_ordinal.
Proof. intros x y z. unfold by_ordinal. lia. Qed.
#[global] Instance by_ordinal_total : Total by_ordinal.
Proof. intros x y. unfold by_ordinal. lia. Qed.

Lemma sorted_identities run_id run_shard (l : list (row_key * ChunkRow)) :
  StronglySorted by_ordinal l -> NoDup (l.*1) -> Forall (fun kc => kc.1.1 = (run_id, run_shard)) l ->
  StronglySorted ident_lt (map identity_of l).
Proof.
  induction 1 as [|[k c] l Hs IH Hall]; intros Hnd Hsh; simpl; [constructor|].
  inversion Hnd as [|?? Hn Hnd']; subst. inversion Hsh as [|?? Hk Hsh']; subst. constructor; [by apply IH|].
  clear IH Hs Hnd Hnd'. simpl in *. rewrite Forall_map, Forall_forall in *. intros [k' c'] Hin.
  specialize (Hall _ Hin). specialize (Hsh' _ Hin). simpl in Hsh'. unfold by_ordinal in Hall. unfold ident_lt.
  simpl in *. assert (Hne : k <> k').
  { intros ->. apply Hn, list_elem_of_fmap. by exists (k', c'). }
  destruct k as [k1 k2], k' as [k1' k2']. simpl in *. subst.
  assert (k2 <> k2') by congruence. lia.
Qed.

Lemma shard_chunks_sorted db run_id run_shard : StronglySorted ident_lt (shard_chunks db run_id run_shard).
Proof.
  unfold shard_chunks. apply (sorted_identities run_id run_shard).
  - apply (StronglySorted_merge_sort by_ordinal).
  - rewrite merge_sort_Permutation. apply NoDup_fst_map_to_list.
  - rewrite merge_sort_Permutation. apply Forall_forall. intros [k c] Hin.
    rewrite elem_of_map_to_list, lookup_rows_where in Hin. destruct Hin as [_ Hp]. unfold of_shard in Hp.
    rewrite andb_true_iff, !Z.eqb_eq in Hp. destruct k as [[r s] i]. simpl in *. by destruct Hp as [-> ->].
Qed.

(** Strictly sorted identity lists with the same elements are equal. *)
Lemma identities_unique l1 l2 :
  StronglySorted ident_lt l1 -> StronglySorted ident_lt l2 -> (forall c, c ∈ l1 <-> c ∈ l2) -> l1 = l2.
Proof.
  assert (Hnd : forall l, StronglySorted ident_lt l -> NoDup l).
  { induction 1 as [|c l _ IH Hall]; constructor; [|done]. intros Hin. rewrite Forall_forall in Hall.
    specialize (Hall _ Hin). unfold ident_lt in Hall. lia. }
  intros H1 H2 Hiff. apply (StronglySorted_unique_strong ident_lt); try done.
  - unfold ident_lt. intros x y _ _ Hxy Hyx. lia.
  - apply NoDup_Permutation; auto.
Qed.

Lemma elem_of_shard_chunks db run_id run_shard c :
  c ∈ shard_chunks db run_id run_shard <->
  exists row, db_chunks db !! (run_id, run_shard, ci_chunk_id c) = Some row /\
    c = mkChunkIdentity (ci_chunk_id c) run_shard (ch_ordinal_start row) (ch_ordinal_end row).
Proof.
  unfold shard_chunks. rewrite list_elem_of_fmap. split.
  - intros ([k row] & -> & Hin). rewrite merge_sort_Permutation, elem_of_map_to_list, lookup_rows_where in Hin.
    destruct Hin as [Hk Hp]. unfold of_shard in Hp. rewrite andb_true_iff, !Z.eqb_eq in Hp.
    destruct k as [[r s] i]. simpl in *. destruct Hp as [-> ->]. eauto.
  - intros (row & Hk & Hc). exists ((run_id, run_shard, ci_chunk_id c), row). split; [exact Hc|].
    rewrite merge_sort_Permutation, elem_of_map_to_list, lookup_rows_where. split; [done|].
    unfold of_shard. simpl. by rewrite !Z.eqb_refl.
Qed.

Section manifests.
Context {SF : SummaryFunctions}.

Lemma manifest_push_Ok m c m' :
  manifest_push m c = Ok m' ->
  0 <= ci_ordinal_start c < ci_ordinal_end c /\ mn_chunk_count m' = mn_chunk_count m + 1 /\
  mn_case_count m' = mn_case_count m + (ci_ordinal_end c - ci_ordinal_start c) /\ mn_last m' = Some c.
Proof.
  unfold manifest_push. intros H. apply bind_Ok in H as ([] & H1 & H). apply ensure_Ok in H1.
  apply bind_Ok in H as (u & _ & H). apply bind_Ok in H as (n & Hn & H). apply bind_Ok in H as (k & Hk & H).
  apply bind_Ok in H as (bytes & _ & H). injection H as <-. simpl. unfold i32_checked_add, checked in *.
  destruct (_ && _) in Hn; [|done]. destruct (_ && _) in Hk; [|done].
  simpl in *. injection Hn as <-. injection Hk as <-. split_and!; done || lia.
Qed.

Definition range_size (c : ChunkIdentity) : Z := ci_ordinal_end c - ci_ordinal_start c.

Definition sumz {A} (f : A -> Z) (l : list A) : Z := foldr (fun a acc => f a + acc) 0 l.

Lemma sumz_nonneg {A} (f : A -> Z) l : Forall (fun a => 0 <= f a) l -> 0 <= sumz f l.
Proof. induction 1; simpl; lia. Qed.

(** A sum of non-negative numbers is zero when each of them is. *)
Lemma sumz_zero {A} (f : A -> Z) l : Forall (fun a => 0 <= f a) l -> sumz f l = 0 <-> Forall (fun a => f a = 0) l.
Proof.
  induction 1 as [|a l Ha Hl IH]; simpl; [done|]. pose proof (sumz_nonneg f l Hl).
  rewrite Forall_cons, <- IH. lia.
Qed.

Lemma sumz_nonpos {A} (f : A -> Z) l : Forall (fun a => 0 <= f a) l -> sumz f l <= 0 <-> Forall (fun a => f a = 0) l.
Proof. intros Hl. rewrite <- (sumz_zero f l Hl). pose proof (sumz_nonneg f l Hl). lia. Qed.

Lemma sumz_ext {A} (f g : A -> Z) l : Forall (fun a => f a = g a) l -> sumz f l = sumz g l.
Proof. induction 1; simpl; lia. Qed.

Lemma sumz_map {A B} (f : B -> Z) (g : A -> B) l : sumz f (map g l) = sumz (fun a => f (g a)) l.
Proof. induction l; simpl; lia. Qed.

Lemma sumz_perm {A} (f : A -> Z) l1 l2 : l1 ≡ₚ l2 -> sumz f l1 = sumz f l2.
Proof. induction 1; simpl; lia. Qed.

Lemma sumz_app {A} (f : A -> Z) l1 l2 : sumz f (l1 ++ l2) = sumz f l1 + sumz f l2.
Proof. induction l1; simpl; lia. Qed.

Lemma manifest_fold l m :
  foldM manifest_push default_manifest l = Ok m ->
  mn_last m = last l /\ mn_chunk_count m = zlen l /\ mn_case_count m = sumz range_size l.
Proof.
  intros H. apply (foldM_inv_prefix (fun l m => mn_last m = last l /\ mn_chunk_count m = zlen l /\
    mn_case_count m = sumz range_size l) manifest_push l default_manifest m); [by split_and!| |exact H].
  intros pre m0 c m1 (H1 & H2 & H3) Hp. apply manifest_push_Ok in Hp as (_ & Hc & Hk & Hl).
  rewrite last_snoc, sumz_app, Hl, Hc, Hk, H2, H3. unfold zlen. rewrite length_app. simpl. unfold range_size.
  split_and!; done || lia.
Qed.

(** The cursor of a folded prefix selects exactly the rest. *)
Lemma after_prefix m done rest :
  StronglySorted ident_lt (done ++ rest) -> Forall (fun c => 0 <= ci_ordinal_start c) rest ->
  mn_last m = last done ->
  base.filter (fun c => after_cursor m c = true) (done ++ rest) = rest.
Proof.
  intros Hs Hpos Hl. rewrite filter_app.
  assert (Hrest : forall l, Forall (fun c => after_cursor m c = true) l ->
    base.filter (fun c => after_cursor m c = true) l = l).
  { induction 1 as [|c l Hc _ IH]; [done|]. rewrite filter_cons_True by done. by rewrite IH. }
  destruct (last done) as [c0|] eqn:El.
  - apply last_Some in El as [init ->]. rewrite <- app_assoc in Hs. simpl in Hs.
    pose proof Hs as Hs0. apply StronglySorted_app in Hs as (H12 & Hinit & Hrest0).
    inversion Hrest0 as [|?? _ Hc0]; subst.
    assert (Hnone : forall l, Forall (fun c => after_cursor m c <> true) l ->
      base.filter (fun c => after_cursor m c = true) l = []).
    { induction 1 as [|c l Hc _ IH]; [done|]. by rewrite filter_cons_False. }
    rewrite (Hrest rest).
    + rewrite filter_app. rewrite (Hnone init).
      * rewrite filter_cons_False; [done|]. unfold after_cursor. rewrite Hl. lia.
      * apply Forall_forall. intros x Hx. specialize (H12 x c0 Hx ltac:(set_solver)).
        unfold after_cursor. rewrite Hl. unfold ident_lt in H12. lia.
    + eapply Forall_impl; [exact Hc0|]. intros y Hy. unfold after_cursor. rewrite Hl.
      unfold ident_lt in Hy. simpl in Hy. lia.
  - apply last_None in El as ->. simpl. apply Hrest. eapply Forall_impl; [exact Hpos|].
    intros y Hy. unfold after_cursor. rewrite Hl. simpl in Hy. lia.
Qed.

End manifests.


(** ** Folding receipts *)

(** The counters of a summary, in the order of the [add!] macro. *)
Definition counter_fields : list (RunShardSummary -> Z) :=
  [rs_execution_count; rs_terminal_execution_count; rs_aggregate_count; rs_passed_execution_count;
   rs_failed_execution_count; rs_errored_execution_count; rs_skipped_execution_count;
   rs_missing_aggregate_count; rs_evaluator_result_count; rs_blocking_failure_count; rs_score_count;
   rs_failed_chunk_count; rs_cancelled_chunk_count; rs_missing_execution_count; rs_unresolved_execution_count].

Section folding.
Context {RF : ReceiptFunctions} {SF : SummaryFunctions}.

Lemma add_counter_Ok add a b r :
  (forall x y z, add x y = Some z -> z = x + y) -> add_counter add a b = Ok r -> r = a + b /\ 0 <= b.
Proof.
  intros Hadd H. unfold add_counter in H. apply bind_Ok in H as ([] & H1 & H). apply ensure_Ok in H1.
  destruct (add a b) as [z|] eqn:E; [|done]. injection H as <-. split; [by apply Hadd|lia].
Qed.

Lemma i32_add_Some x y z : i32_checked_add x y = Some z -> z = x + y.
Proof. unfold i32_checked_add, checked. destruct (_ && _); congruence. Qed.
Lemma i64_add_Some x y z : i64_checked_add x y = Some z -> z = x + y.
Proof. unfold i64_checked_add, checked. destruct (_ && _); congruence. Qed.

Lemma fold_Ok policy t r t' :
  fold policy t r = Ok t' ->
  Forall (fun g => g t' = g t + g r /\ 0 <= g r) counter_fields /\
  rs_settled_chunk_count t' = rs_settled_chunk_count t + 1 /\
  rs_run_id t' = rs_run_id t /\ rs_run_shard t' = rs_run_shard t /\
  rs_expected_execution_count t' = rs_expected_execution_count t /\ rs_sealed t' = rs_sealed t.
Proof.
  unfold fold. intros H. apply bind_Ok in H as (card & _ & H).
  repeat match type of H with
  | mbind (fun _ => _) (add_counter _ _ _) = Ok _ =>
      let x := fresh "x" in let Hx := fresh "Hx" in apply bind_Ok in H as (x & Hx & H);
      apply add_counter_Ok in Hx as [-> Hx]; [|by intros ??? ?%i32_add_Some || by intros ??? ?%i64_add_Some]
  end.
  apply bind_Ok in H as ([] & _ & H). apply bind_Ok in H as (n & Hn & H). injection H as <-.
  destruct (i32_checked_add _ 1) as [m|] eqn:E; [|done]. injection Hn as <-. apply i32_add_Some in E as ->.
  split_and!; try done. unfold counter_fields. by repeat constructor.
Qed.

Lemma folds_Ok policy rs : forall t f,
  foldM (fold policy) t rs = Ok f ->
  Forall (fun g => g f = g t + sumz g rs /\ Forall (fun r => 0 <= g r) rs) counter_fields /\
  rs_settled_chunk_count f = rs_settled_chunk_count t + zlen rs /\
  rs_run_id f = rs_run_id t /\ rs_run_shard f = rs_run_shard t /\
  rs_expected_execution_count f = rs_expected_execution_count t /\ rs_sealed f = rs_sealed t.
Proof.
  induction rs as [|r rs IH]; intros t f H; simpl in H.
  - injection H as <-. unfold zlen. simpl. split_and!; try done; [|lia].
    apply Forall_forall. intros g _. split; [lia|constructor].
  - apply bind_Ok in H as (t1 & H1 & H). apply fold_Ok in H1 as (C & S & R1 & R2 & R3 & R4).
    destruct (IH _ _ H) as (C' & S' & R1' & R2' & R3' & R4'). simpl.
    rewrite S', S, R1', R2', R3', R4'. unfold zlen. simpl. split_and!; try congruence; [|lia].
    rewrite Forall_forall in C, C' |- *. intros g Hg. pose proof (C g Hg) as [E1 E2]. pose proof (C' g Hg) as [E3 E4].
    simpl in *. split; [lia|by constructor].
Qed.

(** ** Verification pages *)

(** The receipt of a chunk in the settlements table. *)
Definition receipt_rel (db : Database) (run_id run_shard : Z) (c : ChunkIdentity) (r : RunShardSummary) : Prop :=
  exists row, db_settlements db !! (run_id, run_shard, ci_chunk_id c) = Some row /\ st_summary row = r.

Lemma elem_of_bounded x l : forall total, x ∈ bounded total l -> x ∈ l.
Proof.
  induction l as [|[id r] l IH]; intros total H; simpl in H; [done|].
  destruct (_ <=? _); [apply elem_of_cons in H as [->|H]; [by left|]|]; right; eapply IH, H.
Qed.

Lemma verification_receipt db run_id run_shard chunks c r :
  find_receipt (ci_chunk_id c) (verification_page db run_id run_shard chunks) = Some r ->
  receipt_rel db run_id run_shard c r.
Proof.
  unfold find_receipt. destruct (find _ _) as [[id r']|] eqn:E; [|done]. intros [= ->].
  apply find_some in E as [Hin Hid]. simpl in Hid. apply Z.eqb_eq in Hid as ->.
  apply list_elem_of_In, elem_of_bounded, list_elem_of_fmap in Hin as ([k row] & Heq & Hin). injection Heq as Hid ->.
  rewrite merge_sort_Permutation, elem_of_map_to_list, lookup_rows_where in Hin. destruct Hin as [Hk Hp].
  apply andb_true_iff in Hp as [Hp _]. unfold of_shard in Hp. rewrite andb_true_iff, !Z.eqb_eq in Hp.
  destruct k as [[a b] i]. simpl in *. destruct Hp as [-> ->]. subst i. exists row. by split.
Qed.

(** A verification page folds a prefix of its chunks with their receipts. *)
Lemma fold_page_Ok db run_id run_shard policy page : forall chunks bytes final folded p final' folded' p',
  fold_page run_id run_shard policy (verification_page db run_id run_shard page) chunks bytes (final, folded, p)
  = Ok (final', folded', p') ->
  exists l1 l2 rs, chunks = l1 ++ l2 /\ Forall2 (receipt_rel db run_id run_shard) l1 rs /\
    Forall2 (fun c r => rs_expected_execution_count r = range_size c) l1 rs /\
    foldM (fold policy) final rs = Ok final' /\ foldM manifest_push folded l1 = Ok folded'.
Proof.
  induction chunks as [|c chunks IH]; intros bytes final folded p final' folded' p' H; simpl in H.
  { injection H as <- <- <-. exists [], [], []. by repeat constructor. }
  destruct (find_receipt _ _) as [r|] eqn:Er; [|injection H as <- <- <-; by exists [], (c :: chunks), []; repeat constructor].
  apply bind_Ok in H as ([] & _ & H).
  destruct (PAGE_BYTES <? _); [injection H as <- <- <-; by exists [], (c :: chunks), []; repeat constructor|].
  apply bind_Ok in H as ([] & Hid & H). apply ensure_Ok in Hid.
  apply bind_Ok in H as (f1 & Hf1 & H). apply bind_Ok in H as (m1 & Hm1 & H).
  destruct (IH _ _ _ _ _ _ _ H) as (l1 & l2 & rs & -> & Hrel & Hexp & Hf & Hm).
  exists (c :: l1), l2, (r :: rs). split_and!; [done| | | |].
  - constructor; [|done]. by eapply verification_receipt.
  - constructor; [|done]. unfold range_size. lia.
  - simpl. by rewrite Hf1.
  - simpl. by rewrite Hm1.
Qed.

(** ** Checkpoints *)

(** A checkpoint has folded the receipts of a prefix of the planned chunks. *)
Record checkpoint (db : Database) (run_id run_shard : Z) (st : AggregationState)
    (done rest : list ChunkIdentity) (rs : list RunShardSummary) : Prop := mkCheckpoint {
  cp_chunks : shard_chunks db run_id run_shard = done ++ rest;
  cp_folded : foldM manifest_push default_manifest done = Ok (as_folded st);
  cp_receipts : Forall2 (receipt_rel db run_id run_shard) done rs;
  cp_ranges : Forall2 (fun c r => rs_expected_execution_count r = range_size c) done rs;
  cp_final : match as_final_summary st with
    | None => done = []
    | Some f => exists expected, foldM (fold (as_policy_hash st)) (final_base run_id run_shard expected) rs = Ok f
    end
}.

(** A summary row: its checkpoint is a prefix, and when it is sealed the prefix
    is the whole shard, equal to the plan, and the summary is its fold. *)
Definition row_ok (db : Database) (k : shard_key) (row : SummaryRow) : Prop :=
  (rs_run_id (su_summary row), rs_run_shard (su_summary row)) = k /\
  match su_aggregation_state row with
  | None => rs_sealed (su_summary row) = false
  | Some st => exists done rest rs, checkpoint db k.1 k.2 st done rest rs /\
      (rs_sealed (su_summary row) = true ->
       rest = [] /\ as_folded st = as_plan st /\
       exists f card, as_final_summary st = Some f /\
         su_summary row = set_plan (set_scorecard (seal f) card) (mn_chunk_count (as_plan st)) (mn_hash (as_plan st)))
  end.

Definition summaries_ok (db : Database) : Prop :=
  forall k row, db_summaries db !! k = Some row -> row_ok db k row.

Lemma row_ok_mono db db' k row :
  shard_chunks db' k.1 k.2 = shard_chunks db k.1 k.2 -> db_settlements db ⊆ db_settlements db' ->
  row_ok db k row -> row_ok db' k row.
Proof.
  intros Hc Hs. unfold row_ok. destruct (su_aggregation_state row) as [st|]; [|done].
  intros (Hk & done & rest & rs & [H1 H2 H3 H4 H5] & Hsealed). split; [done|]. exists done, rest, rs. split; [|done].
  constructor; try done; [congruence|]. eapply Forall2_impl; [exact H3|].
  intros c r (s & Hrow & Hr). exists s. split; [by eapply lookup_weaken|done].
Qed.

(** ** The page transaction *)

(** What a page leaves alone: everything but snapshots, summaries and the marks
    of consumed receipts. *)
Record page_frame (db db' : Database) : Prop := mkPageFrame {
  pf_chunks : db_chunks db' = db_chunks db;
  pf_executions : db_executions db' = db_executions db;
  pf_attempts : db_attempts db' = db_attempts db;
  pf_aggregates : db_aggregates db' = db_aggregates db;
  pf_settlements : db_settlements db' = db_settlements db;
  pf_admissions : db_admissions db' = db_admissions db;
  pf_consumptions : forall k, is_Some (db_consumptions db' !! k) <-> is_Some (db_consumptions db !! k);
  (** Sealed rows stay, and a row that was not there is unsealed or written by
      the page. *)
  pf_sealed : forall k row, db_summaries db !! k = Some row -> rs_sealed (su_summary row) = true ->
    db_summaries db' !! k = Some row
}.

#[global] Instance page_frame_preorder : PreOrder page_frame.
Proof.
  split; [by intros db; constructor|]. intros x y z [] []. constructor; try congruence.
  - intros k. by rewrite pf_consumptions1.
  - auto.
Qed.

Lemma ensure_snapshot_page db run_id run_shard :
  page_frame db (ensure_snapshot_with db run_id run_shard) /\
  db_summaries (ensure_snapshot_with db run_id run_shard) = db_summaries db.
Proof. unfold ensure_snapshot_with. by destruct (db_runs db !! run_id); split; try constructor. Qed.

Lemma shard_chunks_frame db db' run_id run_shard :
  db_chunks db' = db_chunks db -> shard_chunks db' run_id run_shard = shard_chunks db run_id run_shard.
Proof. unfold shard_chunks. by intros ->. Qed.

Lemma summaries_ok_frame db db' :
  db_chunks db' = db_chunks db -> db_settlements db' = db_settlements db -> db_summaries db' = db_summaries db ->
  summaries_ok db -> summaries_ok db'.
Proof.
  intros H1 H2 H3 H k row Hk. rewrite H3 in Hk.
  eapply row_ok_mono; [by apply shard_chunks_frame|by rewrite H2|by apply H].
Qed.

Lemma insert_new_row db k row :
  row_ok db k row -> summaries_ok db -> summaries_ok (with_summaries db (insert_new k row (db_summaries db))).
Proof.
  intros Hrow H k' row' Hk'. apply (row_ok_mono db); [done|done|].
  apply insert_new_Some in Hk' as [Hk'|(_ & -> & ->)]; [by apply H|done].
Qed.

Lemma initialize_page db now run_id run_shard db' :
  initialize_run_shard_summary_with db now run_id run_shard = Ok db' -> summaries_ok db ->
  page_frame db db' /\ summaries_ok db'.
Proof.
  unfold initialize_run_shard_summary_with, insert_run_shard_summary_with. intros H Hok.
  destruct (ensure_snapshot_page db run_id run_shard) as [Hf Hs]. set (d := ensure_snapshot_with _ _ _) in *.
  assert (Hd : summaries_ok d) by (by eapply (summaries_ok_frame db); [apply Hf|apply Hf|..]).
  destruct (db_snapshots d !! _) as [sn|]; [|by injection H as <-].
  apply bind_Ok in H as (n & _ & H). apply bind_Ok in H as ([] & _ & H). injection H as <-. split.
  - etransitivity; [exact Hf|]. constructor; try done. intros k row Hk _. simpl. by apply insert_new_mono.
  - by apply insert_new_row.
Qed.

Lemma apply_gate_counts_Ok s snapshot s' :
  apply_gate_counts s snapshot = Ok s' -> exists card, s' = set_scorecard s card.
Proof.
  assert (Hid : s = set_scorecard s (rs_scorecard s)) by (by destruct s).
  unfold apply_gate_counts. intros H. destruct (json_get _ _) as [v|]; [|injection H as <-; eauto].
  apply bind_Ok in H as (counts & _ & H). destruct (_ =? 0); [injection H as <-; eauto|].
  apply bind_Ok in H as (card & _ & H). apply bind_Ok in H as ([] & _ & H). apply bind_Ok in H as (es & _ & H).
  apply bind_Ok in H as (u & _ & H). injection H as <-. eauto.
Qed.

Lemma store_with_Ok db now summary state consumed db' :
  store_with db now summary state consumed = Ok db' ->
  (exists row, db_summaries db !! (rs_run_id summary, rs_run_shard summary) = Some row /\
     rs_sealed (su_summary row) = false) /\
  page_frame db db' /\
  db_summaries db' = <[(rs_run_id summary, rs_run_shard summary) := mkSummaryRow summary (Some state) now]> (db_summaries db).
Proof.
  unfold store_with. intros H. apply bind_Ok in H as (row & Hrow & H). apply ok_or_Ok in Hrow.
  apply bind_Ok in H as ([] & Hs & H). apply ensure_Ok in Hs. apply negb_true_iff in Hs.
  apply bind_Ok in H as ([] & _ & H). injection H as <-. split_and!; [eauto| |done].
  constructor; try done; simpl.
  - intros k. rewrite lookup_update_where. by destruct (db_consumptions db !! k).
  - intros k r Hk Hsealed. rewrite lookup_insert_ne; [done|]. congruence.
Qed.

(** The checkpoint behind a page: the stored one, or a fresh one. *)
Definition state_ok (db : Database) (run_id run_shard : Z) (st : AggregationState) : Prop :=
  exists done rest rs, checkpoint db run_id run_shard st done rest rs.

Lemma fresh_state_ok db run_id run_shard policy planned :
  state_ok db run_id run_shard (mkAggregationState 1 policy planned default_manifest None).
Proof. exists [], (shard_chunks db run_id run_shard), []. by constructor; simpl; try constructor. Qed.

Lemma progress_branch_Ok db run_id run_shard rows policy summary state p work :
  progress_branch db run_id run_shard rows policy summary state p = Ok work ->
  pw_state work = state /\ rs_sealed (pw_summary work) = rs_sealed summary /\
  rs_run_id (pw_summary work) = rs_run_id summary /\ rs_run_shard (pw_summary work) = rs_run_shard summary.
Proof.
  unfold progress_branch. destruct (progress_page _ _ _ _) as [receipts n]. intros H.
  apply bind_Ok in H as ([s' consumed] & Hf & H). apply bind_Ok in H as ([] & _ & H). injection H as <-. simpl.
  split; [done|]. eapply (foldM_inv (fun acc : RunShardSummary * list Uuid => rs_sealed acc.1 = rs_sealed summary /\
    rs_run_id acc.1 = rs_run_id summary /\ rs_run_shard acc.1 = rs_run_shard summary)) in Hf; [done| |by split_and!].
  intros [s1 c1] [id r] [s2 c2] _ (H1 & H2 & H3) Hs. unfold fold_progress in Hs.
  apply bind_Ok in Hs as ([] & _ & Hs). apply bind_Ok in Hs as (s3 & Hs3 & Hs). injection Hs as <- <-.
  apply fold_Ok in Hs3 as (_ & _ & R1 & R2 & _ & R4). simpl in *. split_and!; congruence.
Qed.

(** A verification page extends the folded prefix; it seals exactly when the
    prefix is the whole shard and equals the plan. *)
Lemma verify_branch_Ok db run_id run_shard rows policy expected summary state p work :
  (forall k c, db_chunks db !! k = Some c -> 0 <= ch_ordinal_start c) -> 0 < rows ->
  state_ok db run_id run_shard state -> as_policy_hash state = policy -> rs_sealed summary = false ->
  rs_run_id summary = run_id -> rs_run_shard summary = run_shard ->
  verify_branch db run_id run_shard rows policy expected summary state p = Ok work ->
  as_plan (pw_state work) = as_plan state /\
  rs_run_id (pw_summary work) = run_id /\ rs_run_shard (pw_summary work) = run_shard /\
  exists done rest rs, checkpoint db run_id run_shard (pw_state work) done rest rs /\
    (rs_sealed (pw_summary work) = true -> rest = [] /\ as_folded (pw_state work) = as_plan state /\
       exists f, as_final_summary (pw_state work) = Some f /\ pw_summary work = seal f).
Proof.
  intros Hpos Hrows (done & rest & rs & [K1 K2 K3 K4 K5]) Hpol Hunsealed Hid Hsh H. unfold verify_branch in H.
  apply bind_Ok in H as ([] & _ & H). apply bind_Ok in H as ([] & _ & H).
  apply bind_Ok in H as ([[final folded] p'] & Hf & H). apply bind_Ok in H as ([] & _ & H).
  destruct (manifest_fold _ _ K2) as (Hlast & _).
  assert (Hnn : Forall (fun c => 0 <= ci_ordinal_start c) (done ++ rest)).
  { rewrite <- K1. apply Forall_forall. intros c (row & Hk & ->)%elem_of_shard_chunks. simpl. by eapply Hpos. }
  assert (Hsort : StronglySorted ident_lt (done ++ rest)) by (rewrite <- K1; apply shard_chunks_sorted).
  assert (Hafter : base.filter (fun c => after_cursor (as_folded state) c = true) (shard_chunks db run_id run_shard) = rest).
  { rewrite K1. apply after_prefix; [done| |done]. by apply Forall_app in Hnn as [_ ?]. }
  apply fold_page_Ok in Hf as (l1 & l2 & rs1 & Hl & Hrel & Hexp & Hfold & Hman).
  unfold chunk_page in Hl. rewrite Hafter in Hl.
  assert (Hrest : rest = l1 ++ (l2 ++ drop (Z.to_nat rows) rest)).
  { rewrite app_assoc, <- Hl. by rewrite take_drop. }
  set (tail := l2 ++ drop (Z.to_nat rows) rest) in *. clearbody tail.
  set (state' := mkAggregationState (as_version state) (as_policy_hash state) (as_plan state) folded (Some final)) in *.
  assert (Hck : checkpoint db run_id run_shard state' (done ++ l1) tail (rs ++ rs1)).
  { constructor; simpl.
    - rewrite K1, Hrest. by rewrite app_assoc.
    - rewrite foldM_app, K2. exact Hman.
    - by apply Forall2_app.
    - by apply Forall2_app.
    - rewrite Hpol. destruct (as_final_summary state) as [f|]; simpl in Hfold.
      + destruct K5 as [e He]. exists e. rewrite foldM_app, <- Hpol, He, Hpol. exact Hfold.
      + subst done. apply Forall2_nil_inv_l in K3 as ->. exists expected. exact Hfold. }
  assert (Hfid : rs_run_id final = run_id /\ rs_run_shard final = run_shard).
  { destruct (cp_final _ _ _ _ _ _ _ Hck) as [e He]. apply folds_Ok in He as (_ & _ & R1 & R2 & _). done. }
  destruct (mn_chunk_count folded =? _) eqn:Ecount.
  - apply bind_Ok in H as ([] & Hens & H). apply ensure_Ok in Hens. injection H as <-. simpl.
    rewrite andb_true_iff, !bool_decide_eq_true in Hens. destruct Hens as [Hplan Hempty].
    destruct Hfid. split_and!; try done. exists (done ++ l1), tail, (rs ++ rs1). split; [exact Hck|]. intros _.
    split_and!; [|exact Hplan|exists final; by split].
    unfold chunk_page in Hempty. rewrite K1, Hrest, app_assoc, after_prefix in Hempty.
    + destruct tail; [done|]. destruct (Z.to_nat rows) eqn:En; [lia|done].
    + by rewrite <- app_assoc, <- Hrest.
    + rewrite Hrest, !Forall_app in Hnn. apply Hnn.
    + by apply (manifest_fold _ _ (cp_folded _ _ _ _ _ _ _ Hck)).
  - injection H as <-. simpl. split_and!; try done. exists (done ++ l1), tail, (rs ++ rs1).
    split; [exact Hck|]. congruence.
Qed.

Lemma advance_loaded_Ok db now run_id run_shard snapshot row db' o :
  (forall k c, db_chunks db !! k = Some c -> 0 <= ch_ordinal_start c) -> summaries_ok db ->
  db_summaries db !! (run_id, run_shard) = row ->
  is_some_and (fun r => rs_sealed (su_summary r)) row = false ->
  advance_loaded db now run_id run_shard snapshot row = Ok (db', o) ->
  page_frame db db' /\ summaries_ok db' /\
  (o = Sealed -> exists r, db_summaries db' !! (run_id, run_shard) = Some r /\ rs_sealed (su_summary r) = true).
Proof.
  intros Hpos Hok Hrow Hunsealed H. unfold advance_loaded in H.
  set (policy := rc_aggregation_policy_hash _) in *. set (expected := sn_expected_execution_count snapshot) in *.
  apply bind_Ok in H as (planned & _ & H). set (rows := if has_gates _ then _ else _) in *.
  assert (Hrows : 0 < rows) by (unfold rows; by destruct (has_gates _)).
  apply bind_Ok in H as (db1 & Hdb1 & H). apply bind_Ok in H as (current & Hcur & H). apply ok_or_Ok in Hcur.
  assert (Hf1 : page_frame db db1 /\ summaries_ok db1).
  { destruct row; [by injection Hdb1 as <-|]. by eapply initialize_page. }
  destruct Hf1 as [Hf1 Hok1]. set (stored := row ≫= su_aggregation_state) in *.
  set (summary := if opt_is_some stored then _ else _) in *. set (state := default _ stored) in *.
  assert (Hstored : forall st, stored = Some st -> exists r, row = Some r /\ su_aggregation_state r = Some st /\ current = r).
  { intros st Hst. destruct row as [r|]; [|done]. injection Hdb1 as <-. exists r. unfold stored in Hst. simpl in Hst. split_and!; congruence. }
  assert (Hsum : rs_sealed summary = false /\ rs_run_id summary = run_id /\ rs_run_shard summary = run_shard).
  { unfold summary. destruct stored as [st|]; [|done]. simpl.
    destruct (Hstored st eq_refl) as (r & -> & _ & ->). destruct (Hok1 _ _ Hcur) as [Hk _]. simpl in Hunsealed.
    split; [done|]. by injection Hk. }
  assert (Hstate : state_ok db1 run_id run_shard state).
  { unfold state. destruct stored as [st|] eqn:Est; [|apply fresh_state_ok]. simpl.
    destruct (Hstored st eq_refl) as (r & _ & Hst & ->). destruct (Hok1 _ _ Hcur) as [_ Hr]. rewrite Hst in Hr.
    destruct Hr as (done & rest & rs & Hck & _). by exists done, rest, rs. }
  apply bind_Ok in H as ([] & Hident & H). apply ensure_Ok in Hident. apply bind_Ok in H as ([] & Hplan & H).
  apply ensure_Ok, bool_decide_eq_true in Hplan. apply bind_Ok in H as ([] & _ & H).
  rewrite !andb_true_iff in Hident. destruct Hident as [[_ Hpolicy] _].
  assert (Hpol : as_policy_hash state = policy) by (by apply str_eqb_true in Hpolicy).
  apply bind_Ok in H as (work & Hwork & H). destruct Hsum as (Hs1 & Hs2 & Hs3).
  assert (Hw : as_plan (pw_state work) = planned /\ rs_run_id (pw_summary work) = run_id /\
    rs_run_shard (pw_summary work) = run_shard /\
    exists done rest rs, checkpoint db1 run_id run_shard (pw_state work) done rest rs /\
      (rs_sealed (pw_summary work) = true -> rest = [] /\ as_folded (pw_state work) = planned /\
         exists f, as_final_summary (pw_state work) = Some f /\ pw_summary work = seal f)).
  { destruct (rs_settled_chunk_count summary <? mn_chunk_count planned).
    - apply progress_branch_Ok in Hwork as (-> & W1 & W2 & W3). destruct Hstate as (done & rest & rs & Hck).
      split_and!; try congruence. exists done, rest, rs. split; [done|]. congruence.
    - apply verify_branch_Ok in Hwork; try done; [by rewrite Hplan in Hwork|].
      intros k c. rewrite (pf_chunks _ _ Hf1). apply Hpos. }
  destruct Hw as (W1 & W2 & W3 & done & rest & rs & Hck & Hseal).
  apply bind_Ok in H as (counted & Hcounted & H). apply apply_gate_counts_Ok in Hcounted as [card ->].
  apply bind_Ok in H as (db2 & Hdb2 & H). injection H as <- Ho. destruct (pw_progressed work).
  - apply store_with_Ok in Hdb2 as (_ & Hf2 & Hsums). simpl in Hsums. rewrite W2, W3 in Hsums.
    split_and!; [by etransitivity| |].
    + intros k r Hk. rewrite Hsums in Hk. apply (row_ok_mono db1);
        [by apply shard_chunks_frame, Hf2|by rewrite (pf_settlements _ _ Hf2)|].
      apply lookup_insert_Some in Hk as [[<- <-]|[_ Hk]]; [|by apply Hok1].
      split; [simpl; by rewrite W2, W3|]. simpl. exists done, rest, rs. split; [done|]. intros Hse.
      destruct (Hseal Hse) as (-> & Hfolded & f & Hfin & Hpw). rewrite W1. split_and!; try done.
      exists f, card. split; [done|]. by rewrite Hpw.
    + intros ->. simpl in Ho. rewrite Hsums, lookup_insert_eq. eexists. split; [done|]. simpl.
      destruct (rs_sealed (pw_summary work)); [done|]. by destruct (pw_ready_again work).
  - injection Hdb2 as <-. split_and!; [done|done|]. by intros ->.
Qed.

Lemma advance_page_Ok db now run_id run_shard epoch claimed db' o :
  (forall k c, db_chunks db !! k = Some c -> 0 <= ch_ordinal_start c) -> summaries_ok db ->
  advance_shard_summary_page db now run_id run_shard epoch claimed = Ok (db', o) ->
  page_frame db db' /\ summaries_ok db' /\
  (o = Sealed -> exists r, db_summaries db' !! (run_id, run_shard) = Some r /\ rs_sealed (su_summary r) = true).
Proof.
  intros Hpos Hok. unfold advance_shard_summary_page.
  assert (Hdef : forall d, Ok (db, Deferred) = Ok d -> page_frame db d.1 /\ summaries_ok d.1 /\
    (d.2 = Sealed -> exists r, db_summaries d.1 !! (run_id, run_shard) = Some r /\ rs_sealed (su_summary r) = true)).
  { intros d [= <-]. by split_and!. }
  destruct (negb claimed); [apply Hdef|]. intros H. apply bind_Ok in H as ([sn row] & Hctx & H).
  unfold load_context in Hctx. apply bind_Ok in Hctx as ([] & _ & Hctx). injection Hctx as Hsn Hrow.
  destruct (is_some_and _ row) eqn:Es; [by apply (Hdef (db', o))|].
  set (db1 := match sn with Some _ => db | None => _ end) in H.
  assert (H1 : page_frame db db1 /\ db_summaries db1 = db_summaries db).
  { unfold db1. destruct sn; [by split|]. apply ensure_snapshot_page. }
  destruct H1 as [Hf1 Hs1]. clearbody db1.
  destruct (db_snapshots db1 !! _) as [snapshot|]; [|by apply (Hdef (db', o))].
  apply advance_loaded_Ok in H as (Hf2 & Hok2 & Hseal).
  - split_and!; [by etransitivity|done|done].
  - intros k c. rewrite (pf_chunks _ _ Hf1). apply Hpos.
  - eapply (summaries_ok_frame db); [apply Hf1|apply Hf1|done|done].
  - by rewrite Hs1.
  - done.
Qed.

End folding.

(** ** A sample instance *)

Module SummarySample.

Definition card : ShardScorecard := mkShardScorecard 1 3 "policy" [].
Definition identity : ChunkIdentity := mkChunkIdentity 40 3 0 3.

#[global] Instance functions : SummaryFunctions := {|
  scorecard_from_value := fun _ => Ok card;
  scorecard_to_value := fun _ => Object [];
  manifest_from_value := fun _ => Ok (mkManifest 1 3 "x" (Some identity));
  gate_counts_from_value := fun _ => Ok [];
  plan_to_vec := fun t => Ok (t.1.2 ++ "x")%string;
  plan_blake3_hex := fun bytes => bytes;
  receipt_octets := fun _ => 400
|}.

End SummarySample.
