(* ===== verification/PageScheduler.v ===== *)
(** * Fair scheduling of aggregation pages

    [drain] of
    src/vigilo/src/db/workflows/run_shard_summary/aggregation_scheduling.rs: a
    loop that keeps a bounded number of page operations in flight.  Operations
    finish in any order and with any outcome, and the time predicate may turn
    false at any admission, so the loop is a step relation: it admits the front
    of the queue or observes one finished operation. *)

From Stdlib Require Import ZArith Lia.
From stdpp Require Import base strings relations option list.
From S2P Require Import Prelude Text Json RunTypes ShardTables ReceiptGates Settlement ShardSummary.

Open Scope Z_scope.

Section drain.
Context {T : Type}.

Record DrainState := mkDrainState {
  dr_waiting : list T;
  dr_pending : list T;
  dr_attempts : Z;
  dr_advanced : Z;
  dr_first_error : option string
}.

Definition drain_start (candidates : list T) : DrainState := mkDrainState candidates [] 0 0 None.

(** The condition of the inner [while], the time predicate apart. *)
Definition may_admit (config : AggregationConfig) (s : DrainState) : bool :=
  opt_is_none (dr_first_error s) && (dr_attempts s <? ac_max_pages config)
  && (zlen (dr_pending s) <? ac_parallelism config).

(** The bookkeeping for one finished operation. *)
Definition finish_page (candidate : T) (outcome : result PageOutcome) (rest : list T) (s : DrainState) : DrainState :=
  match outcome with
  | Ok Advanced => mkDrainState (dr_waiting s ++ [candidate]) rest (dr_attempts s) (dr_advanced s + 1) (dr_first_error s)
  | Ok Sealed | Ok CaughtUp => mkDrainState (dr_waiting s) rest (dr_attempts s) (dr_advanced s + 1) (dr_first_error s)
  | Ok Deferred => mkDrainState (dr_waiting s) rest (dr_attempts s) (dr_advanced s) (dr_first_error s)
  | Err e => mkDrainState (dr_waiting s) rest (dr_attempts s) (dr_advanced s)
               (match dr_first_error s with Some e0 => Some e0 | None => Some e end)
  end.

Inductive drain_step (config : AggregationConfig) (s : DrainState) : DrainState -> Prop :=
| ds_admit candidate waiting :
    may_admit config s = true -> dr_waiting s = candidate :: waiting ->
    drain_step config s
      (mkDrainState waiting (dr_pending s ++ [candidate]) (dr_attempts s + 1) (dr_advanced s) (dr_first_error s))
| ds_finish before candidate after outcome :
    dr_pending s = before ++ candidate :: after ->
    drain_step config s (finish_page candidate outcome (before ++ after) s).

(** The value [drain] returns when nothing is in flight. *)
Definition drain_result (s : DrainState) : result Z :=
  match dr_first_error s with Some e => Err e | None => Ok (dr_advanced s) end.

(** ** Invariant *)

Record drain_inv (config : AggregationConfig) (candidates : list T) (s : DrainState) : Prop := mkDrainInv {
  di_attempts : 0 <= dr_attempts s <= Z.max 0 (ac_max_pages config);
  di_pending : zlen (dr_pending s) <= Z.max 0 (ac_parallelism config);
  di_advanced : 0 <= dr_advanced s /\ dr_advanced s + zlen (dr_pending s) <= dr_attempts s;
  (** Each candidate is queued or in flight at most once. *)
  di_unique : NoDup candidates -> NoDup (dr_waiting s ++ dr_pending s);
  (** First visits come before revisits. *)
  di_fair : exists first revisits, dr_waiting s = first ++ revisits /\ first `suffix_of` candidates /\
    zlen first = Z.max 0 (zlen candidates - dr_attempts s)
}.

Lemma drain_start_inv config candidates : drain_inv config candidates (drain_start candidates).
Proof.
  constructor; simpl; unfold zlen; simpl; try lia.
  - by rewrite app_nil_r.
  - exists candidates, []. rewrite app_nil_r. split_and!; [done|done|lia].
Qed.

Lemma admit_unique (candidate : T) waiting pending :
  NoDup ((candidate :: waiting) ++ pending) -> NoDup (waiting ++ pending ++ [candidate]).
Proof.
  intros H. eapply NoDup_Permutation_proper; [|exact H]. rewrite app_assoc. symmetry. apply Permutation_cons_append.
Qed.

Lemma finish_unique (candidate : T) waiting before after :
  NoDup (waiting ++ before ++ candidate :: after) ->
  NoDup (waiting ++ before ++ after) /\ NoDup ((waiting ++ [candidate]) ++ before ++ after).
Proof.
  intros H. assert (Hp : (waiting ++ [candidate]) ++ before ++ after ≡ₚ waiting ++ before ++ candidate :: after).
  { rewrite <- app_assoc. apply Permutation_app_head. simpl. apply Permutation_middle. }
  rewrite <- Hp in H. split; [|exact H].
  rewrite <- app_assoc in H. apply NoDup_app in H as (H1 & H2 & H3). inversion H3 as [|?? _ H4]; subst.
  apply NoDup_app. split_and!; [done| |done]. set_solver.
Qed.

Lemma drain_step_inv config candidates s s' :
  drain_step config s s' -> drain_inv config candidates s -> drain_inv config candidates s'.
Proof.
  intros [candidate waiting Hm Hw|before candidate after outcome Hp] [I1 I2 I3 I4 I5].
  - unfold may_admit in Hm. rewrite !andb_true_iff, !Z.ltb_lt in Hm. destruct Hm as [[_ Hm] Hn].
    rewrite Hw in *. constructor; cbn [dr_waiting dr_pending dr_attempts dr_advanced]; unfold zlen in *;
      rewrite ?length_app; simpl; try lia.
    + intros Hc. apply admit_unique. by apply I4.
    + destruct I5 as (first & revisits & Heq & Hsuf & Hlen). destruct first as [|x first]; simpl in *.
      * destruct revisits as [|y revisits]; [done|]. injection Heq as -> ->.
        exists [], revisits. split_and!; [done|apply suffix_nil|simpl; lia].
      * injection Heq as -> ->. exists first, revisits. split_and!; [done| |lia].
        by eapply suffix_cons_l.
  - rewrite Hp in *. unfold zlen in *. rewrite length_app in *. simpl in *.
    assert (Hu : NoDup candidates -> NoDup (dr_waiting s ++ before ++ after) /\
      NoDup ((dr_waiting s ++ [candidate]) ++ before ++ after)) by (intros Hc; by apply finish_unique, I4).
    destruct I5 as (first & revisits & Heq & Hsuf & Hlen).
    destruct outcome as [[]|e]; constructor; cbn [finish_page dr_waiting dr_pending dr_attempts dr_advanced];
      unfold zlen; rewrite ?length_app; simpl; try lia; try (intros Hc; by apply Hu); try (by exists first, revisits).
    exists first, (revisits ++ [candidate]). rewrite Heq, app_assoc. by split_and!.
Qed.

(** The number of steps a run still has. *)
Definition drain_measure (config : AggregationConfig) (s : DrainState) : Z :=
  2 * (Z.max 0 (ac_max_pages config) - dr_attempts s) + zlen (dr_pending s).

Lemma drain_step_measure config s s' :
  drain_step config s s' -> drain_measure config s' + 1 = drain_measure config s.
Proof.
  intros [candidate waiting Hm Hw|before candidate after outcome Hp]; unfold drain_measure, zlen.
  - cbn [dr_pending dr_attempts]. rewrite length_app. simpl. lia.
  - rewrite Hp, length_app. destruct outcome as [[]|e]; cbn [finish_page dr_pending dr_attempts];
      rewrite length_app; simpl; lia.
Qed.

(** C40: A scheduling pass is bounded, fair and terminates, whatever order and
    outcome its page operations have: it makes at most the configured number of
    attempts with at most the configured number in flight, never runs a shard
    twice at once, attempts every candidate once before it revisits any, counts
    at most one productive page per attempt, and stops after at most twice its
    page budget of steps. *)
Theorem drain_bounded (config : AggregationConfig) (candidates : list T) (n : nat) (s : DrainState) :
  NoDup candidates -> nsteps (drain_step config) n (drain_start candidates) s ->
  drain_inv config candidates s /\ NoDup (dr_waiting s ++ dr_pending s) /\
  Z.of_nat n <= 2 * Z.max 0 (ac_max_pages config).
Proof.
  intros Hnd Hn.
  assert (H : drain_inv config candidates s /\
    drain_measure config s + Z.of_nat n = drain_measure config (drain_start candidates)).
  { revert Hn. generalize (drain_start_inv config candidates). generalize (drain_start candidates) as s0.
    clear Hnd. induction n as [|n IH]; intros s0 I0 Hn; inversion Hn as [|? ? s1 ? Hs Hn']; subst; [split; [done|lia]|].
    pose proof (drain_step_measure _ _ _ Hs). destruct (IH s1) as [I E]; [by eapply drain_step_inv|done|].
    split; [done|lia]. }
  destruct H as [I E]. split_and!; [done|by apply I|].
  destruct I. unfold drain_measure in E. simpl in E. unfold zlen in *. simpl in E. lia.
Qed.

End drain.

Arguments DrainState : clear implicits.

(** Two shards, one of which has a second page. *)
Definition sample_config : AggregationConfig := mkAggregationConfig 8 1000 1.
Definition sample_visited : DrainState Z := mkDrainState [1] [2] 2 1 None.

Lemma drain_bounded_witness :
  drain_inv sample_config [1; 2] sample_visited /\ Z.of_nat 3 <= 16.
Proof.
  destruct (drain_bounded sample_config [1; 2] 3 sample_visited) as (I & _ & Hn).
  - apply (bool_decide_unpack _). reflexivity.
  - eapply nsteps_l; [by apply (ds_admit _ _ 1 [2])|].
    eapply nsteps_l; [by apply (ds_finish _ _ [] 1 [] (Ok Advanced))|].
    eapply nsteps_l; [by apply (ds_admit _ _ 2 [1])|]. apply nsteps_O.
  - by split.
Defined.
