(* ===== verification/ShardMachine.v ===== *)
(** * The shard state machine

    [micro] is the abstract machine of an execution database: the changes one
    statement may make to the rows of chunks, executions, attempts, receipts
    and admissions.  [inv] is the invariant of the tables, proved once per
    micro-step; [keeps] is what no micro-step takes back.  [ShardRefinement]
    proves that the transactions of the sources are sequences of micro-steps
    and [ShardWorld] states the theorems over their interleavings. *)

From Stdlib Require Import ZArith Lia.
From stdpp Require Import base strings numbers gmap sorting relations option list.
From S2P Require Import Prelude Float64 BTree Text Json RunTypes ProfileValidation EvaluationPlan AgentClient.
From S2P Require Import ShardTables LocalAdmission ReceiptGates Settlement ChunkLease ExecutionAttempts ShardSummary.

Open Scope Z_scope.

(** ** Rows *)

(** How one statement may change a chunk row: leave the lease alone, claim a
    free or expired chunk under a fresh token, extend a live lease, or end the
    openness or the lease of an open chunk.  Terminal rows keep their status. *)
Inductive chunk_step (fresh : option Uuid) (now : Z) (c c' : ChunkRow) : Prop :=
| cs_keep :
    ch_status c' = ch_status c -> ch_lease_token c' = ch_lease_token c ->
    ch_leased_until c' = ch_leased_until c -> chunk_step fresh now c c'
| cs_claim token until :
    fresh = Some token -> chunk_terminal (ch_status c) = false ->
    ch_status c' = ChLeased -> ch_lease_token c' = Some token -> ch_leased_until c' = Some until ->
    chunk_step fresh now c c'
| cs_extend old until :
    ch_status c = ChLeased -> ch_leased_until c = Some old -> now <= old ->
    ch_status c' = ChLeased -> ch_lease_token c' = ch_lease_token c -> ch_leased_until c' = Some until ->
    chunk_step fresh now c c'
| cs_free :
    chunk_terminal (ch_status c) = false -> ch_status c' <> ChLeased ->
    ch_lease_token c' = None -> ch_leased_until c' = None -> chunk_step fresh now c c'.

(** The columns no statement changes. *)
Definition same_range (c c' : ChunkRow) : Prop :=
  ch_ordinal_start c' = ch_ordinal_start c /\ ch_ordinal_end c' = ch_ordinal_end c /\
  ch_recovery_count c <= ch_recovery_count c'.

Definition chunk_move (fresh : option Uuid) (now : Z) (_ : row_key) (c c' : ChunkRow) : Prop :=
  chunk_step fresh now c c' /\ same_range c c'.

(** Attempts keep their execution and number; a statement other than allocation
    and finalization only moves open attempts to stale or cancelled. *)
Definition attempt_move (_ : row_key) (a a' : AttemptRow) : Prop :=
  at_execution_id a' = at_execution_id a /\ at_attempt_no a' = at_attempt_no a /\
  (at_status a' = at_status a \/
   (attempt_open (at_status a) = true /\ (at_status a' = AtStale \/ at_status a' = AtCancelled))).

(** Executions keep their chunk, case and attempt authority; here the status
    may only change from open to terminal. *)
Definition execution_move (closed : row_key -> ExecutionRow -> Prop) (k : row_key) (e e' : ExecutionRow) : Prop :=
  ex_chunk_id e' = ex_chunk_id e /\ ex_case_id e' = ex_case_id e /\
  ex_current_attempt_no e' = ex_current_attempt_no e /\ ex_current_attempt_id e' = ex_current_attempt_id e /\
  ex_retry_count e <= ex_retry_count e' /\
  (0 <= ec_expected_evaluator_count (ex_case e) -> 0 <= ec_expected_evaluator_count (ex_case e')) /\
  (ex_status e' = ex_status e \/
   (execution_open (ex_status e) = true /\ execution_open (ex_status e') = false /\ closed k e)).

(** ** Micro-steps *)

(** The execution's chunk is terminal. *)
Definition chunk_closed (db : Database) (k : row_key) (e : ExecutionRow) : Prop :=
  exists c, db_chunks db !! (k.1, ex_chunk_id e) = Some c /\ chunk_terminal (ch_status c) = true.

(** A summary row as [insert_run_shard_summary_with] creates it. *)
Definition fresh_summary (k : shard_key) (row : SummaryRow) : Prop :=
  (rs_run_id (su_summary row), rs_run_shard (su_summary row)) = k /\
  su_aggregation_state row = None /\ rs_sealed (su_summary row) = false.

(** Tables that carry no authority: evidence, snapshots, the outbox and the
    runs; summaries may only gain fresh rows. *)
Definition same_authority (db db' : Database) : Prop :=
  db_chunks db' = db_chunks db /\ db_executions db' = db_executions db /\ db_attempts db' = db_attempts db /\
  db_settlements db' = db_settlements db /\ db_consumptions db' = db_consumptions db /\
  db_admissions db' = db_admissions db /\ db_aggregates db' = db_aggregates db /\
  db_summaries db ⊆ db_summaries db' /\
  (forall k row, db_summaries db' !! k = Some row -> db_summaries db !! k = Some row \/ fresh_summary k row).

Inductive micro {SF : SummaryFunctions} (budget : Uuid -> Z) (fresh : option Uuid) (now : Z) (db : Database) : Database -> Prop :=
| m_other db' : same_authority db db' -> micro budget fresh now db db'
| m_aggregate k e ag :
    db_executions db !! k = Some e ->
    (exists aid a, ex_current_attempt_id e = Some aid /\ db_attempts db !! (k.1, aid) = Some a /\
       at_execution_id a = k.2 /\ at_status a = AtRunning) \/
    (exists c, db_chunks db !! (k.1, ex_chunk_id e) = Some c /\ chunk_terminal (ch_status c) = false) ->
    micro budget fresh now db (with_aggregates db (<[k := ag]> (db_aggregates db)))
| m_admission db' : admission_step db db' -> micro budget fresh now db db'
| m_chunks chunks :
    map_Forall2 (chunk_move fresh now) (db_chunks db) chunks ->
    micro budget fresh now db (with_chunks db chunks)
| m_attempts attempts :
    map_Forall2 attempt_move (db_attempts db) attempts ->
    micro budget fresh now db (with_attempts db attempts)
| m_executions executions :
    map_Forall2 (execution_move (chunk_closed db)) (db_executions db) executions ->
    micro budget fresh now db (with_executions db executions)
| m_new_execution k e c :
    db_executions db !! k = None -> db_chunks db !! (k.1, ex_chunk_id e) = Some c ->
    chunk_terminal (ch_status c) = false ->
    (forall k' e', db_executions db !! k' = Some e' -> k'.1 = k.1 -> ex_case_id e' <> ex_case_id e) ->
    ex_status e = ExPending -> ex_current_attempt_no e = 0 -> ex_current_attempt_id e = None ->
    execution_ok e = true ->
    micro budget fresh now db (with_executions db (<[k := e]> (db_executions db)))
| m_start k e lease attempt_id db' :
    db_executions db !! k = Some e -> execution_open (ex_status e) = true ->
    ex_current_attempt_no e < budget k.1.1 ->
    start_attempt db now lease attempt_id k e = Ok db' -> micro budget fresh now db db'
| m_finish k e e' aid a a' :
    db_executions db !! k = Some e -> db_attempts db !! (k.1, aid) = Some a ->
    ex_current_attempt_id e = Some aid -> at_execution_id a = k.2 ->
    (exists c, db_chunks db !! (k.1, ex_chunk_id e) = Some c /\ chunk_terminal (ch_status c) = false) ->
    at_status a = AtRunning \/ at_status a = AtStale ->
    at_execution_id a' = at_execution_id a -> at_attempt_no a' = at_attempt_no a ->
    attempt_settled (at_status a') = true ->
    ex_chunk_id e' = ex_chunk_id e -> ex_case_id e' = ex_case_id e -> ex_case e' = ex_case e ->
    ex_current_attempt_no e' = ex_current_attempt_no e -> ex_current_attempt_id e' = Some aid ->
    ex_retry_count e <= ex_retry_count e' ->
    micro budget fresh now db
      (with_executions (with_attempts db (<[(k.1, aid) := a']> (db_attempts db))) (<[k := e']> (db_executions db)))
| m_page db' :
    page_frame db db' -> (summaries_ok db -> summaries_ok db') -> micro budget fresh now db db'
| m_settle run_id run_shard chunk_id row c :
    db_chunks db !! (run_id, run_shard, chunk_id) = Some c ->
    ch_status c = st_disposition row -> chunk_terminal (ch_status c) = true ->
    ch_ordinal_start c = st_ordinal_start row -> ch_ordinal_end c = st_ordinal_end row ->
    db_settlements db !! (run_id, run_shard, chunk_id) = None ->
    receipt_balanced run_id run_shard (st_ordinal_end row - st_ordinal_start row) (st_disposition row) (st_summary row) ->
    receipt_counts (outcomes (settled_db db now run_id run_shard chunk_id row) (run_id, run_shard, chunk_id))
      (st_summary row) ->
    micro budget fresh now db (settled_db db now run_id run_shard chunk_id row).

Notation micros budget fresh now := (rtc (micro budget fresh now)).

(** ** The invariant *)

(** Statuses from which an attempt may still be finalized. *)
Definition attempt_live (s : AttemptStatus) : bool :=
  match s with AtPending | AtRunning | AtStale => true | _ => false end.

Record inv (budget : Uuid -> Z) (db : Database) : Prop := mkInv {
  (** Chunk rows satisfy the declared constraints. *)
  inv_chunks : forall k c, db_chunks db !! k = Some c -> chunk_ok c = true;
  (** A receipt belongs to a terminal chunk of the same range and status. *)
  inv_settlements : forall k row, db_settlements db !! k = Some row ->
    exists c, db_chunks db !! k = Some c /\ ch_status c = st_disposition row /\
      chunk_terminal (ch_status c) = true /\
      ch_ordinal_start c = st_ordinal_start row /\ ch_ordinal_end c = st_ordinal_end row;
  (** Receipts and consumption rows come in pairs. *)
  inv_consumptions : forall k, is_Some (db_settlements db !! k) <-> is_Some (db_consumptions db !! k);
  (** Executions satisfy their constraints, have a chunk and stay in budget. *)
  inv_execution : forall k e, db_executions db !! k = Some e ->
    execution_ok e = true /\ is_Some (db_chunks db !! (k.1, ex_chunk_id e)) /\
    ex_current_attempt_no e <= Z.max 0 (budget k.1.1);
  (** One execution per case. *)
  inv_case : forall k k' e e', db_executions db !! k = Some e -> db_executions db !! k' = Some e' ->
    k.1 = k'.1 -> ex_case_id e = ex_case_id e' -> k = k';
  (** An attempt belongs to an execution, is numbered up to its current number,
      is created running, and is the current one while it runs. *)
  inv_attempt : forall ka a, db_attempts db !! ka = Some a ->
    exists e, db_executions db !! (ka.1, at_execution_id a) = Some e /\
      1 <= at_attempt_no a <= ex_current_attempt_no e /\ at_status a <> AtPending /\
      (at_status a = AtRunning -> ex_current_attempt_id e = Some ka.2);
  (** The current attempt exists and carries the current number. *)
  inv_current : forall k e aid, db_executions db !! k = Some e -> ex_current_attempt_id e = Some aid ->
    exists a, db_attempts db !! (k.1, aid) = Some a /\ at_execution_id a = k.2 /\
      at_attempt_no a = ex_current_attempt_no e;
  (** No two attempts of an execution share a number. *)
  inv_numbers : forall ka kb a b, db_attempts db !! ka = Some a -> db_attempts db !! kb = Some b ->
    ka.1 = kb.1 -> at_execution_id a = at_execution_id b -> at_attempt_no a = at_attempt_no b -> ka = kb;
  (** A terminal execution has a finished current attempt or a terminal chunk. *)
  inv_terminal : forall k e aid a, db_executions db !! k = Some e -> execution_open (ex_status e) = false ->
    ex_current_attempt_id e = Some aid -> db_attempts db !! (k.1, aid) = Some a ->
    attempt_live (at_status a) = false \/ chunk_closed db k e
}.

Lemma chunk_step_terminal fresh now c c' :
  chunk_step fresh now c c' -> chunk_terminal (ch_status c) = true -> ch_status c' = ch_status c.
Proof. intros [] Ht; congruence. Qed.

Lemma chunk_step_ok fresh now k c c' : chunk_move fresh now k c c' -> chunk_ok c = true -> chunk_ok c' = true.
Proof.
  intros [Hs (H1 & H2 & H3)]. unfold chunk_ok. rewrite H1, H2, !andb_true_iff, !Z.leb_le, Z.ltb_lt.
  intros [[[Hl Ha] Hb] Hc]. split_and!; try lia.
  destruct Hs as [-> -> ->|tok until _ _ -> -> ->|old until Hst Hu _ -> -> ->|_ Hst -> ->]; try done.
  - rewrite Hst, Hu in Hl. by destruct (ch_lease_token c).
  - by destruct (ch_status c').
Qed.

Lemma chunk_closed_mono db db' k e e' :
  (forall k c, db_chunks db !! k = Some c -> chunk_terminal (ch_status c) = true ->
     exists c', db_chunks db' !! k = Some c' /\ chunk_terminal (ch_status c') = true) ->
  ex_chunk_id e' = ex_chunk_id e -> chunk_closed db k e -> chunk_closed db' k e'.
Proof. intros Hc Hid (c & Hk & Ht). unfold chunk_closed. rewrite Hid. eauto. Qed.

Section preservation.
Context {SF : SummaryFunctions}.
Variable budget : Uuid -> Z.

Lemma inv_same_authority db db' : same_authority db db' -> inv budget db -> inv budget db'.
Proof.
  intros (Hc & He & Ha & Hs & Hcs & _ & _) [].
  constructor; unfold chunk_closed in *; rewrite ?Hc, ?He, ?Ha, ?Hs, ?Hcs; done.
Qed.

Lemma inv_chunks_move fresh now db chunks :
  map_Forall2 (chunk_move fresh now) (db_chunks db) chunks -> inv budget db -> inv budget (with_chunks db chunks).
Proof.
  intros HR I.
  assert (Hclosed : forall k c, db_chunks db !! k = Some c -> chunk_terminal (ch_status c) = true ->
     exists c', chunks !! k = Some c' /\ chunk_terminal (ch_status c') = true).
  { intros k c Hk Ht. destruct (related_fwd _ _ _ _ _ HR Hk) as (c' & Hk' & [Hs _]).
    exists c'. by rewrite (chunk_step_terminal _ _ _ _ Hs Ht). }
  destruct I. constructor; cbn [db_chunks db_executions db_attempts db_settlements db_consumptions with_chunks];
    try done.
  - intros k c' Hk. destruct (related_bwd _ _ _ _ _ HR Hk) as (c & Hk0 & Hm). eapply chunk_step_ok; eauto.
  - intros k row Hrow. destruct (inv_settlements0 k row Hrow) as (c & Hk & Hst & Ht & Hr1 & Hr2).
    destruct (related_fwd _ _ _ _ _ HR Hk) as (c' & Hk' & [Hs (H1 & H2 & _)]).
    exists c'. rewrite (chunk_step_terminal _ _ _ _ Hs Ht), H1, H2. by split_and!.
  - intros k e He. destruct (inv_execution0 k e He) as (H1 & [c Hk] & H3).
    destruct (related_fwd _ _ _ _ _ HR Hk) as (c' & Hk' & _). split_and!; eauto.
  - intros k e aid a He Ho Hc Ha. destruct (inv_terminal0 k e aid a He Ho Hc Ha) as [|H]; [by left|right].
    eapply chunk_closed_mono; [|reflexivity|exact H]. done.
Qed.

Lemma inv_attempts_move db attempts :
  map_Forall2 attempt_move (db_attempts db) attempts -> inv budget db -> inv budget (with_attempts db attempts).
Proof.
  intros HR [].
  constructor; cbn [db_chunks db_executions db_attempts db_settlements db_consumptions with_attempts];
    try done.
  - intros ka a' Ha. destruct (related_bwd _ _ _ _ _ HR Ha) as (a & Ha0 & (H1 & H2 & H3)).
    destruct (inv_attempt0 ka a Ha0) as (e & He & Hn & Hp & Hc). exists e. rewrite H1, H2.
    split_and!; try done; try lia; destruct H3 as [->|[_ [->| ->]]]; done.
  - intros k e aid He Hc. destruct (inv_current0 k e aid He Hc) as (a & Ha & H1 & H2).
    destruct (related_fwd _ _ _ _ _ HR Ha) as (a' & Ha' & (H3 & H4 & _)). exists a'. by rewrite H3, H4.
  - intros ka kb a' b' Ha Hb Hk He Hn.
    destruct (related_bwd _ _ _ _ _ HR Ha) as (a & Ha0 & (Ha1 & Ha2 & _)).
    destruct (related_bwd _ _ _ _ _ HR Hb) as (b & Hb0 & (Hb1 & Hb2 & _)).
    eapply (inv_numbers0 ka kb a b); congruence.
  - intros k e aid a' He Ho Hc Ha. destruct (related_bwd _ _ _ _ _ HR Ha) as (a & Ha0 & (_ & _ & Hs)).
    destruct (inv_terminal0 k e aid a He Ho Hc Ha0) as [Hl|Hl]; [|by right].
    destruct Hs as [->|[Hop _]]; [by left|]. by destruct (at_status a).
Qed.

Lemma inv_executions_move db executions :
  map_Forall2 (execution_move (chunk_closed db)) (db_executions db) executions ->
  inv budget db -> inv budget (with_executions db executions).
Proof.
  intros HR [].
  constructor; cbn [db_chunks db_executions db_attempts db_settlements db_consumptions with_executions];
    try done.
  - intros k e' He. destruct (related_bwd _ _ _ _ _ HR He) as (e & He0 & (H1 & H2 & H3 & H4 & H5 & H6 & _)).
    destruct (inv_execution0 k e He0) as (Hok & Hch & Hb). rewrite H1, H3. split_and!; try done.
    unfold execution_ok in *. rewrite H3. lia.
  - intros k k' e e' He He' Hk Hc.
    destruct (related_bwd _ _ _ _ _ HR He) as (x & Hx & (_ & H2 & _)).
    destruct (related_bwd _ _ _ _ _ HR He') as (y & Hy & (_ & H3 & _)).
    eapply (inv_case0 k k' x y); congruence.
  - intros ka a Ha. destruct (inv_attempt0 ka a Ha) as (e & He & Hn & Hp & Hc).
    destruct (related_fwd _ _ _ _ _ HR He) as (e' & He' & (_ & _ & H3 & H4 & _)).
    exists e'. rewrite H3, H4. split_and!; done || lia.
  - intros k e' aid He Hc. destruct (related_bwd _ _ _ _ _ HR He) as (e & He0 & (_ & _ & H3 & H4 & _)).
    rewrite H3. apply inv_current0; [done|congruence].
  - intros k e' aid a He Ho Hc Ha.
    destruct (related_bwd _ _ _ _ _ HR He) as (e & He0 & (H1 & _ & _ & H4 & _ & _ & Hs)).
    destruct Hs as [Hs|(_ & _ & Hcl)]; [|right; eapply chunk_closed_mono; [|exact H1|exact Hcl]; eauto].
    destruct (inv_terminal0 k e aid a He0) as [|Hcl]; try congruence; [by left|right].
    eapply chunk_closed_mono; [|exact H1|exact Hcl]; eauto.
Qed.

Lemma inv_new_execution db k e c :
  db_executions db !! k = None -> db_chunks db !! (k.1, ex_chunk_id e) = Some c ->
  (forall k' e', db_executions db !! k' = Some e' -> k'.1 = k.1 -> ex_case_id e' <> ex_case_id e) ->
  ex_status e = ExPending -> ex_current_attempt_no e = 0 -> ex_current_attempt_id e = None -> execution_ok e = true ->
  inv budget db -> inv budget (with_executions db (<[k := e]> (db_executions db))).
Proof.
  intros Hnew Hch Hcase Hst Hno Hcur Hok [].
  constructor; cbn [db_chunks db_executions db_attempts db_settlements db_consumptions with_executions]; try done.
  - intros k' e' [[<- <-]|[_ He]]%lookup_insert_Some; [|by apply inv_execution0].
    split_and!; [done|eauto|lia].
  - intros k1 k2 e1 e2 [[<- <-]|[_ H1]]%lookup_insert_Some [[<- <-]|[_ H2]]%lookup_insert_Some Hk Hc.
    + done.
    + exfalso. by eapply (Hcase k2 e2).
    + exfalso. by eapply (Hcase k1 e1).
    + by eapply inv_case0.
  - intros ka a Ha. destruct (inv_attempt0 ka a Ha) as (e' & He' & H). exists e'.
    rewrite lookup_insert_ne by congruence. done.
  - intros k' e' aid [[<- <-]|[_ He]]%lookup_insert_Some Hc; [congruence|by apply inv_current0].
  - intros k' e' aid a [[<- <-]|[_ He]]%lookup_insert_Some Ho Hc Ha; [congruence|].
    destruct (inv_terminal0 k' e' aid a He Ho Hc Ha) as [|H]; auto.
Qed.

(** The attempts of an execution after a new one was started. *)
Lemma start_attempt_Ok db now lease aid k e db' :
  start_attempt db now lease aid k e = Ok db' ->
  db_attempts db !! (k.1, aid) = None /\
  (forall ka a, db_attempts db !! ka = Some a -> attempt_of k ka a = true ->
     at_attempt_no a <> ex_current_attempt_no e + 1) /\
  db' = with_executions
    (with_attempts db (<[(k.1, aid) := new_attempt now k.2 (ex_current_attempt_no e + 1) lease]>
       (update_where (fun ka a => attempt_of k ka a && bool_decide (at_status a = AtRunning))
          (fun _ => supersede_attempt now) (db_attempts db))))
    (<[k := bump_execution now aid e]> (db_executions db)).
Proof.
  unfold start_attempt. intros H. apply bind_Ok in H as ([] & Hens & H). apply ensure_Ok in Hens.
  apply andb_true_iff in Hens as [Hnone Hex]. injection H as <-. split_and!; [by destruct (_ !! _)| |done].
  intros ka a Ha Hof Hno. apply negb_true_iff in Hex. apply Bool.not_true_iff_false in Hex. apply Hex.
  apply exists_where_spec. exists ka, a. split; [done|]. rewrite Hof, Hno. by rewrite Z.eqb_refl.
Qed.

Lemma superseded_move now k db :
  map_Forall2 attempt_move (db_attempts db)
    (update_where (fun ka a => attempt_of k ka a && bool_decide (at_status a = AtRunning))
       (fun _ => supersede_attempt now) (db_attempts db)).
Proof.
  apply related_update_where. intros ka a _. destruct (attempt_of k ka a); simpl; [|by unfold attempt_move; auto].
  case_bool_decide as Hr; unfold attempt_move; simpl; [rewrite Hr|]; naive_solver.
Qed.

Lemma inv_start db now lease aid k e db' :
  db_executions db !! k = Some e -> execution_open (ex_status e) = true ->
  ex_current_attempt_no e < budget k.1.1 ->
  start_attempt db now lease aid k e = Ok db' -> inv budget db -> inv budget db'.
Proof.
  intros He Hopen Hbud (Hnone & Hnos & ->)%start_attempt_Ok I.
  set (sup := update_where _ _ _).
  assert (HR : map_Forall2 attempt_move (db_attempts db) sup) by apply superseded_move.
  pose proof (inv_attempts_move db sup HR I) as J.
  assert (Hrun : forall ka a, sup !! ka = Some a -> attempt_of k ka a = true -> at_status a <> AtRunning).
  { intros ka a Ha Hof Hst. apply update_where_Some in Ha as (a0 & Ha0 & ->).
    destruct (attempt_of k ka a0) eqn:Eo; simpl in Hof, Hst; [|by rewrite Eo in Hof].
    case_bool_decide; simpl in *; congruence. }
  assert (Hsnone : sup !! (k.1, aid) = None) by (unfold sup; by rewrite lookup_update_where, Hnone).
  destruct J. cbn [db_chunks db_executions db_attempts db_settlements db_consumptions with_attempts] in *.
  constructor; cbn [db_chunks db_executions db_attempts db_settlements db_consumptions with_attempts with_executions];
    try done.
  - intros k' e' [[<- <-]|[_ H]]%lookup_insert_Some; [|by apply inv_execution0].
    destruct (inv_execution0 k e He) as (Hok & Hch & Hb). split_and!; [|done|simpl; lia].
    unfold execution_ok in *. simpl. lia.
  - intros k1 k2 e1 e2 [[<- <-]|[_ H1]]%lookup_insert_Some [[<- <-]|[_ H2]]%lookup_insert_Some Hk Hc;
      [done| | |by eapply inv_case0].
    + eapply (inv_case0 k k2 e e2); eauto.
    + eapply (inv_case0 k1 k e1 e); eauto.
  - intros ka a [[<- <-]|[Hne Ha]]%lookup_insert_Some.
    + exists (bump_execution now aid e). simpl. destruct k as [k1 k2]. simpl. rewrite lookup_insert_eq.
      destruct (inv_execution0 (k1, k2) e He) as (Hok & _). unfold execution_ok in Hok.
      split_and!; try done; simpl; lia.
    + destruct (inv_attempt0 ka a Ha) as (e' & He' & Hn & Hp & Hc).
      destruct (decide (k = (ka.1, at_execution_id a))) as [->|Hk].
      * exists (bump_execution now aid e). rewrite lookup_insert_eq. rewrite He in He'. simplify_eq.
        split_and!; simpl; try lia; try done. intros Ho. exfalso. eapply (Hrun ka a); [done| |done].
        unfold attempt_of. simpl. by rewrite bool_decide_true, Z.eqb_refl by done.
      * exists e'. rewrite lookup_insert_ne by done. split_and!; done || lia.
  - intros k' e' aid' [[<- <-]|[Hne H]]%lookup_insert_Some Hc.
    + simpl in Hc. simplify_eq. eexists. rewrite lookup_insert_eq. by split_and!.
    + destruct (inv_current0 k' e' aid' H Hc) as (a & Ha & H1 & H2). exists a.
      rewrite lookup_insert_ne by congruence. done.
  - intros ka kb a b Ha Hb Hk Hid Hno.
    assert (Hnew : forall kb b, sup !! kb = Some b -> k.1 = kb.1 -> k.2 = at_execution_id b ->
      ex_current_attempt_no e + 1 = at_attempt_no b -> False).
    { clear -Hnos. intros kb b Hb Hk Hid Hno. apply update_where_Some in Hb as (b0 & Hb0 & ->).
      eapply (Hnos kb b0 Hb0).
      - unfold attempt_of. destruct (_ && _); simpl in *; by rewrite bool_decide_true, Hid, Z.eqb_refl by done.
      - destruct (_ && _); simpl in *; lia. }
    apply lookup_insert_Some in Ha as [[<- <-]|[_ Ha]]; apply lookup_insert_Some in Hb as [[<- <-]|[_ Hb]].
    + done.
    + exfalso. by eapply (Hnew kb b).
    + exfalso. by eapply (Hnew ka a).
    + by eapply inv_numbers0.
  - intros k' e' aid' a [[<- <-]|[Hne H]]%lookup_insert_Some Ho Hc Ha; [done|].
    destruct (inv_current0 k' e' aid' H Hc) as (a0 & Ha0 & _).
    rewrite lookup_insert_ne in Ha by congruence.
    destruct (inv_terminal0 k' e' aid' a H Ho Hc Ha) as [|Hcl]; auto.
Qed.

Lemma inv_finish db k e e' aid a a' :
  db_executions db !! k = Some e -> db_attempts db !! (k.1, aid) = Some a ->
  ex_current_attempt_id e = Some aid -> at_execution_id a = k.2 ->
  at_execution_id a' = at_execution_id a -> at_attempt_no a' = at_attempt_no a ->
  attempt_settled (at_status a') = true ->
  ex_chunk_id e' = ex_chunk_id e -> ex_case_id e' = ex_case_id e -> ex_case e' = ex_case e ->
  ex_current_attempt_no e' = ex_current_attempt_no e -> ex_current_attempt_id e' = Some aid ->
  ex_retry_count e <= ex_retry_count e' ->
  inv budget db ->
  inv budget (with_executions (with_attempts db (<[(k.1, aid) := a']> (db_attempts db)))
                (<[k := e']> (db_executions db))).
Proof.
  intros He Ha Hcur Hid Hid' Hno' Hset Hch Hcs Hcase Hno Hcur' Hrc [].
  constructor; cbn [db_chunks db_executions db_attempts db_settlements db_consumptions with_attempts with_executions];
    try done.
  - intros k' x [[<- <-]|[_ H]]%lookup_insert_Some; [|by apply inv_execution0].
    destruct (inv_execution0 k e He) as (Hok & Hc & Hb). unfold execution_ok in *. rewrite Hch, Hno, Hcase.
    split_and!; [lia|done|done].
  - intros k1 k2 e1 e2 [[<- <-]|[_ H1]]%lookup_insert_Some [[<- <-]|[_ H2]]%lookup_insert_Some Hk Hc;
      [done| | |by eapply inv_case0].
    + eapply (inv_case0 k k2 e e2); congruence.
    + eapply (inv_case0 k1 k e1 e); congruence.
  - intros ka x [[<- <-]|[Hne H]]%lookup_insert_Some.
    + destruct (inv_attempt0 _ _ Ha) as (y & Hy & Hn & Hp & Hc). simpl in Hy.
      assert (Hk : (k.1, at_execution_id a) = k) by (rewrite Hid; by destruct k).
      rewrite Hk in Hy. assert (y = e) as -> by congruence.
      exists e'. cbn [fst]. rewrite Hid', Hk, lookup_insert_eq, Hno', Hno.
      split_and!; try done; try lia; by destruct (at_status a').
    + destruct (inv_attempt0 ka x H) as (y & Hy & Hn & Hp & Hc).
      destruct (decide (k = (ka.1, at_execution_id x))) as [->|Hk].
      * rewrite He in Hy. simplify_eq. exists e'. rewrite lookup_insert_eq, Hno.
        split_and!; try done; try lia. intros Hr. specialize (Hc Hr). congruence.
      * exists y. rewrite lookup_insert_ne by done. split_and!; done || lia.
  - intros k' x aid' [[<- <-]|[Hne H]]%lookup_insert_Some Hc.
    + assert (aid' = aid) as -> by congruence. exists a'. rewrite lookup_insert_eq.
      destruct (inv_current0 k e aid He Hcur) as (b & Hb & Hb1 & Hb2). simplify_eq.
      split_and!; congruence.
    + destruct (inv_current0 k' x aid' H Hc) as (b & Hb & Hb1 & Hb2).
      destruct (decide ((k.1, aid) = (k'.1, aid'))) as [Heq|Hneq].
      * exists a'. rewrite Heq, lookup_insert_eq. rewrite <- Heq in Hb. simplify_eq.
        split_and!; congruence.
      * exists b. by rewrite lookup_insert_ne.
  - intros ka kb x y Hx Hy Hk Hxy Hn.
    apply lookup_insert_Some in Hx as [[<- <-]|[_ Hx]]; apply lookup_insert_Some in Hy as [[<- <-]|[_ Hy]].
    + done.
    + eapply (inv_numbers0 (k.1, aid) kb a y); congruence.
    + eapply (inv_numbers0 ka (k.1, aid) x a); congruence.
    + by eapply inv_numbers0.
  - intros k' x aid' b Hx Ho Hc Hb. apply lookup_insert_Some in Hb as [[Heq <-]|[Hneq Hb]].
    + left. by destruct (at_status a').
    + apply lookup_insert_Some in Hx as [[<- <-]|[_ Hx]]; [congruence|].
      destruct (inv_terminal0 k' x aid' b Hx Ho Hc Hb) as [|Hcl]; auto.
Qed.

Lemma retire_attempts_move db now run_id run_shard chunk_id :
  map_Forall2 attempt_move (db_attempts db)
    (update_where (fun k a => attempt_of_chunk db run_id run_shard chunk_id k a && attempt_open (at_status a))
       (fun _ => retire_attempt now) (db_attempts db)).
Proof.
  apply related_update_where. intros ka a _. unfold attempt_move.
  destruct (_ && attempt_open (at_status a)) eqn:E; [|by auto]. apply andb_true_iff in E as [_ E].
  simpl. naive_solver.
Qed.

Lemma retire_executions_move db now run_id run_shard chunk_id disposition c :
  db_chunks db !! (run_id, run_shard, chunk_id) = Some c -> chunk_terminal (ch_status c) = true ->
  map_Forall2 (execution_move (chunk_closed db)) (db_executions db)
    (update_where (fun k e => of_chunk run_id run_shard chunk_id k e && execution_open (ex_status e))
       (fun _ => retire_execution now disposition) (db_executions db)).
Proof.
  intros Hc Ht. apply related_update_where. intros k e _. unfold execution_move.
  destruct (of_chunk run_id run_shard chunk_id k e && execution_open (ex_status e)) eqn:E;
    [|split_and!; try done; by left].
  apply andb_true_iff in E as [Hof Ho]. simpl. split_and!; try done. right.
  split_and!; [done|by case_bool_decide|]. exists c. split; [|done].
  unfold of_chunk in Hof. rewrite !andb_true_iff, !Z.eqb_eq in Hof. destruct k as [[r s] i]. simpl in *.
  destruct Hof as [[-> ->] ->]. done.
Qed.

Lemma inv_settle db now run_id run_shard chunk_id row c :
  db_chunks db !! (run_id, run_shard, chunk_id) = Some c ->
  ch_status c = st_disposition row -> chunk_terminal (ch_status c) = true ->
  ch_ordinal_start c = st_ordinal_start row -> ch_ordinal_end c = st_ordinal_end row ->
  inv budget db -> inv budget (settled_db db now run_id run_shard chunk_id row).
Proof.
  intros Hc Hst Ht Hr1 Hr2 I.
  apply (inv_attempts_move db _ (retire_attempts_move db now run_id run_shard chunk_id)) in I.
  eapply inv_executions_move in I;
    [|exact (retire_executions_move (with_attempts db _) now run_id run_shard chunk_id (st_disposition row) c Hc Ht)].
  destruct I. constructor; unfold settled_db, retire_writers in *;
    cbn [db_chunks db_executions db_attempts db_settlements db_consumptions with_attempts with_executions with_settlement] in *;
    try done.
  - intros k r [[<- <-]|[_ H]]%lookup_insert_Some; [by exists c|by apply inv_settlements0].
  - intros k. destruct (decide (k = (run_id, run_shard, chunk_id))) as [->|Hne].
    + rewrite !lookup_insert_eq. split; eauto.
    + rewrite !lookup_insert_ne by done. apply inv_consumptions0.
Qed.

Lemma inv_page db db' : page_frame db db' -> inv budget db -> inv budget db'.
Proof.
  intros [Hc He Ha _ Hs _ Hcs _] []. constructor; unfold chunk_closed in *; rewrite ?Hc, ?He, ?Ha, ?Hs; try done.
  intros k. by rewrite Hcs.
Qed.

(** Every micro-step preserves the invariant. *)
Lemma inv_micro fresh now db db' : micro budget fresh now db db' -> inv budget db -> inv budget db'.
Proof.
  intros [] I.
  - by eapply inv_same_authority.
  - destruct I. by constructor.
  - destruct H as [->|(key & row & -> & _)]; [done|]. destruct I. by constructor.
  - by eapply inv_chunks_move.
  - by apply inv_attempts_move.
  - by apply inv_executions_move.
  - by eapply inv_new_execution.
  - by eapply inv_start.
  - by eapply inv_finish.
  - by eapply inv_page.
  - by eapply inv_settle.
Qed.

Lemma inv_micros fresh now db db' : micros budget fresh now db db' -> inv budget db -> inv budget db'.
Proof. induction 1; eauto using inv_micro. Qed.

End preservation.

(** ** What is never taken back *)

Record keeps (db db' : Database) : Prop := mkKeeps {
  (** Chunks stay, with their range; terminal ones keep their status. *)
  kp_chunks : forall k c, db_chunks db !! k = Some c ->
    exists c', db_chunks db' !! k = Some c' /\ same_range c c' /\
      (chunk_terminal (ch_status c) = true -> ch_status c' = ch_status c);
  (** Receipts are immutable. *)
  kp_settlements : db_settlements db ⊆ db_settlements db';
  (** Executions stay with their chunk and case, their attempt number only
      grows, and terminal ones keep their status. *)
  kp_executions : forall k e, db_executions db !! k = Some e ->
    exists e', db_executions db' !! k = Some e' /\
      ex_chunk_id e' = ex_chunk_id e /\ ex_case_id e' = ex_case_id e /\
      ex_current_attempt_no e <= ex_current_attempt_no e' /\
      (execution_open (ex_status e) = false -> ex_status e' = ex_status e);
  (** Write authority only advances. *)
  kp_authority : authority_le (db_admissions db) (db_admissions db');
  (** Sealed summaries are immutable. *)
  kp_sealed : forall k row, db_summaries db !! k = Some row -> rs_sealed (su_summary row) = true ->
    db_summaries db' !! k = Some row
}.

#[global] Instance keeps_preorder : PreOrder keeps.
Proof.
  split.
  - intros db. constructor; [| done | | reflexivity|done].
    + intros k c H. exists c. unfold same_range. split_and!; done || lia.
    + intros k e H. exists e. split_and!; done || lia.
  - intros d1 d2 d3 [A1 A2 A3 A4 A5] [B1 B2 B3 B4 B5]. constructor; [| by etransitivity | | by etransitivity|auto].
    + intros k c H. destruct (A1 k c H) as (c' & H' & (R1 & R2 & R3) & S).
      destruct (B1 k c' H') as (c'' & H'' & (R4 & R5 & R6) & S'). exists c''. unfold same_range.
      split_and!; try congruence; try lia. intros Ht. rewrite S' by (by rewrite S). by apply S.
    + intros k e H. destruct (A3 k e H) as (e' & H' & R1 & R2 & R3 & S).
      destruct (B3 k e' H') as (e'' & H'' & R4 & R5 & R6 & S'). exists e''.
      split_and!; try congruence; try lia. intros Ht. rewrite S' by (by rewrite S). by apply S.
Qed.

(** A step that changes neither chunks, receipts, admissions nor a summary row. *)
Lemma keeps_executions db db' :
  db_chunks db' = db_chunks db -> db_settlements db' = db_settlements db -> db_admissions db' = db_admissions db ->
  (forall k row, db_summaries db !! k = Some row -> rs_sealed (su_summary row) = true ->
     db_summaries db' !! k = Some row) ->
  (forall k e, db_executions db !! k = Some e -> exists e', db_executions db' !! k = Some e' /\
      ex_chunk_id e' = ex_chunk_id e /\ ex_case_id e' = ex_case_id e /\
      ex_current_attempt_no e <= ex_current_attempt_no e' /\
      (execution_open (ex_status e) = false -> ex_status e' = ex_status e)) ->
  keeps db db'.
Proof.
  intros H1 H2 H3 H4 H5. destruct (PreOrder_Reflexive (R := keeps) db).
  constructor; rewrite ?H1, ?H2, ?H3; done.
Qed.

Lemma execution_move_keeps closed k e e' :
  execution_move closed k e e' ->
  ex_chunk_id e' = ex_chunk_id e /\ ex_case_id e' = ex_case_id e /\
  ex_current_attempt_no e <= ex_current_attempt_no e' /\
  (execution_open (ex_status e) = false -> ex_status e' = ex_status e).
Proof.
  intros (H1 & H2 & H3 & _ & _ & _ & Hs). split_and!; try done; [lia|].
  intros Ho. destruct Hs as [->|[Hc _]]; congruence.
Qed.

Section keeping.
Context {SF : SummaryFunctions}.
Variable budget : Uuid -> Z.

Lemma keeps_micro fresh now db db' : micro budget fresh now db db' -> inv budget db -> keeps db db'.
Proof.
  intros [db1 Hs|k0 e0 ag _ _|db1 Hs|chunks HR|attempts HR|executions HR|k e c Hn|k e lease aid db1 He Ho Hb Hst
    |k e e' aid a a' He Ha Hcur Hid (c & Hc & Hct) Hlive _ _ _ H1 H2 _ H3|db1 Hpf _
    |run_id run_shard chunk_id row c Hc Hst Ht _ _ Hno _ _] I.
  - destruct Hs as (H1 & H2 & _ & H3 & _ & H4 & _ & H5 & _). apply keeps_executions; try done.
    { intros k row Hk _. by eapply lookup_weaken. }
    rewrite H2. intros k0 e0 Hl. exists e0. split_and!; done || lia.
  - apply keeps_executions; try done. simpl. intros k e Hl. exists e. split_and!; done || lia.
  - constructor; [| | |by apply admission_step_authority|].
    all: destruct Hs as [->|(key & row & -> & _)]; simpl.
    all: apply (PreOrder_Reflexive (R := keeps) db).
  - destruct (PreOrder_Reflexive (R := keeps) db). constructor; try done.
    intros k c Hk. destruct (related_fwd _ _ _ _ _ HR Hk) as (c' & Hk' & [Hm Hr]).
    exists c'. split_and!; [done..|]. by apply (chunk_step_terminal fresh now).
  - apply keeps_executions; try done. simpl. intros k0 e0 Hl. exists e0. split_and!; done || lia.
  - apply keeps_executions; try done. simpl. intros k0 e0 Hl.
    destruct (related_fwd _ _ _ _ _ HR Hl) as (e1 & Hl' & Hm). exists e1. split; [done|by eapply execution_move_keeps].
  - apply keeps_executions; try done. simpl. intros k' e0 Hl. exists e0.
    rewrite lookup_insert_ne by congruence. split_and!; done || lia.
  - apply start_attempt_Ok in Hst as (_ & _ & ->). apply keeps_executions; try done. simpl. intros k' e0 Hl.
    destruct (decide (k = k')) as [->|Hne].
    + rewrite lookup_insert_eq. assert (e0 = e) as -> by congruence. eexists. split_and!; try done; simpl; [lia|congruence].
    + rewrite lookup_insert_ne by done. exists e0. split_and!; done || lia.
  - apply keeps_executions; try done. simpl. intros k' x Hl. destruct (decide (k = k')) as [->|Hne].
    + rewrite lookup_insert_eq. assert (x = e) as -> by congruence. exists e'. split_and!; try done; [lia|].
      intros Ho. exfalso. destruct (inv_terminal _ _ I k' e aid a He Ho Hcur Ha) as [Hdead|(c' & Hc' & Ht')].
      * by destruct Hlive as [E|E]; rewrite E in Hdead.
      * congruence.
    + rewrite lookup_insert_ne by done. exists x. split_and!; done || lia.
  - destruct Hpf. apply keeps_executions; try done. rewrite pf_executions.
    intros k e Hl. exists e. split_and!; done || lia.
  - destruct (PreOrder_Reflexive (R := keeps) db). constructor; try done.
    + unfold settled_db, retire_writers. simpl. by apply insert_subseteq.
    + intros k0 e0 Hl.
      pose proof (retire_executions_move (with_attempts db (update_where (fun k a => attempt_of_chunk db run_id run_shard chunk_id k a && attempt_open (at_status a))
       (fun _ => retire_attempt now) (db_attempts db))) now run_id run_shard chunk_id (st_disposition row) c Hc Ht) as HR.
      destruct (related_fwd _ _ _ _ _ HR Hl) as (e1 & Hl' & Hm). exists e1. split; [done|by eapply execution_move_keeps].
Qed.

Lemma keeps_micros fresh now db db' : micros budget fresh now db db' -> inv budget db -> keeps db db'.
Proof.
  induction 1 as [|x y z Hxy _ IH]; intros I; [reflexivity|].
  transitivity y; [by eapply keeps_micro|]. by eapply IH, inv_micro.
Qed.

(** ** Leases *)

(** [token] holds the lease of [key] at time [now]. *)
Definition held (token : Uuid) (now : Z) (db : Database) (key : row_key) : Prop :=
  exists c t, db_chunks db !! key = Some c /\ ch_status c = ChLeased /\ ch_lease_token c = Some token /\
    ch_leased_until c = Some t /\ now <= t.

(** A lease that is held after a micro-step which did not claim with its token
    was held before: no statement revives a lost or expired lease. *)
Lemma held_micro token fresh now db db' key :
  micro budget fresh now db db' -> fresh <> Some token -> held token now db' key -> held token now db key.
Proof.
  intros Hm Hf (c' & t & Hc' & Hs & Htok & Hu & Hle).
  assert (Hsame : db_chunks db' = db_chunks db -> held token now db key).
  { intros Heq. rewrite Heq in Hc'. by exists c', t. }
  destruct Hm as [db' Hsa| |db' Hs'|chunks HR| | | | ? ? ? ? ? ? ? ? Hst | |db' Hpf _|]; try (by apply Hsame).
  - apply Hsame, Hsa.
  - destruct Hs' as [->|(k & row & -> & _)]; by apply Hsame.
  - simpl in Hc'. destruct (related_bwd _ _ _ _ _ HR Hc') as (c & Hc & [Hm _]). unfold held.
    destruct Hm as [E1 E2 E3|tok until E1 E2 E3 E4 E5|old until E1 E2 E3 E4 E5 E6|E1 E2 E3 E4].
    + exists c, t. by rewrite <- E1, <- E2, <- E3.
    + congruence.
    + exists c, old. rewrite E5 in Htok. by split_and!.
    + congruence.
  - apply start_attempt_Ok in Hst as (_ & _ & ->). by apply Hsame.
  - apply Hsame, Hpf.
Qed.

Lemma held_micros token fresh now db db' key :
  micros budget fresh now db db' -> fresh <> Some token -> held token now db' key -> held token now db key.
Proof. intros H Hf. induction H; eauto using held_micro. Qed.

Lemma held_earlier token now now' db key : now <= now' -> held token now' db key -> held token now db key.
Proof. intros Hle (c & t & H1 & H2 & H3 & H4 & H5). exists c, t. split_and!; done || lia. Qed.

End keeping.

(** ** Receipts and summaries add up *)

Lemma shard_chunks_move fresh now db chunks run_id run_shard :
  map_Forall2 (chunk_move fresh now) (db_chunks db) chunks ->
  shard_chunks (with_chunks db chunks) run_id run_shard = shard_chunks db run_id run_shard.
Proof.
  intros HR. apply identities_unique; [apply shard_chunks_sorted..|]. intros c. rewrite !elem_of_shard_chunks. simpl.
  split; intros (row & Hk & Hc).
  - destruct (related_bwd _ _ _ _ _ HR Hk) as (row0 & Hk0 & _ & (R1 & R2 & _)). exists row0. by rewrite <- R1, <- R2.
  - destruct (related_fwd _ _ _ _ _ HR Hk) as (row0 & Hk0 & _ & (R1 & R2 & _)). exists row0. by rewrite R1, R2.
Qed.

Section accounting.
Context {SF : SummaryFunctions}.
Variable budget : Uuid -> Z.

(** Receipts are balanced and summaries are folds of them. *)
Record accounts (db : Database) : Prop := mkAccounts {
  ac_summaries : summaries_ok db;
  ac_receipts : forall k row, db_settlements db !! k = Some row ->
    receipt_balanced k.1.1 k.1.2 (st_ordinal_end row - st_ordinal_start row) (st_disposition row) (st_summary row)
}.

(** Steps that keep the summaries and the planned chunks. *)
Lemma accounts_frame db db' :
  (forall k, shard_chunks db' k.1 k.2 = shard_chunks db k.1 k.2) -> db_settlements db' = db_settlements db ->
  db_summaries db' = db_summaries db -> accounts db -> accounts db'.
Proof.
  intros Hc Hs Hsum [A1 A2]. constructor; [|by rewrite Hs].
  intros k row Hk. rewrite Hsum in Hk. eapply row_ok_mono; [apply Hc|by rewrite Hs|by apply A1].
Qed.

Lemma accounts_micro fresh now db db' : micro budget fresh now db db' -> accounts db -> accounts db'.
Proof.
  intros [db1 Hs|k0 e0 ag _ _|db1 Hs|chunks HR|attempts HR|executions HR|k e c Hn|k e lease aid db1 He Ho Hb Hst
    |k e e' aid a a' He|db1 Hpf Hok|run_id run_shard chunk_id row c Hc Hst Ht _ _ Hno Hbal _] A.
  - destruct Hs as (H1 & _ & _ & H2 & _ & _ & _ & _ & H3). destruct A as [A1 A2]. constructor; [|by rewrite H2].
    intros k row Hk. eapply (row_ok_mono db); [by apply shard_chunks_frame|by rewrite H2|].
    destruct (H3 k row Hk) as [Hold|(Hkey & Hst & Hse)]; [by apply A1|]. split; [done|]. by rewrite Hst.
  - apply (accounts_frame db); [done..|exact A].
  - destruct Hs as [->|(key & row & -> & _)]; [done|]. apply (accounts_frame db); [done..|exact A].
  - apply (accounts_frame db); [|done|done|exact A]. intros k. by eapply shard_chunks_move.
  - apply (accounts_frame db); [done..|exact A].
  - apply (accounts_frame db); [done..|exact A].
  - apply (accounts_frame db); [done..|exact A].
  - apply start_attempt_Ok in Hst as (_ & _ & ->). apply (accounts_frame db); [done..|exact A].
  - apply (accounts_frame db); [done..|exact A].
  - destruct A as [A1 A2]. constructor; [by apply Hok|]. by rewrite (pf_settlements _ _ Hpf).
  - destruct A as [A1 A2]. constructor.
    + intros k r Hk. apply (row_ok_mono db); [done| |by apply A1].
      unfold settled_db, retire_writers. simpl. by apply insert_subseteq.
    + intros k r. unfold settled_db, retire_writers. simpl. intros [[<- <-]|[_ Hk]]%lookup_insert_Some; [done|by apply A2].
Qed.

Lemma accounts_micros fresh now db db' : micros budget fresh now db db' -> accounts db -> accounts db'.
Proof. induction 1; eauto using accounts_micro. Qed.

End accounting.
