(* ===== verification/ShardRecount.v ===== *)
(** * Receipts stay true

    A receipt counts the outcomes of its chunk's executions at the moment of
    settlement.  Here the micro-steps of [ShardMachine] are shown to leave the
    outcomes of settled chunks alone: their executions stay closed, their
    attempts stay finished and their aggregates are not rewritten, so that a
    recount of the tables at any later time gives the receipt again. *)

From Stdlib Require Import ZArith Lia.
From stdpp Require Import base strings numbers gmap sets relations option list.
From S2P Require Import Prelude Json RunTypes ShardTables LocalAdmission ReceiptGates Settlement ChunkLease.
From S2P Require Import ExecutionAttempts ShardSummary ShardMachine.

Open Scope Z_scope.

(** The chunk of an execution has its receipt. *)
Definition settled_execution (db : Database) (k : row_key) (e : ExecutionRow) : Prop :=
  is_Some (db_settlements db !! (k.1, ex_chunk_id e)).

Record recounts (db : Database) : Prop := mkRecounts {
  (** Executions of settled chunks are closed, and so are their attempts. *)
  ro_closed : forall k e, db_executions db !! k = Some e -> settled_execution db k e ->
    execution_open (ex_status e) = false;
  ro_attempts : forall ka a e, db_attempts db !! ka = Some a ->
    db_executions db !! (ka.1, at_execution_id a) = Some e -> settled_execution db (ka.1, at_execution_id a) e ->
    attempt_open (at_status a) = false;
  (** A recount of a settled chunk gives its receipt. *)
  ro_counts : forall key row, db_settlements db !! key = Some row -> receipt_counts (outcomes db key) (st_summary row)
}.

Lemma of_chunk_key key k e :
  of_chunk key.1.1 key.1.2 key.2 k e = true <-> key = (k.1, ex_chunk_id e).
Proof.
  unfold of_chunk. rewrite !andb_true_iff, !Z.eqb_eq. destruct key as [[r s] i], k as [[r' s'] i']. simpl. naive_solver.
Qed.

(** What an outcome depends on of the current attempt. *)
Definition attempt_counts (execution_id : Z) (a : option AttemptRow) : bool :=
  is_some_and (fun a => (at_execution_id a =? execution_id) && attempt_settled (at_status a)) a.

Lemma verdict_ext db db' k e e' :
  execution_open (ex_status e') = execution_open (ex_status e) ->
  ex_current_attempt_id e' = ex_current_attempt_id e ->
  db_aggregates db' !! k = db_aggregates db !! k ->
  (forall aid, ex_current_attempt_id e = Some aid ->
     attempt_counts k.2 (db_attempts db' !! (k.1, aid)) = attempt_counts k.2 (db_attempts db !! (k.1, aid))) ->
  verdict db' k e' = verdict db k e.
Proof.
  intros H1 H2 H3 H4. unfold verdict, receipt_aggregate. rewrite H1, H2, H3.
  destruct (execution_open (ex_status e)); [done|]. destruct (db_aggregates db !! k) as [ag|]; simpl; [|done].
  destruct (ex_current_attempt_id e) as [aid|]; simpl; [|done]. specialize (H4 aid eq_refl).
  destruct k as [[r s] i]. simpl in *. unfold attempt_counts in H4.
  destruct (db_attempts db' !! (r, s, aid)) as [a'|], (db_attempts db !! (r, s, aid)) as [a|]; simpl in *; try done.
  - rewrite <- !andb_assoc, H4. by destruct (_ =? aid), (_ && _).
  - rewrite <- andb_assoc, H4. by destruct (_ =? aid).
  - rewrite <- andb_assoc, <- H4. by destruct (_ =? aid).
Qed.

(** Moves of attempts do not change what counts. *)
Lemma attempt_move_counts (t t' : gmap row_key AttemptRow) n ka :
  map_Forall2 attempt_move t t' -> attempt_counts n (t' !! ka) = attempt_counts n (t !! ka).
Proof.
  intros HR. destruct (t' !! ka) as [a'|] eqn:E'.
  - destruct (related_bwd _ _ _ _ _ HR E') as (a & -> & (H1 & _ & Hs)). simpl. rewrite H1.
    destruct Hs as [->|[Ho Hs]]; [done|]. f_equal. destruct Hs as [->| ->]; by destruct (at_status a).
  - destruct (t !! ka) as [a|] eqn:E; [|done]. destruct (related_fwd _ _ _ _ _ HR E) as (a' & Ha & _). congruence.
Qed.

(** Nothing is settled yet. *)
Lemma recounts_empty db : db_settlements db = ∅ -> recounts db.
Proof.
  intros Hs. constructor; unfold settled_execution; rewrite ?Hs.
  - intros k e _ [row Hr]. by rewrite lookup_empty in Hr.
  - intros ka a e _ _ [row Hr]. by rewrite lookup_empty in Hr.
  - intros k row Hr. by rewrite lookup_empty in Hr.
Qed.

(** A step that writes no receipt and leaves settled executions as they are
    keeps the recounts. *)
Lemma recounts_frame db db' :
  db_settlements db' = db_settlements db ->
  (forall k e', db_executions db' !! k = Some e' -> settled_execution db k e' ->
     exists e, db_executions db !! k = Some e /\ ex_chunk_id e = ex_chunk_id e' /\
       (execution_open (ex_status e) = false ->
        execution_open (ex_status e') = false /\ verdict db' k e' = verdict db k e)) ->
  (forall k e, db_executions db !! k = Some e -> settled_execution db k e ->
     exists e', db_executions db' !! k = Some e' /\ ex_chunk_id e' = ex_chunk_id e) ->
  (forall ka a' e', db_attempts db' !! ka = Some a' -> db_executions db' !! (ka.1, at_execution_id a') = Some e' ->
     settled_execution db (ka.1, at_execution_id a') e' -> attempt_open (at_status a') = false) ->
  recounts db -> recounts db'.
Proof.
  intros Hs Hb Hf Ha [R1 R2 R3]. unfold settled_execution in *. constructor; unfold settled_execution; rewrite ?Hs.
  - intros k e' He' Hset. destruct (Hb k e' He' Hset) as (e & He & Hc & Hv).
    apply Hv. eapply R1; [exact He|by rewrite Hc].
  - exact Ha.
  - intros key row Hrow. replace (outcomes db' key) with (outcomes db key); [by apply R3|].
    apply map_eq. intros k. rewrite !lookup_outcomes.
    destruct (db_executions db' !! k) as [e'|] eqn:E'; simpl.
    + destruct (of_chunk _ _ _ k e') eqn:Ho.
      * apply of_chunk_key in Ho as ->. destruct (Hb k e' E') as (e & He & Hc & Hv); [by eexists|].
        rewrite He. assert (Hof : of_chunk k.1.1 k.1.2 (ex_chunk_id e') k e = true)
          by (apply (of_chunk_key (k.1, ex_chunk_id e')); by rewrite Hc).
        simpl. rewrite Hof. f_equal. symmetry. apply Hv. eapply R1; [exact He|]. rewrite Hc. by eexists.
      * destruct (db_executions db !! k) as [e|] eqn:E; simpl; [|done].
        destruct (of_chunk _ _ _ k e) eqn:Ho'; [|done]. apply of_chunk_key in Ho' as ->.
        destruct (Hf k e E) as (x & Hx & Hc); [by eexists|]. assert (x = e') as -> by congruence.
        apply Bool.not_true_iff_false in Ho. exfalso. apply Ho, of_chunk_key. by rewrite Hc.
    + destruct (db_executions db !! k) as [e|] eqn:E; simpl; [|done].
      destruct (of_chunk _ _ _ k e) eqn:Ho'; [|done]. apply of_chunk_key in Ho' as ->.
      destruct (Hf k e E) as (x & Hx & Hc); [by eexists|]. congruence.
Qed.

(** Steps that leave the executions alone. *)
Lemma recounts_same_executions db db' :
  db_settlements db' = db_settlements db -> db_executions db' = db_executions db ->
  (forall k e, db_executions db !! k = Some e -> settled_execution db k e ->
     execution_open (ex_status e) = false -> db_aggregates db' !! k = db_aggregates db !! k) ->
  map_Forall2 attempt_move (db_attempts db) (db_attempts db') -> recounts db -> recounts db'.
Proof.
  intros Hs He Hag HR R. apply (recounts_frame db); [done|..|done]; rewrite ?He.
  - intros k e Hk Hset. exists e. split_and!; [done..|]. intros Ho. split; [done|].
    apply verdict_ext; [done|done|by eapply Hag|]. intros aid _. by apply attempt_move_counts.
  - eauto.
  - intros ka a' e Ha' Hk Hset. destruct (related_bwd _ _ _ _ _ HR Ha') as (a & Ha & (H1 & _ & Hst)).
    rewrite H1 in *. pose proof (ro_attempts _ R ka a e Ha Hk Hset) as Hop.
    destruct Hst as [->|[Ho _]]; congruence.
Qed.

Lemma recounts_executions_move closed db executions :
  map_Forall2 (execution_move closed) (db_executions db) executions ->
  recounts db -> recounts (with_executions db executions).
Proof.
  intros HR R. apply (recounts_frame db); [done|..|done]; simpl.
  - intros k e' He' Hset. destruct (related_bwd _ _ _ _ _ HR He') as (e & He & (H1 & _ & _ & H2 & _ & _ & Hs)).
    exists e. split_and!; [done..|]. intros Ho. assert (Hst : ex_status e' = ex_status e).
    { destruct Hs as [Hs|(Hc & _)]; [done|congruence]. }
    rewrite Hst. split; [done|]. apply verdict_ext; simpl; congruence.
  - intros k e He _. destruct (related_fwd _ _ _ _ _ HR He) as (e' & He' & (H1 & _)). eauto.
  - intros ka a e' Ha He' Hset. destruct (related_bwd _ _ _ _ _ HR He') as (e & He & (H1 & _)).
    eapply (ro_attempts _ R ka a e Ha He). unfold settled_execution in *. by rewrite <- H1.
Qed.

Section recounting.
Context {SF : SummaryFunctions}.
Variable budget : Uuid -> Z.

(** An open chunk has no receipt. *)
Lemma open_unsettled db key c :
  inv budget db -> db_chunks db !! key = Some c -> chunk_terminal (ch_status c) = false ->
  db_settlements db !! key = None.
Proof.
  intros I Hc Ht. destruct (db_settlements db !! key) as [row|] eqn:E; [|done].
  destruct (inv_settlements _ _ I key row E) as (c' & Hc' & _ & Ht' & _). congruence.
Qed.

Lemma recounts_new_execution db k e c :
  inv budget db -> db_executions db !! k = None -> db_chunks db !! (k.1, ex_chunk_id e) = Some c ->
  chunk_terminal (ch_status c) = false -> recounts db ->
  recounts (with_executions db (<[k := e]> (db_executions db))).
Proof.
  intros I Hn Hc Ht R. pose proof (open_unsettled _ _ _ I Hc Ht) as Hno.
  apply (recounts_frame db); [done|..|done]; simpl.
  - intros k' e' [[<- <-]|[_ He']]%lookup_insert_Some [row Hrow]; [congruence|]. exists e'. split_and!; [done..|].
    intros Ho. split; [done|]. by apply verdict_ext.
  - intros k' e' He' _. exists e'. by rewrite lookup_insert_ne by congruence.
  - intros ka a e' Ha [[Heq <-]|[_ He']]%lookup_insert_Some Hset.
    + destruct Hset as [row Hrow]. rewrite Heq in Hno. congruence.
    + by eapply (ro_attempts _ R ka a e').
Qed.

Lemma recounts_start db now lease aid k e db' :
  db_executions db !! k = Some e -> execution_open (ex_status e) = true ->
  start_attempt db now lease aid k e = Ok db' -> recounts db -> recounts db'.
Proof.
  intros He Ho (Hnone & _ & ->)%start_attempt_Ok R.
  assert (Hun : ~ settled_execution db k e) by (intros Hset; pose proof (ro_closed _ R k e He Hset); congruence).
  set (sup := update_where _ _ _). assert (HR : map_Forall2 attempt_move (db_attempts db) sup) by exact (superseded_move budget now k db).
  apply (recounts_frame db); [done|..|done]; simpl.
  - intros k' e' [[<- <-]|[Hne He']]%lookup_insert_Some Hset; [done|]. exists e'. split_and!; [done..|].
    intros Hc. split; [done|]. apply verdict_ext; [done..|]. simpl. intros aid' _.
    destruct (decide ((k'.1, aid') = (k.1, aid))) as [->|Hd].
    + rewrite lookup_insert_eq, Hnone. simpl. by rewrite andb_false_r.
    + rewrite lookup_insert_ne by done. by apply attempt_move_counts.
  - intros k' e' He' Hset. destruct (decide (k = k')) as [->|Hne].
    + rewrite lookup_insert_eq. assert (e' = e) as -> by congruence. eexists. split; reflexivity.
    + rewrite lookup_insert_ne by done. eauto.
  - intros ka a e' [[<- <-]|[_ Ha]]%lookup_insert_Some He' Hset; simpl in *.
    + replace (k.1, k.2) with k in * by (by destruct k). rewrite lookup_insert_eq in He'. injection He' as <-.
      exfalso. apply Hun. exact Hset.
    + apply lookup_insert_Some in He' as [[Heq <-]|[_ He']].
      { exfalso. apply Hun. by rewrite <- Heq in Hset. }
      destruct (related_bwd _ _ _ _ _ HR Ha) as (a0 & Ha0 & (H1 & _ & Hst)). rewrite H1 in *.
      pose proof (ro_attempts _ R ka a0 e' Ha0 He' Hset). destruct Hst as [->|[? _]]; congruence.
Qed.

Lemma recounts_finish db k e e' aid a a' c :
  inv budget db -> db_executions db !! k = Some e -> db_chunks db !! (k.1, ex_chunk_id e) = Some c ->
  chunk_terminal (ch_status c) = false -> db_attempts db !! (k.1, aid) = Some a -> at_execution_id a = k.2 ->
  at_execution_id a' = at_execution_id a -> ex_chunk_id e' = ex_chunk_id e -> recounts db ->
  recounts (with_executions (with_attempts db (<[(k.1, aid) := a']> (db_attempts db))) (<[k := e']> (db_executions db))).
Proof.
  intros I He Hc Ht Ha Hid Hid' Hch R. pose proof (open_unsettled _ _ _ I Hc Ht) as Hno.
  apply (recounts_frame db); [done|..|done]; simpl.
  - intros k' x [[<- <-]|[Hne Hx]]%lookup_insert_Some Hset.
    { destruct Hset as [row Hrow]. congruence. }
    exists x. split_and!; [done..|]. intros Ho. split; [done|]. apply verdict_ext; [done..|]. simpl. intros aid' _.
    destruct (decide ((k'.1, aid') = (k.1, aid))) as [Heq|Hd]; [|by rewrite lookup_insert_ne].
    rewrite Heq, lookup_insert_eq, Ha. simpl. rewrite Hid', Hid.
    assert (Hk2 : k.2 =? k'.2 = false).
    { apply Z.eqb_neq. intros Hk2. apply Hne. destruct k as [p i], k' as [q j]. simpl in *. congruence. }
    by rewrite Hk2.
  - intros k' x Hx Hset. destruct (decide (k = k')) as [->|Hne].
    + rewrite lookup_insert_eq. assert (x = e) as -> by congruence. eauto.
    + rewrite lookup_insert_ne by done. eauto.
  - intros ka b x Hb Hx Hset. apply lookup_insert_Some in Hx as [[Heq <-]|[Hne Hx]].
    { destruct Hset as [row Hrow]. rewrite <- Heq in Hrow. congruence. }
    apply lookup_insert_Some in Hb as [[<- <-]|[_ Hb]]; [|by eapply (ro_attempts _ R ka b x)].
    exfalso. apply Hne. simpl. rewrite Hid', Hid. by destruct k.
Qed.

(** Settlement closes the chunk and counts it; other chunks keep their counts. *)
Lemma recounts_settle db now run_id run_shard chunk_id row c :
  db_chunks db !! (run_id, run_shard, chunk_id) = Some c -> chunk_terminal (ch_status c) = true ->
  db_settlements db !! (run_id, run_shard, chunk_id) = None ->
  receipt_counts (outcomes (settled_db db now run_id run_shard chunk_id row) (run_id, run_shard, chunk_id)) (st_summary row) ->
  recounts db -> recounts (settled_db db now run_id run_shard chunk_id row).
Proof.
  intros Hc Ht Hnone Hcounts R. set (key := (run_id, run_shard, chunk_id)) in *.
  set (d1 := with_attempts db (update_where (fun k a => attempt_of_chunk db run_id run_shard chunk_id k a && attempt_open (at_status a))
     (fun _ => retire_attempt now) (db_attempts db))).
  assert (R1 : recounts d1).
  { apply (recounts_same_executions db); [done..| |done]. exact (retire_attempts_move budget db now run_id run_shard chunk_id). }
  assert (R2 : recounts (retire_writers db now run_id run_shard chunk_id (st_disposition row))).
  { eapply (recounts_executions_move _ d1); [|exact R1].
    exact (retire_executions_move db now run_id run_shard chunk_id (st_disposition row) c Hc Ht). }
  destruct R2 as [A1 A2 A3]. unfold settled_execution in *. constructor; unfold settled_execution.
  - intros k e He [r Hr]. unfold settled_db in Hr. simpl in Hr.
    apply lookup_insert_Some in Hr as [[Heq _]|[_ Hr]]; [|by apply (A1 k e); [|by eexists]].
    eapply retire_closes_executions. apply elem_of_chunk_executions. split; [exact He|].
    by apply (of_chunk_key (run_id, run_shard, chunk_id)).
  - intros ka a e Ha He [r Hr]. unfold settled_db in Hr. simpl in Hr.
    apply lookup_insert_Some in Hr as [[Heq _]|[_ Hr]]; [|by apply (A2 ka a e); [| |by eexists]].
    unfold settled_db, retire_writers in Ha, He. simpl in Ha, He.
    apply update_where_Some in Ha as (a0 & Ha0 & ->). apply update_where_Some in He as (e0 & He0 & ->).
    destruct (attempt_of_chunk _ _ _ _ ka a0) eqn:Eo; simpl in *; [destruct (attempt_open (at_status a0)) eqn:Ea; done|].
    exfalso. unfold attempt_of_chunk in Eo. unfold key in Heq. destruct ka as [[x y] i]. simpl in *. injection Heq as <- <- Hch.
    rewrite !Z.eqb_refl in Eo. simpl in Eo. rewrite He0 in Eo. simpl in Eo.
    rewrite Z.eqb_neq in Eo. apply Eo. rewrite Hch. by destruct (_ && _).
  - intros k r Hr. unfold settled_db in Hr. simpl in Hr. apply lookup_insert_Some in Hr as [[<- <-]|[_ Hr]]; [done|].
    by apply (A3 k r).
Qed.

Lemma recounts_micro fresh now db db' : micro budget fresh now db db' -> inv budget db -> recounts db -> recounts db'.
Proof.
  assert (Hrefl : forall t : gmap row_key AttemptRow, map_Forall2 attempt_move t t).
  { intros t k. destruct (t !! k); constructor. unfold attempt_move. auto. }
  intros [db1 Hs|k e ag He Hw|db1 Hs|chunks HR|attempts HR|executions HR|k e c Hn Hc Ht|k e lease aid db1 He Ho Hb Hst
    |k e e' aid a a' He Ha Hcur Hid (c & Hc & Hct) Hlive Hida _ _ Hch|db1 Hpf _
    |run_id run_shard chunk_id row c Hc Hst Ht _ _ Hno _ Hcounts] I R.
  - destruct Hs as (_ & H2 & H3 & H4 & _ & _ & H5 & _). apply (recounts_same_executions db); try done.
    + intros k e _ _ _. by rewrite H5.
    + by rewrite H3.
  - apply (recounts_same_executions db); try done. simpl. intros k' x Hx Hset Ho.
    destruct (decide (k = k')) as [->|Hne]; [exfalso|by rewrite lookup_insert_ne].
    assert (x = e) as -> by congruence. destruct Hw as [(aid & a & _ & Ha & Hae & Hrun)|(c & Hc & Ht)].
    + assert (Hat := ro_attempts _ R (k'.1, aid) a e Ha). simpl in Hat. rewrite Hae in Hat.
      replace (k'.1, k'.2) with k' in Hat by (by destruct k'). specialize (Hat He Hset). by rewrite Hrun in Hat.
    + destruct Hset as [row Hrow]. by rewrite (open_unsettled _ _ _ I Hc Ht) in Hrow.
  - destruct Hs as [->|(key & row & -> & _)]; [done|]. by apply (recounts_same_executions db).
  - by apply (recounts_same_executions db).
  - by apply (recounts_same_executions db).
  - by eapply recounts_executions_move.
  - by eapply recounts_new_execution.
  - by eapply recounts_start.
  - by eapply recounts_finish.
  - destruct Hpf. apply (recounts_same_executions db); try done.
    + intros k e _ _ _. by rewrite pf_aggregates.
    + by rewrite pf_attempts.
  - by eapply recounts_settle.
Qed.

Lemma recounts_micros fresh now db db' : micros budget fresh now db db' -> inv budget db -> recounts db -> recounts db'.
Proof.
  induction 1 as [|x y z Hxy _ IH]; intros I R; [done|]. apply IH; [by eapply inv_micro|by eapply recounts_micro].
Qed.
End recounting.
