(* ===== verification/ShardRefinement.v ===== *)
(** * Operations as micro-steps

    Each transaction of [LocalAdmission], [ChunkLease], [Settlement] and
    [ExecutionAttempts] that succeeds is a sequence of the micro-steps of
    [ShardMachine]. *)

From Stdlib Require Import ZArith Lia.
From stdpp Require Import base strings numbers gmap sorting relations option list.
From S2P Require Import Prelude Float64 BTree Text Json RunTypes ProfileValidation EvaluationPlan AgentClient.
From S2P Require Import ShardTables LocalAdmission ReceiptGates Settlement ChunkLease ExecutionAttempts ShardSummary ShardMachine.

Open Scope Z_scope.

Section refinement.
Variable budget : Uuid -> Z.
Context {RF : ReceiptFunctions} {SF : SummaryFunctions}.

Lemma micros_one fresh now db db' : micro budget fresh now db db' -> micros budget fresh now db db'.
Proof. apply rtc_once. Qed.

Lemma chunk_move_refl fresh now k c : chunk_move fresh now k c c.
Proof. split; [by apply cs_keep|]. unfold same_range. lia. Qed.

Lemma lease_guard_true db now token epoch key c :
  lease_guard db now token epoch key c = true ->
  ch_status c = ChLeased /\ ch_lease_token c = Some token /\
  (exists t, ch_leased_until c = Some t /\ now <= t) /\ settles_under db key.1 epoch = true.
Proof.
  unfold lease_guard. rewrite !andb_true_iff, !bool_decide_eq_true.
  intros [[[H1 H2] H3] H4]. split_and!; try done.
  destruct (ch_leased_until c) as [t|]; [|done]. simpl in H3. exists t. split; [done|lia].
Qed.

Lemma lease_expired_true now c :
  lease_expired now c = true -> ch_status c = ChLeased /\ exists t, ch_leased_until c = Some t /\ t < now.
Proof.
  unfold lease_expired. rewrite andb_true_iff, bool_decide_eq_true. intros [H1 H2]. split; [done|].
  destruct (ch_leased_until c) as [t|]; [|done]. simpl in H2. exists t. split; [done|lia].
Qed.

(** A guarded update of one chunk row. *)
Lemma update_chunk_micros fresh now db key guard f db' row :
  (forall c, db_chunks db !! key = Some c -> guard c = true -> chunk_move fresh now key c (f c)) ->
  update_chunk db key guard f = (db', row) ->
  micros budget fresh now db db' /\
  (forall c, row = Some c -> db_chunks db' !! key = Some c) /\ (row = None -> db' = db).
Proof.
  intros Hmove. unfold update_chunk. destruct (db_chunks db !! key) as [c|] eqn:Hc.
  - destruct (guard c) eqn:Hg; intros [= <- <-].
    + split_and!; [|intros ? [= <-]; simpl; by rewrite lookup_insert_eq|done].
      apply micros_one, m_chunks. eapply related_insert; eauto using chunk_move_refl.
    + by split_and!.
  - intros [= <- <-]. by split_and!.
Qed.

Lemma free_move fresh now k c status :
  chunk_terminal (ch_status c) = false -> status <> ChLeased ->
  chunk_move fresh now k c (set_lease status None None now c).
Proof. intros Ht Hs. split; [by apply cs_free|]. unfold same_range. simpl. lia. Qed.

Lemma claim_micros db now token run_id run_shard chunk_id secs db' h :
  claim_chunk_for_processing_in_transaction db now token run_id run_shard chunk_id secs = (db', h) ->
  micros budget (Some token) now db db' /\
  (forall x, h = Some x -> wc_key x = (run_id, run_shard, chunk_id) /\ wc_lease_token x = Some token /\
     exists c, db_chunks db' !! (run_id, run_shard, chunk_id) = Some c /\ ch_lease_token c = Some token).
Proof.
  unfold claim_chunk_for_processing_in_transaction. intros H.
  destruct (update_chunk _ _ _ _) as [d row] eqn:E. injection H as <- <-.
  pose proof E as E'. eapply (update_chunk_micros (Some token) now) in E as (Hm & Hrow & _).
  - split; [done|]. intros x Hx. destruct row as [c|]; [|done]. injection Hx as <-.
    specialize (Hrow c eq_refl). unfold update_chunk in E'.
    destruct (db_chunks db !! _) as [c0|]; [|done]. destruct (claim_guard _ _ _ _); [|done].
    injection E' as <- <-. by eauto.
  - intros c Hc Hg. split; [|unfold same_range; simpl; lia].
    eapply cs_claim; try done. unfold claim_guard in Hg. rewrite andb_true_iff, orb_true_iff, andb_true_iff in Hg.
    rewrite !bool_decide_eq_true in Hg. destruct Hg as [[->|[-> _]] _]; done.
Qed.

Lemma begin_admission_micros fresh now db placement current db' :
  begin_execution_admission db now placement current = inr db' -> micros budget fresh now db db'.
Proof. intros H. by apply micros_one, m_admission, (begin_admission_step db now placement current). Qed.

Lemma mark_micros status db now h token db' identity :
  status <> ChLeased -> mark_chunk status db now h token = (db', identity) ->
  micros budget None now db db' /\
  (forall i, identity = Some i -> exists c, db_chunks db' !! wc_key h = Some c /\
     i = (ch_ordinal_start c, ch_ordinal_end c, ch_status c)).
Proof.
  intros Hs. unfold mark_chunk. destruct (update_chunk _ _ _ _) as [d row] eqn:E. intros [= <- <-].
  eapply (update_chunk_micros None now) in E as (Hm & Hrow & _).
  - split; [done|]. intros i Hi. destruct row as [c|]; [|done]. injection Hi as <-. eauto.
  - intros c Hc (Hst & _)%lease_guard_true. apply free_move; [by rewrite Hst|done].
Qed.

Lemma extend_micros db now h secs db' h' :
  extend_chunk_lease db now h secs = Ok (db', h') ->
  micros budget None now db db' /\
  (forall x, h' = Some x -> wc_key x = wc_key h /\ wc_write_epoch x = wc_write_epoch h /\
     wc_lease_token x = wc_lease_token h).
Proof.
  unfold extend_chunk_lease. intros H. apply bind_Ok in H as (token & Htok & H). apply ok_or_Ok in Htok.
  destruct (update_chunk _ _ _ _) as [d row] eqn:E. injection H as <- <-.
  pose proof E as E'. eapply (update_chunk_micros None now) in E as (Hm & _ & _).
  - split; [done|]. intros x Hx. destruct row as [c|]; [|done]. injection Hx as <-.
    unfold update_chunk in E'. destruct (db_chunks db !! _) as [c0|]; [|done].
    destruct (lease_guard _ _ _ _ _ _ && _) eqn:Hg; [|done]. injection E' as <- <-.
    apply andb_true_iff in Hg as [Hg _]. apply lease_guard_true in Hg as (_ & Ht & _).
    simpl. rewrite Ht, Htok. by split_and!.
  - intros c Hc [Hg _]%andb_true_iff. apply lease_guard_true in Hg as (Hst & Htk & (t & Ht & Hle) & _).
    split; [|unfold same_range; simpl; lia]. by eapply (cs_extend _ _ _ _ t).
Qed.

Lemma release_micros db now h db' n :
  release_chunk_as_pending db now h = Ok (db', n) -> micros budget None now db db'.
Proof.
  unfold release_chunk_as_pending. intros H. apply bind_Ok in H as (token & Htok & H).
  destruct (update_chunk _ _ _ _) as [d row] eqn:E. injection H as <- <-.
  eapply (update_chunk_micros None now) in E as (Hm & _ & _); [done|].
  intros c Hc (Hst & _)%lease_guard_true. apply free_move; [by rewrite Hst|done].
Qed.

(** Statements on tables without authority. *)
Lemma other_micros fresh now db db' :
  db_chunks db' = db_chunks db -> db_executions db' = db_executions db -> db_attempts db' = db_attempts db ->
  db_settlements db' = db_settlements db -> db_consumptions db' = db_consumptions db ->
  db_admissions db' = db_admissions db -> db_aggregates db' = db_aggregates db ->
  db_summaries db' = db_summaries db -> micros budget fresh now db db'.
Proof.
  intros H1 H2 H3 H4 H5 H6 H7 H8. apply micros_one, m_other. unfold same_authority. rewrite H8.
  split_and!; try done. by left.
Qed.

(** A fresh summary row. *)
Lemma insert_summary_micros fresh now db db' run_id run_shard :
  insert_run_shard_summary_with db now run_id run_shard = Ok db' -> micros budget fresh now db db'.
Proof.
  unfold insert_run_shard_summary_with. intros H.
  destruct (db_snapshots db !! _) as [sn|]; [|injection H as <-; apply rtc_refl].
  apply bind_Ok in H as (count & _ & H). apply bind_Ok in H as ([] & _ & H). injection H as <-.
  apply micros_one, m_other. unfold same_authority. simpl. split_and!; try done.
  - apply map_subseteq_spec. intros k row Hk. by apply insert_new_mono.
  - intros k row Hk. apply insert_new_Some in Hk as [Hk|(_ & -> & ->)]; [by left|right]. by split_and!.
Qed.

(** ** Settlement *)

Lemma settle_locked_micros db now run_id run_shard chunk_id c db' :
  db_chunks db !! (run_id, run_shard, chunk_id) = Some c ->
  settle_locked_chunk_with db now run_id run_shard chunk_id
    (ch_ordinal_start c, ch_ordinal_end c, ch_status c) = Ok db' ->
  micros budget None now db db'.
Proof.
  intros Hc H. apply settle_locked_Ok in H as (Ht & sn & row & _ & H1 & H2 & H3 & _ & Hcase).
  destruct Hcase as [[_ ->]|(Hno & _ & _ & _ & (c' & Hc' & Hr) & ->)]; [apply rtc_refl|].
  assert (c' = c) as -> by congruence. rewrite <- H3 in Hr. apply new_receipt_balanced in Hr as (Hbal & Hcounts & _).
  apply micros_one. eapply m_settle; try done. by rewrite H1, H2, H3.
Qed.

Lemma ensure_snapshot_micros fresh now db run_id run_shard :
  micros budget fresh now db (ensure_snapshot_with db run_id run_shard).
Proof.
  apply other_micros; unfold ensure_snapshot_with; by destruct (db_runs db !! run_id).
Qed.

Lemma settle_chunk_micros db now run_id run_shard chunk_id db' :
  settle_chunk_with db now run_id run_shard chunk_id = Ok db' -> micros budget None now db db'.
Proof.
  unfold settle_chunk_with. intros H. apply bind_Ok in H as (c & Hc & H). apply ok_or_Ok in Hc.
  apply bind_Ok in H as ([] & _ & H). etransitivity; [apply ensure_snapshot_micros|].
  eapply settle_locked_micros; [|exact H].
  rewrite (sf_chunks _ _ (ensure_snapshot_frame db run_id run_shard)). done.
Qed.

(** A fallible loop of operations that refine micro-steps. *)
Lemma foldM_micros {A} (f : Database -> A -> result Database) fresh now l db db' :
  (forall d a d', f d a = Ok d' -> micros budget fresh now d d') ->
  foldM f db l = Ok db' -> micros budget fresh now db db'.
Proof.
  intros Hf H. eapply (foldM_inv (fun d => micros budget fresh now db d)); [|apply rtc_refl|exact H].
  intros d a d' _ Hd Ha. etransitivity; [exact Hd|eauto].
Qed.

Lemma settle_terminal_micros fuel db now run_id run_shard db' :
  settle_terminal_chunks_with fuel db now run_id run_shard = Some (Ok db') -> micros budget None now db db'.
Proof.
  revert db; induction fuel as [|fuel IH]; intros db H; [done|]. simpl in H.
  destruct (unsettled_page db run_id run_shard) as [|id ids]; [injection H as <-; apply rtc_refl|].
  destruct (settle_chunk_with db now run_id run_shard id) as [d0|] eqn:E0; [|done]. simpl in H.
  destruct (foldM (fun db id => settle_chunk_with db now run_id run_shard id) d0 ids) as [d|] eqn:E; [|done].
  etransitivity; [exact (settle_chunk_micros _ _ _ _ _ _ E0)|]. etransitivity; [|exact (IH _ H)].
  eapply foldM_micros; [|exact E]. intros d1 i d2 Hd. exact (settle_chunk_micros _ _ _ _ _ _ Hd).
Qed.

Lemma mark_and_settle_micros status db now h db' n :
  status <> ChLeased -> mark_and_settle (mark_chunk status) db now h = Ok (db', n) ->
  micros budget None now db db'.
Proof.
  intros Hs. unfold mark_and_settle. intros H. apply bind_Ok in H as (token & _ & H).
  destruct (mark_chunk status db now h token) as [d identity] eqn:E.
  apply mark_micros in E as [Hm Hid]; [|done]. destruct identity as [i|]; [|injection H as <- _; done].
  apply bind_Ok in H as (d2 & H2 & H). injection H as <- _.
  destruct (Hid i eq_refl) as (c & Hc & ->). etransitivity; [exact Hm|].
  exact (settle_locked_micros _ _ _ _ _ _ _ Hc H2).
Qed.

(** ** Recovery *)

Lemma elem_of_expired_page p n db k :
  k ∈ map fst (expired_page p n db) -> exists c, db_chunks db !! k = Some c /\ p k c = true.
Proof.
  intros Hin. apply list_elem_of_fmap in Hin as ([k' c] & -> & Hin). exists c. simpl.
  unfold expired_page in Hin. apply elem_of_take in Hin as (i & Hi & _). apply list_elem_of_lookup_2 in Hi.
  by rewrite merge_sort_Permutation, elem_of_map_to_list, lookup_rows_where in Hi.
Qed.

(** Updating a page of expired rows frees their chunks. *)
Lemma page_update_move fresh now p n db f :
  (forall k c, p k c = true -> lease_expired now c = true) ->
  (forall c, chunk_terminal (ch_status c) = false -> forall k, chunk_move fresh now k c (f c)) ->
  map_Forall2 (chunk_move fresh now) (db_chunks db)
    (update_where (fun k _ => bool_decide (k ∈ map fst (expired_page p n db))) (fun _ => f) (db_chunks db)).
Proof.
  intros Hp Hf. apply related_update_where. intros k c Hk. case_bool_decide as Hin; [|apply chunk_move_refl].
  apply elem_of_expired_page in Hin as (c' & Hk' & Hpc). assert (c' = c) as -> by congruence.
  apply Hp, lease_expired_true in Hpc as [Hst _]. apply Hf. by rewrite Hst.
Qed.

Lemma stale_attempts_micros fresh now db keys message :
  micros budget fresh now db (stale_current_attempts db now keys message).
Proof.
  apply micros_one, m_attempts, related_update_where. intros k a _. unfold attempt_move.
  destruct (current_running_of db keys k a) eqn:E; [|by auto]. simpl. split_and!; try done. right.
  unfold current_running_of in E. rewrite andb_true_iff, bool_decide_eq_true in E. destruct E as [_ ->]. auto.
Qed.

Lemma recover_micros db now max batch try_lock locked db' n m :
  recover_expired_chunk_leases db now max batch try_lock locked = Ok (db', n, m) -> micros budget None now db db'.
Proof.
  unfold recover_expired_chunk_leases, recover_expired_chunks. intros H.
  set (admitted := filter _ _) in H. apply bind_Ok in H as (d & Hd & H). injection H as <- _ _.
  set (expired := expired_page (recoverable _ _ _ _ _) _ _) in Hd.
  set (dbc := with_chunks db _) in Hd. set (dbo := with_outbox dbc _) in Hd.
  set (db1 := stale_current_attempts dbo _ _ _) in Hd.
  set (failed := map fst (expired_page (exhausted db1 _ _ _ _) _ _)) in Hd.
  transitivity db1; [|transitivity (stale_current_attempts (with_chunks db1 (update_where
    (fun k _ => bool_decide (k ∈ failed)) (fun _ => set_lease ChFailed None None now) (db_chunks db1)))
    now failed "attempt lease expired with failed chunk")].
  - transitivity dbc; [|transitivity dbo; [by apply other_micros|apply stale_attempts_micros]].
    apply micros_one, m_chunks, page_update_move.
    + intros k c. unfold recoverable. rewrite !andb_true_iff. tauto.
    + intros c Ht k. split; [by apply cs_free|]. unfold same_range. simpl. lia.
  - etransitivity; [|apply stale_attempts_micros]. apply micros_one, m_chunks, page_update_move.
    + intros k c. unfold exhausted. rewrite !andb_true_iff. tauto.
    + intros c Ht k. by apply free_move.
  - eapply foldM_micros; [|exact Hd]. intros d1 k d2 H2. exact (settle_chunk_micros _ _ _ _ _ _ H2).
Qed.

(** ** Cancellation *)

Lemma initialize_micros fresh now db run_id run_shard db' :
  initialize_run_shard_summary_with db now run_id run_shard = Ok db' -> micros budget fresh now db db'.
Proof.
  unfold initialize_run_shard_summary_with. intros H.
  etransitivity; [apply ensure_snapshot_micros|exact (insert_summary_micros _ _ _ _ _ _ H)].
Qed.

Lemma cancel_shard_micros now run_id db run_shard db' :
  cancel_shard now run_id db run_shard = Ok db' -> micros budget None now db db'.
Proof.
  unfold cancel_shard. intros H. apply bind_Ok in H as (d & Hd & H).
  destruct (settle_terminal_chunks_with _ db now run_id run_shard) as [r|] eqn:E; [|done]. simpl in Hd. subst r.
  etransitivity; [exact (settle_terminal_micros _ _ _ _ _ _ E)|exact (initialize_micros _ _ _ _ _ _ H)].
Qed.

Lemma cancel_chunks_move now db run_id :
  map_Forall2 (chunk_move None now) (db_chunks db) (db_chunks (cancel_open_chunks db now run_id).1).
Proof.
  apply related_update_where. intros k c _.
  destruct (_ && negb (chunk_terminal (ch_status c))) eqn:E; [|apply chunk_move_refl].
  apply andb_true_iff in E as [_ E]. apply negb_true_iff in E. by apply free_move.
Qed.

Lemma cancel_micros db now run_id run_shards db' counts :
  inv budget db ->
  cancel_execution_target_with_transaction db now run_id run_shards = Ok (db', counts) ->
  micros budget None now db db'.
Proof.
  intros I. unfold cancel_execution_target_with_transaction.
  destruct (cancel_open_chunks db now run_id) as [db1 n1] eqn:E1.
  destruct (cancel_open_attempts db1 now run_id) as [db2 n2] eqn:E2.
  destruct (cancel_open_executions db2 now run_id) as [db3 n3] eqn:E3. intros H.
  apply bind_Ok in H as (d & Hd & H). injection H as <- _.
  assert (M1 : micros budget None now db db1).
  { pose proof (cancel_chunks_move now db run_id) as Hm. rewrite E1 in Hm.
    injection E1 as <- _. by apply micros_one, m_chunks. }
  pose proof (inv_micros budget _ _ _ _ M1 I) as I1.
  assert (M2 : micros budget None now db1 db2).
  { injection E2 as <- _. apply micros_one, m_attempts, related_update_where. intros k a _. unfold attempt_move.
    destruct (_ && attempt_open (at_status a)) eqn:E; [|by auto].
    apply andb_true_iff in E as [_ E]. simpl. naive_solver. }
  assert (M3 : micros budget None now db2 db3).
  { injection E3 as <- _. apply micros_one, m_executions, related_update_where. intros k e He.
    unfold execution_move. destruct (_ && execution_open (ex_status e)) eqn:E; [|split_and!; try done; by left].
    apply andb_true_iff in E as [Hr Ho]. apply Z.eqb_eq in Hr. simpl. split_and!; try done. right. split_and!; try done.
    assert (He1 : db_executions db1 !! k = Some e) by (by injection E2 as <- _).
    destruct (inv_execution _ _ I1 k e He1) as (_ & [c Hc] & _).
    exists c. split; [by injection E2 as <- _|].
    injection E1 as <- _. simpl in Hc. apply update_where_Some in Hc as (c0 & Hc0 & ->).
    simpl. rewrite Hr, Z.eqb_refl. simpl. by destruct (chunk_terminal (ch_status c0)) eqn:Ht. }
  etransitivity; [exact M1|]. etransitivity; [exact M2|]. etransitivity; [exact M3|].
  eapply foldM_micros; [|exact Hd]. intros d1 s d2 H2. exact (cancel_shard_micros _ _ _ _ _ H2).
Qed.

(** ** Dispatch *)

Lemma dispatch_micros db now window run_id run_shard alias epoch sr ss context db' w status :
  dispatch_routed_run_window db now window run_id run_shard alias epoch sr ss context = Ok (db', w, status) ->
  micros budget None now db db'.
Proof.
  unfold dispatch_routed_run_window, dispatch_run_window. intros H. apply bind_Ok in H as ([] & _ & H).
  apply bind_Ok in H as (d & Hd & H). injection H as <- _ _.
  set (selected := map fst _) in Hd.
  set (chunks := update_where _ _ _) in Hd.
  transitivity (with_chunks db chunks).
  - apply micros_one, m_chunks, related_update_where. intros k c _. case_bool_decide; [|apply chunk_move_refl].
    split; [by apply cs_keep|]. unfold same_range. simpl. lia.
  - etransitivity; [|exact (insert_summary_micros _ _ _ _ _ _ Hd)]. by apply other_micros.
Qed.

(** ** Allocation *)

Lemma find_execution_Some db run_id run_shard case_id k e :
  find_execution db run_id run_shard case_id = Some (k, e) ->
  db_executions db !! k = Some e /\ k.1 = (run_id, run_shard) /\ ex_case_id e = case_id.
Proof.
  unfold find_execution. intros H. apply head_Some_elem_of in H.
  rewrite elem_of_map_to_list, lookup_rows_where in H. destruct H as [Hk Hp].
  rewrite !andb_true_iff, !Z.eqb_eq in Hp. destruct k as [[r s] i]. simpl in *.
  destruct Hp as [[-> ->] ->]. done.
Qed.

Lemma find_execution_None db run_id run_shard case_id k e :
  find_execution db run_id run_shard case_id = None -> db_executions db !! k = Some e ->
  k.1 = (run_id, run_shard) -> ex_case_id e <> case_id.
Proof.
  unfold find_execution. intros H Hk Hs Hc. apply head_None in H.
  assert (Hin : (k, e) ∈ map_to_list (rows_where (fun k e => (k.1.1 =? run_id) && (k.1.2 =? run_shard)
    && (ex_case_id e =? case_id)) (db_executions db))).
  { rewrite elem_of_map_to_list, lookup_rows_where. split; [done|]. rewrite Hs, Hc. simpl. by rewrite !Z.eqb_refl. }
  rewrite H in Hin. by apply not_elem_of_nil in Hin.
Qed.

Lemma upsert_micros now run_id run_shard chunk_id fresh db input db' c :
  db_chunks db !! (run_id, run_shard, chunk_id) = Some c -> chunk_terminal (ch_status c) = false ->
  0 <= ec_expected_evaluator_count input.2 ->
  upsert_execution now run_id run_shard chunk_id fresh db input = Ok db' ->
  micros budget None now db db' /\ db_chunks db' = db_chunks db.
Proof.
  destruct input as [case_id columns]. intros Hc Ht Hcols H. unfold upsert_execution in H. simpl in Hcols.
  destruct (find_execution db run_id run_shard case_id) as [[k e]|] eqn:E.
  - apply find_execution_Some in E as (Hk & _ & _). injection H as <-. split; [|done].
    apply micros_one, m_executions. eapply related_insert; [|exact Hk|].
    + intros k' e'. unfold execution_move. split_and!; try done. by left.
    + unfold execution_move. simpl. split_and!; try done. by left.
  - apply bind_Ok in H as ([] & Hens & H). apply ensure_Ok in Hens. injection H as <-. split; [|done].
    apply micros_one. eapply m_new_execution; try done.
    + destruct (db_executions db !! _); done.
    + intros k' e' Hk' Hs Hcase. exact (find_execution_None _ _ _ _ _ _ E Hk' Hs Hcase).
    + unfold execution_ok. simpl. lia.
Qed.

Lemma bucket_eligible now max_attempts e :
  bucket_of now max_attempts e = Some RetryEligible ->
  execution_open (ex_status e) = true /\ ex_current_attempt_no e < max_attempts.
Proof.
  unfold bucket_of. destruct (execution_open (ex_status e)); simpl; [|done].
  destruct (_ <? _) eqn:E; [split; [done|lia]|]. by destruct (opt_is_some _).
Qed.

Lemma allocate_case_micros now run_id run_shard max_attempts lease fresh acc case_id acc' :
  max_attempts <= budget run_id ->
  allocate_case now run_id run_shard max_attempts lease fresh acc case_id = Ok acc' ->
  micros budget None now acc.1 acc'.1.
Proof.
  intros Hmax. destruct acc as [db allocations]. unfold allocate_case. intros H.
  apply bind_Ok in H as ([k e] & Hf & H). apply ok_or_Ok, find_execution_Some in Hf as (Hk & Hs & _).
  apply bind_Ok in H as (bucket & Hb & H). apply ok_or_Ok in Hb.
  destruct bucket; try (injection H as <-; apply rtc_refl).
  apply bind_Ok in H as (d & Hd & H). injection H as <-. simpl.
  apply bucket_eligible in Hb as [Ho Hn]. apply micros_one. eapply m_start; try done.
  rewrite Hs. simpl. lia.
Qed.

Lemma allocation_inputs_nonneg bv nv profile cases plans inputs input :
  allocation_inputs bv nv profile cases plans = Ok inputs -> input ∈ inputs ->
  0 <= ec_expected_evaluator_count input.2.
Proof.
  revert plans inputs; induction cases as [|case cases IH]; intros [|plan plans] inputs H Hin; simpl in H;
    try (injection H as <-; by apply not_elem_of_nil in Hin).
  apply bind_Ok in H as (columns & Hc & H). apply bind_Ok in H as (rest & Hr & H). injection H as <-.
  apply elem_of_cons in Hin as [->|Hin]; [|by eapply IH].
  unfold allocation_columns in Hc. apply bind_Ok in Hc as (n & Hn & Hc). injection Hc as <-.
  apply i32_try_from_Ok in Hn as [-> _]. simpl. apply zlen_nonneg.
Qed.

Lemma lock_live_Ok db now h u :
  lock_live_chunk_lease db now h = Ok u ->
  exists token c, wc_lease_token h = Some token /\ db_chunks db !! wc_key h = Some c /\
    lease_guard db now token (wc_write_epoch h) (wc_key h) c = true.
Proof.
  unfold lock_live_chunk_lease. intros H. apply bind_Ok in H as (token & Ht & H). apply ok_or_Ok in Ht.
  apply ensure_Ok in H. destruct (db_chunks db !! wc_key h) as [c|]; [|done]. eauto.
Qed.

Lemma allocate_micros bv nv db now h lease profile cases plans fe fa db' allocations :
  rd_max_attempts (rp_defaults profile) <= budget (wc_run_id h) ->
  allocate_execution_attempts_for_cases bv nv db now h lease profile cases plans fe fa = Ok (db', allocations) ->
  micros budget None now db db'.
Proof.
  intros Hbud. unfold allocate_execution_attempts_for_cases. intros H.
  apply bind_Ok in H as (batch & Hb & H). destruct batch as [max|]; [|injection H as <- _; apply rtc_refl].
  assert (Hmax : max <= budget (wc_run_id h)).
  { unfold validate_attempt_allocation_batch in Hb. destruct (_ =? 0); [done|].
    apply bind_Ok in Hb as ([] & _ & Hb). apply bind_Ok in Hb as ([] & _ & Hb). apply bind_Ok in Hb as ([] & _ & Hb).
    destruct (i32_try_from _) as [m|] eqn:E; [|done]. injection Hb as <-. apply i32_try_from_Ok in E as [-> _]. done. }
  apply bind_Ok in H as (inputs & Hin & H). apply bind_Ok in H as (u & Hl & H).
  apply lock_live_Ok in Hl as (token & c & _ & Hc & (Hst & _)%lease_guard_true).
  apply bind_Ok in H as ([] & _ & H). apply bind_Ok in H as ([] & _ & H). apply bind_Ok in H as (db1 & Hup & H).
  assert (M1 : micros budget None now db db1 /\ db_chunks db1 = db_chunks db).
  { eapply (foldM_inv (fun d => micros budget None now db d /\ db_chunks d = db_chunks db)); [|by split|exact Hup].
    intros d input d' Hi [Hd Hcd] Hu.
    destruct (upsert_micros now (wc_run_id h) (wc_run_shard h) (wc_id h) fe d input d' c) as [Hm Hcd'].
    - by rewrite Hcd.
    - by rewrite Hst.
    - by eapply allocation_inputs_nonneg.
    - done.
    - split; [by etransitivity|congruence]. }
  etransitivity; [exact (proj1 M1)|].
  eapply (foldM_inv (fun acc => micros budget None now db1 acc.1)) in H; [exact H| |apply rtc_refl].
  intros acc case_id acc' _ Hacc Ha. etransitivity; [exact Hacc|]. eapply allocate_case_micros; [|exact Ha]. done.
Qed.

(** ** Results and heartbeats *)

(** Aggregates written by the owners of running attempts. *)
Lemma upsert_aggregates_micros fresh now run_id run_shard worker (db0 : Database) completed db db' :
  forallb (owns_attempt db0 now run_id run_shard worker) completed = true ->
  db_executions db = db_executions db0 -> db_attempts db = db_attempts db0 ->
  foldM (upsert_aggregate now run_id run_shard) db completed = Ok db' -> micros budget fresh now db db'.
Proof.
  intros Hown He Ha H. rewrite forallb_forall in Hown.
  eapply (foldM_inv (fun d => micros budget fresh now db d /\ db_executions d = db_executions db0 /\
    db_attempts d = db_attempts db0)) in H; [exact (proj1 H)| |by split_and!].
  intros d c d' Hin (Hm & Hde & Hda) Hx. unfold upsert_aggregate in Hx.
  apply bind_Ok in Hx as (s & _ & Hx). apply bind_Ok in Hx as ([] & _ & Hx). injection Hx as <-.
  split_and!; [|done..]. etransitivity; [exact Hm|]. apply list_elem_of_In, Hown in Hin. unfold owns_attempt in Hin.
  rewrite <- Hde, <- Hda, !andb_true_iff in Hin. destruct Hin as [[_ Hoe] Hoa].
  destruct (db_executions d !! _) as [e|] eqn:Ee; [|done]. destruct (db_attempts d !! _) as [a|] eqn:Ea; [|done].
  simpl in Hoe, Hoa. rewrite !andb_true_iff, !bool_decide_eq_true in Hoe. rewrite !andb_true_iff, !bool_decide_eq_true, !Z.eqb_eq in Hoa.
  apply micros_one. eapply m_aggregate; [exact Ee|]. left. exists (cp_attempt_id c), a. simpl. tauto.
Qed.

Lemma persist_micros db now h worker completed db' stats :
  persist_completed_execution_results_batch db now h worker completed = Ok (db', stats) ->
  micros budget None now db db'.
Proof.
  unfold persist_completed_execution_results_batch. destruct completed as [|c completed];
    [intros [= <- _]; apply rtc_refl|]. intros H.
  apply bind_Ok in H as (u & _ & H). apply bind_Ok in H as ([] & Hown & H). apply ensure_Ok in Hown.
  apply bind_Ok in H as ([d n] & Hins & H).
  apply bind_Ok in H as ([] & _ & H). apply bind_Ok in H as (d2 & Hd2 & H). injection H as <- _.
  unfold insert_evaluator_results_batch in Hins. apply bind_Ok in Hins as ([] & _ & Hins).
  apply bind_Ok in Hins as ([] & _ & Hins). injection Hins as <- _.
  transitivity (with_evidence db (mkEvidence (fold_left (fun t row => insert_new (evidence_key row) row t)
    (flat_map cp_result_rows (c :: completed)) (ev_results (db_evidence db)))
    (fold_left (fun t row => fold_left (insert_diagnostic (evidence_key row)) (er_diagnostics row) t)
      (flat_map cp_result_rows (c :: completed)) (ev_diagnostics (db_evidence db)))));
    [by apply other_micros|].
  by eapply upsert_aggregates_micros.
Qed.

Lemma heartbeat_micros db now run_id run_shard chunk_id worker secs db' n :
  heartbeat_running_attempts_for_chunk db now run_id run_shard chunk_id worker secs = Ok (db', n) ->
  micros budget None now db db'.
Proof.
  unfold heartbeat_running_attempts_for_chunk. intros H. apply bind_Ok in H as ([] & _ & H). injection H as <- _.
  apply micros_one, m_attempts, related_update_where. intros k a _. unfold attempt_move.
  destruct (heartbeat_target _ _ _ _ _ _ _); simpl; auto.
Qed.

(** ** Finalization *)

Lemma alter_present {K} `{Countable K} {A} (f : A -> A) (k : K) (m : gmap K A) x :
  m !! k = Some x -> alter f k m = <[k := f x]> m.
Proof. intros Hx. apply map_eq. intros j. destruct (decide (j = k)) as [->|Hne].
  - by rewrite lookup_alter_eq, lookup_insert_eq, Hx.
  - by rewrite lookup_alter_ne, lookup_insert_ne.
Qed.

Lemma distinct_transitions_spec ts : forall seen,
  NoDup (map tt_execution_id (distinct_transitions seen ts)) /\
  (forall t, t ∈ distinct_transitions seen ts -> t ∈ ts /\ tt_execution_id t ∉ seen).
Proof.
  induction ts as [|t ts IH]; intros seen; simpl; [split; [constructor|set_solver]|].
  case_bool_decide as Hin; [destruct (IH seen); set_solver|].
  destruct (IH (tt_execution_id t :: seen)) as [Hnd Hsub]. simpl. split; [|set_solver].
  constructor; [|done]. intros (t' & Heq & Ht')%list_elem_of_fmap. apply Hsub in Ht' as [_ Hn]. set_solver.
Qed.

(** A transition that may be applied: it names the current attempt of an
    execution whose chunk is open, and that attempt still runs or went stale. *)
Definition applicable (run_id run_shard : Z) (db : Database) (t : ExecutionTerminalTransition) : Prop :=
  exists e a c, db_executions db !! (run_id, run_shard, tt_execution_id t) = Some e /\
    db_attempts db !! (run_id, run_shard, tt_attempt_id t) = Some a /\
    db_chunks db !! (run_id, run_shard, ex_chunk_id e) = Some c /\ chunk_terminal (ch_status c) = false /\
    ex_current_attempt_id e = Some (tt_attempt_id t) /\ ex_current_attempt_no e = tt_attempt_no t /\
    at_execution_id a = tt_execution_id t /\ (at_status a = AtRunning \/ at_status a = AtStale).

Lemma apply_transition_micros fv ut fresh now run_id run_shard max db t :
  applicable run_id run_shard db t ->
  micros budget fresh now db (apply_transition fv ut now run_id run_shard max db t).
Proof.
  intros (e & a & c & He & Ha & Hc & Ht & Hcur & Hno & Hid & Hst). unfold apply_transition.
  set (key := (run_id, run_shard, tt_execution_id t)).
  assert (Hfin : forall d, db_executions d = db_executions db -> db_attempts d = db_attempts db ->
    db_chunks d = db_chunks db -> micro budget fresh now d
      (with_executions (with_attempts d (<[(run_id, run_shard, tt_attempt_id t) := finish_attempt fv now t a]> (db_attempts d)))
         (<[key := finish_execution now max t e]> (db_executions d)))).
  { intros d Hde Hda Hdc.
    eapply (m_finish budget fresh now d key e _ (tt_attempt_id t) a); rewrite ?Hde, ?Hda, ?Hdc; try done.
    - by eauto.
    - simpl. destruct (tt_completed t), (tt_agent_failure t); done.
    - simpl. destruct (retry_scheduled max t); lia. }
  rewrite (alter_present _ _ _ _ Ha). destruct (_ && _); simpl; rewrite (alter_present _ _ _ _ He).
  - eapply rtc_l; [|apply micros_one, (Hfin (with_aggregates db (<[key := failed_aggregate ut now t]> (db_aggregates db)))); done].
    eapply m_aggregate; [exact He|]. right. eauto.
  - by apply micros_one, Hfin.
Qed.

Lemma apply_transition_other fv ut now run_id run_shard max db t u :
  applicable run_id run_shard db t -> applicable run_id run_shard db u ->
  tt_execution_id u <> tt_execution_id t ->
  applicable run_id run_shard (apply_transition fv ut now run_id run_shard max db t) u.
Proof.
  intros (e & a & c & He & Ha & Hc & Ht & Hcur & Hno & Hid & Hst)
    (e' & a' & c' & He' & Ha' & Hc' & Ht' & Hcur' & Hno' & Hid' & Hst') Hne.
  assert (Hane : tt_attempt_id u <> tt_attempt_id t).
  { intros Heq. rewrite Heq in Ha'. assert (a' = a) as -> by congruence. congruence. }
  exists e', a', c'. unfold apply_transition. destruct (_ && _); simpl;
    rewrite !lookup_alter_ne by congruence; by split_and!.
Qed.

Lemma apply_transitions_micros fv ut fresh now run_id run_shard max ts : forall db,
  NoDup (map tt_execution_id ts) -> (forall t, t ∈ ts -> applicable run_id run_shard db t) ->
  micros budget fresh now db (fold_left (apply_transition fv ut now run_id run_shard max) ts db).
Proof.
  induction ts as [|t ts IH]; intros db Hnd Hall; simpl; [apply rtc_refl|]. inversion Hnd as [|?? Hn Hnd']; subst.
  etransitivity; [apply (apply_transition_micros fv ut fresh now run_id run_shard max db t), Hall; set_solver|].
  apply IH; [done|].
  intros u Hu. apply apply_transition_other; [apply Hall; set_solver..|].
  intros Heq. apply Hn, list_elem_of_fmap. eauto.
Qed.

Lemma retire_lost_micros fresh now run_id run_shard worker db0 ts : forall db,
  (forall k a, db_attempts db !! k = Some a -> exists a0, db_attempts db0 !! k = Some a0 /\
     (at_status a = at_status a0 \/ at_status a = AtStale)) ->
  micros budget fresh now db (fold_left (retire_lost now run_id run_shard worker db0) ts db).
Proof.
  induction ts as [|t ts IH]; intros db Hrel; simpl; [apply rtc_refl|].
  etransitivity; [|apply IH].
  - apply micros_one, m_attempts, related_update_where. intros k a Hk. unfold attempt_move.
    destruct (Hrel k a Hk) as (a0 & Ha0 & Hs). rewrite Ha0. simpl.
    destruct (lost_authority _ _ _ _ _ _ _ _) eqn:E; [|by auto]. simpl. split_and!; try done.
    unfold lost_authority in E. rewrite !andb_true_iff, !bool_decide_eq_true in E.
    destruct Hs as [->| ->]; [right|by left]. destruct E as [[[_ ->] _] _]. auto.
  - intros k a Hk. simpl in Hk. apply update_where_Some in Hk as (a1 & Hk1 & ->).
    destruct (Hrel k a1 Hk1) as (a0 & Ha0 & Hs). exists a0. split; [done|]. simpl. case_match; simpl; auto.
Qed.

Lemma retire_lost_none now run_id run_shard worker db0 ts : forall db,
  forallb (authoritative db0 now run_id run_shard worker) ts = true -> db_attempts db = db_attempts db0 ->
  fold_left (retire_lost now run_id run_shard worker db0) ts db = db.
Proof.
  induction ts as [|t ts IH]; intros db Hall Heq; simpl in *; [done|]. apply andb_true_iff in Hall as [Ht Hall].
  assert (Hsame : retire_lost now run_id run_shard worker db0 db t = db); [|rewrite Hsame; by apply IH].
  unfold retire_lost. rewrite update_where_id; [by destruct db|].
  intros k a Hk. rewrite Heq in Hk. rewrite Hk. simpl. apply Bool.not_true_iff_false. intros E.
  unfold lost_authority, authoritative in *. rewrite !andb_true_iff, !bool_decide_eq_true in *.
  destruct E as [[[[-> _] _] Hreq] E]. destruct Ht as [[He Ha] _].
  destruct (db_executions db0 !! _) as [e|]; [|done]. rewrite Hk in Ha. simpl in *.
  rewrite !andb_true_iff, Hreq, !andb_true_iff, !bool_decide_eq_true in *. destruct He as [He1 He2].
  destruct Ha as (_ & (_ & Hw) & Hl). rewrite !orb_true_iff in E.
  rewrite He2, !bool_decide_true in E by done. destruct (at_leased_until a); simpl in *; [|done].
  destruct E as [[[?|?]|?]|?]; try done. lia.
Qed.

Lemma finalize_applicable db now run_id run_shard worker ids t :
  inv budget db -> tt_execution_id t ∈ ids ->
  exists_where (fun _ c => negb (chunk_live now c)) (rows_where (touches_chunk db run_id run_shard ids) (db_chunks db)) = false ->
  authoritative db now run_id run_shard worker t = true -> applicable run_id run_shard db t.
Proof.
  intros I Hin Hlive Ha. unfold authoritative in Ha. rewrite !andb_true_iff in Ha. destruct Ha as [[He Ha] _].
  destruct (db_executions db !! _) as [e|] eqn:Ee; [|done]. destruct (db_attempts db !! _) as [a|] eqn:Ea; [|done].
  simpl in *. rewrite !andb_true_iff, !Z.eqb_eq, !bool_decide_eq_true in *. destruct He as [Hcur Hno], Ha as [Hid Hst].
  destruct (inv_execution _ _ I _ _ Ee) as (_ & [c Hc] & _). simpl in Hc. exists e, a, c. split_and!; try done.
  - destruct (chunk_terminal (ch_status c)) eqn:Ht; [|done].
    apply Bool.not_true_iff_false in Hlive. exfalso. apply Hlive, exists_where_spec.
    exists (run_id, run_shard, ex_chunk_id e), c. split.
    + apply lookup_rows_where. split; [done|]. unfold touches_chunk. simpl. rewrite !Z.eqb_refl. simpl.
      apply existsb_exists. exists (tt_execution_id t). split; [by apply list_elem_of_In|]. rewrite Ee. simpl.
      by rewrite Z.eqb_refl.
    + unfold chunk_live. destruct (ch_status c); done.
  - destruct (tt_requires_worker_lease t); rewrite ?andb_true_iff, ?orb_true_iff, ?bool_decide_eq_true in Hst; tauto.
Qed.

Lemma finalize_micros fv ut db now run_id run_shard worker max ts db' r :
  inv budget db ->
  finalize_execution_terminal_transitions fv ut db now run_id run_shard worker max ts = (db', r) ->
  micros budget None now db db'.
Proof.
  intros I. unfold finalize_execution_terminal_transitions. destruct ts as [|t0 ts0]; [intros [= <- _]; apply rtc_refl|].
  set (ts := t0 :: ts0). destruct (bool_decide _ || _) eqn:E; [intros [= <- _]; apply rtc_refl|].
  apply orb_false_iff in E as [_ Hlive].
  destruct (forallb (authoritative _ _ _ _ _) ts && _) eqn:Hall; intros [<- _]%pair_equal_spec.
  - apply andb_true_iff in Hall as [Hall _]. rewrite (retire_lost_none now run_id run_shard worker db ts db Hall eq_refl).
    destruct (distinct_transitions_spec ts []) as [Hnd Hsub].
    apply apply_transitions_micros; [done|]. intros t [Hin _]%Hsub.
    eapply finalize_applicable; [done| |exact Hlive|].
    + apply list_elem_of_fmap. eauto.
    + rewrite forallb_forall in Hall. by apply Hall, list_elem_of_In.
  - apply (retire_lost_micros None now run_id run_shard worker db ts db). eauto.
Qed.

End refinement.
