(* ===== verification/ShardWorld.v ===== *)
(** * Interleavings of workers, coordinators and cancellation

    A [World] is an execution database, its clock, the lease tokens generated
    so far and every chunk handle a worker ever received.  [step] has one
    constructor per transaction of the workers (claims, heartbeats, attempts,
    results, completion), the coordinators (dispatch, recovery, aggregation) and
    cancellation, and one for the writes of local admission.  What other parts
    write to an execution database is not a step here: the seeding of chunks is
    modelled by [LocalSeed] and [RunAdmission], the reset and the page upserts on
    the target of a shard move by [MoveTables] and [ShardMove].  So a world is the
    database of shards that are seeded and not the target of a move, and "later
    transaction" below means a later step of this relation.  Handles are used
    arbitrarily late, so a constructor that takes a handle models the zombie worker as well
    as the live one.  A transaction that fails rolls back and is no step,
    except finalization, which commits the retirement of lost attempts.  The
    theorems hold in every state reachable from a freshly planned database. *)

From Stdlib Require Import ZArith Lia.
From stdpp Require Import base strings numbers gmap sorting relations option list.
From S2P Require Import Prelude Float64 BTree Text Json RunTypes ProfileValidation EvaluationPlan AgentClient.
From S2P Require Import ShardTables LocalAdmission ReceiptGates Settlement ChunkLease ExecutionAttempts ShardSummary.
From S2P Require Import ShardMachine ShardRecount ShardRefinement.

Open Scope Z_scope.

Record World := mkWorld {
  w_db : Database;
  w_now : Z;
  w_issued : gset Uuid;
  w_handles : list DbRunChunk
}.

Section machine.

(** [defaults.max_attempts] of the profile pinned by each run. *)
Variable budget : Uuid -> Z.
Context {RF : ReceiptFunctions} {SF : SummaryFunctions}.

(** The serializers and constraint checks [ExecutionAttempts] abstracts. *)
Variable bindings_value : list EvaluatorBinding -> Value.
Variable normalization_value : NormalizationPolicy -> Value.

Variable failure_value : Failure -> Value.
Variable uuid_text : Uuid -> string.

(** A transaction that issues no token and returns no handle. *)
Definition commit (w : World) (db : Database) : World := mkWorld db (w_now w) (w_issued w) (w_handles w).

(** A claim that generated [token]. *)
Definition claimed (w : World) (token : Uuid) (db : Database) (h : option DbRunChunk) : World :=
  mkWorld db (w_now w) ({[token]} ∪ w_issued w) (option_list h ++ w_handles w).

Inductive step (w : World) : World -> Prop :=
| s_tick now' :
    w_now w <= now' -> step w (mkWorld (w_db w) now' (w_issued w) (w_handles w))
| s_admission write db' :
    apply_write (w_db w) (w_now w, write) = Ok db' -> step w (commit w db')
| s_claim_routed token placement current run_id run_shard chunk_id secs db' h :
    token ∉ w_issued w ->
    claim_routed_chunk_for_processing (w_db w) (w_now w) token placement current run_id run_shard chunk_id secs
    = inr (db', h) -> step w (claimed w token db' h)
| s_claim_hinted token hint chunk_id secs db' h :
    token ∉ w_issued w ->
    claim_hinted_chunk_for_processing (w_db w) (w_now w) token hint chunk_id secs = inr (db', h) ->
    step w (claimed w token db' h)
| s_extend h secs db' h' :
    h ∈ w_handles w -> extend_chunk_lease (w_db w) (w_now w) h secs = Ok (db', h') ->
    step w (mkWorld db' (w_now w) (w_issued w) (option_list h' ++ w_handles w))
| s_release h db' n :
    h ∈ w_handles w -> release_chunk_as_pending (w_db w) (w_now w) h = Ok (db', n) -> step w (commit w db')
| s_complete h db' n :
    h ∈ w_handles w -> mark_chunk_completed_and_settle (w_db w) (w_now w) h = Ok (db', n) -> step w (commit w db')
| s_fail h db' n :
    h ∈ w_handles w -> mark_chunk_failed_and_settle (w_db w) (w_now w) h = Ok (db', n) -> step w (commit w db')
| s_allocate h lease profile cases plans fresh_execution fresh_attempt db' allocations :
    h ∈ w_handles w -> rd_max_attempts (rp_defaults profile) = budget (wc_run_id h) ->
    allocate_execution_attempts_for_cases bindings_value normalization_value (w_db w) (w_now w) h lease profile
      cases plans fresh_execution fresh_attempt = Ok (db', allocations) -> step w (commit w db')
| s_persist h worker completed db' stats :
    h ∈ w_handles w ->
    persist_completed_execution_results_batch (w_db w) (w_now w) h worker completed = Ok (db', stats) ->
    step w (commit w db')
| s_heartbeat run_id run_shard chunk_id worker secs db' n :
    heartbeat_running_attempts_for_chunk (w_db w) (w_now w) run_id run_shard chunk_id worker secs = Ok (db', n) ->
    step w (commit w db')
| s_finalize run_id run_shard worker max_attempts transitions db' outcome :
    finalize_execution_terminal_transitions failure_value uuid_text (w_db w) (w_now w) run_id run_shard worker
      max_attempts transitions = (db', outcome) -> step w (commit w db')
| s_recover max_recoveries batch_size try_lock locked db' n m :
    recover_expired_chunk_leases (w_db w) (w_now w) max_recoveries batch_size try_lock locked = Ok (db', n, m) ->
    step w (commit w db')
| s_cancel run_id run_shards db' counts :
    cancel_execution_target_with_transaction (w_db w) (w_now w) run_id run_shards = Ok (db', counts) ->
    step w (commit w db')
| s_dispatch window run_id run_shard alias epoch snapshot_run snapshot_shard context db' counts status :
    dispatch_routed_run_window (w_db w) (w_now w) window run_id run_shard alias epoch snapshot_run snapshot_shard context
    = Ok (db', counts, status) -> step w (commit w db')
| s_aggregate run_id run_shard epoch claim_free db' outcome :
    advance_shard_summary_page (w_db w) (w_now w) run_id run_shard epoch claim_free = Ok (db', outcome) ->
    step w (commit w db')
| s_rotate run_id run_shard :
    step w (commit w (rotate_candidate (w_db w) (w_now w) run_id run_shard)).

(** ** Reachable worlds *)

(** What run planning leaves in an execution database: pending chunks and no
    execution, attempt, receipt or summary. *)
Record planned (w : World) : Prop := mkPlanned {
  pl_chunks : forall k c, db_chunks (w_db w) !! k = Some c -> ch_status c = ChPending /\ chunk_ok c = true;
  pl_executions : db_executions (w_db w) = ∅;
  pl_attempts : db_attempts (w_db w) = ∅;
  pl_settlements : db_settlements (w_db w) = ∅;
  pl_consumptions : db_consumptions (w_db w) = ∅;
  pl_summaries : db_summaries (w_db w) = ∅;
  pl_handles : w_handles w = []
}.

Definition reachable (w : World) : Prop := exists w0, planned w0 /\ rtc step w0 w.

(** The invariant of a world: the tables', and handles carry issued tokens,
    one claim per token. *)
Record world_ok (w : World) : Prop := mkWorldOk {
  wo_inv : inv budget (w_db w);
  wo_accounts : accounts (w_db w);
  wo_recounts : recounts (w_db w);
  wo_issued : forall h, h ∈ w_handles w -> exists t, wc_lease_token h = Some t /\ t ∈ w_issued w;
  wo_claim : forall h h', h ∈ w_handles w -> h' ∈ w_handles w -> wc_lease_token h = wc_lease_token h' ->
    wc_key h = wc_key h' /\ wc_write_epoch h = wc_write_epoch h'
}.

Lemma planned_ok w : planned w -> world_ok w.
Proof.
  intros [H1 H2 H3 H4 H5 H7 H6]. constructor.
  - constructor; rewrite ?H2, ?H3, ?H4, ?H5; try (intros; done).
    + intros k c Hk. by destruct (H1 k c Hk).
    + intros k. rewrite !lookup_empty. split; by intros [? [=]].
  - constructor; [intros k row|]; rewrite ?H7, ?H4; done.
  - by apply recounts_empty.
  - rewrite H6. intros h Hh. by apply not_elem_of_nil in Hh.
  - rewrite H6. intros h h' Hh. by apply not_elem_of_nil in Hh.
Qed.

(** ** Steps refine micro-steps *)

(** What a step does to the handles. *)
Definition handles_move (fresh : option Uuid) (w w' : World) : Prop :=
  forall h, h ∈ w_handles w' ->
    (exists h0, h0 ∈ w_handles w /\ wc_key h = wc_key h0 /\ wc_write_epoch h = wc_write_epoch h0 /\
       wc_lease_token h = wc_lease_token h0) \/
    (fresh <> None /\ wc_lease_token h = fresh /\
     forall h', h' ∈ w_handles w' -> wc_lease_token h' = fresh -> h' ∈ w_handles w \/ h' = h).

Lemma claimed_handles w token db h :
  (forall x, h = Some x -> wc_lease_token x = Some token) -> handles_move (Some token) w (claimed w token db h).
Proof.
  intros Hx h0 Hin. destruct h as [x|]; simpl in *; [|left; eauto 6].
  apply elem_of_cons in Hin as [->|Hin]; [right|left; eauto 6].
  split_and!; [done|by apply Hx|]. intros h' Hin' _. apply elem_of_cons in Hin' as [->|]; auto.
Qed.

Lemma commit_handles w db : handles_move None w (commit w db).
Proof. intros h Hin. left. eauto 6. Qed.

Lemma claim_routed_micros db now token placement current run_id run_shard chunk_id secs db' h :
  claim_routed_chunk_for_processing db now token placement current run_id run_shard chunk_id secs = inr (db', h) ->
  micros budget (Some token) now db db' /\ (forall x, h = Some x -> wc_lease_token x = Some token).
Proof.
  unfold claim_routed_chunk_for_processing. destruct (begin_execution_admission _ _ _ _) as [|d1] eqn:E; [done|].
  destruct (claim_chunk_for_processing_in_transaction _ _ _ _ _ _ _) as [d2 c] eqn:Ec. intros [= <- <-].
  apply (claim_micros budget) in Ec as [Hm Hh]. split.
  - etransitivity; [by eapply begin_admission_micros|done].
  - intros x Hx. destruct c as [y|]; [|done]. injection Hx as <-. by destruct (Hh y eq_refl) as (_ & Ht & _).
Qed.

Lemma claim_hinted_micros db now token hint chunk_id secs db' h :
  claim_hinted_chunk_for_processing db now token hint chunk_id secs = inr (db', h) ->
  micros budget (Some token) now db db' /\ (forall x, h = Some x -> wc_lease_token x = Some token).
Proof.
  unfold claim_hinted_chunk_for_processing. destruct (begin_execution_write_admission _ _) as [|d1] eqn:E; [done|].
  apply begin_write_admission_step in E as ->.
  destruct (claim_chunk_for_processing_in_transaction _ _ _ _ _ _ _) as [d2 c] eqn:Ec. intros [= <- <-].
  apply (claim_micros budget) in Ec as [Hm Hh]. split; [done|].
  intros x Hx. destruct c as [y|]; [|done]. injection Hx as <-. by destruct (Hh y eq_refl) as (_ & Ht & _).
Qed.

Lemma aggregate_micros db now run_id run_shard epoch claim_free db' o :
  inv budget db -> accounts db ->
  advance_shard_summary_page db now run_id run_shard epoch claim_free = Ok (db', o) -> micros budget None now db db'.
Proof.
  intros I A H. apply advance_page_Ok in H as (Hf & Hok & _).
  - by apply micros_one, m_page.
  - intros k c Hc. pose proof (inv_chunks _ _ I k c Hc) as Hok. unfold chunk_ok in Hok. lia.
  - apply A.
Qed.

Lemma rotate_micros db now run_id run_shard : micros budget None now db (rotate_candidate db now run_id run_shard).
Proof.
  unfold rotate_candidate. apply micros_one, m_page.
  - constructor; try done. simpl. intros k row Hk Hs. rewrite lookup_update_where, Hk. simpl.
    by rewrite Hs, andb_false_r.
  - intros Hok k row Hk. simpl in Hk. apply update_where_Some in Hk as (row0 & Hk0 & ->).
    apply (row_ok_mono db); [done|done|]. specialize (Hok k row0 Hk0). by destruct (_ && _).
Qed.

(** Every step is a sequence of micro-steps, under a token nobody holds. *)
Lemma step_micros w w' :
  step w w' -> inv budget (w_db w) -> accounts (w_db w) ->
  exists fresh, micros budget fresh (w_now w) (w_db w) (w_db w') /\ w_now w <= w_now w' /\
    w_issued w ⊆ w_issued w' /\ (forall t, fresh = Some t -> t ∉ w_issued w /\ t ∈ w_issued w') /\
    handles_move fresh w w'.
Proof.
  intros Hs I A.
  assert (Hcommit : forall d, micros budget None (w_now w) (w_db w) d ->
    exists fresh, micros budget fresh (w_now w) (w_db w) d /\ w_now w <= w_now w /\
      w_issued w ⊆ w_issued w /\ (forall t, fresh = Some t -> t ∉ w_issued w /\ t ∈ w_issued w) /\
      handles_move fresh w (commit w d)).
  { intros d Hd. exists None. split_and!; try done. apply commit_handles. }
  assert (Hclaimed : forall token d h, token ∉ w_issued w -> micros budget (Some token) (w_now w) (w_db w) d ->
    (forall x, h = Some x -> wc_lease_token x = Some token) ->
    exists fresh, micros budget fresh (w_now w) (w_db w) d /\ w_now w <= w_now w /\
      w_issued w ⊆ {[token]} ∪ w_issued w /\
      (forall t, fresh = Some t -> t ∉ w_issued w /\ t ∈ ({[token]} ∪ w_issued w)) /\
      handles_move fresh w (claimed w token d h)).
  { intros token d h Hn Hm Hh. exists (Some token).
    split_and!; [done|lia|set_solver|intros ? [= <-]; set_solver|by apply claimed_handles]. }
  destruct Hs; try (apply Hcommit; eauto using release_micros, allocate_micros, persist_micros, heartbeat_micros,
    finalize_micros, recover_micros, cancel_micros, dispatch_micros).
  - exists None. split_and!; try done. intros h Hin. left. eauto 6.
  - apply micros_one, m_admission. by eapply apply_write_step.
  - edestruct claim_routed_micros; [eassumption|]. by apply Hclaimed.
  - edestruct claim_hinted_micros; [eassumption|]. by apply Hclaimed.
  - eapply (extend_micros budget) in H0 as [Hm Hh]. exists None. split_and!; try done.
    intros x Hx. left. simpl in Hx. apply elem_of_app in Hx as [Hx|Hx]; [|eauto 6].
    destruct h' as [y|]; [|by apply not_elem_of_nil in Hx]. apply list_elem_of_singleton in Hx as ->.
    destruct (Hh y eq_refl) as (? & ? & ?). eauto 6.
  - by eapply (mark_and_settle_micros budget ChCompleted).
  - by eapply (mark_and_settle_micros budget ChFailed).
  - eapply allocate_micros; [|eassumption]. lia.
  - eapply aggregate_micros; eassumption.
  - apply rotate_micros.
Qed.

Lemma step_ok w w' : step w w' -> world_ok w -> world_ok w'.
Proof.
  intros Hs [I A R H2 H3]. destruct (step_micros _ _ Hs I A) as (fresh & Hm & _ & Hiss & Hf & Hh). constructor.
  - by eapply inv_micros.
  - by eapply accounts_micros.
  - by eapply recounts_micros.
  - intros h Hin. destruct (Hh h Hin) as [(h0 & Hin0 & _ & _ & ->)|(Hne & -> & _)].
    + destruct (H2 h0 Hin0) as (t & Ht & Hti). exists t. split; [done|set_solver].
    + destruct fresh as [t|]; [|done]. exists t. split; [done|by apply Hf].
  - assert (Hold : forall h0, h0 ∈ w_handles w -> fresh <> None -> wc_lease_token h0 <> fresh).
    { intros h0 Hin0 Hne Heq. destruct (H2 h0 Hin0) as (t & Ht & Hti). rewrite Ht in Heq.
      by destruct (Hf t (eq_sym Heq)) as [Hn _]. }
    intros h h' Hin Hin' Heq.
    destruct (Hh h Hin) as [(h0 & Hin0 & K & E & T)|(Hne & T & Hu)];
      destruct (Hh h' Hin') as [(h0' & Hin0' & K' & E' & T')|(Hne' & T' & Hu')].
    + destruct (H3 h0 h0' Hin0 Hin0') as [? ?]; [congruence|]. split; congruence.
    + exfalso. eapply Hold; [exact Hin0|done|congruence].
    + exfalso. eapply Hold; [exact Hin0'|done|congruence].
    + destruct (Hu h' Hin') as [Hw| ->]; [congruence| |done]. exfalso. by eapply Hold.
Qed.

Lemma steps_ok w w' : rtc step w w' -> world_ok w -> world_ok w'.
Proof. induction 1; eauto using step_ok. Qed.

Lemma reachable_ok w : reachable w -> world_ok w.
Proof. intros (w0 & H0 & Hs). by eapply steps_ok, planned_ok. Qed.

Lemma steps_keep w w' : rtc step w w' -> world_ok w -> keeps (w_db w) (w_db w').
Proof.
  induction 1 as [|x y z Hxy _ IH]; intros Hok; [reflexivity|].
  transitivity (w_db y); [|by eapply IH, step_ok].
  destruct (step_micros _ _ Hxy (wo_inv _ Hok) (wo_accounts _ Hok)) as (fresh & Hm & _). eapply keeps_micros; [exact Hm|apply Hok].
Qed.

(** A lease held later under a token already issued was held before. *)
Lemma steps_held w w' token key :
  rtc step w w' -> world_ok w -> token ∈ w_issued w ->
  held token (w_now w') (w_db w') key -> held token (w_now w) (w_db w) key.
Proof.
  induction 1 as [|x y z Hxy _ IH]; intros Hok Hiss Hheld; [done|].
  destruct (step_micros _ _ Hxy (wo_inv _ Hok) (wo_accounts _ Hok)) as (fresh & Hm & Hle & Hsub & Hf & _).
  assert (Hy : held token (w_now y) (w_db y) key) by (apply IH; [by eapply step_ok|set_solver|done]).
  eapply held_micros; [exact Hm| |by eapply held_earlier].
  intros ->. by destruct (Hf token eq_refl).
Qed.

(** ** Theorems *)

(** The handle lost its lease: its token no longer holds an unexpired lease on
    the chunk, or the shard moved to a later write epoch. *)
Definition fenced (w : World) (h : DbRunChunk) : Prop :=
  (forall token, wc_lease_token h = Some token -> ~ held token (w_now w) (w_db w) (wc_key h)) \/
  (exists a, db_admissions (w_db w) !! (wc_key h).1 = Some a /\ wc_write_epoch h < ad_write_epoch a).

Lemma fenced_steps w w' h :
  rtc step w w' -> world_ok w -> h ∈ w_handles w -> fenced w h -> fenced w' h.
Proof.
  intros Hs Hok Hin [Hf|(a & Ha & Hlt)].
  - left. intros token Ht Hheld. destruct (wo_issued _ Hok h Hin) as (t & Ht' & Hiss).
    assert (t = token) as -> by congruence. eapply Hf; [done|]. by eapply steps_held.
  - right. destruct (kp_authority _ _ (steps_keep _ _ Hs Hok) _ _ Ha) as (a' & Ha' & Hle).
    exists a'. split; [done|lia].
Qed.

Lemma fenced_guard w h token c :
  fenced w h -> wc_lease_token h = Some token -> db_chunks (w_db w) !! wc_key h = Some c ->
  lease_guard (w_db w) (w_now w) token (wc_write_epoch h) (wc_key h) c = false.
Proof.
  intros Hf Ht Hc. apply Bool.not_true_iff_false. intros (Hst & Htok & (u & Hu & Hle) & Hset)%lease_guard_true.
  destruct Hf as [Hf|(a & Ha & Hlt)].
  - apply (Hf token Ht). by exists c, u.
  - unfold settles_under in Hset. rewrite Ha in Hset. simpl in Hset.
    apply andb_true_iff in Hset as [He _]. lia.
Qed.

(** An update of the handle's chunk behind the lease guard. *)
Lemma fenced_update w h token guard f :
  fenced w h -> wc_lease_token h = Some token ->
  (forall c, guard c = true -> lease_guard (w_db w) (w_now w) token (wc_write_epoch h) (wc_key h) c = true) ->
  update_chunk (w_db w) (wc_key h) guard f = (w_db w, None).
Proof.
  intros Hf Ht Hg. unfold update_chunk. destruct (db_chunks (w_db w) !! wc_key h) as [c|] eqn:Hc; [|done].
  destruct (guard c) eqn:E; [|done]. apply Hg in E. by rewrite (fenced_guard w h token c) in E.
Qed.

Lemma fenced_mark w h token status :
  fenced w h -> wc_lease_token h = Some token ->
  mark_and_settle (mark_chunk status) (w_db w) (w_now w) h = Ok (w_db w, 0).
Proof.
  intros Hf Ht. unfold mark_and_settle, require_chunk_lease_token, mark_chunk. rewrite Ht. simpl.
  by rewrite (fenced_update w h token).
Qed.

Lemma fenced_lock w h token :
  fenced w h -> wc_lease_token h = Some token ->
  exists e, lock_live_chunk_lease (w_db w) (w_now w) h = Err e.
Proof.
  intros Hf Ht. unfold lock_live_chunk_lease. rewrite Ht. simpl.
  destruct (db_chunks (w_db w) !! wc_key h) as [c|] eqn:Hc; simpl; [|eauto].
  rewrite (fenced_guard w h token c) by done. simpl. eauto.
Qed.

(** C2: A worker that lost its lease is powerless for ever.  In every reachable
    world, once a handle's token no longer holds an unexpired lease on its
    chunk (the lease expired, was released, settled, recovered, cancelled or
    claimed again) or the shard moved on to a later write epoch, then after any
    further steps of any processes the handle still extends, releases,
    completes and fails nothing, leaving the database as it is, and neither
    allocates attempts nor persists results. *)
Theorem fenced_handle_powerless (w w' : World) (h : DbRunChunk) :
  reachable w -> h ∈ w_handles w -> fenced w h -> rtc step w w' ->
  fenced w' h /\
  (forall secs, extend_chunk_lease (w_db w') (w_now w') h secs = Ok (w_db w', None)) /\
  release_chunk_as_pending (w_db w') (w_now w') h = Ok (w_db w', 0) /\
  mark_chunk_completed_and_settle (w_db w') (w_now w') h = Ok (w_db w', 0) /\
  mark_chunk_failed_and_settle (w_db w') (w_now w') h = Ok (w_db w', 0) /\
  (forall lease profile cases plans fe fa db' allocations, cases <> [] ->
     allocate_execution_attempts_for_cases bindings_value normalization_value (w_db w') (w_now w') h lease profile
       cases plans fe fa <> Ok (db', allocations)) /\
  (forall worker completed db' stats, completed <> [] ->
     persist_completed_execution_results_batch (w_db w') (w_now w') h worker completed <> Ok (db', stats)).
Proof.
  intros Hr Hin Hf Hs. apply reachable_ok in Hr. destruct (wo_issued _ Hr h Hin) as (token & Ht & _).
  assert (Hf' : fenced w' h) by (by eapply fenced_steps).
  destruct (fenced_lock w' h token Hf' Ht) as (e & Hlock). split_and!; [done|..].
  - intros secs. unfold extend_chunk_lease, require_chunk_lease_token. rewrite Ht. simpl.
    rewrite (fenced_update w' h token); [done..|]. by intros c [? _]%andb_true_iff.
  - unfold release_chunk_as_pending, require_chunk_lease_token. rewrite Ht. simpl.
    by rewrite (fenced_update w' h token).
  - by apply (fenced_mark w' h token).
  - by apply (fenced_mark w' h token).
  - intros lease profile cases plans fe fa db' allocations Hne H. unfold allocate_execution_attempts_for_cases in H.
    apply bind_Ok in H as ([max|] & Hb & H).
    + apply bind_Ok in H as (inputs & _ & H). rewrite Hlock in H. done.
    + unfold validate_attempt_allocation_batch in Hb. destruct cases as [|c cases]; [done|].
      destruct (zlen (c :: cases) =? 0) eqn:E; [unfold zlen in E; simpl in E; lia|].
      apply bind_Ok in Hb as ([] & _ & Hb). apply bind_Ok in Hb as ([] & _ & Hb). apply bind_Ok in Hb as ([] & _ & Hb).
      by destruct (i32_try_from _).
  - intros worker completed db' stats Hne H. unfold persist_completed_execution_results_batch in H.
    destruct completed; [done|]. by rewrite Hlock in H.
Qed.

(** C31: Every world reachable from a planned database, under any interleaving of
    claims, heartbeats, releases, completions, recoveries, cancellations,
    dispatches, allocations, finalizations and admission writes, has consistent
    tables: chunk rows satisfy their constraints, receipts and consumption rows
    come in pairs and match a terminal chunk, each case has one execution, an
    execution's chunk exists, its current attempt exists and carries the
    current number, and attempt numbers are distinct; and a lease token belongs
    to one claim. *)
Theorem tables_stay_consistent (w w' : World) : planned w -> rtc step w w' -> world_ok w'.
Proof. intros Hp Hs. by eapply steps_ok, planned_ok. Qed.

(** A settled chunk is settled once and for all: whatever transactions
    follow, a terminal chunk keeps its status and range, its receipt stays the
    same row, and that receipt names the chunk's status and range and has its
    consumption row. *)
Theorem terminal_chunk_final (w w' : World) (k : row_key) (c : ChunkRow) :
  reachable w -> rtc step w w' -> db_chunks (w_db w) !! k = Some c -> chunk_terminal (ch_status c) = true ->
  exists c', db_chunks (w_db w') !! k = Some c' /\ ch_status c' = ch_status c /\
    ch_ordinal_start c' = ch_ordinal_start c /\ ch_ordinal_end c' = ch_ordinal_end c /\
    (forall row, db_settlements (w_db w) !! k = Some row -> db_settlements (w_db w') !! k = Some row) /\
    (forall row, db_settlements (w_db w') !! k = Some row ->
       st_disposition row = ch_status c /\ st_ordinal_start row = ch_ordinal_start c /\
       st_ordinal_end row = ch_ordinal_end c /\ is_Some (db_consumptions (w_db w') !! k)).
Proof.
  intros Hr Hs Hc Ht. apply reachable_ok in Hr. pose proof (steps_keep _ _ Hs Hr) as [K1 K2 _ _].
  destruct (K1 k c Hc) as (c' & Hc' & (R1 & R2 & _) & S). exists c'. split_and!; try done; [by apply S| |].
  - intros row Hrow. by eapply lookup_weaken.
  - intros row Hrow. pose proof (wo_inv _ (steps_ok _ _ Hs Hr)) as I.
    destruct (inv_settlements _ _ I k row Hrow) as (c2 & Hc2 & D & _ & D1 & D2).
    assert (c2 = c') as -> by congruence. rewrite <- D, <- D1, <- D2, S by done. split_and!; try done.
    apply (inv_consumptions _ _ I). eauto.
Qed.

(** C29: A finished execution is never reopened: a completed, failed, cancelled
    or timed-out execution keeps its status, its case and its chunk under every
    later step, and attempt numbers never decrease. *)
Theorem terminal_execution_final (w w' : World) (k : row_key) (e : ExecutionRow) :
  reachable w -> rtc step w w' -> db_executions (w_db w) !! k = Some e -> execution_open (ex_status e) = false ->
  exists e', db_executions (w_db w') !! k = Some e' /\ ex_status e' = ex_status e /\
    ex_case_id e' = ex_case_id e /\ ex_chunk_id e' = ex_chunk_id e /\
    ex_current_attempt_no e <= ex_current_attempt_no e'.
Proof.
  intros Hr Hs He Ho. apply reachable_ok in Hr.
  destruct (kp_executions _ _ (steps_keep _ _ Hs Hr) k e He) as (e' & He' & H1 & H2 & H3 & H4).
  exists e'. split_and!; auto.
Qed.

(** ** Sealed summaries *)

(** Two per-chunk quantities that agree sum alike. *)
Lemma sumz_related {A B} (P : A -> B -> Prop) (f : A -> Z) (g : B -> Z) l1 l2 :
  Forall2 P l1 l2 -> (forall a b, P a b -> f a = g b) -> sumz f l1 = sumz g l2.
Proof. induction 1; intros Hfg; simpl; [done|]. rewrite (Hfg _ _ H), IHForall2; done. Qed.

Lemma sumz_add {A} (f g h : A -> Z) l :
  Forall (fun a => f a = g a + h a) l -> sumz f l = sumz g l + sumz h l.
Proof. induction 1; simpl; lia. Qed.

Lemma sumz_outcomes rs :
  Forall (fun r => rs_execution_count r = rs_passed_execution_count r + rs_failed_execution_count r
    + rs_errored_execution_count r + rs_skipped_execution_count r + rs_missing_aggregate_count r) rs ->
  sumz rs_execution_count rs = sumz rs_passed_execution_count rs + sumz rs_failed_execution_count rs
    + sumz rs_errored_execution_count rs + sumz rs_skipped_execution_count rs + sumz rs_missing_aggregate_count rs.
Proof. induction 1; simpl; lia. Qed.

(** The receipts behind a sealed row. *)
Lemma sealed_row w k row :
  world_ok w -> db_summaries (w_db w) !! k = Some row -> rs_sealed (su_summary row) = true ->
  exists st receipts f card e, Forall2 (receipt_rel (w_db w) k.1 k.2) (shard_chunks (w_db w) k.1 k.2) receipts /\
    Forall2 (fun c r => rs_expected_execution_count r = range_size c) (shard_chunks (w_db w) k.1 k.2) receipts /\
    Forall (fun r => exists d, receipt_balanced k.1 k.2 (rs_expected_execution_count r) d r) receipts /\
    foldM manifest_push default_manifest (shard_chunks (w_db w) k.1 k.2) = Ok (as_plan st) /\
    foldM (fold (as_policy_hash st)) (final_base k.1 k.2 e) receipts = Ok f /\
    su_summary row = set_plan (set_scorecard (seal f) card) (mn_chunk_count (as_plan st)) (mn_hash (as_plan st)).
Proof.
  intros Hok Hk Hs. destruct (wo_accounts _ Hok) as [A1 A2]. destruct (A1 k row Hk) as [_ Hrow].
  destruct (su_aggregation_state row) as [st|]; [|congruence].
  destruct Hrow as (done & rest & rs & [K1 K2 K3 K4 K5] & Hseal).
  destruct (Hseal Hs) as (-> & Hplan & f & card & Hf & Hsum). rewrite app_nil_r in K1. rewrite Hf in K5.
  destruct K5 as [e He]. rewrite K1. exists st, rs, f, card, e. split_and!; try done; [|by rewrite <- Hplan].
  clear -A2 K3. induction K3 as [|c r l rs (row & Hr & <-) _ IH]; constructor; [|done].
  destruct (A2 _ _ Hr). eexists. by constructor.
Qed.

(** The account a sealed row gives of its receipts. *)
Lemma sealed_account w k row :
  world_ok w -> db_summaries (w_db w) !! k = Some row -> rs_sealed (su_summary row) = true ->
  let s := su_summary row in
  let chunks := shard_chunks (w_db w) k.1 k.2 in
  exists receipts plan,
    Forall2 (receipt_rel (w_db w) k.1 k.2) chunks receipts /\
    Forall2 (fun c r => rs_expected_execution_count r = range_size c) chunks receipts /\
    Forall (fun r => exists d, receipt_balanced k.1 k.2 (rs_expected_execution_count r) d r) receipts /\
    Forall (fun field => field s = sumz field receipts /\ Forall (fun r => 0 <= field r) receipts) counter_fields /\
    foldM manifest_push default_manifest chunks = Ok plan /\
    rs_planned_chunk_hash s = mn_hash plan /\ rs_planned_chunk_count s = zlen chunks /\
    rs_settled_chunk_count s = zlen chunks /\
    (rs_status s = "completed" -> rs_failed_execution_count s <= 0 /\ rs_errored_execution_count s <= 0 /\
       rs_missing_execution_count s <= 0 /\ rs_unresolved_execution_count s <= 0).
Proof.
  intros Hok Hk Hs s chunks.
  destruct (sealed_row w k row Hok Hk Hs) as (st & rs & f & card & e & H1 & H2 & H3 & H4 & H5 & Hsum).
  fold chunks in H1, H2, H4. apply folds_Ok in H5 as (Hc & Hset & _ & _ & _ & _).
  assert (Hlen : length rs = length chunks) by (symmetry; by eapply Forall2_length).
  destruct (manifest_fold _ _ H4) as (_ & Hcount & _). exists rs, (as_plan st). split_and!; try done.
  { unfold s. rewrite Hsum. unfold counter_fields in *. rewrite !Forall_cons in *. simpl in *. destruct_and! Hc.
    split_and!; done || apply Forall_nil_2. }
  all: unfold s; rewrite Hsum; simpl; try done.
  - rewrite Hset. simpl. unfold zlen. lia.
  - destruct (_ || _) eqn:E; [done|]. intros _. rewrite !orb_false_iff, !Z.ltb_ge in E. lia.
Qed.

(** C4: A sealed shard summary is the exact account of its shard, for ever.  In
    every reachable world, whatever pages built it and whatever receipts arrived
    between them, a sealed summary's chunks hash to its plan, every chunk of the
    shard has its receipt, each counter is the sum of the receipts, the planned
    cases split into executions and missing ones and the executions into passed,
    failed, errored, skipped and unscored, a completed summary means every
    planned case passed or was skipped, and no later step changes the row. *)
Theorem sealed_summary_exact (w w' : World) (k : shard_key) (row : SummaryRow) :
  reachable w -> rtc step w w' -> db_summaries (w_db w) !! k = Some row -> rs_sealed (su_summary row) = true ->
  let s := su_summary row in
  let chunks := shard_chunks (w_db w) k.1 k.2 in
  db_summaries (w_db w') !! k = Some row /\
  (exists receipts plan,
     Forall2 (receipt_rel (w_db w) k.1 k.2) chunks receipts /\
     Forall (fun field => field s = sumz field receipts) counter_fields /\
     foldM manifest_push default_manifest chunks = Ok plan /\
     rs_planned_chunk_hash s = mn_hash plan /\ rs_planned_chunk_count s = zlen chunks /\
     rs_settled_chunk_count s = zlen chunks) /\
  sumz range_size chunks = rs_execution_count s + rs_missing_execution_count s /\
  rs_execution_count s = rs_passed_execution_count s + rs_failed_execution_count s
    + rs_errored_execution_count s + rs_skipped_execution_count s + rs_missing_aggregate_count s /\
  (rs_status s = "completed" ->
   sumz range_size chunks = rs_passed_execution_count s + rs_skipped_execution_count s).
Proof.
  intros Hr Hsteps Hk Hs s chunks. apply reachable_ok in Hr.
  destruct (sealed_account w k row Hr Hk Hs) as (rs & plan & H1 & H2 & H3 & Hfields & H4 & Hhash & Hpc & Hset & Hstat).
  fold s chunks in H1, H2, Hfields, H4, Hhash, Hpc, Hset, Hstat.
  assert (Hcases : sumz range_size chunks = sumz rs_expected_execution_count rs)
    by (eapply sumz_related; [exact H2|]; intros a b Hab; by rewrite Hab).
  assert (Hplanned := sumz_add rs_expected_execution_count rs_execution_count rs_missing_execution_count rs
    (Forall_impl _ _ _ H3 (fun r '(ex_intro _ d H) => rb_planned _ _ _ _ _ H))).
  assert (Hout := sumz_outcomes rs (Forall_impl _ _ _ H3 (fun r '(ex_intro _ d H) => rb_outcomes _ _ _ _ _ H))).
  assert (Hunres : sumz rs_unresolved_execution_count rs = sumz rs_missing_aggregate_count rs).
  { clear -H3. induction H3 as [|r rs [d Hb] _ IH]; simpl; [done|]. rewrite IH, (rb_unresolved _ _ _ _ _ Hb). done. }
  pose proof Hfields as Hf. unfold counter_fields in Hf. rewrite !Forall_cons in Hf.
  destruct Hf as ([E1 _] & _ & _ & [E2 _] & [E3 P3] & [E4 P4] & [E5 _] & [E6 _] & _ & _ & _ & _ & _ & [E9 P9] & [E10 P10] & _).
  apply sumz_nonneg in P3, P4, P9, P10.
  split_and!; [by apply (kp_sealed _ _ (steps_keep _ _ Hsteps Hr))| |lia|lia|].
  - exists rs, plan. split_and!; try done. eapply Forall_impl; [exact Hfields|]. by intros g [Hg _].
  - intros Hst. apply Hstat in Hst. lia.
Qed.

(** ** The attempt budget *)

(** Distinct numbers between one and [n] bound the number of rows. *)
Lemma count_by_number {R} (p : row_key -> R -> bool) (number : R -> Z) (n : Z) (t : gmap row_key R) :
  (forall k r, t !! k = Some r -> p k r = true -> 1 <= number r <= n) ->
  (forall k k' r r', t !! k = Some r -> t !! k' = Some r' -> p k r = true -> p k' r' = true ->
     number r = number r' -> k = k') ->
  count_where p t <= Z.max 0 n.
Proof.
  intros Hrange Hinj. unfold count_where. rewrite <- length_map_to_list.
  rewrite <- (length_fmap (fun kr : row_key * R => number kr.2)).
  assert (Hsub : (fun kr : row_key * R => number kr.2) <$> map_to_list (rows_where p t) ⊆+ seqZ 1 n).
  { apply NoDup_submseteq.
    - apply NoDup_fmap_2_strong; [|apply NoDup_map_to_list].
      intros [k r] [k' r'] H H' Heq. rewrite elem_of_map_to_list, lookup_rows_where in H, H'. simpl in Heq.
      destruct H, H'. assert (k = k') as -> by (by eapply Hinj). f_equal. congruence.
    - intros x ([k r] & -> & H)%list_elem_of_fmap. rewrite elem_of_map_to_list, lookup_rows_where in H.
      destruct H as [H Hp]. specialize (Hrange k r H Hp). simpl. apply elem_of_seqZ. lia. }
  apply submseteq_length in Hsub. rewrite length_seqZ in Hsub. lia.
Qed.

(** C3: The attempt budget holds under every interleaving: an execution never
    has more attempts than the pinned profile's maximum, and at most one of
    them is running, which is the execution's current attempt and carries its
    current number. *)
Theorem attempts_within_budget (w : World) (k : row_key) (e : ExecutionRow) :
  reachable w -> db_executions (w_db w) !! k = Some e ->
  count_where (attempt_of k) (db_attempts (w_db w)) <= Z.max 0 (budget k.1.1) /\
  count_where (fun ka a => attempt_of k ka a && bool_decide (at_status a = AtRunning)) (db_attempts (w_db w)) <= 1 /\
  (forall ka a, db_attempts (w_db w) !! ka = Some a -> attempt_of k ka a = true -> at_status a = AtRunning ->
     ex_current_attempt_id e = Some ka.2 /\ at_attempt_no a = ex_current_attempt_no e).
Proof.
  intros Hr He. pose proof (wo_inv _ (reachable_ok _ Hr)) as I.
  destruct (inv_execution _ _ I k e He) as (_ & _ & Hb).
  assert (Hof : forall ka a, db_attempts (w_db w) !! ka = Some a -> attempt_of k ka a = true ->
    ka.1 = k.1 /\ at_execution_id a = k.2 /\ 1 <= at_attempt_no a <= ex_current_attempt_no e /\
    (at_status a = AtRunning -> ex_current_attempt_id e = Some ka.2)).
  { intros ka a Ha Hof. unfold attempt_of in Hof. rewrite andb_true_iff, bool_decide_eq_true, Z.eqb_eq in Hof.
    destruct Hof as [H1 H2]. destruct (inv_attempt _ _ I ka a Ha) as (e' & He' & Hn & _ & Hc).
    rewrite H1, H2 in He'. destruct k as [k1 k2]. simpl in *. assert (e' = e) as -> by congruence.
    split_and!; done || lia. }
  assert (Hcur : forall ka a, db_attempts (w_db w) !! ka = Some a -> attempt_of k ka a = true ->
    at_status a = AtRunning -> ex_current_attempt_id e = Some ka.2 /\ at_attempt_no a = ex_current_attempt_no e).
  { intros ka a Ha H Hrun. destruct (Hof ka a Ha H) as (H1 & H2 & _ & H3). specialize (H3 Hrun).
    destruct (inv_current _ _ I k e ka.2 He H3) as (a' & Ha' & _ & Hno).
    rewrite <- H1 in Ha'. destruct ka as [k1 k2]. simpl in *. split; congruence. }
  assert (Hinj : forall ka kb a b, db_attempts (w_db w) !! ka = Some a -> db_attempts (w_db w) !! kb = Some b ->
    attempt_of k ka a = true -> attempt_of k kb b = true -> at_attempt_no a = at_attempt_no b -> ka = kb).
  { intros ka kb a b Ha Hb' H H' Hno. destruct (Hof ka a Ha H) as (H1 & H2 & _), (Hof kb b Hb' H') as (H3 & H4 & _).
    eapply (inv_numbers _ _ I ka kb a b); congruence. }
  split_and!; [| |done].
  - apply (count_by_number _ at_attempt_no); [|done].
    intros ka a Ha H. destruct (Hof ka a Ha H) as (_ & _ & ? & _). lia.
  - apply (count_by_number _ (fun _ => 1) 1); [lia|]. intros ka kb a b Ha Hb' H H' _.
    rewrite andb_true_iff, bool_decide_eq_true in H, H'. destruct H as [H Hra], H' as [H' Hrb].
    destruct (Hcur ka a Ha H Hra) as [_ Hna], (Hcur kb b Hb' H' Hrb) as [_ Hnb].
    eapply Hinj; eauto; congruence.
Qed.

End machine.

(** ** Progress *)

(** A claimable chunk can be worked on: when the local admission admits new
    work for the hint, the shard has its snapshot and the chunk is pending or
    its lease has expired, the claim returns a handle under the new token, and
    until the granted deadline that handle passes the lease lock of allocation
    and persistence, can be extended, and can be released. *)
Theorem claim_gives_live_lease (db : Database) (now token chunk_id secs : Z) (hint : LocalShardRouteHint)
    (a : AdmissionRow) (c : ChunkRow) :
  let shard := (hi_run_id hint, hi_run_shard hint) in
  validate_local_shard_admission db hint NewWork = inr a ->
  db_chunks db !! (shard, chunk_id) = Some c -> ch_status c = ChPending \/ lease_expired now c = true ->
  is_Some (db_snapshots db !! shard) ->
  exists db' h, claim_hinted_chunk_for_processing db now token hint chunk_id secs = inr (db', Some h) /\
    wc_key h = (shard, chunk_id) /\ wc_lease_token h = Some token /\ wc_write_epoch h = hi_write_epoch hint /\
    forall now', now' <= now + secs * second ->
      lock_live_chunk_lease db' now' h = Ok tt /\
      (forall secs', exists db2 h2, extend_chunk_lease db' now' h secs' = Ok (db2, Some h2)) /\
      (exists db2, release_chunk_as_pending db' now' h = Ok (db2, 1)).
Proof.
  intros shard Hadm Hc Hst [sn Hsn].
  destruct (validate_admission_Ok _ _ _ _ Hadm) as (Ha & Hepoch & Hopen). simpl in Hopen. unfold shard in *.
  unfold claim_hinted_chunk_for_processing, begin_execution_write_admission. rewrite Hadm.
  unfold claim_chunk_for_processing_in_transaction, update_chunk. rewrite Hc.
  assert (Hg : claim_guard db now (hi_run_id hint, hi_run_shard hint, chunk_id) c = true).
  { unfold claim_guard. simpl. rewrite Hsn. rewrite andb_true_r, orb_true_iff, bool_decide_eq_true.
    destruct Hst as [->|Hexp]; [by left|right]. exact Hexp. }
  rewrite Hg. simpl. eexists _, _. split; [reflexivity|]. split_and!; try done.
  intros now' Hle.
  assert (Hlg : forall d, db_admissions d = db_admissions db ->
    lease_guard d now' token (hi_write_epoch hint) (hi_run_id hint, hi_run_shard hint, chunk_id)
      (set_lease ChLeased (Some token) (Some (now + secs * second)) now c) = true).
  { intros d Hd'. unfold lease_guard, settles_under. simpl. rewrite Hd', Ha. simpl.
    rewrite Hepoch, Z.eqb_refl. rewrite !bool_decide_true by done. simpl.
    destruct (ad_state a); try done; rewrite andb_true_r; lia. }
  unfold lock_live_chunk_lease, extend_chunk_lease, release_chunk_as_pending, require_chunk_lease_token, update_chunk,
    wc_key. simpl. rewrite lookup_insert_eq. simpl. rewrite Hlg by done. simpl. rewrite Hsn. simpl.
  split_and!; eauto.
Qed.

(** The pages of a sweep whose batch is large enough hold every match. *)
Lemma elem_of_full_page p n db k :
  count_where p (db_chunks db) <= n ->
  k ∈ map fst (expired_page p n db) <-> exists c, db_chunks db !! k = Some c /\ p k c = true.
Proof.
  intros Hn. split; [apply elem_of_expired_page|]. intros (c & Hc & Hp).
  apply list_elem_of_fmap. exists (k, c). split; [done|]. unfold expired_page. rewrite take_ge.
  - by rewrite merge_sort_Permutation, elem_of_map_to_list, lookup_rows_where.
  - rewrite merge_sort_Permutation, length_map_to_list. unfold count_where in Hn. lia.
Qed.

Lemma count_where_le {R} (p q : row_key -> R -> bool) (t t' : gmap row_key R) :
  (forall k r, t !! k = Some r -> p k r = true -> exists r', t' !! k = Some r' /\ q k r' = true) ->
  count_where p t <= count_where q t'.
Proof.
  intros H. unfold count_where. rewrite <- !(size_dom (D := gset row_key)). apply inj_le, subseteq_size.
  intros k. rewrite !elem_of_dom. intros [r [Hr Hp]%lookup_rows_where].
  destruct (H k r Hr Hp) as (r' & Hr' & Hq). exists r'. by apply lookup_rows_where.
Qed.

(** The event of a recovered row reaches the outbox. *)
Lemma recovery_events_fold db expired : forall outbox k c a,
  (k, c) ∈ expired -> db_admissions db !! k.1 = Some a -> allows_new_work (ad_state a) = true ->
  is_Some (fold_left (fun o kc => recovery_event db kc o) expired outbox
           !! (k.1.1, k.2, Some (ch_recovery_count c + 1))).
Proof.
  assert (Hmono : forall kc outbox key, is_Some (outbox !! key) -> is_Some (recovery_event db kc outbox !! key)).
  { intros [k c] outbox key H. unfold recovery_event. destruct (db_admissions db !! k.1) as [a|]; [|done].
    destruct (allows_new_work (ad_state a)); [|done]. destruct H as [r Hr]. eexists. by apply insert_new_mono. }
  assert (Hfold : forall l outbox key, is_Some (outbox !! key) ->
    is_Some (fold_left (fun o kc => recovery_event db kc o) l outbox !! key)).
  { induction l as [|kc l IH]; intros outbox key H; simpl; [done|]. by apply IH, Hmono. }
  induction expired as [|kc expired IH]; intros outbox k c a Hin Ha Hopen; [by apply not_elem_of_nil in Hin|].
  apply elem_of_cons in Hin as [<-|Hin]; simpl; [|by eapply IH].
  apply Hfold. unfold recovery_event. rewrite Ha, Hopen. destruct (insert_new_has (k.1.1, k.2, Some (ch_recovery_count c + 1)) (mkReadyEvent k.1.1 k.1.2 k.2 (ad_database_alias a) (ad_write_epoch a) (Some (ch_recovery_count c + 1))) outbox). by eexists.
Qed.

(** C32: A recovery sweep frees every expired lease it admits.  When its batch
    covers the expired rows, an expired chunk of an admitted shard that is open
    and has its snapshot, and whose row is not locked by another transaction, is
    pending again with its recovery counted and a new ready event in the outbox
    while its recovery budget lasts, and is failed, and handed to settlement,
    once it is exhausted. *)
Theorem recovery_sweep_progress (db db' : Database) (now max_recoveries batch_size recovered : Z)
    (admitted : list shard_key) (locked : row_key -> bool) (failed : list row_key)
    (k : row_key) (c : ChunkRow) (a : AdmissionRow) :
  recover_expired_chunks db now max_recoveries batch_size admitted locked = (db', recovered, failed) ->
  count_where (fun _ c => lease_expired now c) (db_chunks db) <= batch_size ->
  db_chunks db !! k = Some c -> lease_expired now c = true ->
  k.1 ∈ admitted -> locked k = false -> is_Some (db_snapshots db !! k.1) ->
  db_admissions db !! k.1 = Some a -> ad_state a = Open ->
  exists c', db_chunks db' !! k = Some c' /\ ch_lease_token c' = None /\ ch_leased_until c' = None /\
    if ch_recovery_count c <? max_recoveries
    then ch_status c' = ChPending /\ ch_recovery_count c' = ch_recovery_count c + 1 /\
         is_Some (db_outbox db' !! (k.1.1, k.2, Some (ch_recovery_count c + 1)))
    else ch_status c' = ChFailed /\ ch_recovery_count c' = ch_recovery_count c /\ k ∈ failed.
Proof.
  intros H Hn Hc Hexp Hadm Hlock [sn Hsn] Ha Hopen. unfold recover_expired_chunks in H.
  set (expired := expired_page (recoverable _ _ _ _ _) _ _) in H.
  set (chunks1 := update_where _ _ _) in H. set (db1 := stale_current_attempts _ _ _ "attempt lease expired with recovered chunk") in H.
  set (page := expired_page (exhausted db1 _ _ _ _) _ _) in H. injection H as <- _ <-.
  assert (Hcount : forall (p : row_key -> ChunkRow -> bool) (t : gmap row_key ChunkRow), (forall k c, t !! k = Some c -> p k c = true -> exists c0, db_chunks db !! k = Some c0 /\
      lease_expired now c0 = true) -> count_where p t <= batch_size).
  { intros p t Hp. etransitivity; [|exact Hn]. by apply count_where_le. }
  assert (Hrec : k ∈ map fst expired <-> (ch_recovery_count c <? max_recoveries) = true).
  { unfold expired. rewrite elem_of_full_page.
    - split.
      + intros (c0 & Hc0 & Hp). assert (c0 = c) as -> by congruence.
        unfold recoverable in Hp. rewrite !andb_true_iff in Hp. tauto.
      + intros Hlt. exists c. split; [done|]. unfold recoverable, admission_in. rewrite Ha. simpl.
        rewrite Hsn, Hexp, Hlt, Hlock, Hopen, bool_decide_true by done. done.
    - apply Hcount. intros k0 c0 Hk0 Hp. exists c0. unfold recoverable in Hp. rewrite !andb_true_iff in Hp. tauto. }
  assert (Hc1 : db_chunks db1 !! k = Some (if ch_recovery_count c <? max_recoveries then recover_chunk now c else c)).
  { simpl. unfold chunks1. rewrite lookup_update_where, Hc. simpl. f_equal.
    destruct (ch_recovery_count c <? max_recoveries); case_bool_decide as Hin; try done.
    - exfalso. apply Hin, Hrec. done.
    - apply Hrec in Hin. done. }
  assert (Hfail : k ∈ map fst page <-> (ch_recovery_count c <? max_recoveries) = false).
  { unfold page. rewrite elem_of_full_page.
    - rewrite Hc1. split.
      + intros (c0 & [= <-] & Hp). unfold exhausted in Hp. rewrite !andb_true_iff in Hp.
        destruct (ch_recovery_count c <? max_recoveries); [|done]. destruct Hp as [[[[_ Hp] _] _] _]. done.
      + intros Hlt. rewrite Hlt. exists c. split; [done|]. unfold exhausted, admission_in. simpl. rewrite Ha. simpl.
        rewrite Hsn, Hexp, Hlock, Hopen, bool_decide_true by done. simpl. rewrite andb_true_r, andb_true_r. lia.
    - apply Hcount. intros k0 c0 Hk0 Hp. simpl in Hk0. unfold chunks1 in Hk0.
      apply update_where_Some in Hk0 as (c1 & Hk1 & ->). exists c1. split; [done|].
      unfold exhausted in Hp. rewrite !andb_true_iff in Hp. destruct Hp as [[[[_ Hp] _] _] _]. by case_bool_decide. }
  change (db_chunks (stale_current_attempts ?d _ _ _)) with (db_chunks d).
  cbn [db_chunks with_chunks]. change (db_chunks db1) with chunks1 in Hc1. rewrite lookup_update_where, Hc1. cbn [fmap option_fmap option_map]. eexists. split; [done|].
  destruct (ch_recovery_count c <? max_recoveries) eqn:Hlt.
  - rewrite bool_decide_false by (intros Hin; by apply Hfail in Hin). split_and!; try done.
    assert (Hin : k ∈ map fst expired) by (by apply Hrec).
    apply list_elem_of_fmap in Hin as ([k0 c0] & -> & Hin). simpl.
    assert (c0 = c) as ->.
    { unfold expired, expired_page in Hin. apply elem_of_take in Hin as (i & Hi & _).
      apply list_elem_of_lookup_2 in Hi. rewrite merge_sort_Permutation, elem_of_map_to_list, lookup_rows_where in Hi.
      simpl in Hc. destruct Hi. congruence. }
    eapply (recovery_events_fold db expired); [exact Hin|exact Ha|by rewrite Hopen].
  - rewrite bool_decide_true by (by apply Hfail). split_and!; try done. by apply Hfail.
Qed.

(** ** A run of the machine *)

Module Scenario.

Definition budget (_ : Uuid) : Z := 3.
Definition hint : LocalShardRouteHint := mkLocalShardRouteHint 7 3 "a" 4.

(** A run whose plan has the single chunk of shard three. *)
Definition context : RunContext :=
  mkRunContext "run" 1 2 "v1" "p" "1" "pv" "ph" "a" "1" "policy" "http" "agent" None "pc" "1"
    (Object [("settlement_plan", Object [("shards", Object [("3", Null)]); ("version", Num (PosInt 1))])]).

Definition db0 : Database :=
  mkDatabase {[ 7 := context ]} {[ (7, 3, 40) := Sample.chunk ChPending None None ]} ∅ ∅ ∅ (mkEvidence ∅ ∅)
    {[ (7, 3) := mkAdmissionRow "a" 4 Open None None 0 ]} {[ (7, 3) := mkSnapshotRow context 3 ]} ∅ ∅ ∅ ∅.

Definition start : World := mkWorld db0 0 ∅ [].

(** The state a transaction of the scenario commits. *)
Definition or_else {A B} (db : Database) (r : A + (Database * B)) : Database :=
  match r with inr (d, _) => d | inl _ => db end.
Definition claimed_handle {A} (r : A + (Database * option DbRunChunk)) : option DbRunChunk :=
  match r with inr (_, h) => h | inl _ => None end.
Definition committed {B} (db : Database) (r : result (Database * B)) : Database :=
  match r with Ok (d, _) => d | Err _ => db end.

(** A worker claims the chunk for thirty seconds. *)
Definition first_claim := claim_hinted_chunk_for_processing db0 0 500 hint 40 30.
Definition working : World := claimed start 500 (or_else db0 first_claim) (claimed_handle first_claim).
Definition handle : DbRunChunk :=
  mkDbRunChunk 4 40 7 3 2 "g" 0 3 ChLeased (Some 500) (Some (30 * second)) 0 0.

(** It allocates one case, which fails for good, and settles the chunk. *)
Definition lease : AttemptLeaseContext := mkAttemptLeaseContext 90 None 91 None 60.
Definition case : WorkerCaseBatchItem :=
  mkWorkerCaseBatchItem 60 "h" 0 "task" None Null Null Null (Array []) Null.
Definition plan : CaseEvaluationPlan := mkCaseEvaluationPlan "g" [] (mkAggregationSettings []).
Definition allocation :=
  allocate_execution_attempts_for_cases (fun _ => Null) (fun _ => Null) (w_db working) 0 handle lease
    (sample_profile []) [case] [plan] (fun id => id + 1000) (fun id => id + 2000).
Definition attempted : World := commit working (committed (w_db working) allocation).
Definition transition : ExecutionTerminalTransition :=
  mkExecutionTerminalTransition 1060 3060 1 false (Some "refused") true
    (Some (failure_terminal Configuration "refused")).
Definition finalization :=
  finalize_execution_terminal_transitions (fun _ => Null) (fun _ => "id") (w_db attempted) 0 7 3 90 3 [transition].
Definition finished : World := commit attempted finalization.1.
Definition failing := mark_chunk_failed_and_settle (w_db finished) 0 handle.
Definition settled : World := commit finished (committed (w_db finished) failing).

(** A coordinator folds the receipt and seals the summary in two pages. *)
Definition first_page := advance_shard_summary_page (w_db settled) 0 7 3 4 true.
Definition folded : World := commit settled (committed (w_db settled) first_page).
Definition second_page := advance_shard_summary_page (w_db folded) 0 7 3 4 true.
Definition sealed : World := commit folded (committed (w_db folded) second_page).
Definition sealed_summary : option SummaryRow := db_summaries (w_db sealed) !! (7, 3).

(** Meanwhile the lease of a second worker's view runs out and the chunk is
    claimed again. *)
Definition expired : World := mkWorld (w_db working) (31 * second) (w_issued working) (w_handles working).
Definition second_claim := claim_hinted_chunk_for_processing (w_db expired) (31 * second) 501 hint 40 30.
Definition reclaimed : World := claimed expired 501 (or_else (w_db expired) second_claim) (claimed_handle second_claim).

(** A sweep after the first lease ran out. *)
Definition sweep := recover_expired_chunks (w_db expired) (31 * second) 5 10 [(7, 3)] (fun _ => false).

Notation step := (step budget (fun _ => Null) (fun _ => Null) (fun _ => Null) (fun _ => "id")).
Notation reachable :=
  (reachable budget (fun _ => Null) (fun _ => Null) (fun _ => Null) (fun _ => "id")).

Lemma start_planned : planned start.
Proof.
  constructor; try reflexivity. intros k c Hk. cbn in Hk. apply lookup_singleton_Some in Hk as [_ <-]. by split.
Qed.

Lemma claim_step : step start working.
Proof. apply (s_claim_hinted _ _ _ _ _ start 500 hint 40 30); [set_solver|by vm_compute]. Qed.

Lemma handle_in : handle ∈ w_handles working.
Proof. change (w_handles working) with [handle]. set_solver. Qed.

Lemma allocate_step : step working attempted.
Proof.
  apply (s_allocate budget (fun _ => Null) (fun _ => Null) (fun _ => Null) (fun _ => "id") working handle
    lease (sample_profile []) [case] [plan] (fun id => id + 1000) (fun id => id + 2000) _
    (match allocation with Ok (_, l) => l | Err _ => [] end)); [apply handle_in|reflexivity|by vm_compute].
Qed.

Lemma finalize_step : step attempted finished.
Proof. apply (s_finalize _ _ _ _ _ attempted 7 3 90 3 [transition] _ (Ok tt)). by vm_compute. Qed.

Lemma settle_step : step finished settled.
Proof. apply (s_fail _ _ _ _ _ finished handle _ 1); [apply handle_in|by vm_compute]. Qed.

Lemma expire_step : step working expired.
Proof. apply (s_tick _ _ _ _ _ working). by vm_compute. Qed.

Lemma reclaim_step : step expired reclaimed.
Proof.
  apply (s_claim_hinted _ _ _ _ _ expired 501 hint 40 30); [|by vm_compute].
  change (w_issued expired) with ({[500]} ∪ ∅ : gset Uuid). set_solver.
Qed.

Lemma attempted_steps : rtc step start attempted.
Proof. eapply rtc_l; [exact claim_step|]. eapply rtc_l; [exact allocate_step|]. apply rtc_refl. Qed.

Lemma finished_steps : rtc step start finished.
Proof. eapply rtc_r; [exact attempted_steps|exact finalize_step]. Qed.

Lemma settled_steps : rtc step start settled.
Proof. eapply rtc_r; [exact finished_steps|exact settle_step]. Qed.

Lemma fold_step : step settled folded.
Proof. apply (s_aggregate _ _ _ _ _ settled 7 3 4 true _ Advanced). by vm_compute. Qed.

Lemma seal_step : step folded sealed.
Proof. apply (s_aggregate _ _ _ _ _ folded 7 3 4 true _ Sealed). by vm_compute. Qed.

Lemma sealed_steps : rtc step start sealed.
Proof. eapply rtc_r; [eapply rtc_r; [exact settled_steps|exact fold_step]|exact seal_step]. Qed.

Lemma expired_steps : rtc step start expired.
Proof. eapply rtc_l; [exact claim_step|]. eapply rtc_l; [exact expire_step|]. apply rtc_refl. Qed.

(** The first handle is fenced once its lease has run out. *)
Lemma handle_fenced : fenced expired handle.
Proof.
  left. intros token [= <-] (c & t & Hc & _ & _ & Ht & Hle).
  assert (Hd : db_chunks (w_db expired) !! wc_key handle = Some
    (mkChunkRow 2 "g" 0 3 ChLeased (Some 5) (Some 500) (Some (30 * second)) 0 None 0 0)) by reflexivity.
  rewrite Hd in Hc. injection Hc as <-. injection Ht as <-. by vm_compute in Hle.
Qed.

End Scenario.

Lemma fenced_handle_powerless_witness :
  mark_chunk_completed_and_settle (w_db Scenario.reclaimed) (w_now Scenario.reclaimed) Scenario.handle
  = Ok (w_db Scenario.reclaimed, 0).
Proof.
  apply (fenced_handle_powerless Scenario.budget (fun _ => Null) (fun _ => Null) (fun _ => Null)
    (fun _ => "id") Scenario.expired Scenario.reclaimed Scenario.handle).
  - exists Scenario.start. split; [exact Scenario.start_planned|exact Scenario.expired_steps].
  - exact Scenario.handle_in.
  - exact Scenario.handle_fenced.
  - apply rtc_once. exact Scenario.reclaim_step.
Defined.

Lemma tables_stay_consistent_witness : world_ok Scenario.budget Scenario.settled.
Proof.
  exact (tables_stay_consistent Scenario.budget (fun _ => Null) (fun _ => Null) (fun _ => Null)
    (fun _ => "id") Scenario.start Scenario.settled Scenario.start_planned Scenario.settled_steps).
Defined.

Lemma terminal_chunk_final_witness :
  exists c, db_chunks (w_db Scenario.settled) !! (7, 3, 40) = Some c /\ ch_status c = ChFailed /\
    forall row, db_settlements (w_db Scenario.settled) !! (7, 3, 40) = Some row -> st_disposition row = ChFailed.
Proof.
  destruct (terminal_chunk_final Scenario.budget (fun _ => Null) (fun _ => Null) (fun _ => Null)
    (fun _ => "id") Scenario.settled Scenario.settled (7, 3, 40)
    (mkChunkRow 2 "g" 0 3 ChFailed (Some 5) None None 0 None 0 0)) as (c & Hc & Hs & _ & _ & _ & Hrow).
  - exists Scenario.start. split; [exact Scenario.start_planned|exact Scenario.settled_steps].
  - apply rtc_refl.
  - by vm_compute.
  - reflexivity.
  - exists c. split_and!; [done|done|]. intros row H. by destruct (Hrow row H).
Defined.

Lemma terminal_execution_final_witness :
  exists e, db_executions (w_db Scenario.settled) !! (7, 3, 1060) = Some e /\ ex_status e = ExFailed.
Proof.
  destruct (db_executions (w_db Scenario.finished) !! (7, 3, 1060)) as [e0|] eqn:E; [|by vm_compute in E].
  destruct (terminal_execution_final Scenario.budget (fun _ => Null) (fun _ => Null) (fun _ => Null)
    (fun _ => "id") Scenario.finished Scenario.settled (7, 3, 1060) e0) as (e & He & Hs & _).
  - exists Scenario.start. split; [exact Scenario.start_planned|exact Scenario.finished_steps].
  - apply rtc_once. exact Scenario.settle_step.
  - exact E.
  - vm_compute in E. by injection E as <-.
  - exists e. split; [done|]. rewrite Hs. vm_compute in E. by injection E as <-.
Defined.

Lemma attempts_within_budget_witness :
  count_where (attempt_of (7, 3, 1060)) (db_attempts (w_db Scenario.attempted)) <= 3.
Proof.
  assert (He : is_Some (db_executions (w_db Scenario.attempted) !! (7, 3, 1060))) by (vm_compute; by eexists).
  destruct He as [e E]. refine (proj1 (attempts_within_budget Scenario.budget (fun _ => Null) (fun _ => Null) (fun _ => Null)
    (fun _ => "id") Scenario.attempted (7, 3, 1060) e _ E)).
  exists Scenario.start. split; [exact Scenario.start_planned|exact Scenario.attempted_steps].
Defined.

Lemma claim_gives_live_lease_witness :
  exists db h, claim_hinted_chunk_for_processing Scenario.db0 0 500 Scenario.hint 40 30 = inr (db, Some h) /\
    lock_live_chunk_lease db (20 * second) h = Ok tt.
Proof.
  destruct (claim_gives_live_lease Scenario.db0 0 500 40 30 Scenario.hint (mkAdmissionRow "a" 4 Open None None 0)
    (Sample.chunk ChPending None None)) as (db & h & Hc & _ & _ & _ & Hl).
  - reflexivity.
  - reflexivity.
  - by left.
  - by eexists.
  - exists db, h. split; [done|]. apply (Hl (20 * second)). by vm_compute.
Defined.

Lemma recovery_sweep_progress_witness :
  exists c, db_chunks Scenario.sweep.1.1 !! (7, 3, 40) = Some c /\ ch_status c = ChPending.
Proof.
  destruct (recovery_sweep_progress (w_db Scenario.expired) Scenario.sweep.1.1 (31 * second) 5 10 Scenario.sweep.1.2
    [(7, 3)] (fun _ => false) Scenario.sweep.2 (7, 3, 40)
    (mkChunkRow 2 "g" 0 3 ChLeased (Some 5) (Some 500) (Some (30 * second)) 0 None 0 0)
    (mkAdmissionRow "a" 4 Open None None 0)) as (c & Hc & _ & _ & Hs).
  - reflexivity.
  - by vm_compute.
  - reflexivity.
  - reflexivity.
  - set_solver.
  - reflexivity.
  - by eexists.
  - reflexivity.
  - reflexivity.
  - exists c. split; [done|]. by destruct Hs.
Defined.

Lemma sealed_summary_exact_witness :
  exists row, Scenario.sealed_summary = Some row /\
    sumz range_size (shard_chunks (w_db Scenario.sealed) 7 3)
    = rs_execution_count (su_summary row) + rs_missing_execution_count (su_summary row).
Proof.
  assert (Hrow : exists row, Scenario.sealed_summary = Some row /\ rs_sealed (su_summary row) = true)
    by (vm_compute; by eexists).
  destruct Hrow as (row & Hrow & Hs). exists row. split; [exact Hrow|].
  apply (sealed_summary_exact Scenario.budget (fun _ => Null) (fun _ => Null) (fun _ => Null)
    (fun _ => "id") Scenario.sealed Scenario.sealed (7, 3) row).
  - exists Scenario.start. split; [exact Scenario.start_planned|exact Scenario.sealed_steps].
  - apply rtc_refl.
  - exact Hrow.
  - exact Hs.
Defined.
