(* ===== verification/ControlTables.v ===== *)
(** * Control database

    The tables the control database keeps for runs, as the migrations 0010 to
    0015 and 0027 under src/vigilo/migrations declare them.  They are modelled
    like the execution tables of [ShardTables]: finite maps from primary key to
    the remaining columns, statements as functions on a map, a transaction as a
    function from control database to control database.  A transaction of the
    sources locks the run row before it reads what it decides on, and
    [clock_timestamp()] and [now()] are arguments. *)

From Stdlib Require Import ZArith Lia.
From stdpp Require Import base strings numbers gmap sets option list.
From S2P Require Import Prelude Float64 Json RunTypes StorageFormats Scorecard.
From S2P Require Import ShardTables.

Open Scope Z_scope.

Inductive RunStatus :=
| RunCreating | RunPending | RunRunning | RunFinalizing | RunCompleted | RunFailed | RunCancelled.
Inductive GateStatus := GateUnknown | GatePass | GateFail.
Inductive CursorStatus := CursorOpen | CursorDrained.
Inductive PlanStatus := PlanPreparing | PlanReady.

#[global] Instance RunStatus_eq_dec : EqDecision RunStatus.
Proof. solve_decision. Defined.
#[global] Instance GateStatus_eq_dec : EqDecision GateStatus.
Proof. solve_decision. Defined.
#[global] Instance CursorStatus_eq_dec : EqDecision CursorStatus.
Proof. solve_decision. Defined.
#[global] Instance PlanStatus_eq_dec : EqDecision PlanStatus.
Proof. solve_decision. Defined.

(** The statuses no transition of the sources leaves. *)
Definition run_terminal (s : RunStatus) : bool :=
  match s with RunCompleted | RunFailed | RunCancelled => true | _ => false end.

(** The columns of [runs] that change after creation. *)
Record RunState := mkRunState {
  rn_status : RunStatus;
  rn_gate_status : GateStatus;
  rn_coordinator_id : option Uuid;
  rn_coordinator_leased_until : option Z;
  rn_coordinator_heartbeat_at : option Z;
  rn_terminal_execution_count : Z;
  rn_passed_execution_count : Z;
  rn_failed_execution_count : Z;
  rn_errored_execution_count : Z;
  rn_summary : Value;
  rn_error_message : option string;
  rn_started_at : option Z;
  rn_dispatched_at : option Z;
  rn_finalized_at : option Z;
  rn_completed_at : option Z;
  rn_updated_at : Z
}.

Record RunRow := mkRunRow {
  rw_name : option string;
  rw_description : option string;
  rw_context : RunContext;
  rw_expected_execution_count : Z;
  rw_created_at : Z;
  rw_state : RunState
}.

Notation rw_status r := (rn_status (rw_state r)).

Definition set_state (r : RunRow) (s : RunState) : RunRow :=
  mkRunRow (rw_name r) (rw_description r) (rw_context r) (rw_expected_execution_count r) (rw_created_at r) s.

Record RunShardPlacementAssignment := mkRunShardPlacementAssignment {
  pa_run_shard : Z;
  pa_database_alias : string
}.

(** [run_plans]. *)
Record PlanRow := mkPlanRow {
  pl_dataset_upload_id : Uuid;
  pl_status : PlanStatus;
  pl_storage_binding_hash : string;
  pl_limits : FormatLimits;
  pl_execution_plan : EvaluatorExecutionPlan;
  pl_assignments : list RunShardPlacementAssignment;
  pl_generation : Z;
  pl_chunk_cursor : Z;
  pl_execution_requested : bool;
  pl_admission_cursor : Z;
  pl_admission_state : list (Z * Manifest);
  pl_manifest : option ObjectRef;
  pl_updated_at : Z
}.

(** [run_plan_objects], keyed by run and object key. *)
Record PlanObject := mkPlanObject {
  po_kind : string;
  po_level : Z;
  po_range_start : option Z;
  po_range_end : option Z;
  po_reference : ObjectRef;
  po_acknowledged : bool
}.

Record PlanShardRow := mkPlanShardRow {
  ps_database_alias : string;
  ps_case_count : Z;
  ps_chunk_count : Z;
  ps_planned_chunk_hash : string;
  ps_case_projection_hash : string
}.

(** [shard_placements]. *)
Record PlacementRow := mkPlacementRow {
  pm_database_alias : string;
  pm_status : string;
  pm_move_target_database_alias : option string;
  pm_route_version : Z;
  pm_write_epoch : Z
}.

Record CursorRow := mkCursorRow {
  cu_status : CursorStatus;
  cu_updated_at : Z
}.

Record ScorecardRow := mkScorecardRow {
  sw_schema_version : Z;
  sw_aggregation_policy_hash : string;
  sw_shard_count : Z;
  sw_passed : bool;
  sw_scorecard : Value
}.

(** A control event; its [dedupe_key] is the text [run:R:E] of the run and the
    event name, and the outbox is keyed by that pair. *)
Notation event_key := (Uuid * string)%type (only parsing).

Record Control := mkControl {
  cd_runs : gmap Uuid RunRow;
  cd_plans : gmap Uuid PlanRow;
  cd_plan_objects : gmap (Uuid * string) PlanObject;
  cd_plan_shards : gmap shard_key PlanShardRow;
  cd_placements : gmap shard_key PlacementRow;
  cd_cursors : gmap shard_key CursorRow;
  cd_scorecards : gmap Uuid ScorecardRow;
  cd_outbox : gmap event_key Value
}.

Definition with_runs (c : Control) (runs : gmap Uuid RunRow) : Control :=
  mkControl runs (cd_plans c) (cd_plan_objects c) (cd_plan_shards c) (cd_placements c) (cd_cursors c)
    (cd_scorecards c) (cd_outbox c).
Definition with_plans (c : Control) (plans : gmap Uuid PlanRow) : Control :=
  mkControl (cd_runs c) plans (cd_plan_objects c) (cd_plan_shards c) (cd_placements c) (cd_cursors c)
    (cd_scorecards c) (cd_outbox c).
Definition with_plan_objects (c : Control) (objects : gmap (Uuid * string) PlanObject) : Control :=
  mkControl (cd_runs c) (cd_plans c) objects (cd_plan_shards c) (cd_placements c) (cd_cursors c)
    (cd_scorecards c) (cd_outbox c).
Definition with_plan_shards (c : Control) (shards : gmap shard_key PlanShardRow) : Control :=
  mkControl (cd_runs c) (cd_plans c) (cd_plan_objects c) shards (cd_placements c) (cd_cursors c)
    (cd_scorecards c) (cd_outbox c).
Definition with_placements (c : Control) (placements : gmap shard_key PlacementRow) : Control :=
  mkControl (cd_runs c) (cd_plans c) (cd_plan_objects c) (cd_plan_shards c) placements (cd_cursors c)
    (cd_scorecards c) (cd_outbox c).
Definition with_cursors (c : Control) (cursors : gmap shard_key CursorRow) : Control :=
  mkControl (cd_runs c) (cd_plans c) (cd_plan_objects c) (cd_plan_shards c) (cd_placements c) cursors
    (cd_scorecards c) (cd_outbox c).
Definition with_scorecards (c : Control) (scorecards : gmap Uuid ScorecardRow) : Control :=
  mkControl (cd_runs c) (cd_plans c) (cd_plan_objects c) (cd_plan_shards c) (cd_placements c) (cd_cursors c)
    scorecards (cd_outbox c).
Definition with_events (c : Control) (outbox : gmap event_key Value) : Control :=
  mkControl (cd_runs c) (cd_plans c) (cd_plan_objects c) (cd_plan_shards c) (cd_placements c) (cd_cursors c)
    (cd_scorecards c) outbox.

(** [SELECT run_shard FROM shard_placements WHERE run_id = $1 ORDER BY run_shard]. *)
Fixpoint insert_z (n : Z) (l : list Z) : list Z :=
  match l with
  | [] => [n]
  | m :: l' => if n <=? m then n :: l else m :: insert_z n l'
  end.
Definition sort_z (l : list Z) : list Z := fold_right insert_z [] l.

Definition shards_of {R} (run_id : Uuid) (t : gmap shard_key R) : list Z :=
  sort_z (map (fun kr => kr.1.2) (filter (fun kr => kr.1.1 = run_id) (map_to_list t))).

(** The lease a coordinator holds on a run row. *)
Definition lease_free (strict : bool) (now : Z) (s : RunState) : bool :=
  match rn_coordinator_leased_until s with
  | None => true
  | Some t => if strict then t <? now else t <=? now
  end.

(** ** Lemmas *)

Lemma insert_z_perm n l : insert_z n l ≡ₚ n :: l.
Proof.
  induction l as [|m l IH]; simpl; [done|]. case_if; [done|]. rewrite IH. apply Permutation_swap.
Qed.

Lemma sort_z_perm l : sort_z l ≡ₚ l.
Proof. induction l as [|n l IH]; simpl; [done|]. by rewrite insert_z_perm, IH. Qed.

Lemma elem_of_shards_of {R} (run_id : Uuid) (t : gmap shard_key R) (s : Z) :
  s ∈ shards_of run_id t <-> is_Some (t !! (run_id, s)).
Proof.
  unfold shards_of. rewrite sort_z_perm, list_elem_of_fmap. split.
  - intros ([[r s'] row] & -> & Hin). apply list_elem_of_filter in Hin as [Hr Hin].
    apply elem_of_map_to_list in Hin. simpl in *. subst. by exists row.
  - intros [row Hrow]. exists (run_id, s, row). split; [done|]. apply list_elem_of_filter. split; [done|].
    by apply elem_of_map_to_list.
Qed.
