(* ===== verification/RunPlanning.v ===== *)
(** * Planning a run

    The accumulator that turns the cases of a dataset, streamed once in ordinal
    order, into the chunks of a run and the totals of its shards:
    src/vigilo/src/run_planning/accumulator.rs, the case projection hash of
    src/vigilo/src/db/workflows/case_projection.rs and the chunk-to-shard rule of
    src/vigilo/src/models/run_chunk.rs.  A BLAKE3 hasher is the bytes fed to it
    so far.  A panic of [expect] or of an index is an error with its message;
    the completeness theorem shows that none is reached. *)

From Stdlib Require Import ZArith Lia ZifyBool Ascii Sorted.
From stdpp Require Import base strings pretty numbers gmap sets option list.
From S2P Require Import Prelude Float64 BTree Text Json RunTypes StorageFormats Codec Identity.
From S2P Require Import ProfileValidation ShardTables ReceiptGates ShardSummary ControlTables.

Open Scope Z_scope.

Definition RUN_SHARD_COUNT : Z := 128.

Definition run_shard_for_chunk_index (chunk_index : Z) : Z := chunk_index mod RUN_SHARD_COUNT.

(** ** The case projection hash *)

Record RunShardCaseDraft := mkRunShardCaseDraft {
  sc_run_id : Uuid;
  sc_run_shard : Z;
  sc_dataset_version_id : Uuid;
  sc_case_id : Uuid;
  sc_case_ordinal : Z;
  sc_case_hash : string
}.

(** [to_be_bytes] of a [width]-byte integer. *)
Fixpoint be_bytes (width : nat) (n : Z) : string :=
  match width with
  | O => ""
  | S w => String (ascii_of_N (Z.to_N (Z.shiftr n (8 * Z.of_nat w) mod 256))) (be_bytes w n)
  end.

Definition update_projection_hash (hasher : string) (row : RunShardCaseDraft) : string :=
  hasher +:+ be_bytes 2 (sc_run_shard row) +:+ be_bytes 4 (sc_case_ordinal row)
         +:+ be_bytes 16 (sc_case_id row) +:+ be_bytes 8 (str_len (sc_case_hash row))
         +:+ sc_case_hash row.

(** A fresh hasher with the domain prefix. *)
Definition projection : string := "vigilo/run-shard-cases/v1".


(** *** The hashed bytes determine the cases *)

Lemma app_inj_length s1 s2 t1 t2 :
  String.length s1 = String.length s2 -> (s1 +:+ t1 = s2 +:+ t2)%string -> s1 = s2 /\ t1 = t2.
Proof.
  revert s2; induction s1 as [|a s1 IH]; intros [|b s2] Hl He; try done. cbn in Hl, He.
  injection He as -> He. destruct (IH s2 ltac:(lia) He) as [-> ->]. done.
Qed.

Lemma be_bytes_length w n : String.length (be_bytes w n) = w.
Proof. induction w; simpl; [done|]. by rewrite IHw. Qed.

Lemma be_bytes_inj w a b :
  0 <= a < 2 ^ (8 * Z.of_nat w) -> 0 <= b < 2 ^ (8 * Z.of_nat w) -> be_bytes w a = be_bytes w b -> a = b.
Proof.
  enough (Hgen : be_bytes w a = be_bytes w b -> a mod 2 ^ (8 * Z.of_nat w) = b mod 2 ^ (8 * Z.of_nat w)).
  { intros Ha Hb He. specialize (Hgen He). by rewrite !Z.mod_small in Hgen. }
  induction w as [|w IH]; intros He; [by rewrite !Z.mod_1_r|]. cbn [be_bytes] in He.
  injection He as Hd He. specialize (IH He).
  assert (Hbyte : forall n, N_of_ascii (ascii_of_N (Z.to_N (n mod 256))) = Z.to_N (n mod 256)).
  { intros n. apply N_ascii_embedding. pose proof (Z.mod_pos_bound n 256). lia. }
  apply (f_equal N_of_ascii) in Hd. rewrite !Hbyte in Hd.
  apply (f_equal Z.of_N) in Hd. rewrite !Z2N.id in Hd by (apply Z.mod_pos_bound; lia).
  rewrite !Z.shiftr_div_pow2 in Hd by lia.
  assert (Hsplit : forall n, n mod 2 ^ (8 * Z.of_nat (S w))
    = n mod 2 ^ (8 * Z.of_nat w) + 2 ^ (8 * Z.of_nat w) * ((n / 2 ^ (8 * Z.of_nat w)) mod 256)).
  { intros n. replace (8 * Z.of_nat (S w)) with (8 * Z.of_nat w + 8) by lia.
    rewrite Z.pow_add_r by lia. apply Z.rem_mul_r; lia. }
  rewrite !Hsplit. congruence.
Qed.

Lemma be_app_inj w a b ta tb :
  0 <= a < 2 ^ (8 * Z.of_nat w) -> 0 <= b < 2 ^ (8 * Z.of_nat w) ->
  (be_bytes w a +:+ ta = be_bytes w b +:+ tb)%string -> a = b /\ ta = tb.
Proof.
  intros Ha Hb He. apply app_inj_length in He as [He ->]; [|by rewrite !be_bytes_length].
  split; [by apply (be_bytes_inj w)|done].
Qed.

Definition draft_bytes (row : RunShardCaseDraft) : string :=
  be_bytes 2 (sc_run_shard row) +:+ be_bytes 4 (sc_case_ordinal row) +:+ be_bytes 16 (sc_case_id row)
  +:+ be_bytes 8 (str_len (sc_case_hash row)) +:+ sc_case_hash row.

Definition draft_wf (row : RunShardCaseDraft) : Prop :=
  0 <= sc_run_shard row < 2 ^ 16 /\ 0 <= sc_case_ordinal row < 2 ^ 32 /\ 0 <= sc_case_id row < 2 ^ 128 /\
  str_len (sc_case_hash row) < 2 ^ 64.

(** What a row says about a case: everything but the run and the version. *)
Definition draft_key (row : RunShardCaseDraft) : Z * Z * Uuid * string :=
  (sc_run_shard row, sc_case_ordinal row, sc_case_id row, sc_case_hash row).

Lemma draft_bytes_inj a b ta tb :
  draft_wf a -> draft_wf b -> (draft_bytes a +:+ ta = draft_bytes b +:+ tb)%string ->
  draft_key a = draft_key b /\ ta = tb.
Proof.
  intros (Ha1 & Ha2 & Ha3 & Ha4) (Hb1 & Hb2 & Hb3 & Hb4). unfold draft_bytes. rewrite <- !sapp_assoc. intros He.
  apply be_app_inj in He as [E1 He]; [|lia..]. apply be_app_inj in He as [E2 He]; [|lia..].
  apply be_app_inj in He as [E3 He]; [|lia..].
  pose proof (str_len_nonneg (sc_case_hash a)). pose proof (str_len_nonneg (sc_case_hash b)).
  apply be_app_inj in He as [E4 He]; [|lia..]. apply app_inj_length in He as [E5 ->]; [|unfold str_len in E4; lia].
  unfold draft_key. by rewrite E1, E2, E3, E5.
Qed.

Definition hash_rows (rows : list RunShardCaseDraft) : string := fold_left update_projection_hash rows projection.

Lemma fold_left_mapped {A B T} (f : T -> B -> T) (g : A -> B) l t :
  fold_left f (map g l) t = fold_left (fun t a => f t (g a)) l t.
Proof. revert t; induction l as [|a l IH]; intros t; [done|]. apply IH. Qed.

Lemma hash_rows_inj a b :
  Forall draft_wf a -> Forall draft_wf b -> hash_rows a = hash_rows b -> map draft_key a = map draft_key b.
Proof.
  assert (Happ : forall rows h, fold_left update_projection_hash rows h
    = (h +:+ foldr (fun r acc => draft_bytes r +:+ acc) "" rows)%string).
  { induction rows as [|r rows IH]; intros h; simpl; [by rewrite sapp_nil_r|].
    rewrite IH. unfold update_projection_hash, draft_bytes. by rewrite !sapp_assoc. }
  unfold hash_rows. rewrite !Happ. intros Ha Hb He. apply app_inj_length in He as [_ He]; [|done].
  revert b Hb He; induction Ha as [|x a Hx _ IH]; intros b Hb He; destruct Hb as [|y b Hy Hb]; simpl in *; try done.
  - apply draft_bytes_inj in He as [Hk He]; [|done|done]. f_equal; [done|]. by apply IH.
Qed.

(** ** The accumulator *)

Record ShardState := mkShardState {
  ss_plan : Manifest;
  ss_gate_counts : btree string Z;
  ss_projection : string;
  ss_alias : string
}.

Record Accumulator := mkAccumulator {
  ac_run_id : Uuid;
  ac_version : Uuid;
  ac_profile : RunProfile;
  ac_aliases : btree Z string;
  ac_shards : btree Z ShardState;
  ac_chunk_count : Z;
  ac_evaluator_count : Z;
  ac_ordinal : Z;
  ac_chunk_hash : string;
  ac_chunk_start : Z
}.

Definition profile_gates (p : RunProfile) : list ScorecardGate := ss_gates (rp_scorecard p).

Definition accumulator_new (run_id version : Uuid) (profile : RunProfile)
    (assignments : list RunShardPlacementAssignment) : result Accumulator :=
  let gates := profile_gates profile in
  _ ← ensure (zlen gates <=? 64) "too many scorecard gates";
  _ ← ensure (forallb (fun gate => negb (str_is_empty (sg_id gate)) && (str_len (sg_id gate) <=? 1024)) gates
              && (zlen (bset (map sg_id gates)) =? zlen gates))
        "gate IDs must be unique and contain 1..=1024 bytes";
  let aliases := bt_collect (map (fun a => (pa_run_shard a, pa_database_alias a)) assignments) in
  _ ← ensure ((zlen aliases =? zlen assignments) && negb (bool_decide (aliases = [])) && (zlen aliases <=? 128)
              && forallb (fun s => (0 <=? s) && (s <? 128)) (bt_keys aliases))
        "invalid or duplicate shard assignments";
  Ok (mkAccumulator run_id version profile aliases [] 0 0 0 projection 0).

(** A shard no case has reached yet. *)
Definition fresh_shard (profile : RunProfile) (alias : string) : ShardState :=
  mkShardState default_manifest (bt_collect (map (fun g => (sg_id g, 0)) (profile_gates profile)))
    projection alias.

(** The loop body over the gates of the profile. *)
Definition count_gate (profile : RunProfile) (case : DatasetCase) (counts : btree string Z)
    (gate : ScorecardGate) : result (btree string Z) :=
  if case_matches_gate profile case gate then
    count ← ok_or (bt_get (sg_id gate) counts) "configured gate";
    count ← ok_or (i32_checked_add count 1) "gate count overflow";
    Ok (bt_insert (sg_id gate) count counts)
  else Ok counts.

(** A record with the case it decodes to. *)
Abbreviation PlannedCase := (CaseRecord * DatasetCase)%type.

Section planning.
Context `{E : Encoding} {RF : ReceiptFunctions} {SF : SummaryFunctions}
  `{SR : Serde CaseRecord} `{SC : Serde DatasetCase}.
(** The uuid crate's text form, also what its [Serialize] writes. *)
Variable uuid_display : Uuid -> string.

Definition usize_try_from (n : Z) : result Z :=
  ok_or (checked 0 usize_max n) "out of range integral type conversion attempted".

Definition chunk_id_value (run_id : Uuid) (chunk_index : Z) : Value :=
  Object (bt_collect [("run_id", Str (uuid_display run_id)); ("chunk_index", Num (number_of_i64 chunk_index))]).

Definition chunk_identity (c : RunChunk) : ChunkIdentity :=
  mkChunkIdentity (rc_chunk_id c) (rc_run_shard c) (rc_ordinal_start c) (rc_ordinal_end c).

Definition set_plan (st : ShardState) (plan : Manifest) : ShardState :=
  mkShardState plan (ss_gate_counts st) (ss_projection st) (ss_alias st).

Definition finish_chunk (a : Accumulator) : result (Accumulator * option RunChunk) :=
  if ac_ordinal a =? ac_chunk_start a then Ok (a, None)
  else
    index ← usize_try_from (ac_chunk_count a);
    let shard := run_shard_for_chunk_index index in
    id ← uuid_from_json (chunk_id_value (ac_run_id a) (ac_chunk_count a));
    let chunk := mkRunChunk (ac_chunk_count a) id shard (ac_chunk_start a) (ac_ordinal a) "default"
                   (blake3_hex (ac_chunk_hash a)) in
    state ← ok_or (bt_get shard (ac_shards a)) "case creates shard";
    plan ← manifest_push (ss_plan state) (mkChunkIdentity id shard (ac_chunk_start a) (ac_ordinal a));
    count ← ok_or (i32_checked_add (ac_chunk_count a) 1) "chunk count overflow";
    Ok (mkAccumulator (ac_run_id a) (ac_version a) (ac_profile a) (ac_aliases a)
          (bt_insert shard (set_plan state plan) (ac_shards a)) count (ac_evaluator_count a) (ac_ordinal a)
          projection (ac_ordinal a), Some chunk).

(** [push] up to the advance of the ordinal. *)
Definition push_case (a : Accumulator) (record : CaseRecord) : result Accumulator :=
  _ ← ensure (cr_case_ordinal record =? ac_ordinal a) "case ordinal gap or overlap";
  case ← CaseRecord_validate record;
  count ← validate_resolved_case uuid_display (ac_profile a) case;
  count ← ok_or (checked 0 u64_max count) "out of range integral type conversion attempted";
  evaluator_count ← ok_or (u64_checked_add (ac_evaluator_count a) count) "evaluator count overflow";
  index ← usize_try_from (ac_chunk_count a);
  let shard := run_shard_for_chunk_index index in
  alias ← ok_or (bt_get shard (ac_aliases a)) ("missing placement for shard " +:+ pretty shard);
  let state := default (fresh_shard (ac_profile a) alias) (bt_get shard (ac_shards a)) in
  let row := mkRunShardCaseDraft (ac_run_id a) shard (ac_version a) (dc_id case) (ac_ordinal a)
               (cr_case_hash record) in
  let chunk_hash := update_projection_hash (ac_chunk_hash a) row in
  gates ← foldM (count_gate (ac_profile a) case) (ss_gate_counts state) (profile_gates (ac_profile a));
  let state := mkShardState (ss_plan state) gates (update_projection_hash (ss_projection state) row)
                 (ss_alias state) in
  ordinal ← ok_or (i32_checked_add (ac_ordinal a) 1) "case count overflow";
  Ok (mkAccumulator (ac_run_id a) (ac_version a) (ac_profile a) (ac_aliases a)
        (bt_insert shard state (ac_shards a)) (ac_chunk_count a) evaluator_count ordinal chunk_hash
        (ac_chunk_start a)).

Definition accumulator_push (a : Accumulator) (record : CaseRecord) : result (Accumulator * option RunChunk) :=
  a ← push_case a record;
  if ac_ordinal a - ac_chunk_start a =? 100 then finish_chunk a else Ok (a, None).

(** [map.values().map(|s| i64::from(s.gates[&id])).sum()]: at most 128 counts of 32 bits. *)
Definition gate_total (id : string) (shards : btree Z ShardState) : result Z :=
  foldM (fun total st => count ← ok_or (bt_get id (ss_gate_counts st)) "no entry found for key"; Ok (total + count))
    0 (bt_values shards).

Definition check_gate_total (a : Accumulator) (_ : unit) (gate : ScorecardGate) : result unit :=
  total ← gate_total (sg_id gate) (ac_shards a);
  ensure (0 <? total) ("scorecard gate '" +:+ sg_id gate +:+ "' does not match any dataset cases").

Definition validate_complete (a : Accumulator) (count : Z) : result unit :=
  _ ← ensure ((0 <? count) && (ac_ordinal a =? count) && (ac_chunk_start a =? count)) "incomplete case planning";
  _ ← ensure (bool_decide (bt_keys (ac_aliases a) = bt_keys (ac_shards a)))
        "placement coverage differs from planned shards";
  foldM (check_gate_total a) tt (profile_gates (ac_profile a)).

(** The entry of a shard in the published manifest. *)
Definition plan_shard (kv : Z * ShardState) (gate_counts : GateCountDescriptor) : RunPlanShard :=
  mkRunPlanShard kv.1 (mn_case_count (ss_plan kv.2)) (mn_chunk_count (ss_plan kv.2)) (mn_hash (ss_plan kv.2))
    gate_counts.

(** ** One pass over the cases

    The loop of [prepare] seen by the accumulator: every record is pushed, the
    chunks it completes are collected, and the last chunk is closed. *)
Definition collect_chunk (st : Accumulator * list RunChunk) (record : CaseRecord)
    : result (Accumulator * list RunChunk) :=
  pushed ← accumulator_push st.1 record;
  Ok (pushed.1, st.2 ++ option_list pushed.2).

Definition plan_cases (a : Accumulator) (records : list CaseRecord) : result (Accumulator * list RunChunk) :=
  st ← foldM collect_chunk (a, []) records;
  last ← finish_chunk st.1;
  Ok (last.1, st.2 ++ option_list last.2).

(** The evaluator executions of a case. *)
Definition planned_evaluators (profile : RunProfile) (case : DatasetCase) : Z :=
  fold_right Z.add 0 (map (fun group => zlen (cg_evaluators group)) (matching_groups_for_case profile case)).

Lemma push_case_Ok a record a' :
  push_case a record = Ok a' ->
  exists case alias,
    cr_case_ordinal record = ac_ordinal a /\ CaseRecord_validate record = Ok case /\
    validate_resolved_case uuid_display (ac_profile a) case = Ok (planned_evaluators (ac_profile a) case) /\
    ac_ordinal a + 1 <= i32_max /\ 0 <= ac_chunk_count a /\
    let shard := run_shard_for_chunk_index (ac_chunk_count a) in
    bt_get shard (ac_aliases a) = Some alias /\
    let st := default (fresh_shard (ac_profile a) alias) (bt_get shard (ac_shards a)) in
    let row := mkRunShardCaseDraft (ac_run_id a) shard (ac_version a) (dc_id case) (ac_ordinal a)
                 (cr_case_hash record) in
    exists gates,
      foldM (count_gate (ac_profile a) case) (ss_gate_counts st) (profile_gates (ac_profile a)) = Ok gates /\
      a' = mkAccumulator (ac_run_id a) (ac_version a) (ac_profile a) (ac_aliases a)
             (bt_insert shard (mkShardState (ss_plan st) gates (update_projection_hash (ss_projection st) row)
                                 (ss_alias st)) (ac_shards a))
             (ac_chunk_count a) (ac_evaluator_count a + planned_evaluators (ac_profile a) case)
             (ac_ordinal a + 1) (update_projection_hash (ac_chunk_hash a) row) (ac_chunk_start a).
Proof.
  unfold push_case, usize_try_from, u64_checked_add, i32_checked_add. intros H.
  apply bind_Ok in H as (u & H1 & H). apply bind_Ok in H as (case & H2 & H).
  apply bind_Ok in H as (count & H3 & H).
  assert (Hcount : count = planned_evaluators (ac_profile a) case) by (unfold validate_resolved_case in H3; by inv_ok).
  inv_ok. repeat match goal with X : checked _ _ _ = Some _ |- _ => apply checked_Some in X as [-> ?] end.
  eexists _, _. split_and!; [lia|done|done|lia|lia|done|]. eexists. by split.
Qed.

Lemma finish_chunk_Ok a a' o :
  finish_chunk a = Ok (a', o) ->
  (ac_ordinal a = ac_chunk_start a /\ a' = a /\ o = None) \/
  exists c st plan,
    ac_ordinal a <> ac_chunk_start a /\ o = Some c /\ 0 <= ac_chunk_count a /\
    uuid_from_json (chunk_id_value (ac_run_id a) (ac_chunk_count a)) = Ok (rc_chunk_id c) /\
    c = mkRunChunk (ac_chunk_count a) (rc_chunk_id c) (run_shard_for_chunk_index (ac_chunk_count a))
          (ac_chunk_start a) (ac_ordinal a) "default" (blake3_hex (ac_chunk_hash a)) /\
    bt_get (rc_run_shard c) (ac_shards a) = Some st /\ manifest_push (ss_plan st) (chunk_identity c) = Ok plan /\
    a' = mkAccumulator (ac_run_id a) (ac_version a) (ac_profile a) (ac_aliases a)
           (bt_insert (rc_run_shard c) (set_plan st plan) (ac_shards a)) (ac_chunk_count a + 1)
           (ac_evaluator_count a) (ac_ordinal a) projection (ac_ordinal a).
Proof.
  unfold finish_chunk, usize_try_from, i32_checked_add. intros H.
  destruct (ac_ordinal a =? ac_chunk_start a) eqn:Eo; [left; injection H as <- <-; split_and!; [lia|done|done]|right].
  inv_ok. repeat match goal with X : checked _ _ _ = Some _ |- _ => apply checked_Some in X as [-> ?] end.
  eexists (mkRunChunk _ _ _ _ _ _ _), _, _. cbn [rc_chunk_id rc_run_shard chunk_identity rc_ordinal_start rc_ordinal_end].
  split_and!; [lia|done|lia|eassumption|done|eassumption|eassumption|done].
Qed.

Lemma planned_evaluators_nonneg profile case : 0 <= planned_evaluators profile case.
Proof.
  unfold planned_evaluators. induction (matching_groups_for_case profile case); simpl; [lia|].
  unfold zlen at 1. lia.
Qed.

(** ** What a plan is

    The plan of [rows], the validated cases in ordinal order, without any
    running state: chunk [i] holds the ordinals from [100 * i] to the next
    multiple of 100 or the end, on shard [i mod 128]. *)
Section reference.
Variables (run_id version : Uuid) (profile : RunProfile).

Definition ordinal_of (rc : PlannedCase) : Z := cr_case_ordinal rc.1.
Definition case_shard (ordinal : Z) : Z := run_shard_for_chunk_index (ordinal / 100).
Definition on_shard (s : Z) (rc : PlannedCase) : bool := case_shard (ordinal_of rc) =? s.
Definition from (start : Z) (rc : PlannedCase) : bool := start <=? ordinal_of rc.
Definition within (start end_ : Z) (rc : PlannedCase) : bool :=
  (start <=? ordinal_of rc) && (ordinal_of rc <? end_).

Definition draft_of (rc : PlannedCase) : RunShardCaseDraft :=
  mkRunShardCaseDraft run_id (case_shard (ordinal_of rc)) version (dc_id rc.2) (ordinal_of rc)
    (cr_case_hash rc.1).

(** The bytes hashed for a list of cases. *)
Definition project (rows : list PlannedCase) : string :=
  fold_left (fun h rc => update_projection_hash h (draft_of rc)) rows projection.

Definition matching (gate : ScorecardGate) (rows : list PlannedCase) : Z :=
  zlen (List.filter (fun rc => case_matches_gate profile rc.2 gate) rows).

Definition gate_counts (rows : list PlannedCase) : btree string Z :=
  bt_collect (map (fun g => (sg_id g, matching g rows)) (profile_gates profile)).

Record planned_chunk (rows : list PlannedCase) (i : Z) (c : RunChunk) : Prop := mkPlannedChunk {
  pk_index : rc_chunk_index c = i;
  pk_id : uuid_from_json (chunk_id_value run_id i) = Ok (rc_chunk_id c);
  pk_shard : rc_run_shard c = run_shard_for_chunk_index i;
  pk_start : rc_ordinal_start c = 100 * i;
  pk_end : rc_ordinal_end c = Z.min (100 * (i + 1)) (zlen rows);
  pk_nonempty : rc_ordinal_start c < rc_ordinal_end c;
  pk_group : rc_profile_group_id c = "default";
  pk_hash : rc_case_projection_hash c
            = blake3_hex (project (List.filter (within (rc_ordinal_start c) (rc_ordinal_end c)) rows))
}.

Definition shard_chunks_of (s : Z) (chunks : list RunChunk) : list ChunkIdentity :=
  map chunk_identity (List.filter (fun c => rc_run_shard c =? s) chunks).

Record planned_shard (aliases : btree Z string) (rows : list PlannedCase) (chunks : list RunChunk) (s : Z)
    (st : ShardState) : Prop := mkPlannedShard {
  ps_plan : foldM manifest_push default_manifest (shard_chunks_of s chunks) = Ok (ss_plan st);
  ps_gates : ss_gate_counts st = gate_counts (List.filter (on_shard s) rows);
  ps_projection : ss_projection st = project (List.filter (on_shard s) rows);
  ps_alias : bt_get s aliases = Some (ss_alias st)
}.

(** A case the planner accepts. *)
Definition accepted_case (rc : PlannedCase) : Prop :=
  CaseRecord_validate rc.1 = Ok rc.2 /\
  validate_resolved_case uuid_display profile rc.2 = Ok (planned_evaluators profile rc.2).

(** The accumulator has read [rows] and emitted [chunks]. *)
Record planning_inv (aliases : btree Z string) (rows : list PlannedCase) (a : Accumulator)
    (chunks : list RunChunk) : Prop := mkPlanningInv {
  pi_static : ac_run_id a = run_id /\ ac_version a = version /\ ac_profile a = profile /\ ac_aliases a = aliases;
  pi_rows : Forall accepted_case rows;
  pi_ordinals : forall i rc, rows !! i = Some rc -> ordinal_of rc = Z.of_nat i;
  pi_ordinal : ac_ordinal a = zlen rows /\ zlen rows <= i32_max;
  pi_count : ac_chunk_count a = zlen chunks /\ 100 * (zlen chunks - 1) < zlen rows <= 100 * zlen chunks + 100;
  pi_start : ac_chunk_start a = Z.min (100 * zlen chunks) (zlen rows);
  pi_hash : ac_chunk_hash a = project (List.filter (from (ac_chunk_start a)) rows);
  pi_evaluators : ac_evaluator_count a = sumz (fun rc => planned_evaluators profile rc.2) rows;
  pi_chunks : forall i c, chunks !! i = Some c -> planned_chunk rows (Z.of_nat i) c;
  pi_shards_wf : bt_wf (ac_shards a);
  pi_shards : forall s st, bt_get s (ac_shards a) = Some st -> planned_shard aliases rows chunks s st;
  pi_used : forall s, bt_mem s (ac_shards a) = true <-> 0 <= s < 128 /\ 100 * s < zlen rows
}.
(** *** Counting gates *)

Lemma count_gates_lookup case l m m' :
  bt_wf m -> NoDup (map sg_id l) -> foldM (count_gate profile case) m l = Ok m' ->
  bt_wf m' /\ (forall id, id ∉ map sg_id l -> bt_get id m' = bt_get id m) /\
  Forall (fun g => bt_get (sg_id g) m'
    = (fun n => if case_matches_gate profile case g then n + 1 else n) <$> bt_get (sg_id g) m) l.
Proof.
  revert m; induction l as [|g l IH]; intros m Hm Hnd H; simpl in H; [injection H as <-; by split_and!|].
  simpl in Hnd. apply NoDup_cons in Hnd as [Hg Hnd]. apply bind_Ok in H as (m1 & H1 & H).
  assert (Hm1 : bt_wf m1 /\ (forall id, id <> sg_id g -> bt_get id m1 = bt_get id m) /\
    bt_get (sg_id g) m1 = (fun n => if case_matches_gate profile case g then n + 1 else n) <$> bt_get (sg_id g) m).
  { unfold count_gate in H1. destruct (case_matches_gate profile case g).
    - inv_ok. unfold i32_checked_add in *.
      match goal with X : checked _ _ _ = Some _ |- _ => apply checked_Some in X as [-> ?] end.
      rewrite bt_get_insert_eq. split_and!; [auto| |by match goal with X : bt_get _ _ = Some _ |- _ => rewrite X end].
      intros id Hid. by apply bt_get_insert_ne.
    - injection H1 as <-. split_and!; [done|done|by destruct (bt_get _ m)]. }
  destruct Hm1 as (Hw1 & Hother & Hthis). destruct (IH m1 Hw1 Hnd H) as (Hw' & Hrest & Hall).
  split_and!; [done| |].
  - intros id [Hne Hid]%not_elem_of_cons. rewrite Hrest by done. by apply Hother.
  - constructor; [by rewrite Hrest|]. rewrite Forall_forall in *. intros g' Hg'. rewrite Hall by done.
    rewrite Hother; [done|]. intros He. apply Hg. rewrite <- He. apply list_elem_of_fmap. by exists g'.
Qed.

Lemma gate_counts_get g rows :
  NoDup (map sg_id (profile_gates profile)) -> g ∈ profile_gates profile ->
  bt_get (sg_id g) (gate_counts rows) = Some (matching g rows).
Proof.
  intros Hnd Hg. apply bt_get_collect; [by rewrite map_map|]. apply list_elem_of_fmap. by exists g.
Qed.

Lemma matching_snoc g rows rc :
  matching g (rows ++ [rc]) = if case_matches_gate profile rc.2 g then matching g rows + 1 else matching g rows.
Proof.
  unfold matching. rewrite List.filter_app, zlen_app. cbn [List.filter].
  destruct (case_matches_gate profile rc.2 g); [done|]. apply Z.add_0_r.
Qed.

Lemma count_gates_exact rows rc m :
  NoDup (map sg_id (profile_gates profile)) ->
  foldM (count_gate profile rc.2) (gate_counts rows) (profile_gates profile) = Ok m ->
  m = gate_counts (rows ++ [rc]).
Proof.
  intros Hnd H. apply count_gates_lookup in H as (Hw & Hother & Hall); [|apply bt_collect_wf|done].
  apply bt_ext; [done|apply bt_collect_wf|]. intros id.
  destruct (decide (id ∈ map sg_id (profile_gates profile))) as [Hin|Hout].
  - apply list_elem_of_fmap in Hin as (g & -> & Hg). rewrite Forall_forall in Hall.
    rewrite (Hall g Hg), !gate_counts_get, matching_snoc by done. simpl. by case_if.
  - assert (Hnone : forall rows, bt_get id (gate_counts rows) = None).
    { intros r. apply bt_get_collect_None. by rewrite map_map. }
    by rewrite (Hother id Hout), !Hnone.
Qed.

Lemma project_snoc rows rc :
  project (rows ++ [rc]) = update_projection_hash (project rows) (draft_of rc).
Proof. unfold project. by rewrite fold_left_app. Qed.


(** *** One case *)

Lemma planned_chunk_snoc rows i c rc :
  planned_chunk rows i c -> 100 * (i + 1) <= zlen rows -> ordinal_of rc = zlen rows ->
  planned_chunk (rows ++ [rc]) i c.
Proof.
  intros [] Hle Hrc. split; try done.
  - rewrite zlen_app. change (zlen [rc]) with 1. lia.
  - rewrite filter_snoc. unfold within at 1. rewrite Hrc.
    replace (_ && _) with false by lia. done.
Qed.

Lemma case_shard_range n : 0 <= case_shard n < 128.
Proof. apply Z.mod_pos_bound. done. Qed.

Lemma shard_step n s :
  0 <= n -> (0 <= s < 128 /\ 100 * s < n + 1) <-> s = case_shard n \/ (0 <= s < 128 /\ 100 * s < n).
Proof. unfold case_shard, run_shard_for_chunk_index, RUN_SHARD_COUNT. intros Hn. Z.to_euclidean_division_equations. lia. Qed.

Lemma in_rows rows rc : rc ∈ rows -> (forall i rc, rows !! i = Some rc -> ordinal_of rc = Z.of_nat i) ->
  0 <= ordinal_of rc < zlen rows.
Proof.
  intros [i Hi]%list_elem_of_lookup_1 Hord. rewrite (Hord i rc Hi). apply lookup_lt_Some in Hi.
  unfold zlen. lia.
Qed.


(** A shard without cases is still fresh. *)
Lemma unused_shard aliases rows a chunks s alias :
  planning_inv aliases rows a chunks -> bt_get s (ac_shards a) = None -> 0 <= s < 128 ->
  bt_get s aliases = Some alias -> planned_shard aliases rows chunks s (fresh_shard profile alias).
Proof.
  intros HI Hnone Hs Halias. destruct HI as [_ _ Hord _ [_ Hcn] _ _ _ Hch _ _ Hused].
  assert (Hn : zlen rows <= 100 * s).
  { destruct (decide (zlen rows <= 100 * s)) as [?|Hlt]; [done|]. exfalso.
    assert (Hm : bt_mem s (ac_shards a) = true) by (apply Hused; lia). unfold bt_mem in Hm. by rewrite Hnone in Hm. }
  assert (Hrows : List.filter (on_shard s) rows = []).
  { apply filter_none. intros rc Hrc. pose proof (in_rows _ _ Hrc Hord). unfold on_shard, case_shard.
    unfold run_shard_for_chunk_index, RUN_SHARD_COUNT. Z.to_euclidean_division_equations. lia. }
  assert (Hchunks : List.filter (fun c => rc_run_shard c =? s) chunks = []).
  { apply filter_none. intros c [i Hi]%list_elem_of_lookup_1. destruct (Hch i c Hi) as [_ _ -> Hst He Hlt _ _].
    unfold run_shard_for_chunk_index, RUN_SHARD_COUNT. Z.to_euclidean_division_equations. lia. }
  split; cbn [fresh_shard ss_plan ss_gate_counts ss_projection ss_alias]; rewrite ?Hrows; try done.
  unfold shard_chunks_of. by rewrite Hchunks.
Qed.

Lemma current_shard aliases rows a chunks s alias :
  planning_inv aliases rows a chunks -> 0 <= s < 128 -> bt_get s aliases = Some alias ->
  planned_shard aliases rows chunks s (default (fresh_shard profile alias) (bt_get s (ac_shards a))).
Proof.
  intros HI Hs Halias. destruct (bt_get s (ac_shards a)) as [st|] eqn:Eg; simpl; [|by eapply unused_shard].
  by apply (pi_shards _ _ _ _ HI).
Qed.

Lemma planned_shard_other aliases rows chunks s st rc :
  planned_shard aliases rows chunks s st -> case_shard (ordinal_of rc) <> s ->
  planned_shard aliases (rows ++ [rc]) chunks s st.
Proof.
  intros [] Hne. split; try done; rewrite filter_snoc; unfold on_shard at 1;
    by replace (_ =? _) with false by lia.
Qed.

Lemma push_case_inv aliases rows a chunks record a' :
  NoDup (map sg_id (profile_gates profile)) -> planning_inv aliases rows a chunks ->
  100 * zlen chunks <= zlen rows < 100 * zlen chunks + 100 -> push_case a record = Ok a' ->
  exists case, planning_inv aliases (rows ++ [(record, case)]) a' chunks.
Proof.
  intros Hnd HI Hn H. pose proof HI as [(Hr & Hv & Hp & Ha) Hrows Hord [Ho Hmax] [Hc Hcn] Hstart Hhash Hev Hch Hwf Hsh Hused].
  apply push_case_Ok in H as (case & alias & Hrec & Hval & Hres & Hlt & _ & Halias & gates & Hg & ->).
  rewrite Hr, Hv, Hp, Ha, Hc, Ho in *.
  assert (Hs : run_shard_for_chunk_index (zlen chunks) = case_shard (zlen rows)).
  { unfold case_shard. f_equal. Z.to_euclidean_division_equations. lia. }
  rewrite Hs in *. set (rc := (record, case) : PlannedCase). exists case. fold rc.
  assert (Hrc : ordinal_of rc = zlen rows) by done.
  assert (Hlen : zlen (rows ++ [rc]) = zlen rows + 1) by (by rewrite zlen_app).
  set (s := case_shard (zlen rows)) in *.
  assert (Hrange : 0 <= s < 128) by apply case_shard_range.
  set (st := default (fresh_shard profile alias) (bt_get s (ac_shards a))) in *.
  destruct (current_shard _ _ _ _ s alias HI Hrange Halias) as [Hplan Hgates Hproj Hal]. fold st in Hplan, Hgates, Hproj, Hal.
  rewrite Hgates in Hg.
  apply (count_gates_exact _ rc) in Hg as ->; [|done].
  assert (Hon : List.filter (on_shard s) (rows ++ [rc]) = List.filter (on_shard s) rows ++ [rc]).
  { rewrite filter_snoc. unfold on_shard at 1. by rewrite Hrc, Z.eqb_refl. }
  assert (Hnew : planned_shard aliases (rows ++ [rc]) chunks s (mkShardState (ss_plan st)
     (gate_counts (List.filter (on_shard s) rows ++ [rc])) (update_projection_hash (ss_projection st)
        (mkRunShardCaseDraft run_id s version (dc_id case) (zlen rows) (cr_case_hash record))) (ss_alias st))).
  { split; cbn [ss_plan ss_gate_counts ss_projection ss_alias]; rewrite ?Hon; try done.
    rewrite project_snoc, Hproj. f_equal. unfold draft_of. by rewrite Hrc. }
  split; cbn [ac_run_id ac_version ac_profile ac_aliases ac_shards ac_chunk_count ac_evaluator_count ac_ordinal
    ac_chunk_hash ac_chunk_start]; rewrite ?Hlen.
  - done.
  - apply Forall_app. split; [done|]. by repeat constructor.
  - intros i x [Hi|[Hi Hx]]%lookup_app_Some; [by apply Hord|].
    apply list_lookup_singleton_Some in Hx as [He <-]. rewrite Hrc. unfold zlen. lia.
  - lia.
  - lia.
  - lia.
  - rewrite filter_snoc. unfold from at 1. rewrite Hrc. replace (_ <=? _) with true by lia.
    rewrite project_snoc, Hhash. f_equal. unfold draft_of. by rewrite Hrc.
  - rewrite sumz_app, <- Hev. simpl. lia.
  - intros i c Hi. apply planned_chunk_snoc; [by apply Hch| |done]. apply lookup_lt_Some in Hi. unfold zlen in *. lia.
  - auto.
  - intros s' st' Hget. rewrite bt_get_insert in Hget by done. case_decide as Hd.
    + subst s'. by injection Hget as <-.
    + apply planned_shard_other; [auto|]. by rewrite Hrc.
  - intros s'. rewrite shard_step by (unfold zlen; lia). rewrite <- Hused. unfold bt_mem at 1.
    rewrite bt_get_insert by done. fold s. case_decide; [naive_solver|]. unfold bt_mem. naive_solver.
Qed.

(** *** Closing a chunk *)

Lemma shard_chunks_snoc s chunks c :
  shard_chunks_of s (chunks ++ [c])
  = if rc_run_shard c =? s then shard_chunks_of s chunks ++ [chunk_identity c] else shard_chunks_of s chunks.
Proof. unfold shard_chunks_of. rewrite filter_snoc. case_if; [by rewrite map_app|done]. Qed.

Lemma finish_chunk_inv aliases rows a chunks a' o :
  planning_inv aliases rows a chunks -> finish_chunk a = Ok (a', o) ->
  planning_inv aliases rows a' (chunks ++ option_list o) /\ ac_chunk_start a' = zlen rows.
Proof.
  intros HI H. pose proof HI as [(Hr & Hv & Hp & Ha) Hrows Hord [Ho Hmax] [Hc Hcn] Hstart Hhash Hev Hch Hwf Hsh Hused].
  apply finish_chunk_Ok in H as [(He & -> & ->)|(c & st & plan & Hne & -> & _ & Hid & Hceq & Hst & Hpush & ->)].
  { simpl. rewrite app_nil_r. split; [done|lia]. }
  change (option_list (Some c)) with [c]. rewrite Hr, Hv, Hp, Ha, Hc, Ho in *.
  assert (Hlen : zlen (chunks ++ [c]) = zlen chunks + 1) by (by rewrite zlen_app).
  assert (Hlast : forall rc, rc ∈ rows -> from (ac_chunk_start a) rc = within (ac_chunk_start a) (zlen rows) rc).
  { intros rc Hrc. pose proof (in_rows _ _ Hrc Hord). unfold from, within. lia. }
  split; [|done].
  split; cbn [ac_run_id ac_version ac_profile ac_aliases ac_shards ac_chunk_count ac_evaluator_count ac_ordinal
    ac_chunk_hash ac_chunk_start]; rewrite ?Hlen; try done || lia.
  - rewrite filter_none; [done|]. intros rc Hrc. pose proof (in_rows _ _ Hrc Hord). unfold from. lia.
  - intros i x [Hi|[Hi Hx]]%lookup_app_Some; [by apply Hch|].
    apply list_lookup_singleton_Some in Hx as [He <-].
    assert (Z.of_nat i = zlen chunks) as -> by (unfold zlen; lia). rewrite Hceq.
    split; cbn; try done || lia. rewrite Hhash. do 2 f_equal. apply List.filter_ext_in. intros rc Hrc.
    apply Hlast. by apply list_elem_of_In.
  - auto.
  - intros s' st' Hget. rewrite bt_get_insert in Hget by done. case_decide as Hd.
    + injection Hget as <-. subst s'. destruct (Hsh _ _ Hst) as []. split; try done.
      rewrite shard_chunks_snoc, Z.eqb_refl, foldM_app, ps_plan0. simpl. by rewrite Hpush.
    + destruct (Hsh _ _ Hget) as []. split; try done. rewrite shard_chunks_snoc. by replace (_ =? _) with false by lia.
  - intros s'. rewrite <- Hused. unfold bt_mem. rewrite bt_get_insert by done. case_decide as Hd; [|done].
    subst s'. by rewrite Hst.
Qed.

(** *** The whole pass *)

Definition open_chunk (rows : list PlannedCase) (chunks : list RunChunk) : Prop :=
  100 * zlen chunks <= zlen rows < 100 * zlen chunks + 100.

Lemma collect_chunk_inv aliases rows a chunks record a' chunks' :
  NoDup (map sg_id (profile_gates profile)) -> planning_inv aliases rows a chunks -> open_chunk rows chunks ->
  collect_chunk (a, chunks) record = Ok (a', chunks') ->
  exists case, planning_inv aliases (rows ++ [(record, case)]) a' chunks' /\
    open_chunk (rows ++ [(record, case)]) chunks'.
Proof.
  intros Hnd HI Hopen H. unfold collect_chunk, accumulator_push in H. cbn [fst snd] in H.
  apply bind_Ok in H as ([a2 o] & H & Heq). injection Heq as <- <-. apply bind_Ok in H as (a1 & H1 & H).
  destruct (push_case_inv _ _ _ _ _ _ Hnd HI Hopen H1) as [case HI1]. exists case.
  assert (Hlen : zlen (rows ++ [(record, case)]) = zlen rows + 1) by (by rewrite zlen_app).
  pose proof HI1 as [_ _ _ [Ho _] [_ Hcn] Hstart _ _ _ _ _ _]. unfold open_chunk in *. rewrite Hlen in *.
  destruct (ac_ordinal a1 - ac_chunk_start a1 =? 100) eqn:E100.
  - destruct (finish_chunk_inv _ _ _ _ _ _ HI1 H) as [HI2 Hs2]. split; [done|].
    destruct HI2 as [_ _ _ _ [_ Hcn2] Hstart2 _ _ _ _ _ _]. rewrite Hlen in *.
    apply finish_chunk_Ok in H as [(He & _)|(c & ? & ? & _ & -> & _)]; [lia|].
    change (option_list (Some c)) with [c] in *. rewrite zlen_app in *. change (zlen [c]) with 1 in *. lia.
  - injection H as <- <-. change (option_list None) with (@nil RunChunk). rewrite app_nil_r. split; [done|]. lia.
Qed.

Lemma collect_chunks_inv aliases records rows a chunks a' chunks' :
  NoDup (map sg_id (profile_gates profile)) -> planning_inv aliases rows a chunks -> open_chunk rows chunks ->
  foldM collect_chunk (a, chunks) records = Ok (a', chunks') ->
  exists rows', map fst rows' = records /\ planning_inv aliases (rows ++ rows') a' chunks'.
Proof.
  intros Hnd. revert rows a chunks; induction records as [|r records IH]; intros rows a chunks HI Hopen H.
  - injection H as <- <-. exists []. by rewrite app_nil_r.
  - cbn [foldM] in H. apply bind_Ok in H as ([a1 chunks1] & H1 & H).
    destruct (collect_chunk_inv _ _ _ _ _ _ _ Hnd HI Hopen H1) as (case & HI1 & Hopen1).
    destruct (IH _ _ _ HI1 Hopen1 H) as (rows' & Hm & HI'). exists ((r, case) :: rows').
    rewrite <- app_assoc in HI'. simpl. by rewrite Hm.
Qed.
End reference.

Lemma accumulator_new_Ok run_id version profile assignments a :
  accumulator_new run_id version profile assignments = Ok a ->
  NoDup (map sg_id (profile_gates profile)) /\
  a = mkAccumulator run_id version profile
        (bt_collect (map (fun x => (pa_run_shard x, pa_database_alias x)) assignments)) [] 0 0 0 projection 0 /\
  Forall (fun s => 0 <= s < 128) (bt_keys (ac_aliases a)) /\ NoDup (map pa_run_shard assignments).
Proof.
  unfold accumulator_new. intros H. inv_ok.
  match goal with X : zlen (bset _) =? _ = true |- _ => rename X into Hset end.
  match goal with X : (zlen (bt_collect _) =? _) = true |- _ => rename X into Hal end.
  match goal with X : forallb _ (bt_keys _) = true |- _ => rename X into Hk end.
  unfold zlen in *. split_and!; [|done| |].
  - apply bset_length. rewrite length_map. lia.
  - apply forallb_Forall_iff in Hk. eapply Forall_impl; [exact Hk|]. simpl. lia.
  - pose proof (proj2 (bt_collect_length (map (fun x => (pa_run_shard x, pa_database_alias x)) assignments))) as Hl.
    rewrite length_map, map_map in Hl. apply Hl. lia.
Qed.

Lemma planning_start run_id version profile assignments a :
  accumulator_new run_id version profile assignments = Ok a ->
  planning_inv run_id version profile (ac_aliases a) [] a [] /\ open_chunk [] [].
Proof.
  intros (_ & -> & _)%accumulator_new_Ok. split; [|done].
  split; try done.
  intros s. unfold bt_mem, zlen. simpl. split; [done|lia].
Qed.

(** *** Totals of a shard *)

Lemma shard_chunk_count chunks s :
  (forall i c, chunks !! i = Some c -> rc_run_shard c = run_shard_for_chunk_index (Z.of_nat i)) -> 0 <= s < 128 ->
  zlen (shard_chunks_of s chunks) = (zlen chunks + 127 - s) / 128.
Proof.
  intros Hch Hs. induction chunks as [|c chunks IH] using rev_ind.
  { unfold zlen. simpl. Z.to_euclidean_division_equations. lia. }
  rewrite shard_chunks_snoc, zlen_app. change (zlen [c]) with 1.
  assert (Hc : rc_run_shard c = run_shard_for_chunk_index (zlen chunks)).
  { apply (Hch (length chunks)). by rewrite lookup_app_r, Nat.sub_diag. }
  specialize (IH ltac:(intros i x Hi; apply Hch; by apply lookup_app_l_Some)).
  unfold run_shard_for_chunk_index, RUN_SHARD_COUNT in Hc. pose proof (zlen_nonneg chunks).
  destruct (rc_run_shard c =? s) eqn:Es; rewrite ?zlen_app; change (zlen [chunk_identity c]) with 1;
    rewrite IH; Z.to_euclidean_division_equations; lia.
Qed.

Lemma full_chunk_cases chunks s :
  (forall i c, chunks !! i = Some c -> rc_ordinal_end c - rc_ordinal_start c = 100) ->
  sumz range_size (shard_chunks_of s chunks) = 100 * zlen (shard_chunks_of s chunks).
Proof.
  intros Hch. induction chunks as [|c chunks IH] using rev_ind; [done|].
  specialize (IH ltac:(intros i x Hi; apply (Hch i); by apply lookup_app_l_Some)).
  assert (Hc : rc_ordinal_end c - rc_ordinal_start c = 100).
  { apply (Hch (length chunks)). by rewrite lookup_app_r, Nat.sub_diag. }
  rewrite shard_chunks_snoc. case_if; [|done]. rewrite sumz_app, zlen_app. simpl.
  unfold range_size at 2. simpl. change (zlen [chunk_identity c]) with 1. lia.
Qed.

(** The totals of a shard in closed form. *)
Definition policy_chunks (count s : Z) : Z := ((count + 99) / 100 + 127 - s) / 128.
Definition policy_cases (count s : Z) : Z :=
  let chunks := (count + 99) / 100 in
  100 * policy_chunks count s - (if run_shard_for_chunk_index (chunks - 1) =? s then 100 * chunks - count else 0).

Lemma planned_totals run_id version profile aliases rows a chunks s st :
  planning_inv run_id version profile aliases rows a chunks -> ac_chunk_start a = zlen rows -> 0 < zlen rows ->
  bt_get s (ac_shards a) = Some st ->
  zlen chunks = (zlen rows + 99) / 100 /\
  mn_chunk_count (ss_plan st) = policy_chunks (zlen rows) s /\ mn_case_count (ss_plan st) = policy_cases (zlen rows) s.
Proof.
  intros HI Hend Hpos Hst. destruct HI as [_ _ _ _ [_ Hcn] Hstart _ _ Hch _ Hsh Hused].
  assert (Hlen : zlen chunks = (zlen rows + 99) / 100) by (Z.to_euclidean_division_equations; lia).
  assert (Hs : 0 <= s < 128) by (apply Hused; unfold bt_mem; by rewrite Hst).
  destruct (Hsh s st Hst) as [Hplan _ _ _]. apply manifest_fold in Hplan as (_ & Hcc & Hkk).
  rewrite Hcc, Hkk. unfold policy_cases, policy_chunks. rewrite <- Hlen. split; [done|].
  rewrite <- shard_chunk_count; [|intros i c Hi; by destruct (Hch i c Hi)|done]. split; [done|].
  destruct chunks as [|c chunks _] using rev_ind; [unfold zlen in *; simpl in *; lia|].
  rewrite zlen_app in *. change (zlen [c]) with 1 in *. replace (zlen chunks + 1 - 1) with (zlen chunks) by lia.
  assert (Hc : planned_chunk run_id version rows (zlen chunks) c).
  { apply (Hch (length chunks)). by rewrite lookup_app_r, Nat.sub_diag. }
  destruct Hc as [_ _ Hshard Hcs Hce _ _ _].
  assert (Hfull : forall i x, chunks !! i = Some x -> rc_ordinal_end x - rc_ordinal_start x = 100).
  { intros i x Hi. pose proof (lookup_lt_Some _ _ _ Hi).
    destruct (Hch i x ltac:(by apply lookup_app_l_Some)) as [_ _ _ -> -> _ _ _]. unfold zlen in *. lia. }
  rewrite shard_chunks_snoc, <- Hshard. destruct (rc_run_shard c =? s); [|rewrite full_chunk_cases by done; lia].
  rewrite sumz_app, full_chunk_cases, zlen_app by done. change (zlen [chunk_identity c]) with 1. simpl.
  unfold range_size. simpl. lia.
Qed.

Lemma sumz_none {A} (l : list A) : sumz (fun _ => 0) l = 0.
Proof. induction l; simpl; lia. Qed.

(** Sums over the classes of a partition. *)
Lemma sumz_pick (k v : Z) ks : NoDup ks -> k ∈ ks -> sumz (fun x => if k =? x then v else 0) ks = v.
Proof.
  induction ks as [|x ks IH]; intros Hnd Hin; [set_solver|]. apply NoDup_cons in Hnd as [Hx Hnd]. simpl.
  destruct (k =? x) eqn:Ek.
  - rewrite (sumz_ext _ (fun _ => 0) ks), sumz_none; [lia|]. apply Forall_forall. intros y Hy.
    destruct (k =? y) eqn:Eky; [|done]. exfalso. apply Hx. by replace x with y by lia.
  - rewrite IH; [lia|done|]. apply elem_of_cons in Hin as [->|?]; [lia|done].
Qed.
Lemma sumz_plus {A} (f g : A -> Z) l : sumz (fun x => f x + g x) l = sumz f l + sumz g l.
Proof. induction l; simpl; lia. Qed.

Lemma sumz_partition {A} (key f : A -> Z) ks l :
  NoDup ks -> (forall x, x ∈ l -> key x ∈ ks) ->
  sumz (fun k => sumz f (List.filter (fun x => key x =? k) l)) ks = sumz f l.
Proof.
  intros Hnd. induction l as [|x l IH]; intros Hk; simpl.
  { apply sumz_none. }
  rewrite <- IH, <- (sumz_pick (key x) (f x) ks Hnd), <- sumz_plus by set_solver.
  apply sumz_ext, Forall_forall. intros k _. destruct (key x =? k); simpl; lia.
Qed.

Lemma chunk_sizes run_id version rows chunks :
  (forall i c, chunks !! i = Some c -> planned_chunk run_id version rows (Z.of_nat i) c) ->
  sumz (fun c => rc_ordinal_end c - rc_ordinal_start c) chunks = Z.min (100 * zlen chunks) (zlen rows).
Proof.
  intros Hch. pose proof (zlen_nonneg rows). induction chunks as [|c chunks IH] using rev_ind.
  { unfold zlen at 1. simpl. lia. }
  rewrite sumz_app, IH, zlen_app by (intros i x Hi; apply Hch; by apply lookup_app_l_Some).
  assert (Hc : planned_chunk run_id version rows (zlen chunks) c).
  { apply (Hch (length chunks)). by rewrite lookup_app_r, Nat.sub_diag. }
  destruct Hc as [_ _ _ Hs He Hlt _ _]. simpl. rewrite Hs, He in *. change (zlen [c]) with 1. lia.
Qed.

(** Together the shards hold every case. *)
Lemma planned_case_total run_id version profile aliases rows a chunks :
  planning_inv run_id version profile aliases rows a chunks -> ac_chunk_start a = zlen rows ->
  sumz (fun kv => mn_case_count (ss_plan kv.2)) (ac_shards a) = zlen rows.
Proof.
  intros HI Hend. pose proof HI as [_ _ _ _ [_ Hcn] Hstart _ _ Hch Hwf Hsh Hused].
  transitivity (sumz (fun c => rc_ordinal_end c - rc_ordinal_start c) chunks).
  - rewrite <- (sumz_partition rc_run_shard _ (bt_keys (ac_shards a))).
    + unfold bt_keys. rewrite sumz_map. apply sumz_ext, Forall_forall. intros [s st] Hin.
      apply bt_get_elem in Hin; [|done]. destruct (Hsh s st Hin) as [Hplan _ _ _]. cbn [fst snd].
      apply manifest_fold in Hplan as (_ & _ & ->). unfold shard_chunks_of. by rewrite sumz_map.
    + by apply bt_wf_NoDup.
    + intros c [i Hi]%list_elem_of_lookup_1. apply bt_mem_keys, Hused; [done|].
      destruct (Hch i c Hi) as [_ _ -> Hs He Hlt _ _]. unfold run_shard_for_chunk_index, RUN_SHARD_COUNT.
      Z.to_euclidean_division_equations. lia.
  - rewrite (chunk_sizes run_id version rows chunks Hch). lia.
Qed.

(** *** Nothing else fails

    Valid cases in order, a placement for every shard they reach and counts in
    range are all a pass needs: the remaining errors, the panics of [expect]
    among them, are unreachable. *)
Section completeness.
Variables (run_id version : Uuid) (profile : RunProfile) (aliases : btree Z string).
(** Serialising a JSON object or the hashed triple of a manifest does not fail. *)
Hypothesis to_vec_total : forall v, exists bytes, to_vec v = Ok bytes.
Hypothesis plan_to_vec_total : forall x, exists bytes, plan_to_vec x = Ok bytes.
Hypothesis gate_ids : NoDup (map sg_id (profile_gates profile)).

Lemma ok_checked lo hi v msg : lo <= v <= hi -> ok_or (checked lo hi v) msg = Ok v.
Proof. intros H. by rewrite (proj2 (checked_Some lo hi v v)). Qed.

Lemma matching_le g rows : 0 <= matching profile g rows <= zlen rows.
Proof.
  unfold matching, zlen. pose proof (List.filter_length_le (fun rc => case_matches_gate profile rc.2 g) rows). lia.
Qed.

Lemma count_gates_total case l m :
  NoDup (map sg_id l) ->
  Forall (fun g => exists n, bt_get (sg_id g) m = Some n /\ 0 <= n < i32_max) l -> bt_wf m ->
  exists m', foldM (count_gate profile case) m l = Ok m'.
Proof.
  revert m; induction l as [|g l IH]; intros m Hnd Hall Hm; [by eexists|].
  simpl in Hnd. apply NoDup_cons in Hnd as [Hg Hnd]. apply Forall_cons in Hall as [(n & Hn & Hr) Hall].
  assert (H1 : exists m1, count_gate profile case m g = Ok m1 /\ bt_wf m1 /\
    forall id, id <> sg_id g -> bt_get id m1 = bt_get id m).
  { unfold count_gate. destruct (case_matches_gate profile case g); [|by exists m].
    rewrite Hn. cbn [ok_or mbind result_bind]. unfold i32_checked_add.
    rewrite ok_checked by (unfold i32_min; lia). cbn [mbind result_bind]. eexists. split_and!; [done|auto|].
    intros id Hid. by apply bt_get_insert_ne. }
  destruct H1 as (m1 & H1 & Hm1 & Hother). cbn [foldM]. rewrite H1. cbn [mbind result_bind]. apply IH; [done| |done].
  rewrite Forall_forall in *. intros g' Hg'. destruct (Hall g' Hg') as (n' & Hn' & ?). exists n'.
  rewrite Hother; [done|]. intros He. apply Hg. rewrite <- He. apply list_elem_of_fmap. by exists g'.
Qed.

Lemma push_case_total rows a chunks record case alias :
  planning_inv run_id version profile aliases rows a chunks -> open_chunk rows chunks ->
  accepted_case profile (record, case) -> cr_case_ordinal record = zlen rows -> zlen rows < i32_max ->
  sumz (fun rc => planned_evaluators profile rc.2) (rows ++ [(record, case)]) <= u64_max ->
  bt_get (case_shard (zlen rows)) aliases = Some alias ->
  exists a', push_case a record = Ok a'.
Proof.
  intros HI Hopen [Hval Hres] Hrec Hlt Hev Halias. cbn [fst snd] in Hval, Hres.
  pose proof HI as [(Hr & Hv & Hp & Ha) Hrows Hord [Ho Hmax] [Hc Hcn] Hstart Hhash Hevs Hch Hwf Hsh Hused].
  assert (Hsum : 0 <= sumz (fun rc : PlannedCase => planned_evaluators profile rc.2) rows).
  { apply sumz_nonneg, Forall_forall. intros. apply planned_evaluators_nonneg. }
  rewrite sumz_app in Hev. simpl in Hev. pose proof (planned_evaluators_nonneg profile case).
  assert (Hs : run_shard_for_chunk_index (zlen chunks) = case_shard (zlen rows)).
  { unfold case_shard. f_equal. unfold open_chunk in Hopen. Z.to_euclidean_division_equations. lia. }
  unfold push_case, usize_try_from, u64_checked_add, i32_checked_add.
  rewrite Hrec, Ho, Hp, Ha, Hc, Hr, Hv, Hval. rewrite Z.eqb_refl. cbn [ensure mbind result_bind]. rewrite Hres.
  pose proof (zlen_nonneg chunks).
  cbn [mbind result_bind]. rewrite (ok_checked 0 u64_max (planned_evaluators profile case)) by lia.
  cbn [mbind result_bind]. rewrite (ok_checked 0 u64_max (ac_evaluator_count a + _)) by lia.
  cbn [mbind result_bind]. rewrite (ok_checked 0 usize_max) by (unfold usize_max, u64_max, i32_max in *; lia).
  cbn [mbind result_bind].
  rewrite Hs, Halias. cbn [ok_or mbind result_bind].
  destruct (current_shard _ _ _ _ _ _ _ (case_shard (zlen rows)) alias HI (case_shard_range _) Halias) as [_ Hg _ _].
  rewrite Hg. destruct (count_gates_total case (profile_gates profile)
    (gate_counts profile (List.filter (on_shard (case_shard (zlen rows))) rows))) as [m Hm];
    [done| |apply bt_collect_wf|].
  - apply Forall_forall. intros g Hin. eexists. split; [by apply gate_counts_get|].
    pose proof (matching_le g (List.filter (on_shard (case_shard (zlen rows))) rows)).
    pose proof (List.filter_length_le (on_shard (case_shard (zlen rows))) rows). unfold zlen in *. lia.
  - rewrite Hm. cbn [mbind result_bind]. pose proof (zlen_nonneg rows).
    rewrite ok_checked by (unfold i32_min in *; lia). by eexists.
Qed.

Lemma uuid_from_json_total v : exists id, uuid_from_json v = Ok id.
Proof. unfold uuid_from_json. destruct (to_vec_total v) as [bytes ->]. by eexists. Qed.

Lemma manifest_push_total m c :
  0 <= ci_ordinal_start c < ci_ordinal_end c ->
  (forall l, mn_last m = Some l -> ci_run_shard l = ci_run_shard c /\ ci_ordinal_end l <= ci_ordinal_start c) ->
  0 <= mn_chunk_count m < i32_max -> 0 <= mn_case_count m ->
  mn_case_count m + (ci_ordinal_end c - ci_ordinal_start c) <= i32_max ->
  exists m', manifest_push m c = Ok m'.
Proof.
  intros Hr Hl Hc Hk Hk'. unfold manifest_push, i32_checked_add. destruct Hr as [Hr1 Hr2].
  replace ((0 <=? ci_ordinal_start c) && (ci_ordinal_start c <? ci_ordinal_end c)) with true by lia.
  cbn [ensure mbind result_bind].
  assert (match mn_last m with
          | Some last => ensure ((ci_run_shard last =? ci_run_shard c) && (ci_ordinal_end last <=? ci_ordinal_start c))
                           "overlapping or unordered planned chunks"
          | None => Ok tt
          end = Ok tt) as ->.
  { destruct (mn_last m) as [l|]; [|done]. destruct (Hl l eq_refl). apply ensure_Ok. lia. }
  cbn [mbind result_bind]. rewrite (ok_checked i32_min i32_max (mn_chunk_count m + 1)) by (unfold i32_min in *; lia).
  cbn [mbind result_bind]. rewrite ok_checked by (unfold i32_min in *; lia). cbn [mbind result_bind].
  destruct (plan_to_vec_total ("vigilo/chunk-plan:1", mn_hash m, c)) as [bytes ->]. by eexists.
Qed.

Lemma shard_chunks_le s chunks : (length (shard_chunks_of s chunks) <= length chunks)%nat.
Proof. unfold shard_chunks_of. rewrite length_map. apply List.filter_length_le. Qed.

Lemma finish_chunk_total rows a chunks :
  planning_inv run_id version profile aliases rows a chunks -> exists r, finish_chunk a = Ok r.
Proof.
  intros HI. pose proof HI as [(Hr & Hv & Hp & Ha) Hrows Hord [Ho Hmax] [Hc Hcn] Hstart Hhash Hevs Hch Hwf Hsh Hused].
  unfold finish_chunk, usize_try_from, i32_checked_add. rewrite Ho, Hc, Hr, Hstart.
  destruct (_ =? _) eqn:Eo; [by eexists|]. pose proof (zlen_nonneg chunks).
  rewrite (ok_checked 0 usize_max) by (unfold usize_max, u64_max, i32_max in *; lia). cbn [mbind result_bind].
  destruct (uuid_from_json_total (chunk_id_value run_id (zlen chunks))) as [id ->]. cbn [mbind result_bind].
  set (s := run_shard_for_chunk_index (zlen chunks)).
  assert (Hs : 0 <= s < 128) by (apply Z.mod_pos_bound; done).
  assert (Hm : bt_mem s (ac_shards a) = true).
  { apply Hused. split; [done|]. subst s. unfold run_shard_for_chunk_index, RUN_SHARD_COUNT.
    Z.to_euclidean_division_equations. lia. }
  unfold bt_mem in Hm. destruct (bt_get s (ac_shards a)) as [st|] eqn:Eg; [|done]. cbn [ok_or mbind result_bind].
  destruct (Hsh s st Eg) as [Hplan _ _ _]. apply manifest_fold in Hplan as (Hlast & Hcc & Hkk).
  assert (Hfull : forall i c, chunks !! i = Some c -> rc_ordinal_end c - rc_ordinal_start c = 100 /\ rc_ordinal_end c <= 100 * zlen chunks).
  { intros i c Hi. pose proof (lookup_lt_Some _ _ _ Hi). destruct (Hch i c Hi) as [_ _ _ -> -> _ _ _]. unfold zlen in *. lia. }
  rewrite full_chunk_cases in Hkk by (intros i c Hi; by apply (Hfull i c)).
  pose proof (shard_chunks_le s chunks) as Hle.
  destruct (manifest_push_total (ss_plan st) (mkChunkIdentity id s (Z.min (100 * zlen chunks) (zlen rows)) (zlen rows)))
    as [plan ->]; cbn [ci_ordinal_start ci_ordinal_end ci_run_shard]; [lia| |unfold zlen in *; lia..|].
  - intros last Hl. rewrite Hlast in Hl. unfold shard_chunks_of in Hl. rewrite (fmap_last chunk_identity) in Hl.
    apply fmap_Some in Hl as (c & Hl & ->). apply last_Some_elem_of, elem_of_lfilter in Hl as [Hin Hsh'].
    apply list_elem_of_lookup_1 in Hin as [i Hi]. destruct (Hfull i c Hi). simpl. lia.
  - cbn [mbind result_bind]. rewrite ok_checked by (unfold i32_min, i32_max in *; lia). by eexists.
Qed.
Lemma collect_chunks_total rest rows a chunks :
  planning_inv run_id version profile aliases rows a chunks -> open_chunk rows chunks ->
  Forall (accepted_case profile) rest ->
  (forall i rc, (rows ++ rest) !! i = Some rc -> ordinal_of rc = Z.of_nat i) ->
  zlen (rows ++ rest) <= i32_max -> sumz (fun rc => planned_evaluators profile rc.2) (rows ++ rest) <= u64_max ->
  (forall s, 0 <= s < 128 -> 100 * s < zlen (rows ++ rest) -> is_Some (bt_get s aliases)) ->
  exists a' chunks', foldM collect_chunk (a, chunks) (map fst rest) = Ok (a', chunks') /\
    planning_inv run_id version profile aliases (rows ++ rest) a' chunks'.
Proof.
  revert rows a chunks; induction rest as [|[record case] rest IH]; intros rows a chunks HI Hopen Hacc Hord Hmax Hev Hal.
  { exists a, chunks. by rewrite app_nil_r. }
  apply Forall_cons in Hacc as [Hrc Hacc].
  assert (Hrec : cr_case_ordinal record = zlen rows).
  { apply (Hord (length rows) (record, case)). by rewrite lookup_app_r, Nat.sub_diag. }
  pose proof (zlen_nonneg rows). pose proof (zlen_nonneg rest). rewrite zlen_app, zlen_cons in Hmax.
  destruct (Hal (case_shard (zlen rows)) (case_shard_range _)) as [alias Halias].
  { rewrite zlen_app, zlen_cons. unfold case_shard, run_shard_for_chunk_index, RUN_SHARD_COUNT.
    Z.to_euclidean_division_equations. lia. }
  assert (Hstep : exists a1 chunks1, collect_chunk (a, chunks) record = Ok (a1, chunks1)).
  { destruct (push_case_total rows a chunks record case alias) as [a1 H1]; [done..|lia| |done|].
    { assert (0 <= sumz (fun rc : PlannedCase => planned_evaluators profile rc.2) rest).
      { apply sumz_nonneg, Forall_forall. intros. apply planned_evaluators_nonneg. }
      rewrite sumz_app in Hev |- *. simpl in *. lia. }
    destruct (push_case_inv _ _ _ _ _ _ _ _ _ gate_ids HI Hopen H1) as [case1 HI1].
    destruct (finish_chunk_total _ _ _ HI1) as [r Hr].
    unfold collect_chunk, accumulator_push. cbn [fst]. rewrite H1. cbn [mbind result_bind].
    destruct (_ =? 100); [rewrite Hr|]; by eexists _, _. }
  destruct Hstep as (a1 & chunks1 & Hstep). cbn [map foldM fst]. rewrite Hstep. cbn [mbind result_bind].
  destruct (collect_chunk_inv _ _ _ _ _ _ _ _ _ _ gate_ids HI Hopen Hstep) as (case1 & HI1 & Hopen1).
  assert (case1 = case) as ->.
  { pose proof (pi_rows _ _ _ _ _ _ _ HI1) as Hacc1. apply Forall_app, proj2, Forall_inv in Hacc1.
    destruct Hacc1 as [Hv1 _], Hrc as [Hv _]. cbn [fst snd] in *. congruence. }
  destruct (IH (rows ++ [(record, case)]) a1 chunks1) as (a' & chunks' & Hf & HI'); rewrite <- ?app_assoc; try done.
  { rewrite zlen_app. simpl. rewrite zlen_cons. lia. }
  exists a', chunks'. rewrite <- app_assoc in HI'. done.
Qed.
End completeness.

(** *** Completion *)

Lemma gate_total_sum id (f : Z -> Z) shards :
  Forall (fun kv : Z * ShardState => bt_get id (ss_gate_counts kv.2) = Some (f kv.1)) shards ->
  gate_total id shards = Ok (sumz (fun kv => f kv.1) shards).
Proof.
  unfold gate_total. intros Hall. enough (Hgen : forall t, foldM (fun total st =>
      count ← ok_or (bt_get id (ss_gate_counts st)) "no entry found for key"; Ok (total + count)) t
      (bt_values shards) = Ok (t + sumz (fun kv => f kv.1) shards)) by apply (Hgen 0).
  induction Hall as [|kv shards Hkv _ IH]; intros t; [simpl; by rewrite Z.add_0_r|].
  cbn [bt_values map foldM sumz foldr]. rewrite Hkv. cbn [ok_or mbind result_bind]. rewrite IH.
  f_equal. unfold sumz. lia.
Qed.

Lemma matching_pos profile gate rows :
  0 < matching profile gate rows <-> exists rc, rc ∈ rows /\ case_matches_gate profile rc.2 gate = true.
Proof.
  unfold matching. split.
  - destruct (List.filter _ rows) as [|rc l] eqn:Ef; [unfold zlen; simpl; lia|]. intros _. exists rc.
    apply (elem_of_lfilter (fun rc => case_matches_gate profile rc.2 gate)). rewrite Ef. set_solver.
  - intros (rc & Hin & Hm). assert (Hf : rc ∈ List.filter (fun rc => case_matches_gate profile rc.2 gate) rows).
    { by apply elem_of_lfilter. }
    destruct (List.filter _ rows); [set_solver|]. rewrite zlen_cons. pose proof (zlen_nonneg l). lia.
Qed.

Lemma gate_total_planned run_id version profile aliases rows a chunks gate :
  NoDup (map sg_id (profile_gates profile)) -> planning_inv run_id version profile aliases rows a chunks ->
  gate ∈ profile_gates profile ->
  exists total, gate_total (sg_id gate) (ac_shards a) = Ok total /\
    (0 < total <-> exists rc, rc ∈ rows /\ case_matches_gate profile rc.2 gate = true).
Proof.
  intros Hnd [_ _ Hord _ _ _ _ _ _ Hwf Hsh Hused] Hg.
  eexists. split.
  { apply (gate_total_sum _ (fun s => matching profile gate (List.filter (on_shard s) rows))).
    apply Forall_forall. intros [s st] Hin. apply bt_get_elem in Hin; [|done].
    simpl. destruct (Hsh s st Hin) as [_ -> _ _]. by apply gate_counts_get. }
  assert (Hnn : Forall (fun kv : Z * ShardState => 0 <= matching profile gate (List.filter (on_shard kv.1) rows)) (ac_shards a)).
  { apply Forall_forall. intros. apply matching_le. }
  split.
  - intros Hpos. destruct (decide (Exists (fun kv : Z * ShardState =>
      0 < matching profile gate (List.filter (on_shard kv.1) rows)) (ac_shards a))) as [Hex|Hno].
    + apply Exists_exists in Hex as (kv & _ & Hkv). apply matching_pos in Hkv as (rc & Hin & Hm). exists rc.
      split; [|done]. by apply elem_of_lfilter in Hin as [Hin _].
    + exfalso. assert (Hz : sumz (fun kv : Z * ShardState => matching profile gate (List.filter (on_shard kv.1) rows)) (ac_shards a) <= 0); [|lia].
      apply sumz_nonpos; [done|]. apply Forall_forall. intros kv Hkv. rewrite Forall_forall in Hnn.
      specialize (Hnn kv Hkv). cbv beta in Hnn.
      destruct (decide (0 < matching profile gate (List.filter (on_shard kv.1) rows))); [|lia].
      exfalso. apply Hno, Exists_exists. by exists kv.
  - intros (rc & Hin & Hm). apply Z.nle_gt. intros Hle. apply sumz_nonpos in Hle; [|done].
    pose proof (in_rows _ _ Hin Hord) as Hr. set (s := case_shard (ordinal_of rc)).
    assert (Hmem : bt_mem s (ac_shards a) = true).
    { apply Hused. split; [apply case_shard_range|]. subst s. unfold case_shard, run_shard_for_chunk_index, RUN_SHARD_COUNT.
      Z.to_euclidean_division_equations. lia. }
    unfold bt_mem in Hmem. destruct (bt_get s (ac_shards a)) as [st|] eqn:Eg; [|done].
    apply bt_get_elem in Eg; [|done]. rewrite Forall_forall in Hle. specialize (Hle _ Eg). simpl in Hle.
    assert (0 < matching profile gate (List.filter (on_shard s) rows)); [|lia].
    apply matching_pos. exists rc. split; [|done]. apply elem_of_lfilter. split; [done|]. unfold on_shard. apply Z.eqb_refl.
Qed.

Lemma validate_complete_spec run_id version profile aliases rows a chunks :
  NoDup (map sg_id (profile_gates profile)) -> planning_inv run_id version profile aliases rows a chunks ->
  ac_chunk_start a = zlen rows -> 0 < zlen rows -> bt_wf aliases ->
  Forall (fun s => 0 <= s < 128) (bt_keys aliases) ->
  (forall s, 0 <= s < 128 -> 100 * s < zlen rows -> is_Some (bt_get s aliases)) ->
  validate_complete a (zlen rows) = Ok tt <->
  (forall s, is_Some (bt_get s aliases) -> 100 * s < zlen rows) /\
  Forall (fun g => exists rc, rc ∈ rows /\ case_matches_gate profile rc.2 g = true) (profile_gates profile).
Proof.
  intros Hnd HI Hend Hpos Hwa Hrange Hal. pose proof HI as [(_ & _ & Hp & Ha) _ _ [Ho _] _ _ _ _ _ Hwf _ Hused].
  unfold validate_complete. rewrite Ho, Hend, Hp, Ha, !Z.eqb_refl.
  replace (0 <? zlen rows) with true by lia. cbn [andb ensure mbind result_bind].
  assert (Hkeys : bt_keys aliases = bt_keys (ac_shards a) <-> forall s, is_Some (bt_get s aliases) -> 100 * s < zlen rows).
  { rewrite bt_keys_eq by done. setoid_rewrite Hused.
    assert (Hm : forall s, bt_mem s aliases = true <-> is_Some (bt_get s aliases)).
    { intros s. unfold bt_mem. destruct (bt_get s aliases); split; by try intros [? ?]. }
    split.
    - intros Hk s Hs. by apply Hm, Hk in Hs as [_ ?].
    - intros Hk s. rewrite Hm. split; [|intros [? ?]; by apply Hal]. intros Hs. split; [|by apply Hk].
      rewrite Forall_forall in Hrange. apply Hrange. apply bt_mem_keys; [done|]. by apply Hm. }
  rewrite <- Hkeys. destruct (bool_decide _) eqn:Eb.
  - apply bool_decide_eq_true in Eb. cbn [ensure mbind result_bind].
    assert (Hg : forall g, g ∈ profile_gates profile -> check_gate_total a tt g = Ok tt <->
      exists rc, rc ∈ rows /\ case_matches_gate profile rc.2 g = true).
    { intros g Hg. destruct (gate_total_planned _ _ _ _ _ _ _ _ Hnd HI Hg) as (total & Ht & <-).
      unfold check_gate_total. rewrite Ht. cbn [mbind result_bind]. rewrite ensure_Ok. lia. }
    rewrite (foldM_checks (check_gate_total a tt)), !Forall_forall. split.
    + intros H. split; [done|]. intros g Hin. apply Hg; auto.
    + intros [_ H] g Hin. apply Hg; auto.
  - apply bool_decide_eq_false in Eb. split; [done|]. by intros [? _].
Qed.

(** Planning in one pass computes the reference plan. *)
Lemma plan_cases_inv run_id version profile assignments a0 records a chunks :
  accumulator_new run_id version profile assignments = Ok a0 -> plan_cases a0 records = Ok (a, chunks) ->
  exists rows, map fst rows = records /\ planning_inv run_id version profile (ac_aliases a0) rows a chunks /\
    ac_chunk_start a = zlen rows.
Proof.
  intros Hnew H. pose proof (accumulator_new_Ok _ _ _ _ _ Hnew) as (Hnd & _).
  destruct (planning_start _ _ _ _ _ Hnew) as [HI Hopen].
  unfold plan_cases in H. apply bind_Ok in H as ([a1 chunks1] & H1 & H). apply bind_Ok in H as ([a2 o] & H2 & H).
  injection H as <- <-.
  destruct (collect_chunks_inv _ _ _ _ _ _ _ _ _ _ Hnd HI Hopen H1) as (rows & Hm & HI1). exists rows. split; [done|].
  exact (finish_chunk_inv _ _ _ _ _ _ _ _ _ HI1 H2).
Qed.

(** C9: planning in one pass computes the plan of the reference definition.  When
    the accumulator takes all records, they are valid cases numbered from 0, and
    its chunks are exactly those of the policy: chunk [i] has the case range from
    [100 * i] to [100 * (i + 1)] or the end, its derived id and shard [i mod 128],
    and the hash of its cases; the shards are those some chunk falls on, each
    with the manifest folded from its chunks, the hash of its cases and, for
    every gate, the number of its cases the gate selects. *)
Theorem plan_cases_exact run_id version profile assignments a0 records a chunks :
  accumulator_new run_id version profile assignments = Ok a0 -> plan_cases a0 records = Ok (a, chunks) ->
  exists rows, map fst rows = records /\ Forall (accepted_case profile) rows /\
    (forall i rc, rows !! i = Some rc -> ordinal_of rc = Z.of_nat i) /\
    ac_ordinal a = zlen records /\ ac_chunk_count a = (zlen records + 99) / 100 /\
    ac_chunk_count a = zlen chunks /\
    (forall i c, chunks !! i = Some c -> planned_chunk run_id version rows (Z.of_nat i) c) /\
    (forall s, bt_mem s (ac_shards a) = true <-> 0 <= s < 128 /\ 100 * s < zlen records) /\
    (forall s st, bt_get s (ac_shards a) = Some st ->
       planned_shard run_id version profile (ac_aliases a0) rows chunks s st).
Proof.
  intros Hnew H. destruct (plan_cases_inv _ _ _ _ _ _ _ _ Hnew H) as (rows & <- & HI & Hend).
  exists rows. assert (zlen (map fst rows) = zlen rows) as -> by (unfold zlen; by rewrite length_map).
  destruct HI as [_ Hrows Hord [Ho _] [Hc Hcn] Hstart _ _ Hch _ Hsh Hused].
  split_and!; try done. rewrite Hc. Z.to_euclidean_division_equations. lia.
Qed.

(** C10: planning succeeds on every valid input: cases that validate and route,
    numbered from 0, at most [i32::MAX] of them with at most [u64::MAX] evaluator
    executions, and a placement for each shard they reach.  No overflow check and
    no [expect] fails, and completion holds exactly when the placements are the
    shards that have cases and every gate selects some case. *)
Theorem plan_cases_complete run_id version profile assignments a0 rows :
  (forall v, exists bytes, to_vec v = Ok bytes) -> (forall x, exists bytes, plan_to_vec x = Ok bytes) ->
  accumulator_new run_id version profile assignments = Ok a0 ->
  Forall (accepted_case profile) rows -> (forall i rc, rows !! i = Some rc -> ordinal_of rc = Z.of_nat i) ->
  0 < zlen rows <= i32_max -> sumz (fun rc => planned_evaluators profile rc.2) rows <= u64_max ->
  (forall s, 0 <= s < 128 -> 100 * s < zlen rows -> is_Some (bt_get s (ac_aliases a0))) ->
  exists a chunks, plan_cases a0 (map fst rows) = Ok (a, chunks) /\
    (validate_complete a (zlen rows) = Ok tt <->
     (forall s, is_Some (bt_get s (ac_aliases a0)) -> 100 * s < zlen rows) /\
     Forall (fun g => exists rc, rc ∈ rows /\ case_matches_gate profile rc.2 g = true) (profile_gates profile)).
Proof.
  intros Hv Hp Hnew Hacc Hord Hn Hev Hal. pose proof (accumulator_new_Ok _ _ _ _ _ Hnew) as (Hnd & Ha0 & Hrange & _).
  destruct (planning_start _ _ _ _ _ Hnew) as [HI Hopen].
  destruct (collect_chunks_total _ _ _ _ Hv Hp Hnd rows [] a0 [] HI Hopen Hacc Hord ltac:(simpl; lia) Hev Hal)
    as (a1 & chunks1 & Hf & HI1). cbn [app] in HI1.
  destruct (finish_chunk_total _ _ _ _ Hv Hp _ _ _ HI1) as [[a2 o] H2].
  exists a2, (chunks1 ++ option_list o). unfold plan_cases. rewrite Hf. cbn [mbind result_bind fst snd]. rewrite H2.
  split; [done|]. destruct (finish_chunk_inv _ _ _ _ _ _ _ _ _ HI1 H2) as [HI2 Hend].
  apply (validate_complete_spec _ _ _ _ _ _ _ Hnd HI2 Hend); [lia|rewrite Ha0; apply bt_collect_wf|done|done].
Qed.
End planning.

(** ** A dataset of 101 cases on two shards *)

Module PlanningSample.

#[global] Instance encoding : Encoding := {|
  json_parse := fun _ => Some RUnit;
  to_vec := fun v => Ok (plain_print v);
  blake3_hex := constant_digest;
  blake3_bytes := fun _ => repeat 255 32
|}.
#[global] Instance case_text : Serde DatasetCase :=
  {| ser_chunks := fun c => Ok [plain_print (dc_input c)];
     from_value := fun v =>
       match v with
       | Num (PosInt n) => Ok (mkDatasetCase n "chat" None v None None ["smoke"] [])
       | _ => Err "expected a case"
       end |}.

Definition record (i : Z) : CaseRecord := mkCaseRecord i sample_digest (Num (PosInt (i + 1))).
Definition case (i : Z) : DatasetCase :=
  mkDatasetCase (i + 1) "chat" None (Num (PosInt (i + 1))) None None ["smoke"] [].
Definition records : list CaseRecord := map record (seqZ 0 101).
Definition rows : list PlannedCase := map (fun i => (record i, case i)) (seqZ 0 101).
Definition profile : RunProfile := sample_profile two_groups.
Definition assignments : list RunShardPlacementAssignment :=
  [mkRunShardPlacementAssignment 1 "b"; mkRunShardPlacementAssignment 0 "a"].

Definition start : Accumulator := mkAccumulator 5 6 profile [(0, "a"); (1, "b")] [] 0 0 0 projection 0.
Definition planned : result (Accumulator * list RunChunk) := plan_cases pretty start records.
Definition chunks : list RunChunk := match planned with Ok (_, l) => l | Err _ => [] end.
Definition finished : Accumulator := match planned with Ok (a, _) => a | Err _ => start end.

Lemma plan_start_ok : accumulator_new 5 6 profile assignments = Ok start.
Proof. vm_compute. reflexivity. Qed.

Lemma plan_sample_ok : plan_cases pretty start records = Ok (finished, chunks).
Proof. vm_compute. reflexivity. Qed.

Lemma planned_some : exists a chunks, plan_cases pretty start records = Ok (a, chunks).
Proof. eexists _, _. exact plan_sample_ok. Qed.

Lemma rows_ok : Forall (accepted_case pretty profile) rows.
Proof.
  unfold rows. rewrite Forall_map. apply Forall_seqZ. intros i Hi. split; cbn [fst snd].
  - unfold CaseRecord_validate. cbn [cr_case_ordinal record]. replace (0 <=? i) with true by lia. reflexivity.
  - reflexivity.
Qed.

Lemma rows_ordinals i rc : rows !! i = Some rc -> ordinal_of rc = Z.of_nat i.
Proof.
  unfold rows. rewrite list_lookup_fmap. intros (j & Hj & ->)%fmap_Some.
  apply lookup_seqZ in Hj as [-> _]. unfold ordinal_of. simpl. lia.
Qed.
End PlanningSample.

Lemma plan_cases_exact_witness :
  exists rows c, planned_chunk pretty 5 6 rows 1 c /\ rc_run_shard c = 1 /\ rc_ordinal_start c = 100 /\
    rc_ordinal_end c = 101.
Proof.
  destruct (plan_cases_exact pretty 5 6 PlanningSample.profile PlanningSample.assignments PlanningSample.start
    PlanningSample.records PlanningSample.finished PlanningSample.chunks) as (rows & _ & _ & _ & _ & _ & _ & Hch & _).
  - exact PlanningSample.plan_start_ok.
  - exact PlanningSample.plan_sample_ok.
  - exists rows. eexists. split; [apply (Hch 1%nat); vm_compute; reflexivity|]. vm_compute. auto.
Defined.

Lemma plan_cases_complete_witness :
  exists a chunks, plan_cases pretty PlanningSample.start (map fst PlanningSample.rows) = Ok (a, chunks).
Proof.
  destruct (plan_cases_complete pretty 5 6 PlanningSample.profile PlanningSample.assignments PlanningSample.start
    PlanningSample.rows) as (a & chunks & H & _).
  - intros v. by eexists.
  - intros x. by eexists.
  - exact PlanningSample.plan_start_ok.
  - exact PlanningSample.rows_ok.
  - exact PlanningSample.rows_ordinals.
  - vm_compute. split; [reflexivity|discriminate].
  - vm_compute. discriminate.
  - intros s Hs. assert (zlen PlanningSample.rows = 101) as -> by (vm_compute; reflexivity). intros Hlt.
    assert (s = 0 \/ s = 1) as [-> | ->] by lia; vm_compute; by eexists.
  - by exists a, chunks.
Defined.
