(* ===== verification/RunReader.v ===== *)
(** * Reading a run's inputs

    The worker's side of a published plan, src/vigilo/src/case_reader.rs:
    opening the plan and its configuration, proving a claimed chunk against it,
    and handing out the chunk's cases, either kept from the proof or read again.
    The blob store, with or without the read cache, is the function
    [read_bytes]: stored objects are immutable, so every read of a reference
    that succeeds yields the same bytes; a cancelled or late read is one that
    fails.  The loops over index entries run on the fuel of [CaseReader]. *)

From Stdlib Require Import ZArith Lia ZifyBool.
From stdpp Require Import base strings pretty numbers gmap sets option list.
From S2P Require Import Prelude Float64 BTree Text Json RunTypes StorageFormats Codec Identity CaseReader.
From S2P Require Import ProfileValidation EvaluationPlan ShardTables ReceiptGates ChunkLease ShardSummary.
From S2P Require Import ControlTables RunPlanning.

Open Scope Z_scope.

Record RunReader := mkRunReader {
  rr_reference : ObjectRef;
  rr_limits : FormatLimits;
  rr_manifest : RunPlanManifest;
  rr_dataset : DatasetManifest;
  rr_configuration : RunConfiguration
}.

(** A proved assignment: the cases, or a cursor to read them again. *)
Record PreparedCases := mkPreparedCases {
  pc_reader : RunReader;
  pc_chunk : DbRunChunk;
  pc_cached : option (list WorkerCaseBatchItem);
  pc_cursor : option IndexCursor
}.

(** The state of the loop of [prepare] over the records. *)
Record PrepareState := mkPrepareState {
  pp_cases : list WorkerCaseBatchItem;
  pp_seen : Z;
  pp_retained : Z;
  pp_cached : bool;
  pp_hash : string
}.

Section reader.
Context `{E : Encoding} `{SR : Serde CaseRecord} `{SH : Serde CaseBatchHeader} `{SC : Serde DatasetCase}
  `{SP : Serde IndexPage} `{SM : Serde RunPlanManifest} `{SD : Serde DatasetManifest}
  `{SF : Serde RunConfiguration} `{SK : Serde RunChunkPage} `{DC : StorageDocument RunConfiguration}.
Variable uuid_display : Uuid -> string.
Variable read_bytes : ObjectRef -> result string.
(** [serde_json::to_vec(&record)?.len()]. *)
Variable record_len : CaseRecord -> result Z.

(** [Value == i32]. *)
Definition value_is_int (v : Value) (n : Z) : bool := bool_decide (as_i64 v = Some n).

(** The loop of [open_inner] over the shards of the manifest. *)
Definition check_shard_policy (case_count chunks : Z) (_ : unit) (item : RunPlanShard) : result unit :=
  let number := sp_run_shard item in
  _ ← ensure (number <? chunks) "run plan contains an unused shard";
  let count := Z.quot (chunks - 1 - number) 128 + 1 in
  let last := number + (count - 1) * 128 in
  let final_size := if last =? chunks - 1 then case_count - last * 100 else 100 in
  ensure ((sp_chunk_count item =? count) && (sp_case_count item =? (count - 1) * 100 + final_size))
    "run plan shard totals differ from execution chunk policy".

(** The checks on the totals of a manifest. *)
Definition check_plan_policy (manifest : RunPlanManifest) (case_count : Z) : result unit :=
  let chunks := Z.quot (case_count + 99) 100 in
  _ ← ensure (pm_chunk_count manifest =? chunks) "run plan differs from execution chunk policy";
  foldM (check_shard_policy case_count chunks) tt (pm_shards manifest).

Definition open_inner (reference : ObjectRef) (limits : FormatLimits) (run_id : Uuid) : result RunReader :=
  manifest ← document (T := RunPlanManifest) read_bytes reference limits;
  _ ← ensure (pm_run_id manifest =? run_id) "run-plan identity mismatch";
  _ ← ensure (str_eqb (or_storage_alias (pm_dataset manifest)) (or_storage_alias reference)) "dataset owner mismatch";
  configuration ← document (T := RunConfiguration) read_bytes (pm_configuration manifest) limits;
  dataset ← document (T := DatasetManifest) read_bytes (pm_dataset manifest) limits;
  let snapshot := StorageFormats.json_index (rcf_snapshot configuration) in
  _ ← ensure (value_is_int (snapshot "chunk_size") 100
              && str_eq_value (pm_profile_hash manifest) (snapshot "profile_hash")
              && str_eq_value (pm_aggregation_policy_hash manifest) (snapshot "aggregation_policy_hash")
              && str_eq_value (pm_execution_plan_hash manifest) (snapshot "execution_plan_hash")
              && str_eq_value (dm_dataset_hash dataset) (snapshot "dataset_hash")
              && value_eqb (snapshot "dataset_version_id") (Str (uuid_display (dm_dataset_version_id dataset)))
              && value_eqb (StorageFormats.json_index (snapshot "dataset_ref") "dataset_id")
                   (Str (uuid_display (dm_dataset_id dataset)))
              && value_is_int (StorageFormats.json_index (snapshot "dataset_ref") "case_count") (dm_case_count dataset)
              && (sumz sp_case_count (pm_shards manifest) =? dm_case_count dataset))
        "run configuration/manifest identity mismatch";
  _ ← check_plan_policy manifest (dm_case_count dataset);
  Ok (mkRunReader reference limits manifest dataset configuration).

(** The reader's formulas are the planner's totals. *)
Lemma shard_policy_closed n s :
  0 < n -> 0 <= s < 128 -> 100 * s < n ->
  let chunks := Z.quot (n + 99) 100 in
  let count := Z.quot (chunks - 1 - s) 128 + 1 in
  let last := s + (count - 1) * 128 in
  s < chunks /\ policy_chunks n s = count /\
  policy_cases n s = (count - 1) * 100 + (if last =? chunks - 1 then n - last * 100 else 100).
Proof.
  intros Hn Hs Hlt chunks count last. unfold policy_cases, policy_chunks, run_shard_for_chunk_index, RUN_SHARD_COUNT.
  assert (Hc : chunks = (n + 99) / 100) by (subst chunks; Z.to_euclidean_division_equations; lia).
  rewrite <- Hc. assert (Hsc : s < chunks) by (rewrite Hc; Z.to_euclidean_division_equations; lia).
  assert (Hcount : count = (chunks - 1 - s) / 128 + 1)
    by (subst count; rewrite Z.quot_div_nonneg by lia; reflexivity).
  assert (Hpc : (chunks + 127 - s) / 128 = count).
  { rewrite Hcount. replace (chunks + 127 - s) with (chunks - 1 - s + 1 * 128) by lia. rewrite Z.div_add by lia. lia. }
  rewrite Hpc. split; [done|]. split; [done|].
  assert (Hiff : (last =? chunks - 1) = ((chunks - 1) mod 128 =? s)).
  { apply eq_true_iff_eq. rewrite !Z.eqb_eq. subst last. rewrite Hcount. clear -Hs Hsc.
    Z.to_euclidean_division_equations. lia. }
  rewrite <- Hiff. destruct (last =? chunks - 1) eqn:El; lia.
Qed.

Lemma check_shard_policy_planned n s st gates :
  0 < n -> 0 <= s < 128 -> 100 * s < n ->
  mn_chunk_count (ss_plan st) = policy_chunks n s -> mn_case_count (ss_plan st) = policy_cases n s ->
  check_shard_policy n (Z.quot (n + 99) 100) tt (plan_shard (s, st) gates) = Ok tt.
Proof.
  intros Hn Hs Hlt Hcc Hkk. destruct (shard_policy_closed n s Hn Hs Hlt) as (H1 & H2 & H3).
  unfold check_shard_policy, plan_shard. cbn [fst snd sp_run_shard sp_chunk_count sp_case_count].
  rewrite Hcc, Hkk, H2, H3, !Z.eqb_refl. by replace (s <? _) with true by lia.
Qed.

(** the reader accepts exactly what the planner computes.  The worker
    recomputes the number of chunks and, for every shard, its chunks and cases
    from the number of cases alone; for a plan of the accumulator these checks
    pass and the shards together hold every case. *)
Theorem reader_accepts_plan {SS : SummaryFunctions} run_id version profile assignments a0
    records a chunks manifest :
  accumulator_new run_id version profile assignments = Ok a0 ->
  plan_cases uuid_display a0 records = Ok (a, chunks) -> 0 < zlen records ->
  pm_chunk_count manifest = ac_chunk_count a ->
  Forall2 (fun kv item => item = plan_shard kv (sp_gate_counts item)) (ac_shards a) (pm_shards manifest) ->
  check_plan_policy manifest (zlen records) = Ok tt /\
  sumz sp_case_count (pm_shards manifest) = zlen records.
Proof.
  intros Hnew Hplan Hpos Hcount Hshards.
  destruct (plan_cases_inv _ _ _ _ _ _ _ _ _ Hnew Hplan) as (rows & <- & HI & Hend).
  assert (zlen (map fst rows) = zlen rows) as Hlen by (unfold zlen; by rewrite length_map). rewrite Hlen in *.
  split.
  - pose proof HI as [_ _ _ _ [Hc Hcn] Hstart _ _ _ Hwf _ Hused].
    unfold check_plan_policy. rewrite Hcount, Hc.
    replace (zlen chunks =? Z.quot (zlen rows + 99) 100) with true by (Z.to_euclidean_division_equations; lia).
    cbn [ensure mbind result_bind].
    assert (Hall : Forall (fun item => check_shard_policy (zlen rows) (Z.quot (zlen rows + 99) 100) tt item = Ok tt)
      (pm_shards manifest)).
    { clear Hcount. revert Hshards. generalize (pm_shards manifest). intros items Hshards.
      apply Forall_forall. intros item [i Hi]%list_elem_of_lookup_1.
      destruct (Forall2_lookup_r _ _ _ _ _ Hshards Hi) as ([s st] & Hin%list_elem_of_lookup_2 & ->).
      apply bt_get_elem in Hin; [|done].
      assert (Hs : 0 <= s < 128 /\ 100 * s < zlen rows) by (apply Hused; unfold bt_mem; by rewrite Hin).
      destruct (planned_totals _ _ _ _ _ _ _ _ _ _ HI Hend Hpos Hin) as (_ & Hcc & Hkk).
      apply check_shard_policy_planned; [done|lia|lia|done|done]. }
    by apply (foldM_checks (check_shard_policy (zlen rows) (Z.quot (zlen rows + 99) 100) tt)).
  - transitivity (sumz (fun kv => mn_case_count (ss_plan kv.2)) (ac_shards a)).
    + induction Hshards as [|kv item l l' Heq _ IH]; [done|]. simpl. rewrite IH, Heq. done.
    + exact (planned_case_total _ _ _ _ _ _ _ _ HI Hend).
Qed.

(** ** Iterating over stored batches *)

(** [for record in reader { let record = record?; body }]. *)
Fixpoint for_records {T} (body : T -> CaseRecord -> result T) (fuel : nat) (r : CaseBatchReader) (st : T)
    : option (result T) :=
  match fuel with
  | O => None
  | S fuel' =>
      match reader_next r with
      | (_, None) => Some (Ok st)
      | (_, Some (Err e)) => Some (Err e)
      | (r', Some (Ok record)) =>
          match body st record with
          | Ok st' => for_records body fuel' r' st'
          | Err e => Some (Err e)
          end
      end
  end.

(** One stored batch: verified, decoded and checked against its index entry. *)
Definition open_batch (dataset_id : Uuid) (limits : FormatLimits) (entry : IndexEntry) (bytes : string)
    : result CaseBatchReader :=
  verified ← ObjectRef_verify blake3_hex (ie_object entry) bytes limits;
  decoded ← decode_case_batch verified;
  reader ← batch_validate decoded limits;
  _ ← ensure ((bh_dataset_id (rd_header reader) =? dataset_id)
              && (bh_ordinal_start (rd_header reader) =? ie_range_start entry)
              && (bh_ordinal_end (rd_header reader) =? ie_range_end entry)) "case file/index mismatch";
  Ok reader.

(** Its records, read to the end. *)
Definition for_batch {T} (body : T -> CaseRecord -> result T) (dataset_id : Uuid) (limits : FormatLimits)
    (entry : IndexEntry) (bytes : string) (st : T) : option (result T) :=
  match open_batch dataset_id limits entry bytes with
  | Err e => Some (Err e)
  | Ok reader => for_records body (S (length (rd_lines reader))) reader st
  end.

(** [while let Some((entry, bytes)) = cursor.next().await? { body }]. *)
Fixpoint for_entries {T} (body : IndexEntry -> string -> T -> option (result T)) (fuel : nat) (limits : FormatLimits)
    (c : IndexCursor) (st : T) : option (result T) :=
  match fuel with
  | O => None
  | S fuel' =>
      match cursor_next read_bytes fuel limits c with
      | None => None
      | Some (Err e) => Some (Err e)
      | Some (Ok (_, None)) => Some (Ok st)
      | Some (Ok (c', Some (entry, bytes))) =>
          match body entry bytes st with
          | Some (Ok st') => for_entries body fuel' limits c' st'
          | other => other
          end
      end
  end.

(** ** Proving a claimed chunk *)

Definition chunk_draft (chunk : DbRunChunk) (case_id : Uuid) (record : CaseRecord) : RunShardCaseDraft :=
  mkRunShardCaseDraft (wc_run_id chunk) (wc_run_shard chunk) (wc_dataset_version_id chunk) case_id
    (cr_case_ordinal record) (cr_case_hash record).

Definition prepare_record (chunk : DbRunChunk) (cache_budget : Z) (st : PrepareState) (record : CaseRecord)
    : result PrepareState :=
  if (cr_case_ordinal record <? wc_ordinal_start chunk) || (wc_ordinal_end chunk <=? cr_case_ordinal record)
  then Ok st
  else
    seen ← i32_try_from (pp_seen st);
    _ ← ensure (cr_case_ordinal record =? wc_ordinal_start chunk + seen) "assigned cases have a gap or overlap";
    case ← CaseRecord_validate record;
    let hash := update_projection_hash (pp_hash st) (chunk_draft chunk (dc_id case) record) in
    bytes ← record_len record;
    if pp_cached st && (Z.min usize_max (pp_retained st + bytes) <=? cache_budget) then
      item ← worker_case record case;
      Ok (mkPrepareState (pp_cases st ++ [item]) (pp_seen st + 1) (pp_retained st + bytes) true hash)
    else Ok (mkPrepareState [] (pp_seen st + 1) (pp_retained st) false hash).

(** The planned chunk behind a claimed one. *)
Definition find_planned (fuel : nat) (r : RunReader) (chunk : DbRunChunk) : option (result RunChunk) :=
  let index := Z.quot (wc_ordinal_start chunk) 100 in
  match cursor_new (pm_chunks (rr_manifest r)) RunChunksKind index (index + 1) with
  | Err e => Some (Err e)
  | Ok c =>
      match cursor_next read_bytes fuel (rr_limits r) c with
      | None => None
      | Some (Err e) => Some (Err e)
      | Some (Ok (_, None)) => Some (Err "missing chunk file")
      | Some (Ok (_, Some (entry, bytes))) => Some (
          verified ← ObjectRef_verify blake3_hex (ie_object entry) bytes (rr_limits r);
          page ← decode (T := RunChunkPage) verified;
          _ ← RunChunkPage_validate page (rr_limits r);
          _ ← ensure ((cp_run_id page =? wc_run_id chunk) && (cp_chunk_index_start page =? ie_range_start entry)
                      && (cp_chunk_index_end page =? ie_range_end entry)) "chunk file/index mismatch";
          planned ← ok_or (List.find (fun c => rc_chunk_index c =? index) (StorageFormats.cp_chunks page)) "missing planned chunk";
          _ ← ensure ((rc_chunk_id planned =? wc_id chunk) && (rc_run_shard planned =? wc_run_shard chunk)
                      && (rc_ordinal_start planned =? wc_ordinal_start chunk)
                      && (rc_ordinal_end planned =? wc_ordinal_end chunk)
                      && str_eqb (rc_profile_group_id planned) (wc_profile_group_id chunk))
                "claimed chunk differs from immutable plan";
          Ok planned)
      end
  end.

Definition prepare (fuel : nat) (r : RunReader) (chunk : DbRunChunk) : option (result PreparedCases) :=
  match (_ ← ensure ((wc_run_id chunk =? pm_run_id (rr_manifest r))
                     && (wc_dataset_version_id chunk =? dm_dataset_version_id (rr_dataset r)))
               "claimed chunk belongs to another run or dataset";
         ensure ((0 <=? wc_ordinal_start chunk) && (wc_ordinal_start chunk <? wc_ordinal_end chunk)
                 && (wc_ordinal_end chunk <=? dm_case_count (rr_dataset r))
                 && (wc_ordinal_end chunk - wc_ordinal_start chunk <=? 100)) "invalid claimed chunk range") with
  | Err e => Some (Err e)
  | Ok _ =>
      match find_planned fuel r chunk with
      | None => None
      | Some (Err e) => Some (Err e)
      | Some (Ok planned) =>
          match cursor_new (dm_batches (rr_dataset r)) DatasetBatches (wc_ordinal_start chunk) (wc_ordinal_end chunk) with
          | Err e => Some (Err e)
          | Ok batches =>
              let cache_budget := saturating_sub (fl_resident_batch_bytes (rr_limits r))
                                    (bl_max_bytes (fl_batch (rr_limits r))) in
              match for_entries (for_batch (prepare_record chunk cache_budget) (dm_dataset_id (rr_dataset r)) (rr_limits r))
                      fuel (rr_limits r) batches (mkPrepareState [] 0 0 true projection) with
              | None => None
              | Some (Err e) => Some (Err e)
              | Some (Ok st) => Some (
                  _ ← ensure ((pp_seen st =? wc_ordinal_end chunk - wc_ordinal_start chunk)
                              && str_eqb (blake3_hex (pp_hash st)) (rc_case_projection_hash planned))
                        "assigned case membership differs from immutable plan";
                  Ok (mkPreparedCases r chunk (if pp_cached st then Some (pp_cases st) else None)
                        (if pp_cached st then None else Some batches)))
              end
          end
      end
  end.

(** ** Handing out the cases *)

Definition select_case (chunk : DbRunChunk) (cases : list WorkerCaseBatchItem) (record : CaseRecord)
    : result (list WorkerCaseBatchItem) :=
  if (wc_ordinal_start chunk <=? cr_case_ordinal record) && (cr_case_ordinal record <? wc_ordinal_end chunk) then
    case ← CaseRecord_validate record;
    item ← worker_case record case;
    Ok (cases ++ [item])
  else Ok cases.

(** [PreparedCases::next]. *)
Definition prepared_next (fuel : nat) (p : PreparedCases)
    : option (result (PreparedCases * option (list WorkerCaseBatchItem))) :=
  match pc_cached p with
  | Some cases => Some (Ok (mkPreparedCases (pc_reader p) (pc_chunk p) None (pc_cursor p), Some cases))
  | None =>
      match pc_cursor p with
      | None => Some (Ok (p, None))
      | Some cursor =>
          let r := pc_reader p in
          match cursor_next read_bytes fuel (rr_limits r) cursor with
          | None => None
          | Some (Err e) => Some (Err e)
          | Some (Ok (cursor', None)) => Some (Ok (mkPreparedCases r (pc_chunk p) None (Some cursor'), None))
          | Some (Ok (cursor', Some (entry, bytes))) =>
              match for_batch (select_case (pc_chunk p)) (dm_dataset_id (rr_dataset r)) (rr_limits r) entry bytes [] with
              | None => None
              | Some (Err e) => Some (Err e)
              | Some (Ok cases) => Some (
                  _ ← ensure (negb (bool_decide (cases = []))) "assigned file contains no selected cases";
                  Ok (mkPreparedCases r (pc_chunk p) None (Some cursor'), Some cases))
              end
          end
      end
  end.

(** Calling [next] until it answers [None], as the worker does. *)
Fixpoint prepared_drain (fuel : nat) (p : PreparedCases) : option (result (list WorkerCaseBatchItem)) :=
  match fuel with
  | O => None
  | S fuel' =>
      match prepared_next fuel p with
      | None => None
      | Some (Err e) => Some (Err e)
      | Some (Ok (_, None)) => Some (Ok [])
      | Some (Ok (p', Some cases)) =>
          match prepared_drain fuel' p' with
          | Some (Ok rest) => Some (Ok (cases ++ rest))
          | other => other
          end
      end
  end.

(** ** What the loops read *)

Lemma for_records_Ok {T} (body : T -> CaseRecord -> result T) fuel r st st' :
  for_records body fuel r st = Some (Ok st') <->
  exists records, drain fuel r = Some (Ok records) /\ foldM body st records = Ok st'.
Proof.
  revert r st; induction fuel as [|fuel IH]; intros r st; cbn [for_records drain]; [naive_solver|].
  destruct (reader_next r) as [r' [[record|e]|]].
  - destruct (body st record) as [st1|e] eqn:Eb.
    + rewrite IH. split.
      * intros (records & -> & Hf). exists (record :: records). cbn [foldM]. by rewrite Eb.
      * intros (records & Hd & Hf). destruct (drain fuel r') as [[rest|]|]; [|done|done].
        injection Hd as <-. cbn [foldM] in Hf. rewrite Eb in Hf. by exists rest.
    + split; [done|]. intros (records & Hd & Hf). destruct (drain fuel r') as [[rest|]|]; [|done|done].
      injection Hd as <-. cbn [foldM] in Hf. by rewrite Eb in Hf.
  - naive_solver.
  - split; [intros [= ->]; by exists []|]. intros (records & [= <-] & [= ->]). done.
Qed.

(** The records a stored batch holds. *)
Definition batch_holds (dataset_id : Uuid) (limits : FormatLimits) (eb : IndexEntry * string)
    (rows : list PlannedCase) : Prop :=
  exists reader, open_batch dataset_id limits eb.1 eb.2 = Ok reader /\ drain_all reader = Some (Ok (map fst rows)) /\
    Forall (fun rc => CaseRecord_validate rc.1 = Ok rc.2) rows /\
    (forall i rc, rows !! i = Some rc -> ordinal_of rc = ie_range_start eb.1 + Z.of_nat i) /\
    zlen rows = ie_range_end eb.1 - ie_range_start eb.1.

Lemma open_batch_Ok dataset_id limits entry bytes reader records :
  open_batch dataset_id limits entry bytes = Ok reader -> drain_all reader = Some (Ok records) ->
  exists rows, map fst rows = records /\ batch_holds dataset_id limits (entry, bytes) rows.
Proof.
  intros Hop Hd. pose proof Hop as Hop0. unfold open_batch, batch_validate in Hop. inv_ok. cbn [rd_header] in *.
  pose proof Hd as Hd0. apply drain_complete in Hd as (cases & Hc & _ & _ & Hend & Hord); [|done|apply bt_wf_nil].
  cbn [rd_ordinal rd_header] in *.
  exists (zip records cases). pose proof (Forall2_length _ _ _ Hc) as Hlen.
  assert (Hfst : map fst (zip records cases) = records) by (apply fst_zip; lia). split; [done|].
  eexists. split; [exact Hop0|]. rewrite Hfst. split_and!; [done| | |].
  - clear -Hc. induction Hc; [constructor|]. by constructor.
  - intros i [x y] Hi. cbn [fst]. specialize (Hord i x). unfold ordinal_of. cbn [fst].
    rewrite <- Hfst, list_lookup_fmap, Hi in Hord. specialize (Hord eq_refl). lia.
  - unfold zlen. rewrite length_zip_with. unfold zlen in *. cbn [fst]. lia.
Qed.

Lemma for_batch_Ok {T} (body : T -> CaseRecord -> result T) dataset_id limits entry bytes st st' :
  for_batch body dataset_id limits entry bytes st = Some (Ok st') <->
  exists rows, batch_holds dataset_id limits (entry, bytes) rows /\ foldM body st (map fst rows) = Ok st'.
Proof.
  unfold for_batch. destruct (open_batch dataset_id limits entry bytes) as [reader|e] eqn:Eo.
  - rewrite for_records_Ok. split.
    + intros (records & Hd & Hf). destruct (open_batch_Ok _ _ _ _ _ _ Eo Hd) as (rows & <- & Hb). by exists rows.
    + intros (rows & (reader' & Hop & Hd & _) & Hf). cbn [fst snd] in Hop. rewrite Eo in Hop. injection Hop as <-.
      by exists (map fst rows).
  - split; [done|]. intros (rows & (reader' & Hop & _) & _). cbn [fst snd] in Hop. congruence.
Qed.

(** The entries a cursor yields, one call after the other. *)
Inductive entries_read (limits : FormatLimits) : nat -> IndexCursor -> list (IndexEntry * string) -> Prop :=
| read_end fuel c c' :
    cursor_next read_bytes (S fuel) limits c = Some (Ok (c', None)) -> entries_read limits (S fuel) c []
| read_more fuel c c' entry bytes rest :
    cursor_next read_bytes (S fuel) limits c = Some (Ok (c', Some (entry, bytes))) ->
    entries_read limits fuel c' rest -> entries_read limits (S fuel) c ((entry, bytes) :: rest).

Lemma entries_read_drain limits fuel c ebs :
  entries_read limits fuel c ebs -> cursor_drain read_bytes fuel limits c = Some (Ok (map fst ebs)).
Proof. induction 1 as [fuel c c' H|fuel c c' entry bytes rest H _ IH]; cbn [cursor_drain]; rewrite H; [done|by rewrite IH]. Qed.

Lemma for_entries_Ok {T} (body : T -> CaseRecord -> result T) dataset_id limits fuel c st st' :
  for_entries (for_batch body dataset_id limits) fuel limits c st = Some (Ok st') ->
  exists ebs rss, entries_read limits fuel c ebs /\ Forall2 (batch_holds dataset_id limits) ebs rss /\
    foldM body st (map fst (mjoin rss)) = Ok st'.
Proof.
  revert c st; induction fuel as [|fuel IH]; intros c st H; [done|]. cbn [for_entries] in H.
  destruct (cursor_next read_bytes (S fuel) limits c) as [[[c' [[entry bytes]|]]|e]|] eqn:Ec; try done.
  - destruct (for_batch body dataset_id limits entry bytes st) as [[st1|e]|] eqn:Eb; try done.
    apply for_batch_Ok in Eb as (rows & Hb & Hf). destruct (IH c' st1 H) as (ebs & rss & Hr & H2 & Hf2).
    exists ((entry, bytes) :: ebs), (rows :: rss). split_and!; [by eapply read_more|by constructor|].
    simpl. by rewrite map_app, foldM_app, Hf.
  - injection H as <-. exists [], []. split_and!; [by eapply read_end|constructor|done].
Qed.

(** ** What a chunk's cases are *)

Definition selected (chunk : DbRunChunk) : PlannedCase -> bool := within (wc_ordinal_start chunk) (wc_ordinal_end chunk).
Definition hands_out (rc : PlannedCase) (item : WorkerCaseBatchItem) : Prop := worker_case rc.1 rc.2 = Ok item.
Definition valid_row (rc : PlannedCase) : Prop := CaseRecord_validate rc.1 = Ok rc.2.

(** The bytes hashed for the cases of a claimed chunk. *)
Definition chunk_projection (chunk : DbRunChunk) (rows : list PlannedCase) (from : string) : string :=
  fold_left (fun h rc => update_projection_hash h (chunk_draft chunk (dc_id rc.2) rc.1)) rows from.

Lemma prepare_record_Ok chunk budget st record case st1 :
  CaseRecord_validate record = Ok case -> prepare_record chunk budget st record = Ok st1 ->
  if selected chunk (record, case) then
    cr_case_ordinal record = wc_ordinal_start chunk + pp_seen st /\ pp_seen st1 = pp_seen st + 1 /\
    pp_hash st1 = update_projection_hash (pp_hash st) (chunk_draft chunk (dc_id case) record) /\
    (pp_cached st1 = true -> pp_cached st = true /\
       exists item, hands_out (record, case) item /\ pp_cases st1 = pp_cases st ++ [item])
  else st1 = st.
Proof.
  intros Hv H. unfold prepare_record in H. unfold selected, within, ordinal_of. cbn [fst].
  destruct (_ || _) eqn:Eo in H.
  - injection H as <-. by replace (_ && _) with false by lia.
  - replace ((wc_ordinal_start chunk <=? cr_case_ordinal record) && (cr_case_ordinal record <? wc_ordinal_end chunk))
      with true by lia.
    apply bind_Ok in H as (seen & Hs & H). apply i32_try_from_Ok in Hs as [-> _].
    apply bind_Ok in H as ([] & Ho%ensure_Ok & H). rewrite Hv in H. cbn [mbind result_bind] in H.
    apply bind_Ok in H as (bytes & _ & H). destruct (_ && _) eqn:Ec in H.
    + cbn [mbind result_bind worker_case] in H. injection H as <-. apply andb_true_iff in Ec as [Ec _].
      cbn [pp_seen pp_hash pp_cached pp_cases]. split_and!; [lia|done|done|]. intros _. split; [done|]. by eexists.
    + injection H as <-. cbn [pp_seen pp_hash pp_cached pp_cases]. split_and!; [lia|done|done|done].
Qed.

Lemma prepare_records chunk budget rows st st' :
  Forall valid_row rows -> foldM (prepare_record chunk budget) st (map fst rows) = Ok st' ->
  let sel := List.filter (selected chunk) rows in
  pp_seen st' = pp_seen st + zlen sel /\ pp_hash st' = chunk_projection chunk sel (pp_hash st) /\
  (forall i rc, sel !! i = Some rc -> ordinal_of rc = wc_ordinal_start chunk + pp_seen st + Z.of_nat i) /\
  (pp_cached st' = true -> pp_cached st = true /\
     exists items, Forall2 hands_out sel items /\ pp_cases st' = pp_cases st ++ items).
Proof.
  intros Hv. revert st; induction Hv as [|[record case] rows Hrc _ IH]; intros st H; cbn [map foldM fst] in H.
  { injection H as <-. cbn [List.filter]. split_and!; [unfold zlen; simpl; lia|done|done|].
    intros Hc. split; [done|]. exists []. by rewrite app_nil_r. }
  apply bind_Ok in H as (st1 & H1 & H). specialize (IH st1 H). cbv zeta in IH |- *.
  destruct IH as (Hseen & Hhash & Hord & Hcached). pose proof (prepare_record_Ok chunk budget st record case st1 Hrc H1) as Hstep.
  cbn [List.filter]. revert Hstep. destruct (selected chunk (record, case)); intros Hstep; [|by subst st1].
  destruct Hstep as (Ho & Hs1 & Hh1 & Hc1). rewrite Hs1, Hh1 in *. split_and!; [rewrite zlen_cons; lia|done| |].
  - intros [|i] rc Hi; cbn in Hi; [injection Hi as <-; unfold ordinal_of; cbn [fst]; lia|].
    rewrite (Hord i rc Hi). lia.
  - intros Hc. destruct (Hcached Hc) as (Hc2 & items & H2 & He). destruct (Hc1 Hc2) as (Hc3 & item & Hi & He1).
    split; [done|]. exists (item :: items). split; [by constructor|]. by rewrite He, He1, <- app_assoc.
Qed.

Lemma select_records chunk rows cases :
  Forall valid_row rows ->
  exists items, foldM (select_case chunk) cases (map fst rows) = Ok (cases ++ items) /\
    Forall2 hands_out (List.filter (selected chunk) rows) items.
Proof.
  intros Hv. revert cases; induction Hv as [|[record case] rows Hrc _ IH]; intros cases.
  { exists []. by rewrite app_nil_r. }
  unfold valid_row in Hrc. cbn [fst snd] in Hrc.
  assert (Hstep : exists item, hands_out (record, case) item /\
    select_case chunk cases record = Ok (if selected chunk (record, case) then cases ++ [item] else cases)).
  { eexists. split; [reflexivity|]. unfold select_case, selected, within, ordinal_of. cbn [fst].
    destruct (_ && _); [|done]. by rewrite Hrc. }
  destruct Hstep as (item & Hitem & Hstep). cbn [map foldM fst List.filter]. rewrite Hstep. cbn [mbind result_bind].
  destruct (selected chunk (record, case)); [|apply IH].
  destruct (IH (cases ++ [item])) as (items & Hf & H2). exists (item :: items).
  rewrite Hf, <- app_assoc. split; [done|]. by constructor.
Qed.

Lemma select_nonempty chunk dataset_id limits eb rows items :
  wc_ordinal_start chunk < wc_ordinal_end chunk -> batch_holds dataset_id limits eb rows ->
  overlaps (wc_ordinal_start chunk) (wc_ordinal_end chunk) eb.1 -> ie_range_start eb.1 < ie_range_end eb.1 ->
  Forall2 hands_out (List.filter (selected chunk) rows) items -> items <> [].
Proof.
  intros Hse (reader & _ & _ & _ & Hord & Hlen) [Ho1 Ho2] Hlt H2 ->. apply Forall2_nil_inv_r in H2.
  set (o := Z.max (wc_ordinal_start chunk) (ie_range_start eb.1)).
  destruct (lookup_lt_is_Some_2 rows (Z.to_nat (o - ie_range_start eb.1))) as [rc Hrc]; [unfold zlen in Hlen; lia|].
  assert (Hin : rc ∈ List.filter (selected chunk) rows); [|rewrite H2 in Hin; set_solver].
  apply elem_of_lfilter. split; [by eapply list_elem_of_lookup_2|]. unfold selected, within.
  rewrite (Hord _ _ Hrc). lia.
Qed.

(** Reading again hands out the selected cases of every batch. *)
Lemma prepared_stream r chunk fuel c ebs rss :
  wc_ordinal_start chunk < wc_ordinal_end chunk ->
  entries_read (rr_limits r) fuel c ebs ->
  Forall2 (batch_holds (dm_dataset_id (rr_dataset r)) (rr_limits r)) ebs rss ->
  Forall (fun eb => overlaps (wc_ordinal_start chunk) (wc_ordinal_end chunk) eb.1 /\
            ie_range_start eb.1 < ie_range_end eb.1) ebs ->
  exists items, prepared_drain fuel (mkPreparedCases r chunk None (Some c)) = Some (Ok items) /\
    Forall2 hands_out (List.filter (selected chunk) (mjoin rss)) items.
Proof.
  intros Hse Hr. revert rss; induction Hr as [fuel c c' Hc|fuel c c' entry bytes rest Hc _ IH]; intros rss H2 Hov.
  - apply Forall2_nil_inv_l in H2 as ->. exists []. split; [|constructor].
    cbn [prepared_drain]. unfold prepared_next. cbn [pc_cached pc_cursor pc_reader pc_chunk]. by rewrite Hc.
  - apply Forall2_cons_inv_l in H2 as (rows & rss' & Hb & H2 & ->). apply Forall_cons in Hov as [[Ho Hlt] Hov].
    destruct (IH rss' H2 Hov) as (items & Hd & Hi).
    assert (Hv : Forall valid_row rows) by (by destruct Hb as (? & _ & _ & ? & _)).
    destruct (select_records chunk rows [] Hv) as (sel & Hsel & Hs2). cbn [app] in Hsel.
    exists (sel ++ items). split.
    + cbn [prepared_drain]. unfold prepared_next at 1. cbn [pc_cached pc_cursor pc_reader pc_chunk]. rewrite Hc.
      rewrite (proj2 (for_batch_Ok _ _ _ _ _ _ _)) by (by exists rows).
      rewrite bool_decide_false by exact (select_nonempty _ _ _ _ _ _ Hse Hb Ho Hlt Hs2).
      cbn [negb ensure mbind result_bind]. by rewrite Hd.
    + cbn [mjoin list_join]. rewrite List.filter_app. by apply Forall2_app.
Qed.

Lemma prepare_chunk_Ok fuel r chunk p :
  prepare fuel r chunk = Some (Ok p) ->
  exists planned batches budget st,
    wc_ordinal_start chunk < wc_ordinal_end chunk /\ find_planned fuel r chunk = Some (Ok planned) /\
    cursor_new (dm_batches (rr_dataset r)) DatasetBatches (wc_ordinal_start chunk) (wc_ordinal_end chunk) = Ok batches /\
    for_entries (for_batch (prepare_record chunk budget) (dm_dataset_id (rr_dataset r)) (rr_limits r))
      fuel (rr_limits r) batches (mkPrepareState [] 0 0 true projection) = Some (Ok st) /\
    pp_seen st = wc_ordinal_end chunk - wc_ordinal_start chunk /\
    blake3_hex (pp_hash st) = rc_case_projection_hash planned /\
    p = mkPreparedCases r chunk (if pp_cached st then Some (pp_cases st) else None)
          (if pp_cached st then None else Some batches).
Proof.
  unfold prepare. intros H. destruct (_ ≫= _) as [u|e] eqn:E1 in H; [|discriminate H].
  apply bind_Ok in E1 as (u1 & _ & E1%ensure_Ok).
  destruct (find_planned fuel r chunk) as [[planned|e]|] eqn:E2; [|discriminate H|discriminate H].
  destruct (cursor_new _ _ _ _) as [batches|e] eqn:E3; [|discriminate H]. cbv zeta in H.
  destruct (for_entries _ _ _ _ _) as [[st|e]|] eqn:E4; [|discriminate H|discriminate H].
  injection H as H. apply bind_Ok in H as (u2 & E5%ensure_Ok & H). injection H as <-.
  apply andb_true_iff in E5 as [E5 E6%str_eqb_true].
  exists planned, batches. eexists _, st. split_and!; [lia|done|done|exact E4|lia|done|done].
Qed.

(** When a claimed chunk has been prepared there are valid cases with the
    ordinals from the start to the end of the chunk, one each, whose projection
    has the planned hash; the cases handed out, whether kept in memory or read
    again batch by batch, are these cases, in this order, without any further
    failure. *)
Lemma prepare_exact fuel r chunk p :
  0 <= id_level (dm_batches (rr_dataset r)) -> prepare fuel r chunk = Some (Ok p) ->
  exists planned rows items,
    find_planned fuel r chunk = Some (Ok planned) /\
    zlen rows = wc_ordinal_end chunk - wc_ordinal_start chunk /\
    (forall i rc, rows !! i = Some rc -> ordinal_of rc = wc_ordinal_start chunk + Z.of_nat i) /\
    Forall valid_row rows /\
    blake3_hex (chunk_projection chunk rows projection) = rc_case_projection_hash planned /\
    prepared_drain fuel p = Some (Ok items) /\ Forall2 hands_out rows items.
Proof.
  intros Hlev H. apply prepare_chunk_Ok in H as (planned & batches & budget & st & Hse & Hfind & Hnew & Hfor & Hseen & Hhash & ->).
  apply for_entries_Ok in Hfor as (ebs & rss & Hread & Hholds & Hfold).
  destruct (cursor_covers_range _ _ _ _ _ _ _ _ _ Hlev Hnew (entries_read_drain _ _ _ _ Hread))
    as (Hne & Hov & s & e & Ht & _).
  assert (Hv : Forall valid_row (mjoin rss)).
  { clear -Hholds. induction Hholds as [|eb rows ebs rss (? & _ & _ & ? & _) _ IH]; [constructor|].
    cbn [mjoin list_join]. by apply Forall_app. }
  apply prepare_records in Hfold as (Hs & Hh & Hord & Hcached); [|done]. cbn [pp_seen pp_hash pp_cached pp_cases] in *.
  exists planned, (List.filter (selected chunk) (mjoin rss)).
  assert (Hitems : exists items,
    prepared_drain fuel (mkPreparedCases r chunk (if pp_cached st then Some (pp_cases st) else None)
      (if pp_cached st then None else Some batches)) = Some (Ok items) /\
    Forall2 hands_out (List.filter (selected chunk) (mjoin rss)) items).
  { destruct (pp_cached st) eqn:Ec.
    - destruct (Hcached eq_refl) as (_ & items & H2 & He). exists items. split; [|done].
      inversion Hread as [|fuel1 c c' entry bytes rest _ Hrest]; subst; [done|].
      inversion Hrest; subst; rewrite He; cbn; by rewrite app_nil_r.
    - eapply prepared_stream; [done|exact Hread|exact Hholds|]. apply Forall_forall. intros eb Heb.
      assert (Hin : eb.1 ∈ map fst ebs) by (apply list_elem_of_fmap; by exists eb).
      rewrite Forall_forall in Hov. split; [by apply Hov|]. pose proof (tiles_within _ _ _ _ _ _ Ht Hin). lia. }
  destruct Hitems as (items & Hd & H2). exists items.
  split_and!; [done|lia|intros i rc Hi; rewrite (Hord i rc Hi); lia| |by rewrite <- Hh|done|done].
  apply Forall_forall. intros rc [Hin _]%elem_of_lfilter. rewrite Forall_forall in Hv. by apply Hv.
Qed.

Lemma find_planned_Ok fuel r chunk planned :
  find_planned fuel r chunk = Some (Ok planned) ->
  rc_run_shard planned = wc_run_shard chunk /\ rc_ordinal_start planned = wc_ordinal_start chunk /\
  rc_ordinal_end planned = wc_ordinal_end chunk.
Proof.
  unfold find_planned. intros H. destruct (cursor_new _ _ _ _) as [c|e]; [|discriminate H].
  destruct (cursor_next _ _ _ _) as [[[c' [[entry bytes]|]]|e]|]; try discriminate H.
  injection H as H. repeat (apply bind_Ok in H as (? & ? & H)).
  match goal with X : ensure _ "claimed chunk differs from immutable plan" = _ |- _ => apply ensure_Ok in X end.
  injection H as <-. lia.
Qed.

Lemma valid_hash_len record case : CaseRecord_validate record = Ok case -> str_len (cr_case_hash record) = 64.
Proof. unfold CaseRecord_validate, validate_digest. intros H. inv_ok. lia. Qed.

(** C8: a worker gets exactly the planned cases of its chunk.  Suppose the plan
    behind a claimed chunk is chunk [i] of the plan of [rows0], and the hash does
    not collide between the two projections.  When the chunk has been prepared,
    the cases handed out, whether kept in memory or read again batch by batch,
    are those of [rows0] in the range of the chunk, in order and each once, with
    the planned identities and hashes; and handing them out does not fail. *)
Theorem worker_gets_planned_cases fuel r chunk p run_id version planned rows0 i :
  0 <= id_level (dm_batches (rr_dataset r)) -> prepare fuel r chunk = Some (Ok p) ->
  find_planned fuel r chunk = Some (Ok planned) -> planned_chunk uuid_display run_id version rows0 i planned -> 0 <= i ->
  Forall valid_row rows0 -> (forall j rc, rows0 !! j = Some rc -> ordinal_of rc = Z.of_nat j) -> zlen rows0 <= i32_max ->
  (forall record case, CaseRecord_validate record = Ok case -> 0 <= dc_id case < 2 ^ 128) ->
  let planned_rows := List.filter (within (wc_ordinal_start chunk) (wc_ordinal_end chunk)) rows0 in
  (forall rows, Forall valid_row rows -> zlen rows = wc_ordinal_end chunk - wc_ordinal_start chunk ->
     (forall j rc, rows !! j = Some rc -> ordinal_of rc = wc_ordinal_start chunk + Z.of_nat j) ->
     blake3_hex (chunk_projection chunk rows projection) = blake3_hex (project run_id version planned_rows) ->
     chunk_projection chunk rows projection = project run_id version planned_rows) ->
  exists items, prepared_drain fuel p = Some (Ok items) /\
    map (fun item => (wc_case_id item, wc_case_ordinal item, wc_case_hash item)) items
    = map (fun rc => (dc_id rc.2, ordinal_of rc, cr_case_hash rc.1)) planned_rows.
Proof.
  intros Hlev Hprep Hfind [_ _ Hshard Hs He _ _ Hph] Hi Hv0 Hord0 Hmax Huuid sel Hcoll.
  destruct (find_planned_Ok _ _ _ _ Hfind) as (Fs & F1 & F2).
  destruct (prepare_exact fuel r chunk p Hlev Hprep) as (planned' & rows & items & Hf' & Hlen & Hord & Hv & Hh & Hd & H2).
  rewrite Hfind in Hf'. injection Hf' as <-. exists items. split; [done|].
  rewrite Hph, F1, F2 in Hh. fold sel in Hh. apply Hcoll in Hh; [|done..].
  assert (Hhash : hash_rows (map (fun rc => chunk_draft chunk (dc_id rc.2) rc.1) rows)
    = hash_rows (map (draft_of run_id version) sel)).
  { unfold hash_rows. revert Hh. unfold chunk_projection, project. by rewrite !fold_left_mapped. }
  assert (Hwf : forall d rc, CaseRecord_validate rc.1 = Ok rc.2 -> 0 <= sc_run_shard d < 128 ->
    0 <= ordinal_of rc <= i32_max -> sc_case_ordinal d = ordinal_of rc -> sc_case_id d = dc_id rc.2 ->
    sc_case_hash d = cr_case_hash rc.1 -> draft_wf d).
  { intros d rc Hval Hsd Ho E1 E2 E3. unfold draft_wf. rewrite E1, E2, E3, (valid_hash_len _ _ Hval).
    specialize (Huuid _ _ Hval). unfold i32_max in *. lia. }
  assert (Hsel : forall rc, rc ∈ sel -> valid_row rc /\ 0 <= ordinal_of rc < zlen rows0).
  { intros rc [Hin _]%elem_of_lfilter. rewrite Forall_forall in Hv0. split; [by apply Hv0|]. by apply in_rows. }
  pose proof (Z.mod_pos_bound i 128 ltac:(lia)) as Hmod. unfold run_shard_for_chunk_index, RUN_SHARD_COUNT in Hshard.
  apply hash_rows_inj in Hhash.
  - transitivity (map (fun rc => (dc_id rc.2, ordinal_of rc, cr_case_hash rc.1)) rows).
    + clear -H2. induction H2 as [|rc item rows items Hrc _ IH]; [done|]. cbn [map]. rewrite IH.
      unfold hands_out, worker_case in Hrc. injection Hrc as <-. done.
    + apply (f_equal (map (fun k : Z * Z * Uuid * string => (k.1.2, k.1.1.2, k.2)))) in Hhash.
      rewrite !map_map in Hhash. exact Hhash.
  - apply Forall_map, Forall_forall. intros rc Hin. rewrite Forall_forall in Hv.
    apply (Hwf _ rc); [by apply Hv|cbn [sc_run_shard chunk_draft]; lia| |done|done|done].
    apply list_elem_of_lookup_1 in Hin as [j Hj]. rewrite (Hord j rc Hj). apply lookup_lt_Some in Hj. unfold zlen in *. lia.
  - apply Forall_map, Forall_forall. intros rc Hin. destruct (Hsel rc Hin) as [Hval Ho].
    apply (Hwf _ rc); [done|apply case_shard_range|lia|done|done|done].
Qed.
End reader.

(** ** A stored plan of one case *)

Module ReaderSample.

Definition lf_text : string := String (Ascii.ascii_of_nat 10) "".
Definition batch_text : string := "H" +:+ lf_text +:+ "c0" +:+ lf_text.

(** Each object's text is its key, except the batch; documents are looked up by
    their text. *)
#[global] Instance encoding : Encoding := {|
  json_parse := fun s => Some (RStr s);
  to_vec := fun v => match v with Str s => Ok s | _ => Ok "value" end;
  blake3_hex := constant_digest;
  blake3_bytes := fun _ => repeat 255 32
|}.

Definition lookup_text {T} (key : string) (doc : T) (v : Value) : result T :=
  if value_eqb v (Str key) then Ok doc else Err "no such document".

Definition object (s : StorageFormat) (key : string) : ObjectRef :=
  mkObjectRef "primary" key s Blake3 sample_digest (str_len key) None.
Definition batch_object : ObjectRef :=
  mkObjectRef "primary" "batch" FCaseBatch Blake3 sample_digest (str_len batch_text) None.
Definition read_bytes (r : ObjectRef) : result string :=
  Ok (if str_eqb (or_key r) "batch" then batch_text else or_key r).

Definition case : DatasetCase := mkDatasetCase 1 "chat" None Null None None [] [].
Definition record : CaseRecord := mkCaseRecord 0 sample_digest (Str "case").
Definition rows : list PlannedCase := [(record, case)].
Definition chunk_id : Uuid := Eval vm_compute in uuid_from_digest (repeat 255 32).
Definition planned : RunChunk := mkRunChunk 0 chunk_id 0 0 1 "default" sample_digest.

#[global] Instance case_text : Serde DatasetCase :=
  {| ser_chunks := fun _ => Err "read only"; from_value := lookup_text "case" case |}.
#[global] Instance record_text : Serde CaseRecord :=
  {| ser_chunks := fun _ => Err "read only"; from_value := lookup_text "c0" record |}.
#[global] Instance header_text : Serde CaseBatchHeader :=
  {| ser_chunks := fun _ => Err "read only"; from_value := lookup_text "H" (mkCaseBatchHeader FCaseBatch 9 0 1) |}.
#[global] Instance pages : Serde IndexPage :=
  {| ser_chunks := fun _ => Err "read only";
     from_value := fun v =>
       if value_eqb v (Str "chunk-index")
       then Ok (mkIndexPage FOrdinalIndex RunChunksKind 0 0 1 [mkIndexEntry 0 1 (object FRunChunks "chunks")])
       else lookup_text "dataset-index"
              (mkIndexPage FOrdinalIndex DatasetBatches 0 0 1 [mkIndexEntry 0 1 batch_object]) v |}.
#[global] Instance chunk_text : Serde RunChunkPage :=
  {| ser_chunks := fun _ => Err "read only";
     from_value := lookup_text "chunks" (mkRunChunkPage FRunChunks 5 0 1 [planned]) |}.

Definition reader : RunReader :=
  mkRunReader (object FRunPlanManifest "plan") FormatLimits_default
    (mkRunPlanManifest FRunPlanManifest 5 (object FDatasetManifest "dataset") "" "" "" (object FRunConfiguration "c") 1
       (mkIndexDescriptor 0 0 1 (object FOrdinalIndex "chunk-index")) [])
    (mkDatasetManifest FDatasetManifest 9 None 6 sample_digest DatasetJson 1 BatchLimits_default
       (object FDatasetSourceFields "fields") (mkIndexDescriptor 0 0 1 (object FOrdinalIndex "dataset-index")))
    (mkRunConfiguration FRunConfiguration Null).
Definition chunk : DbRunChunk :=
  mkDbRunChunk 1 chunk_id 5 0 6 "default" 0 1 ChLeased (Some 1) (Some 1) 0 0.
Definition record_len (_ : CaseRecord) : result Z := Ok 2.

Definition prepared : PreparedCases :=
  mkPreparedCases reader chunk (Some [mkWorkerCaseBatchItem 1 sample_digest 0 "chat" None Null Null Null (Array []) (Object [])])
    None.

Lemma prepared_ok : prepare read_bytes record_len 10 reader chunk = Some (Ok prepared).
Proof. vm_compute. reflexivity. Qed.

(** The only valid case has one projection. *)
Lemma one_projection l :
  Forall valid_row l -> zlen l = 1 -> (forall j rc, l !! j = Some rc -> ordinal_of rc = 0 + Z.of_nat j) ->
  chunk_projection chunk l projection = project 5 6 rows.
Proof.
  destruct l as [|[r c] [|]]; intros Hv Hl Hord; try (unfold zlen in Hl; simpl in Hl; lia).
  apply Forall_inv in Hv. unfold valid_row in Hv. cbn [fst snd] in Hv.
  specialize (Hord 0%nat (r, c) eq_refl). unfold ordinal_of in Hord. cbn [fst] in Hord.
  unfold CaseRecord_validate in Hv. apply bind_Ok in Hv as (? & _ & Hv). apply bind_Ok in Hv as (? & _ & Hv).
  apply bind_Ok in Hv as (c' & Hc & Hv). apply bind_Ok in Hv as (? & _ & Hv). apply bind_Ok in Hv as (h & Hh & Hv).
  apply bind_Ok in Hv as (? & He%ensure_Ok%str_eqb_true & Hv). injection Hv as ->.
  unfold from_value, case_text, lookup_text in Hc. destruct (value_eqb _ _); [|done]. injection Hc as <-.
  assert (h = sample_digest) as -> by (vm_compute in Hh; by injection Hh as <-).
  unfold chunk_projection, project, chunk_draft, draft_of, rows. cbn [fold_left fst snd].
  unfold ordinal_of. cbn [fst]. rewrite <- He, Hord. reflexivity.
Qed.
End ReaderSample.

Lemma worker_gets_planned_cases_witness :
  exists items, prepared_drain ReaderSample.read_bytes 10 ReaderSample.prepared = Some (Ok items) /\
    map (fun item => (wc_case_id item, wc_case_ordinal item, wc_case_hash item)) items = [(1, 0, sample_digest)].
Proof.
  apply (worker_gets_planned_cases pretty ReaderSample.read_bytes ReaderSample.record_len 10 ReaderSample.reader
    ReaderSample.chunk ReaderSample.prepared 5 6 ReaderSample.planned ReaderSample.rows 0).
  - vm_compute. discriminate.
  - exact ReaderSample.prepared_ok.
  - vm_compute. reflexivity.
  - split; vm_compute; reflexivity.
  - lia.
  - repeat constructor.
  - intros [|j] rc Hj; [injection Hj as <-; reflexivity|discriminate Hj].
  - vm_compute. discriminate.
  - intros r c Hv. unfold CaseRecord_validate in Hv. apply bind_Ok in Hv as (? & _ & Hv).
    apply bind_Ok in Hv as (? & _ & Hv). apply bind_Ok in Hv as (c' & Hc & Hv).
    apply bind_Ok in Hv as (? & _ & Hv). apply bind_Ok in Hv as (? & _ & Hv). apply bind_Ok in Hv as (? & _ & Hv).
    injection Hv as ->. unfold from_value, ReaderSample.case_text, ReaderSample.lookup_text in Hc.
    destruct (value_eqb _ _); [|done]. injection Hc as <-. vm_compute. split; [discriminate|reflexivity].
  - intros l Hv Hl Hord _. exact (ReaderSample.one_projection l Hv Hl Hord).
Defined.

Definition sample_manifest (a : Accumulator) : RunPlanManifest :=
  mkRunPlanManifest FRunPlanManifest 5 (ReaderSample.object FDatasetManifest "dataset") "" "" ""
    (ReaderSample.object FRunConfiguration "c") (ac_chunk_count a)
    (mkIndexDescriptor 0 0 2 (ReaderSample.object FOrdinalIndex "i"))
    (map (fun kv => plan_shard kv (mkGateCountDescriptor None 0 0)) (ac_shards a)).

Lemma reader_accepts_plan_witness :
  exists a, check_plan_policy (sample_manifest a) 101 = Ok tt /\ sumz sp_case_count (pm_shards (sample_manifest a)) = 101.
Proof.
  destruct PlanningSample.planned_some as (a & chunks & H). exists a.
  assert (zlen PlanningSample.records = 101) as <- by (vm_compute; reflexivity).
  apply (reader_accepts_plan (E := PlanningSample.encoding) (SC := PlanningSample.case_text) pretty 5 6
    PlanningSample.profile PlanningSample.assignments PlanningSample.start PlanningSample.records a chunks).
  - exact PlanningSample.plan_start_ok.
  - exact H.
  - vm_compute. reflexivity.
  - reflexivity.
  - apply Forall2_fmap_r, Forall_Forall2_diag, Forall_forall. intros kv _. reflexivity.
Defined.
