(* ===== verification/PlanLedger.v ===== *)
(** * The plan ledger

    The control database's side of planning and admission: who may prepare a
    run, which plan files it owns, how far they are acknowledged, and when the
    plan is published and the run activated.  Models
    src/vigilo/src/db/workflows/run_plan.rs, run_plan/queries.rs,
    run_plan/batches.rs, run_plan/admission.rs and the control statements of
    run_create/queries.rs.  A transaction is a function from the tables it finds
    to the tables it leaves, or an error that leaves them unchanged; the wall
    clock it reads after its lock is an argument.  Tables that only other
    workflows write (the dataset catalog, the database placements) are
    arguments. *)

From Stdlib Require Import ZArith Lia ZifyBool.
From stdpp Require Import base strings pretty numbers gmap sorting sets option list.
From S2P Require Import Prelude Float64 BTree Text Json RunTypes StorageFormats Codec.
From S2P Require Import ShardTables ControlTables.

Open Scope Z_scope.

#[global] Instance RunShardPlacementAssignment_eq_dec : EqDecision RunShardPlacementAssignment.
Proof. solve_decision. Defined.
#[global] Instance BatchLimits_eq_dec : EqDecision BatchLimits.
Proof. solve_decision. Defined.
#[global] Instance FormatLimits_eq_dec : EqDecision FormatLimits.
Proof. solve_decision. Defined.
#[global] Instance Manifest_eq_dec : EqDecision Manifest.
Proof. solve_decision. Defined.

Record Lease := mkLease { le_run_id : Uuid; le_owner : Uuid; le_generation : Z }.

(** [dataset_upload::Object], the file a plan owns. *)
Record FileObject := mkFileObject {
  ob_object_key : string;
  ob_kind : string;
  ob_level : Z;
  ob_range_start : option Z;
  ob_range_end : option Z;
  ob_reference : ObjectRef;
  ob_acknowledged : bool
}.

(** [run_plan::Shard]. *)
Record LedgerShard := mkLedgerShard {
  ls_run_shard : Z;
  ls_database_alias : string;
  ls_case_count : Z;
  ls_chunk_count : Z;
  ls_planned_chunk_hash : string;
  ls_case_projection_hash : string
}.

(** The columns of [dataset_catalog] the ledger reads. *)
Record CatalogRow := mkCatalogRow { ca_storage_alias : string; ca_manifest : ObjectRef }.

(** [database_placements]: role and status by alias. *)
Notation databases := (gmap string (string * string)).
(** [dataset_versions]: dataset and version text by identity. *)
Notation dataset_versions := (gmap Uuid (Uuid * string)).

(** [models::run::RunDraft]: the immutable columns of a run row. *)
Record RunDraft := mkRunDraft {
  dr_name : option string;
  dr_description : option string;
  dr_context : RunContext;
  dr_expected_execution_count : Z
}.

(** ** Run creation (run_create/queries.rs) *)

Definition upsert_dataset_version (versions : dataset_versions) (id dataset_id : Uuid) (version : string)
    : result dataset_versions :=
  match versions !! id with
  | None => Ok (<[id := (dataset_id, version)]> versions)
  | Some row =>
      _ ← ensure ((row.1 =? dataset_id) && str_eqb row.2 version)
            "dataset_version_id already exists with different dataset identity";
      Ok versions
  end.

(** A fresh row: the defaults of the table and the status given. *)
Definition new_run (now : Z) (draft : RunDraft) (status : RunStatus) : RunRow :=
  mkRunRow (dr_name draft) (dr_description draft) (dr_context draft) (dr_expected_execution_count draft) now
    (mkRunState status GateUnknown None None None 0 0 0 0 (Object []) None None None None None now).

(** What the statements compute by JSON and text: equality of [jsonb] values,
    [serde_json::to_vec] of a group of objects and of an execution plan, the
    octets of a stored reference and its value, the texts of a shard number and
    of a UUID, and [chars().take(n)]. *)
Class LedgerFunctions := {
  jsonb_eqb : Value -> Value -> bool;
  objects_to_vec : list FileObject -> result string;
  execution_plan_to_vec : EvaluatorExecutionPlan -> result string;
  reference_octets : ObjectRef -> Z;
  reference_value : ObjectRef -> Value;
  ledger_shard_text : Z -> string;
  ledger_uuid_text : Uuid -> string;
  chars_take : Z -> string -> string
}.

Section ledger.
Context {LF : LedgerFunctions}.
Context `{E : Encoding} `{SM : Serde RunPlanManifest}.

Definition execution_plan_hash (plan : EvaluatorExecutionPlan) : result string :=
  bytes ← execution_plan_to_vec plan; Ok (blake3_hex bytes).

Definition same_context (a b : RunContext) : bool :=
  str_eqb (rc_run_key a) (rc_run_key b) && (rc_dataset_id a =? rc_dataset_id b)
  && str_eqb (rc_dataset_version a) (rc_dataset_version b)
  && (rc_dataset_version_id a =? rc_dataset_version_id b)
  && str_eqb (rc_evaluation_profile_id a) (rc_evaluation_profile_id b)
  && str_eqb (rc_evaluation_profile_version a) (rc_evaluation_profile_version b)
  && str_eqb (rc_profile_version_id a) (rc_profile_version_id b)
  && str_eqb (rc_profile_hash a) (rc_profile_hash b)
  && str_eqb (rc_aggregation_policy_id a) (rc_aggregation_policy_id b)
  && str_eqb (rc_aggregation_policy_version a) (rc_aggregation_policy_version b)
  && str_eqb (rc_aggregation_policy_hash a) (rc_aggregation_policy_hash b)
  && str_eqb (rc_agent_provider a) (rc_agent_provider b) && str_eqb (rc_agent_name a) (rc_agent_name b)
  && bool_decide (rc_agent_version a = rc_agent_version b)
  && str_eqb (rc_prompt_config_id a) (rc_prompt_config_id b)
  && str_eqb (rc_prompt_config_version a) (rc_prompt_config_version b)
  && jsonb_eqb (rc_config_snapshot a) (rc_config_snapshot b).

Definition same_draft (r : RunRow) (draft : RunDraft) (status : RunStatus) : bool :=
  bool_decide (rw_name r = dr_name draft) && bool_decide (rw_description r = dr_description draft)
  && same_context (rw_context r) (dr_context draft)
  && (rw_expected_execution_count r =? dr_expected_execution_count draft)
  && bool_decide (rw_status r = status).

(** The unique index on [run_key]; [expected_execution_count >= 0] and the
    reference to [dataset_versions] are the other constraints. *)
Definition insert_run_create (runs : gmap Uuid RunRow) (versions : dataset_versions) (now : Z) (run_id : Uuid)
    (draft : RunDraft) (status : RunStatus) : result (gmap Uuid RunRow) :=
  match runs !! run_id with
  | Some r =>
      _ ← ensure (same_draft r draft status) "run_id already exists with different immutable creation data";
      Ok runs
  | None =>
      _ ← ensure (negb (exists_where (fun _ r => str_eqb (rc_run_key (rw_context r)) (rc_run_key (dr_context draft))) runs)
                  && (0 <=? dr_expected_execution_count draft)
                  && opt_is_some (versions !! rc_dataset_version_id (dr_context draft)))
            "constraint violation on runs";
      Ok (<[run_id := new_run now draft status]> runs)
  end.

(** ** Beginning a plan *)

(** [object.remove(key)] on a JSON object. *)
Definition json_remove (key : string) (v : Value) : Value :=
  match v with
  | Object fields => Object (List.filter (fun kv => negb (str_eqb kv.1 key)) fields)
  | _ => v
  end.

(** The row checks of [run_plans] at insertion; the octet bounds of the stored
    documents are left to their producers. *)
Definition new_plan (now : Z) (dataset : Uuid) (binding : string) (limits : FormatLimits)
    (execution : EvaluatorExecutionPlan) (assignments : list RunShardPlacementAssignment) (execute : bool) : PlanRow :=
  mkPlanRow dataset PlanPreparing binding limits execution assignments 0 0 execute 0 [] None now.

Definition insert_plan (c : Control) (catalog : gmap Uuid CatalogRow) (run_id : Uuid) (plan : PlanRow)
    : result Control :=
  _ ← ensure (opt_is_none (cd_plans c !! run_id) && opt_is_some (catalog !! pl_dataset_upload_id plan)
              && in_range 1 128 (zlen (pl_assignments plan))) "constraint violation on run_plans";
  Ok (with_plans c (<[run_id := plan]> (cd_plans c))).

(** [REQUEST_EXECUTION]: the updated tables when the one row was changed. *)
Definition request_execution (c : Control) (run_id : Uuid) : result Control :=
  match cd_plans c !! run_id, cd_runs c !! run_id with
  | Some p, Some r =>
      _ ← ensure (bool_decide (rw_status r = RunCreating)) "run is no longer creating";
      Ok (with_plans c (<[run_id := mkPlanRow (pl_dataset_upload_id p) (pl_status p) (pl_storage_binding_hash p)
            (pl_limits p) (pl_execution_plan p) (pl_assignments p) (pl_generation p) (pl_chunk_cursor p) true
            (pl_admission_cursor p) (pl_admission_state p) (pl_manifest p) (pl_updated_at p)]> (cd_plans c)))
  | _, _ => Err "run is no longer creating"
  end.

(** The replay check of an existing run; whether it is still creating. *)
Definition check_existing_run (r : RunRow) (draft : RunDraft) : result bool :=
  _ ← ensure (negb (bool_decide (rw_status r = RunCancelled))) "run was cancelled";
  _ ← ensure (str_eqb (rc_profile_hash (rw_context r)) (rc_profile_hash (dr_context draft))
              && str_eqb (rc_aggregation_policy_hash (rw_context r)) (rc_aggregation_policy_hash (dr_context draft)))
        "run replay changed profile, dataset, or storage owner";
  _ ← ok_or (as_object (rc_config_snapshot (rw_context r))) "run snapshot must be an object";
  _ ← ensure (value_eqb (json_remove "settlement_plan" (json_remove "plan_status"
                 (json_remove "run_plan" (rc_config_snapshot (rw_context r)))))
                (rc_config_snapshot (dr_context draft)))
        "run replay changed profile, dataset, or storage owner";
  Ok (bool_decide (rw_status r = RunCreating)).

Definition begin_plan (c : Control) (versions : dataset_versions) (catalog : gmap Uuid CatalogRow) (now : Z)
    (run_id dataset : Uuid) (binding : string) (limits : FormatLimits) (draft : RunDraft)
    (execution : EvaluatorExecutionPlan) (assignments : list RunShardPlacementAssignment) (execute : bool)
    : result (Control * dataset_versions * PlanRow) :=
  _ ← FormatLimits_validate limits;
  bytes ← execution_plan_to_vec execution;
  _ ← ensure (str_len bytes <=? 512 * 1024) "execution plan exceeds 512 KiB";
  versions ← upsert_dataset_version versions (rc_dataset_version_id (dr_context draft))
               (rc_dataset_id (dr_context draft)) (rc_dataset_version (dr_context draft));
  started ← match cd_runs c !! run_id with
            | Some r => creating ← check_existing_run r draft; Ok (c, creating)
            | None =>
                runs ← insert_run_create (cd_runs c) versions now run_id draft RunCreating;
                c ← insert_plan (with_runs c runs) catalog run_id
                      (new_plan now dataset binding limits execution assignments execute);
                Ok (c, true)
            end;
  let '(c, creating) := started : Control * bool in
  row ← ok_or (cd_plans c !! run_id) "run ID belongs to another creation workflow";
  stored ← execution_plan_hash (pl_execution_plan row);
  given ← execution_plan_hash execution;
  _ ← ensure ((pl_dataset_upload_id row =? dataset) && str_eqb (pl_storage_binding_hash row) binding
              && bool_decide (pl_limits row = limits) && str_eqb stored given
              && bool_decide (pl_assignments row = assignments)) "run plan replay changed immutable inputs";
  if execute && creating && negb (pl_execution_requested row) then
    c ← request_execution c run_id;
    row ← ok_or (cd_plans c !! run_id) "run is no longer creating";
    Ok (c, versions, row)
  else Ok (c, versions, row).

(** ** Leases *)

Definition LEASE : Z := 300 * second.

Definition set_lease (s : RunState) (owner until : option Z) (heartbeat : option Z) (error : option string) (now : Z)
    : RunState :=
  mkRunState (rn_status s) (rn_gate_status s) owner until heartbeat (rn_terminal_execution_count s)
    (rn_passed_execution_count s) (rn_failed_execution_count s) (rn_errored_execution_count s) (rn_summary s)
    error (rn_started_at s) (rn_dispatched_at s) (rn_finalized_at s) (rn_completed_at s) now.

Definition update_run (c : Control) (run_id : Uuid) (r : RunRow) (s : RunState) : Control :=
  with_runs c (<[run_id := set_state r s]> (cd_runs c)).

Definition set_generation (p : PlanRow) (generation now : Z) : PlanRow :=
  mkPlanRow (pl_dataset_upload_id p) (pl_status p) (pl_storage_binding_hash p) (pl_limits p) (pl_execution_plan p)
    (pl_assignments p) generation (pl_chunk_cursor p) (pl_execution_requested p) (pl_admission_cursor p)
    (pl_admission_state p) (pl_manifest p) now.

(** [CLAIM_RUN] and [NEXT_GENERATION]; [accepts] is the condition on the plan
    row, ['preparing'] for the planner and ['ready' AND execution_requested] for
    admission. *)
Definition claim_with (accepts : PlanRow -> bool) (refused : string) (c : Control) (now : Z) (owner run_id : Uuid)
    : result (Control * Lease) :=
  r ← ok_or (cd_runs c !! run_id) "run not found";
  p ← ok_or (cd_plans c !! run_id) refused;
  _ ← ensure (bool_decide (rw_status r = RunCreating) && lease_free false now (rw_state r) && accepts p) refused;
  generation ← ok_or (i64_checked_add (pl_generation p) 1) "bigint out of range";
  let s := set_lease (rw_state r) (Some owner) (Some (now + LEASE)) (Some now) (rn_error_message (rw_state r)) now in
  Ok (with_plans (update_run c run_id r s) (<[run_id := set_generation p generation now]> (cd_plans c)),
      mkLease run_id owner generation).

Definition is_preparing (p : PlanRow) : bool := bool_decide (pl_status p = PlanPreparing).
Definition is_admissible (p : PlanRow) : bool := bool_decide (pl_status p = PlanReady) && pl_execution_requested p.
Definition is_ready (p : PlanRow) : bool := bool_decide (pl_status p = PlanReady).

Definition claim_plan := claim_with is_preparing "run plan is leased, ready, or terminal".
Definition claim_admission := claim_with is_admissible "run admission is leased or terminal, or plan is not ready".

(** [LOCK_RUN] and [RENEW_RUN]: the lease is live, owned and current. *)
Definition guard_with (accepts : PlanRow -> bool) (refused : string) (c : Control) (now : Z) (lease : Lease)
    : result (Control * PlanRow) :=
  r ← ok_or (cd_runs c !! le_run_id lease) "no rows returned by a query that expected to return at least one row";
  p ← ok_or (cd_plans c !! le_run_id lease) refused;
  _ ← ensure (bool_decide (rw_status r = RunCreating)
              && bool_decide (rn_coordinator_id (rw_state r) = Some (le_owner lease))
              && is_some_and (fun t => now <? t) (rn_coordinator_leased_until (rw_state r))
              && (pl_generation p =? le_generation lease) && accepts p) refused;
  let s := set_lease (rw_state r) (rn_coordinator_id (rw_state r)) (Some (now + LEASE)) (Some now)
             (rn_error_message (rw_state r)) now in
  Ok (update_run c (le_run_id lease) r s, p).

Definition guard_plan := guard_with is_preparing "run plan lost its live creation lease".
Definition guard_admission := guard_with is_ready "execution admission lost its live creation lease".

Definition renew_plan (c : Control) (now : Z) (lease : Lease) : result Control :=
  st ← guard_plan c now lease; Ok st.1.
Definition renew_admission (c : Control) (now : Z) (lease : Lease) : result Control :=
  st ← guard_admission c now lease; Ok st.1.

(** [release]: an obsolete owner changes nothing. *)
Definition release_plan (c : Control) (lease : Lease) (error : option string) : Control :=
  match cd_runs c !! le_run_id lease, cd_plans c !! le_run_id lease with
  | Some r, Some p =>
      if bool_decide (rn_coordinator_id (rw_state r) = Some (le_owner lease)) && (pl_generation p =? le_generation lease)
      then update_run c (le_run_id lease) r
             (set_lease (rw_state r) None None None
                (match error with Some e => Some (chars_take 4096 e) | None => rn_error_message (rw_state r) end)
                (rn_updated_at (rw_state r)))
      else c
  | _, _ => c
  end.

(** ** Plan files (batches.rs) *)

Definition MAX_FILES : Z := 64.
Definition MAX_METADATA_BYTES : Z := 256 * 1024.
Definition GROUP_BYTES : Z := 8 * 1024 * 1024.

Definition object_slot (o : FileObject) : option (string * Z * Z) :=
  (fun start => (ob_kind o, ob_level o, start)) <$> ob_range_start o.

Definition check_argument (st : list string * list (string * Z * Z) * Z) (o : FileObject)
    : result (list string * list (string * Z * Z) * Z) :=
  let '(keys, slots, bytes) := st in
  _ ← ensure (negb (bool_decide (ob_object_key o ∈ keys))) "duplicate plan checkpoint key";
  _ ← match object_slot o with
      | Some slot => ensure (negb (bool_decide (slot ∈ slots))) "duplicate plan checkpoint slot"
      | None => Ok tt
      end;
  bytes ← ok_or (u64_checked_add bytes (or_byte_count (ob_reference o))) "plan checkpoint byte overflow";
  Ok (ob_object_key o :: keys, option_list (object_slot o) ++ slots, bytes).

Definition argument (objects : list FileObject) : result unit :=
  _ ← ensure (negb (bool_decide (objects = [])) && (zlen objects <=? MAX_FILES)) "invalid plan checkpoint file count";
  st ← foldM check_argument ([], [], 0) objects;
  _ ← ensure ((zlen objects =? 1) || (st.2 <=? GROUP_BYTES)) "plan checkpoint payload exceeds group bound";
  bytes ← objects_to_vec objects;
  ensure (str_len bytes <=? MAX_METADATA_BYTES) "plan checkpoint metadata exceeds bound".

Definition row_of (o : FileObject) : PlanObject :=
  mkPlanObject (ob_kind o) (ob_level o) (ob_range_start o) (ob_range_end o) (ob_reference o) false.

Definition same (a : PlanObject) (o : FileObject) : bool :=
  str_eqb (po_kind a) (ob_kind o) && (po_level a =? ob_level o)
  && bool_decide (po_range_start a = ob_range_start o) && bool_decide (po_range_end a = ob_range_end o)
  && objref_eqb (po_reference a) (ob_reference o).

(** The constraints of [run_plan_objects]. *)
Definition object_row_ok (a : PlanObject) : bool :=
  bool_decide (po_kind a ∈ ["configuration"; "chunks"; "index"; "gates"; "manifest"; "probe"])
  && in_range 0 7 (po_level a) && is_none_or (fun s => 0 <=? s) (po_range_start a)
  && match po_range_start a, po_range_end a with
     | Some s, Some e => s <? e
     | None, None => true
     | _, _ => false
     end
  && Bool.eqb (str_eqb (po_kind a) "probe") (opt_is_none (po_range_start a))
  && (reference_octets (po_reference a) <=? 8192).

(** The unique slot of a ranged object is taken by another row. *)
Definition slot_taken (objects : gmap (Uuid * string) PlanObject) (run_id : Uuid) (o : FileObject) : bool :=
  match ob_range_start o with
  | None => false
  | Some start => exists_where (fun k a => (k.1 =? run_id) && str_eqb (po_kind a) (ob_kind o)
                                 && (po_level a =? ob_level o) && bool_decide (po_range_start a = Some start)) objects
  end.

(** [INSERT .. ON CONFLICT DO NOTHING], one row. *)
Definition register_object (run_id : Uuid) (objects : gmap (Uuid * string) PlanObject) (o : FileObject)
    : result (gmap (Uuid * string) PlanObject) :=
  _ ← ensure (object_row_ok (row_of o)) "constraint violation on run_plan_objects";
  if opt_is_some (objects !! (run_id, ob_object_key o)) || slot_taken objects run_id o then Ok objects
  else Ok (<[(run_id, ob_object_key o) := row_of o]> objects).

Definition owned_key (run_id : Uuid) (o : FileObject) : bool :=
  str_eqb (ob_object_key o) (or_key (ob_reference o))
  && (String.prefix ("runs/" +:+ ledger_uuid_text run_id +:+ "/") (ob_object_key o)
      || (str_eqb (ob_kind o) "probe"
          && String.prefix ("capability-probes/" +:+ ledger_uuid_text run_id +:+ "/") (ob_object_key o))).

Definition check_object (limits : FormatLimits) (alias : string) (run_id : Uuid) (_ : unit) (o : FileObject) : result unit :=
  _ ← ObjectRef_validate (ob_reference o) limits;
  _ ← ensure (str_eqb (or_storage_alias (ob_reference o)) alias) "run-plan object changes storage owner";
  ensure (owned_key run_id o) "unowned run-plan object key".

(** The stored rows of the given keys, in their order. *)
Definition replay (objects : gmap (Uuid * string) PlanObject) (run_id : Uuid) (l : list FileObject) : list PlanObject :=
  omap (fun o => objects !! (run_id, ob_object_key o)) l.

Definition plan_objects (c : Control) (catalog : gmap Uuid CatalogRow) (now : Z) (lease : Lease) (l : list FileObject)
    : result (Control * list bool) :=
  _ ← argument l;
  st ← guard_plan c now lease;
  let '(c, p) := st : Control * PlanRow in
  owner ← ok_or (catalog !! pl_dataset_upload_id p) "no rows returned";
  _ ← foldM (check_object (pl_limits p) (ca_storage_alias owner) (le_run_id lease)) tt l;
  objects ← foldM (register_object (le_run_id lease)) (cd_plan_objects c) l;
  let old := replay objects (le_run_id lease) l in
  _ ← ensure ((zlen old =? zlen l) && forallb (fun ao => same ao.1 ao.2) (zip old l))
        "run-plan replay changed reference or range";
  Ok (with_plan_objects c objects, map po_acknowledged old).

(** The loop of [acknowledge] over the chunk files, from the cursor [start]. *)
Definition advance_chunk (start cursor : Z) (a : PlanObject) : result Z :=
  end_ ← ok_or (po_range_end a) "chunk range end missing";
  if po_acknowledged a then
    _ ← ensure (end_ <=? start) "acknowledged chunk beyond progress"; Ok cursor
  else
    _ ← ensure (bool_decide (po_range_start a = Some cursor)) "run chunk acknowledgement gap or overlap"; Ok end_.

Definition is_chunks (a : PlanObject) : bool := str_eqb (po_kind a) "chunks".

Definition set_acknowledged (a : PlanObject) : PlanObject :=
  mkPlanObject (po_kind a) (po_level a) (po_range_start a) (po_range_end a) (po_reference a) true.

Definition set_cursor (p : PlanRow) (cursor : Z) : PlanRow :=
  mkPlanRow (pl_dataset_upload_id p) (pl_status p) (pl_storage_binding_hash p) (pl_limits p) (pl_execution_plan p)
    (pl_assignments p) (pl_generation p) cursor (pl_execution_requested p) (pl_admission_cursor p)
    (pl_admission_state p) (pl_manifest p) (pl_updated_at p).

(** [UPDATE .. SET acknowledged = true WHERE object_key = ANY(keys)]. *)
Definition acknowledge_rows (run_id : Uuid) (l : list FileObject) (objects : gmap (Uuid * string) PlanObject)
    : gmap (Uuid * string) PlanObject :=
  update_where (fun k (_ : PlanObject) => (k.1 =? run_id) && bool_decide (k.2 ∈ map ob_object_key l))
    (fun _ => set_acknowledged) objects.

(** The statements that follow the checks change exactly the rows counted before,
    and the cursor read under the lock: their own row counts agree. *)
Definition acknowledge_objects (c : Control) (now : Z) (lease : Lease) (l : list FileObject) : result Control :=
  _ ← argument l;
  st ← guard_plan c now lease;
  let '(c, p) := st : Control * PlanRow in
  let old := replay (cd_plan_objects c) (le_run_id lease) l in
  _ ← ensure ((zlen old =? zlen l) && forallb (fun ao => same ao.1 ao.2) (zip old l))
        "plan acknowledgement changed or missing reference";
  cursor ← foldM (advance_chunk (pl_chunk_cursor p)) (pl_chunk_cursor p) (List.filter is_chunks old);
  Ok (with_plan_objects (with_plans c (<[le_run_id lease := set_cursor p cursor]> (cd_plans c)))
        (acknowledge_rows (le_run_id lease) l (cd_plan_objects c))).

(** ** Reading plan files *)

Definition object_of (kr : (Uuid * string) * PlanObject) : FileObject :=
  mkFileObject kr.1.2 (po_kind kr.2) (po_level kr.2) (po_range_start kr.2) (po_range_end kr.2) (po_reference kr.2)
    (po_acknowledged kr.2).

(** [ORDER BY range_start] over rows whose slots are unique. *)
Definition by_range (a b : FileObject) : Prop := default 0 (ob_range_start a) <= default 0 (ob_range_start b).
#[global] Instance by_range_dec : RelDecision by_range.
Proof. intros a b. unfold by_range. apply _. Defined.

(** [ORDER BY object_key]. *)
Definition by_key (a b : FileObject) : Prop := kltb (ob_object_key b) (ob_object_key a) = false.
#[global] Instance by_key_dec : RelDecision by_key.
Proof. intros a b. unfold by_key. apply _. Defined.

Definition select_objects (c : Control) (run_id : Uuid) (kind : string) (level after : Z) : list FileObject :=
  take 256 (merge_sort by_range (map object_of (map_to_list
    (rows_where (fun k a => (k.1 =? run_id) && str_eqb (po_kind a) kind && (po_level a =? level)
                   && is_some_and (fun start => after <? start) (po_range_start a) && po_acknowledged a)
       (cd_plan_objects c))))).

Definition pending_probes (c : Control) (run_id : Uuid) : list FileObject :=
  take 64 (merge_sort by_key (map object_of (map_to_list
    (rows_where (fun k a => (k.1 =? run_id) && str_eqb (po_kind a) "probe" && negb (po_acknowledged a))
       (cd_plan_objects c))))).

(** ** Publication *)

Definition manifest_references (m : RunPlanManifest) : list ObjectRef :=
  pm_configuration m :: id_object (pm_chunks m) :: omap (fun s => gd_first (sp_gate_counts s)) (pm_shards m).

Definition acknowledged_reference (c : Control) (run_id : Uuid) (r : ObjectRef) : bool :=
  is_some_and (fun a => objref_eqb (po_reference a) r && po_acknowledged a) (cd_plan_objects c !! (run_id, or_key r)).

Definition has_unacknowledged (c : Control) (run_id : Uuid) : bool :=
  exists_where (fun k a => (k.1 =? run_id) && negb (po_acknowledged a)) (cd_plan_objects c).

Definition manifest_acknowledged (c : Control) (run_id : Uuid) (root : ObjectRef) : bool :=
  is_some_and (fun a => str_eqb (po_kind a) "manifest" && objref_eqb (po_reference a) root && po_acknowledged a)
    (cd_plan_objects c !! (run_id, or_key root)).

(** The loop of [publish] over the shards and those of the manifest. *)
Definition check_published_shard (assignments : list RunShardPlacementAssignment) (total : Z)
    (item : LedgerShard * RunPlanShard) : result Z :=
  let '(shard, expected) := item in
  _ ← ensure ((ls_run_shard shard =? sp_run_shard expected) && (ls_case_count shard =? sp_case_count expected)
              && (ls_chunk_count shard =? sp_chunk_count expected)
              && str_eqb (ls_planned_chunk_hash shard) (sp_planned_chunk_hash expected))
        "shard coverage disagrees with manifest";
  _ ← ensure (existsb (fun a => (pa_run_shard a =? ls_run_shard shard)
                               && str_eqb (pa_database_alias a) (ls_database_alias shard)) assignments)
        "plan changes frozen shard placement";
  ok_or (i32_checked_add total (ls_case_count shard)) "case total overflow".

(** A row of [run_plan_shards] and its constraints. *)
Definition insert_plan_shard (dbs : databases) (run_id : Uuid) (t : gmap shard_key PlanShardRow) (s : LedgerShard)
    : result (gmap shard_key PlanShardRow) :=
  _ ← ensure (in_range 0 127 (ls_run_shard s) && opt_is_some (dbs !! ls_database_alias s) && (0 <? ls_case_count s)
              && (0 <? ls_chunk_count s) && opt_is_none (t !! (run_id, ls_run_shard s)))
        "constraint violation on run_plan_shards";
  Ok (<[(run_id, ls_run_shard s) := mkPlanShardRow (ls_database_alias s) (ls_case_count s) (ls_chunk_count s)
          (ls_planned_chunk_hash s) (ls_case_projection_hash s)]> t).

(** [config_snapshot || object] of [jsonb]. *)
Definition jsonb_concat (v : Value) (fields : list (string * Value)) : Value :=
  match v with
  | Object old => Object (fold_left (fun m kv => bt_insert kv.1 kv.2 m) fields old)
  | Array items => Array (items ++ [Object (bt_collect fields)])
  | scalar => Array [scalar; Object (bt_collect fields)]
  end.

Definition settlement_plan_value (c : Control) (run_id : Uuid) : Value :=
  Object (bt_collect [("version", Num (PosInt 1)); ("shards", Object (bt_collect (omap (fun s =>
    (fun row => (ledger_shard_text s, Object (bt_collect [("hash", Str (ps_planned_chunk_hash row));
                   ("case_count", Num (number_of_i64 (ps_case_count row)));
                   ("chunk_count", Num (number_of_i64 (ps_chunk_count row)))])))
    <$> cd_plan_shards c !! (run_id, s)) (shards_of run_id (cd_plan_shards c)))))]).

Definition set_snapshot (r : RunRow) (snapshot : Value) (s : RunState) : RunRow :=
  let x := rw_context r in
  mkRunRow (rw_name r) (rw_description r)
    (mkRunContext (rc_run_key x) (rc_dataset_id x) (rc_dataset_version_id x) (rc_dataset_version x)
       (rc_evaluation_profile_id x) (rc_evaluation_profile_version x) (rc_profile_version_id x) (rc_profile_hash x)
       (rc_aggregation_policy_id x) (rc_aggregation_policy_version x) (rc_aggregation_policy_hash x)
       (rc_agent_provider x) (rc_agent_name x) (rc_agent_version x) (rc_prompt_config_id x)
       (rc_prompt_config_version x) snapshot)
    (rw_expected_execution_count r) (rw_created_at r) s.

Definition set_published (p : PlanRow) (root : ObjectRef) (now : Z) : PlanRow :=
  mkPlanRow (pl_dataset_upload_id p) PlanReady (pl_storage_binding_hash p) (pl_limits p) (pl_execution_plan p)
    (pl_assignments p) (pl_generation p) (pl_chunk_cursor p) (pl_execution_requested p) (pl_admission_cursor p)
    (pl_admission_state p) (Some root) now.

(** The checks of [publish] before its writes: the total of the cases. *)
Definition check_publication (c : Control) (catalog : gmap Uuid CatalogRow) (lease : Lease) (p : PlanRow)
    (manifest : RunPlanManifest) (root : ObjectRef) (shards : list LedgerShard) : result Z :=
  bytes ← encode manifest (pl_limits p);
  _ ← ObjectRef_verify blake3_hex root bytes (pl_limits p);
  _ ← ensure ((pm_run_id manifest =? le_run_id lease) && (zlen shards =? zlen (pm_shards manifest)))
        "run manifest identity mismatch";
  entry ← ok_or (catalog !! pl_dataset_upload_id p) "no rows returned";
  r ← ok_or (cd_runs c !! le_run_id lease) "no rows returned";
  hash ← execution_plan_hash (pl_execution_plan p);
  _ ← ensure (bool_decide (or_schema root = FRunPlanManifest)
              && str_eqb (or_storage_alias root) (or_storage_alias (ca_manifest entry))
              && objref_eqb (pm_dataset manifest) (ca_manifest entry)
              && str_eqb (pm_profile_hash manifest) (rc_profile_hash (rw_context r))
              && str_eqb (pm_aggregation_policy_hash manifest) (ep_aggregation_policy_hash (pl_execution_plan p))
              && str_eqb (pm_execution_plan_hash manifest) hash) "published plan changes frozen identity";
  _ ← ensure (forallb (acknowledged_reference c (le_run_id lease)) (manifest_references manifest))
        "plan root references an unacknowledged object";
  _ ← ensure (negb (has_unacknowledged c (le_run_id lease)) && (pl_chunk_cursor p =? pm_chunk_count manifest))
        "incomplete run-plan object coverage";
  _ ← ensure (manifest_acknowledged c (le_run_id lease) root) "manifest object not acknowledged";
  foldM (check_published_shard (pl_assignments p)) 0 (zip shards (pm_shards manifest)).

(** [publish]: the clock is read again by the second guard. *)
Definition publish (c : Control) (catalog : gmap Uuid CatalogRow) (dbs : databases) (now now' : Z) (lease : Lease)
    (manifest : RunPlanManifest) (root : ObjectRef) (shards : list LedgerShard) : result Control :=
  st ← guard_plan c now lease;
  let '(c, p) := st : Control * PlanRow in
  total ← check_publication c catalog lease p manifest root shards;
  _ ← ensure (negb (bool_decide (shards = []))) "syntax error at end of input";
  rows ← foldM (insert_plan_shard dbs (le_run_id lease)) (cd_plan_shards c) shards;
  r ← ok_or (cd_runs c !! le_run_id lease) "no rows returned";
  _ ← ensure (total =? rw_expected_execution_count r) "run plan omits canonical cases";
  st ← guard_plan (with_plan_shards c rows) now' lease;
  let '(c, p) := st : Control * PlanRow in
  _ ← ensure (reference_octets root <=? 8192) "constraint violation on run_plans";
  r ← ok_or (cd_runs c !! le_run_id lease) "no rows returned";
  let snapshot := jsonb_concat (rc_config_snapshot (rw_context r))
    [("run_plan", reference_value root); ("plan_status", Str "ready");
     ("settlement_plan", settlement_plan_value c (le_run_id lease))] in
  let c := with_plans c (<[le_run_id lease := set_published p root now']> (cd_plans c)) in
  Ok (with_runs c (<[le_run_id lease := set_snapshot r snapshot (set_lease (rw_state r) None None None None now')]>
                     (cd_runs c))).

(** ** Admission (admission.rs) *)

Definition set_admission (p : PlanRow) (cursor : Z) (state : btree Z Manifest) : PlanRow :=
  mkPlanRow (pl_dataset_upload_id p) (pl_status p) (pl_storage_binding_hash p) (pl_limits p) (pl_execution_plan p)
    (pl_assignments p) (pl_generation p) (pl_chunk_cursor p) (pl_execution_requested p) cursor state (pl_manifest p)
    (pl_updated_at p).

Definition acknowledge_admission (c : Control) (now : Z) (lease : Lease) (start end_ : Z) (state : btree Z Manifest)
    : result Control :=
  _ ← ensure ((start <? end_) && (zlen state <=? 128)) "invalid admission checkpoint";
  st ← guard_admission c now lease;
  let '(c, p) := st : Control * PlanRow in
  _ ← ensure ((pl_admission_cursor p =? start) && (end_ <=? pl_chunk_cursor p)) "admission checkpoint is not contiguous";
  Ok (with_plans c (<[le_run_id lease := set_admission p end_ state]> (cd_plans c))).

(** [validate_active_shard_capable_placement]. *)
Definition validate_placement (dbs : databases) (_ : unit) (alias : string) : result unit :=
  row ← ok_or (dbs !! alias) "database placement alias is not configured";
  _ ← ensure (str_eqb row.2 "active") "database placement cannot receive new shard placements";
  ensure (str_eqb row.1 "shard" || str_eqb row.1 "control_and_shard") "database placement is not shard-capable".

Definition insert_placement (run_id : Uuid) (t : gmap shard_key PlacementRow) (a : RunShardPlacementAssignment)
    : result (gmap shard_key PlacementRow) :=
  _ ← ensure (in_range 0 127 (pa_run_shard a) && opt_is_none (t !! (run_id, pa_run_shard a)))
        "constraint violation on shard_placements";
  Ok (<[(run_id, pa_run_shard a) := mkPlacementRow (pa_database_alias a) "active" None 1 1]> t).

Definition bulk_insert_shard_placements (dbs : databases) (run_id : Uuid) (t : gmap shard_key PlacementRow)
    (assignments : list RunShardPlacementAssignment) : result (gmap shard_key PlacementRow) :=
  _ ← foldM (validate_placement dbs) tt (bt_keys (bset (map pa_database_alias assignments)));
  foldM (insert_placement run_id) t assignments.

Definition insert_cursor (now : Z) (run_id : Uuid) (t : gmap shard_key CursorRow) (run_shard : Z)
    : result (gmap shard_key CursorRow) :=
  _ ← ensure (in_range 0 127 run_shard) "constraint violation on run_shard_dispatch_cursors";
  Ok (if opt_is_some (t !! (run_id, run_shard)) then t else <[(run_id, run_shard) := mkCursorRow CursorOpen now]> t).

Definition bulk_insert_run_shard_dispatch_cursors (now : Z) (run_id : Uuid) (t : gmap shard_key CursorRow)
    (run_shards : list Z) : result (gmap shard_key CursorRow) :=
  foldM (insert_cursor now run_id) t (bt_keys (bset run_shards)).

(** The rows of [run_plan_shards] in shard order. *)
Definition published_shards (c : Control) (run_id : Uuid) : list (Z * PlanShardRow) :=
  omap (fun s => (fun row => (s, row)) <$> cd_plan_shards c !! (run_id, s)) (shards_of run_id (cd_plan_shards c)).

Definition shard_admitted (actual : btree Z Manifest) (sr : Z * PlanShardRow) : bool :=
  is_some_and (fun m => (mn_case_count m =? ps_case_count sr.2) && (mn_chunk_count m =? ps_chunk_count sr.2)
                        && str_eqb (mn_hash m) (ps_planned_chunk_hash sr.2)) (bt_get sr.1 actual).

(** [chunk.run_shard] of the last chunk of a manifest. *)
Definition last_shard (m : Manifest) : result Z :=
  last ← ok_or (mn_last m) "nonempty verified shard"; Ok (ci_run_shard last).

Fixpoint mapM_result {A B} (f : A -> result B) (l : list A) : result (list B) :=
  match l with
  | [] => Ok []
  | a :: l' => b ← f a; rest ← mapM_result f l'; Ok (b :: rest)
  end.

Definition end_creation (s : RunState) (status : RunStatus) (error : option string) (completed : option Z) (now : Z)
    : RunState :=
  mkRunState status (rn_gate_status s) None None None (rn_terminal_execution_count s) (rn_passed_execution_count s)
    (rn_failed_execution_count s) (rn_errored_execution_count s) (rn_summary s) error (rn_started_at s)
    (rn_dispatched_at s) (rn_finalized_at s) completed now.

Definition activate (c : Control) (dbs : databases) (now : Z) (lease : Lease) (expected : btree Z Manifest)
    : result Control :=
  st ← guard_admission c now lease;
  let '(c, p) := st : Control * PlanRow in
  let actual := pl_admission_state p in
  _ ← ensure ((pl_admission_cursor p =? pl_chunk_cursor p) && (0 <? pl_chunk_cursor p)
              && bool_decide (actual = expected)) "execution placements are not fully admitted";
  let rows := published_shards c (le_run_id lease) in
  _ ← ensure ((zlen rows =? zlen actual) && forallb (shard_admitted actual) rows) "admission differs from published plan";
  placements ← bulk_insert_shard_placements dbs (le_run_id lease) (cd_placements c)
                 (map (fun sr => mkRunShardPlacementAssignment sr.1 (ps_database_alias sr.2)) rows);
  shards ← mapM_result last_shard (bt_values expected);
  cursors ← bulk_insert_run_shard_dispatch_cursors now (le_run_id lease) (cd_cursors c) shards;
  r ← ok_or (cd_runs c !! le_run_id lease) "no rows returned";
  Ok (update_run (with_cursors (with_placements c placements) cursors) (le_run_id lease) r
        (end_creation (rw_state r) RunPending None (rn_completed_at (rw_state r)) now)).

(** [fail]: a deterministic conflict ends the run under the live lease. *)
Definition fail_admission (c : Control) (now : Z) (lease : Lease) (error : string) : result Control :=
  st ← guard_admission c now lease;
  let '(c, p) := st : Control * PlanRow in
  r ← ok_or (cd_runs c !! le_run_id lease) "no rows returned";
  Ok (update_run c (le_run_id lease) r (end_creation (rw_state r) RunFailed (Some (chars_take 4096 error)) (Some now) now)).
End ledger.
