(* ===== verification/PlanLifecycle.v ===== *)
(** * The life of a plan

    The transactions of [PlanLedger] as steps of one control database, in any
    interleaving of planners, admissions and the other workflows, and what every
    reachable state satisfies: the acknowledged chunk files of a run cover its
    chunks exactly up to the cursor, a published plan is complete and never
    changes, and a lease that has been superseded can write nothing. *)

From Stdlib Require Import ZArith Lia ZifyBool.
From stdpp Require Import base strings pretty numbers gmap sorting relations sets option list.
From S2P Require Import Prelude Float64 BTree Text Json RunTypes StorageFormats Codec Identity.
From S2P Require Import ShardTables ShardSummary ControlTables PlanLedger.

Open Scope Z_scope.

Section lifecycle.
Context {LF : LedgerFunctions} `{E : Encoding} `{SM : Serde RunPlanManifest}.

(** No transaction removes a run or changes what it expects. *)
Definition keeps_runs (c c' : Control) : Prop :=
  forall id r, cd_runs c !! id = Some r ->
    exists r', cd_runs c' !! id = Some r' /\ rw_expected_execution_count r' = rw_expected_execution_count r.

(** One committed transaction.  [other_step] is any transaction of the other
    workflows: they change run rows, routes, cursors, scorecards and events, and
    never the plan tables. *)
Inductive ledger_step : Control -> Control -> Prop :=
| begin_step c versions catalog now run_id dataset binding limits draft execution assignments execute c' versions' p :
    begin_plan c versions catalog now run_id dataset binding limits draft execution assignments execute
      = Ok (c', versions', p) -> ledger_step c c'
| claim_step c now owner run_id c' lease : claim_plan c now owner run_id = Ok (c', lease) -> ledger_step c c'
| renew_step c now lease c' : renew_plan c now lease = Ok c' -> ledger_step c c'
| release_step c lease error : ledger_step c (release_plan c lease error)
| plan_step c catalog now lease l c' acks : plan_objects c catalog now lease l = Ok (c', acks) -> ledger_step c c'
| acknowledge_step c now lease l c' : acknowledge_objects c now lease l = Ok c' -> ledger_step c c'
| publish_step c catalog dbs now now' lease manifest root shards c' :
    publish c catalog dbs now now' lease manifest root shards = Ok c' -> ledger_step c c'
| request_step c run_id c' : request_execution c run_id = Ok c' -> ledger_step c c'
| claim_admission_step c now owner run_id c' lease :
    claim_admission c now owner run_id = Ok (c', lease) -> ledger_step c c'
| renew_admission_step c now lease c' : renew_admission c now lease = Ok c' -> ledger_step c c'
| acknowledge_admission_step c now lease start end_ state c' :
    acknowledge_admission c now lease start end_ state = Ok c' -> ledger_step c c'
| activate_step c dbs now lease expected c' : activate c dbs now lease expected = Ok c' -> ledger_step c c'
| fail_step c now lease error c' : fail_admission c now lease error = Ok c' -> ledger_step c c'
| other_step c c' :
    cd_plans c' = cd_plans c -> cd_plan_objects c' = cd_plan_objects c -> cd_plan_shards c' = cd_plan_shards c ->
    keeps_runs c c' -> ledger_step c c'.

(** ** What a transaction does to the plan tables *)

Lemma guard_with_Ok accepts refused c now lease c' p :
  guard_with accepts refused c now lease = Ok (c', p) ->
  exists r s, cd_runs c !! le_run_id lease = Some r /\ cd_plans c !! le_run_id lease = Some p /\
    rw_status r = RunCreating /\ rn_coordinator_id (rw_state r) = Some (le_owner lease) /\
    pl_generation p = le_generation lease /\ accepts p = true /\ c' = update_run c (le_run_id lease) r s /\
    rn_status s = RunCreating.
Proof.
  unfold guard_with. intros H. inv_ok.
  match goal with X : bool_decide (rw_status _ = RunCreating) = true |- _ => apply bool_decide_eq_true in X; rename X into Hst end.
  match goal with X : bool_decide (rn_coordinator_id _ = _) = true |- _ => apply bool_decide_eq_true in X end.
  eexists _, _. split_and!; try done; lia.
Qed.

(** The effect of a step on the plan tables, by kind. *)
Inductive plan_effect (c c' : Control) : Prop :=
| effect_none :
    cd_plans c' = cd_plans c -> cd_plan_objects c' = cd_plan_objects c -> cd_plan_shards c' = cd_plan_shards c ->
    plan_effect c c'
| effect_new run_id p :
    cd_plans c !! run_id = None -> pl_status p = PlanPreparing -> pl_chunk_cursor p = 0 -> pl_generation p = 0 ->
    pl_admission_cursor p = 0 -> pl_manifest p = None ->
    cd_plans c' = <[run_id := p]> (cd_plans c) -> cd_plan_objects c' = cd_plan_objects c ->
    cd_plan_shards c' = cd_plan_shards c -> plan_effect c c'
| effect_row run_id p p' :
    cd_plans c !! run_id = Some p -> pl_status p' = pl_status p -> pl_chunk_cursor p' = pl_chunk_cursor p ->
    pl_manifest p' = pl_manifest p -> pl_limits p' = pl_limits p -> pl_assignments p' = pl_assignments p ->
    pl_generation p <= pl_generation p' ->
    (pl_status p = PlanReady /\ pl_admission_cursor p <= pl_admission_cursor p' <= pl_chunk_cursor p \/
     pl_admission_cursor p' = pl_admission_cursor p) ->
    cd_plans c' = <[run_id := p']> (cd_plans c) -> cd_plan_objects c' = cd_plan_objects c ->
    cd_plan_shards c' = cd_plan_shards c -> plan_effect c c'
| effect_register run_id p l :
    cd_plans c !! run_id = Some p -> pl_status p = PlanPreparing ->
    foldM (register_object run_id) (cd_plan_objects c) l = Ok (cd_plan_objects c') ->
    cd_plans c' = cd_plans c -> cd_plan_shards c' = cd_plan_shards c -> plan_effect c c'
| effect_acknowledge run_id p l cursor :
    cd_plans c !! run_id = Some p -> pl_status p = PlanPreparing -> NoDup (map ob_object_key l) ->
    Forall (fun o => is_Some (cd_plan_objects c !! (run_id, ob_object_key o))) l ->
    foldM (advance_chunk (pl_chunk_cursor p)) (pl_chunk_cursor p)
      (List.filter is_chunks (replay (cd_plan_objects c) run_id l)) = Ok cursor ->
    cd_plans c' = <[run_id := set_cursor p cursor]> (cd_plans c) ->
    cd_plan_objects c' = acknowledge_rows run_id l (cd_plan_objects c) ->
    cd_plan_shards c' = cd_plan_shards c -> plan_effect c c'
| effect_publish run_id p catalog dbs lease manifest root shards total now :
    cd_plans c !! run_id = Some p -> pl_status p = PlanPreparing -> le_run_id lease = run_id -> shards <> [] ->
    check_publication c catalog lease p manifest root shards = Ok total ->
    foldM (insert_plan_shard dbs run_id) (cd_plan_shards c) shards = Ok (cd_plan_shards c') ->
    (exists r, cd_runs c !! run_id = Some r /\ total = rw_expected_execution_count r) ->
    cd_plans c' = <[run_id := set_published p root now]> (cd_plans c) ->
    cd_plan_objects c' = cd_plan_objects c -> plan_effect c c'.

Lemma argument_keys l u : argument l = Ok u -> NoDup (map ob_object_key l).
Proof.
  unfold argument. intros H. apply bind_Ok in H as (? & _ & H). apply bind_Ok in H as (st & Hf & _).
  assert (Hgen : forall l st st', foldM check_argument st l = Ok st' ->
    NoDup (map ob_object_key l) /\ Forall (fun k => k ∉ st.1.1) (map ob_object_key l)).
  { clear. induction l as [|o l IH]; intros [[keys slots] bytes] st' H; [split; constructor|].
    cbn [foldM] in H. apply bind_Ok in H as (st1 & H1 & H). unfold check_argument in H1.
    apply bind_Ok in H1 as (? & Hk%ensure_Ok & H1). apply bind_Ok in H1 as (? & _ & H1).
    apply bind_Ok in H1 as (? & _ & H1). injection H1 as <-. apply negb_true_iff, bool_decide_eq_false in Hk.
    destruct (IH _ _ H) as [Hnd Hall]. cbn [fst] in *. split; cbn [map].
    - constructor; [|done]. intros Hin. rewrite Forall_forall in Hall. specialize (Hall _ Hin). set_solver.
    - constructor; [done|]. eapply Forall_impl; [exact Hall|]. set_solver. }
  by apply (Hgen l ([], [], 0) st).
Qed.

Lemma replay_complete objects run_id (l : list FileObject) :
  zlen (replay objects run_id l) = zlen l -> Forall (fun o => is_Some (objects !! (run_id, ob_object_key o))) l.
Proof.
  unfold replay. induction l as [|o l IH]; intros Hl; [constructor|]. cbn in Hl.
  assert (Hle : forall l' : list FileObject, (length (omap (fun o => objects !! (run_id, ob_object_key o)) l') <= length l')%nat).
  { clear. induction l' as [|x l' IH]; [done|]. simpl. unfold omap in IH.
    destruct (objects !! (run_id, ob_object_key x)); simpl; lia. }
  destruct (objects !! (run_id, ob_object_key o)) as [a|] eqn:Eo.
  - rewrite !zlen_cons in Hl. constructor; [by exists a|]. apply IH. lia.
  - rewrite zlen_cons in Hl. unfold zlen in Hl. specialize (Hle l). lia.
Qed.

Lemma claim_effect accepts refused c now owner run_id c' lease :
  claim_with accepts refused c now owner run_id = Ok (c', lease) -> plan_effect c c'.
Proof.
  unfold claim_with, i64_checked_add. intros H. inv_ok.
  match goal with X : cd_plans c !! run_id = Some ?q |- _ =>
    eapply (effect_row _ _ run_id q (set_generation q (pl_generation q + 1) now)) end;
    cbn [set_generation pl_status pl_chunk_cursor pl_manifest pl_limits pl_assignments pl_generation
      pl_admission_cursor]; try done || lia.
Qed.

Lemma guard_effect accepts refused c now lease c' p :
  guard_with accepts refused c now lease = Ok (c', p) ->
  cd_plans c' = cd_plans c /\ cd_plan_objects c' = cd_plan_objects c /\ cd_plan_shards c' = cd_plan_shards c /\
  cd_plans c !! le_run_id lease = Some p /\ accepts p = true.
Proof. intros (r & s & _ & Hp & _ & _ & _ & Ha & -> & _)%guard_with_Ok. done. Qed.

Lemma request_effect c run_id c' : request_execution c run_id = Ok c' -> plan_effect c c'.
Proof.
  unfold request_execution. intros H. destruct (cd_plans c !! run_id) as [p|] eqn:Ep; [|discriminate H].
  destruct (cd_runs c !! run_id) as [r|]; [|discriminate H]. inv_ok.
  eapply (effect_row _ _ run_id p (mkPlanRow (pl_dataset_upload_id p) _ _ _ _ _ _ _ true _ _ _ _));
    cbn [with_plans cd_plans]; [done|..|reflexivity|done|done]; try done. by right.
Qed.

Lemma begin_effect c versions catalog now run_id dataset binding limits draft execution assignments execute c' v' p :
  begin_plan c versions catalog now run_id dataset binding limits draft execution assignments execute = Ok (c', v', p) ->
  plan_effect c c'.
Proof.
  unfold begin_plan. intros H. do 4 (apply bind_Ok in H as (? & _ & H)).
  apply bind_Ok in H as ([c1 creating] & Hst & H). apply bind_Ok in H as (row & Hrow & H).
  do 3 (apply bind_Ok in H as (? & _ & H)). apply ok_or_Ok in Hrow.
  destruct (cd_runs c !! run_id) as [r|].
  - apply bind_Ok in Hst as (b & _ & Hst). injection Hst as <- <-.
    destruct (_ && _ && _); [|injection H as <- <- <-; by apply effect_none].
    apply bind_Ok in H as (c2 & Hreq & H). apply bind_Ok in H as (? & _ & H). injection H as <- <- <-.
    by apply request_effect in Hreq.
  - apply bind_Ok in Hst as (runs & _ & Hst). apply bind_Ok in Hst as (c2 & Hins & Hst). injection Hst as <- <-.
    unfold insert_plan in Hins. apply bind_Ok in Hins as (? & Hnew%ensure_Ok & Hins). injection Hins as <-.
    cbn [with_plans with_runs cd_plans] in Hnew, Hrow. rewrite lookup_insert in Hrow.
    rewrite decide_True in Hrow by done. injection Hrow as <-.
    cbn [new_plan pl_execution_requested] in H.
    assert (Hfresh : cd_plans c !! run_id = None) by (by destruct (cd_plans c !! run_id)).
    replace (execute && true && negb execute) with false in H by (by destruct execute).
    injection H as <- <- <-.
    by eapply (effect_new _ _ run_id (new_plan now dataset binding limits execution assignments execute)).
Qed.

Lemma acknowledge_admission_effect c now lease start end_ state c' :
  acknowledge_admission c now lease start end_ state = Ok c' -> plan_effect c c'.
Proof.
  unfold acknowledge_admission. intros H. apply bind_Ok in H as (? & He%ensure_Ok & H).
  apply bind_Ok in H as ([c1 p] & Hg & H). apply guard_effect in Hg as (G1 & G2 & G3 & Hp & Ha).
  apply bind_Ok in H as (? & Hc%ensure_Ok & H). injection H as <-.
  eapply (effect_row _ _ _ p (set_admission p end_ state)); [exact Hp|..]; try done.
  - left. unfold is_ready in Ha. apply bool_decide_eq_true in Ha. cbn [set_admission pl_admission_cursor].
    split; [done|]. lia.
  - cbn [with_plans cd_plans]. by rewrite G1.
Qed.

Lemma check_publication_update c catalog lease p manifest root shards r s :
  cd_runs c !! le_run_id lease = Some r ->
  check_publication (update_run c (le_run_id lease) r s) catalog lease p manifest root shards
  = check_publication c catalog lease p manifest root shards.
Proof.
  intros Hr. unfold check_publication, update_run. cbn [with_runs cd_runs].
  rewrite Hr, lookup_insert, decide_True by done. reflexivity.
Qed.

Lemma step_effect c c' : ledger_step c c' -> plan_effect c c'.
Proof.
  destruct 1 as [? ? ? ? ? ? ? ? ? ? ? ? ? ? ? H|? ? ? ? ? ? H|? ? ? ? H|c lease error|? ? ? ? ? ? ? H|? ? ? ? ? H
    |? ? ? ? ? ? ? ? ? ? H|? ? ? H|? ? ? ? ? ? H|? ? ? ? H|? ? ? ? ? ? ? H|? ? ? ? ? ? H|? ? ? ? ? H|? ? H1 H2 H3 H4].
  - by eapply begin_effect.
  - by eapply claim_effect.
  - unfold renew_plan in H. apply bind_Ok in H as ([c1 p] & H & [= <-]). apply guard_effect in H as (? & ? & ? & _).
    by apply effect_none.
  - unfold release_plan. destruct (cd_runs c !! _); [|by apply effect_none].
    destruct (cd_plans c !! _); [|by apply effect_none]. destruct (_ && _); by apply effect_none.
  - unfold plan_objects in H. apply bind_Ok in H as (? & _ & H). apply bind_Ok in H as ([c1 p] & Hg & H).
    apply guard_effect in Hg as (G1 & G2 & G3 & Hp & Ha). apply bind_Ok in H as (? & _ & H).
    apply bind_Ok in H as (? & _ & H). apply bind_Ok in H as (objects & Hr & H). apply bind_Ok in H as (? & _ & H).
    injection H as <- <-. unfold is_preparing in Ha. apply bool_decide_eq_true in Ha.
    eapply effect_register; [exact Hp|exact Ha|rewrite <- G2; exact Hr|done|done].
  - unfold acknowledge_objects in H. apply bind_Ok in H as (? & Harg & H). apply bind_Ok in H as ([c1 p] & Hg & H).
    apply guard_effect in Hg as (G1 & G2 & G3 & Hp & Ha). apply bind_Ok in H as (? & Hs%ensure_Ok & H).
    apply bind_Ok in H as (cursor & Hf & H). injection H as <-. unfold is_preparing in Ha. apply bool_decide_eq_true in Ha.
    rewrite G2 in *. apply andb_true_iff in Hs as [Hl _].
    eapply effect_acknowledge; [exact Hp|exact Ha|by eapply argument_keys|apply replay_complete; lia|exact Hf|by rewrite <- G1|done|done].
  - unfold publish in H. apply bind_Ok in H as ([c1 p] & Hg & H). apply guard_with_Ok in Hg as
      (r & s & Hr & Hp & _ & _ & _ & Ha & -> & _). unfold is_preparing in Ha. apply bool_decide_eq_true in Ha.
    apply bind_Ok in H as (total & Hc & H). apply bind_Ok in H as (? & Hne%ensure_Ok & H).
    apply negb_true_iff, bool_decide_eq_false in Hne. apply bind_Ok in H as (rows & Hrows & H).
    apply bind_Ok in H as (r1 & Hr1%ok_or_Ok & H). apply bind_Ok in H as (? & Ht%ensure_Ok & H).
    apply bind_Ok in H as ([c2 p2] & Hg & H). apply guard_effect in Hg as (G1 & G2 & G3 & Hp2 & _).
    apply bind_Ok in H as (? & _ & H). apply bind_Ok in H as (? & _ & H). injection H as <-.
    cbn [with_plan_shards update_run with_runs cd_plans cd_plan_objects cd_plan_shards cd_runs] in *.
    rewrite Hp in Hp2. injection Hp2 as <-. rewrite lookup_insert, decide_True in Hr1 by done. injection Hr1 as <-.
    eapply effect_publish; [exact Hp|exact Ha|done|exact Hne| | | |by rewrite <- G1|done].
    + rewrite <- Hc. symmetry. by apply check_publication_update.
    + cbn [with_runs with_plans cd_plan_shards]. rewrite G3. exact Hrows.
    + exists r. split; [done|]. cbn in Ht. lia.
  - by apply request_effect in H.
  - by eapply claim_effect.
  - unfold renew_admission in H. apply bind_Ok in H as ([c1 p] & H & [= <-]). apply guard_effect in H as (? & ? & ? & _).
    by apply effect_none.
  - by apply acknowledge_admission_effect in H.
  - unfold activate in H. apply bind_Ok in H as ([c1 p] & Hg & H). apply guard_effect in Hg as (G1 & G2 & G3 & Hp & Ha).
    do 6 (apply bind_Ok in H as (? & _ & H)). injection H as <-. by apply effect_none.
  - unfold fail_admission in H. apply bind_Ok in H as ([c1 p] & Hg & H). apply guard_effect in Hg as (G1 & G2 & G3 & Hp & Ha).
    apply bind_Ok in H as (? & _ & H). injection H as <-. by apply effect_none.
  - by apply effect_none.
Qed.

(** ** Run rows *)

#[local] Instance keeps_runs_preorder : PreOrder keeps_runs.
Proof.
  split; [intros c id r Hr; by exists r|].
  intros a b c Hab Hbc id r Hr. destruct (Hab _ _ Hr) as (r1 & H1 & E1). destruct (Hbc _ _ H1) as (r2 & H2 & E2).
  exists r2. split; [done|congruence].
Qed.

Lemma keeps_runs_insert c c' id r r' :
  cd_runs c !! id = Some r -> cd_runs c' = <[id := r']> (cd_runs c) ->
  rw_expected_execution_count r' = rw_expected_execution_count r -> keeps_runs c c'.
Proof.
  intros Hr Hc' He id' q Hq. rewrite Hc'. destruct (decide (id = id')) as [<-|Hne].
  - rewrite Hq in Hr. injection Hr as ->. exists r'. by rewrite lookup_insert, decide_True.
  - exists q. by rewrite lookup_insert_ne.
Qed.

Lemma keeps_runs_same c c' : cd_runs c' = cd_runs c -> keeps_runs c c'.
Proof. intros Hc id r Hr. exists r. by rewrite Hc. Qed.

Lemma guard_keeps accepts refused c now lease c' p :
  guard_with accepts refused c now lease = Ok (c', p) -> keeps_runs c c'.
Proof. intros (r & s & Hr & _ & _ & _ & _ & _ & -> & _)%guard_with_Ok. by eapply keeps_runs_insert. Qed.

Lemma claim_keeps accepts refused c now owner run_id c' lease :
  claim_with accepts refused c now owner run_id = Ok (c', lease) -> keeps_runs c c'.
Proof. unfold claim_with. intros H. inv_ok. by eapply keeps_runs_insert. Qed.

Lemma request_keeps c run_id c' : request_execution c run_id = Ok c' -> keeps_runs c c'.
Proof.
  unfold request_execution. intros H. destruct (cd_plans c !! run_id) as [p|]; [|discriminate H].
  destruct (cd_runs c !! run_id) as [r|]; [|discriminate H]. inv_ok. by apply keeps_runs_same.
Qed.

Lemma begin_keeps c versions catalog now run_id dataset binding limits draft execution assignments execute c' v' p :
  begin_plan c versions catalog now run_id dataset binding limits draft execution assignments execute = Ok (c', v', p) ->
  keeps_runs c c'.
Proof.
  unfold begin_plan. intros H. do 4 (apply bind_Ok in H as (? & _ & H)).
  apply bind_Ok in H as ([c1 creating] & Hst & H). do 4 (apply bind_Ok in H as (? & _ & H)).
  transitivity c1.
  - destruct (cd_runs c !! run_id) as [r|] eqn:Er.
    + apply bind_Ok in Hst as (b & _ & Hst). by injection Hst as <- <-.
    + apply bind_Ok in Hst as (runs & Hruns & Hst). apply bind_Ok in Hst as (c2 & Hins & Hst). injection Hst as <- <-.
      unfold insert_plan in Hins. apply bind_Ok in Hins as (? & _ & Hins). injection Hins as <-.
      unfold insert_run_create in Hruns. rewrite Er in Hruns. apply bind_Ok in Hruns as (? & _ & Hruns). injection Hruns as <-.
      intros id r Hr. exists r. split; [|done]. cbn [with_plans with_runs cd_runs].
      rewrite lookup_insert_ne; [done|]. intros ->. congruence.
  - destruct (_ && _ && _); [|by injection H as <- <- <-].
    apply bind_Ok in H as (c2 & Hreq & H). apply bind_Ok in H as (? & _ & H). injection H as <- <- <-.
    by eapply request_keeps.
Qed.

Lemma step_keeps c c' : ledger_step c c' -> keeps_runs c c'.
Proof.
  destruct 1 as [? ? ? ? ? ? ? ? ? ? ? ? ? ? ? H|? ? ? ? ? ? H|? ? ? ? H|c lease error|? ? ? ? ? ? ? H|? ? ? ? ? H
    |? ? ? ? ? ? ? ? ? ? H|? ? ? H|? ? ? ? ? ? H|? ? ? ? H|? ? ? ? ? ? ? H|? ? ? ? ? ? H|? ? ? ? ? H|? ? H1 H2 H3 H4].
  - by eapply begin_keeps.
  - by eapply claim_keeps.
  - unfold renew_plan in H. apply bind_Ok in H as ([c1 p] & H & [= <-]). by eapply guard_keeps.
  - unfold release_plan. destruct (cd_runs c !! _) as [r|] eqn:Er; [|by apply keeps_runs_same].
    destruct (cd_plans c !! _); [|by apply keeps_runs_same]. destruct (_ && _); [|by apply keeps_runs_same].
    by eapply keeps_runs_insert.
  - unfold plan_objects in H. apply bind_Ok in H as (? & _ & H). apply bind_Ok in H as ([c1 p] & Hg%guard_keeps & H).
    do 4 (apply bind_Ok in H as (? & _ & H)). injection H as <- <-.
    etransitivity; [exact Hg|by apply keeps_runs_same].
  - unfold acknowledge_objects in H. apply bind_Ok in H as (? & _ & H).
    apply bind_Ok in H as ([c1 p] & Hg%guard_keeps & H). do 2 (apply bind_Ok in H as (? & _ & H)). injection H as <-.
    etransitivity; [exact Hg|by apply keeps_runs_same].
  - unfold publish in H. apply bind_Ok in H as ([c1 p] & Hg & H). apply guard_keeps in Hg.
    do 5 (apply bind_Ok in H as (? & _ & H)). apply bind_Ok in H as ([c2 p2] & Hg2 & H). apply guard_keeps in Hg2.
    apply bind_Ok in H as (? & _ & H). apply bind_Ok in H as (r & Hr%ok_or_Ok & H). injection H as <-.
    etransitivity; [exact Hg|]. etransitivity; [by eapply (keeps_runs_same c1)|]. etransitivity; [exact Hg2|].
    by eapply keeps_runs_insert.
  - by eapply request_keeps.
  - by eapply claim_keeps.
  - unfold renew_admission in H. apply bind_Ok in H as ([c1 p] & H & [= <-]). by eapply guard_keeps.
  - unfold acknowledge_admission in H. apply bind_Ok in H as (? & _ & H).
    apply bind_Ok in H as ([c1 p] & Hg%guard_keeps & H). apply bind_Ok in H as (? & _ & H). injection H as <-.
    etransitivity; [exact Hg|by apply keeps_runs_same].
  - unfold activate in H. apply bind_Ok in H as ([c1 p] & Hg & H). apply guard_keeps in Hg.
    do 5 (apply bind_Ok in H as (? & _ & H)). apply bind_Ok in H as (r & Hr%ok_or_Ok & H). injection H as <-.
    etransitivity; [exact Hg|]. by eapply keeps_runs_insert.
  - unfold fail_admission in H. apply bind_Ok in H as ([c1 p] & Hg & H). apply guard_keeps in Hg.
    apply bind_Ok in H as (r & Hr%ok_or_Ok & H). injection H as <-.
    etransitivity; [exact Hg|]. by eapply keeps_runs_insert.
  - done.
Qed.

(** ** The rows of a published plan *)

(** The rows of a run in [run_plan_shards], in no particular order. *)
Definition rows_of (run_id : Uuid) (t : gmap shard_key PlanShardRow) : list (Z * PlanShardRow) :=
  map (fun kr => (kr.1.2, kr.2)) (filter (fun kr => kr.1.1 = run_id) (map_to_list t)).

Lemma published_rows c run_id : published_shards c run_id ≡ₚ rows_of run_id (cd_plan_shards c).
Proof.
  unfold published_shards, rows_of, shards_of. rewrite sort_z_perm.
  assert (Hall : Forall (fun kr => cd_plan_shards c !! kr.1 = Some kr.2 /\ kr.1.1 = run_id)
    (filter (fun kr => kr.1.1 = run_id) (map_to_list (cd_plan_shards c)))).
  { apply Forall_forall. intros [k row] [Hk Hin%elem_of_map_to_list]%list_elem_of_filter. done. }
  induction Hall as [|[[r s] row] l [Hl Hr] _ IH]; [done|]. cbn in *. subst r. rewrite Hl. cbn. by rewrite IH.
Qed.

Lemma rows_of_insert run_id t s row :
  t !! (run_id, s) = None -> rows_of run_id (<[(run_id, s) := row]> t) ≡ₚ (s, row) :: rows_of run_id t.
Proof.
  intros Hn. unfold rows_of. rewrite (map_to_list_insert t (run_id, s) row Hn), filter_cons_True by done. done.
Qed.

Lemma elem_of_rows_of run_id t s row : (s, row) ∈ rows_of run_id t <-> t !! (run_id, s) = Some row.
Proof.
  unfold rows_of. rewrite list_elem_of_fmap. split.
  - intros ([[r s'] row'] & [= -> ->] & [Hr Hin%elem_of_map_to_list]%list_elem_of_filter). cbn in Hr. by subst r.
  - intros Hl. exists ((run_id, s), row). split; [done|]. apply list_elem_of_filter. by rewrite elem_of_map_to_list.
Qed.

Lemma NoDup_rows_of run_id t : NoDup (rows_of run_id t).
Proof.
  apply NoDup_fmap_2_strong; [|apply NoDup_filter, NoDup_map_to_list].
  intros [[r1 s1] x1] [[r2 s2] x2] [H1 _]%list_elem_of_filter [H2 _]%list_elem_of_filter [= -> ->].
  cbn in *. by subst.
Qed.

Lemma rows_of_nil run_id t : (forall s, t !! (run_id, s) = None) -> rows_of run_id t = [].
Proof.
  intros Hn. destruct (rows_of run_id t) as [|[s row] l] eqn:El; [done|].
  assert (Hin : (s, row) ∈ rows_of run_id t) by (rewrite El; by left).
  rewrite elem_of_rows_of, Hn in Hin. done.
Qed.

Lemma rows_of_same run_id t t' :
  (forall s, t' !! (run_id, s) = t !! (run_id, s)) -> rows_of run_id t' ≡ₚ rows_of run_id t.
Proof.
  intros Hs. apply NoDup_Permutation; [apply NoDup_rows_of..|]. intros [s row].
  by rewrite !elem_of_rows_of, Hs.
Qed.

Definition ledger_row (s : LedgerShard) : Z * PlanShardRow :=
  (ls_run_shard s, mkPlanShardRow (ls_database_alias s) (ls_case_count s) (ls_chunk_count s)
     (ls_planned_chunk_hash s) (ls_case_projection_hash s)).

Lemma insert_plan_shards dbs run_id t shards t' :
  foldM (insert_plan_shard dbs run_id) t shards = Ok t' ->
  (forall k, k.1 <> run_id -> t' !! k = t !! k) /\
  rows_of run_id t' ≡ₚ map ledger_row shards ++ rows_of run_id t /\
  Forall (fun s => 0 <= ls_run_shard s <= 127 /\ 0 < ls_case_count s /\ 0 < ls_chunk_count s) shards.
Proof.
  revert t. induction shards as [|s l IH]; intros t H; [injection H as <-; by split_and!|].
  cbn [foldM] in H. apply bind_Ok in H as (t1 & H1 & H). unfold insert_plan_shard in H1.
  apply bind_Ok in H1 as (? & Hc%ensure_Ok & H1). injection H1 as <-.
  repeat (apply andb_true_iff in Hc as [Hc ?]). destruct (IH _ H) as (Hf & Hp & Hall). split_and!.
  - intros k Hk. rewrite Hf by done. apply lookup_insert_ne. by intros <-.
  - rewrite Hp. rewrite rows_of_insert by (by destruct (t !! _)). cbn [map app]. apply Permutation_sym, Permutation_middle.
  - constructor; [|done]. split_and!; lia.
Qed.

(** ** Chunk files and the cursor *)

(** The file [key] of the run covers chunk [i]; [acked] tells whether it is
    acknowledged. *)
Definition chunk_at (acked : bool) (objects : gmap (Uuid * string) PlanObject) (run_id : Uuid) (i : Z) (key : string)
    : Prop :=
  exists a s e, objects !! (run_id, key) = Some a /\ is_chunks a = true /\ po_acknowledged a = acked /\
    po_range_start a = Some s /\ po_range_end a = Some e /\ s <= i < e.

(** The acknowledged chunk files cover [0, cursor) and nothing else, each chunk
    by one file. *)
Definition tiled (objects : gmap (Uuid * string) PlanObject) (run_id : Uuid) (cursor : Z) : Prop :=
  (forall i, 0 <= i < cursor <-> exists key, chunk_at true objects run_id i key) /\
  (forall i k1 k2, chunk_at true objects run_id i k1 -> chunk_at true objects run_id i k2 -> k1 = k2).

Lemma chunk_range a : object_row_ok a = true -> is_chunks a = true ->
  exists s e, po_range_start a = Some s /\ po_range_end a = Some e /\ 0 <= s < e.
Proof.
  unfold object_row_ok, is_chunks. intros H Hk%str_eqb_true. rewrite Hk in H.
  destruct (po_range_start a) as [s|]; cbn in H; [|by rewrite ?andb_false_r in H].
  destruct (po_range_end a) as [e|]; cbn in H; [|by rewrite ?andb_false_r in H].
  exists s, e. split_and!; [done..| |]; lia.
Qed.

Lemma replay_cons objects run_id o (l : list FileObject) :
  replay objects run_id (o :: l)
  = option_list (objects !! (run_id, ob_object_key o)) ++ replay objects run_id l.
Proof. unfold replay. cbn. by destruct (objects !! _). Qed.

(** The files [keys], not yet acknowledged, cover [cur, cur') in the same way. *)
Definition advances (objects : gmap (Uuid * string) PlanObject) (run_id : Uuid) (keys : list string) (cur cur' : Z)
    : Prop :=
  cur <= cur' /\
  (forall i, cur <= i < cur' <-> exists key, key ∈ keys /\ chunk_at false objects run_id i key) /\
  (forall i k1 k2, k1 ∈ keys -> k2 ∈ keys ->
     chunk_at false objects run_id i k1 -> chunk_at false objects run_id i k2 -> k1 = k2).

Lemma advances_skip objects run_id key keys cur cur' :
  (forall i, ~ chunk_at false objects run_id i key) ->
  advances objects run_id keys cur cur' -> advances objects run_id (key :: keys) cur cur'.
Proof.
  intros Hno (Hle & Hcov & Huniq). split_and!; [done| |].
  - intros i. rewrite Hcov. split; intros (k & Hin & Hat); exists k; (split; [|done]); [by right|].
    apply elem_of_cons in Hin as [->|Hin]; [by destruct (Hno i)|done].
  - intros i k1 k2 [->|H1]%elem_of_cons [->|H2]%elem_of_cons A1 A2; [done| | |by eapply Huniq];
      by destruct (Hno i).
Qed.

Lemma advances_step objects run_id key keys cur e cur' :
  cur < e -> (forall i, chunk_at false objects run_id i key <-> cur <= i < e) ->
  advances objects run_id keys e cur' -> advances objects run_id (key :: keys) cur cur'.
Proof.
  intros Hlt Ho (Hle & Hcov & Huniq).
  assert (Hex : forall i k, k ∈ keys -> chunk_at false objects run_id i k -> e <= i < cur')
    by (intros i k Hk Hat; apply Hcov; eauto).
  split_and!; [lia| |].
  - intros i. split.
    + intros Hi. destruct (decide (i < e)) as [Hi'|Hge]; [exists key; split; [by left|]; apply Ho; lia|].
      assert (Hi' : e <= i < cur') by lia. apply Hcov in Hi' as (k & Hin & Hat). exists k. split; [by right|done].
    + intros (k & [->|Hin]%elem_of_cons & Hat); [apply Ho in Hat; lia|]. specialize (Hex _ _ Hin Hat). lia.
  - intros i k1 k2 [->|H1]%elem_of_cons [->|H2]%elem_of_cons A1 A2; [done| | |by eapply Huniq].
    + apply Ho in A1. specialize (Hex _ _ H2 A2). lia.
    + apply Ho in A2. specialize (Hex _ _ H1 A1). lia.
Qed.

Lemma advance_tiles objects run_id start (l : list FileObject) cur cur' :
  (forall k a, objects !! k = Some a -> object_row_ok a = true) ->
  foldM (advance_chunk start) cur (List.filter is_chunks (replay objects run_id l)) = Ok cur' ->
  advances objects run_id (map ob_object_key l) cur cur'.
Proof.
  intros Hok. revert cur. induction l as [|o l IH]; intros cur H; cbn [map].
  { injection H as <-. split_and!; [lia| |set_solver]. intros i. split; [lia|]. intros (key & Hin & _). set_solver. }
  rewrite replay_cons in H. destruct (objects !! (run_id, ob_object_key o)) as [a|] eqn:Ea.
  2:{ apply advances_skip; [|by apply IH]. intros i (a & s & e & Ha & _). congruence. }
  change (option_list (Some a)) with [a] in H. cbn [app List.filter] in H. destruct (is_chunks a) eqn:Ek.
  2:{ apply advances_skip; [|by apply IH]. intros i (a' & s & e & Ha & Hk & _). congruence. }
  cbn [foldM] in H. apply bind_Ok in H as (c1 & H1 & H). unfold advance_chunk in H1.
  destruct (chunk_range a (Hok _ _ Ea) Ek) as (s & e & Es & Ee & Hse). rewrite Ee in H1. cbn in H1.
  destruct (po_acknowledged a) eqn:Eack.
  { apply bind_Ok in H1 as (? & _ & [= <-]). apply advances_skip; [|by apply IH].
    intros i (a' & s' & e' & Ha & Hk & Hack & _). congruence. }
  apply bind_Ok in H1 as (? & Hs%ensure_Ok & [= <-]). apply bool_decide_eq_true in Hs.
  assert (s = cur) as -> by congruence. eapply (advances_step _ _ _ _ cur e); [lia| |by apply IH].
  intros i. split; [|intros Hi; by exists a, cur, e]. intros (a' & s' & e' & Ha & _ & _ & Hs' & He' & Hi).
  assert (a' = a) as -> by congruence. rewrite Es in Hs'. rewrite Ee in He'. congruence.
Qed.

(** Acknowledging the files moves them behind the cursor. *)
Lemma acknowledge_tiled objects run_id (l : list FileObject) cur cur' :
  0 <= cur -> tiled objects run_id cur -> advances objects run_id (map ob_object_key l) cur cur' ->
  tiled (acknowledge_rows run_id l objects) run_id cur'.
Proof.
  intros H0 [Hcov Huniq] (Hle & Hnew & Hnuniq).
  assert (Hat : forall i key, chunk_at true (acknowledge_rows run_id l objects) run_id i key <->
    chunk_at true objects run_id i key \/ (key ∈ map ob_object_key l /\ chunk_at false objects run_id i key)).
  { intros i key. unfold chunk_at, acknowledge_rows. split.
    - intros (a & s & e & (a0 & Ha0 & ->)%update_where_Some & Hk & Hack & Hs & He & Hi). cbn in *.
      rewrite Z.eqb_refl in *. case_bool_decide as Hin; cbn in *; [|left; eauto 10].
      destruct (po_acknowledged a0) eqn:E0; [left|right; split; [done|]]; by exists a0, s, e.
    - assert (Hgo : forall b, chunk_at b objects run_id i key -> b = true \/ key ∈ map ob_object_key l ->
        exists a s e, acknowledge_rows run_id l objects !! (run_id, key) = Some a /\ is_chunks a = true /\
          po_acknowledged a = true /\ po_range_start a = Some s /\ po_range_end a = Some e /\ s <= i < e).
      { intros b (a & s & e & Ha & Hk & Hack & Hs & He & Hi) Hb.
        exists (if bool_decide (key ∈ map ob_object_key l) then set_acknowledged a else a), s, e.
        unfold acknowledge_rows. rewrite lookup_update_where, Ha. cbn. rewrite Z.eqb_refl. cbn.
        case_bool_decide; split_and!; try done; naive_solver. }
      intros [H|[Hin H]]; [apply (Hgo true)|apply (Hgo false)]; auto. }
  assert (Hlow : forall i key, chunk_at true objects run_id i key -> 0 <= i < cur) by (intros; apply Hcov; eauto).
  assert (Hhigh : forall i key, key ∈ map ob_object_key l -> chunk_at false objects run_id i key -> cur <= i < cur')
    by (intros; apply Hnew; eauto).
  split.
  - intros i. split.
    + intros Hi. destruct (decide (i < cur)) as [Hi'|Hi'].
      * assert (Hc : 0 <= i < cur) by lia. apply Hcov in Hc as [key Hc]. exists key. apply Hat. by left.
      * assert (Hc : cur <= i < cur') by lia. apply Hnew in Hc as (key & Hin & Hc). exists key. apply Hat. by right.
    + intros (key & [Hc|[Hin Hc]]%Hat); [specialize (Hlow _ _ Hc)|specialize (Hhigh _ _ Hin Hc)]; lia.
  - intros i k1 k2 [A|[A' A]]%Hat [B|[B' B]]%Hat; [by eapply Huniq| | |by eapply Hnuniq].
    + specialize (Hlow _ _ A). specialize (Hhigh _ _ B' B). lia.
    + specialize (Hlow _ _ B). specialize (Hhigh _ _ A' A). lia.
Qed.

(** ** The invariant of the plan tables *)

(** A shard row of a published plan: in range, not empty, and placed where the
    creation of the plan froze it. *)
Definition placed (assignments : list RunShardPlacementAssignment) (sr : Z * PlanShardRow) : Prop :=
  0 <= sr.1 <= 127 /\ 0 < ps_case_count sr.2 /\ 0 < ps_chunk_count sr.2 /\
  mkRunShardPlacementAssignment sr.1 (ps_database_alias sr.2) ∈ assignments.

Record published_ok (c : Control) (run_id : Uuid) (p : PlanRow) : Prop := {
  pu_root : exists root, pl_manifest p = Some root /\ manifest_acknowledged c run_id root = true;
  pu_acknowledged : has_unacknowledged c run_id = false;
  pu_shards : published_shards c run_id <> [];
  pu_placed : Forall (placed (pl_assignments p)) (published_shards c run_id);
  pu_cases : exists r, cd_runs c !! run_id = Some r /\
    sumz (fun sr => ps_case_count sr.2) (published_shards c run_id) = rw_expected_execution_count r
}.

Record plan_inv (c : Control) (run_id : Uuid) (p : PlanRow) : Prop := {
  pv_tiled : tiled (cd_plan_objects c) run_id (pl_chunk_cursor p);
  pv_cursors : 0 <= pl_admission_cursor p <= pl_chunk_cursor p;
  pv_preparing : pl_status p = PlanPreparing ->
    pl_manifest p = None /\ pl_admission_cursor p = 0 /\ published_shards c run_id = [];
  pv_ready : pl_status p = PlanReady -> published_ok c run_id p
}.

Definition ledger_inv (c : Control) : Prop :=
  (forall k a, cd_plan_objects c !! k = Some a -> object_row_ok a = true /\ is_Some (cd_plans c !! k.1)) /\
  (forall k row, cd_plan_shards c !! k = Some row -> is_Some (cd_plans c !! k.1)) /\
  (forall run_id p, cd_plans c !! run_id = Some p -> plan_inv c run_id p).

(** The tables of one run agree in two states. *)
Definition same_files (run_id : Uuid) (c c' : Control) : Prop :=
  (forall key, cd_plan_objects c' !! (run_id, key) = cd_plan_objects c !! (run_id, key)) /\
  (forall s, cd_plan_shards c' !! (run_id, s) = cd_plan_shards c !! (run_id, s)).

Lemma published_same run_id c c' : same_files run_id c c' -> published_shards c' run_id ≡ₚ published_shards c run_id.
Proof. intros [_ Hs]. by rewrite !published_rows, (rows_of_same _ _ _ Hs). Qed.

Lemma tiled_same run_id objects objects' cursor :
  (forall key a, po_acknowledged a = true -> objects' !! (run_id, key) = Some a <-> objects !! (run_id, key) = Some a) ->
  tiled objects run_id cursor -> tiled objects' run_id cursor.
Proof.
  intros Hsame. assert (Hat : forall i key, chunk_at true objects' run_id i key <-> chunk_at true objects run_id i key).
  { intros i key. split; intros (a & s & e & Ha & Hk & Hack & Hrest); exists a, s, e; apply Hsame in Ha; done. }
  intros [Hcov Huniq]. split.
  - intros i. rewrite Hcov. by setoid_rewrite Hat.
  - intros i k1 k2 H1%Hat H2%Hat. by eapply Huniq.
Qed.

Lemma has_unacknowledged_false c run_id :
  has_unacknowledged c run_id = false <->
  forall key a, cd_plan_objects c !! (run_id, key) = Some a -> po_acknowledged a = true.
Proof.
  unfold has_unacknowledged. rewrite <- not_true_iff_false, exists_where_spec. split.
  - intros Hno key a Ha. destruct (po_acknowledged a) eqn:Ea; [done|]. exfalso. apply Hno.
    exists (run_id, key), a. split; [done|]. cbn. rewrite Ea. lia.
  - intros Hall ([r key] & a & Ha & Hk). cbn in Hk. apply andb_true_iff in Hk as [Hr Hk]. assert (r = run_id) as -> by lia.
    rewrite (Hall _ _ Ha) in Hk. done.
Qed.

Lemma published_ok_same c c' run_id p p' :
  same_files run_id c c' -> keeps_runs c c' -> pl_manifest p' = pl_manifest p -> pl_assignments p' = pl_assignments p ->
  published_ok c run_id p -> published_ok c' run_id p'.
Proof.
  intros Hsame Hkeep Hm Hass [Hroot Hack Hsh Hpl Hcases]. pose proof (published_same _ _ _ Hsame) as Hperm.
  split; rewrite ?Hm, ?Hass.
  - destruct Hroot as (root & Hr & Ha). exists root. split; [done|]. unfold manifest_acknowledged in *.
    by rewrite (proj1 Hsame).
  - apply has_unacknowledged_false. intros key a. rewrite (proj1 Hsame). by apply has_unacknowledged_false.
  - intros Hnil. rewrite Hnil in Hperm. by apply Permutation_nil in Hperm.
  - by rewrite Hperm.
  - destruct Hcases as (r & Hr & Hsum). destruct (Hkeep _ _ Hr) as (r' & Hr' & He). exists r'. split; [done|].
    by rewrite (sumz_perm _ _ _ Hperm), Hsum, He.
Qed.

Lemma plan_inv_frame c c' run_id p p' :
  same_files run_id c c' -> keeps_runs c c' -> pl_status p' = pl_status p -> pl_manifest p' = pl_manifest p ->
  pl_assignments p' = pl_assignments p -> pl_chunk_cursor p' = pl_chunk_cursor p ->
  (pl_status p = PlanReady /\ pl_admission_cursor p <= pl_admission_cursor p' <= pl_chunk_cursor p \/
   pl_admission_cursor p' = pl_admission_cursor p) ->
  plan_inv c run_id p -> plan_inv c' run_id p'.
Proof.
  intros Hsame Hkeep Hst Hm Hass Hcur Hadm [Ht Hc Hprep Hready]. split; rewrite ?Hst, ?Hm, ?Hcur.
  - eapply tiled_same; [|exact Ht]. intros key a _. by rewrite (proj1 Hsame).
  - destruct Hadm as [[_ ?]| ->]; [lia|done].
  - intros Hp. destruct (Hprep Hp) as (H1 & H2 & H3). destruct Hadm as [[? _]|Hadm]; [congruence|].
    split_and!; [done|congruence|]. pose proof (published_same _ _ _ Hsame) as Hperm. rewrite H3 in Hperm.
    by apply Permutation_nil.
  - intros Hr. by eapply published_ok_same; [..|apply Hready].
Qed.

(** Registration adds rows that are not acknowledged, under keys of the run. *)
Lemma register_objects_spec run_id objects (l : list FileObject) objects' :
  foldM (register_object run_id) objects l = Ok objects' ->
  forall k, objects' !! k = objects !! k \/
    (k.1 = run_id /\ objects !! k = None /\
     exists a, objects' !! k = Some a /\ object_row_ok a = true /\ po_acknowledged a = false).
Proof.
  revert objects. induction l as [|o l IH]; intros objects H k; [injection H as <-; by left|].
  cbn [foldM] in H. apply bind_Ok in H as (t1 & H1 & H). unfold register_object in H1.
  apply bind_Ok in H1 as (? & Hok%ensure_Ok & H1). specialize (IH _ H k).
  destruct (opt_is_some _ || _) eqn:Eo; injection H1 as <-; [done|].
  apply orb_false_iff in Eo as [Eo _]. destruct (decide (k = (run_id, ob_object_key o))) as [->|Hne].
  - rewrite lookup_insert, decide_True in IH by done. right. split; [done|].
    split; [by destruct (objects !! _)|]. destruct IH as [IH|(_ & ? & _)]; [|done]. by exists (row_of o).
  - by rewrite lookup_insert_ne in IH.
Qed.

Lemma check_published_shards assignments total (shards : list LedgerShard) expected total' :
  length shards = length expected -> foldM (check_published_shard assignments) total (zip shards expected) = Ok total' ->
  total' = total + sumz ls_case_count shards /\
  Forall (fun s => mkRunShardPlacementAssignment (ls_run_shard s) (ls_database_alias s) ∈ assignments) shards.
Proof.
  revert total expected. induction shards as [|s l IH]; intros total [|e expected] Hl H; try discriminate Hl.
  { injection H as <-. split; [cbn; lia|constructor]. }
  cbn [zip zip_with foldM] in H. apply bind_Ok in H as (t1 & H1 & H). unfold check_published_shard in H1.
  apply bind_Ok in H1 as (? & _ & H1). apply bind_Ok in H1 as (? & Ha%ensure_Ok & H1).
  apply ok_or_Ok, checked_Some in H1 as [-> _]. cbn in Hl. apply IH in H as [-> Hall]; [|lia].
  split; [unfold sumz; cbn; fold (sumz ls_case_count l); lia|]. constructor; [|done].
  apply existsb_exists_elem in Ha as ([n alias] & Hin & Hb). cbn in Hb.
  apply andb_true_iff in Hb as [Hn Hal]. apply str_eqb_true in Hal. assert (n = ls_run_shard s) as -> by lia. by subst.
Qed.

Lemma check_publication_spec c catalog lease p manifest root shards total :
  check_publication c catalog lease p manifest root shards = Ok total ->
  has_unacknowledged c (le_run_id lease) = false /\ manifest_acknowledged c (le_run_id lease) root = true /\
  pl_chunk_cursor p = pm_chunk_count manifest /\ total = sumz ls_case_count shards /\
  Forall (fun s => mkRunShardPlacementAssignment (ls_run_shard s) (ls_database_alias s) ∈ pl_assignments p) shards.
Proof.
  unfold check_publication. intros H. do 2 (apply bind_Ok in H as (? & _ & H)).
  apply bind_Ok in H as (? & Hid%ensure_Ok & H). do 5 (apply bind_Ok in H as (? & _ & H)).
  apply bind_Ok in H as (? & Hun%ensure_Ok & H). apply bind_Ok in H as (? & Hroot%ensure_Ok & H).
  apply andb_true_iff in Hun as [Hun%negb_true_iff Hcur]. apply andb_true_iff in Hid as [_ Hlen].
  apply check_published_shards in H as [-> Hall]; [|unfold zlen in Hlen; lia]. split_and!; try done; lia.
Qed.

(** ** Preservation *)

Lemma same_files_refl run_id c c' :
  cd_plan_objects c' = cd_plan_objects c -> cd_plan_shards c' = cd_plan_shards c -> same_files run_id c c'.
Proof. intros Ho Hs. split; intros ?; by rewrite ?Ho, ?Hs. Qed.

Lemma is_Some_insert {V} (m : gmap Uuid V) i v j : is_Some (m !! j) -> is_Some (<[i := v]> m !! j).
Proof. intros H. rewrite lookup_insert_is_Some. destruct (decide (i = j)); auto. Qed.

Lemma new_inv c c' run_id p :
  ledger_inv c -> keeps_runs c c' -> cd_plans c !! run_id = None -> pl_status p = PlanPreparing ->
  pl_chunk_cursor p = 0 -> pl_admission_cursor p = 0 -> pl_manifest p = None ->
  cd_plans c' = <[run_id := p]> (cd_plans c) -> cd_plan_objects c' = cd_plan_objects c ->
  cd_plan_shards c' = cd_plan_shards c -> ledger_inv c'.
Proof.
  intros (Iobj & Ish & Ipl) Hkeep Hnew Hst Hcur Hadm Hm Hp Ho Hs. split_and!.
  - intros k a. rewrite Ho, Hp. intros [H1 H2]%Iobj. split; [done|by apply is_Some_insert].
  - intros k row. rewrite Hs, Hp. intros H%Ish. by apply is_Some_insert.
  - intros id q. rewrite Hp, lookup_insert_Some. intros [[<- <-]|[Hne Hq]].
    2:{ by eapply plan_inv_frame; [apply same_files_refl|..|apply Ipl]; auto. }
    assert (Hnone : forall key, cd_plan_objects c !! (run_id, key) = None).
    { intros key. destruct (cd_plan_objects c !! (run_id, key)) as [a|] eqn:Ea; [|done].
      apply Iobj in Ea as [_ [? ?]]. cbn in *. congruence. }
    split; rewrite ?Hcur, ?Hadm.
    + split.
      * intros i. split; [lia|]. intros (key & a & s & e & Ha & _). by rewrite Ho, Hnone in Ha.
      * intros i k1 k2 (a & s & e & Ha & _). by rewrite Ho, Hnone in Ha.
    + lia.
    + intros _. split_and!; [done..|]. apply Permutation_nil. rewrite published_rows, rows_of_nil; [done|].
      intros s. rewrite Hs. destruct (cd_plan_shards c !! (run_id, s)) as [row|] eqn:Er; [|done].
      apply Ish in Er as [? ?]. cbn in *. congruence.
    + congruence.
Qed.

Lemma register_inv c c' run_id p (l : list FileObject) :
  ledger_inv c -> keeps_runs c c' -> cd_plans c !! run_id = Some p -> pl_status p = PlanPreparing ->
  foldM (register_object run_id) (cd_plan_objects c) l = Ok (cd_plan_objects c') ->
  cd_plans c' = cd_plans c -> cd_plan_shards c' = cd_plan_shards c -> ledger_inv c'.
Proof.
  intros (Iobj & Ish & Ipl) Hkeep Hp Hst Hreg Hpl Hs. pose proof (register_objects_spec _ _ _ _ Hreg) as Hr. split_and!.
  - intros k a Ha. rewrite Hpl. destruct (Hr k) as [He|(Hk & Hn & a' & Ha' & Hok & _)].
    + rewrite He in Ha. by apply Iobj.
    + rewrite Ha in Ha'. injection Ha' as <-. split; [done|]. rewrite Hk. by exists p.
  - intros k row. rewrite Hs, Hpl. apply Ish.
  - intros id q Hq. rewrite Hpl in Hq. destruct (decide (id = run_id)) as [->|Hne].
    + rewrite Hp in Hq. injection Hq as <-. destruct (Ipl _ _ Hp) as [Ht Hc Hprep _]. split; [|done| |congruence].
      * eapply tiled_same; [|exact Ht]. intros key a Hack. destruct (Hr (run_id, key)) as [He|(_ & Hn & a' & Ha' & _ & Hack')].
        { by rewrite He. }
        rewrite Ha', Hn. split; [|done]. intros [= ->]. congruence.
      * intros _. destruct (Hprep Hst) as (H1 & H2 & H3). split_and!; [done..|]. apply Permutation_nil.
        by rewrite published_rows, Hs, <- published_rows, H3.
    + eapply plan_inv_frame; [|done..|by right|by apply Ipl]. split; [|intros s; by rewrite Hs].
      intros key. destruct (Hr (id, key)) as [He|(Hk & _)]; done.
Qed.

Lemma acknowledge_rows_other run_id (l : list FileObject) objects k :
  k.1 <> run_id -> acknowledge_rows run_id l objects !! k = objects !! k.
Proof.
  intros Hk. unfold acknowledge_rows. rewrite lookup_update_where. assert ((k.1 =? run_id) = false) as -> by lia. cbn.
  by destruct (objects !! k).
Qed.

Lemma acknowledge_inv c c' run_id p (l : list FileObject) cursor :
  ledger_inv c -> keeps_runs c c' -> cd_plans c !! run_id = Some p -> pl_status p = PlanPreparing ->
  foldM (advance_chunk (pl_chunk_cursor p)) (pl_chunk_cursor p)
    (List.filter is_chunks (replay (cd_plan_objects c) run_id l)) = Ok cursor ->
  cd_plans c' = <[run_id := set_cursor p cursor]> (cd_plans c) ->
  cd_plan_objects c' = acknowledge_rows run_id l (cd_plan_objects c) ->
  cd_plan_shards c' = cd_plan_shards c -> ledger_inv c'.
Proof.
  intros (Iobj & Ish & Ipl) Hkeep Hp Hst Hadv Hpl Ho Hs. split_and!.
  - intros k a. rewrite Ho, Hpl. intros (a0 & [H1 H2]%Iobj & ->)%update_where_Some. split; [|by apply is_Some_insert].
    destruct (_ && _); [|done]. exact H1.
  - intros k row. rewrite Hs, Hpl. intros H%Ish. by apply is_Some_insert.
  - intros id q. rewrite Hpl, lookup_insert_Some. intros [[<- <-]|[Hne Hq]].
    + destruct (Ipl _ _ Hp) as [Ht Hc Hprep _]. destruct (Hprep Hst) as (H1 & H2 & H3).
      apply advance_tiles in Hadv; [|intros k a [? _]%Iobj; done]. pose proof (proj1 Hadv) as Hle.
      split; cbn [set_cursor pl_chunk_cursor pl_admission_cursor pl_status pl_manifest]; [|lia| |congruence].
      * rewrite Ho. eapply acknowledge_tiled; [|exact Ht|exact Hadv]. lia.
      * intros _. split_and!; [done..|]. apply Permutation_nil. by rewrite published_rows, Hs, <- published_rows, H3.
    + eapply plan_inv_frame; [|done..|by right|by apply Ipl]. split; [|intros s; by rewrite Hs].
      intros key. rewrite Ho. by apply acknowledge_rows_other.
Qed.

Lemma publish_inv c c' run_id p catalog dbs lease manifest root shards total now :
  ledger_inv c -> keeps_runs c c' -> cd_plans c !! run_id = Some p -> pl_status p = PlanPreparing ->
  le_run_id lease = run_id -> shards <> [] ->
  check_publication c catalog lease p manifest root shards = Ok total ->
  foldM (insert_plan_shard dbs run_id) (cd_plan_shards c) shards = Ok (cd_plan_shards c') ->
  (exists r, cd_runs c !! run_id = Some r /\ total = rw_expected_execution_count r) ->
  cd_plans c' = <[run_id := set_published p root now]> (cd_plans c) ->
  cd_plan_objects c' = cd_plan_objects c -> ledger_inv c'.
Proof.
  intros (Iobj & Ish & Ipl) Hkeep Hp Hst <- Hne Hcheck Hins (r & Hr & Htot) Hpl Ho.
  apply check_publication_spec in Hcheck as (Hun & Hroot & Hcur & Hsum & Hass).
  apply insert_plan_shards in Hins as (Hother & Hperm & Hpos). split_and!.
  - intros k a. rewrite Ho, Hpl. intros [H1 H2]%Iobj. split; [done|by apply is_Some_insert].
  - intros k row Hk. rewrite Hpl. destruct (decide (k.1 = le_run_id lease)) as [->|Hk'].
    + rewrite lookup_insert_is_Some. by left.
    + rewrite Hother in Hk by done. by eapply is_Some_insert, Ish.
  - intros id q. rewrite Hpl, lookup_insert_Some. intros [[<- <-]|[Hneq Hq]].
    2:{ eapply plan_inv_frame; [|done..|by right|by apply Ipl]. split; [intros key; by rewrite Ho|].
        intros s. by apply Hother. }
    destruct (Ipl _ _ Hp) as [Ht Hc Hprep _]. destruct (Hprep Hst) as (H1 & H2 & H3).
    assert (Hrows : published_shards c' (le_run_id lease) ≡ₚ map ledger_row shards).
    { pose proof (published_rows c (le_run_id lease)) as Hold. rewrite H3 in Hold. apply Permutation_nil in Hold.
      by rewrite published_rows, Hperm, Hold, app_nil_r. }
    split; [by rewrite Ho|done|done|]. intros _. split.
    + exists root. split; [done|]. unfold manifest_acknowledged in *. by rewrite Ho.
    + unfold has_unacknowledged in *. by rewrite Ho.
    + intros Hnil. rewrite Hnil in Hrows. apply Permutation_nil, map_eq_nil in Hrows. done.
    + rewrite Hrows. apply Forall_fmap. rewrite Forall_forall in Hpos, Hass |- *. intros s Hs.
      destruct (Hpos s Hs) as (? & ? & ?). split_and!; try done || (cbn; lia). by apply Hass.
    + destruct (Hkeep _ _ Hr) as (r' & Hr' & He). exists r'. split; [done|].
      rewrite (sumz_perm _ _ _ Hrows), sumz_map, He, <- Htot, Hsum. done.
Qed.

Lemma effect_inv c c' : ledger_inv c -> keeps_runs c c' -> plan_effect c c' -> ledger_inv c'.
Proof.
  intros Hinv Hkeep. destruct 1 as [Hp Ho Hs|? ? ? ? ? ? ? ? ? ? ?|run_id p p' Hp Hst Hcur Hm Hlim Hass Hgen Hadm Hpl Ho Hs|
    |? ? ? ? ? ? ? ? ? ? ? ?|]; [|by eapply new_inv| |by eapply register_inv|by eapply acknowledge_inv|by eapply publish_inv].
  - destruct Hinv as (Iobj & Ish & Ipl). split_and!; rewrite ?Ho, ?Hs, ?Hp; [done..|]. intros id q Hq.
    eapply plan_inv_frame; [by apply same_files_refl|done..|by right|by apply Ipl].
  - destruct Hinv as (Iobj & Ish & Ipl). split_and!; rewrite ?Ho, ?Hs, ?Hpl.
    + intros k a [H1 H2]%Iobj. split; [done|by apply is_Some_insert].
    + intros k row H%Ish. by apply is_Some_insert.
    + intros id q. rewrite lookup_insert_Some. intros [[<- <-]|[Hne Hq]].
      * eapply plan_inv_frame; [by apply same_files_refl|done..|by apply Ipl].
      * eapply plan_inv_frame; [by apply same_files_refl|done..|by right|by apply Ipl].
Qed.

Lemma steps_inv c c' : rtc ledger_step c c' -> ledger_inv c -> ledger_inv c'.
Proof.
  induction 1 as [|c c1 c' Hstep _ IH]; [done|]. intros Hinv. apply IH.
  by eapply effect_inv; [|apply step_keeps|apply step_effect].
Qed.

(** C12: From empty plan tables, whatever transactions of planners, admissions
    and other workflows commit in whatever order, every plan satisfies
    [plan_inv]: its acknowledged chunk files cover the chunks below the cursor
    exactly, each by one file; a plan being prepared has published nothing; a
    ready plan has an acknowledged root and no unacknowledged file, and its shard
    rows are nonempty, placed as frozen at creation, and account for exactly the
    cases the run expects. *)
Theorem plan_tables_consistent c0 c run_id p :
  cd_plans c0 = ∅ -> cd_plan_objects c0 = ∅ -> cd_plan_shards c0 = ∅ ->
  rtc ledger_step c0 c -> cd_plans c !! run_id = Some p -> plan_inv c run_id p.
Proof.
  intros H1 H2 H3 Hsteps Hp. assert (Hinv : ledger_inv c0).
  { split_and!; rewrite ?H1, ?H2, ?H3; intros ? ?; by rewrite lookup_empty. }
  by apply (steps_inv _ _ Hsteps Hinv).
Qed.

(** ** Published plans do not change, and generations only grow *)

Definition frozen (run_id : Uuid) (p p' : PlanRow) (c c' : Control) : Prop :=
  pl_status p' = PlanReady /\ pl_manifest p' = pl_manifest p /\ pl_chunk_cursor p' = pl_chunk_cursor p /\
  pl_limits p' = pl_limits p /\ pl_assignments p' = pl_assignments p /\
  pl_admission_cursor p <= pl_admission_cursor p' /\ same_files run_id c c'.

Lemma effect_keeps_plan c c' run_id p :
  plan_effect c c' -> cd_plans c !! run_id = Some p ->
  exists p', cd_plans c' !! run_id = Some p' /\ pl_generation p <= pl_generation p' /\
    (pl_status p = PlanReady -> frozen run_id p p' c c').
Proof.
  assert (Hid : cd_plan_objects c' = cd_plan_objects c -> cd_plan_shards c' = cd_plan_shards c ->
    pl_status p = PlanReady -> frozen run_id p p c c').
  { intros ? ? ?. split_and!; try done. by apply same_files_refl. }
  intros Heff Hp. destruct Heff as [Hpl Ho Hs|id q Hn _ _ _ _ _ Hpl Ho Hs|id q q' Hq Hst Hcur Hm Hlim Hass Hgen Hadm Hpl Ho Hs
    |id q l Hq Hst Hreg Hpl Hs|id q l cursor Hq Hst _ _ _ Hpl Ho Hs|id q ? ? lease ? ? shards ? ? Hq Hst _ _ _ Hins _ Hpl Ho].
  - exists p. rewrite Hpl. split_and!; [done..|auto].
  - exists p. rewrite Hpl, lookup_insert_ne by congruence. split_and!; [done..|auto].
  - rewrite Hpl. destruct (decide (id = run_id)) as [->|Hne].
    + rewrite Hp in Hq. injection Hq as <-. exists q'. rewrite lookup_insert, decide_True by done. split_and!; [done..|].
      intros Hr. split_and!; [congruence|done..| |by apply same_files_refl]. destruct Hadm as [[_ ?]|]; lia.
    + exists p. rewrite lookup_insert_ne by done. split_and!; [done..|auto].
  - exists p. rewrite Hpl. split_and!; [done..|]. intros Hr. split_and!; [done..|]. split; [|intros s; by rewrite Hs].
    intros key. destruct (register_objects_spec _ _ _ _ Hreg (run_id, key)) as [?|(Hk & _)]; [done|]. cbn in Hk. congruence.
  - rewrite Hpl. destruct (decide (id = run_id)) as [->|Hne].
    + rewrite Hp in Hq. injection Hq as <-. exists (set_cursor p cursor). rewrite lookup_insert, decide_True by done.
      split_and!; [done..|congruence].
    + exists p. rewrite lookup_insert_ne by done. split_and!; [done..|]. intros Hr. split_and!; [done..|].
      split; [|intros s; by rewrite Hs]. intros key. rewrite Ho. by apply acknowledge_rows_other.
  - rewrite Hpl. destruct (decide (id = run_id)) as [->|Hne].
    + rewrite Hp in Hq. injection Hq as <-. eexists. rewrite lookup_insert, decide_True by done.
      split_and!; [done..|congruence].
    + exists p. rewrite lookup_insert_ne by done. split_and!; [done..|]. intros Hr. split_and!; [done..|].
      split; [intros key; by rewrite Ho|]. intros s. apply insert_plan_shards in Hins as (Hoth & _). by apply Hoth.
Qed.

Lemma frozen_trans run_id p1 p2 p3 c1 c2 c3 :
  frozen run_id p1 p2 c1 c2 -> frozen run_id p2 p3 c2 c3 -> frozen run_id p1 p3 c1 c3.
Proof.
  intros (A1 & A2 & A3 & A4 & A5 & A6 & A7 & A8) (B1 & B2 & B3 & B4 & B5 & B6 & B7 & B8).
  split_and!; try congruence; [lia|]. split; intros ?; [by rewrite B7|by rewrite B8].
Qed.

Lemma steps_keep_plan c c' run_id p :
  rtc ledger_step c c' -> cd_plans c !! run_id = Some p ->
  exists p', cd_plans c' !! run_id = Some p' /\ pl_generation p <= pl_generation p' /\
    (pl_status p = PlanReady -> frozen run_id p p' c c').
Proof.
  intros Hsteps. revert p. induction Hsteps as [c|c c1 c' Hstep _ IH]; intros p Hp.
  - exists p. split_and!; [done..|]. intros Hr. by split_and!.
  - destruct (effect_keeps_plan _ _ _ _ (step_effect _ _ Hstep) Hp) as (p1 & Hp1 & Hg1 & Hf1).
    destruct (IH _ Hp1) as (p' & Hp' & Hg' & Hf'). exists p'. split_and!; [done|lia|]. intros Hr.
    specialize (Hf1 Hr). eapply frozen_trans; [exact Hf1|]. apply Hf', Hf1.
Qed.

(** C13: A published plan is final: whatever commits afterwards, the plan stays
    ready with the same root, chunk count, limits and placements, the same files
    and the same shard rows, and its admission cursor never moves back. *)
Theorem published_plan_final c c' run_id p :
  rtc ledger_step c c' -> cd_plans c !! run_id = Some p -> pl_status p = PlanReady ->
  exists p', cd_plans c' !! run_id = Some p' /\ frozen run_id p p' c c'.
Proof.
  intros Hsteps Hp Hr. destruct (steps_keep_plan _ _ _ _ Hsteps Hp) as (p' & Hp' & _ & Hf). eauto.
Qed.

(** ** Superseded leases *)

Definition refused {A} (r : result A) : Prop := exists e, r = Err e.

Lemma refused_bind {A B} (m : result A) (k : A -> result B) : refused m -> refused (m ≫= k).
Proof. intros [e ->]. by exists e. Qed.

Lemma refused_after {A B} (m : result A) (k : A -> result B) : (forall a, refused (k a)) -> refused (m ≫= k).
Proof. intros Hk. destruct m as [a|e]; [apply Hk|by exists e]. Qed.

Lemma guard_stale accepts why c now lease p :
  cd_plans c !! le_run_id lease = Some p -> pl_generation p <> le_generation lease ->
  refused (guard_with accepts why c now lease).
Proof.
  intros Hp Hg. unfold guard_with. apply refused_after. intros r. rewrite Hp. cbn [ok_or].
  unfold refused. cbn. assert ((pl_generation p =? le_generation lease) = false) as -> by lia.
  rewrite !andb_false_r. cbn. eauto.
Qed.

(** No operation under the lease commits, and giving it up changes nothing. *)
Record fenced (c : Control) (lease : Lease) : Prop := {
  fe_renew : forall now, refused (renew_plan c now lease);
  fe_plan : forall catalog now l, refused (plan_objects c catalog now lease l);
  fe_acknowledge : forall now l, refused (acknowledge_objects c now lease l);
  fe_publish : forall catalog dbs now now' manifest root shards,
    refused (publish c catalog dbs now now' lease manifest root shards);
  fe_renew_admission : forall now, refused (renew_admission c now lease);
  fe_acknowledge_admission : forall now start end_ state,
    refused (acknowledge_admission c now lease start end_ state);
  fe_activate : forall dbs now expected, refused (activate c dbs now lease expected);
  fe_fail : forall now error, refused (fail_admission c now lease error);
  fe_release : forall error, release_plan c lease error = c
}.

Lemma stale_fenced c lease p :
  cd_plans c !! le_run_id lease = Some p -> pl_generation p <> le_generation lease -> fenced c lease.
Proof.
  intros Hp Hg. assert (Hplan : forall now, refused (guard_plan c now lease)) by (intros; by eapply guard_stale).
  assert (Hadm : forall now, refused (guard_admission c now lease)) by (intros; by eapply guard_stale).
  split; intros.
  - by apply refused_bind.
  - apply refused_after. intros _. by apply refused_bind.
  - apply refused_after. intros _. by apply refused_bind.
  - by apply refused_bind.
  - by apply refused_bind.
  - apply refused_after. intros _. by apply refused_bind.
  - by apply refused_bind.
  - by apply refused_bind.
  - unfold release_plan. destruct (cd_runs c !! _); [|done]. rewrite Hp.
    assert ((pl_generation p =? le_generation lease) = false) as -> by lia. by rewrite andb_false_r.
Qed.

Lemma claim_generation accepts why c now owner run_id c' lease :
  claim_with accepts why c now owner run_id = Ok (c', lease) ->
  le_run_id lease = run_id /\
  exists p p', cd_plans c !! run_id = Some p /\ cd_plans c' !! run_id = Some p' /\
    le_generation lease = pl_generation p + 1 /\ pl_generation p' = le_generation lease.
Proof.
  unfold claim_with, i64_checked_add. intros H. inv_ok. split; [done|].
  cbn [with_plans cd_plans]. eexists _, _. rewrite lookup_insert, decide_True by done. split_and!; done.
Qed.

(** C11: Leases are fencing tokens: once a later claim of the run, by a planner
    or by an admission, has been granted, the earlier lease can commit nothing,
    now and after whatever follows; not even giving it up touches the new
    owner's claim. *)
Theorem superseded_lease_fenced accepts why accepts' why' c now owner run_id c1 lease c2 now' owner' c3 lease' c4 :
  claim_with accepts why c now owner run_id = Ok (c1, lease) -> rtc ledger_step c1 c2 ->
  claim_with accepts' why' c2 now' owner' run_id = Ok (c3, lease') -> rtc ledger_step c3 c4 -> fenced c4 lease.
Proof.
  intros (Hid & p & p1 & _ & Hp1 & _ & Hg1)%claim_generation H12 (Hid' & p2 & p3 & Hp2 & Hp3 & Hg2 & Hg3)%claim_generation H34.
  destruct (steps_keep_plan _ _ _ _ H12 Hp1) as (q2 & Hq2 & Hle2 & _).
  destruct (steps_keep_plan _ _ _ _ H34 Hp3) as (q4 & Hq4 & Hle4 & _).
  apply (stale_fenced _ _ q4); [by rewrite Hid|]. rewrite Hp2 in Hq2. injection Hq2 as <-. lia.
Qed.

(** ** Activation *)

Definition new_placement (alias : string) : PlacementRow := mkPlacementRow alias "active" None 1 1.

Lemma insert_placements_spec run_id t (l : list RunShardPlacementAssignment) t' :
  foldM (insert_placement run_id) t l = Ok t' ->
  NoDup (map pa_run_shard l) /\
  (forall a, a ∈ l -> t !! (run_id, pa_run_shard a) = None /\
     t' !! (run_id, pa_run_shard a) = Some (new_placement (pa_database_alias a))) /\
  (forall k, (forall a, a ∈ l -> k <> (run_id, pa_run_shard a)) -> t' !! k = t !! k).
Proof.
  revert t. induction l as [|a l IH]; intros t H.
  { injection H as <-. split_and!; [constructor|set_solver|done]. }
  cbn [foldM] in H. apply bind_Ok in H as (t1 & H1 & H). unfold insert_placement in H1.
  apply bind_Ok in H1 as (? & Hc%ensure_Ok & H1). injection H1 as <-. apply andb_true_iff in Hc as [_ Hfresh].
  destruct (IH _ H) as (Hnd & Hin & Hout). clear IH.
  assert (Hne : forall b, b ∈ l -> pa_run_shard b <> pa_run_shard a).
  { intros b Hb Heq. destruct (Hin b Hb) as [Hn _]. by rewrite Heq, lookup_insert, decide_True in Hn. }
  split_and!.
  - cbn [map]. constructor; [|done]. intros (b & Hb1 & Hb2)%list_elem_of_fmap. by eapply (Hne b).
  - intros b [->|Hb]%elem_of_cons.
    + split; [by destruct (t !! _)|]. rewrite Hout; [by rewrite lookup_insert, decide_True|].
      intros b Hb [= Heq]. by eapply (Hne b).
    + destruct (Hin b Hb) as [Hn Hs]. split; [|done]. rewrite lookup_insert_ne in Hn; [done|].
      intros [= Heq]. by eapply (Hne b).
  - intros k Hk. rewrite Hout; [apply lookup_insert_ne; intros <-; eapply Hk; [by left|done]|].
    intros b Hb. apply Hk. by right.
Qed.

Lemma insert_cursors_spec now run_id t (l : list Z) t' k :
  foldM (insert_cursor now run_id) t l = Ok t' ->
  t' !! k = match t !! k with
            | Some r => Some r
            | None => if bool_decide (k.1 = run_id /\ k.2 ∈ l) then Some (mkCursorRow CursorOpen now) else None
            end.
Proof.
  revert t. induction l as [|s l IH]; intros t H.
  { injection H as <-. destruct (t !! k); [done|]. rewrite bool_decide_false; [done|]. set_solver. }
  cbn [foldM] in H. apply bind_Ok in H as (t1 & H1 & H). unfold insert_cursor in H1.
  apply bind_Ok in H1 as (? & _ & H1). injection H1 as <-. rewrite (IH _ H). clear IH H.
  destruct (t !! (run_id, s)) as [r|] eqn:Er; cbn [opt_is_some].
  - destruct (t !! k) as [r'|] eqn:Ek; [done|]. destruct k as [k1 k2]; cbn. assert (Hne : ~ (k1 = run_id /\ k2 = s)) by (intros [-> ->]; congruence).
    rewrite (bool_decide_ext _ (k1 = run_id /\ k2 ∈ s :: l)); [done|]. set_solver.
  - destruct (decide (k = (run_id, s))) as [->|Hne].
    + rewrite lookup_insert, decide_True, Er by done. cbn. rewrite bool_decide_true; [done|]. set_solver.
    + rewrite lookup_insert_ne by done. destruct (t !! k) as [r'|]; [done|]. destruct k as [k1 k2]; cbn.
      rewrite (bool_decide_ext _ (k1 = run_id /\ k2 ∈ s :: l)); [done|].
      assert (~ (k1 = run_id /\ k2 = s)) by naive_solver. set_solver.
Qed.

(** The manifest of a shard ends in a chunk of that shard. *)
Definition ends_in_shard (sm : Z * Manifest) : Prop :=
  exists last, mn_last sm.2 = Some last /\ ci_run_shard last = sm.1.

Lemma last_shards (expected : btree Z Manifest) shards :
  Forall ends_in_shard expected -> mapM_result last_shard (bt_values expected) = Ok shards -> shards = bt_keys expected.
Proof.
  intros Hall. revert shards. induction Hall as [|[s m] l (last & Hl & Hs) _ IH]; intros shards H.
  { by injection H as <-. }
  cbn in H, Hl, Hs. apply bind_Ok in H as (b & Hb & H). apply bind_Ok in H as (rest & Hr & H). injection H as <-.
  unfold last_shard in Hb. rewrite Hl in Hb. injection Hb as <-. cbn. by rewrite Hs, (IH rest Hr).
Qed.

Lemma elem_of_published c run_id s row :
  (s, row) ∈ published_shards c run_id <-> cd_plan_shards c !! (run_id, s) = Some row.
Proof. rewrite published_rows. apply elem_of_rows_of. Qed.

(** As many rows as manifests, each with its manifest: the same shards. *)
Lemma admitted_shards c run_id (actual : btree Z Manifest) :
  bt_wf actual -> zlen (published_shards c run_id) = zlen actual ->
  Forall (fun sr => shard_admitted actual sr = true) (published_shards c run_id) ->
  forall s, is_Some (cd_plan_shards c !! (run_id, s)) <-> is_Some (bt_get s actual).
Proof.
  intros Hwf Hlen Hall. set (keys := map fst (published_shards c run_id)).
  assert (Hkeys : forall s, s ∈ keys <-> is_Some (cd_plan_shards c !! (run_id, s))).
  { intros s. unfold keys. rewrite list_elem_of_fmap. split.
    - intros ([s' row] & -> & Hin). apply elem_of_published in Hin. by exists row.
    - intros [row Hrow]. exists (s, row). by rewrite elem_of_published. }
  assert (Hnd : NoDup keys).
  { apply NoDup_fmap_fst; [|rewrite published_rows; apply NoDup_rows_of].
    intros s r1 r2 H1%elem_of_published H2%elem_of_published. congruence. }
  assert (Hget : forall s, s ∈ bt_keys actual <-> is_Some (bt_get s actual)).
  { intros s. rewrite <- bt_mem_keys by done. unfold bt_mem. destruct (bt_get s actual); split; try done; by intros [? ?]. }
  assert (Hsub : keys ⊆+ bt_keys actual).
  { apply NoDup_submseteq; [done|]. intros s (sr & -> & Hin)%list_elem_of_fmap. rewrite Forall_forall in Hall.
    specialize (Hall _ Hin). unfold shard_admitted in Hall. rewrite Hget. by destruct (bt_get _ actual). }
  assert (Hperm : keys ≡ₚ bt_keys actual).
  { apply submseteq_length_Permutation; [done|]. unfold keys, bt_keys. rewrite !length_map. unfold zlen in Hlen. lia. }
  intros s. by rewrite <- Hkeys, <- Hget, Hperm.
Qed.

Lemma activate_spec c dbs now lease expected c' :
  bt_wf expected -> Forall ends_in_shard expected -> activate c dbs now lease expected = Ok c' ->
  let run_id := le_run_id lease in
  exists p r', cd_plans c !! run_id = Some p /\ pl_status p = PlanReady /\
    pl_admission_cursor p = pl_chunk_cursor p /\ 0 < pl_chunk_cursor p /\ pl_admission_state p = expected /\
    (forall s, is_Some (cd_plan_shards c !! (run_id, s)) <-> is_Some (bt_get s expected)) /\
    (forall s row, cd_plan_shards c !! (run_id, s) = Some row ->
       (exists m, bt_get s expected = Some m /\ mn_case_count m = ps_case_count row /\
          mn_chunk_count m = ps_chunk_count row /\ mn_hash m = ps_planned_chunk_hash row) /\
       cd_placements c !! (run_id, s) = None /\
       cd_placements c' !! (run_id, s) = Some (new_placement (ps_database_alias row)) /\
       cd_cursors c' !! (run_id, s) = Some (default (mkCursorRow CursorOpen now) (cd_cursors c !! (run_id, s)))) /\
    (forall k, ~ (k.1 = run_id /\ is_Some (cd_plan_shards c !! k)) ->
       cd_placements c' !! k = cd_placements c !! k /\ cd_cursors c' !! k = cd_cursors c !! k) /\
    cd_runs c' !! run_id = Some r' /\ rw_status r' = RunPending /\ rn_coordinator_id (rw_state r') = None.
Proof.
  intros Hwf Hends H run_id. unfold activate in H. apply bind_Ok in H as ([c1 p] & Hg & H).
  apply guard_with_Ok in Hg as (r & st & Hr & Hp & _ & _ & _ & Ha & -> & _).
  unfold is_ready in Ha. apply bool_decide_eq_true in Ha.
  apply bind_Ok in H as (? & Hdone%ensure_Ok & H). apply bind_Ok in H as (? & Hrows%ensure_Ok & H).
  apply bind_Ok in H as (placements & Hpl & H). apply bind_Ok in H as (shards & Hsh & H).
  apply bind_Ok in H as (cursors & Hcu & H). apply bind_Ok in H as (r1 & Hr1%ok_or_Ok & H). injection H as <-.
  apply andb_true_iff in Hdone as [Hdone Hst%bool_decide_eq_true]. apply andb_true_iff in Hdone as [Hcur Hpos].
  apply andb_true_iff in Hrows as [Hlen Hall%forallb_Forall_iff].
  change (published_shards (update_run c (le_run_id lease) r st) (le_run_id lease)) with (published_shards c run_id) in *.
  rewrite Hst in *. apply (last_shards _ _ Hends) in Hsh as ->.
  assert (Hsame := admitted_shards c run_id expected Hwf ltac:(lia) Hall).
  unfold bulk_insert_shard_placements in Hpl. apply bind_Ok in Hpl as (? & _ & Hpl).
  apply insert_placements_spec in Hpl as (_ & Hin & Hout).
  unfold bulk_insert_run_shard_dispatch_cursors in Hcu.
  assert (Hset : forall s, s ∈ bt_keys (bset (bt_keys expected)) <-> is_Some (cd_plan_shards c !! (run_id, s))).
  { intros s. rewrite Hsame. unfold bset. rewrite bt_collect_keys, map_map. cbn. rewrite map_id.
    rewrite <- bt_mem_keys by done. unfold bt_mem. destruct (bt_get s expected); split; try done; by intros [? ?]. }
  exists p. eexists. split; [done|]. split; [done|]. split; [lia|]. split; [lia|]. split; [done|]. split; [done|].
  split_and!.
  - intros s row Hrow. assert (Hel : (s, row) ∈ published_shards c run_id) by (by apply elem_of_published).
    split_and!.
    + rewrite Forall_forall in Hall. specialize (Hall _ Hel). unfold shard_admitted in Hall. cbn in Hall.
      destruct (bt_get s expected) as [m|]; [|done]. cbn in Hall. exists m.
      apply andb_true_iff in Hall as [Hall Hh%str_eqb_true]. split_and!; [done|lia|lia|done].
    + apply (Hin (mkRunShardPlacementAssignment s (ps_database_alias row))). apply list_elem_of_fmap. by exists (s, row).
    + apply (Hin (mkRunShardPlacementAssignment s (ps_database_alias row))). apply list_elem_of_fmap. by exists (s, row).
    + cbn. rewrite (insert_cursors_spec _ _ _ _ _ _ Hcu). cbn. destruct (cd_cursors c !! (run_id, s)); [done|].
      rewrite bool_decide_true; [done|]. split; [done|]. apply Hset. by exists row.
  - intros [k1 k2] Hk. cbn in Hk |- *. split.
    + apply Hout. intros a ([s row] & -> & Hel)%list_elem_of_fmap [= -> ->]. apply Hk. split; [done|].
      apply elem_of_published in Hel. by exists row.
    + rewrite (insert_cursors_spec _ _ _ _ _ _ Hcu). cbn. destruct (cd_cursors c !! (k1, k2)); [done|].
      rewrite bool_decide_false; [done|]. intros [-> Hs%Hset]. by apply Hk.
  - cbn. by rewrite lookup_insert, decide_True.
  - done.
  - done.
Qed.

(** Activation is exact.  It commits only when every chunk is admitted
    ([admission_cursor = chunk_cursor > 0]) with the membership the caller
    verified; then every shard of the published plan, and no other, gets a fresh
    active route of epoch 1 to its published database and a dispatch cursor, its
    counts and chunk hash being the admitted ones; nothing else is routed; and
    the run becomes pending without owner. *)
Theorem activation_exact c dbs now lease expected c' :
  bt_wf expected -> Forall ends_in_shard expected -> activate c dbs now lease expected = Ok c' ->
  let run_id := le_run_id lease in
  exists p r', cd_plans c !! run_id = Some p /\ pl_status p = PlanReady /\
    pl_admission_cursor p = pl_chunk_cursor p /\ 0 < pl_chunk_cursor p /\ pl_admission_state p = expected /\
    (forall s, is_Some (cd_plan_shards c !! (run_id, s)) <-> is_Some (bt_get s expected)) /\
    (forall s row, cd_plan_shards c !! (run_id, s) = Some row ->
       (exists m, bt_get s expected = Some m /\ mn_case_count m = ps_case_count row /\
          mn_chunk_count m = ps_chunk_count row /\ mn_hash m = ps_planned_chunk_hash row) /\
       cd_placements c !! (run_id, s) = None /\
       cd_placements c' !! (run_id, s) = Some (new_placement (ps_database_alias row)) /\
       cd_cursors c' !! (run_id, s) = Some (default (mkCursorRow CursorOpen now) (cd_cursors c !! (run_id, s)))) /\
    (forall k, ~ (k.1 = run_id /\ is_Some (cd_plan_shards c !! k)) ->
       cd_placements c' !! k = cd_placements c !! k /\ cd_cursors c' !! k = cd_cursors c !! k) /\
    cd_runs c' !! run_id = Some r' /\ rw_status r' = RunPending /\ rn_coordinator_id (rw_state r') = None.
Proof. apply activate_spec. Qed.

Lemma activate_keeps c dbs now lease expected c' :
  activate c dbs now lease expected = Ok c' -> cd_plan_shards c' = cd_plan_shards c.
Proof.
  unfold activate. intros H. apply bind_Ok in H as ([c1 p] & Hg & H). apply guard_effect in Hg as (_ & _ & G3 & _).
  do 6 (apply bind_Ok in H as (? & _ & H)). injection H as <-. exact G3.
Qed.
End lifecycle.

(** ** The life of a plan of one case *)

Module LedgerSample.

#[global] Instance functions : LedgerFunctions := {|
  jsonb_eqb := fun a b => str_eqb (plain_print a) (plain_print b);
  objects_to_vec := fun _ => Ok "[]";
  execution_plan_to_vec := fun _ => Ok "{}";
  reference_octets := fun r => str_len (or_key r) + 100;
  reference_value := fun r => Str (or_key r);
  ledger_shard_text := pretty;
  ledger_uuid_text := pretty;
  chars_take := fun _ s => s
|}.
#[global] Instance encoding : Encoding := {|
  json_parse := fun s => Some (RStr s);
  to_vec := fun v => match v with Str s => Ok s | _ => Ok "value" end;
  blake3_hex := constant_digest;
  blake3_bytes := fun _ => repeat 255 32
|}.
#[global] Instance manifest_text : Serde RunPlanManifest :=
  {| ser_chunks := fun _ => Ok ["plan"]; from_value := fun _ => Err "write only" |}.

Definition object (s : StorageFormat) (key : string) : ObjectRef :=
  mkObjectRef "primary" ("runs/5/" +:+ key) s Blake3 sample_digest 4 None.
Definition dataset_root : ObjectRef := mkObjectRef "primary" "datasets/7/root" FDatasetManifest Blake3 sample_digest 9 None.
Definition catalog : gmap Uuid CatalogRow := {[7 := mkCatalogRow "primary" dataset_root]}.
Definition dbs : databases := {["main" := ("control_and_shard", "active")]}.
Definition plan : EvaluatorExecutionPlan := mkEvaluatorExecutionPlan 1 sample_digest [].
Definition draft : RunDraft :=
  mkRunDraft None None
    (mkRunContext "run-5" 9 6 "1" "profile" "1" "p1" sample_digest "policy" "1" sample_digest "http" "agent" None "c" "1"
       (Object [])) 1.
Definition file (kind : string) (s : StorageFormat) (key : string) : FileObject :=
  mkFileObject ("runs/5/" +:+ key) kind 0 (Some 0) (Some 1) (object s key) false.
Definition files : list FileObject :=
  [file "configuration" FRunConfiguration "configuration"; file "chunks" FRunChunks "chunks";
   file "index" FOrdinalIndex "index"; file "manifest" FRunPlanManifest "manifest"].
Definition manifest : RunPlanManifest :=
  mkRunPlanManifest FRunPlanManifest 5 dataset_root sample_digest sample_digest sample_digest
    (object FRunConfiguration "configuration") 1 (mkIndexDescriptor 0 0 1 (object FOrdinalIndex "index"))
    [mkRunPlanShard 0 1 1 sample_digest (mkGateCountDescriptor None 0 0)].
Definition root : ObjectRef := object FRunPlanManifest "manifest".
Definition shards : list LedgerShard := [mkLedgerShard 0 "main" 1 1 sample_digest sample_digest].
Definition admitted : btree Z Manifest := [(0, mkManifest 1 1 sample_digest (Some (mkChunkIdentity 3 0 0 1)))].

Definition empty : Control := mkControl ∅ ∅ ∅ ∅ ∅ ∅ ∅ ∅.

Definition begun : result Control :=
  st ← begin_plan empty ∅ catalog 0 5 7 "binding" FormatLimits_default draft plan
         [mkRunShardPlacementAssignment 0 "main"] true; Ok st.1.1.
Definition lease : Lease := mkLease 5 21 1.
Definition prepared : result Control :=
  c ← begun; st ← claim_plan c 1 21 5; st ← plan_objects st.1 catalog 2 lease files;
  acknowledge_objects st.1 3 lease files.
Definition published : result Control :=
  c ← prepared; publish c catalog dbs 4 5 lease manifest root shards.
Definition lease' : Lease := mkLease 5 22 2.
Definition seeded : result Control :=
  c ← published; st ← claim_admission c 6 22 5; acknowledge_admission st.1 7 lease' 0 1 admitted.

(** Every stage is reached, and what the plan row says there. *)
Lemma prepared_steps : forall b, prepared = Ok b -> rtc ledger_step empty b.
Proof.
  intros b H. unfold prepared, begun in H.
  apply bind_Ok in H as (a & Ha & H). apply bind_Ok in Ha as ([[a' v] p] & Ha & [= <-]).
  apply bind_Ok in H as ([c1 l1] & H1 & H). apply bind_Ok in H as ([c2 acks] & H2 & H).
  eapply rtc_l; [by eapply begin_step|]. eapply rtc_l; [by eapply claim_step|].
  eapply rtc_l; [by eapply plan_step|]. apply rtc_once. by eapply acknowledge_step.
Qed.

Lemma published_steps : forall c, published = Ok c -> rtc ledger_step empty c.
Proof.
  intros c H. unfold published in H. apply bind_Ok in H as (b & Hb & H).
  etransitivity; [by apply prepared_steps|]. apply rtc_once. by eapply publish_step.
Qed.

Lemma seeded_steps : forall c d, published = Ok c -> seeded = Ok d -> rtc ledger_step c d.
Proof.
  intros c d Hc H. unfold seeded in H. rewrite Hc in H. cbn in H. apply bind_Ok in H as ([c1 l1] & H1 & H).
  eapply rtc_l; [by eapply claim_admission_step|]. apply rtc_once. by eapply acknowledge_admission_step.
Qed.

Definition status_of (r : result Control) : option (PlanStatus * Z * Z) :=
  match r with
  | Ok c => (fun p => (pl_status p, pl_chunk_cursor p, pl_generation p)) <$> cd_plans c !! 5
  | Err _ => None
  end.

Lemma published_ready : exists c p, published = Ok c /\ cd_plans c !! 5 = Some p /\ pl_status p = PlanReady /\
  pl_chunk_cursor p = 1.
Proof.
  assert (H : status_of published = Some (PlanReady, 1, 1)) by (vm_compute; reflexivity).
  destruct published as [c|]; [|discriminate H]. cbn [status_of] in H.
  destruct (cd_plans c !! 5) as [p|] eqn:Ep; [|discriminate H]. injection H as H1 H2 _. by exists c, p.
Qed.

Lemma seeded_some : exists d, seeded = Ok d.
Proof.
  assert (H : opt_is_some (status_of seeded) = true) by (vm_compute; reflexivity).
  destruct seeded as [d|]; [by exists d|discriminate H].
Qed.

Lemma activates : exists d d', seeded = Ok d /\ activate d dbs 8 lease' admitted = Ok d'.
Proof.
  assert (H : opt_is_some (status_of (d ← seeded; activate d dbs 8 lease' admitted)) = true) by (vm_compute; reflexivity).
  destruct seeded as [d|]; [|discriminate H]. exists d. change (Ok d ≫= _) with (activate d dbs 8 lease' admitted) in H.
  destruct (activate _ _ _ _ _) as [d'|]; [by exists d'|discriminate H].
Qed.

(** A planner that loses its lease to another before it writes anything. *)
Lemma claimed_twice : exists a c1 l c2 l',
  begun = Ok a /\ claim_plan a 1 21 5 = Ok (c1, l) /\ claim_plan c1 (2 + LEASE) 23 5 = Ok (c2, l').
Proof.
  assert (H : opt_is_some (status_of (a ← begun; st ← claim_plan a 1 21 5; st ← claim_plan st.1 (2 + LEASE) 23 5; Ok st.1))
    = true) by (vm_compute; reflexivity).
  destruct begun as [a|]; [|discriminate H]. exists a. cbn [mbind result_bind] in H. 
  destruct (claim_plan a 1 21 5) as [[c1 l]|]; [|discriminate H]. exists c1, l. cbn in H.
  destruct (claim_plan c1 (2 + LEASE) 23 5) as [[c2 l']|]; [|discriminate H]. by exists c2, l'.
Qed.
End LedgerSample.

Lemma plan_tables_consistent_witness : exists c p,
  LedgerSample.published = Ok c /\ pl_status p = PlanReady /\ pl_chunk_cursor p = 1 /\ plan_inv c 5 p.
Proof.
  destruct LedgerSample.published_ready as (c & p & Hc & Hp & Hr & Hcur). exists c, p.
  split; [exact Hc|]. split; [exact Hr|]. split; [exact Hcur|].
  apply (plan_tables_consistent LedgerSample.empty c 5 p); [reflexivity..| |exact Hp].
  exact (LedgerSample.published_steps c Hc).
Defined.

Lemma published_plan_final_witness : exists c d p p',
  LedgerSample.published = Ok c /\ LedgerSample.seeded = Ok d /\ frozen 5 p p' c d.
Proof.
  destruct LedgerSample.published_ready as (c & p & Hc & Hp & Hr & _). destruct LedgerSample.seeded_some as (d & Hd).
  destruct (published_plan_final c d 5 p (LedgerSample.seeded_steps c d Hc Hd) Hp Hr) as (p' & _ & Hf).
  exists c, d, p, p'. exact (conj Hc (conj Hd Hf)).
Defined.

Lemma superseded_lease_fenced_witness : exists c1 l c2,
  claim_plan c1 (2 + LEASE) 23 5 = Ok c2 /\ fenced c2.1 l.
Proof.
  destruct LedgerSample.claimed_twice as (a & c1 & l & c2 & l' & _ & H1 & H2). exists c1, l, (c2, l').
  exact (conj H2 (superseded_lease_fenced _ _ _ _ a 1 21 5 c1 l c1 (2 + LEASE) 23 c2 l' c2 H1 (rtc_refl _ _) H2 (rtc_refl _ _))).
Defined.

Lemma activation_exact_witness : exists d d' r,
  LedgerSample.seeded = Ok d /\ cd_runs d' !! 5 = Some r /\ rw_status r = RunPending.
Proof.
  destruct LedgerSample.activates as (d & d' & Hd & Ha).
  destruct (activation_exact d LedgerSample.dbs 8 LedgerSample.lease' LedgerSample.admitted d') as
    (p & r & _ & _ & _ & _ & _ & _ & _ & _ & Hr & Hst & _).
  - repeat constructor.
  - constructor; [|constructor]. exists (mkChunkIdentity 3 0 0 1). split; reflexivity.
  - exact Ha.
  - exists d, d', r. exact (conj Hd (conj Hr Hst)).
Defined.
