(* ===== verification/LocalSeed.v ===== *)
(** * Seeding an execution database

    What admission writes to an execution database and how it reads it back:
    src/vigilo/src/db/workflows/run_plan/admission/placement.rs, the chunk
    insertion of src/vigilo/src/db/workflows/run_create/queries.rs and the fence
    check of src/vigilo/src/db/shard_write_fence.rs.  A write is one local
    transaction; running it again on what it left is exact. *)

From Stdlib Require Import ZArith Lia ZifyBool Sorted.
From stdpp Require Import base strings numbers gmap sorting sets option list.
From S2P Require Import Prelude Float64 BTree Text Json RunTypes StorageFormats Codec.
From S2P Require Import ShardTables ReceiptGates Settlement ShardSummary ControlTables PlanLedger.

Open Scope Z_scope.

(** [models::run_chunk::RunChunkDraft]. *)
Record RunChunkDraft := mkRunChunkDraft {
  kd_chunk_id : Uuid;
  kd_run_shard : Z;
  kd_profile_group_id : string;
  kd_ordinal_start : Z;
  kd_ordinal_end : Z
}.

(** An execution database with the [runs] and [dataset_versions] tables that
    admission compares in full. *)
Record Local := mkLocal {
  lo_runs : gmap Uuid RunRow;
  lo_versions : dataset_versions;
  lo_db : Database
}.

(** [placement::Shard] and [placement::Seed]. *)
Record SeedShard := mkSeedShard {
  hs_run_shard : Z;
  hs_manifest : Manifest;
  hs_gate_counts : Value;
  hs_case_count : Z
}.

Record Seed := mkSeed {
  se_run_id : Uuid;
  se_draft : RunDraft;
  se_snapshot : Value;
  se_expected : btree Z Manifest;
  se_gate_counts : btree Z Value
}.

(** The lengths of [serde_json::to_vec] of a template, a shard and a chunk, and
    the JSON of a manifest. *)
Class SeedFunctions := {
  value_octets : Value -> result Z;
  shard_octets : SeedShard -> result Z;
  chunk_octets : RunChunkDraft -> result Z;
  manifest_value : Manifest -> Value
}.

Definition MAX_SHARDS : Z := 64.
Definition SNAPSHOT_GROUP_BYTES : Z := 8 * 1024 * 1024.
Definition MAX_CHUNKS : Z := 256.
Definition CHUNK_GROUP_BYTES : Z := 256 * 1024.
Definition RUN_CHUNK_INSERT_CHUNK_SIZE : nat := 2000.

(** The messages of [seed_invariant_error], without what they interpolate. *)
Definition seed_invariant_errors : list string :=
  ["dataset_version_id already exists with different dataset identity";
   "run_id already exists with different immutable creation data";
   "run_id has a chunk with different immutable creation data";
   "execution admission changed while seeding"; "local run snapshot changed";
   "admitted membership differs from frozen plan"; "local chunk immutable metadata or admission changed";
   "local chunk coverage is invalid"; "local placement has incomplete or unexpected chunk membership"].
Definition is_seed_invariant_error (e : string) : bool := bool_decide (e ∈ seed_invariant_errors).

(** The check of [lock_shared_many]; the locks order transactions. *)
Fixpoint ascending (l : list Z) : bool :=
  match l with
  | a :: (b :: _) as l' => (a <? b) && ascending l'
  | _ => true
  end.
Definition lock_shared_many (shards : list Z) : result unit :=
  ensure (negb (bool_decide (shards = [])) && (zlen shards <=? 128) && forallb (in_range 0 127) shards
          && ascending shards) "invalid ordered shard fences".

(** [slice.chunks(n)]. *)
Fixpoint chunks_of {A} (fuel n : nat) (l : list A) : list (list A) :=
  match fuel, l with
  | S fuel', _ :: _ => take n l :: chunks_of fuel' n (drop n l)
  | _, _ => []
  end.

Section seed.
Context {LF : LedgerFunctions} {HF : SeedFunctions}.

(** ** Chunk rows *)

Definition chunk_key (run_id : Uuid) (c : RunChunkDraft) : row_key := (run_id, kd_run_shard c, kd_chunk_id c).

Definition new_chunk (now : Z) (version : Uuid) (c : RunChunkDraft) : ChunkRow :=
  mkChunkRow version (kd_profile_group_id c) (kd_ordinal_start c) (kd_ordinal_end c) ChPending None None None 0 None
    now now.

(** The conflict clause: the stored row has the same immutable fields and has
    not been dispatched. *)
Definition same_chunk (version : Uuid) (c : RunChunkDraft) (r : ChunkRow) : bool :=
  (ch_dataset_version_id r =? version) && str_eqb (ch_profile_group_id r) (kd_profile_group_id c)
  && (ch_ordinal_start r =? kd_ordinal_start c) && (ch_ordinal_end r =? kd_ordinal_end c)
  && bool_decide (ch_status r = ChPending) && opt_is_none (ch_dispatched_at r).

Definition upsert_chunk (now run_id : Z) (version : Uuid) (runs : gmap Uuid RunRow) (t : gmap row_key ChunkRow)
    (c : RunChunkDraft) : result (gmap row_key ChunkRow) :=
  _ ← ensure (in_range 0 127 (kd_run_shard c) && (0 <=? kd_ordinal_start c) && (kd_ordinal_start c <? kd_ordinal_end c)
              && is_some_and (fun r => rc_dataset_version_id (rw_context r) =? version) (runs !! run_id))
        "constraint violation on run_chunks";
  match t !! chunk_key run_id c with
  | None => Ok (<[chunk_key run_id c := new_chunk now version c]> t)
  | Some r =>
      _ ← ensure (same_chunk version c r) "run_id has a chunk with different immutable creation data"; Ok t
  end.

(** One [INSERT]: [ON CONFLICT DO UPDATE] refuses a key that occurs twice. *)
Definition insert_batch (now run_id : Z) (version : Uuid) (runs : gmap Uuid RunRow) (t : gmap row_key ChunkRow)
    (batch : list RunChunkDraft) : result (gmap row_key ChunkRow) :=
  _ ← ensure (bool_decide (NoDup (map (chunk_key run_id) batch))) "command cannot affect row a second time";
  foldM (upsert_chunk now run_id version runs) t batch.

Definition bulk_insert_run_chunks (now run_id : Z) (version : Uuid) (runs : gmap Uuid RunRow)
    (t : gmap row_key ChunkRow) (chunks : list RunChunkDraft) : result (gmap row_key ChunkRow) :=
  foldM (insert_batch now run_id version runs) t (chunks_of (length chunks) RUN_CHUNK_INSERT_CHUNK_SIZE chunks).

(** ** Snapshots *)

(** The SQL expression [SNAPSHOT]. *)
Definition snapshot_value (seed : Seed) (s : SeedShard) : Value :=
  jsonb_concat (se_snapshot seed)
    [("settlement_plan", Object (bt_collect [("version", Num (PosInt 1));
        ("shards", Object [(ledger_shard_text (hs_run_shard s), manifest_value (hs_manifest s))])]));
     ("gate_planned_counts", hs_gate_counts s)].

Definition admit_shard (now : Z) (run_id : Uuid) (alias : string) (t : gmap shard_key AdmissionRow) (s : SeedShard)
    : gmap shard_key AdmissionRow :=
  insert_new (run_id, hs_run_shard s) (mkAdmissionRow alias 1 Open None None now) t.

Definition admitted_open (alias : string) (a : AdmissionRow) : bool :=
  str_eqb (ad_database_alias a) alias && (ad_write_epoch a =? 1) && bool_decide (ad_state a = Open).

Definition snapshot_row (seed : Seed) (r : RunRow) (s : SeedShard) : SnapshotRow :=
  mkSnapshotRow (rw_context (set_snapshot r (snapshot_value seed s) (rw_state r))) (hs_case_count s).

Definition insert_snapshot (seed : Seed) (r : RunRow) (t : gmap shard_key SnapshotRow) (s : SeedShard)
    : gmap shard_key SnapshotRow :=
  insert_new (se_run_id seed, hs_run_shard s) (snapshot_row seed r s) t.

Definition same_snapshot (seed : Seed) (s : SeedShard) (row : SnapshotRow) : bool :=
  jsonb_eqb (rc_config_snapshot (sn_context row)) (snapshot_value seed s)
  && (sn_expected_execution_count row =? hs_case_count s).

Definition snapshots (seed : Seed) (now : Z) (alias : string) (lo : Local) (shards : list SeedShard) : result Local :=
  let db := lo_db lo in
  let key s := (se_run_id seed, hs_run_shard s) in
  let admissions := fold_left (admit_shard now (se_run_id seed) alias) shards (db_admissions db) in
  _ ← ensure (forallb (fun s => is_some_and (admitted_open alias) (admissions !! key s)) shards)
        "execution admission changed while seeding";
  let rows := match lo_runs lo !! se_run_id seed with
              | Some r => fold_left (insert_snapshot seed r) shards (db_snapshots db)
              | None => db_snapshots db
              end in
  _ ← ensure (forallb (fun s => 0 <=? hs_case_count s) shards) "constraint violation on run_snapshots";
  _ ← ensure (forallb (fun s => is_some_and (same_snapshot seed s) (rows !! key s)) shards) "local run snapshot changed";
  Ok (mkLocal (lo_runs lo) (lo_versions lo) (with_snapshots (with_admissions db admissions) rows)).

(** ** The placement transaction *)

Definition seed_shard (seed : Seed) (run_shard : Z) : result SeedShard :=
  manifest ← ok_or (bt_get run_shard (se_expected seed)) "unassigned snapshot shard";
  counts ← ok_or (bt_get run_shard (se_gate_counts seed)) "missing gate counts";
  Ok (mkSeedShard run_shard manifest counts (mn_case_count manifest)).

(** The loop over the shards: flush the group when it is full. *)
Definition group_shard (seed : Seed) (now : Z) (alias : string) (template_bytes : Z)
    (st : Local * list SeedShard * Z) (run_shard : Z) : result (Local * list SeedShard * Z) :=
  let '(lo, group, bytes) := st in
  s ← seed_shard seed run_shard;
  octets ← shard_octets s;
  size ← ok_or (u64_checked_add template_bytes octets) "snapshot group byte overflow";
  st ← (if negb (bool_decide (group = [])) && ((zlen group =? MAX_SHARDS) || (SNAPSHOT_GROUP_BYTES <? bytes + size))
        then lo ← snapshots seed now alias lo group; Ok (lo, [], 0)
        else Ok (lo, group, bytes));
  let '(lo, group, bytes) := st : Local * list SeedShard * Z in
  bytes ← ok_or (u64_checked_add bytes size) "snapshot group byte overflow";
  Ok (lo, group ++ [s], bytes).

(** The loop over the chunks; [pending] is the slice from [start]. *)
Definition group_chunk (insert : gmap row_key ChunkRow -> list RunChunkDraft -> result (gmap row_key ChunkRow))
    (row_limit : Z) (st : gmap row_key ChunkRow * list RunChunkDraft * Z) (c : RunChunkDraft)
    : result (gmap row_key ChunkRow * list RunChunkDraft * Z) :=
  let '(t, pending, bytes) := st in
  size ← chunk_octets c;
  _ ← ensure (size <=? CHUNK_GROUP_BYTES) "chunk metadata exceeds admission limit";
  if negb (bool_decide (pending = []))
     && ((zlen pending =? Z.min row_limit MAX_CHUNKS) || (CHUNK_GROUP_BYTES <? bytes + size))
  then t ← insert t pending; Ok (t, [c], size)
  else Ok (t, pending ++ [c], bytes + size).

Definition set_runs (lo : Local) (versions : dataset_versions) (runs : gmap Uuid RunRow) : Local :=
  let db := lo_db lo in
  mkLocal runs versions
    (mkDatabase (rw_context <$> runs) (db_chunks db) (db_executions db) (db_attempts db) (db_aggregates db)
       (db_evidence db) (db_admissions db) (db_snapshots db) (db_settlements db) (db_consumptions db)
       (db_summaries db) (db_outbox db)).

Definition seed_write (seed : Seed) (now : Z) (alias : string) (status : RunStatus) (chunks : list RunChunkDraft)
    (row_limit : Z) (lo : Local) : result Local :=
  _ ← ensure (negb (bool_decide (chunks = [])) && (zlen chunks <=? 4096) && (0 <? row_limit)) "invalid placement page bounds";
  let shards := bt_keys (bset (map kd_run_shard chunks)) in
  let draft := se_draft seed in
  let version := rc_dataset_version_id (dr_context draft) in
  _ ← lock_shared_many shards;
  versions ← upsert_dataset_version (lo_versions lo) version (rc_dataset_id (dr_context draft))
               (rc_dataset_version (dr_context draft));
  runs ← insert_run_create (lo_runs lo) versions now (se_run_id seed) draft status;
  let lo := set_runs lo versions runs in
  template_bytes ← value_octets (se_snapshot seed);
  st ← foldM (group_shard seed now alias template_bytes) (lo, [], 0) shards;
  let '(lo, group, _) := st : Local * list SeedShard * Z in
  lo ← (if negb (bool_decide (group = [])) then snapshots seed now alias lo group else Ok lo);
  let insert := bulk_insert_run_chunks now (se_run_id seed) version (lo_runs lo) in
  st ← foldM (group_chunk insert row_limit) (db_chunks (lo_db lo), [], 0) chunks;
  t ← insert st.1.1 st.1.2;
  Ok (mkLocal (lo_runs lo) (lo_versions lo) (with_chunks (lo_db lo) t)).

(** ** Reading back *)

(** [(run_shard, ordinal_start, id)], the order of the page. *)
Definition plan_position (kr : row_key * ChunkRow) : Z * Z * Z := (kr.1.1.2, ch_ordinal_start kr.2, kr.1.2).
Definition pos_ltb (a b : Z * Z * Z) : bool :=
  (a.1.1 <? b.1.1) || ((a.1.1 =? b.1.1) && ((a.1.2 <? b.1.2) || ((a.1.2 =? b.1.2) && (a.2 <? b.2)))).
Definition by_position (x y : row_key * ChunkRow) : Prop := pos_ltb (plan_position y) (plan_position x) = false.
#[global] Instance by_position_dec : RelDecision by_position.
Proof. intros x y. unfold by_position. apply _. Defined.

Definition placement_rows (lo : Local) (run_id : Uuid) (shards : list Z) (after : Z * Z * Z) : list (row_key * ChunkRow) :=
  merge_sort by_position (map_to_list (rows_where (fun k r => (k.1.1 =? run_id) && bool_decide (k.1.2 ∈ shards)
    && pos_ltb after (plan_position (k, r))) (db_chunks (lo_db lo)))).

Definition chunk_valid (lo : Local) (version : Uuid) (alias : string) (kr : row_key * ChunkRow) : bool :=
  (ch_dataset_version_id kr.2 =? version) && str_eqb (ch_profile_group_id kr.2) "default"
  && bool_decide (ch_status kr.2 = ChPending) && opt_is_none (ch_dispatched_at kr.2)
  && is_some_and (admitted_open alias) (db_admissions (lo_db lo) !! kr.1.1).

Definition read_chunks (lo : Local) (run_id version : Uuid) (alias : string) (shards : list Z) (after : Z * Z * Z)
    : result (list (ChunkIdentity * bool)) :=
  _ ← ensure (negb (bool_decide (shards = [])) && (zlen shards <=? 128)) "invalid placement verification shard count";
  Ok (map (fun kr => (identity_of kr, chunk_valid lo version alias kr))
        (take (Z.to_nat MAX_CHUNKS) (placement_rows lo run_id shards after))).

(** ** What a write leaves *)

(** A shard that another pass of the same seed would accept as it stands. *)
Definition settled (seed : Seed) (alias : string) (lo : Local) (s : SeedShard) : Prop :=
  let key := (se_run_id seed, hs_run_shard s) in
  (exists a, db_admissions (lo_db lo) !! key = Some a /\ admitted_open alias a = true) /\
  (exists row, db_snapshots (lo_db lo) !! key = Some row /\ same_snapshot seed s row = true) /\
  0 <= hs_case_count s.

(** Later states keep every admission and snapshot row, and the rest. *)
Definition grows (lo lo' : Local) : Prop :=
  lo_runs lo' = lo_runs lo /\ lo_versions lo' = lo_versions lo /\
  db_runs (lo_db lo') = db_runs (lo_db lo) /\ db_chunks (lo_db lo') = db_chunks (lo_db lo) /\
  (forall k a, db_admissions (lo_db lo) !! k = Some a -> db_admissions (lo_db lo') !! k = Some a) /\
  (forall k r, db_snapshots (lo_db lo) !! k = Some r -> db_snapshots (lo_db lo') !! k = Some r).

#[local] Instance grows_preorder : PreOrder grows.
Proof. split; [by intros lo|]. intros a b c (?&?&?&?&?&?) (?&?&?&?&?&?). split_and!; try congruence; eauto. Qed.

Lemma settled_grows seed alias lo lo' s : grows lo lo' -> settled seed alias lo s -> settled seed alias lo' s.
Proof.
  intros (_ & _ & _ & _ & Ha & Hs) ((a & A1 & A2) & (r & R1 & R2) & Hc). split_and!; [|exists r; auto|done].
  exists a. auto.
Qed.

(** Inserting rows that may exist: nothing is lost, and every key is present. *)
Lemma fold_insert_new {K R A} `{Countable K} (key : A -> K) (row : A -> R) (l : list A) (t : gmap K R) :
  let t' := fold_left (fun t a => insert_new (key a) (row a) t) l t in
  (forall k r, t !! k = Some r -> t' !! k = Some r) /\ (forall a, a ∈ l -> is_Some (t' !! key a)) /\
  (forall k r, t' !! k = Some r -> t !! k = Some r \/ exists a, a ∈ l /\ k = key a /\ r = row a).
Proof.
  revert t. induction l as [|a l IH]; intros t; cbn; [split_and!; [done|set_solver|by left]|].
  destruct (IH (insert_new (key a) (row a) t)) as (I1 & I2 & I3). split_and!.
  - intros k r Hk. apply I1, insert_new_mono, Hk.
  - intros b [->|Hb]%elem_of_cons; [|by apply I2]. destruct (insert_new_has (key a) (row a) t) as [r Hr].
    exists r. by apply I1.
  - intros k r Hk. apply I3 in Hk as [Hk|(b & Hb & -> & ->)]; [|right; exists b; split_and!; [by right|done..]].
    apply insert_new_Some in Hk as [Hk|(_ & -> & ->)]; [by left|]. right. exists a. split_and!; [by left|done..].
Qed.

Lemma fold_insert_present {K R A} `{Countable K} (key : A -> K) (row : A -> R) (l : list A) (t : gmap K R) :
  Forall (fun a => is_Some (t !! key a)) l -> fold_left (fun t a => insert_new (key a) (row a) t) l t = t.
Proof.
  induction 1 as [|a l [r Hr] _ IH]; [done|]. cbn. unfold insert_new. rewrite Hr. exact IH.
Qed.

Lemma snapshots_Ok seed now alias lo group lo' :
  snapshots seed now alias lo group = Ok lo' -> grows lo lo' /\ Forall (settled seed alias lo') group.
Proof.
  unfold snapshots. intros H. apply bind_Ok in H as (? & Ha%ensure_Ok & H). apply bind_Ok in H as (? & Hc%ensure_Ok & H).
  apply bind_Ok in H as (? & Hs%ensure_Ok & H). injection H as <-.
  rewrite forallb_Forall_iff, Forall_forall in Ha, Hc, Hs. split.
  - split_and!; try done.
    + apply (fold_insert_new (fun s => (se_run_id seed, hs_run_shard s)) (fun _ => mkAdmissionRow alias 1 Open None None now)).
    + cbn. destruct (lo_runs lo !! se_run_id seed) as [r|]; [|done].
      apply (fold_insert_new (fun s => (se_run_id seed, hs_run_shard s)) (snapshot_row seed r)).
  - apply Forall_forall. intros s Hin. specialize (Ha s Hin). specialize (Hc s Hin). specialize (Hs s Hin).
    split_and!; [| |lia]; cbn.
    + destruct (fold_left _ group _ !! _) as [a|]; [by exists a|done].
    + destruct (match lo_runs lo !! _ with Some _ => _ | None => _ end !! _) as [r|]; [by exists r|done].
Qed.

Lemma snapshots_settled seed now alias lo group :
  Forall (settled seed alias lo) group -> snapshots seed now alias lo group = Ok lo.
Proof.
  intros Hall. unfold snapshots.
  assert (Ha : fold_left (admit_shard now (se_run_id seed) alias) group (db_admissions (lo_db lo)) = db_admissions (lo_db lo)).
  { apply (fold_insert_present (fun s => (se_run_id seed, hs_run_shard s)) (fun _ => mkAdmissionRow alias 1 Open None None now)).
    eapply Forall_impl; [exact Hall|]. intros s ((a & ? & _) & _). by exists a. }
  assert (Hs : forall r, fold_left (insert_snapshot seed r) group (db_snapshots (lo_db lo)) = db_snapshots (lo_db lo)).
  { intros r. apply (fold_insert_present (fun s => (se_run_id seed, hs_run_shard s)) (snapshot_row seed r)).
    eapply Forall_impl; [exact Hall|]. intros s (_ & (a & ? & _) & _). by exists a. }
  rewrite Ha. rewrite Forall_forall in Hall.
  rewrite (proj2 (forallb_Forall_iff (fun s => is_some_and (admitted_open alias)
    (db_admissions (lo_db lo) !! (se_run_id seed, hs_run_shard s))) group)); cbn [ensure mbind result_bind].
  2:{ apply Forall_forall. intros s Hin. destruct (Hall s Hin) as ((a & Ea & Hopen) & _).
      cbn in Ea |- *. by rewrite Ea. }
  rewrite (proj2 (forallb_Forall_iff (fun s => 0 <=? hs_case_count s) group)); cbn [ensure mbind result_bind].
  2:{ apply Forall_forall. intros s Hin. destruct (Hall s Hin) as (_ & _ & Hc). lia. }
  assert (Hrows : match lo_runs lo !! se_run_id seed with
                  | Some r => fold_left (insert_snapshot seed r) group (db_snapshots (lo_db lo))
                  | None => db_snapshots (lo_db lo) end = db_snapshots (lo_db lo)) by (by destruct (lo_runs lo !! _)).
  rewrite Hrows. rewrite (proj2 (forallb_Forall_iff _ group)); cbn [ensure mbind result_bind].
  2:{ apply Forall_forall. intros s Hin. destruct (Hall s Hin) as (_ & (r & Er & Hsame) & _).
      cbn in Er |- *. by rewrite Er. }
  destruct lo as [runs versions []]. reflexivity.
Qed.

Definition is_seed_shard (seed : Seed) (n : Z) (h : SeedShard) : Prop := seed_shard seed n = Ok h.

(** One turn of the shard loop either keeps the group or flushes it. *)
Lemma group_shard_Ok seed now alias tb lo g b n lo' g' b' :
  group_shard seed now alias tb (lo, g, b) n = Ok (lo', g', b') ->
  exists h, is_seed_shard seed n h /\
    ((lo' = lo /\ g' = g ++ [h]) \/ (snapshots seed now alias lo g = Ok lo' /\ g' = [h])) /\
    (forall now2 lo2, Forall (settled seed alias lo2) g ->
       group_shard seed now2 alias tb (lo2, g, b) n = Ok (lo2, g', b')).
Proof.
  unfold group_shard. intros H. apply bind_Ok in H as (h & Hh & H). apply bind_Ok in H as (octets & Ho & H).
  apply bind_Ok in H as (size & Hs & H). exists h. split; [done|].
  setoid_rewrite Hh. cbn [mbind result_bind]. setoid_rewrite Ho. cbn [mbind result_bind]. setoid_rewrite Hs.
  cbn [mbind result_bind].
  destruct (negb (bool_decide (g = [])) && _); cbn [mbind result_bind] in *.
  - destruct (snapshots seed now alias lo g) as [lo1|] eqn:Esn; [|discriminate H]. cbn [mbind result_bind] in H.
    apply bind_Ok in H as (b1 & Hb & H). injection H as <- <- <-. split; [by right|].
    intros now2 lo2 Hset. rewrite (snapshots_settled _ _ _ _ _ Hset). cbn [mbind result_bind]. by rewrite Hb.
  - apply bind_Ok in H as (b1 & Hb & H). injection H as <- <- <-. split; [by left|].
    intros now2 lo2 _. by rewrite Hb.
Qed.

Lemma group_shards_Ok seed now alias tb l lo g b lo' g' b' :
  foldM (group_shard seed now alias tb) (lo, g, b) l = Ok (lo', g', b') ->
  exists hs, Forall2 (is_seed_shard seed) l hs /\ grows lo lo' /\
    (forall h, h ∈ g ++ hs -> settled seed alias lo' h \/ h ∈ g') /\ (forall h, h ∈ g' -> h ∈ g ++ hs) /\
    (forall now2 lo2, (forall h, h ∈ g ++ hs -> settled seed alias lo2 h) ->
       foldM (group_shard seed now2 alias tb) (lo2, g, b) l = Ok (lo2, g', b')).
Proof.
  revert lo g b. induction l as [|n l IH]; intros lo g b H.
  { injection H as <- <- <-. exists []. rewrite app_nil_r. split_and!; [constructor|done|by right|done|done]. }
  cbn [foldM] in H. apply bind_Ok in H as ([[lo1 g1] b1] & H1 & H).
  apply group_shard_Ok in H1 as (h & Hh & Hcase & Hre). destruct (IH _ _ _ H) as (hs & H2 & Hg & Hset & Hsub & Hre2).
  exists (h :: hs).
  assert (Hlo : grows lo lo1 /\ (forall x, x ∈ g ++ [h] -> settled seed alias lo1 x \/ x ∈ g1) /\
    (forall x, x ∈ g1 -> x ∈ g ++ [h])).
  { destruct Hcase as [[-> ->]|[Hsn ->]].
    - split_and!; [done|by right|done].
    - apply snapshots_Ok in Hsn as [Hgr Hall]. rewrite Forall_forall in Hall. split_and!; [done| |set_solver].
      intros x [Hx|Hx]%elem_of_app; [left; by apply Hall|by right]. }
  destruct Hlo as (Hgr & Hin & Hsub1). split_and!.
  - by constructor.
  - by transitivity lo1.
  - intros x Hx. assert (Hx' : x ∈ g ++ [h] \/ x ∈ hs) by set_solver. destruct Hx' as [Hx'|Hx'].
    + destruct (Hin x Hx') as [Hs|Hs]; [left; by eapply settled_grows|]. apply Hset. set_solver.
    + apply Hset. set_solver.
  - intros x Hx. specialize (Hsub x Hx). specialize (Hsub1 x). set_solver.
  - intros now2 lo2 Hall. cbn [foldM]. rewrite (Hre now2 lo2); [|apply Forall_forall; intros x Hx; apply Hall; set_solver].
    cbn [mbind result_bind]. apply Hre2. intros x Hx. apply Hall. specialize (Hsub1 x). set_solver.
Qed.

(** ** Chunk rows *)

Definition present (run_id version : Uuid) (t : gmap row_key ChunkRow) (c : RunChunkDraft) : Prop :=
  exists r, t !! chunk_key run_id c = Some r /\ same_chunk version c r = true.

(** What is stored for a chunk: its row, waiting to be dispatched. *)
Definition stored (run_id version : Uuid) (t : gmap row_key ChunkRow) (c : RunChunkDraft) : Prop :=
  exists r, t !! chunk_key run_id c = Some r /\ ch_dataset_version_id r = version /\
    ch_profile_group_id r = kd_profile_group_id c /\ ch_ordinal_start r = kd_ordinal_start c /\
    ch_ordinal_end r = kd_ordinal_end c /\ ch_status r = ChPending /\ ch_dispatched_at r = None.

Lemma present_stored run_id version t c : present run_id version t c -> stored run_id version t c.
Proof.
  intros (r & Hr & Hs). unfold same_chunk in Hs.
  rewrite !andb_true_iff, !Z.eqb_eq, str_eqb_true, bool_decide_eq_true in Hs.
  exists r. destruct (ch_dispatched_at r); naive_solver.
Qed.

Lemma admitted_open_true alias a :
  admitted_open alias a = true -> ad_database_alias a = alias /\ ad_write_epoch a = 1 /\ ad_state a = Open.
Proof. unfold admitted_open. rewrite !andb_true_iff, str_eqb_true, Z.eqb_eq, bool_decide_eq_true. naive_solver. Qed.

(** Rows stay, and new rows are those of the given chunks. *)
Definition extends (now run_id version : Z) (l : list RunChunkDraft) (t t' : gmap row_key ChunkRow) : Prop :=
  (forall k r, t !! k = Some r -> t' !! k = Some r) /\
  (forall k r, t' !! k = Some r -> t !! k = Some r \/
     exists c, c ∈ l /\ k = chunk_key run_id c /\ r = new_chunk now version c /\ chunk_ok r = true).

Lemma extends_refl now run_id version t : extends now run_id version [] t t.
Proof. split; [done|by left]. Qed.

Lemma extends_trans now run_id version l1 l2 t1 t2 t3 :
  extends now run_id version l1 t1 t2 -> extends now run_id version l2 t2 t3 -> extends now run_id version (l1 ++ l2) t1 t3.
Proof.
  intros [A1 A2] [B1 B2]. split; [auto|]. intros k r Hk. apply B2 in Hk as [Hk|(c & Hc & -> & -> & Hok)].
  - apply A2 in Hk as [Hk|(c & Hc & -> & -> & Hok)]; [by left|]. right. exists c. split_and!; [|done..]. set_solver.
  - right. exists c. split_and!; [|done..]. set_solver.
Qed.

Lemma present_mono run_id version t t' c :
  (forall k r, t !! k = Some r -> t' !! k = Some r) -> present run_id version t c -> present run_id version t' c.
Proof. intros Hm (r & Hr & Hs). exists r. auto. Qed.

Lemma same_chunk_new now version c : same_chunk version c (new_chunk now version c) = true.
Proof. unfold same_chunk, new_chunk. cbn. rewrite !Z.eqb_refl, str_eqb_refl. by rewrite bool_decide_true. Qed.

Lemma upsert_chunk_Ok now run_id version runs t c t' :
  upsert_chunk now run_id version runs t c = Ok t' ->
  extends now run_id version [c] t t' /\ present run_id version t' c /\
  (forall now2 t2, present run_id version t2 c -> upsert_chunk now2 run_id version runs t2 c = Ok t2).
Proof.
  unfold upsert_chunk. intros H. apply bind_Ok in H as (? & Hc%ensure_Ok & H). rewrite Hc. split_and!.
  - destruct (t !! chunk_key run_id c) as [r|] eqn:Er.
    + apply bind_Ok in H as (? & _ & [= <-]). split; [done|by left].
    + injection H as <-. split.
      * intros k r Hk. rewrite lookup_insert_ne; [done|]. intros <-. congruence.
      * intros k r. rewrite lookup_insert_Some. intros [[<- <-]|[_ Hk]]; [right|by left].
        exists c. split_and!; [by left|done..|]. unfold chunk_ok, new_chunk. cbn. lia.
  - destruct (t !! chunk_key run_id c) as [r|] eqn:Er.
    + apply bind_Ok in H as (? & Hs%ensure_Ok & [= <-]). by exists r.
    + injection H as <-. exists (new_chunk now version c). rewrite lookup_insert, decide_True by done.
      split; [done|]. apply same_chunk_new.
  - intros now2 t2 (r & Hr & Hs). cbn [ensure mbind result_bind]. rewrite Hr, Hs. done.
Qed.

(** A statement over chunks that leaves them present and accepts them present. *)
Definition seeds (now run_id version : Z)
    (f : Z -> gmap row_key ChunkRow -> result (gmap row_key ChunkRow)) (l : list RunChunkDraft) : Prop :=
  forall t t', f now t = Ok t' ->
    extends now run_id version l t t' /\ Forall (present run_id version t') l /\
    (forall now2 t2, Forall (present run_id version t2) l -> f now2 t2 = Ok t2).

Lemma seeds_fold {A} (now run_id version : Z) (f : Z -> gmap row_key ChunkRow -> A -> result (gmap row_key ChunkRow))
    (part : A -> list RunChunkDraft) (l : list A) :
  (forall a, a ∈ l -> seeds now run_id version (fun now t => f now t a) (part a)) ->
  seeds now run_id version (fun now t => foldM (f now) t l) (concat (map part l)).
Proof.
  induction l as [|a l IH]; intros Hf t t' H.
  { injection H as <-. split_and!; [apply extends_refl|constructor|done]. }
  cbn [foldM] in H. apply bind_Ok in H as (t1 & H1 & H).
  destruct (Hf a ltac:(by left) t t1 H1) as (E1 & P1 & R1).
  destruct (IH ltac:(intros; apply Hf; by right) t1 t' H) as (E2 & P2 & R2). cbn [map concat]. split_and!.
  - by eapply extends_trans.
  - apply Forall_app. split; [|done]. eapply Forall_impl; [exact P1|]. intros c. apply present_mono, E2.
  - intros now2 t2 [Ha Hl]%Forall_app. cbn [foldM]. rewrite (R1 _ _ Ha). cbn [mbind result_bind]. by apply R2.
Qed.

Lemma concat_chunks_of {A} fuel n (l : list A) :
  (0 < n)%nat -> (length l <= fuel)%nat -> concat (chunks_of fuel n l) = l.
Proof.
  intros Hn. revert l. induction fuel as [|fuel IH]; intros [|a l] Hl; cbn [chunks_of concat]; try done; cbn in Hl; [lia|].
  rewrite IH; [by rewrite take_drop|]. rewrite length_drop. cbn. lia.
Qed.

Lemma insert_batch_seeds now run_id version runs l :
  seeds now run_id version (fun now t => insert_batch now run_id version runs t l) l.
Proof.
  intros t t' H. unfold insert_batch in H |- *. apply bind_Ok in H as (? & Hnd%ensure_Ok & H). setoid_rewrite Hnd.
  cbn [ensure mbind result_bind].
  assert (Hs : seeds now run_id version (fun now t => foldM (upsert_chunk now run_id version runs) t l)
    (concat (map (fun c => [c]) l))).
  { apply (seeds_fold now run_id version (fun now => upsert_chunk now run_id version runs)). intros c _ t0 t1 H1.
    apply upsert_chunk_Ok in H1 as (E1 & P1 & R1). split_and!; [done|by constructor|].
    intros now2 t2 Hp%Forall_inv. by apply R1. }
  replace (concat (map (fun c => [c]) l)) with l in Hs by (clear; induction l; cbn; congruence).
  by apply Hs.
Qed.

Lemma bulk_insert_seeds now run_id version runs l :
  seeds now run_id version (fun now t => bulk_insert_run_chunks now run_id version runs t l) l.
Proof.
  unfold bulk_insert_run_chunks.
  pose proof (seeds_fold now run_id version (fun now => insert_batch now run_id version runs) id
    (chunks_of (length l) RUN_CHUNK_INSERT_CHUNK_SIZE l)) as Hs.
  rewrite map_id, concat_chunks_of in Hs; [|unfold RUN_CHUNK_INSERT_CHUNK_SIZE; lia|done].
  apply Hs. intros a _. apply insert_batch_seeds.
Qed.

Lemma group_chunks_Ok (now run_id version : Z) ins row_limit l t p b t' p' b' :
  (forall l, seeds now run_id version (fun now t => ins now t l) l) ->
  foldM (group_chunk (ins now) row_limit) (t, p, b) l = Ok (t', p', b') ->
  exists flushed, flushed ++ p' = p ++ l /\ extends now run_id version flushed t t' /\
    Forall (present run_id version t') flushed /\
    (forall now2 t2, Forall (present run_id version t2) flushed ->
       foldM (group_chunk (ins now2) row_limit) (t2, p, b) l = Ok (t2, p', b')).
Proof.
  intros Hins. revert t p b. induction l as [|c l IH]; intros t p b H.
  { injection H as <- <- <-. exists []. rewrite app_nil_r. split_and!; [done|apply extends_refl|constructor|done]. }
  cbn [foldM] in H. apply bind_Ok in H as ([[t1 p1] b1] & H1 & H). unfold group_chunk in H1.
  apply bind_Ok in H1 as (size & Hsize & H1). apply bind_Ok in H1 as (? & Hcap%ensure_Ok & H1).
  destruct (IH _ _ _ H) as (fl & Happ & Hext & Hpres & Hre).
  assert (Hgo : forall now2 t2, foldM (group_chunk (ins now2) row_limit) (t2, p, b) (c :: l)
    = (if negb (bool_decide (p = [])) && ((zlen p =? Z.min row_limit MAX_CHUNKS) || (CHUNK_GROUP_BYTES <? b + size))
       then t ← ins now2 t2 p; Ok (t, [c], size) else Ok (t2, p ++ [c], b + size))
      ≫= fun st => foldM (group_chunk (ins now2) row_limit) st l).
  { intros now2 t2. cbn [foldM]. f_equal. unfold group_chunk. rewrite Hsize. cbn [mbind result_bind]. by rewrite Hcap. }
  destruct (negb (bool_decide (p = [])) && _).
  - apply bind_Ok in H1 as (t0 & Ht0 & [= <- <- <-]). destruct (Hins p t t0 Ht0) as (E1 & P1 & R1).
    exists (p ++ fl). split_and!.
    + by rewrite <- app_assoc, Happ.
    + by eapply extends_trans.
    + apply Forall_app. split; [|done]. eapply Forall_impl; [exact P1|]. intros d. apply present_mono, Hext.
    + intros now2 t2 [Hp Hf]%Forall_app. rewrite Hgo, (R1 _ _ Hp). cbn [mbind result_bind]. by apply Hre.
  - injection H1 as <- <- <-. exists fl. split_and!; [by rewrite Happ, <- app_assoc|done..|].
    intros now2 t2 Hf. rewrite Hgo. cbn [mbind result_bind]. by apply Hre.
Qed.

(** ** The placement transaction *)

Lemma upsert_version_again versions id dataset version versions' :
  upsert_dataset_version versions id dataset version = Ok versions' ->
  upsert_dataset_version versions' id dataset version = Ok versions'.
Proof.
  unfold upsert_dataset_version. intros H. destruct (versions !! id) as [row|] eqn:Er.
  - apply bind_Ok in H as (? & Hs%ensure_Ok & [= <-]). rewrite Er. cbn. by rewrite Hs.
  - injection H as <-. rewrite lookup_insert, decide_True by done. cbn. rewrite Z.eqb_refl, str_eqb_refl. done.
Qed.

Lemma same_draft_new now draft status : (forall v, jsonb_eqb v v = true) -> same_draft (new_run now draft status) draft status = true.
Proof.
  intros Hrefl. unfold same_draft, new_run, same_context. cbn. rewrite !bool_decide_true by done.
  rewrite !Z.eqb_refl, !str_eqb_refl, Hrefl. done.
Qed.

Lemma insert_run_again runs versions now run_id draft status runs' now' :
  (forall v, jsonb_eqb v v = true) -> insert_run_create runs versions now run_id draft status = Ok runs' ->
  insert_run_create runs' versions now' run_id draft status = Ok runs'.
Proof.
  intros Hrefl. unfold insert_run_create. intros H. destruct (runs !! run_id) as [r|] eqn:Er.
  - apply bind_Ok in H as (? & Hs%ensure_Ok & [= <-]). rewrite Er. cbn. by rewrite Hs.
  - apply bind_Ok in H as (? & _ & [= <-]). rewrite lookup_insert, decide_True by done.
    by rewrite (same_draft_new _ _ _ Hrefl).
Qed.

Lemma bset_elem (l : list Z) n : n ∈ bt_keys (bset l) <-> n ∈ l.
Proof. unfold bset. rewrite bt_collect_keys, map_map. cbn. by rewrite map_id. Qed.

Lemma Forall2_in_r {A B} (P : A -> B -> Prop) l k y : Forall2 P l k -> y ∈ k -> exists x, x ∈ l /\ P x y.
Proof.
  intros H2 [i Hi]%list_elem_of_lookup_1. destruct (Forall2_lookup_r _ _ _ _ _ H2 Hi) as (x & Hx & HP).
  exists x. split; [by eapply list_elem_of_lookup_2|done].
Qed.
Lemma Forall2_in_l {A B} (P : A -> B -> Prop) l k x : Forall2 P l k -> x ∈ l -> exists y, y ∈ k /\ P x y.
Proof.
  intros H2 [i Hi]%list_elem_of_lookup_1. destruct (Forall2_lookup_l _ _ _ _ _ H2 Hi) as (y & Hy & HP).
  exists y. split; [by eapply list_elem_of_lookup_2|done].
Qed.

(** What the snapshot part leaves, and that it may be repeated. *)
Lemma seed_snapshots_Ok seed now alias tb l lo lo1 g b lo' :
  foldM (group_shard seed now alias tb) (lo, [], 0) l = Ok (lo1, g, b) ->
  (if negb (bool_decide (g = [])) then snapshots seed now alias lo1 g else Ok lo1) = Ok lo' ->
  grows lo lo' /\ (exists hs, Forall2 (is_seed_shard seed) l hs /\ Forall (settled seed alias lo') hs) /\
  (forall now2 lo2, (forall n, n ∈ l -> exists h, is_seed_shard seed n h /\ settled seed alias lo2 h) ->
     foldM (group_shard seed now2 alias tb) (lo2, [], 0) l = Ok (lo2, g, b) /\
     (if negb (bool_decide (g = [])) then snapshots seed now2 alias lo2 g else Ok lo2) = Ok lo2).
Proof.
  intros (hs & H2 & Hg & Hset & Hsub & Hre)%group_shards_Ok Hfl. cbn [app] in *.
  assert (Hlast : grows lo1 lo' /\ Forall (settled seed alias lo') g).
  { destruct (bool_decide (g = [])) eqn:Eg; cbn in Hfl.
    - injection Hfl as <-. apply bool_decide_eq_true in Eg as ->. by split.
    - by apply snapshots_Ok in Hfl. }
  destruct Hlast as [Hg' Hall]. split_and!; [by transitivity lo1| |].
  - exists hs. split; [done|]. apply Forall_forall. intros h Hin. rewrite Forall_forall in Hall.
    destruct (Hset h Hin) as [Hs|Hs]; [by eapply settled_grows|by apply Hall].
  - intros now2 lo2 Hall2. assert (Hall3 : forall h, h ∈ hs -> settled seed alias lo2 h).
    { intros h Hin. destruct (Forall2_in_r _ _ _ _ H2 Hin) as (n & Hl & Hn). destruct (Hall2 n Hl) as (h' & Hh' & Hs).
      unfold is_seed_shard in *. congruence. }
    split; [by apply Hre|]. destruct (negb _); [|done]. apply snapshots_settled, Forall_forall. intros h Hin. auto.
Qed.

(** What a committed write leaves, and that it can be repeated. *)
Lemma seed_write_Ok seed now alias status chunks row_limit lo lo' :
  (forall v, jsonb_eqb v v = true) ->
  seed_write seed now alias status chunks row_limit lo = Ok lo' ->
  let run_id := se_run_id seed in
  let version := rc_dataset_version_id (dr_context (se_draft seed)) in
  extends now run_id version chunks (db_chunks (lo_db lo)) (db_chunks (lo_db lo')) /\
  Forall (stored run_id version (db_chunks (lo_db lo'))) chunks /\
  (forall k a, db_admissions (lo_db lo) !! k = Some a -> db_admissions (lo_db lo') !! k = Some a) /\
  (forall c, c ∈ chunks -> exists a, db_admissions (lo_db lo') !! (run_id, kd_run_shard c) = Some a /\
     ad_database_alias a = alias /\ ad_write_epoch a = 1 /\ ad_state a = Open) /\
  (forall now2, seed_write seed now2 alias status chunks row_limit lo' = Ok lo').
Proof.
  intros Hrefl H run_id version. unfold seed_write in H. apply bind_Ok in H as (u1 & Hb & H).
  apply bind_Ok in H as (u2 & Hlock & H). apply bind_Ok in H as (versions & Hv & H). apply bind_Ok in H as (runs & Hr & H).
  apply bind_Ok in H as (tb & Htb & H). apply bind_Ok in H as ([[lo1 g] b] & Hgr & H).
  apply bind_Ok in H as (lo2 & Hfl & H). apply bind_Ok in H as ([[t1 pend] b1] & Hch & H).
  apply bind_Ok in H as (t & Hins & H). injection H as <-. cbn [fst snd] in Hins.
  destruct (seed_snapshots_Ok _ _ _ _ _ _ _ _ _ _ Hgr Hfl) as (Hg & (hs & H2 & Hset) & Hre).
  destruct Hg as (G1 & G2 & G3 & G4 & G5 & G6). cbn [set_runs lo_runs lo_versions lo_db db_runs db_chunks db_admissions] in *.
  rewrite G1 in Hch, Hins.
  apply (group_chunks_Ok now run_id version (fun now => bulk_insert_run_chunks now run_id version runs)) in Hch as
    (fl & Happ & E1 & P1 & R1); [|intros; apply bulk_insert_seeds].
  destruct (bulk_insert_seeds now run_id version runs pend t1 t Hins) as (E2 & P2 & R2). cbn [app] in Happ.
  assert (Hall : Forall (present run_id version t) chunks).
  { rewrite <- Happ. apply Forall_app. split; [|done]. eapply Forall_impl; [exact P1|]. intros d. apply present_mono, E2. }
  rewrite Forall_forall in Hset. split_and!; cbn [lo_db with_chunks db_chunks db_admissions].
  - rewrite <- Happ, <- G4. by eapply extends_trans.
  - eapply Forall_impl; [exact Hall|]. intros d. apply present_stored.
  - exact G5.
  - intros c Hc. assert (Hn : kd_run_shard c ∈ bt_keys (bset (map kd_run_shard chunks)))
      by (apply bset_elem, list_elem_of_fmap; eauto).
    destruct (Forall2_in_l _ _ _ _ H2 Hn) as (h & Hh & Hseed). destruct (Hset h Hh) as ((a & Ha & Hopen) & _).
    exists a. split; [|by apply admitted_open_true]. unfold is_seed_shard, seed_shard in Hseed.
    apply bind_Ok in Hseed as (? & _ & Hseed). apply bind_Ok in Hseed as (? & _ & Hseed). injection Hseed as <-. exact Ha.
  - intros now2. unfold seed_write. rewrite Hb. cbn [mbind result_bind]. rewrite Hlock. cbn [mbind result_bind lo_versions lo_runs].
    rewrite G1, G2. rewrite (upsert_version_again _ _ _ _ _ Hv). cbn [mbind result_bind].
    rewrite (insert_run_again _ _ _ _ _ _ _ now2 Hrefl Hr). cbn [mbind result_bind].
    set (lo3 := set_runs _ versions runs).
    assert (Hlo3 : lo3 = mkLocal runs versions (with_chunks (lo_db lo2) t)).
    { unfold lo3, set_runs. cbn. f_equal. unfold with_chunks. rewrite <- G3. by destruct (lo_db lo2). }
    rewrite Hlo3, Htb. cbn [mbind result_bind].
    destruct (Hre now2 (mkLocal runs versions (with_chunks (lo_db lo2) t))) as [Hf1 Hf2].
    { intros n Hn. destruct (Forall2_in_l _ _ _ _ H2 Hn) as (h & Hh & Hseed). exists h. split; [done|].
      exact (Hset h Hh). }
    rewrite Hf1. cbn [mbind result_bind]. rewrite Hf2. cbn [mbind result_bind lo_runs lo_db with_chunks db_chunks].
    rewrite R1. 2:{ rewrite <- Happ in Hall. by apply Forall_app in Hall as [? _]. }
    cbn [mbind result_bind fst snd]. rewrite R2; [done|]. rewrite <- Happ in Hall. by apply Forall_app in Hall as [_ ?].
Qed.

(** C14: A placement transaction is exact and exactly repeatable.  When it
    commits, every chunk it was given is stored, pending and undispatched, with
    its range; rows that were there are untouched and the only new rows are those
    chunks; every shard it touches is admitted, open in epoch 1 under this
    database's name; and running it again with the same inputs at any later time
    succeeds and changes nothing, so a lost acknowledgement is harmless. *)
Theorem seed_write_exact seed now alias status chunks row_limit lo lo' :
  (forall v, jsonb_eqb v v = true) ->
  seed_write seed now alias status chunks row_limit lo = Ok lo' ->
  let run_id := se_run_id seed in
  let version := rc_dataset_version_id (dr_context (se_draft seed)) in
  extends now run_id version chunks (db_chunks (lo_db lo)) (db_chunks (lo_db lo')) /\
  Forall (stored run_id version (db_chunks (lo_db lo'))) chunks /\
  (forall k a, db_admissions (lo_db lo) !! k = Some a -> db_admissions (lo_db lo') !! k = Some a) /\
  (forall c, c ∈ chunks -> exists a, db_admissions (lo_db lo') !! (run_id, kd_run_shard c) = Some a /\
     ad_database_alias a = alias /\ ad_write_epoch a = 1 /\ ad_state a = Open) /\
  (forall now2, seed_write seed now2 alias status chunks row_limit lo' = Ok lo').
Proof. apply seed_write_Ok. Qed.
End seed.

(** The transaction keeps the run rows it finds. *)
Lemma seed_write_runs {LF : LedgerFunctions} {HF : SeedFunctions} seed now alias status chunks row_limit lo lo' :
  seed_write seed now alias status chunks row_limit lo = Ok lo' ->
  forall id r, lo_runs lo !! id = Some r -> lo_runs lo' !! id = Some r.
Proof.
  unfold seed_write. intros H. do 3 (apply bind_Ok in H as (? & _ & H)). apply bind_Ok in H as (runs & Hr & H).
  apply bind_Ok in H as (tb & _ & H). apply bind_Ok in H as ([[lo1 g] b] & Hgr & H).
  apply bind_Ok in H as (lo2 & Hfl & H). do 2 (apply bind_Ok in H as (? & _ & H)). injection H as <-.
  destruct (seed_snapshots_Ok _ _ _ _ _ _ _ _ _ _ Hgr Hfl) as ((G1 & _) & _). cbn [lo_runs] in *. rewrite G1.
  cbn [set_runs lo_runs]. unfold insert_run_create in Hr. intros id r Hid.
  destruct (lo_runs lo !! se_run_id seed) as [r0|] eqn:E0.
  - apply bind_Ok in Hr as (? & _ & [= <-]). done.
  - apply bind_Ok in Hr as (? & _ & [= <-]). rewrite lookup_insert_ne; [done|]. congruence.
Qed.

(** ** Reading a database back page by page *)

Lemma pos_ltb_iff a b : pos_ltb a b = true <->
  a.1.1 < b.1.1 \/ (a.1.1 = b.1.1 /\ (a.1.2 < b.1.2 \/ (a.1.2 = b.1.2 /\ a.2 < b.2))).
Proof. unfold pos_ltb. lia. Qed.

#[global] Instance by_position_trans : Transitive by_position.
Proof. intros x y z. unfold by_position, pos_ltb. lia. Qed.
#[global] Instance by_position_total : Total by_position.
Proof. intros x y. unfold by_position, pos_ltb. lia. Qed.

Definition position_lt (x y : row_key * ChunkRow) : Prop := pos_ltb (plan_position x) (plan_position y) = true.

Lemma elem_of_placement_rows lo run_id shards after k r :
  (k, r) ∈ placement_rows lo run_id shards after <->
  db_chunks (lo_db lo) !! k = Some r /\ k.1.1 = run_id /\ k.1.2 ∈ shards /\ pos_ltb after (plan_position (k, r)) = true.
Proof.
  unfold placement_rows. rewrite merge_sort_Permutation, elem_of_map_to_list, lookup_rows_where.
  rewrite !andb_true_iff, bool_decide_eq_true, Z.eqb_eq. tauto.
Qed.

Lemma strictly_sorted (l : list (row_key * ChunkRow)) run_id :
  StronglySorted by_position l -> NoDup (l.*1) -> Forall (fun kr => kr.1.1.1 = run_id) l -> StronglySorted position_lt l.
Proof.
  induction 1 as [|[k c] l Hs IH Hall]; intros Hnd Hr; [constructor|].
  cbn in Hnd. apply NoDup_cons in Hnd as [Hn Hnd]. apply Forall_cons in Hr as [Hk Hr]. constructor; [by apply IH|].
  rewrite Forall_forall in *. intros [k' c'] Hin. specialize (Hall _ Hin). specialize (Hr _ Hin).
  assert (Hne : k <> k') by (intros ->; apply Hn, list_elem_of_fmap; by exists (k', c')).
  destruct k as [[k1 k2] k3], k' as [[k1' k2'] k3']. unfold by_position, position_lt, plan_position in *. cbn in *. subst.
  unfold pos_ltb in *. cbn in *. assert (~ (k2 = k2' /\ k3 = k3')) by (intros [-> ->]; done). lia.
Qed.

Lemma placement_rows_sorted lo run_id shards after : StronglySorted position_lt (placement_rows lo run_id shards after).
Proof.
  apply (strictly_sorted _ run_id).
  - apply (StronglySorted_merge_sort by_position).
  - unfold placement_rows. rewrite merge_sort_Permutation. apply NoDup_fst_map_to_list.
  - apply Forall_forall. intros [k r] (_ & Hk & _)%elem_of_placement_rows. done.
Qed.

Lemma positions_unique l1 l2 :
  StronglySorted position_lt l1 -> StronglySorted position_lt l2 -> (forall x, x ∈ l1 <-> x ∈ l2) -> l1 = l2.
Proof.
  assert (Hnd : forall l, StronglySorted position_lt l -> NoDup l).
  { induction 1 as [|c l _ IH Hall]; constructor; [|done]. intros Hin. rewrite Forall_forall in Hall.
    specialize (Hall _ Hin). unfold position_lt, pos_ltb in Hall. lia. }
  intros H1 H2 Hiff. apply (StronglySorted_unique_strong position_lt); try done.
  - unfold position_lt, pos_ltb. intros x y _ _ Hxy Hyx. lia.
  - apply NoDup_Permutation; auto.
Qed.

(** The rows after the last of a page are the rows the page left. *)
Lemma placement_rows_next lo run_id shards after n x :
  last (take n (placement_rows lo run_id shards after)) = Some x ->
  placement_rows lo run_id shards after
  = take n (placement_rows lo run_id shards after) ++ placement_rows lo run_id shards (plan_position x).
Proof.
  intros Hx. set (R := placement_rows lo run_id shards after) in *.
  assert (Hs : StronglySorted position_lt (take n R ++ drop n R)) by (rewrite take_drop; apply placement_rows_sorted).
  apply StronglySorted_app in Hs as (H12 & _ & Hrest). rewrite <- (take_drop n R) at 1. f_equal.
  assert (HxR : x ∈ take n R).
  { apply last_Some in Hx as [l' ->]. set_solver. }
  apply positions_unique; [done|apply placement_rows_sorted|]. intros [k r]. rewrite elem_of_placement_rows. split.
  - intros Hin. assert (HR : (k, r) ∈ R) by (rewrite <- (take_drop n R); set_solver).
    apply elem_of_placement_rows in HR as (? & ? & ? & _). split_and!; try done. by apply H12.
  - intros (Hk & Hr & Hsh & Hlt). assert (HR : (k, r) ∈ R).
    { apply elem_of_placement_rows. split_and!; try done.
      assert (Hx' : x ∈ R) by (rewrite <- (take_drop n R); set_solver). destruct x as [kx rx].
      apply elem_of_placement_rows in Hx' as (_ & _ & _ & Hax). rewrite pos_ltb_iff in *. lia. }
    rewrite <- (take_drop n R) in HR. apply elem_of_app in HR as [HR|HR]; [exfalso|done].
    apply last_Some in Hx as [l' Hl']. rewrite Hl' in HR. apply elem_of_app in HR as [HR|HR%list_elem_of_singleton].
    + assert (Hs : StronglySorted position_lt (l' ++ [x])).
      { rewrite <- Hl'. assert (Hs : StronglySorted position_lt (take n R ++ drop n R))
          by (rewrite take_drop; apply placement_rows_sorted). by apply StronglySorted_app in Hs as (_ & ? & _). }
      apply StronglySorted_app in Hs as (H' & _ & _). specialize (H' _ x HR ltac:(set_solver)).
      unfold position_lt in H'. rewrite pos_ltb_iff in *. lia.
    + subst. rewrite pos_ltb_iff in Hlt. lia.
Qed.

(** The rows of one shard among them are the shard's chunks in planned order. *)
Lemma placement_rows_shard lo run_id shards s :
  (forall k r, db_chunks (lo_db lo) !! k = Some r -> 0 <= ch_ordinal_start r) -> 0 <= s -> s ∈ shards ->
  List.filter (fun c => ci_run_shard c =? s) (map identity_of (placement_rows lo run_id shards (-1, -1, 0)))
  = shard_chunks (lo_db lo) run_id s.
Proof.
  intros Hstart Hs Hin. apply identities_unique; [|apply shard_chunks_sorted|].
  - assert (Hsort := placement_rows_sorted lo run_id shards (-1, -1, 0)).
    induction Hsort as [|[[[k1 k2] k3] r] l _ IH Hall]; [constructor|]. cbn [map List.filter].
    destruct (ci_run_shard (identity_of _) =? s) eqn:Ec; [|exact IH]. constructor; [exact IH|].
    apply Forall_forall. intros c [Hc Hcs]%elem_of_lfilter. apply list_elem_of_fmap in Hc as ([[[k1' k2'] k3'] r'] & -> & Hin').
    rewrite Forall_forall in Hall. specialize (Hall _ Hin'). unfold position_lt in Hall. rewrite pos_ltb_iff in Hall.
    unfold identity_of, ident_lt in *. cbn in *. lia.
  - intros c. rewrite elem_of_lfilter, elem_of_shard_chunks, list_elem_of_fmap. split.
    + intros [([[[k1 k2] k3] r] & -> & (Hk & Hr & _)%elem_of_placement_rows) Hcs]. cbn in *.
      assert (k2 = s) as -> by lia. subst k1. by exists r.
    + intros (row & Hrow & Hc). split.
      * exists ((run_id, s, ci_chunk_id c), row). split; [exact Hc|]. apply elem_of_placement_rows. cbn.
        split_and!; try done. unfold pos_ltb. cbn. specialize (Hstart _ _ Hrow). lia.
      * rewrite Hc. cbn. lia.
Qed.

(** ** Seeding one chunk into an empty database *)

Module SeedSample.
#[local] Instance ledger_functions : LedgerFunctions := {|
  jsonb_eqb := fun _ _ => true;
  objects_to_vec := fun _ => Ok "[]";
  execution_plan_to_vec := fun _ => Ok "{}";
  reference_octets := fun _ => 100;
  reference_value := fun _ => Null;
  ledger_shard_text := fun _ => "0";
  ledger_uuid_text := fun _ => "run";
  chars_take := fun _ s => s
|}.
#[local] Instance seed_functions : SeedFunctions := {|
  value_octets := fun _ => Ok 100;
  shard_octets := fun _ => Ok 100;
  chunk_octets := fun _ => Ok 100;
  manifest_value := fun m => Str (mn_hash m)
|}.
Definition draft : RunDraft :=
  mkRunDraft None None
    (mkRunContext "run-5" 9 6 "1" "profile" "1" "p1" "ph" "policy" "1" "ah" "http" "agent" None "c" "1" (Object [])) 1.
Definition chunk : RunChunkDraft := mkRunChunkDraft 3 0 "default" 0 1.
Definition seed : Seed := mkSeed 5 draft (Object []) [(0, mkManifest 1 1 "h" (Some (mkChunkIdentity 3 0 0 1)))] [(0, Object [])].
Definition empty_local : Local := mkLocal ∅ ∅ (mkDatabase ∅ ∅ ∅ ∅ ∅ (mkEvidence ∅ ∅) ∅ ∅ ∅ ∅ ∅ ∅).
Definition written : result Local := seed_write seed 1 "main" RunPending [chunk] 10 empty_local.

Lemma written_some : exists lo, written = Ok lo.
Proof.
  assert (H : match written with Ok _ => true | Err _ => false end = true) by (vm_compute; reflexivity).
  destruct written as [lo|]; [by exists lo|discriminate H].
Qed.

Lemma any_equal v : jsonb_eqb v v = true.
Proof. reflexivity. Qed.

Lemma seed_write_exact_witness : exists lo, written = Ok lo /\ Forall (stored 5 6 (db_chunks (lo_db lo))) [chunk] /\
  seed_write seed 9 "main" RunPending [chunk] 10 lo = Ok lo.
Proof.
  destruct written_some as [lo Hlo]. exists lo.
  destruct (seed_write_exact seed 1 "main" RunPending [chunk] 10 empty_local lo any_equal Hlo) as
    (_ & Hp & _ & _ & Hagain).
  exact (conj Hlo (conj Hp (Hagain 9))).
Defined.
End SeedSample.
