(* ===== verification/RunAdmission.v ===== *)
(** * Admitting a published plan to its execution databases

    src/vigilo/src/run_admission.rs and its lease clock
    src/vigilo/src/run_admission/lease.rs: the chunks of a published plan are
    seeded page by page into the databases they are placed on, each page is
    acknowledged in the control database, the databases are read back, and only
    then the run is activated.

    Admission is a program over a [World]: the control database, the execution
    databases by alias, and the instant at which the lease is next renewed.  Each
    awaited operation takes one turn; [now_at] is the clock at a turn and
    [fault_at] says whether the operation fails there, before or after its
    effect: a deadline, a cancellation, a lost connection or a lost
    acknowledgement.  Plan files are immutable, so reading one is the function
    [read_bytes] of [RunReader].  [None] is a loop that ran out of fuel. *)

From Stdlib Require Import ZArith Lia ZifyBool Sorted.
From stdpp Require Import base strings pretty numbers gmap sorting relations sets option list.
From S2P Require Import Prelude Prog Float64 BTree Text Json RunTypes StorageFormats Codec Identity CaseReader.
From S2P Require Import ShardTables ReceiptGates Settlement ShardSummary ControlTables RunPlanning RunReader.
From S2P Require Import PlanLedger PlanLifecycle LocalSeed.

Open Scope Z_scope.

Record World := mkWorld {
  aw_control : Control;
  aw_locals : gmap string Local;
  aw_turn : nat;
  aw_next_renewal : Z
}.

Definition set_turn (w : World) (turn : nat) : World := mkWorld (aw_control w) (aw_locals w) turn (aw_next_renewal w).
Definition set_control (w : World) (c : Control) : World := mkWorld c (aw_locals w) (aw_turn w) (aw_next_renewal w).
Definition set_renewal (w : World) (t : Z) : World := mkWorld (aw_control w) (aw_locals w) (aw_turn w) t.

Notation prog := (Prog.prog World).

(** [run_creation::Config] *)
Record Config := mkConfig { cf_case_batch_size : Z; cf_case_page_budget : Z }.

Definition RENEW_AFTER : Z := 60 * second.

Section admission.
Context {LF : LedgerFunctions} {HF : SeedFunctions} {RF : ReceiptFunctions} {SUF : SummaryFunctions}.
Context `{E : Encoding} `{SP : Serde IndexPage} `{SK : Serde RunChunkPage} `{SG : Serde GateCountPage}.
Variable read_bytes : ObjectRef -> result string.
(** [serde_json::to_value(&reader.limits)]. *)
Variable limits_value : FormatLimits -> Value.
Variable control_alias : string.
Variable dbs : databases.
Variable now_at : nat -> Z.
Variable fault_at : nat -> Fault.
Variable cancelled_at : nat -> bool.

(** One awaited operation. *)
Definition operation {A} (f : Z -> World -> result (World * A)) : prog A := fun w =>
  let w1 := set_turn w (S (aw_turn w)) in attempt (fault_at (aw_turn w)) (f (now_at (aw_turn w)) w1) w1.

(** A transaction of the control database. *)
Definition control {A} (f : Z -> Control -> result (Control * A)) : prog A :=
  operation (fun now w => st ← f now (aw_control w); Ok (set_control w st.1, st.2)).

(** The execution database of an alias; that of the control alias shares the
    [runs] of the control database. *)
Definition local_at (w : World) (alias : string) : option Local :=
  (fun lo => if str_eqb alias control_alias then mkLocal (cd_runs (aw_control w)) (lo_versions lo) (lo_db lo) else lo)
  <$> aw_locals w !! alias.

Definition put_local (w : World) (alias : string) (lo : Local) : World :=
  let c := if str_eqb alias control_alias then with_runs (aw_control w) (lo_runs lo) else aw_control w in
  mkWorld c (<[alias := lo]> (aw_locals w)) (aw_turn w) (aw_next_renewal w).

(** ** The lease clock (lease.rs) *)

Definition budget (lease : Lease) : prog unit := fun w =>
  let now := now_at (aw_turn w) in
  if aw_next_renewal w <=? now then
    (_ ⇐ control (fun now c => c ← renew_admission c now lease; Ok (c, tt));
     fun w => Some (set_renewal w (now + RENEW_AFTER), Ok tt)) w
  else Some (w, Ok tt).

(** A bounded operation on an execution database. *)
Definition database {A} (lease : Lease) (f : Z -> World -> result (World * A)) : prog A :=
  _ ⇐ budget lease; operation f.

(** ** What the plan says *)

(** [snapshot[key] = value]: null becomes an object; other values panic. *)
Definition json_set (key : string) (value v : Value) : result Value :=
  match v with
  | Object fields => Ok (Object (bt_insert key value fields))
  | Null => Ok (Object [(key, value)])
  | _ => Err "cannot access key in JSON value"
  end.

Definition draft_of_run (r : RunRow) : RunDraft :=
  mkRunDraft (rw_name r) (rw_description r) (rw_context r) (rw_expected_execution_count r).

(** The manifest of a shard as the frozen scheduling policy gives it. *)
Definition expected_manifest (run_id : Uuid) (case_count : Z) (s : RunPlanShard) : result Manifest :=
  let last_index := sp_run_shard s + (sp_chunk_count s - 1) * 128 in
  id ← uuid_from_json (chunk_id_value ledger_uuid_text run_id last_index);
  Ok (mkManifest (sp_chunk_count s) (sp_case_count s) (sp_planned_chunk_hash s)
        (Some (mkChunkIdentity id (sp_run_shard s) (last_index * 100) (Z.min ((last_index + 1) * 100) case_count)))).

(** [while let Some(reference) = chain.next()]. *)
Fixpoint read_gates (fuel : nat) (lease : Lease) (limits : FormatLimits) (chain : GateCountChainValidator)
    (counts : btree string Z) : prog (GateCountChainValidator * btree string Z) :=
  match gv_next chain with
  | None => pret (chain, counts)
  | Some reference =>
      match fuel with
      | O => fun _ => None
      | S fuel' =>
          _ ⇐ budget lease;
          page ⇐ operation (fun _ w => page ← document (T := GateCountPage) read_bytes reference limits; Ok (w, page));
          chain ⇐ lift (chain_accept chain reference page limits);
          read_gates fuel' lease limits chain
            (fold_left (fun m e => bt_insert (gc_gate_id e) (gc_planned_count e) m) (gp_entries page) counts)
      end
  end.

Definition gate_ids_match (gates : list Value) (counts : btree string Z) : bool :=
  (zlen gates =? zlen counts)
  && forallb (fun g => is_some_and (fun id => bt_mem id counts) (as_str (ShardSummary.json_index "id" g))) gates.

Definition counts_value (counts : btree string Z) : Value :=
  Object (map (fun kv => (kv.1, Num (number_of_i64 kv.2))) counts).

(** The loop over the shards of the manifest. *)
Definition read_shard (fuel : nat) (lease : Lease) (run_id : Uuid) (reader : RunReader) (gates : list Value)
    (st : btree Z Value * btree Z Manifest) (s : RunPlanShard) : prog (btree Z Value * btree Z Manifest) :=
  manifest ⇐ lift (expected_manifest run_id (dm_case_count (rr_dataset reader)) s);
  _ ⇐ lift (ensure (gd_entry_count (sp_gate_counts s) <=? 64) "too many gate counts");
  chain ⇐ lift (chain_new (sp_gate_counts s) (sp_run_shard s) (sp_case_count s) (rr_limits reader));
  read ⇐ read_gates fuel lease (rr_limits reader) chain [];
  _ ⇐ lift (chain_finish read.1);
  _ ⇐ lift (ensure (gate_ids_match gates read.2) "gate counts differ from configuration");
  pret (bt_insert (sp_run_shard s) (counts_value read.2) st.1, bt_insert (sp_run_shard s) manifest st.2).

(** ** Seeding pages *)

(** The checks on one chunk of a page, its shard's manifest and its database. *)
Definition place_chunk (run_id : Uuid) (case_count : Z) (assignments : list RunShardPlacementAssignment)
    (st : btree Z Manifest * btree string (list RunChunkDraft)) (c : RunChunk)
    : result (btree Z Manifest * btree string (list RunChunkDraft)) :=
  let '(state, placements) := st in
  id ← uuid_from_json (chunk_id_value ledger_uuid_text run_id (rc_chunk_index c));
  _ ← ensure ((rc_run_shard c =? rc_chunk_index c mod 128) && (rc_ordinal_start c =? rc_chunk_index c * 100)
              && (rc_ordinal_end c =? Z.min ((rc_chunk_index c + 1) * 100) case_count) && (rc_chunk_id c =? id))
        "chunk differs from frozen scheduling policy";
  a ← ok_or (find (fun a => pa_run_shard a =? rc_run_shard c) assignments) "unassigned chunk shard";
  m ← manifest_push (default default_manifest (bt_get (rc_run_shard c) state)) (chunk_identity c);
  let chunks := default [] (bt_get (pa_database_alias a) placements) in
  Ok (bt_insert (rc_run_shard c) m state,
      bt_insert (pa_database_alias a)
        (chunks ++ [mkRunChunkDraft (rc_chunk_id c) (rc_run_shard c) (rc_profile_group_id c) (rc_ordinal_start c)
                      (rc_ordinal_end c)]) placements).

(** The local transaction of one database. *)
Definition seed_placement (lease : Lease) (seed : Seed) (row_limit : Z) (_ : unit) (p : string * list RunChunkDraft)
    : prog unit :=
  database lease (fun now w =>
    lo ← ok_or (local_at w p.1) "execution database is not configured";
    lo ← seed_write seed now p.1 (if str_eqb p.1 control_alias then RunCreating else RunPending) p.2 row_limit lo;
    Ok (put_local w p.1 lo, tt)).

Record AdmitContext := mkAdmitContext {
  ax_run_id : Uuid;
  ax_plan : PlanRow;
  ax_reader : RunReader;
  ax_config : Config;
  ax_lease : Lease;
  ax_seed : Seed
}.

Definition check_page (x : AdmitContext) (next : Z) (entry : IndexEntry) (bytes : string) : result RunChunkPage :=
  verified ← ObjectRef_verify blake3_hex (ie_object entry) bytes (rr_limits (ax_reader x));
  page ← decode (T := RunChunkPage) verified;
  _ ← doc_validate page (rr_limits (ax_reader x));
  _ ← ensure ((cp_run_id page =? ax_run_id x) && (cp_chunk_index_start page =? ie_range_start entry)
              && (cp_chunk_index_end page =? ie_range_end entry) && (cp_chunk_index_start page =? next))
        "admission chunk page is not contiguous";
  Ok page.

(** [for _ in 0..config.case_page_budget]. *)
Fixpoint admit_pages (pages fuel : nat) (x : AdmitContext) (cursor : IndexCursor) (next : Z) (state : btree Z Manifest)
    : prog (btree Z Manifest) :=
  match pages with
  | O => pret state
  | S pages' =>
      _ ⇐ budget (ax_lease x);
      match cursor_next read_bytes fuel (rr_limits (ax_reader x)) cursor with
      | None => fun _ => None
      | Some read =>
          item ⇐ operation (fun _ w => r ← read; Ok (w, r));
          match item.2 with
          | None => pret state
          | Some (entry, bytes) =>
              page ⇐ lift (check_page x next entry bytes);
              st ⇐ lift (foldM (place_chunk (ax_run_id x) (dm_case_count (rr_dataset (ax_reader x)))
                                  (pl_assignments (ax_plan x))) (state, []) (StorageFormats.cp_chunks page));
              _ ⇐ pfold (seed_placement (ax_lease x) (ax_seed x) (Z.max (Z.quot (cf_case_batch_size (ax_config x)) 100) 1))
                    tt st.2;
              _ ⇐ control (fun now c => c ← acknowledge_admission c now (ax_lease x) next (cp_chunk_index_end page) st.1;
                                        Ok (c, tt));
              if cp_chunk_index_end page =? pm_chunk_count (rr_manifest (ax_reader x)) then pret st.1
              else admit_pages pages' fuel x item.1 (cp_chunk_index_end page) st.1
          end
      end
  end.

(** ** Reading the databases back *)

Definition verify_item (actual : btree Z Manifest) (item : ChunkIdentity * bool) : result (btree Z Manifest) :=
  let '(c, valid) := item in
  _ ← ensure valid "local chunk immutable metadata or admission changed";
  m ← with_context "local chunk coverage is invalid"
        (manifest_push (default default_manifest (bt_get (ci_run_shard c) actual)) c);
  Ok (bt_insert (ci_run_shard c) m actual).

Definition item_position (item : ChunkIdentity * bool) : Z * Z * Z :=
  (ci_run_shard item.1, ci_ordinal_start item.1, ci_chunk_id item.1).

(** [loop] over the pages of a database. *)
Fixpoint verify_pages (fuel : nat) (x : AdmitContext) (version : Uuid) (alias : string) (shards : list Z)
    (after : Z * Z * Z) (actual : btree Z Manifest) : prog (btree Z Manifest) :=
  match fuel with
  | O => fun _ => None
  | S fuel' =>
      page ⇐ database (ax_lease x) (fun _ w =>
               lo ← ok_or (local_at w alias) "execution database is not configured";
               page ← read_chunks lo (ax_run_id x) version alias shards after;
               Ok (w, page));
      match last page with
      | None => pret actual
      | Some item =>
          actual ⇐ lift (foldM verify_item actual page);
          verify_pages fuel' x version alias shards (item_position item) actual
      end
  end.

Definition verify_placement (fuel : nat) (x : AdmitContext) (version : Uuid) (_ : unit) (p : string * list Z) : prog unit :=
  let shards := sort_z p.2 in
  actual ⇐ verify_pages fuel x version p.1 shards (-1, -1, 0) [];
  lift (ensure ((zlen actual =? zlen shards)
                && forallb (fun s => bool_decide (bt_get s actual = bt_get s (se_expected (ax_seed x)))) shards)
          "local placement has incomplete or unexpected chunk membership").

(** The shards of each database. *)
Definition placement_shards (assignments : list RunShardPlacementAssignment) : btree string (list Z) :=
  fold_left (fun m a => bt_insert (pa_database_alias a)
               (default [] (bt_get (pa_database_alias a) m) ++ [pa_run_shard a]) m) assignments [].

(** ** Admission *)

Definition load_plan (run_id : Uuid) : prog PlanRow :=
  control (fun _ c => p ← ok_or (cd_plans c !! run_id) "plan disappeared"; Ok (c, p)).

(** The inputs a lease holder reads and checks before it writes anything. *)
Definition admit_seed (fuel : nat) (run_id : Uuid) (plan : PlanRow) (reader : RunReader) (lease : Lease) : prog Seed :=
  hash ⇐ lift (execution_plan_hash (pl_execution_plan plan));
  _ ⇐ lift (ensure (str_eqb (pm_execution_plan_hash (rr_manifest reader)) hash) "published evaluator identity changed");
  draft ⇐ control (fun _ c =>
            r ← ok_or (cd_runs c !! run_id) "no rows returned";
            _ ← ensure (bool_decide (rw_status r = RunCreating)) "no rows returned";
            Ok (c, draft_of_run r));
  _ ⇐ lift (ensure (str_eqb (rc_profile_hash (dr_context draft)) (pm_profile_hash (rr_manifest reader))
                    && str_eqb (rc_aggregation_policy_hash (dr_context draft)) (pm_aggregation_policy_hash (rr_manifest reader))
                    && (rc_dataset_version_id (dr_context draft) =? dm_dataset_version_id (rr_dataset reader)))
              "control run differs from published plan");
  let gates := default (Array []) (json_pointer ["profile"; "scorecard"; "gates"] (rcf_snapshot (rr_configuration reader))) in
  gate_ids ⇐ lift (ok_or (as_array gates) "gate configuration is not an array");
  snapshot ⇐ lift (v ← json_set "storage_limits" (limits_value (rr_limits reader)) (rc_config_snapshot (dr_context draft));
                   json_set "profile" (Object [("scorecard", Object [("gates", gates)])]) v);
  (* the lease clock starts here *)
  _ ⇐ (fun w => Some (set_renewal w (now_at (aw_turn w)), Ok tt));
  read ⇐ pfold (read_shard fuel lease run_id reader gate_ids) ([], []) (pm_shards (rr_manifest reader));
  _ ⇐ lift (ensure ((zlen read.2 =? zlen (pl_assignments plan))
                    && forallb (fun a => bt_mem (pa_run_shard a) read.2) (pl_assignments plan))
              "placement assignments differ from plan");
  pret (mkSeed run_id draft snapshot read.2 read.1).

Definition admit_run (fuel : nat) (run_id : Uuid) (plan : PlanRow) (reader : RunReader) (config : Config) (lease : Lease)
    : prog bool :=
  seed ⇐ admit_seed fuel run_id plan reader lease;
  let x := mkAdmitContext run_id plan reader config lease seed in
  fresh ⇐ load_plan run_id;
  state ⇐ (if pl_admission_cursor fresh <? pl_chunk_cursor fresh then
             cursor ⇐ lift (cursor_new (pm_chunks (rr_manifest reader)) RunChunksKind (pl_admission_cursor fresh)
                              (pm_chunk_count (rr_manifest reader)));
             admit_pages (Z.to_nat (cf_case_page_budget config)) fuel x cursor (pl_admission_cursor fresh)
               (pl_admission_state fresh)
           else pret (pl_admission_state fresh));
  fresh ⇐ load_plan run_id;
  if negb (pl_admission_cursor fresh =? pl_chunk_cursor fresh) then pret false
  else
    _ ⇐ lift (ensure (bool_decide (state = se_expected seed)) "admitted membership differs from frozen plan");
    _ ⇐ pfold (verify_placement fuel x (rc_dataset_version_id (dr_context (se_draft seed)))) tt
          (placement_shards (pl_assignments plan));
    _ ⇐ (fun w => Some (w, ensure (negb (cancelled_at (aw_turn w))) "run admission cancelled"));
    _ ⇐ operation (fun now w => c ← activate (aw_control w) dbs now lease (se_expected seed);
                                Ok (set_control w c, tt));
    pret true.

(** [with_claim]: the lease around the work, given up unless the run was activated. *)
Definition with_claim (run_id : Uuid) (plan : PlanRow) (owner : Uuid) (work : Lease -> prog bool) : prog bool :=
  _ ⇐ (if pl_execution_requested plan then pret tt
       else control (fun _ c => c ← request_execution c run_id; Ok (c, tt)));
  lease ⇐ control (fun now c => claim_admission c now owner run_id);
  fun w =>
    match work lease w with
    | None => None
    | Some (w1, Ok true) => Some (w1, Ok true)
    | Some (w1, r) =>
        let failed := match r with
                      | Err e => if is_seed_invariant_error e
                                 then control (fun now c => c ← fail_admission c now lease e; Ok (c, tt)) w1
                                 else Some (w1, Ok tt)
                      | Ok _ => Some (w1, Ok tt)
                      end in
        match failed with
        | None => None
        | Some (w2, _) =>
            match control (fun _ c => Ok (release_plan c lease (match r with Err e => Some e | Ok _ => None end), tt)) w2 with
            | None => None
            | Some (w3, released) =>
                Some (w3, match r with Err e => Err e | Ok b => _ ← released; Ok b end)
            end
        end
    end.

(** [resume_verified]. *)
Definition resume_verified (fuel : nat) (run_id : Uuid) (plan : PlanRow) (reader : RunReader) (config : Config)
    (owner : Uuid) : prog bool :=
  _ ⇐ lift (ensure ((0 <? cf_case_page_budget config) && (0 <? cf_case_batch_size config)
                    && is_some_and (fun r => objref_eqb r (rr_reference reader)) (pl_manifest plan))
              "reader differs from published run plan");
  with_claim run_id plan owner (admit_run fuel run_id plan reader config).

(** ** Programs *)

Lemma operation_Ok {A} (f : Z -> World -> result (World * A)) w w' a :
  operation f w = Some (w', Ok a) ->
  f (now_at (aw_turn w)) (set_turn w (S (aw_turn w))) = Ok (w', a).
Proof. apply attempt_Ok. Qed.

(** Programs that leave the execution databases alone, whatever their result. *)
Definition keeps_locals {A} (m : prog A) : Prop := forall w w' r, m w = Some (w', r) -> aw_locals w' = aw_locals w.

Lemma keeps_lift {A} (r : result A) : keeps_locals (lift r).
Proof. intros w w' r' H. by injection H as <- _. Qed.

Lemma keeps_bind {A B} (m : prog A) (k : A -> prog B) :
  keeps_locals m -> (forall a, keeps_locals (k a)) -> keeps_locals (pbind m k).
Proof.
  intros Hm Hk w w' r. unfold pbind. destruct (m w) as [[w1 [a|e]]|] eqn:Em; intros H; [| |done].
  - rewrite (Hk a _ _ _ H). by eapply Hm.
  - injection H as <- _. by eapply Hm.
Qed.

Lemma keeps_operation {A} (f : Z -> World -> result (World * A)) :
  (forall now w w' a, f now w = Ok (w', a) -> aw_locals w' = aw_locals w) -> keeps_locals (operation f).
Proof.
  intros Hf w w' r H. apply attempt_world in H as [->|[a Ha]]; [done|]. by rewrite (Hf _ _ _ _ Ha).
Qed.

Lemma keeps_control {A} (f : Z -> Control -> result (Control * A)) : keeps_locals (control f).
Proof.
  apply keeps_operation. intros now w w' a H. apply bind_Ok in H as ([c b] & _ & H). by injection H as <- _.
Qed.

Lemma keeps_budget lease : keeps_locals (budget lease).
Proof.
  intros w w' r. unfold budget. destruct (_ <=? _); [|intros H; by injection H as <- _].
  intros H. refine (keeps_bind _ _ (keeps_control _) _ _ _ _ H). intros _ w2 w3 r2 H2. by injection H2 as <- _.
Qed.

(** ** Reading back *)

Definition item_of (lo : Local) (version : Uuid) (alias : string) (kr : row_key * ChunkRow) : ChunkIdentity * bool :=
  (identity_of kr, chunk_valid lo version alias kr).

Lemma local_at_db w alias lo : local_at w alias = Some lo -> exists lo0, aw_locals w !! alias = Some lo0 /\ lo_db lo = lo_db lo0.
Proof.
  unfold local_at. destruct (aw_locals w !! alias) as [lo0|]; [|done]. intros [= <-]. exists lo0. by case_match.
Qed.

Lemma placement_rows_db lo lo' run_id shards after :
  lo_db lo = lo_db lo' -> placement_rows lo run_id shards after = placement_rows lo' run_id shards after.
Proof. unfold placement_rows. by intros ->. Qed.

Lemma keeps_read lease x version alias shards after : keeps_locals
  (database lease (fun _ w => lo ← ok_or (local_at w alias) "execution database is not configured";
     page ← read_chunks lo (ax_run_id x) version alias shards after; Ok (w, page))).
Proof.
  apply keeps_bind; [apply keeps_budget|]. intros _. apply keeps_operation. intros now w w' a H.
  apply bind_Ok in H as (? & _ & H). apply bind_Ok in H as (? & _ & H). by injection H as <- _.
Qed.

(** The loop folds exactly the rows of the database after its position. *)
Lemma verify_pages_Ok fuel x version alias shards after actual w w' actual' lo :
  aw_locals w !! alias = Some lo ->
  verify_pages fuel x version alias shards after actual w = Some (w', Ok actual') ->
  foldM verify_item actual (map (item_of lo version alias) (placement_rows lo (ax_run_id x) shards after)) = Ok actual' /\
  aw_locals w' = aw_locals w.
Proof.
  intros Hlo. revert after actual w Hlo. induction fuel as [|fuel IH]; intros after actual w Hlo H; [done|].
  cbn [verify_pages] in H. apply pbind_Ok in H as (w1 & page & Hread & H).
  assert (Hk : aw_locals w1 = aw_locals w) by (by eapply keeps_read).
  unfold database in Hread. apply pbind_Ok in Hread as (w0 & [] & Hb & Hread). apply keeps_budget in Hb.
  apply operation_Ok in Hread. apply bind_Ok in Hread as (lo1 & Hlo1%ok_or_Ok & Hread).
  apply bind_Ok in Hread as (page' & Hpage & [= _ <-]). apply local_at_db in Hlo1 as (lo0 & Hlo0 & Hdb).
  cbn [set_turn aw_locals] in Hlo0. assert (lo0 = lo) as -> by congruence.
  unfold read_chunks in Hpage. apply bind_Ok in Hpage as (? & _ & [= <-]).
  rewrite (placement_rows_db lo1 lo) in H by done.
  assert (Hmap : map (fun kr => (identity_of kr, chunk_valid lo1 version alias kr))
      (take (Z.to_nat MAX_CHUNKS) (placement_rows lo (ax_run_id x) shards after))
    = map (item_of lo version alias) (take (Z.to_nat MAX_CHUNKS) (placement_rows lo (ax_run_id x) shards after))).
  { apply map_ext. intros kr. unfold item_of, chunk_valid. by rewrite Hdb. }
  rewrite Hmap in H. clear Hmap. set (R := placement_rows lo (ax_run_id x) shards after) in *.
  rewrite fmap_last in H. destruct (last (take (Z.to_nat MAX_CHUNKS) R)) as [kr|] eqn:El; cbn [fmap option_fmap option_map] in H.
  - apply pbind_Ok in H as (w2 & actual1 & [-> Hf]%lift_Ok & H).
    apply IH in H as [Hrest Hkeep]; [|by rewrite Hk]. split; [|congruence].
    unfold R. rewrite (placement_rows_next _ _ _ _ _ _ El), map_app, foldM_app. fold R. rewrite Hf. exact Hrest.
  - apply pret_Ok in H as [-> ->]. split; [|done].
    assert (R = []) as ->; [|done]. apply last_None in El. destruct R; [done|]. by cbn in El.
Qed.

Definition of_shard_items (s : Z) (items : list (ChunkIdentity * bool)) : list ChunkIdentity :=
  List.filter (fun c => ci_run_shard c =? s) (map fst items).

(** The fold keeps one manifest per shard, that of the shard's chunks in order. *)
Lemma verify_items_Ok items actual actual' :
  bt_wf actual -> foldM verify_item actual items = Ok actual' ->
  bt_wf actual' /\ Forall (fun item => item.2 = true) items /\
  (forall s, foldM manifest_push (default default_manifest (bt_get s actual)) (of_shard_items s items)
             = Ok (default default_manifest (bt_get s actual'))) /\
  (forall s, is_Some (bt_get s actual') <-> is_Some (bt_get s actual) \/ s ∈ map (fun item => ci_run_shard item.1) items).
Proof.
  revert actual. induction items as [|[c valid] items IH]; intros actual Hwf H.
  { injection H as <-. split_and!; [done|constructor|done|]. intros s. set_solver. }
  cbn [foldM] in H. apply bind_Ok in H as (actual1 & H1 & H). unfold verify_item in H1.
  apply bind_Ok in H1 as (? & Hv%ensure_Ok & H1). apply bind_Ok in H1 as (m & Hm & [= <-]).
  unfold with_context in Hm. destruct (manifest_push _ c) as [m'|] eqn:Em; [|done]. injection Hm as ->.
  assert (Hwf1 := bt_insert_wf (ci_run_shard c) m actual Hwf). destruct (IH _ Hwf1 H) as (W & V & F & D). split_and!.
  - done.
  - by constructor.
  - intros s. specialize (F s). rewrite bt_get_insert in F by done. unfold of_shard_items in *. cbn [map fst List.filter].
    destruct (Z.eqb_spec (ci_run_shard c) s) as [<-|Hne].
    + rewrite decide_True in F by done. cbn [foldM]. rewrite Em. exact F.
    + rewrite decide_False in F by done. exact F.
  - intros s. rewrite D, bt_get_insert by done. cbn [map fst]. rewrite elem_of_cons. case_decide as Hs.
    + subst. split; [by right; left|]. intros _. left. by exists m.
    + split; [intros [?|?]; auto|]. intros [?|[->|?]]; [by left|done|by right].
Qed.

(** What verification of a database means. *)
Record verified (x : AdmitContext) (version : Uuid) (alias : string) (lo : Local) (s : Z) : Prop := {
  vf_chunks : exists m, bt_get s (se_expected (ax_seed x)) = Some m /\
    foldM manifest_push default_manifest (shard_chunks (lo_db lo) (ax_run_id x) s) = Ok m;
  vf_rows : forall id r, db_chunks (lo_db lo) !! (ax_run_id x, s, id) = Some r -> chunk_valid lo version alias ((ax_run_id x, s, id), r) = true
}.

Lemma verify_placement_Ok fuel x version alias shards w w' lo :
  aw_locals w !! alias = Some lo -> Forall (fun s => 0 <= s) shards ->
  (forall k r, db_chunks (lo_db lo) !! k = Some r -> 0 <= ch_ordinal_start r) ->
  verify_placement fuel x version tt (alias, shards) w = Some (w', Ok tt) ->
  aw_locals w' = aw_locals w /\ Forall (verified x version alias lo) shards.
Proof.
  intros Hlo Hpos Hstart H. unfold verify_placement in H. apply pbind_Ok in H as (w1 & actual & Hpages & H). cbn [fst snd] in *.
  apply lift_Ok in H as [-> He%ensure_Ok]. apply andb_true_iff in He as [Hlen Heq%forallb_Forall_iff].
  destruct (verify_pages_Ok _ _ _ _ _ _ _ _ _ _ _ Hlo Hpages) as [Hf Hkeep]. split; [done|].
  destruct (verify_items_Ok _ [] actual (bt_wf_nil) Hf) as (Hwf & Hval & Hfold & Hdom).
  set (rows := placement_rows lo (ax_run_id x) (sort_z shards) (-1, -1, 0)) in *.
  assert (Hitems : forall s, of_shard_items s (map (item_of lo version alias) rows)
    = List.filter (fun c => ci_run_shard c =? s) (map identity_of rows)) by (intros s; unfold of_shard_items; by rewrite map_map).
  assert (Hsub : forall s, is_Some (bt_get s actual) -> s ∈ sort_z shards).
  { intros s [[? [=]]|Hs]%Hdom. rewrite map_map in Hs. apply list_elem_of_fmap in Hs as ([[[k1 k2] k3] r] & -> & Hin).
    by apply elem_of_placement_rows in Hin as (_ & _ & ? & _). }
  (* as many manifests as shards: every shard has one *)
  assert (Hall : forall s, s ∈ sort_z shards -> is_Some (bt_get s actual)).
  { assert (Hk : forall s, s ∈ bt_keys actual <-> is_Some (bt_get s actual)).
    { intros s. rewrite <- bt_mem_keys by done. unfold bt_mem. destruct (bt_get s actual); split; try done; by intros [? ?]. }
    assert (Hperm : bt_keys actual ≡ₚ sort_z shards).
    { apply submseteq_length_Permutation.
      - apply NoDup_submseteq; [by apply bt_wf_NoDup|]. intros s Hs%Hk. by apply Hsub.
      - unfold bt_keys. rewrite length_map. unfold zlen in Hlen. lia. }
    intros s Hs. apply Hk. by rewrite Hperm. }
  apply Forall_forall. intros s Hs. rewrite <- sort_z_perm in Hs. rewrite Forall_forall in Heq, Hpos.
  specialize (Heq s Hs). apply bool_decide_eq_true in Heq. destruct (Hall s Hs) as [m Hm]. split.
  - exists m. split; [congruence|]. specialize (Hfold s). rewrite Hitems, Hm in Hfold. cbn [default bt_get] in Hfold.
    unfold rows in Hfold. rewrite placement_rows_shard in Hfold; [exact Hfold|done| |done].
    apply Hpos. by rewrite <- sort_z_perm.
  - intros id r Hr. rewrite Forall_forall in Hval.
    apply (Hval (item_of lo version alias ((ax_run_id x, s, id), r))). apply list_elem_of_fmap. eexists. split; [done|].
    apply elem_of_placement_rows. cbn. split_and!; try done. unfold pos_ltb. cbn. specialize (Hstart _ _ Hr).
    assert (0 <= s) by (apply Hpos; by rewrite <- sort_z_perm). lia.
Qed.

(** ** What admission may do *)

(** Every chunk row satisfies the checks its table declares. *)
Definition locals_ok (w : World) : Prop :=
  forall alias lo, aw_locals w !! alias = Some lo -> map_Forall (fun _ r => chunk_ok r = true) (db_chunks (lo_db lo)).

(** A program of admission: transactions of the ledger on the control database,
    and seeding of the execution databases. *)
Definition admissible {A} `{SM : Serde RunPlanManifest} (m : prog A) : Prop :=
  forall w w' r, m w = Some (w', r) ->
    rtc ledger_step (aw_control w) (aw_control w') /\ (locals_ok w -> locals_ok w').

Context `{SM : Serde RunPlanManifest}.

Lemma admissible_lift {A} (r : result A) : admissible (lift r).
Proof. intros w w' r' H. by injection H as <- _. Qed.

Lemma admissible_ret {A} (a : A) : admissible (pret a).
Proof. apply admissible_lift. Qed.

Lemma admissible_none {A} : admissible (fun _ => None : option (World * result A)).
Proof. by intros w w' r. Qed.

Lemma admissible_bind {A B} (m : prog A) (k : A -> prog B) :
  admissible m -> (forall a, admissible (k a)) -> admissible (pbind m k).
Proof.
  intros Hm Hk w w' r. unfold pbind. destruct (m w) as [[w1 [a|e]]|] eqn:Em; intros H; [| |done].
  - destruct (Hm _ _ _ Em) as [S1 L1]. destruct (Hk a _ _ _ H) as [S2 L2]. split; [by etransitivity|auto].
  - injection H as <- _. by eapply Hm.
Qed.

Lemma admissible_fold {A S} (f : S -> A -> prog S) l s : (forall s a, admissible (f s a)) -> admissible (pfold f s l).
Proof.
  intros Hf. revert s. induction l as [|a l IH]; intros s; [apply admissible_ret|]. by apply admissible_bind.
Qed.

Lemma admissible_operation {A} (f : Z -> World -> result (World * A)) :
  (forall now w w' a, f now w = Ok (w', a) -> rtc ledger_step (aw_control w) (aw_control w') /\ (locals_ok w -> locals_ok w')) ->
  admissible (operation f).
Proof.
  intros Hf w w' r. unfold operation. destruct (fault_at (aw_turn w)).
  - destruct (f _ _) as [[w2 a]|] eqn:Ef; intros H; injection H as <- _; [by apply Hf in Ef|done].
  - intros H; by injection H as <- _.
  - destruct (f _ _) as [[w2 a]|] eqn:Ef; intros H; injection H as <- _; [by apply Hf in Ef|done].
Qed.

Lemma admissible_control {A} (f : Z -> Control -> result (Control * A)) :
  (forall now c c' a, f now c = Ok (c', a) -> rtc ledger_step c c') -> admissible (control f).
Proof.
  intros Hf. apply admissible_operation. intros now w w' a H. apply bind_Ok in H as ([c b] & Hc & H).
  injection H as <- _. split; [by eapply Hf|done].
Qed.

Lemma admissible_budget lease : admissible (budget lease).
Proof.
  intros w w' r. unfold budget. destruct (_ <=? _); [|intros H; by injection H as <- _].
  intros H. refine (admissible_bind _ _ (admissible_control _ _) _ _ _ _ H).
  - intros now c c' a Hc. apply bind_Ok in Hc as (c1 & Hc & [= <- _]). apply rtc_once. by eapply renew_admission_step.
  - intros _ w2 w3 r2 H2. by injection H2 as <- _.
Qed.

Lemma admissible_pure {A} (r : World -> result A) : admissible (operation (fun _ w => a ← r w; Ok (w, a))).
Proof. apply admissible_operation. intros now w w' a H. apply bind_Ok in H as (? & _ & [= <- _]). done. Qed.

Lemma admissible_read {A} (f : Z -> Control -> result A) : admissible (control (fun now c => a ← f now c; Ok (c, a))).
Proof. apply admissible_control. intros now c c' a H. apply bind_Ok in H as (? & _ & [= <- _]). done. Qed.

Lemma admissible_gates fuel lease limits chain counts : admissible (read_gates fuel lease limits chain counts).
Proof.
  revert chain counts. induction fuel as [|fuel IH]; intros chain counts; cbn [read_gates];
    (destruct (gv_next chain); [|apply admissible_ret]); [apply admissible_none|].
  apply admissible_bind; [apply admissible_budget|]. intros _.
  apply admissible_bind; [by apply (admissible_pure (fun _ => document _ _ _))|]. intros page.
  apply admissible_bind; [apply admissible_lift|]. intros chain'. apply IH.
Qed.

Lemma admissible_shard fuel lease run_id reader gates st s : admissible (read_shard fuel lease run_id reader gates st s).
Proof.
  unfold read_shard. repeat first [apply admissible_ret | apply admissible_lift | apply admissible_gates
    | apply admissible_bind; [|intros ?]].
Qed.

Lemma seed_control_step w alias lo lo' :
  local_at w alias = Some lo -> (forall id r, lo_runs lo !! id = Some r -> lo_runs lo' !! id = Some r) ->
  rtc ledger_step (aw_control w) (aw_control (put_local w alias lo')).
Proof.
  unfold local_at, put_local. cbn [aw_control]. intros Hlo Hruns. destruct (str_eqb alias control_alias); [|done].
  destruct (aw_locals w !! alias) as [lo0|]; [|done]. injection Hlo as <-. cbn in Hruns.
  apply rtc_once, other_step; try done. intros id r Hr. exists r. split; [by apply Hruns|done].
Qed.

Lemma seed_locals_ok w seed now alias status chunks row_limit lo lo' :
  (forall v, jsonb_eqb v v = true) -> local_at w alias = Some lo ->
  seed_write seed now alias status chunks row_limit lo = Ok lo' -> locals_ok w -> locals_ok (put_local w alias lo').
Proof.
  intros Hrefl (lo0 & Hlo0 & Hdb)%local_at_db Hw Hok a l. unfold put_local. cbn [aw_locals].
  rewrite lookup_insert_Some. intros [[<- <-]|[_ Hl]]; [|by eapply Hok].
  destruct (seed_write_Ok _ _ _ _ _ _ _ _ Hrefl Hw) as ([_ Hnew] & _). intros k r Hr.
  apply Hnew in Hr as [Hr|(c & _ & _ & _ & Hc)]; [|done]. rewrite Hdb in Hr. by eapply Hok.
Qed.

Lemma admissible_seed lease seed row_limit u p :
  (forall v, jsonb_eqb v v = true) -> admissible (seed_placement lease seed row_limit u p).
Proof.
  intros Hrefl. unfold seed_placement, database. apply admissible_bind; [apply admissible_budget|]. intros _.
  apply admissible_operation. intros now w w' a H. apply bind_Ok in H as (lo & Hlo%ok_or_Ok & H).
  apply bind_Ok in H as (lo' & Hw & [= <- _]). split.
  - eapply seed_control_step; [exact Hlo|]. by eapply seed_write_runs.
  - by eapply seed_locals_ok.
Qed.

Lemma admissible_pages pages fuel x cursor next state :
  (forall v, jsonb_eqb v v = true) -> admissible (admit_pages pages fuel x cursor next state).
Proof.
  intros Hrefl. revert cursor next state. induction pages as [|pages IH]; intros cursor next state; [apply admissible_ret|].
  cbn [admit_pages]. apply admissible_bind; [apply admissible_budget|]. intros _.
  destruct (cursor_next _ _ _ _) as [read|]; [|apply admissible_none].
  apply admissible_bind; [by apply (admissible_pure (fun _ => read))|]. intros [cursor' [[entry bytes]|]]; [|apply admissible_ret].
  cbn [fst snd]. apply admissible_bind; [apply admissible_lift|]. intros page.
  apply admissible_bind; [apply admissible_lift|]. intros st.
  apply admissible_bind; [apply admissible_fold; intros; by apply admissible_seed|]. intros _.
  apply admissible_bind; [|intros _; case_match; [apply admissible_ret|apply IH]].
  apply admissible_control. intros now c c' a H. apply bind_Ok in H as (c1 & Hc & [= <- _]).
  apply rtc_once. by eapply acknowledge_admission_step.
Qed.

Lemma admissible_verify fuel x version u p : admissible (verify_placement fuel x version u p).
Proof.
  unfold verify_placement. apply admissible_bind; [|intros; apply admissible_lift].
  generalize (-1, -1, 0) ([] : btree Z Manifest). induction fuel as [|fuel IH]; intros after actual; [apply admissible_none|].
  cbn [verify_pages]. apply admissible_bind.
  - apply admissible_bind; [apply admissible_budget|]. intros _. apply admissible_operation.
    intros now w w' a H. apply bind_Ok in H as (? & _ & H). apply bind_Ok in H as (? & _ & [= <- _]). done.
  - intros page. case_match; [|apply admissible_ret]. apply admissible_bind; [apply admissible_lift|]. intros. apply IH.
Qed.

(** ** Admission ends in verified databases *)

Lemma placement_shards_spec assignments :
  bt_wf (placement_shards assignments) /\
  (forall a, a ∈ assignments -> exists shards, bt_get (pa_database_alias a) (placement_shards assignments) = Some shards /\
     pa_run_shard a ∈ shards) /\
  (forall alias shards, bt_get alias (placement_shards assignments) = Some shards ->
     Forall (fun s => exists a, a ∈ assignments /\ pa_run_shard a = s) shards).
Proof.
  unfold placement_shards. set (step := fun m a => _).
  induction assignments as [|a l (Hwf & Hin & Hout)] using rev_ind; [split_and!; [constructor|set_solver|done]|].
  rewrite fold_left_app. cbn [fold_left]. set (m := fold_left step l []) in *.
  change (step m a) with (bt_insert (pa_database_alias a) (default [] (bt_get (pa_database_alias a) m) ++ [pa_run_shard a]) m).
  assert (Hget := fun k => bt_get_insert (pa_database_alias a) (default [] (bt_get (pa_database_alias a) m) ++ [pa_run_shard a]) m k Hwf).
  split_and!.
  - by apply bt_insert_wf.
  - intros b [Hb|Hb%list_elem_of_singleton]%elem_of_app; rewrite Hget.
    + destruct (Hin b Hb) as (shards & Hs & Hb'). case_decide as Heq; [|eauto]. eexists. split; [done|].
      rewrite Heq, Hs. set_solver.
    + subst. rewrite decide_True by done. eexists. split; [done|]. set_solver.
  - intros alias shards. rewrite Hget. case_decide as Heq.
    + intros [= <-]. apply Forall_app. split; [|constructor; [exists a; split; [set_solver|done]|constructor]].
      destruct (bt_get (pa_database_alias a) m) as [old|] eqn:Eo; [|constructor]. cbn.
      eapply Forall_impl; [by apply (Hout _ _ Eo)|]. intros s (b & Hb & Hs). exists b. split; [set_solver|done].
    + intros Hs. eapply Forall_impl; [by apply (Hout _ _ Hs)|]. intros s (b & Hb & He). exists b. split; [set_solver|done].
Qed.

Lemma verify_placement_local fuel x version p w w' :
  verify_placement fuel x version tt p w = Some (w', Ok tt) -> exists lo, aw_locals w !! p.1 = Some lo.
Proof.
  unfold verify_placement. intros H. apply pbind_Ok in H as (w1 & actual & Hp & _). destruct fuel as [|fuel]; [done|].
  cbn [verify_pages] in Hp. apply pbind_Ok in Hp as (w2 & page & Hd & _). unfold database in Hd.
  apply pbind_Ok in Hd as (w3 & [] & Hb & Hd). apply operation_Ok in Hd. apply bind_Ok in Hd as (lo & Hlo%ok_or_Ok & _).
  apply local_at_db in Hlo as (lo0 & Hlo0 & _). exists lo0. cbn in Hlo0. by rewrite (keeps_budget _ _ _ _ Hb) in Hlo0.
Qed.

Lemma verify_all_Ok fuel x version l w w' :
  Forall (fun p => Forall (fun s => 0 <= s) p.2) l -> locals_ok w ->
  pfold (verify_placement fuel x version) tt l w = Some (w', Ok tt) ->
  aw_locals w' = aw_locals w /\
  Forall (fun p => exists lo, aw_locals w !! p.1 = Some lo /\ Forall (verified x version p.1 lo) p.2) l.
Proof.
  intros Hpos. revert w. induction Hpos as [|[alias shards] l Hs Hl IH]; intros w Hok H.
  { by apply pret_Ok in H as [-> _]. }
  cbn [pfold] in H. apply pbind_Ok in H as (w1 & [] & H1 & H). destruct (verify_placement_local _ _ _ _ _ _ H1) as [lo Hlo].
  assert (Hstart : forall k r, db_chunks (lo_db lo) !! k = Some r -> 0 <= ch_ordinal_start r).
  { intros k r Hr. specialize (Hok _ _ Hlo k r Hr). unfold chunk_ok in Hok. cbn in Hok. lia. }
  destruct (verify_placement_Ok _ _ _ _ _ _ _ _ Hlo Hs Hstart H1) as [Hk Hv].
  destruct (IH w1) as [Hk2 Hall]; [intros a b; rewrite Hk; apply Hok|done|]. split; [congruence|].
  constructor; [by exists lo|]. eapply Forall_impl; [exact Hall|]. intros p (lo' & Hlo' & ?). exists lo'. by rewrite <- Hk.
Qed.

(** The manifests admission expects are those of the published plan. *)
Definition expects (run_id : Uuid) (reader : RunReader) (expected : btree Z Manifest) : Prop :=
  bt_wf expected /\ forall s m, bt_get s expected = Some m ->
    exists item, item ∈ pm_shards (rr_manifest reader) /\ sp_run_shard item = s /\
      expected_manifest run_id (dm_case_count (rr_dataset reader)) item = Ok m.

Lemma read_shards_expects fuel lease run_id reader gates l st w w' st' :
  bt_wf st.2 -> pfold (read_shard fuel lease run_id reader gates) st l w = Some (w', Ok st') ->
  bt_wf st'.2 /\ forall s m, bt_get s st'.2 = Some m -> bt_get s st.2 = Some m \/
    exists item, item ∈ l /\ sp_run_shard item = s /\ expected_manifest run_id (dm_case_count (rr_dataset reader)) item = Ok m.
Proof.
  revert st w. induction l as [|item l IH]; intros st w Hwf H.
  { apply pret_Ok in H as [-> ->]. split; [done|by left]. }
  cbn [pfold] in H. apply pbind_Ok in H as (w1 & st1 & H1 & H). unfold read_shard in H1.
  apply pbind_Ok in H1 as (? & m & [_ Hm]%lift_Ok & H1). do 5 (apply pbind_Ok in H1 as (? & ? & _ & H1)).
  apply pret_Ok in H1 as [-> ->]. cbn [snd] in *. apply IH in H as [Hwf' Hget]; [|by apply bt_insert_wf].
  split; [done|]. intros s m' [Hs|(i & Hi & Hr)]%Hget.
  - cbn [snd] in Hs. rewrite bt_get_insert in Hs by done. case_decide as Heq; [|by left]. injection Hs as <-.
    right. exists item. split_and!; [by left|done..].
  - right. exists i. split; [by right|done].
Qed.

Lemma admit_seed_Ok fuel run_id plan reader lease w w' seed :
  admit_seed fuel run_id plan reader lease w = Some (w', Ok seed) ->
  se_run_id seed = run_id /\ expects run_id reader (se_expected seed).
Proof.
  unfold admit_seed. intros H. do 7 (apply pbind_Ok in H as (? & ? & _ & H)).
  apply pbind_Ok in H as (? & [counts expected] & Hread & H). apply pbind_Ok in H as (? & ? & _ & H).
  apply pret_Ok in H as [_ ->]. split; [done|]. cbn [se_expected snd].
  apply read_shards_expects in Hread as [Hwf Hget]; [|apply bt_wf_nil]. split; [done|].
  intros s m Hs. by destruct (Hget s m Hs) as [?|?].
Qed.

Lemma admissible_admit_seed fuel run_id plan reader lease : admissible (admit_seed fuel run_id plan reader lease).
Proof.
  unfold admit_seed. repeat first
    [apply admissible_ret | apply admissible_lift | apply admissible_fold; intros; apply admissible_shard
    | apply admissible_bind; [|intros ?]].
  - apply admissible_control. intros now c c' q H. apply bind_Ok in H as (? & _ & H).
    apply bind_Ok in H as (? & _ & [= <- _]). done.
  - intros w w' r H. by injection H as <- _.
Qed.

Lemma admit_Ok fuel run_id plan reader config lease w w' :
  (forall v, jsonb_eqb v v = true) ->
  admit_run fuel run_id plan reader config lease w = Some (w', Ok true) ->
  exists seed w1 w2 now,
    let x := mkAdmitContext run_id plan reader config lease seed in
    expects run_id reader (se_expected seed) /\
    rtc ledger_step (aw_control w) (aw_control w1) /\ (locals_ok w -> locals_ok w1) /\
    pfold (verify_placement fuel x (rc_dataset_version_id (dr_context (se_draft seed)))) tt
      (placement_shards (pl_assignments plan)) w1 = Some (w2, Ok tt) /\
    activate (aw_control w2) dbs now lease (se_expected seed) = Ok (aw_control w') /\ aw_locals w' = aw_locals w2.
Proof.
  intros Hrefl H. unfold admit_run in H. apply pbind_Ok in H as (wa & seed & Hseed & H).
  apply pbind_Ok in H as (wb & fresh & Hload & H). apply pbind_Ok in H as (wc & state & Hpages & H).
  apply pbind_Ok in H as (wd & fresh2 & Hload2 & H). destruct (negb _); [by apply pret_Ok in H as [_ ?]|].
  apply pbind_Ok in H as (we & [] & [-> _]%lift_Ok & H). apply pbind_Ok in H as (wf & [] & Hver & H).
  apply pbind_Ok in H as (wg & [] & Hc & H). injection Hc as <- _. apply pbind_Ok in H as (wh & [] & Hact & H).
  apply pret_Ok in H as [-> _]. apply operation_Ok in Hact. apply bind_Ok in Hact as (c & Hact & [= <-]).
  destruct (admit_seed_Ok _ _ _ _ _ _ _ _ Hseed) as [_ Hexp].
  set (x := mkAdmitContext run_id plan reader config lease seed) in *.
  destruct (admissible_admit_seed fuel run_id plan reader lease _ _ _ Hseed) as [S1 L1].
  assert (Hl : forall w w' r, load_plan run_id w = Some (w', r) ->
    rtc ledger_step (aw_control w) (aw_control w') /\ (locals_ok w -> locals_ok w')).
  { apply admissible_control. intros now c0 c' a H. apply bind_Ok in H as (? & _ & [= <- _]). done. }
  destruct (Hl _ _ _ Hload) as [S2 L2]. destruct (Hl _ _ _ Hload2) as [S4 L4].
  assert (Hp : admissible (if pl_admission_cursor fresh <? pl_chunk_cursor fresh then
     pbind (lift (cursor_new (pm_chunks (rr_manifest reader)) RunChunksKind (pl_admission_cursor fresh)
                    (pm_chunk_count (rr_manifest reader))))
       (fun cursor => admit_pages (Z.to_nat (cf_case_page_budget config)) fuel x cursor (pl_admission_cursor fresh)
                        (pl_admission_state fresh))
     else pret (pl_admission_state fresh))).
  { case_match; [|apply admissible_ret]. apply admissible_bind; [apply admissible_lift|]. intros. by apply admissible_pages. }
  destruct (Hp _ _ _ Hpages) as [S3 L3].
  eexists seed, wd, wf, _. split_and!; [exact Hexp| |auto|exact Hver|exact Hact|done].
  etransitivity; [exact S1|]. etransitivity; [exact S2|]. by etransitivity.
Qed.

Lemma expects_ends run_id reader expected : expects run_id reader expected -> Forall ends_in_shard expected.
Proof.
  intros [Hwf Hget]. apply Forall_forall. intros [s m] Hin. apply bt_get_elem in Hin; [|done].
  destruct (Hget s m Hin) as (item & _ & Hs & Hm). unfold expected_manifest in Hm.
  apply bind_Ok in Hm as (id & _ & [= <-]). unfold ends_in_shard. cbn. eexists. split; [done|]. exact Hs.
Qed.

(** A chunk that waits in its database for dispatch. *)
Definition waiting (version : Uuid) (alias : string) (lo : Local) (k : row_key) (r : ChunkRow) : Prop :=
  ch_status r = ChPending /\ ch_dispatched_at r = None /\ ch_dataset_version_id r = version /\
  exists a, db_admissions (lo_db lo) !! k.1 = Some a /\ ad_database_alias a = alias /\ ad_write_epoch a = 1 /\ ad_state a = Open.

Lemma chunk_valid_waiting lo version alias k r : chunk_valid lo version alias (k, r) = true -> waiting version alias lo k r.
Proof.
  unfold chunk_valid, waiting. cbn. rewrite !andb_true_iff, bool_decide_eq_true. intros ((((Hv & _) & Hs) & Hd) & Ha).
  split_and!; [done|by destruct (ch_dispatched_at r)|lia|]. destruct (db_admissions _ !! k.1) as [a|]; [|done]. exists a.
  cbn in Ha. unfold admitted_open in Ha. rewrite !andb_true_iff, str_eqb_true, bool_decide_eq_true in Ha.
  split_and!; try done || lia; apply Ha || lia.
Qed.

(** One published shard after activation. *)
Record shard_live (run_id : Uuid) (reader : RunReader) (w : World) (s : Z) (row : PlanShardRow) (lo : Local) : Prop := {
  sl_route : cd_placements (aw_control w) !! (run_id, s) = Some (new_placement (ps_database_alias row));
  sl_cursor : is_Some (cd_cursors (aw_control w) !! (run_id, s));
  sl_local : aw_locals w !! ps_database_alias row = Some lo;
  sl_item : exists item, item ∈ pm_shards (rr_manifest reader) /\ sp_run_shard item = s /\
    sp_planned_chunk_hash item = ps_planned_chunk_hash row /\ sp_chunk_count item = ps_chunk_count row;
  sl_chunks : exists m, foldM manifest_push default_manifest (shard_chunks (lo_db lo) run_id s) = Ok m /\
    mn_hash m = ps_planned_chunk_hash row /\ mn_chunk_count m = ps_chunk_count row /\ mn_case_count m = ps_case_count row;
  sl_waiting : exists version, forall id r, db_chunks (lo_db lo) !! (run_id, s, id) = Some r ->
    waiting version (ps_database_alias row) lo (run_id, s, id) r
}.

(** The state admission starts from: a published plan in consistent tables. *)
Record admission_ready (run_id : Uuid) (plan : PlanRow) (w : World) : Prop := {
  ar_ledger : ledger_inv (aw_control w);
  ar_locals : locals_ok w;
  ar_plan : exists p0, cd_plans (aw_control w) !! run_id = Some p0 /\ pl_status p0 = PlanReady /\
    pl_assignments p0 = pl_assignments plan;
  ar_shards : Forall (fun a => 0 <= pa_run_shard a) (pl_assignments plan)
}.

Lemma admission_live fuel run_id plan reader config lease w w' :
  (forall v, jsonb_eqb v v = true) -> le_run_id lease = run_id -> admission_ready run_id plan w ->
  admit_run fuel run_id plan reader config lease w = Some (w', Ok true) ->
  (forall s row, cd_plan_shards (aw_control w') !! (run_id, s) = Some row -> exists lo, shard_live run_id reader w' s row lo) /\
  (exists r, cd_runs (aw_control w') !! run_id = Some r /\ rw_status r = RunPending).
Proof.
  intros Hrefl <- [Hinv Hok (p0 & Hp0 & Hready & Hass) Hpos] H.
  destruct (admit_Ok _ _ _ _ _ _ _ _ Hrefl H) as (seed & w1 & w2 & now & Hexp & Hsteps & Hlok & Hver & Hact & Hloc).
  set (x := mkAdmitContext (le_run_id lease) plan reader config lease seed) in *.
  destruct (placement_shards_spec (pl_assignments plan)) as (Hwf & Hpin & Hpout).
  assert (Hall : Forall (fun p => Forall (fun s => 0 <= s) p.2) (placement_shards (pl_assignments plan))).
  { apply Forall_forall. intros [alias shards] Hin. apply bt_get_elem in Hin; [|done].
    eapply Forall_impl; [exact (Hpout _ _ Hin)|]. rewrite Forall_forall in Hpos. intros s (a & Ha & <-). by apply Hpos. }
  destruct (verify_all_Ok _ _ _ _ _ _ Hall (Hlok Hok) Hver) as [Hk Hvall].
  assert (Hsteps2 : rtc ledger_step (aw_control w) (aw_control w2)).
  { etransitivity; [exact Hsteps|]. refine (proj1 (admissible_fold _ _ _ _ _ _ _ Hver)). intros. apply admissible_verify. }
  destruct (steps_keep_plan _ _ _ _ Hsteps2 Hp0) as (p2 & Hp2 & _ & Hfrozen). destruct (Hfrozen Hready) as (Hst2 & _ & _ & _ & Hass2 & _).
  destruct (steps_inv _ _ Hsteps2 Hinv) as (_ & _ & Hplans). destruct (pv_ready _ _ _ (Hplans _ _ Hp2) Hst2) as [_ _ _ Hplaced _].
  destruct (activate_spec _ _ _ _ _ _ (proj1 Hexp) (expects_ends _ _ _ Hexp) Hact) as
    (p3 & r & _ & _ & _ & _ & _ & _ & Hrows & _ & Hr & Hstatus & _).
  split; [|by exists r]. intros s row Hrow. rewrite (activate_keeps _ _ _ _ _ _ Hact) in Hrow.
  destruct (Hrows s row Hrow) as ((m & Hm & Hcases & Hchunks & Hhash) & _ & Hroute & Hcursor).
  rewrite Forall_forall in Hplaced. destruct (Hplaced (s, row) ltac:(by apply elem_of_published)) as (_ & _ & _ & Hin).
  cbn in Hin. rewrite Hass2, Hass in Hin. destruct (Hpin _ Hin) as (shards & Hshards & Hs). cbn in Hshards, Hs.
  rewrite Forall_forall in Hvall. destruct (Hvall (ps_database_alias row, shards)) as (lo & Hlo & Hv);
    [by apply bt_get_elem|]. cbn in Hlo, Hv. rewrite Forall_forall in Hv. destruct (Hv s Hs) as [(m' & Hm' & Hfold) Hvalid].
  cbn [ax_seed x] in Hm'. rewrite Hm in Hm'. injection Hm' as <-.
  exists lo. split; [done|by eexists|by rewrite Hloc, Hk|..].
  - destruct Hexp as [_ Hget]. destruct (Hget s m Hm) as (item & Hi & Hs' & Hmi). exists item.
    unfold expected_manifest in Hmi. apply bind_Ok in Hmi as (id & _ & [= <-]). by split_and!.
  - by exists m.
  - eexists. intros id r0 Hr0. eapply chunk_valid_waiting, Hvalid, Hr0.
Qed.

(** C7: A run is activated only over databases that hold its plan.  When
    admission of a published plan returns success, whatever faults it met on the
    way, every published shard has a fresh route and a dispatch cursor, the
    database the route names holds chunk rows for the shard whose chain of
    identities has the published hash, chunk count and case count, every one of
    them pending, never dispatched and under an open admission of epoch 1; and
    the run is pending. *)
Theorem activated_run_is_seeded fuel run_id plan reader config lease w w' :
  (forall v, jsonb_eqb v v = true) -> le_run_id lease = run_id -> admission_ready run_id plan w ->
  admit_run fuel run_id plan reader config lease w = Some (w', Ok true) ->
  (forall s row, cd_plan_shards (aw_control w') !! (run_id, s) = Some row -> exists lo, shard_live run_id reader w' s row lo) /\
  (exists r, cd_runs (aw_control w') !! run_id = Some r /\ rw_status r = RunPending).
Proof. apply admission_live. Qed.

(** ** The hash chain identifies the chunks *)

(** What [manifest_push] hashes along a list of chunks. *)
Fixpoint chain_inputs (m : Manifest) (l : list ChunkIdentity) : list (string * string * ChunkIdentity) :=
  match l with
  | [] => []
  | c :: l' => ("vigilo/chunk-plan:1", mn_hash m, c) ::
      match manifest_push m c with Ok m' => chain_inputs m' l' | Err _ => [] end
  end.

Definition plan_hash (input : string * string * ChunkIdentity) : result string :=
  bytes ← plan_to_vec input; Ok (plan_blake3_hex bytes).

Lemma chain_inputs_one m c : chain_inputs m [c] = [("vigilo/chunk-plan:1", mn_hash m, c)].
Proof. cbn. by case_match. Qed.

Lemma chain_inputs_snoc m l c m' :
  foldM manifest_push m l = Ok m' ->
  chain_inputs m (l ++ [c]) = chain_inputs m l ++ [("vigilo/chunk-plan:1", mn_hash m', c)].
Proof.
  revert m. induction l as [|d l IH]; intros m H; cbn [chain_inputs app].
  - injection H as <-. by case_match.
  - cbn [foldM] in H. apply bind_Ok in H as (m1 & H1 & H). rewrite H1. by rewrite (IH _ H).
Qed.

(** Two chains of the same length that end in the same hash are the same, unless
    two of the inputs they hash collide. *)
Lemma chain_unique l1 l2 m1 m2 :
  (forall a b h, a ∈ chain_inputs default_manifest l1 -> b ∈ chain_inputs default_manifest l2 ->
     plan_hash a = Ok h -> plan_hash b = Ok h -> a = b) ->
  foldM manifest_push default_manifest l1 = Ok m1 -> foldM manifest_push default_manifest l2 = Ok m2 ->
  mn_hash m1 = mn_hash m2 -> length l1 = length l2 -> l1 = l2.
Proof.
  revert l2 m1 m2. induction l1 as [|c1 l1 IH] using rev_ind; intros l2 m1 m2 Hcoll H1 H2 Hh Hl.
  { by destruct l2. }
  destruct (exists_last (l := l2)) as (l2' & c2 & ->).
  { intros ->. rewrite length_app in Hl. cbn in Hl. lia. }
  rewrite foldM_app in H1, H2. apply bind_Ok in H1 as (n1 & N1 & P1). apply bind_Ok in H2 as (n2 & N2 & P2).
  cbn [foldM] in P1, P2. apply bind_Ok in P1 as (q1 & P1 & [= <-]). apply bind_Ok in P2 as (q2 & P2 & [= <-]).
  rewrite (chain_inputs_snoc _ _ _ _ N1), (chain_inputs_snoc _ _ _ _ N2) in Hcoll.
  assert (Hpush : forall m c m', manifest_push m c = Ok m' -> plan_hash ("vigilo/chunk-plan:1", mn_hash m, c) = Ok (mn_hash m')).
  { intros m c m' Hp. unfold manifest_push in Hp. do 4 (apply bind_Ok in Hp as (? & _ & Hp)).
    apply bind_Ok in Hp as (bytes & Hb & [= <-]). unfold plan_hash. by rewrite Hb. }
  assert (Heq : ("vigilo/chunk-plan:1", mn_hash n1, c1) = ("vigilo/chunk-plan:1", mn_hash n2, c2)).
  { apply (Hcoll _ _ (mn_hash q1)); [set_solver|set_solver|by apply Hpush|]. rewrite Hh. by apply Hpush. }
  injection Heq as Hn ->. rewrite !length_app in Hl. cbn in Hl. f_equal.
  apply (IH l2' n1 n2); [|done..|lia]. intros a b h Ha Hb. apply Hcoll; set_solver.
Qed.

(** C6: From the dataset to the databases.  Take the plan computed from a
    dataset's cases ([plan_cases]) and a published manifest carrying its shard
    hashes.  When admission activates the run, the database of every published
    shard holds exactly the chunks the planner cut for that shard, in order:
    same identifiers, same case ranges, none missing and none else, unless two of
    the chunk chains' hash inputs collide. *)
Theorem admitted_chunks_are_planned `{SR : Serde CaseRecord} `{SC : Serde DatasetCase} uuid_display version profile
    assignments a0 records a chunks fuel run_id plan reader config lease w w' :
  accumulator_new run_id version profile assignments = Ok a0 ->
  plan_cases uuid_display a0 records = Ok (a, chunks) ->
  Forall (fun item => exists st gates, bt_get (sp_run_shard item) (ac_shards a) = Some st /\
    item = plan_shard (sp_run_shard item, st) gates) (pm_shards (rr_manifest reader)) ->
  (forall s alias lo x y h, aw_locals w' !! alias = Some lo ->
     x ∈ chain_inputs default_manifest (shard_chunks (lo_db lo) run_id s) ->
     y ∈ chain_inputs default_manifest (shard_chunks_of s chunks) ->
     plan_hash x = Ok h -> plan_hash y = Ok h -> x = y) ->
  (forall v, jsonb_eqb v v = true) -> le_run_id lease = run_id -> admission_ready run_id plan w ->
  admit_run fuel run_id plan reader config lease w = Some (w', Ok true) ->
  forall s row, cd_plan_shards (aw_control w') !! (run_id, s) = Some row ->
    exists lo, aw_locals w' !! ps_database_alias row = Some lo /\
      shard_chunks (lo_db lo) run_id s = shard_chunks_of s chunks.
Proof.
  intros Hnew Hplan Hitems Hcoll Hrefl Hid Hready H s row Hrow.
  destruct (admission_live _ _ _ _ _ _ _ _ Hrefl Hid Hready H) as [Hlive _].
  destruct (Hlive s row Hrow) as (lo & [_ _ Hlo (item & Hin & Hs & Hhash & Hcount) (m & Hfold & Hm & Hn & _) _]).
  exists lo. split; [done|]. rewrite Forall_forall in Hitems. destruct (Hitems item Hin) as (st & gates & Hst & Hitem).
  rewrite Hs in Hst. destruct (plan_cases_inv _ _ _ _ _ _ _ _ _ Hnew Hplan) as (rows & _ & HI & _).
  destruct (pi_shards _ _ _ _ _ _ _ _ HI s st Hst) as [Hp _ _ _].
  assert (Hlen : zlen (shard_chunks (lo_db lo) run_id s) = zlen (shard_chunks_of s chunks)).
  { apply manifest_fold in Hfold as (_ & <- & _). apply manifest_fold in Hp as (_ & <- & _).
    rewrite Hn, <- Hcount, Hitem. done. }
  apply (chain_unique _ _ m (ss_plan st)); [|done|done| |unfold zlen in Hlen; lia].
  - intros x y h Hx Hy. by eapply Hcoll.
  - rewrite Hm, <- Hhash, Hitem. done.
Qed.
End admission.

(** ** Admission of a plan of one case *)

Module AdmissionSample.
Import LedgerSample.

#[global] Instance RunChunk_eq_dec : EqDecision RunChunk.
Proof. solve_decision. Defined.

#[global] Instance seed_functions : SeedFunctions := {|
  value_octets := fun _ => Ok 100;
  shard_octets := fun _ => Ok 100;
  chunk_octets := fun _ => Ok 100;
  manifest_value := fun m => Str (mn_hash m)
|}.
#[global] Instance summary_functions : SummaryFunctions := {|
  scorecard_from_value := fun _ => Err "no scorecard";
  scorecard_to_value := fun _ => Null;
  manifest_from_value := fun _ => Err "no manifest";
  gate_counts_from_value := fun _ => Err "no counts";
  plan_to_vec := fun _ => Ok "chunk";
  plan_blake3_hex := constant_digest;
  receipt_octets := fun _ => 0
|}.
(** Each kind of plan file has one text of four bytes. *)
Definition read_bytes (r : ObjectRef) : result string :=
  Ok (match or_schema r with FOrdinalIndex => "indx" | FRunChunks => "chks" | _ => "file" end).
Definition chunk_id : Uuid := Eval vm_compute in uuid_from_digest (repeat 255 32).
Definition chunk : RunChunk := mkRunChunk 0 chunk_id 0 0 1 "default" sample_digest.
#[global] Instance index_text : Serde IndexPage :=
  {| ser_chunks := fun _ => Err "read only";
     from_value := fun _ => Ok (mkIndexPage FOrdinalIndex RunChunksKind 0 0 1 [mkIndexEntry 0 1 (object FRunChunks "chunks")]) |}.
#[global] Instance chunk_text : Serde RunChunkPage :=
  {| ser_chunks := fun _ => Err "read only"; from_value := fun _ => Ok (mkRunChunkPage FRunChunks 5 0 1 [chunk]) |}.
#[global] Instance gate_text : Serde GateCountPage :=
  {| ser_chunks := fun _ => Err "read only"; from_value := fun _ => Err "no gates" |}.
#[global] Instance case_text : Serde DatasetCase :=
  {| ser_chunks := fun _ => Ok ["case"];
     from_value := fun v => Ok (mkDatasetCase 1 "chat" None v None None ["smoke"] []) |}.
#[global] Instance record_text : Serde CaseRecord :=
  {| ser_chunks := fun _ => Err "read only"; from_value := fun _ => Err "not read" |}.

Definition reader : RunReader :=
  mkRunReader root FormatLimits_default manifest
    (mkDatasetManifest FDatasetManifest 9 None 6 sample_digest DatasetJson 1 BatchLimits_default
       (object FDatasetSourceFields "fields") (mkIndexDescriptor 0 0 1 (object FOrdinalIndex "batches")))
    (mkRunConfiguration FRunConfiguration Null).

Definition place : Local := mkLocal ∅ ∅ (mkDatabase ∅ ∅ ∅ ∅ ∅ (mkEvidence ∅ ∅) ∅ ∅ ∅ ∅ ∅ ∅).
Definition now_at (_ : nat) : Z := 7.
Definition fault_at (_ : nat) : Fault := NoFault.
Definition cancelled_at (_ : nat) : bool := false.
Definition limits_value (_ : FormatLimits) : Value := Object [].

Definition claimed : result (World * PlanRow) :=
  c ← published; st ← claim_admission c 6 22 5; p ← ok_or (cd_plans st.1 !! 5) "no plan";
  Ok (mkWorld st.1 {["main" := place]} 0 0, p).

Definition admitted_world : option (World * result bool) :=
  match claimed with
  | Ok (w, p) => admit_run read_bytes limits_value "control" dbs now_at fault_at cancelled_at 10 5 p reader (mkConfig 100 5) lease' w
  | Err e => None
  end.

(** The planner over the same case. *)
Definition records : list CaseRecord := [mkCaseRecord 0 sample_digest (Str "case")].
Definition start : Accumulator := mkAccumulator 5 6 PlanningSample.profile [(0, "main")] [] 0 0 0 projection 0.

Definition planned : result (Accumulator * list RunChunk) := plan_cases pretty start records.

Definition check (w' : World) (p : PlanRow) : bool :=
  bool_decide (pl_status p = PlanReady) && forallb (fun a => 0 <=? pa_run_shard a) (pl_assignments p)
  && bool_decide (map_Forall (fun _ lo => shard_chunks (lo_db lo) 5 0 = [chunk_identity chunk]) (aw_locals w'))
  && opt_is_some (cd_plan_shards (aw_control w') !! (5, 0)).

Lemma runs : exists w p w' row, claimed = Ok (w, p) /\
  admit_run read_bytes limits_value "control" dbs now_at fault_at cancelled_at 10 5 p reader (mkConfig 100 5) lease' w
    = Some (w', Ok true) /\
  pl_status p = PlanReady /\ Forall (fun a => 0 <= pa_run_shard a) (pl_assignments p) /\
  map_Forall (fun _ lo => shard_chunks (lo_db lo) 5 0 = [chunk_identity chunk]) (aw_locals w') /\
  cd_plan_shards (aw_control w') !! (5, 0) = Some row.
Proof.
  assert (H : match claimed, admitted_world with
              | Ok (w, p), Some (w', Ok true) => check w' p
              | _, _ => false end = true) by (vm_compute; reflexivity).
  unfold admitted_world in H. destruct claimed as [[w p]|]; [|discriminate H].
  destruct (admit_run _ _ _ _ _ _ _ _ _ _ _ _ _ _) as [[w' [[]|]]|] eqn:Ea; try discriminate H.
  unfold check in H. apply andb_true_iff in H as [H H4]. apply andb_true_iff in H as [H H3].
  apply andb_true_iff in H as [H1%bool_decide_eq_true H2%forallb_Forall_iff]. apply bool_decide_eq_true in H3.
  destruct (cd_plan_shards (aw_control w') !! (5, 0)) as [row|] eqn:Er; [|discriminate H4].
  exists w, p, w', row. split_and!; [reflexivity|exact Ea|exact H1| |exact H3|exact Er].
  eapply Forall_impl; [exact H2|]. cbn. intros a Ha. lia.
Qed.

Lemma ready w p : claimed = Ok (w, p) -> pl_status p = PlanReady -> Forall (fun a => 0 <= pa_run_shard a) (pl_assignments p) ->
  admission_ready 5 p w.
Proof.
  unfold claimed. intros H Hst Hpos. apply bind_Ok in H as (c & Hc & H). apply bind_Ok in H as ([c1 l] & Hcl & H).
  apply bind_Ok in H as (p' & Hp%ok_or_Ok & H). injection H as <- <-. cbn [fst] in *. split; [| | |exact Hpos]; cbn [aw_control].
  - eapply (steps_inv LedgerSample.empty); [|split_and!; intros k v Hk; exfalso; cbn in Hk; by rewrite lookup_empty in Hk].
    etransitivity; [by apply published_steps|]. apply rtc_once. by eapply claim_admission_step.
  - intros alias lo. cbn [aw_locals]. rewrite lookup_singleton_Some. intros [_ <-]. apply map_Forall_empty.
  - exists p'. exact (conj Hp (conj Hst eq_refl)).
Qed.

Lemma planned_one : exists a, planned = Ok (a, [chunk]) /\
  Forall (fun item => exists st gates, bt_get (sp_run_shard item) (ac_shards a) = Some st /\
    item = plan_shard (sp_run_shard item, st) gates) (pm_shards manifest).
Proof.
  assert (H : match planned with
              | Ok (a, [c]) => bool_decide (c = chunk) && match bt_get 0 (ac_shards a) with
                  | Some st => bool_decide (mn_case_count (ss_plan st) = 1) && bool_decide (mn_chunk_count (ss_plan st) = 1)
                               && str_eqb (mn_hash (ss_plan st)) sample_digest
                  | None => false end
              | _ => false end = true) by (vm_compute; reflexivity).
  destruct planned as [[a [|c []]]|]; try discriminate H. apply andb_true_iff in H as [->%bool_decide_eq_true H].
  exists a. split; [reflexivity|]. constructor; [|constructor]. cbn [sp_run_shard].
  destruct (bt_get 0 (ac_shards a)) as [st|] eqn:Es; [|discriminate H]. exists st, (mkGateCountDescriptor None 0 0).
  split; [reflexivity|]. apply andb_true_iff in H as [H H3%str_eqb_true].
  apply andb_true_iff in H as [H1%bool_decide_eq_true H2%bool_decide_eq_true].
  unfold plan_shard. cbn [fst snd]. by rewrite H1, H2, H3.
Qed.

Lemma admission_start_ok : accumulator_new 5 6 PlanningSample.profile [mkRunShardPlacementAssignment 0 "main"] = Ok start.
Proof. vm_compute. reflexivity. Qed.

Lemma jsonb_refl v : jsonb_eqb v v = true.
Proof. apply str_eqb_refl. Qed.
End AdmissionSample.

Lemma activated_run_is_seeded_witness : exists w row lo, shard_live 5 AdmissionSample.reader w 0 row lo.
Proof.
  destruct AdmissionSample.runs as (w & p & w' & row & Hc & Ha & Hst & Hpos & _ & Hrow).
  destruct (activated_run_is_seeded AdmissionSample.read_bytes AdmissionSample.limits_value "control" LedgerSample.dbs
    AdmissionSample.now_at AdmissionSample.fault_at AdmissionSample.cancelled_at 10 5 p AdmissionSample.reader (mkConfig 100 5)
    LedgerSample.lease' w w' AdmissionSample.jsonb_refl eq_refl (AdmissionSample.ready w p Hc Hst Hpos) Ha) as [Hlive _].
  destruct (Hlive 0 row Hrow) as [lo Hlo]. exists w', row, lo. exact Hlo.
Defined.

Lemma admitted_chunks_are_planned_witness : exists lo,
  shard_chunks (lo_db lo) 5 0 = [chunk_identity AdmissionSample.chunk].
Proof.
  destruct AdmissionSample.runs as (w & p & w' & row & Hc & Ha & Hst & Hpos & Hall & Hrow).
  destruct AdmissionSample.planned_one as (a & Hplan & Hitems).
  destruct (admitted_chunks_are_planned AdmissionSample.read_bytes AdmissionSample.limits_value "control" LedgerSample.dbs
    AdmissionSample.now_at AdmissionSample.fault_at AdmissionSample.cancelled_at pretty 6 PlanningSample.profile
    [mkRunShardPlacementAssignment 0 "main"] AdmissionSample.start AdmissionSample.records a [AdmissionSample.chunk]
    10 5 p AdmissionSample.reader (mkConfig 100 5) LedgerSample.lease' w w' AdmissionSample.admission_start_ok Hplan Hitems) with (s := 0) (row := row)
    as (lo & _ & Hch); [| |reflexivity|exact (AdmissionSample.ready w p Hc Hst Hpos)|exact Ha|exact Hrow|exists lo; exact Hch].
  - intros s alias lo x y h Hlo Hx Hy _ _. destruct (decide (s = 0)) as [->|Hne].
    + rewrite (Hall _ _ Hlo) in Hx. change (shard_chunks_of 0 [AdmissionSample.chunk])
        with [chunk_identity AdmissionSample.chunk] in Hy. rewrite chain_inputs_one in Hx, Hy.
      apply list_elem_of_singleton in Hx, Hy. congruence.
    + unfold shard_chunks_of in Hy. cbn [List.filter rc_run_shard AdmissionSample.chunk] in Hy.
      assert ((0 =? s) = false) as E by lia. rewrite E in Hy. cbn [map chain_inputs] in Hy.
      exfalso. exact (not_elem_of_nil y Hy).
  - exact AdmissionSample.jsonb_refl.
Defined.
