(* ===== verification/MoveTables.v ===== *)
(** * The tables and statements of a shard move

    Routes (db/tables/shard_placements.rs), move operations, page checkpoints,
    change capture and row copies (db/workflows/shard_admin/queries and the
    migrations 0014 and 0030 to 0036).  A [Place] is one execution database: its
    tables, and the capture switches and the journal of changed keys that the
    trigger [record_shard_move_dirty_key] maintains in the transaction of every
    write.  Rows travel between databases as JSON documents made by [to_jsonb]
    and read back by [jsonb_populate_recordset]; the model carries the row.  The
    journal's [row_key] object and the page cursor's key text both stand for the
    primary key, here [RowKey]. *)

From Stdlib Require Import ZArith Lia.
From stdpp Require Import base strings numbers countable gmap sorting sets option list.
From S2P Require Import Prelude Text Json RunTypes ShardTables LocalAdmission ShardRows ControlTables RunPlanning.
From S2P Require Import PlanLedger LocalSeed.

Open Scope Z_scope.

(** ** Rows *)

(** [shard_move_operations]; the two claim columns are null together. *)
Record MoveOperation := mkMoveOperation {
  mo_run_id : Uuid;
  mo_run_shard : Z;
  mo_source_database_alias : string;
  mo_target_database_alias : string;
  mo_starting_route_version : Z;
  mo_status : string;
  mo_phase : string;
  mo_target_reset_at : option Z;
  mo_copied_row_count : Z;
  mo_copied_byte_count : Z;
  mo_claim_generation : Z;
  mo_claim : option (Uuid * Z);
  mo_completed_at : option Z
}.

Definition mo_shard (o : MoveOperation) : shard_key := (mo_run_id o, mo_run_shard o).
Definition mo_claim_token (o : MoveOperation) : option Uuid := fst <$> mo_claim o.
Definition mo_claimed_until (o : MoveOperation) : option Z := snd <$> mo_claim o.

(** [shard_move_table_progress]. *)
Record ProgressRow := mkProgressRow {
  pg_completed_page_count : Z;
  pg_last_start_after_key : option string;
  pg_last_end_key : string;
  pg_copied_row_count : Z;
  pg_copied_byte_count : Z;
  pg_last_page_checksum : string
}.

Record JournalRow := mkJournalRow { jr_change_version : Z; jr_last_changed_at : Z }.

Record Place := mkPlace {
  pc_local : Local;
  pc_captures : gmap shard_key (Uuid * bool);
  pc_journal : gmap (Uuid * RowKey) JournalRow
}.

Definition pc_db (p : Place) : Database := lo_db (pc_local p).
Definition set_db (p : Place) (db : Database) : Place :=
  mkPlace (mkLocal (lo_runs (pc_local p)) (lo_versions (pc_local p)) db) (pc_captures p) (pc_journal p).
Definition set_journal (p : Place) (j : gmap (Uuid * RowKey) JournalRow) : Place :=
  mkPlace (pc_local p) (pc_captures p) j.

(** A row of one of the twelve tables a move copies. *)
Inductive MoveRow :=
| MVersion (id : Uuid) (row : Uuid * string)
| MRun (id : Uuid) (row : RunRow)
| MShard (k : RowKey) (row : row_type k).

(** What PostgreSQL and serde_json compute: the text [jsonb_build_array(key
    columns)::text] of a key, its order, the order of [jsonb] keys, the size and
    text of a row's document, the text of a prerequisite row without its mutable
    columns, [serde_json::to_vec] of a row, and BLAKE3 in hexadecimal. *)
Class MoveFunctions := {
  key_text : RowKey -> string;
  id_text : Uuid -> string;
  text_ltb : string -> string -> bool;
  jsonb_key_leb : RowKey -> RowKey -> bool;
  row_octets : MoveRow -> Z;
  row_text : MoveRow -> string;
  row_vec : MoveRow -> result string;
  move_hash : string -> string
}.

Definition PREREQUISITE_TABLES : list string := ["dataset_versions"; "runs"].
Definition move_table_names : list string := PREREQUISITE_TABLES ++ SHARD_TABLES.

Definition SHARD_MOVE_COPY_BATCH_SIZE : Z := 1000.
Definition SHARD_MOVE_COPY_BATCH_BYTES : Z := 4 * 1024 * 1024.
Definition SHARD_MOVE_ONLINE_REPLAY_BATCHES : Z := 100.
Definition SHARD_MOVE_FINAL_DIRTY_KEY_LIMIT : Z := SHARD_MOVE_COPY_BATCH_SIZE.
Definition SHARD_MOVE_CLAIM_SECONDS : Z := 300.

(** ** Change capture (migration 0036) *)

(** The trigger: the version of a key under an active capture. *)
Definition record_dirty (now : Z) (s : shard_key) (p : Place) (k : RowKey) : Place :=
  match pc_captures p !! s with
  | Some (m, true) =>
      set_journal p (<[(m, k) := match pc_journal p !! (m, k) with
                                 | Some j => mkJournalRow (jr_change_version j + 1) now
                                 | None => mkJournalRow 1 now
                                 end]> (pc_journal p))
  | _ => p
  end.

(** One [INSERT], [UPDATE] or [DELETE] of a shard row, with its trigger. *)
Definition write_row (now : Z) (s : shard_key) (p : Place) (k : RowKey) (r : option (row_type k)) : Place :=
  record_dirty now s (set_db p (put_row (pc_db p) s k r)) k.

(** A delete of a row that is not there changes nothing. *)
Definition delete_row (now : Z) (s : shard_key) (p : Place) (k : RowKey) : Place :=
  if opt_is_some (row_at (pc_db p) s k) then write_row now s p k None else p.

Definition upsert_row (now : Z) (s : shard_key) (p : Place) (kr : {k & row_type k}) : Place :=
  write_row now s p (projT1 kr) (Some (projT2 kr)).

Definition enable_shard_move_capture (move_id : Uuid) (s : shard_key) (p : Place) : result Place :=
  match pc_captures p !! s with
  | None => Ok (mkPlace (pc_local p) (<[s := (move_id, true)]> (pc_captures p)) (pc_journal p))
  | Some (held, _) =>
      _ ← ensure (held =? move_id) "the shard already has a different source capture";
      Ok (mkPlace (pc_local p) (<[s := (move_id, true)]> (pc_captures p)) (pc_journal p))
  end.

(** The journal of a capture goes with it ([ON DELETE CASCADE]). *)
Definition delete_move_capture (move_id : Uuid) (p : Place) : Place :=
  mkPlace (pc_local p) (filter (fun sc => sc.2.1 <> move_id) (pc_captures p))
    (filter (fun kj => kj.1.1 <> move_id) (pc_journal p)).

(** ** Routes (db/tables/shard_placements.rs) *)

Definition placement_of (s : shard_key) (r : PlacementRow) : ShardPlacement :=
  mkShardPlacement s.1 s.2 (pm_database_alias r) (pm_status r) (pm_move_target_database_alias r) (pm_route_version r)
    (pm_write_epoch r).

(** The checks of migration 0014. *)
Definition placement_ok (r : PlacementRow) : bool :=
  in_range 1 i64_max (pm_route_version r) && in_range 1 i64_max (pm_write_epoch r)
  && match pm_move_target_database_alias r with
     | None => str_eqb (pm_status r) "active"
     | Some target =>
         (str_eqb (pm_status r) "copying" || str_eqb (pm_status r) "draining" || str_eqb (pm_status r) "moving")
         && negb (str_eqb target (pm_database_alias r))
     end.

(** [UPDATE shard_placements SET .. WHERE .. RETURNING ..] of one route. *)
Definition update_route (s : shard_key) (guard : PlacementRow -> bool) (f : PlacementRow -> PlacementRow)
    (t : gmap shard_key PlacementRow) : result (gmap shard_key PlacementRow * option PlacementRow) :=
  match t !! s with
  | Some r =>
      if guard r then
        _ ← ensure (placement_ok (f r)) "new row for relation shard_placements violates check constraint";
        Ok (<[s := f r]> t, Some (f r))
      else Ok (t, None)
  | None => Ok (t, None)
  end.

Definition route_at (alias : string) (version : Z) (statuses : list string) (target : option string)
    (r : PlacementRow) : bool :=
  str_eqb (pm_database_alias r) alias && (pm_route_version r =? version)
  && existsb (str_eqb (pm_status r)) statuses
  && match target with
     | None => true
     | Some t => bool_decide (pm_move_target_database_alias r = Some t)
     end.

Definition mark_shard_placement_copying (s : shard_key) (alias : string) (version : Z) (target : string) :=
  update_route s (route_at alias version ["active"] None)
    (fun r => mkPlacementRow (pm_database_alias r) "copying" (Some target) (pm_route_version r + 1) (pm_write_epoch r)).

Definition mark_shard_placement_draining (s : shard_key) (alias : string) (version : Z) (target : string) :=
  update_route s (route_at alias version ["copying"] (Some target))
    (fun r => mkPlacementRow (pm_database_alias r) "draining" (pm_move_target_database_alias r)
                (pm_route_version r + 1) (pm_write_epoch r)).

Definition mark_shard_placement_moving (s : shard_key) (alias : string) (version : Z) (target : string) :=
  update_route s (route_at alias version ["draining"] (Some target))
    (fun r => mkPlacementRow (pm_database_alias r) "moving" (pm_move_target_database_alias r)
                (pm_route_version r + 1) (pm_write_epoch r)).

Definition abort_shard_placement_move (s : shard_key) (alias : string) (version : Z) (target : string) :=
  update_route s (route_at alias version ["copying"; "draining"; "moving"] (Some target))
    (fun r => mkPlacementRow (pm_database_alias r) "active" None (pm_route_version r + 1)
                (pm_write_epoch r + (if str_eqb (pm_status r) "copying" then 0 else 1))).

Definition fence_active_shard_placement (s : shard_key) (alias : string) (version : Z) :=
  update_route s (fun r => route_at alias version ["active"] None r && opt_is_none (pm_move_target_database_alias r))
    (fun r => mkPlacementRow (pm_database_alias r) (pm_status r) (pm_move_target_database_alias r)
                (pm_route_version r + 1) (pm_write_epoch r)).

Definition activate_moved_shard_placement (s : shard_key) (alias : string) (version : Z) (target : string) :=
  update_route s (route_at alias version ["moving"] (Some target))
    (fun r => mkPlacementRow target "active" None (pm_route_version r + 1) (pm_write_epoch r + 1)).

Definition change_empty_active_shard_placement (s : shard_key) (alias : string) (version : Z) (target : string) :=
  update_route s (route_at alias version ["active"] None)
    (fun r => mkPlacementRow target (pm_status r) None (pm_route_version r + 1) (pm_write_epoch r + 1)).

Definition count_inflight_moves_to_database (alias : string) (t : gmap shard_key PlacementRow) : Z :=
  count_where (fun _ r => bool_decide (pm_move_target_database_alias r = Some alias)
                          && existsb (str_eqb (pm_status r)) ["copying"; "draining"; "moving"]) t.

(** ** Move operations *)

Notation operations := (gmap Uuid MoveOperation).

Definition set_claim (o : MoveOperation) (generation : Z) (claim : option (Uuid * Z)) : MoveOperation :=
  mkMoveOperation (mo_run_id o) (mo_run_shard o) (mo_source_database_alias o) (mo_target_database_alias o)
    (mo_starting_route_version o) (mo_status o) (mo_phase o) (mo_target_reset_at o) (mo_copied_row_count o)
    (mo_copied_byte_count o) generation claim (mo_completed_at o).

Definition set_phase (o : MoveOperation) (phase : string) (reset : option Z) : MoveOperation :=
  mkMoveOperation (mo_run_id o) (mo_run_shard o) (mo_source_database_alias o) (mo_target_database_alias o)
    (mo_starting_route_version o) (mo_status o) phase reset (mo_copied_row_count o)
    (mo_copied_byte_count o) (mo_claim_generation o) (mo_claim o) (mo_completed_at o).

Definition add_copied (o : MoveOperation) (rows bytes : Z) : MoveOperation :=
  mkMoveOperation (mo_run_id o) (mo_run_shard o) (mo_source_database_alias o) (mo_target_database_alias o)
    (mo_starting_route_version o) (mo_status o) (mo_phase o) (mo_target_reset_at o) (mo_copied_row_count o + rows)
    (mo_copied_byte_count o + bytes) (mo_claim_generation o) (mo_claim o) (mo_completed_at o).

Definition settle_operation (o : MoveOperation) (status : string) (completed_at : option Z) : MoveOperation :=
  mkMoveOperation (mo_run_id o) (mo_run_shard o) (mo_source_database_alias o) (mo_target_database_alias o)
    (mo_starting_route_version o) status status (mo_target_reset_at o) (mo_copied_row_count o)
    (mo_copied_byte_count o) (mo_claim_generation o) None completed_at.

Definition is_active (o : MoveOperation) : bool := str_eqb (mo_status o) "active".
Definition claimed_by (token : Uuid) (o : MoveOperation) : bool :=
  is_active o && bool_decide (mo_claim_token o = Some token).

(** [claimed_until = now() + make_interval(secs => 300)]. *)
Definition extend_claim (now : Z) (o : MoveOperation) : MoveOperation :=
  set_claim o (mo_claim_generation o) ((fun c => (c.1, now + SHARD_MOVE_CLAIM_SECONDS * second)) <$> mo_claim o).

(** [UPDATE shard_move_operations SET f WHERE id = m AND guard]: the rows changed. *)
Definition update_operation (m : Uuid) (guard : MoveOperation -> bool) (f : MoveOperation -> MoveOperation)
    (t : operations) : operations * Z :=
  match t !! m with
  | Some o => if guard o then (<[m := f o]> t, 1) else (t, 0)
  | None => (t, 0)
  end.

Definition update_claimed_move_phase (now : Z) (m token : Uuid) (phase : string) : operations -> operations * Z :=
  update_operation m (claimed_by token) (fun o => extend_claim now (set_phase o phase (mo_target_reset_at o))).

Definition mark_same_database_move_ready (now : Z) (m token : Uuid) : operations -> operations * Z :=
  update_operation m (claimed_by token)
    (fun o => set_phase o "catch_up" (Some (default now (mo_target_reset_at o)))).

Definition mark_move_target_reset (now : Z) (m token : Uuid) : operations -> operations * Z :=
  update_operation m (fun o => claimed_by token o && opt_is_none (mo_target_reset_at o))
    (fun o => extend_claim now (set_phase o "backfill" (Some now))).

Definition renew_shard_move_claim (now : Z) (m token : Uuid) (t : operations) : result operations :=
  let '(t, n) := update_operation m (claimed_by token) (extend_claim now) t in
  _ ← ensure (n =? 1) "shard move lost its operation claim"; Ok t.

Definition release_shard_move_claim (m token : Uuid) (t : operations) : operations :=
  (update_operation m (fun o => bool_decide (mo_claim_token o = Some token))
     (fun o => set_claim o (mo_claim_generation o) None) t).1.

Definition settle_aborted_move_operation (now : Z) (m : Uuid) (t : operations) : operations :=
  (update_operation m is_active (fun o => settle_operation o "aborted" (Some now)) t).1.

Definition settle_completed_move_operation (now : Z) (m : Uuid) (token : option Uuid) (t : operations)
    : result operations :=
  let '(t, n) := update_operation m
    (fun o => is_active o && match token with None => true | Some k => bool_decide (mo_claim_token o = Some k) end)
    (fun o => settle_operation o "completed" (Some (default now (mo_completed_at o)))) t in
  _ ← ensure (n =? 1) "shard move could not be marked completed"; Ok t.

Definition for_shard (s : shard_key) (o : MoveOperation) : bool := bool_decide (mo_shard o = s).

(** The active operation of a shard: the partial unique index allows one. *)
Definition active_operation (s : shard_key) (t : operations) : option (Uuid * MoveOperation) :=
  head (map_to_list (rows_where (fun _ o => for_shard s o && is_active o) t)).

Definition select_active_move_id (s : shard_key) (source target : string) (t : operations) : option Uuid :=
  fst <$> head (map_to_list (rows_where (fun _ o => for_shard s o && is_active o
    && str_eqb (mo_source_database_alias o) source && str_eqb (mo_target_database_alias o) target) t)).

(** [ORDER BY CASE status WHEN 'active' THEN 0 ELSE 1 END, completed_at DESC NULLS LAST]. *)
Definition latest (a b : Uuid * MoveOperation) : Prop :=
  let rank o := if is_active o then 0 else 1 in
  let later x y := match x, y with
                   | _, None => True
                   | None, Some _ => False
                   | Some x, Some y => y <= x
                   end in
  rank a.2 < rank b.2 \/ rank a.2 = rank b.2 /\ later (mo_completed_at a.2) (mo_completed_at b.2).
#[global] Instance latest_dec : RelDecision latest.
Proof.
  intros a b. unfold latest. destruct (mo_completed_at a.2), (mo_completed_at b.2); apply _.
Defined.

Definition select_latest_move_to_target (s : shard_key) (target : string) (t : operations)
    : option (Uuid * MoveOperation) :=
  head (merge_sort latest (map_to_list (rows_where (fun _ o => for_shard s o
    && str_eqb (mo_target_database_alias o) target
    && (is_active o || str_eqb (mo_status o) "completed")) t))).

(** ** Page checkpoints *)

Record MoveSourceRow := mkMoveSourceRow { ms_row : MoveRow; ms_row_key : string; ms_row_bytes : Z }.

Record MovePageCheckpoint := mkMovePageCheckpoint {
  ck_end_key : string;
  ck_row_count : Z;
  ck_byte_count : Z;
  ck_checksum : string
}.

Section statements.
Context {MF : MoveFunctions} {LF : LedgerFunctions}.

(** The loop of [bounded_page_len]: rows and bytes taken, and the [break]. *)
Definition page_turn (max_bytes : Z) (st : Z * Z * bool) (row_bytes : Z) : Z * Z * bool :=
  let '(rows, bytes, stop) := st in
  if stop then st
  else if (0 <? rows) && (max_bytes <? Z.min usize_max (bytes + row_bytes)) then (rows, bytes, true)
  else (rows + 1, Z.min usize_max (bytes + row_bytes), false).

Definition bounded_page_len (row_bytes : list Z) (max_rows max_bytes : Z) : Z :=
  if bool_decide (row_bytes = []) || (max_rows =? 0) then 0
  else (fold_left (page_turn max_bytes) (take (Z.to_nat max_rows) row_bytes) (0, 0, false)).1.1.

Definition encode_rows (hasher : result string) (row : MoveSourceRow) : result string :=
  h ← hasher; encoded ← row_vec (ms_row row);
  Ok (h +:+ be_bytes 8 (Z.of_nat (String.length encoded)) +:+ encoded).

Definition move_page_checkpoint (rows : list MoveSourceRow) : result MovePageCheckpoint :=
  last_row ← ok_or (last rows) "cannot checkpoint an empty shard move page";
  bytes ← fold_left encode_rows rows (Ok "");
  Ok (mkMovePageCheckpoint (ms_row_key last_row) (zlen rows) (fold_left (fun n r => n + Z.max 0 (ms_row_bytes r)) rows 0)
        (move_hash bytes)).

Definition select_last_move_page (m : Uuid) (table : string) (t : gmap (Uuid * string) ProgressRow)
    : Z * option string :=
  match t !! (m, table) with
  | Some p => (pg_completed_page_count p, Some (pg_last_end_key p))
  | None => (0, None)
  end.

(** The upsert of the checkpoint: the table, and the page count when a row was
    written. *)
Definition advance_progress (m : Uuid) (table : string) (page_number : Z) (start_after : option string)
    (c : MovePageCheckpoint) (t : gmap (Uuid * string) ProgressRow) : gmap (Uuid * string) ProgressRow * option Z :=
  match t !! (m, table) with
  | None => (<[(m, table) := mkProgressRow 1 start_after (ck_end_key c) (ck_row_count c) (ck_byte_count c)
                               (ck_checksum c)]> t, Some 1)
  | Some p =>
      if (pg_completed_page_count p =? page_number) && bool_decide (Some (pg_last_end_key p) = start_after) then
        (<[(m, table) := mkProgressRow (pg_completed_page_count p + 1) start_after (ck_end_key c)
                           (pg_copied_row_count p + ck_row_count c) (pg_copied_byte_count p + ck_byte_count c)
                           (ck_checksum c)]> t, Some (pg_completed_page_count p + 1))
      else (t, None)
  end.

Definition record_completed_move_page (now : Z) (m token : Uuid) (table : string) (page_number : Z)
    (start_after : option string) (rows : list MoveSourceRow) (ops : operations)
    (t : gmap (Uuid * string) ProgressRow) : result (operations * gmap (Uuid * string) ProgressRow) :=
  c ← move_page_checkpoint rows;
  let '(t', advanced) := advance_progress m table page_number start_after c t in
  _ ← match advanced with
      | Some n => ensure (n =? page_number + 1) "shard move cannot checkpoint a page without its predecessor"
      | None => ensure (match t !! (m, table) with
                        | Some p => (pg_completed_page_count p =? page_number + 1)
                                    && bool_decide (pg_last_start_after_key p = start_after)
                                    && str_eqb (pg_last_end_key p) (ck_end_key c)
                        | None => false
                        end) "shard move has a non-contiguous page checkpoint"
      end;
  let acknowledged n := if opt_is_some advanced then n else 0 in
  let '(ops, n) := update_operation m (claimed_by token)
    (fun o => extend_claim now (set_phase (add_copied o (acknowledged (ck_row_count c)) (acknowledged (ck_byte_count c)))
                                  "backfill" (mo_target_reset_at o))) ops in
  _ ← ensure (n =? 1) "shard move lost its claim before page acknowledgement";
  Ok (ops, t').

(** ** Reading the source *)

Definition by_text (a b : MoveRow * string) : Prop := text_ltb b.2 a.2 = false.
#[global] Instance by_text_dec : RelDecision by_text.
Proof. intros a b. unfold by_text. apply _. Defined.

(** The rows of a table that belong to the shard, with their key texts. *)
Definition source_rows (p : Place) (table : string) (s : shard_key) : list (MoveRow * string) :=
  if str_eqb table "dataset_versions" then
    match lo_runs (pc_local p) !! s.1 with
    | Some run =>
        let id := rc_dataset_version_id (rw_context run) in
        match lo_versions (pc_local p) !! id with
        | Some row => [(MVersion id row, id_text id)]
        | None => []
        end
    | None => []
    end
  else if str_eqb table "runs" then
    match lo_runs (pc_local p) !! s.1 with
    | Some run => [(MRun s.1 run, id_text s.1)]
    | None => []
    end
  else omap (fun k => (fun r => (MShard k r, key_text k)) <$> row_at (pc_db p) s k) (table_rows (pc_db p) s table).

Definition after_key (start_after : option string) (text : string) : bool :=
  match start_after with None => true | Some key => text_ltb key text end.

(** The loop of [select_move_source_page] over the candidates. *)
Fixpoint take_page (candidates : list (MoveRow * string)) (page : list MoveSourceRow) (row_bytes : list Z)
    : list MoveSourceRow :=
  match candidates with
  | [] => page
  | (row, key) :: rest =>
      let row_bytes := row_bytes ++ [Z.max 0 (row_octets row)] in
      if bounded_page_len row_bytes SHARD_MOVE_COPY_BATCH_SIZE SHARD_MOVE_COPY_BATCH_BYTES <? zlen row_bytes then page
      else take_page rest (page ++ [mkMoveSourceRow row key (row_octets row)]) row_bytes
  end.

Definition select_move_source_page (p : Place) (table : string) (s : shard_key) (start_after : option string)
    : list MoveSourceRow :=
  take_page (take (Z.to_nat SHARD_MOVE_COPY_BATCH_SIZE)
    (merge_sort by_text (List.filter (fun rk => after_key start_after rk.2) (source_rows p table s)))) [] [].

(** [DirtyShardKey]: a journalled key and its version. *)
Definition by_change (a b : RowKey * JournalRow) : Prop :=
  jr_last_changed_at a.2 < jr_last_changed_at b.2
  \/ jr_last_changed_at a.2 = jr_last_changed_at b.2 /\ jsonb_key_leb a.1 b.1 = true.
#[global] Instance by_change_dec : RelDecision by_change.
Proof. intros a b. unfold by_change. apply _. Defined.

Definition journal_of (m : Uuid) (j : gmap (Uuid * RowKey) JournalRow) : list (RowKey * JournalRow) :=
  omap (fun kj => if decide (kj.1.1 = m) then Some (kj.1.2, kj.2) else None) (map_to_list j).

Definition select_dirty_shard_keys_for_table (p : Place) (m : Uuid) (s : shard_key) (table : string)
    (current_row_exists : bool) (limit : Z) : list (RowKey * Z) :=
  map (fun kj => (kj.1, jr_change_version kj.2))
    (take (Z.to_nat limit) (merge_sort by_change (List.filter (fun kj => str_eqb (table_of kj.1) table
        && Bool.eqb (opt_is_some (row_at (pc_db p) s kj.1)) current_row_exists) (journal_of m (pc_journal p))))).

Definition select_current_rows_for_dirty_keys (p : Place) (s : shard_key) (keys : list (RowKey * Z))
    : list {k & row_type k} :=
  omap (fun kv => (fun r => existT kv.1 r) <$> row_at (pc_db p) s kv.1) keys.

(** The journal entries whose version is still the replayed one. *)
Definition settle_replayed_dirty_keys (m : Uuid) (keys : list (RowKey * Z)) (p : Place) : Place :=
  set_journal p (fold_left (fun j kv =>
    match j !! (m, kv.1) with
    | Some row => if jr_change_version row =? kv.2 then delete (m, kv.1) j else j
    | None => j
    end) keys (pc_journal p)).

Definition count_dirty_move_keys (m : Uuid) (p : Place) : Z := zlen (journal_of m (pc_journal p)).

(** ** Writing the target *)

Definition reset_target_shard_rows (now : Z) (s : shard_key) (p : Place) : Place :=
  fold_left (delete_row now s) (shard_rows (pc_db p) s) p.

Definition upsert_json_rows (now : Z) (s : shard_key) (rows : list {k & row_type k}) (p : Place) : Place :=
  fold_left (upsert_row now s) rows p.

Definition delete_target_rows_for_dirty_keys (now : Z) (s : shard_key) (keys : list RowKey) (p : Place) : Place :=
  fold_left (delete_row now s) keys p.

(** [normalized_prerequisite_row] of both rows, compared. *)
Definition same_prerequisite_run (a b : RunRow) : bool :=
  bool_decide (rw_name a = rw_name b) && bool_decide (rw_description a = rw_description b)
  && same_context (rw_context a) (rw_context b) && (rw_expected_execution_count a =? rw_expected_execution_count b).

(** One row of [copy_json_rows]: inserted unless it conflicts, then compared with
    the stored one ([verify_prerequisite_rows]). *)
Definition copy_prerequisite (p : Place) (row : MoveRow) : result Place :=
  let lo := pc_local p in
  match row with
  | MVersion id r =>
      let versions := match lo_versions lo !! id with Some _ => lo_versions lo | None => <[id := r]> (lo_versions lo) end in
      _ ← ensure (is_some_and (fun r' => (r'.1 =? r.1) && str_eqb r'.2 r.2) (versions !! id))
            "prerequisite rows conflict with immutable target data";
      Ok (mkPlace (set_runs lo versions (lo_runs lo)) (pc_captures p) (pc_journal p))
  | MRun id r =>
      let conflict := opt_is_some (lo_runs lo !! id)
                      || exists_where (fun _ r' => str_eqb (rc_run_key (rw_context r')) (rc_run_key (rw_context r))) (lo_runs lo) in
      _ ← ensure (conflict || opt_is_some (lo_versions lo !! rc_dataset_version_id (rw_context r)))
            "insert on table runs violates foreign key constraint";
      let runs := if conflict then lo_runs lo else <[id := r]> (lo_runs lo) in
      _ ← ensure (is_some_and (same_prerequisite_run r) (runs !! id))
            "prerequisite rows conflict with immutable target data";
      Ok (mkPlace (set_runs lo (lo_versions lo) runs) (pc_captures p) (pc_journal p))
  | MShard _ _ => Err "unsupported prerequisite table"
  end.

Definition copy_json_rows (rows : list MoveRow) (p : Place) : result Place := foldM copy_prerequisite p rows.

(** The shard rows of a page. *)
Definition shard_row (row : MoveRow) : option {k & row_type k} :=
  match row with MShard k r => Some (existT k r) | _ => None end.

(** ** Verification *)

Record TableFingerprint := mkTableFingerprint { tf_row_count : Z; tf_checksum : string }.

Definition fingerprint_row (hasher : string) (row : string) : string :=
  hasher +:+ be_bytes 8 (Z.of_nat (String.length row)) +:+ row.

Definition fingerprint_ordered_rows (rows : list string) : TableFingerprint :=
  mkTableFingerprint (zlen rows) (move_hash (fold_left fingerprint_row rows "")).

Definition by_row_text (a b : string) : Prop := text_ltb b a = false.
#[global] Instance by_row_text_dec : RelDecision by_row_text.
Proof. intros a b. unfold by_row_text. apply _. Defined.

(** [row_text] of a prerequisite row leaves its mutable columns out. *)
Definition table_fingerprint (p : Place) (table : string) (s : shard_key) : TableFingerprint :=
  fingerprint_ordered_rows (merge_sort by_row_text (map (fun rk => row_text rk.1) (source_rows p table s))).

Definition count_active_shard_work (p : Place) (s : shard_key) : Z :=
  count_where (fun k c => bool_decide (k.1 = s) && bool_decide (ch_status c = ChLeased)) (db_chunks (pc_db p))
  + count_where (fun k a => bool_decide (k.1 = s) && bool_decide (at_status a = AtRunning)) (db_attempts (pc_db p)).

Definition count_shard_owned_rows (p : Place) (s : shard_key) : Z := zlen (shard_rows (pc_db p) s).
End statements.
