(* ===== verification/ShardMove.v ===== *)
(** * Moving and aborting a shard

    [move_shard_placement] and [abort_shard_move] of
    src/vigilo/src/db/workflows/shard_admin.rs, over the statements of
    [MoveTables].  Both are programs over a [World]: the control database with
    its routes, move operations and page checkpoints, and the execution
    databases by identity, since two aliases may name one database.

    Each awaited statement or transaction is one [operation]: other processes
    act first ([env], the interference of that turn), then it takes effect or
    fails as [fault_at] says.  [mw_locked] is the exclusive advisory lock that
    the move's source transaction holds.  What that transaction writes is
    applied when it commits; a route it updated earlier is row-locked until
    then.  [mw_history] records the databases before and after each effect. *)

From Stdlib Require Import ZArith Lia Ascii.
From stdpp Require Import base strings numbers countable gmap sorting sets option list.
From S2P Require Import Prelude Prog BTree Text Json RunTypes ShardTables LocalAdmission ShardRows ControlTables RunPlanning.
From S2P Require Import PlanLedger LocalSeed MoveTables.

Open Scope Z_scope.

(** Routes and rows at one moment. *)
Record View := mkView { vw_placements : gmap shard_key PlacementRow; vw_places : gmap Z Place }.

Record World := mkWorld {
  mw_control : Control;
  mw_databases : databases;
  mw_operations : operations;
  mw_progress : gmap (Uuid * string) ProgressRow;
  mw_places : gmap Z Place;
  mw_locked : bool;
  mw_turn : nat;
  mw_history : list (View * View)
}.

Definition mw_placements (w : World) : gmap shard_key PlacementRow := cd_placements (mw_control w).
Definition view (w : World) : View := mkView (mw_placements w) (mw_places w).

Definition set_control (w : World) (c : Control) : World :=
  mkWorld c (mw_databases w) (mw_operations w) (mw_progress w) (mw_places w) (mw_locked w) (mw_turn w) (mw_history w).
Definition set_placements (w : World) (t : gmap shard_key PlacementRow) : World :=
  set_control w (with_placements (mw_control w) t).
Definition set_operations (w : World) (t : operations) : World :=
  mkWorld (mw_control w) (mw_databases w) t (mw_progress w) (mw_places w) (mw_locked w) (mw_turn w) (mw_history w).
Definition set_progress (w : World) (t : gmap (Uuid * string) ProgressRow) : World :=
  mkWorld (mw_control w) (mw_databases w) (mw_operations w) t (mw_places w) (mw_locked w) (mw_turn w) (mw_history w).
Definition set_places (w : World) (t : gmap Z Place) : World :=
  mkWorld (mw_control w) (mw_databases w) (mw_operations w) (mw_progress w) t (mw_locked w) (mw_turn w) (mw_history w).
Definition set_locked (w : World) (b : bool) : World :=
  mkWorld (mw_control w) (mw_databases w) (mw_operations w) (mw_progress w) (mw_places w) b (mw_turn w) (mw_history w).
Definition set_turn (w : World) (n : nat) : World :=
  mkWorld (mw_control w) (mw_databases w) (mw_operations w) (mw_progress w) (mw_places w) (mw_locked w) n (mw_history w).
Definition record_effect (w w' : World) : World :=
  mkWorld (mw_control w') (mw_databases w') (mw_operations w') (mw_progress w') (mw_places w') (mw_locked w')
    (mw_turn w') ((view w, view w') :: mw_history w').

Notation prog := (Prog.prog World).

(** ** Values *)

Definition validate_run_shard (run_shard : Z) : result unit :=
  ensure ((0 <=? run_shard) && (run_shard <? RUN_SHARD_COUNT)) "run_shard is outside the supported range".

Definition validate_non_empty (value : string) : result unit :=
  ensure (negb (trim_is_empty value)) "alias must not be empty".

(** [str::trim] on bytes: no suffix of a character that is not white space
    starts a white-space character. *)
Fixpoint trim_start (l : list ascii) : list ascii :=
  match l with
  | [] => []
  | a :: l1 =>
      if ws1 (code a) then trim_start l1
      else match l1 with
           | b :: l2 =>
               if ws2 (code a) (code b) then trim_start l2
               else match l2 with
                    | c :: l3 => if ws3 (code a) (code b) (code c) then trim_start l3 else l
                    | [] => l
                    end
           | [] => l
           end
  end.

Fixpoint trim_end (l : list ascii) : list ascii :=
  match l with
  | [] => []
  | a :: l' => if all_whitespace (map code l) then [] else a :: trim_end l'
  end.

Definition normalize_alias (alias : string) : result string :=
  let trimmed := String.string_of_list_ascii (trim_end (trim_start (String.list_ascii_of_string alias))) in
  _ ← ensure (negb (str_is_empty trimmed)) "database alias must not be empty"; Ok trimmed.

(** [DatabasePlacement]: role and status. *)
Definition is_shard_capable (p : string * string) : bool := str_eqb p.1 "shard" || str_eqb p.1 "control_and_shard".
Definition accepts_new_shards (p : string * string) : bool := str_eqb p.2 "active".
Definition can_serve_owned_shards (p : string * string) : bool := str_eqb p.2 "active" || str_eqb p.2 "draining".

Definition find_database (dbs : databases) (alias : string) : result (string * string) :=
  ok_or (dbs !! alias) "database placement alias was not found".

Definition validate_new_ownership_target (dbs : databases) (alias : string) : result unit :=
  p ← find_database dbs alias;
  _ ← ensure (accepts_new_shards p) "database placement cannot receive new shard ownership";
  ensure (is_shard_capable p) "database placement is not shard-capable".

Definition validate_target_placement (dbs : databases) (alias : string) : result unit :=
  p ← find_database dbs alias;
  _ ← ensure (str_eqb p.2 "active") "database placement cannot receive moved shard rows";
  ensure (is_shard_capable p) "database placement is not shard-capable".

Definition validate_source_placement (dbs : databases) (alias : string) : result unit :=
  p ← find_database dbs alias;
  _ ← ensure (is_shard_capable p) "database placement is not shard-capable";
  ensure (can_serve_owned_shards p) "database placement cannot serve source shard ownership".

Definition in_progress (status : string) : bool :=
  str_eqb status "copying" || str_eqb status "draining" || str_eqb status "moving".

Record TargetMoveWriteFence := mkTargetMoveWriteFence {
  tw_run_id : Uuid;
  tw_run_shard : Z;
  tw_database_alias : string;
  tw_write_epoch : Z;
  tw_move_fence : LocalShardMoveFence
}.

Definition from_operation (m : Uuid) (o : MoveOperation) (write_epoch : Z) (claim_token : Uuid)
    : result TargetMoveWriteFence :=
  _ ← ensure ((0 <? mo_claim_generation o) && bool_decide (mo_claim_token o = Some claim_token))
        "shard move returned invalid claim authority";
  Ok (mkTargetMoveWriteFence (mo_run_id o) (mo_run_shard o) (mo_target_database_alias o) write_epoch
        (mkLocalShardMoveFence m (mo_claim_generation o) claim_token)).

Record ShardMoveTableReport := mkShardMoveTableReport {
  mr_table : string;
  mr_source_row_count : option Z;
  mr_target_row_count : option Z;
  mr_copied_row_count : Z;
  mr_source_checksum : option string;
  mr_target_checksum : option string;
  mr_verification_mode : string;
  mr_verified : bool
}.

Record ShardMoveOptions := mkShardMoveOptions { op_dry_run : bool; op_verify_only : bool; op_force : bool }.

Record ShardMoveOutcome := mkShardMoveOutcome {
  so_shard : shard_key;
  so_source_database_alias : string;
  so_target_database_alias : string;
  so_options : ShardMoveOptions;
  so_active_work_count : Z;
  so_moved : bool;
  so_placement : ShardPlacement;
  so_tables : list ShardMoveTableReport
}.

Record ShardMoveAbortOutcome := mkShardMoveAbortOutcome {
  ao_shard : shard_key;
  ao_source_database_alias : string;
  ao_target_database_alias : string;
  ao_aborted : bool;
  ao_placement : ShardPlacement
}.

(** [PreparedShardMove]. *)
Record PreparedShardMove := mkPreparedShardMove {
  pr_route : ShardPlacement;
  pr_target_fence : option TargetMoveWriteFence
}.

Definition DRAIN_PENDING : string := "shard move is waiting for active work to drain".
Definition CATCH_UP_PENDING : string := "shard move is waiting for changed rows to be replayed".

(** The claim of [claim_shard_move_operation]: the shard's active operation or a
    new one under [new_id]. *)
Definition claim_shard_move_operation (now : Z) (dbs : databases) (current : ShardPlacement) (target : string)
    (claim_token new_id : Uuid) (t : operations) : result (operations * (Uuid * MoveOperation)) :=
  _ ← validate_new_ownership_target dbs target;
  mo ← match active_operation (sp_run_id current, sp_run_shard current) t with
       | Some (m, o) =>
           _ ← ensure (str_eqb (mo_source_database_alias o) (sp_database_alias current)
                       && str_eqb (mo_target_database_alias o) target) "the shard already has another active move";
           Ok (m, o)
       | None =>
           _ ← ensure (opt_is_none (t !! new_id) && negb (str_eqb (sp_database_alias current) target)
                       && (0 <? sp_route_version current))
                 "new row for relation shard_move_operations violates a constraint";
           Ok (new_id, mkMoveOperation (sp_run_id current) (sp_run_shard current) (sp_database_alias current) target
                         (sp_route_version current) "active" "reserved" None 0 0 0 None None)
       end;
  let '(m, o) := mo in
  _ ← ensure (match mo_claim o with
              | None => true
              | Some (held, until) => (until <? now) || (held =? claim_token)
              end) "the shard move is currently claimed by another worker";
  let o := set_claim o (mo_claim_generation o + 1) (Some (claim_token, now + SHARD_MOVE_CLAIM_SECONDS * second)) in
  Ok (<[m := o]> t, (m, o)).

Section programs.
Context {MF : MoveFunctions} {LF : LedgerFunctions}.
(** The database an alias connects to: what [DATABASE_IDENTITY_SQL] returns. *)
Variable identity_of : string -> Z.
Variable control_alias : string.
Variable now_at : nat -> Z.
Variable fault_at : nat -> Fault.
Variable env : nat -> World -> World.

(** ** Operations *)

Definition operation {A} (f : Z -> World -> result (World * A)) : prog A := fun w =>
  let n := mw_turn w in
  let w1 := set_turn (env n w) (S n) in
  attempt (fault_at n) (st ← f (now_at n) w1; Ok (record_effect w1 st.1, st.2)) w1.

Definition query {A} (f : World -> result A) : prog A := operation (fun _ w => a ← f w; Ok (w, a)).

(** An update of the routes, with the row it returns. *)
Definition route_update (s : shard_key)
    (f : gmap shard_key PlacementRow -> result (gmap shard_key PlacementRow * option PlacementRow))
    : prog (option ShardPlacement) :=
  operation (fun _ w => st ← f (mw_placements w); Ok (set_placements w st.1, option_map (placement_of s) st.2)).

(** An update of the move operations. *)
Definition operation_update {A} (f : Z -> operations -> result (operations * A)) : prog A :=
  operation (fun now w => st ← f now (mw_operations w); Ok (set_operations w st.1, st.2)).

(** The execution database of an alias; the control database has one [runs]. *)
Definition place_at (w : World) (alias : string) : result Place :=
  p ← ok_or (mw_places w !! identity_of alias) "database is unreachable";
  Ok (if identity_of alias =? identity_of control_alias then
        mkPlace (mkLocal (cd_runs (mw_control w)) (lo_versions (pc_local p)) (lo_db (pc_local p)))
          (pc_captures p) (pc_journal p)
      else p).

Definition put_place (w : World) (alias : string) (p : Place) : World :=
  let w := if identity_of alias =? identity_of control_alias
           then set_control w (with_runs (mw_control w) (lo_runs (pc_local p))) else w in
  set_places w (<[identity_of alias := p]> (mw_places w)).

(** A transaction of an execution database. *)
Definition place_update {A} (alias : string) (f : Z -> Place -> result (Place * A)) : prog A :=
  operation (fun now w => p ← place_at w alias; st ← f now p; Ok (put_place w alias st.1, st.2)).
Definition place_query {A} (alias : string) (f : Place -> A) : prog A :=
  query (fun w => p ← place_at w alias; Ok (f p)).

Definition select_shard_placement (s : shard_key) : prog ShardPlacement :=
  query (fun w => r ← ok_or (mw_placements w !! s) "shard placement was not found"; Ok (placement_of s r)).

Definition ensure_run_creation_is_inactive (run_id : Uuid) : prog unit :=
  query (fun w => ensure (is_none_or (fun r => negb (bool_decide (rw_status r = RunCreating))) (cd_runs (mw_control w) !! run_id))
                    "run is still creating").

Definition database_check (f : databases -> result unit) : prog unit := query (fun w => f (mw_databases w)).

(** [DatabaseRouter::execution_database] and [execution_target_database]: the
    pool stands for its alias. *)
Definition execution_pool (serves : string * string -> bool) (alias : string) : prog string :=
  alias ⇐ lift (normalize_alias alias);
  query (fun w => p ← find_database (mw_databases w) alias;
                  _ ← ensure (serves p) "database placement does not serve shard ownership";
                  _ ← ensure (is_shard_capable p) "database placement is not shard-capable"; Ok alias).
Definition execution_database : string -> prog string := execution_pool can_serve_owned_shards.
Definition execution_target_database : string -> prog string := execution_pool accepts_new_shards.

(** [databases_share_identity]: a query of each database. *)
Definition databases_share_identity (source target : string) : prog bool :=
  a ⇐ place_query source (fun _ => identity_of source);
  b ⇐ place_query target (fun _ => identity_of target);
  pret (a =? b).

Definition transition (alias : string) (draft : LocalShardAdmissionDraft) (allowed : list LocalShardAdmissionState)
    : prog unit :=
  place_update alias (fun now p => st ← transition_local_shard_admission (pc_db p) now draft allowed;
                                   Ok (set_db p st.1, tt)).

(** [reconcile_source_admission_with_fence]. *)
Definition reconcile_source_admission_with_fence (alias : string) (draft : LocalShardAdmissionDraft)
    (route_status : string) : prog unit :=
  place_update alias (fun now p =>
    let current := select_local_shard_admission (pc_db p) (dr_run_id draft) (dr_run_shard draft) in
    let state := if str_eqb route_status "copying"
                    && is_some_and (fun a => str_eqb (ad_database_alias a) (dr_database_alias draft)
                                             && (ad_write_epoch a =? dr_write_epoch draft)
                                             && bool_decide (ad_state a = Draining)) current
                 then Draining else dr_state draft in
    let allowed := if bool_decide (state = Draining) then [Open; Draining] else [Open] in
    let draft := mkLocalShardAdmissionDraft (dr_run_id draft) (dr_run_shard draft) (dr_database_alias draft)
                   (dr_write_epoch draft) state (dr_redirect_database_alias draft) (dr_move_fence draft) in
    st ← transition_local_shard_admission (pc_db p) now draft allowed; Ok (set_db p st.1, tt)).

(** ** Fenced writes of the target *)

Definition fence_shard (f : TargetMoveWriteFence) : shard_key := (tw_run_id f, tw_run_shard f).

Definition install_target_move_write_fence (target : string) (f : TargetMoveWriteFence) : prog unit :=
  place_update target (fun now p =>
    st ← install_local_shard_move_fence (pc_db p) now
           (mkLocalShardAdmissionDraft (tw_run_id f) (tw_run_shard f) (tw_database_alias f) (tw_write_epoch f) Prepared
              None (Some (tw_move_fence f)));
    Ok (set_db p st.1, tt)).

Definition validate_target_move_write (f : TargetMoveWriteFence) (p : Place) : result unit :=
  match validate_local_shard_move_fence (pc_db p) (tw_run_id f) (tw_run_shard f) (tw_database_alias f)
          (tw_write_epoch f) (tw_move_fence f) with
  | inl _ => Err "target move write is not admitted"
  | inr _ => Ok tt
  end.

Definition fenced_write (target : string) (f : TargetMoveWriteFence) (g : Z -> Place -> result Place) : prog unit :=
  place_update target (fun now p => _ ← validate_target_move_write f p; p ← g now p; Ok (p, tt)).

Definition reset_target_move_rows (target : string) (f : TargetMoveWriteFence) : prog unit :=
  fenced_write target f (fun now p => Ok (reset_target_shard_rows now (fence_shard f) p)).
Definition copy_target_move_rows (target : string) (f : TargetMoveWriteFence) (rows : list MoveRow) : prog unit :=
  fenced_write target f (fun _ p => copy_json_rows rows p).
Definition upsert_target_move_rows (target : string) (f : TargetMoveWriteFence) (rows : list {k & row_type k})
    : prog unit :=
  fenced_write target f (fun now p => Ok (upsert_json_rows now (fence_shard f) rows p)).
Definition delete_target_move_rows (target : string) (f : TargetMoveWriteFence) (keys : list RowKey) : prog unit :=
  fenced_write target f (fun now p => Ok (delete_target_rows_for_dirty_keys now (fence_shard f) keys p)).

(** ** Copying *)

Definition move_of (f : TargetMoveWriteFence) : Uuid := mf_move_id (tw_move_fence f).
Definition token_of (f : TargetMoveWriteFence) : Uuid := mf_claim_token (tw_move_fence f).

Definition copy_and_checkpoint_move_page (target : string) (f : TargetMoveWriteFence) (table : string)
    (page_number : Z) (cursor : option string) (rows : list MoveSourceRow) : prog unit :=
  _ ⇐ (if existsb (str_eqb table) PREREQUISITE_TABLES then copy_target_move_rows target f (map ms_row rows)
       else upsert_target_move_rows target f (omap (fun r => shard_row (ms_row r)) rows));
  operation (fun now w =>
    st ← record_completed_move_page now (move_of f) (token_of f) table page_number cursor rows (mw_operations w)
           (mw_progress w);
    Ok (set_progress (set_operations w st.1) st.2, tt)).

(** The page loop of one table. *)
Fixpoint backfill_table (fuel : nat) (source target : string) (f : TargetMoveWriteFence) (table : string)
    (page_number : Z) (cursor : option string) : prog unit :=
  rows ⇐ place_query source (fun p => select_move_source_page p table (fence_shard f) cursor);
  match rows with
  | [] => pret tt
  | _ :: _ =>
      match fuel with
      | O => fun _ => None
      | S fuel' =>
          _ ⇐ copy_and_checkpoint_move_page target f table page_number cursor rows;
          backfill_table fuel' source target f table (page_number + 1) (ms_row_key <$> last rows)
      end
  end.

Definition claimed_phase (m token : Uuid) (phase message : string) : prog unit :=
  n ⇐ operation_update (fun now t => Ok (update_claimed_move_phase now m token phase t));
  lift (ensure (n =? 1) message).

Definition backfill_shard_move (fuel : nat) (source target : string) (f : TargetMoveWriteFence) : prog unit :=
  _ ⇐ pfold (fun _ table =>
        at_ ⇐ query (fun w => Ok (select_last_move_page (move_of f) table (mw_progress w)));
        backfill_table fuel source target f table at_.1 at_.2) tt move_table_names;
  claimed_phase (move_of f) (token_of f) "catch_up" "shard move lost its claim after backfill".

Definition present (current : list {k & row_type k}) (k : RowKey) : bool :=
  existsb (fun kr => bool_decide (projT1 kr = k)) current.

Definition settle_replayed (source : string) (m : Uuid) (keys : list (RowKey * Z)) : prog unit :=
  place_update source (fun _ p => Ok (settle_replayed_dirty_keys m keys p, tt)).

(** One batch of each loop of [replay_dirty_shard_keys]. *)
Definition replay_present (source target : string) (f : TargetMoveWriteFence) (m : Uuid) (keys : list (RowKey * Z))
    : prog unit :=
  current ⇐ place_query source (fun p => select_current_rows_for_dirty_keys p (fence_shard f) keys);
  _ ⇐ upsert_target_move_rows target f current;
  settle_replayed source m (List.filter (fun kv => present current kv.1) keys).

Definition replay_missing (source target : string) (f : TargetMoveWriteFence) (m : Uuid) (keys : list (RowKey * Z))
    : prog unit :=
  _ ⇐ delete_target_move_rows target f (map fst keys);
  settle_replayed source m keys.

(** [while completed_batches < max_batches]. *)
Fixpoint replay_table (fuel : nat) (source target : string) (f : TargetMoveWriteFence) (m : Uuid)
    (max_batches : Z) (exists_ : bool) (completed : Z) (table : string) : prog Z :=
  if max_batches <=? completed then pret completed
  else
    keys ⇐ place_query source (fun p =>
             select_dirty_shard_keys_for_table p m (fence_shard f) table exists_ SHARD_MOVE_COPY_BATCH_SIZE);
    match keys with
    | [] => pret completed
    | _ :: _ =>
        match fuel with
        | O => fun _ => None
        | S fuel' =>
            _ ⇐ (if exists_ then replay_present source target f m keys else replay_missing source target f m keys);
            replay_table fuel' source target f m max_batches exists_ (completed + 1) table
        end
    end.

Definition replay_dirty_shard_keys (fuel : nat) (source target : string) (f : TargetMoveWriteFence) (m : Uuid)
    (max_batches : Z) : prog Z :=
  completed ⇐ pfold (replay_table fuel source target f m max_batches true) 0 SHARD_TABLES;
  _ ⇐ pfold (replay_table fuel source target f m max_batches false) completed (rev SHARD_TABLES);
  place_query source (count_dirty_move_keys m).

Definition ensure_move_target_reset (target : string) (f : TargetMoveWriteFence) (o : MoveOperation) (token : Uuid)
    : prog unit :=
  if opt_is_some (mo_target_reset_at o) then pret tt
  else
    _ ⇐ reset_target_move_rows target f;
    n ⇐ operation_update (fun now t => Ok (mark_move_target_reset now (move_of f) token t));
    lift (ensure (n =? 1) "shard move lost its claim during target reset").

(** ** Verification *)

Definition verify_table (source target : string) (s : shard_key) (copied : btree string Z)
    (reports : list ShardMoveTableReport) (table : string) : prog (list ShardMoveTableReport) :=
  a ⇐ place_query source (fun p => table_fingerprint p table s);
  b ⇐ place_query target (fun p => table_fingerprint p table s);
  pret (reports ++ [mkShardMoveTableReport table (Some (tf_row_count a)) (Some (tf_row_count b))
                      (default 0 (bt_get table copied)) (Some (tf_checksum a)) (Some (tf_checksum b))
                      "full_fingerprint" ((tf_row_count a =? tf_row_count b) && str_eqb (tf_checksum a) (tf_checksum b))]).

Definition verify_move_tables (source target : string) (s : shard_key) : prog (list ShardMoveTableReport) :=
  pfold (verify_table source target s []) [] move_table_names.

Definition checkpoint_report (t : gmap (Uuid * string) ProgressRow) (m : Uuid) (table : string)
    : ShardMoveTableReport :=
  mkShardMoveTableReport table None None (match t !! (m, table) with Some p => pg_copied_row_count p | None => 0 end)
    None None "checkpoint_and_replay" true.

Definition checkpoint_move_reports (m : Uuid) : prog (list ShardMoveTableReport) :=
  query (fun w => Ok (map (checkpoint_report (mw_progress w) m) move_table_names)).

(** ** Preparing a move online *)

Definition draft (s : shard_key) (alias : string) (write_epoch : Z) (state : LocalShardAdmissionState)
    (redirect : option string) : LocalShardAdmissionDraft :=
  mkLocalShardAdmissionDraft s.1 s.2 alias write_epoch state redirect None.

Definition capture_changes (source : string) (m : Uuid) (s : shard_key) : prog unit :=
  place_update source (fun _ p => p ← enable_shard_move_capture m s p; Ok (p, tt)).

Definition reserve_active_move_target_and_mark_copying (s : shard_key) (alias : string) (version : Z) (target : string)
    : prog (option ShardPlacement) :=
  operation (fun _ w =>
    _ ← validate_new_ownership_target (mw_databases w) target;
    st ← mark_shard_placement_copying s alias version target (mw_placements w);
    Ok (set_placements w st.1, option_map (placement_of s) st.2)).

Definition release_claim (m token : Uuid) : prog unit :=
  operation_update (fun _ t => Ok (release_shard_move_claim m token t, tt)).

(** The route was changed under the claim: the source follows the route, and the
    move fails. *)
Definition follow_changed_route {A} (source : string) (o : MoveOperation) (authoritative : ShardPlacement) : prog A :=
  let still_source := str_eqb (sp_database_alias authoritative) (mo_source_database_alias o) in
  let state := if negb still_source then Closed
               else if str_eqb (sp_status authoritative) "draining" then Draining else Open in
  _ ⇐ transition source
        (draft (mo_shard o) (mo_source_database_alias o) (sp_write_epoch authoritative) state
           (if still_source then None else Some (sp_database_alias authoritative)))
        [Open; Draining; Closed];
  lift (Err "route changed while waiting for move admission").

Definition start_copying (source : string) (m : Uuid) (o : MoveOperation) (route : ShardPlacement)
    (same_database : bool) : prog unit :=
  _ ⇐ (if same_database then pret tt else capture_changes source m (mo_shard o));
  if str_eqb (sp_status route) "active" then
    marked ⇐ reserve_active_move_target_and_mark_copying (mo_shard o) (mo_source_database_alias o)
               (sp_route_version route) (mo_target_database_alias o);
    _ ⇐ lift (ok_or marked "route changed before online copy reservation"); pret tt
  else pret tt.

(** The copy of [prepare_online_shard_move] when the databases differ. *)
Definition copy_online (fuel : nat) (source target : string) (m : Uuid) (o : MoveOperation) (token : Uuid)
    (f : TargetMoveWriteFence) : prog unit :=
  _ ⇐ install_target_move_write_fence target f;
  _ ⇐ ensure_move_target_reset target f o token;
  _ ⇐ (if existsb (str_eqb (mo_phase o)) ["catch_up"; "draining"; "cutover"] then pret tt
       else backfill_shard_move fuel source target f);
  remaining ⇐ replay_dirty_shard_keys fuel source target f m SHARD_MOVE_ONLINE_REPLAY_BATCHES;
  lift (ensure (remaining <=? SHARD_MOVE_FINAL_DIRTY_KEY_LIMIT) CATCH_UP_PENDING).

Definition start_draining (source : string) (o : MoveOperation) (route : ShardPlacement) : prog ShardPlacement :=
  if str_eqb (sp_status route) "copying" then
    _ ⇐ transition source
          (draft (mo_shard o) (mo_source_database_alias o) (sp_write_epoch route) Draining
             (Some (mo_target_database_alias o))) [Open; Draining];
    marked ⇐ route_update (mo_shard o) (mark_shard_placement_draining (mo_shard o) (mo_source_database_alias o)
               (sp_route_version route) (mo_target_database_alias o));
    lift (ok_or marked "route changed before drain cutover")
  else pret route.

Definition prepare_online_shard_move (fuel : nat) (source target : string) (current : ShardPlacement)
    (m : Uuid) (o : MoveOperation) (token : Uuid) : prog PreparedShardMove :=
  same_database ⇐ databases_share_identity source target;
  _ ⇐ (if str_eqb (sp_status current) "moving" then pret tt
       else reconcile_source_admission_with_fence source
              (draft (mo_shard o) (mo_source_database_alias o) (sp_write_epoch current)
                 (if str_eqb (sp_status current) "draining" then Draining else Open)
                 (Some (mo_target_database_alias o))) (sp_status current));
  authoritative ⇐ select_shard_placement (mo_shard o);
  if negb (same_route_fence current authoritative) then follow_changed_route source o authoritative
  else
    _ ⇐ start_copying source m o current same_database;
    _ ⇐ (if same_database then
           n ⇐ operation_update (fun now t => Ok (mark_same_database_move_ready now m token t));
           lift (ensure (n =? 1) "shard move lost its claim during preparation")
         else
           f ⇐ lift (from_operation m o (sp_write_epoch current + 1) token);
           copy_online fuel source target m o token f);
    _ ⇐ operation_update (fun now t => t ← renew_shard_move_claim now m token t; Ok (t, tt));
    route ⇐ select_shard_placement (mo_shard o);
    route ⇐ start_draining source o route;
    _ ⇐ claimed_phase m token "draining" "shard move lost its claim before draining";
    fence ⇐ (if same_database then pret None
             else f ⇐ lift (from_operation m o (sp_write_epoch route + 1) token); pret (Some f));
    pret (mkPreparedShardMove route fence).

(** ** The cutover under the source lock *)

(** The source transaction: whatever ends it releases the lock. *)
Definition with_source_tx {A} (body : prog A) : prog A := fun w =>
  match (_ ⇐ operation (fun _ w => Ok (set_locked w true, tt)); body) w with
  | Some (w', r) => Some (set_locked w' false, r)
  | None => None
  end.

Inductive Barrier :=
| AlreadyMoved (active_work_count : Z) (placement : ShardPlacement) (reports : list ShardMoveTableReport)
| StillBusy (active_work_count : Z)
| CutOver (active_work_count : Z) (moving : ShardPlacement) (reports : list ShardMoveTableReport)
    (activated : option ShardPlacement).

(** The route is frozen; on the control database this is part of the source
    transaction and becomes visible with it. *)
Definition freeze (s : shard_key) (source_alias target_alias : string) (draining : ShardPlacement) :=
  if str_eqb (sp_status draining) "draining"
  then mark_shard_placement_moving s source_alias (sp_route_version draining) target_alias
  else fun t => Ok (t, t !! s).

Definition freeze_route (source_is_control : bool) (s : shard_key) (source_alias target_alias : string)
    (draining : ShardPlacement) : prog ShardPlacement :=
  if str_eqb (sp_status draining) "draining" then
    marked ⇐ (if source_is_control then
                query (fun w => st ← freeze s source_alias target_alias draining (mw_placements w);
                                Ok (option_map (placement_of s) st.2))
              else route_update s (freeze s source_alias target_alias draining));
    lift (ok_or marked "route changed before it could be frozen for copying")
  else pret draining.

(** [activate_moved_shard_placement_on_target_with]. *)
Definition activate_on_target (dbs : databases) (s : shard_key) (source_alias : string) (version : Z) (target_alias : string)
    (t : gmap shard_key PlacementRow) : result (gmap shard_key PlacementRow * ShardPlacement) :=
  _ ← validate_new_ownership_target dbs target_alias;
  st ← activate_moved_shard_placement s source_alias version target_alias t;
  r ← ok_or st.2 "route changed before target activation";
  Ok (st.1, placement_of s r).

(** The end of the source transaction: the source is closed, the capture is
    dropped and, on the control database, the route is activated. *)
Definition commit_source (source_is_control : bool) (s : shard_key) (source source_alias target_alias : string) (m : Uuid)
    (draining moving : ShardPlacement) : prog (option ShardPlacement) :=
  operation (fun now w =>
    p ← place_at w source;
    st ← transition_local_shard_admission (pc_db p) now
           (draft s source_alias (sp_write_epoch moving + 1) Closed (Some target_alias)) [Closed];
    let p := delete_move_capture m (set_db p st.1) in
    if source_is_control then
      frozen ← freeze s source_alias target_alias draining (mw_placements w);
      active ← activate_on_target (mw_databases w) s source_alias (sp_route_version moving) target_alias frozen.1;
      Ok (set_placements (put_place w source p) active.1, Some active.2)
    else Ok (put_place w source p, None)).

Definition cut_over (fuel : nat) (source_is_control : bool) (s : shard_key) (source target source_alias target_alias : string)
    (m token : Uuid) (prepared : PreparedShardMove) : prog Barrier :=
  current ⇐ select_shard_placement s;
  if str_eqb (sp_database_alias current) target_alias && str_eqb (sp_status current) "active" then
    n ⇐ place_query source (fun p => count_active_shard_work p s);
    reports ⇐ verify_move_tables source target s;
    _ ⇐ lift (ensure (forallb mr_verified reports) "the completed move could not be verified");
    pret (AlreadyMoved n current reports)
  else
    _ ⇐ lift (ensure (same_route_fence (pr_route prepared) current) "route changed while waiting for move admission");
    _ ⇐ lift (ensure (str_eqb (sp_database_alias current) source_alias
                      && (str_eqb (sp_status current) "active" || in_progress (sp_status current)))
                "route changed while waiting for move admission");
    _ ⇐ lift (ensure (str_eqb (sp_status current) "active"
                      || bool_decide (sp_move_target_database_alias current = Some target_alias))
                "the shard is already moving toward another database placement");
    n ⇐ place_query source (fun p => count_active_shard_work p s);
    if 0 <? n then pret (StillBusy n)
    else
      moving ⇐ freeze_route source_is_control s source_alias target_alias current;
      _ ⇐ claimed_phase m token "cutover" "shard move lost its claim before cutover";
      remaining ⇐ match pr_target_fence prepared with
                  | Some f => replay_dirty_shard_keys fuel source target f m usize_max
                  | None => pret 0
                  end;
      _ ⇐ lift (ensure (remaining =? 0) "final replay retained dirty keys");
      reports ⇐ checkpoint_move_reports m;
      activated ⇐ commit_source source_is_control s source source_alias target_alias m current moving;
      pret (CutOver n moving reports activated).

(** After the source transaction: activation, the target opened, the operation
    completed. *)
Definition finish_move (s : shard_key) (target source_alias target_alias : string) (m token : Uuid)
    (moving : ShardPlacement) (activated : option ShardPlacement) : prog ShardPlacement :=
  placement ⇐ match activated with
              | Some placement => pret placement
              | None => operation (fun _ w =>
                  st ← activate_on_target (mw_databases w) s source_alias (sp_route_version moving) target_alias
                         (mw_placements w);
                  Ok (set_placements w st.1, st.2))
              end;
  _ ⇐ lift (ensure (sp_write_epoch placement =? sp_write_epoch moving + 1) "activated an unexpected write epoch");
  _ ⇐ transition target (draft s target_alias (sp_write_epoch placement) Open None) [Prepared; Closed; Open];
  _ ⇐ operation_update (fun now t => t ← settle_completed_move_operation now m (Some token) t; Ok (t, tt));
  pret placement.

(** ** [move_shard_placement] *)

(** A move that reached its target before: both sides are settled again. *)
Definition retry_completed_move (s : shard_key) (source target target_alias : string) (current : ShardPlacement)
    (m : Uuid) (o : MoveOperation) (options : ShardMoveOptions) : prog ShardMoveOutcome :=
  old_source ⇐ execution_database (mo_source_database_alias o);
  same_database ⇐ databases_share_identity old_source target;
  _ ⇐ (if same_database then pret tt
       else transition old_source (draft s (mo_source_database_alias o) (sp_write_epoch current) Closed (Some target_alias))
              [Closed]);
  _ ⇐ transition target (draft s target_alias (sp_write_epoch current) Open None) [Prepared; Closed; Open];
  _ ⇐ (if str_eqb (mo_status o) "active" then
         _ ⇐ place_update old_source (fun _ p => Ok (delete_move_capture m p, tt));
         operation_update (fun now t => t ← settle_completed_move_operation now m None t; Ok (t, tt))
       else pret tt);
  reports ⇐ checkpoint_move_reports m;
  n ⇐ place_query source (fun p => count_active_shard_work p s);
  pret (mkShardMoveOutcome s (mo_source_database_alias o) target_alias (mkShardMoveOptions false false (op_force options))
          n false current reports).

Definition drain_pending {A} (m token : Uuid) : prog A :=
  _ ⇐ release_claim m token; lift (Err DRAIN_PENDING).

(** The claimed part of a move. *)
Definition move_online (fuel : nat) (s : shard_key) (source target target_alias : string) (current : ShardPlacement)
    (options : ShardMoveOptions) (token new_id : Uuid) : prog ShardMoveOutcome :=
  mo ⇐ operation (fun now w =>
         st ← claim_shard_move_operation now (mw_databases w) current target_alias token new_id (mw_operations w);
         Ok (set_operations w st.1, st.2));
  let '(m, o) := mo in
  prepared ⇐ (fun w => match prepare_online_shard_move fuel source target current m o token w with
                       | Some (w', Err e) => (_ ⇐ release_claim m token; lift (Err e)) w'
                       | r => r
                       end);
  let source_alias := sp_database_alias (pr_route prepared) in
  n ⇐ place_query source (fun p => count_active_shard_work p s);
  if 0 <? n then drain_pending m token
  else
    barrier ⇐ with_source_tx (cut_over fuel (str_eqb source_alias control_alias) s source target source_alias
                                target_alias m token prepared);
    match barrier with
    | AlreadyMoved n placement reports =>
        pret (mkShardMoveOutcome s source_alias target_alias (mkShardMoveOptions false false (op_force options))
                n false placement reports)
    | StillBusy _ => drain_pending m token
    | CutOver n moving reports activated =>
        placement ⇐ finish_move s target source_alias target_alias m token moving activated;
        pret (mkShardMoveOutcome s source_alias target_alias (mkShardMoveOptions false false (op_force options))
                n true placement reports)
    end.

Definition move_shard_placement (fuel : nat) (run_id run_shard : Z) (target_alias : string) (options : ShardMoveOptions)
    (token new_id : Uuid) : prog ShardMoveOutcome :=
  let s := (run_id, run_shard) in
  _ ⇐ lift (validate_run_shard run_shard);
  _ ⇐ lift (validate_non_empty target_alias);
  _ ⇐ lift (ensure (negb (op_dry_run options && op_verify_only options)) "--dry-run and --verify-only cannot be used together");
  _ ⇐ ensure_run_creation_is_inactive run_id;
  current ⇐ select_shard_placement s;
  let here := str_eqb (sp_database_alias current) target_alias in
  let inspecting := op_dry_run options || op_verify_only options in
  completed ⇐ (if negb inspecting && here && str_eqb (sp_status current) "active"
               then query (fun w => Ok (select_latest_move_to_target s target_alias (mw_operations w)))
               else pret None);
  let retrying := opt_is_some completed in
  _ ⇐ (if op_verify_only options then database_check (fun dbs => validate_source_placement dbs target_alias)
       else if retrying then pret tt
       else database_check (fun dbs => validate_target_placement dbs target_alias));
  _ ⇐ lift (ensure (negb here || op_verify_only options || retrying) "the shard already routes to the database placement");
  source ⇐ execution_database (sp_database_alias current);
  target ⇐ (if op_verify_only options || retrying then execution_database target_alias
            else execution_target_database target_alias);
  if inspecting then
    n ⇐ place_query source (fun p => count_active_shard_work p s);
    reports ⇐ verify_move_tables source target s;
    pret (mkShardMoveOutcome s (sp_database_alias current) target_alias options n false current reports)
  else match completed with
  | Some (m, o) => retry_completed_move s source target target_alias current m o options
  | None =>
      _ ⇐ lift (ensure (str_eqb (sp_status current) "active" || in_progress (sp_status current))
                  "the shard placement cannot be moved");
      _ ⇐ lift (ensure (str_eqb (sp_status current) "active"
                        || bool_decide (sp_move_target_database_alias current = Some target_alias))
                  "the shard is already moving toward another database placement");
      move_online fuel s source target target_alias current options token new_id
  end.

(** ** [abort_shard_move] *)

Definition completed_abort_outcome (s : shard_key) (placement : ShardPlacement) (source_alias target_alias : string)
    : result (option ShardMoveAbortOutcome) :=
  if negb (str_eqb (sp_status placement) "active") then Ok None
  else
    _ ← ensure (negb (str_eqb (sp_database_alias placement) target_alias)) "the move already completed";
    _ ← ensure (str_eqb (sp_database_alias placement) source_alias && opt_is_none (sp_move_target_database_alias placement))
          "the shard has no matching move";
    Ok (Some (mkShardMoveAbortOutcome s source_alias target_alias false placement)).

Definition validate_abort_route (placement : ShardPlacement) (source_alias target_alias : string) : result unit :=
  ensure (str_eqb (sp_database_alias placement) source_alias && in_progress (sp_status placement)
          && bool_decide (sp_move_target_database_alias placement = Some target_alias)) "the shard has no matching move".

(** The route is taken back, the source reopened under it and the capture
    dropped.  On the control database one transaction does it all; otherwise the
    route commits first. *)
Definition take_back (source_is_control : bool) (s : shard_key) (source source_alias : string)
    (update : gmap shard_key PlacementRow -> result (gmap shard_key PlacementRow * option PlacementRow))
    (allowed : list LocalShardAdmissionState) (m : option Uuid) : prog ShardPlacement :=
  let reopen now p placement :=
    st ← transition_local_shard_admission (pc_db p) now (draft s source_alias (sp_write_epoch placement) Open None) allowed;
    let p := set_db p st.1 in
    Ok (match m with Some m => delete_move_capture m p | None => p end) in
  if source_is_control then
    operation (fun now w =>
      st ← update (mw_placements w);
      r ← ok_or st.2 "route changed before its move could be aborted";
      p ← place_at w source;
      p ← reopen now p (placement_of s r);
      Ok (set_placements (put_place w source p) st.1, placement_of s r))
  else
    marked ⇐ route_update s update;
    placement ⇐ lift (ok_or marked "route changed before its move could be aborted");
    _ ⇐ place_update source (fun now p => p ← reopen now p placement; Ok (p, tt));
    pret placement.

Definition abort_locked (source_is_control : bool) (s : shard_key) (source target source_alias target_alias : string)
    (initial : ShardPlacement) (m : option Uuid) : prog (ShardMoveAbortOutcome + bool * ShardPlacement * ShardPlacement) :=
  same_database ⇐ databases_share_identity source target;
  current ⇐ select_shard_placement s;
  finished ⇐ lift (if opt_is_none m then completed_abort_outcome s current source_alias target_alias else Ok None);
  match finished with
  | Some outcome => pret (inl outcome)
  | None =>
      _ ⇐ lift (ensure (same_route_fence initial current) "route changed while waiting for move-abort admission");
      placement ⇐
        (if str_eqb (sp_status current) "active" then
           take_back source_is_control s source source_alias
             (fence_active_shard_placement s source_alias (sp_route_version current)) [Open] m
         else
           _ ⇐ lift (validate_abort_route current source_alias target_alias);
           take_back source_is_control s source source_alias
             (abort_shard_placement_move s source_alias (sp_route_version current) target_alias) [Open; Draining; Closed] m);
      pret (inr (same_database, current, placement))
  end.

Definition abort_shard_move (run_id run_shard : Z) (source_alias target_alias : string) : prog ShardMoveAbortOutcome :=
  let s := (run_id, run_shard) in
  _ ⇐ lift (validate_run_shard run_shard);
  _ ⇐ lift (validate_non_empty source_alias);
  _ ⇐ lift (validate_non_empty target_alias);
  _ ⇐ lift (ensure (negb (str_eqb source_alias target_alias)) "source and target database aliases must differ");
  _ ⇐ ensure_run_creation_is_inactive run_id;
  initial ⇐ select_shard_placement s;
  m ⇐ query (fun w => Ok (select_active_move_id s source_alias target_alias (mw_operations w)));
  finished ⇐ lift (if opt_is_none m then completed_abort_outcome s initial source_alias target_alias else Ok None);
  match finished with
  | Some outcome => pret outcome
  | None =>
      source ⇐ execution_database source_alias;
      target ⇐ execution_database target_alias;
      aborted ⇐ with_source_tx (abort_locked (str_eqb source_alias control_alias) s source target source_alias
                                  target_alias initial m);
      match aborted with
      | inl outcome => pret outcome
      | inr (same_database, current, placement) =>
          _ ⇐ (if same_database then pret tt
               else transition target
                      (draft s target_alias
                         ((if str_eqb (sp_status current) "active" then sp_write_epoch placement else sp_write_epoch current) + 1)
                         Closed (Some source_alias)) [Prepared; Closed]);
          _ ⇐ match m with
              | Some m => operation_update (fun now t => Ok (settle_aborted_move_operation now m t, tt))
              | None => pret tt
              end;
          pret (mkShardMoveAbortOutcome s source_alias target_alias true placement)
      end
  end.
End programs.
