(* ===== verification/MoveInvariant.v ===== *)
(** * The invariant of a shard move

    What the databases satisfy between the steps of online moves: for every open
    move whose target was reset, each key of the shard is journalled for replay,
    or the target row is the source row, or the row waits for its backfill page.
    The invariant speaks of stored rows only, so a move that stopped can be
    resumed from it.  Here it is defined and shown to survive each statement of
    [MoveTables]. *)

From Stdlib Require Import ZArith Lia ZifyBool.
From stdpp Require Import base strings numbers countable gmap sorting sets option list.
From S2P Require Import Prelude Prog Text RunTypes ShardTables LocalAdmission ShardRows ControlTables RunPlanning.
From S2P Require Import PlanLedger LocalSeed MoveTables ShardMove.

Open Scope Z_scope.

Notation routes := (gmap shard_key PlacementRow).
Notation places := (gmap Z Place).
Notation checkpoints := (gmap (Uuid * string) ProgressRow).

(** ** Reading the databases *)

Definition rows_in (ps : places) (i : Z) (s : shard_key) (k : RowKey) : option (row_type k) :=
  match ps !! i with Some p => row_at (pc_db p) s k | None => None end.
Definition journal_in (ps : places) (i : Z) (m : Uuid) (k : RowKey) : option JournalRow :=
  ps !! i ≫= fun p => pc_journal p !! (m, k).
Definition capture_in (ps : places) (i : Z) (s : shard_key) : option (Uuid * bool) :=
  ps !! i ≫= fun p => pc_captures p !! s.
Definition admission_in (ps : places) (i : Z) (s : shard_key) : option AdmissionRow :=
  ps !! i ≫= fun p => db_admissions (pc_db p) !! s.

Definition version_of (j : option JournalRow) : Z := from_option jr_change_version 0 j.

Definition copied_phase (o : MoveOperation) : bool :=
  existsb (str_eqb (mo_phase o)) ["catch_up"; "draining"; "cutover"].

Section invariant.
Context {MF : MoveFunctions}.
Variable identity_of : string -> Z.

Definition src (o : MoveOperation) : Z := identity_of (mo_source_database_alias o).
Definition tgt (o : MoveOperation) : Z := identity_of (mo_target_database_alias o).

Definition source_row (ps : places) (o : MoveOperation) (k : RowKey) : option (row_type k) := rows_in ps (src o) (mo_shard o) k.
Definition target_row (ps : places) (o : MoveOperation) (k : RowKey) : option (row_type k) := rows_in ps (tgt o) (mo_shard o) k.
Definition same_row (ps : places) (o : MoveOperation) (k : RowKey) : Prop := target_row ps o k = source_row ps o k.
Definition exact (ps : places) (o : MoveOperation) : Prop := forall k, same_row ps o k.
Definition journalled (ps : places) (m : Uuid) (o : MoveOperation) (k : RowKey) : Prop :=
  is_Some (journal_in ps (src o) m k).
Definition captured (ps : places) (m : Uuid) (o : MoveOperation) : Prop :=
  capture_in ps (src o) (mo_shard o) = Some (m, true).

(** The pages that are acknowledged hold the key. *)
Definition covered (cs : checkpoints) (m : Uuid) (o : MoveOperation) (k : RowKey) : Prop :=
  copied_phase o = true
  \/ exists p, cs !! (m, table_of k) = Some p /\ text_ltb (pg_last_end_key p) (key_text k) = false.

Definition copied (cs : checkpoints) (ps : places) (m : Uuid) (o : MoveOperation) : Prop := forall k,
  journalled ps m o k \/ same_row ps o k \/ is_Some (source_row ps o k) /\ ~ covered cs m o k.

Definition source_closed (ps : places) (o : MoveOperation) (epoch : Z) : Prop :=
  exists a, admission_in ps (src o) (mo_shard o) = Some a /\ ad_state a = Closed /\ ad_write_epoch a = epoch.

Definition under_way (r : PlacementRow) (o : MoveOperation) : Prop :=
  pm_database_alias r = mo_source_database_alias o /\ in_progress (pm_status r) = true
  /\ pm_move_target_database_alias r = Some (mo_target_database_alias o).

(** An open move that still routes to its source is under way with its changes
    captured, or its source is closed over a complete copy. *)
Definition consistent (rs : routes) (cs : checkpoints) (ps : places) (m : Uuid) (o : MoveOperation) : Prop :=
  match mo_target_reset_at o with
  | None => copied_phase o = false /\ forall table, cs !! (m, table) = None
  | Some _ =>
      src o <> tgt o -> forall r, rs !! mo_shard o = Some r -> pm_database_alias r = mo_source_database_alias o ->
      under_way r o
      /\ (captured ps m o /\ copied cs ps m o \/ source_closed ps o (pm_write_epoch r + 1) /\ exact ps o)
  end.

Record Inv (rs : routes) (t : operations) (cs : checkpoints) (ps : places) : Prop := {
  inv_consistent m o : t !! m = Some o -> is_active o = true -> consistent rs cs ps m o;
  inv_unique m o m' o' : t !! m = Some o -> t !! m' = Some o' -> is_active o = true -> is_active o' = true ->
    mo_shard o = mo_shard o' -> m = m';
  inv_aliases m o : t !! m = Some o -> is_active o = true -> mo_source_database_alias o <> mo_target_database_alias o;
  inv_progress m table : is_Some (cs !! (m, table)) -> is_Some (t !! m)
}.

(** ** Writes of one shard in one database *)

(** [p'] differs from [p] in the rows of [s] and in a longer journal. *)
Record writes (s : shard_key) (p p' : Place) : Prop := {
  wr_other s' k : s' <> s -> row_at (pc_db p') s' k = row_at (pc_db p) s' k;
  wr_admissions : db_admissions (pc_db p') = db_admissions (pc_db p);
  wr_captures : pc_captures p' = pc_captures p;
  wr_journal m k : is_Some (pc_journal p !! (m, k)) -> is_Some (pc_journal p' !! (m, k))
}.

#[local] Instance writes_preorder s : PreOrder (writes s).
Proof.
  split.
  - by intros p; constructor.
  - intros p1 p2 p3 H1 H2. constructor; intros.
    + rewrite (wr_other _ _ _ H2); [|done]. by apply (wr_other _ _ _ H1).
    + by rewrite (wr_admissions _ _ _ H2), (wr_admissions _ _ _ H1).
    + by rewrite (wr_captures _ _ _ H2), (wr_captures _ _ _ H1).
    + by apply (wr_journal _ _ _ H2), (wr_journal _ _ _ H1).
Qed.

Lemma record_dirty_db now s p k : pc_db (record_dirty now s p k) = pc_db p.
Proof. unfold record_dirty. by destruct (pc_captures p !! s) as [[m []]|]. Qed.

Lemma record_dirty_captures now s p k : pc_captures (record_dirty now s p k) = pc_captures p.
Proof. unfold record_dirty. by destruct (pc_captures p !! s) as [[m []]|]. Qed.

Lemma record_dirty_journal now s p k m k' :
  pc_journal (record_dirty now s p k) !! (m, k') = pc_journal p !! (m, k')
  \/ k' = k /\ exists j, pc_journal (record_dirty now s p k) !! (m, k') = Some j
       /\ version_of (pc_journal p !! (m, k')) < jr_change_version j.
Proof.
  unfold record_dirty. destruct (pc_captures p !! s) as [[m' []]|]; [|by left..]. cbn.
  destruct (decide ((m', k) = (m, k'))) as [[= -> ->]|Hne]; [|left; by apply lookup_insert_ne].
  right. split; [done|]. rewrite lookup_insert_eq. eexists. split; [done|].
  destruct (pc_journal p !! (m, k')); cbn; lia.
Qed.

Lemma write_row_at now s p k r k' s' :
  row_at (pc_db (write_row now s p k r)) s' k' = row_at (put_row (pc_db p) s k r) s' k'.
Proof. unfold write_row. by rewrite record_dirty_db. Qed.

Lemma write_row_same now s p k r : row_at (pc_db (write_row now s p k r)) s k = r.
Proof. rewrite write_row_at. apply row_at_put_same. Qed.

Lemma write_row_other now s p k r s' k' :
  (s, k) <> (s', k') -> row_at (pc_db (write_row now s p k r)) s' k' = row_at (pc_db p) s' k'.
Proof. rewrite write_row_at. apply row_at_put_other. Qed.

Lemma write_row_writes now s p k r : writes s p (write_row now s p k r).
Proof.
  constructor.
  - intros s' k' Hs. apply write_row_other. congruence.
  - unfold write_row. rewrite record_dirty_db. apply put_row_admissions.
  - unfold write_row. by rewrite record_dirty_captures.
  - intros m k' Hj. unfold write_row.
    destruct (record_dirty_journal now s (set_db p (put_row (pc_db p) s k r)) k m k') as [->|(_ & j & -> & _)]; [done|].
    by eexists.
Qed.

Lemma delete_row_writes now s p k : writes s p (delete_row now s p k).
Proof. unfold delete_row. destruct (opt_is_some _); [apply write_row_writes|reflexivity]. Qed.

Lemma delete_row_at now s p k k' :
  row_at (pc_db (delete_row now s p k)) s k' = if decide (k = k') then None else row_at (pc_db p) s k'.
Proof.
  unfold delete_row. destruct (opt_is_some (row_at (pc_db p) s k)) eqn:Hk.
  - case_decide as He; [subst; apply write_row_same|apply write_row_other; congruence].
  - case_decide as He; [subst|done]. by destruct (row_at (pc_db p) s k').
Qed.

Lemma deletes_writes now s keys p : writes s p (fold_left (delete_row now s) keys p).
Proof.
  revert p. induction keys as [|k keys IH]; intros p; [reflexivity|]. cbn. etrans; [apply delete_row_writes|apply IH].
Qed.

Lemma deletes_at now s keys p k :
  row_at (pc_db (fold_left (delete_row now s) keys p)) s k = if decide (k ∈ keys) then None else row_at (pc_db p) s k.
Proof.
  revert p. induction keys as [|k1 keys IH]; intros p; cbn; [by rewrite decide_False by (by intros ?%elem_of_nil)|].
  rewrite IH, delete_row_at. repeat case_decide; set_solver.
Qed.

Lemma upserts_writes now s rows p : writes s p (upsert_json_rows now s rows p).
Proof.
  unfold upsert_json_rows. revert p. induction rows as [|r rows IH]; intros p; [reflexivity|]. cbn.
  etrans; [apply write_row_writes|apply IH].
Qed.

Lemma upserts_at now s rows p k :
  (exists r, existT k r ∈ rows /\ row_at (pc_db (upsert_json_rows now s rows p)) s k = Some r)
  \/ row_at (pc_db (upsert_json_rows now s rows p)) s k = row_at (pc_db p) s k /\ (forall r, existT k r ∉ rows).
Proof.
  unfold upsert_json_rows. revert p. induction rows as [|[k1 r1] rows IH]; intros p; cbn.
  { right. split; [done|]. by intros r ?%elem_of_nil. }
  destruct (IH (upsert_row now s p (existT k1 r1))) as [(r & Hr & He)|(He & Hn)].
  - left. exists r. split; [set_solver|done].
  - destruct (decide (k1 = k)) as [->|Hk].
    + left. exists r1. split; [set_solver|]. etrans; [exact He|]. apply write_row_same.
    + right. split.
      * etrans; [exact He|]. apply write_row_other. cbn; congruence.
      * intros r [[=]|Hr]%elem_of_cons; [done|]. by eapply Hn.
Qed.

(** ** The invariant after a statement *)

Lemma consistent_frame rs rs' cs cs' ps ps' m o :
  consistent rs cs ps m o -> rs' !! mo_shard o = rs !! mo_shard o ->
  (forall table, cs' !! (m, table) = cs !! (m, table)) ->
  (forall k, source_row ps' o k = source_row ps o k) -> (forall k, target_row ps' o k = target_row ps o k) ->
  (forall k, journalled ps m o k -> journalled ps' m o k) -> (captured ps m o -> captured ps' m o) ->
  (forall r, rs !! mo_shard o = Some r -> source_closed ps o (pm_write_epoch r + 1) ->
             source_closed ps' o (pm_write_epoch r + 1)) ->
  consistent rs' cs' ps' m o.
Proof.
  unfold consistent. intros H Hr Hc Hs Ht Hj Hk Hcl. destruct (mo_target_reset_at o).
  - intros Hne r. rewrite Hr. intros Hr' Ha. destruct (H Hne r Hr' Ha) as (Hu & Hd). split; [done|].
    assert (Hsame : forall k, same_row ps o k -> same_row ps' o k).
    { intros k. unfold same_row. by rewrite Hs, Ht. }
    destruct Hd as [[Hcap Hcop]|[Hclosed He]].
    + left. split; [by apply Hk|]. intros k. unfold covered. rewrite Hc, Hs.
      destruct (Hcop k) as [Hj'|[Hsm|Hw]]; [left; by apply Hj|right; left; by apply Hsame|by right; right].
    + right. split; [by eapply Hcl|]. intros k. by apply Hsame.
  - destruct H as [H1 H2]. split; [done|]. intros table. rewrite Hc. apply H2.
Qed.

(** [p'] differs from [p] in what belongs to [s], and drops journal entries of
    [m0] only. *)
Record local_change (s : shard_key) (m0 : Uuid) (p p' : Place) : Prop := {
  lc_rows s' k : s' <> s -> row_at (pc_db p') s' k = row_at (pc_db p) s' k;
  lc_admissions s' : s' <> s -> db_admissions (pc_db p') !! s' = db_admissions (pc_db p) !! s';
  lc_captures s' m : s' <> s -> m <> m0 -> pc_captures p !! s' = Some (m, true) -> pc_captures p' !! s' = Some (m, true);
  lc_journal m k : m <> m0 -> is_Some (pc_journal p !! (m, k)) -> is_Some (pc_journal p' !! (m, k))
}.

Lemma writes_local s m0 p p' : writes s p p' -> local_change s m0 p p'.
Proof.
  intros [H1 H2 H3 H4]. constructor; [exact H1|intros s' _; by rewrite H2|intros s' m _ _; by rewrite H3|intros m k _; apply H4].
Qed.

Lemma rows_in_insert ps i p i' s k :
  rows_in (<[i := p]> ps) i' s k = if decide (i = i') then row_at (pc_db p) s k else rows_in ps i' s k.
Proof. unfold rows_in. case_decide; subst; [by rewrite lookup_insert_eq|by rewrite lookup_insert_ne]. Qed.

Lemma journal_in_insert ps i p i' m k :
  journal_in (<[i := p]> ps) i' m k = if decide (i = i') then pc_journal p !! (m, k) else journal_in ps i' m k.
Proof. unfold journal_in. case_decide; subst; [by rewrite lookup_insert_eq|by rewrite lookup_insert_ne]. Qed.

Lemma capture_in_insert ps i p i' s :
  capture_in (<[i := p]> ps) i' s = if decide (i = i') then pc_captures p !! s else capture_in ps i' s.
Proof. unfold capture_in. case_decide; subst; [by rewrite lookup_insert_eq|by rewrite lookup_insert_ne]. Qed.

Lemma admission_in_insert ps i p i' s :
  admission_in (<[i := p]> ps) i' s = if decide (i = i') then db_admissions (pc_db p) !! s else admission_in ps i' s.
Proof. unfold admission_in. case_decide; subst; [by rewrite lookup_insert_eq|by rewrite lookup_insert_ne]. Qed.

Lemma rows_in_at ps i p s k : ps !! i = Some p -> rows_in ps i s k = row_at (pc_db p) s k.
Proof. unfold rows_in. by intros ->. Qed.
Lemma journal_in_at ps i p m k : ps !! i = Some p -> journal_in ps i m k = pc_journal p !! (m, k).
Proof. unfold journal_in. by intros ->. Qed.
Lemma capture_in_at ps i p s : ps !! i = Some p -> capture_in ps i s = pc_captures p !! s.
Proof. unfold capture_in. by intros ->. Qed.
Lemma admission_in_at ps i p s : ps !! i = Some p -> admission_in ps i s = db_admissions (pc_db p) !! s.
Proof. unfold admission_in. by intros ->. Qed.

(** A change of one shard's data touches one open move. *)
Lemma Inv_local rs t cs ps i p p' s m0 :
  Inv rs t cs ps -> ps !! i = Some p -> local_change s m0 p p' ->
  (forall o, t !! m0 = Some o -> is_active o = true -> mo_shard o = s) ->
  (forall m o, t !! m = Some o -> is_active o = true -> mo_shard o = s -> consistent rs cs (<[i := p']> ps) m o) ->
  Inv rs t cs (<[i := p']> ps).
Proof.
  intros HI Hp Hl Hm0 Hs. constructor; [|apply HI..]. intros m o Hm Ha.
  destruct (decide (mo_shard o = s)) as [He|He]; [by apply Hs|].
  assert (Hmm : m <> m0) by (intros ->; by apply He, Hm0).
  pose proof (inv_consistent _ _ _ _ HI m o Hm Ha) as Hc.
  apply (consistent_frame rs rs cs cs ps _ m o Hc); [done|done|..].
  - intros k. unfold source_row. rewrite rows_in_insert. case_decide as Hi; [|done].
    rewrite (rows_in_at ps (src o) p) by (by rewrite <- Hi). by apply (lc_rows _ _ _ _ Hl).
  - intros k. unfold target_row. rewrite rows_in_insert. case_decide as Hi; [|done].
    rewrite (rows_in_at ps (tgt o) p) by (by rewrite <- Hi). by apply (lc_rows _ _ _ _ Hl).
  - intros k. unfold journalled. rewrite journal_in_insert. case_decide as Hi; [|done].
    rewrite (journal_in_at ps (src o) p) by (by rewrite <- Hi). by apply (lc_journal _ _ _ _ Hl).
  - unfold captured. rewrite capture_in_insert. case_decide as Hi; [|done].
    rewrite (capture_in_at ps (src o) p) by (by rewrite <- Hi). by apply (lc_captures _ _ _ _ Hl).
  - intros r _. unfold source_closed. rewrite admission_in_insert. case_decide as Hi; [|done].
    rewrite (admission_in_at ps (src o) p) by (by rewrite <- Hi). by rewrite (lc_admissions _ _ _ _ Hl).
Qed.

(** The admission row of [s] is replaced. *)
Record admits (s : shard_key) (a : AdmissionRow) (p p' : Place) : Prop := {
  ad_rows s' k : row_at (pc_db p') s' k = row_at (pc_db p) s' k;
  ad_captures : pc_captures p' = pc_captures p;
  ad_journal : pc_journal p' = pc_journal p;
  ad_admissions : db_admissions (pc_db p') = <[s := a]> (db_admissions (pc_db p))
}.

(** Any admission row but the closed one of a finished copy may be replaced. *)
Lemma Inv_admission rs t cs ps i p p' s a :
  Inv rs t cs ps -> ps !! i = Some p -> admits s a p p' ->
  (forall r old, rs !! s = Some r -> db_admissions (pc_db p) !! s = Some old -> ad_state old = Closed ->
     ad_write_epoch old <> pm_write_epoch r + 1) ->
  Inv rs t cs (<[i := p']> ps).
Proof.
  intros HI Hp [Hrow Hcap Hjo Had] Hold. constructor; [|apply HI..]. intros m o Hm Ha.
  pose proof (inv_consistent _ _ _ _ HI m o Hm Ha) as Hc.
  apply (consistent_frame rs rs cs cs ps _ m o Hc); [done|done|..].
  - intros k. unfold source_row. rewrite rows_in_insert, Hrow. case_decide as Hi; [|done].
    by rewrite (rows_in_at ps (src o) p) by (by rewrite <- Hi).
  - intros k. unfold target_row. rewrite rows_in_insert, Hrow. case_decide as Hi; [|done].
    by rewrite (rows_in_at ps (tgt o) p) by (by rewrite <- Hi).
  - intros k. unfold journalled. rewrite journal_in_insert, Hjo. case_decide as Hi; [|done].
    by rewrite (journal_in_at ps (src o) p) by (by rewrite <- Hi).
  - unfold captured. rewrite capture_in_insert, Hcap. case_decide as Hi; [|done].
    by rewrite (capture_in_at ps (src o) p) by (by rewrite <- Hi).
  - intros r Hr. unfold source_closed. rewrite admission_in_insert, Had. case_decide as Hi; [|done].
    rewrite (admission_in_at ps (src o) p) by (by rewrite <- Hi).
    destruct (decide (s = mo_shard o)) as [->|Hne]; [|by rewrite lookup_insert_ne].
    intros (old & Ho & Hcl & He). exfalso. by apply (Hold r old).
Qed.

Lemma Inv_operation rs t cs ps m o o' :
  Inv rs t cs ps -> t !! m = Some o -> mo_shard o' = mo_shard o ->
  mo_source_database_alias o' = mo_source_database_alias o -> mo_target_database_alias o' = mo_target_database_alias o ->
  (is_active o' = true -> is_active o = true) -> (is_active o' = true -> consistent rs cs ps m o') ->
  Inv rs (<[m := o']> t) cs ps.
Proof.
  intros HI Hm Hs Hsrc Htgt Ha Hc.
  assert (Hold : forall m1 o1, <[m := o']> t !! m1 = Some o1 -> is_active o1 = true ->
            exists o2, t !! m1 = Some o2 /\ is_active o2 = true /\ mo_shard o2 = mo_shard o1
              /\ mo_source_database_alias o2 = mo_source_database_alias o1
              /\ mo_target_database_alias o2 = mo_target_database_alias o1 /\ (m1 = m /\ o1 = o' \/ m1 <> m /\ o1 = o2)).
  { intros m1 o1 H1 H2. destruct (decide (m = m1)) as [<-|Hne].
    - rewrite lookup_insert_eq in H1. injection H1 as <-. exists o. split_and!; [done|by apply Ha|done..|by left].
    - rewrite lookup_insert_ne in H1 by done. exists o1. split_and!; [done..|by right]. }
  constructor.
  - intros m1 o1 H1 H2. destruct (Hold m1 o1 H1 H2) as (o2 & H3 & H4 & _ & _ & _ & [[-> ->]|[_ ->]]); [by apply Hc|].
    by apply (inv_consistent _ _ _ _ HI).
  - intros m1 o1 m2 o2 H1 H2 H3 H4 H5.
    destruct (Hold m1 o1 H1 H3) as (o3 & ? & ? & ? & _). destruct (Hold m2 o2 H2 H4) as (o4 & ? & ? & ? & _).
    eapply (inv_unique _ _ _ _ HI); eauto; congruence.
  - intros m1 o1 H1 H2. destruct (Hold m1 o1 H1 H2) as (o2 & H3 & H4 & _ & Hs1 & Ht1 & _). rewrite <- Hs1, <- Ht1.
    by apply (inv_aliases _ _ _ _ HI m1).
  - intros m1 table H1. apply (inv_progress _ _ _ _ HI) in H1. destruct (decide (m = m1)) as [->|].
    + rewrite lookup_insert_eq. by eexists.
    + by rewrite lookup_insert_ne.
Qed.

(** The columns an open move keeps from claim to claim. *)
Lemma consistent_same rs cs ps m o o' :
  consistent rs cs ps m o -> mo_shard o' = mo_shard o -> mo_source_database_alias o' = mo_source_database_alias o ->
  mo_target_database_alias o' = mo_target_database_alias o -> mo_target_reset_at o' = mo_target_reset_at o ->
  copied_phase o' = copied_phase o -> consistent rs cs ps m o'.
Proof.
  unfold consistent, under_way, captured, copied, source_closed, exact, same_row, journalled, covered, source_row,
    target_row, src, tgt. by intros H -> -> -> -> ->.
Qed.

Lemma Inv_route rs t cs ps s r r' :
  Inv rs t cs ps -> rs !! s = Some r ->
  (forall m o, t !! m = Some o -> is_active o = true -> mo_shard o = s -> is_Some (mo_target_reset_at o) ->
     src o <> tgt o -> pm_database_alias r' = mo_source_database_alias o ->
     pm_database_alias r = mo_source_database_alias o /\ pm_write_epoch r' = pm_write_epoch r
     /\ (under_way r o -> under_way r' o)) ->
  Inv (<[s := r']> rs) t cs ps.
Proof.
  intros HI Hr H. constructor; [|apply HI..]. intros m o Hm Ha.
  pose proof (inv_consistent _ _ _ _ HI m o Hm Ha) as Hc.
  destruct (decide (s = mo_shard o)) as [He|Hne].
  - unfold consistent in *. destruct (mo_target_reset_at o) eqn:Hreset; [|done].
    intros Hne r1. rewrite <- He, lookup_insert_eq. intros [= <-] Hal.
    destruct (H m o Hm Ha (eq_sym He)) as (Hal' & Hep & Hu); [by rewrite Hreset|done|done|].
    rewrite <- He in Hc. destruct (Hc Hne r Hr Hal') as [Hu1 Hd]. rewrite Hep. split; [by apply Hu|done].
  - apply (consistent_frame rs _ cs cs ps ps m o Hc); [by apply lookup_insert_ne|done..].
Qed.
End invariant.
