(* ===== verification/MovePages.v ===== *)
(** * What a move reads

    The page of a table holds every source row between its cursor and its last
    key; a batch of journalled keys is settled only at the versions it read. *)

From Stdlib Require Import ZArith Lia ZifyBool Sorted.
From stdpp Require Import base strings numbers countable gmap sorting sets option list.
From S2P Require Import Prelude Text RunTypes ShardTables LocalAdmission ShardRows ControlTables RunPlanning.
From S2P Require Import PlanLedger LocalSeed MoveTables ShardMove MoveInvariant.

Open Scope Z_scope.

(** What the theorem needs of the parameters: PostgreSQL orders texts by a strict
    total order, the text of a primary key identifies the row of a table, and an
    alias names the database of its trimmed text. *)
Class MoveLaws (MF : MoveFunctions) (identity_of : string -> Z) : Prop := {
  text_irreflexive a : text_ltb a a = false;
  text_transitive a b c : text_ltb a b = true -> text_ltb b c = true -> text_ltb a c = true;
  text_total a b : text_ltb a b = false -> text_ltb b a = false -> a = b;
  key_text_injective k k' : table_of k = table_of k' -> key_text k = key_text k' -> k = k';
  identity_trimmed alias alias' : normalize_alias alias = Ok alias' -> identity_of alias' = identity_of alias
}.

Section pages.
Context {MF : MoveFunctions} {identity_of : string -> Z} {ML : MoveLaws MF identity_of}.

Lemma text_asymmetric a b : text_ltb a b = true -> text_ltb b a = false.
Proof.
  intros H. destruct (text_ltb b a) eqn:E; [|done]. pose proof (text_transitive a b a H E) as Hc.
  by rewrite text_irreflexive in Hc.
Qed.

#[local] Instance by_text_transitive : Transitive by_text.
Proof.
  intros a b c. unfold by_text. intros H1 H2. destruct (text_ltb c.2 a.2) eqn:E; [|done].
  destruct (text_ltb b.2 c.2) eqn:E2.
  - by rewrite (text_transitive b.2 c.2 a.2) in H1.
  - assert (b.2 = c.2) as Hbc by (by apply text_total). congruence.
Qed.

#[local] Instance by_text_total : Total by_text.
Proof. intros a b. unfold by_text. destruct (text_ltb b.2 a.2) eqn:E; [right; by apply text_asymmetric|by left]. Qed.

(** ** Page bounds *)

Lemma page_turn_rows max_bytes l st :
  (fold_left (page_turn max_bytes) l st).1.1 <= st.1.1 + zlen l /\ st.1.1 <= (fold_left (page_turn max_bytes) l st).1.1.
Proof.
  revert st. induction l as [|b l IH]; intros [[rows bytes] stop]; cbn [fold_left]; [unfold zlen; cbn; lia|].
  specialize (IH (page_turn max_bytes (rows, bytes, stop) b)). rewrite zlen_cons.
  assert (Hs : rows <= (page_turn max_bytes (rows, bytes, stop) b).1.1 <= rows + 1).
  { unfold page_turn. destruct stop; [cbn; lia|]. destruct (_ && _); cbn; lia. }
  cbn [fst snd] in *. lia.
Qed.

(** The first row always fits. *)
Lemma bounded_page_len_one b : bounded_page_len [b] SHARD_MOVE_COPY_BATCH_SIZE SHARD_MOVE_COPY_BATCH_BYTES = 1.
Proof. done. Qed.

(** A page is a prefix of the candidates, and not empty unless they are. *)
Lemma take_page_prefix cs page bytes :
  exists n, take_page cs page bytes = page ++ map (fun c => mkMoveSourceRow c.1 c.2 (row_octets c.1)) (take n cs).
Proof.
  revert page bytes. induction cs as [|[row key] cs IH]; intros page bytes; cbn [take_page].
  - exists 0%nat. by rewrite take_nil, app_nil_r.
  - cbv zeta. destruct (_ <? _).
    + exists 0%nat. cbn. by rewrite app_nil_r.
    + destruct (IH (page ++ [mkMoveSourceRow row key (row_octets row)]) (bytes ++ [Z.max 0 (row_octets row)])) as [n ->].
      exists (S n). by rewrite <- app_assoc.
Qed.

Lemma take_page_nonempty cs : cs <> [] -> take_page cs [] [] <> [].
Proof.
  destruct cs as [|[row key] cs]; [done|]. intros _. cbn [take_page]. cbv zeta.
  cbn [app]. rewrite bounded_page_len_one. cbn.
  destruct (take_page_prefix cs [mkMoveSourceRow row key (row_octets row)] [Z.max 0 (row_octets row)]) as [n ->]. done.
Qed.

(** ** The page of a table *)

Definition candidates (p : Place) (table : string) (s : shard_key) (cursor : option string) : list (MoveRow * string) :=
  merge_sort by_text (List.filter (fun rk => after_key cursor rk.2) (source_rows p table s)).

Lemma source_rows_shard p table s row key :
  table ∈ SHARD_TABLES ->
  (row, key) ∈ source_rows p table s <->
  exists k r, row = MShard k r /\ key = key_text k /\ table_of k = table /\ row_at (pc_db p) s k = Some r.
Proof.
  intros Ht. unfold source_rows.
  replace (str_eqb table "dataset_versions") with false by (unfold SHARD_TABLES in Ht; set_unfold; naive_solver).
  replace (str_eqb table "runs") with false by (unfold SHARD_TABLES in Ht; set_unfold; naive_solver).
  rewrite list_elem_of_omap. unfold table_rows. setoid_rewrite elem_of_lfilter. setoid_rewrite shard_rows_elem. split.
  - intros (k & [_ Hk] & H). destruct (row_at (pc_db p) s k) as [r|] eqn:E; [|done]. cbn in H. injection H as <- <-.
    exists k, r. split_and!; [done..| |done]. by apply String.eqb_eq.
  - intros (k & r & -> & -> & Htk & Hr). exists k. rewrite Hr. split; [|done]. split; [by eexists|]. by apply String.eqb_eq.
Qed.

Lemma candidates_elem p table s cursor row key :
  table ∈ SHARD_TABLES ->
  (row, key) ∈ candidates p table s cursor <->
  exists k r, row = MShard k r /\ key = key_text k /\ table_of k = table /\ row_at (pc_db p) s k = Some r
    /\ after_key cursor (key_text k) = true.
Proof.
  intros Ht. unfold candidates. rewrite merge_sort_Permutation, elem_of_lfilter, source_rows_shard by done. cbn.
  split.
  - intros [(k & r & -> & -> & ? & ?) ?]. exists k, r. by split_and!.
  - intros (k & r & -> & -> & ? & ? & ?). split; [|done]. exists k, r. by split_and!.
Qed.

(** The shard rows of a page. *)
Definition page_rows (rows : list MoveSourceRow) : list {k & row_type k} := omap (fun r => shard_row (ms_row r)) rows.

Lemma page_rows_elem p table s cursor k r :
  table ∈ SHARD_TABLES -> existT k r ∈ page_rows (select_move_source_page p table s cursor) ->
  table_of k = table /\ row_at (pc_db p) s k = Some r.
Proof.
  intros Ht. unfold page_rows, select_move_source_page. rewrite list_elem_of_omap. intros (row & Hr & Hs).
  destruct (take_page_prefix (take (Z.to_nat SHARD_MOVE_COPY_BATCH_SIZE) (candidates p table s cursor)) [] []) as [n Hn].
  unfold candidates in Hn. rewrite Hn in Hr. cbn in Hr. apply list_elem_of_fmap in Hr as ([row' key] & -> & Hr).
  apply elem_of_take in Hr as (i & Hr & _). apply list_elem_of_lookup_2 in Hr.
  apply elem_of_take in Hr as (j & Hr & _). apply list_elem_of_lookup_2 in Hr.
  apply candidates_elem in Hr as (k' & r' & -> & -> & H1 & H2 & _); [|done]. cbn in Hs. by simplify_eq.
Qed.

Lemma page_last p table s cursor last_row :
  table ∈ SHARD_TABLES -> last (select_move_source_page p table s cursor) = Some last_row ->
  forall k r, table_of k = table -> row_at (pc_db p) s k = Some r -> after_key cursor (key_text k) = true ->
  text_ltb (ms_row_key last_row) (key_text k) = false ->
  existT k r ∈ page_rows (select_move_source_page p table s cursor).
Proof.
  intros Ht Hl k r Htk Hr Ha Hend. unfold select_move_source_page in *. fold (candidates p table s cursor) in *.
  destruct (take_page_prefix (take (Z.to_nat SHARD_MOVE_COPY_BATCH_SIZE) (candidates p table s cursor)) [] []) as [n Hn].
  rewrite Hn in *. cbn [app] in *. rewrite take_take in *. set (c := candidates p table s cursor) in *.
  set (i := (n `min` Z.to_nat SHARD_MOVE_COPY_BATCH_SIZE)%nat) in *.
  assert (Hc : (MShard k r, key_text k) ∈ c) by (apply candidates_elem; [done|]; exists k, r; by split_and!).
  assert (Hsort : StronglySorted by_text c) by (apply StronglySorted_merge_sort; apply _).
  rewrite <- (take_drop i c) in Hc, Hsort. apply elem_of_app in Hc.
  assert (Hin : (MShard k r, key_text k) ∈ take i c).
  { destruct Hc as [|Hc]; [done|]. rewrite fmap_last in Hl. destruct (last (take i c)) as [[row key]|] eqn:El; [|done].
    cbn in Hl. injection Hl as <-. cbn in Hend. apply last_Some_elem_of in El as Hel.
    pose proof (StronglySorted_app_1_elem_of _ _ _ _ _ Hsort Hel Hc) as Hle. unfold by_text in Hle. cbn in Hle.
    pose proof (text_total _ _ Hle Hend) as Heq.
    assert (Hel2 : (row, key) ∈ c) by (rewrite <- (take_drop i c); apply elem_of_app; by left).
    apply candidates_elem in Hel2 as (k' & r' & -> & -> & Ht' & Hr' & _); [|done].
    assert (k' = k) as -> by (apply key_text_injective; congruence). rewrite Hr' in Hr. injection Hr as ->. done. }
  apply list_elem_of_omap. exists (mkMoveSourceRow (MShard k r) (key_text k) (row_octets (MShard k r))). split; [|done].
  apply list_elem_of_fmap. by exists (MShard k r, key_text k).
Qed.

Lemma page_empty p table s cursor :
  table ∈ SHARD_TABLES -> select_move_source_page p table s cursor = [] ->
  forall k, table_of k = table -> after_key cursor (key_text k) = true -> row_at (pc_db p) s k = None.
Proof.
  intros Ht Hp k Htk Ha. destruct (row_at (pc_db p) s k) as [r|] eqn:Hr; [|done]. exfalso. revert Hp.
  unfold select_move_source_page. fold (candidates p table s cursor). apply take_page_nonempty.
  assert (Hc : (MShard k r, key_text k) ∈ candidates p table s cursor) by (apply candidates_elem; [done|]; exists k, r; by split_and!).
  destruct (candidates p table s cursor) as [|x l]; [by apply elem_of_nil in Hc|done].
Qed.

(** ** Journalled keys *)

Lemma journal_of_elem m jn k j : (k, j) ∈ journal_of m jn <-> jn !! (m, k) = Some j.
Proof.
  unfold journal_of. rewrite list_elem_of_omap. split.
  - intros ([[m' k'] j'] & Hj%elem_of_map_to_list & H). cbn in H. case_decide; by simplify_eq/=.
  - intros Hj. exists ((m, k), j). rewrite elem_of_map_to_list. split; [done|]. cbn. by rewrite decide_True.
Qed.

Lemma dirty_keys_elem p m s table exists_ limit k v :
  (k, v) ∈ select_dirty_shard_keys_for_table p m s table exists_ limit ->
  exists j, pc_journal p !! (m, k) = Some j /\ jr_change_version j = v
    /\ opt_is_some (row_at (pc_db p) s k) = exists_.
Proof.
  unfold select_dirty_shard_keys_for_table. intros Hk. apply list_elem_of_fmap in Hk as ([k' j] & [= -> ->] & Hk).
  apply elem_of_take in Hk as (i & Hk & _). apply list_elem_of_lookup_2 in Hk.
  rewrite merge_sort_Permutation in Hk. apply elem_of_lfilter in Hk as [Hk Hc].
  exists j. split; [by apply journal_of_elem|]. split; [done|]. apply andb_true_iff in Hc as [_ Hc]. by apply Bool.eqb_prop.
Qed.

Lemma count_dirty_zero m p : count_dirty_move_keys m p = 0 -> forall k, pc_journal p !! (m, k) = None.
Proof.
  unfold count_dirty_move_keys. intros H%zlen_nil_iff k. destruct (pc_journal p !! (m, k)) as [j|] eqn:E; [|done].
  apply journal_of_elem in E. rewrite H in E. by apply elem_of_nil in E.
Qed.

Lemma current_rows_elem p s keys k r :
  existT k r ∈ select_current_rows_for_dirty_keys p s keys <-> k ∈ map fst keys /\ row_at (pc_db p) s k = Some r.
Proof.
  unfold select_current_rows_for_dirty_keys. rewrite list_elem_of_omap. split.
  - intros ([k' v] & Hk & H). cbn in H. destruct (row_at (pc_db p) s k') as [r'|] eqn:E; [|done]. cbn in H.
    simplify_eq. split; [|done]. apply list_elem_of_fmap. by exists (k, v).
  - intros [Hk Hr]. apply list_elem_of_fmap in Hk as ([k' v] & -> & Hk). exists (k', v). split; [done|]. cbn in *.
    by rewrite Hr.
Qed.

Lemma present_elem current k : present current k = true <-> exists r, existT k r ∈ current.
Proof.
  unfold present. rewrite existsb_exists. split.
  - intros ([k' r] & Hin & H%bool_decide_eq_true). cbn in H. subst k'. exists r. by apply list_elem_of_In.
  - intros [r Hr]. exists (existT k r). split; [by apply list_elem_of_In|by apply bool_decide_eq_true].
Qed.

(** Settling keys drops entries of the move whose version is the one given. *)
Lemma settle_journal m keys p m' k :
  pc_journal (settle_replayed_dirty_keys m keys p) !! (m', k) = pc_journal p !! (m', k)
  \/ m' = m /\ exists j, pc_journal p !! (m, k) = Some j /\ (k, jr_change_version j) ∈ keys.
Proof.
  unfold settle_replayed_dirty_keys. cbn. generalize (pc_journal p) as jn. induction keys as [|[k1 v1] keys IH]; intros jn;
    cbn; [by left|].
  match goal with |- context [fold_left _ keys ?j] => specialize (IH j) end.
  destruct IH as [IH|(-> & j & Hj & Hin)].
  - rewrite IH. destruct (jn !! (m, k1)) as [j|] eqn:E; [|by left]. destruct (_ =? _) eqn:Ev; [|by left].
    destruct (decide ((m, k1) = (m', k))) as [[= <- <-]|Hne]; [|left; by apply lookup_delete_ne].
    right. split; [done|]. exists j. split; [done|]. replace v1 with (jr_change_version j) by lia. set_solver.
  - right. split; [done|]. exists j. split; [|set_solver].
    destruct (jn !! (m, k1)) as [j1|] eqn:E; [|done]. destruct (_ =? _) eqn:Ev; [|done].
    by apply lookup_delete_Some in Hj as [_ Hj].
Qed.

Lemma settle_data m keys p :
  pc_db (settle_replayed_dirty_keys m keys p) = pc_db p
  /\ pc_captures (settle_replayed_dirty_keys m keys p) = pc_captures p.
Proof. done. Qed.
End pages.
