(* ===== verification/MoveRely.v ===== *)
(** * Reasoning about a move among other processes

    [rely] says what other processes may do between two statements of a move:
    workers write under change capture, an abort takes the move back as a whole,
    nobody uses the move's claim token, and the source is quiet while the move
    holds its lock.  [triple] is partial correctness of a program under that
    interference: whatever the faults, the invariant of [MoveInvariant] and the
    exactness of every handover recorded so far are kept, and a successful result
    meets its postcondition. *)

From Stdlib Require Import ZArith Lia ZifyBool.
From stdpp Require Import base strings numbers countable gmap sorting sets option list.
From S2P Require Import Prelude Prog Text RunTypes ShardTables LocalAdmission ShardRows ControlTables RunPlanning.
From S2P Require Import PlanLedger LocalSeed MoveTables ShardMove MoveInvariant.

Open Scope Z_scope.

(** What the invariant and the assertions speak of. *)
Record State := mkState {
  st_routes : routes;
  st_operations : operations;
  st_progress : checkpoints;
  st_places : places;
  st_locked : bool
}.

Definition state (w : World) : State :=
  mkState (mw_placements w) (mw_operations w) (mw_progress w) (mw_places w) (mw_locked w).

Definition core (o : MoveOperation) : shard_key * string * string :=
  (mo_shard o, mo_source_database_alias o, mo_target_database_alias o).

(** ** What the statements write *)

(** [place_at] reads the stored database; on the control database its [runs] are
    those of the control tables. *)
Definition same_data (p p0 : Place) : Prop :=
  pc_db p = pc_db p0 /\ pc_captures p = pc_captures p0 /\ pc_journal p = pc_journal p0.

Lemma update_route_effect s guard g rs rs' marked :
  update_route s guard g rs = Ok (rs', marked) ->
  marked = None /\ rs' = rs
  \/ exists r, rs !! s = Some r /\ guard r = true /\ marked = Some (g r) /\ rs' = <[s := g r]> rs.
Proof.
  unfold update_route. destruct (rs !! s) as [r|] eqn:Er; [destruct (guard r) eqn:Eg|]; intros H;
    [|left; by simplify_eq..]. apply bind_Ok in H as (? & _ & [= <- <-]). right. by exists r.
Qed.

Lemma route_at_true alias version statuses target r : route_at alias version statuses target r = true ->
  pm_database_alias r = alias /\ pm_route_version r = version /\ existsb (str_eqb (pm_status r)) statuses = true
  /\ forall t, target = Some t -> pm_move_target_database_alias r = Some t.
Proof.
  unfold route_at. rewrite !andb_true_iff. intros [[[Ha%str_eqb_true Hv] Hs] Ht].
  split_and!; [done|lia|done|]. intros t ->. by apply bool_decide_eq_true in Ht.
Qed.

Definition draft_key (d : LocalShardAdmissionDraft) : shard_key := (dr_run_id d, dr_run_shard d).

Lemma admission_upsert_effect db key row guard db' :
  admission_upsert db key row guard = Ok (Some db') ->
  db' = with_admissions db (<[key := row]> (db_admissions db))
  /\ forall old, db_admissions db !! key = Some old -> guard old = true.
Proof.
  unfold admission_upsert. intros H. apply bind_Ok in H as (? & _ & H).
  destruct (db_admissions db !! key) as [old|]; [destruct (guard old) eqn:E|]; simplify_eq; (split; [done|]); naive_solver.
Qed.

Lemma transition_effect db now d allowed st :
  transition_local_shard_admission db now d allowed = Ok st ->
  st = (with_admissions db (<[draft_key d := draft_row d now]> (db_admissions db)), draft_row d now)
  /\ dr_move_fence d = None
  /\ forall old, db_admissions db !! draft_key d = Some old -> transition_guard (draft_row d now) allowed old = true.
Proof.
  unfold transition_local_shard_admission, not_prepared. intros H.
  apply bind_Ok in H as (? & Hn%ensure_Ok & H). apply bind_Ok in H as ([db'|] & Hw & H); [|done].
  apply admission_upsert_effect in Hw as [-> Hg]. injection H as <-. split; [done|]. split; [|done].
  destruct (dr_move_fence d); [|done]. by rewrite orb_true_r in Hn.
Qed.

Lemma install_effect db now d st :
  install_local_shard_move_fence db now d = Ok st ->
  exists f, dr_move_fence d = Some f
  /\ st = (with_admissions db (<[draft_key d := draft_row d now]> (db_admissions db)), draft_row d now)
  /\ forall old, db_admissions db !! draft_key d = Some old -> install_guard (draft_row d now) f old = true.
Proof.
  unfold install_local_shard_move_fence. intros H. apply bind_Ok in H as (f & Hf%ok_or_Ok & H).
  do 2 (apply bind_Ok in H as (? & _ & H)). apply bind_Ok in H as ([db'|] & Hw & H); [|done].
  apply admission_upsert_effect in Hw as [-> Hg]. injection H as <-. by exists f.
Qed.

Lemma set_admissions_admits p p0 key a :
  same_data p p0 ->
  admits key a p0 (set_db p (with_admissions (pc_db p) (<[key := a]> (db_admissions (pc_db p))))).
Proof. intros (Hd & Hc & Hj). rewrite Hd. by constructor; cbn; [intros s' []|..]. Qed.

Section rely.
Context {MF : MoveFunctions} {LF : LedgerFunctions}.
Variable identity_of : string -> Z.
Variable control_alias : string.
Variable token : Uuid.
(** The shard that moves and the alias it moves to. *)
Variable shard : shard_key.
Variable destination : string.

Notation src := (src identity_of).
Notation tgt := (tgt identity_of).

Definition inv (st : State) : Prop :=
  Inv identity_of (st_routes st) (st_operations st) (st_progress st) (st_places st).

(** The target admission carries a fence of the move's token. *)
Definition fenced (ps : places) (i : Z) (s : shard_key) : Prop :=
  exists a f, admission_in ps i s = Some a /\ ad_move_fence a = Some f /\ mf_claim_token f = token.

Definition route_of (st : State) (o : MoveOperation) : option PlacementRow := st_routes st !! mo_shard o.

(** The shard is not routed to the target yet. *)
Definition away (st : State) (o : MoveOperation) : Prop :=
  exists r, route_of st o = Some r /\ pm_database_alias r <> mo_target_database_alias o.

(** A fence of epoch [e] would be refused. *)
Definition barred (e : Z) (ps : places) (i : Z) (s : shard_key) : Prop :=
  exists a, admission_in ps i s = Some a
    /\ (e < ad_write_epoch a \/ ad_write_epoch a = e /\ ad_state a <> Prepared).

(** The claimed operation is untouched: its checkpoints, its route while it is
    under way, its capture and its fence stay; every changed source row is
    journalled under a new version; the target rows are the move's own, a closed
    source does not change, and a locked one neither. *)
Record keeps (m : Uuid) (o : MoveOperation) (st st' : State) : Prop := {
  kp_progress table : st_progress st' !! (m, table) = st_progress st !! (m, table);
  kp_route r : route_of st o = Some r -> under_way r o -> route_of st' o = Some r;
  kp_capture : captured identity_of (st_places st) m o -> captured identity_of (st_places st') m o;
  kp_rows k : captured identity_of (st_places st) m o ->
    source_row identity_of (st_places st') o k = source_row identity_of (st_places st) o k
      /\ journal_in (st_places st') (src o) m k = journal_in (st_places st) (src o) m k
    \/ exists j, journal_in (st_places st') (src o) m k = Some j
         /\ version_of (journal_in (st_places st) (src o) m k) < jr_change_version j;
  kp_fence : fenced (st_places st) (tgt o) (mo_shard o) -> fenced (st_places st') (tgt o) (mo_shard o);
  kp_target k : fenced (st_places st) (tgt o) (mo_shard o) ->
    target_row identity_of (st_places st') o k = target_row identity_of (st_places st) o k;
  kp_closed r : route_of st o = Some r -> under_way r o ->
    source_closed identity_of (st_places st) o (pm_write_epoch r + 1) ->
    source_closed identity_of (st_places st') o (pm_write_epoch r + 1)
    /\ forall k, source_row identity_of (st_places st') o k = source_row identity_of (st_places st) o k;
  kp_locked : st_locked st = true ->
    route_of st' o = route_of st o
    /\ (forall k, source_row identity_of (st_places st') o k = source_row identity_of (st_places st) o k)
    /\ (forall k, journal_in (st_places st') (src o) m k = journal_in (st_places st) (src o) m k)
}.

(** An abort was completed: the operation is settled, the fence gone from the
    target, which is closed one epoch ahead, and the route is not what it was. *)
Definition taken_back (m : Uuid) (o : MoveOperation) (st st' : State) : Prop :=
  st_locked st = false
  /\ (exists o', st_operations st' !! m = Some o' /\ is_active o' = false /\ core o' = core o)
  /\ ~ fenced (st_places st') (tgt o) (mo_shard o)
  /\ (forall r, route_of st o = Some r -> under_way r o -> route_of st' o <> Some r)
  /\ (src o <> tgt o -> forall r, route_of st o = Some r ->
      barred (pm_write_epoch r + 1) (st_places st') (tgt o) (mo_shard o)).

Record rely (st st' : State) : Prop := {
  rl_locked : st_locked st' = st_locked st;
  rl_inv : inv st -> inv st';
  rl_routes s r : st_routes st !! s = Some r -> exists r', st_routes st' !! s = Some r'
    /\ pm_write_epoch r <= pm_write_epoch r' /\ (r' = r \/ pm_route_version r < pm_route_version r');
  rl_settled m o : st_operations st !! m = Some o -> is_active o = false ->
    exists o', st_operations st' !! m = Some o' /\ is_active o' = false /\ core o' = core o;
  rl_fenced i s : fenced (st_places st') i s -> fenced (st_places st) i s;
  rl_away r : st_routes st !! shard = Some r -> pm_database_alias r <> destination ->
    exists r', st_routes st' !! shard = Some r' /\ pm_database_alias r' <> destination;
  rl_forward i s a : admission_in (st_places st) i s = Some a ->
    exists a', admission_in (st_places st') i s = Some a'
      /\ (ad_write_epoch a < ad_write_epoch a'
          \/ ad_write_epoch a' = ad_write_epoch a /\ (ad_state a <> Prepared -> ad_state a' <> Prepared));
  rl_held m o : st_operations st !! m = Some o -> claimed_by token o = true -> away st o ->
    st_operations st' !! m = Some o /\ keeps m o st st' \/ taken_back m o st st'
}.

Lemma barred_forward e i s st st' : rely st st' -> barred e (st_places st) i s -> barred e (st_places st') i s.
Proof.
  intros Hr (a & Ha & He). destruct (rl_forward _ _ Hr i s a Ha) as (a' & Ha' & Hf). exists a'. split; [done|].
  destruct He as [He|[He Hp]], Hf as [Hf|[Hf Hp']]; [left; lia..|right]. split; [lia|auto].
Qed.

Lemma barred_weaken e e' ps i s : e' <= e -> barred e ps i s -> barred e' ps i s.
Proof.
  intros Hle (a & Ha & He). exists a. split; [done|]. destruct He as [He|[He Hp]]; [left; lia|].
  destruct (decide (e' = e)) as [->|]; [by right|left; lia].
Qed.

(** ** Handovers *)

(** A step that gives a shard to another database does so over a closed source
    and an equal copy. *)
Definition handover (v v' : View) : Prop := forall s r r',
  vw_placements v !! s = Some r -> vw_placements v' !! s = Some r' ->
  pm_database_alias r' <> pm_database_alias r ->
  pm_status r' = "active" /\ pm_write_epoch r' = pm_write_epoch r + 1
  /\ (exists a, admission_in (vw_places v') (identity_of (pm_database_alias r)) s = Some a
        /\ ad_state a = Closed /\ ad_write_epoch a = pm_write_epoch r')
  /\ forall k, rows_in (vw_places v') (identity_of (pm_database_alias r')) s k
               = rows_in (vw_places v') (identity_of (pm_database_alias r)) s k.

Lemma handover_same v v' : vw_placements v' = vw_placements v -> handover v v'.
Proof. intros He s r r'. rewrite He. intros -> [= ->]. done. Qed.

Lemma handover_insert v v' s r r' :
  vw_placements v !! s = Some r -> vw_placements v' = <[s := r']> (vw_placements v) ->
  pm_database_alias r' = pm_database_alias r -> handover v v'.
Proof.
  intros Hs He Ha s1 r1 r1'. rewrite He. destruct (decide (s = s1)) as [<-|].
  - rewrite lookup_insert_eq. intros H1 [= <-]. congruence.
  - rewrite lookup_insert_ne by done. intros -> [= ->]. done.
Qed.

(** ** Triples *)

Definition good (w : World) : Prop := inv (state w) /\ Forall (fun e => handover e.1 e.2) (mw_history w).

Definition triple {A} (P : State -> Prop) (c : prog A) (Q : A -> State -> Prop) : Prop := forall w w' r,
  good w -> P (state w) -> c w = Some (w', r) -> good w' /\ forall a, r = Ok a -> Q a (state w').

(** Assertions that interference preserves. *)
Definition stable (P : State -> Prop) : Prop := forall st st', inv st -> inv st' -> rely st st' -> P st -> P st'.

Lemma triple_conseq {A} P P' Q Q' (c : prog A) :
  triple P c Q -> (forall st, P' st -> P st) -> (forall a st, Q a st -> Q' a st) -> triple P' c Q'.
Proof. intros H HP HQ w w' r Hg Hp Hc. destruct (H w w' r Hg (HP _ Hp) Hc) as [Hg' Hq]. naive_solver. Qed.

Lemma triple_bind {A B} P Q R (c : prog A) (k : A -> prog B) :
  triple P c Q -> (forall a, triple (Q a) (k a) R) -> triple P (pbind c k) R.
Proof.
  intros Hc Hk w w' r Hg Hp. unfold pbind. destruct (c w) as [[w1 [a|e]]|] eqn:E; [|intros [= <- <-]|done].
  - destruct (Hc _ _ _ Hg Hp E) as [Hg1 Hq]. intros H. by eapply Hk, H; [|apply Hq].
  - destruct (Hc _ _ _ Hg Hp E) as [Hg1 _]. split; [done|]. intros a [=].
Qed.

Lemma triple_ret {A} (P : State -> Prop) (Q : A -> State -> Prop) a : (forall st, P st -> Q a st) -> triple P (pret a) Q.
Proof. intros H w w' r Hg Hp [= <- <-]. split; [done|]. intros b [= <-]. by apply H. Qed.

Lemma triple_lift {A} (P : State -> Prop) (Q : A -> State -> Prop) r :
  (forall st a, P st -> r = Ok a -> Q a st) -> triple P (lift r) Q.
Proof. intros H w w' r' Hg Hp [= <- <-]. split; [done|]. intros a Ha. by apply H. Qed.

Lemma triple_pure {A} (φ : Prop) P (Q : A -> State -> Prop) c : (φ -> triple P c Q) -> triple (fun st => P st /\ φ) c Q.
Proof. intros H w w' r Hg [Hp Hφ]. by apply H. Qed.

Lemma triple_diverge {A} P (Q : A -> State -> Prop) : triple P (fun _ => None) Q.
Proof. by intros w w' r _ _ [=]. Qed.

Lemma triple_err {A} P (Q : A -> State -> Prop) e : triple P (lift (Err e)) Q.
Proof. by apply triple_lift. Qed.

(** The invariant may be used in a precondition. *)
Lemma triple_inv {A} P P' (Q : A -> State -> Prop) c :
  triple P c Q -> (forall st, inv st -> P' st -> P st) -> triple P' c Q.
Proof. intros H HP w w' r Hg Hp. by apply H; [|apply HP, Hp; apply Hg]. Qed.

Lemma triple_exists {A X} (P : X -> State -> Prop) (Q : A -> State -> Prop) c :
  (forall x, triple (P x) c Q) -> triple (fun st => exists x, P x st) c Q.
Proof. intros H w w' r Hg [x Hp]. by apply (H x). Qed.

Lemma triple_fold {A S} (P : S -> State -> Prop) (f : S -> A -> prog S) l :
  (forall s a, a ∈ l -> triple (P s) (f s a) P) -> forall s, triple (P s) (pfold f s l) P.
Proof.
  induction l as [|a l IH]; intros H s; cbn; [by apply triple_ret|].
  eapply triple_bind; [by apply H, elem_of_cons; left|]. intros s'. apply IH. intros s1 a1 Ha. apply H. by apply elem_of_cons; right.
Qed.

Lemma triple_fold_prefix {A S} (P : list A -> State -> Prop) (f : S -> A -> prog S) l :
  (forall done a rest s, l = done ++ a :: rest -> triple (P done) (f s a) (fun _ => P (done ++ [a]))) ->
  forall s, triple (P []) (pfold f s l) (fun _ => P l).
Proof.
  intros H. assert (Hgo : forall rest done s, l = done ++ rest -> triple (P done) (pfold f s rest) (fun _ => P l)).
  { induction rest as [|a rest IH]; intros done s He; cbn.
    - apply triple_ret. by rewrite He, app_nil_r.
    - eapply triple_bind; [by apply (H done a rest s)|]. intros s'. apply IH. by rewrite <- app_assoc. }
  intros s. by apply (Hgo l []).
Qed.

Variable now_at : nat -> Z.
Variable fault_at : nat -> Fault.
Variable env : nat -> World -> World.
Hypothesis env_rely : forall n w, rely (state w) (state (env n w)) /\ mw_history (env n w) = mw_history w.

Notation operation := (operation now_at fault_at env).
Notation query := (query now_at fault_at env).
Notation place_update := (place_update identity_of control_alias now_at fault_at env).
Notation place_query := (place_query identity_of control_alias now_at fault_at env).
Notation operation_update := (operation_update now_at fault_at env).
Notation route_update := (route_update now_at fault_at env).

(** One statement: its precondition survives interference, and its effect keeps
    the invariant. *)
Lemma triple_operation {A} P (Q : A -> State -> Prop) f :
  stable P ->
  (forall now w w' a, inv (state w) -> P (state w) -> f now w = Ok (w', a) ->
     inv (state w') /\ mw_history w' = mw_history w /\ handover (view w) (view w') /\ Q a (state w')) ->
  triple P (operation f) Q.
Proof.
  intros Hs Hf w w' r [Hi Hh] Hp. unfold ShardMove.operation. cbv zeta.
  set (w1 := set_turn (env (mw_turn w) w) (S (mw_turn w))).
  destruct (env_rely (mw_turn w) w) as [Hr Hhist].
  assert (Hi1 : inv (state w1)) by exact (rl_inv _ _ Hr Hi).
  assert (Hg1 : good w1) by (split; [done|]; change (mw_history w1) with (mw_history (env (mw_turn w) w)); by rewrite Hhist).
  assert (Hp1 : P (state w1)) by (by apply (Hs (state w) (state (env (mw_turn w) w)))).
  intros Ha.
  assert (Heff : forall w2 a, (st ← f (now_at (mw_turn w)) w1; Ok (record_effect w1 st.1, st.2)) = Ok (w2, a) ->
            good w2 /\ Q a (state w2)).
  { intros w2 a H. apply bind_Ok in H as ([w3 b] & H3 & [= <- <-]).
    destruct (Hf _ _ _ _ Hi1 Hp1 H3) as (Hi3 & Hh3 & Hho & Hq). cbn. split; [|done]. split; [done|].
    cbn. constructor; [done|]. rewrite Hh3. apply Hg1. }
  unfold attempt in Ha. destruct (fault_at (mw_turn w)).
  - destruct (st ← f _ w1; _) as [[w2 a]|e] eqn:E; injection Ha as <- <-.
    + destruct (Heff _ _ eq_refl). split; [done|]. intros b [= <-]. done.
    + split; [done|]. intros b [=].
  - injection Ha as <- <-. split; [done|]. intros b [=].
  - destruct (st ← f _ w1; _) as [[w2 a]|e'] eqn:E; injection Ha as <- <-.
    + destruct (Heff _ _ eq_refl). split; [done|]. intros b [=].
    + split; [done|]. intros b [=].
Qed.

Lemma triple_query {A} P (Q : A -> State -> Prop) f :
  stable P -> (forall w a, inv (state w) -> P (state w) -> f w = Ok a -> Q a (state w)) -> triple P (query f) Q.
Proof.
  intros Hs Hf. apply triple_operation; [done|]. intros now w w' a Hi Hp H.
  apply bind_Ok in H as (b & Hb & [= <- <-]). split; [done|]. split; [done|]. split; [by apply handover_same|by apply Hf].
Qed.

Definition with_places (st : State) (ps : places) : State :=
  mkState (st_routes st) (st_operations st) (st_progress st) ps (st_locked st).
Definition with_operations (st : State) (t : operations) : State :=
  mkState (st_routes st) t (st_progress st) (st_places st) (st_locked st).
Definition with_routes (st : State) (rs : routes) : State :=
  mkState rs (st_operations st) (st_progress st) (st_places st) (st_locked st).

Lemma place_at_data w alias p :
  place_at identity_of control_alias w alias = Ok p ->
  exists p0, mw_places w !! identity_of alias = Some p0 /\ same_data p p0.
Proof.
  unfold place_at. intros H. apply bind_Ok in H as (p0 & Hp%ok_or_Ok & [= <-]). exists p0. split; [done|].
  by destruct (_ =? _).
Qed.

Lemma state_put_place w alias p :
  state (put_place identity_of control_alias w alias p) = with_places (state w) (<[identity_of alias := p]> (mw_places w)).
Proof. unfold put_place. by destruct (_ =? _). Qed.

Lemma view_put_place w alias p :
  view (put_place identity_of control_alias w alias p) = mkView (mw_placements w) (<[identity_of alias := p]> (mw_places w)).
Proof. unfold put_place. by destruct (_ =? _). Qed.

Lemma history_put_place w alias p :
  mw_history (put_place identity_of control_alias w alias p) = mw_history w.
Proof. unfold put_place. by destruct (_ =? _). Qed.

Lemma triple_place_update {A} P (Q : A -> State -> Prop) alias f :
  stable P ->
  (forall now st p p0 p' a, inv st -> P st -> st_places st !! identity_of alias = Some p0 -> same_data p p0 ->
     f now p = Ok (p', a) ->
     inv (with_places st (<[identity_of alias := p']> (st_places st)))
     /\ Q a (with_places st (<[identity_of alias := p']> (st_places st)))) ->
  triple P (place_update alias f) Q.
Proof.
  intros Hs Hf. apply triple_operation; [done|]. intros now w w' a Hi Hp H.
  apply bind_Ok in H as (p & (p0 & Hp0 & Hd)%place_at_data & H). apply bind_Ok in H as ([p' b] & H & [= <- <-]).
  destruct (Hf now (state w) p p0 p' b Hi Hp Hp0 Hd H) as [Hi' Hq].
  cbn [fst snd]. rewrite state_put_place, view_put_place, history_put_place.
  split; [done|]. split; [done|]. split; [by apply handover_same|done].
Qed.

Lemma triple_place_query {A} P (Q : A -> State -> Prop) alias f :
  stable P ->
  (forall st p p0, inv st -> P st -> st_places st !! identity_of alias = Some p0 -> same_data p p0 -> Q (f p) st) ->
  triple P (place_query alias f) Q.
Proof.
  intros Hs Hf. apply triple_query; [done|]. intros w a Hi Hp H.
  apply bind_Ok in H as (p & (p0 & Hp0 & Hd)%place_at_data & [= <-]). by eapply Hf.
Qed.

Lemma triple_operation_update {A} P (Q : A -> State -> Prop) f :
  stable P ->
  (forall now st t a, inv st -> P st -> f now (st_operations st) = Ok (t, a) ->
     inv (with_operations st t) /\ Q a (with_operations st t)) ->
  triple P (operation_update f) Q.
Proof.
  intros Hs Hf. apply triple_operation; [done|]. intros now w w' a Hi Hp H.
  apply bind_Ok in H as ([t b] & H & [= <- <-]). destruct (Hf now (state w) t b Hi Hp H).
  split; [done|]. split; [done|]. split; [by apply handover_same|done].
Qed.

Lemma triple_operation_result P (Q : State -> Prop) f :
  stable P ->
  (forall now st t, inv st -> P st -> f now (st_operations st) = Ok t -> inv (with_operations st t) /\ Q (with_operations st t)) ->
  triple P (operation_update (fun now t => t ← f now t; Ok (t, tt))) (fun _ => Q).
Proof.
  intros Hs Hf. apply triple_operation_update; [done|]. intros now st t [] Hi Hp H.
  apply bind_Ok in H as (t' & H & [= ->]). by eapply Hf.
Qed.

(** A route update that keeps the alias of the shard. *)
Lemma triple_route_update P (Q : option ShardPlacement -> State -> Prop) F s guard g :
  stable P ->
  (forall now w w' a, F now w = Ok (w', a) -> exists rs marked,
     update_route s guard g (mw_placements w) = Ok (rs, marked)
     /\ w' = set_placements w rs /\ a = option_map (placement_of s) marked) ->
  (forall st, inv st -> P st -> Q None st) ->
  (forall st r, inv st -> P st -> st_routes st !! s = Some r -> guard r = true ->
     pm_database_alias (g r) = pm_database_alias r
     /\ inv (with_routes st (<[s := g r]> (st_routes st)))
     /\ Q (Some (placement_of s (g r))) (with_routes st (<[s := g r]> (st_routes st)))) ->
  triple P (operation F) Q.
Proof.
  intros Hs HF Hnone Hsome. apply triple_operation; [done|]. intros now w w' a Hi Hp H.
  apply HF in H as (rs & marked & H & -> & ->).
  apply update_route_effect in H as [[-> ->]|(r & Hr & Hg & -> & ->)].
  - assert (He : state (set_placements w (mw_placements w)) = state w) by done. rewrite He.
    split; [done|]. split; [done|]. split; [by apply handover_same|by apply Hnone].
  - destruct (Hsome (state w) r Hi Hp Hr Hg) as (Ha & Hi' & Hq).
    split; [exact Hi'|]. split; [done|]. split; [|exact Hq]. by eapply (handover_insert (view w) _ s r (g r)).
Qed.

(** ** Admission rows *)

(** A write epoch that some route of the shard had. *)
Definition seen (s : shard_key) (epoch : Z) (st : State) : Prop :=
  exists r, st_routes st !! s = Some r /\ epoch <= pm_write_epoch r.

Lemma seen_stable s epoch : stable (seen s epoch).
Proof.
  intros st st' _ _ Hr (r & Hs & He). destruct (rl_routes _ _ Hr s r Hs) as (r' & Hr' & Hle & _).
  exists r'. split; [done|lia].
Qed.

(** Admission rows written under a seen epoch leave closed sources alone. *)
Lemma triple_admission P Q alias (d : Place -> LocalShardAdmissionDraft) allowed key epoch :
  stable P -> (forall p, draft_key (d p) = key /\ dr_write_epoch (d p) = epoch) -> (forall st, P st -> seen key epoch st) ->
  (forall now st p p0 p', P st -> st_places st !! identity_of alias = Some p0 ->
     admits key (draft_row (d p) now) p0 p' -> dr_move_fence (d p) = None ->
     Q (with_places st (<[identity_of alias := p']> (st_places st)))) ->
  triple P (place_update alias (fun now p =>
    st ← transition_local_shard_admission (pc_db p) now (d p) (allowed p); Ok (set_db p st.1, tt))) (fun _ => Q).
Proof.
  intros Hs Hdr Hseen HQ. apply triple_place_update; [done|]. intros now st p p0 p' a Hi Hp Hp0 Hd H.
  apply bind_Ok in H as (ad & (-> & Hf & Hg)%transition_effect & [= <- <-]). cbn [fst].
  destruct (Hdr p) as [Hkey Hep]. rewrite Hkey in *.
  pose proof (set_admissions_admits p p0 key (draft_row (d p) now) Hd) as Had.
  split; [|by eapply HQ]. eapply Inv_admission; [done|done|done|]. intros r old Hr Hold Hc He.
  destruct (Hseen st Hp) as (r1 & Hr1 & Hle). cbn in Hr. rewrite Hr in Hr1. injection Hr1 as <-.
  destruct Hd as [Hd _]. rewrite Hd in Hg. specialize (Hg old Hold). unfold transition_guard in Hg. cbn in Hg.
  rewrite He, Hep in Hg. apply orb_true_iff in Hg as [Hg|Hg]; [lia|]. apply andb_true_iff in Hg as [Hg _]. lia.
Qed.
End rely.
