(* ===== verification/MoveExact.v ===== *)
(** * A move hands its shard over exactly

    The proof of the shard move: each statement of [ShardMove] under the
    interference of [MoveRely].  A claimed move either still owns its operation,
    and then its checkpoints, capture, fence and rows are as it left them, or the
    move was taken back by an abort, and then its fence is gone and no statement
    of it can do harm. *)

From Stdlib Require Import ZArith Lia ZifyBool.
From stdpp Require Import base strings numbers countable gmap sorting sets option list.
From S2P Require Import Prelude Prog Text RunTypes ShardTables LocalAdmission ShardRows ControlTables RunPlanning.
From S2P Require Import PlanLedger LocalSeed MoveTables ShardMove MoveInvariant MovePages MoveRely.

Open Scope Z_scope.

Section exact.
Context {MF : MoveFunctions} {LF : LedgerFunctions}.
Variable identity_of : string -> Z.
Context {ML : MoveLaws MF identity_of}.
Variable control_alias : string.
Variable token : Uuid.
Variable shard : shard_key.
Variable destination : string.
Variable now_at : nat -> Z.
Variable fault_at : nat -> Fault.
Variable env : nat -> World -> World.
Hypothesis env_rely :
  forall n w, rely identity_of token shard destination (state w) (state (env n w)) /\ mw_history (env n w) = mw_history w.

Notation src := (src identity_of).
Notation tgt := (tgt identity_of).
Notation inv := (inv identity_of).
Notation rely := (rely identity_of token shard destination).
Notation keeps := (keeps identity_of token).
Notation fenced := (fenced token).
Notation stable := (stable identity_of token shard destination).
Notation triple := (triple identity_of).
Notation source_row := (source_row identity_of).
Notation target_row := (target_row identity_of).
Notation same_row := (same_row identity_of).
Notation journalled := (journalled identity_of).
Notation captured := (captured identity_of).
Notation copied := (copied identity_of).
Notation consistent := (consistent identity_of).
Notation source_closed := (source_closed identity_of).
Notation triple_operation := (triple_operation identity_of token shard destination now_at fault_at env env_rely).
Notation triple_query := (triple_query identity_of token shard destination now_at fault_at env env_rely).
Notation triple_place_update := (triple_place_update identity_of control_alias token shard destination now_at fault_at env env_rely).
Notation triple_place_query := (triple_place_query identity_of control_alias token shard destination now_at fault_at env env_rely).
Notation triple_operation_update := (triple_operation_update identity_of token shard destination now_at fault_at env env_rely).
Notation triple_admission := (triple_admission identity_of control_alias token shard destination now_at fault_at env env_rely).

(** ** Owning an operation *)

Lemma core_eq o' o : core o' = core o ->
  mo_shard o' = mo_shard o /\ src o' = src o /\ tgt o' = tgt o
  /\ mo_source_database_alias o' = mo_source_database_alias o /\ mo_target_database_alias o' = mo_target_database_alias o.
Proof.
  intros H. pose proof (f_equal (fun c => c.1.1) H) as H1. pose proof (f_equal (fun c => c.1.2) H) as H2.
  pose proof (f_equal snd H) as H3. cbn in H1, H2, H3. unfold MoveInvariant.src, MoveInvariant.tgt.
  by rewrite H1, H2, H3.
Qed.

Lemma core_rows o1 o2 ps : core o1 = core o2 ->
  (forall k, source_row ps o1 k = source_row ps o2 k) /\ (forall k, target_row ps o1 k = target_row ps o2 k)
  /\ (forall m k, journalled ps m o1 k <-> journalled ps m o2 k) /\ (forall m, captured ps m o1 <-> captured ps m o2)
  /\ (forall k, same_row ps o1 k <-> same_row ps o2 k).
Proof.
  intros H. destruct (core_eq _ _ H) as (H1 & H2 & H3 & _).
  unfold MoveInvariant.same_row, MoveInvariant.source_row, MoveInvariant.target_row, MoveInvariant.journalled, MoveInvariant.captured.
  rewrite H1, H2, H3. done.
Qed.

Lemma under_way_core r o1 o2 : core o1 = core o2 -> under_way r o1 -> under_way r o2.
Proof. intros H. destruct (core_eq _ _ H) as (_ & _ & _ & H1 & H2). unfold under_way. by rewrite H1, H2. Qed.

#[local] Instance covered_dec cs m o k : Decision (covered cs m o k).
Proof.
  unfold covered. destruct (copied_phase o); [by left; left|].
  destruct (cs !! (m, table_of k)) as [p|]; [destruct (text_ltb (pg_last_end_key p) (key_text k)) eqn:E|].
  - right. intros [?|(p' & [= <-] & ?)]; congruence.
  - left. right. by exists p.
  - right. by intros [?|(p' & ? & _)].
Defined.

(** New coverage needs settled keys. *)
Lemma copied_cover cs cs' ps m o1 o2 :
  core o2 = core o1 -> copied cs ps m o1 ->
  (forall k, covered cs' m o2 k -> covered cs m o1 k \/ journalled ps m o1 k \/ same_row ps o1 k) -> copied cs' ps m o2.
Proof.
  intros Hc H Hcov k. destruct (core_rows o2 o1 ps Hc) as (Hs & _ & Hj & _ & He).
  rewrite Hs, Hj, He. destruct (H k) as [H1|[H1|[H1 H2]]]; [by left|by right; left|].
  destruct (decide (covered cs' m o2 k)) as [H3|H3]; [|by right; right].
  destruct (Hcov k H3) as [?|[?|?]]; [done|by left|by right; left].
Qed.

Section owner.
Variable m : Uuid.
Variable o : MoveOperation.
Hypothesis own_target : mo_shard o = shard /\ mo_target_database_alias o = destination.
(** Whether the move holds the lock of the source. *)
Variable lock : bool.
(** The route while the lock is held. *)
Variable pinned : option PlacementRow.
(** A write epoch the route had. *)
Variable epoch : Z.

Definition base (st : State) : Prop :=
  st_locked st = lock /\ away st o /\ seen (mo_shard o) epoch st /\ (lock = true -> route_of st o = pinned).

Definition held (Φ : MoveOperation -> State -> Prop) (st : State) : Prop :=
  exists o', st_operations st !! m = Some o' /\ claimed_by token o' = true /\ core o' = core o
    /\ base st /\ Φ o' st.

Definition gone (st : State) : Prop :=
  (exists o', st_operations st !! m = Some o' /\ is_active o' = false /\ core o' = core o)
  /\ ~ fenced (st_places st) (tgt o) (mo_shard o)
  /\ (src o <> tgt o -> barred (epoch + 1) (st_places st) (tgt o) (mo_shard o)).

(** Under the lock nobody takes the move back. *)
Definition owns (Φ : MoveOperation -> State -> Prop) (st : State) : Prop := held Φ st \/ lock = false /\ gone st.

(** An assertion about the operation that its owner can rely on. *)
Definition kept (Φ : MoveOperation -> State -> Prop) : Prop := forall o' st st',
  inv st -> inv st' -> rely st st' -> keeps m o' st st' -> core o' = core o -> claimed_by token o' = true ->
  Φ o' st -> Φ o' st'.

Lemma gone_stable : stable gone.
Proof.
  intros st st' _ _ Hr ((o' & Ho & Ha & Hc) & Hf & Hb). split_and!.
  - destruct (rl_settled _ _ _ _ _ _ Hr m o' Ho Ha) as (o2 & H1 & H2 & H3). exists o2. by rewrite H3.
  - intros Hf'. apply Hf. by apply (rl_fenced _ _ _ _ _ _ Hr).
  - intros Hne. by eapply barred_forward, Hb.
Qed.

Lemma away_core st o1 o2 : core o1 = core o2 -> away st o1 -> away st o2.
Proof. intros Hc. destruct (core_eq _ _ Hc) as (H1 & _ & _ & _ & H2). unfold away, route_of. by rewrite H1, H2. Qed.

Lemma away_stable : stable (fun st => away st o).
Proof.
  intros st st' _ _ Hr (r & Hro & Ha). unfold away, route_of in *. destruct own_target as [Hs Ht]. rewrite Hs, Ht in *.
  by apply (rl_away _ _ _ _ _ _ Hr r).
Qed.

Lemma held_keeps Φ st st' o' :
  kept Φ -> inv st -> inv st' -> rely st st' -> claimed_by token o' = true -> core o' = core o -> base st -> Φ o' st ->
  st_operations st' !! m = Some o' -> keeps m o' st st' -> held Φ st'.
Proof.
  intros Hk Hi Hi' Hr Hcl Hc (Hl & Haw & Hse & Hpin) HΦ Ho' Hkp.
  exists o'. split_and!; [done..| |by apply (Hk o' st st')]. split_and!.
  - by rewrite (rl_locked _ _ _ _ _ _ Hr).
  - by apply (away_stable st st').
  - by apply (seen_stable identity_of token shard destination _ _ st st').
  - intros Hlk. rewrite Hlk in Hl. rewrite <- (Hpin Hlk). destruct (core_eq o' o Hc) as (Hs & _).
    unfold route_of. rewrite <- Hs. apply (kp_locked _ _ _ _ _ _ Hkp Hl).
Qed.

(** Under the lock a claimed operation stays claimed. *)
Lemma held_step Φ st st' :
  kept Φ -> inv st -> inv st' -> rely st st' -> held Φ st -> held Φ st' \/ lock = false /\ gone st'.
Proof.
  intros Hk Hi Hi' Hr (o' & Ho & Hcl & Hc & Hb & HΦ). pose proof Hb as (Hl & Haw & Hse & _).
  destruct (rl_held _ _ _ _ _ _ Hr m o' Ho Hcl (away_core st o o' (eq_sym Hc) Haw)) as [[Ho' Hkp]|Ht].
  - left. by apply (held_keeps Φ st st' o').
  - right. destruct Ht as (Hl' & (o2 & H1 & H2 & H3) & Hf & _ & Hbar). split; [congruence|].
    destruct (core_eq o' o Hc) as (Hs & Hsr & Ht & _). unfold gone. rewrite <- Hs, <- Ht, <- Hsr.
    split_and!; [exists o2; by rewrite H3|done|]. intros Hne. destruct Hse as (r & Hr1 & Hle). rewrite <- Hs in Hr1.
    apply (barred_weaken (pm_write_epoch r + 1)); [lia|by apply Hbar].
Qed.

Lemma owns_stable Φ : kept Φ -> stable (owns Φ).
Proof.
  intros Hk st st' Hi Hi' Hr [Hh|[Hl Hg]]; [|right; split; [done|by apply (gone_stable st st')]].
  by apply (held_step Φ st st').
Qed.

(** Held, or lost before the lock was taken. *)
Definition maybe (Φ : MoveOperation -> State -> Prop) (st : State) : Prop := held Φ st \/ gone st.

Lemma maybe_stable Φ : kept Φ -> stable (maybe Φ).
Proof.
  intros Hk st st' Hi Hi' Hr [Hh|Hg]; [|right; by apply (gone_stable st st')].
  destruct (held_step Φ st st' Hk Hi Hi' Hr Hh) as [?|[_ ?]]; [by left|by right].
Qed.

Lemma owns_maybe Φ st : owns Φ st -> maybe Φ st.
Proof. intros [?|[_ ?]]; [by left|by right]. Qed.

Lemma owns_conseq (Φ Ψ : MoveOperation -> State -> Prop) st : (forall o' st, Φ o' st -> Ψ o' st) -> owns Φ st -> owns Ψ st.
Proof. intros H [(o' & H1 & H2 & H3 & H4 & H5)|Hg]; [left; exists o'; auto 10|by right]. Qed.

Lemma claimed_active o' : claimed_by token o' = true -> is_active o' = true.
Proof. unfold claimed_by. by intros [H _]%andb_true_iff. Qed.

(** The shard's other operations are settled. *)
Lemma held_unique st o' m1 o1 :
  inv st -> st_operations st !! m = Some o' -> claimed_by token o' = true ->
  st_operations st !! m1 = Some o1 -> is_active o1 = true -> mo_shard o1 = mo_shard o' -> m1 = m /\ o1 = o'.
Proof.
  intros Hi Ho Hc H1 Ha Hs.
  assert (m1 = m) as -> by (eapply (inv_unique _ _ _ _ _ Hi); eauto using claimed_active). by simplify_eq.
Qed.

(** ** Claim-guarded updates *)

(** What an update of the claimed operation does, and when it changed a row. *)
Definition claimed_change (Φ Ψ : MoveOperation -> State -> Prop) (guard : MoveOperation -> bool)
    (g : MoveOperation -> MoveOperation) : Prop := forall o' st,
  inv st -> st_operations st !! m = Some o' -> claimed_by token o' = true -> core o' = core o -> guard o' = true -> Φ o' st ->
  core (g o') = core o' /\ claimed_by token (g o') = true
  /\ consistent (st_routes st) (st_progress st) (st_places st) m (g o')
  /\ Ψ (g o') (with_operations st (<[m := g o']> (st_operations st))).

Lemma claimed_effect Φ Ψ guard g st t n :
  (forall o', guard o' = true -> claimed_by token o' = true) -> claimed_change Φ Ψ guard g ->
  inv st -> maybe Φ st -> update_operation m guard g (st_operations st) = (t, n) ->
  inv (with_operations st t) /\ (n = 1 -> held Ψ (with_operations st t)).
Proof.
  intros Hg Hf Hi Hp H. unfold update_operation in H.
  destruct (st_operations st !! m) as [o'|] eqn:Ho; [destruct (guard o') eqn:Eg|]; injection H as <- <-;
    [|split; [by destruct st|done]..].
  destruct Hp as [(o2 & Ho2 & Hc & Hco & Hl & HΦ)|((o2 & Ho2 & Ha & _) & _)]; rewrite Ho in Ho2; injection Ho2 as <-.
  2: { apply Hg, claimed_active in Eg. congruence. }
  destruct (Hf o' st Hi Ho Hc Hco Eg HΦ) as (Hco' & Hcl' & Hcons & HΨ).
  split.
  - destruct (core_eq _ _ Hco') as (? & _ & _ & ? & ?).
    apply (Inv_operation identity_of _ _ _ _ m o'); try done. intros _. by apply claimed_active.
  - intros _. exists (g o'). split_and!; [apply lookup_insert_eq|done|by rewrite Hco'|done|done].
Qed.

Lemma triple_claimed Φ Ψ guard g message :
  kept Φ -> (forall o', guard o' = true -> claimed_by token o' = true) ->
  (forall now, claimed_change Φ Ψ guard (g now)) ->
  triple (maybe Φ)
    (n ⇐ operation_update now_at fault_at env (fun now t => Ok (update_operation m guard (g now) t));
     lift (ensure (n =? 1) message)) (fun _ => held Ψ).
Proof.
  intros Hk Hg Hf. eapply (triple_bind _ _ (fun n st => n = 1 -> held Ψ st)).
  - apply triple_operation_update; [by apply maybe_stable|].
    intros now st t n Hi Hp [= H]. by eapply claimed_effect.
  - intros n. apply triple_lift. intros st [] Hn Hone%ensure_Ok. apply Hn. lia.
Qed.

(** ** Assertions of the copy *)

Definition routed (o' : MoveOperation) (st : State) : Prop := exists r, route_of st o' = Some r /\ under_way r o'.

(** The key is settled: it will be replayed or is equal. *)
Definition settled (o' : MoveOperation) (st : State) (k : RowKey) : Prop :=
  journalled (st_places st) m o' k \/ same_row (st_places st) o' k.

(** The copy is under way and the tables [done] are settled. *)
Definition copying (done : list string) (o' : MoveOperation) (st : State) : Prop :=
  routed o' st /\ captured (st_places st) m o' /\ fenced (st_places st) (tgt o') (mo_shard o')
  /\ is_Some (mo_target_reset_at o') /\ copied (st_progress st) (st_places st) m o'
  /\ forall k, table_of k ∈ done -> settled o' st k.

Lemma routed_kept : kept routed.
Proof. intros o' st st' _ _ _ Hk _ _ (r & Hr & Hu). exists r. split; [|done]. by apply (kp_route _ _ _ _ _ _ Hk). Qed.

Lemma journalled_kept o' st st' k :
  keeps m o' st st' -> captured (st_places st) m o' -> journalled (st_places st) m o' k -> journalled (st_places st') m o' k.
Proof.
  intros Hk Hc [j Hj]. unfold MoveInvariant.journalled.
  destruct (kp_rows _ _ _ _ _ _ Hk k Hc) as [[_ ->]|(j' & -> & _)]; [by exists j|by exists j'].
Qed.

(** A source row that changed is journalled. *)
Lemma source_kept o' st st' k :
  keeps m o' st st' -> captured (st_places st) m o' ->
  source_row (st_places st') o' k = source_row (st_places st) o' k \/ journalled (st_places st') m o' k.
Proof.
  intros Hk Hc. destruct (kp_rows _ _ _ _ _ _ Hk k Hc) as [[? _]|(j' & Hj & _)]; [by left|right; by exists j'].
Qed.

Lemma settled_kept o' st st' k :
  keeps m o' st st' -> captured (st_places st) m o' -> fenced (st_places st) (tgt o') (mo_shard o') ->
  settled o' st k -> settled o' st' k.
Proof.
  intros Hk Hc Hf [Hj|Hs]; [left; by eapply journalled_kept|].
  destruct (source_kept o' st st' k Hk Hc) as [He|]; [|by left]. right.
  unfold MoveInvariant.same_row in *. by rewrite He, (kp_target _ _ _ _ _ _ Hk).
Qed.

Lemma copying_kept done : kept (copying done).
Proof.
  intros o' st st' Hi Hi' Hr Hk Hco Hcl (H1 & H2 & H3 & H4 & H5 & H6).
  split_and!; [by apply (routed_kept o' st st')|by apply (kp_capture _ _ _ _ _ _ Hk)|by apply (kp_fence _ _ _ _ _ _ Hk)|done|
    |intros k Hd; by eapply settled_kept; [| | |apply H6]].
  intros k. destruct (H5 k) as [Hj|[Hs|[Hx Hn]]].
  - left. by eapply journalled_kept.
  - destruct (settled_kept o' st st' k Hk H2 H3 (or_intror Hs)); auto.
  - destruct (source_kept o' st st' k Hk H2) as [He|]; [|by left]. right; right. rewrite He. split; [done|].
    unfold covered. by rewrite (kp_progress _ _ _ _ _ _ Hk).
Qed.

Lemma kept_and Φ Ψ : kept Φ -> kept Ψ -> kept (fun o' st => Φ o' st /\ Ψ o' st).
Proof. intros H1 H2 o' st st' ? ? ? ? ? ? []. split; [by apply (H1 o' st st')|by apply (H2 o' st st')]. Qed.

Lemma copying_and done Ψ :
  (forall o' st st', keeps m o' st st' -> captured (st_places st) m o' -> fenced (st_places st) (tgt o') (mo_shard o') ->
     Ψ o' st -> Ψ o' st') ->
  kept (fun o' st => copying done o' st /\ Ψ o' st).
Proof.
  intros H o' st st' Hi Hi' Hr Hk Hco Hcl [Hc HΨ]. split; [by apply (copying_kept done o' st st')|].
  apply (H o' st st' Hk); [apply Hc..|done].
Qed.

(** The move under way satisfies the invariant. *)
Lemma copying_consistent done o' st :
  copying done o' st -> consistent (st_routes st) (st_progress st) (st_places st) m o'.
Proof.
  intros ((r & Hr & Hu) & H2 & _ & [t Ht] & H5 & _). unfold MoveInvariant.consistent. rewrite Ht.
  intros _ r' Hr' _. unfold route_of in Hr. rewrite Hr in Hr'. injection Hr' as <-. split; [done|]. by left.
Qed.

(** An update of the claimed operation keeps the copy when what it covers is
    settled. *)
Lemma copying_cover done o' o'' st t :
  core o'' = core o' -> is_Some (mo_target_reset_at o'') -> copying done o' st ->
  (forall k, covered (st_progress st) m o'' k -> covered (st_progress st) m o' k \/ settled o' st k) ->
  copying done o'' (with_operations st t).
Proof.
  intros Hco Hre ((r & Hr & Hu) & H2 & H3 & _ & H5 & H6) Hall. destruct (core_eq _ _ Hco) as (Hs & Hsr & Ht & _).
  destruct (core_rows o'' o' (st_places st) Hco) as (_ & _ & Hj & Hc & He).
  split_and!; [|by apply Hc|by rewrite Hs, Ht|done| |].
  - exists r. unfold route_of in *. cbn. rewrite Hs. split; [done|]. by eapply under_way_core.
  - eapply (copied_cover (st_progress st)); [done|exact H5|]. intros k Hk. by destruct (Hall k Hk) as [?|[?|?]]; auto.
  - intros k Hk. destruct (H6 k Hk) as [H|H]; [left; by apply Hj|right; by apply He].
Qed.

(** ** Statements on the target *)

Lemma writes_data s p p0 p' : same_data p p0 -> writes s p p' -> writes s p0 p'.
Proof.
  intros (Hd & Hc & Hj) [H1 H2 H3 H4]. constructor.
  - intros s' k Hs. rewrite <- Hd. by apply H1.
  - by rewrite <- Hd.
  - by rewrite <- Hc.
  - intros m1 k. rewrite <- Hj. apply H4.
Qed.

Section target_write.
Variables (o' : MoveOperation) (ps : places) (p0 p' : Place).
Hypothesis different : src o' <> tgt o'.
Hypothesis stored : ps !! tgt o' = Some p0.
Hypothesis written : writes (mo_shard o') p0 p'.
Let ps' := <[tgt o' := p']> ps.

Lemma target_write_source k : source_row ps' o' k = source_row ps o' k.
Proof. unfold MoveInvariant.source_row, ps'. rewrite rows_in_insert. by rewrite decide_False. Qed.
Lemma target_write_target k : target_row ps' o' k = row_at (pc_db p') (mo_shard o') k.
Proof. unfold MoveInvariant.target_row, ps'. rewrite rows_in_insert. by rewrite decide_True. Qed.
Lemma target_write_old k : target_row ps o' k = row_at (pc_db p0) (mo_shard o') k.
Proof. by apply rows_in_at. Qed.
Lemma target_write_journal k : journalled ps' m o' k <-> journalled ps m o' k.
Proof. unfold MoveInvariant.journalled, ps'. rewrite journal_in_insert. by rewrite decide_False. Qed.
Lemma target_write_capture : captured ps' m o' <-> captured ps m o'.
Proof. unfold MoveInvariant.captured, ps'. rewrite capture_in_insert. by rewrite decide_False. Qed.
Lemma target_write_fence : fenced ps (tgt o') (mo_shard o') -> fenced ps' (tgt o') (mo_shard o').
Proof.
  intros (a & f & Ha & Hf). exists a, f. split; [|done]. unfold ps'. rewrite admission_in_insert, decide_True by done.
  rewrite (wr_admissions _ _ _ written). by rewrite (admission_in_at ps (tgt o') p0) in Ha.
Qed.
End target_write.

Lemma triple_fenced_write Φ Ψ target f g :
  kept Φ -> token_of f = token -> fence_shard f = mo_shard o -> identity_of target = tgt o -> src o <> tgt o ->
  (forall now st o' p p0 p', inv st -> st_operations st !! m = Some o' -> claimed_by token o' = true ->
     core o' = core o -> Φ o' st -> st_places st !! tgt o' = Some p0 -> same_data p p0 -> g now p = Ok p' ->
     fenced (st_places st) (tgt o') (mo_shard o') ->
     writes (mo_shard o') p p'
     /\ let st' := with_places st (<[tgt o' := p']> (st_places st)) in
        consistent (st_routes st) (st_progress st) (st_places st') m o' /\ Ψ o' st') ->
  triple (owns Φ) (fenced_write identity_of control_alias now_at fault_at env target f g) (fun _ => held Ψ).
Proof.
  intros Hk Htok Hsh Htgt Hne Hg. apply triple_place_update; [by apply owns_stable|].
  intros now st p p0 p' a Hi Hp Hp0 Hd H. apply bind_Ok in H as (? & Hv & H). apply bind_Ok in H as (p1 & H & [= <- <-]).
  rewrite Htgt in *.
  assert (Hf : fenced (st_places st) (tgt o) (mo_shard o)).
  { unfold validate_target_move_write, validate_local_shard_move_fence, select_local_shard_admission in Hv.
    unfold fence_shard in Hsh. rewrite Hsh in Hv. destruct Hd as [Hd _]. rewrite Hd in Hv.
    destruct (db_admissions (pc_db p0) !! mo_shard o) as [a|] eqn:Ea; [|done].
    destruct (bool_decide (ad_move_fence a = Some (tw_move_fence f))) eqn:Eb;
      [|by rewrite !orb_true_r in Hv].
    exists a, (tw_move_fence f). rewrite (admission_in_at _ _ p0) by done. split_and!; [done|by apply bool_decide_eq_true in Eb|done]. }
  destruct Hp as [(o' & Ho & Hcl & Hc & Hl & HΦ)|(_ & _ & Hnf & _)]; [|done]. destruct (core_eq o' o Hc) as (Hs & Hsrc & Ht & _).
  rewrite <- Hs, <- Ht in *. rewrite <- Hsrc in Hne.
  destruct (Hg now st o' p p0 p1 Hi Ho Hcl Hc HΦ Hp0 Hd H Hf) as (Hw & Hcons & HΨ).
  split; [|by exists o'].
  eapply (Inv_local identity_of _ _ _ _ _ p0 p1 (mo_shard o') m); [done|done| | |].
  - apply writes_local. by eapply writes_data.
  - intros o1 Ho1 Ha1. cbn in Ho1. rewrite Ho in Ho1. by injection Ho1 as <-.
  - intros m1 o1 Ho1 Ha1 Hs1. cbn in Ho1. destruct (held_unique st o' m1 o1 Hi Ho Hcl Ho1 Ha1 Hs1) as [-> ->]. done.
Qed.

(** ** Backfill *)

Definition at_page (table : string) (n : Z) (cursor : option string) (o' : MoveOperation) (st : State) : Prop :=
  select_last_move_page m table (st_progress st) = (n, cursor).

Definition in_page (table : string) (cursor : option string) (rows : list MoveSourceRow) (k : RowKey) : Prop :=
  table_of k = table /\ after_key cursor (key_text k) = true
  /\ exists last_row, last rows = Some last_row /\ text_ltb (ms_row_key last_row) (key_text k) = false.

(** The page that was read holds the rows still unsettled of its range. *)
Definition page_read (table : string) (cursor : option string) (rows : list MoveSourceRow) (o' : MoveOperation)
    (st : State) : Prop :=
  (forall k r, existT k r ∈ page_rows rows ->
     journalled (st_places st) m o' k \/ source_row (st_places st) o' k = Some r)
  /\ forall k, in_page table cursor rows k -> settled o' st k \/ exists r, existT k r ∈ page_rows rows.

Definition page_done (table : string) (cursor : option string) (rows : list MoveSourceRow) (o' : MoveOperation)
    (st : State) : Prop := forall k, in_page table cursor rows k -> settled o' st k.

Definition table_done (table : string) (o' : MoveOperation) (st : State) : Prop :=
  forall k, table_of k = table -> settled o' st k.

Lemma at_page_kept table n cursor o' st st' : keeps m o' st st' -> at_page table n cursor o' st -> at_page table n cursor o' st'.
Proof. intros Hk. unfold at_page, select_last_move_page. by rewrite (kp_progress _ _ _ _ _ _ Hk). Qed.

Lemma page_read_kept table cursor rows o' st st' :
  keeps m o' st st' -> captured (st_places st) m o' -> fenced (st_places st) (tgt o') (mo_shard o') ->
  page_read table cursor rows o' st -> page_read table cursor rows o' st'.
Proof.
  intros Hk Hc Hf [H1 H2]. split.
  - intros k r Hr. destruct (source_kept o' st st' k Hk Hc) as [He|]; [|by left].
    destruct (H1 k r Hr) as [Hj|Hs]; [left; by eapply journalled_kept|right; by rewrite He].
  - intros k Hin. destruct (H2 k Hin) as [Hs|Hr]; [left; by eapply settled_kept|by right].
Qed.

Lemma select_page_read done table n cursor source :
  table ∈ SHARD_TABLES -> identity_of source = src o ->
  triple (owns (fun o' st => copying done o' st /\ at_page table n cursor o' st))
    (place_query identity_of control_alias now_at fault_at env source
       (fun p => select_move_source_page p table (mo_shard o) cursor))
    (fun rows => owns (fun o' st => copying done o' st /\ at_page table n cursor o' st
       /\ page_read table cursor rows o' st /\ (rows = [] -> table_done table o' st))).
Proof.
  intros Ht Hsrc. apply triple_place_query; [apply owns_stable, copying_and; intros; by eapply at_page_kept|].
  intros st p p0 Hi Hp Hp0 [Hd _]. rewrite Hsrc in Hp0.
  destruct Hp as [(o' & Ho & Hcl & Hc & Hlk & Hcop & Hat)|Hg]; [|by right]. left. exists o'. split_and!; [done..| |].
  - destruct (core_eq o' o Hc) as (Hs & Hsr & _). rewrite <- Hsr in Hp0. rewrite <- Hs.
    destruct Hcop as (_ & _ & _ & _ & Hcop & _).
    assert (Hrow : forall k, source_row (st_places st) o' k = row_at (pc_db p) (mo_shard o') k)
      by (intros k; rewrite Hd; by apply rows_in_at).
    split.
    + intros k r Hr. right. rewrite Hrow. by apply page_rows_elem in Hr as [_ Hr].
    + intros k (Htk & Ha & last_row & Hl & Hle). destruct (row_at (pc_db p) (mo_shard o') k) as [r|] eqn:Er.
      * right. exists r. by eapply page_last.
      * left. destruct (Hcop k) as [?|[?|[[r Hr] _]]]; [by left|by right|]. rewrite Hrow in Hr. congruence.
  - intros Hempty k Htk. destruct (core_eq o' o Hc) as (Hs & Hsr & _). rewrite <- Hsr in Hp0. rewrite <- Hs in Hempty.
    destruct Hcop as (_ & _ & _ & _ & Hcop & _). destruct (Hcop k) as [?|[?|[[r Hr] Hn]]]; [by left|by right|].
    exfalso. unfold MoveInvariant.source_row in Hr. rewrite (rows_in_at _ _ p0), <- Hd in Hr by done.
    destruct (after_key cursor (key_text k)) eqn:Ha.
    + rewrite (page_empty p table (mo_shard o') cursor Ht Hempty k Htk Ha) in Hr. done.
    + destruct cursor as [c|]; [|done]. cbn in Ha. apply Hn. right. unfold at_page, select_last_move_page in Hat.
      rewrite <- Htk in Hat. destruct (st_progress st !! (m, table_of k)) as [pr|] eqn:Epr; [|done]. injection Hat as _ Hend.
      exists pr. by rewrite Hend.
Qed.

(** Upserting rows of the target that equal the source, or whose keys are
    journalled, keeps the copy; the upserted keys are settled. *)
Lemma upsert_settles done o' st p p0 now rows :
  src o' <> tgt o' -> st_places st !! tgt o' = Some p0 -> same_data p p0 -> copying done o' st ->
  (forall k r, existT k r ∈ rows -> journalled (st_places st) m o' k \/ source_row (st_places st) o' k = Some r) ->
  let p' := upsert_json_rows now (mo_shard o') rows p in
  let st' := with_places st (<[tgt o' := p']> (st_places st)) in
  writes (mo_shard o') p p' /\ copying done o' st'
  /\ (forall k, settled o' st k \/ (exists r, existT k r ∈ rows) -> settled o' st' k)
  /\ (forall k, (forall r, existT k r ∉ rows) -> target_row (st_places st') o' k = target_row (st_places st) o' k)
  /\ forall k, (exists r, existT k r ∈ rows) -> exists r, existT k r ∈ rows /\ target_row (st_places st') o' k = Some r.
Proof.
  intros Hne Hp0 Hd (Hr & Hcap & Hf & Hreset & Hcop & Hdone) Hrows p' st'.
  pose proof (upserts_at now (mo_shard o') rows p) as Hup. fold p' in Hup.
  assert (Hw : writes (mo_shard o') p p') by apply upserts_writes.
  assert (Hw0 : writes (mo_shard o') p0 p') by (by eapply writes_data).
  assert (Hold : forall k, target_row (st_places st) o' k = row_at (pc_db p) (mo_shard o') k)
    by (intros k; destruct Hd as [-> _]; by apply target_write_old).
  assert (Hsrc : forall k, source_row (st_places st') o' k = source_row (st_places st) o' k) by (by apply target_write_source).
  assert (Htgt : forall k, target_row (st_places st') o' k = row_at (pc_db p') (mo_shard o') k) by apply target_write_target.
  assert (Hjo : forall k, journalled (st_places st') m o' k <-> journalled (st_places st) m o' k) by (by apply target_write_journal).
  assert (Hkey : forall k, (exists r, existT k r ∈ rows) -> settled o' st' k).
  { intros k [r Hk]. destruct (Hup k) as [(r' & Hk' & He)|[_ Hn]]; [|by destruct (Hn r)].
    destruct (Hrows k r' Hk') as [Hj|Hs]; [left; by apply Hjo|]. right. unfold MoveInvariant.same_row.
    rewrite Htgt, Hsrc, Hs. done. }
  assert (Hset : forall k, settled o' st k -> settled o' st' k).
  { intros k [Hj|Hs]; [left; by apply Hjo|].
    destruct (Hup k) as [(r' & Hk' & He)|[He _]]; [apply Hkey; by exists r'|].
    right. unfold MoveInvariant.same_row in *. by rewrite Htgt, Hsrc, <- Hs, Hold, He. }
  split; [done|]. split; [|split; [intros k [?|?]; auto|split]].
  - split_and!; [done|by apply target_write_capture|by eapply target_write_fence|done| |intros k Hk; by apply Hset, Hdone].
    intros k. destruct (Hcop k) as [Hj|[Hs|[Hx Hn]]].
    + left. by apply Hjo.
    + destruct (Hset k (or_intror Hs)); auto.
    + right; right. by rewrite Hsrc.
  - intros k Hn. rewrite Htgt, Hold. destruct (Hup k) as [(r' & Hk' & _)|[He _]]; [|done].
    by destruct (Hn r').
  - intros k [r Hk]. rewrite Htgt. destruct (Hup k) as [(r' & Hk' & He)|[_ Hn]]; [eauto|].
    by destruct (Hn r).
Qed.

Section copy.
Variables (source target : string) (f : TargetMoveWriteFence).
Hypothesis source_alias : identity_of source = src o.
Hypothesis target_alias : identity_of target = tgt o.
Hypothesis different : src o <> tgt o.
Hypothesis own_token : token_of f = token.
Hypothesis own_move : move_of f = m.
Hypothesis own_shard : fence_shard f = mo_shard o.

Lemma different_core o' : core o' = core o -> src o' <> tgt o'.
Proof. intros Hc. destruct (core_eq o' o Hc) as (_ & -> & -> & _). done. Qed.

Lemma upsert_page done table n cursor rows :
  triple (owns (fun o' st => copying done o' st /\ at_page table n cursor o' st /\ page_read table cursor rows o' st))
    (upsert_target_move_rows identity_of control_alias now_at fault_at env target f (page_rows rows))
    (fun _ => held (fun o' st => copying done o' st /\ at_page table n cursor o' st /\ page_done table cursor rows o' st)).
Proof.
  apply triple_fenced_write; try done.
  { apply copying_and. intros o' st st' Hk Hc Hf [H1 H2]. split; [by eapply at_page_kept|by eapply page_read_kept]. }
  intros now st o' p p0 p' Hi Ho Hcl Hc (Hcop & Hat & Hr1 & Hr2) Hp0 Hd [= <-] Hf. rewrite own_shard.
  destruct (core_eq o' o Hc) as (Hs & _). rewrite <- Hs.
  destruct (upsert_settles done o' st p p0 now (page_rows rows) (different_core o' Hc) Hp0 Hd Hcop Hr1) as (Hw & Hcop' & Hset & _).
  split; [done|]. split; [by apply (copying_consistent _ _ _ Hcop')|]. split; [done|]. split; [done|].
  intros k Hin. apply Hset. by apply Hr2.
Qed.

Lemma not_shard_table table : table ∈ PREREQUISITE_TABLES -> table ∉ SHARD_TABLES.
Proof. revert table. apply Forall_forall, (bool_decide_unpack _). vm_compute. exact I. Qed.

Lemma shard_table_known k : table_of k ∉ PREREQUISITE_TABLES.
Proof. intros H. apply not_shard_table in H. apply H, table_of_known. Qed.

(** The prerequisite rows are not rows of the shard. *)
Lemma copy_prerequisite_rows rows p p' :
  copy_json_rows rows p = Ok p' ->
  (forall s k, row_at (pc_db p') s k = row_at (pc_db p) s k) /\ db_admissions (pc_db p') = db_admissions (pc_db p)
  /\ pc_captures p' = pc_captures p /\ pc_journal p' = pc_journal p.
Proof.
  unfold copy_json_rows. revert p. induction rows as [|row rows IH]; intros p H; cbn in H; [by injection H as <-|].
  apply bind_Ok in H as (p1 & H1 & H2). destruct (IH p1 H2) as (H3 & -> & -> & ->). setoid_rewrite H3.
  unfold copy_prerequisite in H1. destruct row as [id r|id r|k r]; [| |done].
  - apply bind_Ok in H1 as (? & _ & [= <-]). split_and!; [by intros s []|reflexivity..].
  - apply bind_Ok in H1 as (? & _ & H1). apply bind_Ok in H1 as (? & _ & [= <-]).
    split_and!; [by intros s []|reflexivity..].
Qed.

Lemma copy_prerequisite_page done table n cursor rows :
  table ∈ PREREQUISITE_TABLES ->
  triple (owns (fun o' st => copying done o' st /\ at_page table n cursor o' st))
    (copy_target_move_rows identity_of control_alias now_at fault_at env target f (map ms_row rows))
    (fun _ => held (fun o' st => copying done o' st /\ at_page table n cursor o' st /\ page_done table cursor rows o' st)).
Proof.
  intros Ht. apply triple_fenced_write; try done.
  { apply copying_and. intros; by eapply at_page_kept. }
  intros now st o' p p0 p' Hi Ho Hcl Hc (Hcop & Hat) Hp0 Hd Hcopy Hf.
  apply copy_prerequisite_rows in Hcopy as (Hdb & Had & Hca & Hjo).
  assert (Hw : writes (mo_shard o') p p').
  { constructor; [intros; by rewrite Hdb|done|done|by rewrite Hjo]. }
  assert (Hcop' : copying done o' (with_places st (<[tgt o' := p']> (st_places st)))).
  { destruct Hcop as (Hr & Hcap & Hfe & Hreset & Hcop & Hdone). pose proof (different_core o' Hc) as Hne.
    assert (Hw0 : writes (mo_shard o') p0 p') by (by eapply writes_data).
    assert (Hset : forall k, settled o' (with_places st (<[tgt o' := p']> (st_places st))) k <-> settled o' st k).
    { intros k. unfold settled. cbn [st_places with_places st_progress]. rewrite target_write_journal by done.
      unfold MoveInvariant.same_row. rewrite target_write_source, target_write_target by done. rewrite Hdb.
      destruct Hd as [-> _]. by rewrite <- (target_write_old o' (st_places st) p0) by done. }
    split_and!; [done|by apply target_write_capture|by eapply target_write_fence|done| |].
    - intros k. destruct (Hcop k) as [Hj|[Hs|Hx]].
      + destruct (proj2 (Hset k) (or_introl Hj)); auto.
      + destruct (proj2 (Hset k) (or_intror Hs)); auto.
      + right; right. cbn [st_places with_places st_progress]. by rewrite target_write_source.
    - intros k Hk. by apply Hset, Hdone. }
  split; [done|]. split; [by apply (copying_consistent _ _ _ Hcop')|]. split; [done|]. split; [done|].
  intros k (Htk & _). exfalso. rewrite <- Htk in Ht. by apply shard_table_known in Ht.
Qed.

(** ** Acknowledging a page *)

Lemma checkpoint_last rows c : move_page_checkpoint rows = Ok c -> exists last_row, last rows = Some last_row /\ ck_end_key c = ms_row_key last_row.
Proof.
  unfold move_page_checkpoint. intros H. apply bind_Ok in H as (lr & Hl%ok_or_Ok & H).
  apply bind_Ok in H as (? & _ & [= <-]). by exists lr.
Qed.

(** After its predecessor the page moves the table's cursor to its end. *)
Lemma advance_progress_page table n cursor c cs cs' advanced :
  select_last_move_page m table cs = (n, cursor) -> advance_progress m table n cursor c cs = (cs', advanced) ->
  advanced = Some (n + 1) /\ select_last_move_page m table cs' = (n + 1, Some (ck_end_key c))
  /\ exists p, cs' = <[(m, table) := p]> cs /\ pg_last_end_key p = ck_end_key c.
Proof.
  unfold select_last_move_page, advance_progress. destruct (cs !! (m, table)) as [p|] eqn:E.
  - intros [= <- <-]. rewrite Z.eqb_refl, bool_decide_true by done. intros [= <- <-].
    rewrite lookup_insert_eq. split_and!; [done..|]. by eexists.
  - intros [= <- <-] [= <- <-]. rewrite lookup_insert_eq. split_and!; [done..|]. by eexists.
Qed.

Definition acknowledged (now rows bytes : Z) (o' : MoveOperation) : MoveOperation :=
  extend_claim now (set_phase (add_copied o' rows bytes) "backfill" (mo_target_reset_at o')).

Lemma acknowledged_core now rows bytes o' :
  core (acknowledged now rows bytes o') = core o' /\ claimed_by token (acknowledged now rows bytes o') = claimed_by token o'
  /\ mo_target_reset_at (acknowledged now rows bytes o') = mo_target_reset_at o'
  /\ copied_phase (acknowledged now rows bytes o') = false.
Proof. unfold claimed_by, mo_claim_token. cbn. destruct (mo_claim o') as [[]|]; done. Qed.

Lemma page_settles cs cs' ps table cursor rows o' o'' last_row n p :
  core o'' = core o' -> copied_phase o'' = false -> copied cs ps m o' ->
  select_last_move_page m table cs = (n, cursor) -> last rows = Some last_row ->
  cs' = <[(m, table) := p]> cs -> pg_last_end_key p = ms_row_key last_row ->
  (forall k, in_page table cursor rows k -> journalled ps m o' k \/ same_row ps o' k) ->
  copied cs' ps m o''.
Proof.
  intros Hc Hph Hcop Hsel Hl -> Hend Hpage. eapply copied_cover; [done|done|]. intros k [Hp|(pr & Hpr & Hle)]; [congruence|].
  destruct (decide ((m, table) = (m, table_of k))) as [[= Ht]|Hne].
  - rewrite Ht, lookup_insert_eq in Hpr. injection Hpr as <-. destruct (after_key cursor (key_text k)) eqn:Ha.
    + right. apply Hpage. split; [done|]. split; [done|]. exists last_row. by rewrite <- Hend.
    + left. right. unfold select_last_move_page in Hsel. rewrite Ht in Hsel.
      destruct (cs !! (m, table_of k)) as [pr|] eqn:Epr; injection Hsel as _ <-; [|done]. exists pr. done.
  - rewrite lookup_insert_ne in Hpr by done. left. right. by exists pr.
Qed.

Lemma Inv_progress rs t cs ps m1 table p :
  Inv identity_of rs t cs ps -> is_Some (t !! m1) ->
  (forall o1, t !! m1 = Some o1 -> is_active o1 = true -> consistent rs (<[(m1, table) := p]> cs) ps m1 o1) ->
  Inv identity_of rs t (<[(m1, table) := p]> cs) ps.
Proof.
  intros HI Hm Hc. constructor; [|apply HI..|].
  - intros m2 o2 H2 Ha. destruct (decide (m2 = m1)) as [->|Hne]; [by apply Hc|].
    apply (consistent_frame identity_of rs rs cs _ ps ps m2 o2 (inv_consistent _ _ _ _ _ HI m2 o2 H2 Ha)); try done.
    intros t1. apply lookup_insert_ne. congruence.
  - intros m2 t1 H2. destruct (decide ((m1, table) = (m2, t1))) as [[= <- <-]|Hne]; [done|].
    rewrite lookup_insert_ne in H2 by done. by apply (inv_progress _ _ _ _ _ HI m2 t1).
Qed.

Lemma checkpoint_page done table n cursor rows last_row :
  last rows = Some last_row ->
  triple (owns (fun o' st => copying done o' st /\ at_page table n cursor o' st /\ page_done table cursor rows o' st))
    (operation now_at fault_at env (fun now w =>
       st ← record_completed_move_page now m token table n cursor rows (mw_operations w) (mw_progress w);
       Ok (set_progress (set_operations w st.1) st.2, tt)))
    (fun _ => held (fun o' st => copying done o' st /\ at_page table (n + 1) (Some (ms_row_key last_row)) o' st)).
Proof.
  intros Hl. apply triple_operation.
  { apply owns_stable, copying_and. intros o' st st' Hk Hc Hf [H1 H2].
    split; [by eapply at_page_kept|]. intros k Hin. eapply settled_kept; eauto. }
  intros now w w' [] Hi Hp H. apply bind_Ok in H as ([t cs'] & H & [= <-]). unfold record_completed_move_page in H.
  apply bind_Ok in H as (c & Hck & H). destruct (checkpoint_last rows c Hck) as (lr & Hlr & Hend).
  rewrite Hl in Hlr. injection Hlr as <-.
  destruct (advance_progress m table n cursor c (mw_progress w)) as [cs1 advanced] eqn:Eadv.
  apply bind_Ok in H as (? & _ & H). unfold update_operation in H.
  destruct (mw_operations w !! m) as [o'|] eqn:Ho; [|by apply bind_Ok in H as (? & ? & _)].
  destruct (claimed_by token o') eqn:Hcl; [|by apply bind_Ok in H as (? & ? & _)].
  apply bind_Ok in H as (? & _ & [= <- <-]).
  destruct Hp as [(o2 & Ho2 & _ & Hc & Hlk & Hcop & Hat & Hdone)|(_ & (o2 & Ho2 & Ha & _) & _)]; cbn in Ho2; rewrite Ho in Ho2;
    injection Ho2 as <-; [|by apply claimed_active in Hcl; congruence].
  destruct (advance_progress_page table n cursor c _ cs1 advanced Hat Eadv) as (-> & Hsel & p & -> & Hpend).
  cbn [opt_is_some]. set (o'' := extend_claim _ _).
  change o'' with (acknowledged now (ck_row_count c) (ck_byte_count c) o'). clear o''.
  destruct (acknowledged_core now (ck_row_count c) (ck_byte_count c) o') as (Hco & Hcl2 & Hre & Hph).
  set (o'' := acknowledged now (ck_row_count c) (ck_byte_count c) o') in *.
  set (st' := mkState (mw_placements w) (<[m := o'']> (mw_operations w)) (<[(m, table) := p]> (mw_progress w)) (mw_places w) (mw_locked w)).
  assert (Hcop' : copying done o'' st').
  { destruct Hcop as ((r & Hr & Hu) & Hcap & Hf & Hreset & Hcopied & Hsettled). destruct (core_eq _ _ Hco) as (Hs & Hsr & Ht & _).
    split_and!.
    - exists r. unfold route_of in *. rewrite Hs. split; [done|]. by eapply under_way_core.
    - by apply (core_rows o'' o' _ Hco).
    - by rewrite Hs, Ht.
    - by rewrite Hre.
    - eapply (page_settles (mw_progress w)); eauto. by rewrite Hpend.
    - intros k Hk. destruct (core_rows o'' o' (mw_places w) Hco) as (_ & _ & Hj & _ & He).
      destruct (Hsettled k Hk) as [H|H]; [left; by apply Hj|right; by apply He]. }
  assert (Hcop1 : copied (mw_progress w) (mw_places w) m o'').
  { apply (copied_cover (mw_progress w) _ _ m o'); [done|apply Hcop|]. intros k [Hp|Hp]; [congruence|left; by right]. }
  assert (Hi1 : Inv identity_of (mw_placements w) (<[m := o'']> (mw_operations w)) (<[(m, table) := p]> (mw_progress w)) (mw_places w)).
  { destruct (core_eq _ _ Hco) as (Hs & _ & _ & Hsa & Hta). pose proof Hcop' as (H1 & H2 & H3 & H4 & _ & H6).
    apply Inv_progress; [|rewrite lookup_insert_eq; by eexists|].
    - apply (Inv_operation identity_of _ _ _ _ m o'); [done..|intros _; by apply claimed_active|].
      intros _. by apply (copying_consistent done o'' (mkState (mw_placements w) (<[m := o'']> (mw_operations w)) (mw_progress w) (mw_places w) (mw_locked w))).
    - intros o1. rewrite lookup_insert_eq. intros [= <-] _. by apply (copying_consistent done o'' st'). }
  split; [exact Hi1|]. split; [done|]. split; [by apply handover_same|].
  exists o''. split_and!; [apply lookup_insert_eq|by rewrite Hcl2|by rewrite Hco|done|done|]. unfold at_page. rewrite <- Hend.
  exact Hsel.
Qed.

Lemma backfill_table_done done fuel table : table ∈ SHARD_TABLES -> forall n cursor,
  triple (owns (fun o' st => copying done o' st /\ at_page table n cursor o' st))
    (backfill_table identity_of control_alias now_at fault_at env fuel source target f table n cursor)
    (fun _ => owns (fun o' st => copying done o' st /\ table_done table o' st)).
Proof.
  intros Ht. induction fuel as [|fuel IH]; intros n cursor; cbn [backfill_table]; rewrite own_shard.
  all: eapply triple_bind; [by apply select_page_read|]; intros [|row rows].
  1,3: apply triple_ret; intros st Hst; eapply owns_conseq; [|exact Hst]; naive_solver.
  - apply triple_diverge.
  - set (page := row :: rows). destruct (last page) as [last_row|] eqn:El; [|by apply last_None in El].
    eapply (triple_bind _ _ (fun _ => owns (fun o' st => copying done o' st /\ at_page table (n + 1) (Some (ms_row_key last_row)) o' st)));
      [|intros _; cbn [fmap option_fmap option_map]; apply IH].
    unfold copy_and_checkpoint_move_page. rewrite own_move, own_token.
    replace (existsb (str_eqb table) PREREQUISITE_TABLES) with false.
    2: { symmetry. apply not_true_iff_false. intros (t & Hin & He)%existsb_exists. apply str_eqb_true in He as <-.
         apply list_elem_of_In in Hin. by apply not_shard_table in Hin. }
    cbv beta iota.
    eapply (triple_bind _ _ (fun _ => owns (fun o' st => copying done o' st /\ at_page table n cursor o' st /\ page_done table cursor page o' st)));
      [eapply triple_conseq; [apply (upsert_page done table n cursor page)| |]|].
    + intros st Hst. eapply owns_conseq; [|exact Hst]. naive_solver.
    + intros a st Hst. by left.
    + intros _. eapply triple_conseq; [by apply checkpoint_page|done|]. intros a st Hst. by left.
Qed.

Lemma backfill_prerequisite_done done fuel table : table ∈ PREREQUISITE_TABLES -> forall n cursor,
  triple (owns (fun o' st => copying done o' st /\ at_page table n cursor o' st))
    (backfill_table identity_of control_alias now_at fault_at env fuel source target f table n cursor)
    (fun _ => owns (copying done)).
Proof.
  intros Ht. assert (Hk : forall n cursor, kept (fun o' st => copying done o' st /\ at_page table n cursor o' st))
    by (intros; apply copying_and; intros; by eapply at_page_kept).
  induction fuel as [|fuel IH]; intros n cursor; cbn [backfill_table].
  all: eapply (triple_bind _ _ (fun rows => owns (fun o' st => copying done o' st /\ at_page table n cursor o' st)));
    [apply triple_place_query; [by apply owns_stable|done]|]; intros [|row rows].
  1,3: apply triple_ret; intros st Hst; eapply owns_conseq; [|exact Hst]; naive_solver.
  - apply triple_diverge.
  - set (page := row :: rows). destruct (last page) as [last_row|] eqn:El; [|by apply last_None in El].
    eapply (triple_bind _ _ (fun _ => owns (fun o' st => copying done o' st /\ at_page table (n + 1) (Some (ms_row_key last_row)) o' st)));
      [|intros _; cbn [fmap option_fmap option_map]; apply IH].
    unfold copy_and_checkpoint_move_page. rewrite own_move, own_token.
    replace (existsb (str_eqb table) PREREQUISITE_TABLES) with true
      by (symmetry; apply existsb_exists; exists table; split; [by apply list_elem_of_In|by apply str_eqb_true]).
    cbv beta iota.
    eapply (triple_bind _ _ (fun _ => owns (fun o' st => copying done o' st /\ at_page table n cursor o' st /\ page_done table cursor page o' st)));
      [eapply triple_conseq; [by apply (copy_prerequisite_page done table n cursor page)|done|]|].
    + intros a st Hst. by left.
    + intros _. eapply triple_conseq; [by apply checkpoint_page|done|]. intros a st Hst. by left.
Qed.

Lemma copying_more done table o' st :
  copying done o' st -> table_done table o' st -> copying (done ++ [table]) o' st.
Proof.
  intros (H1 & H2 & H3 & H4 & H5 & H6) Ht. split_and!; try done. intros k [Hk|Hk%list_elem_of_singleton]%elem_of_app; [by apply H6|].
  by apply Ht.
Qed.

Lemma phase_core now phase reset o' :
  core (extend_claim now (set_phase o' phase reset)) = core o'
  /\ claimed_by token (extend_claim now (set_phase o' phase reset)) = claimed_by token o'.
Proof. unfold claimed_by, mo_claim_token. cbn. destruct (mo_claim o') as [[]|]; done. Qed.

(** The claimed copy with every key settled or covered. *)
Definition copied_online (o' : MoveOperation) (st : State) : Prop := copying [] o' st /\ copied_phase o' = true.

Lemma copied_online_kept : kept copied_online.
Proof. apply copying_and. done. Qed.

(** Entering a later phase keeps a complete copy. *)
Lemma enter_phase Φ phase message :
  copied_phase (set_phase o phase None) = true -> kept Φ ->
  (forall o' st, Φ o' st -> copying [] o' st) ->
  (forall o' st k, Φ o' st -> covered (st_progress st) m o' k \/ settled o' st k) ->
  triple (maybe Φ) (claimed_phase now_at fault_at env m token phase message) (fun _ => held copied_online).
Proof.
  intros Hph Hk Hcop Hall. apply triple_claimed; [done|done|]. intros now o' st Hi Ho Hcl Hc _ HΦ.
  destruct (phase_core now phase (mo_target_reset_at o') o') as [Hco Hcl']. set (o'' := extend_claim _ _) in *.
  assert (Hcop' : copying [] o'' (with_operations st (<[m := o'']> (st_operations st)))).
  { apply (copying_cover _ o'); [done|apply (Hcop o' st HΦ)|by apply Hcop|]. intros k _. by apply Hall. }
  split; [done|]. split; [by rewrite Hcl'|]. split; [|done]. by apply (copying_consistent [] o'' _ Hcop').
Qed.

Lemma backfill_copies fuel :
  triple (owns (copying []))
    (backfill_shard_move identity_of control_alias now_at fault_at env fuel source target f) (fun _ => held copied_online).
Proof.
  unfold backfill_shard_move.
  eapply (triple_bind _ _ (fun _ => owns (copying move_table_names))).
  - apply (triple_fold_prefix identity_of (fun done => owns (copying done))). intros done table rest [] He.
    rewrite own_move.
    eapply (triple_bind _ _ (fun at_ => owns (fun o' st => copying done o' st /\ at_page table at_.1 at_.2 o' st))).
    + apply triple_query; [apply owns_stable, copying_kept|]. intros w a Hi Hp [= <-].
      destruct Hp as [(o' & H1 & H2 & H3 & H4 & H5)|Hg]; [|by right]. left. exists o'. split_and!; [done..|].
      unfold at_page. by rewrite <- surjective_pairing.
    + intros [n cursor]. cbn [fst snd]. assert (Ht : table ∈ move_table_names) by (rewrite He; set_solver).
      unfold move_table_names in Ht. apply elem_of_app in Ht as [Ht|Ht].
      * eapply triple_conseq; [by apply backfill_prerequisite_done|done|]. intros a st. apply owns_conseq.
        intros o' st' Hc. apply copying_more; [done|]. intros k Hk. exfalso. rewrite <- Hk in Ht. by apply shard_table_known in Ht.
      * eapply triple_conseq; [by apply backfill_table_done|done|]. intros a st. apply owns_conseq.
        intros o' st' [Hc Hd]. by apply copying_more.
  - intros _. rewrite own_move, own_token.
    eapply triple_conseq; [apply (enter_phase (copying move_table_names)); [done|apply copying_kept| |]|apply owns_maybe|done].
    + intros o' st (H1 & H2 & H3 & H4 & H5 & _). split_and!; try done. by intros k ?%elem_of_nil.
    + intros o' st k (_ & _ & _ & _ & _ & H). right. apply H. apply elem_of_app. right. apply table_of_known.
Qed.

(** ** Replay *)

(** Each key is journalled at its version or a later one; at its version [E]
    holds of it. *)
Definition replaying (E : MoveOperation -> State -> RowKey -> Prop) (keys : list (RowKey * Z)) (o' : MoveOperation)
    (st : State) : Prop := forall k v, (k, v) ∈ keys ->
  exists j, journal_in (st_places st) (src o') m k = Some j /\ v <= jr_change_version j
    /\ (jr_change_version j = v -> E o' st k).

(** A key whose version stayed has its source row unchanged. *)
Lemma replaying_kept (E : MoveOperation -> State -> RowKey -> Prop) keys o' st st' :
  (forall k, source_row (st_places st') o' k = source_row (st_places st) o' k ->
     target_row (st_places st') o' k = target_row (st_places st) o' k -> E o' st k -> E o' st' k) ->
  keeps m o' st st' -> captured (st_places st) m o' -> fenced (st_places st) (tgt o') (mo_shard o') ->
  replaying E keys o' st -> replaying E keys o' st'.
Proof.
  intros HE Hk Hc Hf H k v Hin. destruct (H k v Hin) as (j & Hj & Hv & He).
  destruct (kp_rows _ _ _ _ _ _ Hk k Hc) as [[Hs Hjo]|(j' & Hj' & Hlt)].
  - exists j. rewrite Hjo. split_and!; [done..|]. intros Hv'. apply HE; [done|by apply (kp_target _ _ _ _ _ _ Hk)|by apply He].
  - rewrite Hj in Hlt. cbn in Hlt. exists j'. split_and!; [done|lia|lia].
Qed.

Definition same_key (o' : MoveOperation) (st : State) (k : RowKey) : Prop := same_row (st_places st) o' k.
Definition missing_key (o' : MoveOperation) (st : State) (k : RowKey) : Prop := source_row (st_places st) o' k = None.
Definition current_key (current : list {k & row_type k}) (o' : MoveOperation) (st : State) (k : RowKey) : Prop :=
  forall r, existT k r ∈ current -> source_row (st_places st) o' k = Some r.

Lemma online_and (E : MoveOperation -> State -> RowKey -> Prop) keys :
  (forall o' st st' k, source_row (st_places st') o' k = source_row (st_places st) o' k ->
     target_row (st_places st') o' k = target_row (st_places st) o' k -> E o' st k -> E o' st' k) ->
  kept (fun o' st => copied_online o' st /\ replaying E keys o' st).
Proof.
  intros HE o' st st' Hi Hi' Hr Hk Hc Hcl [Ho H]. split; [by apply (copied_online_kept o' st st')|].
  apply (replaying_kept E keys o' st st' (HE o' st st') Hk); [apply Ho..|done].
Qed.

Lemma same_key_kept o' st st' k :
  source_row (st_places st') o' k = source_row (st_places st) o' k ->
  target_row (st_places st') o' k = target_row (st_places st) o' k -> same_key o' st k -> same_key o' st' k.
Proof. unfold same_key, MoveInvariant.same_row. by intros -> ->. Qed.

Lemma current_key_kept current o' st st' k :
  source_row (st_places st') o' k = source_row (st_places st) o' k ->
  target_row (st_places st') o' k = target_row (st_places st) o' k -> current_key current o' st k -> current_key current o' st' k.
Proof. unfold current_key. by intros -> _. Qed.

Lemma missing_key_kept o' st st' k :
  source_row (st_places st') o' k = source_row (st_places st) o' k ->
  target_row (st_places st') o' k = target_row (st_places st) o' k -> missing_key o' st k -> missing_key o' st' k.
Proof. unfold missing_key. by intros -> _. Qed.

(** Settling keys whose rows are equal keeps the copy; a move that was taken back
    has no journal to lose. *)
Lemma Inv_settle st p p0 keys :
  inv st -> st_places st !! src o = Some p0 -> same_data p p0 ->
  (forall o', st_operations st !! m = Some o' -> is_active o' = true ->
     consistent (st_routes st) (st_progress st)
       (<[src o := settle_replayed_dirty_keys m keys p]> (st_places st)) m o') ->
  inv (with_places st (<[src o := settle_replayed_dirty_keys m keys p]> (st_places st))).
Proof.
  intros Hi Hp0 (Hd & Hca & Hjo) Hc. constructor; [|apply Hi..]. intros m1 o1 Hm1 Ha1.
  destruct (decide (m1 = m)) as [->|Hne]; [by apply Hc|].
  apply (consistent_frame identity_of _ _ _ _ (st_places st) _ m1 o1 (inv_consistent _ _ _ _ _ Hi m1 o1 Hm1 Ha1)); [done|done|..].
  - intros k. unfold MoveInvariant.source_row. cbn. rewrite rows_in_insert. case_decide as He; [|done].
    rewrite (rows_in_at _ _ p0) by (by rewrite <- He). cbn. by rewrite <- Hd.
  - intros k. unfold MoveInvariant.target_row. cbn. rewrite rows_in_insert. case_decide as He; [|done].
    rewrite (rows_in_at _ _ p0) by (by rewrite <- He). cbn. by rewrite <- Hd.
  - intros k. unfold MoveInvariant.journalled. cbn. rewrite journal_in_insert. case_decide as He; [|done].
    rewrite (journal_in_at _ _ p0) by (by rewrite <- He). rewrite <- Hjo.
    destruct (settle_journal m keys p m1 k) as [->|[-> _]]; done.
  - unfold MoveInvariant.captured. cbn. rewrite capture_in_insert. case_decide as He; [|done].
    rewrite (capture_in_at _ _ p0) by (by rewrite <- He). cbn. by rewrite <- Hca.
  - intros r _. unfold MoveInvariant.source_closed. cbn. rewrite admission_in_insert. case_decide as He; [|done].
    rewrite (admission_in_at _ _ p0) by (by rewrite <- He). cbn. by rewrite <- Hd.
Qed.

Lemma settle_keys keys :
  triple (owns (fun o' st => copied_online o' st /\ replaying same_key keys o' st))
    (settle_replayed identity_of control_alias now_at fault_at env source m keys) (fun _ => owns copied_online).
Proof.
  apply triple_place_update; [apply owns_stable, online_and; intros ? ? ? ?; apply same_key_kept|].
  intros now st p p0 p' [] Hi Hp Hp0 Hd [= <-]. rewrite source_alias in Hp0 |- *.
  destruct Hp as [(o' & Ho & Hcl & Hc & Hl & [Hcop Hph] & Hre)|(Hl & Hg)].
  - destruct (core_eq o' o Hc) as (Hs & Hsr & Ht & _). pose proof (different_core o' Hc) as Hne. rewrite <- Hsr in Hp0 |- *.
    set (ps' := <[src o' := settle_replayed_dirty_keys m keys p]> (st_places st)).
    assert (Hcop' : copying [] o' (with_places st ps')).
    { destruct Hcop as (H1 & H2 & H3 & H4 & H5 & _). destruct Hd as (Hdb & Hca & Hjo).
      assert (Hsrc : forall k, source_row ps' o' k = source_row (st_places st) o' k).
      { intros k. unfold MoveInvariant.source_row, ps'. rewrite rows_in_insert, decide_True by done.
        rewrite (rows_in_at _ _ p0) by done. cbn. by rewrite <- Hdb. }
      assert (Htgt : forall k, target_row ps' o' k = target_row (st_places st) o' k).
      { intros k. unfold MoveInvariant.target_row, ps'. by rewrite rows_in_insert, decide_False. }
      split_and!; [done| | |done| |by intros k ?%elem_of_nil].
      - unfold MoveInvariant.captured, ps' in *. cbn. rewrite capture_in_insert, decide_True by done. cbn.
        rewrite Hca. by rewrite <- (capture_in_at _ _ p0 (mo_shard o')) by done.
      - destruct H3 as (a & fc & Ha & Hfc). exists a, fc. split; [|done]. unfold ps'. cbn. by rewrite admission_in_insert, decide_False.
      - intros k. unfold MoveInvariant.same_row. cbn [st_places st_progress with_places]. rewrite Hsrc, Htgt.
        destruct (H5 k) as [[j Hj]|?]; [|auto]. rewrite (journal_in_at _ _ p0) in Hj by done. rewrite <- Hjo in Hj.
        destruct (settle_journal m keys p m k) as [He|(_ & j' & Hj' & Hin)].
        + left. exists j. unfold ps'. rewrite journal_in_insert, decide_True by done. by rewrite He.
        + destruct (Hre k _ Hin) as (j2 & Hj2 & _ & Hsame). rewrite (journal_in_at _ _ p0), <- Hjo in Hj2 by done.
          rewrite Hj' in Hj2. injection Hj2 as <-. right. left. by apply Hsame. }
    split; [|left; exists o'; by split_and!].
    unfold ps' in *. clear ps'. rewrite Hsr in Hp0, Hcop' |- *. apply (Inv_settle st p p0); [done..|]. intros o1 Ho1 _. rewrite Ho in Ho1.
    injection Ho1 as <-. exact (copying_consistent _ _ _ Hcop').
  - split; [|right; split; [done|]].
    + apply (Inv_settle st p p0); [done..|]. intros o1 Ho1 Ha1. destruct Hg as ((o2 & Ho2 & Ha2 & _) & _). congruence.
    + destruct Hg as (Hg1 & Hg2 & Hg3). unfold gone, MoveRely.fenced, barred in *. cbn.
      rewrite admission_in_insert, decide_False by done. done.
Qed.

Definition dirty_key (exists_ : bool) (o' : MoveOperation) (st : State) (k : RowKey) : Prop :=
  exists_ = false -> missing_key o' st k.

Lemma dirty_key_kept exists_ o' st st' k :
  source_row (st_places st') o' k = source_row (st_places st) o' k ->
  target_row (st_places st') o' k = target_row (st_places st) o' k -> dirty_key exists_ o' st k -> dirty_key exists_ o' st' k.
Proof. intros H1 H2 H He. apply (missing_key_kept o' st st' k H1 H2). by apply H. Qed.

Lemma read_dirty_keys table exists_ limit :
  triple (owns copied_online)
    (place_query identity_of control_alias now_at fault_at env source (fun p =>
       select_dirty_shard_keys_for_table p m (mo_shard o) table exists_ limit))
    (fun keys => owns (fun o' st => copied_online o' st /\ replaying (dirty_key exists_) keys o' st)).
Proof.
  apply triple_place_query; [apply owns_stable, copied_online_kept|]. intros st p p0 Hi Hp Hp0 (Hd & _ & Hjo).
  rewrite source_alias in Hp0. destruct Hp as [(o' & Ho & Hcl & Hc & Hl & Hon)|Hg]; [|by right]. left. exists o'.
  split_and!; [done..|]. destruct (core_eq o' o Hc) as (Hs & Hsr & _). rewrite <- Hsr in Hp0. rewrite <- Hs.
  intros k v Hin. apply dirty_keys_elem in Hin as (j & Hj & Hv & Hex). exists j.
  rewrite (journal_in_at _ _ p0), <- Hjo by done. split_and!; [done|lia|]. intros _ He. unfold missing_key, MoveInvariant.source_row.
  rewrite (rows_in_at _ _ p0), <- Hd by done. rewrite He in Hex. by destruct (row_at (pc_db p) (mo_shard o') k).
Qed.

Lemma upsert_current keys current :
  (forall k r, existT k r ∈ current -> k ∈ map fst keys) ->
  triple (owns (fun o' st => copied_online o' st /\ replaying (current_key current) keys o' st))
    (upsert_target_move_rows identity_of control_alias now_at fault_at env target f current)
    (fun _ => held (fun o' st => copied_online o' st
       /\ replaying same_key (List.filter (fun kv => present current kv.1) keys) o' st)).
Proof.
  intros Hsub. apply triple_fenced_write; try done; [apply online_and; intros ? ? ? ?; apply current_key_kept|].
  intros now st o' p p0 p' Hi Ho Hcl Hc [[Hcop Hph] Hre] Hp0 Hd [= <-] Hf. rewrite own_shard.
  destruct (core_eq o' o Hc) as (Hs & _). rewrite <- Hs. pose proof (different_core o' Hc) as Hne.
  destruct (upsert_settles [] o' st p p0 now current Hne Hp0 Hd Hcop) as (Hw & Hcop' & _ & _ & Hrow).
  { intros k r Hr. left. apply Hsub, list_elem_of_fmap in Hr as ([k' v] & -> & Hr).
    destruct (Hre k' v Hr) as (j & Hj & _). by exists j. }
  split; [done|]. split; [by apply (copying_consistent _ _ _ Hcop')|]. split; [done|].
  intros k v Hin. apply elem_of_lfilter in Hin as [Hin Hpr]. destruct (Hre k v Hin) as (j & Hj & Hv & He). exists j.
  cbn. rewrite journal_in_insert, decide_False by done. split_and!; [done..|]. intros Hver. specialize (He Hver).
  apply present_elem, Hrow in Hpr as (r & Hr & Ht). unfold same_key, MoveInvariant.same_row. etrans; [exact Ht|].
  cbn [st_places with_places]. rewrite target_write_source by done. by rewrite (He r Hr).
Qed.

Lemma replay_present_keys keys :
  triple (owns (fun o' st => copied_online o' st /\ replaying (dirty_key true) keys o' st))
    (replay_present identity_of control_alias now_at fault_at env source target f m keys) (fun _ => owns copied_online).
Proof.
  unfold replay_present. rewrite own_shard.
  eapply (triple_bind _ _ (fun current st =>
    owns (fun o' st => copied_online o' st /\ replaying (current_key current) keys o' st) st
    /\ forall k r, existT k r ∈ current -> k ∈ map fst keys)).
  - apply triple_place_query; [apply owns_stable, online_and; intros ? ? ? ?; apply dirty_key_kept|].
    intros st p p0 Hi Hp Hp0 (Hd & _ & _). rewrite source_alias in Hp0.
    split; [|intros k r Hr; by apply current_rows_elem in Hr as [Hr _]].
    destruct Hp as [(o' & Ho & Hcl & Hc & Hl & Hon & Hre)|Hg]; [|by right]. left. exists o'. split_and!; [done..|].
    intros k v Hin. destruct (Hre k v Hin) as (j & Hj & Hv & _). exists j. split_and!; [done..|]. intros _ r Hr.
    apply current_rows_elem in Hr as [_ Hr]. destruct (core_eq o' o Hc) as (Hs & Hsr & _). unfold MoveInvariant.source_row.
    rewrite (rows_in_at _ _ p0) by (by rewrite Hsr). rewrite Hs, <- Hd. done.
  - intros current. apply triple_pure. intros Hsub.
    eapply (triple_bind _ _ (fun _ => owns (fun o' st => copied_online o' st
      /\ replaying same_key (List.filter (fun kv => present current kv.1) keys) o' st))); [|intros _; apply settle_keys].
    eapply triple_conseq; [by apply upsert_current|done|]. intros a st Hst. by left.
Qed.

Lemma delete_missing keys :
  triple (owns (fun o' st => copied_online o' st /\ replaying (dirty_key false) keys o' st))
    (delete_target_move_rows identity_of control_alias now_at fault_at env target f (map fst keys))
    (fun _ => held (fun o' st => copied_online o' st /\ replaying same_key keys o' st)).
Proof.
  apply triple_fenced_write; try done; [apply online_and; intros ? ? ? ?; apply dirty_key_kept|].
  intros now st o' p p0 p' Hi Ho Hcl Hc [[Hcop Hph] Hre] Hp0 Hd [= <-] Hf. rewrite own_shard.
  destruct (core_eq o' o Hc) as (Hs & _). rewrite <- Hs. pose proof (different_core o' Hc) as Hne.
  unfold delete_target_rows_for_dirty_keys. pose proof (deletes_writes now (mo_shard o') (map fst keys) p) as Hw.
  pose proof (deletes_at now (mo_shard o') (map fst keys) p) as Hat. set (p' := fold_left _ (map fst keys) p) in *.
  assert (Hw0 : writes (mo_shard o') p0 p') by (by eapply writes_data).
  set (st' := with_places st (<[tgt o' := p']> (st_places st))).
  assert (Hcop' : copying [] o' st').
  { destruct Hcop as (H1 & H2 & H3 & H4 & H5 & _).
    split_and!; [done|by apply target_write_capture|by eapply target_write_fence|done| |by intros k ?%elem_of_nil].
    intros k. cbn [st_places st_progress with_places st']. rewrite target_write_journal by done. unfold MoveInvariant.same_row.
    rewrite target_write_source, target_write_target, Hat by done. case_decide as Hk.
    - left. apply list_elem_of_fmap in Hk as ([k' v] & -> & Hk). destruct (Hre k' v Hk) as (j & Hj & _). by exists j.
    - destruct Hd as [-> _]. rewrite <- (target_write_old o' (st_places st) p0) by done. apply H5. }
  split; [done|]. split; [by apply (copying_consistent _ _ _ Hcop')|]. split; [done|].
  intros k v Hin. destruct (Hre k v Hin) as (j & Hj & Hv & He). exists j.
  cbn. rewrite journal_in_insert, decide_False by done. split_and!; [done..|]. intros Hver.
  unfold same_key, MoveInvariant.same_row. cbn [st_places with_places st'].
  rewrite target_write_source, target_write_target, Hat by done. rewrite decide_True.
  - symmetry. by apply He.
  - apply list_elem_of_fmap. by exists (k, v).
Qed.

Lemma replay_table_keys fuel max_batches exists_ table : forall completed,
  triple (owns copied_online)
    (replay_table identity_of control_alias now_at fault_at env fuel source target f m max_batches exists_ completed table)
    (fun _ => owns copied_online).
Proof.
  induction fuel as [|fuel IH]; intros completed; cbn [replay_table]; (destruct (max_batches <=? completed); [by apply triple_ret|]).
  all: rewrite own_shard; eapply triple_bind; [apply read_dirty_keys|]; intros [|kv keys].
  1,3: apply triple_ret; intros st; apply owns_conseq; by intros o' st' [H _].
  - apply triple_diverge.
  - eapply (triple_bind _ _ (fun _ => owns copied_online)); [|intros _; apply IH]. destruct exists_.
    + apply replay_present_keys.
    + unfold replay_missing. eapply (triple_bind _ _ (fun _ => owns (fun o' st => copied_online o' st
        /\ replaying same_key (kv :: keys) o' st))); [|intros _; apply settle_keys].
      eapply triple_conseq; [apply delete_missing|done|]. intros a st Hst. by left.
Qed.

(** No journal entry of the move is left. *)
Definition replayed (n : Z) (o' : MoveOperation) (st : State) : Prop :=
  n = 0 -> forall k, journal_in (st_places st) (src o') m k = None.

Lemma replay_dirty_keys fuel max_batches :
  triple (owns copied_online)
    (replay_dirty_shard_keys identity_of control_alias now_at fault_at env fuel source target f m max_batches)
    (fun n => owns (fun o' st => copied_online o' st /\ replayed n o' st)).
Proof.
  unfold replay_dirty_shard_keys.
  eapply (triple_bind _ _ (fun _ => owns copied_online));
    [apply (triple_fold identity_of (fun _ => owns copied_online)); intros; apply replay_table_keys|]. intros completed.
  eapply (triple_bind _ _ (fun _ => owns copied_online));
    [apply (triple_fold identity_of (fun _ => owns copied_online)); intros; apply replay_table_keys|]. intros _.
  apply triple_place_query; [apply owns_stable, copied_online_kept|]. intros st p p0 Hi Hp Hp0 (_ & _ & Hjo).
  rewrite source_alias in Hp0. destruct Hp as [(o' & Ho & Hcl & Hc & Hl & Hon)|Hg]; [|by right]. left. exists o'.
  split_and!; [done..|]. intros Hn k. destruct (core_eq o' o Hc) as (_ & Hsr & _). rewrite Hsr.
  rewrite (journal_in_at _ _ p0), <- Hjo by done. by apply count_dirty_zero.
Qed.
End copy.
End owner.
End exact.
