(* ===== verification/MovePrepare.v ===== *)
(** * Preparing a move, step by step

    The statements of [prepare_online_shard_move]: the source is reconciled, its
    changes are captured, the route is reserved, the target is fenced, reset and
    filled, and the source drains.  At the end the claimed operation is
    [prepared], or the move was taken back. *)

From Stdlib Require Import ZArith Lia ZifyBool.
From stdpp Require Import base strings numbers countable gmap sorting sets option list.
From S2P Require Import Prelude Prog Text RunTypes ShardTables LocalAdmission ShardRows ControlTables RunPlanning.
From S2P Require Import PlanLedger LocalSeed MoveTables ShardMove MoveInvariant MovePages MoveRely MoveExact.

Open Scope Z_scope.

Section prepare.
Context {MF : MoveFunctions} {LF : LedgerFunctions}.
Variable identity_of : string -> Z.
Context {ML : MoveLaws MF identity_of}.
Variable control_alias : string.
Variable token : Uuid.
Variable shard : shard_key.
Variable destination : string.
Variable now_at : nat -> Z.
Variable fault_at : nat -> Fault.
Variable env : nat -> World -> World.
Hypothesis env_rely :
  forall n w, rely identity_of token shard destination (state w) (state (env n w)) /\ mw_history (env n w) = mw_history w.

Notation src := (src identity_of).
Notation tgt := (tgt identity_of).
Notation inv := (inv identity_of).
Notation rely := (rely identity_of token shard destination).
Notation keeps := (keeps identity_of token).
Notation fenced := (fenced token).
Notation stable := (stable identity_of token shard destination).
Notation triple := (triple identity_of).
Notation source_row := (source_row identity_of).
Notation target_row := (target_row identity_of).
Notation same_row := (same_row identity_of).
Notation journalled := (journalled identity_of).
Notation captured := (captured identity_of).
Notation copied := (copied identity_of).
Notation consistent := (consistent identity_of).
Notation source_closed := (source_closed identity_of).
Notation core_eq := (core_eq identity_of).
Notation triple_operation := (triple_operation identity_of token shard destination now_at fault_at env env_rely).
Notation triple_query := (triple_query identity_of token shard destination now_at fault_at env env_rely).
Notation triple_place_update := (triple_place_update identity_of control_alias token shard destination now_at fault_at env env_rely).
Notation triple_place_query := (triple_place_query identity_of control_alias token shard destination now_at fault_at env env_rely).
Notation triple_operation_result := (triple_operation_result identity_of token shard destination now_at fault_at env env_rely).
Notation triple_route_update := (triple_route_update identity_of token shard destination now_at fault_at env env_rely).
Notation triple_admission := (triple_admission identity_of control_alias token shard destination now_at fault_at env env_rely).

(** ** Routes by version *)

(** The route is still [r0] or has a later version. *)
Definition passed (s : shard_key) (r0 : PlacementRow) (st : State) : Prop :=
  exists r, st_routes st !! s = Some r /\ pm_route_version r0 < pm_route_version r.
Definition since (s : shard_key) (r0 : PlacementRow) (st : State) : Prop :=
  st_routes st !! s = Some r0 \/ passed s r0 st.

Lemma passed_stable s r0 : stable (passed s r0).
Proof.
  intros st st' _ _ Hr (r & Hs & Hv). destruct (rl_routes _ _ _ _ _ _ Hr s r Hs) as (r' & Hr' & _ & [->|Hlt]).
  - by exists r.
  - exists r'. split; [done|lia].
Qed.

Lemma since_stable s r0 : stable (since s r0).
Proof.
  intros st st' Hi Hi' Hr [Hs|Hp]; [|right; by apply (passed_stable s r0 st st')].
  destruct (rl_routes _ _ _ _ _ _ Hr s r0 Hs) as (r' & Hr' & _ & [->|Hlt]); [by left|right; by exists r'].
Qed.

Lemma stable_and P Q : stable P -> stable Q -> stable (fun st => P st /\ Q st).
Proof. intros HP HQ st st' Hi Hi' Hr [H1 H2]. split; [by apply (HP st st')|by apply (HQ st st')]. Qed.

(** An admission row under a seen epoch. *)
Lemma transition_seen alias s database_alias e state redirect allowed :
  triple (seen s e) (transition identity_of control_alias now_at fault_at env alias (draft s database_alias e state redirect) allowed)
    (fun _ _ => True).
Proof.
  eapply (triple_admission (seen s e) (fun _ => True) alias (fun _ => draft s database_alias e state redirect) (fun _ => allowed) s e);
    [apply seen_stable|by intros p; split; [destruct s|]|done|done].
Qed.

Section owner.
Variable m : Uuid.
Variable o : MoveOperation.
Hypothesis own_target : mo_shard o = shard /\ mo_target_database_alias o = destination.
Variable lock : bool.
Variable pinned : option PlacementRow.
Variable epoch : Z.

Notation held := (held token m o lock pinned epoch).
Notation gone := (gone identity_of token m o epoch).
Notation owns := (owns identity_of token m o lock pinned epoch).
Notation maybe := (maybe identity_of token m o lock pinned epoch).
Notation kept := (kept identity_of token shard destination m o).
Notation copying := (copying identity_of token m).
Notation copied_online := (copied_online identity_of token m).
Notation settled := (settled identity_of m).
Notation owns_stable := (owns_stable identity_of token shard destination m o own_target lock pinned epoch).
Notation maybe_stable := (maybe_stable identity_of token shard destination m o own_target lock pinned epoch).
Notation triple_claimed := (triple_claimed identity_of token shard destination now_at fault_at env env_rely m o own_target lock pinned epoch).
Notation routed_kept := (routed_kept identity_of token shard destination m o).
Notation kept_and := (kept_and identity_of token shard destination m o).

(** ** Frames *)

(** A row of the source admission leaves the copy alone. *)
Lemma copying_admits done o' st i p0 p' key a :
  copying done o' st -> st_places st !! i = Some p0 -> admits key a p0 p' -> i <> tgt o' ->
  copying done o' (with_places st (<[i := p']> (st_places st))).
Proof.
  intros (H1 & H2 & H3 & H4 & H5 & H6) Hp [Hrow Hcap Hjo _] Hne.
  assert (Hs : forall k, source_row (<[i := p']> (st_places st)) o' k = source_row (st_places st) o' k).
  { intros k. unfold MoveInvariant.source_row. rewrite rows_in_insert, Hrow. case_decide as Hi; [|done].
    by rewrite (rows_in_at _ _ p0) by (by rewrite <- Hi). }
  assert (Ht : forall k, target_row (<[i := p']> (st_places st)) o' k = target_row (st_places st) o' k).
  { intros k. unfold MoveInvariant.target_row. by rewrite rows_in_insert, decide_False. }
  assert (Hj : forall k, journalled (<[i := p']> (st_places st)) m o' k <-> journalled (st_places st) m o' k).
  { intros k. unfold MoveInvariant.journalled. rewrite journal_in_insert, Hjo. case_decide as Hi; [|done].
    by rewrite (journal_in_at _ _ p0) by (by rewrite <- Hi). }
  unfold MoveExact.copying, MoveExact.settled, MoveInvariant.copied, MoveInvariant.same_row in *. cbn.
  split_and!; [done| | |done| |].
  - unfold MoveInvariant.captured in *. rewrite capture_in_insert, Hcap. case_decide as Hi; [|done].
    by rewrite (capture_in_at _ _ p0) in H2 by (by rewrite <- Hi).
  - destruct H3 as (a1 & f & Ha & Hf). exists a1, f. split; [|done]. by rewrite admission_in_insert, decide_False.
  - intros k. rewrite Hs, Ht, Hj. apply H5.
  - intros k Hk. rewrite Hs, Ht, Hj. by apply H6.
Qed.

Lemma gone_admits st i p0 p' key a :
  gone st -> st_places st !! i = Some p0 -> admits key a p0 p' -> ad_move_fence a = None ->
  (src o <> tgt o -> i <> tgt o) -> gone (with_places st (<[i := p']> (st_places st))).
Proof.
  intros (H1 & H2 & H3) Hp [_ _ _ Had] Hfe Hne. unfold MoveExact.gone, MoveRely.fenced, barred in *. cbn.
  split_and!; [done| |].
  - rewrite admission_in_insert, Had. case_decide as Hi; [|done]. intros (a1 & f & Ha & Hf & Ht). apply H2.
    destruct (decide (key = mo_shard o)) as [->|Hk].
    + rewrite lookup_insert_eq in Ha. by simplify_eq.
    + rewrite lookup_insert_ne in Ha by done. exists a1, f. by rewrite (admission_in_at _ _ p0) by (by rewrite <- Hi).
  - intros Hd. rewrite admission_in_insert, decide_False by auto. auto.
Qed.

(** ** The prepared move *)

Definition prepared (o' : MoveOperation) (st : State) : Prop :=
  routed o' st /\ is_Some (mo_target_reset_at o') /\ (src o <> tgt o -> copied_online o' st).

Lemma prepared_kept : kept prepared.
Proof.
  intros o' st st' Hi Hi' Hr Hk Hc Hcl (H1 & H2 & H3). split_and!; [by apply (routed_kept o' st st')|done|].
  intros Hne. by apply (copied_online_kept identity_of token shard destination m o o' st st'), H3.
Qed.

Lemma prepared_online o' st : src o <> tgt o -> copied_online o' st -> prepared o' st.
Proof. intros Hne H. split_and!; [apply H..|done]. Qed.

(** With the databases equal the invariant asks nothing of the copy. *)
Lemma consistent_equal rs cs ps o' :
  core o' = core o -> src o = tgt o -> is_Some (mo_target_reset_at o') -> consistent rs cs ps m o'.
Proof.
  intros Hc He [t Ht]. unfold MoveInvariant.consistent. rewrite Ht. destruct (core_eq o' o Hc) as (_ & -> & -> & _). done.
Qed.

Lemma prepared_consistent o' st :
  core o' = core o -> prepared o' st -> consistent (st_routes st) (st_progress st) (st_places st) m o'.
Proof.
  intros Hc (H1 & H2 & H3). destruct (decide (src o = tgt o)) as [He|Hne]; [by apply consistent_equal|].
  eapply (copying_consistent identity_of token m). by apply H3.
Qed.

Lemma routed_core o' o'' st t : core o'' = core o' -> routed o' st -> routed o'' (with_operations st t).
Proof.
  intros Hc (r & Hr & Hu). destruct (core_eq o'' o' Hc) as (Hs & _). exists r. unfold route_of in *. cbn. rewrite Hs.
  split; [done|]. by eapply under_way_core.
Qed.

(** A claimed update that keeps the target reset and stays in a copied phase. *)
Lemma prepared_change guard (g : MoveOperation -> MoveOperation) :
  (forall o', core (g o') = core o' /\ claimed_by token (g o') = claimed_by token o'
     /\ mo_target_reset_at (g o') = mo_target_reset_at o' /\ (copied_phase o' = true -> copied_phase (g o') = true)) ->
  claimed_change identity_of token m o prepared prepared guard g.
Proof.
  intros Hg o' st Hi Ho Hcl Hc _ (H1 & H2 & H3). destruct (Hg o') as (Hco & Hcl' & Hre & Hph).
  assert (Hp : prepared (g o') (with_operations st (<[m := g o']> (st_operations st)))).
  { split_and!; [by eapply routed_core|by rewrite Hre|]. intros Hne. destruct (H3 Hne) as [Hcop Hp]. split; [|by apply Hph].
    apply (copying_cover identity_of token m [] o'); [done|by rewrite Hre|done|]. intros k _. left. by left. }
  split_and!; [done|by rewrite Hcl'| |done].
  by apply (prepared_consistent (g o') _); [rewrite Hco|].
Qed.

(** A fact that does not depend on the state may ride along. *)
Definition also (φ : Prop) (Φ : MoveOperation -> State -> Prop) (o' : MoveOperation) (st : State) : Prop := Φ o' st /\ φ.

Lemma also_kept φ Φ : kept Φ -> kept (also φ Φ).
Proof. intros H o' st st' ? ? ? ? ? ? []. split; [by apply (H o' st st')|done]. Qed.

Lemma also_change φ Φ Ψ guard g :
  claimed_change identity_of token m o Φ Ψ guard g -> claimed_change identity_of token m o (also φ Φ) (also φ Ψ) guard g.
Proof. intros H o' st ? ? ? ? ? []. destruct (H o' st) as (? & ? & ? & ?); [done..|]. by split_and!. Qed.

Lemma enter_prepared phase message φ :
  copied_phase (set_phase o phase None) = true ->
  triple (maybe (also φ prepared)) (claimed_phase now_at fault_at env m token phase message) (fun _ => held (also φ prepared)).
Proof.
  intros Hph. apply triple_claimed; [apply also_kept, prepared_kept|done|]. intros now. apply also_change, prepared_change. intros o'.
  destruct (phase_core token now phase (mo_target_reset_at o') o') as [Hco Hcl]. by split_and!.
Qed.

Lemma renew_prepared :
  triple (owns prepared) (operation_update now_at fault_at env (fun now t => t ← renew_shard_move_claim now m token t; Ok (t, tt)))
    (fun _ => held prepared).
Proof.
  apply triple_operation_result; [apply owns_stable, prepared_kept|]. intros now st t Hi Hp H. unfold renew_shard_move_claim in H.
  destruct (update_operation m (claimed_by token) (extend_claim now) (st_operations st)) as [t1 n] eqn:E.
  apply bind_Ok in H as (? & Hn%ensure_Ok & [= ->]).
  assert (Hch : claimed_change identity_of token m o prepared prepared (claimed_by token) (extend_claim now)).
  { apply prepared_change. intros o'. split_and!; [done| |done|done].
    unfold claimed_by, mo_claim_token. cbn. by destruct (mo_claim o') as [[]|]. }
  destruct (claimed_effect identity_of token m o lock pinned epoch _ _ _ _ st t n (fun o' H => H) Hch Hi
              (owns_maybe _ _ _ _ _ _ _ _ _ Hp) E) as [Hi' Hh]. split; [done|]. apply Hh. lia.
Qed.

(** ** Before the copy *)

(** The operation is as the claim returned it. *)
Definition known (o' : MoveOperation) (st : State) : Prop :=
  mo_target_reset_at o' = mo_target_reset_at o /\ mo_phase o' = mo_phase o.

Lemma known_kept : kept known.
Proof. by intros o' st st' _ _ _ _ _ _. Qed.

(** Writing the source admission under a seen epoch. *)
Lemma admission_owns (Φ : MoveOperation -> State -> Prop) source (d : Place -> LocalShardAdmissionDraft) allowed key e R :
  identity_of source = src o -> kept Φ -> stable R ->
  (forall p, draft_key (d p) = key /\ dr_write_epoch (d p) = e) -> (forall st, owns Φ st -> R st -> seen key e st) ->
  (forall o' st p0 p' a, core o' = core o -> Φ o' st -> st_places st !! src o = Some p0 -> admits key a p0 p' ->
     Φ o' (with_places st (<[src o := p']> (st_places st)))) ->
  (forall st ps, R st -> R (with_places st ps)) ->
  triple (fun st => owns Φ st /\ R st)
    (place_update identity_of control_alias now_at fault_at env source (fun now p =>
       st ← transition_local_shard_admission (pc_db p) now (d p) (allowed p); Ok (set_db p st.1, tt)))
    (fun _ st => owns Φ st /\ R st).
Proof.
  intros Hsrc Hk HR Hd Hse HΦ HRp. eapply (triple_admission _ (fun st => owns Φ st /\ R st)); [|exact Hd|by intros st []; eapply Hse|].
  - apply stable_and; [by apply owns_stable|done].
  - rewrite Hsrc. intros now st p p0 p' [Hp Hr] Hp0 Had Hf. split; [|by apply HRp].
    destruct Hp as [(o' & H1 & H2 & H3 & H4 & H5)|[Hl Hg]]; [left; exists o'|right].
    + split_and!; [done..|]. by eapply HΦ.
    + split; [done|]. by eapply gone_admits.
Qed.

Lemma reconcile_known source d status R :
  identity_of source = src o -> draft_key d = mo_shard o -> dr_write_epoch d = epoch -> stable R ->
  (forall st ps, R st -> R (with_places st ps)) -> (forall st, R st -> seen (mo_shard o) epoch st) ->
  triple (fun st => owns known st /\ R st)
    (reconcile_source_admission_with_fence identity_of control_alias now_at fault_at env source d status)
    (fun _ st => owns known st /\ R st).
Proof.
  intros Hsrc Hkey Hep HR HRp Hse. unfold reconcile_source_admission_with_fence. cbv zeta.
  eapply (admission_owns known source (fun p => mkLocalShardAdmissionDraft _ _ _ _ (if str_eqb status "copying" && _ then Draining else _) _ _));
    [done|apply known_kept|done|by intros p|by intros st _; apply Hse|done|done].
Qed.

(** *** Capturing the changes *)

Lemma Inv_capture st p p0 p' s i :
  inv st -> st_places st !! i = Some p0 -> same_data p p0 -> enable_shard_move_capture m s p = Ok p' ->
  inv (with_places st (<[i := p']> (st_places st)))
  /\ (forall j s' k, rows_in (<[i := p']> (st_places st)) j s' k = rows_in (st_places st) j s' k)
  /\ (forall j s', admission_in (<[i := p']> (st_places st)) j s' = admission_in (st_places st) j s')
  /\ capture_in (<[i := p']> (st_places st)) i s = Some (m, true).
Proof.
  intros Hi Hp0 (Hd & Hca & Hjo) H.
  assert (He : (pc_captures p !! s = None \/ exists b, pc_captures p !! s = Some (m, b))
               /\ p' = mkPlace (pc_local p) (<[s := (m, true)]> (pc_captures p)) (pc_journal p)).
  { unfold enable_shard_move_capture in H. destruct (pc_captures p !! s) as [[m1 b]|] eqn:E.
    - apply bind_Ok in H as (? & Hm%ensure_Ok & [= <-]). split; [|done]. right. exists b. repeat f_equal. lia.
    - injection H as <-. by split; [left|]. }
  destruct He as [Hold ->]. set (p' := mkPlace _ _ _).
  assert (Hrow : forall j s' k, rows_in (<[i := p']> (st_places st)) j s' k = rows_in (st_places st) j s' k).
  { intros j s' k. rewrite rows_in_insert. case_decide as Hj; [|done].
    rewrite (rows_in_at _ _ p0) by (by rewrite <- Hj). change (pc_db p') with (pc_db p). by rewrite Hd. }
  assert (Hadm : forall j s', admission_in (<[i := p']> (st_places st)) j s' = admission_in (st_places st) j s').
  { intros j s'. rewrite admission_in_insert. case_decide as Hj; [|done].
    rewrite (admission_in_at _ _ p0) by (by rewrite <- Hj). change (pc_db p') with (pc_db p). by rewrite Hd. }
  split_and!; [|done|done|rewrite capture_in_insert, decide_True by done; apply lookup_insert_eq].
  constructor; [|apply Hi..]. intros m1 o1 Hm1 Ha1.
  apply (consistent_frame identity_of _ _ _ _ (st_places st) _ m1 o1 (inv_consistent _ _ _ _ _ Hi m1 o1 Hm1 Ha1));
    [done|done|intros k; apply Hrow..| | |].
  - intros k. unfold MoveInvariant.journalled. cbn. rewrite journal_in_insert. case_decide as Hj; [|done].
    rewrite (journal_in_at _ _ p0) by (by rewrite <- Hj). cbn. by rewrite Hjo.
  - unfold MoveInvariant.captured. cbn. rewrite capture_in_insert. case_decide as Hj; [|done].
    rewrite (capture_in_at _ _ p0) by (by rewrite <- Hj). cbn. rewrite <- Hca.
    destruct (decide (s = mo_shard o1)) as [->|Hne]; [|by rewrite lookup_insert_ne]. rewrite lookup_insert_eq.
    destruct Hold as [->|[b ->]]; [done|]. by intros [= -> ->].
  - intros r _. unfold MoveInvariant.source_closed. cbn. by rewrite Hadm.
Qed.

Lemma capture_owns (Φ : MoveOperation -> State -> Prop) source :
  identity_of source = src o -> kept Φ -> (forall o' st ps, Φ o' st -> Φ o' (with_places st ps)) ->
  triple (owns Φ) (capture_changes identity_of control_alias now_at fault_at env source m (mo_shard o))
    (fun _ => owns (fun o' st => Φ o' st /\ captured (st_places st) m o')).
Proof.
  intros Hsrc Hk HΦ. apply triple_place_update; [by apply owns_stable|].
  intros now st p p0 p' [] Hi Hp Hp0 Hd H. rewrite Hsrc in *. apply bind_Ok in H as (p1 & H & [= ->]).
  destruct (Inv_capture st p p0 p' (mo_shard o) (src o) Hi Hp0 Hd H) as (Hi' & Hrow & Had & Hcap).
  split; [done|]. destruct Hp as [(o' & H1 & H2 & H3 & H4 & H5)|[Hl Hg]]; [left; exists o'|right].
  - split_and!; [done..|by apply HΦ|]. unfold MoveInvariant.captured. destruct (core_eq o' o H3) as (-> & -> & _). done.
  - split; [done|]. destruct Hg as (Hg1 & Hg2 & Hg3). unfold MoveExact.gone, MoveRely.fenced, barred in *. cbn.
    rewrite Had. done.
Qed.

(** *** Reserving the route *)

Definition started (o' : MoveOperation) (st : State) : Prop :=
  known o' st /\ routed o' st /\ (src o <> tgt o -> captured (st_places st) m o').

Lemma started_kept : kept started.
Proof.
  intros o' st st' Hi Hi' Hr Hk Hc Hcl (H1 & H2 & H3). split_and!; [done|by apply (routed_kept o' st st')|].
  intros Hne. by apply (kp_capture _ _ _ _ _ _ Hk), H3.
Qed.

Definition ready (o' : MoveOperation) (st : State) : Prop :=
  known o' st /\ (src o <> tgt o -> captured (st_places st) m o').

Lemma ready_kept : kept ready.
Proof. intros o' st st' _ _ _ Hk _ _ (H1 & H2). split; [done|]. intros Hne. by apply (kp_capture _ _ _ _ _ _ Hk), H2. Qed.

(** A route whose alias and epoch stay. *)
Lemma Inv_route_step st s r r' :
  inv st -> st_routes st !! s = Some r -> pm_database_alias r' = pm_database_alias r -> pm_write_epoch r' = pm_write_epoch r ->
  (forall o1, under_way r o1 -> under_way r' o1) -> inv (with_routes st (<[s := r']> (st_routes st))).
Proof.
  intros Hi Hr Ha He Hu. apply (Inv_route identity_of _ _ _ _ s r r'); [done|done|].
  intros m1 o1 _ _ _ _ _ Hal. split_and!; [by rewrite <- Ha|done|apply Hu].
Qed.

Lemma base_route st r r' :
  base o lock pinned epoch st -> lock = false -> st_routes st !! mo_shard o = Some r ->
  pm_database_alias r' = pm_database_alias r -> pm_write_epoch r' = pm_write_epoch r ->
  base o lock pinned epoch (with_routes st (<[mo_shard o := r']> (st_routes st))).
Proof.
  intros (H1 & (r1 & Hr1 & Ha1) & (r2 & Hr2 & He2) & H4) Hl Hr Ha He. unfold route_of in *. simplify_eq.
  split_and!; [done| | |congruence]; [exists r'|exists r']; unfold route_of; cbn; rewrite lookup_insert_eq.
  - by rewrite Ha.
  - split; [done|lia].
Qed.

Lemma routed_route st o' r' : core o' = core o -> under_way r' o' ->
  routed o' (with_routes st (<[mo_shard o := r']> (st_routes st))).
Proof.
  intros Hc Hu. exists r'. unfold route_of. cbn. destruct (core_eq o' o Hc) as (-> & _). by rewrite lookup_insert_eq.
Qed.

Lemma gone_route st rs : gone st -> gone (with_routes st rs).
Proof. done. Qed.

Lemma mark_copying version :
  lock = false ->
  triple (owns ready)
    (marked ⇐ reserve_active_move_target_and_mark_copying now_at fault_at env (mo_shard o) (mo_source_database_alias o) version
                (mo_target_database_alias o);
     _ ⇐ lift (ok_or marked "route changed before online copy reservation"); pret tt)
    (fun _ => owns started).
Proof.
  intros Hl. eapply (triple_bind _ _ (fun marked st => marked <> None -> owns started st)).
  - eapply (triple_route_update _ _ _ (mo_shard o)); [apply owns_stable, ready_kept| |done|].
    { intros now w w' a H. apply bind_Ok in H as (? & _ & H). apply bind_Ok in H as ([rs marked] & H & [= <- <-]).
      exists rs, marked. split_and!; [exact H|done|done]. }
    intros st r Hi Hp Hr (Ha & Hv & Hs & _)%route_at_true. cbn in Hs. rewrite orb_false_r in Hs. apply str_eqb_true in Hs.
    split; [done|]. split.
    + apply (Inv_route_step _ _ r); [done..|]. intros o1 (_ & Hin & _). exfalso. by rewrite Hs in Hin.
    + intros _. destruct Hp as [(o' & H1 & H2 & H3 & H4 & H5 & H6)|[_ Hg]]; [left|right; by split].
      exists o'. split_and!; [done..|by eapply base_route|]. split_and!; [exact H5| |exact H6].
      apply routed_route; [done|]. destruct (core_eq o' o H3) as (_ & _ & _ & Hsa & Hta). unfold under_way. cbn.
      by rewrite Ha, Hsa, Hta.
  - intros marked. eapply (triple_bind _ _ (fun _ => owns started)); [|intros []; by apply triple_ret].
    apply triple_lift. intros st a H Ha%ok_or_Ok. apply H. by rewrite Ha.
Qed.

(** *** Fencing the target *)

Definition fencing (o' : MoveOperation) (st : State) : Prop :=
  known o' st /\ routed o' st /\ captured (st_places st) m o' /\ fenced (st_places st) (tgt o') (mo_shard o').

Lemma fencing_kept : kept fencing.
Proof.
  intros o' st st' Hi Hi' Hr Hk Hc Hcl (H1 & H2 & H3 & H4). split_and!; [exact H1|by apply (routed_kept o' st st')|..].
  - by apply (kp_capture _ _ _ _ _ _ Hk).
  - by apply (kp_fence _ _ _ _ _ _ Hk).
Qed.

Lemma install_fences target f :
  identity_of target = tgt o -> src o <> tgt o -> token_of f = token -> fence_shard f = mo_shard o -> tw_write_epoch f = epoch + 1 ->
  triple (owns started) (install_target_move_write_fence identity_of control_alias now_at fault_at env target f)
    (fun _ => owns fencing).
Proof.
  intros Htgt Hne Htok Hsh Hep. apply triple_place_update; [apply owns_stable, started_kept|].
  intros now st p p0 p' [] Hi Hp Hp0 Hd H. rewrite Htgt in *.
  apply bind_Ok in H as (ad & (fe & Hfe & -> & Hg)%install_effect & [= <-]). cbn [fst]. injection Hfe as <-.
  assert (Hkey : draft_key (mkLocalShardAdmissionDraft (tw_run_id f) (tw_run_shard f) (tw_database_alias f) (tw_write_epoch f)
            Prepared None (Some (tw_move_fence f))) = mo_shard o) by exact Hsh.
  rewrite Hkey in *. set (d := mkLocalShardAdmissionDraft _ _ _ _ _ _ _) in *.
  pose proof (set_admissions_admits p p0 (mo_shard o) (draft_row d now) Hd) as Had.
  set (p' := set_db _ _) in *. destruct Hd as [Hd _]. rewrite Hd in Hg.
  assert (Hold : forall old, db_admissions (pc_db p0) !! mo_shard o = Some old ->
            ad_write_epoch old < epoch + 1 \/ ad_write_epoch old = epoch + 1 /\ ad_state old = Prepared).
  { intros old Ho. specialize (Hg old Ho). unfold install_guard in Hg. cbn [ad_write_epoch draft_row d dr_write_epoch] in Hg.
    rewrite Hep in Hg. apply orb_true_iff in Hg as [Hg|Hg]; [left; lia|right].
    apply andb_true_iff in Hg as [Hg _]. apply andb_true_iff in Hg as [Hg1 Hg2%bool_decide_eq_true]. split; [lia|done]. }
  destruct Hp as [(o' & H1 & H2 & H3 & H4 & H5 & H6 & H7)|[_ (_ & _ & Hb)]].
  2: { exfalso. destruct (Hb Hne) as (a & Ha & Hba). rewrite (admission_in_at _ _ p0) in Ha by done.
       destruct (Hold a Ha) as [?|[? ?]], Hba as [?|[? ?]]; solve [lia|congruence]. }
  split.
  - eapply Inv_admission; [done|done|exact Had|]. intros r old Hr Ho Hcl He. destruct H4 as (_ & _ & (r1 & Hr1 & Hle) & _).
    cbn in Hr. rewrite Hr in Hr1. injection Hr1 as <-. destruct (Hold old Ho) as [?|[_ ?]]; [lia|congruence].
  - left. exists o'. destruct (core_eq o' o H3) as (Hs & Hsr & Ht & _).
    split_and!; [done..|]. split_and!; [exact H5|exact H6| |].
    + unfold MoveInvariant.captured in *. cbn. rewrite Hsr. rewrite capture_in_insert, decide_False by done.
      rewrite Hsr in H7. by apply H7.
    + exists (draft_row d now), (tw_move_fence f). cbn [st_places with_places]. rewrite Hs, Ht.
      rewrite admission_in_insert, decide_True by done. rewrite (ad_admissions _ _ _ _ Had). by rewrite lookup_insert_eq.
Qed.

(** *** Resetting the target *)

(** The copy may start or go on. *)
Definition resumed (o' : MoveOperation) (st : State) : Prop :=
  copying [] o' st /\ (copied_phase o = true -> copied_phase o' = true).

Lemma resumed_kept : kept resumed.
Proof. by apply copying_and. Qed.

(** A target that was reset before still holds the copy. *)
Lemma fencing_resumed st :
  src o <> tgt o -> is_Some (mo_target_reset_at o) -> inv st -> owns fencing st -> owns resumed st.
Proof.
  intros Hne Hre Hi [(o' & H1 & H2 & H3 & H4 & [Hr Hp] & H6 & H7 & H8)|Hg]; [|by right]. left. exists o'. split_and!; [done..|].
  split; [|unfold copied_phase; by rewrite Hp].
  split_and!; [done..|by rewrite Hr| |by intros k ?%elem_of_nil].
  pose proof (inv_consistent _ _ _ _ _ Hi m o' H1 (claimed_active token o' H2)) as Hc. unfold MoveInvariant.consistent in Hc.
  rewrite Hr in Hc. destruct Hre as [t Ht]. rewrite Ht in Hc. destruct (core_eq o' o H3) as (Hs & Hsr & Htg & _).
  destruct H6 as (r & Hr1 & Hu). rewrite Hsr, Htg in Hc. destruct (Hc Hne r Hr1 (proj1 Hu)) as [_ [[_ ?]|[_ He]]]; [done|].
  intros k. right. left. apply He.
Qed.

Definition emptied (o' : MoveOperation) (st : State) : Prop :=
  fencing o' st /\ forall k, target_row (st_places st) o' k = None.

Lemma emptied_kept : kept emptied.
Proof.
  intros o' st st' Hi Hi' Hr Hk Hc Hcl [H1 H2]. split; [by apply (fencing_kept o' st st')|].
  intros k. rewrite (kp_target _ _ _ _ _ _ Hk); [done|apply H1].
Qed.

Section copy.
Variables (source target : string) (f : TargetMoveWriteFence).
Hypothesis source_alias : identity_of source = src o.
Hypothesis target_alias : identity_of target = tgt o.
Hypothesis different : src o <> tgt o.
Hypothesis own_token : token_of f = token.
Hypothesis own_move : move_of f = m.
Hypothesis own_shard : fence_shard f = mo_shard o.
Hypothesis own_epoch : tw_write_epoch f = epoch + 1.

Lemma reset_empties :
  mo_target_reset_at o = None ->
  triple (owns fencing) (reset_target_move_rows identity_of control_alias now_at fault_at env target f) (fun _ => held emptied).
Proof.
  intros Hre. apply (triple_fenced_write identity_of control_alias token shard destination now_at fault_at env env_rely m o own_target);
    [apply fencing_kept|done..|].
  intros now st o' p p0 p' Hi Ho Hcl Hc (H1 & H2 & H3 & H4) Hp0 Hd [= <-] Hf. rewrite own_shard.
  destruct (core_eq o' o Hc) as (Hs & Hsr & Ht & _). rewrite <- Hs.
  assert (Hne : src o' <> tgt o') by (by rewrite Hsr, Ht).
  pose proof (deletes_writes now (mo_shard o') (shard_rows (pc_db p) (mo_shard o')) p) as Hw.
  pose proof (deletes_at now (mo_shard o') (shard_rows (pc_db p) (mo_shard o')) p) as Hat.
  change (fold_left _ _ p) with (reset_target_shard_rows now (mo_shard o') p) in *. set (p' := reset_target_shard_rows _ _ _) in *.
  assert (Hw0 : writes (mo_shard o') p0 p') by (by eapply writes_data).
  split; [done|]. split.
  - pose proof (inv_consistent _ _ _ _ _ Hi m o' Ho (claimed_active token o' Hcl)) as Hcons.
    unfold MoveInvariant.consistent in *. by rewrite (proj1 H1), Hre in Hcons |- *.
  - split; [split_and!; [exact H1|done| |]|].
    + by apply target_write_capture.
    + by eapply target_write_fence.
    + intros k. cbn. rewrite target_write_target by done. etrans; [apply Hat|]. case_decide as Hk; [done|].
      destruct (row_at (pc_db p) (mo_shard o') k) eqn:E; [|done]. exfalso. apply Hk, shard_rows_elem. by rewrite E.
Qed.

(** The reset target waits for every source row. *)
Lemma emptied_copying now o' st :
  inv st -> st_operations st !! m = Some o' -> claimed_by token o' = true -> mo_target_reset_at o' = None -> emptied o' st ->
  let o'' := extend_claim now (set_phase o' "backfill" (Some now)) in
  copying [] o'' (with_operations st (<[m := o'']> (st_operations st))).
Proof.
  intros Hi Ho Hcl Hre ((_ & (r & Hr & Hu) & H3 & H4) & H5) o''.
  pose proof (inv_consistent _ _ _ _ _ Hi m o' Ho (claimed_active token o' Hcl)) as Hcons.
  unfold MoveInvariant.consistent in Hcons. rewrite Hre in Hcons. destruct Hcons as [_ Hcs].
  split_and!; [by exists r|done|done|by eexists| |by intros k ?%elem_of_nil].
  intros k. cbn. change (source_row (st_places st) o'' k) with (source_row (st_places st) o' k).
  destruct (source_row (st_places st) o' k) as [row|] eqn:E.
  - right. right. split; [by eexists|]. intros [H|(p & Hp & _)]; [done|]. by rewrite Hcs in Hp.
  - right. left. etrans; [apply (H5 k)|by rewrite <- E].
Qed.

Lemma ensure_reset :
  triple (owns fencing) (ensure_move_target_reset identity_of control_alias now_at fault_at env target f o token) (fun _ => owns resumed).
Proof.
  unfold ensure_move_target_reset. destruct (mo_target_reset_at o) as [t|] eqn:Hre; cbn.
  - eapply triple_inv; [by apply (triple_ret _ (owns resumed))|]. intros st Hi. by apply fencing_resumed; [|rewrite Hre|].
  - eapply (triple_bind _ _ (fun _ => held emptied)); [by apply reset_empties|]. intros _. rewrite own_move.
    eapply triple_conseq; [eapply (triple_claimed emptied resumed); [apply emptied_kept| |]|by left|by left].
    { intros o' [? _]%andb_true_iff. done. }
    intros now o' st Hi Ho Hcl Hc [_ Hnone]%andb_true_iff Hem.
    assert (Hr' : mo_target_reset_at o' = None) by (by destruct (mo_target_reset_at o')).
    pose proof (emptied_copying now o' st Hi Ho Hcl Hr' Hem) as Hcop. cbv zeta in Hcop.
    destruct (phase_core token now "backfill" (Some now) o') as [Hco Hcl']. split_and!; [done|by rewrite Hcl'| |].
    + apply (copying_consistent identity_of token m _ _ _ Hcop).
    + split; [done|]. intros Hph. pose proof (inv_consistent _ _ _ _ _ Hi m o' Ho (claimed_active token o' Hcl)) as Hcons.
      unfold MoveInvariant.consistent in Hcons. rewrite Hr' in Hcons. destruct Hcons as [Hcons _], Hem as [([_ Hp] & _) _].
      unfold copied_phase in Hph, Hcons. rewrite Hp in Hcons. congruence.
Qed.

Lemma copy_online_copies fuel :
  triple (owns started) (copy_online identity_of control_alias now_at fault_at env fuel source target m o token f)
    (fun _ => owns prepared).
Proof.
  unfold copy_online. eapply (triple_bind _ _ (fun _ => owns fencing)); [by apply install_fences|]. intros _.
  eapply (triple_bind _ _ (fun _ => owns resumed)); [apply ensure_reset|]. intros _.
  eapply (triple_bind _ _ (fun _ => owns copied_online)).
  - change (existsb (str_eqb (mo_phase o)) ["catch_up"; "draining"; "cutover"]) with (copied_phase o).
    destruct (copied_phase o) eqn:Hph.
    + apply triple_ret. intros st. apply owns_conseq. intros o' st' [H1 H2]. by split; [|apply H2].
    + eapply triple_conseq; [by eapply backfill_copies| |by left]. intros st. apply owns_conseq. by intros o' st' [H _].
  - intros _. eapply (triple_bind _ _ (fun _ => owns copied_online)).
    + eapply triple_conseq; [by eapply replay_dirty_keys|done|]. intros n st. apply owns_conseq. by intros o' st' [H _].
    + intros n. apply triple_lift. intros st [] H _. eapply owns_conseq; [|exact H]. intros o' st'. by apply prepared_online.
Qed.
End copy.

(** *** Draining the source *)

Lemma share_identity P source target :
  stable P -> identity_of source = src o -> identity_of target = tgt o ->
  triple P (databases_share_identity identity_of control_alias now_at fault_at env source target)
    (fun b st => P st /\ b = (src o =? tgt o)).
Proof.
  intros HP Hs Ht. unfold databases_share_identity. rewrite Hs, Ht.
  eapply (triple_bind _ _ (fun a st => P st /\ a = src o)); [by apply triple_place_query|]. intros a.
  apply triple_pure. intros ->. eapply (triple_bind _ _ (fun b st => P st /\ b = tgt o)); [by apply triple_place_query|]. intros b.
  apply triple_pure. intros ->. by apply triple_ret.
Qed.

Lemma prepared_admits o' st p0 p' a :
  core o' = core o -> prepared o' st -> st_places st !! src o = Some p0 -> admits (mo_shard o) a p0 p' ->
  prepared o' (with_places st (<[src o := p']> (st_places st))).
Proof.
  intros Hc (H1 & H2 & H3) Hp Had. split_and!; [done..|]. intros Hne. destruct (H3 Hne) as [Hcop Hph]. split; [|done].
  eapply copying_admits; [done|done|done|]. destruct (core_eq o' o Hc) as (_ & _ & -> & _). done.
Qed.

Lemma prepared_route o' st r' :
  core o' = core o -> prepared o' st -> under_way r' o' ->
  prepared o' (with_routes st (<[mo_shard o := r']> (st_routes st))).
Proof.
  intros Hc (H1 & H2 & H3) Hu. pose proof (routed_route st o' r' Hc Hu) as Hr. split_and!; [done..|].
  intros Hne. destruct (H3 Hne) as [(_ & Hcop) Hph]. by split; [split|].
Qed.

Lemma start_draining_drains source route :
  lock = false -> identity_of source = src o ->
  triple (fun st => owns (also (sp_database_alias route = mo_source_database_alias o) prepared) st
            /\ seen (mo_shard o) (sp_write_epoch route) st)
    (start_draining identity_of control_alias now_at fault_at env source o route)
    (fun route' => owns (also (sp_database_alias route' = mo_source_database_alias o) prepared)).
Proof.
  intros Hl Hsrc. unfold start_draining. destruct (str_eqb (sp_status route) "copying"); [|by apply triple_ret; intros st []].
  eapply triple_bind.
  - apply (admission_owns _ source (fun _ => draft (mo_shard o) (mo_source_database_alias o) (sp_write_epoch route) Draining
             (Some (mo_target_database_alias o))) (fun _ => [Open; Draining]) (mo_shard o) (sp_write_epoch route)
             (seen (mo_shard o) (sp_write_epoch route))); [done|apply also_kept, prepared_kept|apply seen_stable| |done| |done].
    + intros p. split; [by destruct (mo_shard o)|done].
    + intros o' st p0 p' a Hc [Hp Hφ] Hp0 Had. split; [|done]. by eapply prepared_admits.
  - intros []. eapply (triple_bind _ _ (fun marked st => forall r', marked = Some r' ->
      owns (also (sp_database_alias r' = mo_source_database_alias o) prepared) st)).
    + eapply triple_conseq;
        [eapply (triple_route_update (owns (also (sp_database_alias route = mo_source_database_alias o) prepared)) _ _ (mo_shard o))
        |by intros st []|by intros marked st H; exact H].
      * apply owns_stable, also_kept, prepared_kept.
      * intros now w w' a H. apply bind_Ok in H as ([rs marked] & H & [= <- <-]). exists rs, marked. by split_and!.
      * done.
      * intros st r Hi Hp Hr (Ha & Hv & Hs & Ht)%route_at_true. split; [done|]. split.
        { apply (Inv_route_step _ _ r); [done..|]. by intros o1 (H1 & H2 & H3). }
        intros r' [= <-]. destruct Hp as [(o' & H1 & H2 & H3 & H4 & H5 & _)|[_ Hg]]; [left|right; by split].
        exists o'. split_and!; [done..|by eapply base_route|]. split; [|done].
        apply prepared_route; [done..|]. destruct (core_eq o' o H3) as (_ & _ & _ & Hsa & Hta). unfold under_way. cbn.
        rewrite Hsa, Hta. split_and!; [done..|]. by apply Ht.
    + intros marked. apply triple_lift. intros st r' H Hm%ok_or_Ok. by apply H.
Qed.

(** *** The preparation as a whole *)

Lemma from_operation_fence write_epoch f :
  from_operation m o write_epoch token = Ok f ->
  token_of f = token /\ move_of f = m /\ fence_shard f = mo_shard o /\ tw_write_epoch f = write_epoch.
Proof. unfold from_operation. intros H. by apply bind_Ok in H as (? & _ & [= <-]). Qed.

Definition fence_ok (fence : option TargetMoveWriteFence) : Prop :=
  match fence with
  | None => src o = tgt o
  | Some f => src o <> tgt o /\ token_of f = token /\ move_of f = m /\ fence_shard f = mo_shard o
  end.

Definition prepared_ok (pr : PreparedShardMove) : Prop :=
  sp_database_alias (pr_route pr) = mo_source_database_alias o /\ fence_ok (pr_target_fence pr).

Section whole.
Variables (source target : string) (current : ShardPlacement) (r0 : PlacementRow).
Hypothesis source_alias : identity_of source = src o.
Hypothesis target_alias : identity_of target = tgt o.
Hypothesis unlocked : lock = false.
Hypothesis current_row : current = placement_of (mo_shard o) r0.
Hypothesis current_alias : sp_database_alias current = mo_source_database_alias o.
Hypothesis current_epoch : sp_write_epoch current = epoch.
Hypothesis movable : sp_status current = "active"
  \/ in_progress (sp_status current) = true /\ sp_move_target_database_alias current = Some (mo_target_database_alias o).

Definition initially (st : State) : Prop := since (mo_shard o) r0 st /\ seen (mo_shard o) epoch st.

Lemma initially_stable : stable initially.
Proof. apply stable_and; [apply since_stable|apply seen_stable]. Qed.

(** The route is the one the move started from. *)
Definition reread (o' : MoveOperation) (st : State) : Prop :=
  known o' st /\ (sp_status current <> "active" -> routed o' st).

Lemma reread_kept : kept reread.
Proof.
  intros o' st st' Hi Hi' Hr Hk Hc Hcl [H1 H2]. split; [done|]. intros Ha. by apply (routed_kept o' st st'), H2.
Qed.

Lemma reread_route :
  triple (fun st => owns known st /\ initially st) (select_shard_placement now_at fault_at env (mo_shard o))
    (fun authoritative st => seen (mo_shard o) (sp_write_epoch authoritative) st
       /\ (same_route_fence current authoritative = true -> owns reread st)).
Proof.
  apply triple_query; [apply stable_and; [apply owns_stable, known_kept|apply initially_stable]|].
  intros w a Hi [Hp [Hsi _]] H. apply bind_Ok in H as (r & Hr%ok_or_Ok & [= <-]).
  split; [by exists r|]. intros Hf. destruct Hp as [(o' & H1 & H2 & H3 & H4 & H5)|Hg]; [|by right].
  left. exists o'. split_and!; [done..|]. split; [done|]. intros Hna. destruct movable as [?|[Hin Htg]]; [done|].
  unfold same_route_fence in Hf. apply andb_true_iff in Hf as [_ Hv]. rewrite current_row in Hv. cbn in Hv.
  assert (r = r0) as ->.
  { destruct Hsi as [Hs|(r1 & Hs & Hlt)]; cbn in Hs; rewrite Hr in Hs; injection Hs as <-; [done|lia]. }
  destruct (core_eq o' o H3) as (Hs & _ & _ & Hsa & Hta). exists r0. unfold route_of. cbn. rewrite Hs.
  split; [done|]. unfold under_way. rewrite Hsa, Hta. rewrite current_row in current_alias, Hin, Htg. cbn in *. done.
Qed.

Lemma start_copying_starts :
  triple (owns reread) (start_copying identity_of control_alias now_at fault_at env source m o current (src o =? tgt o))
    (fun _ => owns started).
Proof.
  unfold start_copying.
  eapply (triple_bind _ _ (fun _ => owns (fun o' st => reread o' st /\ (src o <> tgt o -> captured (st_places st) m o')))).
  - destruct (Z.eqb_spec (src o) (tgt o)) as [He|Hne].
    + apply triple_ret. intros st. by apply owns_conseq.
    + eapply triple_conseq; [apply capture_owns; [done|apply reread_kept|]|done|].
      * by intros o' st ps [H1 H2].
      * intros [] st. apply owns_conseq. by intros o' st' [].
  - intros _. destruct (str_eqb (sp_status current) "active") eqn:Ea.
    + eapply triple_conseq; [by apply mark_copying| |done]. intros st. apply owns_conseq. by intros o' st' [[H1 _] H2].
    + apply triple_ret. intros st. apply owns_conseq. intros o' st' [[H1 H2] H3]. split_and!; [done| |done].
      apply H2. intros He. by rewrite He in Ea.
Qed.

Lemma mark_ready message :
  src o = tgt o ->
  triple (owns started)
    (n ⇐ operation_update now_at fault_at env (fun now t => Ok (mark_same_database_move_ready now m token t));
     lift (ensure (n =? 1) message)) (fun _ => owns prepared).
Proof.
  intros He. eapply triple_conseq;
    [apply (triple_claimed started prepared); [apply started_kept|by intros o' H; exact H|]|intros st; apply owns_maybe|by left].
  intros now o' st Hi Ho Hcl Hc _ (H1 & H2 & _). split_and!; [done|done| |].
  - apply consistent_equal; [done|done|by eexists].
  - split_and!; [by apply (routed_core o')|by eexists|done].
Qed.

Lemma prepare_prepares fuel :
  triple (fun st => owns known st /\ initially st)
    (prepare_online_shard_move identity_of control_alias now_at fault_at env fuel source target current m o token)
    (fun pr => held (also (prepared_ok pr) prepared)).
Proof.
  unfold prepare_online_shard_move.
  assert (Hst : stable (fun st => owns known st /\ initially st)) by (apply stable_and; [apply owns_stable, known_kept|apply initially_stable]).
  eapply triple_bind; [by apply (share_identity (fun st => owns known st /\ initially st))|]. intros same. apply triple_pure. intros ->.
  eapply (triple_bind _ _ (fun _ st => owns known st /\ initially st)).
  { destruct (str_eqb (sp_status current) "moving"); [by apply triple_ret|].
    apply reconcile_known; [done|by destruct (mo_shard o)|done|apply initially_stable|done|by intros st []]. }
  intros _. eapply triple_bind; [apply reread_route|]. intros authoritative. cbv beta.
  destruct (same_route_fence current authoritative) eqn:Ef; cbn [negb].
  2: { unfold follow_changed_route. eapply (triple_bind _ _ (fun _ _ => True)); [|intros _; apply triple_err].
       eapply triple_conseq; [apply transition_seen|by intros st []|done]. }
  eapply triple_bind; [eapply triple_conseq; [apply start_copying_starts|by intros st []; auto|by intros a st H; exact H]|]. intros [].
  eapply (triple_bind _ _ (fun _ => owns prepared)).
  { destruct (Z.eqb_spec (src o) (tgt o)) as [He|Hne]; [by apply mark_ready|].
    eapply triple_bind; [apply (triple_lift _ _ (fun f st => owns started st /\ (token_of f = token /\ move_of f = m
      /\ fence_shard f = mo_shard o /\ tw_write_epoch f = epoch + 1)))|].
    - intros st f Hs Hf. split; [done|]. apply from_operation_fence in Hf. by rewrite current_epoch in Hf.
    - intros f. apply triple_pure. intros (H1 & H2 & H3 & H4). by apply copy_online_copies. }
  intros _. eapply (triple_bind _ _ (fun _ => owns prepared)); [eapply triple_conseq; [apply renew_prepared|done|by left]|]. intros _.
  eapply (triple_bind _ _ (fun route st => owns (also (sp_database_alias route = mo_source_database_alias o) prepared) st
            /\ seen (mo_shard o) (sp_write_epoch route) st)).
  { apply triple_query; [apply owns_stable, prepared_kept|]. intros w a Hi Hp H. apply bind_Ok in H as (r & Hr%ok_or_Ok & [= <-]).
    split; [|by exists r]. destruct Hp as [(o' & H1 & H2 & H3 & H4 & H5)|Hg]; [|by right]. left. exists o'. split_and!; [done..|].
    split; [done|]. destruct H5 as ((r1 & Hr1 & Hu) & _). unfold route_of in Hr1. destruct (core_eq o' o H3) as (Hs & _ & _ & Hsa & _).
    rewrite Hs in Hr1. cbn in Hr1. rewrite Hr in Hr1. injection Hr1 as <-. cbn. by rewrite <- Hsa, (proj1 Hu). }
  intros route. eapply triple_bind; [by apply start_draining_drains|]. intros route'.
  eapply (triple_bind _ _ (fun _ => held (also (sp_database_alias route' = mo_source_database_alias o) prepared)));
    [eapply triple_conseq; [by apply (enter_prepared "draining")|apply owns_maybe|done]|].
  intros _. eapply (triple_bind _ _ (fun fence => held (also (sp_database_alias route' = mo_source_database_alias o /\ fence_ok fence) prepared))).
  - assert (Hadd : forall fence st, fence_ok fence -> held (also (sp_database_alias route' = mo_source_database_alias o) prepared) st ->
              held (also (sp_database_alias route' = mo_source_database_alias o /\ fence_ok fence) prepared) st).
    { intros fence st Hok (o' & H1 & H2 & H3 & H4 & H5 & H6). exists o'. by split_and!. }
    destruct (Z.eqb_spec (src o) (tgt o)) as [He|Hne].
    + apply triple_ret. intros st. by apply Hadd.
    + eapply triple_bind; [apply (triple_lift _ _ (fun f st => held (also (sp_database_alias route' = mo_source_database_alias o) prepared) st
        /\ fence_ok (Some f)))|].
      * intros st f Hs Hf. split; [done|]. apply from_operation_fence in Hf as (? & ? & ? & _). by split_and!.
      * intros f. apply triple_pure. intros Hf. apply triple_ret. intros st. by apply Hadd.
  - intros fence. by apply triple_ret.
Qed.
End whole.
End owner.
End prepare.
