(* ===== verification/MoveCutover.v ===== *)
(** * The cutover

    Under the lock of the source the journal is replayed for the last time; with
    no entry left the copy is exact.  The source is closed in the same transaction
    that drops the capture, and only then the route is given to the target: a
    route that an abort took back meanwhile has a later version and is refused. *)

From Stdlib Require Import ZArith Lia ZifyBool.
From stdpp Require Import base strings numbers countable gmap sorting sets option list.
From S2P Require Import Prelude Prog Text RunTypes ShardTables LocalAdmission ShardRows ControlTables RunPlanning.
From S2P Require Import PlanLedger LocalSeed MoveTables ShardMove MoveInvariant MovePages MoveRely MoveExact MovePrepare.

Open Scope Z_scope.

Section cutover.
Context {MF : MoveFunctions} {LF : LedgerFunctions}.
Variable identity_of : string -> Z.
Context {ML : MoveLaws MF identity_of}.
Variable control_alias : string.
Variable token : Uuid.
Variable shard : shard_key.
Variable destination : string.
Variable now_at : nat -> Z.
Variable fault_at : nat -> Fault.
Variable env : nat -> World -> World.
Hypothesis env_rely :
  forall n w, rely identity_of token shard destination (state w) (state (env n w)) /\ mw_history (env n w) = mw_history w.

Notation src := (src identity_of).
Notation tgt := (tgt identity_of).
Notation inv := (inv identity_of).
Notation rely := (rely identity_of token shard destination).
Notation keeps := (keeps identity_of token).
Notation fenced := (fenced token).
Notation stable := (stable identity_of token shard destination).
Notation triple := (triple identity_of).
Notation source_row := (source_row identity_of).
Notation target_row := (target_row identity_of).
Notation same_row := (same_row identity_of).
Notation journalled := (journalled identity_of).
Notation captured := (captured identity_of).
Notation copied := (copied identity_of).
Notation consistent := (consistent identity_of).
Notation source_closed := (source_closed identity_of).
Notation core_eq := (core_eq identity_of).
Notation triple_operation := (triple_operation identity_of token shard destination now_at fault_at env env_rely).
Notation triple_query := (triple_query identity_of token shard destination now_at fault_at env env_rely).
Notation triple_place_update := (triple_place_update identity_of control_alias token shard destination now_at fault_at env env_rely).
Notation triple_place_query := (triple_place_query identity_of control_alias token shard destination now_at fault_at env env_rely).
Notation triple_operation_result := (triple_operation_result identity_of token shard destination now_at fault_at env env_rely).
Notation triple_route_update := (triple_route_update identity_of token shard destination now_at fault_at env env_rely).
Notation triple_admission := (triple_admission identity_of control_alias token shard destination now_at fault_at env env_rely).

(** ** The source transaction *)

Definition with_locked (st : State) (b : bool) : State :=
  mkState (st_routes st) (st_operations st) (st_progress st) (st_places st) b.

Lemma triple_source_tx {A} P P1 (Q1 Q : A -> State -> Prop) (body : prog A) :
  stable P -> (forall st, P st -> P1 (with_locked st true)) -> triple P1 body Q1 ->
  (forall a st, Q1 a st -> Q a (with_locked st false)) ->
  triple P (with_source_tx now_at fault_at env body) Q.
Proof.
  intros HP HP1 Hbody HQ.
  assert (Hl : triple P (_ ⇐ operation now_at fault_at env (fun _ w => Ok (set_locked w true, tt)); body) Q1).
  { eapply (triple_bind _ _ (fun _ => P1)); [|intros _; exact Hbody]. apply triple_operation; [done|].
    intros now w w' [] Hi Hp [= <-]. split; [done|]. split; [done|]. split; [by apply handover_same|exact (HP1 (state w) Hp)]. }
  intros w w' r Hg Hp. unfold with_source_tx.
  destruct ((_ ⇐ _; body) w) as [[w1 r1]|] eqn:E; [|done]. intros [= <- <-].
  destruct (Hl w w1 r1 Hg Hp E) as [Hg1 Hq]. split; [done|]. intros a Ha. exact (HQ a (state w1) (Hq a Ha)).
Qed.

Section owner.
Variable m : Uuid.
Variable o : MoveOperation.
Hypothesis own_target : mo_shard o = shard /\ mo_target_database_alias o = destination.
Variable epoch : Z.
Hypothesis source_alias_differs : mo_source_database_alias o <> mo_target_database_alias o.

Notation held := (fun lock pinned => held token m o lock pinned epoch).
Notation gone := (gone identity_of token m o epoch).
Notation maybe := (fun lock pinned => maybe identity_of token m o lock pinned epoch).
Notation owns := (fun lock pinned => owns identity_of token m o lock pinned epoch).
Notation kept := (kept identity_of token shard destination m o).
Notation prepared := (prepared identity_of token m o).
Notation exact := (exact identity_of).
Notation maybe_stable := (maybe_stable identity_of token shard destination m o own_target).
Notation owns_stable := (owns_stable identity_of token shard destination m o own_target).
Notation copied_online := (copied_online identity_of token m).
Notation prepared_kept := (prepared_kept identity_of token shard destination m o).

(** *** The route under the lock *)

Definition pinned_route (pin : option PlacementRow) (current : ShardPlacement) : Prop :=
  exists r, pin = Some r /\ current = placement_of (mo_shard o) r /\ under_way r o.

Lemma read_pinned pin :
  triple (maybe true pin prepared) (select_shard_placement now_at fault_at env (mo_shard o))
    (fun current => maybe true pin (also (pinned_route pin current) prepared)).
Proof.
  apply triple_query; [apply maybe_stable, prepared_kept|]. intros w a Hi Hp H. apply bind_Ok in H as (r & Hr%ok_or_Ok & [= <-]).
  destruct Hp as [(o' & H1 & H2 & H3 & H4 & H5)|Hg]; [left|by right]. exists o'. split_and!; [done..|]. split; [done|].
  destruct H4 as (_ & _ & _ & Hpin), H5 as ((r1 & Hr1 & Hu) & _). destruct (core_eq o' o H3) as (Hs & _).
  specialize (Hpin eq_refl). unfold route_of in *. cbn in Hpin, Hr1. rewrite Hs in Hr1. rewrite Hr in Hr1, Hpin. injection Hr1 as <-.
  exists r. split_and!; [done..|]. by eapply under_way_core.
Qed.

(** What the frozen route keeps. *)
Definition frozen_route (source_is_control : bool) (pin : option PlacementRow) (moving : ShardPlacement) : Prop :=
  exists r, pin = Some r /\ under_way r o /\ sp_write_epoch moving = pm_write_epoch r
    /\ (source_is_control = false -> moving = placement_of (mo_shard o) r).

Lemma maybe_also φ ψ lock pin (Φ : MoveOperation -> State -> Prop) st :
  (φ -> ψ) -> maybe lock pin (also φ Φ) st -> maybe lock pin (also ψ Φ) st.
Proof. intros H [(o' & H1 & H2 & H3 & H4 & H5 & H6)|Hg]; [left; exists o'; split_and!; try done; split; auto|by right]. Qed.

Lemma freeze_freezes source_is_control pin current :
  triple (maybe true pin (also (pinned_route pin current) prepared))
    (freeze_route now_at fault_at env source_is_control (mo_shard o) (mo_source_database_alias o) (mo_target_database_alias o) current)
    (fun moving st => exists pin', maybe true pin' (also (frozen_route source_is_control pin' moving) prepared) st).
Proof.
  assert (Hst : stable (maybe true pin (also (pinned_route pin current) prepared))) by apply maybe_stable, also_kept, prepared_kept.
  unfold freeze_route, freeze. destruct (str_eqb (sp_status current) "draining") eqn:Ed.
  2: { apply triple_ret. intros st Hst'. exists pin. eapply maybe_also; [|exact Hst']. intros (r & -> & -> & Hu). by exists r. }
  eapply (triple_bind _ _ (fun marked st => forall moving, marked = Some moving ->
    exists pin', maybe true pin' (also (frozen_route source_is_control pin' moving) prepared) st)).
  2: { intros marked. apply triple_lift. intros st moving H Hm%ok_or_Ok. by apply H. }
  destruct source_is_control.
  - apply triple_query; [done|]. intros w a Hi Hp H. apply bind_Ok in H as ([rs marked] & H & [= <-]).
    apply update_route_effect in H as [[-> _]|(r & Hr & Hg & -> & _)]; [done|]. intros moving [= <-]. exists pin.
    destruct Hp as [(o' & H1 & H2 & H3 & H4 & H5 & (r1 & -> & -> & Hu))|Hgn]; [left|by right].
    exists o'. split_and!; [done..|]. split; [done|]. exists r1. split_and!; [done|done| |done]. cbn.
    destruct H4 as (_ & _ & _ & Hpin). specialize (Hpin eq_refl). unfold route_of in Hpin. cbn in Hpin. by simplify_eq.
  - eapply (triple_route_update _ _ _ (mo_shard o)); [done| |done|].
    { intros now w w' a H. apply bind_Ok in H as ([rs marked] & H & [= <- <-]). exists rs, marked. by split_and!. }
    intros st r Hi Hp Hr (Ha & Hv & Hs & Ht)%route_at_true. set (r' := mkPlacementRow _ _ _ _ _). split; [done|]. split.
    { apply (Inv_route_step identity_of _ _ r); [done..|]. by intros o1 (H1 & H2 & H3). }
    intros moving [= <-]. exists (Some r'). destruct Hp as [(o' & H1 & H2 & H3 & H4 & H5 & _)|Hgn]; [left|by right].
    assert (Hu : under_way r' o) by (split_and!; [done..|]; by apply Ht).
    exists o'. split_and!; [done..| |].
    + destruct H4 as (Hl & _ & (r1 & Hr1 & Hle) & _). simplify_eq. split_and!; [done| | |].
      * exists r'. unfold route_of. cbn. rewrite lookup_insert_eq. split; [done|]. by rewrite Ha.
      * exists r'. cbn. by rewrite lookup_insert_eq.
      * intros _. unfold route_of. cbn. apply lookup_insert_eq.
    + split; [|by exists r']. apply prepared_route; [done..|]. by eapply under_way_core.
Qed.

(** *** The final replay *)

(** With the journal empty and the source locked the copy is exact. *)
Definition final (o' : MoveOperation) (st : State) : Prop :=
  prepared o' st /\ st_locked st = true /\ (src o <> tgt o -> exact (st_places st) o').

Lemma final_kept : kept final.
Proof.
  intros o' st st' Hi Hi' Hr Hk Hc Hcl (H1 & H2 & H3). split_and!; [by apply (prepared_kept o' st st')|by rewrite (rl_locked _ _ _ _ _ _ Hr)|].
  intros Hne k. unfold MoveInvariant.same_row. destruct (kp_locked _ _ _ _ _ _ Hk H2) as (_ & -> & _).
  rewrite (kp_target _ _ _ _ _ _ Hk); [by apply H3|]. destruct H1 as (_ & _ & H1). by destruct (H1 Hne) as [(_ & _ & ? & _) _].
Qed.

Lemma replayed_exact o' st :
  copied_online o' st -> replayed identity_of m 0 o' st -> exact (st_places st) o'.
Proof.
  intros [(_ & _ & _ & _ & Hcop & _) Hph] Hn k. destruct (Hcop k) as [[j Hj]|[?|[_ Hc]]]; [|done|].
  - by rewrite Hn in Hj.
  - exfalso. apply Hc. by left.
Qed.

Lemma final_replay pin source target fence fuel :
  identity_of source = src o -> identity_of target = tgt o -> fence_ok identity_of token m o fence ->
  triple (held true pin prepared)
    (match fence with
     | Some f => replay_dirty_shard_keys identity_of control_alias now_at fault_at env fuel source target f m usize_max
     | None => pret 0
     end) (fun n st => n = 0 -> owns true pin final st).
Proof.
  intros Hs Ht Hok. destruct fence as [f|]; cbn in Hok.
  - destruct Hok as (Hne & H1 & H2 & H3).
    eapply triple_conseq; [by eapply (replay_dirty_keys identity_of control_alias token shard destination now_at fault_at env env_rely m o own_target)| |].
    + intros st (o' & Ha & Hb & Hc & Hd & (_ & _ & He)). left. exists o'. split_and!; [done..|]. by apply He.
    + intros n st [(o' & Ha & Hb & Hc & Hd & He & Hf)|[? _]] ->; [left|done]. exists o'. split_and!; [done..|].
      split_and!; [by apply prepared_online|by apply Hd|]. intros _. by apply replayed_exact.
  - apply triple_ret. intros st (o' & Ha & Hb & Hc & Hd & He) _. left. exists o'. split_and!; [done..|].
    split_and!; [done|apply Hd|done].
Qed.

(** *** Closing the source *)

(** The source is closed over an exact copy, under the route [r]. *)
Definition closed (r : PlacementRow) (o' : MoveOperation) (st : State) : Prop :=
  route_of st o' = Some r /\ under_way r o' /\ source_closed (st_places st) o' (pm_write_epoch r + 1)
  /\ (src o <> tgt o -> fenced (st_places st) (tgt o') (mo_shard o') /\ exact (st_places st) o').

Lemma closed_kept r : kept (closed r).
Proof.
  intros o' st st' Hi Hi' Hr Hk Hc Hcl (H1 & H2 & H3 & H4). destruct (kp_closed _ _ _ _ _ _ Hk r H1 H2 H3) as [H5 H6].
  split_and!; [by apply (kp_route _ _ _ _ _ _ Hk)|done|done|]. intros Hne. destruct (H4 Hne) as [Hf He].
  split; [by apply (kp_fence _ _ _ _ _ _ Hk)|]. intros k. unfold MoveInvariant.same_row.
  rewrite H6, (kp_target _ _ _ _ _ _ Hk) by done. apply He.
Qed.

Lemma closed_consistent r o' st :
  core o' = core o -> is_Some (mo_target_reset_at o') -> closed r o' st ->
  consistent (st_routes st) (st_progress st) (st_places st) m o'.
Proof.
  intros Hc Hre (H1 & H2 & H3 & H4). destruct (decide (src o = tgt o)) as [He|Hne]; [by eapply consistent_equal|].
  unfold MoveInvariant.consistent. destruct Hre as [t ->]. intros _ r1 Hr1 _. unfold route_of in H1. rewrite H1 in Hr1.
  injection Hr1 as <-. split; [done|]. right. split; [done|]. by apply H4.
Qed.

(** The place the source transaction commits. *)
Definition committed (p p' : Place) (s : shard_key) (a : AdmissionRow) : Prop :=
  p' = delete_move_capture m (set_db p (with_admissions (pc_db p) (<[s := a]> (db_admissions (pc_db p))))).

Lemma committed_local p p0 p' a : same_data p p0 -> committed p p' (mo_shard o) a ->
  local_change (mo_shard o) m p0 p' /\ (forall s k, row_at (pc_db p') s k = row_at (pc_db p0) s k)
  /\ db_admissions (pc_db p') = <[mo_shard o := a]> (db_admissions (pc_db p0)).
Proof.
  unfold committed. intros (Hd & Hca & Hjo) ->. rewrite <- Hd. split; [constructor|split; [by intros s []|done]]; cbn.
  - rewrite <- Hd. by intros s' [].
  - intros s' Hs. rewrite <- Hd. by apply lookup_insert_ne.
  - intros s' m1 _ Hm Hc. rewrite <- Hca in Hc. apply map_lookup_filter_Some. by split.
  - intros m1 k Hm [j Hj]. rewrite <- Hjo in Hj. exists j. apply map_lookup_filter_Some. by split.
Qed.

Lemma commit_closes st o' r p p0 p' a :
  inv st -> st_operations st !! m = Some o' -> claimed_by token o' = true -> core o' = core o -> final o' st ->
  route_of st o = Some r -> under_way r o -> st_places st !! src o = Some p0 -> same_data p p0 ->
  committed p p' (mo_shard o) a -> ad_state a = Closed -> ad_write_epoch a = pm_write_epoch r + 1 ->
  inv (with_places st (<[src o := p']> (st_places st))) /\ closed r o' (with_places st (<[src o := p']> (st_places st))).
Proof.
  intros Hi Ho Hcl Hc ((_ & Hre & Hp) & _ & He) Hr Hu Hp0 Hd Hcom Hst Hep.
  destruct (committed_local p p0 p' a Hd Hcom) as (Hl & Hrow & Had). destruct (core_eq o' o Hc) as (Hs & Hsr & Ht & _).
  assert (Hclosed : closed r o' (with_places st (<[src o := p']> (st_places st)))).
  { split_and!; [unfold route_of in *; by rewrite Hs|by eapply under_way_core| |].
    - exists a. cbn. rewrite Hs, Hsr, admission_in_insert, decide_True, Had by done. by rewrite lookup_insert_eq.
    - intros Hne. destruct (Hp Hne) as [(_ & _ & Hf & _) _]. split.
      + destruct Hf as (a1 & f & Ha & Hf). exists a1, f. split; [|done]. cbn. rewrite admission_in_insert, decide_False by (by rewrite Ht). done.
      + intros k. specialize (He Hne k). unfold MoveInvariant.same_row, MoveInvariant.source_row, MoveInvariant.target_row in *. cbn.
        rewrite Hsr, Ht in *. rewrite !rows_in_insert. rewrite decide_False, decide_True, Hrow by done.
        by rewrite (rows_in_at _ (src o) p0) in He by done. }
  split; [|done]. eapply (Inv_local identity_of _ _ _ _ _ p0 p' (mo_shard o) m); [done|done|done| |].
  - intros o1 Ho1 _. cbn in Ho1. rewrite Ho in Ho1. by injection Ho1 as <-.
  - intros m1 o1 Ho1 Ha1 Hs1. cbn in Ho1. rewrite <- Hs in Hs1.
    destruct (held_unique identity_of token m st o' m1 o1 Hi Ho Hcl Ho1 Ha1 Hs1) as [-> ->]. exact (closed_consistent r o' _ Hc Hre Hclosed).
Qed.

(** *** Giving the route to the target *)

Definition activated (r : PlacementRow) : PlacementRow :=
  mkPlacementRow (mo_target_database_alias o) "active" None (pm_route_version r + 1) (pm_write_epoch r + 1).

Lemma activate_effect dbs version rs st :
  activate_on_target dbs (mo_shard o) (mo_source_database_alias o) version (mo_target_database_alias o) rs = Ok st ->
  exists r, rs !! mo_shard o = Some r /\ pm_route_version r = version
    /\ st = (<[mo_shard o := activated r]> rs, placement_of (mo_shard o) (activated r)).
Proof.
  unfold activate_on_target. intros H. apply bind_Ok in H as (? & _ & H). apply bind_Ok in H as ([rs' marked] & H & H').
  apply bind_Ok in H' as (r' & Hr'%ok_or_Ok & [= <-]). apply update_route_effect in H as [[-> _]|(r & Hr & Hg & -> & ->)]; [done|].
  injection Hr' as <-. exists r. apply route_at_true in Hg as (_ & Hv & _). by split_and!.
Qed.

Lemma Inv_activated st o' r r1 :
  inv st -> st_operations st !! m = Some o' -> claimed_by token o' = true -> core o' = core o ->
  st_routes st !! mo_shard o = Some r -> inv (with_routes st (<[mo_shard o := activated r1]> (st_routes st))).
Proof.
  intros Hi Ho Hcl Hc Hr. apply (Inv_route identity_of _ _ _ _ (mo_shard o) r); [done|done|].
  intros m1 o1 Ho1 Ha1 Hs1 _ _ Hal. exfalso. destruct (core_eq o' o Hc) as (Hs & _ & _ & Hsa & _). rewrite <- Hs in Hs1.
  destruct (held_unique identity_of token m st o' m1 o1 Hi Ho Hcl Ho1 Ha1 Hs1) as [-> ->]. cbn in Hal. congruence.
Qed.

(** Handing over a closed source. *)
Lemma handover_closed rs ps st o' r r1 :
  rs !! mo_shard o = Some r -> core o' = core o -> closed r o' st ->
  pm_write_epoch r1 = pm_write_epoch r ->
  handover identity_of (mkView rs ps) (mkView (<[mo_shard o := activated r1]> rs) (st_places st)).
Proof.
  intros Hr Hc (H1 & (Hal & _) & (a & Ha & Hst & Hep) & H4) He1 s r2 r2' Hr2 Hr2' Hne. cbn in *.
  destruct (decide (mo_shard o = s)) as [<-|Hs]; [|rewrite lookup_insert_ne in Hr2' by done; congruence].
  rewrite lookup_insert_eq in Hr2'. injection Hr2' as <-. rewrite Hr in Hr2. injection Hr2 as <-.
  destruct (core_eq o' o Hc) as (Hs & Hsr & Ht & Hsa & _). unfold activated in *. cbn in *. rewrite Hal, He1.
  split_and!; [done|done| |].
  - exists a. rewrite Hs in Ha. by split_and!.
  - intros k. rewrite Hsa. destruct (decide (src o = tgt o)) as [He|Hd].
    + unfold MoveInvariant.src, MoveInvariant.tgt in He. by rewrite He.
    + destruct (H4 Hd) as [_ Hx]. specialize (Hx k). unfold MoveInvariant.same_row, MoveInvariant.source_row, MoveInvariant.target_row in Hx.
      by rewrite Hs, Hsr, Ht in Hx.
Qed.

(** What the source transaction leaves for the rest of the move. *)
Definition cut (moving : ShardPlacement) (activated : option ShardPlacement) (st : State) : Prop :=
  match activated with
  | Some placement => seen (mo_shard o) (sp_write_epoch placement) st
  | None => exists r, moving = placement_of (mo_shard o) r /\ held true (Some r) (closed r) st
  end.

Lemma commit_cuts source_is_control pin source current moving :
  identity_of source = src o -> frozen_route source_is_control pin moving ->
  triple (owns true pin final)
    (commit_source identity_of control_alias now_at fault_at env source_is_control (mo_shard o) source (mo_source_database_alias o)
       (mo_target_database_alias o) m current moving)
    (fun activated => cut moving activated).
Proof.
  intros Hsrc (r & -> & Hu & Hep & Hmv). apply triple_operation; [apply owns_stable, final_kept|].
  intros now w w' b Hi [(o' & H1 & H2 & H3 & H4 & H5)|[Hlk _]] H; [|done].
  apply bind_Ok in H as (p & (p0 & Hp0 & Hd)%place_at_data & H). apply bind_Ok in H as (ad & (-> & _ & _)%transition_effect & H).
  cbn [fst] in H. set (row := draft_row _ now) in H. set (p' := delete_move_capture m _) in H.
  assert (Hcom : committed p p' (mo_shard o) row) by (unfold committed, p'; by destruct (mo_shard o)).
  rewrite Hsrc in Hp0. assert (Hr : route_of (state w) o = Some r) by (by apply H4).
  destruct (commit_closes (state w) o' r p p0 p' row Hi H1 H2 H3 H5 Hr Hu Hp0 Hd Hcom) as [Hi' Hcl]; [done|by cbn; rewrite Hep|].
  destruct source_is_control.
  - apply bind_Ok in H as ([rs1 marked] & Hf & H). apply bind_Ok in H as (st2 & (r1 & Hr1 & _ & ->)%activate_effect & [= <- <-]).
    cbn [fst snd]. assert (He1 : pm_write_epoch r1 = pm_write_epoch r /\ <[mo_shard o := activated r1]> rs1 = <[mo_shard o := activated r1]> (mw_placements w)).
    { cbn [fst] in Hr1. unfold freeze in Hf. unfold route_of in Hr. cbn in Hr. destruct (str_eqb _ _).
      - apply update_route_effect in Hf as [[_ ->]|(r2 & Hr2 & _ & _ & ->)]; [by rewrite Hr in Hr1; injection Hr1 as <-|].
        rewrite lookup_insert_eq in Hr1. injection Hr1 as <-. rewrite Hr in Hr2. injection Hr2 as <-. by rewrite insert_insert_eq.
      - injection Hf as <- _. rewrite Hr in Hr1. by injection Hr1 as <-. }
    destruct He1 as [He1 ->].
    assert (Hst : state (set_placements (put_place identity_of control_alias w source p') (<[mo_shard o := activated r1]> (mw_placements w)))
              = with_routes (with_places (state w) (<[src o := p']> (mw_places w))) (<[mo_shard o := activated r1]> (mw_placements w))).
    { unfold put_place. rewrite <- Hsrc. by destruct (_ =? _). }
    assert (Hvw : view (set_placements (put_place identity_of control_alias w source p') (<[mo_shard o := activated r1]> (mw_placements w)))
              = mkView (<[mo_shard o := activated r1]> (mw_placements w)) (<[src o := p']> (mw_places w))).
    { unfold put_place. rewrite <- Hsrc. by destruct (_ =? _). }
    rewrite Hst, Hvw. split_and!.
    + by apply (Inv_activated (with_places (state w) (<[src o := p']> (mw_places w))) o' r r1).
    + unfold put_place. by destruct (_ =? _).
    + exact (handover_closed (mw_placements w) (mw_places w) (with_places (state w) (<[src o := p']> (mw_places w))) o' r r1 Hr H3 Hcl He1).
    + exists (activated r1). cbn. by rewrite lookup_insert_eq.
  - injection H as <- <-. rewrite state_put_place, view_put_place, history_put_place, Hsrc.
    split; [done|]. split; [done|]. split; [by apply handover_same|]. exists r. split; [by apply Hmv|]. exists o'. by split_and!.
Qed.

(** *** After the lock *)

(** The source stays closed over its copy, or the route moved on. *)
Definition closing (r : PlacementRow) (st : State) : Prop := held false None (closed r) st \/ passed (mo_shard o) r st.

Lemma closing_stable r : stable (closing r).
Proof.
  intros st st' Hi Hi' Hr [(o' & H1 & H2 & H3 & H4 & H5)|Hp]; [|right; by apply (passed_stable identity_of token shard destination _ r st st')].
  pose proof H4 as (_ & Haw & _).
  destruct (rl_held _ _ _ _ _ _ Hr m o' H1 H2 (away_core identity_of st o o' (eq_sym H3) Haw)) as [[Ho' Hkp]|(_ & _ & _ & Hne & _)].
  - left. by eapply (held_keeps identity_of token shard destination m o own_target false None epoch (closed r) st st' o'); [apply closed_kept|..].
  - right. destruct H5 as (Hro & Hu & _). destruct (core_eq o' o H3) as (Hs & _). unfold route_of in *. rewrite Hs in *.
    destruct (rl_routes _ _ _ _ _ _ Hr (mo_shard o) r Hro) as (r' & Hr' & _ & [->|Hlt]); [|by exists r'].
    by destruct (Hne r Hro Hu).
Qed.

Lemma activate_hands_over r :
  triple (closing r)
    (operation now_at fault_at env (fun _ w =>
       st ← activate_on_target (mw_databases w) (mo_shard o) (mo_source_database_alias o) (pm_route_version r)
              (mo_target_database_alias o) (mw_placements w);
       Ok (set_placements w st.1, st.2)))
    (fun placement => seen (mo_shard o) (sp_write_epoch placement)).
Proof.
  apply triple_operation; [apply closing_stable|]. intros now w w' placement Hi Hp H.
  apply bind_Ok in H as (st & (r1 & Hr1 & Hv & ->)%activate_effect & [= <- <-]). cbn [fst snd].
  destruct Hp as [(o' & H1 & H2 & H3 & H4 & H5)|(r2 & Hr2 & Hlt)]; [|cbn in Hr2; rewrite Hr1 in Hr2; injection Hr2 as <-; lia].
  pose proof H5 as (Hr & _). destruct (core_eq o' o H3) as (Hs & _). unfold route_of in Hr. cbn in Hr. rewrite Hs, Hr1 in Hr.
  injection Hr as ->. split; [by apply (Inv_activated (state w) o' r r)|]. split; [done|].
  split; [exact (handover_closed (mw_placements w) (mw_places w) (state w) o' r r Hr1 H3 H5 eq_refl)|].
  exists (activated r). cbn. by rewrite lookup_insert_eq.
Qed.

(** The end of the move settles the operation it still claims. *)
Lemma settle_completed :
  triple (fun _ => True)
    (operation_update now_at fault_at env (fun now t => t ← settle_completed_move_operation now m (Some token) t; Ok (t, tt)))
    (fun _ _ => True).
Proof.
  apply triple_operation_result; [done|]. intros now st t Hi _ H. split; [|done]. unfold settle_completed_move_operation in H.
  unfold update_operation in H. destruct (st_operations st !! m) as [o1|] eqn:E; [|by apply bind_Ok in H as (? & ? & _)].
  destruct (is_active o1 && _); [|by apply bind_Ok in H as (? & ? & _)]. apply bind_Ok in H as (? & _ & [= <-]).
  by apply (Inv_operation identity_of _ _ _ _ m o1).
Qed.

Lemma finish_finishes target moving active :
  triple (fun st => match active with
                    | Some placement => seen (mo_shard o) (sp_write_epoch placement) st
                    | None => exists r, moving = placement_of (mo_shard o) r /\ closing r st
                    end)
    (finish_move identity_of control_alias now_at fault_at env (mo_shard o) target (mo_source_database_alias o)
       (mo_target_database_alias o) m token moving active) (fun _ _ => True).
Proof.
  unfold finish_move. eapply (triple_bind _ _ (fun placement => seen (mo_shard o) (sp_write_epoch placement))).
  { destruct active as [placement|]; [by apply triple_ret|]. apply triple_exists. intros r.
    intros w w' a Hg [-> Hc]. by apply activate_hands_over. }
  intros placement. eapply triple_bind; [apply (triple_lift _ _ (fun _ => seen (mo_shard o) (sp_write_epoch placement))); done|].
  intros []. eapply triple_bind; [by apply (transition_seen identity_of control_alias token shard destination now_at fault_at env env_rely)|]. intros [].
  eapply triple_bind; [apply settle_completed|]. intros []. by apply triple_ret.
Qed.

(** *** The cutover as a whole *)

Lemma trivial_query {A} f : triple (fun _ => True) (query now_at fault_at env f) (fun (_ : A) _ => True).
Proof. by apply triple_query. Qed.

Lemma verify_tables source target s :
  triple (fun _ => True) (verify_move_tables identity_of control_alias now_at fault_at env source target s) (fun _ _ => True).
Proof.
  apply (triple_fold identity_of (fun _ _ => True)). intros reports table _. unfold verify_table.
  eapply triple_bind; [apply trivial_query|]. intros a. eapply triple_bind; [apply trivial_query|]. intros b. by apply triple_ret.
Qed.

Definition barrier_ok (b : Barrier) (st : State) : Prop :=
  match b with CutOver _ moving _ active => cut moving active st | _ => True end.

Lemma cut_over_cuts fuel source_is_control source target pr :
  identity_of source = src o -> identity_of target = tgt o -> fence_ok identity_of token m o (pr_target_fence pr) ->
  triple (fun st => exists pin, maybe true pin prepared st)
    (cut_over identity_of control_alias now_at fault_at env fuel source_is_control (mo_shard o) source target
       (mo_source_database_alias o) (mo_target_database_alias o) m token pr) barrier_ok.
Proof.
  intros Hs Ht Hok. apply triple_exists. intros pin. unfold cut_over. eapply triple_bind; [apply read_pinned|]. intros current. cbv beta.
  destruct (str_eqb _ _ && str_eqb _ _).
  { eapply triple_bind; [eapply triple_conseq; [apply trivial_query|done|by intros ? ? H; exact H]|]. intros n.
    eapply triple_bind; [apply verify_tables|]. intros reports.
    eapply (triple_bind _ _ (fun _ _ => True)); [by apply triple_lift|]. intros []. by apply triple_ret. }
  set (P := maybe true pin (also (pinned_route pin current) prepared)).
  do 3 (eapply (triple_bind _ _ (fun _ => P)); [by apply triple_lift|]; intros []).
  eapply (triple_bind _ _ (fun _ => P)); [apply triple_place_query; [apply maybe_stable, also_kept, prepared_kept|done]|]. intros n.
  destruct (0 <? n); [by apply triple_ret|].
  eapply triple_bind; [apply freeze_freezes|]. intros moving. cbv beta. apply triple_exists. intros pin'.
  eapply triple_bind; [by apply (enter_prepared identity_of token shard destination now_at fault_at env env_rely m o own_target true pin' epoch "cutover")|]. intros [].
  eapply (triple_bind _ _ (fun n st => (n = 0 -> owns true pin' final st) /\ frozen_route source_is_control pin' moving)).
  { eapply triple_conseq; [apply (triple_pure identity_of (frozen_route source_is_control pin' moving) (held true pin' prepared)); intros Hf| |].
    - eapply triple_conseq; [by apply (final_replay pin' source target (pr_target_fence pr) fuel)|done|].
      intros n1 st H. exact (conj H Hf).
    - by intros st (o' & H1 & H2 & H3 & H4 & H5 & H6); split; [exists o'|].
    - done. }
  intros remaining. apply triple_pure. intros Hf.
  eapply (triple_bind _ _ (fun _ => owns true pin' final)); [apply triple_lift; intros st [] H Hn%ensure_Ok; apply H; lia|]. intros [].
  eapply (triple_bind _ _ (fun _ => owns true pin' final)); [by apply triple_query; [apply owns_stable, final_kept|]|]. intros reports.
  eapply triple_bind; [by apply commit_cuts|]. intros active. by apply triple_ret.
Qed.

Lemma cut_over_transaction fuel source_is_control source target pr :
  identity_of source = src o -> identity_of target = tgt o -> fence_ok identity_of token m o (pr_target_fence pr) ->
  triple (owns false None prepared)
    (with_source_tx now_at fault_at env (cut_over identity_of control_alias now_at fault_at env fuel source_is_control (mo_shard o)
       source target (mo_source_database_alias o) (mo_target_database_alias o) m token pr))
    (fun b st => match b with
                 | CutOver _ moving _ (Some placement) => seen (mo_shard o) (sp_write_epoch placement) st
                 | CutOver _ moving _ None => exists r, moving = placement_of (mo_shard o) r /\ closing r st
                 | _ => True
                 end).
Proof.
  intros Hs Ht Hok. eapply triple_source_tx; [apply owns_stable, prepared_kept| |by apply cut_over_cuts|].
  - intros st [(o' & H1 & H2 & H3 & (H4 & H5 & H6 & _) & H7)|[_ Hg]].
    + exists (route_of st o). left. exists o'. by split_and!.
    + exists None. by right.
  - intros [| |n moving reports [placement|]] st; [done|done|done|]. intros (r & -> & o' & H1 & H2 & H3 & (H4 & H5 & H6 & _) & H7).
    exists r. split; [done|]. left. exists o'. by split_and!.
Qed.
End owner.
End cutover.
