(* ===== verification/MoveDelivery.v ===== *)
(** * What a move leaves in its history

    Every operation of a move is recorded, and a move that succeeds recorded its
    shard as routed to the target: it activated the route itself, or found that an
    earlier move had. *)

From Stdlib Require Import ZArith Lia ZifyBool.
From stdpp Require Import base strings numbers countable gmap sorting sets option list.
From S2P Require Import Prelude Prog BTree Text RunTypes ShardTables LocalAdmission ShardRows ControlTables RunPlanning.
From S2P Require Import PlanLedger LocalSeed MoveTables ShardMove MoveInvariant MovePages MoveRely.

Open Scope Z_scope.

Create HintDb extends.

Section delivery.
Context {MF : MoveFunctions} {LF : LedgerFunctions}.
Variable identity_of : string -> Z.
Variable control_alias : string.
Variable token : Uuid.
Variable shard : shard_key.
Variable now_at : nat -> Z.
Variable fault_at : nat -> Fault.
Variable env : nat -> World -> World.
Hypothesis env_history : forall n w, mw_history (env n w) = mw_history w.

(** ** The effect that moves the route *)

(** [c] extends the history. *)
Definition extends {A} (c : prog A) : Prop := forall w w' r, c w = Some (w', r) -> mw_history w `suffix_of` mw_history w'.

Lemma operation_extends {A} (f : Z -> World -> result (World * A)) :
  (forall now w w' a, f now w = Ok (w', a) -> mw_history w' = mw_history w) -> extends (operation now_at fault_at env f).
Proof.
  intros Hf w w' r H. unfold ShardMove.operation in H. cbv zeta in H.
  assert (He : mw_history (set_turn (env (mw_turn w) w) (S (mw_turn w))) = mw_history w) by apply env_history.
  rewrite <- He. apply attempt_world in H as [->|[b H]]; [done|]. apply bind_Ok in H as ([w2 c] & H2 & [= <- _]).
  cbn. rewrite (Hf _ _ _ _ H2). by apply suffix_cons_r.
Qed.

Lemma bind_extends {A B} (c : prog A) (k : A -> prog B) : extends c -> (forall a, extends (k a)) -> extends (pbind c k).
Proof.
  intros Hc Hk w w' r. unfold pbind. destruct (c w) as [[w1 [a|e]]|] eqn:E; [|intros [= <- <-]; by eapply Hc|done].
  intros H. etrans; [by eapply Hc|by eapply Hk].
Qed.

Lemma lift_extends {A} (r : result A) : extends (lift r).
Proof. by intros w w' r' [= <- <-]. Qed.

(** A recorded effect gives the shard to its destination. *)
Definition delivered (source_alias target_alias : string) (h : list (View * View)) : Prop := exists v v' r r',
  (v, v') ∈ h /\ vw_placements v !! shard = Some r /\ pm_database_alias r = source_alias
  /\ pm_move_target_database_alias r = Some target_alias
  /\ vw_placements v' !! shard = Some r' /\ pm_database_alias r' = target_alias /\ pm_status r' = "active".

Lemma delivered_suffix a t h h' : h `suffix_of` h' -> delivered a t h -> delivered a t h'.
Proof. intros [l ->] (v & v' & r & r' & Hin & H). exists v, v', r, r'. split; [|done]. apply elem_of_app. by right. Qed.

Lemma operation_effect {A} (f : Z -> World -> result (World * A)) w w' a :
  operation now_at fault_at env f w = Some (w', Ok a) ->
  exists now w1 w2, f now w1 = Ok (w2, a) /\ mw_history w' = (view w1, view w2) :: mw_history w2.
Proof.
  unfold ShardMove.operation. cbv zeta. intros H%attempt_Ok. apply bind_Ok in H as ([w2 b] & H2 & [= <- <-]). eauto.
Qed.

Lemma activate_route dbs a version t rs st :
  activate_on_target dbs shard a version t rs = Ok st ->
  exists r r', rs !! shard = Some r /\ pm_database_alias r = a /\ pm_move_target_database_alias r = Some t
    /\ st.1 !! shard = Some r' /\ pm_database_alias r' = t /\ pm_status r' = "active".
Proof.
  unfold activate_on_target. intros H. apply bind_Ok in H as (? & _ & H). apply bind_Ok in H as ([rs' marked] & H & H').
  apply bind_Ok in H' as (r' & Hr'%ok_or_Ok & [= <-]). apply update_route_effect in H as [[-> _]|(r & Hr & Hg & -> & ->)]; [done|].
  apply route_at_true in Hg as (Ha & _ & _ & Ht). injection Hr' as <-. eexists r, _.
  split_and!; [done|done|by apply Ht|apply lookup_insert_eq|done|done].
Qed.

Lemma commit_delivers control source a t m current moving w w' placement :
  commit_source identity_of control_alias now_at fault_at env control shard source a t m current moving w = Some (w', Ok (Some placement)) ->
  delivered a t (mw_history w').
Proof.
  intros (now & w1 & w2 & H & Hh)%operation_effect. apply bind_Ok in H as (p & _ & H). apply bind_Ok in H as (ad & _ & H).
  destruct control; [|done]. apply bind_Ok in H as ([rs marked] & Hf & H). apply bind_Ok in H as (st & Hst%activate_route & [= <- <-]).
  destruct Hst as (r1 & r' & Hr1 & Ha1 & Ht1 & Hr').
  assert (exists r, mw_placements w1 !! shard = Some r /\ pm_database_alias r = a /\ pm_move_target_database_alias r = Some t)
    as (r & Hr & Ha & Ht).
  { unfold freeze in Hf. destruct (str_eqb _ _); [|injection Hf as <- _; by exists r1].
    apply update_route_effect in Hf as [[_ ->]|(r & Hr & _ & _ & ->)]; [by exists r1|].
    cbn in Hr1. rewrite lookup_insert_eq in Hr1. injection Hr1 as <-. by exists r. }
  exists (view w1), (view (set_placements (put_place identity_of control_alias w1 source (delete_move_capture m (set_db p ad.1))) st.1)), r, r'.
  rewrite Hh. split; [by apply elem_of_cons; left|]. split_and!; [done..| |apply Hr'|apply Hr']. cbn. apply Hr'.
Qed.

Lemma cut_over_delivers fuel control source target a t m pr w w' n moving reports placement :
  cut_over identity_of control_alias now_at fault_at env fuel control shard source target a t m token pr w
    = Some (w', Ok (CutOver n moving reports (Some placement))) -> delivered a t (mw_history w').
Proof.
  unfold cut_over. intros (w1 & current & _ & H)%pbind_Ok. destruct (str_eqb _ _ && str_eqb _ _).
  { do 3 (apply pbind_Ok in H as (? & ? & _ & H)). by apply pret_Ok in H as [_ H]. }
  do 4 (apply pbind_Ok in H as (? & ? & _ & H)). destruct (0 <? _); [by apply pret_Ok in H as [_ H]|].
  do 5 (apply pbind_Ok in H as (? & ? & _ & H)). apply pbind_Ok in H as (w2 & active & Hc & H).
  apply pret_Ok in H as [-> [= <- <- <- <-]]. by eapply commit_delivers.
Qed.

Lemma place_extends {A} alias (f : Z -> Place -> result (Place * A)) :
  extends (place_update identity_of control_alias now_at fault_at env alias f).
Proof.
  apply operation_extends. intros now w w' a H. apply bind_Ok in H as (p & _ & H). apply bind_Ok in H as (st & _ & [= <- _]).
  apply history_put_place.
Qed.

Lemma finish_delivers target a t m moving active w w' placement :
  (is_Some active -> delivered a t (mw_history w)) ->
  finish_move identity_of control_alias now_at fault_at env shard target a t m token moving active w = Some (w', Ok placement) ->
  delivered a t (mw_history w').
Proof.
  intros Hd (w1 & pl & Hact & H)%pbind_Ok.
  assert (Hdone : delivered a t (mw_history w1)).
  { destruct active as [pl'|]; [apply pret_Ok in Hact as [-> _]; apply Hd; by eexists|].
    apply operation_effect in Hact as (now & w2 & w3 & Hf & Hh). apply bind_Ok in Hf as (st & Hst%activate_route & [= <- _]).
    destruct Hst as (r & r' & Hr & Ha & Ht & Hr'). exists (view w2), (view (set_placements w2 st.1)), r, r'.
    rewrite Hh. split; [by apply elem_of_cons; left|]. by split_and!; [..|apply Hr'|apply Hr'|apply Hr']. }
  eapply delivered_suffix; [|exact Hdone]. revert H. apply bind_extends; [apply lift_extends|]. intros [].
  apply bind_extends; [apply place_extends|]. intros []. apply bind_extends; [|intros []; apply lift_extends].
  apply operation_extends. intros now w2 w3 b H. by apply bind_Ok in H as (? & _ & [= <- _]).
Qed.

Lemma online_delivers fuel source target t current options new_id w w' out :
  move_online identity_of control_alias now_at fault_at env fuel shard source target t current options token new_id w = Some (w', Ok out) ->
  so_moved out = true -> delivered (so_source_database_alias out) (so_target_database_alias out) (mw_history w').
Proof.
  unfold move_online. intros (w1 & [m o] & _ & H)%pbind_Ok Hm. apply pbind_Ok in H as (w2 & pr & _ & H).
  apply pbind_Ok in H as (w3 & n & _ & H). destruct (0 <? n); [by apply pbind_Ok in H as (? & ? & _ & [_ ?]%lift_Ok)|].
  apply pbind_Ok in H as (w4 & b & Hb & H). destruct b as [? ? ?|?|n' moving reports active].
  - by apply pret_Ok in H as [_ ->].
  - by apply pbind_Ok in H as (? & ? & _ & [_ ?]%lift_Ok).
  - apply pbind_Ok in H as (w5 & placement & Hf & H). apply pret_Ok in H as [-> ->]. cbn.
    eapply finish_delivers; [|exact Hf]. intros [pl ->]. unfold with_source_tx in Hb.
    destruct ((_ ⇐ _; cut_over _ _ _ _ _ _ _ _ _ _ _ _ _ _ _) w3) as [[w6 r]|] eqn:E; [|done]. injection Hb as <- ->. cbn.
    apply pbind_Ok in E as (w7 & [] & _ & E). by eapply cut_over_delivers.
Qed.

Lemma move_delivers fuel run_id run_shard t options new_id w w' out :
  shard = (run_id, run_shard) ->
  move_shard_placement identity_of control_alias now_at fault_at env fuel run_id run_shard t options token new_id w = Some (w', Ok out) ->
  so_moved out = true -> delivered (so_source_database_alias out) (so_target_database_alias out) (mw_history w').
Proof.
  intros Hs H Hm. unfold move_shard_placement in H. rewrite <- Hs in H.
  do 5 (apply pbind_Ok in H as (? & ? & _ & H)). apply pbind_Ok in H as (? & completed & _ & H).
  do 4 (apply pbind_Ok in H as (? & ? & _ & H)). destruct (op_dry_run options || op_verify_only options).
  { do 2 (apply pbind_Ok in H as (? & ? & _ & H)). by apply pret_Ok in H as [_ ->]. }
  destruct completed as [[m o]|].
  - unfold retry_completed_move in H. do 7 (apply pbind_Ok in H as (? & ? & _ & H)). by apply pret_Ok in H as [_ ->].
  - do 2 (apply pbind_Ok in H as (? & ? & _ & H)). by eapply online_delivers.
Qed.

(** ** Every program extends the history *)

Lemma ret_extends {A} (a : A) : extends (pret a).
Proof. by intros w w' r' [= <- <-]. Qed.

Lemma stuck_extends {A} : extends (fun _ => None : option (World * result A)).
Proof. by intros w w' r. Qed.

Lemma query_extends {A} (f : World -> result A) : extends (query now_at fault_at env f).
Proof. apply operation_extends. intros now w w' a H. by apply bind_Ok in H as (? & _ & [= <- _]). Qed.

Lemma route_extends s f : extends (route_update now_at fault_at env s f).
Proof. apply operation_extends. intros now w w' a H. by apply bind_Ok in H as (? & _ & [= <- _]). Qed.

Lemma operation_update_extends {A} (f : Z -> operations -> result (operations * A)) :
  extends (operation_update now_at fault_at env f).
Proof. apply operation_extends. intros now w w' a H. by apply bind_Ok in H as (? & _ & [= <- _]). Qed.

Lemma fold_extends {A S} (f : S -> A -> prog S) l : forall s, (forall s a, extends (f s a)) -> extends (pfold f s l).
Proof.
  induction l as [|a l IH]; intros s Hf; [apply ret_extends|]. apply bind_extends; [apply Hf|]. intros s'. by apply IH.
Qed.

Lemma recover_extends {A} (c : prog A) (rescue : string -> prog A) :
  extends c -> (forall e, extends (rescue e)) ->
  extends (fun w => match c w with Some (w', Err e) => rescue e w' | r => r end).
Proof.
  intros Hc Hre w w' r H. destruct (c w) as [[w1 [a|e]]|] eqn:E; [injection H as <- <-; by eapply Hc| |done].
  etrans; [by eapply Hc|by eapply Hre].
Qed.

Lemma source_tx_extends {A} (body : prog A) : extends body -> extends (with_source_tx now_at fault_at env body).
Proof.
  intros Hb w w' r H. unfold with_source_tx in H. destruct (pbind _ _ w) as [[w1 r1]|] eqn:E; [|done]. injection H as <- <-.
  revert E. apply (bind_extends _ _); [|done]. apply operation_extends. by intros now w2 w3 a [= <- _].
Qed.

Ltac extend :=
  repeat first
    [ progress intros
    | apply ret_extends | apply lift_extends | apply stuck_extends | apply query_extends | apply route_extends
    | apply operation_update_extends | apply place_extends
    | solve [auto with extends]
    | apply fold_extends | apply bind_extends | apply source_tx_extends
    | case_match ].

Lemma backfill_extends source target f table fuel : forall page cursor,
  extends (backfill_table identity_of control_alias now_at fault_at env fuel source target f table page cursor).
Proof.
  induction fuel as [|fuel IH]; intros page cursor; cbn; apply bind_extends; [apply query_extends| |apply query_extends|];
    intros [|row rows]; [apply ret_extends|apply stuck_extends|apply ret_extends|].
  apply bind_extends; [|intros []; apply IH]. unfold copy_and_checkpoint_move_page. apply bind_extends; [case_match; apply place_extends|].
  intros []. apply operation_extends. intros now w w' a H. by apply bind_Ok in H as (? & _ & [= <- _]).
Qed.

Lemma replay_table_extends source target f m max_batches present fuel : forall table completed,
  extends (replay_table identity_of control_alias now_at fault_at env fuel source target f m max_batches present completed table).
Proof.
  induction fuel as [|fuel IH]; intros table completed; cbn; case_match; try apply ret_extends;
    (apply bind_extends; [apply query_extends|]); intros [|key keys]; try apply ret_extends; [apply stuck_extends|].
  apply bind_extends; [|intros []; apply IH]. case_match; unfold replay_present, replay_missing; extend.
Qed.

#[local] Hint Resolve backfill_extends replay_table_extends : extends.

Lemma replay_extends fuel source target f m max_batches :
  extends (replay_dirty_shard_keys identity_of control_alias now_at fault_at env fuel source target f m max_batches).
Proof. unfold replay_dirty_shard_keys. extend. Qed.
#[local] Hint Resolve replay_extends : extends.

Lemma prepare_extends fuel source target current m o :
  extends (prepare_online_shard_move identity_of control_alias now_at fault_at env fuel source target current m o token).
Proof.
  unfold prepare_online_shard_move, databases_share_identity, follow_changed_route, start_copying, copy_online, start_draining,
    ensure_move_target_reset, claimed_phase, backfill_shard_move. extend.
  apply operation_extends. intros ? ? ? ? Hf. apply bind_Ok in Hf as (? & _ & Hf). by apply bind_Ok in Hf as (? & _ & [= <- _]).
Qed.
#[local] Hint Resolve prepare_extends : extends.

Lemma commit_extends control source a t m current moving :
  extends (commit_source identity_of control_alias now_at fault_at env control shard source a t m current moving).
Proof.
  apply operation_extends. intros now w w' r H. apply bind_Ok in H as (p & _ & H). apply bind_Ok in H as (ad & _ & H).
  destruct control; [|injection H as <- _; apply history_put_place]. apply bind_Ok in H as (? & _ & H).
  apply bind_Ok in H as (? & _ & [= <- _]). apply history_put_place.
Qed.
#[local] Hint Resolve commit_extends : extends.

Lemma verify_extends source target :
  extends (verify_move_tables identity_of control_alias now_at fault_at env source target shard).
Proof. unfold verify_move_tables, verify_table. extend. Qed.
#[local] Hint Resolve verify_extends : extends.

Lemma cut_over_extends fuel control source target a t m pr :
  extends (cut_over identity_of control_alias now_at fault_at env fuel control shard source target a t m token pr).
Proof. unfold cut_over, freeze_route, claimed_phase. extend. Qed.
#[local] Hint Resolve cut_over_extends : extends.

Lemma finish_extends target a t m moving active :
  extends (finish_move identity_of control_alias now_at fault_at env shard target a t m token moving active).
Proof.
  unfold finish_move. extend. apply operation_extends. intros ? ? ? ? Hf. by apply bind_Ok in Hf as (? & _ & [= <- _]).
Qed.
#[local] Hint Resolve finish_extends : extends.

Lemma online_extends fuel source target t current options new_id :
  extends (move_online identity_of control_alias now_at fault_at env fuel shard source target t current options token new_id).
Proof.
  unfold move_online, drain_pending. apply bind_extends.
  { apply operation_extends. intros now w w' b H. by apply bind_Ok in H as (? & _ & [= <- _]). }
  intros [m o]. apply bind_extends; [apply recover_extends; extend|]. extend.
Qed.

Lemma retry_extends source target t current m o options :
  extends (retry_completed_move identity_of control_alias now_at fault_at env shard source target t current m o options).
Proof. unfold retry_completed_move, databases_share_identity, execution_database, execution_pool. extend. Qed.
#[local] Hint Resolve online_extends retry_extends : extends.

Lemma move_extends fuel run_id run_shard t options new_id :
  shard = (run_id, run_shard) ->
  extends (move_shard_placement identity_of control_alias now_at fault_at env fuel run_id run_shard t options token new_id).
Proof.
  intros Hs. unfold move_shard_placement. rewrite <- Hs. cbv zeta. unfold execution_target_database, execution_database, execution_pool. extend.
Qed.

(** ** A move that succeeds *)

(** A recorded moment at which the shard is routed to [t] and open to dispatch. *)
Definition observed (t : string) (h : list (View * View)) : Prop := exists v v' r,
  (v, v') ∈ h /\ vw_placements v' !! shard = Some r /\ pm_database_alias r = t /\ pm_status r = "active".

Lemma observed_suffix t h h' : h `suffix_of` h' -> observed t h -> observed t h'.
Proof. intros [l ->] (v & v' & r & Hin & H). exists v, v', r. split; [|done]. apply elem_of_app. by right. Qed.

Lemma delivered_observed a t h : delivered a t h -> observed t h.
Proof. intros (v & v' & r & r' & Hin & _ & _ & _ & H). by exists v, v', r'. Qed.

Lemma select_observes t w w' current :
  select_shard_placement now_at fault_at env shard w = Some (w', Ok current) ->
  str_eqb (sp_database_alias current) t && str_eqb (sp_status current) "active" = true -> observed t (mw_history w').
Proof.
  intros (now & w1 & w2 & H & Hh)%operation_effect [Ha%str_eqb_true Hs%str_eqb_true]%andb_true_iff.
  apply bind_Ok in H as (pl & H & [= <- <-]). apply bind_Ok in H as (r & Hr%ok_or_Ok & [= <-]).
  exists (view w1), (view w1), r. rewrite Hh. split; [by apply elem_of_cons; left|done].
Qed.

Lemma cut_over_observes fuel control source target a t m pr w w' n placement reports :
  cut_over identity_of control_alias now_at fault_at env fuel control shard source target a t m token pr w
    = Some (w', Ok (AlreadyMoved n placement reports)) -> observed t (mw_history w').
Proof.
  unfold cut_over. intros (w1 & current & Hsel & H)%pbind_Ok. destruct (str_eqb _ _ && str_eqb _ _) eqn:Eh.
  - apply (observed_suffix t (mw_history w1)); [|by eapply select_observes]. revert H. apply bind_extends; [extend|]. extend.
  - do 4 (apply pbind_Ok in H as (? & ? & _ & H)). destruct (0 <? _); [by apply pret_Ok in H as [_ H]|].
    do 6 (apply pbind_Ok in H as (? & ? & _ & H)). by apply pret_Ok in H as [_ H].
Qed.

Lemma online_observes fuel source target t current options new_id w w' out :
  move_online identity_of control_alias now_at fault_at env fuel shard source target t current options token new_id w = Some (w', Ok out) ->
  observed t (mw_history w').
Proof.
  intros H. destruct (so_moved out) eqn:Em.
  - assert (Ht : so_target_database_alias out = t).
    { revert H. unfold move_online. intros (w1 & [m o] & _ & H)%pbind_Ok. do 2 (apply pbind_Ok in H as (? & ? & _ & H)).
      destruct (0 <? _); [by apply pbind_Ok in H as (? & ? & _ & [_ ?]%lift_Ok)|]. apply pbind_Ok in H as (? & b & _ & H).
      destruct b; [by apply pret_Ok in H as [_ ->]|by apply pbind_Ok in H as (? & ? & _ & [_ ?]%lift_Ok)|].
      apply pbind_Ok in H as (? & ? & _ & H). by apply pret_Ok in H as [_ ->]. }
    rewrite <- Ht. by eapply delivered_observed, online_delivers.
  - unfold move_online in H. apply pbind_Ok in H as (w1 & [m o] & _ & H). do 2 (apply pbind_Ok in H as (? & ? & _ & H)).
    destruct (0 <? _); [by apply pbind_Ok in H as (? & ? & _ & [_ ?]%lift_Ok)|]. apply pbind_Ok in H as (w4 & b & Hb & H).
    destruct b as [n placement reports|?|? ? ? ?].
    + apply pret_Ok in H as [-> _]. unfold with_source_tx in Hb. destruct (pbind _ _ _) as [[w6 r]|] eqn:E; [|done].
      injection Hb as <- ->. apply pbind_Ok in E as (w7 & [] & _ & E). cbn. by eapply cut_over_observes.
    + by apply pbind_Ok in H as (? & ? & _ & [_ ?]%lift_Ok).
    + apply pbind_Ok in H as (? & ? & _ & H). by apply pret_Ok in H as [_ ->].
Qed.

Lemma move_observes fuel run_id run_shard t options new_id w w' out :
  shard = (run_id, run_shard) -> op_dry_run options || op_verify_only options = false ->
  move_shard_placement identity_of control_alias now_at fault_at env fuel run_id run_shard t options token new_id w = Some (w', Ok out) ->
  observed t (mw_history w').
Proof.
  intros Hs Ho H. unfold move_shard_placement in H. rewrite <- Hs in H. cbv zeta in H. rewrite Ho in H. cbn [negb andb] in H.
  do 4 (apply pbind_Ok in H as (? & ? & _ & H)). apply pbind_Ok in H as (w1 & current & Hsel & H).
  destruct (str_eqb (sp_database_alias current) t && str_eqb (sp_status current) "active") eqn:Eh.
  - apply (observed_suffix t (mw_history w1)); [|by eapply select_observes]. revert H.
    unfold execution_target_database, execution_database, execution_pool. apply bind_extends; extend.
  - apply pbind_Ok in H as (? & completed & Hc & H). apply pret_Ok in Hc as [-> ->]. do 6 (apply pbind_Ok in H as (? & ? & _ & H)).
    by eapply online_observes.
Qed.
End delivery.
