(* ===== verification/MoveWorker.v ===== *)
(** * Workers during a move

    What a worker writes to the database its shard is routed to, through the
    trigger of change capture, is interference that a move tolerates ([rely]). *)

From Stdlib Require Import ZArith Lia ZifyBool.
From stdpp Require Import base strings numbers countable gmap sorting sets option list.
From S2P Require Import Prelude Prog Text RunTypes ShardTables LocalAdmission ShardRows ControlTables RunPlanning.
From S2P Require Import PlanLedger LocalSeed MoveTables ShardMove MoveInvariant MoveRely.

Open Scope Z_scope.

(** ** Captured writes *)

(** [p'] has other rows of [s]; under a capture every changed key has a newer
    journal entry. *)
Record worker_change (s : shard_key) (p p' : Place) : Prop := {
  wk_other s' k : s' <> s -> row_at (pc_db p') s' k = row_at (pc_db p) s' k;
  wk_admissions : db_admissions (pc_db p') = db_admissions (pc_db p);
  wk_captures : pc_captures p' = pc_captures p;
  wk_rows m k : pc_captures p !! s = Some (m, true) ->
    row_at (pc_db p') s k = row_at (pc_db p) s k /\ pc_journal p' !! (m, k) = pc_journal p !! (m, k)
    \/ exists j, pc_journal p' !! (m, k) = Some j /\ version_of (pc_journal p !! (m, k)) < jr_change_version j;
  wk_journal m k : pc_captures p !! s <> Some (m, true) -> pc_journal p' !! (m, k) = pc_journal p !! (m, k)
}.

#[local] Instance worker_change_preorder s : PreOrder (worker_change s).
Proof.
  split.
  - by intros p; constructor; auto.
  - intros p1 p2 p3 H1 H2. constructor.
    + intros s' k Hs. by rewrite (wk_other _ _ _ H2), (wk_other _ _ _ H1).
    + by rewrite (wk_admissions _ _ _ H2), (wk_admissions _ _ _ H1).
    + by rewrite (wk_captures _ _ _ H2), (wk_captures _ _ _ H1).
    + intros m k Hc. pose proof Hc as Hc2. rewrite <- (wk_captures _ _ _ H1) in Hc2.
      destruct (wk_rows _ _ _ H2 m k Hc2) as [[-> ->]|(j & Hj & Hlt)]; [by apply (wk_rows _ _ _ H1)|right; exists j].
      split; [done|]. destruct (wk_rows _ _ _ H1 m k Hc) as [[_ <-]|(j1 & Hj1 & Hlt1)]; [done|].
      rewrite Hj1 in Hlt. cbn in Hlt. lia.
    + intros m k Hc. rewrite (wk_journal _ _ _ H2), (wk_journal _ _ _ H1); [done|done|]. by rewrite (wk_captures _ _ _ H1).
Qed.

Lemma write_row_worker now s p k r : worker_change s p (write_row now s p k r).
Proof.
  pose proof (write_row_writes now s p k r) as Hw. constructor; [apply Hw..| |].
  - intros m k' Hc. unfold write_row.
    destruct (record_dirty_journal now s (set_db p (put_row (pc_db p) s k r)) k m k') as [He|[-> (j & Hj & Hlt)]]; [|right; by exists j].
    left. split; [|done]. destruct (decide (k' = k)) as [->|Hk]; [exfalso|apply write_row_other; congruence].
    unfold record_dirty in He. cbn in He. rewrite Hc in He. cbn in He. rewrite lookup_insert_eq in He.
    destruct (pc_journal p !! (m, k)) as [[v t]|]; [injection He; lia|done].
  - intros m k' Hc. unfold write_row, record_dirty. cbn. destruct (pc_captures p !! s) as [[m1 []]|]; [|done..].
    cbn. apply lookup_insert_ne. congruence.
Qed.

(** The rows one transaction of a worker writes. *)
Definition worker_write (now : Z) (s : shard_key) (rows : list {k & option (row_type k)}) (p : Place) : Place :=
  fold_left (fun p kr => write_row now s p (projT1 kr) (projT2 kr)) rows p.

Lemma worker_write_change now s rows p : worker_change s p (worker_write now s rows p).
Proof.
  unfold worker_write. revert p. induction rows as [|kr rows IH]; intros p; [reflexivity|]. cbn.
  etrans; [apply write_row_worker|apply IH].
Qed.

(** ** Workers and moves *)

Section worker.
Context {MF : MoveFunctions}.
Variable identity_of : string -> Z.
Variable token : Uuid.
Variable shard : shard_key.
Variable destination : string.
Variables (st : State) (s : shard_key) (r : PlacementRow) (p p' : Place) (a : AdmissionRow).
Let i : Z := identity_of (pm_database_alias r).
Hypothesis unlocked : st_locked st = false.
Hypothesis routed : st_routes st !! s = Some r.
Hypothesis stored : st_places st !! i = Some p.
Hypothesis owned : db_admissions (pc_db p) !! s = Some a.
Hypothesis open : ad_state a <> Closed /\ ad_move_fence a = None.
Hypothesis written : worker_change s p p'.
Let st' : State := with_places st (<[i := p']> (st_places st)).

Lemma worker_admission j s' : admission_in (st_places st') j s' = admission_in (st_places st) j s'.
Proof.
  cbn. rewrite admission_in_insert, (wk_admissions _ _ _ written). case_decide as Hj; [|done]. by rewrite <- Hj, (admission_in_at _ _ p).
Qed.

Lemma worker_capture j s' : capture_in (st_places st') j s' = capture_in (st_places st) j s'.
Proof.
  cbn. rewrite capture_in_insert, (wk_captures _ _ _ written). case_decide as Hj; [|done]. by rewrite <- Hj, (capture_in_at _ _ p).
Qed.

Lemma worker_row j s' k : j <> i \/ s' <> s -> rows_in (st_places st') j s' k = rows_in (st_places st) j s' k.
Proof.
  intros Hne. cbn. rewrite rows_in_insert. case_decide as Hj; [|done]. rewrite <- Hj, (rows_in_at _ _ p) by done.
  apply (wk_other _ _ _ written). naive_solver.
Qed.

(** A key of an open move is as it was, or has a newer journal entry. *)
Lemma worker_key m o k :
  captured identity_of (st_places st) m o ->
  source_row identity_of (st_places st') o k = source_row identity_of (st_places st) o k
    /\ journal_in (st_places st') (src identity_of o) m k = journal_in (st_places st) (src identity_of o) m k
  \/ exists j, journal_in (st_places st') (src identity_of o) m k = Some j
       /\ version_of (journal_in (st_places st) (src identity_of o) m k) < jr_change_version j.
Proof.
  intros Hc. unfold captured, source_row in *. cbn. rewrite rows_in_insert, journal_in_insert. case_decide as Hj; [|by left].
  rewrite <- Hj in *. rewrite (rows_in_at _ _ p), (journal_in_at _ _ p) by done. rewrite (capture_in_at _ _ p) in Hc by done.
  destruct (decide (mo_shard o = s)) as [Hs|Hs]; [rewrite Hs in Hc |- *; by apply (wk_rows _ _ _ written)|].
  rewrite (wk_other _ _ _ written) by done. destruct (decide (pc_captures p !! s = Some (m, true))) as [Hm|Hm].
  - destruct (wk_rows _ _ _ written m k Hm) as [[_ ?]|?]; [by left|by right].
  - left. split; [done|]. by apply (wk_journal _ _ _ written).
Qed.

Lemma worker_journalled m o k :
  captured identity_of (st_places st) m o -> journalled identity_of (st_places st) m o k -> journalled identity_of (st_places st') m o k.
Proof.
  intros Hc [j Hj]. unfold journalled. destruct (worker_key m o k Hc) as [[_ ->]|(j' & -> & _)]; [by exists j|by exists j'].
Qed.

Lemma open_not_closed o epoch : mo_shard o = s -> src identity_of o = i -> ~ source_closed identity_of (st_places st) o epoch.
Proof. intros Hs Hi (a' & Ha & Hc & _). rewrite Hs, Hi, (admission_in_at _ _ p) in Ha by done. rewrite owned in Ha. naive_solver. Qed.

Lemma worker_consistent m o :
  consistent identity_of (st_routes st) (st_progress st) (st_places st) m o ->
  consistent identity_of (st_routes st) (st_progress st) (st_places st') m o.
Proof.
  unfold consistent. destruct (mo_target_reset_at o); [|done]. intros H Hne r1 Hr1 Ha1. destruct (H Hne r1 Hr1 Ha1) as [Hu Hd].
  split; [done|].
  assert (Hsrc : mo_shard o = s -> src identity_of o = i).
  { intros Hs. rewrite Hs, routed in Hr1. injection Hr1 as <-. unfold src, i. by rewrite Ha1. }
  assert (Htgt : forall k, target_row identity_of (st_places st') o k = target_row identity_of (st_places st) o k).
  { intros k. apply worker_row. destruct (decide (mo_shard o = s)) as [Hs|?]; [left|by right]. rewrite <- (Hsrc Hs). done. }
  destruct Hd as [[Hc Hcop]|[Hcl He]].
  - left. split; [unfold captured; by rewrite worker_capture|]. intros k.
    destruct (worker_key m o k Hc) as [[Hs Hj]|(j & Hj & _)]; [|left; by exists j].
    unfold journalled, same_row. rewrite Hs, Hj, Htgt. apply Hcop.
  - right. destruct (decide (mo_shard o = s)) as [Hs|Hs]; [by destruct (open_not_closed o (pm_write_epoch r1 + 1) Hs (Hsrc Hs))|].
    split; [unfold source_closed; by rewrite worker_admission|]. intros k. unfold same_row, source_row.
    rewrite Htgt, worker_row by (by right). apply He.
Qed.

Lemma worker_keeps m o : keeps identity_of token m o st st'.
Proof.
  constructor; [done|done|unfold captured; by rewrite worker_capture|apply worker_key| | | |by rewrite unlocked].
  - intros (a1 & f & Ha & Hf). exists a1, f. by rewrite worker_admission.
  - intros k (a1 & f & Ha & Hf & _). apply worker_row. destruct (decide (mo_shard o = s)) as [Hs|?]; [left|by right].
    intros Hi. rewrite Hs, Hi, (admission_in_at _ _ p) in Ha by done. rewrite owned in Ha. naive_solver.
  - intros r1 Hr1 (Ha1 & _) Hcl. split; [unfold source_closed; by rewrite worker_admission|]. intros k. apply worker_row.
    destruct (decide (mo_shard o = s)) as [Hs|?]; [left|by right]. intros Hi. by apply (open_not_closed o (pm_write_epoch r1 + 1) Hs Hi).
Qed.

(** The writes of a worker on the database of its route are within [rely]. *)
Lemma worker_rely : rely identity_of token shard destination st st'.
Proof.
  constructor.
  - done.
  - intros Hi. constructor; [|apply Hi..]. intros m o Ho Ha. apply worker_consistent, (inv_consistent _ _ _ _ _ Hi m o Ho Ha).
  - intros s' r' Hr'. exists r'. split_and!; [done|lia|by left].
  - intros m o Ho Ha. by exists o.
  - intros j s' (a1 & f & Ha & Hf). exists a1, f. by rewrite <- worker_admission.
  - intros r1 Hr1 Hne. by exists r1.
  - intros j s' a1 Ha1. exists a1. rewrite worker_admission. split; [done|]. by right.
  - intros m o Ho _ _. left. split; [done|]. apply worker_keeps.
Qed.
End worker.

Lemma rely_refl {MF : MoveFunctions} identity_of token shard destination st : rely identity_of token shard destination st st.
Proof.
  constructor; [done|done| | |done| | |].
  - intros s' r' Hr'. exists r'. split_and!; [done|lia|by left].
  - intros m o Ho Ha. by exists o.
  - intros r1 Hr1 Hne. by exists r1.
  - intros j s' a1 Ha1. exists a1. split; [done|]. by right.
  - intros m o Ho _ _. left. split; [done|]. constructor; [done|done|done|by left|done|done|by split|done].
Qed.
