(* ===== verification/MoveRuns.v ===== *)
(** * Runs of a shard move

    A small deployment evaluated: a move with a worker writing during the copy,
    an abort that fails half way and the move that follows it, a mover that
    stalls past its claim, and a move after an aborted one. *)

From Stdlib Require Import ZArith Lia.
From stdpp Require Import base strings pretty numbers countable gmap sorting sets option list.
From S2P Require Import Prelude Prog Text Json RunTypes ShardTables LocalAdmission ShardRows ControlTables RunPlanning.
From S2P Require Import PlanLedger PlanLifecycle LocalSeed MoveTables ShardMove.

Open Scope Z_scope.

Module MoveSample.

#[global] Instance move_functions : MoveFunctions := {|
  key_text := fun k => let '(t, id, b, i) := key_code k in pretty t +:+ "," +:+ pretty id +:+ "," +:+ b +:+ "," +:+ pretty i;
  id_text := pretty;
  text_ltb := String.ltb;
  jsonb_key_leb := fun a b => let '(t, id, _, _) := key_code a in let '(t', id', _, _) := key_code b in
                              (Nat.ltb t t') || (Nat.eqb t t' && (id <=? id'));
  row_octets := fun _ => 10;
  row_text := fun _ => "row";
  row_vec := fun _ => Ok "row";
  move_hash := fun s => s
|}.

Definition identity_of (alias : string) : Z := Z.of_nat (String.length alias).
Definition s : shard_key := (5, 3).
Definition options : ShardMoveOptions := mkShardMoveOptions false false false.

Definition chunk (version : Z) : ChunkRow :=
  mkChunkRow 6 "group" 0 100 ChPending None None None version None 0 version.
Definition snapshot : SnapshotRow := mkSnapshotRow (dr_context LedgerSample.draft) 1.
Definition run_row : RunRow := new_run 0 LedgerSample.draft RunRunning.

Definition admitted (alias : string) (epoch : Z) (state : LocalShardAdmissionState) : AdmissionRow :=
  mkAdmissionRow alias epoch state None None 0.
Definition database (chunks : gmap row_key ChunkRow) (admissions : gmap shard_key AdmissionRow) : Database :=
  mkDatabase ∅ chunks ∅ ∅ ∅ (mkEvidence ∅ ∅) admissions ∅ ∅ ∅ ∅ ∅.
Definition place (runs : gmap Uuid RunRow) (versions : dataset_versions) (db : Database) : Place :=
  mkPlace (mkLocal runs versions db) ∅ ∅.

(** The shard has two chunks on [primary], the control database; [shard_001] is
    empty. *)
Definition start : World :=
  mkWorld (mkControl {[5 := run_row]} ∅ ∅ ∅ {[s := mkPlacementRow "primary" "active" None 1 1]} ∅ ∅ ∅)
    {["primary" := ("control_and_shard", "active"); "shard_001" := ("shard", "active")]}
    ∅ ∅
    {[identity_of "primary" := place {[5 := run_row]} {[6 := (9, "1")]}
        (database {[(s, 1) := chunk 1; (s, 2) := chunk 1]} {[s := admitted "primary" 1 Open]});
      identity_of "shard_001" := place ∅ ∅ (database ∅ ∅)]}
    false 0 [].

Definition ticks (n : nat) : Z := Z.of_nat n * second.
Definition calm (_ : nat) (w : World) : World := w.
Definition no_fault (_ : nat) : Fault := NoFault.

Notation move env faults := (move_shard_placement identity_of "primary" ticks faults env 20 5 3 "shard_001" options).
Notation abort env faults := (abort_shard_move identity_of "primary" ticks faults env 5 3 "primary" "shard_001").

Definition chunk_at (w : World) (alias : string) (id : Uuid) : option ChunkRow :=
  mw_places w !! identity_of alias ≫= fun p => db_chunks (pc_db p) !! (s, id).

Definition after {A} (w : World) (r : option (World * result A)) : World :=
  match r with Some (w', _) => w' | None => w end.

Lemma run_outcome {A} w (r : option (World * result A)) x : snd <$> r = Some x -> r = Some (after w r, x).
Proof. destruct r as [[w' y]|]; cbn; [by intros [= ->]|done]. Qed.

Lemma run_ok {A} w (r : option (World * result A)) (p : A -> bool) :
  match r with Some (_, Ok a) => p a | _ => false end = true -> exists a, r = Some (after w r, Ok a) /\ p a = true.
Proof. destruct r as [[w' [a|]]|]; cbn; [eauto|done..]. Qed.

(** A worker's transaction on [primary] under a route hint: the admission check,
    then its write. *)
Definition worker_write (epoch : Z) (k : RowKey) (r : option (row_type k)) (w : World) : option World :=
  match mw_places w !! identity_of "primary" with
  | Some p =>
      match validate_local_shard_admission (pc_db p) (mkLocalShardRouteHint 5 3 "primary" epoch) Settlement with
      | inr _ => Some (set_places w (<[identity_of "primary" := write_row 0 s p k r]> (mw_places w)))
      | inl _ => None
      end
  | None => None
  end.
Definition worker (epoch : Z) (k : RowKey) (r : option (row_type k)) (w : World) : World :=
  default w (worker_write epoch k r w).

Lemma worker_admitted epoch k r w :
  opt_is_some (worker_write epoch k r w) = true -> worker_write epoch k r w = Some (worker epoch k r w).
Proof. unfold worker. by destruct (worker_write epoch k r w). Qed.

Ltac run := first [apply run_outcome|apply worker_admitted]; vm_compute; reflexivity.

Definition leased (version : Z) : ChunkRow :=
  mkChunkRow 6 "group" 0 100 ChLeased (Some 0) (Some 9) (Some 0) version None 0 version.
Definition busy : World := worker 1 (KChunk 2) (Some (leased 2)) start.

(** The outcome of a move that reports everything verified. *)
Definition verified (o : ShardMoveOutcome) : bool := so_moved o && forallb mr_verified (so_tables o).

(** A calm move of an idle shard. *)
Example sample_move :
  exists w o, move calm no_fault 100 200 start = Some (w, Ok o) /\ verified o = true
    /\ chunk_at w "shard_001" 1 = Some (chunk 1) /\ chunk_at w "shard_001" 2 = Some (chunk 1).
Proof.
  destruct (run_ok start (move calm no_fault 100 200 start) verified) as (o & Ho & Hv); [vm_compute; reflexivity|].
  exists (after start (move calm no_fault 100 200 start)), o. split; [exact Ho|]. split; [exact Hv|].
  split; vm_compute; reflexivity.
Qed.

(** The target is lost when the abort closes it. *)
Definition target_lost (n : nat) : Fault := if Nat.eqb n 87 then FailsBefore "connection refused" else NoFault.

(** An abort that fails half way lets the next move lose rows.  A move waits
    for a leased chunk; the abort reopens the source and drops the change
    capture, then fails to reach the target and leaves the move operation open.
    A worker settles the chunk on the reopened source.  The next move to the same
    target reuses the operation, skips reset and backfill, reports every table
    verified, and routes the shard to a target that still has the old row. *)
Example half_abort_loses_rows :
  exists w1 w2 w3 w4 o,
    move calm no_fault 100 200 busy = Some (w1, Err DRAIN_PENDING)
    /\ abort calm target_lost w1 = Some (w2, Err "connection refused")
    /\ worker_write 2 (KChunk 2) (Some (chunk 3)) w2 = Some w3
    /\ move calm no_fault 101 201 w3 = Some (w4, Ok o)
    /\ verified o = true
    /\ chunk_at w4 "primary" 2 = Some (chunk 3) /\ chunk_at w4 "shard_001" 2 = Some (leased 2).
Proof.
  set (w1 := after busy (move calm no_fault 100 200 busy)). set (w2 := after w1 (abort calm target_lost w1)).
  set (w3 := worker 2 (KChunk 2) (Some (chunk 3)) w2).
  destruct (run_ok w3 (move calm no_fault 101 201 w3) verified) as (o & Ho & Hv); [vm_compute; reflexivity|].
  exists w1, w2, w3, (after w3 (move calm no_fault 101 201 w3)), o. do 3 (split; [run|]).
  split; [exact Ho|]. split; [exact Hv|]. split; vm_compute; reflexivity.
Qed.

(** ** A mover that outlives its claim *)

(** The clock of the second mover, past the first one's claim. *)
Definition late (n : nat) : Z := Z.of_nat n * second + 1000 * second.
Notation move_late env faults := (move_shard_placement identity_of "primary" late faults env 20 5 3 "shard_001" options).

(** The first mover has copied the chunk when a worker leases it (turn 30); it
    replays the change and stalls before settling the journal (turn 52).
    Meanwhile the worker writes again, a second mover takes the expired claim,
    replays, and waits for the lease; the worker settles the chunk. *)
Definition stalled (n : nat) (w : World) : World :=
  if Nat.eqb n 30 then worker 1 (KChunk 2) (Some (leased 2)) w
  else if Nat.eqb n 52 then
    let w := worker 1 (KChunk 2) (Some (leased 3)) w in
    let w := after w (move_late calm no_fault 101 201 w) in
    worker 1 (KChunk 2) (Some (chunk 4)) w
  else w.

(** A mover that lost its claim can still drop a journal entry that is not
    its own.  Its last statement on the source compares the version of the entry
    only, and versions start again at one after an entry is settled; so it
    removes the record of a newer change, fails, and the mover that took over
    completes without that change. *)
Example stale_settlement_loses_row :
  exists w1 w2 o,
    move stalled no_fault 100 200 start = Some (w1, Err "shard move lost its operation claim")
    /\ move_late calm no_fault 102 202 (set_turn w1 2000) = Some (w2, Ok o)
    /\ verified o = true
    /\ chunk_at w2 "primary" 2 = Some (chunk 4) /\ chunk_at w2 "shard_001" 2 = Some (leased 3).
Proof.
  set (w1 := after start (move stalled no_fault 100 200 start)).
  destruct (run_ok w1 (move_late calm no_fault 102 202 (set_turn w1 2000)) verified) as (o & Ho & Hv);
    [vm_compute; reflexivity|].
  exists w1, (after w1 (move_late calm no_fault 102 202 (set_turn w1 2000))), o. split; [run|].
  split; [exact Ho|]. split; [exact Hv|]. split; vm_compute; reflexivity.
Qed.

(** ** A target that cannot be used again *)

Definition copy_lost (n : nat) : Fault := if Nat.eqb n 20 then FailsBefore "connection refused" else NoFault.

(** After a move was aborted while it copied, its target refuses the shard: the
    next move is refused, and so is the one after a second abort.  The abort closes the target one write epoch ahead but leaves the route's
    epoch, so the fence of the next move meets a closed row of its own epoch. *)
Example aborted_copy_blocks_target :
  exists w1 w2 w3 w4 w5 o1 o2,
    move calm copy_lost 100 200 start = Some (w1, Err "connection refused")
    /\ abort calm no_fault w1 = Some (w2, Ok o1) /\ ao_aborted o1 = true
    /\ move calm no_fault 101 201 w2 = Some (w3, Err "local shard admission rejected stale move")
    /\ abort calm no_fault w3 = Some (w4, Ok o2) /\ ao_aborted o2 = true
    /\ move calm no_fault 102 202 w4 = Some (w5, Err "local shard admission rejected stale move").
Proof.
  set (w1 := after start (move calm copy_lost 100 200 start)). set (w2 := after w1 (abort calm no_fault w1)).
  set (w3 := after w2 (move calm no_fault 101 201 w2)). set (w4 := after w3 (abort calm no_fault w3)).
  destruct (run_ok w1 (abort calm no_fault w1) ao_aborted) as (o1 & Ho1 & Ha1); [vm_compute; reflexivity|].
  destruct (run_ok w3 (abort calm no_fault w3) ao_aborted) as (o2 & Ho2 & Ha2); [vm_compute; reflexivity|].
  exists w1, w2, w3, w4, (after w4 (move calm no_fault 102 202 w4)), o1, o2. split; [run|].
  split; [exact Ho1|]. split; [exact Ha1|]. split; [run|]. split; [exact Ho2|]. split; [exact Ha2|]. run.
Qed.
End MoveSample.
