(* ===== verification/MoveHandover.v ===== *)
(** * A shard move hands its shard over exactly

    The claim, the whole of [move_shard_placement] and its theorem: whatever
    faults and interference within [rely] a move meets, the invariant holds at
    the end and every step that routed a shard to another database did so over a
    closed source and an equal copy. *)

From Stdlib Require Import ZArith Lia ZifyBool Ascii.
From stdpp Require Import base strings pretty numbers countable gmap sorting sets option list.
From S2P Require Import Prelude Prog Text RunTypes ShardTables LocalAdmission ShardRows ControlTables RunPlanning.
From S2P Require Import PlanLedger LocalSeed MoveTables ShardMove MoveInvariant MovePages MoveRely MoveExact MovePrepare.
From S2P Require Import MoveCutover MoveDelivery MoveWorker MoveRuns.

Open Scope Z_scope.

(** The active operation of a shard. *)
Lemma active_operation_Some s t m o :
  active_operation s t = Some (m, o) -> t !! m = Some o /\ mo_shard o = s /\ is_active o = true.
Proof.
  unfold active_operation. intros H%head_Some_elem_of%elem_of_map_to_list%map_lookup_filter_Some.
  destruct H as [H [Hs Ha]%andb_true_iff]. cbn in *. split_and!; [done|by apply bool_decide_eq_true in Hs|done].
Qed.

Lemma active_operation_None s t m o :
  active_operation s t = None -> t !! m = Some o -> mo_shard o = s -> is_active o = false.
Proof.
  unfold active_operation. intros H%head_None%map_to_list_empty_iff Ho <-. apply not_true_iff_false. intros Ha.
  assert (Hm : rows_where (fun _ o' => for_shard (mo_shard o) o' && is_active o') t !! m = Some o).
  { apply map_lookup_filter_Some. cbn. unfold for_shard. by rewrite bool_decide_true. }
  by rewrite H in Hm.
Qed.

Section handover.
Context {MF : MoveFunctions} {LF : LedgerFunctions}.
Variable identity_of : string -> Z.
Context {ML : MoveLaws MF identity_of}.
Variable control_alias : string.
Variable token : Uuid.
Variable shard : shard_key.
Variable destination : string.
Variable now_at : nat -> Z.
Variable fault_at : nat -> Fault.
Variable env : nat -> World -> World.
Hypothesis env_rely :
  forall n w, rely identity_of token shard destination (state w) (state (env n w)) /\ mw_history (env n w) = mw_history w.

Notation src := (src identity_of).
Notation tgt := (tgt identity_of).
Notation inv := (inv identity_of).
Notation rely := (rely identity_of token shard destination).
Notation keeps := (keeps identity_of token).
Notation fenced := (fenced token).
Notation stable := (stable identity_of token shard destination).
Notation triple := (triple identity_of).
Notation source_row := (source_row identity_of).
Notation target_row := (target_row identity_of).
Notation same_row := (same_row identity_of).
Notation journalled := (journalled identity_of).
Notation captured := (captured identity_of).
Notation copied := (copied identity_of).
Notation consistent := (consistent identity_of).
Notation source_closed := (source_closed identity_of).
Notation core_eq := (core_eq identity_of).
Notation triple_operation := (triple_operation identity_of token shard destination now_at fault_at env env_rely).
Notation triple_query := (triple_query identity_of token shard destination now_at fault_at env env_rely).
Notation triple_place_update := (triple_place_update identity_of control_alias token shard destination now_at fault_at env env_rely).
Notation triple_place_query := (triple_place_query identity_of control_alias token shard destination now_at fault_at env env_rely).
Notation triple_operation_result := (triple_operation_result identity_of token shard destination now_at fault_at env env_rely).
Notation triple_route_update := (triple_route_update identity_of token shard destination now_at fault_at env env_rely).
Notation triple_admission := (triple_admission identity_of control_alias token shard destination now_at fault_at env env_rely).

(** ** Claims *)

Lemma release_keeps m : triple (fun _ => True) (release_claim now_at fault_at env m token) (fun _ _ => True).
Proof.
  apply (triple_operation_update identity_of token shard destination now_at fault_at env env_rely); [done|].
  intros now st t [] Hi _ [= <-]. split; [|done]. unfold release_shard_move_claim, update_operation.
  destruct (st_operations st !! m) as [o|] eqn:Ho; [destruct (bool_decide _)|]; [|by destruct st..].
  apply (Inv_operation identity_of _ _ _ _ m o); [done..|]. intros Ha.
  by apply (consistent_same identity_of _ _ _ _ o); [apply (inv_consistent _ _ _ _ _ Hi)|..].
Qed.

(** A new operation has nothing to keep. *)
Lemma Inv_claim st m o :
  inv st -> st_operations st !! m = None -> mo_target_reset_at o = None -> copied_phase o = false ->
  mo_source_database_alias o <> mo_target_database_alias o ->
  (forall m1 o1, st_operations st !! m1 = Some o1 -> mo_shard o1 = mo_shard o -> is_active o1 = false) ->
  inv (with_operations st (<[m := o]> (st_operations st))).
Proof.
  intros Hi Hm Hre Hph Hne Hno. constructor.
  - intros m1 o1. cbn. destruct (decide (m = m1)) as [<-|Hd]; [rewrite lookup_insert_eq; intros [= <-] _|rewrite lookup_insert_ne by done].
    + unfold MoveInvariant.consistent. rewrite Hre. split; [done|]. intros table.
      destruct (st_progress st !! (m, table)) eqn:E; [|done]. destruct (inv_progress _ _ _ _ _ Hi m table) as [? ?]; [by eexists|congruence].
    + apply (inv_consistent _ _ _ _ _ Hi).
  - intros m1 o1 m2 o2. cbn. destruct (decide (m = m1)) as [<-|H1], (decide (m = m2)) as [<-|H2];
      rewrite ?lookup_insert_eq, ?lookup_insert_ne by done; [done|..].
    + intros [= <-] Ho2 _ Ha2 Hs. by rewrite (Hno m2 o2) in Ha2.
    + intros Ho1 [= <-] Ha1 _ Hs. by rewrite (Hno m1 o1) in Ha1.
    + apply (inv_unique _ _ _ _ _ Hi).
  - intros m1 o1. cbn. destruct (decide (m = m1)) as [<-|Hd]; [rewrite lookup_insert_eq; by intros [= <-]|rewrite lookup_insert_ne by done].
    apply (inv_aliases _ _ _ _ _ Hi).
  - intros m1 table Hp. cbn. destruct (decide (m = m1)) as [<-|Hd]; [rewrite lookup_insert_eq; by eexists|rewrite lookup_insert_ne by done].
    by apply (inv_progress _ _ _ _ _ Hi m1 table).
Qed.

Section claim.
Variables (current : ShardPlacement) (r0 : PlacementRow).
Hypothesis current_row : current = placement_of shard r0.
Hypothesis elsewhere : sp_database_alias current <> destination.

(** The move before its claim. *)
Definition unclaimed (st : State) : Prop :=
  st_locked st = false /\ (exists r, st_routes st !! shard = Some r /\ pm_database_alias r <> destination)
  /\ since shard r0 st /\ seen shard (sp_write_epoch current) st.

Lemma unclaimed_stable : stable unclaimed.
Proof.
  intros st st' Hi Hi' Hr (H1 & (r & H2 & H3) & H4 & H5). split_and!.
  - by rewrite (rl_locked _ _ _ _ _ _ Hr).
  - by apply (rl_away _ _ _ _ _ _ Hr r).
  - by apply (since_stable identity_of token shard destination shard r0 st st').
  - by apply (seen_stable identity_of token shard destination shard _ st st').
Qed.

Definition claim_of (o : MoveOperation) : Prop :=
  mo_shard o = shard /\ mo_target_database_alias o = destination /\ mo_source_database_alias o = sp_database_alias current.

Lemma claim_claims new_id :
  triple unclaimed
    (operation now_at fault_at env (fun now w =>
       st ← claim_shard_move_operation now (mw_databases w) current destination token new_id (mw_operations w);
       Ok (set_operations w st.1, st.2)))
    (fun mo st => (held token mo.1 mo.2 false None (sp_write_epoch current) (known mo.2) st
                   /\ since shard r0 st /\ seen shard (sp_write_epoch current) st) /\ claim_of mo.2).
Proof.
  apply triple_operation; [apply unclaimed_stable|]. intros now w w' a Hi (Hl & (r & Hr & Hne) & Hsi & Hse) H.
  apply bind_Ok in H as ([t mo] & H & [= <- <-]). unfold claim_shard_move_operation in H.
  apply bind_Ok in H as (? & _ & H). apply bind_Ok in H as ([m o] & Hmo & H). apply bind_Ok in H as (? & _ & [= <- <-]).
  cbn [fst snd]. set (o1 := set_claim o _ _).
  assert (Hkey : (sp_run_id current, sp_run_shard current) = shard) by (rewrite current_row; by destruct shard).
  assert (Hcl : claim_of o1 /\ is_active o1 = true /\ inv (with_operations (state w) (<[m := o1]> (mw_operations w)))).
  { rewrite Hkey in Hmo. destruct (active_operation shard (mw_operations w)) as [[m1 o2]|] eqn:Eact.
    - apply bind_Ok in Hmo as (? & [Hs Ht]%ensure_Ok%andb_true_iff & [= -> ->]).
      apply str_eqb_true in Hs. apply str_eqb_true in Ht. apply active_operation_Some in Eact as (Ho & Hsh & Ha).
      split_and!; [done..|]. apply (Inv_operation identity_of _ _ _ _ m o); [done..|]. intros _.
      by apply (consistent_same identity_of _ _ _ _ o); [apply (inv_consistent _ _ _ _ _ Hi)|..].
    - apply bind_Ok in Hmo as (? & [[Hn _]%andb_true_iff _]%ensure_Ok%andb_true_iff & [= <- <-]).
      split_and!; [by split_and!; [exact Hkey|..]|done|]. apply Inv_claim; [done|by cbn; destruct (mw_operations w !! new_id)|done|done|done|].
      intros m1 o2 Ho Hs. eapply (active_operation_None shard); [done|done|]. by rewrite Hs. }
  destruct Hcl as ((Hsh & Htg & Hsa) & Ha & Hi'). split; [exact Hi'|]. split; [done|]. split; [by apply handover_same|].
  split; [|done]. split; [|done]. exists o1. split_and!; [apply lookup_insert_eq| |done| |done].
  - unfold claimed_by. rewrite Ha. cbn. by rewrite bool_decide_true.
  - split_and!; [done| | |done].
    + exists r. unfold route_of. by rewrite Hsh, Htg.
    + by rewrite Hsh.
Qed.

(** ** The claimed part *)

(** A failed preparation releases the claim. *)
Lemma triple_recover {A} P (Q : A -> State -> Prop) (c : prog A) (rescue : string -> prog A) :
  triple P c Q -> (forall e, triple (fun _ => True) (rescue e) Q) ->
  triple P (fun w => match c w with Some (w', Err e) => rescue e w' | r => r end) Q.
Proof.
  intros Hc Hre w w' r Hg Hp H. destruct (c w) as [[w1 [a|e]]|] eqn:E; [|destruct (Hc w w1 _ Hg Hp E) as [Hg1 _]; by eapply Hre|done].
  injection H as <- <-. by eapply Hc.
Qed.

Lemma drain_pending_releases {A} m (Q : A -> State -> Prop) P :
  triple P (drain_pending now_at fault_at env m token) Q.
Proof.
  unfold drain_pending. eapply triple_bind; [eapply triple_conseq; [apply release_keeps|done|by intros ? ? H; exact H]|].
  intros []. apply triple_err.
Qed.

Hypothesis movable : sp_status current = "active"
  \/ in_progress (sp_status current) = true /\ sp_move_target_database_alias current = Some destination.

Lemma online_moves fuel source target options new_id :
  identity_of source = identity_of (sp_database_alias current) -> identity_of target = identity_of destination ->
  triple unclaimed
    (move_online identity_of control_alias now_at fault_at env fuel shard source target destination current options token new_id)
    (fun _ _ => True).
Proof.
  intros Hs Ht. unfold move_online. eapply triple_bind; [apply claim_claims|]. intros [m o]. cbn [fst snd].
  apply triple_pure. intros (Hsh & Htg & Hsa). set (epoch := sp_write_epoch current).
  assert (Hown : mo_shard o = shard /\ mo_target_database_alias o = destination) by done.
  assert (Hsrc : identity_of source = src o) by (unfold MoveInvariant.src; by rewrite Hsa).
  assert (Htgt : identity_of target = tgt o) by (unfold MoveInvariant.tgt; by rewrite Htg).
  assert (Hdiff : mo_source_database_alias o <> mo_target_database_alias o) by (by rewrite Hsa, Htg).
  eapply (triple_bind _ _ (fun pr st => held token m o false None epoch (prepared identity_of token m o) st
                                         /\ prepared_ok identity_of token m o pr)).
  { apply triple_recover.
    - eapply triple_conseq; [apply (prepare_prepares identity_of control_alias token shard destination now_at fault_at env env_rely m o Hown
                                      false None epoch source target current r0)| |]; try done.
      + by rewrite Hsh.
      + by rewrite Htg.
      + intros st (H1 & H2 & H3). split; [by left|]. split; by rewrite Hsh.
      + intros pr st (o' & H1 & H2 & H3 & H4 & H5 & H6). split; [by exists o'|done].
    - intros e. eapply triple_bind; [apply release_keeps|]. intros []. apply triple_err. }
  intros pr. apply triple_pure. intros [Hal Hfe]. rewrite Hal, <- Hsh, <- Htg.
  set (P := owns identity_of token m o false None epoch (prepared identity_of token m o)).
  eapply (triple_bind _ _ (fun _ => P)).
  { eapply triple_conseq; [apply (triple_place_query P (fun _ => P))| |done]; [|done|by left]. by apply owns_stable, prepared_kept. }
  intros n. destruct (0 <? n); [apply drain_pending_releases|].
  eapply triple_bind; [by apply (cut_over_transaction identity_of control_alias token shard destination now_at fault_at env env_rely m o Hown epoch Hdiff)|].
  intros [n' placement reports|n'|n' moving reports active]; [by apply triple_ret|apply drain_pending_releases|].
  eapply triple_bind; [|intros placement; by apply triple_ret].
  eapply triple_conseq; [by apply (finish_finishes identity_of control_alias token shard destination now_at fault_at env env_rely m o Hown epoch Hdiff)| |by intros ? ? H; exact H].
  intros st. by destruct active.
Qed.
End claim.

(** ** The whole move *)

Lemma pool_identity P serves alias :
  stable P -> triple P (execution_pool now_at fault_at env serves alias) (fun a st => P st /\ identity_of a = identity_of alias).
Proof.
  intros HP. unfold execution_pool.
  eapply (triple_bind _ _ (fun a st => P st /\ identity_of a = identity_of alias)).
  - apply triple_lift. intros st a Hp Ha. split; [done|]. by apply (identity_trimmed (identity_of := identity_of)) in Ha.
  - intros a. apply triple_pure. intros He. apply triple_query; [done|]. intros w b Hi Hp H. apply bind_Ok in H as (? & _ & H).
    apply bind_Ok in H as (? & _ & H). apply bind_Ok in H as (? & _ & [= <-]). done.
Qed.

(** The shard is away from its destination and nobody holds the source lock. *)
Definition outside (st : State) : Prop :=
  st_locked st = false /\ exists r, st_routes st !! shard = Some r /\ pm_database_alias r <> destination.

Lemma outside_stable : stable outside.
Proof.
  intros st st' Hi Hi' Hr (H1 & r & H2 & H3). split; [by rewrite (rl_locked _ _ _ _ _ _ Hr)|by apply (rl_away _ _ _ _ _ _ Hr r)].
Qed.

Lemma stable_query {A} P (f : World -> result A) : stable P -> triple P (query now_at fault_at env f) (fun _ => P).
Proof. intros HP. by apply triple_query. Qed.

Lemma move_keeps fuel run_id run_shard options new_id :
  shard = (run_id, run_shard) ->
  triple outside
    (move_shard_placement identity_of control_alias now_at fault_at env fuel run_id run_shard destination options token new_id)
    (fun _ _ => True).
Proof.
  intros Hshard. unfold move_shard_placement. rewrite <- Hshard.
  do 3 (eapply (triple_bind _ _ (fun _ => outside)); [by apply triple_lift|]; intros []).
  eapply (triple_bind _ _ (fun _ => outside)); [apply stable_query, outside_stable|]. intros [].
  eapply (triple_bind _ _ (fun current st => exists r0, unclaimed current r0 st
            /\ (current = placement_of shard r0 /\ sp_database_alias current <> destination))).
  { apply triple_query; [apply outside_stable|]. intros w a Hi (Hl & r & Hr & Hne) H. apply bind_Ok in H as (r1 & Hr1%ok_or_Ok & [= <-]).
    cbn in Hr. rewrite Hr1 in Hr. injection Hr as ->. exists r. split; [|done]. split_and!; [done|by exists r|by left|by exists r]. }
  intros current. apply triple_exists. intros r0. apply triple_pure. intros [Hrow Hne].
  assert (Hst : stable (unclaimed current r0)) by apply unclaimed_stable.
  assert (Hhere : str_eqb (sp_database_alias current) destination = false).
  { apply not_true_iff_false. by intros ?%str_eqb_true. }
  rewrite Hhere, andb_false_r. cbn [andb].
  eapply (triple_bind _ _ (fun completed st => unclaimed current r0 st /\ completed = None)); [by apply triple_ret|].
  intros completed. apply triple_pure. intros ->. cbn [opt_is_some orb].
  eapply (triple_bind _ _ (fun _ => unclaimed current r0)); [destruct (op_verify_only options); by apply stable_query|]. intros [].
  eapply (triple_bind _ _ (fun _ => unclaimed current r0)); [by apply triple_lift|]. intros [].
  eapply triple_bind; [by apply pool_identity|]. intros source. apply triple_pure. intros Hs.
  eapply (triple_bind _ _ (fun target st => unclaimed current r0 st /\ identity_of target = identity_of destination));
    [destruct (op_verify_only options || false); by apply pool_identity|].
  intros target. apply triple_pure. intros Ht. destruct (op_dry_run options || op_verify_only options).
  - eapply triple_bind; [by apply stable_query|]. intros n. eapply triple_bind; [|intros reports; by apply triple_ret].
    eapply triple_conseq; [by eapply verify_tables|done|by intros ? ? H; exact H].
  - eapply (triple_bind _ _ (fun _ st => unclaimed current r0 st
              /\ str_eqb (sp_status current) "active" || in_progress (sp_status current) = true));
      [by apply triple_lift; intros st [] H ?%ensure_Ok|]. intros []. apply triple_pure. intros H1.
    eapply (triple_bind _ _ (fun _ st => unclaimed current r0 st
              /\ str_eqb (sp_status current) "active"
                 || bool_decide (sp_move_target_database_alias current = Some destination) = true));
      [by apply triple_lift; intros st [] H ?%ensure_Ok|]. intros []. apply triple_pure. intros H2.
    apply online_moves; [done..| |done|done]. apply orb_true_iff in H1 as [H1|H1]; [left; by apply str_eqb_true|].
    apply orb_true_iff in H2 as [H2|H2]; [left; by apply str_eqb_true|right]. by apply bool_decide_eq_true in H2.
Qed.

End handover.

(** C5: a shard move hands its shard over exactly.  From databases that satisfy
    the move invariant, with the shard routed elsewhere, [move_shard_placement]
    under any faults and under interference within [rely] keeps the invariant.
    Every effect it records that routes a shard to another database does so with
    the source closed under the new write epoch and the target holding the source's
    rows of the shard, row by row.  A move that reports the shard as moved recorded
    such an effect for it. *)
Theorem move_hands_over {MF : MoveFunctions} {LF : LedgerFunctions} (identity_of : string -> Z)
    {ML : MoveLaws MF identity_of} (control_alias : string) (token new_id : Uuid) (now_at : nat -> Z)
    (fault_at : nat -> Fault) (env : nat -> World -> World) (fuel : nat) (run_id run_shard : Z) (target : string)
    (options : ShardMoveOptions) (r0 : PlacementRow) (w w' : World) (outcome : result ShardMoveOutcome) :
  (forall n w, rely identity_of token (run_id, run_shard) target (state w) (state (env n w))
               /\ mw_history (env n w) = mw_history w) ->
  inv identity_of (state w) -> mw_history w = [] -> mw_locked w = false ->
  mw_placements w !! (run_id, run_shard) = Some r0 -> pm_database_alias r0 <> target ->
  move_shard_placement identity_of control_alias now_at fault_at env fuel run_id run_shard target options token new_id w
    = Some (w', outcome) ->
  inv identity_of (state w')
  /\ Forall (fun e => handover identity_of e.1 e.2) (mw_history w')
  /\ forall out, outcome = Ok out -> so_moved out = true ->
       delivered (run_id, run_shard) (so_source_database_alias out) (so_target_database_alias out) (mw_history w').
Proof.
  intros Henv Hi Hh Hl Hr Hne H.
  destruct (move_keeps identity_of control_alias token (run_id, run_shard) target now_at fault_at env Henv fuel run_id run_shard
              options new_id eq_refl w w' outcome) as [[Hi' Hho] _]; [by split; [|rewrite Hh]|by split; [|exists r0]|done|].
  split_and!; [done|done|]. intros out ->. eapply move_delivers; [|done|done]. intros n w1. apply Henv.
Qed.

(** ** A move with a worker *)

Module HandoverSample.

(** Texts in an order of their own; keys by their code. *)
Definition functions : MoveFunctions := {|
  key_text := fun k => pretty (encode k);
  id_text := pretty;
  text_ltb := fun a b => Pos.ltb (encode a) (encode b);
  jsonb_key_leb := fun a b => Pos.leb (encode a) (encode b);
  row_octets := fun _ => 10;
  row_text := fun _ => "row";
  row_vec := fun _ => Ok "row";
  move_hash := fun s => s
|}.

(** [shard_001] has an s, [primary] has none. *)
Definition marked (l : list ascii) : bool := existsb (fun a => code a =? 115) l.
Definition identity_of (alias : string) : Z := if marked (String.list_ascii_of_string alias) then 9 else 7.

Lemma ws1_marked a : ws1 a = true -> (a =? 115) = false.
Proof. unfold ws1, between. lia. Qed.
Lemma ws2_marked a b : ws2 a b = true -> (a =? 115) = false /\ (b =? 115) = false.
Proof. unfold ws2. lia. Qed.
Lemma ws3_marked a b c : ws3 a b c = true -> (a =? 115) = false /\ (b =? 115) = false /\ (c =? 115) = false.
Proof. unfold ws3, between. lia. Qed.

Lemma trim_start_marked l : marked (trim_start l) = marked l.
Proof.
  induction l as [l IH] using (induction_ltof1 _ length). unfold ltof in IH. destruct l as [|a l1]; [done|]. cbn [trim_start marked existsb].
  destruct (ws1 (code a)) eqn:E1; [by rewrite (ws1_marked _ E1); apply IH; cbn; lia|].
  destruct l1 as [|b l2]; [done|]. destruct (ws2 (code a) (code b)) eqn:E2.
  { destruct (ws2_marked _ _ E2) as [-> Hb]. cbn [existsb orb]. rewrite Hb. apply IH. cbn; lia. }
  destruct l2 as [|c l3]; [done|]. destruct (ws3 (code a) (code b) (code c)) eqn:E3; [|done].
  destruct (ws3_marked _ _ _ E3) as (-> & Hb & Hc). cbn [existsb orb]. rewrite Hb, Hc. apply IH. cbn; lia.
Qed.

Lemma whitespace_marked l : all_whitespace (map code l) = true -> marked l = false.
Proof.
  induction l as [l IH] using (induction_ltof1 _ length). unfold ltof in IH. destruct l as [|a l1]; [done|].
  cbn [map all_whitespace marked existsb].
  destruct (ws1 (code a)) eqn:E1; [rewrite (ws1_marked _ E1); apply IH; cbn; lia|].
  destruct l1 as [|b l2]; [done|]. cbn [map]. destruct (ws2 (code a) (code b)) eqn:E2.
  { destruct (ws2_marked _ _ E2) as [-> Hb]. cbn [existsb orb]. rewrite Hb. apply IH. cbn; lia. }
  destruct l2 as [|c l3]; [done|]. cbn [map]. destruct (ws3 (code a) (code b) (code c)) eqn:E3; [|done].
  destruct (ws3_marked _ _ _ E3) as (-> & Hb & Hc). cbn [existsb orb]. rewrite Hb, Hc. apply IH. cbn; lia.
Qed.

Lemma trim_end_marked l : marked (trim_end l) = marked l.
Proof.
  induction l as [|a l IH]; [done|]. cbn [trim_end]. destruct (all_whitespace (map code (a :: l))) eqn:E.
  - symmetry. by apply whitespace_marked.
  - cbn [marked existsb]. by f_equal.
Qed.

#[local] Instance laws : MoveLaws functions identity_of.
Proof.
  constructor; cbn.
  - intros a. lia.
  - intros a b c. lia.
  - intros a b H1 H2. apply (inj encode). lia.
  - intros k k' _ H. by apply (inj pretty), (inj encode) in H.
  - intros alias alias' H. unfold normalize_alias in H. apply bind_Ok in H as (? & _ & [= <-]). unfold identity_of.
    by rewrite String.list_ascii_of_string_of_list_ascii, trim_end_marked, trim_start_marked.
Qed.

(** At turn 30, while rows are copied, a worker rewrites a chunk on the database
    its shard is routed to. *)
Definition worker (n : nat) (w : World) : World :=
  if Nat.eqb n 30 && negb (mw_locked w) then
    match mw_placements w !! MoveSample.s with
    | Some r =>
        match mw_places w !! identity_of (pm_database_alias r) with
        | Some p =>
            match db_admissions (pc_db p) !! MoveSample.s with
            | Some a =>
                if bool_decide (ad_state a = Open) && opt_is_none (ad_move_fence a) then
                  set_places w (<[identity_of (pm_database_alias r) :=
                    worker_write 0 MoveSample.s [existT (KChunk 2) (Some (MoveSample.chunk 2))] p]> (mw_places w))
                else w
            | None => w
            end
        | None => w
        end
    | None => w
    end
  else w.

Lemma worker_within n w :
  rely (MF := functions) identity_of 100 (5, 3) "shard_001" (state w) (state (worker n w)) /\ mw_history (worker n w) = mw_history w.
Proof.
  unfold worker. destruct (Nat.eqb n 30 && negb (mw_locked w)) eqn:E; [|by split; [apply rely_refl|]].
  destruct (mw_placements w !! MoveSample.s) as [r|] eqn:Er; [|by split; [apply rely_refl|]].
  destruct (mw_places w !! identity_of (pm_database_alias r)) as [p|] eqn:Ep; [|by split; [apply rely_refl|]].
  destruct (db_admissions (pc_db p) !! MoveSample.s) as [a|] eqn:Ea; [|by split; [apply rely_refl|]].
  destruct (bool_decide (ad_state a = Open) && opt_is_none (ad_move_fence a)) eqn:Eo; [|by split; [apply rely_refl|]].
  split; [|done]. apply andb_true_iff in E as [_ Hl], Eo as [Hst%bool_decide_eq_true Hf].
  apply (worker_rely identity_of 100 (5, 3) "shard_001" (state w) MoveSample.s r p _ a); [|done..| |apply worker_write_change].
  - cbn. by destruct (mw_locked w).
  - split; [by rewrite Hst|by destruct (ad_move_fence a)].
Qed.

Notation move := (move_shard_placement (MF := functions) identity_of "primary" MoveSample.ticks MoveSample.no_fault worker 20 5 3 "shard_001"
  MoveSample.options 100 200 MoveSample.start).

(** The move of the sample shard while the worker writes: it reports the shard as
    moved, the worker's chunk is on the target, and the theorem applies. *)
Lemma move_hands_over_witness : exists w' out,
  move = Some (w', Ok out) /\ so_moved out = true
  /\ MoveSample.chunk_at w' "shard_001" 2 = Some (MoveSample.chunk 2)
  /\ inv (MF := functions) identity_of (state w')
  /\ Forall (fun e => handover identity_of e.1 e.2) (mw_history w')
  /\ delivered (5, 3) (so_source_database_alias out) (so_target_database_alias out) (mw_history w').
Proof.
  destruct (MoveSample.run_ok MoveSample.start move so_moved) as (out & Ho & Hm); [vm_compute; reflexivity|].
  exists (MoveSample.after MoveSample.start move), out. split; [exact Ho|]. split; [exact Hm|]. split; [vm_compute; reflexivity|].
  destruct (move_hands_over (MF := functions) identity_of "primary" 100 200 MoveSample.ticks MoveSample.no_fault worker 20 5 3 "shard_001"
              MoveSample.options (mkPlacementRow "primary" "active" None 1 1) MoveSample.start
              (MoveSample.after MoveSample.start move) (Ok out)) as (Hi & Hh & Hd).
  - exact worker_within.
  - constructor; cbn; intros *; rewrite ?lookup_empty; intros H; first [discriminate H|destruct H; discriminate].
  - reflexivity.
  - reflexivity.
  - vm_compute. reflexivity.
  - vm_compute. discriminate.
  - exact Ho.
  - split; [exact Hi|]. split; [exact Hh|]. apply Hd; [reflexivity|exact Hm].
Defined.
End HandoverSample.
