(* ===== verification/Rebalance.v ===== *)
(** * Rebalance plans

    The planning of a rebalance and its ledger
    (src/vigilo/src/db/workflows/shard_admin.rs and queries/rebalance.rs, the
    tables of migrations 0034 and 0035): which shards a plan moves, and how its
    items are claimed, settled, deferred and cancelled by concurrent apply
    workers.  [gen_random_uuid()], the clock and the rows another transaction
    holds ([SKIP LOCKED]) are arguments of the statements. *)

From Stdlib Require Import ZArith Lia ZifyBool.
From stdpp Require Import base strings numbers countable gmap sorting sets option list.
From S2P Require Import Prelude BTree Text RunTypes ShardTables LocalAdmission ControlTables PlanLedger MoveTables ShardMove.

Open Scope Z_scope.

(** ** Planning *)

Record ShardRebalanceCandidate := mkShardRebalanceCandidate {
  cn_run_id : Uuid;
  cn_run_shard : Z;
  cn_source_database_alias : string;
  cn_route_version : Z
}.

Record PlannedShardRebalanceItem := mkPlannedShardRebalanceItem {
  pi_run_id : Uuid;
  pi_run_shard : Z;
  pi_source_database_alias : string;
  pi_target_database_alias : string;
  pi_planned_route_version : Z
}.

Record ShardRebalancePlanOptions := mkShardRebalancePlanOptions {
  po_source_database_alias : option string;
  po_target_database_alias : string;
  po_max_items : Z;
  po_dry_run : bool
}.

(** A route that a plan may move. *)
Definition movable_route (dbs : databases) (runs : gmap Uuid RunRow) (s : shard_key) (r : PlacementRow) : bool :=
  str_eqb (pm_status r) "active"
  && is_some_and (fun p => can_serve_owned_shards p && is_shard_capable p) (dbs !! pm_database_alias r)
  && is_none_or (fun run => negb (bool_decide (rw_status run = RunCreating))) (runs !! s.1).

(** The routes a plan may move.  The statement's order is a collation; the plan
    sorts again. *)
Definition list_active_rebalance_candidates (dbs : databases) (runs : gmap Uuid RunRow) (t : gmap shard_key PlacementRow)
    : list ShardRebalanceCandidate :=
  omap (fun sr =>
    let '(s, r) := sr : shard_key * PlacementRow in
    if movable_route dbs runs s r
    then Some (mkShardRebalanceCandidate s.1 s.2 (pm_database_alias r) (pm_route_version r)) else None) (map_to_list t).

Definition active_shard_capable_database_aliases (dbs : databases) : list string :=
  omap (fun ap => if accepts_new_shards ap.2 && is_shard_capable ap.2 then Some ap.1 else None) (map_to_list dbs).

(** [counts.get_mut(alias)]: an alias that is not counted is skipped. *)
Definition count_candidate (counts : btree string Z) (c : ShardRebalanceCandidate) : btree string Z :=
  match bt_get (cn_source_database_alias c) counts with
  | Some n => bt_insert (cn_source_database_alias c) (n + 1) counts
  | None => counts
  end.

Definition rebalance_counts (candidates : list ShardRebalanceCandidate) (aliases : list string) : btree string Z :=
  fold_left count_candidate candidates (bt_collect (map (fun alias => (alias, 0)) aliases)).

Definition by_source (a b : ShardRebalanceCandidate) : Prop :=
  match String.compare (cn_source_database_alias a) (cn_source_database_alias b) with
  | Lt => True
  | Gt => False
  | Eq => cn_run_id a < cn_run_id b \/ cn_run_id a = cn_run_id b /\ cn_run_shard a <= cn_run_shard b
  end.
#[global] Instance by_source_dec : RelDecision by_source.
Proof. intros a b. unfold by_source. destruct (String.compare _ _); apply _. Defined.

(** [usize::div_ceil]. *)
Definition div_ceil (a b : Z) : Z := (a + b - 1) / b.

Definition select_rebalance_candidates (candidates : list ShardRebalanceCandidate) (active_shard_aliases : list string)
    (source_database_alias : option string) (target_database_alias : string) (max_items : Z)
    : list ShardRebalanceCandidate :=
  if max_items =? 0 then []
  else
    let counts := rebalance_counts candidates active_shard_aliases in
    let candidates := merge_sort by_source
      (List.filter (fun c => negb (str_eqb (cn_source_database_alias c) target_database_alias)) candidates) in
    match source_database_alias with
    | Some source_alias =>
        take (Z.to_nat max_items) (List.filter (fun c => str_eqb (cn_source_database_alias c) source_alias) candidates)
    | None =>
        let alias_count := zlen active_shard_aliases in
        if alias_count <? 2 then []
        else
          let target_count := default 0 (bt_get target_database_alias counts) in
          let total := fold_left Z.add (bt_values counts) 0 in
          let desired_per_alias := div_ceil total alias_count in
          let needed := Z.max 0 (desired_per_alias - target_count) in
          if needed =? 0 then []
          else take (Z.to_nat (Z.min max_items needed))
                 (List.filter (fun c => is_some_and (fun n => desired_per_alias <? n)
                                          (bt_get (cn_source_database_alias c) counts)) candidates)
    end.

(** ** The ledger *)

Record ShardRebalanceOperation := mkShardRebalanceOperation {
  ro_strategy : string;
  ro_source_database_alias : option string;
  ro_target_database_alias : string;
  ro_status : string;
  ro_planned_item_count : Z;
  ro_completed_item_count : Z;
  ro_failed_item_count : Z;
  ro_cancelled_item_count : Z;
  ro_error_message : option string;
  ro_started_at : option Z;
  ro_completed_at : option Z;
  ro_cancelled_at : option Z
}.

(** The three claim columns are null together (chk_shard_rebalance_items_claim). *)
Record RebalanceClaim := mkRebalanceClaim { cl_token : Uuid; cl_by : Uuid; cl_until : Z }.

Record ShardRebalanceItem := mkShardRebalanceItem {
  ri_sequence_no : Z;
  ri_source_database_alias : string;
  ri_target_database_alias : string;
  ri_planned_route_version : Z;
  ri_status : string;
  ri_error_message : option string;
  ri_claim : option RebalanceClaim;
  ri_started_at : option Z;
  ri_completed_at : option Z
}.

(** [shard_rebalance_operations] by id, [shard_rebalance_items] by operation and
    shard. *)
Record Ledger := mkLedger {
  lg_operations : gmap Uuid ShardRebalanceOperation;
  lg_items : gmap (Uuid * shard_key) ShardRebalanceItem
}.

Definition set_status (o : ShardRebalanceOperation) (status : string) (started completed cancelled : option Z)
    : ShardRebalanceOperation :=
  mkShardRebalanceOperation (ro_strategy o) (ro_source_database_alias o) (ro_target_database_alias o) status
    (ro_planned_item_count o) (ro_completed_item_count o) (ro_failed_item_count o) (ro_cancelled_item_count o)
    (ro_error_message o) started completed cancelled.

Definition set_item (i : ShardRebalanceItem) (status : string) (error : option string) (claim : option RebalanceClaim)
    (started completed : option Z) : ShardRebalanceItem :=
  mkShardRebalanceItem (ri_sequence_no i) (ri_source_database_alias i) (ri_target_database_alias i)
    (ri_planned_route_version i) status error claim started completed.

Definition insert_item (dbs : databases) (id : Uuid) (t : gmap (Uuid * shard_key) ShardRebalanceItem)
    (ni : Z * PlannedShardRebalanceItem) : result (gmap (Uuid * shard_key) ShardRebalanceItem) :=
  let '(n, i) := ni in
  let key := (id, (pi_run_id i, pi_run_shard i)) in
  _ ← ensure (in_range 0 127 (pi_run_shard i) && (0 <? pi_planned_route_version i)
              && opt_is_some (dbs !! pi_source_database_alias i) && opt_is_some (dbs !! pi_target_database_alias i)
              && opt_is_none (t !! key)) "constraint violation on shard_rebalance_items";
  Ok (<[key := mkShardRebalanceItem n (pi_source_database_alias i) (pi_target_database_alias i) (pi_planned_route_version i)
                 "pending" None None None None]> t).

Definition insert_rebalance_operation (dbs : databases) (id : Uuid) (strategy : string) (source : option string)
    (target : string) (items : list PlannedShardRebalanceItem) (l : Ledger) : result (Ledger * ShardRebalanceOperation) :=
  _ ← ensure (opt_is_none (lg_operations l !! id) && opt_is_some (dbs !! target)
              && is_none_or (fun a => opt_is_some (dbs !! a)) source
              && (str_eqb strategy "drain-source" || str_eqb strategy "fill-target"))
        "constraint violation on shard_rebalance_operations";
  let o := mkShardRebalanceOperation strategy source target "planned" (zlen items) 0 0 0 None None None None in
  rows ← foldM (insert_item dbs id) (lg_items l) (imap (fun n i => (Z.of_nat n, i)) items);
  Ok (mkLedger (<[id := o]> (lg_operations l)) rows, o).

(** A pending item, or a running one whose claim ran out. *)
Definition claimable (now : Z) (i : ShardRebalanceItem) : bool :=
  str_eqb (ri_status i) "pending"
  || str_eqb (ri_status i) "running" && is_some_and (fun c => cl_until c <=? now) (ri_claim i).

Definition by_sequence (a b : (Uuid * shard_key) * ShardRebalanceItem) : Prop := ri_sequence_no a.2 <= ri_sequence_no b.2.
#[global] Instance by_sequence_dec : RelDecision by_sequence.
Proof. intros a b. unfold by_sequence. apply _. Defined.

Definition open_operation (o : ShardRebalanceOperation) : bool := str_eqb (ro_status o) "planned" || str_eqb (ro_status o) "running".

(** The claimed item with its key and whether it was running. *)
Definition claim_next_rebalance_apply_item (now : Z) (locked : shard_key -> bool) (id claimed_by token : Uuid)
    (lease_seconds : Z) (l : Ledger) : Ledger * option (shard_key * ShardRebalanceItem * bool) :=
  match lg_operations l !! id with
  | Some o =>
      if open_operation o then
        let ops := <[id := set_status o "running" (Some (default now (ro_started_at o))) (ro_completed_at o) (ro_cancelled_at o)]>
                     (lg_operations l) in
        match head (merge_sort by_sequence (map_to_list (rows_where (fun k i =>
                bool_decide (k.1 = id) && claimable now i && negb (locked k.2)) (lg_items l)))) with
        | Some (k, i) =>
            let i' := set_item i "running" None (Some (mkRebalanceClaim token claimed_by (now + lease_seconds * second)))
                        (Some (default now (ri_started_at i))) None in
            (mkLedger ops (<[k := i']> (lg_items l)), Some (k.2, i', str_eqb (ri_status i) "running"))
        | None => (mkLedger ops (lg_items l), None)
        end
      else (l, None)
  | None => (l, None)
  end.

(** Settlement writes present the token of the claim. *)
Definition settle_item (k : Uuid * shard_key) (token : Uuid) (f : ShardRebalanceItem -> ShardRebalanceItem) (l : Ledger)
    : Ledger * option ShardRebalanceItem :=
  match lg_items l !! k with
  | Some i =>
      if str_eqb (ri_status i) "running" && is_some_and (fun c => cl_token c =? token) (ri_claim i)
      then (mkLedger (lg_operations l) (<[k := f i]> (lg_items l)), Some (f i))
      else (l, None)
  | None => (l, None)
  end.

Definition defer_rebalance_item (k : Uuid * shard_key) (token : Uuid) (reason : string) : Ledger -> Ledger * option ShardRebalanceItem :=
  settle_item k token (fun i => set_item i "pending" (Some reason) None (ri_started_at i) None).

Definition mark_rebalance_item_status (now : Z) (k : Uuid * shard_key) (token : Uuid) (status : string) (error : option string)
    : Ledger -> Ledger * option ShardRebalanceItem :=
  settle_item k token (fun i => set_item i status error None (ri_started_at i) (Some now)).

Definition cancel_rebalance_operation (now : Z) (id : Uuid) (l : Ledger) : Ledger :=
  mkLedger
    (match lg_operations l !! id with
     | Some o => <[id := set_status o "cancelled" (ro_started_at o) (ro_completed_at o) (Some (default now (ro_cancelled_at o)))]>
                   (lg_operations l)
     | None => lg_operations l
     end)
    (update_where (fun k i => bool_decide (k.1 = id) && claimable now i)
       (fun _ i => set_item i "cancelled" None None (ri_started_at i) (Some now)) (lg_items l)).

Definition count_items (id : Uuid) (status : string) (l : Ledger) : Z :=
  count_where (fun k i => bool_decide (k.1 = id) && str_eqb (ri_status i) status) (lg_items l).

Definition is_settled_operation (status : string) : bool :=
  str_eqb status "cancelled" || str_eqb status "completed" || str_eqb status "failed".

(** The status that follows from the items.  Items only move towards a settled
    status while the refresh holds the operation's row, so it is one step. *)
Definition refreshed_status (current : string) (pending running failed : Z) : string :=
  if is_settled_operation current then current
  else if (pending =? 0) && (running =? 0) && (failed =? 0) then "completed"
  else if (pending =? 0) && (running =? 0) && (0 <? failed) then "failed"
  else "running".

Definition refresh_rebalance_operation_status (now : Z) (id : Uuid) (l : Ledger) : result (Ledger * ShardRebalanceOperation) :=
  o ← ok_or (lg_operations l !! id) "no rows returned by a query that expected to return at least one row";
  let failed := count_items id "failed" l in
  let status := refreshed_status (ro_status o) (count_items id "pending" l) (count_items id "running" l) failed in
  let o' := mkShardRebalanceOperation (ro_strategy o) (ro_source_database_alias o) (ro_target_database_alias o) status
              (ro_planned_item_count o) (count_items id "completed" l) failed (count_items id "cancelled" l)
              (if str_eqb status "failed" then Some "one or more rebalance items failed" else None) (ro_started_at o)
              (if str_eqb status "completed" || str_eqb status "failed" then Some (default now (ro_completed_at o))
               else ro_completed_at o) (ro_cancelled_at o) in
  Ok (mkLedger (<[id := o']> (lg_operations l)) (lg_items l), o').

(** [cancel_shard_rebalance]: its transaction, then the refresh. *)
Definition cancel_shard_rebalance_tx (now : Z) (id : Uuid) (l : Ledger) : result (Ledger * option ShardRebalanceOperation) :=
  o ← ok_or (lg_operations l !! id) "shard rebalance operation was not found";
  if str_eqb (ro_status o) "completed" || str_eqb (ro_status o) "failed" then Ok (l, Some o)
  else Ok (cancel_rebalance_operation now id l, None).

(** ** What a plan moves *)

Lemma selected_candidates candidates aliases source target max_items c :
  c ∈ select_rebalance_candidates candidates aliases source target max_items ->
  c ∈ candidates /\ cn_source_database_alias c <> target
  /\ (forall a, source = Some a -> cn_source_database_alias c = a).
Proof.
  unfold select_rebalance_candidates. destruct (max_items =? 0); [by intros ?%elem_of_nil|]. cbv zeta.
  set (sorted := merge_sort by_source _).
  assert (Hs : c ∈ sorted -> c ∈ candidates /\ cn_source_database_alias c <> target).
  { unfold sorted. rewrite merge_sort_Permutation. intros [Hc Hn]%elem_of_lfilter. split; [done|]. intros He.
    rewrite He, (proj2 (str_eqb_true target target)) in Hn; done. }
  destruct source as [a|].
  - intros Hc%elem_of_take. destruct Hc as (n & Hc%list_elem_of_lookup_2 & _). apply elem_of_lfilter in Hc as [Hc Ha%str_eqb_true].
    destruct (Hs Hc). split_and!; [done..|]. by intros ? [= <-].
  - destruct (_ <? 2); [by intros ?%elem_of_nil|]. destruct (_ =? 0); [by intros ?%elem_of_nil|].
    intros Hc%elem_of_take. destruct Hc as (n & Hc%list_elem_of_lookup_2 & _). apply elem_of_lfilter in Hc as [Hc _].
    destruct (Hs Hc). by split_and!.
Qed.

Definition desired_share (candidates : list ShardRebalanceCandidate) (aliases : list string) : Z :=
  div_ceil (fold_left Z.add (bt_values (rebalance_counts candidates aliases)) 0) (zlen aliases).

Lemma zlen_take {A} (l : list A) n : 0 <= n -> zlen (take (Z.to_nat n) l) = Z.min n (zlen l).
Proof. intros Hn. unfold zlen. rewrite length_take. lia. Qed.

(** Filling never takes the target past its share. *)
Lemma fill_within_share candidates aliases target max_items :
  0 <= max_items ->
  let plan := select_rebalance_candidates candidates aliases None target max_items in
  plan <> [] -> default 0 (bt_get target (rebalance_counts candidates aliases)) + zlen plan <= desired_share candidates aliases.
Proof.
  intros Hm. unfold select_rebalance_candidates, desired_share. cbv zeta. destruct (max_items =? 0); [done|]. destruct (_ <? 2); [done|].
  set (counts := rebalance_counts candidates aliases). set (desired := div_ceil _ _). destruct (_ =? 0) eqn:E; [done|]. intros _.
  rewrite zlen_take; lia.
Qed.

(** The shard of a candidate. *)
Definition candidate_shard (c : ShardRebalanceCandidate) : shard_key := (cn_run_id c, cn_run_shard c).

Lemma candidate_of dbs runs t c :
  c ∈ list_active_rebalance_candidates dbs runs t <->
  exists r, t !! candidate_shard c = Some r /\ movable_route dbs runs (candidate_shard c) r = true
    /\ pm_database_alias r = cn_source_database_alias c /\ pm_route_version r = cn_route_version c.
Proof.
  unfold list_active_rebalance_candidates. rewrite list_elem_of_omap. split.
  - intros ([s r] & Hs%elem_of_map_to_list & H). destruct (movable_route dbs runs s r) eqn:E; [|done].
    injection H as <-. exists r. destruct s. by split_and!.
  - intros (r & Hr & Hm & Ha & Hv). exists (candidate_shard c, r). split; [by apply elem_of_map_to_list|].
    rewrite Hm, Ha, Hv. by destruct c.
Qed.

Lemma candidates_nodup dbs runs t : NoDup (map candidate_shard (list_active_rebalance_candidates dbs runs t)).
Proof.
  unfold list_active_rebalance_candidates. assert (Hnd : NoDup (map_to_list t).*1) by apply NoDup_fst_map_to_list.
  assert (Hsub : forall l : list (shard_key * PlacementRow), forall x,
            x ∈ map candidate_shard (omap (fun sr => let '(s, r) := sr : shard_key * PlacementRow in
              if movable_route dbs runs s r then Some (mkShardRebalanceCandidate s.1 s.2 (pm_database_alias r) (pm_route_version r)) else None) l) -> x ∈ l.*1).
  { intros l x (c & -> & Hc)%list_elem_of_fmap. apply list_elem_of_omap in Hc as ([s r] & Hin & H). destruct (movable_route _ _ _ _); [|done].
    injection H as <-. apply list_elem_of_fmap. exists (s, r). by destruct s. }
  induction (map_to_list t) as [|[s r] l IH]; [constructor|]. apply NoDup_cons in Hnd as [Hn Hnd]. specialize (IH Hnd). cbn.
  destruct (movable_route dbs runs s r); [|exact IH]. constructor; [|exact IH].
  intros Hin%Hsub. destruct s. by apply Hn.
Qed.

Lemma nodup_sort_take {A B} (f : A -> B) (R : A -> A -> Prop) `{!RelDecision R} (p q : A -> bool) (l : list A) n :
  NoDup (map f l) -> NoDup (map f (take n (List.filter q (merge_sort R (List.filter p l))))).
Proof.
  assert (Hfilter : forall (p : A -> bool) (l : list A), NoDup (map f l) -> NoDup (map f (List.filter p l))).
  { clear. intros p l. induction l as [|a l IH]; [done|]. cbn. intros [Hn Hnd]%NoDup_cons. destruct (p a); [|by apply IH]. cbn.
    constructor; [|by apply IH]. intros (b & Hb & Hin)%list_elem_of_fmap. apply Hn, list_elem_of_fmap. exists b.
    split; [done|]. apply list_elem_of_In in Hin. apply filter_In in Hin as [Hin _]. by apply list_elem_of_In. }
  intros Hnd. rewrite <- firstn_map. eapply sublist_NoDup; [|apply sublist_take]. apply Hfilter.
  eapply NoDup_Permutation_proper; [apply fmap_Permutation, merge_sort_Permutation|]. by apply Hfilter.
Qed.

Lemma selected_nodup candidates aliases source target max_items :
  NoDup (map candidate_shard candidates) ->
  NoDup (map candidate_shard (select_rebalance_candidates candidates aliases source target max_items)).
Proof.
  intros Hnd. unfold select_rebalance_candidates. cbv zeta. destruct (max_items =? 0); [constructor|].
  destruct source; [by apply nodup_sort_take|]. destruct (_ <? 2); [constructor|]. destruct (_ =? 0); [constructor|]. by apply nodup_sort_take.
Qed.

Lemma selected_bounded candidates aliases source target max_items :
  0 <= max_items -> zlen (select_rebalance_candidates candidates aliases source target max_items) <= max_items.
Proof.
  intros Hm. unfold select_rebalance_candidates. cbv zeta. destruct (max_items =? 0); [done|].
  destruct source; [rewrite zlen_take by done; lia|]. destruct (_ <? 2); [done|]. destruct (_ =? 0); [done|]. rewrite zlen_take; lia.
Qed.

(** A drain plan below its bound leaves nothing. *)
Lemma drained_all candidates aliases a target max_items c :
  0 <= max_items -> zlen (select_rebalance_candidates candidates aliases (Some a) target max_items) < max_items ->
  c ∈ candidates -> cn_source_database_alias c = a -> a <> target ->
  c ∈ select_rebalance_candidates candidates aliases (Some a) target max_items.
Proof.
  intros Hm. unfold select_rebalance_candidates. cbv zeta. destruct (max_items =? 0) eqn:E; [unfold zlen; cbn; lia|].
  set (l := List.filter _ _). rewrite zlen_take by done. intros Hlt Hc Ha Hne. rewrite take_ge by (unfold zlen in Hlt; lia).
  apply elem_of_lfilter. split; [|by apply str_eqb_true]. rewrite merge_sort_Permutation. apply elem_of_lfilter. split; [done|].
  destruct (str_eqb _ target) eqn:Et; [|done]. apply str_eqb_true in Et. congruence.
Qed.

(** A route that a plan may take: active, on a registered shard database that
    serves its shards, of a run that is not being created. *)
Record may_move (dbs : databases) (runs : gmap Uuid RunRow) (s : shard_key) (r : PlacementRow) : Prop := {
  mm_active : pm_status r = "active";
  mm_database : exists d, dbs !! pm_database_alias r = Some d /\ can_serve_owned_shards d = true /\ is_shard_capable d = true;
  mm_run : forall run, runs !! s.1 = Some run -> rw_status run <> RunCreating
}.

Lemma movable_route_iff dbs runs s r : movable_route dbs runs s r = true <-> may_move dbs runs s r.
Proof.
  unfold movable_route. rewrite !andb_true_iff, str_eqb_true. split.
  - intros [[Ha Hd] Hr]. constructor; [done| |].
    + destruct (dbs !! _) as [d|]; [|done]. apply andb_true_iff in Hd. eauto.
    + intros run Hrun. rewrite Hrun in Hr. cbn in Hr. by case_bool_decide.
  - intros [Ha (d & Hd & Hs) Hr]. rewrite Hd. split; [split; [done|by apply andb_true_iff]|].
    destruct (runs !! s.1) as [run|]; [|done]. cbn. rewrite bool_decide_false; [done|by apply Hr].
Qed.

(** C22: what a plan moves.  A plan names no shard twice and at most [max_items]
    shards.  Each one may be moved: its route is active and as the plan recorded
    it, its database is registered, serves shards and is not the target, and its
    run is not being created; so a shard that is being copied, drained or moved,
    and one of a run in creation, is never planned.  A plan that drains a database
    names only shards of it, and, unless it reached [max_items], exactly those of
    its shards that may be moved.  A plan that fills the target never takes it past
    its share of the movable shards. *)
Theorem rebalance_plan_sound dbs runs t aliases source target max_items :
  0 <= max_items ->
  let candidates := list_active_rebalance_candidates dbs runs t in
  let plan := select_rebalance_candidates candidates aliases source target max_items in
  NoDup (map candidate_shard plan) /\ zlen plan <= max_items
  /\ (forall c, c ∈ plan -> exists r, t !! candidate_shard c = Some r /\ may_move dbs runs (candidate_shard c) r
        /\ pm_database_alias r = cn_source_database_alias c /\ pm_route_version r = cn_route_version c
        /\ pm_database_alias r <> target)
  /\ (forall a, source = Some a ->
        (forall c, c ∈ plan -> cn_source_database_alias c = a)
        /\ (zlen plan < max_items -> a <> target -> forall s, s ∈ map candidate_shard plan <->
              exists r, t !! s = Some r /\ may_move dbs runs s r /\ pm_database_alias r = a))
  /\ (source = None -> plan <> [] ->
        default 0 (bt_get target (rebalance_counts candidates aliases)) + zlen plan <= desired_share candidates aliases).
Proof.
  intros Hm candidates plan.
  assert (Hplan : forall c, c ∈ plan -> exists r, t !! candidate_shard c = Some r /\ may_move dbs runs (candidate_shard c) r
            /\ pm_database_alias r = cn_source_database_alias c /\ pm_route_version r = cn_route_version c
            /\ pm_database_alias r <> target).
  { intros c (Hc & Hne & _)%selected_candidates. apply candidate_of in Hc as (r & Hr & Hmv%movable_route_iff & Ha & Hv).
    exists r. by rewrite Ha. }
  split_and!; [| |exact Hplan| |].
  - unfold plan. by apply selected_nodup, candidates_nodup.
  - by apply selected_bounded.
  - intros a ->. assert (Hsrc : forall c, c ∈ plan -> cn_source_database_alias c = a)
      by (intros c (_ & _ & H)%selected_candidates; by apply H).
    split; [exact Hsrc|]. intros Hlt Hne s. split.
    + intros (c & -> & Hc)%list_elem_of_fmap. destruct (Hplan c Hc) as (r & Hr & Hmv & Ha & _). exists r.
      by rewrite Ha, Hsrc.
    + intros (r & Hr & Hmv%movable_route_iff & Ha). set (c := mkShardRebalanceCandidate s.1 s.2 a (pm_route_version r)).
      assert (Hs : candidate_shard c = s) by (by destruct s). rewrite <- Hs. apply list_elem_of_fmap_2.
      apply drained_all; [done|done|by apply candidate_of; exists r; rewrite Hs|done|done].
  - intros ->. by apply fill_within_share.
Qed.

(** ** The ledger machine *)

Inductive ledger_step : Ledger * gset Uuid -> Ledger * gset Uuid -> Prop :=
| LPlan dbs id strategy source target items l l' o used :
    insert_rebalance_operation dbs id strategy source target items l = Ok (l', o) -> ledger_step (l, used) (l', used)
| LClaim now locked id claimed_by token lease_seconds l l' item used :
    token ∉ used -> claim_next_rebalance_apply_item now locked id claimed_by token lease_seconds l = (l', item) ->
    ledger_step (l, used) (l', {[token]} ∪ used)
| LDefer k token reason l used : ledger_step (l, used) ((defer_rebalance_item k token reason l).1, used)
| LSettle now k token status error l used :
    status = "completed" \/ status = "failed" ->
    ledger_step (l, used) ((mark_rebalance_item_status now k token status error l).1, used)
| LSkip now k token l o used :
    lg_operations l !! k.1 = Some o -> ro_status o = "cancelled" ->
    ledger_step (l, used) ((mark_rebalance_item_status now k token "cancelled" None l).1, used)
| LCancel now id l l' o used :
    cancel_shard_rebalance_tx now id l = Ok (l', o) -> ledger_step (l, used) (l', used)
| LRefresh now id l l' o used :
    refresh_rebalance_operation_status now id l = Ok (l', o) -> ledger_step (l, used) (l', used).

Definition items_of (id : Uuid) (l : Ledger) : Z := count_where (fun k _ => bool_decide (k.1 = id)) (lg_items l).

Record LedgerInv (l : Ledger) : Prop := {
  li_claim k i : lg_items l !! k = Some i -> (ri_status i = "running" <-> is_Some (ri_claim i));
  li_status k i : lg_items l !! k = Some i -> ri_status i ∈ ["pending"; "running"; "completed"; "failed"; "cancelled"];
  li_operation k i : lg_items l !! k = Some i -> is_Some (lg_operations l !! k.1);
  li_cancelled k i o : lg_items l !! k = Some i -> lg_operations l !! k.1 = Some o -> ri_status i = "cancelled" -> ro_status o = "cancelled";
  li_completed id o : lg_operations l !! id = Some o -> ro_status o = "completed" ->
    ro_completed_item_count o = ro_planned_item_count o /\ forall s i, lg_items l !! (id, s) = Some i -> ri_status i = "completed";
  li_failed id o : lg_operations l !! id = Some o -> ro_status o = "failed" ->
    (exists s i, lg_items l !! (id, s) = Some i /\ ri_status i = "failed")
    /\ forall s i, lg_items l !! (id, s) = Some i -> ri_status i = "completed" \/ ri_status i = "failed";
  li_count id o : lg_operations l !! id = Some o -> items_of id l = ro_planned_item_count o
}.

(** *** The invariant after a statement *)

Definition unsettled (status : string) : Prop := status = "pending" \/ status = "running".

(** The operation of an item that is not settled is not settled either, unless it
    was cancelled. *)
Lemma unsettled_operation l k i o :
  LedgerInv l -> lg_items l !! k = Some i -> unsettled (ri_status i) -> lg_operations l !! k.1 = Some o ->
  ro_status o <> "completed" /\ ro_status o <> "failed".
Proof.
  intros HI Hi Hu Ho. destruct k as [id s]. split; intros Hs.
  - destruct (li_completed _ HI id o Ho Hs) as [_ H]. specialize (H s i Hi). destruct Hu; congruence.
  - destruct (li_failed _ HI id o Ho Hs) as [_ H]. destruct (H s i Hi), Hu; congruence.
Qed.

Lemma items_of_insert l ops k i i' id :
  lg_items l !! k = Some i -> items_of id (mkLedger ops (<[k := i']> (lg_items l))) = items_of id l.
Proof.
  intros Hi. unfold items_of, count_where. f_equal. rewrite <- !size_dom. f_equal. apply set_eq. intros k'.
  rewrite !elem_of_dom. unfold is_Some. setoid_rewrite lookup_rows_where. cbn. destruct (decide (k = k')) as [<-|Hne].
  - rewrite lookup_insert_eq. naive_solver.
  - by rewrite lookup_insert_ne.
Qed.

(** An unsettled item is replaced. *)
Lemma LedgerInv_item l k i i' o :
  LedgerInv l -> lg_items l !! k = Some i -> unsettled (ri_status i) -> lg_operations l !! k.1 = Some o ->
  (ri_status i' = "running" <-> is_Some (ri_claim i')) ->
  ri_status i' ∈ ["pending"; "running"; "completed"; "failed"; "cancelled"] ->
  (ri_status i' = "cancelled" -> ro_status o = "cancelled") ->
  LedgerInv (mkLedger (lg_operations l) (<[k := i']> (lg_items l))).
Proof.
  intros HI Hi Hu Ho Hc Hs Hcan. destruct (unsettled_operation l k i o HI Hi Hu Ho) as [Hnc Hnf].
  assert (Hlk : forall k1 i1, <[k := i']> (lg_items l) !! k1 = Some i1 -> k1 = k /\ i1 = i' \/ lg_items l !! k1 = Some i1 /\ k1 <> k).
  { intros k1 i1. destruct (decide (k = k1)) as [<-|Hne]; [rewrite lookup_insert_eq|rewrite lookup_insert_ne by done]; naive_solver. }
  constructor; cbn.
  - intros k1 i1 [[-> ->]|[H1 _]]%Hlk; [done|by apply (li_claim _ HI k1)].
  - intros k1 i1 [[-> ->]|[H1 _]]%Hlk; [done|by apply (li_status _ HI k1)].
  - intros k1 i1 [[-> ->]|[H1 _]]%Hlk; [by exists o|by apply (li_operation _ HI k1 i1)].
  - intros k1 i1 o1 [[-> ->]|[H1 _]]%Hlk Ho1; [rewrite Ho in Ho1; by injection Ho1 as <-|by apply (li_cancelled _ HI k1 i1)].
  - intros id o1 Ho1 Hst. destruct (li_completed _ HI id o1 Ho1 Hst) as [Hn Hall]. split; [done|].
    intros s i1 [[Hk ->]|[H1 _]]%Hlk; [|by apply (Hall s)]. rewrite <- Hk in Ho. cbn in Ho. congruence.
  - intros id o1 Ho1 Hst. destruct (li_failed _ HI id o1 Ho1 Hst) as [(s & i1 & H1 & H2) Hall].
    assert (Hid : id <> k.1) by (intros ->; congruence). split.
    + exists s, i1. split; [|done]. rewrite lookup_insert_ne; [done|]. intros ->. by apply Hid.
    + intros s1 i2 [[Hk ->]|[H3 _]]%Hlk; [|by apply (Hall s1)]. rewrite <- Hk in Hid. done.
  - intros id o1 Ho1. rewrite (items_of_insert l _ k i i' id Hi). by apply (li_count _ HI).
Qed.

(** An operation is replaced by one that keeps its plan. *)
Lemma LedgerInv_operation l id o o' :
  LedgerInv l -> lg_operations l !! id = Some o -> ro_planned_item_count o' = ro_planned_item_count o ->
  (ro_status o = "cancelled" -> ro_status o' = "cancelled") ->
  (ro_status o' = "completed" -> ro_completed_item_count o' = ro_planned_item_count o
     /\ forall s i, lg_items l !! (id, s) = Some i -> ri_status i = "completed") ->
  (ro_status o' = "failed" -> (exists s i, lg_items l !! (id, s) = Some i /\ ri_status i = "failed")
     /\ forall s i, lg_items l !! (id, s) = Some i -> ri_status i = "completed" \/ ri_status i = "failed") ->
  LedgerInv (mkLedger (<[id := o']> (lg_operations l)) (lg_items l)).
Proof.
  intros HI Ho Hp Hcan Hcom Hfail. constructor; cbn.
  - apply (li_claim _ HI).
  - apply (li_status _ HI).
  - intros k i Hi. destruct (decide (id = k.1)) as [<-|Hne]; [by rewrite lookup_insert_eq; eexists|].
    rewrite lookup_insert_ne by done. by apply (li_operation _ HI k i).
  - intros k i o1 Hi Ho1 Hs. destruct (decide (id = k.1)) as [Hk|Hne].
    + rewrite <- Hk, lookup_insert_eq in Ho1. injection Ho1 as <-. apply Hcan, (li_cancelled _ HI k i); [done|by rewrite <- Hk|done].
    + rewrite lookup_insert_ne in Ho1 by done. by apply (li_cancelled _ HI k i).
  - intros id1 o1. destruct (decide (id = id1)) as [<-|Hne]; [rewrite lookup_insert_eq; intros [= <-] Hs; rewrite Hp; by apply Hcom|].
    rewrite lookup_insert_ne by done. apply (li_completed _ HI).
  - intros id1 o1. destruct (decide (id = id1)) as [<-|Hne]; [rewrite lookup_insert_eq; intros [= <-]; apply Hfail|].
    rewrite lookup_insert_ne by done. apply (li_failed _ HI).
  - intros id1 o1. destruct (decide (id = id1)) as [<-|Hne]; [rewrite lookup_insert_eq; intros [= <-]; rewrite Hp; by apply (li_count _ HI)|].
    rewrite lookup_insert_ne by done. apply (li_count _ HI).
Qed.

Lemma settle_effect k token f l :
  (settle_item k token f l).1 = l
  \/ exists i c, lg_items l !! k = Some i /\ ri_status i = "running" /\ ri_claim i = Some c /\ cl_token c = token
       /\ (settle_item k token f l).1 = mkLedger (lg_operations l) (<[k := f i]> (lg_items l)).
Proof.
  unfold settle_item. destruct (lg_items l !! k) as [i|]; [|by left]. destruct (_ && _) eqn:E; [right|by left].
  apply andb_true_iff in E as [Hs%str_eqb_true Hc]. destruct (ri_claim i) as [c|] eqn:Ec; [|done]. exists i, c. cbn in Hc.
  split_and!; [done..|lia|done].
Qed.

Lemma LedgerInv_settle k token f l :
  LedgerInv l ->
  (forall i, ri_claim (f i) = None /\ ri_status (f i) ∈ ["pending"; "completed"; "failed"; "cancelled"]) ->
  (forall i o, lg_operations l !! k.1 = Some o -> ri_status (f i) = "cancelled" -> ro_status o = "cancelled") ->
  LedgerInv (settle_item k token f l).1.
Proof.
  intros HI Hf Hcan. destruct (settle_effect k token f l) as [->|(i & c & Hi & Hs & _ & _ & ->)]; [done|].
  destruct (li_operation _ HI k i Hi) as [o Ho]. destruct (Hf i) as [Hcl Hst].
  apply (LedgerInv_item l k i _ o); [done|done|by right|done| | |by apply Hcan].
  - rewrite Hcl. split; [|by intros []]. intros He. rewrite He in Hst. set_solver.
  - set_solver.
Qed.

Lemma claimable_unsettled now i : claimable now i = true -> unsettled (ri_status i).
Proof.
  unfold claimable. intros [H%str_eqb_true|[H%str_eqb_true _]%andb_true_iff]%orb_true_iff; [by left|by right].
Qed.

Lemma item_claim_effect now locked id claimed_by token lease l l' item :
  claim_next_rebalance_apply_item now locked id claimed_by token lease l = (l', item) ->
  l' = l \/ exists o, lg_operations l !! id = Some o /\ open_operation o = true
    /\ let ops := <[id := set_status o "running" (Some (default now (ro_started_at o))) (ro_completed_at o) (ro_cancelled_at o)]> (lg_operations l) in
       l' = mkLedger ops (lg_items l)
       \/ exists s i c, lg_items l !! (id, s) = Some i /\ unsettled (ri_status i) /\ cl_token c = token
            /\ l' = mkLedger ops (<[(id, s) := set_item i "running" None (Some c) (Some (default now (ri_started_at i))) None]> (lg_items l)).
Proof.
  unfold claim_next_rebalance_apply_item. destruct (lg_operations l !! id) as [o|] eqn:Ho; [|intros [= <- _]; by left].
  destruct (open_operation o) eqn:Hop; [|intros [= <- _]; by left]. intros H. right. exists o. split_and!; [done..|]. cbv zeta.
  destruct (head _) as [[[id1 s] i]|] eqn:Eh; [|injection H as <- _; by left]. injection H as <- _. right.
  apply head_Some_elem_of in Eh. rewrite merge_sort_Permutation in Eh. apply elem_of_map_to_list, lookup_rows_where in Eh as [Hi Hp].
  apply andb_true_iff in Hp as [Hp _]. apply andb_true_iff in Hp as [Hid%bool_decide_eq_true Hc%claimable_unsettled]. cbn in Hid. subst id1.
  exists s, i, (mkRebalanceClaim token claimed_by (now + lease * second)). by split_and!.
Qed.

Lemma open_status o : open_operation o = true -> ro_status o = "planned" \/ ro_status o = "running".
Proof. unfold open_operation. by intros [H%str_eqb_true|H%str_eqb_true]%orb_true_iff; auto. Qed.

Lemma LedgerInv_claim now locked id claimed_by token lease l l' item :
  LedgerInv l -> claim_next_rebalance_apply_item now locked id claimed_by token lease l = (l', item) -> LedgerInv l'.
Proof.
  intros HI H. apply item_claim_effect in H as [->|(o & Ho & Hop & H)]; [done|]. cbv zeta in H. set (o' := set_status _ _ _ _ _) in H.
  assert (HI1 : LedgerInv (mkLedger (<[id := o']> (lg_operations l)) (lg_items l))).
  { apply (LedgerInv_operation l id o); [done|done|done|by intros Hs; apply open_status in Hop as [?|?]; congruence|done|done]. }
  destruct H as [->|(s & i & c & Hi & Hu & _ & ->)]; [done|].
  apply (LedgerInv_item _ (id, s) i _ o' HI1); [done|done|apply lookup_insert_eq|by split; [eexists|]|set_solver|done].
Qed.

Lemma LedgerInv_cancel now id l l' r :
  LedgerInv l -> cancel_shard_rebalance_tx now id l = Ok (l', r) -> LedgerInv l'.
Proof.
  intros HI H. unfold cancel_shard_rebalance_tx in H. apply bind_Ok in H as (o & Ho%ok_or_Ok & H).
  destruct (_ || _) eqn:Es; [by injection H as <- _|]. injection H as <- _.
  apply orb_false_iff in Es as [Hnc Hnf]. unfold cancel_rebalance_operation. rewrite Ho. set (o' := set_status _ _ _ _ _).
  set (f := fun (_ : Uuid * shard_key) i => set_item i "cancelled" None None (ri_started_at i) (Some now)).
  set (p := fun (k : Uuid * shard_key) i => bool_decide (k.1 = id) && claimable now i).
  assert (Hup : forall k i, update_where p f (lg_items l) !! k = Some i ->
            lg_items l !! k = Some i \/ exists i0, lg_items l !! k = Some i0 /\ k.1 = id /\ i = f k i0).
  { intros k i. rewrite update_where_Some. intros (i0 & Hi0 & ->). unfold p at 1 2.
    destruct (bool_decide (k.1 = id) && claimable now i0) eqn:E; [|by left]. right. exists i0.
    apply andb_true_iff in E as [?%bool_decide_eq_true _]. done. }
  constructor; cbn.
  - intros k i [Hi|(i0 & Hi & _ & ->)]%Hup; [by apply (li_claim _ HI k)|by split; [|intros []]].
  - intros k i [Hi|(i0 & Hi & _ & ->)]%Hup; [by apply (li_status _ HI k)|set_solver].
  - intros k i [Hi|(i0 & Hi & <- & _)]%Hup; [|by rewrite lookup_insert_eq; eexists].
    destruct (decide (id = k.1)) as [<-|Hne]; [by rewrite lookup_insert_eq; eexists|].
    rewrite lookup_insert_ne by done. by apply (li_operation _ HI k i).
  - intros k i o1 Hi Ho1 Hs. destruct (decide (id = k.1)) as [Hk|Hne].
    + rewrite <- Hk, lookup_insert_eq in Ho1. by injection Ho1 as <-.
    + rewrite lookup_insert_ne in Ho1 by done. apply Hup in Hi as [Hi|(i0 & Hi & Hk & _)]; [by apply (li_cancelled _ HI k i)|done].
  - intros id1 o1. destruct (decide (id = id1)) as [<-|Hne]; [rewrite lookup_insert_eq; by intros [= <-]|].
    rewrite lookup_insert_ne by done. intros Ho1 Hs. destruct (li_completed _ HI id1 o1 Ho1 Hs) as [Hn Hall]. split; [done|].
    intros s i [Hi|(i0 & Hi & Hk & _)]%Hup; [by apply (Hall s)|cbn in Hk; congruence].
  - intros id1 o1. destruct (decide (id = id1)) as [<-|Hne]; [rewrite lookup_insert_eq; by intros [= <-]|].
    rewrite lookup_insert_ne by done. intros Ho1 Hs. destruct (li_failed _ HI id1 o1 Ho1 Hs) as [(s & i & Hi & Hst) Hall]. split.
    + exists s, i. split; [|done]. rewrite lookup_update_where, Hi. cbn. unfold p. cbn. by rewrite bool_decide_false.
    + intros s1 i1 [Hi1|(i0 & Hi0 & Hk & _)]%Hup; [by apply (Hall s1)|cbn in Hk; congruence].
  - intros id1 o1 Ho1. assert (Hcount : items_of id1 (mkLedger (<[id := o']> (lg_operations l)) (update_where p f (lg_items l))) = items_of id1 l).
    { unfold items_of, count_where. f_equal. rewrite <- !size_dom. f_equal. apply set_eq. intros k. rewrite !elem_of_dom. unfold is_Some.
      setoid_rewrite lookup_rows_where. cbn. rewrite lookup_update_where. destruct (lg_items l !! k); cbn; naive_solver. }
    rewrite Hcount. destruct (decide (id = id1)) as [<-|Hne].
    + rewrite lookup_insert_eq in Ho1. injection Ho1 as <-. by apply (li_count _ HI id o).
    + rewrite lookup_insert_ne in Ho1 by done. by apply (li_count _ HI).
Qed.

Lemma count_where_none {K} `{Countable K} {R} (p : K -> R -> bool) t k r :
  count_where p t = 0 -> t !! k = Some r -> p k r = false.
Proof.
  intros Hz Hk. apply not_true_iff_false. intros Hp. unfold count_where in Hz.
  assert (He : rows_where p t = ∅) by (apply map_size_empty_iff; lia).
  assert (Hr : rows_where p t !! k = Some r) by (by apply lookup_rows_where). by rewrite He in Hr.
Qed.

Lemma completed_count l id :
  (forall s i, lg_items l !! (id, s) = Some i -> ri_status i = "completed") -> count_items id "completed" l = items_of id l.
Proof.
  intros Hall. unfold count_items, items_of, count_where. do 2 f_equal. apply map_eq. intros [id1 s]. apply option_eq. intros i.
  rewrite !lookup_rows_where. cbn. split; [intros [Hi [H _]%andb_true_iff]; done|]. intros [Hi H]. split; [done|].
  apply bool_decide_eq_true in H as Hid. subst id1. rewrite H. by apply str_eqb_true, (Hall s).
Qed.

Lemma count_none l id status s i : count_items id status l = 0 -> lg_items l !! (id, s) = Some i -> ri_status i <> status.
Proof.
  intros Hz Hi He. pose proof (count_where_none _ _ _ _ Hz Hi) as H. cbn in H. rewrite bool_decide_true in H by done.
  cbn in H. by rewrite (proj2 (str_eqb_true _ _) He) in H.
Qed.

Lemma count_some l id status : 0 < count_items id status l -> exists s i, lg_items l !! (id, s) = Some i /\ ri_status i = status.
Proof.
  intros Hp. unfold count_items, count_where in Hp. destruct (map_choose (rows_where (fun k i => bool_decide (k.1 = id) && str_eqb (ri_status i) status) (lg_items l))) as ([id1 s] & i & Hi).
  { intros He. rewrite He, map_size_empty in Hp. lia. }
  apply lookup_rows_where in Hi as [Hi [Hid%bool_decide_eq_true Hs%str_eqb_true]%andb_true_iff]. cbn in Hid. subst id1. eauto.
Qed.

Lemma LedgerInv_refresh now id l l' r :
  LedgerInv l -> refresh_rebalance_operation_status now id l = Ok (l', r) -> LedgerInv l'.
Proof.
  intros HI H. unfold refresh_rebalance_operation_status in H. apply bind_Ok in H as (o & Ho%ok_or_Ok & H). injection H as <- _.
  set (status := refreshed_status _ _ _ _).
  assert (Hst : is_settled_operation (ro_status o) = true /\ status = ro_status o
    \/ is_settled_operation (ro_status o) = false
       /\ (status = "completed" /\ count_items id "pending" l = 0 /\ count_items id "running" l = 0 /\ count_items id "failed" l = 0
           \/ status = "failed" /\ count_items id "pending" l = 0 /\ count_items id "running" l = 0 /\ 0 < count_items id "failed" l
           \/ status = "running")).
  { unfold status, refreshed_status. destruct (is_settled_operation (ro_status o)); [by left|right; split; [done|]].
    destruct (_ && _ && _) eqn:E1; [left; split; [done|lia]|]. destruct (_ && _ && (0 <? _)) eqn:E2; [right; left; split; [done|lia]|by do 2 right]. }
  assert (Hdone : forall s i, is_settled_operation (ro_status o) = false -> count_items id "pending" l = 0 -> count_items id "running" l = 0 ->
            lg_items l !! (id, s) = Some i -> ri_status i = "completed" \/ ri_status i = "failed").
  { intros s i Hns H1 H2 Hi. pose proof (count_none _ _ _ _ _ H1 Hi). pose proof (count_none _ _ _ _ _ H2 Hi).
    pose proof (li_status _ HI _ _ Hi) as Hin. pose proof (li_cancelled _ HI _ _ o Hi Ho) as Hcan.
    destruct (decide (ri_status i = "cancelled")) as [Hc|Hc]; [rewrite (Hcan Hc) in Hns; done|set_solver]. }
  apply (LedgerInv_operation l id o); [done|done|done|cbn..].
  - intros Hc. destruct Hst as [[_ ->]|[Hns _]]; [done|]. by rewrite Hc in Hns.
  - intros Hc. assert (Hall : forall s i, lg_items l !! (id, s) = Some i -> ri_status i = "completed").
    { intros s i Hi. destruct Hst as [[_ Hs]|[Hns [(_ & H1 & H2 & H3)|[[Hs _]|Hs]]]]; try congruence.
      - rewrite Hs in Hc. by apply (li_completed _ HI id o Ho Hc) in Hi.
      - destruct (Hdone s i Hns H1 H2 Hi) as [?|Hf]; [done|]. by destruct (count_none _ _ _ _ _ H3 Hi). }
    split; [|done]. rewrite completed_count by done. by apply (li_count _ HI).
  - intros Hf. destruct Hst as [[_ Hs]|[Hns [[Hs _]|[(_ & H1 & H2 & H3)|Hs]]]]; try congruence.
    + rewrite Hs in Hf. by apply (li_failed _ HI id o Ho).
    + split; [by apply count_some|]. intros s i Hi. by apply (Hdone s i).
Qed.

Lemma insert_items dbs id items : forall n t t',
  foldM (insert_item dbs id) t (imap (fun k i => (Z.of_nat (n + k), i)) items) = Ok t' ->
  (forall k i, t !! k = Some i -> t' !! k = Some i)
  /\ (forall k i, t' !! k = Some i -> t !! k = Some i \/ k.1 = id /\ ri_status i = "pending" /\ ri_claim i = None)
  /\ forall id1, count_where (fun k _ => bool_decide (k.1 = id1)) t'
       = count_where (fun k _ => bool_decide (k.1 = id1)) t + if decide (id1 = id) then zlen items else 0.
Proof.
  induction items as [|item items IH]; intros n t t' H; cbn in H.
  { injection H as <-. split_and!; [done|by left|]. intros id1. case_decide; unfold zlen; cbn; lia. }
  apply bind_Ok in H as (t1 & H1 & H). unfold insert_item in H1. apply bind_Ok in H1 as (? & Hok%ensure_Ok & H1). injection H1 as <-.
  apply andb_true_iff in Hok as [_ Hfree]. set (key := (id, (pi_run_id item, pi_run_shard item))) in *.
  assert (Hnone : t !! key = None) by (by destruct (t !! key)). set (row := mkShardRebalanceItem _ _ _ _ _ _ _ _ _) in *.
  assert (Himap : imap (fun k i => (Z.of_nat (n + S k), i)) items = imap (fun k i => (Z.of_nat (S n + k), i)) items).
  { apply imap_ext. intros k i _. by rewrite Nat.add_succ_r. }
  change (imap ((fun k i => (Z.of_nat (n + k), i)) ∘ S) items) with (imap (fun k i => (Z.of_nat (n + S k), i)) items) in H.
  rewrite Himap in H. destruct (IH (S n) _ _ H) as (Hk & Hn & Hc). split_and!.
  - intros k i Hi. apply Hk. rewrite lookup_insert_ne; [done|]. congruence.
  - intros k i Hi. apply Hn in Hi as [Hi|?]; [|by right]. destruct (decide (key = k)) as [<-|Hne].
    + rewrite lookup_insert_eq in Hi. injection Hi as <-. by right.
    + rewrite lookup_insert_ne in Hi by done. by left.
  - intros id1. rewrite Hc.
    assert (Hsz : count_where (fun k _ => bool_decide (k.1 = id1)) (<[key := row]> t)
              = count_where (fun k _ => bool_decide (k.1 = id1)) t + if decide (id1 = id) then 1 else 0).
    { unfold count_where, rows_where. case_decide as Hid.
      - rewrite map_filter_insert_True by (cbn; by rewrite Hid, bool_decide_true).
        rewrite map_size_insert_None by (by apply map_lookup_filter_None; left). lia.
      - rewrite map_filter_insert_False by (cbn; by rewrite bool_decide_false by congruence). rewrite delete_id by done. lia. }
    rewrite Hsz. case_decide; unfold zlen; cbn [length]; lia.
Qed.

Lemma LedgerInv_plan dbs id strategy source target items l l' o :
  LedgerInv l -> insert_rebalance_operation dbs id strategy source target items l = Ok (l', o) -> LedgerInv l'.
Proof.
  intros HI H. unfold insert_rebalance_operation in H. apply bind_Ok in H as (? & Hok%ensure_Ok & H).
  apply bind_Ok in H as (rows & Hrows & [= <- <-]). apply andb_true_iff in Hok as [[[Hfree _]%andb_true_iff _]%andb_true_iff _].
  assert (Hnone : lg_operations l !! id = None) by (by destruct (lg_operations l !! id)).
  destruct (insert_items dbs id items 0 _ _ Hrows) as (Hk & Hn & Hc). set (o' := mkShardRebalanceOperation _ _ _ _ _ _ _ _ _ _ _ _) in *.
  assert (Hempty : forall k i, lg_items l !! k = Some i -> k.1 <> id).
  { intros k i Hi He. destruct (li_operation _ HI k i Hi) as [? Ho]. congruence. }
  constructor; cbn.
  - intros k i [Hi|(_ & Hs & Hcl)]%Hn; [by apply (li_claim _ HI k)|]. rewrite Hs, Hcl. by split; [|intros []].
  - intros k i [Hi|(_ & -> & _)]%Hn; [by apply (li_status _ HI k)|set_solver].
  - intros k i [Hi|(<- & _)]%Hn; [|by rewrite lookup_insert_eq; eexists]. rewrite lookup_insert_ne by (by apply not_eq_sym, (Hempty k i)).
    by apply (li_operation _ HI k i).
  - intros k i o1 [Hi|(Hid & Hs & _)]%Hn Ho1; [|congruence]. rewrite lookup_insert_ne in Ho1 by (by apply not_eq_sym, (Hempty k i)).
    by apply (li_cancelled _ HI k i).
  - intros id1 o1. destruct (decide (id = id1)) as [<-|Hne]; [rewrite lookup_insert_eq; by intros [= <-]|].
    rewrite lookup_insert_ne by done. intros Ho1 Hs. destruct (li_completed _ HI id1 o1 Ho1 Hs) as [Hnum Hall]. split; [done|].
    intros s i [Hi|(Hid & _)]%Hn; [by apply (Hall s)|cbn in Hid; congruence].
  - intros id1 o1. destruct (decide (id = id1)) as [<-|Hne]; [rewrite lookup_insert_eq; by intros [= <-]|].
    rewrite lookup_insert_ne by done. intros Ho1 Hs. destruct (li_failed _ HI id1 o1 Ho1 Hs) as [(s & i & Hi & Hst) Hall]. split.
    + exists s, i. split; [by apply Hk|done].
    + intros s1 i1 [Hi1|(Hid & _)]%Hn; [by apply (Hall s1)|cbn in Hid; congruence].
  - intros id1 o1 Ho1. unfold items_of. cbn. rewrite Hc. destruct (decide (id1 = id)) as [->|Hne].
    + rewrite lookup_insert_eq in Ho1. injection Ho1 as <-. rewrite count_where_empty; [done|].
      intros k i Hi. cbn. apply bool_decide_false. by apply (Hempty k i).
    + rewrite lookup_insert_ne in Ho1 by done. rewrite Z.add_0_r. by apply (li_count _ HI).
Qed.

(** ** Theorems of the ledger *)

Lemma LedgerInv_step l used l' used' : ledger_step (l, used) (l', used') -> LedgerInv l -> LedgerInv l'.
Proof.
  intros H HI. inversion H; subst.
  - by eapply LedgerInv_plan.
  - by eapply LedgerInv_claim.
  - apply LedgerInv_settle; [done|by intros i; split; [|set_solver]|done].
  - apply LedgerInv_settle; [done|intros i; split; [done|set_solver]|]. intros i o _ Hc. cbn in Hc. naive_solver.
  - apply LedgerInv_settle; [done|by intros i; split; [|set_solver]|]. intros i o1 Ho1 _. by simplify_eq.
  - by eapply LedgerInv_cancel.
  - by eapply LedgerInv_refresh.
Qed.

Definition issued (st : Ledger * gset Uuid) : Prop :=
  forall k i c, lg_items st.1 !! k = Some i -> ri_claim i = Some c -> cl_token c ∈ st.2.

(** What a statement does to an item that exists. *)
Lemma item_step l used l' used' k i :
  ledger_step (l, used) (l', used') -> lg_items l !! k = Some i ->
  exists i', lg_items l' !! k = Some i'
    /\ (i' = i \/ unsettled (ri_status i) /\ ri_target_database_alias i' = ri_target_database_alias i
              /\ (ri_claim i' = None \/ exists c, ri_claim i' = Some c /\ cl_token c ∉ used)).
Proof.
  intros H Hi.
  assert (Hset : forall l1 token f, (forall i, ri_claim (f i) = None /\ ri_target_database_alias (f i) = ri_target_database_alias i) -> lg_items l1 !! k = Some i -> forall k1,
            exists i', lg_items (settle_item k1 token f l1).1 !! k = Some i'
              /\ (i' = i \/ unsettled (ri_status i) /\ ri_target_database_alias i' = ri_target_database_alias i
              /\ (ri_claim i' = None \/ exists c, ri_claim i' = Some c /\ cl_token c ∉ used))).
  { intros l1 token f Hf Hi1 k1. destruct (settle_effect k1 token f l1) as [->|(i1 & c & Hk1 & Hs & _ & _ & ->)]; [by exists i; split; [|left]|].
    cbn. destruct (decide (k1 = k)) as [->|Hne]; [|rewrite lookup_insert_ne by done; exists i; by split; [|left]].
    rewrite lookup_insert_eq. rewrite Hi1 in Hk1. injection Hk1 as <-. exists (f i). split; [done|right]. split_and!; [by right|apply Hf|left; apply Hf]. }
  inversion H as [? ? ? ? ? ? ? ? ? ? Hp|? ? ? ? token ? ? ? ? ? Hfresh Hc|? ? ? ? ?|? ? ? ? ? ? ? Hst|? ? ? ? ? ? Ho Hs|now id ? ? ? ? Hc|? ? ? ? ? ? Hr]; subst.
  - unfold insert_rebalance_operation in Hp. apply bind_Ok in Hp as (? & _ & Hp). apply bind_Ok in Hp as (rows & Hrows & [= <- <-]).
    apply (insert_items _ _ _ 0) in Hrows as (Hk & _). exists i. split; [by apply Hk|by left].
  - apply item_claim_effect in Hc as [->|(o & Ho & Hop & [->|(s & i1 & c & Hi1 & Hu & Ht & ->)])]; [by exists i; split; [|left]..|].
    cbn. destruct (decide ((id, s) = k)) as [<-|Hne]; [|rewrite lookup_insert_ne by done; exists i; by split; [|left]].
    rewrite lookup_insert_eq. rewrite Hi in Hi1. injection Hi1 as <-. eexists. split; [done|right]. split_and!; [done|done|right]. cbn. exists c. by rewrite Ht.
  - by apply Hset.
  - by apply Hset.
  - by apply Hset.
  - unfold cancel_shard_rebalance_tx in Hc. apply bind_Ok in Hc as (o1 & _ & Hc). destruct (_ || _); injection Hc as <- _; [by exists i; split; [|left]|].
    unfold cancel_rebalance_operation. cbn. rewrite lookup_update_where, Hi. cbn. eexists. split; [done|].
    destruct (_ && _) eqn:E; [right|by left]. apply andb_true_iff in E as [_ Hc%claimable_unsettled]. by split_and!; [| |left].
  - unfold refresh_rebalance_operation_status in Hr. apply bind_Ok in Hr as (? & _ & [= <- _]). exists i. by split; [|left].
Qed.

Lemma issued_step l used l' used' : ledger_step (l, used) (l', used') -> issued (l, used) -> issued (l', used').
Proof.
  intros H Hiss. assert (Hsub : used ⊆ used') by (inversion H; subst; set_solver).
  assert (Hset : forall k1 token f, (forall i, ri_claim (f i) = None) -> issued ((settle_item k1 token f l).1, used)).
  { intros k1 token f Hf k i c. destruct (settle_effect k1 token f l) as [->|(i1 & c1 & Hk1 & Hs & _ & _ & ->)]; [apply Hiss|].
    cbn. destruct (decide (k1 = k)) as [->|Hne]; [rewrite lookup_insert_eq; intros [= <-]; by rewrite Hf|].
    rewrite lookup_insert_ne by done. apply Hiss. }
  inversion H as [? ? ? ? ? ? ? ? ? ? Hp|? ? ? ? token ? ? ? ? ? Hfresh Hc|? ? ? ? ?|? ? ? ? ? ? ? Hst|? ? ? ? ? ? Ho Hs|now id ? ? ? ? Hc|? ? ? ? ? ? Hr]; subst.
  - intros k i c Hi Hcl. unfold insert_rebalance_operation in Hp. apply bind_Ok in Hp as (? & _ & Hp). apply bind_Ok in Hp as (rows & Hrows & [= <- <-]).
    apply (insert_items _ _ _ 0) in Hrows as (_ & Hn & _). apply Hn in Hi as [Hi|(_ & _ & Hno)]; [by apply (Hiss k i)|congruence].
  - apply item_claim_effect in Hc as [->|(o & Ho & Hop & [->|(s & i1 & c1 & Hi1 & Hu & Ht & ->)])]; [intros k i c Hi Hcl; apply Hsub; by apply (Hiss k i)..|].
    intros k i c. cbn. destruct (decide ((id, s) = k)) as [<-|Hne].
    + rewrite lookup_insert_eq. intros [= <-]. cbn. intros [= <-]. set_solver.
    + rewrite lookup_insert_ne by done. intros Hi Hcl. apply Hsub. by apply (Hiss k i).
  - by apply Hset.
  - by apply Hset.
  - by apply Hset.
  - unfold cancel_shard_rebalance_tx in Hc. apply bind_Ok in Hc as (o1 & _ & Hc). destruct (_ || _); injection Hc as <- _; [done|].
    intros k i c. unfold cancel_rebalance_operation. cbn. rewrite update_where_Some. intros (i0 & Hi0 & ->).
    destruct (_ && _); [done|]. by apply (Hiss k i0).
  - unfold refresh_rebalance_operation_status in Hr. by apply bind_Ok in Hr as (? & _ & [= <- _]).
Qed.

(** A settled operation keeps its status. *)
Lemma operation_step l used l' used' id o :
  LedgerInv l -> ledger_step (l, used) (l', used') -> lg_operations l !! id = Some o -> is_settled_operation (ro_status o) = true ->
  exists o', lg_operations l' !! id = Some o' /\ (ro_status o' = ro_status o).
Proof.
  intros HI H Ho Hs.
  assert (Hset : forall k token f, exists o', lg_operations (settle_item k token f l).1 !! id = Some o' /\ ro_status o' = ro_status o).
  { intros k token f. exists o. destruct (settle_effect k token f l) as [->|(? & ? & _ & _ & _ & _ & ->)]; done. }
  inversion H as [? id1 ? ? ? ? ? ? ? ? Hp|? ? id1 ? ? ? ? ? ? ? Hfresh Hc|? ? ? ? ?|? ? ? ? ? ? ? Hst|? ? ? ? ? ? Ho1 Hs1|now id1 ? ? ? ? Hc|? id1 ? ? ? ? Hr]; subst;
    [| |by apply Hset..| |].
  - unfold insert_rebalance_operation in Hp. apply bind_Ok in Hp as (? & Hok%ensure_Ok & Hp). apply bind_Ok in Hp as (rows & _ & [= <- <-]).
    cbn. exists o. rewrite lookup_insert_ne; [done|]. intros ->. by rewrite Ho in Hok.
  - apply item_claim_effect in Hc as [->|(o1 & Ho1 & Hop & Hl)]; [by exists o|].
    assert (id1 <> id) by (intros ->; rewrite Ho in Ho1; injection Ho1 as <-; apply open_status in Hop as [E|E]; rewrite E in Hs; done).
    exists o. split; [|done]. destruct Hl as [->|(s & i & c & _ & _ & _ & ->)]; cbn; by rewrite lookup_insert_ne.
  - unfold cancel_shard_rebalance_tx in Hc. apply bind_Ok in Hc as (o1 & Ho1%ok_or_Ok & Hc). destruct (_ || _) eqn:Ed; injection Hc as <- _; [by exists o|].
    unfold cancel_rebalance_operation. cbn. rewrite Ho1. destruct (decide (id1 = id)) as [->|Hne]; [|exists o; by rewrite lookup_insert_ne].
    rewrite lookup_insert_eq. eexists. split; [done|]. cbn. rewrite Ho in Ho1. injection Ho1 as <-. unfold is_settled_operation in Hs.
    apply orb_false_iff in Ed as [E1 E2]. rewrite E1, E2, !orb_false_r in Hs. by apply str_eqb_true in Hs.
  - unfold refresh_rebalance_operation_status in Hr. apply bind_Ok in Hr as (o1 & Ho1%ok_or_Ok & [= <- _]). cbn.
    destruct (decide (id1 = id)) as [->|Hne]; [|exists o; by rewrite lookup_insert_ne]. rewrite lookup_insert_eq. eexists. split; [done|]. cbn.
    rewrite Ho in Ho1. injection Ho1 as <-. unfold refreshed_status. by rewrite Hs.
Qed.

Definition empty_ledger : Ledger := mkLedger ∅ ∅.

Lemma reachable_inv l used st : rtc ledger_step (l, used) st -> LedgerInv l /\ issued (l, used) -> LedgerInv st.1 /\ issued st.
Proof.
  remember (l, used) as st0 eqn:E. intros H. revert l used E. induction H as [st|st1 [l2 u2] st3 Hs _ IH]; intros l used -> [HI Hiss]; [done|].
  apply (IH l2 u2 eq_refl). split; [by eapply LedgerInv_step|by eapply issued_step].
Qed.

Lemma LedgerInv_rtc st st' : rtc ledger_step st st' -> LedgerInv st.1 -> LedgerInv st'.1.
Proof. induction 1 as [|[l u] [l1 u1] st2 Hs _ IH]; [done|]. intros HI. by eapply IH, LedgerInv_step. Qed.

Lemma empty_inv : LedgerInv empty_ledger /\ issued (empty_ledger, ∅).
Proof.
  split; [|intros k i c Hi; cbn in Hi; by rewrite lookup_empty in Hi]. constructor; cbn; intros *; rewrite ?lookup_empty; done.
Qed.

(** The claim of [k] is not, and will not be, that of [token]. *)
Definition superseded (k : Uuid * shard_key) (token : Uuid) (st : Ledger * gset Uuid) : Prop :=
  token ∈ st.2 /\ exists i, lg_items st.1 !! k = Some i /\ forall c, ri_claim i = Some c -> cl_token c <> token.

Lemma superseded_step k token l used l' used' :
  ledger_step (l, used) (l', used') -> superseded k token (l, used) -> superseded k token (l', used').
Proof.
  intros H [Hu (i & Hi & Hne)]. split; [inversion H; subst; set_solver|].
  destruct (item_step l used l' used' k i H Hi) as (i' & Hi' & [->|(_ & _ & [Hn|(c & Hc & Hnew)])]); [by exists i|exists i'..].
  - split; [done|]. intros c Hc. congruence.
  - split; [done|]. intros c' Hc'. rewrite Hc in Hc'. injection Hc' as <-. cbn in Hu. intros <-. done.
Qed.

Lemma used_grows st st' token : rtc ledger_step st st' -> token ∈ st.2 -> token ∈ st'.2.
Proof. induction 1 as [|st1 st2 st3 Hs _ IH]; [done|]. intros Ht. apply IH. inversion Hs; subst; set_solver. Qed.

(** The target of an item is planned once. *)
Lemma kept_target st st' k i :
  rtc ledger_step st st' -> lg_items st.1 !! k = Some i ->
  exists i', lg_items st'.1 !! k = Some i' /\ ri_target_database_alias i' = ri_target_database_alias i.
Proof.
  intros H. revert i. induction H as [|[l u] [l1 u1] st2 Hs _ IH]; intros i Hi; [by exists i|].
  destruct (item_step _ _ _ _ k i Hs Hi) as (i1 & Hi1 & [->|(_ & Ht & _)]); [by apply IH|].
  destruct (IH i1 Hi1) as (i' & Hi' & Ht'). exists i'. by rewrite Ht'.
Qed.

Lemma later_ledger l used st :
  rtc ledger_step (l, used) st -> LedgerInv l ->
  (forall k i, lg_items l !! k = Some i -> ~ unsettled (ri_status i) -> lg_items st.1 !! k = Some i)
  /\ (forall id o, lg_operations l !! id = Some o -> is_settled_operation (ro_status o) = true ->
       exists o', lg_operations st.1 !! id = Some o' /\ ro_status o' = ro_status o)
  /\ forall k token, superseded k token (l, used) -> superseded k token st.
Proof.
  remember (l, used) as st0 eqn:E. intros H. revert l used E. induction H as [st|st1 [l2 u2] st3 Hs _ IH]; intros l used -> HI.
  { split_and!; [done| |done]. intros id o Ho _. by exists o. }
  destruct (IH l2 u2 eq_refl) as (H1 & H2 & H3); [by eapply LedgerInv_step|]. split_and!.
  - intros k i Hi Hu. apply H1; [|done]. destruct (item_step l used l2 u2 k i Hs Hi) as (i' & Hi' & [->|[? _]]); done.
  - intros id o Ho Hset. destruct (operation_step l used l2 u2 id o HI Hs Ho Hset) as (o1 & Ho1 & He).
    rewrite <- He in Hset |- *. by apply H2.
  - intros k token Hsup. by eapply H3, superseded_step.
Qed.

Lemma superseded_refused k token f l used : superseded k token (l, used) -> settle_item k token f l = (l, None).
Proof.
  intros [_ (i & Hi & Hne)]. unfold settle_item. cbn in Hi. rewrite Hi. destruct (_ && _) eqn:E; [|done].
  apply andb_true_iff in E as [_ E]. destruct (ri_claim i) as [c|]; [|done]. cbn in E. destruct (Hne c eq_refl). lia.
Qed.

(** C21: the ledger of a rebalance is truthful.  Whatever apply workers, deferrals,
    expired claims, cancellations and refreshes interleave, from the empty ledger:
    an operation reported as completed has all its planned items completed, one
    reported as failed has a failed item and nothing left to do; a settled item stays
    as it is, and a settled operation keeps its status (a refresh may still bring
    the counts and times of a cancelled one up to date); and a worker whose claim
    on an item was released or taken over can never settle or defer that item again. *)
Theorem rebalance_ledger_sound l used :
  rtc ledger_step (empty_ledger, ∅) (l, used) ->
  (forall id o, lg_operations l !! id = Some o -> ro_status o = "completed" ->
     ro_completed_item_count o = ro_planned_item_count o /\ items_of id l = ro_planned_item_count o
     /\ forall s i, lg_items l !! (id, s) = Some i -> ri_status i = "completed")
  /\ (forall id o, lg_operations l !! id = Some o -> ro_status o = "failed" ->
     (exists s i, lg_items l !! (id, s) = Some i /\ ri_status i = "failed")
     /\ forall s i, lg_items l !! (id, s) = Some i -> ri_status i = "completed" \/ ri_status i = "failed")
  /\ forall l' used', rtc ledger_step (l, used) (l', used') ->
     (forall k i, lg_items l !! k = Some i -> ~ unsettled (ri_status i) -> lg_items l' !! k = Some i)
     /\ (forall id o, lg_operations l !! id = Some o -> is_settled_operation (ro_status o) = true ->
          exists o', lg_operations l' !! id = Some o' /\ ro_status o' = ro_status o)
     /\ forall k i c, lg_items l !! k = Some i -> ri_claim i = Some c ->
          (forall i' c', lg_items l' !! k = Some i' -> ri_claim i' = Some c' -> cl_token c' <> cl_token c) ->
          forall l'' used'', rtc ledger_step (l', used') (l'', used'') -> forall now status error reason,
          mark_rebalance_item_status now k (cl_token c) status error l'' = (l'', None)
          /\ defer_rebalance_item k (cl_token c) reason l'' = (l'', None).
Proof.
  intros H. destruct (reachable_inv _ _ _ H empty_inv) as [HI Hiss]. cbn in HI. split_and!.
  - intros id o Ho Hs. destruct (li_completed _ HI id o Ho Hs) as [Hn Hall]. split_and!; [done|by apply (li_count _ HI)|done].
  - apply (li_failed _ HI).
  - intros l' used' Hrun. destruct (later_ledger _ _ _ Hrun HI) as (H1 & H2 & H3). split_and!; [done|done|].
    intros k i c Hi Hc Hother l'' used'' Hrest now status error reason.
    assert (Hsup : superseded k (cl_token c) (l', used')).
    { destruct (kept_target _ _ k i Hrun Hi) as (i' & Hi' & _). split; [by eapply used_grows, Hiss|]. exists i'. split; [done|]. intros c1 Hc1. by apply (Hother i' c1). }
    apply (LedgerInv_rtc _ _ Hrun) in HI. apply (later_ledger _ _ _ Hrest HI) in Hsup. by split; eapply superseded_refused.
Qed.

(** ** Samples *)

Module RebalanceSample.

Definition dbs : databases := {["a" := ("shard", "active"); "b" := ("shard", "active"); "t" := ("shard", "active")]}.
Definition planned : list PlannedShardRebalanceItem := [mkPlannedShardRebalanceItem 5 3 "a" "t" 1].

(** One item is claimed by a worker that stalls; a second worker claims it again,
    completes it, and the operation is refreshed. *)
Definition ledger0 : Ledger :=
  match insert_rebalance_operation dbs 1 "fill-target" None "t" planned empty_ledger with Ok (l, _) => l | Err _ => empty_ledger end.
Definition ledger1 : Ledger := (claim_next_rebalance_apply_item 0 (fun _ => false) 1 7 100 60 ledger0).1.
Definition ledger2 : Ledger := (claim_next_rebalance_apply_item (61 * second) (fun _ => false) 1 8 101 60 ledger1).1.
Definition ledger3 : Ledger := (mark_rebalance_item_status (62 * second) (1, (5, 3)) 101 "completed" None ledger2).1.
Definition ledger4 : Ledger :=
  match refresh_rebalance_operation_status (63 * second) 1 ledger3 with Ok (l, _) => l | Err _ => ledger3 end.

Lemma sample_prefix : rtc ledger_step (empty_ledger, ∅) (ledger1, {[100]} ∪ ∅).
Proof.
  eapply rtc_l; [apply (LPlan dbs 1 "fill-target" None "t" planned _ ledger0 (mkShardRebalanceOperation "fill-target" None "t" "planned" 1 0 0 0 None None None None)); vm_compute; reflexivity|].
  apply rtc_once. apply (LClaim 0 (fun _ => false) 1 7 100 60 _ ledger1 (claim_next_rebalance_apply_item 0 (fun _ => false) 1 7 100 60 ledger0).2); [set_solver|vm_compute; reflexivity].
Qed.

Lemma sample_takeover : rtc ledger_step (ledger1, {[100]} ∪ ∅) (ledger2, {[101]} ∪ ({[100]} ∪ ∅)).
Proof.
  apply rtc_once. apply (LClaim (61 * second) (fun _ => false) 1 8 101 60 _ ledger2 (claim_next_rebalance_apply_item (61 * second) (fun _ => false) 1 8 101 60 ledger1).2);
    [set_solver|vm_compute; reflexivity].
Qed.

Lemma sample_suffix : rtc ledger_step (ledger2, {[101]} ∪ ({[100]} ∪ ∅)) (ledger4, {[101]} ∪ ({[100]} ∪ ∅)).
Proof.
  eapply rtc_l; [apply (LSettle (62 * second) (1, (5, 3)) 101 "completed" None); by left|]. fold ledger3.
  apply rtc_once. apply (LRefresh (63 * second) 1 _ ledger4 (mkShardRebalanceOperation "fill-target" None "t" "completed" 1 1 0 0 None (Some 0) (Some (63 * second)) None)).
  vm_compute. reflexivity.
Qed.

(** The stalled worker is refused after the ledger went on. *)
Lemma rebalance_ledger_sound_witness :
  mark_rebalance_item_status (64 * second) (1, (5, 3)) 100 "failed" (Some "late") ledger4 = (ledger4, None)
  /\ (ro_status <$> lg_operations ledger4 !! 1) = Some "completed".
Proof.
  split; [|vm_compute; reflexivity].
  destruct (rebalance_ledger_sound ledger1 ({[100]} ∪ ∅) sample_prefix) as (_ & _ & H).
  destruct (H _ _ sample_takeover) as (_ & _ & Hs).
  refine (proj1 (Hs (1, (5, 3)) (set_item (mkShardRebalanceItem 0 "a" "t" 1 "pending" None None None None) "running" None (Some (mkRebalanceClaim 100 7 (60 * second))) (Some 0) None)
                   (mkRebalanceClaim 100 7 (60 * second)) _ _ _ ledger4 _ sample_suffix (64 * second) "failed" (Some "late") "")).
  - vm_compute. reflexivity.
  - reflexivity.
  - intros i c Hi Hc. vm_compute in Hi. injection Hi as <-. vm_compute in Hc. injection Hc as <-. discriminate.
Defined.

Definition candidate (run_id : Uuid) (alias : string) : ShardRebalanceCandidate := mkShardRebalanceCandidate run_id 0 alias 1.
Definition loaded : list ShardRebalanceCandidate :=
  [candidate 1 "a"; candidate 2 "a"; candidate 3 "a"; candidate 4 "a"; candidate 5 "a";
   candidate 6 "b"; candidate 7 "b"; candidate 8 "b"; candidate 9 "b"; candidate 10 "b"].

(** Three shards on [a], one of which is being drained, and one on [b]. *)
Definition routes : gmap shard_key PlacementRow :=
  {[(1, 0) := mkPlacementRow "a" "active" None 4 1; (1, 1) := mkPlacementRow "a" "active" None 2 1;
    (1, 2) := mkPlacementRow "a" "draining" None 2 1; (2, 0) := mkPlacementRow "b" "active" None 1 1]}.

Lemma rebalance_plan_sound_witness : 0 <= 100
  /\ (forall s, s ∈ map candidate_shard (select_rebalance_candidates (list_active_rebalance_candidates dbs ∅ routes) ["b"; "t"] (Some "a") "t" 100)
       <-> exists r, routes !! s = Some r /\ may_move dbs ∅ s r /\ pm_database_alias r = "a")
  /\ map candidate_shard (select_rebalance_candidates (list_active_rebalance_candidates dbs ∅ routes) ["b"; "t"] (Some "a") "t" 100)
     = [(1, 0); (1, 1)].
Proof.
  split; [lia|]. split; [|vm_compute; reflexivity].
  destruct (rebalance_plan_sound dbs ∅ routes ["b"; "t"] (Some "a") "t" 100) as (_ & _ & _ & H & _); [lia|].
  destruct (H "a" eq_refl) as [_ Hall]. apply Hall; [vm_compute; reflexivity|discriminate].
Defined.

(** Filling a target takes more than the excess of one database and leaves
    another untouched.  With five shards on each of two databases and none on the
    target the share is four; the plan moves four shards of the first database,
    which is left with one, and none of the second, which keeps five. *)
Example fill_target_overdraws_source :
  desired_share loaded ["a"; "b"; "t"] = 4
  /\ select_rebalance_candidates loaded ["a"; "b"; "t"] None "t" 100
     = [candidate 1 "a"; candidate 2 "a"; candidate 3 "a"; candidate 4 "a"].
Proof. split; vm_compute; reflexivity. Qed.
End RebalanceSample.
