(* ===== verification/RebalanceApply.v ===== *)
(** * Planning and applying a rebalance

    [plan_shard_rebalance], [apply_shard_rebalance], [cancel_shard_rebalance]
    and [verify_shard_rebalance] of src/vigilo/src/db/workflows/shard_admin.rs
    as programs over the ledger of [Rebalance] and the world of [ShardMove].
    Each statement on the ledger is one operation: other processes act first
    ([others]), then it takes effect or fails as [ledger_fault] says.  A move
    runs against the world with the interference of [env].

    The claim tokens are drawn by [gen_random_uuid], which gets the tokens
    issued so far; [ad_ledger] carries that set with the tables. *)

From Stdlib Require Import ZArith Lia ZifyBool.
From stdpp Require Import base strings numbers countable gmap sorting sets option list.
From S2P Require Import Prelude Prog BTree Text RunTypes ShardTables LocalAdmission ShardRows ControlTables RunPlanning.
From S2P Require Import PlanLedger LocalSeed MoveTables ShardMove MoveDelivery MoveRuns Rebalance.

Open Scope Z_scope.

Record Admin := mkAdmin {
  ad_world : World;
  ad_ledger : Ledger * gset Uuid;
  ad_turn : nat
}.

Record ShardRebalancePlanOutcome := mkShardRebalancePlanOutcome {
  ru_operation : option ShardRebalanceOperation;
  ru_items : list PlannedShardRebalanceItem;
  ru_dry_run : bool
}.

Record ShardRebalanceApplyOptions := mkShardRebalanceApplyOptions { ao_max_items : Z; ao_lease_seconds : Z; ao_force : bool }.

(** An item with its shard. *)
Record ShardRebalanceApplyOutcome := mkShardRebalanceApplyOutcome {
  ao_operation : ShardRebalanceOperation;
  ao_processed_items : list (shard_key * ShardRebalanceItem)
}.

Record ShardRebalanceVerifyItem := mkShardRebalanceVerifyItem {
  vi_item : shard_key * ShardRebalanceItem;
  vi_verified : bool;
  vi_tables : list ShardMoveTableReport
}.

Definition REBALANCE_STRATEGY_DRAIN_SOURCE : string := "drain-source".
Definition REBALANCE_STRATEGY_FILL_TARGET : string := "fill-target".
Definition STALE_PLAN : string := "planned route is stale".

(** The items of [operation_id] in [status], in order, at most [limit]. *)
Definition list_rebalance_items_by_status (id : Uuid) (status : string) (limit : Z) (l : Ledger)
    : list (shard_key * ShardRebalanceItem) :=
  take (Z.to_nat limit) (map (fun ki => (ki.1.2, ki.2))
    (merge_sort by_sequence (map_to_list (rows_where (fun k i => bool_decide (k.1 = id) && str_eqb (ri_status i) status) (lg_items l))))).

(** The routes from which an item's move may start or go on. *)
Definition resumable_from (item : ShardRebalanceItem) (current : ShardPlacement) (status : string) (steps : Z) : bool :=
  str_eqb (sp_database_alias current) (ri_source_database_alias item) && str_eqb (sp_status current) status
  && bool_decide (sp_move_target_database_alias current = Some (ri_target_database_alias item))
  && bool_decide (i64_checked_add (ri_planned_route_version item) steps = Some (sp_route_version current)).

Definition route_fits_plan (item : ShardRebalanceItem) (current : ShardPlacement) : bool :=
  str_eqb (sp_database_alias current) (ri_source_database_alias item) && str_eqb (sp_status current) "active"
  && (sp_route_version current =? ri_planned_route_version item)
  || resumable_from item current "copying" 1
  || resumable_from item current "draining" 2
  || resumable_from item current "moving" 3.

Definition record_rebalance_item_settlement (s : shard_key) (processed : list (shard_key * ShardRebalanceItem))
    (settled : option ShardRebalanceItem) : list (shard_key * ShardRebalanceItem) :=
  match settled with Some i => processed ++ [(s, i)] | None => processed end.

Section apply.
Context {MF : MoveFunctions} {LF : LedgerFunctions}.
Variable identity_of : string -> Z.
Variable control_alias : string.
Variable now_at : nat -> Z.
Variable fault_at : nat -> Fault.
Variable env : nat -> World -> World.
(** The same of the ledger. *)
Variable ledger_now : nat -> Z.
Variable ledger_fault : nat -> Fault.
Variable others : nat -> Ledger * gset Uuid -> Ledger * gset Uuid.
Variable locked : nat -> shard_key -> bool.
Variable gen_random_uuid : nat -> gset Uuid -> Uuid.
(** [Uuid::now_v7] of this process: a move's claim token and operation id. *)
Variable now_v7 : nat -> Uuid * Uuid.

Notation aprog := (Prog.prog Admin).

Definition on_world {A} (p : ShardMove.prog A) : aprog A := fun a =>
  match p (ad_world a) with
  | Some (w, r) => Some (mkAdmin w (ad_ledger a) (ad_turn a), r)
  | None => None
  end.

(** A statement or transaction of the ledger. *)
Definition on_ledger {A} (f : nat -> World -> Ledger * gset Uuid -> result ((Ledger * gset Uuid) * A)) : aprog A := fun a =>
  let n := ad_turn a in
  let a1 := mkAdmin (ad_world a) (others n (ad_ledger a)) (S n) in
  attempt (ledger_fault n)
    (st ← f n (ad_world a) (ad_ledger a1); Ok (mkAdmin (ad_world a) st.1 (S n), st.2)) a1.

Definition ledger_update {A} (f : Z -> Ledger -> result (Ledger * A)) : aprog A :=
  on_ledger (fun n _ l => st ← f (ledger_now n) l.1; Ok ((st.1, l.2), st.2)).

Definition ledger_query {A} (f : Ledger -> result A) : aprog A :=
  on_ledger (fun _ _ l => a ← f l.1; Ok (l, a)).

Definition select_rebalance_operation (id : Uuid) : aprog ShardRebalanceOperation :=
  ledger_query (fun l => ok_or (lg_operations l !! id) "shard rebalance operation was not found").

(** ** Planning *)

Definition plan_shard_rebalance (id : Uuid) (options : ShardRebalancePlanOptions) : aprog ShardRebalancePlanOutcome :=
  let check f := on_world (database_check now_at fault_at env f) in
  let target := po_target_database_alias options in
  _ ⇐ lift (validate_non_empty target);
  _ ⇐ lift (ensure (negb (po_max_items options =? 0)) "max_items must be greater than zero");
  _ ⇐ check (fun dbs => validate_target_placement dbs target);
  _ ⇐ match po_source_database_alias options with
      | Some source =>
          _ ⇐ check (fun dbs => validate_source_placement dbs source);
          lift (ensure (negb (str_eqb source target)) "source and target database aliases must differ")
      | None => pret tt
      end;
  aliases ⇐ on_world (query now_at fault_at env (fun w => Ok (active_shard_capable_database_aliases (mw_databases w))));
  candidates ⇐ on_world (query now_at fault_at env (fun w =>
                 Ok (list_active_rebalance_candidates (mw_databases w) (cd_runs (mw_control w)) (mw_placements w))));
  let aliases := List.filter (fun a => negb (bool_decide (po_source_database_alias options = Some a))) aliases in
  let items := map (fun c => mkPlannedShardRebalanceItem (cn_run_id c) (cn_run_shard c) (cn_source_database_alias c) target
                               (cn_route_version c))
                 (select_rebalance_candidates candidates aliases (po_source_database_alias options) target (po_max_items options)) in
  if po_dry_run options then pret (mkShardRebalancePlanOutcome None items true)
  else
    let strategy := if opt_is_some (po_source_database_alias options) then REBALANCE_STRATEGY_DRAIN_SOURCE
                    else REBALANCE_STRATEGY_FILL_TARGET in
    operation ⇐ on_ledger (fun _ w l =>
      st ← insert_rebalance_operation (mw_databases w) id strategy (po_source_database_alias options) target items l.1;
      Ok ((st.1, l.2), st.2));
    pret (mkShardRebalancePlanOutcome (Some operation) items false).

(** ** Applying *)

Definition apply_rebalance_item (fuel : nat) (s : shard_key) (item : ShardRebalanceItem) (force : bool) (ids : Uuid * Uuid)
    : aprog unit :=
  current ⇐ on_world (select_shard_placement now_at fault_at env s);
  if str_eqb (sp_database_alias current) (ri_target_database_alias item) && str_eqb (sp_status current) "active" then pret tt
  else
    _ ⇐ lift (ensure (route_fits_plan item current) STALE_PLAN);
    _ ⇐ on_world (move_shard_placement identity_of control_alias now_at fault_at env fuel s.1 s.2
                    (ri_target_database_alias item) (mkShardMoveOptions false false force) ids.1 ids.2);
    pret tt.

Definition claim_next (id claimed_by : Uuid) (lease_seconds : Z) : aprog (option (shard_key * ShardRebalanceItem * bool)) :=
  on_ledger (fun n _ l =>
    let token := gen_random_uuid n l.2 in
    let '(l', claim) := claim_next_rebalance_apply_item (ledger_now n) (locked n) id claimed_by token lease_seconds l.1 in
    Ok ((l', {[token]} ∪ l.2), claim)).

Definition rebalance_operation_is_cancelled (id : Uuid) : aprog bool :=
  ledger_query (fun l => o ← ok_or (lg_operations l !! id) "no rows returned by a query that expected to return at least one row";
                         Ok (str_eqb (ro_status o) "cancelled")).

Definition mark (k : Uuid * shard_key) (token : Uuid) (status : string) (error : option string) : aprog (option ShardRebalanceItem) :=
  ledger_update (fun now l => Ok (mark_rebalance_item_status now k token status error l)).
Definition defer (k : Uuid * shard_key) (token : Uuid) (reason : string) : aprog (option ShardRebalanceItem) :=
  ledger_update (fun _ l => Ok (defer_rebalance_item k token reason l)).

(** How one claimed item ends: its settlement, and whether the loop goes on.  A
    move that waits for changed rows or for active work is deferred. *)
Definition settle_claim (fuel : nat) (id : Uuid) (s : shard_key) (item : ShardRebalanceItem) (token : Uuid) (force : bool)
    : aprog (option ShardRebalanceItem * bool) :=
  cancelled ⇐ rebalance_operation_is_cancelled id;
  if cancelled then settled ⇐ mark (id, s) token "cancelled" None; pret (settled, true)
  else fun a =>
    match apply_rebalance_item fuel s item force (now_v7 (ad_turn a)) a with
    | Some (a', Ok _) => (settled ⇐ mark (id, s) token "completed" None; pret (settled, true)) a'
    | Some (a', Err e) =>
        (if str_eqb e CATCH_UP_PENDING || str_eqb e DRAIN_PENDING
         then settled ⇐ defer (id, s) token e; pret (settled, false)
         else settled ⇐ mark (id, s) token "failed" (Some e); pret (settled, true)) a'
    | None => None
    end.

(** [for _ in 0..options.max_items]. *)
Fixpoint apply_items (fuel n : nat) (id claimed_by : Uuid) (lease_seconds : Z) (force : bool)
    (processed : list (shard_key * ShardRebalanceItem)) : aprog (list (shard_key * ShardRebalanceItem)) :=
  match n with
  | O => pret processed
  | S n' =>
      claim ⇐ claim_next id claimed_by lease_seconds;
      match claim with
      | None => pret processed
      | Some (s, item, _) =>
          token ⇐ lift (ok_or (cl_token <$> ri_claim item) "claimed rebalance item did not return a claim token");
          settled ⇐ settle_claim fuel id s item token force;
          let processed := record_rebalance_item_settlement s processed settled.1 in
          if settled.2 : bool then apply_items fuel n' id claimed_by lease_seconds force processed else pret processed
      end
  end.

Definition apply_shard_rebalance (fuel : nat) (id claimed_by : Uuid) (options : ShardRebalanceApplyOptions)
    : aprog ShardRebalanceApplyOutcome :=
  _ ⇐ lift (ensure (negb (ao_max_items options =? 0)) "max_items must be greater than zero");
  _ ⇐ lift (ensure (0 <? ao_lease_seconds options) "lease_seconds must be greater than zero");
  operation ⇐ select_rebalance_operation id;
  _ ⇐ lift (ensure (negb (is_settled_operation (ro_status operation))) "shard rebalance operation has a terminal status");
  processed ⇐ apply_items fuel (Z.to_nat (ao_max_items options)) id claimed_by (ao_lease_seconds options) (ao_force options) [];
  operation ⇐ ledger_update (fun now l => refresh_rebalance_operation_status now id l);
  pret (mkShardRebalanceApplyOutcome operation processed).

(** ** Verifying and cancelling *)

Definition verify_rebalance_item (verified : list ShardRebalanceVerifyItem) (si : shard_key * ShardRebalanceItem)
    : aprog (list ShardRebalanceVerifyItem) :=
  source ⇐ on_world (execution_database now_at fault_at env (ri_source_database_alias si.2));
  target ⇐ on_world (execution_database now_at fault_at env (ri_target_database_alias si.2));
  reports ⇐ on_world (verify_move_tables identity_of control_alias now_at fault_at env source target si.1);
  pret (verified ++ [mkShardRebalanceVerifyItem si (forallb mr_verified reports) reports]).

Definition verify_shard_rebalance (id : Uuid) (max_items : Z) : aprog (ShardRebalanceOperation * list ShardRebalanceVerifyItem) :=
  _ ⇐ lift (ensure (negb (max_items =? 0)) "max_items must be greater than zero");
  operation ⇐ select_rebalance_operation id;
  items ⇐ ledger_query (fun l => Ok (list_rebalance_items_by_status id "completed" max_items l));
  verified ⇐ pfold verify_rebalance_item [] items;
  pret (operation, verified).

Definition cancel_shard_rebalance (id : Uuid) : aprog ShardRebalanceOperation :=
  settled ⇐ ledger_update (fun now l => cancel_shard_rebalance_tx now id l);
  match settled with
  | Some operation => pret operation
  | None => ledger_update (fun now l => refresh_rebalance_operation_status now id l)
  end.

(** ** What the programs keep *)

Hypothesis others_steps : forall n l, rtc ledger_step l (others n l).
Hypothesis fresh_uuid : forall n used, gen_random_uuid n used ∉ used.
Hypothesis env_history : forall n w, mw_history (env n w) = mw_history w.

(** The later state of a run: the ledger took steps, the history grew. *)
Definition later (a a' : Admin) : Prop :=
  rtc ledger_step (ad_ledger a) (ad_ledger a') /\ mw_history (ad_world a) `suffix_of` mw_history (ad_world a').

#[local] Instance later_preorder : PreOrder later.
Proof.
  split; [by intros a; split|]. intros a b c [H1 H2] [H3 H4]. split; [by etrans|by etrans].
Qed.

Definition sound (a : Admin) : Prop := LedgerInv (ad_ledger a).1.

Lemma sound_later a a' : sound a -> later a a' -> sound a'.
Proof. unfold sound, later. intros Ha [H _]. by eapply LedgerInv_rtc. Qed.

Definition lasting (P : Admin -> Prop) : Prop := forall a a', sound a -> P a -> later a a' -> P a'.

Definition run {A} (P : Admin -> Prop) (c : aprog A) (Q : A -> Admin -> Prop) : Prop := forall a a' r,
  sound a -> P a -> c a = Some (a', r) -> later a a' /\ forall x, r = Ok x -> Q x a'.

Lemma run_bind {A B} P Q R (c : aprog A) (k : A -> aprog B) :
  run P c Q -> (forall x, run (Q x) (k x) R) -> run P (pbind c k) R.
Proof.
  intros Hc Hk a a' r Ha Hp. unfold pbind. destruct (c a) as [[a1 [x|e]]|] eqn:E; [|intros [= <- <-]|done].
  - destruct (Hc a a1 _ Ha Hp E) as [H1 HQ]. intros H. destruct (Hk x a1 a' r) as [H2 HR]; [by eapply sound_later|by apply HQ|done|].
    split; [by etrans|done].
  - destruct (Hc a a1 _ Ha Hp E) as [H1 _]. by split.
Qed.

Lemma run_ret {A} (x : A) P (Q : A -> Admin -> Prop) : (forall a, P a -> Q x a) -> run P (pret x) Q.
Proof. intros HQ a a' r Ha Hp [= <- <-]. split; [done|]. intros y [= <-]. by apply HQ. Qed.

Lemma run_lift {A} (x : result A) P (Q : A -> Admin -> Prop) : (forall y a, x = Ok y -> P a -> Q y a) -> run P (lift x) Q.
Proof. intros HQ a a' r Ha Hp [= <- <-]. split; [done|]. intros y Hy. by apply HQ. Qed.

Lemma run_pre {A} (P P' : Admin -> Prop) (c : aprog A) Q : (forall a, P' a -> P a) -> run P c Q -> run P' c Q.
Proof. intros HP Hc a a' r Ha Hp. by apply Hc, HP. Qed.

Lemma run_world {A} (c : ShardMove.prog A) P (Q : A -> Admin -> Prop) :
  lasting P -> extends c ->
  (forall a w w' x, P a -> c w = Some (w', Ok x) -> forall a', ad_world a' = w' -> P a' -> Q x a') ->
  run P (on_world c) Q.
Proof.
  intros HP Hc HQ a a' r Ha Hp H. unfold on_world in H. destruct (c (ad_world a)) as [[w r1]|] eqn:E; [|done]. injection H as <- <-.
  assert (Hl : later a (mkAdmin w (ad_ledger a) (ad_turn a))) by (split; [done|by eapply Hc]).
  split; [done|]. intros x ->. by eapply HQ, HP.
Qed.

Lemma run_ledger {A} (f : nat -> World -> Ledger * gset Uuid -> result ((Ledger * gset Uuid) * A)) P (Q : A -> Admin -> Prop) :
  lasting P ->
  (forall n a l' x, sound a -> P a -> f n (ad_world a) (ad_ledger a) = Ok (l', x) ->
     rtc ledger_step (ad_ledger a) l'
     /\ forall a', later a a' -> ad_ledger a' = l' -> ad_world a' = ad_world a -> Q x a') ->
  run P (on_ledger f) Q.
Proof.
  intros HP Hf a a' r Ha Hp H. unfold on_ledger in H. cbv zeta in H. cbn [ad_ledger] in H.
  set (a1 := mkAdmin (ad_world a) (others (ad_turn a) (ad_ledger a)) (S (ad_turn a))) in *.
  assert (Hl : later a a1) by (split; [apply others_steps|done]).
  assert (Ha1 : sound a1) by (by eapply sound_later). assert (Hp1 : P a1) by (by apply (HP a)).
  assert (Hst : forall b x, (st ← f (ad_turn a) (ad_world a) (others (ad_turn a) (ad_ledger a)); Ok (mkAdmin (ad_world a) st.1 (S (ad_turn a)), st.2)) = Ok (b, x) ->
            later a1 b /\ Q x b).
  { intros b x Hb. apply bind_Ok in Hb as ([l' y] & Hb & [= <- <-]). destruct (Hf (ad_turn a) a1 l' y Ha1 Hp1 Hb) as [Hs HQ].
    cbn [fst snd]. assert (later a1 (mkAdmin (ad_world a) l' (S (ad_turn a)))) by (by split). split; [done|by apply HQ]. }
  split.
  - apply attempt_world in H as [->|[x Hx]]; [done|]. etrans; [done|]. by apply (Hst a' x).
  - intros x ->. apply attempt_Ok in H. by apply Hst.
Qed.

Lemma run_query {A} (f : Ledger -> result A) P (Q : A -> Admin -> Prop) :
  lasting P -> (forall a x, sound a -> P a -> f (ad_ledger a).1 = Ok x -> forall a', later a a' -> ad_ledger a' = ad_ledger a -> Q x a') ->
  run P (ledger_query f) Q.
Proof.
  intros HP Hf. apply run_ledger; [done|]. intros n a l' x Ha Hp H. apply bind_Ok in H as (y & Hy & [= <- <-]).
  split; [done|]. intros a' Hl He _. by eapply Hf.
Qed.

Lemma run_update {A} (f : Z -> Ledger -> result (Ledger * A)) P (Q : A -> Admin -> Prop) :
  lasting P ->
  (forall now a l' x, sound a -> P a -> f now (ad_ledger a).1 = Ok (l', x) ->
     ledger_step (ad_ledger a) (l', (ad_ledger a).2)
     /\ forall a', later a a' -> ad_ledger a' = (l', (ad_ledger a).2) -> ad_world a' = ad_world a -> Q x a') ->
  run P (ledger_update f) Q.
Proof.
  intros HP Hf. apply run_ledger; [done|]. intros n a l' x Ha Hp H. apply bind_Ok in H as ([l1 y] & Hy & [= <- <-]).
  destruct (Hf _ a l1 y Ha Hp Hy) as [Hs HQ]. split; [by apply rtc_once|done].
Qed.

(** ** The apply loop *)

(** What a report of [(s, i)] says: a settled item is in the ledger as reported,
    and the shard of a completed one was seen on its target. *)
Definition truthful (id : Uuid) (a : Admin) (si : shard_key * ShardRebalanceItem) : Prop :=
  (~ unsettled (ri_status si.2) -> lg_items (ad_ledger a).1 !! (id, si.1) = Some si.2)
  /\ (ri_status si.2 = "completed" -> observed si.1 (ri_target_database_alias si.2) (mw_history (ad_world a))).

Lemma truthful_later id a a' si : sound a -> truthful id a si -> later a a' -> truthful id a' si.
Proof.
  intros Ha [H1 H2] [Hl Hh]. split.
  - intros Hu. destruct (ad_ledger a) as [l used] eqn:El. unfold sound in Ha. rewrite El in Ha. by apply (later_ledger l used _ Hl Ha); [apply H1|].
  - intros Hc. eapply observed_suffix; [exact Hh|by apply H2].
Qed.

Definition reported (id : Uuid) (processed : list (shard_key * ShardRebalanceItem)) (a : Admin) : Prop :=
  Forall (truthful id a) processed.

Lemma reported_lasting id processed : lasting (reported id processed).
Proof. intros a a' Ha H Hl. eapply Forall_impl; [exact H|]. intros si Hs. by eapply truthful_later. Qed.

(** The row of a claimed item keeps its target. *)
Definition planned_to (k : Uuid * shard_key) (target : string) (a : Admin) : Prop :=
  exists i, lg_items (ad_ledger a).1 !! k = Some i /\ ri_target_database_alias i = target.

Lemma planned_lasting k target : lasting (planned_to k target).
Proof. intros a a' Ha (i & Hi & <-) [Hl _]. destruct (kept_target _ _ k i Hl Hi) as (i' & Hi' & Ht). by exists i'. Qed.

Definition cancelled (id : Uuid) (a : Admin) : Prop := exists o, lg_operations (ad_ledger a).1 !! id = Some o /\ ro_status o = "cancelled".

Lemma cancelled_lasting id : lasting (cancelled id).
Proof.
  intros a a' Ha (o & Ho & Hs) [Hl _]. destruct (ad_ledger a) as [l used] eqn:El. unfold sound in Ha. rewrite El in Ha.
  destruct (later_ledger l used _ Hl Ha) as (_ & H & _). destruct (H id o Ho) as (o' & Ho' & Hs'); [by rewrite Hs|].
  exists o'. by rewrite Hs', Hs.
Qed.

Lemma seen_lasting s target : lasting (fun a => observed s target (mw_history (ad_world a))).
Proof. intros a a' _ H [_ Hh]. by eapply observed_suffix. Qed.

Lemma lasting_and P Q : lasting P -> lasting Q -> lasting (fun a => P a /\ Q a).
Proof. intros HP HQ a a' Ha [H1 H2] Hl. split; [by apply (HP a)|by apply (HQ a)]. Qed.

Hint Resolve reported_lasting planned_lasting cancelled_lasting seen_lasting lasting_and : extends.

Lemma run_item fuel s item force ids P :
  lasting P ->
  run P (apply_rebalance_item fuel s item force ids)
    (fun _ a => P a /\ observed s (ri_target_database_alias item) (mw_history (ad_world a))).
Proof.
  intros HP. unfold apply_rebalance_item.
  eapply (run_bind _ (fun current a => P a /\
            (str_eqb (sp_database_alias current) (ri_target_database_alias item) && str_eqb (sp_status current) "active" = true ->
             observed s (ri_target_database_alias item) (mw_history (ad_world a))))).
  - apply run_world; [done|by apply query_extends|]. intros a w w' current Hp Hw a' <- Hp'. split; [done|].
    intros Hh. by eapply select_observes.
  - intros current. destruct (_ && _); [apply run_ret; intros a [Hp Ho]; split; [done|by apply Ho]|].
    eapply (run_bind _ (fun _ => P)); [apply run_lift; by intros ? a _ []|]. intros _.
    eapply (run_bind _ (fun _ a => P a /\ observed s (ri_target_database_alias item) (mw_history (ad_world a)))); [|intros out; by apply run_ret].
    apply run_world; [done|by apply (move_extends _ _ _ s); [|destruct s]|]. intros a w w' out Hp Hw a' <- Hp'. split; [done|].
    eapply (move_observes _ _ _ s); [exact env_history| | |exact Hw]; [by destruct s|done].
Qed.

(** A settlement write: the step it takes and the row it reports. *)
Lemma run_settle k token f (P : Admin -> Prop) (seen : Admin -> Prop) (c : aprog (option ShardRebalanceItem)) target :
  lasting P -> (forall a, P a -> planned_to k target a) -> lasting seen -> (forall a, P a -> seen a) ->
  (forall n i, ri_target_database_alias (f n i) = ri_target_database_alias i
               /\ (ri_status (f n i) = "completed" -> forall a, seen a -> observed k.2 target (mw_history (ad_world a)))) ->
  (forall n a, sound a -> P a -> ledger_step (ad_ledger a) ((settle_item k token (f n) (ad_ledger a).1).1, (ad_ledger a).2)) ->
  c = ledger_update (fun now l => Ok (settle_item k token (f now) l)) ->
  run P c (fun settled a => P a /\ forall i, settled = Some i -> truthful k.1 a (k.2, i)).
Proof.
  intros HP Hplan Hseen Hps Hf Hstep ->. apply run_update; [done|]. intros now a l' settled Ha Hp [= Hl].
  split; [specialize (Hstep now a Ha Hp); by rewrite Hl in Hstep|]. intros a' Hlater Hled Hw. split; [by apply (HP a)|]. intros i ->.
  destruct (Hplan a Hp) as (i0 & Hi0 & Ht). unfold settle_item in Hl. rewrite Hi0 in Hl.
  destruct (_ && _); [|done]. injection Hl as <- <-. destruct (Hf now i0) as [Htf Hcf]. split; cbn.
  - intros _. rewrite Hled. cbn. destruct k. apply lookup_insert_eq.
  - intros Hc. rewrite Htf, Ht. apply Hcf; [done|]. apply (Hseen a); [done|by apply Hps|done].
Qed.

Lemma run_handle {A B} P Q (R : B -> Admin -> Prop) (c : Uuid * Uuid -> aprog A) (ok : aprog B) (err : string -> aprog B) :
  lasting P -> (forall ids, run P (c ids) (fun _ => Q)) -> run Q ok R -> (forall e, run P (err e) R) ->
  run P (fun a => match c (now_v7 (ad_turn a)) a with
                  | Some (a', Ok _) => ok a'
                  | Some (a', Err e) => err e a'
                  | None => None
                  end) R.
Proof.
  intros HP Hc Hok Herr a a' r Ha Hp H. destruct (c _ a) as [[a1 [x|e]]|] eqn:E; [| |done];
    destruct (Hc _ a a1 _ Ha Hp E) as [Hl HQ]; assert (sound a1) by (by eapply sound_later).
  - destruct (Hok a1 a' r) as [H2 HR]; [done|by eapply HQ|done|]. split; [by etrans|done].
  - destruct (Herr e a1 a' r) as [H2 HR]; [done|by apply (HP a)|done|]. split; [by etrans|done].
Qed.

Lemma run_settle_claim fuel id s item token force processed :
  run (fun a => reported id processed a /\ planned_to (id, s) (ri_target_database_alias item) a)
    (settle_claim fuel id s item token force)
    (fun settled a => reported id (record_rebalance_item_settlement s processed settled.1) a).
Proof.
  set (P := fun a => _ a /\ _ a). set (target := ri_target_database_alias item). set (k := (id, s)).
  assert (HP : lasting P) by (by unfold P; auto with extends).
  assert (Hend : forall go settled a, P a /\ (forall i, settled = Some i -> truthful id a (s, i)) ->
            reported id (record_rebalance_item_settlement s processed (settled, go : bool).1) a).
  { intros go settled a [[Hr _] Ht]. destruct settled as [i|]; [|done]. apply Forall_app. split; [done|]. by repeat constructor; apply Ht. }
  assert (Hreport : forall go c (P' : Admin -> Prop), (forall a, P' a -> P a) ->
            run P' c (fun settled a => P' a /\ forall i, settled = Some i -> truthful id a (s, i)) ->
            run P' (settled ⇐ c; pret (settled, go : bool))
              (fun settled a => reported id (record_rebalance_item_settlement s processed settled.1) a)).
  { intros go c P' HPP Hc. eapply run_bind; [exact Hc|]. intros settled. apply run_ret. intros a [Hp' Ht]. apply Hend. split; [by apply HPP|done]. }
  unfold settle_claim. eapply (run_bind _ (fun c a => P a /\ (c = true -> cancelled id a))).
  { apply run_query; [done|]. intros a x Ha Hp H a' Hl He. apply bind_Ok in H as (o & Ho%ok_or_Ok & [= <-]).
    split; [by apply (HP a)|]. intros Hs%str_eqb_true. exists o. by rewrite He. }
  intros [].
  - apply (Hreport true _ (fun a => P a /\ (true = true -> cancelled id a))); [by intros a []|].
    apply (run_settle k token (fun now i => set_item i "cancelled" None None (ri_started_at i) (Some now)) _ (fun _ => True) _ target); try done.
    + intros a a' Ha [H1 H2] Hl. split; [by apply (HP a)|]. intros _. apply (cancelled_lasting id a); [done|by apply H2|done].
    + intros a [[_ Hpl] _]. exact Hpl.
    + intros now a Ha [_ Hc]. destruct (Hc eq_refl) as (o & Ho & Hs). destruct (ad_ledger a) as [l used]. by apply (LSkip now k token l o).
  - apply (run_pre P); [by intros a []|].
    set (failed e := fun now i => set_item i "failed" (Some e) None (ri_started_at i) (Some now)).
    set (deferred e := fun (_ : Z) i => set_item i "pending" (Some e) None (ri_started_at i) None).
    apply (run_handle P (fun a => P a /\ observed s target (mw_history (ad_world a))) _ (apply_rebalance_item fuel s item force) _
             (fun e => if str_eqb e CATCH_UP_PENDING || str_eqb e DRAIN_PENDING
                       then settled ⇐ defer (id, s) token e; pret (settled, false)
                       else settled ⇐ mark (id, s) token "failed" (Some e); pret (settled, true))); [done| | |].
    + intros ids. by apply run_item.
    + apply Hreport; [by intros a []|].
      apply (run_settle k token (fun now i => set_item i "completed" None None (ri_started_at i) (Some now)) _
               (fun a => observed s target (mw_history (ad_world a))) _ target); auto with extends; try done.
      * intros a [[_ Hpl] _]. exact Hpl.
      * by intros a [].
      * intros now a Ha _. destruct (ad_ledger a) as [l used]. apply (LSettle now k token); by left.
    + intros e. destruct (_ || _); apply Hreport; try done.
      * apply (run_settle k token (deferred e) _ (fun _ => True) _ target); try done; [by intros a []|].
        intros now a Ha _. destruct (ad_ledger a) as [l used]. apply (LDefer k token).
      * apply (run_settle k token (failed e) _ (fun _ => True) _ target); try done; [by intros a []|].
        intros now a Ha _. destruct (ad_ledger a) as [l used]. apply (LSettle now k token); by right.
Qed.

Lemma run_claim id claimed_by lease P :
  lasting P ->
  run P (claim_next id claimed_by lease)
    (fun claim a => P a /\ forall s item reclaimed, claim = Some (s, item, reclaimed) ->
                     planned_to (id, s) (ri_target_database_alias item) a).
Proof.
  intros HP. apply run_ledger; [done|]. intros n a l' claim Ha Hp H. cbv zeta in H. destruct (ad_ledger a) as [l used] eqn:El. cbn [fst snd] in H.
  destruct (claim_next_rebalance_apply_item _ _ _ _ _ _ l) as [l1 claim1] eqn:Ec. injection H as <- <-. split.
  - apply rtc_once. eapply LClaim; [apply fresh_uuid|exact Ec].
  - intros a' Hl He Hw. split; [by apply (HP a)|]. intros s item reclaimed ->. exists item. rewrite He. cbn. split; [|done].
    unfold claim_next_rebalance_apply_item in Ec. destruct (lg_operations l !! id) as [o|]; [|done]. destruct (open_operation o); [|done].
    destruct (head _) as [[[id1 s1] i]|] eqn:Eh; [|done]. injection Ec as <- <- <- <-. cbn.
    apply head_Some_elem_of in Eh. rewrite merge_sort_Permutation in Eh. apply elem_of_map_to_list, lookup_rows_where in Eh as [_ Hk].
    apply andb_true_iff in Hk as [[Hid%bool_decide_eq_true _]%andb_true_iff _]. cbn in Hid. subst id1. apply lookup_insert_eq.
Qed.

Lemma run_apply_items fuel id claimed_by lease force n : forall processed,
  run (reported id processed) (apply_items fuel n id claimed_by lease force processed)
    (fun processed' a => reported id processed' a /\ zlen processed' <= zlen processed + Z.of_nat n).
Proof.
  induction n as [|n IH]; intros processed; cbn [apply_items]; [apply run_ret; intros a Hr; split; [done|lia]|].
  eapply run_bind; [apply run_claim; auto with extends|]. intros [[[s item] reclaimed]|]; [|apply run_ret; intros a [Hr _]; split; [done|lia]].
  eapply (run_bind _ (fun _ a => reported id processed a /\ planned_to (id, s) (ri_target_database_alias item) a)).
  { apply run_lift. intros token a _ [Hr Hpl]. split; [done|by eapply Hpl]. }
  intros token. eapply run_bind; [apply run_settle_claim|]. intros [settled go]. cbn [fst snd].
  assert (Hlen : zlen (record_rebalance_item_settlement s processed settled) <= zlen processed + 1).
  { destruct settled as [i|]; cbn; [rewrite zlen_app; change (zlen [(s, i)]) with 1; lia|lia]. }
  destruct go; [|apply run_ret; intros a Hr; split; [done|lia]].
  intros a a' r Ha Hp H. destruct (IH _ a a' r Ha Hp H) as [Hl HQ]. split; [done|]. intros x Hx. destruct (HQ x Hx). split; [done|lia].
Qed.

Lemma run_apply fuel id claimed_by options :
  0 <= ao_max_items options ->
  run (fun _ => True) (apply_shard_rebalance fuel id claimed_by options)
    (fun out a => (reported id (ao_processed_items out) a /\ zlen (ao_processed_items out) <= ao_max_items options)
                  /\ lg_operations (ad_ledger a).1 !! id = Some (ao_operation out)).
Proof.
  intros Hm. unfold apply_shard_rebalance. do 2 (eapply (run_bind _ (fun _ _ => True)); [by apply run_lift|]; intros _).
  eapply (run_bind _ (fun _ _ => True)); [by apply run_query|]. intros o.
  eapply (run_bind _ (fun _ a => reported id [] a)); [apply run_lift; intros; constructor|]. intros _.
  eapply run_bind; [apply run_apply_items|]. intros processed.
  set (P := fun a => reported id processed a /\ zlen processed <= ao_max_items options).
  apply (run_pre P); [intros a [H1 H2]; split; [done|]; rewrite Z2Nat.id in H2 by done; exact H2|].
  assert (HP : lasting P) by (intros a a' Ha [H1 H2] Hl; split; [by apply (reported_lasting id processed a)|done]).
  eapply (run_bind _ (fun o a => P a /\ lg_operations (ad_ledger a).1 !! id = Some o)).
  - apply run_update; [done|]. intros now a l' o' Ha Hp H. split.
    + destruct (ad_ledger a) as [l used]. by eapply LRefresh.
    + intros a' Hl He _. split; [by apply (HP a)|]. rewrite He. cbn. unfold refresh_rebalance_operation_status in H.
      apply bind_Ok in H as (o1 & Ho1 & [= <- <-]). apply lookup_insert_eq.
  - intros o'. apply run_ret. by intros a [[H1 H2] H3].
Qed.
End apply.

(** C20: applying a rebalance is truthful.  Whatever other apply workers and
    cancellations do to the ledger, whatever fails and whatever happens to the
    routes meanwhile, a run of [apply_shard_rebalance] takes only steps of the
    ledger.  When it returns, the operation it reports is the ledger's, and
    completed only with all its items completed; it processed at most [max_items]
    items; an item it reports as settled is settled so in the ledger, and the shard
    of an item it reports as completed was seen routed to the planned target and
    active during the run. *)
Theorem rebalance_apply_sound {MF : MoveFunctions} {LF : LedgerFunctions} (identity_of : string -> Z) (control_alias : string)
    (now_at : nat -> Z) (fault_at : nat -> Fault) (env : nat -> World -> World) (ledger_now : nat -> Z) (ledger_fault : nat -> Fault)
    (others : nat -> Ledger * gset Uuid -> Ledger * gset Uuid) (locked : nat -> shard_key -> bool)
    (gen_random_uuid : nat -> gset Uuid -> Uuid) (now_v7 : nat -> Uuid * Uuid) (fuel : nat) (id claimed_by : Uuid)
    (options : ShardRebalanceApplyOptions) (a a' : Admin) (r : result ShardRebalanceApplyOutcome) :
  (forall n l, rtc ledger_step l (others n l)) -> (forall n used, gen_random_uuid n used ∉ used) ->
  (forall n w, mw_history (env n w) = mw_history w) -> 0 <= ao_max_items options ->
  rtc ledger_step (empty_ledger, ∅) (ad_ledger a) -> mw_history (ad_world a) = [] ->
  apply_shard_rebalance identity_of control_alias now_at fault_at env ledger_now ledger_fault others locked gen_random_uuid
    now_v7 fuel id claimed_by options a = Some (a', r) ->
  rtc ledger_step (ad_ledger a) (ad_ledger a')
  /\ forall out, r = Ok out ->
       lg_operations (ad_ledger a').1 !! id = Some (ao_operation out)
       /\ (ro_status (ao_operation out) = "completed" ->
            forall s i, lg_items (ad_ledger a').1 !! (id, s) = Some i -> ri_status i = "completed")
       /\ zlen (ao_processed_items out) <= ao_max_items options
       /\ forall s i, (s, i) ∈ ao_processed_items out ->
            (~ unsettled (ri_status i) -> lg_items (ad_ledger a').1 !! (id, s) = Some i)
            /\ (ri_status i = "completed" -> observed s (ri_target_database_alias i) (mw_history (ad_world a'))).
Proof.
  intros Hothers Hfresh Henv Hm Hreach _ H. assert (Ha : sound a) by (eapply (LedgerInv_rtc _ _ Hreach), empty_inv).
  destruct (run_apply identity_of control_alias now_at fault_at env ledger_now ledger_fault others locked gen_random_uuid now_v7
              Hothers Hfresh Henv fuel id claimed_by options Hm a a' r Ha I H) as [Hl HQ].
  split; [apply Hl|]. intros out Ho. destruct (HQ out Ho) as [[Hrep Hlen] Hop]. split_and!; [done| |done|].
  - intros Hc. by apply (li_completed _ (sound_later _ _ Ha Hl) id _ Hop Hc).
  - intros s i Hin. by apply (proj1 (Forall_forall _ _) Hrep (s, i)).
Qed.

(** ** A run *)

Module ApplySample.

Definition next_uuid (_ : nat) (used : gset Uuid) : Uuid := 1 + foldr Z.max 0 (elements used).

Lemma below_max (l : list Z) x : x ∈ l -> x <= foldr Z.max 0 l.
Proof. induction l as [|y l IH]; [by intros ?%elem_of_nil|]. intros [->|H]%elem_of_cons; cbn; [lia|]. specialize (IH H). lia. Qed.

Lemma next_uuid_fresh n used : next_uuid n used ∉ used.
Proof. intros H%elem_of_elements%below_max. unfold next_uuid in H. lia. Qed.

(** The sample shard is planned to move, and a shard without a route. *)
Definition planned : list PlannedShardRebalanceItem :=
  [mkPlannedShardRebalanceItem 5 3 "primary" "shard_001" 1; mkPlannedShardRebalanceItem 8 0 "primary" "shard_001" 1].
Definition ledger0 : Ledger :=
  match insert_rebalance_operation (mw_databases MoveSample.start) 1 "fill-target" None "shard_001" planned empty_ledger with
  | Ok (l, _) => l
  | Err _ => empty_ledger
  end.
Definition start : Admin := mkAdmin MoveSample.start (ledger0, ∅) 0.

(** Another worker refreshes the operation while the shard moves. *)
Definition refresher (n : nat) (l : Ledger * gset Uuid) : Ledger * gset Uuid :=
  if Nat.eqb n 3 then
    match refresh_rebalance_operation_status 0 1 l.1 with Ok (l', _) => (l', l.2) | Err _ => l end
  else l.

Lemma refresher_steps n l : rtc ledger_step l (refresher n l).
Proof.
  destruct l as [l used]. unfold refresher. destruct (Nat.eqb n 3); [|done]. cbn.
  destruct (refresh_rebalance_operation_status 0 1 l) as [[l' o]|e] eqn:E; [|done]. apply rtc_once. by eapply LRefresh.
Qed.

Notation apply_run := (apply_shard_rebalance MoveSample.identity_of "primary" MoveSample.ticks MoveSample.no_fault MoveSample.calm
  MoveSample.ticks MoveSample.no_fault refresher (fun _ _ => false) next_uuid (fun _ => (100, 200)) 20 1 7
  (mkShardRebalanceApplyOptions 5 60 false) start).

Lemma start_reachable : rtc ledger_step (empty_ledger, ∅) (ad_ledger start).
Proof.
  apply rtc_once. apply (LPlan (mw_databases MoveSample.start) 1 "fill-target" None "shard_001" planned empty_ledger ledger0
    (mkShardRebalanceOperation "fill-target" None "shard_001" "planned" 2 0 0 0 None None None None)). vm_compute. reflexivity.
Qed.

Definition moved_item (si : shard_key * ShardRebalanceItem) : bool :=
  bool_decide (si.1 = MoveSample.s) && str_eqb (ri_status si.2) "completed" && str_eqb (ri_target_database_alias si.2) "shard_001".
Definition applied (r : option (Admin * result ShardRebalanceApplyOutcome)) : bool :=
  match r with
  | Some (_, Ok out) => str_eqb (ro_status (ao_operation out)) "failed" && (zlen (ao_processed_items out) =? 2)
                        && existsb moved_item (ao_processed_items out)
  | _ => false
  end.

(** The first shard moves, the second has no route: the operation fails with one
    completed item, whose shard was seen on its target. *)
Lemma rebalance_apply_sound_witness : exists a' out,
  apply_run = Some (a', Ok out) /\ ro_status (ao_operation out) = "failed"
  /\ rtc ledger_step (ad_ledger start) (ad_ledger a')
  /\ observed MoveSample.s "shard_001" (mw_history (ad_world a')).
Proof.
  assert (Hb : applied apply_run = true) by (vm_compute; reflexivity).
  destruct apply_run as [[a' [out|e]]|] eqn:E; [|discriminate Hb..]. exists a', out. split; [reflexivity|].
  apply andb_true_iff in Hb as [Hb Hex]. apply andb_true_iff in Hb as [Hst _]. apply str_eqb_true in Hst. split; [exact Hst|].
  destruct (rebalance_apply_sound MoveSample.identity_of "primary" MoveSample.ticks MoveSample.no_fault MoveSample.calm MoveSample.ticks
              MoveSample.no_fault refresher (fun _ _ => false) next_uuid (fun _ => (100, 200)) 20 1 7
              (mkShardRebalanceApplyOptions 5 60 false) start a' (Ok out) refresher_steps next_uuid_fresh (fun _ _ => eq_refl)
              (proj1 (Z.leb_le 0 5) eq_refl) start_reachable eq_refl E) as [Hl HQ].
  split; [exact Hl|]. destruct (HQ out eq_refl) as (_ & _ & _ & Hp). apply existsb_exists in Hex as ([s i] & Hin & Hm).
  apply andb_true_iff in Hm as [Hm Ht]. apply andb_true_iff in Hm as [Hs Hc]. apply bool_decide_eq_true in Hs. cbn in Hs. subst s.
  apply str_eqb_true in Ht. apply str_eqb_true in Hc. cbn in Ht, Hc. rewrite <- Ht. apply (Hp MoveSample.s i); [|exact Hc].
  apply list_elem_of_In, Hin.
Defined.
End ApplySample.
