(* ===== verification/PlacementAdmin.v ===== *)
(** * The lifecycle of database placements

    Placements are added, activated, drained and disabled, and shards are routed
    to them (src/vigilo/src/db/workflows/shard_admin.rs with
    db/tables/database_placements.rs and db/tables/shard_placements.rs).  The
    transactions below run on one [Topology]: a transaction that gives a shard
    to a placement holds the placement's row [FOR SHARE], one that drains or
    disables it holds the row [FOR UPDATE], so that they do not overlap.
    Connections are not modelled: what a readiness probe finds on a target and
    how many deliveries its outbox holds are arguments. *)

From Stdlib Require Import ZArith Lia ZifyBool.
From stdpp Require Import base strings numbers countable gmap sorting sets option list.
From S2P Require Import Prelude Prog BTree Text RunTypes ShardTables LocalAdmission ShardRows ControlTables RunPlanning.
From S2P Require Import PlanLedger PlanLifecycle LocalSeed MoveTables ShardMove Rebalance.

Open Scope Z_scope.

Record Topology := mkTopology {
  tp_databases : databases;
  tp_url_envs : gmap string string;
  tp_control : Control;
  tp_ledger : Ledger * gset Uuid
}.

Definition set_database (t : Topology) (alias : string) (p : string * string) : Topology :=
  mkTopology (<[alias := p]> (tp_databases t)) (tp_url_envs t) (tp_control t) (tp_ledger t).
Definition set_topology_control (t : Topology) (c : Control) : Topology :=
  mkTopology (tp_databases t) (tp_url_envs t) c (tp_ledger t).
Definition set_routes (t : Topology) (routes : gmap shard_key PlacementRow) : Topology :=
  set_topology_control t (with_placements (tp_control t) routes).
Definition tp_routes (t : Topology) : gmap shard_key PlacementRow := cd_placements (tp_control t).

Definition is_control_capable (p : string * string) : bool := str_eqb p.1 "control" || str_eqb p.1 "control_and_shard".

(** ** Registration and activation *)

(** [env_set]: the variable is set in this process. *)
Definition add_shard_database_placement (env_set : string -> bool) (alias database_url_env : string) (defer_env_validation : bool)
    (t : Topology) : result Topology :=
  _ ← validate_non_empty alias;
  _ ← validate_non_empty database_url_env;
  _ ← ensure (opt_is_none (tp_databases t !! alias)) "database placement alias already exists";
  _ ← ensure (defer_env_validation || env_set database_url_env) "database_url_env is not set in the current process";
  Ok (mkTopology (<[alias := ("shard", "provisioning")]> (tp_databases t)) (<[alias := database_url_env]> (tp_url_envs t))
        (tp_control t) (tp_ledger t)).

Definition require_provisioning_shard_placement (p : string * string) : result unit :=
  _ ← ensure (is_shard_capable p) "the role cannot store shard ownership";
  ensure (str_eqb p.2 "provisioning") "the database placement cannot be activated".

(** What the probe of a target finds: its identity, the applied migrations with
    their checksums, whether it has local admissions, and whether a write works. *)
Record Probe := mkProbe {
  pb_identity : Z;
  pb_migrations : list (Z * string * string);
  pb_has_admissions : bool;
  pb_writable : result unit
}.

(** [existing]: the identities of the serviceable placements. *)
Definition verify_database_placement_readiness (control_migrations : list (Z * string * string)) (existing : list Z) (target : Probe)
    : result Z :=
  _ ← ensure (forallb (fun i => negb (i =? pb_identity target)) existing)
        "the alias resolves to the same database as a serviceable placement";
  _ ← ensure (bool_decide (pb_migrations target = control_migrations)) "schema migrations do not match the control database";
  _ ← ensure (negb (pb_has_admissions target)) "the database already contains local shard ownership";
  _ ← pb_writable target;
  Ok (zlen (pb_migrations target)).

Record DatabasePlacementReferences := mkDatabasePlacementReferences {
  rf_route_count : Z;
  rf_creation_count : Z;
  rf_rebalance_count : Z
}.

Definition select_database_placement_references (alias : string) (t : Topology) : DatabasePlacementReferences :=
  let l := (tp_ledger t).1 in
  mkDatabasePlacementReferences
    (count_where (fun _ r => str_eqb (pm_database_alias r) alias) (tp_routes t))
    (count_where (fun k row => str_eqb (ps_database_alias row) alias
                               && is_some_and (fun r => bool_decide (rw_status r = RunCreating)) (cd_runs (tp_control t) !! k.1))
       (cd_plan_shards (tp_control t)))
    (count_where (fun k i => is_some_and open_operation (lg_operations l !! k.1)
                             && (str_eqb (ri_status i) "pending" || str_eqb (ri_status i) "running")
                             && (str_eqb alias (ri_source_database_alias i) || str_eqb alias (ri_target_database_alias i)))
       (lg_items l)).

Record DatabasePlacementActivationOutcome := mkDatabasePlacementActivationOutcome {
  ac_placement : string * string;
  ac_changed : bool;
  ac_readiness_verified : bool;
  ac_migration_count : option Z
}.

(** The last transaction of [activate_database_placement]; [snapshot] is the row
    and variable that were probed. *)
Definition activate_probed_placement (alias : string) (snapshot : (string * string) * option string) (migration_count : Z) (t : Topology)
    : result (Topology * DatabasePlacementActivationOutcome) :=
  current ← ok_or (tp_databases t !! alias) "database placement alias was not found";
  if str_eqb current.2 "active" then Ok (t, mkDatabasePlacementActivationOutcome current false true (Some migration_count))
  else
    _ ← require_provisioning_shard_placement current;
    _ ← ensure (bool_decide (tp_url_envs t !! alias = snapshot.2) && str_eqb current.1 snapshot.1.1)
          "the database placement changed while readiness was being verified";
    let references := select_database_placement_references alias t in
    _ ← ensure (negb (0 <? rf_route_count references + rf_creation_count references + rf_rebalance_count references))
          "the database placement gained control-plane references while provisioning";
    let p := (current.1, "active") in
    Ok (set_database t alias p, mkDatabasePlacementActivationOutcome p true true (Some migration_count)).

(** [readiness]: what the probe between the two reads returned; other processes
    act meanwhile ([interference]). *)
Definition activate_database_placement (readiness : result Z) (interference : Topology -> Topology) (alias : string) (t : Topology)
    : result (Topology * DatabasePlacementActivationOutcome) :=
  _ ← validate_non_empty alias;
  snapshot ← ok_or (tp_databases t !! alias) "database placement alias was not found";
  if str_eqb snapshot.2 "active" then Ok (t, mkDatabasePlacementActivationOutcome snapshot false false None)
  else
    _ ← require_provisioning_shard_placement snapshot;
    migration_count ← readiness;
    activate_probed_placement alias (snapshot, tp_url_envs t !! alias) migration_count (interference t).

(** ** Draining and disabling *)

Definition reject_inflight_move_target (alias : string) (t : Topology) : result unit :=
  ensure (negb (0 <? count_inflight_moves_to_database alias (tp_routes t)))
    "the database placement is the target of in-flight shard moves".

Definition drain_database_placement (alias : string) (t : Topology) : result (Topology * (string * string)) :=
  _ ← validate_non_empty alias;
  existing ← ok_or (tp_databases t !! alias) "database placement alias was not found";
  _ ← ensure (negb (is_control_capable existing)) "draining the placement would remove active control-plane admission";
  _ ← ensure (negb (str_eqb existing.2 "disabled")) "a disabled placement cannot transition back to draining";
  _ ← reject_inflight_move_target alias t;
  if str_eqb existing.2 "draining" then Ok (t, existing)
  else
    _ ← ensure (str_eqb existing.2 "active") "the placement must be active before it can be drained";
    let p := (existing.1, "draining") in
    Ok (set_database t alias p, p).

(** [pending_outbox]: the deliveries that wait on the placement's database. *)
Definition disable_database_placement (pending_outbox : result Z) (alias : string) (t : Topology)
    : result (Topology * (string * string)) :=
  _ ← validate_non_empty alias;
  existing ← ok_or (tp_databases t !! alias) "database placement alias was not found";
  _ ← ensure (negb (is_control_capable existing && negb (str_eqb existing.2 "disabled")))
        "disabling the placement would remove the control plane";
  if str_eqb existing.2 "disabled" then Ok (t, existing)
  else
    _ ← ensure (str_eqb existing.2 "draining") "the placement must be draining before it can be disabled";
    _ ← reject_inflight_move_target alias t;
    let references := select_database_placement_references alias t in
    _ ← ensure (negb (0 <? rf_route_count references)) "the placement still owns shard routes";
    _ ← ensure (negb (0 <? rf_creation_count references)) "the placement is referenced by creating runs";
    _ ← ensure (negb (0 <? rf_rebalance_count references)) "the placement is referenced by unfinished rebalance items";
    n ← pending_outbox;
    _ ← ensure (negb (0 <? n)) "the placement still has pending outbox deliveries";
    let p := (existing.1, "disabled") in
    Ok (set_database t alias p, p).

(** ** Routing a shard *)

Definition insert_active_shard_placement (s : shard_key) (alias : string) (routes : gmap shard_key PlacementRow)
    : result (gmap shard_key PlacementRow * PlacementRow) :=
  _ ← ensure (in_range 0 127 s.2 && opt_is_none (routes !! s)) "constraint violation on shard_placements";
  let r := mkPlacementRow alias "active" None 1 1 in
  Ok (<[s := r]> routes, r).

(** The first route of a shard. *)
Definition assign_route (dbs : databases) (s : shard_key) (alias : string) (routes : gmap shard_key PlacementRow)
    : result (gmap shard_key PlacementRow * PlacementRow) :=
  _ ← validate_new_ownership_target dbs alias;
  insert_active_shard_placement s alias routes.

Definition change_route (dbs : databases) (s : shard_key) (source_alias : string) (version : Z) (target_alias : string)
    (routes : gmap shard_key PlacementRow) : result (gmap shard_key PlacementRow * option PlacementRow) :=
  _ ← validate_new_ownership_target dbs target_alias;
  change_empty_active_shard_placement s source_alias version target_alias routes.

Definition reserve_route (dbs : databases) (s : shard_key) (source_alias : string) (version : Z) (target_alias : string)
    (routes : gmap shard_key PlacementRow) : result (gmap shard_key PlacementRow * option PlacementRow) :=
  _ ← validate_new_ownership_target dbs target_alias;
  mark_shard_placement_copying s source_alias version target_alias routes.

(** What [inspect_shard_route] decides. *)
Definition routing_decision (t : Topology) (s : shard_key) : result string :=
  r ← ok_or (tp_routes t !! s) "shard placement was not found";
  p ← ok_or (tp_databases t !! pm_database_alias r) "database placement alias was not found";
  let readable := can_serve_owned_shards p && is_shard_capable p in
  let dispatchable := is_dispatchable (placement_of s r) && readable in
  Ok (if dispatchable then "dispatchable" else if readable then "read_only" else "blocked").

(** ** The topology machine *)

(** The transactions of every process that touch placements and routes.  [TAdmit]
    is the activation of a created run, [TControl] any other transaction of the
    control tables, none of which touches the routes. *)
Inductive topology_step : Topology -> Topology -> Prop :=
| TAdd env_set alias url defer t t' :
    add_shard_database_placement env_set alias url defer t = Ok t' -> topology_step t t'
| TActivate alias snapshot n t t' out :
    activate_probed_placement alias snapshot n t = Ok (t', out) -> topology_step t t'
| TDrain alias t t' p : drain_database_placement alias t = Ok (t', p) -> topology_step t t'
| TDisable pending alias t t' p : disable_database_placement pending alias t = Ok (t', p) -> topology_step t t'
| TAssign s alias t routes r :
    assign_route (tp_databases t) s alias (tp_routes t) = Ok (routes, r) -> topology_step t (set_routes t routes)
| TChange s source version target t routes r :
    change_route (tp_databases t) s source version target (tp_routes t) = Ok (routes, r) -> topology_step t (set_routes t routes)
| TReserve s source version target t routes r :
    reserve_route (tp_databases t) s source version target (tp_routes t) = Ok (routes, r) -> topology_step t (set_routes t routes)
| TDrainRoute s source version target t routes r :
    mark_shard_placement_draining s source version target (tp_routes t) = Ok (routes, r) -> topology_step t (set_routes t routes)
| TFreezeRoute s source version target t routes r :
    mark_shard_placement_moving s source version target (tp_routes t) = Ok (routes, r) -> topology_step t (set_routes t routes)
| TAbortRoute s source version target t routes r :
    abort_shard_placement_move s source version target (tp_routes t) = Ok (routes, r) -> topology_step t (set_routes t routes)
| TFenceRoute s source version t routes r :
    fence_active_shard_placement s source version (tp_routes t) = Ok (routes, r) -> topology_step t (set_routes t routes)
| TActivateRoute s source version target t routes r :
    activate_on_target (tp_databases t) s source version target (tp_routes t) = Ok (routes, r) -> topology_step t (set_routes t routes)
| TAdmit now lease expected t c :
    activate (tp_control t) (tp_databases t) now lease expected = Ok c -> topology_step t (set_topology_control t c)
| TControl t c : cd_placements c = tp_routes t -> topology_step t (set_topology_control t c)
| TLedger t l : ledger_step (tp_ledger t) l -> topology_step t (mkTopology (tp_databases t) (tp_url_envs t) (tp_control t) l).

(** A placement that may own shards, and one that may receive them. *)
Definition serves (dbs : databases) (alias : string) : Prop :=
  exists p, dbs !! alias = Some p /\ can_serve_owned_shards p = true /\ is_shard_capable p = true.
Definition receives (dbs : databases) (alias : string) : Prop :=
  exists p, dbs !! alias = Some p /\ accepts_new_shards p = true /\ is_shard_capable p = true.

Definition routed (dbs : databases) (r : PlacementRow) : Prop :=
  placement_ok r = true /\ serves dbs (pm_database_alias r)
  /\ forall target, pm_move_target_database_alias r = Some target -> receives dbs target.

Definition TopologyInv (t : Topology) : Prop := map_Forall (fun _ r => routed (tp_databases t) r) (tp_routes t).

Lemma receives_serves dbs alias : receives dbs alias -> serves dbs alias.
Proof. intros (p & Hp & Ha & Hs). exists p. unfold accepts_new_shards in Ha. unfold can_serve_owned_shards. by rewrite Ha. Qed.

Lemma validate_receives dbs alias : validate_new_ownership_target dbs alias = Ok tt <-> receives dbs alias.
Proof.
  unfold validate_new_ownership_target, find_database. split.
  - intros H. apply bind_Ok in H as (p & Hp%ok_or_Ok & H). apply bind_Ok in H as (? & Ha%ensure_Ok & Hs%ensure_Ok). by exists p.
  - intros (p & Hp & Ha & Hs). rewrite Hp. cbn. by rewrite Ha, Hs.
Qed.

(** An update of one route keeps the others. *)
Lemma routed_update dbs s guard f routes routes' r :
  map_Forall (fun _ r => routed dbs r) routes -> update_route s guard f routes = Ok (routes', r) ->
  (forall r0, guard r0 = true -> routed dbs r0 -> placement_ok (f r0) = true -> routed dbs (f r0)) ->
  map_Forall (fun _ r => routed dbs r) routes'.
Proof.
  intros HI H Hf. unfold update_route in H. destruct (routes !! s) as [r0|] eqn:E; [|by injection H as <- _].
  destruct (guard r0) eqn:Eg; [|by injection H as <- _]. apply bind_Ok in H as (? & Hok%ensure_Ok & [= <- _]).
  apply map_Forall_insert_2; [|done]. by apply Hf, Hok; [|apply (HI s)].
Qed.

Lemma routed_insert (dbs : databases) (s : shard_key) (alias : string) (routes : gmap shard_key PlacementRow) :
  receives dbs alias -> map_Forall (fun _ r => routed dbs r) routes ->
  map_Forall (fun _ r => routed dbs r) (<[s := mkPlacementRow alias "active" None 1 1]> routes).
Proof. intros Hr HI. apply map_Forall_insert_2; [|done]. split_and!; [done|by apply receives_serves|done]. Qed.

Lemma routed_admitted dbs run_id l routes routes' :
  bulk_insert_shard_placements dbs run_id routes l = Ok routes' ->
  map_Forall (fun _ r => routed dbs r) routes -> map_Forall (fun _ r => routed dbs r) routes'.
Proof.
  unfold bulk_insert_shard_placements. intros H HI. apply bind_Ok in H as ([] & Hv & H).
  assert (Hval : forall a, a ∈ l -> receives dbs (pa_database_alias a)).
  { intros a Ha. assert (Hin : pa_database_alias a ∈ bt_keys (bset (map pa_database_alias l))).
    { unfold bset. rewrite bt_collect_keys, map_map. cbn. rewrite map_id. by apply list_elem_of_fmap_2. }
    change (validate_placement dbs) with (fun (_ : unit) a => validate_placement dbs tt a) in Hv. apply foldM_checks in Hv. rewrite Forall_forall in Hv. specialize (Hv _ Hin). unfold validate_placement in Hv.
    apply bind_Ok in Hv as (p & Hp%ok_or_Ok & Hv). apply bind_Ok in Hv as (? & Hs%ensure_Ok & Hc%ensure_Ok). by exists p. }
  revert H. apply foldM_inv; [|done]. intros t a t' Ha Ht H. unfold insert_placement in H. apply bind_Ok in H as (? & _ & [= <-]).
  apply routed_insert; [by apply Hval|done].
Qed.

(** A placement changes its status: shards it owns or is about to receive stay
    served. *)
Lemma routed_status dbs alias p p' routes :
  dbs !! alias = Some p -> p'.1 = p.1 ->
  (accepts_new_shards p' = false -> count_inflight_moves_to_database alias routes = 0) ->
  (can_serve_owned_shards p' = false -> count_where (fun _ r => str_eqb (pm_database_alias r) alias) routes = 0) ->
  map_Forall (fun _ r => routed dbs r) routes -> map_Forall (fun _ r => routed (<[alias := p']> dbs) r) routes.
Proof.
  intros Hp Hrole Hmove Hroute HI s r Hr. destruct (HI s r Hr) as (Hok & Hserve & Htarget). split_and!; [done| |].
  - destruct Hserve as (q & Hq & H1 & H2). unfold serves. destruct (decide (alias = pm_database_alias r)) as [Ha|Hne].
    + rewrite <- Ha, lookup_insert_eq. exists p'. rewrite <- Ha, Hp in Hq. injection Hq as <-. split_and!; [done| |].
      * destruct (can_serve_owned_shards p'); [done|]. pose proof (count_where_none _ _ _ _ (Hroute eq_refl) Hr) as Hn. cbn in Hn.
        by rewrite (proj2 (str_eqb_true _ _)) in Hn.
      * unfold is_shard_capable in *. by rewrite Hrole.
    + rewrite lookup_insert_ne by done. by exists q.
  - intros target Ht. destruct (Htarget target Ht) as (q & Hq & H1 & H2). unfold receives.
    destruct (decide (alias = target)) as [->|Hne]; [|rewrite lookup_insert_ne by done; by exists q].
    rewrite lookup_insert_eq. exists p'. rewrite Hp in Hq. injection Hq as <-. split_and!; [done| |unfold is_shard_capable in *; by rewrite Hrole].
    destruct (accepts_new_shards p'); [done|]. pose proof (count_where_none _ _ _ _ (Hmove eq_refl) Hr) as Hn. cbn in Hn.
    rewrite bool_decide_true in Hn by done. unfold placement_ok in Hok. rewrite Ht in Hok.
    apply andb_true_iff in Hok as [_ [Hst _]%andb_true_iff]. cbn in Hn. by rewrite orb_false_r, orb_assoc, Hst in Hn.
Qed.

Lemma not_positive n : negb (0 <? n) = true -> 0 <= n -> n = 0.
Proof. lia. Qed.

Lemma TopologyInv_drain alias t t' p : TopologyInv t -> drain_database_placement alias t = Ok (t', p) -> TopologyInv t'.
Proof.
  intros HI H. unfold drain_database_placement in H. apply bind_Ok in H as (? & _ & H). apply bind_Ok in H as (q & Hq%ok_or_Ok & H).
  do 2 (apply bind_Ok in H as (? & _ & H)). apply bind_Ok in H as (? & Hm%ensure_Ok & H).
  destruct (str_eqb q.2 "draining"); [by injection H as <- _|]. apply bind_Ok in H as (? & _ & [= <- _]).
  apply (routed_status _ _ q); [done|done| |done|done]. intros _. apply not_positive; [done|apply count_where_nonneg].
Qed.

Lemma TopologyInv_disable pending alias t t' p : TopologyInv t -> disable_database_placement pending alias t = Ok (t', p) -> TopologyInv t'.
Proof.
  intros HI H. unfold disable_database_placement in H. apply bind_Ok in H as (? & _ & H). apply bind_Ok in H as (q & Hq%ok_or_Ok & H).
  apply bind_Ok in H as (? & _ & H). destruct (str_eqb q.2 "disabled"); [by injection H as <- _|].
  apply bind_Ok in H as (? & _ & H). apply bind_Ok in H as (? & Hm%ensure_Ok & H). apply bind_Ok in H as (? & Hr%ensure_Ok & H).
  do 4 (apply bind_Ok in H as (? & _ & H)). injection H as <- _.
  apply (routed_status _ _ q); [done|done| | |done]; intros _; (apply not_positive; [done|apply count_where_nonneg]).
Qed.

Lemma TopologyInv_activate alias snapshot n t t' out :
  TopologyInv t -> activate_probed_placement alias snapshot n t = Ok (t', out) -> TopologyInv t'.
Proof.
  intros HI H. unfold activate_probed_placement in H. apply bind_Ok in H as (q & Hq%ok_or_Ok & H).
  destruct (str_eqb q.2 "active"); [by injection H as <- _|]. do 3 (apply bind_Ok in H as (? & _ & H)). injection H as <- _.
  by apply (routed_status _ _ q).
Qed.

Lemma TopologyInv_add env_set alias url defer t t' :
  TopologyInv t -> add_shard_database_placement env_set alias url defer t = Ok t' -> TopologyInv t'.
Proof.
  intros HI H. unfold add_shard_database_placement in H. do 2 (apply bind_Ok in H as (? & _ & H)).
  apply bind_Ok in H as (? & Hn%ensure_Ok & H). apply bind_Ok in H as (? & _ & [= <-]).
  assert (Hnone : tp_databases t !! alias = None) by (by destruct (tp_databases t !! alias)).
  assert (Hkeep : forall (P : string * string -> Prop) a, (exists p, tp_databases t !! a = Some p /\ P p) ->
            exists p, <[alias := ("shard", "provisioning")]> (tp_databases t) !! a = Some p /\ P p).
  { intros P a (p & Hp & H). exists p. split; [|done]. rewrite lookup_insert_ne; [done|congruence]. }
  intros s r Hr. destruct (HI s r Hr) as (Hok & Hs & Ht). split_and!; [done|by apply Hkeep|]. intros target Hm. by apply Hkeep, Ht.
Qed.

Lemma TopologyInv_step t t' : topology_step t t' -> TopologyInv t -> TopologyInv t'.
Proof.
  intros H HI. inversion H as [| | | |? ? ? ? ? H1|? ? ? ? ? ? ? H1|? ? ? ? ? ? ? H1|? ? ? ? ? ? ? H1|? ? ? ? ? ? ? H1|? ? ? ? ? ? ? H1|? ? ? ? ? ? H1|? ? ? ? ? ? ? H1|? ? ? ? ? H1|? ? H1|]; subst.
  - by eapply TopologyInv_add.
  - by eapply TopologyInv_activate.
  - by eapply TopologyInv_drain.
  - by eapply TopologyInv_disable.
  - unfold assign_route in H1. apply bind_Ok in H1 as ([] & Hv%validate_receives & H1). unfold insert_active_shard_placement in H1.
    apply bind_Ok in H1 as (? & _ & [= <- _]). by apply routed_insert.
  - apply bind_Ok in H1 as ([] & Hv%validate_receives & H1). eapply (routed_update _ _ _ _ _ _ _ HI H1).
    intros r0 _ _ Hok. split_and!; [done|by apply receives_serves|done].
  - apply bind_Ok in H1 as ([] & Hv%validate_receives & H1). eapply (routed_update _ _ _ _ _ _ _ HI H1).
    intros r0 _ (_ & Hs & _) Hok. split_and!; [done|done|]. by intros ? [= <-].
  - eapply (routed_update _ _ _ _ _ _ _ HI H1). intros r0 _ (_ & Hs & Ht) Hok. by split_and!.
  - eapply (routed_update _ _ _ _ _ _ _ HI H1). intros r0 _ (_ & Hs & Ht) Hok. by split_and!.
  - eapply (routed_update _ _ _ _ _ _ _ HI H1). intros r0 _ (_ & Hs & Ht) Hok. by split_and!.
  - eapply (routed_update _ _ _ _ _ _ _ HI H1). intros r0 _ (_ & Hs & Ht) Hok. by split_and!.
  - unfold activate_on_target in H1. apply bind_Ok in H1 as ([] & Hv%validate_receives & H1). apply bind_Ok in H1 as ([routes' m] & H1 & H2).
    apply bind_Ok in H2 as (? & _ & [= <- _]). eapply (routed_update _ _ _ _ _ _ _ HI H1).
    intros r0 _ _ Hok. split_and!; [done|by apply receives_serves|done].
  - unfold activate in H1. apply bind_Ok in H1 as ([c1 pl] & Hg & H1). apply bind_Ok in H1 as (? & _ & H1). apply bind_Ok in H1 as (? & _ & H1).
    apply bind_Ok in H1 as (routes' & Hp & H1). apply bind_Ok in H1 as (? & _ & H1). apply bind_Ok in H1 as (? & _ & H1).
    apply bind_Ok in H1 as (? & _ & [= <-]). apply guard_with_Ok in Hg as (r & st & _ & _ & _ & _ & _ & _ & -> & _).
    exact (routed_admitted _ _ _ _ _ Hp HI).
  - unfold TopologyInv, tp_routes in *. cbn. by rewrite H1.
  - done.
Qed.

Lemma TopologyInv_later t t' : rtc topology_step t t' -> TopologyInv t -> TopologyInv t'.
Proof. induction 1 as [|t t1 t' Hs _ IH]; [done|]. intros HI. by eapply IH, TopologyInv_step. Qed.

(** ** The lifecycle goes forward *)

Definition lifecycle_rank (status : string) : Z :=
  if str_eqb status "provisioning" then 0 else if str_eqb status "active" then 1 else if str_eqb status "draining" then 2 else 3.

(** The next row of a placement. *)
Definition advances (p p' : string * string) : Prop :=
  p'.1 = p.1 /\ lifecycle_rank p.2 <= lifecycle_rank p'.2 /\ (is_control_capable p = true -> p.2 = "active" -> p' = p).

#[local] Instance advances_preorder : PreOrder advances.
Proof.
  split; [by intros p; split_and!|]. intros p q r (H1 & H2 & H3) (H4 & H5 & H6). split_and!; [congruence|lia|].
  intros Hc Ha. rewrite (H3 Hc Ha) in H6. by apply H6.
Qed.

Lemma advances_insert (dbs : databases) alias p p' a q :
  dbs !! alias = Some p -> advances p p' -> dbs !! a = Some q -> exists q', <[alias := p']> dbs !! a = Some q' /\ advances q q'.
Proof.
  intros Hp Hadv Hq. destruct (decide (alias = a)) as [->|Hne].
  - rewrite lookup_insert_eq. exists p'. by simplify_eq.
  - rewrite lookup_insert_ne by done. by exists q.
Qed.

Lemma placement_advances t t' alias p :
  topology_step t t' -> tp_databases t !! alias = Some p -> exists p', tp_databases t' !! alias = Some p' /\ advances p p'.
Proof.
  intros H Hp. assert (Hsame : exists p', tp_databases t !! alias = Some p' /\ advances p p') by (by exists p).
  inversion H as [? ? ? ? ? ? H1|? ? ? ? ? ? H1|? ? ? ? H1|? ? ? ? ? H1| | | | | | | | | | |]; subst; try exact Hsame.
  - unfold add_shard_database_placement in H1. do 2 (apply bind_Ok in H1 as (? & _ & H1)). apply bind_Ok in H1 as (? & Hn%ensure_Ok & H1).
    apply bind_Ok in H1 as (? & _ & [= <-]). exists p. cbn. rewrite lookup_insert_ne; [done|]. intros ->. by rewrite Hp in Hn.
  - unfold activate_probed_placement in H1. apply bind_Ok in H1 as (q & Hq%ok_or_Ok & H1). destruct (str_eqb q.2 "active") eqn:Ea; [by injection H1 as <- _|].
    apply bind_Ok in H1 as (? & Hr & H1). do 2 (apply bind_Ok in H1 as (? & _ & H1)). injection H1 as <- _.
    unfold require_provisioning_shard_placement in Hr. apply bind_Ok in Hr as (? & _ & Hs%ensure_Ok%str_eqb_true).
    apply (advances_insert _ _ q); [done| |done]. split_and!; [done|by rewrite Hs|]. intros _ Ha. by rewrite Ha in Hs.
  - unfold drain_database_placement in H1. apply bind_Ok in H1 as (? & _ & H1). apply bind_Ok in H1 as (q & Hq%ok_or_Ok & H1).
    apply bind_Ok in H1 as (? & Hc%ensure_Ok & H1). do 2 (apply bind_Ok in H1 as (? & _ & H1)).
    destruct (str_eqb q.2 "draining"); [by injection H1 as <- _|]. apply bind_Ok in H1 as (? & Hs%ensure_Ok%str_eqb_true & [= <- _]).
    apply (advances_insert _ _ q); [done| |done]. split_and!; [done|by rewrite Hs|]. intros Hcc. by rewrite Hcc in Hc.
  - unfold disable_database_placement in H1. apply bind_Ok in H1 as (? & _ & H1). apply bind_Ok in H1 as (q & Hq%ok_or_Ok & H1).
    apply bind_Ok in H1 as (? & _ & H1). destruct (str_eqb q.2 "disabled"); [by injection H1 as <- _|].
    apply bind_Ok in H1 as (? & Hs%ensure_Ok%str_eqb_true & H1). do 6 (apply bind_Ok in H1 as (? & _ & H1)). injection H1 as <- _.
    apply (advances_insert _ _ q); [done| |done]. split_and!; [done|by rewrite Hs|]. intros _ Ha. by rewrite Ha in Hs.
Qed.

Lemma advances_later t t' alias p :
  rtc topology_step t t' -> tp_databases t !! alias = Some p -> exists p', tp_databases t' !! alias = Some p' /\ advances p p'.
Proof.
  intros H. revert p. induction H as [|t t1 t' Hs _ IH]; intros p Hp; [by exists p|].
  destruct (placement_advances _ _ _ _ Hs Hp) as (q & Hq & Ha). destruct (IH q Hq) as (p' & Hp' & Ha'). exists p'. split; [done|by etrans].
Qed.

(** The catalog that migration 0003 seeds. *)
Definition seeded : Topology :=
  mkTopology {["primary" := ("control_and_shard", "active")]} {["primary" := "DATABASE_URL"]} (mkControl ∅ ∅ ∅ ∅ ∅ ∅ ∅ ∅) (empty_ledger, ∅).

(** C19: a routed shard is always served.  From the seeded catalog, under any
    interleaving of registrations, activations, drains, disables, admissions,
    moves, aborts and rebalances: every route leads to a placement that serves it
    (a dispatchable route is dispatched, the others are readable, none is
    blocked); the target of a move in flight keeps accepting the shard; the
    control placement stays active; and a placement keeps its role and only goes
    forward from provisioning to active, draining and disabled. *)
Theorem routes_stay_served t :
  rtc topology_step seeded t ->
  (forall s r, tp_routes t !! s = Some r ->
     routing_decision t s = Ok (if is_dispatchable (placement_of s r) then "dispatchable" else "read_only")
     /\ forall target, pm_move_target_database_alias r = Some target -> validate_new_ownership_target (tp_databases t) target = Ok tt)
  /\ tp_databases t !! "primary" = Some ("control_and_shard", "active")
  /\ forall t' alias p, rtc topology_step t t' -> tp_databases t !! alias = Some p ->
       exists p', tp_databases t' !! alias = Some p' /\ p'.1 = p.1 /\ lifecycle_rank p.2 <= lifecycle_rank p'.2.
Proof.
  intros H. assert (HI : TopologyInv t) by (apply (TopologyInv_later _ _ H); intros s r; cbn; by rewrite lookup_empty).
  split_and!.
  - intros s r Hr. destruct (HI s r Hr) as (_ & (p & Hp & Hs & Hc) & Ht). split; [|by intros target Hm; apply validate_receives, Ht].
    unfold routing_decision. rewrite Hr. cbn [ok_or mbind]. cbn. rewrite Hp. cbn. rewrite Hs, Hc. cbn. by rewrite andb_true_r.
  - destruct (advances_later _ _ "primary" ("control_and_shard", "active") H) as (p' & Hp' & _ & _ & Hk); [done|]. by rewrite Hp', Hk.
  - intros t' alias p Hlater Hp. destruct (advances_later _ _ _ _ Hlater Hp) as (p' & Hp' & H1 & H2 & _). by exists p'.
Qed.

(** ** A deployment *)

Module TopologySample.

Definition step (r : result Topology) (t : Topology) : Topology := match r with Ok t' => t' | Err _ => t end.

(** [shard_001] is added and activated, a shard is routed to [primary] and
    reserved for [shard_001]. *)
Definition added : Topology := step (add_shard_database_placement (fun _ => true) "shard_001" "SHARD_URL" false seeded) seeded.
Definition activated : Topology := set_database added "shard_001" ("shard", "active").

(** A target with the control database's migrations is ready and becomes active. *)
Example activation_activates :
  activate_database_placement
    (verify_database_placement_readiness [(1, "init", "c0ffee")] [7] (mkProbe 9 [(1, "init", "c0ffee")] false (Ok tt)))
    (fun t => t) "shard_001" added
  = Ok (activated, mkDatabasePlacementActivationOutcome ("shard", "active") true true (Some 1)).
Proof. vm_compute. reflexivity. Qed.

Definition assigned : Topology :=
  set_routes activated {[(5, 3) := mkPlacementRow "primary" "active" None 1 1]}.
Definition copying : Topology :=
  set_routes assigned {[(5, 3) := mkPlacementRow "primary" "copying" (Some "shard_001") 2 1]}.

Lemma copying_reachable : rtc topology_step seeded copying.
Proof.
  eapply rtc_l; [apply (TAdd (fun _ => true) "shard_001" "SHARD_URL" false _ added); vm_compute; reflexivity|].
  eapply rtc_l; [apply (TActivate "shard_001" (("shard", "provisioning"), Some "SHARD_URL") 40 _ activated
                          (mkDatabasePlacementActivationOutcome ("shard", "active") true true (Some 40))); vm_compute; reflexivity|].
  eapply rtc_l; [apply (TAssign (5, 3) "primary" _ {[(5, 3) := mkPlacementRow "primary" "active" None 1 1]}
                          (mkPlacementRow "primary" "active" None 1 1)); vm_compute; reflexivity|].
  apply rtc_once. apply (TReserve (5, 3) "primary" 1 "shard_001" _ {[(5, 3) := mkPlacementRow "primary" "copying" (Some "shard_001") 2 1]}
                           (Some (mkPlacementRow "primary" "copying" (Some "shard_001") 2 1))). vm_compute. reflexivity.
Qed.

(** While the shard is copied its route is dispatched, its target accepts it and
    cannot be drained. *)
Lemma routes_stay_served_witness :
  routing_decision copying (5, 3) = Ok "dispatchable"
  /\ validate_new_ownership_target (tp_databases copying) "shard_001" = Ok tt
  /\ drain_database_placement "shard_001" copying = Err "the database placement is the target of in-flight shard moves".
Proof.
  destruct (routes_stay_served copying copying_reachable) as (H & _).
  destruct (H (5, 3) (mkPlacementRow "primary" "copying" (Some "shard_001") 2 1)) as [H1 H2]; [vm_compute; reflexivity|].
  split; [exact H1|]. split; [apply H2; reflexivity|vm_compute; reflexivity].
Defined.
End TopologySample.
