(* ===== verification/SetPlacement.v ===== *)
(** * Routing an empty shard

    [set_shard_placement] and [change_empty_shard_placement] of
    src/vigilo/src/db/workflows/shard_admin.rs, as programs over the world of
    [ShardMove]: an operator may route a shard that has no rows yet. *)

From Stdlib Require Import ZArith Lia ZifyBool.
From stdpp Require Import base strings numbers countable gmap sorting sets option list.
From S2P Require Import Prelude Prog BTree Text RunTypes ShardTables LocalAdmission ShardRows ControlTables RunPlanning.
From S2P Require Import PlanLedger LocalSeed MoveTables ShardMove MoveRely MoveDelivery MoveRuns PlacementAdmin.

Open Scope Z_scope.

Record ShardPlacementSetOutcome := mkShardPlacementSetOutcome {
  st_placement : ShardPlacement;
  st_previous_database_alias : option string;
  st_changed : bool
}.

Definition ROUTE_CHANGED : string := "route changed while its empty placement was being updated".

Definition validate_existing_ownership (dbs : databases) (alias : string) : result unit :=
  p ← find_database dbs alias;
  _ ← ensure (can_serve_owned_shards p) "database placement cannot serve existing shard ownership";
  ensure (is_shard_capable p) "database placement is not shard-capable".

Section set_placement.
Context {MF : MoveFunctions} {LF : LedgerFunctions}.
Variable identity_of : string -> Z.
Variable control_alias : string.
Variable now_at : nat -> Z.
Variable fault_at : nat -> Fault.
Variable env : nat -> World -> World.

Notation query := (query now_at fault_at env).
Notation operation := (operation now_at fault_at env).

Definition select_route (s : shard_key) : prog (option ShardPlacement) :=
  query (fun w => Ok (placement_of s <$> mw_placements w !! s)).

(** The end of the source transaction; on the control database it changes the
    route as well. *)
Definition close_source (s : shard_key) (source : string) (expected : ShardPlacement) (target_alias : string)
    : prog (option PlacementRow) :=
  operation (fun now w =>
    p ← place_at identity_of control_alias w source;
    st ← transition_local_shard_admission (pc_db p) now
           (draft s (sp_database_alias expected) (sp_write_epoch expected + 1) Closed (Some target_alias)) [Closed];
    let w := put_place identity_of control_alias w source (set_db p st.1) in
    if str_eqb (sp_database_alias expected) control_alias then
      changed ← change_route (mw_databases w) s (sp_database_alias expected) (sp_route_version expected) target_alias (mw_placements w);
      Ok (set_placements w changed.1, changed.2)
    else Ok (w, None)).

Definition change_empty_shard_placement (s : shard_key) (expected : ShardPlacement) (target_alias : string) : prog ShardPlacement :=
  source ⇐ execution_database now_at fault_at env (sp_database_alias expected);
  target ⇐ execution_target_database now_at fault_at env target_alias;
  changed ⇐ with_source_tx now_at fault_at env (
    current ⇐ select_route s;
    _ ⇐ lift (ensure (is_some_and (same_route_fence expected) current) ROUTE_CHANGED);
    n ⇐ place_query identity_of control_alias now_at fault_at env source (fun p => count_shard_owned_rows p s);
    _ ⇐ lift (ensure (negb (0 <? n)) "the shard already has shard-owned rows; use the shard move workflow");
    close_source s source expected target_alias);
  changed ⇐ (if str_eqb (sp_database_alias expected) control_alias then pret changed
             else operation (fun _ w =>
               changed ← change_route (mw_databases w) s (sp_database_alias expected) (sp_route_version expected) target_alias
                           (mw_placements w);
               Ok (set_placements w changed.1, changed.2)));
  r ⇐ lift (ok_or changed ROUTE_CHANGED);
  _ ⇐ transition identity_of control_alias now_at fault_at env target (draft s target_alias (pm_write_epoch r) Open None)
        [Prepared; Closed; Open];
  pret (placement_of s r).

Definition set_shard_placement (run_id run_shard : Z) (database_alias : string) : prog ShardPlacementSetOutcome :=
  let s := (run_id, run_shard) in
  _ ⇐ lift (validate_run_shard run_shard);
  _ ⇐ lift (validate_non_empty database_alias);
  _ ⇐ ensure_run_creation_is_inactive now_at fault_at env run_id;
  existing ⇐ select_route s;
  _ ⇐ lift (ensure (is_none_or (fun e => str_eqb (sp_status e) "active") existing)
              "only the shard move workflow may recover or change a non-active route");
  let previous := sp_database_alias <$> existing in
  let changed := is_none_or (fun a => negb (str_eqb a database_alias)) previous in
  placement ⇐ match existing with
              | Some e =>
                  if str_eqb (sp_database_alias e) database_alias then
                    _ ⇐ database_check now_at fault_at env (fun dbs => validate_existing_ownership dbs database_alias);
                    pret e
                  else change_empty_shard_placement s e database_alias
              | None =>
                  operation (fun _ w =>
                    st ← assign_route (mw_databases w) s database_alias (mw_placements w);
                    Ok (set_placements w st.1, placement_of s st.2))
              end;
  pret (mkShardPlacementSetOutcome placement previous changed).

(** ** What a change of an empty shard's route does *)

Variables (s : shard_key) (a source : string).
Hypothesis source_of : normalize_alias a = Ok source.
Hypothesis env_history : forall n w, mw_history (env n w) = mw_history w.
Hypothesis env_locked : forall n w, mw_locked (env n w) = mw_locked w.
(** The exclusive fence of the shard on the source database. *)
Hypothesis env_fence : forall n w p', mw_locked w = true -> mw_places (env n w) !! identity_of source = Some p' ->
  exists p, mw_places w !! identity_of source = Some p /\ (shard_rows (pc_db p) s = [] -> shard_rows (pc_db p') s = []).

(** A recorded effect closed the empty source. *)
Definition closed_empty (epoch : Z) (target_alias : string) (h : list (View * View)) : Prop := exists v v' p p' ad,
  (v, v') ∈ h /\ vw_places v !! identity_of source = Some p /\ shard_rows (pc_db p) s = []
  /\ vw_places v' !! identity_of source = Some p' /\ db_admissions (pc_db p') !! s = Some ad
  /\ ad_state ad = Closed /\ ad_write_epoch ad = epoch /\ ad_redirect_database_alias ad = Some target_alias.

Lemma closed_empty_suffix epoch t h h' : h `suffix_of` h' -> closed_empty epoch t h -> closed_empty epoch t h'.
Proof. intros [l ->] (v & v' & p & p' & ad & Hin & H). exists v, v', p, p', ad. split; [|done]. apply elem_of_app. by right. Qed.

Lemma query_effect {A} (f : World -> result A) w w' x :
  query f w = Some (w', Ok x) ->
  exists w1, f w1 = Ok x /\ mw_locked w1 = mw_locked w /\ mw_locked w' = mw_locked w
    /\ mw_places w1 = mw_places (env (mw_turn w) w) /\ mw_places w' = mw_places w1.
Proof.
  unfold ShardMove.query, ShardMove.operation. cbv zeta. intros H%attempt_Ok. apply bind_Ok in H as ([w2 y] & H & [= <- <-]).
  apply bind_Ok in H as (z & Hz & [= <- <-]). eexists. split; [exact Hz|]. cbn. by rewrite env_locked.
Qed.

Lemma place_at_db w p : place_at identity_of control_alias w source = Ok p ->
  exists p0, mw_places w !! identity_of source = Some p0 /\ pc_db p = pc_db p0.
Proof.
  unfold place_at. intros H. apply bind_Ok in H as (p0 & Hp0%ok_or_Ok & [= <-]). exists p0. split; [done|]. by destruct (_ =? _).
Qed.

Lemma transition_row db now d allowed db' row :
  transition_local_shard_admission db now d allowed = Ok (db', row) ->
  db_admissions db' !! (dr_run_id d, dr_run_shard d) = Some row /\ ad_state row = dr_state d
  /\ ad_write_epoch row = dr_write_epoch d /\ ad_redirect_database_alias row = dr_redirect_database_alias d.
Proof.
  unfold transition_local_shard_admission. intros H. apply bind_Ok in H as (? & _ & H). apply bind_Ok in H as (w & Hw & H).
  destruct w as [db1|]; [|done]. injection H as <- <-. split_and!; [|done..].
  unfold admission_upsert in Hw. apply bind_Ok in Hw as (? & _ & Hw).
  destruct (db_admissions db !! _) as [old|]; [destruct (transition_guard _ _ old); [|done]|]; injection Hw as <-; cbn; apply lookup_insert_eq.
Qed.

Lemma change_route_effect dbs version target_alias routes routes' r :
  change_route dbs s a version target_alias routes = Ok (routes', Some r) ->
  routes' !! s = Some r /\ pm_database_alias r = target_alias /\ pm_status r = "active".
Proof.
  unfold change_route. intros H. apply bind_Ok in H as (? & _ & H). apply update_route_effect in H as [[H _]|(r0 & Hr0 & Hg & Hr & ->)]; [discriminate H|].
  injection Hr as ->. rewrite lookup_insert_eq. split_and!; [done|done|].
  apply route_at_true in Hg as (_ & _ & Hst & _). cbn in Hst. rewrite orb_false_r in Hst. by apply str_eqb_true.
Qed.

Section change.
Variables (expected : ShardPlacement) (target_alias : string).
Hypothesis from_source : sp_database_alias expected = a.

(** The close of the source under the fence. *)
Lemma close_effect w w' changed p0 :
  mw_locked w = true -> mw_places w !! identity_of source = Some p0 -> shard_rows (pc_db p0) s = [] ->
  close_source s source expected target_alias w = Some (w', Ok changed) ->
  closed_empty (sp_write_epoch expected + 1) target_alias (mw_history w')
  /\ forall r, changed = Some r -> observed s target_alias (mw_history w').
Proof.
  intros Hl Hp0 Hempty H. unfold close_source, ShardMove.operation in H. cbv zeta in H. apply attempt_Ok in H.
  apply bind_Ok in H as ([w2 x] & H & [= <- <-]). set (w1 := set_turn (env (mw_turn w) w) (S (mw_turn w))) in *.
  apply bind_Ok in H as (p & Hp & H). apply bind_Ok in H as ([db row] & Ht & H).
  destruct (place_at_db _ _ Hp) as (p1 & Hp1 & Hdb). apply transition_row in Ht as (Hrow & Hst & Hep & Hre).
  assert (Hin : vw_places (view w1) !! identity_of source = Some p1) by done.
  assert (Hnone : shard_rows (pc_db p1) s = []).
  { destruct (env_fence (mw_turn w) w p1 Hl Hp1) as (q & Hq & Hkeep). rewrite Hp0 in Hq. injection Hq as <-. by apply Hkeep. }
  assert (Hput : forall routes, vw_places (view (set_placements (put_place identity_of control_alias w1 source (set_db p db)) routes)) !! identity_of source
                                = Some (set_db p db)).
  { intros routes. unfold put_place. cbn. apply lookup_insert_eq. }
  assert (Hplaces : vw_places (view w2) !! identity_of source = Some (set_db p db)
                    /\ forall r, x = Some r -> exists r', mw_placements w2 !! s = Some r' /\ pm_database_alias r' = target_alias /\ pm_status r' = "active").
  { cbn [fst snd] in H. destruct (str_eqb (sp_database_alias expected) control_alias).
    - apply bind_Ok in H as ([routes r] & Hc & [= <- <-]). split; [apply Hput|]. intros r' ->. rewrite from_source in Hc.
      apply change_route_effect in Hc. by exists r'.
    - injection H as <- <-. split; [|done]. unfold put_place. cbn. apply lookup_insert_eq. }
  destruct Hplaces as [Hpl Hobs]. split.
  - exists (view w1), (view w2), p1, (set_db p db), row. split; [by apply elem_of_cons; left|]. split_and!; [done|done|done| |done..].
    cbn in Hrow |- *. by destruct s.
  - intros r Hr. destruct (Hobs r Hr) as (r' & Hr' & H1 & H2). exists (view w1), (view w2), r'. split; [by apply elem_of_cons; left|done].
Qed.

Lemma change_effect w w' placement :
  change_empty_shard_placement s expected target_alias w = Some (w', Ok placement) ->
  closed_empty (sp_write_epoch expected + 1) target_alias (mw_history w') /\ observed s target_alias (mw_history w').
Proof.
  unfold change_empty_shard_placement. intros (w1 & source1 & Hs & H)%pbind_Ok. rewrite from_source in Hs.
  unfold execution_database, execution_pool in Hs. apply pbind_Ok in Hs as (w2 & x & Hx%lift_Ok & Hs). destruct Hx as [_ Hx].
  rewrite source_of in Hx. injection Hx as <-. apply query_effect in Hs as (w3 & Hs & _).
  apply bind_Ok in Hs as (? & _ & Hs). apply bind_Ok in Hs as (? & _ & Hs). apply bind_Ok in Hs as (? & _ & [= <-]). clear w2 w3.
  apply pbind_Ok in H as (w2 & target & _ & H). apply pbind_Ok in H as (w3 & changed & Htx & H).
  assert (Hclosed : closed_empty (sp_write_epoch expected + 1) target_alias (mw_history w3)
                    /\ forall r, changed = Some r -> observed s target_alias (mw_history w3)).
  { unfold with_source_tx in Htx. destruct (pbind _ _ w2) as [[w4 r]|] eqn:E; [|done]. injection Htx as <- ->. cbn.
    apply pbind_Ok in E as (w5 & [] & Hlock & E). unfold ShardMove.operation in Hlock. cbv zeta in Hlock. apply attempt_Ok in Hlock.
    injection Hlock as <-. apply pbind_Ok in E as (w6 & current & Hq & E). apply query_effect in Hq as (? & _ & _ & Hl6 & _).
    apply pbind_Ok in E as (w7 & [] & Hen & E). apply lift_Ok in Hen as [-> _].
    apply pbind_Ok in E as (w8 & n & Hcount & E). apply query_effect in Hcount as (w9 & Hcount & _ & Hl8 & _ & Hp8).
    apply pbind_Ok in E as (w10 & [] & Hzero & E). apply lift_Ok in Hzero as [-> Hzero%ensure_Ok].
    apply bind_Ok in Hcount as (p & Hp & [= <-]). destruct (place_at_db _ _ Hp) as (p0 & Hp0 & Hdb).
    eapply (close_effect w8 _ _ p0); [by rewrite Hl8, Hl6|by rewrite Hp8| |exact E]. rewrite <- Hdb. unfold count_shard_owned_rows, zlen in Hzero.
    destruct (shard_rows (pc_db p) s); [done|cbn in Hzero; lia]. }
  destruct Hclosed as [Hclosed Hobs]. apply pbind_Ok in H as (w4 & changed' & Hch & H). apply pbind_Ok in H as (w5 & r & Hr & H).
  apply lift_Ok in Hr as [-> Hr%ok_or_Ok].
  assert (Hnow : mw_history w3 `suffix_of` mw_history w4 /\ observed s target_alias (mw_history w4)).
  { destruct (str_eqb (sp_database_alias expected) control_alias).
    - apply pret_Ok in Hch as [-> ->]. split; [done|by eapply Hobs].
    - split.
      + revert Hch. apply operation_extends; [exact env_history|]. intros ? ? ? ? Hf. by apply bind_Ok in Hf as (? & _ & [= <- _]).
      + apply operation_effect in Hch as (now & w6 & w7 & Hf & Hh). apply bind_Ok in Hf as ([routes r'] & Hf & [= <- Hr']).
        cbn [snd] in Hr'. subst r'. rewrite Hr, from_source in Hf. apply change_route_effect in Hf as (Hr1 & H1 & H2).
        exists (view w6), (view (set_placements w6 routes)), r. rewrite Hh. split; [by apply elem_of_cons; left|done]. }
  assert (Hrest : mw_history w4 `suffix_of` mw_history w').
  { revert H. apply bind_extends; [apply place_extends; exact env_history|]. intros []. apply ret_extends. }
  destruct Hnow as [Hmid Hnow]. split; [|by eapply observed_suffix]. eapply closed_empty_suffix; [|exact Hclosed]. by etrans.
Qed.
End change.

Lemma set_effect run_id run_shard target_alias w w' out :
  s = (run_id, run_shard) ->
  set_shard_placement run_id run_shard target_alias w = Some (w', Ok out) ->
  st_previous_database_alias out = Some a -> st_changed out = true ->
  (exists epoch, closed_empty epoch target_alias (mw_history w')) /\ observed s target_alias (mw_history w').
Proof.
  intros Hs H Hprev Hch. unfold set_shard_placement in H. cbv zeta in H. rewrite <- Hs in H.
  do 3 (apply pbind_Ok in H as (? & ? & _ & H)). apply pbind_Ok in H as (w1 & existing & _ & H). apply pbind_Ok in H as (? & ? & _ & H).
  apply pbind_Ok in H as (w2 & placement & Hp & H). apply pret_Ok in H as [-> ->]. cbn in Hprev, Hch.
  destruct existing as [e|]; [|done]. injection Hprev as Ha. cbn in Hch. destruct (str_eqb (sp_database_alias e) target_alias); [done|].
  apply (change_effect e target_alias Ha) in Hp as [H1 H2]. split; [by eexists|done].
Qed.
End set_placement.

(** C23: a shard is re-routed by hand only while it is empty.  When
    [set_shard_placement] reports that it changed an existing route, it recorded
    the moment at which it closed the old database for the shard with a redirect to
    the new one, that database had no row of the shard then, whatever other
    processes did before the fence was taken, and the shard was seen routed to the
    new database and active. *)
Theorem set_placement_moves_no_rows {MF : MoveFunctions} {LF : LedgerFunctions} (identity_of : string -> Z) (control_alias : string)
    (now_at : nat -> Z) (fault_at : nat -> Fault) (env : nat -> World -> World) (run_id run_shard : Z) (a source target : string)
    (w w' : World) (out : ShardPlacementSetOutcome) :
  normalize_alias a = Ok source ->
  (forall n w, mw_history (env n w) = mw_history w) -> (forall n w, mw_locked (env n w) = mw_locked w) ->
  (forall n w p', mw_locked w = true -> mw_places (env n w) !! identity_of source = Some p' ->
     exists p, mw_places w !! identity_of source = Some p
       /\ (shard_rows (pc_db p) (run_id, run_shard) = [] -> shard_rows (pc_db p') (run_id, run_shard) = [])) ->
  mw_history w = [] ->
  set_shard_placement identity_of control_alias now_at fault_at env run_id run_shard target w = Some (w', Ok out) ->
  st_previous_database_alias out = Some a -> st_changed out = true ->
  (exists epoch, closed_empty identity_of (run_id, run_shard) source epoch target (mw_history w'))
  /\ observed (run_id, run_shard) target (mw_history w').
Proof.
  intros Hsource Hh Hl Hf _ H Hprev Hch.
  by apply (set_effect identity_of control_alias now_at fault_at env (run_id, run_shard) a source Hsource Hh Hl Hf run_id run_shard target w w' out).
Qed.

(** ** A run *)

Module SetSample.

(** The sample deployment with a second shard that has no rows. *)
Definition start : World :=
  set_placements MoveSample.start (<[(5, 4) := mkPlacementRow "primary" "active" None 1 1]> (mw_placements MoveSample.start)).

Notation set_run := (set_shard_placement MoveSample.identity_of "primary" MoveSample.ticks MoveSample.no_fault MoveSample.calm).

Definition changed_from_primary (r : option (World * result ShardPlacementSetOutcome)) : bool :=
  match r with
  | Some (_, Ok out) => bool_decide (st_previous_database_alias out = Some "primary") && st_changed out
  | _ => false
  end.

(** A shard with rows is refused. *)
Example set_refuses_rows :
  snd <$> set_run 5 3 "shard_001" start = Some (Err "the shard already has shard-owned rows; use the shard move workflow").
Proof. vm_compute. reflexivity. Qed.

Lemma set_placement_moves_no_rows_witness : exists w' out,
  set_run 5 4 "shard_001" start = Some (w', Ok out) /\ st_changed out = true
  /\ (exists epoch, closed_empty MoveSample.identity_of (5, 4) "primary" epoch "shard_001" (mw_history w'))
  /\ observed (5, 4) "shard_001" (mw_history w').
Proof.
  assert (Hb : changed_from_primary (set_run 5 4 "shard_001" start) = true) by (vm_compute; reflexivity).
  destruct (set_run 5 4 "shard_001" start) as [[w' [out|e]]|] eqn:E; [|discriminate Hb..]. exists w', out. split; [reflexivity|].
  apply andb_true_iff in Hb as [Hp Hc]. apply bool_decide_eq_true in Hp. split; [exact Hc|].
  apply (set_placement_moves_no_rows MoveSample.identity_of "primary" MoveSample.ticks MoveSample.no_fault MoveSample.calm 5 4 "primary"
           "primary" "shard_001" start w' out).
  - vm_compute. reflexivity.
  - reflexivity.
  - reflexivity.
  - intros n w p' _ Hp'. exists p'. split; [exact Hp'|]. intros H. exact H.
  - reflexivity.
  - exact E.
  - exact Hp.
  - exact Hc.
Defined.
End SetSample.
