(* ===== verification/RunDispatch.v ===== *)
(** * Dispatch in the control database

    How a coordinator picks the next shard to dispatch and what its control
    transaction writes: the statements of
    src/vigilo/src/db/workflows/run_dispatch/queries.rs on [runs], the dispatch
    cursors and the routes, and the pair of transactions of
    [dispatch_routed_run_window_with_transactions] in run_dispatch.rs.  The
    execution side is [dispatch_routed_run_window] of [ChunkLease].

    A control transaction holds the row lock of its cursor from the claim and
    that of the run from the snapshot until it ends, so no other transaction
    changes either row in between: the claim, the snapshot and the cursor update
    are one step of the control database.  [now()] is the start of the
    transaction. *)

From Stdlib Require Import ZArith Lia ZifyBool.
From stdpp Require Import base strings numbers gmap sorting sets option list.
From S2P Require Import Prelude Prog Float64 BTree Text Json RunTypes StorageFormats Scorecard.
From S2P Require Import ShardTables ReceiptGates LocalAdmission Settlement ChunkLease ControlTables PlanLedger.

Open Scope Z_scope.

Record DispatchRoute := mkDispatchRoute {
  rt_run_id : Uuid;
  rt_run_shard : Z;
  rt_database_alias : string;
  rt_placement_status : string;
  rt_route_version : Z;
  rt_write_epoch : Z
}.

Record DispatchRunSnapshot := mkDispatchRunSnapshot {
  sh_run_id : Uuid;
  sh_run_shard : Z;
  sh_context : RunContext;
  sh_run_started_event_records_inserted : Z
}.

(** [RoutedDispatchError]. *)
Inductive RoutedDispatchError :=
| DispatchInvariant (e : string)
| DispatchControl (e : string)
| DispatchExecutionWrite (e : string).

(** ** Choosing a cursor *)

(** The condition on the run row. *)
Definition dispatchable_run (now : Z) (r : RunRow) : bool :=
  match rw_status r with
  | RunRunning => true
  | RunPending => lease_free true now (rw_state r)
  | _ => false
  end.

(** [dp.status IN ('active', 'draining') AND dp.role IN ('shard', 'control_and_shard')]. *)
Definition serves_shards (row : string * string) : bool :=
  (str_eqb row.2 "active" || str_eqb row.2 "draining") && (str_eqb row.1 "shard" || str_eqb row.1 "control_and_shard").

(** The join over a cursor row. *)
Definition dispatchable_cursor (c : Control) (dbs : databases) (now : Z) (k : shard_key) (cu : CursorRow)
    : option PlacementRow :=
  r ← cd_runs c !! k.1;
  p ← cd_placements c !! k;
  d ← dbs !! pm_database_alias p;
  if bool_decide (cu_status cu = CursorOpen) && str_eqb (pm_status p) "active" && serves_shards d
     && dispatchable_run now r
  then Some p else None.

Definition route_of (k : shard_key) (p : PlacementRow) : DispatchRoute :=
  mkDispatchRoute k.1 k.2 (pm_database_alias p) (pm_status p) (pm_route_version p) (pm_write_epoch p).

(** [ORDER BY c.updated_at, c.run_id, c.run_shard]. *)
Definition cursor_le (a b : shard_key * CursorRow) : Prop :=
  cu_updated_at a.2 < cu_updated_at b.2 \/
  (cu_updated_at a.2 = cu_updated_at b.2 /\ (a.1.1 < b.1.1 \/ (a.1.1 = b.1.1 /\ a.1.2 <= b.1.2))).
#[global] Instance cursor_le_dec : RelDecision cursor_le.
Proof. intros a b. unfold cursor_le. apply _. Defined.

(** [locked] are the cursors other transactions hold ([SKIP LOCKED]). *)
Definition claimable (c : Control) (dbs : databases) (now : Z) (excluded : list string) (locked : shard_key -> bool)
    (k : shard_key) (cu : CursorRow) : bool :=
  is_some_and (fun p => negb (bool_decide (pm_database_alias p ∈ excluded))) (dispatchable_cursor c dbs now k cu)
  && negb (locked k).

Definition claim_next_dispatch_route (c : Control) (dbs : databases) (now : Z) (excluded : list string)
    (locked : shard_key -> bool) : option DispatchRoute :=
  kc ← head (merge_sort cursor_le (map_to_list (rows_where (claimable c dbs now excluded locked) (cd_cursors c))));
  route_of kc.1 <$> dispatchable_cursor c dbs now kc.1 kc.2.

Definition count_dispatch_cursor_backlog (c : Control) (dbs : databases) (now : Z) : Z :=
  count_where (fun k cu => opt_is_some (dispatchable_cursor c dbs now k cu)) (cd_cursors c).

(** ** Starting the run *)

Definition started_state (now coordinator_id lease_seconds : Z) (s : RunState) : RunState :=
  mkRunState RunRunning (rn_gate_status s) (Some coordinator_id) (Some (now + lease_seconds * second)) (Some now)
    (rn_terminal_execution_count s) (rn_passed_execution_count s) (rn_failed_execution_count s)
    (rn_errored_execution_count s) (rn_summary s) (rn_error_message s) (Some (default now (rn_started_at s)))
    (Some (default now (rn_dispatched_at s))) (rn_finalized_at s) (rn_completed_at s) now.

Section dispatch.
Context {RF : ReceiptFunctions}.
(** [Uuid] as JSON. *)
Variable uuid_value : Uuid -> Value.

Definition started_event (run_id : Uuid) : Value := Object [("run_id", uuid_value run_id)].

Definition prepare_dispatch_run_snapshot_with (c : Control) (now : Z) (route : DispatchRoute)
    (coordinator_id lease_seconds : Z) : Control * option DispatchRunSnapshot :=
  let run_id := rt_run_id route in
  match cd_runs c !! run_id with
  | None => (c, None)
  | Some r =>
      match rw_status r with
      | RunPending =>
          if lease_free true now (rw_state r) then
            let events := insert_new (run_id, "started") (started_event run_id) (cd_outbox c) in
            (with_events (update_run c run_id r (started_state now coordinator_id lease_seconds (rw_state r))) events,
             Some (mkDispatchRunSnapshot run_id (rt_run_shard route) (rw_context r)
                     (Z.of_nat (size events) - Z.of_nat (size (cd_outbox c)))))
          else (c, None)
      | RunRunning => (c, Some (mkDispatchRunSnapshot run_id (rt_run_shard route) (rw_context r) 0))
      | _ => (c, None)
      end
  end.

Definition cursor_status_of (text : string) : result CursorStatus :=
  if str_eqb text "open" then Ok CursorOpen
  else if str_eqb text "drained" then Ok CursorDrained
  else Err "new row for relation run_shard_dispatch_cursors violates check constraint".

Definition update_dispatch_cursor (c : Control) (now run_id run_shard : Z) (status : string) : result Control :=
  if opt_is_none (cd_cursors c !! (run_id, run_shard)) then Ok c
  else
    status ← cursor_status_of status;
    Ok (with_cursors c (<[(run_id, run_shard) := mkCursorRow status now]> (cd_cursors c))).

(** ** The two transactions *)

(** [begin_execution_admission] and the execution transaction: the database as
    it is committed, and the status the cursor gets. *)
Definition dispatch_execution (db : Database) (now window : Z) (placement : ShardPlacement)
    (current : LocalShardAdmissionError + ShardPlacement) (route : DispatchRoute) (snapshot : DispatchRunSnapshot)
    : RoutedDispatchError + (Database * DispatchedRunWindow * string) :=
  match begin_execution_admission db now placement current with
  | inl _ => inl (DispatchExecutionWrite "execution admission refused")
  | inr db =>
      if negb ((sh_run_id snapshot =? rt_run_id route) && (sh_run_shard snapshot =? rt_run_shard route))
      then inl (DispatchInvariant "dispatch snapshot route mismatch")
      else
        match dispatch_routed_run_window db now window (rt_run_id route) (rt_run_shard route)
                (rt_database_alias route) (rt_write_epoch route) (sh_run_id snapshot) (sh_run_shard snapshot)
                (sh_context snapshot) with
        | Ok out => inr out
        | Err e => inl (DispatchExecutionWrite e)
        end
  end.

(** One window: [c0] is the control database before the transaction and [c] what
    the transaction has made of it.  [execution] and [commit] are the faults of
    the execution transaction and of the control commit.  An execution write that
    fails, or whose acknowledgement is lost, rolls the control transaction back. *)
Definition dispatch_window (c0 c : Control) (db : Database) (control_now now window : Z) (placement : ShardPlacement)
    (current : LocalShardAdmissionError + ShardPlacement) (route : DispatchRoute) (snapshot : DispatchRunSnapshot)
    (execution commit : Fault) : Control * Database * (RoutedDispatchError + DispatchedRunWindow) :=
  match execution, dispatch_execution db now window placement current route snapshot with
  | FailsBefore e, _ => (c0, db, inl (DispatchExecutionWrite e))
  | _, inl e => (c0, db, inl e)
  | FailsAfter e, inr (db', _, _) => (c0, db', inl (DispatchExecutionWrite e))
  | NoFault, inr (db', w, status) =>
      match commit, update_dispatch_cursor c control_now (rt_run_id route) (rt_run_shard route) status with
      | NoFault, Ok c' => (c', db', inr w)
      | FailsBefore e, _ | _, Err e => (c0, db', inl (DispatchControl e))
      | FailsAfter e, Ok c' => (c', db', inl (DispatchControl e))
      end
  end.
End dispatch.

(** ** What a window does *)

Section window.
Context {RF : ReceiptFunctions}.

(** The undispatched chunks of a shard. *)
Definition waiting_chunks (run_id run_shard : Z) (db : Database) : Z :=
  count_where (undispatched run_id run_shard) (db_chunks db).

(** A count splits along a case distinction. *)
Lemma count_where_split {K R} `{Countable K} (p q r : K -> R -> bool) (t : gmap K R) :
  (forall k c, t !! k = Some c -> b2z (p k c) = b2z (q k c) + b2z (r k c)) ->
  count_where p t = count_where q t + count_where r t.
Proof.
  induction t as [|k c t Hk IH] using map_ind; intros Hp; [done|]. rewrite !count_where_insert by done.
  rewrite IH; [specialize (Hp k c (lookup_insert_eq _ _ _)); lia|].
  intros k' c' Hk'. apply Hp. rewrite lookup_insert_ne; [done|]. congruence.
Qed.

Lemma count_where_ext {K R} `{Countable K} (p q : K -> R -> bool) (t : gmap K R) :
  (forall k c, t !! k = Some c -> p k c = q k c) -> count_where p t = count_where q t.
Proof.
  intros Hpq. rewrite (count_where_split p q (fun _ _ => false)).
  - rewrite (count_where_empty (fun _ _ => false)) by done. lia.
  - intros k c Hk. rewrite (Hpq k c Hk). cbn. lia.
Qed.

(** Selecting keys of a table splits its count. *)
Lemma count_where_selected (p : row_key -> ChunkRow -> bool) (t : gmap row_key ChunkRow) (selected : list row_key) :
  NoDup selected -> (forall k, k ∈ selected -> exists c, t !! k = Some c /\ p k c = true) ->
  count_where p t = zlen selected + count_where (fun k c => p k c && negb (bool_decide (k ∈ selected))) t.
Proof.
  intros Hnd Hsel. rewrite (count_where_split p (fun k c => p k c && bool_decide (k ∈ selected))
    (fun k c => p k c && negb (bool_decide (k ∈ selected)))).
  2:{ intros k c _. destruct (p k c), (bool_decide _); done. }
  f_equal. unfold count_where, zlen. f_equal. rewrite <- size_dom, <- (size_list_to_set (C := gset row_key) selected) by done.
  f_equal. apply set_eq. intros k. rewrite elem_of_dom, elem_of_list_to_set. split.
  - intros [c Hc]. apply lookup_rows_where in Hc as [_ Hc]. apply andb_true_iff in Hc as [_ Hc]. by apply bool_decide_eq_true in Hc.
  - intros Hk. destruct (Hsel k Hk) as (c & Hc & Hp). exists c. apply lookup_rows_where. split; [done|].
    by rewrite Hp, bool_decide_eq_true_2.
Qed.

Lemma ready_events_mono run_id run_shard alias epoch (l : list row_key) outbox :
  outbox ⊆ fold_left (ready_event run_id run_shard alias epoch) l outbox.
Proof.
  revert outbox. induction l as [|k l IH]; intros outbox; [done|]. cbn. etransitivity; [|apply IH].
  apply map_subseteq_spec. intros key e He. by apply insert_new_mono.
Qed.

Lemma ready_events_has run_id run_shard alias epoch (l : list row_key) outbox k :
  k ∈ l -> is_Some (fold_left (ready_event run_id run_shard alias epoch) l outbox !! (k.1.1, k.2, None)).
Proof.
  revert outbox. induction l as [|k' l IH]; intros outbox Hin; [by apply not_elem_of_nil in Hin|].
  apply elem_of_cons in Hin as [->|Hin]; [|by apply IH]. cbn.
  destruct (insert_new_has (k'.1.1, k'.2, None) (mkReadyEvent k'.1.1 k'.1.2 k'.2 alias epoch None) outbox) as [e He].
  exists e. eapply lookup_weaken; [exact He|]. apply ready_events_mono.
Qed.

Lemma dispatch_run_window_spec db now window run_id run_shard alias epoch context db' w :
  0 <= window -> dispatch_run_window db now window run_id run_shard alias epoch context = (db', w) ->
  waiting_chunks run_id run_shard db' = Z.max 0 (waiting_chunks run_id run_shard db - window) /\
  dw_chunks_marked_dispatched w = Z.min window (waiting_chunks run_id run_shard db) /\
  (dw_has_remaining_chunks w = true <-> 0 < waiting_chunks run_id run_shard db') /\
  db_outbox db ⊆ db_outbox db' /\
  (forall k c, db_chunks db !! k = Some c -> db_chunks db' !! k = Some c \/
     (undispatched run_id run_shard k c = true /\ db_chunks db' !! k = Some (mark_dispatched now c) /\
      is_Some (db_outbox db' !! (k.1.1, k.2, None)))).
Proof.
  intros Hw H. unfold dispatch_run_window in H. set (pending := merge_sort _ _) in H.
  set (selected := map fst (take (Z.to_nat window) pending)) in H. injection H as <- <-.
  cbn [dw_chunks_marked_dispatched dw_has_remaining_chunks].
  assert (Hperm : pending ≡ₚ map_to_list (rows_where (undispatched run_id run_shard) (db_chunks db))) by apply merge_sort_Permutation.
  assert (Hsel : forall k, k ∈ selected -> exists c, db_chunks db !! k = Some c /\ undispatched run_id run_shard k c = true).
  { intros k Hk. apply list_elem_of_fmap in Hk as ([k' c] & -> & Hin). apply elem_of_take in Hin as (i & Hi & _).
    apply list_elem_of_lookup_2 in Hi. rewrite Hperm, elem_of_map_to_list, lookup_rows_where in Hi. by exists c. }
  assert (Hnd : NoDup selected).
  { unfold selected. change (map fst (take (Z.to_nat window) pending)) with (fst <$> take (Z.to_nat window) pending).
    rewrite fmap_take. apply (sublist_NoDup _ (fst <$> pending)); [|apply sublist_take].
    rewrite Hperm. apply NoDup_fst_map_to_list. }
  assert (Hlen : zlen selected = Z.min window (waiting_chunks run_id run_shard db)).
  { unfold selected, zlen, waiting_chunks, count_where. rewrite length_map, length_take, Hperm, length_map_to_list. lia. }
  pose proof (count_where_selected _ _ _ Hnd Hsel) as Hcount. fold (waiting_chunks run_id run_shard db) in Hcount.
  set (left := fun k c => undispatched run_id run_shard k c && negb (bool_decide (k ∈ selected))) in *.
  assert (Hleft : waiting_chunks run_id run_shard
      (with_outbox (with_chunks (upsert_snapshot db run_id run_shard context)
        (update_where (fun k _ => bool_decide (k ∈ selected)) (fun _ => mark_dispatched now) (db_chunks db)))
        (fold_left (ready_event run_id run_shard alias epoch) selected (db_outbox db))) = count_where left (db_chunks db)).
  { unfold waiting_chunks. cbn. unfold update_where. rewrite count_where_imap. apply count_where_ext. intros k c Hk.
    unfold left. destruct (bool_decide (k ∈ selected)); cbn; [|by rewrite andb_true_r].
    unfold undispatched. cbn. by rewrite !andb_false_r. }
  rewrite Hleft. split_and!.
  - lia.
  - done.
  - rewrite exists_where_spec. split.
    + intros (k & c & Hk & Hp). pose proof (count_where_nonneg left (db_chunks db)).
      destruct (decide (count_where left (db_chunks db) = 0)) as [Hz|]; [|lia]. exfalso. unfold count_where in Hz.
      assert (Hr : rows_where left (db_chunks db) !! k = Some c) by (by apply lookup_rows_where).
      assert (rows_where left (db_chunks db) = ∅) as He by (apply map_size_empty_inv; lia). by rewrite He, lookup_empty in Hr.
    + intros Hpos. destruct (decide (rows_where left (db_chunks db) = ∅)) as [He|Hne].
      * unfold count_where in Hpos. rewrite He, map_size_empty in Hpos. lia.
      * apply map_choose in Hne as (k & c & Hk). apply lookup_rows_where in Hk. by exists k, c.
  - cbn. apply ready_events_mono.
  - intros k c Hk. cbn. rewrite lookup_update_where, Hk. cbn. destruct (bool_decide (k ∈ selected)) eqn:Eb; [right|by left].
    apply bool_decide_eq_true in Eb. destruct (Hsel k Eb) as (c' & Hc' & Hu). assert (c' = c) as -> by congruence.
    split_and!; [done|done|]. by apply ready_events_has.
Qed.

(** The effect of a window on the execution database. *)
Record window_effect (now window run_id run_shard : Z) (db db' : Database) : Prop := mkWindowEffect {
  we_waiting : waiting_chunks run_id run_shard db' = Z.max 0 (waiting_chunks run_id run_shard db - window);
  we_events : db_outbox db ⊆ db_outbox db';
  we_chunks : forall k c, db_chunks db !! k = Some c -> db_chunks db' !! k = Some c \/
     (undispatched run_id run_shard k c = true /\ db_chunks db' !! k = Some (mark_dispatched now c) /\
      is_Some (db_outbox db' !! (k.1.1, k.2, None)));
  we_same : dom (db_chunks db') = dom (db_chunks db)
}.

Definition next_status (run_id run_shard : Z) (db : Database) : string :=
  dispatch_cursor_status (0 <? waiting_chunks run_id run_shard db).

Lemma dispatch_execution_spec db now window placement current route snapshot db' w status :
  0 <= window -> dispatch_execution db now window placement current route snapshot = inr (db', w, status) ->
  window_effect now window (rt_run_id route) (rt_run_shard route) db db' /\
  dw_chunks_marked_dispatched w = Z.min window (waiting_chunks (rt_run_id route) (rt_run_shard route) db) /\
  status = next_status (rt_run_id route) (rt_run_shard route) db'.
Proof.
  intros Hw H. unfold dispatch_execution in H. destruct (begin_execution_admission db now placement current) as [|d] eqn:Ed; [discriminate H|].
  assert (Hd : db_chunks d = db_chunks db /\ db_outbox d = db_outbox db).
  { apply begin_admission_step in Ed as [->|(key & row & -> & _)]; done. }
  destruct Hd as [Hc Ho]. destruct (negb _); [discriminate H|].
  destruct (dispatch_routed_run_window _ _ _ _ _ _ _ _ _ _) as [[[d2 w2] s2]|] eqn:E2; [|discriminate H].
  injection H as <- <- <-. unfold dispatch_routed_run_window in E2. apply bind_Ok in E2 as (? & _ & E2).
  destruct (dispatch_run_window d now window (rt_run_id route) (rt_run_shard route) _ _ _) as [d1 w1] eqn:E1.
  assert (Hdom : dom (db_chunks d1) = dom (db_chunks d)).
  { unfold dispatch_run_window in E1. injection E1 as <- _. cbn. apply set_eq. intros k. rewrite !elem_of_dom, lookup_update_where.
    by rewrite fmap_is_Some. }
  apply dispatch_run_window_spec in E1 as (S1 & S2 & S3 & S4 & S5); [|done].
  apply bind_Ok in E2 as (d3 & Hi & [= <- <- <-]).
  assert (Hk : db_chunks d3 = db_chunks d1 /\ db_outbox d3 = db_outbox d1).
  { unfold insert_run_shard_summary_with in Hi. destruct (db_snapshots d1 !! _); [|by injection Hi as <-].
    apply bind_Ok in Hi as (? & _ & Hi). apply bind_Ok in Hi as (? & _ & Hi). by injection Hi as <-. }
  destruct Hk as [Hk1 Hk2]. unfold waiting_chunks in *. rewrite Hc in *. rewrite <- Hk1 in *. split; [|split; [exact S2|]].
  - constructor; unfold waiting_chunks; rewrite ?Hk2, <- ?Ho; done.
  - unfold next_status, waiting_chunks. f_equal. destruct (dw_has_remaining_chunks w1), (0 <? _) eqn:Ez; try done.
    + assert (0 < count_where (undispatched (rt_run_id route) (rt_run_shard route)) (db_chunks d3)) by (by apply S3). lia.
    + apply S3. lia.
Qed.

(** What the control transaction leaves when it commits. *)
Definition cursor_set (c : Control) (now run_id run_shard : Z) (status : string) (c' : Control) : Prop :=
  update_dispatch_cursor c now run_id run_shard status = Ok c'.

End window.

(** ** A window of one chunk out of two *)

Module WindowSample.
Definition waiting : ChunkRow := mkChunkRow 2 "g" 0 3 ChPending None None None 0 None 0 0.
Definition db : Database :=
  mkDatabase {[ 7 := Sample.context ]}
    {[ (7, 3, 40) := waiting; (7, 3, 41) := waiting ]} ∅ ∅ ∅
    (mkEvidence ∅ ∅) {[ (7, 3) := mkAdmissionRow "a" 4 Open None None 0 ]} ∅ ∅ ∅ ∅ ∅.
Definition control : Control :=
  mkControl ∅ ∅ ∅ ∅ {[ (7, 3) := mkPlacementRow "a" "active" None 1 4 ]} {[ (7, 3) := mkCursorRow CursorOpen 0 ]} ∅ ∅.
Definition placement : ShardPlacement := mkShardPlacement 7 3 "a" "active" None 1 4.
Definition route : DispatchRoute := mkDispatchRoute 7 3 "a" "active" 1 4.
Definition snapshot : DispatchRunSnapshot := mkDispatchRunSnapshot 7 3 Sample.context 0.
Definition window : Control * Database * (RoutedDispatchError + DispatchedRunWindow) :=
  dispatch_window control control db 50 60 1 placement (inr placement) route snapshot NoFault NoFault.
End WindowSample.

