(* ===== verification/RunFinalize.v ===== *)
(** * Run finalization

    The coordinator completes a run from the sealed summaries of its shards: it
    validates the set, merges the counters and scorecards into the verdict, and
    writes it to the control row under its finalization lease.  Models
    src/vigilo/src/db/workflows/run_finalize.rs and run_finalize/queries.rs. *)

From Stdlib Require Import ZArith Lia.
From stdpp Require Import base strings numbers gmap sets option list.
From S2P Require Import Prelude Float64 BTree Text Json RunTypes Scorecard.
From S2P Require Import ShardTables ReceiptGates Settlement ShardSummary ControlTables.

Open Scope Z_scope.

Record ClaimedRunForFinalization := mkClaimedRunForFinalization {
  cf_id : Uuid;
  cf_run_key : string;
  cf_aggregation_policy_hash : string
}.

Record FinalizedRun := mkFinalizedRun {
  fr_id : Uuid;
  fr_run_key : string;
  fr_gate_status : GateStatus;
  fr_terminal_execution_count : Z;
  fr_passed_execution_count : Z;
  fr_failed_execution_count : Z;
  fr_errored_execution_count : Z
}.

Record FinalizationSummary := mkFinalizationSummary {
  fs_expected_execution_count : Z;
  fs_terminal_execution_count : Z;
  fs_passed_execution_count : Z;
  fs_failed_execution_count : Z;
  fs_errored_execution_count : Z;
  fs_missing_aggregate_count : Z;
  fs_missing_execution_count : Z;
  fs_unresolved_execution_count : Z;
  fs_failed_chunk_count : Z;
  fs_cancelled_chunk_count : Z;
  fs_shard_summary_count : Z;
  fs_coverage_complete : bool;
  fs_has_terminal_chunk_failure : bool;
  fs_scorecard : RunScorecard;
  fs_gate_status : GateStatus
}.

(** The members of one entry of [shard_plans]. *)
Record ShardPlan := mkShardPlan { sp_shard : Z; sp_hash : string; sp_cases : Z; sp_chunks : Z }.

Definition plan_of (s : RunShardSummary) : ShardPlan :=
  mkShardPlan (rs_run_shard s) (rs_planned_chunk_hash s) (rs_expected_execution_count s) (rs_planned_chunk_count s).

Definition checked_summary_total (summaries : list RunShardSummary) (field : string)
    (value : RunShardSummary -> Z) : result Z :=
  foldM (fun total summary => ok_or (i32_checked_add total (value summary))
           ("run shard summary " +:+ field +:+ " total exceeds the supported i32 range")) 0 summaries.

Section finalize.
Context {RF : ReceiptFunctions} {SF : SummaryFunctions}.
(** [serde_json::to_value] of the derived [Serialize]. *)
Variable run_scorecard_to_value : RunScorecard -> Value.

Definition summarize_for_finalization (summaries : list RunShardSummary) (aggregation_policy_hash : string)
    : result (option FinalizationSummary) :=
  if bool_decide (summaries = []) || existsb (fun s => negb (is_terminal s)) summaries then Ok None
  else
    expected ← checked_summary_total summaries "expected_execution_count" rs_expected_execution_count;
    terminal ← checked_summary_total summaries "terminal_execution_count" rs_terminal_execution_count;
    passed ← checked_summary_total summaries "passed_execution_count" rs_passed_execution_count;
    failed ← checked_summary_total summaries "failed_execution_count" rs_failed_execution_count;
    errored ← checked_summary_total summaries "errored_execution_count" rs_errored_execution_count;
    missing_aggregate ← checked_summary_total summaries "missing_aggregate_count" rs_missing_aggregate_count;
    failed_chunks ← checked_summary_total summaries "failed_chunk_count" rs_failed_chunk_count;
    cancelled_chunks ← checked_summary_total summaries "cancelled_chunk_count" rs_cancelled_chunk_count;
    missing ← checked_summary_total summaries "missing_execution_count" rs_missing_execution_count;
    unresolved ← checked_summary_total summaries "unresolved_execution_count" rs_unresolved_execution_count;
    let coverage_complete := (terminal =? expected) && (missing =? 0) && (unresolved =? 0) in
    let has_terminal_chunk_failure := (0 <? failed_chunks) || (0 <? cancelled_chunks) in
    shard_scorecards ← mapM (fun s => scorecard_from_value (rs_scorecard s)) summaries;
    scorecard ← merge_shard_scorecards aggregation_policy_hash shard_scorecards;
    let gate_status :=
      if has_terminal_chunk_failure || (0 <? failed) || (0 <? errored) || (0 <? missing_aggregate)
         || negb coverage_complete || negb (rs_passed scorecard)
      then GateFail else GatePass in
    shard_summary_count ← i32_try_from (zlen summaries);
    Ok (Some (mkFinalizationSummary expected terminal passed failed errored missing_aggregate missing unresolved
                failed_chunks cancelled_chunks shard_summary_count coverage_complete has_terminal_chunk_failure
                scorecard gate_status)).

(** The coverage a sealed summary must show. *)
Definition sealed_coverage (s : RunShardSummary) : bool :=
  let outcomes := rs_passed_execution_count s + rs_failed_execution_count s + rs_errored_execution_count s
                  + rs_skipped_execution_count s in
  (0 <=? rs_execution_count s) && (0 <=? rs_aggregate_count s)
  && (rs_terminal_execution_count s =? rs_execution_count s)
  && (rs_execution_count s + rs_missing_execution_count s =? rs_expected_execution_count s)
  && (rs_aggregate_count s + rs_unresolved_execution_count s =? rs_execution_count s)
  && (rs_missing_aggregate_count s =? rs_unresolved_execution_count s)
  && forallb (fun n => 0 <=? n) [rs_passed_execution_count s; rs_failed_execution_count s;
                                 rs_errored_execution_count s; rs_skipped_execution_count s]
  && (outcomes <=? rs_aggregate_count s)
  && (0 <=? rs_score_count s) && (rs_score_count s <=? rs_aggregate_count s)
  && is_finite (rs_score_sum s).

(** One turn of the loop of [validate_summary_set]. *)
Definition validate_summary (s : RunShardSummary) : result unit :=
  _ ← ensure ((0 <=? rs_expected_execution_count s) && (0 <=? rs_terminal_execution_count s)
              && (rs_terminal_execution_count s <=? rs_expected_execution_count s)
              && (0 <=? rs_missing_execution_count s) && (0 <=? rs_unresolved_execution_count s))
        "invalid finalization summary counters";
  _ ← (if is_terminal s
       then ensure (sealed_coverage s) "sealed summary has inconsistent result coverage" else Ok tt);
  scorecard ← scorecard_from_value (rs_scorecard s);
  ensure (sh_run_shard scorecard =? rs_run_shard s) "scorecard and summary shard disagree".

Definition validate_summary_set (run_id : Uuid) (summaries : list RunShardSummary) (policy : string)
    : result unit :=
  _ ← ensure (forallb (fun s => (rs_run_id s =? run_id) && (0 <=? rs_run_shard s) && (rs_run_shard s <? 128)) summaries)
        "finalization summary run or shard identity mismatch";
  _ ← ensure (bool_decide (NoDup (map rs_run_shard summaries))) "duplicate finalization shard summary";
  _ ← foldM (fun _ s => validate_summary s) tt summaries;
  _ ← summarize_for_finalization summaries policy;
  Ok tt.

(** ** Control statements *)

(** The status and lease part of the candidate predicates. *)
Definition finalizable (now : Z) (r : RunRow) : bool :=
  match rw_status r with
  | RunRunning => true
  | RunFinalizing => lease_free true now (rw_state r)
  | _ => false
  end.

(** Every dispatch cursor of the run is drained, and there is one. *)
Definition cursors_drained (c : Control) (run_id : Uuid) : bool :=
  exists_where (fun k _ => k.1 =? run_id) (cd_cursors c)
  && negb (exists_where (fun k cu => (k.1 =? run_id) && bool_decide (cu_status cu = CursorOpen)) (cd_cursors c)).

Definition candidate (c : Control) (now : Z) (excluded : list Uuid) (id : Uuid) (r : RunRow) : bool :=
  finalizable now r && cursors_drained c id && negb (bool_decide (id ∈ excluded)).

(** [ORDER BY COALESCE(coordinator_heartbeat_at, updated_at), id LIMIT 1]. *)
Definition candidate_before (a b : Uuid * RunRow) : bool :=
  let time r := default (rn_updated_at (rw_state r)) (rn_coordinator_heartbeat_at (rw_state r)) in
  (time a.2 <? time b.2) || ((time a.2 =? time b.2) && (a.1 <=? b.1)).

Fixpoint first_candidate (best : option (Uuid * RunRow)) (l : list (Uuid * RunRow)) : option (Uuid * RunRow) :=
  match l with
  | [] => best
  | x :: l' => first_candidate (match best with
                                | Some b => if candidate_before b x then Some b else Some x
                                | None => Some x
                                end) l'
  end.

Definition claimed_of (id : Uuid) (r : RunRow) : ClaimedRunForFinalization :=
  mkClaimedRunForFinalization id (rc_run_key (rw_context r)) (rc_aggregation_policy_hash (rw_context r)).

Definition select_next_finalization_candidate (c : Control) (now : Z) (excluded : list Uuid)
    : option ClaimedRunForFinalization :=
  (fun ir => claimed_of ir.1 ir.2)
  <$> first_candidate None (map_to_list (rows_where (candidate c now excluded) (cd_runs c))).

Definition heartbeat_state (now : Z) (s : RunState) : RunState :=
  mkRunState (rn_status s) (rn_gate_status s) (rn_coordinator_id s) (rn_coordinator_leased_until s) (Some now)
    (rn_terminal_execution_count s) (rn_passed_execution_count s) (rn_failed_execution_count s)
    (rn_errored_execution_count s) (rn_summary s) (rn_error_message s) (rn_started_at s) (rn_dispatched_at s)
    (rn_finalized_at s) (rn_completed_at s) (rn_updated_at s).

Definition mark_finalization_candidate_checked (c : Control) (now : Z) (run_id : Uuid) : Control * bool :=
  match cd_runs c !! run_id with
  | Some r =>
      if bool_decide (rw_status r = RunRunning \/ rw_status r = RunFinalizing)
      then (with_runs c (<[run_id := set_state r (heartbeat_state now (rw_state r))]> (cd_runs c)), true)
      else (c, false)
  | None => (c, false)
  end.

Definition claim_state (now coordinator_id lease_seconds : Z) (s : RunState) : RunState :=
  mkRunState RunFinalizing (rn_gate_status s) (Some coordinator_id) (Some (now + lease_seconds * second)) (Some now)
    (rn_terminal_execution_count s) (rn_passed_execution_count s) (rn_failed_execution_count s)
    (rn_errored_execution_count s) (rn_summary s) (rn_error_message s) (rn_started_at s) (rn_dispatched_at s)
    (rn_finalized_at s) (rn_completed_at s) now.

(** [locked] says that another transaction holds the row ([SKIP LOCKED]). *)
Definition claim_finalization_candidate (c : Control) (now : Z) (locked : bool)
    (run_id coordinator_id lease_seconds : Z) : Control * option ClaimedRunForFinalization :=
  match cd_runs c !! run_id with
  | Some r =>
      if finalizable now r && negb locked
      then (with_runs c (<[run_id := set_state r (claim_state now coordinator_id lease_seconds (rw_state r))]>
                           (cd_runs c)), Some (claimed_of run_id r))
      else (c, None)
  | None => (c, None)
  end.

Record FinalizationCandidateBacklog := mkFinalizationCandidateBacklog {
  cb_candidate_count : Z;
  cb_oldest_candidate_lag_seconds : option Z
}.

Definition select_finalization_candidate_backlog (c : Control) (now : Z) : FinalizationCandidateBacklog :=
  let rows := map_to_list (rows_where (candidate c now []) (cd_runs c)) in
  let oldest := fold_right (fun ir acc => let t := rn_updated_at (rw_state ir.2) in
                                          Some (match acc with Some m => Z.min t m | None => t end)) None rows in
  mkFinalizationCandidateBacklog (zlen rows) ((fun t => (now - t) / second) <$> oldest).

(** [(text)::int] of a nullable text. *)
Definition int_column (text : option string) : result (option Z) :=
  match text with Some t => n ← int_of_text t; Ok (Some n) | None => Ok None end.

(** The frozen settlement plan of the run names this shard plan. *)
Definition plan_matches (context : RunContext) (p : ShardPlan) : result bool :=
  cases ← int_column (settlement_plan_text context (sp_shard p) "case_count");
  chunks ← int_column (settlement_plan_text context (sp_shard p) "chunk_count");
  Ok (bool_decide (settlement_plan_text context (sp_shard p) "hash" = Some (sp_hash p))
      && bool_decide (cases = Some (sp_cases p)) && bool_decide (chunks = Some (sp_chunks p))).

(** The [run_row] guard of the final write, before the shard plans. *)
Definition run_row_guard (c : Control) (now run_id coordinator_id : Z) (summary : FinalizationSummary)
    (shards : list Z) (r : RunRow) : bool :=
  bool_decide (rw_status r = RunFinalizing)
  && bool_decide (rn_coordinator_id (rw_state r) = Some coordinator_id)
  && is_some_and (fun t => now <=? t) (rn_coordinator_leased_until (rw_state r))
  && str_eqb (rc_aggregation_policy_hash (rw_context r)) (rs_policy_hash (fs_scorecard summary))
  && (rw_expected_execution_count r =? fs_expected_execution_count summary)
  && bool_decide (json_pointer ["settlement_plan"; "version"] (rc_config_snapshot (rw_context r)) ≫= jsonb_text
                  = Some "1")
  && bool_decide (shards = shards_of run_id (cd_placements c))
  && negb (exists_where (fun k cu => (k.1 =? run_id) && negb (bool_decide (cu_status cu = CursorDrained)))
             (cd_cursors c)).

Definition count_value (n : Z) : Value := Num (if n <? 0 then NegInt n else PosInt n).

Definition gate_text (g : GateStatus) : string :=
  match g with GateUnknown => "unknown" | GatePass => "pass" | GateFail => "fail" end.

Definition final_summary_value (s : FinalizationSummary) (plans : list ShardPlan) : Value :=
  let chunks := fold_right (fun p acc => sp_chunks p + acc) 0 plans in
  Object (bt_collect
    [("expected_execution_count", count_value (fs_expected_execution_count s));
     ("terminal_execution_count", count_value (fs_terminal_execution_count s));
     ("passed_execution_count", count_value (fs_passed_execution_count s));
     ("failed_execution_count", count_value (fs_failed_execution_count s));
     ("errored_execution_count", count_value (fs_errored_execution_count s));
     ("missing_aggregate_count", count_value (fs_missing_aggregate_count s));
     ("failed_chunk_count", count_value (fs_failed_chunk_count s));
     ("cancelled_chunk_count", count_value (fs_cancelled_chunk_count s));
     ("coverage_complete", Bool (fs_coverage_complete s));
     ("settled", Bool true);
     ("planned_chunk_count", count_value chunks);
     ("settled_chunk_count", count_value chunks);
     ("sealed_shard_count", count_value (fs_shard_summary_count s));
     ("missing_execution_count", count_value (fs_missing_execution_count s));
     ("unresolved_execution_count", count_value (fs_unresolved_execution_count s));
     ("has_terminal_chunk_failure", Bool (fs_has_terminal_chunk_failure s));
     ("shard_summary_count", count_value (fs_shard_summary_count s))]).

Definition completed_state (now : Z) (summary : FinalizationSummary) (plans : list ShardPlan) (s : RunState)
    : RunState :=
  mkRunState RunCompleted (fs_gate_status summary) (rn_coordinator_id s) None (Some now)
    (fs_terminal_execution_count summary) (fs_passed_execution_count summary) (fs_failed_execution_count summary)
    (fs_errored_execution_count summary) (final_summary_value summary plans) (rn_error_message s)
    (rn_started_at s) (rn_dispatched_at s) (Some (default now (rn_finalized_at s)))
    (Some (default now (rn_completed_at s))) now.

Definition finalized_of (id : Uuid) (r : RunRow) (s : FinalizationSummary) : FinalizedRun :=
  mkFinalizedRun id (rc_run_key (rw_context r)) (fs_gate_status s) (fs_terminal_execution_count s)
    (fs_passed_execution_count s) (fs_failed_execution_count s) (fs_errored_execution_count s).

Section values.
(** [Uuid] as JSON. *)
Variable uuid_value : Uuid -> Value.

Definition completed_event (f : FinalizedRun) : Value :=
  Object (bt_collect
    [("run_id", uuid_value (fr_id f)); ("run_key", Str (fr_run_key f));
     ("gate_status", Str (gate_text (fr_gate_status f)));
     ("terminal_execution_count", count_value (fr_terminal_execution_count f));
     ("passed_execution_count", count_value (fr_passed_execution_count f));
     ("failed_execution_count", count_value (fr_failed_execution_count f));
     ("errored_execution_count", count_value (fr_errored_execution_count f))]).

(** The [CHECK] constraints of the inserted scorecard row and the updated run
    row. *)
Definition final_rows_ok (summary : FinalizationSummary) : bool :=
  (0 <? rs_version (fs_scorecard summary)) && negb (btrim_blank (rs_policy_hash (fs_scorecard summary)))
  && (0 <? rs_shard_count (fs_scorecard summary))
  && opt_is_some (json_get "gates" (run_scorecard_to_value (fs_scorecard summary)) ≫= as_array)
  && (0 <=? fs_terminal_execution_count summary) && (0 <=? fs_passed_execution_count summary)
  && (0 <=? fs_failed_execution_count summary) && (0 <=? fs_errored_execution_count summary).

Definition scorecard_row (summary : FinalizationSummary) : ScorecardRow :=
  let card := fs_scorecard summary in
  mkScorecardRow (rs_version card) (rs_policy_hash card) (rs_shard_count card) (rs_passed card)
    (run_scorecard_to_value card).

Definition drain_cursors (now run_id : Z) (cursors : gmap shard_key CursorRow) : gmap shard_key CursorRow :=
  update_where (fun k _ => k.1 =? run_id) (fun _ _ => mkCursorRow CursorDrained now) cursors.

(** [queries::finalize_claimed_run]: the statement writes the scorecard, the
    run, the cursors and the event together, or nothing. *)
Definition finalize_claimed_run (c : Control) (now run_id coordinator_id : Z) (summary : FinalizationSummary)
    (shards : list Z) (plans : list ShardPlan) : result (Control * option FinalizedRun) :=
  _ ← ensure (in_range (-32768) i16_max (rs_version (fs_scorecard summary))) "out of range integral type conversion attempted";
  _ ← i32_try_from (rs_shard_count (fs_scorecard summary));
  match cd_runs c !! run_id with
  | None => Ok (c, None)
  | Some r =>
      if negb (run_row_guard c now run_id coordinator_id summary shards r) then Ok (c, None)
      else
        matching ← mapM (plan_matches (rw_context r)) plans;
        if negb (forallb id matching) || opt_is_some (cd_scorecards c !! run_id) then Ok (c, None)
        else
          _ ← ensure (final_rows_ok summary) "new row violates check constraint";
          let done := finalized_of run_id r summary in
          Ok (with_events
                (with_cursors
                   (with_runs
                      (with_scorecards c (<[run_id := scorecard_row summary]> (cd_scorecards c)))
                      (<[run_id := set_state r (completed_state now summary plans (rw_state r))]> (cd_runs c)))
                   (drain_cursors now run_id (cd_cursors c)))
                (insert_new (run_id, "completed") (completed_event done) (cd_outbox c)), Some done)
  end.

Definition finalize_claimed_run_from_summaries (c : Control) (now run_id coordinator_id : Z)
    (aggregation_policy_hash : string) (summaries : list RunShardSummary) : result (Control * option FinalizedRun) :=
  _ ← validate_summary_set run_id summaries aggregation_policy_hash;
  summary ← summarize_for_finalization summaries aggregation_policy_hash;
  match summary with
  | None => Ok (c, None)
  | Some summary => finalize_claimed_run c now run_id coordinator_id summary
                      (sort_z (map rs_run_shard summaries)) (map plan_of summaries)
  end.

End values.
End finalize.

(** ** Totals and the decision *)

Lemma checked_summary_total_Ok summaries field value n :
  checked_summary_total summaries field value = Ok n -> n = sumz value summaries.
Proof.
  unfold checked_summary_total. intros H.
  pattern summaries, n. match goal with |- ?P _ _ => apply (foldM_inv_prefix P _ _ _ _ eq_refl) in H end; [exact H|].
  intros pre t s t' -> Hs. apply ok_or_Ok, checked_Some in Hs as [-> _]. rewrite sumz_app. simpl. lia.
Qed.


(** [mapM] of checks that all answer [true]. *)
Lemma mapM_all_true {A B} (f : B -> result bool) (g : A -> B) l bs :
  mapM f (map g l) = Ok bs -> forallb id bs = true -> Forall (fun a => f (g a) = Ok true) l.
Proof.
  revert bs. induction l as [|a l IH]; intros bs H Hall; [constructor|]. simpl in H. inv_ok.
  simpl in Hall. apply andb_true_iff in Hall as [Ha Hl]. unfold id in Ha. subst. constructor; [done|]. by eapply IH.
Qed.

Section verdict.
Context {RF : ReceiptFunctions} {SF : SummaryFunctions}.

(** What finalization decides on, per shard. *)
Definition shard_clean (s : RunShardSummary) : Prop :=
  rs_failed_execution_count s = 0 /\ rs_errored_execution_count s = 0 /\
  rs_missing_execution_count s = 0 /\ rs_unresolved_execution_count s = 0.

Lemma summarize_Some summaries policy fs :
  summarize_for_finalization summaries policy = Ok (Some fs) ->
  summaries <> [] /\ Forall (fun s => is_terminal s = true) summaries /\
  fs_expected_execution_count fs = sumz rs_expected_execution_count summaries /\
  fs_terminal_execution_count fs = sumz rs_terminal_execution_count summaries /\
  fs_passed_execution_count fs = sumz rs_passed_execution_count summaries /\
  fs_failed_execution_count fs = sumz rs_failed_execution_count summaries /\
  fs_errored_execution_count fs = sumz rs_errored_execution_count summaries /\
  (exists cards, mapM (fun s => scorecard_from_value (rs_scorecard s)) summaries = Ok cards /\
     merge_shard_scorecards policy cards = Ok (fs_scorecard fs)) /\
  fs_gate_status fs =
    if (0 <? sumz rs_failed_chunk_count summaries) || (0 <? sumz rs_cancelled_chunk_count summaries)
       || (0 <? sumz rs_failed_execution_count summaries) || (0 <? sumz rs_errored_execution_count summaries)
       || (0 <? sumz rs_missing_aggregate_count summaries)
       || negb ((sumz rs_terminal_execution_count summaries =? sumz rs_expected_execution_count summaries)
                && (sumz rs_missing_execution_count summaries =? 0)
                && (sumz rs_unresolved_execution_count summaries =? 0))
       || negb (rs_passed (fs_scorecard fs))
    then GateFail else GatePass.
Proof.
  unfold summarize_for_finalization. destruct (_ || _) eqn:E; [done|]. intros H.
  apply orb_false_iff in E as [E1 E2]. rewrite bool_decide_eq_false in E1. apply existsb_false_Forall in E2.
  repeat match type of H with (checked_summary_total _ _ _ ≫= _) = _ =>
    let n := fresh "n" in let Hn := fresh "Hn" in apply bind_Ok in H as (n & Hn & H);
    apply checked_summary_total_Ok in Hn end.
  inv_ok. simpl. split_and!; eauto.
  eapply Forall_impl; [exact E2|]. simpl. intros s. by rewrite negb_false_iff.
Qed.

Lemma validate_summary_Ok s u :
  validate_summary s = Ok u -> is_terminal s = true -> sealed_coverage s = true.
Proof. unfold validate_summary. intros H Ht. rewrite Ht in H. by inv_ok. Qed.

Lemma validate_summary_set_Ok run_id summaries policy u :
  validate_summary_set run_id summaries policy = Ok u ->
  Forall (fun s => rs_run_id s = run_id /\ 0 <= rs_run_shard s < 128 /\
            0 <= rs_missing_execution_count s /\ 0 <= rs_unresolved_execution_count s /\
            (is_terminal s = true -> sealed_coverage s = true)) summaries /\
  NoDup (map rs_run_shard summaries).
Proof.
  unfold validate_summary_set. intros H. inv_ok. rewrite bool_decide_eq_true in H1.
  apply forallb_Forall_iff in H0. split; [|done].
  apply foldM_checks in H2. rewrite Forall_forall in *. intros s Hs. specialize (H0 s Hs). specialize (H2 s Hs).
  rewrite !andb_true_iff in H0. pose proof (validate_summary_Ok s _ H2) as Hc. unfold validate_summary in H2. inv_ok.
  split_and!; done || lia.
Qed.

(** The sealed coverage of a summary, as propositions. *)
Lemma sealed_coverage_spec s :
  sealed_coverage s = true ->
  rs_terminal_execution_count s = rs_execution_count s /\
  rs_execution_count s + rs_missing_execution_count s = rs_expected_execution_count s /\
  rs_aggregate_count s + rs_unresolved_execution_count s = rs_execution_count s /\
  rs_missing_aggregate_count s = rs_unresolved_execution_count s /\
  0 <= rs_passed_execution_count s /\ 0 <= rs_failed_execution_count s /\ 0 <= rs_errored_execution_count s /\
  0 <= rs_skipped_execution_count s /\ 0 <= rs_aggregate_count s /\
  rs_passed_execution_count s + rs_failed_execution_count s + rs_errored_execution_count s
    + rs_skipped_execution_count s <= rs_aggregate_count s.
Proof. unfold sealed_coverage. simpl. lia. Qed.

Lemma gate_pass_iff run_id summaries policy policy' fs u :
  validate_summary_set run_id summaries policy' = Ok u ->
  summarize_for_finalization summaries policy = Ok (Some fs) ->
  fs_gate_status fs = GatePass <->
  rs_passed (fs_scorecard fs) = true /\ Forall shard_clean summaries /\
  sumz rs_failed_chunk_count summaries <= 0 /\ sumz rs_cancelled_chunk_count summaries <= 0.
Proof.
  intros [Hv _]%validate_summary_set_Ok (_ & Hterm & _ & _ & _ & _ & _ & _ & ->)%summarize_Some.
  assert (Hcov : Forall (fun s => sealed_coverage s = true) summaries).
  { rewrite Forall_forall in *. intros s Hs. apply (Hv s Hs), Hterm, Hs. }
  assert (Hz : forall f, (forall s, sealed_coverage s = true -> 0 <= rs_missing_execution_count s ->
      0 <= rs_unresolved_execution_count s -> 0 <= f s) ->
    0 <= sumz f summaries /\ (sumz f summaries = 0 <-> Forall (fun s => f s = 0) summaries)).
  { intros f Hf. assert (Hall : Forall (fun s => 0 <= f s) summaries).
    { rewrite Forall_forall in *. intros s Hs. destruct (Hv s Hs) as (_ & _ & ? & ? & _). by apply Hf; [apply Hcov| |]. }
    split; [by apply sumz_nonneg|by apply sumz_zero]. }
  destruct (Hz rs_failed_execution_count ltac:(intros s Hs%sealed_coverage_spec; lia)) as [F1 F2].
  destruct (Hz rs_errored_execution_count ltac:(intros s Hs%sealed_coverage_spec; lia)) as [E1 E2].
  destruct (Hz rs_missing_execution_count ltac:(done)) as [M1 M2].
  destruct (Hz rs_unresolved_execution_count ltac:(done)) as [U1 U2].
  assert (Hagg : sumz rs_missing_aggregate_count summaries = sumz rs_unresolved_execution_count summaries).
  { clear -Hcov. induction Hcov as [|s l Hs _ IH]; simpl; [done|]. apply sealed_coverage_spec in Hs. lia. }
  assert (Hexp : sumz rs_expected_execution_count summaries
                 = sumz rs_terminal_execution_count summaries + sumz rs_missing_execution_count summaries).
  { clear -Hcov. induction Hcov as [|s l Hs _ IH]; simpl; [done|]. apply sealed_coverage_spec in Hs. lia. }
  unfold shard_clean. rewrite !Forall_and, <- F2, <- E2, <- M2, <- U2, Hagg, Hexp.
  destruct (rs_passed (fs_scorecard fs)); [|rewrite orb_true_r; intuition congruence].
  case_if; intuition (congruence || lia).
Qed.

(** The verdict a coordinator writes.  When finalization completes a run, the
    run was in [finalizing] under a live lease of this coordinator, the summaries
    are exactly one sealed summary per placed shard, their plans are the frozen
    plan of the run and their expected executions add up to the run's, the merged
    scorecard is written once, and the gate passes exactly when the scorecard
    passes, no shard has a failed, errored, missing or unresolved execution and
    no chunk failed or was cancelled.  Otherwise nothing is written. *)
Lemma finalize_from_summaries_Ok (card_value : RunScorecard -> Value) (uuid_value : Uuid -> Value)
    (c c' : Control) (now run_id coordinator_id : Z) (policy : string) (summaries : list RunShardSummary)
    (outcome : option FinalizedRun) :
  finalize_claimed_run_from_summaries card_value uuid_value c now run_id coordinator_id policy summaries
  = Ok (c', outcome) ->
  match outcome with
  | None => c' = c
  | Some done =>
      exists r card cards,
        cd_runs c !! run_id = Some r /\ rw_status r = RunFinalizing /\
        rn_coordinator_id (rw_state r) = Some coordinator_id /\
        (exists t, rn_coordinator_leased_until (rw_state r) = Some t /\ now <= t) /\
        Forall (fun s => is_terminal s = true /\ rs_run_id s = run_id) summaries /\
        sort_z (map rs_run_shard summaries) = shards_of run_id (cd_placements c) /\
        Forall (fun s => plan_matches (rw_context r) (plan_of s) = Ok true) summaries /\
        sumz rs_expected_execution_count summaries = rw_expected_execution_count r /\
        mapM (fun s => scorecard_from_value (rs_scorecard s)) summaries = Ok cards /\
        merge_shard_scorecards policy cards = Ok card /\
        cd_scorecards c !! run_id = None /\
        is_Some (cd_scorecards c' !! run_id) /\
        (exists r', cd_runs c' !! run_id = Some r' /\ rw_status r' = RunCompleted /\
           rn_gate_status (rw_state r') = fr_gate_status done /\
           rn_passed_execution_count (rw_state r') = sumz rs_passed_execution_count summaries) /\
        (forall id, id <> run_id -> cd_runs c' !! id = cd_runs c !! id) /\
        Forall (fun s => rs_execution_count s + rs_missing_execution_count s = rs_expected_execution_count s) summaries /\
        (fr_gate_status done = GatePass <->
           rs_passed card = true /\ Forall shard_clean summaries /\
           sumz rs_failed_chunk_count summaries <= 0 /\ sumz rs_cancelled_chunk_count summaries <= 0)
  end.
Proof.
  unfold finalize_claimed_run_from_summaries. intros H.
  apply bind_Ok in H as (u & Hv & H). apply bind_Ok in H as (fs & Hfs & H).
  destruct fs as [fs|]; [|by inv_ok]. pose proof (gate_pass_iff _ _ _ _ _ _ Hv Hfs) as Hgate.
  apply validate_summary_set_Ok in Hv as [Hv _].
  apply summarize_Some in Hfs as (_ & Hterm & Hexp & _ & Hpass & _ & _ & (cards & Hcards & Hcard) & _).
  unfold finalize_claimed_run in H. apply bind_Ok in H as (u1 & _ & H). apply bind_Ok in H as (u2 & _ & H).
  destruct (cd_runs c !! run_id) as [r|] eqn:Hr; [|by inv_ok].
  destruct (run_row_guard _ _ _ _ _ _ _) eqn:Hg; simpl in H; [|by inv_ok].
  apply bind_Ok in H as (matching & Hm & H). destruct (forallb id matching) eqn:Hall; simpl in H; [|by inv_ok].
  destruct (cd_scorecards c !! run_id) eqn:Hsc; simpl in H; [by inv_ok|].
  apply bind_Ok in H as (u3 & _ & H). injection H as <- <-. simpl.
  unfold run_row_guard in Hg. rewrite !andb_true_iff, !bool_decide_eq_true, Z.eqb_eq in Hg. destruct_and! Hg.
  exists r, (fs_scorecard fs), cards. split_and!; try done.
  - destruct (rn_coordinator_leased_until _); [|done]. simpl in *. eexists. split; [done|lia].
  - rewrite Forall_forall in *. intros s Hs. split; [by apply Hterm|apply (Hv s Hs)].
  - apply mapM_all_true in Hm; done.
  - lia.
  - by rewrite lookup_insert_eq.
  - eexists. rewrite lookup_insert_eq. split_and!; done.
  - intros id Hid. by rewrite lookup_insert_ne.
  - rewrite Forall_forall in *. intros s Hs.
    assert (Hc : sealed_coverage s = true) by (apply (Hv s Hs), Hterm, Hs). apply sealed_coverage_spec in Hc. lia.
Qed.
End verdict.
