(* ===== verification/RunCancel.v ===== *)
(** * Run cancellation

    src/vigilo/src/db/workflows/run_cancel.rs and run_cancel/queries.rs: the
    control transaction that marks a run cancelled, the fan-out to the databases
    that hold its shards (or, before a run is admitted, to those its plan names,
    where closed tombstones are left for a creator that is still writing), and
    the final control transaction with the summary and the event.

    The workflow is a program over the [World] of [RunAdmission]; each awaited
    transaction takes a turn and may fail before or after its effect.  The
    execution-side statements are those of [ChunkLease]. *)

From Stdlib Require Import ZArith Lia ZifyBool.
From stdpp Require Import base strings numbers gmap sorting relations sets option list.
From S2P Require Import Prelude Prog Float64 BTree Text Json RunTypes StorageFormats Scorecard.
From S2P Require Import ShardTables ReceiptGates LocalAdmission Settlement ChunkLease ControlTables PlanLedger.
From S2P Require Import LocalSeed RunAdmission RunDispatch RunFinalize.

Open Scope Z_scope.

(** ** Counts *)

Definition counts_zero : CancellationCounts := mkCancellationCounts 0 0 0.

(** [CancellationCounts::add]. *)
Definition counts_add (a b : CancellationCounts) : CancellationCounts :=
  mkCancellationCounts (cc_chunks_cancelled a + cc_chunks_cancelled b)
    (cc_executions_cancelled a + cc_executions_cancelled b) (cc_attempts_cancelled a + cc_attempts_cancelled b).

Record ExecutionProgressCounts := mkExecutionProgressCounts {
  xp_expected_execution_count : Z;
  xp_execution_count : Z;
  xp_terminal_execution_count : Z;
  xp_passed_execution_count : Z;
  xp_failed_execution_count : Z;
  xp_errored_execution_count : Z;
  xp_skipped_execution_count : Z;
  xp_missing_aggregate_count : Z;
  xp_chunk_count : Z;
  xp_completed_chunk_count : Z;
  xp_failed_chunk_count : Z;
  xp_cancelled_chunk_count : Z;
  xp_cancelled_execution_count : Z
}.

Definition progress_zero : ExecutionProgressCounts := mkExecutionProgressCounts 0 0 0 0 0 0 0 0 0 0 0 0 0.

(** [ExecutionProgressCounts::add]; the sums are far below the range of [i64],
    since each counts rows. *)
Definition progress_add (a b : ExecutionProgressCounts) : ExecutionProgressCounts :=
  mkExecutionProgressCounts (xp_expected_execution_count a + xp_expected_execution_count b)
    (xp_execution_count a + xp_execution_count b) (xp_terminal_execution_count a + xp_terminal_execution_count b)
    (xp_passed_execution_count a + xp_passed_execution_count b)
    (xp_failed_execution_count a + xp_failed_execution_count b)
    (xp_errored_execution_count a + xp_errored_execution_count b)
    (xp_skipped_execution_count a + xp_skipped_execution_count b)
    (xp_missing_aggregate_count a + xp_missing_aggregate_count b) (xp_chunk_count a + xp_chunk_count b)
    (xp_completed_chunk_count a + xp_completed_chunk_count b) (xp_failed_chunk_count a + xp_failed_chunk_count b)
    (xp_cancelled_chunk_count a + xp_cancelled_chunk_count b)
    (xp_cancelled_execution_count a + xp_cancelled_execution_count b).

(** [from_control_run]. *)
Definition progress_of_run (r : RunRow) : ExecutionProgressCounts :=
  let s := rw_state r in
  mkExecutionProgressCounts (rw_expected_execution_count r) 0 (rn_terminal_execution_count s)
    (rn_passed_execution_count s) (rn_failed_execution_count s) (rn_errored_execution_count s) 0 0 0 0 0 0 0.

Definition fallback_progress (control progress : ExecutionProgressCounts) : ExecutionProgressCounts :=
  let expected := if xp_expected_execution_count progress =? 0 then xp_expected_execution_count control
                  else xp_expected_execution_count progress in
  let source := if (xp_execution_count progress =? 0) && (xp_terminal_execution_count progress =? 0)
                then control else progress in
  mkExecutionProgressCounts expected (xp_execution_count source) (xp_terminal_execution_count source)
    (xp_passed_execution_count source) (xp_failed_execution_count source) (xp_errored_execution_count source)
    (xp_skipped_execution_count progress) (xp_missing_aggregate_count progress) (xp_chunk_count progress)
    (xp_completed_chunk_count progress) (xp_failed_chunk_count progress) (xp_cancelled_chunk_count progress)
    (xp_cancelled_execution_count progress).

(** [ExecutionCancellationOutcome]; of the summaries only their number is used. *)
Record ExecutionCancellationOutcome := mkExecutionCancellationOutcome {
  xo_counts : CancellationCounts;
  xo_progress : ExecutionProgressCounts;
  xo_summaries : Z
}.

Definition outcome_zero : ExecutionCancellationOutcome := mkExecutionCancellationOutcome counts_zero progress_zero 0.

Definition outcome_add (a b : ExecutionCancellationOutcome) : ExecutionCancellationOutcome :=
  mkExecutionCancellationOutcome (counts_add (xo_counts a) (xo_counts b)) (progress_add (xo_progress a) (xo_progress b))
    (xo_summaries a + xo_summaries b).

Record ControlCancellationState := mkControlCancellationState {
  ccs_run_id : Uuid;
  ccs_run : RunRow;
  ccs_cancelled : bool;
  ccs_already_cancelled : bool
}.

Record CancelRunOutcome := mkCancelRunOutcome {
  co_run : RunRow;
  co_cancelled : bool;
  co_already_cancelled : bool;
  co_counts : CancellationCounts;
  co_outbox_events_enqueued : Z
}.

(** ** The control transactions *)

Definition is_cancelable_status (s : RunStatus) : bool :=
  match s with RunPending | RunRunning | RunFinalizing => true | _ => false end.
Definition is_already_cancelled_status (s : RunStatus) : bool :=
  match s with RunCancelled => true | _ => false end.
Definition is_uncancelable_terminal_status (s : RunStatus) : bool :=
  match s with RunCompleted | RunFailed => true | _ => false end.

Definition drain_control_dispatch_cursors (c : Control) (now run_id : Z) : Control :=
  with_cursors c (drain_cursors now run_id (cd_cursors c)).

Definition pending_summary (r : RunRow) : Value :=
  Object (bt_collect [("cancelled", Bool true); ("reason", Str CANCEL_REASON); ("cancellation_pending", Bool true);
    ("expected_execution_count", count_value (rw_expected_execution_count r))]).

Definition cancelled_pending_state (now : Z) (r : RunRow) : RunState :=
  let s := rw_state r in
  mkRunState RunCancelled GateFail None None (Some now) (rn_terminal_execution_count s) (rn_passed_execution_count s)
    (rn_failed_execution_count s) (rn_errored_execution_count s) (pending_summary r)
    (Some (default CANCEL_REASON (rn_error_message s))) (rn_started_at s) (rn_dispatched_at s) (rn_finalized_at s)
    (Some (default now (rn_completed_at s))) now.

Definition mark_run_cancelled_pending (c : Control) (now run_id : Z) (r : RunRow) : Control * RunRow :=
  let r' := set_state r (cancelled_pending_state now r) in (with_runs c (<[run_id := r']> (cd_runs c)), r').

Definition mark_control_cancellation_requested (c : Control) (now run_id : Z)
    : result (Control * option ControlCancellationState) :=
  match cd_runs c !! run_id with
  | None => Ok (c, None)
  | Some r =>
      if is_uncancelable_terminal_status (rw_status r) then Err "run is already terminal and cannot be cancelled"
      else if is_already_cancelled_status (rw_status r) then
        Ok (drain_control_dispatch_cursors c now run_id, Some (mkControlCancellationState run_id r false true))
      else
        let preparing_plan := bool_decide (rw_status r = RunCreating) && opt_is_some (cd_plans c !! run_id) in
        if negb (is_cancelable_status (rw_status r)) && negb preparing_plan
        then Err "run has unsupported status and cannot be cancelled"
        else
          let '(c', r') := mark_run_cancelled_pending (drain_control_dispatch_cursors c now run_id) now run_id r in
          Ok (c', Some (mkControlCancellationState run_id r' true false))
  end.

Definition final_cancel_summary (r : RunRow) (p : ExecutionProgressCounts) (k : CancellationCounts)
    (routes summaries : Z) : Value :=
  Object (bt_collect
    [("cancelled", Bool true); ("reason", Str CANCEL_REASON); ("cancellation_pending", Bool false);
     ("expected_execution_count", count_value (rw_expected_execution_count r));
     ("execution_expected_count", count_value (xp_expected_execution_count p));
     ("execution_count", count_value (xp_execution_count p));
     ("terminal_execution_count", count_value (xp_terminal_execution_count p));
     ("passed_execution_count", count_value (xp_passed_execution_count p));
     ("failed_execution_count", count_value (xp_failed_execution_count p));
     ("errored_execution_count", count_value (xp_errored_execution_count p));
     ("skipped_execution_count", count_value (xp_skipped_execution_count p));
     ("missing_aggregate_count", count_value (xp_missing_aggregate_count p));
     ("cancelled_execution_count", count_value (xp_cancelled_execution_count p));
     ("chunk_count", count_value (xp_chunk_count p));
     ("completed_chunk_count", count_value (xp_completed_chunk_count p));
     ("failed_chunk_count", count_value (xp_failed_chunk_count p));
     ("cancelled_chunk_count", count_value (xp_cancelled_chunk_count p));
     ("chunks_cancelled_by_request", count_value (cc_chunks_cancelled k));
     ("executions_cancelled_by_request", count_value (cc_executions_cancelled k));
     ("attempts_cancelled_by_request", count_value (cc_attempts_cancelled k));
     ("execution_route_count", count_value routes);
     ("shard_summary_count", count_value summaries)]).

Definition cancelled_state (now : Z) (r : RunRow) (p : ExecutionProgressCounts) (k : CancellationCounts)
    (routes summaries : Z) : RunState :=
  let s := rw_state r in
  mkRunState RunCancelled GateFail None None (Some now) (xp_terminal_execution_count p) (xp_passed_execution_count p)
    (xp_failed_execution_count p) (xp_errored_execution_count p) (final_cancel_summary r p k routes summaries)
    (Some (default CANCEL_REASON (rn_error_message s))) (rn_started_at s) (rn_dispatched_at s) (rn_finalized_at s)
    (Some (default now (rn_completed_at s))) now.

(** The [CHECK] constraints of [runs] on the counters written. *)
Definition progress_row_ok (p : ExecutionProgressCounts) : bool :=
  (0 <=? xp_terminal_execution_count p) && (0 <=? xp_passed_execution_count p)
  && (0 <=? xp_failed_execution_count p) && (0 <=? xp_errored_execution_count p).

Definition update_run_cancelled (c : Control) (now run_id : Z) (p : ExecutionProgressCounts) (k : CancellationCounts)
    (routes summaries : Z) : result (Control * RunRow) :=
  _ ← i32_try_from (xp_terminal_execution_count p);
  _ ← i32_try_from (xp_passed_execution_count p);
  _ ← i32_try_from (xp_failed_execution_count p);
  _ ← i32_try_from (xp_errored_execution_count p);
  _ ← i32_try_from routes;
  _ ← i32_try_from summaries;
  r ← ok_or (cd_runs c !! run_id) "no rows returned by a query that expected to return at least one row";
  _ ← ensure (progress_row_ok p) "new row for relation runs violates check constraint";
  let r' := set_state r (cancelled_state now r p k routes summaries) in
  Ok (with_runs c (<[run_id := r']> (cd_runs c)), r').

Definition run_status_text (s : RunStatus) : string :=
  match s with
  | RunCreating => "creating" | RunPending => "pending" | RunRunning => "running" | RunFinalizing => "finalizing"
  | RunCompleted => "completed" | RunFailed => "failed" | RunCancelled => "cancelled"
  end.

(** ** Progress of a run in one execution database *)

Definition run_executions (db : Database) (run_id : Uuid) : list (row_key * ExecutionRow) :=
  map_to_list (rows_where (fun k _ => k.1.1 =? run_id) (db_executions db)).

Definition count_chunks (db : Database) (run_id : Uuid) (p : ChunkRow -> bool) : Z :=
  count_where (fun k c => (k.1.1 =? run_id) && p c) (db_chunks db).

Definition select_run_execution_progress (db : Database) (run_id : Uuid) : ExecutionProgressCounts :=
  let rows := run_executions db run_id in
  let terminal ke := negb (execution_open (ex_status (ke : row_key * ExecutionRow).2)) in
  mkExecutionProgressCounts
    (fold_right (fun kc acc => ch_ordinal_end kc.2 - ch_ordinal_start kc.2 + acc) 0
       (map_to_list (rows_where (fun k _ => k.1.1 =? run_id) (db_chunks db))))
    (zlen rows) (countb terminal rows)
    (countb (has_overall db OvPassed) rows) (countb (has_overall db OvFailed) rows)
    (countb (has_overall db OvError) rows) (countb (has_overall db OvSkipped) rows)
    (countb (fun ke => terminal ke && opt_is_none (receipt_aggregate db ke.1 ke.2)) rows)
    (count_chunks db run_id (fun _ => true))
    (count_chunks db run_id (fun c => bool_decide (ch_status c = ChCompleted)))
    (count_chunks db run_id (fun c => bool_decide (ch_status c = ChFailed)))
    (count_chunks db run_id (fun c => bool_decide (ch_status c = ChCancelled)))
    (countb (fun ke => bool_decide (ex_status ke.2 = ExCancelled)) rows).

(** ** Routes *)

Definition placement_of (run_id run_shard : Z) (p : PlacementRow) : ShardPlacement :=
  mkShardPlacement run_id run_shard (pm_database_alias p) (pm_status p) (pm_move_target_database_alias p)
    (pm_route_version p) (pm_write_epoch p).

(** [list_shard_placements_for_run]. *)
Definition list_shard_placements_for_run (c : Control) (run_id : Uuid) : list ShardPlacement :=
  omap (fun s => placement_of run_id s <$> cd_placements c !! (run_id, s)) (shards_of run_id (cd_placements c)).

(** [execution_database]: the placement serves shards. *)
Definition execution_database (dbs : databases) (alias : string) : result unit :=
  row ← ok_or (dbs !! alias) "database placement alias is not configured";
  ensure (serves_shards row) "database placement cannot serve execution data".

Definition execution_read_routes_with_fences_for_run (c : Control) (dbs : databases) (run_id : Uuid)
    : result (list ShardPlacement) :=
  let placements := list_shard_placements_for_run c run_id in
  _ ← foldM (fun _ p => execution_database dbs (sp_database_alias p)) tt placements;
  Ok placements.

Definition group_execution_routes (routes : list ShardPlacement) : list (list ShardPlacement) :=
  bt_values (fold_left (fun m p => bt_insert (sp_database_alias p)
                          (default [] (bt_get (sp_database_alias p) m) ++ [p]) m) routes []).

Section cancel.
Context {RF : ReceiptFunctions}.
Variable uuid_value : Uuid -> Value.

Definition cancelled_event (run_id : Uuid) (o : CancelRunOutcome) : Value :=
  let r := co_run o in
  Object (bt_collect
    [("run_id", uuid_value run_id); ("run_key", Str (rc_run_key (rw_context r)));
     ("status", Str (run_status_text (rw_status r))); ("gate_status", Str (gate_text (rn_gate_status (rw_state r))));
     ("expected_execution_count", count_value (rw_expected_execution_count r));
     ("terminal_execution_count", count_value (rn_terminal_execution_count (rw_state r)));
     ("chunks_cancelled", count_value (cc_chunks_cancelled (co_counts o)));
     ("executions_cancelled", count_value (cc_executions_cancelled (co_counts o)));
     ("attempts_cancelled", count_value (cc_attempts_cancelled (co_counts o)))]).

Definition enqueue_cancelled_event (c : Control) (run_id : Uuid) (o : CancelRunOutcome) : Control * Z :=
  let events := insert_new (run_id, "cancelled") (cancelled_event run_id o) (cd_outbox c) in
  (with_events c events, Z.of_nat (size events) - Z.of_nat (size (cd_outbox c))).

Definition finalize_control_cancellation (c : Control) (now : Z) (state : ControlCancellationState)
    (x : ExecutionCancellationOutcome) (execution_route_count : Z) : result (Control * CancelRunOutcome) :=
  let progress := fallback_progress (progress_of_run (ccs_run state)) (xo_progress x) in
  st ← update_run_cancelled c now (ccs_run_id state) progress (xo_counts x) execution_route_count (xo_summaries x);
  let o := mkCancelRunOutcome st.2 (ccs_cancelled state) (ccs_already_cancelled state) (xo_counts x) 0 in
  let '(c', n) := enqueue_cancelled_event st.1 (ccs_run_id state) o in
  Ok (c', mkCancelRunOutcome (co_run o) (co_cancelled o) (co_already_cancelled o) (co_counts o) n).

(** ** The execution transactions *)

Definition cancel_summary (now run_id : Z) (st : Database * Z) (run_shard : Z) : result (Database * Z) :=
  db ← cancel_shard now run_id st.1 run_shard;
  Ok (db, st.2 + b2z (opt_is_some (db_summaries db !! (run_id, run_shard)))).

(** [cancel_execution_target_with_transaction] with its whole outcome. *)
Definition cancel_target (db : Database) (now run_id : Z) (run_shards : list Z)
    : result (Database * ExecutionCancellationOutcome) :=
  let '(db1, chunks_cancelled) := cancel_open_chunks db now run_id in
  let '(db2, attempts_cancelled) := cancel_open_attempts db1 now run_id in
  let '(db3, executions_cancelled) := cancel_open_executions db2 now run_id in
  let progress := select_run_execution_progress db3 run_id in
  st ← foldM (cancel_summary now run_id) (db3, 0) run_shards;
  Ok (st.1, mkExecutionCancellationOutcome
              (mkCancellationCounts chunks_cancelled executions_cancelled attempts_cancelled) progress st.2).

(** [cancel_execution_target]. *)
Definition cancel_execution_target (db : Database) (now run_id : Z) (routes : list ShardPlacement)
    : result (Database * ExecutionCancellationOutcome) :=
  match begin_execution_cleanup_admission db now routes with
  | inl _ => Err "execution cleanup admission refused"
  | inr db => cancel_target db now run_id (map sp_run_shard routes)
  end.

Definition cancel_local_run (run_id : Uuid) (runs : gmap Uuid RunRow) : gmap Uuid RunRow :=
  match runs !! run_id with
  | None => runs
  | Some r =>
      let s := rw_state r in
      <[run_id := set_state r (mkRunState RunCancelled (rn_gate_status s) (rn_coordinator_id s)
          (rn_coordinator_leased_until s) (rn_coordinator_heartbeat_at s) (rn_terminal_execution_count s)
          (rn_passed_execution_count s) (rn_failed_execution_count s) (rn_errored_execution_count s) (rn_summary s)
          (rn_error_message s) (rn_started_at s) (rn_dispatched_at s) (rn_finalized_at s) (rn_completed_at s)
          (rn_updated_at s))]> runs
  end.

(** The transaction of [cancel_unadmitted_plan] on one database: tombstones for
    its shards, the local run row, and the work already seeded. *)
Definition cancel_unadmitted_target (lo : Local) (now run_id : Z) (alias : string) (shards : list Z)
    : result (Local * ExecutionCancellationOutcome) :=
  db ← foldM (fun db s => tombstone_admission db now run_id s alias) (lo_db lo) shards;
  let seeded := List.filter (fun s => opt_is_some (db_snapshots db !! (run_id, s))) shards in
  st ← cancel_target db now run_id seeded;
  Ok (mkLocal (cancel_local_run run_id (lo_runs lo)) (lo_versions lo) st.1, st.2).

(** The shards a plan places on each database, by alias. *)
Definition plan_placements (c : Control) (run_id : Uuid) : btree string (list Z) :=
  placement_shards (map (fun sr => mkRunShardPlacementAssignment sr.1 (ps_database_alias sr.2)) (published_shards c run_id)).

(** ** The workflow *)

Section workflow.
Variable control_alias : string.
Variable dbs : databases.
Variable now_at : nat -> Z.
Variable fault_at : nat -> Fault.
(** What the other processes do before a turn. *)
Variable env : nat -> World -> World.
(** The order in which the concurrent targets complete. *)
Variable completion : list (list ShardPlacement) -> list (list ShardPlacement).

Definition awaited {A} (f : Z -> World -> result (World * A)) : prog A := fun w =>
  operation now_at fault_at f (env (aw_turn w) w).

Definition awaited_control {A} (f : Z -> Control -> result (Control * A)) : prog A :=
  awaited (fun now w => st ← f now (aw_control w); Ok (set_control w st.1, st.2)).

Definition awaited_local {A} (alias : string) (f : Z -> Local -> result (Local * A)) : prog A :=
  awaited (fun now w =>
    lo ← ok_or (local_at control_alias w alias) "execution database is not configured";
    st ← f now lo;
    Ok (put_local control_alias w alias st.1, st.2)).

Definition target_alias (routes : list ShardPlacement) : string :=
  match routes with p :: _ => sp_database_alias p | [] => "" end.

Definition cancel_one_target (run_id : Uuid) (routes : list ShardPlacement) : prog ExecutionCancellationOutcome :=
  awaited_local (target_alias routes) (fun now lo =>
    st ← cancel_execution_target (lo_db lo) now run_id routes;
    Ok (mkLocal (lo_runs lo) (lo_versions lo) st.1, st.2)).

(** [buffer_unordered]: every target runs, in the order of completion.  The first
    error ends the loop and drops the targets still in flight; those commit or do
    not, which their own faults say, and their results are not used. *)
Fixpoint cancel_execution_targets (run_id : Uuid) (targets : list (list ShardPlacement))
    (combined : result ExecutionCancellationOutcome) : prog ExecutionCancellationOutcome :=
  match targets with
  | [] => lift combined
  | routes :: rest => fun w =>
      match cancel_one_target run_id routes w with
      | None => None
      | Some (w', r) =>
          cancel_execution_targets run_id rest (a ← combined; o ← r; Ok (outcome_add a o)) w'
      end
  end.

Definition cancel_unadmitted_alias (run_id : Uuid) (combined : ExecutionCancellationOutcome) (p : string * list Z)
    : prog ExecutionCancellationOutcome :=
  _ ⇐ awaited (fun _ w => _ ← execution_database dbs p.1; Ok (w, tt));
  o ⇐ awaited_local p.1 (fun now lo => cancel_unadmitted_target lo now run_id p.1 p.2);
  pret (outcome_add combined o).

Definition cancel_unadmitted_plan (run_id : Uuid) : prog ExecutionCancellationOutcome :=
  placements ⇐ awaited_control (fun _ c => Ok (c, plan_placements c run_id));
  pfold (cancel_unadmitted_alias run_id) outcome_zero placements.

Definition cancel_run_routed (run_id : Uuid) : prog (option CancelRunOutcome) :=
  requested ⇐ awaited_control (fun now c => mark_control_cancellation_requested c now run_id);
  match requested with
  | None => pret None
  | Some state =>
      routes ⇐ awaited_control (fun _ c =>
                 routes ← execution_read_routes_with_fences_for_run c dbs run_id; Ok (c, routes));
      outcome ⇐ (if bool_decide (routes = []) then cancel_unadmitted_plan run_id
                 else cancel_execution_targets run_id (completion (group_execution_routes routes)) (Ok outcome_zero));
      o ⇐ awaited_control (fun now c => finalize_control_cancellation c now state outcome (zlen routes));
      pret (Some o)
  end.
End workflow.
End cancel.
