(* ===== verification/RunFinality.v ===== *)
(** * A cancelled run is final

    Every transaction of the control database that the workflows commit, as one
    step relation: planning and admission ([PlanLedger]), dispatch
    ([RunDispatch]), finalization ([RunFinalize]), cancellation ([RunCancel]),
    seeding of the control database itself ([LocalSeed]) and changes of routes
    (moves, placement administration).  Once cancellation has been requested, no
    interleaving of them starts, completes, fails, dispatches or re-plans the
    run. *)

From Stdlib Require Import ZArith Lia ZifyBool.
From stdpp Require Import base strings pretty numbers gmap sorting relations sets option list.
From S2P Require Import Prelude Prog Float64 BTree Text Json RunTypes StorageFormats Codec Scorecard.
From S2P Require Import ShardTables ReceiptGates LocalAdmission Settlement ShardSummary ChunkLease ControlTables.
From S2P Require Import PlanLedger PlanLifecycle LocalSeed RunDispatch RunFinalize RunCancel.

Open Scope Z_scope.

(** ** Transactions that leave a run alone *)

(** The rows of a run that no route change touches. *)
Record untouched (x : Uuid) (c c' : Control) : Prop := mkUntouched {
  un_runs : cd_runs c' !! x = cd_runs c !! x;
  un_plans : cd_plans c' !! x = cd_plans c !! x;
  un_plan_shards : forall s, cd_plan_shards c' !! (x, s) = cd_plan_shards c !! (x, s);
  un_cursors : forall s, cd_cursors c' !! (x, s) = cd_cursors c !! (x, s);
  un_scorecards : cd_scorecards c' !! x = cd_scorecards c !! x;
  un_outbox : forall e, cd_outbox c' !! (x, e) = cd_outbox c !! (x, e)
}.

#[global] Instance untouched_preorder x : PreOrder (untouched x).
Proof.
  split; [by intros c|]. intros a b c [] []. constructor; intros; etransitivity; eauto.
Qed.

(** The transaction is about one run only. *)
Definition only (id : Uuid) (c c' : Control) : Prop := forall x, x <> id -> untouched x c c'.

#[global] Instance only_preorder id : PreOrder (only id).
Proof. split; [by intros c x _|]. intros a b c H1 H2 x Hx. etransitivity; [by apply H1|by apply H2]. Qed.

Lemma only_run c id runs :
  (forall x, x <> id -> runs !! x = cd_runs c !! x) -> only id c (with_runs c runs).
Proof. intros H x Hx. constructor; cbn; auto. Qed.

Lemma only_update_run c id r s : only id c (update_run c id r s).
Proof. apply only_run. intros x Hx. by rewrite lookup_insert_ne by congruence. Qed.

Lemma only_plan c id p : only id c (with_plans c (<[id := p]> (cd_plans c))).
Proof. intros x Hx. constructor; cbn; auto. by rewrite lookup_insert_ne by congruence. Qed.

Lemma only_objects c id objects : only id c (with_plan_objects c objects).
Proof. intros x Hx. by constructor. Qed.

Lemma only_placements c id placements : only id c (with_placements c placements).
Proof. intros x Hx. by constructor. Qed.

Lemma only_plan_shards c id shards :
  (forall k, k.1 <> id -> shards !! k = cd_plan_shards c !! k) -> only id c (with_plan_shards c shards).
Proof. intros H x Hx. constructor; cbn; auto. Qed.

Lemma only_cursors c id cursors :
  (forall k, k.1 <> id -> cursors !! k = cd_cursors c !! k) -> only id c (with_cursors c cursors).
Proof. intros H x Hx. constructor; cbn; auto. Qed.

Lemma only_events c id events :
  (forall k, k.1 <> id -> events !! k = cd_outbox c !! k) -> only id c (with_events c events).
Proof. intros H x Hx. constructor; cbn; auto. Qed.

Lemma insert_new_other {K R} `{Countable K} (k k' : K) (r : R) t : k' <> k -> insert_new k r t !! k' = t !! k'.
Proof. intros Hne. unfold insert_new. destruct (t !! k); [done|]. by rewrite lookup_insert_ne by congruence. Qed.

Create HintDb only.
#[export] Hint Resolve only_run only_update_run only_plan only_objects only_placements : only.

(** ** Planning and admission *)

(** A transaction that changes something is about a run that is being created. *)
Definition creating (id : Uuid) (c : Control) : Prop := forall r, cd_runs c !! id = Some r -> rw_status r = RunCreating.
Definition creates (id : Uuid) (c c' : Control) : Prop := only id c c' /\ (c' = c \/ creating id c).

Lemma cancelled_untouched x r id c c' :
  cd_runs c !! x = Some r -> rw_status r = RunCancelled -> creates id c c' -> untouched x c c'.
Proof.
  intros Hr Hs [Ho [->|Hc]]; [done|]. apply Ho. intros ->. specialize (Hc r Hr). congruence.
Qed.

Section ledger.
Context {LF : LedgerFunctions} `{E : Encoding} `{SM : Serde RunPlanManifest}.

Lemma guard_creates accepts refused c now lease c' p :
  guard_with accepts refused c now lease = Ok (c', p) -> only (le_run_id lease) c c' /\ creating (le_run_id lease) c.
Proof.
  intros (r & s & Hr & _ & Hs & _ & _ & _ & -> & _)%guard_with_Ok. split; [apply only_update_run|].
  intros r' Hr'. congruence.
Qed.

Lemma claim_creates accepts refused c now owner run_id c' lease :
  claim_with accepts refused c now owner run_id = Ok (c', lease) -> creates run_id c c'.
Proof.
  unfold claim_with. intros H. inv_ok. split.
  - etransitivity; [apply only_update_run|]. apply (only_plan (update_run c run_id _ _)).
  - right. intros r Hr. match goal with X : bool_decide (rw_status _ = RunCreating) = true |- _ =>
      apply bool_decide_eq_true in X end. congruence.
Qed.

Lemma request_creates c run_id c' : request_execution c run_id = Ok c' -> creates run_id c c'.
Proof.
  unfold request_execution. intros H. destruct (cd_plans c !! run_id) as [p|]; [|discriminate H].
  destruct (cd_runs c !! run_id) as [r|] eqn:Er; [|discriminate H]. inv_ok. split; [apply only_plan|].
  right. intros r' Hr'. match goal with X : bool_decide (rw_status _ = RunCreating) = true |- _ =>
      apply bool_decide_eq_true in X end. congruence.
Qed.

Lemma insert_run_only runs versions now run_id draft status runs' :
  insert_run_create runs versions now run_id draft status = Ok runs' ->
  (forall x, x <> run_id -> runs' !! x = runs !! x) /\ (runs' = runs \/ runs !! run_id = None).
Proof.
  unfold insert_run_create. intros H. destruct (runs !! run_id) as [r|]; inv_ok; [by split; [|left]|].
  split; [|by right]. intros x Hx. by rewrite lookup_insert_ne by congruence.
Qed.

Lemma begin_creates c versions catalog now run_id dataset binding limits draft execution assignments execute c' v' p :
  begin_plan c versions catalog now run_id dataset binding limits draft execution assignments execute = Ok (c', v', p) ->
  creates run_id c c'.
Proof.
  unfold begin_plan. intros H. do 4 (apply bind_Ok in H as (? & _ & H)).
  apply bind_Ok in H as ([c1 making] & Hst & H). do 4 (apply bind_Ok in H as (? & _ & H)).
  assert (H1 : creates run_id c c1).
  { destruct (cd_runs c !! run_id) as [r|] eqn:Er.
    - apply bind_Ok in Hst as (b & _ & Hst). injection Hst as <- <-. split; [done|by left].
    - apply bind_Ok in Hst as (runs & Hruns%insert_run_only & Hst). apply bind_Ok in Hst as (c2 & Hins & Hst).
      injection Hst as <- <-. unfold insert_plan in Hins. apply bind_Ok in Hins as (? & _ & Hins). injection Hins as <-.
      split; [|right; intros r Hr; congruence].
      etransitivity; [apply (only_run c run_id runs); by apply Hruns|]. apply (only_plan (with_runs c runs)). }
  destruct (_ && _ && _); [|by injection H as <- <- <-].
  apply bind_Ok in H as (c2 & Hreq & H). apply bind_Ok in H as (? & _ & H). injection H as <- <- <-.
  destruct (cd_runs c !! run_id) as [r|] eqn:Er.
  - apply bind_Ok in Hst as (b & _ & Hst). injection Hst as -> ->. by apply request_creates.
  - destruct H1 as [Ho _]. apply request_creates in Hreq as [Ho' _]. split; [by etransitivity|].
    right. intros r Hr. congruence.
Qed.

(** A guarded transaction, by what follows the guard. *)
Lemma guarded accepts refused c now lease c1 p c' :
  guard_with accepts refused c now lease = Ok (c1, p) -> only (le_run_id lease) c1 c' -> creates (le_run_id lease) c c'.
Proof. intros [Ho Hc]%guard_creates Ho'. split; [by etransitivity|by right]. Qed.

Lemma plan_objects_creates c catalog now lease l c' acks :
  plan_objects c catalog now lease l = Ok (c', acks) -> creates (le_run_id lease) c c'.
Proof.
  unfold plan_objects. intros H. apply bind_Ok in H as (? & _ & H). apply bind_Ok in H as ([c1 p] & Hg & H).
  do 4 (apply bind_Ok in H as (? & _ & H)). injection H as <- <-. eapply guarded; [exact Hg|]. apply only_objects.
Qed.

Lemma acknowledge_creates c now lease l c' : acknowledge_objects c now lease l = Ok c' -> creates (le_run_id lease) c c'.
Proof.
  unfold acknowledge_objects. intros H. apply bind_Ok in H as (? & _ & H). apply bind_Ok in H as ([c1 p] & Hg & H).
  do 2 (apply bind_Ok in H as (? & _ & H)). injection H as <-. eapply guarded; [exact Hg|].
  etransitivity; [apply only_plan|apply only_objects].
Qed.

Lemma insert_plan_shards_other dbs run_id t l t' :
  foldM (insert_plan_shard dbs run_id) t l = Ok t' -> forall k, k.1 <> run_id -> t' !! k = t !! k.
Proof.
  intros H k Hk. revert H. apply (foldM_inv (fun t' => t' !! k = t !! k)); [|done].
  intros t1 s t2 _ <- H. unfold insert_plan_shard in H. inv_ok. rewrite lookup_insert_ne; [done|].
  intros <-. done.
Qed.

Lemma publish_creates c catalog dbs now now' lease manifest root shards c' :
  publish c catalog dbs now now' lease manifest root shards = Ok c' -> creates (le_run_id lease) c c'.
Proof.
  unfold publish. intros H. apply bind_Ok in H as ([c1 p] & Hg & H). apply bind_Ok in H as (total & _ & H).
  apply bind_Ok in H as (? & _ & H). apply bind_Ok in H as (rows & Hrows & H). do 2 (apply bind_Ok in H as (? & _ & H)).
  apply bind_Ok in H as ([c2 p2] & [Ho _]%guard_creates & H). apply bind_Ok in H as (? & _ & H).
  apply bind_Ok in H as (r & _ & H). injection H as <-. eapply guarded; [exact Hg|].
  etransitivity; [apply (only_plan_shards c1 (le_run_id lease) rows); by eapply insert_plan_shards_other|].
  etransitivity; [exact Ho|]. etransitivity; [apply only_plan|]. apply only_run.
  intros y Hy. cbn. by rewrite lookup_insert_ne by congruence.
Qed.

Lemma acknowledge_admission_creates c now lease start end_ state c' :
  acknowledge_admission c now lease start end_ state = Ok c' -> creates (le_run_id lease) c c'.
Proof.
  unfold acknowledge_admission. intros H. apply bind_Ok in H as (? & _ & H). apply bind_Ok in H as ([c1 p] & Hg & H).
  apply bind_Ok in H as (? & _ & H). injection H as <-. eapply guarded; [exact Hg|apply only_plan].
Qed.

Lemma insert_cursors_other now run_id t l t' :
  bulk_insert_run_shard_dispatch_cursors now run_id t l = Ok t' -> forall k, k.1 <> run_id -> t' !! k = t !! k.
Proof.
  intros H k Hk. revert H. apply (foldM_inv (fun t' => t' !! k = t !! k)); [|done].
  intros t1 s t2 _ <- H. unfold insert_cursor in H. inv_ok. case_if; [done|]. rewrite lookup_insert_ne; [done|].
  intros <-. done.
Qed.

Lemma activate_creates c dbs now lease expected c' :
  activate c dbs now lease expected = Ok c' -> creates (le_run_id lease) c c'.
Proof.
  unfold activate. intros H. apply bind_Ok in H as ([c1 p] & Hg & H). do 3 (apply bind_Ok in H as (? & _ & H)).
  apply bind_Ok in H as (? & _ & H). apply bind_Ok in H as (cursors & Hc & H). apply bind_Ok in H as (r & _ & H).
  injection H as <-. eapply guarded; [exact Hg|]. etransitivity; [apply only_placements|].
  etransitivity; [|apply only_update_run]. apply only_cursors. by eapply insert_cursors_other.
Qed.

Lemma fail_creates c now lease error c' : fail_admission c now lease error = Ok c' -> creates (le_run_id lease) c c'.
Proof.
  unfold fail_admission. intros H. apply bind_Ok in H as ([c1 p] & Hg & H). apply bind_Ok in H as (r & _ & H).
  injection H as <-. eapply guarded; [exact Hg|apply only_update_run].
Qed.
End ledger.

(** ** The transactions of the control database *)

Section machine.
Context {LF : LedgerFunctions} {HF : SeedFunctions} {RF : ReceiptFunctions} {SUF : SummaryFunctions}.
Context `{E : Encoding} `{SM : Serde RunPlanManifest}.
Variable card_value : RunScorecard -> Value.
Variable uuid_value : Uuid -> Value.

(** A dispatch may use a route it claimed in an earlier state; a cancellation may
    end with any outcome of its fan-out. *)
Inductive control_step : Control -> Control -> Prop :=
| ct_begin c versions catalog now run_id dataset binding limits draft execution assignments execute c' versions' p :
    begin_plan c versions catalog now run_id dataset binding limits draft execution assignments execute
      = Ok (c', versions', p) -> control_step c c'
| ct_claim c now owner run_id c' lease : claim_plan c now owner run_id = Ok (c', lease) -> control_step c c'
| ct_renew c now lease c' : renew_plan c now lease = Ok c' -> control_step c c'
| ct_release c lease error : control_step c (release_plan c lease error)
| ct_plan c catalog now lease l c' acks : plan_objects c catalog now lease l = Ok (c', acks) -> control_step c c'
| ct_acknowledge c now lease l c' : acknowledge_objects c now lease l = Ok c' -> control_step c c'
| ct_publish c catalog dbs now now' lease manifest root shards c' :
    publish c catalog dbs now now' lease manifest root shards = Ok c' -> control_step c c'
| ct_request c run_id c' : request_execution c run_id = Ok c' -> control_step c c'
| ct_claim_admission c now owner run_id c' lease : claim_admission c now owner run_id = Ok (c', lease) -> control_step c c'
| ct_renew_admission c now lease c' : renew_admission c now lease = Ok c' -> control_step c c'
| ct_acknowledge_admission c now lease start end_ state c' :
    acknowledge_admission c now lease start end_ state = Ok c' -> control_step c c'
| ct_activate c dbs now lease expected c' : activate c dbs now lease expected = Ok c' -> control_step c c'
| ct_fail c now lease error c' : fail_admission c now lease error = Ok c' -> control_step c c'
| ct_seed c seed now alias status chunks row_limit lo lo' :
    lo_runs lo = cd_runs c -> seed_write seed now alias status chunks row_limit lo = Ok lo' ->
    control_step c (with_runs c (lo_runs lo'))
| ct_routes c placements : control_step c (with_placements c placements)
| ct_dispatch c now route coordinator_id lease_seconds c1 snapshot remaining c' :
    prepare_dispatch_run_snapshot_with uuid_value c now route coordinator_id lease_seconds = (c1, Some snapshot) ->
    update_dispatch_cursor c1 now (rt_run_id route) (rt_run_shard route) (dispatch_cursor_status remaining) = Ok c' ->
    control_step c c'
| ct_checked c now run_id : control_step c (mark_finalization_candidate_checked c now run_id).1
| ct_claim_final c now locked run_id coordinator_id lease_seconds :
    control_step c (claim_finalization_candidate c now locked run_id coordinator_id lease_seconds).1
| ct_finalize c now run_id coordinator_id policy summaries c' done :
    finalize_claimed_run_from_summaries card_value uuid_value c now run_id coordinator_id policy summaries
      = Ok (c', done) -> control_step c c'
| ct_cancel c now run_id c' state :
    mark_control_cancellation_requested c now run_id = Ok (c', state) -> control_step c c'
| ct_cancel_local c run_id : control_step c (with_runs c (cancel_local_run run_id (cd_runs c)))
| ct_cancel_finish c now state x routes c' o :
    finalize_control_cancellation uuid_value c now state x routes = Ok (c', o) -> control_step c c'.

(** ** Stopped runs *)

Definition cancelled_row (r : RunRow) : Prop :=
  rw_status r = RunCancelled /\ rn_gate_status (rw_state r) = GateFail /\ rn_coordinator_id (rw_state r) = None /\
  rn_coordinator_leased_until (rw_state r) = None /\ is_Some (rn_completed_at (rw_state r)).

Record stopped (x : Uuid) (c : Control) : Prop := mkStopped {
  sp_row : exists r, cd_runs c !! x = Some r /\ cancelled_row r;
  sp_cursors : forall s cu, cd_cursors c !! (x, s) = Some cu -> cu_status cu = CursorDrained
}.

(** What stays as it is: the plan, its shards, the scorecard, what the run
    expects, and every event but that of the cancellation. *)
Record frozen (x : Uuid) (c c' : Control) : Prop := mkFrozen {
  fz_plan : cd_plans c' !! x = cd_plans c !! x;
  fz_shards : forall s, cd_plan_shards c' !! (x, s) = cd_plan_shards c !! (x, s);
  fz_scorecard : cd_scorecards c' !! x = cd_scorecards c !! x;
  fz_events : forall e, e <> "cancelled" -> cd_outbox c' !! (x, e) = cd_outbox c !! (x, e);
  fz_run : forall r, cd_runs c !! x = Some r -> exists r', cd_runs c' !! x = Some r' /\
    rw_context r' = rw_context r /\ rw_expected_execution_count r' = rw_expected_execution_count r
}.

#[global] Instance frozen_preorder x : PreOrder (frozen x).
Proof.
  split; [intros c; constructor; eauto|]. intros a b c [A1 A2 A3 A4 A5] [B1 B2 B3 B4 B5].
  constructor; [congruence|intros s; by rewrite B2, A2|congruence|intros e He; by rewrite B4, A4|intros r Hr].
  destruct (A5 r Hr) as (r1 & H1 & E1 & E2). destruct (B5 r1 H1) as (r2 & H2 & E3 & E4).
  exists r2. split_and!; [done|congruence..].
Qed.

Lemma stopped_untouched x c c' : untouched x c c' -> stopped x c -> stopped x c' /\ frozen x c c'.
Proof.
  intros [U1 U2 U3 U4 U5 U6] [S1 S2]. split; constructor; auto.
  - by rewrite U1.
  - intros s cu. rewrite U4. apply S2.
  - intros r Hr. exists r. by rewrite U1.
Qed.

Lemma stopped_creates x id c c' : creates id c c' -> stopped x c -> stopped x c' /\ frozen x c c'.
Proof.
  intros Hc Hs. apply stopped_untouched; [|done]. destruct (sp_row _ _ Hs) as (r & Hr & Hst & _).
  by eapply cancelled_untouched.
Qed.

(** ** No step revives a stopped run *)

Lemma release_stopped x c lease error : stopped x c -> untouched x c (release_plan c lease error).
Proof.
  intros Hs. destruct (sp_row _ _ Hs) as (r & Hr & _ & _ & Hnone & _). unfold release_plan.
  destruct (cd_runs c !! le_run_id lease) as [r0|] eqn:E0; [|done]. destruct (cd_plans c !! _) as [p|]; [|done].
  destruct (_ && _) eqn:Eb; [|done]. apply andb_true_iff in Eb as [Eb%bool_decide_eq_true _].
  apply only_update_run. intros ->. congruence.
Qed.

Lemma dispatch_stopped x c now route coordinator_id lease_seconds c1 snapshot remaining c' :
  stopped x c ->
  prepare_dispatch_run_snapshot_with uuid_value c now route coordinator_id lease_seconds = (c1, Some snapshot) ->
  update_dispatch_cursor c1 now (rt_run_id route) (rt_run_shard route) (dispatch_cursor_status remaining) = Ok c' ->
  untouched x c c'.
Proof.
  intros Hs Hp Hu. destruct (sp_row _ _ Hs) as (r & Hr & Hst & _).
  assert (x <> rt_run_id route) as Hne.
  { intros ->. unfold prepare_dispatch_run_snapshot_with in Hp. rewrite Hr, Hst in Hp. discriminate Hp. }
  assert (H1 : only (rt_run_id route) c c1).
  { unfold prepare_dispatch_run_snapshot_with in Hp. destruct (cd_runs c !! rt_run_id route) as [r0|]; [|done].
    destruct (rw_status r0); try discriminate Hp; [|by injection Hp as <- _].
    destruct (lease_free _ _ _); [|discriminate Hp]. injection Hp as <- _.
    etransitivity; [apply only_update_run|]. apply (only_events (update_run _ _ _ _)). intros k Hk.
    apply insert_new_other. intros ->. done. }
  transitivity c1; [by apply H1|]. unfold update_dispatch_cursor in Hu. destruct (opt_is_none _); [by injection Hu as <-|].
  inv_ok. apply (only_cursors c1 (rt_run_id route)); [|done]. intros k Hk. rewrite lookup_insert_ne; [done|]. by intros <-.
Qed.

Lemma finalize_stopped x c now run_id coordinator_id policy summaries c' done :
  stopped x c ->
  finalize_claimed_run_from_summaries card_value uuid_value c now run_id coordinator_id policy summaries = Ok (c', done) ->
  untouched x c c'.
Proof.
  intros Hs H. destruct (sp_row _ _ Hs) as (r & Hr & Hst & _). unfold finalize_claimed_run_from_summaries in H.
  apply bind_Ok in H as (? & _ & H). apply bind_Ok in H as ([fs|] & _ & H); [|by injection H as <- _].
  unfold finalize_claimed_run in H. do 2 (apply bind_Ok in H as (? & _ & H)).
  destruct (cd_runs c !! run_id) as [r0|] eqn:E0; [|by injection H as <- _].
  destruct (negb _) eqn:Eg in H; [by injection H as <- _|]. apply negb_false_iff in Eg.
  assert (x <> run_id) as Hne.
  { intros ->. unfold run_row_guard in Eg. rewrite !andb_true_iff, bool_decide_eq_true in Eg. destruct Eg as [[[[[[[Eg _] _] _] _] _] _] _].
    congruence. }
  apply bind_Ok in H as (ms & _ & H). destruct (_ || _) in H; [by injection H as <- _|].
  apply bind_Ok in H as (? & _ & H). injection H as <- _. constructor; cbn.
  - by rewrite lookup_insert_ne by congruence.
  - done.
  - done.
  - intros s. unfold drain_cursors. rewrite lookup_update_where. cbn. replace (x =? run_id) with false by lia.
    by destruct (cd_cursors c !! (x, s)).
  - by rewrite lookup_insert_ne by congruence.
  - intros e. apply insert_new_other. congruence.
Qed.

Lemma claim_final_stopped x c now locked run_id coordinator_id lease_seconds :
  stopped x c -> untouched x c (claim_finalization_candidate c now locked run_id coordinator_id lease_seconds).1.
Proof.
  intros Hs. destruct (sp_row _ _ Hs) as (r & Hr & Hst & _). unfold claim_finalization_candidate.
  destruct (cd_runs c !! run_id) as [r0|] eqn:E0; [|done]. destruct (_ && _) eqn:Eb; [|done].
  apply andb_true_iff in Eb as [Eb _]. cbn [fst]. apply (only_run c run_id).
  - intros y Hy. by rewrite lookup_insert_ne by congruence.
  - intros ->. unfold finalizable in Eb. assert (r0 = r) as -> by congruence. by rewrite Hst in Eb.
Qed.

Lemma checked_stopped x c now run_id : stopped x c -> untouched x c (mark_finalization_candidate_checked c now run_id).1.
Proof.
  intros Hs. destruct (sp_row _ _ Hs) as (r & Hr & Hst & _). unfold mark_finalization_candidate_checked.
  destruct (cd_runs c !! run_id) as [r0|] eqn:E0; [|done]. destruct (bool_decide _) eqn:Eb; [|done].
  apply bool_decide_eq_true in Eb. cbn [fst]. apply (only_run c run_id).
  - intros y Hy. by rewrite lookup_insert_ne by congruence.
  - intros ->. naive_solver congruence.
Qed.

Lemma only_drain c id now : only id c (drain_control_dispatch_cursors c now id).
Proof.
  apply only_cursors. intros k Hk. unfold drain_cursors. rewrite lookup_update_where.
  replace (k.1 =? id) with false by lia. by destruct (cd_cursors c !! k).
Qed.

Lemma drain_drained c id now s cu :
  cd_cursors (drain_control_dispatch_cursors c now id) !! (id, s) = Some cu -> cu_status cu = CursorDrained.
Proof.
  cbn. unfold drain_cursors. rewrite lookup_update_where. destruct (cd_cursors c !! (id, s)); [|done].
  cbn. rewrite Z.eqb_refl. by intros [= <-].
Qed.

Lemma mark_only c now run_id c' state :
  mark_control_cancellation_requested c now run_id = Ok (c', state) -> only run_id c c'.
Proof.
  unfold mark_control_cancellation_requested. intros H. destruct (cd_runs c !! run_id) as [r|]; [|by injection H as <- _].
  destruct (is_uncancelable_terminal_status _); [discriminate H|].
  destruct (is_already_cancelled_status _); [injection H as <- _; apply only_drain|].
  destruct (_ && _); [discriminate H|]. injection H as <- _. etransitivity; [apply (only_drain c run_id now)|].
  apply only_run. intros y Hy. cbn. by rewrite lookup_insert_ne by congruence.
Qed.

(** The first request stops the run. *)
Lemma mark_stops c now x c' state :
  mark_control_cancellation_requested c now x = Ok (c', Some state) -> ccs_cancelled state = true ->
  stopped x c' /\ frozen x c c'.
Proof.
  unfold mark_control_cancellation_requested. intros H Hc. destruct (cd_runs c !! x) as [r|] eqn:Er; [|discriminate H].
  destruct (is_uncancelable_terminal_status _); [discriminate H|].
  destruct (is_already_cancelled_status _); [injection H as <- <-; discriminate Hc|].
  destruct (_ && _); [discriminate H|]. injection H as <- _. split; constructor; try done.
  - eexists. cbn. rewrite lookup_insert_eq. split; [done|]. split_and!; [done..|]. by eexists.
  - intros s cu Hcu. by eapply (drain_drained c x now).
  - intros r' Hr'. assert (r' = r) as -> by congruence. eexists. cbn. by rewrite lookup_insert_eq.
Qed.

Lemma cancel_stopped x c now run_id c' state :
  stopped x c -> mark_control_cancellation_requested c now run_id = Ok (c', state) -> stopped x c' /\ frozen x c c'.
Proof.
  intros Hs H. destruct (decide (x = run_id)) as [->|Hne]; [|apply stopped_untouched; [|done]; by apply (mark_only _ _ _ _ _ H)].
  destruct (sp_row _ _ Hs) as (r & Hr & Hrow). unfold mark_control_cancellation_requested in H.
  rewrite Hr, (proj1 Hrow) in H. injection H as <- _. split; constructor; try done.
  - by exists r.
  - intros s cu. apply drain_drained.
  - intros r' Hr'. by exists r'.
Qed.

Lemma cancel_local_stopped x c run_id :
  stopped x c -> stopped x (with_runs c (cancel_local_run run_id (cd_runs c))) /\
    frozen x c (with_runs c (cancel_local_run run_id (cd_runs c))).
Proof.
  intros Hs. unfold cancel_local_run. destruct (cd_runs c !! run_id) as [r0|] eqn:E0.
  2:{ apply stopped_untouched; [|done]. by constructor. }
  destruct (decide (x = run_id)) as [->|Hne].
  - destruct (sp_row _ _ Hs) as (r & Hr & Hrow). assert (r0 = r) as -> by congruence. split; constructor; try done.
    + eexists. cbn. rewrite lookup_insert_eq. split; [done|]. destruct Hrow as (_ & ? & ? & ? & ?). done.
    + apply Hs.
    + intros r' Hr'. eexists. cbn. rewrite lookup_insert_eq. split; [done|]. by assert (r' = r) as -> by congruence.
  - apply stopped_untouched; [|done]. apply (only_run c run_id); [|done]. intros y Hy. by rewrite lookup_insert_ne by congruence.
Qed.

Lemma finish_Ok c now state x routes c' o :
  finalize_control_cancellation uuid_value c now state x routes = Ok (c', o) ->
  exists r r' v, cd_runs c !! ccs_run_id state = Some r /\ cancelled_row r' /\ rw_context r' = rw_context r /\
    rw_expected_execution_count r' = rw_expected_execution_count r /\ co_run o = r' /\
    c' = with_events (with_runs c (<[ccs_run_id state := r']> (cd_runs c)))
           (insert_new (ccs_run_id state, "cancelled") v (cd_outbox c)).
Proof.
  unfold finalize_control_cancellation, update_run_cancelled, enqueue_cancelled_event. intros H.
  apply bind_Ok in H as ([c1 r1] & H1 & H). cbn [fst snd] in H. injection H as <- <-.
  do 6 (apply bind_Ok in H1 as (? & _ & H1)). apply bind_Ok in H1 as (r & Hr%ok_or_Ok & H1).
  apply bind_Ok in H1 as (? & _ & H1). injection H1 as <- <-. eexists r, _, _.
  split; [exact Hr|]. split; [|split; [|split; [|split; reflexivity]]]; [|reflexivity..].
  split_and!; [reflexivity..|]. by eexists.
Qed.

Lemma finish_stopped x c now state o routes c' out :
  stopped x c -> finalize_control_cancellation uuid_value c now state o routes = Ok (c', out) ->
  stopped x c' /\ frozen x c c'.
Proof.
  intros Hs H. apply finish_Ok in H as (r & r' & v & Hr & Hrow & Hctx & Hexp & _ & ->).
  destruct (decide (x = ccs_run_id state)) as [->|Hne].
  - split; constructor; cbn; try done.
    + exists r'. by rewrite lookup_insert_eq.
    + apply Hs.
    + intros e He. apply insert_new_other. congruence.
    + intros r0 Hr0. exists r'. rewrite lookup_insert_eq. assert (r0 = r) as -> by congruence. done.
  - apply stopped_untouched; [|done]. transitivity (with_runs c (<[ccs_run_id state := r']> (cd_runs c))).
    + apply (only_run c (ccs_run_id state)); [|done]. intros y Hy. by rewrite lookup_insert_ne by congruence.
    + apply (only_events (with_runs c _) (ccs_run_id state)); [|done]. intros k Hk. apply insert_new_other. by intros ->.
Qed.

Lemma step_stopped x c c' : control_step c c' -> stopped x c -> stopped x c' /\ frozen x c c'.
Proof.
  intros Hstep Hs. destruct Hstep as [? ? ? ? ? ? ? ? ? ? ? ? ? ? ? H|? ? ? ? ? ? H|? ? ? ? H|c lease error|? ? ? ? ? ? ? H
    |? ? ? ? ? H|? ? ? ? ? ? ? ? ? ? H|? ? ? H|? ? ? ? ? ? H|? ? ? ? H|? ? ? ? ? ? ? H|? ? ? ? ? ? H|? ? ? ? ? H
    |c seed now alias status chunks limit lo lo' Hlo H|c placements|? ? ? ? ? ? ? ? ? Hp Hu|? ? ?|? ? ? ? ? ?|? ? ? ? ? ? ? ? H
    |? ? ? ? ? H|? ?|? ? ? ? ? ? ? H].
  - by eapply stopped_creates, Hs; eapply begin_creates.
  - by eapply stopped_creates, Hs; eapply claim_creates.
  - unfold renew_plan in H. inv_ok. destruct a. by eapply stopped_creates, Hs; eapply guarded.
  - by apply stopped_untouched, Hs; apply release_stopped.
  - by eapply stopped_creates, Hs; eapply plan_objects_creates.
  - by eapply stopped_creates, Hs; eapply acknowledge_creates.
  - by eapply stopped_creates, Hs; eapply publish_creates.
  - by eapply stopped_creates, Hs; eapply request_creates.
  - by eapply stopped_creates, Hs; eapply claim_creates.
  - unfold renew_admission in H. inv_ok. destruct a. by eapply stopped_creates, Hs; eapply guarded.
  - by eapply stopped_creates, Hs; eapply acknowledge_admission_creates.
  - by eapply stopped_creates, Hs; eapply activate_creates.
  - by eapply stopped_creates, Hs; eapply fail_creates.
  - apply stopped_untouched; [|done]. destruct (sp_row _ _ Hs) as (r & Hr & _). constructor; try done. cbn.
    rewrite Hr. eapply seed_write_runs; [exact H|]. by rewrite Hlo.
  - apply stopped_untouched; [|done]. by constructor.
  - apply stopped_untouched; [|done]. by eapply dispatch_stopped.
  - apply stopped_untouched; [|done]. by apply checked_stopped.
  - apply stopped_untouched; [|done]. by apply claim_final_stopped.
  - apply stopped_untouched; [|done]. by eapply finalize_stopped.
  - by eapply cancel_stopped.
  - by apply cancel_local_stopped.
  - by eapply finish_stopped.
Qed.

Lemma steps_stopped x c c' : rtc control_step c c' -> stopped x c -> stopped x c' /\ frozen x c c'.
Proof.
  induction 1 as [c|c c1 c' H1 _ IH]; intros Hs; [done|]. destruct (step_stopped _ _ _ H1 Hs) as [Hs1 Hf].
  destruct (IH Hs1) as [? ?]. split; [done|]. by etransitivity.
Qed.

(** ** What a stopped run is refused *)

Lemma stopped_no_route x c dbs now excluded locked route :
  stopped x c -> claim_next_dispatch_route c dbs now excluded locked = Some route -> rt_run_id route <> x.
Proof.
  intros Hs H <-. unfold claim_next_dispatch_route in H.
  destruct (head _) as [[k cu]|] eqn:Eh; [|discriminate H]. cbn [mbind option_bind fst snd] in H.
  destruct (dispatchable_cursor c dbs now k cu) as [p|] eqn:Ed; [|discriminate H]. injection H as <-. cbn in Hs.
  destruct (sp_row _ _ Hs) as (r & Hr & Hst & _). unfold dispatchable_cursor in Ed. rewrite Hr in Ed.
  cbn [mbind option_bind] in Ed. destruct (cd_placements c !! k) as [q|]; [|discriminate Ed]. cbn [mbind option_bind] in Ed.
  destruct (dbs !! _) as [d|]; [|discriminate Ed]. cbn [mbind option_bind] in Ed.
  unfold dispatchable_run in Ed. rewrite Hst, !andb_false_r in Ed. discriminate Ed.
Qed.

Lemma stopped_no_snapshot x c now route coordinator_id lease_seconds :
  stopped x c -> rt_run_id route = x ->
  prepare_dispatch_run_snapshot_with uuid_value c now route coordinator_id lease_seconds = (c, None).
Proof.
  intros Hs <-. destruct (sp_row _ _ Hs) as (r & Hr & Hst & _). unfold prepare_dispatch_run_snapshot_with.
  by rewrite Hr, Hst.
Qed.

Lemma first_candidate_in best l x : first_candidate best l = Some x -> best = Some x \/ x ∈ l.
Proof.
  revert best. induction l as [|y l IH]; intros best H; [by left|]. cbn in H. apply IH in H as [H|H].
  - destruct best as [b|]; [destruct (candidate_before b y)|]; injection H as <-; set_solver.
  - set_solver.
Qed.

Lemma stopped_no_candidate x c now excluded run :
  stopped x c -> select_next_finalization_candidate c now excluded = Some run -> cf_id run <> x.
Proof.
  intros Hs H <-. unfold select_next_finalization_candidate in H. apply fmap_Some in H as ([id r] & H & ->).
  apply first_candidate_in in H as [H|H]; [discriminate H|]. apply elem_of_map_to_list, lookup_rows_where in H as [Hr Hc].
  destruct (sp_row _ _ Hs) as (r' & Hr' & Hst & _). cbn in *. assert (r' = r) as -> by congruence.
  unfold candidate, finalizable in Hc. by rewrite Hst in Hc.
Qed.

Lemma stopped_no_claim x c accepts refused now owner :
  stopped x c -> is_ok (claim_with accepts refused c now owner x) = false.
Proof.
  intros Hs. destruct (sp_row _ _ Hs) as (r & Hr & Hst & _). unfold claim_with. rewrite Hr.
  cbn [ok_or mbind result_bind]. destruct (cd_plans c !! x); [|done]. cbn [ok_or mbind result_bind]. by rewrite Hst.
Qed.

Lemma stopped_no_guard x c accepts refused now lease :
  stopped x c -> le_run_id lease = x -> is_ok (guard_with accepts refused c now lease) = false.
Proof.
  intros Hs <-. destruct (sp_row _ _ Hs) as (r & Hr & Hst & _). unfold guard_with. rewrite Hr.
  cbn [ok_or mbind result_bind]. destruct (cd_plans c !! _); [|done]. cbn [ok_or mbind result_bind]. by rewrite Hst.
Qed.

(** C15: A cancelled run is final in the control database.  Once a request has
    cancelled a run, then after any further transactions of planners, creators,
    coordinators, finalizers, movers and repeated cancellations, in any order:
    the run is cancelled with a failed gate and no owner, all its dispatch
    cursors are drained, and its plan, planned shards, scorecard, identity and
    expected count, and every event but the cancellation's own, are what they
    were before the request.  Dispatch never selects it and refuses it its
    snapshot, finalization never selects it, and no planner or creator can claim
    it or pass the guard of a creation lease on it. *)
Theorem cancelled_run_final c now x c1 state c2 :
  mark_control_cancellation_requested c now x = Ok (c1, Some state) -> ccs_cancelled state = true ->
  rtc control_step c1 c2 ->
  stopped x c2 /\ frozen x c c2 /\
  (forall dbs t excluded locked route,
     claim_next_dispatch_route c2 dbs t excluded locked = Some route -> rt_run_id route <> x) /\
  (forall t route coordinator_id lease_seconds, rt_run_id route = x ->
     prepare_dispatch_run_snapshot_with uuid_value c2 t route coordinator_id lease_seconds = (c2, None)) /\
  (forall t excluded run, select_next_finalization_candidate c2 t excluded = Some run -> cf_id run <> x) /\
  (forall t owner, is_ok (claim_plan c2 t owner x) = false /\ is_ok (claim_admission c2 t owner x) = false) /\
  (forall t lease, le_run_id lease = x -> is_ok (guard_plan c2 t lease) = false /\ is_ok (guard_admission c2 t lease) = false).
Proof.
  intros Hm Hc Hsteps. destruct (mark_stops _ _ _ _ _ Hm Hc) as [Hs Hf].
  destruct (steps_stopped _ _ _ Hsteps Hs) as [Hs2 Hf2]. split; [done|]. split; [by etransitivity|].
  split_and!; intros.
  - by eapply stopped_no_route.
  - by eapply stopped_no_snapshot.
  - by eapply stopped_no_candidate.
  - split; by apply stopped_no_claim.
  - split; by apply (stopped_no_guard x).
Qed.
End machine.

(** ** Cancelling a published plan *)

Module CancelSample.
Import LedgerSample.

Definition requested : result (Control * option ControlCancellationState) :=
  c ← published; mark_control_cancellation_requested c 8 5.
End CancelSample.

(** The creator gives up its lease and the user asks again. *)
Lemma cancelled_run_final_witness : exists c1 c3, CancelSample.requested = Ok c1 /\ stopped 5 c3.
Proof.
  assert (H : match LedgerSample.published with
              | Ok c => match mark_control_cancellation_requested c 8 5 with
                        | Ok (c1, Some state) => ccs_cancelled state
                            && is_ok (mark_control_cancellation_requested (release_plan c1 LedgerSample.lease' None) 9 5)
                        | _ => false
                        end
              | Err _ => false
              end = true) by (vm_compute; reflexivity).
  unfold CancelSample.requested. destruct LedgerSample.published as [c|]; [|discriminate H]. cbn [mbind result_bind].
  destruct (mark_control_cancellation_requested c 8 5) as [[c1 [state|]]|] eqn:Em; try discriminate H.
  apply andb_true_iff in H as [Hc H].
  destruct (mark_control_cancellation_requested (release_plan c1 LedgerSample.lease' None) 9 5) as [[c3 st3]|] eqn:E3;
    [|discriminate H].
  exists (c1, Some state), c3. split; [reflexivity|].
  refine (proj1 (cancelled_run_final (fun _ => Null) (fun _ => Null) c 8 5 c1 state c3 Em Hc _)).
  eapply rtc_l; [apply (ct_release _ _ c1 LedgerSample.lease' None)|]. eapply rtc_l; [by eapply ct_cancel|apply rtc_refl].
Defined.
