(* ===== verification/CancelFence.v ===== *)
(** * Cancelling a run that is still being created

    A creator that was admitted before the cancellation keeps writing chunks to
    the execution databases until it next renews its lease.  [RunCancel] closes
    the shards of the plan with tombstones; here every interleaving of creators,
    control transactions, cancellations and the work of other runs is a sequence
    of steps of the [World] of [RunAdmission], and once the cancellation has gone
    through, no step leaves open work of the run behind. *)

From Stdlib Require Import ZArith Lia ZifyBool.
From stdpp Require Import base strings pretty numbers gmap sorting relations sets option list.
From S2P Require Import Prelude Prog Float64 BTree Text Json RunTypes StorageFormats Codec Scorecard.
From S2P Require Import ShardTables ReceiptGates LocalAdmission Settlement ShardSummary ChunkLease ControlTables.
From S2P Require Import PlanLedger PlanLifecycle LocalSeed RunAdmission RunDispatch RunFinalize RunCancel RunFinality.

Open Scope Z_scope.

(** ** What a cancellation does to one database *)

Section target.
Context {RF : ReceiptFunctions}.

(** The whole outcome is computed around the transaction of [ChunkLease]. *)
Lemma cancel_target_transaction db now run_id shards db' o :
  cancel_target db now run_id shards = Ok (db', o) ->
  cancel_execution_target_with_transaction db now run_id shards = Ok (db', xo_counts o).
Proof.
  unfold cancel_target, cancel_execution_target_with_transaction.
  destruct (cancel_open_chunks db now run_id) as [db1 n1]. destruct (cancel_open_attempts db1 now run_id) as [db2 n2].
  destruct (cancel_open_executions db2 now run_id) as [db3 n3]. intros H. apply bind_Ok in H as ([d n] & Hf & [= <- <-]).
  assert (G : forall l d n d' n', foldM (cancel_summary now run_id) (d, n) l = Ok (d', n') ->
    foldM (cancel_shard now run_id) d l = Ok d').
  { clear. induction l as [|s l IH]; intros d n d' n' H; [by injection H as <- _|]. cbn [foldM] in H |- *.
    apply bind_Ok in H as ([d1 n1] & H1 & H). unfold cancel_summary in H1. apply bind_Ok in H1 as (d2 & H2 & [= <- _]).
    cbn [fst] in H2. rewrite H2. cbn [mbind result_bind]. by eapply IH. }
  cbn [xo_counts fst]. by rewrite (G _ _ _ _ _ Hf).
Qed.

Lemma cancel_shard_keeps now run_id db s db' :
  cancel_shard now run_id db s = Ok db' -> db_chunks db' = db_chunks db /\ db_admissions db' = db_admissions db.
Proof.
  unfold cancel_shard. intros H. apply bind_Ok in H as (d & Hd & H).
  pose proof (settle_all_spec (S (size (db_chunks db))) db now run_id s) as Ht.
  destruct (settle_terminal_chunks_with _ db now run_id s) as [[d0|]|]; [|discriminate Hd..]. injection Hd as ->.
  destruct Ht as [Hf _].
  { unfold unsettled_rows, rows_where. apply Nat.lt_succ_r, map_subseteq_size, map_filter_subseteq. }
  rewrite <- (sf_chunks _ _ Hf), <- (sf_admissions _ _ Hf). unfold initialize_run_shard_summary_with in H.
  pose proof (ensure_snapshot_frame d run_id s) as He. rewrite <- (sf_chunks _ _ He), <- (sf_admissions _ _ He).
  unfold insert_run_shard_summary_with in H. destruct (db_snapshots _ !! _); [|by injection H as <-].
  apply bind_Ok in H as (? & _ & H). apply bind_Ok in H as (? & _ & H). by injection H as <-.
Qed.

(** Chunks of the run that were open are cancelled; nothing else changes in the
    chunks, and the admissions stay. *)
Lemma cancel_target_keeps db now run_id shards db' o :
  cancel_target db now run_id shards = Ok (db', o) ->
  db_chunks db' = db_chunks (cancel_open_chunks db now run_id).1 /\ db_admissions db' = db_admissions db.
Proof.
  unfold cancel_target. destruct (cancel_open_chunks db now run_id) as [db1 n1] eqn:E1.
  destruct (cancel_open_attempts db1 now run_id) as [db2 n2] eqn:E2.
  destruct (cancel_open_executions db2 now run_id) as [db3 n3] eqn:E3. intros H.
  apply bind_Ok in H as ([d n] & Hf & [= <- _]). cbn [fst].
  assert (db_chunks db3 = db_chunks db1 /\ db_admissions db3 = db_admissions db) as [<- <-].
  { injection E3 as <- _. injection E2 as <- _. injection E1 as <- _. done. }
  apply (foldM_inv (fun st : Database * Z => db_chunks st.1 = db_chunks db3 /\ db_admissions st.1 = db_admissions db3))
    in Hf; [exact Hf| |done].
  intros [d1 m1] s [d2 m2] _ [<- <-] Hs. unfold cancel_summary in Hs. apply bind_Ok in Hs as (d3 & Hd & [= -> _]).
  by apply cancel_shard_keeps in Hd.
Qed.

Lemma cancelled_chunks db now run_id k c :
  db_chunks (cancel_open_chunks db now run_id).1 !! k = Some c ->
  (k.1.1 = run_id -> chunk_terminal (ch_status c) = true) /\
  (k.1.1 <> run_id -> db_chunks db !! k = Some c).
Proof.
  cbn. intros (c0 & H0 & ->)%update_where_Some. split; intros Hk.
  - rewrite Hk, Z.eqb_refl. cbn. by destruct (chunk_terminal (ch_status c0)) eqn:Et.
  - replace (k.1.1 =? run_id) with false by lia. done.
Qed.
End target.

(** ** Tombstones *)

Definition epoch_one (x : Uuid) (db : Database) : Prop :=
  forall s a, db_admissions db !! (x, s) = Some a -> ad_write_epoch a = 1.

Definition tombstoned (x : Uuid) (db : Database) (s : Z) : Prop :=
  exists a, db_admissions db !! (x, s) = Some a /\ ad_state a = Closed.

(** The shard is fenced: no write is admitted and no chunk is open. *)
Definition closed_shard (x : Uuid) (db : Database) (s : Z) : Prop :=
  tombstoned x db s /\ forall i c, db_chunks db !! (x, s, i) = Some c -> chunk_terminal (ch_status c) = true.

Lemma tombstone_Ok db now run_id s alias db' :
  tombstone_admission db now run_id s alias = Ok db' ->
  db_chunks db' = db_chunks db /\ db_snapshots db' = db_snapshots db /\
  (forall k, k <> (run_id, s) -> db_admissions db' !! k = db_admissions db !! k) /\
  (epoch_one run_id db -> epoch_one run_id db' /\ tombstoned run_id db' s).
Proof.
  unfold tombstone_admission, epoch_one, tombstoned. intros H. destruct (db_admissions db !! (run_id, s)) as [a|] eqn:Ea.
  - destruct (ad_write_epoch a =? 1) eqn:Ee.
    + apply bind_Ok in H as (? & _ & [= <-]). cbn. split_and!; try done.
      * intros k Hk. by rewrite lookup_insert_ne by congruence.
      * intros H1. split; [|eexists; by rewrite lookup_insert_eq]. intros s' a'. rewrite lookup_insert_Some.
        intros [[_ <-]|[_ H]]; [done|by eapply H1].
    + injection H as <-. split_and!; try done. intros H1. specialize (H1 s a Ea). lia.
  - injection H as <-. cbn. split_and!; try done.
    + intros k Hk. by rewrite lookup_insert_ne by congruence.
    + intros H1. split; [|eexists; by rewrite lookup_insert_eq]. intros s' a'. rewrite lookup_insert_Some.
      intros [[_ <-]|[_ H]]; [done|by eapply H1].
Qed.

Lemma tombstones_Ok db now run_id alias shards db' :
  foldM (fun db s => tombstone_admission db now run_id s alias) db shards = Ok db' ->
  db_chunks db' = db_chunks db /\
  (forall k, k.1 <> run_id -> db_admissions db' !! k = db_admissions db !! k) /\
  (epoch_one run_id db -> epoch_one run_id db' /\ (forall s, s ∈ shards \/ tombstoned run_id db s -> tombstoned run_id db' s)).
Proof.
  revert db. induction shards as [|s shards IH]; intros db H.
  { injection H as <-. split_and!; try done. intros H1. split; [done|]. intros s [Hs|Hs]; [|done]. by apply not_elem_of_nil in Hs. }
  cbn [foldM] in H. apply bind_Ok in H as (d & Hd & H). apply tombstone_Ok in Hd as (D1 & _ & D2 & D3).
  destruct (IH _ H) as (I1 & I2 & I3). split_and!.
  - congruence.
  - intros k Hk. rewrite I2 by done. apply D2. by intros ->.
  - intros H1. destruct (D3 H1) as [H2 Ht]. destruct (I3 H2) as [H3 Hall]. split; [done|].
    intros s' [[->|Hs]%elem_of_cons|(a & Ha & Hc)].
    + apply Hall. by right.
    + apply Hall. by left.
    + apply Hall. right. destruct (decide (s' = s)) as [->|Hne]; [done|]. exists a. rewrite D2 by congruence. done.
Qed.

Section fence.
Context {LF : LedgerFunctions} {HF : SeedFunctions} {RF : ReceiptFunctions} {SUF : SummaryFunctions}.
Context `{E : Encoding} `{SM : Serde RunPlanManifest}.

Lemma unadmitted_target_Ok lo now run_id alias shards lo' o :
  cancel_unadmitted_target lo now run_id alias shards = Ok (lo', o) ->
  lo_runs lo' = cancel_local_run run_id (lo_runs lo) /\
  (forall k c, db_chunks (lo_db lo') !! k = Some c -> (k.1.1 = run_id -> chunk_terminal (ch_status c) = true) /\
     (k.1.1 <> run_id -> db_chunks (lo_db lo) !! k = Some c)) /\
  (forall k, k.1 <> run_id -> db_admissions (lo_db lo') !! k = db_admissions (lo_db lo) !! k) /\
  (epoch_one run_id (lo_db lo) -> epoch_one run_id (lo_db lo') /\
     (forall s, s ∈ shards \/ tombstoned run_id (lo_db lo) s -> closed_shard run_id (lo_db lo') s)).
Proof.
  unfold cancel_unadmitted_target. intros H. apply bind_Ok in H as (db & Ht & H). apply bind_Ok in H as ([db' o'] & Hc & H).
  injection H as <- <-. cbn [lo_runs lo_db fst]. apply tombstones_Ok in Ht as (T1 & T2 & T3).
  apply cancel_target_keeps in Hc as [C1 C2].
  assert (Hch : forall k c, db_chunks db' !! k = Some c -> (k.1.1 = run_id -> chunk_terminal (ch_status c) = true) /\
    (k.1.1 <> run_id -> db_chunks (lo_db lo) !! k = Some c)).
  { intros k c Hk. rewrite C1 in Hk. apply cancelled_chunks in Hk as [K1 K2]. split; [done|]. by rewrite <- T1. }
  split_and!; [done|done| |].
  - intros k Hk. rewrite C2. by apply T2.
  - intros H1. destruct (T3 H1) as [H2 Hall]. split.
    + intros s a. rewrite C2. apply H2.
    + intros s Hs. split; [|intros i c Hi; by apply (Hch _ _ Hi)]. unfold tombstoned. rewrite C2. by apply Hall.
Qed.

(** ** Writes of a creator *)

Lemma snapshots_epoch seed now alias lo group lo' k a :
  snapshots seed now alias lo group = Ok lo' -> db_admissions (lo_db lo') !! k = Some a ->
  db_admissions (lo_db lo) !! k = Some a \/ ad_write_epoch a = 1.
Proof.
  unfold snapshots. intros H. do 3 (apply bind_Ok in H as (? & _ & H)). injection H as <-. cbn. intros Hk.
  apply (fold_insert_new (fun s => (se_run_id seed, hs_run_shard s)) (fun _ => mkAdmissionRow alias 1 Open None None now))
    in Hk as [Hk|(s & _ & _ & ->)]; [by left|by right].
Qed.

Lemma seed_write_epoch seed now alias status chunks row_limit lo lo' k a :
  seed_write seed now alias status chunks row_limit lo = Ok lo' -> db_admissions (lo_db lo') !! k = Some a ->
  db_admissions (lo_db lo) !! k = Some a \/ ad_write_epoch a = 1.
Proof.
  unfold seed_write. intros H. do 3 (apply bind_Ok in H as (? & _ & H)). apply bind_Ok in H as (runs & _ & H).
  apply bind_Ok in H as (tb & _ & H). apply bind_Ok in H as ([[lo1 g] b] & Hg & H).
  apply bind_Ok in H as (lo2 & Hf & H). do 2 (apply bind_Ok in H as (? & _ & H)). injection H as <-. cbn. intros Hk.
  assert (H2 : db_admissions (lo_db lo1) !! k = Some a \/ ad_write_epoch a = 1).
  { destruct (negb _); [by eapply snapshots_epoch|]. injection Hf as ->. by left. }
  destruct H2 as [H2|H2]; [|by right]. clear Hf Hk. revert H2.
  refine (foldM_inv (fun st : Local * list SeedShard * Z => db_admissions (lo_db st.1.1) !! k = Some a ->
    db_admissions (lo_db lo) !! k = Some a \/ ad_write_epoch a = 1) _ _ _ _ _ _ Hg); [|by left].
  intros [[l0 g0] b0] s [[l1 g1] b1] _ IH Hs. cbn in *. intros Hk.
  apply group_shard_Ok in Hs as (h & _ & [[-> _]|[Hsn _]] & _); [by apply IH|].
  destruct (snapshots_epoch _ _ _ _ _ _ _ _ Hsn Hk) as [?|?]; [by apply IH|by right].
Qed.

(** ** Steps of the world *)

Variable card_value : RunScorecard -> Value.
Variable uuid_value : Uuid -> Value.
Variable control_alias : string.
Variable x : Uuid.
Hypothesis jsonb_eqb_refl : forall v, jsonb_eqb v v = true.

(** The plan places the shard on the database. *)
Definition planned_on (c : Control) (run_id : Uuid) (alias : string) (s : Z) : Prop :=
  exists row, cd_plan_shards c !! (run_id, s) = Some row /\ ps_database_alias row = alias.

Definition seed_status (alias : string) : RunStatus := if str_eqb alias control_alias then RunCreating else RunPending.

(** Control transactions; a creator's write to the database its plan names;
    cancellations, of this run or another, that have read their plan; and
    transactions on the rows of other runs. *)
Inductive world_step (w : World) : World -> Prop :=
| ws_control c' : control_step card_value uuid_value (aw_control w) c' -> world_step w (set_control w c')
| ws_seed seed now alias chunks row_limit lo lo' :
    local_at control_alias w alias = Some lo ->
    (forall c, c ∈ chunks -> planned_on (aw_control w) (se_run_id seed) alias (kd_run_shard c)) ->
    seed_write seed now alias (seed_status alias) chunks row_limit lo = Ok lo' ->
    world_step w (put_local control_alias w alias lo')
| ws_cancel run_id now alias shards lo lo' o :
    local_at control_alias w alias = Some lo -> cancel_unadmitted_target lo now run_id alias shards = Ok (lo', o) ->
    world_step w (put_local control_alias w alias lo')
| ws_other alias lo lo' :
    local_at control_alias w alias = Some lo -> lo_runs lo' = lo_runs lo ->
    (forall s, db_admissions (lo_db lo') !! (x, s) = db_admissions (lo_db lo) !! (x, s)) ->
    (forall s i, db_chunks (lo_db lo') !! (x, s, i) = db_chunks (lo_db lo) !! (x, s, i)) ->
    world_step w (put_local control_alias w alias lo').

Record base (w : World) : Prop := mkBase {
  ba_stopped : stopped x (aw_control w);
  ba_epoch : forall alias lo, aw_locals w !! alias = Some lo -> epoch_one x (lo_db lo)
}.

Definition fence_at (w : World) (alias : string) : Prop :=
  forall s lo, planned_on (aw_control w) x alias s -> aw_locals w !! alias = Some lo -> closed_shard x (lo_db lo) s.

Definition fenced (w : World) : Prop := base w /\ forall alias, fence_at w alias.

(** A local transaction is a control step where the database is shared. *)
Lemma put_local_control w alias lo lo' :
  local_at control_alias w alias = Some lo ->
  (lo_runs lo = cd_runs (aw_control w) -> rtc (control_step card_value uuid_value) (aw_control w) (with_runs (aw_control w) (lo_runs lo'))) ->
  rtc (control_step card_value uuid_value) (aw_control w) (aw_control (put_local control_alias w alias lo')).
Proof.
  unfold local_at, put_local. destruct (aw_locals w !! alias) as [lo0|]; [|done]. intros [= <-]. cbn.
  destruct (str_eqb alias control_alias); [|done]. intros H. by apply H.
Qed.

Lemma step_control w w' :
  world_step w w' -> rtc (control_step card_value uuid_value) (aw_control w) (aw_control w').
Proof.
  destruct 1 as [c' H|seed now alias chunks limit lo lo' Hlo Hp H|run_id now alias shards lo lo' o Hlo H|alias lo lo' Hlo Hr _ _].
  - by apply rtc_once.
  - eapply put_local_control; [exact Hlo|]. intros Hruns. apply rtc_once. by eapply ct_seed.
  - eapply put_local_control; [exact Hlo|]. intros Hruns. apply rtc_once.
    destruct (unadmitted_target_Ok _ _ _ _ _ _ _ H) as (-> & _). rewrite Hruns. apply ct_cancel_local.
  - eapply put_local_control; [exact Hlo|]. intros Hruns. rewrite Hr, Hruns. by destruct (aw_control w).
Qed.

Lemma planned_on_frozen c c' alias s : frozen x c c' -> planned_on c' x alias s <-> planned_on c x alias s.
Proof. intros Hf. unfold planned_on. by rewrite (fz_shards _ _ _ Hf). Qed.

Lemma steps_control_stopped w w' :
  stopped x (aw_control w) -> rtc (control_step card_value uuid_value) (aw_control w) (aw_control w') ->
  stopped x (aw_control w') /\ frozen x (aw_control w) (aw_control w').
Proof. intros Hs H. by eapply steps_stopped. Qed.

(** What a local transaction must keep. *)
Lemma put_local_lookup w alias lo' alias' lo :
  aw_locals (put_local control_alias w alias lo') !! alias' = Some lo ->
  (alias' = alias /\ lo = lo') \/ (alias' <> alias /\ aw_locals w !! alias' = Some lo).
Proof. cbn. rewrite lookup_insert_Some. naive_solver. Qed.

Lemma seed_keeps seed now alias status chunks row_limit lo lo' s :
  seed_write seed now alias status chunks row_limit lo = Ok lo' ->
  (forall c, c ∈ chunks -> se_run_id seed = x -> tombstoned x (lo_db lo) (kd_run_shard c)) ->
  closed_shard x (lo_db lo) s -> closed_shard x (lo_db lo') s.
Proof.
  intros H Hc [(a & Ha & Hcl) Hch].
  destruct (seed_write_Ok _ _ _ _ _ _ _ _ jsonb_eqb_refl H) as ([_ Hnew] & _ & Hkeep & Hopen & _).
  split; [exists a; auto|]. intros i c Hi. apply Hnew in Hi as [Hi|(d & Hd & Hk & _)]; [by eapply Hch|].
  unfold chunk_key in Hk. injection Hk as Hx Hs Hid. destruct (Hc d Hd (eq_sym Hx)) as (a' & Ha' & Hcl').
  destruct (Hopen d Hd) as (a2 & H2 & _ & _ & Ho). rewrite <- Hx in H2. apply Hkeep in Ha'. congruence.
Qed.

(** Each step keeps the epochs, and a fenced database fenced. *)
Lemma local_step_keeps w w' alias lo' :
  world_step w w' -> aw_locals w' !! alias = Some lo' ->
  exists lo, aw_locals w !! alias = Some lo /\
    (epoch_one x (lo_db lo) -> epoch_one x (lo_db lo')) /\
    (forall s, (forall t, planned_on (aw_control w) x alias t -> closed_shard x (lo_db lo) t) ->
       epoch_one x (lo_db lo) -> closed_shard x (lo_db lo) s -> closed_shard x (lo_db lo') s).
Proof.
  destruct 1 as [c' H|seed now a chunks limit lo1 lo2 Hlo Hp H|run_id now a shards lo1 lo2 o Hlo H|a lo1 lo2 Hlo _ Ha Hc];
    [by eauto|..]; intros Hl; (apply put_local_lookup in Hl as [[-> ->]|[_ Hl]]; [|by eauto]);
    apply local_at_db in Hlo as (lo & Hlo & Hdb); exists lo; (split; [done|]); rewrite <- Hdb.
  - split.
    + intros H1 s b Hb. destruct (seed_write_epoch _ _ _ _ _ _ _ _ _ _ H Hb) as [Hb'|]; [by eapply H1|done].
    + intros s Hall _ Hcl. eapply seed_keeps; [exact H| |exact Hcl]. intros c Hin Hx.
      apply Hall. specialize (Hp c Hin). by rewrite Hx in Hp.
  - destruct (unadmitted_target_Ok _ _ _ _ _ _ _ H) as (_ & U1 & U2 & U3). destruct (decide (run_id = x)) as [->|Hne].
    + split; [by intros H1; apply U3|]. intros s _ H1 [Ht _]. apply U3; [done|by right].
    + split.
      * intros H1 s b. rewrite U2 by (cbn; congruence). apply H1.
      * intros s _ _ [(b & Hb & Hcl) Hch]. split; [exists b; rewrite U2 by (cbn; congruence); done|].
        intros i c Hi. apply U1 in Hi as [_ Hi]. eapply Hch, Hi. cbn. congruence.
  - split.
    + intros H1 s b. rewrite Ha. apply H1.
    + intros s _ _ [Ht Hch]. split; [|intros i c; rewrite Hc; apply Hch]. unfold tombstoned in *. by rewrite Ha.
Qed.

Lemma step_base w w' : world_step w w' -> base w -> base w'.
Proof.
  intros Hst [Hs He]. split; [by apply (steps_control_stopped w), step_control|]. intros alias lo' Hl.
  destruct (local_step_keeps _ _ _ _ Hst Hl) as (lo & Hlo & H1 & _). by eapply H1, He.
Qed.

Lemma step_fence w w' alias : world_step w w' -> base w -> fence_at w alias -> fence_at w' alias.
Proof.
  intros Hst Hb Hf s lo' Hp Hl. destruct (local_step_keeps _ _ _ _ Hst Hl) as (lo & Hlo & _ & H2).
  destruct (steps_control_stopped w w' (ba_stopped _ Hb) (step_control _ _ Hst)) as [_ Hfz].
  apply (planned_on_frozen _ _ _ _ Hfz) in Hp. apply H2; [|by eapply (ba_epoch _ Hb)|by apply Hf]. intros t Ht. by apply Hf.
Qed.

Lemma steps_base w w' : rtc world_step w w' -> base w -> base w'.
Proof. induction 1; [done|]. eauto using step_base. Qed.

Lemma steps_fence w w' alias : rtc world_step w w' -> base w -> fence_at w alias -> fence_at w' alias.
Proof. induction 1; [done|]. eauto using step_base, step_fence. Qed.

Lemma steps_planned w w' alias s :
  rtc world_step w w' -> base w -> planned_on (aw_control w') x alias s <-> planned_on (aw_control w) x alias s.
Proof.
  induction 1 as [w|w w1 w' H1 _ IH]; intros Hb; [done|]. rewrite IH by (by eapply step_base).
  apply planned_on_frozen. eapply steps_control_stopped; [apply Hb|by apply step_control].
Qed.

(** ** The workflow *)

Variable dbs : databases.
Variable now_at : nat -> Z.
Variable fault_at : nat -> Fault.
Variable env : nat -> World -> World.
Hypothesis env_steps : forall n w, rtc world_step w (env n w).

Notation awaited := (awaited now_at fault_at env).
Notation awaited_control := (awaited_control now_at fault_at env).
Notation awaited_local := (awaited_local control_alias now_at fault_at env).

(** A turn leaves what the other processes made of the world, or its own effect
    on it. *)
Lemma awaited_world {A} (f : Z -> World -> result (World * A)) w w' r :
  awaited f w = Some (w', r) -> exists w1, rtc world_step w w1 /\
    (w' = set_turn w1 (S (aw_turn w1)) \/ exists now a, f now (set_turn w1 (S (aw_turn w1))) = Ok (w', a)).
Proof.
  unfold RunCancel.awaited, operation. intros H. exists (env (aw_turn w) w). split; [apply env_steps|].
  apply attempt_world in H as [->|[a Ha]]; [by left|right; eauto].
Qed.

Lemma awaited_Ok {A} (f : Z -> World -> result (World * A)) w w' a :
  awaited f w = Some (w', Ok a) -> exists w1 now, rtc world_step w w1 /\ f now (set_turn w1 (S (aw_turn w1))) = Ok (w', a).
Proof. unfold RunCancel.awaited. intros H%operation_Ok. eexists _, _. split; [apply env_steps|exact H]. Qed.

Lemma set_turn_base w n : base w -> base (set_turn w n).
Proof. by intros [? ?]. Qed.

(** The transaction on one database fences it, and keeps the others fenced. *)
Lemma unadmitted_local w now alias shards lo lo' o :
  base w -> local_at control_alias w alias = Some lo -> cancel_unadmitted_target lo now x alias shards = Ok (lo', o) ->
  (forall s, planned_on (aw_control w) x alias s -> s ∈ shards) ->
  let w' := put_local control_alias w alias lo' in
  base w' /\ fence_at w' alias /\ (forall a, fence_at w a -> fence_at w' a) /\
  (forall a s, planned_on (aw_control w') x a s <-> planned_on (aw_control w) x a s).
Proof.
  intros Hb Hlo H Hall w'. assert (Hst : world_step w w') by (by eapply ws_cancel).
  destruct (steps_control_stopped w w' (ba_stopped _ Hb) (step_control _ _ Hst)) as [_ Hfz]. split_and!.
  - by eapply step_base.
  - intros s lo1 Hp Hl. apply (planned_on_frozen _ _ _ _ Hfz) in Hp. apply put_local_lookup in Hl as [[_ ->]|[? _]]; [|done].
    apply local_at_db in Hlo as (lo0 & Hlo0 & Hdb). destruct (unadmitted_target_Ok _ _ _ _ _ _ _ H) as (_ & _ & _ & U).
    rewrite Hdb in U. apply U; [by eapply (ba_epoch _ Hb)|left; by apply Hall].
  - intros a Ha. by eapply step_fence.
  - intros a s. by apply planned_on_frozen.
Qed.

Lemma cancel_alias_Ok w combined p w' o :
  cancel_unadmitted_alias control_alias dbs now_at fault_at env x combined p w = Some (w', Ok o) ->
  base w -> (forall s, planned_on (aw_control w) x p.1 s -> s ∈ p.2) ->
  base w' /\ fence_at w' p.1 /\ (forall a, fence_at w a -> fence_at w' a) /\
  (forall a s, planned_on (aw_control w') x a s <-> planned_on (aw_control w) x a s).
Proof.
  unfold cancel_unadmitted_alias. intros H Hb Hall. apply pbind_Ok in H as (w1 & [] & H1 & H).
  apply pbind_Ok in H as (w3 & o1 & H2 & H). apply pret_Ok in H as [-> _].
  apply awaited_Ok in H1 as (w0 & n0 & S0 & H1). apply bind_Ok in H1 as (? & _ & [= <-]).
  unfold RunCancel.awaited_local in H2. apply awaited_Ok in H2 as (w2 & n2 & S2 & H2).
  apply bind_Ok in H2 as (lo & Hlo%ok_or_Ok & H2). apply bind_Ok in H2 as ([lo' o'] & Hc & [= <- _]).
  assert (B0 : base (set_turn w0 (S (aw_turn w0)))) by (apply set_turn_base; by eapply steps_base).
  assert (B2 : base w2) by (by eapply steps_base).
  assert (Hpl : forall a s, planned_on (aw_control w2) x a s <-> planned_on (aw_control w) x a s).
  { intros a s. rewrite (steps_planned _ _ _ _ S2 B0). by apply (steps_planned w w0). }
  destruct (unadmitted_local (set_turn w2 (S (aw_turn w2))) n2 p.1 p.2 lo lo' o') as (R1 & R2 & R3 & R4);
    [by apply set_turn_base|done|done|intros s Hs; apply Hall; by apply Hpl|].
  split_and!; [done|done| |intros a s; rewrite R4; apply Hpl].
  intros a Ha. apply R3. change (fence_at w2 a). eapply steps_fence; [exact S2|done|].
  change (fence_at w0 a). by eapply steps_fence.
Qed.

Lemma cancel_aliases_Ok l w combined w' o :
  pfold (cancel_unadmitted_alias control_alias dbs now_at fault_at env x) combined l w = Some (w', Ok o) ->
  base w -> (forall a s shards, (a, shards) ∈ l -> planned_on (aw_control w) x a s -> s ∈ shards) ->
  base w' /\ (forall a, fence_at w a \/ (exists shards, (a, shards) ∈ l) -> fence_at w' a) /\
  (forall a s, planned_on (aw_control w') x a s <-> planned_on (aw_control w) x a s).
Proof.
  revert w combined. induction l as [|[a shards] l IH]; intros w combined H Hb Hall.
  { apply pret_Ok in H as [-> _]. split_and!; [done| |done]. intros a [Ha|[? Ha]]; [done|]. by apply not_elem_of_nil in Ha. }
  cbn [pfold] in H. apply pbind_Ok in H as (w1 & c1 & H1 & H).
  apply cancel_alias_Ok in H1 as (B1 & F1 & K1 & P1); [|done|intros s; apply Hall; by left].
  destruct (IH _ _ H B1) as (B2 & F2 & P2).
  { intros a' s sh Hin Hp. eapply Hall; [by right|]. by apply P1. }
  split_and!; [done| |intros a' s; by rewrite P2].
  intros a' [Ha|[sh [[= -> ->]|Hin]%elem_of_cons]]; apply F2; [left; by apply K1|by left|right; eauto].
Qed.

Lemma plan_placements_spec c a s :
  planned_on c x a s -> exists shards, (a, shards) ∈ plan_placements c x /\
    forall shards', (a, shards') ∈ plan_placements c x -> s ∈ shards'.
Proof.
  intros (row & Hrow & Ha). unfold plan_placements. set (l := map _ _).
  destruct (placement_shards_spec l) as (Hwf & Hin & _).
  assert (Hl : mkRunShardPlacementAssignment s a ∈ l).
  { apply list_elem_of_fmap. exists (s, row). split; [by rewrite <- Ha|]. rewrite published_rows.
    apply list_elem_of_fmap. exists ((x, s), row). split; [done|]. apply list_elem_of_filter. split; [done|].
    by apply elem_of_map_to_list. }
  destruct (Hin _ Hl) as (shards & Hg & Hs). cbn in Hg, Hs. exists shards. split; [by apply bt_get_elem|].
  intros shards' Hs'. apply bt_get_elem in Hs'; [|done]. congruence.
Qed.

Lemma cancel_plan_Ok w w' o :
  cancel_unadmitted_plan control_alias dbs now_at fault_at env x w = Some (w', Ok o) -> base w -> fenced w'.
Proof.
  unfold cancel_unadmitted_plan. intros H Hb. apply pbind_Ok in H as (w1 & l & H1 & H).
  unfold RunCancel.awaited_control in H1. apply awaited_Ok in H1 as (w0 & n0 & S0 & H1).
  apply bind_Ok in H1 as ([c1 l1] & [= <- <-] & [= <- <-]).
  assert (B0 : base w0) by (by eapply steps_base).
  destruct (cancel_aliases_Ok _ _ _ _ _ H) as (B & F & P).
  - split; [exact (ba_stopped _ B0)|exact (ba_epoch _ B0)].
  - intros a s shards Hin Hp. change (planned_on (aw_control w0) x a s) in Hp.
    apply plan_placements_spec in Hp as (_ & _ & Hp). by apply Hp.
  - split; [done|]. intros a s lo Hp Hl. apply P in Hp as Hp0. change (planned_on (aw_control w0) x a s) in Hp0.
    apply plan_placements_spec in Hp0 as (shards & Hin & _). apply (F a); [right; by exists shards|done|done].
Qed.

Definition unrouted (c : Control) : Prop := forall s, cd_placements c !! (x, s) = None.
Hypothesis env_unrouted : forall n w, unrouted (aw_control w) -> unrouted (aw_control (env n w)).

Lemma unrouted_routes c routes : unrouted c -> execution_read_routes_with_fences_for_run c dbs x = Ok routes -> routes = [].
Proof.
  unfold execution_read_routes_with_fences_for_run. intros Hu H. apply bind_Ok in H as (? & _ & [= <-]).
  unfold list_shard_placements_for_run. destruct (shards_of x (cd_placements c)) as [|s l] eqn:Es; [done|].
  assert (Hin : s ∈ shards_of x (cd_placements c)) by (rewrite Es; by left). apply elem_of_shards_of in Hin as [p Hp].
  by rewrite Hu in Hp.
Qed.

Lemma mark_placements c now c' state :
  mark_control_cancellation_requested c now x = Ok (c', state) -> cd_placements c' = cd_placements c.
Proof.
  unfold mark_control_cancellation_requested. intros H. destruct (cd_runs c !! x); [|by injection H as <- _].
  destruct (is_uncancelable_terminal_status _); [discriminate H|].
  destruct (is_already_cancelled_status _); [by injection H as <- _|]. destruct (_ && _); [discriminate H|]. by injection H as <- _.
Qed.

Lemma steps_epochs w w' :
  rtc world_step w w' -> (forall alias lo, aw_locals w !! alias = Some lo -> epoch_one x (lo_db lo)) ->
  forall alias lo, aw_locals w' !! alias = Some lo -> epoch_one x (lo_db lo).
Proof.
  induction 1 as [w|w w1 w' H1 _ IH]; intros He; [done|]. apply IH. intros alias lo Hl.
  destruct (local_step_keeps _ _ _ _ H1 Hl) as (lo0 & H0 & Hk & _). by eapply Hk, He.
Qed.

Lemma steps_controls w w' : rtc world_step w w' -> rtc (control_step card_value uuid_value) (aw_control w) (aw_control w').
Proof. induction 1 as [|w w1 w' H1 _ IH]; [done|]. etransitivity; [by apply step_control|exact IH]. Qed.

(** The request leaves a stopped run. *)
Lemma request_base w w' state :
  awaited_control (fun now c => mark_control_cancellation_requested c now x) w = Some (w', Ok (Some state)) ->
  (forall alias lo, aw_locals w !! alias = Some lo -> epoch_one x (lo_db lo)) ->
  ccs_cancelled state = true \/ stopped x (aw_control w) -> unrouted (aw_control w) ->
  base w' /\ unrouted (aw_control w') /\ ccs_run_id state = x.
Proof.
  unfold RunCancel.awaited_control, RunCancel.awaited. intros H He Hc Hu. apply operation_Ok in H.
  set (w0 := env (aw_turn w) w) in *. assert (S0 : rtc world_step w w0) by apply env_steps.
  apply bind_Ok in H as ([c1 st] & Hm & [= <- ->]). cbn [fst] in *. change (aw_control (set_turn w0 _)) with (aw_control w0) in Hm.
  split_and!.
  - split; [|intros alias lo Hl; eapply steps_epochs; [exact S0|done|exact Hl]]. cbn [set_control aw_control].
    destruct Hc as [Hc|Hs]; [by apply (mark_stops _ _ _ _ _ Hm)|].
    eapply (cancel_stopped _ (aw_control w0)); [|exact Hm]. eapply steps_stopped; [by apply steps_controls|done].
  - intros s. cbn [set_control aw_control]. rewrite (mark_placements _ _ _ _ Hm). by apply env_unrouted.
  - unfold mark_control_cancellation_requested in Hm. destruct (cd_runs _ !! x); [|discriminate Hm].
    destruct (is_uncancelable_terminal_status _); [discriminate Hm|].
    destruct (is_already_cancelled_status _); [by injection Hm as _ <-|]. destruct (_ && _); [discriminate Hm|].
    by injection Hm as _ <-.
Qed.

Lemma finish_out c now state o routes c' out :
  finalize_control_cancellation uuid_value c now state o routes = Ok (c', out) ->
  co_cancelled out = ccs_cancelled state /\ cd_runs c' !! ccs_run_id state = Some (co_run out) /\
  is_Some (cd_outbox c' !! (ccs_run_id state, "cancelled")).
Proof.
  intros H. destruct (finish_Ok _ _ _ _ _ _ _ _ H) as (r & r' & v & _ & _ & _ & _ & <- & ->). split; [|split].
  - unfold finalize_control_cancellation in H. apply bind_Ok in H as ([c1 r1] & _ & H).
    destruct (enqueue_cancelled_event _ _ _ _) as [c2 n]. by injection H as _ <-.
  - cbn. by rewrite lookup_insert_eq.
  - cbn. destruct (insert_new_has (ccs_run_id state, "cancelled") v (cd_outbox c)) as [e He]. by exists e.
Qed.

Lemma set_control_fenced w c' :
  control_step card_value uuid_value (aw_control w) c' -> fenced w -> fenced (set_control w c').
Proof.
  intros Hc [Hb Hf]. assert (Hst : world_step w (set_control w c')) by (by apply ws_control).
  split; [by eapply step_base|]. intros a. by eapply step_fence.
Qed.

Lemma cancel_routed_Ok completion w w' out :
  cancel_run_routed uuid_value control_alias dbs now_at fault_at env completion x w = Some (w', Ok (Some out)) ->
  (forall alias lo, aw_locals w !! alias = Some lo -> epoch_one x (lo_db lo)) -> unrouted (aw_control w) ->
  co_cancelled out = true \/ stopped x (aw_control w) ->
  fenced w' /\ cd_runs (aw_control w') !! x = Some (co_run out) /\ is_Some (cd_outbox (aw_control w') !! (x, "cancelled")).
Proof.
  unfold cancel_run_routed. intros H He Hu Hc. apply pbind_Ok in H as (w1 & [state|] & H1 & H); [|by apply pret_Ok in H as [_ [=]]].
  apply pbind_Ok in H as (w2 & routes & H2 & H). apply pbind_Ok in H as (w3 & o & H3 & H).
  apply pbind_Ok in H as (w4 & out' & H4 & H). apply pret_Ok in H as [-> [= ->]].
  unfold RunCancel.awaited_control at 1 in H4. apply awaited_Ok in H4 as (w3' & n3 & S3 & H4).
  apply bind_Ok in H4 as ([c4 o4] & Hfin & [= <- ->]). destruct (finish_out _ _ _ _ _ _ _ Hfin) as (F1 & F2 & F3).
  destruct (request_base _ _ _ H1 He) as (B1 & U1 & Hx); [by rewrite <- F1|done|]. rewrite Hx in F2, F3.
  unfold RunCancel.awaited_control, RunCancel.awaited in H2. apply operation_Ok in H2.
  set (w1' := env (aw_turn w1) w1) in *. assert (S1 : rtc world_step w1 w1') by apply env_steps.
  apply bind_Ok in H2 as ([c2 rs] & H2 & [= <- ->]). apply bind_Ok in H2 as (rs & Hr & [= <- ->]).
  apply unrouted_routes in Hr as ->; [|by apply env_unrouted]. cbn [fst] in H3.
  rewrite bool_decide_eq_true_2 in H3 by done. apply cancel_plan_Ok in H3 as [B3 Fn3].
  2:{ pose proof (steps_base _ _ S1 B1) as B. split; [exact (ba_stopped _ B)|exact (ba_epoch _ B)]. }
  split; [|done]. apply (set_control_fenced (set_turn w3' (S (aw_turn w3')))); [by eapply ct_cancel_finish|].
  split; [apply set_turn_base; by eapply steps_base|]. intros a. change (fence_at w3' a). by eapply steps_fence.
Qed.

Lemma fenced_refuses w seed now alias status chunks row_limit lo c :
  fenced w -> se_run_id seed = x -> c ∈ chunks -> planned_on (aw_control w) x alias (kd_run_shard c) ->
  local_at control_alias w alias = Some lo ->
  is_ok (seed_write seed now alias status chunks row_limit lo) = false.
Proof.
  intros [_ Hf] Hx Hc Hp Hlo. apply local_at_db in Hlo as (lo0 & Hlo0 & Hdb).
  destruct (Hf alias _ lo0 Hp Hlo0) as [(a & Ha & Hcl) _].
  destruct (seed_write seed now alias status chunks row_limit lo) as [lo'|] eqn:Hw; [|done]. exfalso.
  destruct (seed_write_Ok _ _ _ _ _ _ _ _ jsonb_eqb_refl Hw) as (_ & _ & Hkeep & Hopen & _).
  destruct (Hopen c Hc) as (a2 & H2 & _ & _ & Ho). rewrite Hx in H2. rewrite <- Hdb in Ha. apply Hkeep in Ha. congruence.
Qed.

(** C16: Cancelling a run that is still being created leaves no open work behind.
    Let the command return for a run without routes whose local admissions are of
    the first write epoch, under any faults that it survives and whatever creators,
    planners, coordinators, other cancellations and other runs do between its
    turns, short of routing the run; it is the first request or repeats one that
    was interrupted.  Then, and after any further such steps: the run is
    cancelled in the control database; on every database the plan names, each
    planned shard of the run is closed and all its chunks are terminal; and a
    write of a creator that was admitted before the cancellation is refused
    whenever it touches a planned shard.  The command recorded the row it
    returned and the event of the cancellation. *)
Theorem late_creator_fenced completion w w1 out w2 :
  (forall alias lo, aw_locals w !! alias = Some lo -> epoch_one x (lo_db lo)) -> unrouted (aw_control w) ->
  cancel_run_routed uuid_value control_alias dbs now_at fault_at env completion x w = Some (w1, Ok (Some out)) ->
  co_cancelled out = true \/ stopped x (aw_control w) ->
  rtc world_step w1 w2 ->
  stopped x (aw_control w2) /\
  (forall alias s lo, planned_on (aw_control w2) x alias s -> aw_locals w2 !! alias = Some lo -> closed_shard x (lo_db lo) s) /\
  (forall seed now alias status chunks row_limit lo c, se_run_id seed = x -> c ∈ chunks ->
     planned_on (aw_control w2) x alias (kd_run_shard c) -> local_at control_alias w2 alias = Some lo ->
     is_ok (seed_write seed now alias status chunks row_limit lo) = false) /\
  cd_runs (aw_control w1) !! x = Some (co_run out) /\ is_Some (cd_outbox (aw_control w1) !! (x, "cancelled")).
Proof.
  intros He Hu H Hc S2. destruct (cancel_routed_Ok _ _ _ _ H He Hu Hc) as ([B1 F1] & Hr & Hev).
  assert (F2 : fenced w2) by (split; [by eapply steps_base|intros a; by eapply steps_fence]).
  split; [apply F2|]. split; [intros alias s lo Hp Hl; by apply (proj2 F2 alias)|]. split; [|done].
  intros. by eapply fenced_refuses.
Qed.
End fence.

(** ** A creator that writes while its run is cancelled *)

Module FenceSample.
Import LedgerSample AdmissionSample.

Definition late_chunk : RunChunkDraft := mkRunChunkDraft chunk_id 0 "default" 0 1.
Definition late_seed : Seed :=
  mkSeed 5 draft (Object []) [(0, mkManifest 1 1 sample_digest None)] [(0, Object [])].

(** The creator writes its chunk, when its plan says so. *)
Definition late_write (w : World) : World :=
  match local_at "control" w "main", cd_plan_shards (aw_control w) !! (5, 0) with
  | Some lo, Some row =>
      if str_eqb (ps_database_alias row) "main" then
        match seed_write late_seed 8 "main" (seed_status "control" "main") [late_chunk] 100 lo with
        | Ok lo' => put_local "control" w "main" lo'
        | Err _ => w
        end
      else w
  | _, _ => w
  end.

(** It does so after the request is committed and before the fan-out. *)
Definition sample_env (n : nat) (w : World) : World := match n with 2%nat => late_write w | _ => w end.

Notation sample_step := (world_step (fun _ => Null) (fun _ => Null) "control" 5).

Lemma sample_env_steps n w : rtc sample_step w (sample_env n w).
Proof.
  destruct n as [|[|[|n]]]; try apply rtc_refl. cbn [sample_env]. unfold late_write.
  destruct (local_at "control" w "main") as [lo|] eqn:El; [|apply rtc_refl].
  destruct (cd_plan_shards (aw_control w) !! (5, 0)) as [row|] eqn:Er; [|apply rtc_refl].
  destruct (str_eqb _ _) eqn:Ea; [|apply rtc_refl]. apply str_eqb_true in Ea.
  destruct (seed_write _ _ _ _ _ _ _) as [lo'|] eqn:Ew; [|apply rtc_refl]. apply rtc_once.
  eapply ws_seed; [exact El| |exact Ew]. intros c ->%list_elem_of_singleton. by exists row.
Qed.

Lemma sample_env_unrouted n w : unrouted 5 (aw_control w) -> unrouted 5 (aw_control (sample_env n w)).
Proof.
  destruct n as [|[|[|n]]]; try done. cbn [sample_env]. unfold late_write. intros H.
  destruct (local_at "control" w "main") as [lo|]; [|done]. destruct (cd_plan_shards _ !! _) as [row|]; [|done].
  destruct (str_eqb _ _); [|done]. destruct (seed_write _ _ _ _ _ _ _) as [lo'|]; [|done]. exact H.
Qed.

Definition cancelled (w : World) : option (World * result (option CancelRunOutcome)) :=
  cancel_run_routed (fun _ => Null) "control" dbs now_at fault_at sample_env id 5 w.

(** The chunk the creator managed to write was cancelled. *)
Definition cancelled_one (w : World) : bool :=
  match cancelled w with
  | Some (w1, Ok (Some out)) =>
      co_cancelled out && (cc_chunks_cancelled (co_counts out) =? 1) && bool_decide (cd_placements (aw_control w) = ∅)
      && bool_decide (map_Forall (fun _ lo => db_admissions (lo_db lo) = ∅) (aw_locals w))
      && is_some_and (fun row => str_eqb (ps_database_alias row) "main") (cd_plan_shards (aw_control w1) !! (5, 0))
      && opt_is_some (aw_locals w1 !! "main")
  | _ => false
  end.
End FenceSample.

Lemma late_creator_fenced_witness : exists w1 out lo, cc_chunks_cancelled (co_counts out) = 1 /\
  aw_locals w1 !! "main" = Some lo /\ closed_shard 5 (lo_db lo) 0.
Proof.
  assert (H : match AdmissionSample.claimed with Ok (w, _) => FenceSample.cancelled_one w | Err _ => false end = true)
    by (vm_compute; reflexivity).
  destruct AdmissionSample.claimed as [[w p]|]; [|discriminate H]. unfold FenceSample.cancelled_one in H.
  destruct (FenceSample.cancelled w) as [[w1 [[out|]|]]|] eqn:Ec; try discriminate H.
  apply andb_true_iff in H as [H Hlo]. apply andb_true_iff in H as [H Hrow]. apply andb_true_iff in H as [H Hadm%bool_decide_eq_true].
  apply andb_true_iff in H as [H Hpl%bool_decide_eq_true]. apply andb_true_iff in H as [Hc Hn].
  destruct (aw_locals w1 !! "main") as [lo|] eqn:El; [|discriminate Hlo].
  destruct (cd_plan_shards (aw_control w1) !! (5, 0)) as [row|] eqn:Er; [|discriminate Hrow]. apply str_eqb_true in Hrow.
  exists w1, out, lo. split; [lia|]. split; [exact El|].
  destruct (late_creator_fenced (fun _ => Null) (fun _ => Null) "control" 5 AdmissionSample.jsonb_refl LedgerSample.dbs
    AdmissionSample.now_at AdmissionSample.fault_at FenceSample.sample_env FenceSample.sample_env_steps
    FenceSample.sample_env_unrouted id w w1 out w1) as (_ & Hcl & _).
  - intros alias lo0 H0 s a Ha. rewrite (Hadm alias lo0 H0), lookup_empty in Ha. discriminate Ha.
  - intros s. rewrite Hpl. apply lookup_empty.
  - exact Ec.
  - left. exact Hc.
  - apply rtc_refl.
  - apply (Hcl "main" 0 lo); [exists row; done|exact El].
Defined.
