(* ===== verification/CancelStops.v ===== *)
(** * A cancelled run stays stopped on its databases

    The fan-out of [RunCancel] to the database of a routed shard, and what every
    later transaction of workers, coordinators and cancellations ([ShardWorld])
    can still do there to the run: nothing that reopens work. *)

From Stdlib Require Import ZArith Lia ZifyBool.
From stdpp Require Import base strings numbers gmap sorting relations option list.
From S2P Require Import Prelude Float64 BTree Text Json RunTypes ProfileValidation EvaluationPlan AgentClient.
From S2P Require Import ShardTables LocalAdmission ReceiptGates Settlement ChunkLease ExecutionAttempts ShardSummary.
From S2P Require Import ShardMachine ShardRecount ShardRefinement ShardWorld RunDispatch RunCancel CancelFence.

Open Scope Z_scope.

(** No chunk, execution or attempt of the run is open. *)
Record quiet (x : Uuid) (db : Database) : Prop := mkQuiet {
  qt_chunks : forall k c, db_chunks db !! k = Some c -> k.1.1 = x -> chunk_terminal (ch_status c) = true;
  qt_executions : forall k e, db_executions db !! k = Some e -> k.1.1 = x -> execution_open (ex_status e) = false;
  qt_attempts : forall k a, db_attempts db !! k = Some a -> k.1.1 = x -> attempt_open (at_status a) = false
}.

Lemma quiet_same x db db' :
  db_chunks db' = db_chunks db -> db_executions db' = db_executions db -> db_attempts db' = db_attempts db ->
  quiet x db -> quiet x db'.
Proof. intros Hc He Ha [Q1 Q2 Q3]. constructor; rewrite ?Hc, ?He, ?Ha; done. Qed.

Section stops.
Variable budget : Uuid -> Z.
Context {RF : ReceiptFunctions} {SF : SummaryFunctions}.

Lemma quiet_settled x db now run_id run_shard chunk_id row :
  quiet x db -> quiet x (settled_db db now run_id run_shard chunk_id row).
Proof.
  intros [Q1 Q2 Q3]. constructor; cbn [settled_db retire_writers with_settlement with_executions with_attempts db_chunks db_executions db_attempts]; [done|..].
  - intros k e (e0 & He & ->)%update_where_Some Hx. specialize (Q2 k e0 He Hx). by rewrite Q2, andb_false_r.
  - intros k a (a0 & Ha & ->)%update_where_Some Hx. specialize (Q3 k a0 Ha Hx). by rewrite Q3, andb_false_r.
Qed.

(** No micro-step reopens work of the run. *)
Lemma micro_quiet x fresh now db db' : micro budget fresh now db db' -> quiet x db -> quiet x db'.
Proof.
  intros Hm Q. pose proof Q as [Q1 Q2 Q3].
  destruct Hm as [db' (Hc & He & Ha & _)|k e ag _ _|db' [->|(key & row & -> & _)]|chunks Hm|attempts Hm|executions Hm
    |k e c Hn Hc Ht _ _ _ _ _|k e lease aid db' He Ho _ Hs|k e e' aid a a' He Ha _ _ (c & Hc & Ht) _ Hx' _ Hset _ _ _ _ _ _
    |db' Hf _|r s i row c _ _ _ _ _ _ _ _].
  - by apply (quiet_same x db).
  - by apply (quiet_same x db).
  - done.
  - by apply (quiet_same x db).
  - constructor; [|done..]. intros k c' Hk Hx. destruct (related_bwd _ _ _ _ _ Hm Hk) as (c & Hc & Hst & _).
    specialize (Q1 k c Hc Hx). by rewrite (chunk_step_terminal _ _ _ _ Hst Q1).
  - constructor; [done|done|]. intros k a' Hk Hx. destruct (related_bwd _ _ _ _ _ Hm Hk) as (a & Ha & _ & _ & Hst).
    specialize (Q3 k a Ha Hx). destruct Hst as [->|[_ [-> | ->]]]; done.
  - constructor; [done| |done]. intros k e' Hk Hx. destruct (related_bwd _ _ _ _ _ Hm Hk) as (e & He & _ & _ & _ & _ & _ & _ & Hst).
    specialize (Q2 k e He Hx). destruct Hst as [->|(_ & ? & _)]; done.
  - constructor; cbn; [done| |done]. intros k' e' Hk Hx. apply lookup_insert_Some in Hk as [[<- <-]|[_ Hk]]; [|by eapply Q2].
    specialize (Q1 _ c Hc Hx). congruence.
  - assert (k.1.1 <> x) as Hne by (intros Hx; specialize (Q2 k e He Hx); congruence).
    unfold start_attempt in Hs. apply bind_Ok in Hs as (? & _ & [= <-]). constructor; cbn; [done|..].
    + intros k' e' Hk Hx. apply lookup_insert_Some in Hk as [[<- _]|[_ Hk]]; [done|by eapply Q2].
    + intros k' a' Hk Hx. apply lookup_insert_Some in Hk as [[<- _]|[_ Hk]]; [done|].
      apply update_where_Some in Hk as (a & Ha & ->). specialize (Q3 k' a Ha Hx). by case_if.
  - assert (k.1.1 <> x) as Hne by (intros Hx; specialize (Q1 _ c Hc Hx); congruence).
    constructor; cbn; [done|..].
    + intros k' e1 Hk Hx. apply lookup_insert_Some in Hk as [[<- _]|[_ Hk]]; [done|by eapply Q2].
    + intros k' a1 Hk Hx. apply lookup_insert_Some in Hk as [[<- _]|[_ Hk]]; [done|by eapply Q3].
  - by apply (quiet_same x db), Q; apply Hf.
  - by apply quiet_settled.
Qed.

Lemma micros_quiet x fresh now db db' : micros budget fresh now db db' -> quiet x db -> quiet x db'.
Proof. induction 1; [done|]. eauto using micro_quiet. Qed.

(** ** The fan-out *)

(** Cancelling leaves the run quiet, and the progress it reports says so. *)
Lemma cancel_target_quiet db now x shards db' o :
  cancel_target db now x shards = Ok (db', o) ->
  quiet x db' /\ xp_terminal_execution_count (xo_progress o) = xp_execution_count (xo_progress o) /\
  xp_chunk_count (xo_progress o) = xp_completed_chunk_count (xo_progress o) + xp_failed_chunk_count (xo_progress o)
    + xp_cancelled_chunk_count (xo_progress o).
Proof.
  unfold cancel_target. destruct (cancel_open_chunks db now x) as [db1 n1] eqn:E1.
  destruct (cancel_open_attempts db1 now x) as [db2 n2] eqn:E2.
  destruct (cancel_open_executions db2 now x) as [db3 n3] eqn:E3. intros H.
  apply bind_Ok in H as ([d n] & Hf & [= <- <-]). cbn [fst xo_progress].
  assert (Q : quiet x db3).
  { injection E3 as <- _. injection E2 as <- _. injection E1 as <- _. constructor; cbn.
    - intros k c (c0 & _ & ->)%update_where_Some Hx. rewrite Hx, Z.eqb_refl. cbn.
      by destruct (chunk_terminal (ch_status c0)) eqn:Et.
    - intros k e (e0 & _ & ->)%update_where_Some Hx. rewrite Hx, Z.eqb_refl. cbn.
      by destruct (execution_open (ex_status e0)) eqn:Et.
    - intros k a (a0 & _ & ->)%update_where_Some Hx. rewrite Hx, Z.eqb_refl. cbn.
      by destruct (attempt_open (at_status a0)) eqn:Et. }
  split; [|split].
  - refine (foldM_inv (fun st : Database * Z => quiet x st.1) _ _ (db3, 0) (d, n) _ Q Hf).
    intros [d1 m1] s [d2 m2] _ Q1 Hs. unfold cancel_summary in Hs. apply bind_Ok in Hs as (d3 & Hd & [= -> _]).
    eapply micros_quiet; [exact (cancel_shard_micros budget _ _ _ _ _ Hd)|exact Q1].
  - cbn. apply countb_true. intros [k e] Hin. unfold run_executions in Hin. apply elem_of_map_to_list in Hin.
    apply lookup_rows_where in Hin as [He Hx]. cbn in *. rewrite (qt_executions _ _ Q k e He); [done|lia].
  - cbn. unfold count_chunks.
    rewrite (count_where_split _ (fun k c => (k.1.1 =? x) && bool_decide (ch_status c = ChCompleted))
      (fun k c => (k.1.1 =? x) && negb (bool_decide (ch_status c = ChCompleted)))).
    2:{ intros k c _. destruct (k.1.1 =? x), (bool_decide _); done. }
    rewrite (count_where_split (fun k c => (k.1.1 =? x) && negb _) (fun k c => (k.1.1 =? x) && bool_decide (ch_status c = ChFailed))
      (fun k c => (k.1.1 =? x) && bool_decide (ch_status c = ChCancelled))); [lia|].
    intros k c Hc. destruct (k.1.1 =? x) eqn:Hx; [|done]. pose proof (qt_chunks _ _ Q k c Hc ltac:(lia)) as Ht.
    by destruct (ch_status c).
Qed.
End stops.

Section world.
Variable budget : Uuid -> Z.
Context {RF : ReceiptFunctions} {SF : SummaryFunctions}.
Variable bindings_value : list EvaluatorBinding -> Value.
Variable normalization_value : NormalizationPolicy -> Value.
Variable failure_value : Failure -> Value.
Variable uuid_text : Uuid -> string.

Notation step := (step budget bindings_value normalization_value failure_value uuid_text).
Notation reachable := (reachable budget bindings_value normalization_value failure_value uuid_text).

Lemma commit_commit w db db' : commit (commit w db) db' = commit w db'.
Proof. done. Qed.

(** The repairs of the cleanup admission are writes of the admission table. *)
Lemma repair_write db now p state redirect db' :
  repair_admission db now p state redirect = inr db' ->
  (exists draft, apply_write db (now, WUpsert draft) = Ok db') /\ db_chunks db' = db_chunks db.
Proof.
  intros H. split.
  - unfold repair_admission in H. set (draft := mkLocalShardAdmissionDraft _ _ _ _ _ _ _) in H. exists draft. cbn.
    destruct (upsert_local_shard_admission db now draft) as [[d row]|]; [|discriminate H]. by injection H as ->.
  - apply repair_step in H as [->|(key & row & -> & _)]; done.
Qed.

Lemma cleanup_steps w routes db' :
  cleanup_routes (w_now w) (w_db w) routes = inr db' -> rtc step w (commit w db') /\ db_chunks db' = db_chunks (w_db w).
Proof.
  revert w. induction routes as [|p routes IH]; intros w H.
  { injection H as <-. split; [|done]. destruct w. apply rtc_refl. }
  cbn in H. destruct (cleanup_route (w_now w) (w_db w) p) as [|d] eqn:Ed; [discriminate H|].
  assert (Hd : rtc step w (commit w d) /\ db_chunks d = db_chunks (w_db w)).
  { unfold cleanup_route in Ed. destruct (String.eqb _ _); [discriminate Ed|].
    destruct (validate_local_shard_admission _ _ _) as [[]|]; try discriminate Ed.
    - apply repair_write in Ed as [[draft Hw] Hc]. split; [|done]. apply rtc_once. by eapply s_admission.
    - injection Ed as <-. split; [|done]. destruct w. apply rtc_refl. }
  destruct Hd as [Hs Hc]. destruct (IH (commit w d) H) as [Hs2 Hc2]. split; [|by rewrite Hc2].
  etransitivity; [exact Hs|exact Hs2].
Qed.

Lemma steps_quiet x w w' : rtc step w w' -> world_ok budget w -> quiet x (w_db w) -> quiet x (w_db w').
Proof.
  induction 1 as [w|w w1 w' H1 _ IH]; intros Hok Q; [done|]. apply IH; [by eapply step_ok|].
  destruct (step_micros _ _ _ _ _ _ _ H1 (wo_inv _ _ Hok) (wo_accounts _ _ Hok)) as (fresh & Hm & _).
  by eapply micros_quiet.
Qed.

(** C17: Cancelling a run stops it for good on the database of its shards.  In any
    reachable world, when the cleanup transaction of a cancelled run commits on a
    database, the progress it reports counts every execution as terminal and
    every chunk as completed, failed or cancelled; the chunks of other runs are
    as they were; and from then on, after any further transactions of workers
    holding handles from before, coordinators, recoveries, dispatches,
    admission writes and cancellations on that database, no chunk of the run is
    pending or leased and none of its executions or attempts is open. *)
Theorem cancelled_run_stays_quiet x routes w db' o w2 :
  reachable w -> cancel_execution_target (w_db w) (w_now w) x routes = Ok (db', o) -> rtc step (commit w db') w2 ->
  quiet x (w_db w2) /\
  (forall k, k.1.1 <> x -> db_chunks db' !! k = db_chunks (w_db w) !! k) /\
  xp_terminal_execution_count (xo_progress o) = xp_execution_count (xo_progress o) /\
  xp_chunk_count (xo_progress o) = xp_completed_chunk_count (xo_progress o) + xp_failed_chunk_count (xo_progress o)
    + xp_cancelled_chunk_count (xo_progress o).
Proof.
  intros Hr H Hs. unfold cancel_execution_target in H.
  destruct (begin_execution_cleanup_admission _ _ _) as [|d] eqn:Ed; [discriminate H|].
  assert (Hd : rtc step w (commit w d) /\ db_chunks d = db_chunks (w_db w)).
  { unfold begin_execution_cleanup_admission in Ed. destruct routes as [|p routes]; [discriminate Ed|].
    destruct (existsb _ _); [discriminate Ed|]. by apply cleanup_steps in Ed. }
  destruct Hd as [Hsd Hcd]. destruct (cancel_target_quiet budget _ _ _ _ _ _ H) as (Q & Ht & Hch).
  assert (Hc : step (commit w d) (commit w db')).
  { rewrite <- (commit_commit w d db'). eapply s_cancel. exact (cancel_target_transaction _ _ _ _ _ _ H). }
  apply reachable_ok in Hr. assert (Hok : world_ok budget (commit w db')).
  { eapply step_ok; [exact Hc|]. by eapply steps_ok. }
  split_and!; [by apply (steps_quiet x (commit w db'))| |done|done].
  intros k Hk. destruct (cancel_target_keeps _ _ _ _ _ _ H) as [-> _]. cbn. rewrite lookup_update_where, Hcd.
  replace (k.1.1 =? x) with false by lia. by destruct (db_chunks (w_db w) !! k).
Qed.
End world.

(** ** A run cancelled under a working worker *)

Module StopSample.
Import Scenario.

Definition route : ShardPlacement := mkShardPlacement 7 3 "a" "active" None 1 4.
Definition cancellation := cancel_execution_target (w_db attempted) (w_now attempted) 7 [route].
Definition cancelled : World := commit attempted (committed (w_db attempted) cancellation).
Definition late := release_chunk_as_pending (w_db cancelled) (w_now cancelled) handle.
End StopSample.

(** The worker gives its chunk back after the run was cancelled. *)
Lemma cancelled_run_stays_quiet_witness : exists db' o w2,
  StopSample.cancellation = Ok (db', o) /\ cc_attempts_cancelled (xo_counts o) = 1 /\ quiet 7 (w_db w2).
Proof.
  assert (H : match StopSample.cancellation with
              | Ok (_, o) => (cc_attempts_cancelled (xo_counts o) =? 1) && is_ok StopSample.late
              | Err _ => false end = true) by (vm_compute; reflexivity).
  assert (Hw : Scenario.handle ∈ w_handles StopSample.cancelled) by apply Scenario.handle_in.
  unfold StopSample.late, StopSample.cancelled in *.
  destruct StopSample.cancellation as [[db' o]|] eqn:Ec; [|discriminate H]. cbn [Scenario.committed] in *.
  apply andb_true_iff in H as [Hn Hl].
  destruct (release_chunk_as_pending _ _ _) as [[d n]|] eqn:Er; [|discriminate Hl].
  exists db', o, (commit (commit Scenario.attempted db') d). split; [reflexivity|]. split; [lia|].
  eapply (cancelled_run_stays_quiet Scenario.budget (SF := SummarySample.functions) (fun _ => Null) (fun _ => Null) (fun _ => Null) (fun _ => "id") 7
    [StopSample.route] Scenario.attempted db' o); [|exact Ec|].
  - exists Scenario.start. split; [apply Scenario.start_planned|].
    eapply rtc_l; [apply Scenario.claim_step|]. eapply rtc_l; [apply Scenario.allocate_step|apply rtc_refl].
  - apply rtc_once. by eapply s_release.
Defined.
