(* ===== verification/RunVerdict.v ===== *)
(** * The verdict of a run

    Composes the coordinator's finalization ([RunFinalize]) with the execution
    databases of the shards ([ShardWorld]): the summaries the coordinator merges
    are rows of databases that workers, recovery, cancellation and the page
    scheduler have changed in any order, and the gate it writes is decided by
    the executions in them. *)

From Stdlib Require Import ZArith Lia.
From stdpp Require Import base strings numbers gmap sets relations option list.
From S2P Require Import Prelude Float64 BTree Text Json RunTypes Scorecard ProfileValidation EvaluationPlan AgentClient.
From S2P Require Import ShardTables LocalAdmission ReceiptGates Settlement ChunkLease ExecutionAttempts ShardSummary.
From S2P Require Import ShardMachine ShardRecount ShardWorld ControlTables RunFinalize.

Open Scope Z_scope.

(** A chunk that went well: it completed, every planned case has its execution
    and every execution passed or was skipped. *)
Record chunk_succeeded (db : Database) (key : row_key) (c : ChunkRow) : Prop := mkChunkSucceeded {
  sc_completed : ch_status c = ChCompleted;
  sc_covered : count_where (of_chunk key.1.1 key.1.2 key.2) (db_executions db) = ch_ordinal_end c - ch_ordinal_start c;
  sc_passed : forall k e, db_executions db !! k = Some e -> of_chunk key.1.1 key.1.2 key.2 k e = true ->
    verdict db k e = Some OvPassed \/ verdict db k e = Some OvSkipped
}.

(** ** Counting *)

Lemma count_where_zero {K} `{Countable K} {R} (p : K -> R -> bool) (t : gmap K R) :
  count_where p t = 0 <-> (forall k r, t !! k = Some r -> p k r = false).
Proof.
  unfold count_where. split.
  - intros Hz k r Hk. apply Bool.not_true_iff_false. intros Hp.
    assert (Hs : rows_where p t = ∅) by (apply map_size_empty_inv; lia).
    assert (Hl : rows_where p t !! k = Some r) by (by apply lookup_rows_where). by rewrite Hs in Hl.
  - intros Hall. assert (Hs : rows_where p t = ∅); [|by rewrite Hs, map_size_empty].
    apply map_empty. intros k. destruct (rows_where p t !! k) as [r|] eqn:E; [|done].
    apply lookup_rows_where in E as [Hk Hp]. by rewrite (Hall k r Hk) in Hp.
Qed.

Lemma count_outcome_zero o m : count_outcome o m = 0 <-> (forall k x, m !! k = Some x -> x <> o).
Proof.
  unfold count_outcome. rewrite count_where_zero. setoid_rewrite bool_decide_eq_false. done.
Qed.

Lemma size_outcomes db key :
  Z.of_nat (size (outcomes db key)) = count_where (of_chunk key.1.1 key.1.2 key.2) (db_executions db).
Proof. unfold outcomes, count_where. by rewrite size_imap_Some. Qed.

(** The counters finalization decides on, of one receipt. *)
Definition receipt_clean (r : RunShardSummary) : Prop :=
  rs_failed_execution_count r = 0 /\ rs_errored_execution_count r = 0 /\ rs_missing_execution_count r = 0 /\
  rs_unresolved_execution_count r = 0 /\ rs_failed_chunk_count r = 0 /\ rs_cancelled_chunk_count r = 0.

(** A receipt is clean exactly when its chunk went well. *)
Lemma receipt_clean_iff db run_id run_shard key c d r :
  chunk_terminal d = true -> ch_status c = d ->
  receipt_balanced run_id run_shard (ch_ordinal_end c - ch_ordinal_start c) d r ->
  receipt_counts (outcomes db key) r ->
  receipt_clean r <-> chunk_succeeded db key c.
Proof.
  intros Ht Hd [] []. unfold receipt_clean.
  rewrite rb_unresolved, rk_failed, rk_errored, rk_missing, !count_outcome_zero, rb_failed_chunks, rb_cancelled_chunks.
  rewrite size_outcomes in rk_executions. setoid_rewrite lookup_outcomes. split.
  - intros (H1 & H2 & H3 & H4 & H5 & H6). constructor.
    + rewrite Hd. destruct d; try done; rewrite bool_decide_true in *; done.
    + lia.
    + intros k e He Ho. specialize (H1 k (verdict db k e)). specialize (H2 k (verdict db k e)).
      specialize (H4 k (verdict db k e)). rewrite He in *. simpl in *. rewrite Ho in *.
      destruct (verdict db k e) as [[]|]; naive_solver.
  - intros [S1 S2 S3]. rewrite S1 in Hd. subst d. split_and!; try done; [..|lia|].
    all: intros k x Hx; destruct (db_executions db !! k) as [e|] eqn:He; [|done]; simpl in Hx;
      destruct (of_chunk _ _ _ k e) eqn:Ho; [|done]; injection Hx as <-;
      destruct (S3 k e He Ho) as [-> | ->]; done.
Qed.

Section verdicts.
Context {RF : ReceiptFunctions} {SF : SummaryFunctions}.
Variable budget : Uuid -> Z.
Variable bindings_value : list EvaluatorBinding -> Value.
Variable normalization_value : NormalizationPolicy -> Value.

Variable failure_value : Failure -> Value.
Variable uuid_text : Uuid -> string.

Notation reachable := (reachable budget bindings_value normalization_value failure_value uuid_text).

(** The receipt of a settled chunk of a consistent world. *)
Lemma settled_chunk_clean w k (ci : ChunkIdentity) r :
  world_ok budget w -> ci ∈ shard_chunks (w_db w) k.1 k.2 -> receipt_rel (w_db w) k.1 k.2 ci r ->
  receipt_clean r <->
  (forall c, db_chunks (w_db w) !! (k, ci_chunk_id ci) = Some c -> chunk_succeeded (w_db w) (k, ci_chunk_id ci) c).
Proof.
  intros Hok (c & Hc & _)%elem_of_shard_chunks (row & Hrow & <-). destruct k as [run_id run_shard]. simpl in *.
  destruct (inv_settlements _ _ (wo_inv _ _ Hok) _ _ Hrow) as (c' & Hc' & Hd & Ht & Hs & He).
  assert (c' = c) as -> by congruence.
  pose proof (ac_receipts _ (wo_accounts _ _ Hok) _ _ Hrow) as Hb. pose proof (ro_counts _ (wo_recounts _ _ Hok) _ _ Hrow) as Hk.
  simpl in Hb. rewrite <- Hs, <- He in Hb. rewrite Hd in Ht.
  rewrite (receipt_clean_iff (w_db w) _ _ _ c _ _ Ht Hd Hb Hk). split; [|auto]. intros Hsc c'' Hc''. by simplify_eq.
Qed.

Lemma settled_chunks_clean w k l rs :
  world_ok budget w -> Forall (fun ci => ci ∈ shard_chunks (w_db w) k.1 k.2) l ->
  Forall2 (receipt_rel (w_db w) k.1 k.2) l rs ->
  Forall receipt_clean rs <->
  Forall (fun ci => forall c, db_chunks (w_db w) !! (k, ci_chunk_id ci) = Some c ->
    chunk_succeeded (w_db w) (k, ci_chunk_id ci) c) l.
Proof.
  intros Hok Hsub Hrel. induction Hrel as [|ci r l rs Hr _ IH]; [by split; constructor|].
  apply Forall_cons in Hsub as [Hin Hsub]. rewrite !Forall_cons, (settled_chunk_clean w k ci r Hok Hin Hr).
  by rewrite IH.
Qed.

(** A sealed summary shows no failure exactly when every chunk of its shard
    went well, and its expectation is the planned cases. *)
Lemma sealed_shard_clean w k row :
  world_ok budget w -> db_summaries (w_db w) !! k = Some row -> rs_sealed (su_summary row) = true ->
  let s := su_summary row in
  (shard_clean s /\ rs_failed_chunk_count s = 0 /\ rs_cancelled_chunk_count s = 0 <->
   forall id c, db_chunks (w_db w) !! (k, id) = Some c -> chunk_succeeded (w_db w) (k, id) c) /\
  0 <= rs_failed_chunk_count s /\ 0 <= rs_cancelled_chunk_count s /\
  rs_execution_count s + rs_missing_execution_count s = sumz range_size (shard_chunks (w_db w) k.1 k.2).
Proof.
  intros Hok Hk Hs s.
  destruct (sealed_account _ w k row Hok Hk Hs) as (rs & _ & Hrel & Hexp & Hbal & Hf & _). fold s in Hf.
  unfold counter_fields in Hf. rewrite !Forall_cons in Hf.
  destruct Hf as ([E1 _] & _ & _ & _ & [E2 P2] & [E3 P3] & _ & _ & _ & _ & _ & [E4 P4] & [E5 P5] & [E6 P6] & [E7 P7] & _).
  split_and!; [|rewrite E4; by apply sumz_nonneg|rewrite E5; by apply sumz_nonneg|].
  - transitivity (Forall receipt_clean rs).
    { unfold shard_clean, receipt_clean. rewrite E2, E3, E4, E5, E6, E7, !sumz_zero by done. rewrite !Forall_and. tauto. }
    transitivity (Forall (fun ci => forall c, db_chunks (w_db w) !! (k, ci_chunk_id ci) = Some c ->
      chunk_succeeded (w_db w) (k, ci_chunk_id ci) c) (shard_chunks (w_db w) k.1 k.2)).
    + apply settled_chunks_clean; [done|by apply Forall_forall|done].
    + rewrite Forall_forall. split.
      * intros Hall id c Hc. apply (Hall (mkChunkIdentity id k.2 (ch_ordinal_start c) (ch_ordinal_end c)) ); [|done].
        apply elem_of_shard_chunks. exists c. simpl. by destruct k.
      * intros Hall ci _ c Hc. by apply Hall.
  - rewrite E1, E6, (sumz_related _ range_size rs_expected_execution_count _ rs Hexp) by (intros a b ->; done).
    symmetry. apply sumz_add. eapply Forall_impl; [exact Hbal|]. intros r [d Hb]. by apply (rb_planned _ _ _ _ _ Hb).
Qed.

(** The summaries are rows of the execution databases of their shards. *)
Definition collected (shards : Z -> World) (run_id : Uuid) (s : RunShardSummary) : Prop :=
  exists row, db_summaries (w_db (shards (rs_run_shard s))) !! (run_id, rs_run_shard s) = Some row /\ su_summary row = s.

Lemma collected_clean shards run_id s :
  reachable (shards (rs_run_shard s)) -> collected shards run_id s -> is_terminal s = true ->
  let db := w_db (shards (rs_run_shard s)) in
  (shard_clean s /\ rs_failed_chunk_count s = 0 /\ rs_cancelled_chunk_count s = 0 <->
   forall id c, db_chunks db !! (run_id, rs_run_shard s, id) = Some c ->
     chunk_succeeded db (run_id, rs_run_shard s, id) c) /\
  0 <= rs_failed_chunk_count s /\ 0 <= rs_cancelled_chunk_count s /\
  rs_execution_count s + rs_missing_execution_count s = sumz range_size (shard_chunks db run_id (rs_run_shard s)).
Proof.
  intros Hr%reachable_ok (row & Hrow & Heq) Ht. unfold is_terminal in Ht. rewrite !andb_true_iff in Ht.
  destruct Ht as [[[Hs _] _] _]. pose proof (sealed_shard_clean _ _ row Hr Hrow) as H. rewrite Heq in H. by apply H.
Qed.

(** C1: The gate of a run says what happened to its cases.  When a coordinator
    completes a run from the summaries collected from the execution databases of
    its shards, each in any state its workers, recovery sweeps, cancellations
    and page schedulers can reach, then the coordinator held the live
    finalization lease, the chunks of the placed shards hold exactly the
    expected executions of the run, the run row is completed with that gate,
    and the gate passes exactly when the merged scorecard passes and in every
    placed shard every chunk completed, every planned case has an execution and
    every execution passed or was skipped. *)
Theorem run_verdict (card_value : RunScorecard -> Value) (uuid_value : Uuid -> Value) (shards : Z -> World)
    (c c' : Control) (now run_id coordinator_id : Z) (policy : string) (summaries : list RunShardSummary)
    (done : FinalizedRun) :
  finalize_claimed_run_from_summaries card_value uuid_value c now run_id coordinator_id policy summaries
    = Ok (c', Some done) ->
  (forall shard, reachable (shards shard)) -> Forall (collected shards run_id) summaries ->
  exists r r' cards card,
    cd_runs c !! run_id = Some r /\ rw_status r = RunFinalizing /\
    rn_coordinator_id (rw_state r) = Some coordinator_id /\
    (exists t, rn_coordinator_leased_until (rw_state r) = Some t /\ now <= t) /\
    sumz (fun s => sumz range_size (shard_chunks (w_db (shards s)) run_id s)) (shards_of run_id (cd_placements c))
      = rw_expected_execution_count r /\
    cd_runs c' !! run_id = Some r' /\ rw_status r' = RunCompleted /\
    rn_gate_status (rw_state r') = fr_gate_status done /\
    mapM (fun s => scorecard_from_value (rs_scorecard s)) summaries = Ok cards /\
    merge_shard_scorecards policy cards = Ok card /\
    (fr_gate_status done = GatePass <->
       rs_passed card = true /\
       forall shard id ck, is_Some (cd_placements c !! (run_id, shard)) ->
         db_chunks (w_db (shards shard)) !! (run_id, shard, id) = Some ck ->
         chunk_succeeded (w_db (shards shard)) (run_id, shard, id) ck).
Proof.
  intros H Hreach Hcol. apply finalize_from_summaries_Ok in H as
    (r & card & cards & Hr & Hst & Hco & Hlease & Hterm & Hshards & _ & Hexp & Hcards & Hcard & _ & _
     & (r' & Hr' & Hst' & Hgate' & _) & _ & Hcov & Hgate).
  exists r, r', cards, card. split_and!; try done.
  - rewrite <- Hshards, <- Hexp.
    rewrite (sumz_perm _ _ _ (sort_z_perm _)), sumz_map. apply sumz_ext.
    rewrite !Forall_forall in *. intros s Hs. 
    destruct (collected_clean shards run_id s (Hreach _) (Hcol s Hs) (proj1 (Hterm s Hs))) as (_ & _ & _ & <-).
    by apply Hcov.
  - rewrite Hgate. clear -Hterm Hshards Hreach Hcol. rewrite Forall_forall in Hterm, Hcol.
    assert (Hclean : forall s, s ∈ summaries -> _) by
      (intros s Hs; exact (collected_clean shards run_id s (Hreach _) (Hcol s Hs) (proj1 (Hterm s Hs)))).
    assert (Hin : forall shard, is_Some (cd_placements c !! (run_id, shard)) <-> shard ∈ map rs_run_shard summaries).
    { intros shard. by rewrite <- elem_of_shards_of, <- Hshards, sort_z_perm. }
    rewrite (sumz_nonpos rs_failed_chunk_count), (sumz_nonpos rs_cancelled_chunk_count) by
      (apply Forall_forall; intros s Hs; by destruct (Hclean s Hs) as (_ & ? & ? & _)).
    apply and_iff_compat_l. setoid_rewrite Hin. rewrite <- !Forall_and, Forall_forall. split.
    + intros Hall shard id ck (s & -> & Hs)%list_elem_of_fmap Hck. by apply (Hclean s Hs); [apply Hall|].
    + intros Hall s Hs. apply (Hclean s Hs). intros id ck Hck. apply Hall; [|done]. by apply list_elem_of_fmap_2.
Qed.
End verdicts.

(** ** A run that passes *)

Module Passing.

Definition shard_plan : Value :=
  Object [("case_count", Num (PosInt 3)); ("chunk_count", Num (PosInt 1)); ("hash", Str "x")].
Definition context : RunContext :=
  mkRunContext "run" 1 2 "v1" "p" "1" "pv" "ph" "a" "1" "policy" "http" "agent" None "pc" "1"
    (Object [("settlement_plan", Object [("shards", Object [("3", shard_plan)]); ("version", Num (PosInt 1))])]).

Definition db0 : Database :=
  mkDatabase {[ 7 := context ]} {[ (7, 3, 40) := Sample.chunk ChPending None None ]} ∅ ∅ ∅ (mkEvidence ∅ ∅)
    {[ (7, 3) := mkAdmissionRow "a" 4 Open None None 0 ]} {[ (7, 3) := mkSnapshotRow context 3 ]} ∅ ∅ ∅ ∅.
Definition start : World := mkWorld db0 0 ∅ [].

(** A worker claims the chunk, runs its three cases, stores passing results,
    finishes the attempts and completes the chunk; two pages seal the summary. *)
Definition claim := claim_hinted_chunk_for_processing db0 0 500 Scenario.hint 40 30.
Definition working : World :=
  claimed start 500 (Scenario.or_else db0 claim) (Scenario.claimed_handle claim).
Definition case (id : Z) : WorkerCaseBatchItem :=
  mkWorkerCaseBatchItem id "h" (id - 60) "task" None Null Null Null (Array []) Null.
Definition allocation :=
  allocate_execution_attempts_for_cases (fun _ => Null) (fun _ => Null) (w_db working) 0 Scenario.handle Scenario.lease
    (sample_profile []) [case 60; case 61; case 62] [Scenario.plan; Scenario.plan; Scenario.plan]
    (fun id => id + 1000) (fun id => id + 2000).
Definition attempted : World := commit working (Scenario.committed (w_db working) allocation).
Definition result_of (id : Z) : CompletedExecutionPersistence :=
  mkCompletedExecutionPersistence (id + 1000) (id + 3000) 1 [] "passed" None 0 Null (Array []) Null.
Definition persistence :=
  persist_completed_execution_results_batch (w_db attempted) 0 Scenario.handle 90
    [result_of 60; result_of 61; result_of 62].
Definition scored : World := commit attempted (Scenario.committed (w_db attempted) persistence).
Definition transition (id : Z) : ExecutionTerminalTransition :=
  mkExecutionTerminalTransition (id + 1000) (id + 3000) 1 true None true None.
Definition finalization :=
  finalize_execution_terminal_transitions (fun _ => Null) (fun _ => "id") (w_db scored) 0 7 3 90 3
    [transition 60; transition 61; transition 62].
Definition finished : World := commit scored finalization.1.
Definition completing := mark_chunk_completed_and_settle (w_db finished) 0 Scenario.handle.
Definition settled : World := commit finished (Scenario.committed (w_db finished) completing).
Definition first_page := advance_shard_summary_page (w_db settled) 0 7 3 4 true.
Definition folded : World := commit settled (Scenario.committed (w_db settled) first_page).
Definition second_page := advance_shard_summary_page (w_db folded) 0 7 3 4 true.
Definition sealed : World := commit folded (Scenario.committed (w_db folded) second_page).
Definition summaries : list RunShardSummary := option_list (su_summary <$> db_summaries (w_db sealed) !! (7, 3)).

(** The control database of the run, claimed for finalization. *)
Definition run_row : RunRow :=
  mkRunRow None None context 3 0
    (mkRunState RunFinalizing GateUnknown (Some 9) (Some 1000) None 0 0 0 0 Null None None None None None 0).
Definition control : Control :=
  mkControl {[ 7 := run_row ]} ∅ ∅ ∅ {[ (7, 3) := mkPlacementRow "a" "active" None 1 4 ]}
    {[ (7, 3) := mkCursorRow CursorDrained 0 ]} ∅ ∅.
Definition finalized :=
  finalize_claimed_run_from_summaries (fun _ => Object [("gates", Array [])]) (fun _ => Null) control 0 7 9 "policy" summaries.

Notation step := (step Scenario.budget (fun _ => Null) (fun _ => Null) (fun _ => Null) (fun _ => "id")).

Lemma passing_handle_in : Scenario.handle ∈ w_handles working.
Proof. change (w_handles working) with [Scenario.handle]. set_solver. Qed.

Lemma passing_steps : rtc step start sealed.
Proof.
  apply (rtc_l _ _ working).
  { apply (s_claim_hinted _ _ _ _ _ start 500 Scenario.hint 40 30); [set_solver|by vm_compute]. }
  apply (rtc_l _ _ attempted).
  { apply (s_allocate Scenario.budget (fun _ => Null) (fun _ => Null) (fun _ => Null) (fun _ => "id")
      working Scenario.handle Scenario.lease (sample_profile []) [case 60; case 61; case 62]
      [Scenario.plan; Scenario.plan; Scenario.plan] (fun id => id + 1000) (fun id => id + 2000) _
      (match allocation with Ok (_, l) => l | Err _ => [] end)); [apply passing_handle_in|reflexivity|by vm_compute]. }
  apply (rtc_l _ _ scored).
  { apply (s_persist _ _ _ _ _ attempted Scenario.handle 90 [result_of 60; result_of 61; result_of 62] _
      (mkBatchPersistenceStats 0 0 0)); [apply passing_handle_in|by vm_compute]. }
  apply (rtc_l _ _ finished).
  { apply (s_finalize _ _ _ _ _ scored 7 3 90 3 [transition 60; transition 61; transition 62] _ (Ok tt)).
    by vm_compute. }
  apply (rtc_l _ _ settled).
  { apply (s_complete _ _ _ _ _ finished Scenario.handle _ 1); [apply passing_handle_in|by vm_compute]. }
  apply (rtc_l _ _ folded).
  { apply (s_aggregate _ _ _ _ _ settled 7 3 4 true _ Advanced). by vm_compute. }
  apply rtc_once. apply (s_aggregate _ _ _ _ _ folded 7 3 4 true _ Sealed). by vm_compute.
Qed.

Lemma passing_planned : planned start.
Proof.
  constructor; try reflexivity. intros k c Hk. cbn in Hk. apply lookup_singleton_Some in Hk as [_ <-]. by split.
Qed.

Lemma summaries_collected : Forall (collected (fun _ => sealed) 7) summaries.
Proof.
  unfold summaries. destruct (db_summaries (w_db sealed) !! (7, 3)) as [row|] eqn:E; [|constructor].
  assert (Hs : rs_run_shard (su_summary row) = 3).
  { enough (H : (fun r => rs_run_shard (su_summary r)) <$> db_summaries (w_db sealed) !! (7, 3) = Some 3)
      by (rewrite E in H; by injection H). by vm_compute. }
  apply Forall_singleton. unfold collected. rewrite Hs. exists row. split; [exact E|reflexivity].
Qed.

Definition completed : Control * option FinalizedRun := match finalized with Ok r => r | Err _ => (control, None) end.
Definition outcome : FinalizedRun := default (mkFinalizedRun 0 "" GateUnknown 0 0 0 0) completed.2.

End Passing.

Lemma run_verdict_witness :
  fr_gate_status Passing.outcome = GatePass /\
  (forall ck, db_chunks (w_db Passing.sealed) !! (7, 3, 40) = Some ck ->
     chunk_succeeded (w_db Passing.sealed) (7, 3, 40) ck).
Proof.
  assert (Hpass : fr_gate_status Passing.outcome = GatePass) by by vm_compute.
  split; [exact Hpass|]. intros ck Hck.
  destruct (run_verdict Scenario.budget (fun _ => Null) (fun _ => Null) (fun _ => Null) (fun _ => "id")
    (fun _ => Object [("gates", Array [])]) (fun _ => Null) (fun _ => Passing.sealed) Passing.control Passing.completed.1 0 7 9 "policy"
    Passing.summaries Passing.outcome) as (r & r' & cards & card & _ & _ & _ & _ & _ & _ & _ & _ & _ & _ & Hgate).
  - by vm_compute.
  - intros _. exists Passing.start. split; [exact Passing.passing_planned|exact Passing.passing_steps].
  - exact Passing.summaries_collected.
  - apply Hgate; [exact Hpass| |exact Hck]. vm_compute. eauto.
Defined.
